(* ===== verification/_CoqProject ===== *)
-Q . S2P
Prelude.v
FreeQueue.v
Request.v
BlockHash.v
BlockPool.v
SingleType.v
SingleTypeSafety.v
CacheHit.v
Recycling.v
Coordinator.v
CoordinatorSafety.v
KVCacheManager.v
KVSafety.v
HybridHit.v
CoordinatorHit.v
AdmissionSafety.v
NgramProposer.v
Heap.v
RequestQueue.v
StopCheck.v
OrderedDict.v
EncoderCache.v
PyNum.v
OffloadPolicy.v
OffloadManager.v
SchedulerState.v
EncoderScheduling.v
Scheduler.v
SchedulerSafety.v
SlotSafety.v
Grammar.v
Reasoning.v
StructuredOutput.v
StructuredSafety.v
Lifecycle.v
KVLoad.v
KVLoadSafety.v
LifecycleSafety.v
OutputUpdate.v
UpdateSafety.v
StructuredWitness.v
DraftSafety.v
EngineCore.v
EngineSafety.v
BatchSafety.v
EngineWitness.v
KVSpec.v
KVSpecSafety.v
KVConfig.v
KVConfigSafety.v
KVGroupSafety.v
KVPlanSafety.v
KVPageSafety.v
KVPlanWitness.v
KVStartup.v
KVStartupSafety.v
KVStartupWitness.v
Detokenizer.v
DetokenizerSafety.v
Outputs.v
OutputsSafety.v
FrontendWitness.v
