(* ===== verification/Prelude.v ===== *)
(** * The scheduler core of deepspark's vLLM overlay, verified

    The repository overlays the Python package vllm (src/overlay/vllm); paths
    below are relative to it. One engine-core process keeps all state of
    scheduling in Python objects: requests, the blocks of the KV cache and the
    hashes they are reused by, the encoder outputs, the queues, and the slots of
    blocks offloaded to CPU memory. This development translates that state and
    the code that changes it, and proves what the rest of the engine relies on.

    ** How the parts work together

    A request (v1/request.py) holds its tokens and, incrementally, the hash chain
    of its full blocks (v1/core/kv_cache_utils.py). The scheduler asks the KV
    cache manager (v1/core/kv_cache_manager.py) for cached prefixes and for slots.
    The manager drives a coordinator (v1/core/kv_cache_coordinator.py), which has
    one single-type manager for every group of layers with the same kind of
    attention (v1/core/single_type_kv_cache_manager.py). All single-type managers
    share one block pool (v1/core/block_pool.py): its reference counts, its map
    from hashes to cached blocks and its free list, an intrusive doubly linked
    list through the block objects. Around it stand the waiting queues
    (v1/core/sched/request_queue.py), the stop conditions (v1/core/sched/utils.py),
    the encoder cache (v1/core/encoder_cache_manager.py), the n-gram drafter
    (v1/spec_decode/ngram_proposer.py) and the manager of blocks offloaded to CPU
    memory with its eviction policies (v1/kv_offload/cpu). At start-up the layers of
    the model are put into groups and the memory of the workers is cut up
    (v1/kv_cache_interface.py, v1/core/kv_cache_utils.py). The structured output
    manager (v1/structured_output) advances the grammars and masks the tokens they
    exclude, once the model has reasoned (reasoning/). The engine
    (v1/engine/core.py) adds and aborts requests, lets the scheduler plan a step,
    has the executor run it, and lets the scheduler take the output in. In the
    process of the client its tokens become text, which is searched for stop strings
    and streamed (v1/engine/detokenizer.py, v1/engine/output_processor.py), and the
    completions of one prompt are put together (v1/engine/parallel_sampling.py).

    ** Files

    - [Prelude]: exceptions, the state-and-exception monad [M], the predicate
      transformers [wp] (returns normally) and [wpx] (with a postcondition for
      exceptions), [readonly], Python arithmetic, list lemmas, hint databases.
    - [FreeQueue]: KVCacheBlock and FreeKVCacheBlockQueue over an explicit store
      of block objects; [queue_rep] relates the links to a plain list.
    - [Request]: Request, RequestStatus, and the parameter objects they read.
    - [BlockHash]: block hashes, extra keys, the request block hasher, and
      BlockHashListWithBlockSize. The hash function is a parameter.
    - [BlockPool]: BlockHashToBlockMap and BlockPool; [pool_inv] ties reference
      counts, free list and hash map to the references held outside.
    - [SingleType]: the managers of full, sliding-window, chunked local, Mamba and
      cross attention, a method overridden by subclasses as a case distinction on
      [AttnSpec]. [SingleTypeSafety] proves that they keep the pool's invariant
      and what allocation, admission and release do; [CacheHit] what the searches
      for a cached prefix return and what sparse caching keeps; [Recycling] the
      blocks given back and the bound on those held.
    - [Coordinator]: construction of the coordinator and its operations over all
      groups. [CoordinatorSafety] lifts the invariant of one manager to all;
      [HybridHit] proves the fixed-point search against the interface
      [GroupSearch]; [CoordinatorHit] instantiates it for the built coordinator.
    - [KVCacheManager]: the interface of the scheduler. [KVSafety] proves its
      invariant over every sequence of operations, [AdmissionSafety] that
      allocate_slots never runs out of blocks halfway.
    - [NgramProposer]; [RequestQueue] over [Heap] (heapq, with the class
      [LinearLt] of its order); [StopCheck]; [EncoderCache] over [OrderedDict].
    - [SchedulerState]: the scheduler's data, with the classes [SlotManager] and
      [EncoderManager] through which it uses the two cache managers;
      [EncoderScheduling]: the encoder inputs of a step, proved ready;
      [Scheduler]: [schedule], one step of the synchronous or asynchronous
      scheduler (v1/core/sched/scheduler.py, async_scheduler.py, output.py).
      [SchedulerSafety] proves a step safe against the interface [SlotContract];
      [SlotSafety] discharges it for the KV cache manager without prefix caching.
    - [Grammar] (v1/structured_output/backend_*.py): the class
      [StructuredOutputGrammar] with its laws [GrammarLaws], the grammars of the
      four backends over classes for the third-party matchers; [Reasoning]
      (reasoning/): where the reasoning of a model ends; [StructuredOutput]: the
      manager of both. [StructuredSafety] proves the bitmask of a step exact against
      [GrammarLaws]; [StructuredWitness] makes the manager an instance of
      [GrammarManager] and [GrammarContract], and runs it over xgrammar.
    - [Lifecycle]: how requests enter and leave the scheduler, streaming sessions
      and cache resets; [OutputUpdate]: update_from_output of both schedulers, the
      drafts of the next step, and the class [GrammarManager]. [LifecycleSafety]
      and [UpdateSafety] prove that they lead from one state between steps to
      another (the latter against [GrammarContract]); [DraftSafety] what becomes
      of drafts that come in late.
    - [KVLoad]: what the scheduler does about blocks that come from or go to other
      machines, over the class [KVConnector]; [KVLoadSafety] proves that failed
      blocks are computed again, that requests resume when their blocks arrive, and
      that finished transfers are released.
    - [EngineCore]: EngineCore of v1/engine/core.py over the class [Executor].
      [EngineSafety] proves that no operation of the synchronous engine fails in a
      state it reaches, [BatchSafety] that batches in flight form a queue;
      [EngineWitness] runs the engine over the real KV cache manager.
    - [OffloadPolicy] and [OffloadManager]: the class [CachePolicy] with its laws
      [CachePolicyLaws], the LRU and ARC instances, and the manager proved
      against the class; also over [OrderedDict], and over [PyNum] (Python ints and
      binary64 floats in the executable form of the Standard Library).
    - [KVSpec] (v1/kv_cache_interface.py, v1/kv_cache_spec_registry.py): the specs
      of layers, one constructor for each class, their page sizes and memory, how
      they are merged and the registry of their managers, over the element types of
      torch ([TorchDtype]). [KVConfig]: the planning part of
      v1/core/kv_cache_utils.py, from the layers of every worker to groups, tensors
      and the number of blocks. [KVSpecSafety] bounds the memory of one request;
      [KVConfigSafety] proves the search for the longest request exact,
      [KVGroupSafety] that the groups cut up the model on every path, [KVPlanSafety]
      that the plans of the workers agree and fit, [KVPageSafety] that pages are
      unified; [KVPlanWitness] runs the planner and shows where it breaks its
      promises.
    - [KVStartup]: start-up of the KV cache (_initialize_kv_caches of
      v1/engine/core.py over the class [StartExecutor], and the block sizes of the
      scheduler). [KVStartupSafety] composes the planner with what runs on its plan:
      the workers get plans that agree, and the KV cache manager can be built;
      [KVStartupWitness] starts an engine with two stages.
    - [Detokenizer] (v1/engine/detokenizer.py, tokenizers/detokenizer_utils.py): the
      text of a request over the class [TokenDecoder], its fast and slow instances,
      stop strings and streaming. [DetokenizerSafety] proves that the search leaves no
      stop string in the text, and that what is streamed is the text, for every
      [TotalDecoder]. [Outputs]
      (outputs.py, RequestOutputCollector, v1/engine/parallel_sampling.py): the
      outputs of a client; [OutputsSafety] proves that merging them loses nothing
      and that several completions are answered once; [FrontendWitness] runs both.

    An operation of a Python class is a definition of the same name in the module
    of its class; where several classes use one name a prefix tells them apart
    ([c_] for the coordinator, [k_] for the KV cache manager, [ed_] for the
    encoder-decoder cache, [cpu_] for offloading, [dt_] for the detokenizer). Objects that code shares and
    mutates are references into a store ([FreeQueue.ref] for blocks, the [id()]
    of a request in [RequestQueue]); objects with one owner are values.

    ** What is proved

    - Safety of the KV cache: in every reachable state reference counts are the
      table entries of all groups, the free list is exactly the unreferenced
      blocks, cached hashes are those of the blocks' contents, nothing leaks.
    - Scheduling: a step returns from every state between steps and ends in one;
      no request is lost, the budgets hold, every running request has its slots.
    - The engine (synchronous, one sampled token a step): in every reachable state
      every operation returns; what the runner samples is appended to its request up
      to the stop and sent once to its client, rejected drafts are taken back, and
      requests that end give up everything they hold.
    - Refinements: the linked free list is a list; both request queues are the
      abstract queue; the admission check is what hits and allocation take.
    - Prefix caching: incremental hashes are the hash chain; equal hashes mean
      equal prefixes; a search returns cached blocks only, aligned, and the
      longest such prefix (but for short ones under EAGLE); the hybrid search
      terminates and backs every group.
    - Errors: which calls raise and that nothing changes then; that the others
      never raise is part of each functional statement ([wp]).
    - Structured output: every row of the bitmask is the mask of what may follow the
      drafts before it, validated drafts never make it fail, the grammars are left
      as they were, and what is reasoned does not reach them.
    - Remote blocks: nothing that failed to load counts as computed, requests whose
      blocks arrive are schedulable again, those sent are released.
    - Planning: layers are cut up into groups without loss, the tensors of a worker
      hold its layers and fit its memory, all workers have the same number of
      blocks, the start-up check admits what the plan holds, and the estimated
      maximum length is the longest that fits; the block sizes resolved from the
      plan are those its coordinator accepts.
    - The front end: a text that grows by a character keeps no stop string, a client
      gets the text of its request and no more, however slowly it reads, and all
      completions of a prompt at once if it does not stream.
    - The encoder inputs of a step are affordable, fit the encoder cache, and with
      what the cache holds they are all that the step reads.
    - The encoder cache never overcommits; generation stops in time; the
      linear-time n-gram search is the direct search; offloaded blocks are not
      lost while they are read, and the adaptive policy's floating-point target
      stays within its bounds.
    - Some theorems show code that does not do what its comments promise, on a
      concrete state; each says so in its comment.

    ** Fuel

    Loops of the source without a structural measure take fuel; running out is the
    exception [OutOfFuel], and the theorems show that it never happens: [hash_loop]
    (each round advances a block of tokens), [walk] (each round leaves a block
    of the list), [hit_loop] (the length decreases until it is stable),
    [align_loop] (each round pops a block), [bisect_loop] (the interval shrinks),
    [kmp_loop] (the measure [kmp_measure]), the sifting loops of [Heap] (the
    position doubles or halves), the loops of [Scheduler] (each round visits,
    preempts or dequeues a request), [preempt_all] (each round preempts one) and
    [search_loop] (the interval shrinks).

    ** Integers

    Python ints are [Z]. Widths matter in three places and are written out there:
    the four bytes of a group id, the 64-bit conversion of a hash for events, and
    the c_int32 and c_int64 fields of BlockStatus, with their wrap-around.

    ** Not modelled

    - Of v1/core/sched/scheduler.py: how [schedule] asks a KV connector for cached
      tokens and [update_from_output] passes its output on (no connector there; what
      it does otherwise is [KVLoad]), encoder-cache connectors, routed experts, statistics, and what is only passed on to clients
      (logprobs of samples, trace headers, events of requests). The theorems about
      the engine are for the synchronous scheduler with one sampled token a step
      and requests that are no sessions; the code is modelled for all.
    - Of structured output: compiling grammars, which the backends leave to their
      libraries; the matchers of these are parameters with their documented laws. Of
      the reasoning parsers: what they do on text, for the HTTP frontends.
    - Of v1/engine/core.py: start-up but for the KV cache, sleeping, profiling and LoRA calls, which it
      passes to the executor, and EngineCoreProc with its sockets and threads.
    - Of v1/engine/output_processor.py: the tables of requests with their aborts,
      streaming input, the interval at which tokens are sent, log probabilities,
      statistics and tracing. Tokenizers are third-party code and parameters.
    - Workers, model runners, CUDA and Triton kernels, attention backends, model
      definitions, quantization and compilation: numerical code on devices.
    - distributed/, executors, the engine's processes and sockets, entrypoints,
      configuration, metrics and logging: I/O and glue, or calls into libraries.
    - Of planning: the kinds of layers that a platform registers beside those of the
      repository, log messages, and the formatting of sizes in error messages. Every
      layer has a spec object of its own: where padding writes to a spec, no other
      layer sees it. The theorems about memory are for layers with positive sizes
      ([groups_ok]).
    - Observers that do not influence the modelled state: the metrics collector
      of the block pool, logging, usage gauges.
    - Vendored third-party code (vllm_flash_attn, third_party, triton_kernels). *)

(** ** Prelude

    Shared vocabulary of the development: Python exceptions, the monad of
    stateful fallible code with its total-correctness predicate transformer,
    Python arithmetic and slicing, byte strings, and the generic list lemmas
    that several components use. *)

From stdpp Require Export base list gmap fin_maps sets strings.
From Stdlib Require Export ZArith Lia.
From Stdlib Require Import Strings.Byte.

#[global] Set Default Goal Selector "!".

(** ** Python exceptions and the state-and-exception monad *)

Inductive exn :=
| AssertionError
| ValueError
| RuntimeError
| IndexError
| KeyError
| AttributeError
| NotImplementedError
| OverflowError
| ZeroDivisionError
| StopIteration
| TypeError
| OutOfFuel.

#[export] Instance exn_eq_dec : EqDecision exn.
Proof. solve_decision. Defined.

Inductive result (A : Type) :=
| Ok (a : A)
| Err (e : exn).
Arguments Ok {A} a.
Arguments Err {A} e.

(** A Python statement may raise after it has already mutated objects, so the
    state survives an exception. *)
Definition M (S A : Type) : Type := S -> result A * S.

#[export] Instance M_ret {S} : MRet (M S) := fun A a s => (Ok a, s).

#[export] Instance M_bind {S} : MBind (M S) := fun A B k m s =>
  match m s with
  | (Ok a, s') => k a s'
  | (Err e, s') => (Err e, s')
  end.

Definition raise {S A} (e : exn) : M S A := fun s => (Err e, s).
Definition get {S} : M S S := fun s => (Ok s, s).
Definition gets {S A} (f : S -> A) : M S A := fun s => (Ok (f s), s).
Definition modify {S} (f : S -> S) : M S unit := fun s => (Ok tt, f s).
Definition assert_ {S} (b : bool) : M S unit :=
  if b then mret tt else raise AssertionError.
Definition of_option {S A} (e : exn) (o : option A) : M S A :=
  match o with Some a => mret a | None => raise e end.

(** [for x in l: f x] *)
Fixpoint for_each {S A} (f : A -> M S unit) (l : list A) : M S unit :=
  match l with
  | [] => mret tt
  | x :: l' => f x ;; for_each f l'
  end.

(** [for x in l: acc = f acc x] *)
Fixpoint for_fold {S A B} (f : B -> A -> M S B) (l : list A) (acc : B) : M S B :=
  match l with
  | [] => mret acc
  | x :: l' => acc' ← f acc x; for_fold f l' acc'
  end.

(** [[f x for x in l]] with an effectful body *)
Fixpoint map_m {S A B} (f : A -> M S B) (l : list A) : M S (list B) :=
  match l with
  | [] => mret []
  | x :: l' => y ← f x; ys ← map_m f l'; mret (y :: ys)
  end.

(** Run code on a component of a larger state. *)
Definition zoom {S1 S2 A} (get1 : S2 -> S1) (set1 : S1 -> S2 -> S2) (m : M S1 A)
    : M S2 A :=
  fun s => match m (get1 s) with (r, s1) => (r, set1 s1 s) end.

(** ** Total correctness: [wp m Q s] holds when [m], started in [s], returns
    normally with a value and a final state that satisfy [Q]. *)
Definition wp {S A} (m : M S A) (Q : A -> S -> Prop) (s : S) : Prop :=
  match m s with
  | (Ok a, s') => Q a s'
  | (Err _, _) => False
  end.

Section wp_rules.
Context {S : Type}.

Lemma wp_ret {A} (a : A) Q (s : S) : Q a s -> wp (mret a) Q s.
Proof. done. Qed.

Lemma wp_bind {A B} (m : M S A) (k : A -> M S B) Q s :
  wp m (fun a s' => wp (k a) Q s') s -> wp (m ≫= k) Q s.
Proof. unfold wp, mbind, M_bind. by destruct (m s) as [[a|e] s']. Qed.

Lemma wp_mono {A} (m : M S A) (Q Q' : A -> S -> Prop) s :
  wp m Q s -> (forall a s', Q a s' -> Q' a s') -> wp m Q' s.
Proof. unfold wp. destruct (m s) as [[a|e] s']; auto. Qed.

Lemma wp_get Q (s : S) : Q s s -> wp get Q s.
Proof. done. Qed.

Lemma wp_gets {A} (f : S -> A) Q (s : S) : Q (f s) s -> wp (gets f) Q s.
Proof. done. Qed.

Lemma wp_modify (f : S -> S) Q s : Q tt (f s) -> wp (modify f) Q s.
Proof. done. Qed.

Lemma wp_assert (b : bool) Q (s : S) : b = true -> Q tt s -> wp (assert_ b) Q s.
Proof. by intros ->. Qed.

Lemma wp_of_option {A} e (o : option A) a Q (s : S) :
  o = Some a -> Q a s -> wp (of_option e o) Q s.
Proof. by intros ->. Qed.

(** Loop rule: the invariant speaks of the elements done and still to do. *)
Lemma wp_for_each {A} (I : list A -> list A -> S -> Prop) (f : A -> M S unit) l s :
  I [] l s ->
  (forall l1 x l2 s', l = l1 ++ x :: l2 -> I l1 (x :: l2) s' ->
     wp (f x) (fun _ s'' => I (l1 ++ [x]) l2 s'') s') ->
  wp (for_each f l) (fun _ s' => I l [] s') s.
Proof.
  intros H0 Hstep.
  assert (Hgen : forall l1 l2 s', l = l1 ++ l2 -> I l1 l2 s' ->
            wp (for_each f l2) (fun _ s'' => I l [] s'') s').
  { intros l1 l2; revert l1. induction l2 as [|x l2 IH]; intros l1 s' Hl HI; simpl.
    - apply wp_ret. rewrite app_nil_r in Hl. by subst.
    - apply wp_bind. eapply wp_mono; [by apply (Hstep l1 x l2)|].
      intros [] s'' HI'. apply (IH (l1 ++ [x])); [|done]. by rewrite <- app_assoc. }
  apply (Hgen [] l); done.
Qed.

Lemma wp_for_fold {A B} (I : list A -> list A -> B -> S -> Prop) (f : B -> A -> M S B) l b s :
  I [] l b s ->
  (forall l1 x l2 b' s', l = l1 ++ x :: l2 -> I l1 (x :: l2) b' s' ->
     wp (f b' x) (fun b'' s'' => I (l1 ++ [x]) l2 b'' s'') s') ->
  wp (for_fold f l b) (fun b' s' => I l [] b' s') s.
Proof.
  intros H0 Hstep.
  assert (Hgen : forall l1 l2 b' s', l = l1 ++ l2 -> I l1 l2 b' s' ->
            wp (for_fold f l2 b') (fun b'' s'' => I l [] b'' s'') s').
  { intros l1 l2; revert l1. induction l2 as [|x l2 IH]; intros l1 b' s' Hl HI; simpl.
    - apply wp_ret. rewrite app_nil_r in Hl. by subst.
    - apply wp_bind. eapply wp_mono; [by apply (Hstep l1 x l2)|].
      intros b'' s'' HI'. apply (IH (l1 ++ [x])); [|done]. by rewrite <- app_assoc. }
  apply (Hgen [] l); done.
Qed.

(** A computation that satisfies [wp] returns. *)
Lemma wp_returns {A} (m : M S A) Q s :
  wp m Q s -> exists a s', m s = (Ok a, s') /\ Q a s'.
Proof. unfold wp. destruct (m s) as [[a|e] s']; [eauto|done]. Qed.

Lemma wp_run {A} (m : M S A) Q s a s' :
  m s = (Ok a, s') -> wp m Q s -> Q a s'.
Proof. unfold wp. by intros ->. Qed.
End wp_rules.

Lemma wp_zoom {S1 S2 A} (g : S2 -> S1) (st : S1 -> S2 -> S2) (m : M S1 A) Q s :
  wp m (fun a s1 => Q a (st s1 s)) (g s) -> wp (zoom g st m) Q s.
Proof. unfold wp, zoom. by destruct (m (g s)) as [[a|e] s1]. Qed.

(** Syntax-directed steps of [wp]; the remaining goals are about pure code. *)
Ltac wp_step :=
  lazymatch goal with
  | |- wp (mret _) _ _ => apply wp_ret
  | |- wp (_ ≫= _) _ _ => apply wp_bind
  | |- wp get _ _ => apply wp_get
  | |- wp (gets _) _ _ => apply wp_gets
  | |- wp (modify _) _ _ => apply wp_modify
  | |- wp (zoom _ _ _) _ _ => apply wp_zoom
  | |- wp (assert_ _) _ _ => apply wp_assert
  end.
Ltac wp_steps := repeat (wp_step; cbn beta).

(** ** Outcomes: [wpx m Q E s] says what holds if [m] returns, and what holds if
    it raises. With [E] false it is [wp], with [E] true it is partial
    correctness. *)
Definition wpx {S A} (m : M S A) (Q : A -> S -> Prop) (E : exn -> S -> Prop) (s : S) : Prop :=
  match m s with
  | (Ok a, s') => Q a s'
  | (Err e, s') => E e s'
  end.
Definition may_raise {S} (e : exn) (s : S) : Prop := True.
Notation wlp m Q s := (wpx m Q may_raise s).

Section wpx_rules.
Context {S : Type}.
Implicit Types E : exn -> S -> Prop.

Lemma wpx_wp {A} (m : M S A) Q E s : wp m Q s -> wpx m Q E s.
Proof. unfold wp, wpx. by destruct (m s) as [[a|e] s']. Qed.

Lemma wp_wpx {A} (m : M S A) Q E s :
  wpx m Q E s -> (forall e s', m s = (Err e, s') -> E e s' -> False) -> wp m Q s.
Proof. unfold wp, wpx. destruct (m s) as [[a|e] s']; [done|]. intros H HE. by eapply HE. Qed.

Lemma wpx_run {A} (m : M S A) Q E s a s' : m s = (Ok a, s') -> wpx m Q E s -> Q a s'.
Proof. unfold wpx. by intros ->. Qed.

Lemma wpx_ret {A} (a : A) Q E s : Q a s -> wpx (mret a) Q E s.
Proof. done. Qed.

Lemma wpx_raise {A} e (Q : A -> S -> Prop) E s : E e s -> wpx (raise e) Q E s.
Proof. done. Qed.

Lemma wpx_bind {A B} (m : M S A) (k : A -> M S B) Q E s :
  wpx m (fun a s' => wpx (k a) Q E s') E s -> wpx (m ≫= k) Q E s.
Proof. unfold wpx, mbind, M_bind. by destruct (m s) as [[a|e] s']. Qed.

Lemma wpx_mono {A} (m : M S A) (Q Q' : A -> S -> Prop) (E E' : exn -> S -> Prop) s :
  wpx m Q E s -> (forall a s', Q a s' -> Q' a s') -> (forall e s', E e s' -> E' e s') ->
  wpx m Q' E' s.
Proof. unfold wpx. destruct (m s) as [[a|e] s']; auto. Qed.

Lemma wlp_mono {A} (m : M S A) (Q Q' : A -> S -> Prop) s :
  wlp m Q s -> (forall a s', Q a s' -> Q' a s') -> wlp m Q' s.
Proof. intros H HQ. by eapply wpx_mono. Qed.

Lemma wpx_get Q E s : Q s s -> wpx get Q E s.
Proof. done. Qed.

Lemma wpx_gets {A} (f : S -> A) Q E s : Q (f s) s -> wpx (gets f) Q E s.
Proof. done. Qed.

Lemma wpx_modify (f : S -> S) Q E s : Q tt (f s) -> wpx (modify f) Q E s.
Proof. done. Qed.

Lemma wpx_assert (b : bool) Q E s :
  (b = true -> Q tt s) -> (b = false -> E AssertionError s) -> wpx (assert_ b) Q E s.
Proof. destruct b; unfold wpx; simpl; auto. Qed.

Lemma wlp_assert (b : bool) Q (s : S) : (b = true -> Q tt s) -> wlp (assert_ b) Q s.
Proof. intros H. by apply wpx_assert. Qed.

Lemma wlp_of_option {A} e (o : option A) Q (s : S) :
  (forall a, o = Some a -> Q a s) -> wlp (of_option e o) Q s.
Proof. destruct o; [by intros H; apply H|done]. Qed.

Lemma wlp_for_each {A} (I : list A -> list A -> S -> Prop) (f : A -> M S unit) l s :
  I [] l s ->
  (forall l1 x l2 s', l = l1 ++ x :: l2 -> I l1 (x :: l2) s' ->
     wlp (f x) (fun _ s'' => I (l1 ++ [x]) l2 s'') s') ->
  wlp (for_each f l) (fun _ s' => I l [] s') s.
Proof.
  intros H0 Hstep.
  assert (Hgen : forall l1 l2 s', l = l1 ++ l2 -> I l1 l2 s' ->
            wlp (for_each f l2) (fun _ s'' => I l [] s'') s').
  { intros l1 l2; revert l1. induction l2 as [|x l2 IH]; intros l1 s' Hl HI; simpl.
    - apply wpx_ret. rewrite app_nil_r in Hl. by subst.
    - apply wpx_bind. eapply wlp_mono; [by apply (Hstep l1 x l2)|].
      intros [] s'' HI'. apply (IH (l1 ++ [x])); [|done]. by rewrite <- app_assoc. }
  apply (Hgen [] l); done.
Qed.
Lemma wlp_for_fold {A B} (I : list A -> B -> S -> Prop) (f : B -> A -> M S B) l b s :
  I l b s ->
  (forall x l2 b' s', x ∈ l -> I (x :: l2) b' s' -> wlp (f b' x) (fun b'' s'' => I l2 b'' s'') s') ->
  wlp (for_fold f l b) (fun b' s' => I [] b' s') s.
Proof.
  revert b s. induction l as [|x l IH]; intros b s H0 Hstep; simpl; [by apply wpx_ret|].
  apply wpx_bind. eapply wlp_mono; [apply (Hstep x l); [set_solver|done]|].
  intros b' s' HI. apply IH; [done|]. intros. apply Hstep; [set_solver|done].
Qed.
End wpx_rules.

Lemma wpx_zoom {S1 S2 A} (g : S2 -> S1) (st : S1 -> S2 -> S2) (m : M S1 A) Q
    (E : exn -> S2 -> Prop) s :
  wpx m (fun a s1 => Q a (st s1 s)) (fun e s1 => E e (st s1 s)) (g s) -> wpx (zoom g st m) Q E s.
Proof. unfold wpx, zoom. by destruct (m (g s)) as [[a|e] s1]. Qed.

Ltac wpx_step :=
  lazymatch goal with
  | |- wpx (mret _) _ _ _ => apply wpx_ret
  | |- wpx (raise _) _ _ _ => apply wpx_raise
  | |- wpx (_ ≫= _) _ _ _ => apply wpx_bind
  | |- wpx get _ _ _ => apply wpx_get
  | |- wpx (gets _) _ _ _ => apply wpx_gets
  | |- wpx (modify _) _ _ _ => apply wpx_modify
  | |- wpx (zoom _ _ _) _ _ _ => apply wpx_zoom
  end.
Ltac wpx_steps := repeat (wpx_step; cbn beta).

(** ** Code that only reads *)

Definition readonly {S A} (m : M S A) : Prop := forall s, (m s).2 = s.

Section readonly.
Context {S : Type}.

Lemma ro_ret {A} (a : A) : readonly (S := S) (mret a).
Proof. done. Qed.
Lemma ro_raise {A} e : readonly (S := S) (A := A) (raise e).
Proof. done. Qed.
Lemma ro_get : readonly (S := S) get.
Proof. done. Qed.
Lemma ro_gets {A} (f : S -> A) : readonly (gets f).
Proof. done. Qed.
Lemma ro_assert b : readonly (S := S) (assert_ b).
Proof. by destruct b. Qed.
Lemma ro_of_option {A} e (o : option A) : readonly (S := S) (of_option e o).
Proof. by destruct o. Qed.
Lemma ro_bind {A B} (m : M S A) (k : A -> M S B) :
  readonly m -> (forall a, readonly (k a)) -> readonly (m ≫= k).
Proof.
  intros Hm Hk s. unfold mbind, M_bind. specialize (Hm s). destruct (m s) as [[a|e] s']; simpl in *.
  - subst. apply Hk.
  - done.
Qed.
Lemma ro_map_m {A B} (f : A -> M S B) l : (forall x, readonly (f x)) -> readonly (map_m f l).
Proof.
  intros Hf. induction l as [|x l IH]; simpl; [apply ro_ret|].
  apply ro_bind; [apply Hf|intros y]. apply ro_bind; [exact IH|intros ys; apply ro_ret].
Qed.
Lemma ro_for_fold {A B} (f : B -> A -> M S B) l : forall acc,
  (forall b x, readonly (f b x)) -> readonly (for_fold f l acc).
Proof.
  induction l as [|x l IH]; intros acc Hf; simpl; [apply ro_ret|].
  apply ro_bind; [apply Hf|intros y; by apply IH].
Qed.

(** A read-only computation: its postcondition holds of the value alone. *)
Lemma ro_run {A} (m : M S A) s : readonly m -> m s = ((m s).1, s).
Proof. intros Hm. specialize (Hm s). destruct (m s); simpl in *. by subst. Qed.
Lemma ro_wlp {A} (m : M S A) (Q : A -> S -> Prop) s :
  readonly m -> (forall a, m s = (Ok a, s) -> Q a s) -> wlp m Q s.
Proof.
  intros Hm HQ. unfold wpx. pose proof (ro_run m s Hm) as E. destruct (m s) as [[a|e] s']; simpl in *.
  - injection E as ->. by apply HQ.
  - done.
Qed.
End readonly.

Lemma ro_zoom {S1 S2 A} (g : S2 -> S1) (st : S1 -> S2 -> S2) (m : M S1 A) :
  (forall s, st (g s) s = s) -> readonly m -> readonly (zoom g st m).
Proof. intros Hs Hm s. unfold zoom. specialize (Hm (g s)). destruct (m (g s)); simpl in *. by subst. Qed.

(** Discharges [readonly] goals down to the calls of other functions, which the
    hints of [vllm_ro] resolve. *)
Create HintDb vllm_ro.
#[export] Hint Resolve ro_ret ro_raise ro_get ro_gets ro_assert ro_of_option : vllm_ro.
Ltac ro_step :=
  first [ solve [eauto 2 with vllm_ro]
        | apply ro_bind; [|intros ?]
        | apply ro_map_m; intros ?
        | apply ro_for_fold; intros ? ?
        | match goal with |- readonly (match ?x with _ => _ end) => destruct x end
        | match goal with |- readonly (let _ := _ in _) => cbv zeta end ].
Ltac ro := repeat ro_step.

(** ** Python arithmetic *)

(** [vllm.utils.math_utils.cdiv]: [-(a // -b)]; Python's [//] floors, as
    [Z.div] does. *)
Definition cdiv (a b : Z) : Z := (- (a / - b))%Z.

Lemma cdiv_spec a b : (0 < b -> cdiv a b = (a + b - 1) / b)%Z.
Proof.
  intros Hb. unfold cdiv.
  assert (Ha : (a / - b = - ((a + b - 1) / b))%Z); [|lia].
  pose proof (Z.div_mod (a + b - 1)%Z b ltac:(lia)) as Hd.
  pose proof (Z.mod_pos_bound (a + b - 1)%Z b Hb) as Hm.
  symmetry. eapply (Z.div_unique _ _ _ ((a + b - 1) mod b - b + 1)%Z); [|nia].
  right; lia.
Qed.

Lemma cdiv_le_iff a b n : (0 < b)%Z -> (cdiv a b <= n <-> a <= n * b)%Z.
Proof.
  intros Hb. rewrite cdiv_spec by done.
  pose proof (Z.div_mod (a + b - 1)%Z b ltac:(lia)).
  pose proof (Z.mod_pos_bound (a + b - 1)%Z b Hb). nia.
Qed.

Lemma cdiv_mono a b n : (0 < n -> a <= b -> cdiv a n <= cdiv b n)%Z.
Proof.
  intros Hn Hab. rewrite cdiv_le_iff by done.
  pose proof (proj1 (cdiv_le_iff b n (cdiv b n) Hn) ltac:(lia)). lia.
Qed.

Lemma cdiv_nonneg a b : (0 < b -> 0 <= a -> 0 <= cdiv a b)%Z.
Proof. intros. rewrite cdiv_spec by done. apply Z.div_pos; lia. Qed.

(** Length of a list as a Python integer. *)
Notation zlen l := (Z.of_nat (length l)).

(** [range(n)] for a Python integer: empty when [n <= 0]. *)
Definition zrange (n : Z) : list Z := Z.of_nat <$> seq 0 (Z.to_nat n).

(** [l[a:b]] for bounds [0 <= a], [0 <= b]. *)
Definition slice {A} (a b : nat) (l : list A) : list A := take (b - a) (drop a l).

(** Python truthiness of an optional value whose payload is never falsy. *)
Definition is_some {A} (o : option A) : bool :=
  match o with Some _ => true | None => false end.

(** ** Byte strings *)

Notation bytes := (list Byte.byte).

#[export] Instance byte_eq_dec' : EqDecision Byte.byte := Byte.byte_eq_dec.
#[export] Program Instance byte_countable : Countable Byte.byte :=
  inj_countable Byte.to_N Byte.of_N _.
Next Obligation. apply Byte.of_to_N. Qed.

(** ** Lists *)

Section lists.
Context {A : Type}.
Implicit Types l : list A.

Lemma slice_all l : slice 0 (length l) l = l.
Proof. unfold slice. rewrite drop_0, Nat.sub_0_r. apply firstn_all. Qed.

Lemma length_slice a b l : b <= length l -> length (slice a b l) = b - a.
Proof. intros. unfold slice. rewrite length_take, length_drop. lia. Qed.

Lemma NoDup_app_comm l1 l2 : NoDup (l1 ++ l2) -> NoDup (l2 ++ l1).
Proof. by rewrite (Permutation_app_comm l1 l2). Qed.

Lemma take_app_drop_split n l : n <= length l ->
  exists l1 l2, l = l1 ++ l2 /\ length l1 = n /\ l1 = take n l /\ l2 = drop n l.
Proof.
  intros. exists (take n l), (drop n l). rewrite take_drop, length_take.
  repeat split; lia.
Qed.
End lists.

(** Occurrences of a value in a list. *)
Section count.
Context {A : Type} `{!EqDecision A}.

Fixpoint count (x : A) (l : list A) : nat :=
  match l with
  | [] => 0
  | y :: l' => (if decide (x = y) then 1 else 0) + count x l'
  end.

Lemma count_app x l1 l2 : count x (l1 ++ l2) = count x l1 + count x l2.
Proof. induction l1 as [|y l1 IH]; simpl; [done|]. rewrite IH. lia. Qed.

Lemma count_not_in x l : x ∉ l -> count x l = 0.
Proof.
  induction l as [|y l IH]; simpl; [done|]. intros Hn.
  rewrite decide_False by set_solver. rewrite IH by set_solver. done.
Qed.

Lemma count_pos x l : x ∈ l <-> 0 < count x l.
Proof.
  induction l as [|y l IH]; simpl.
  - split; [set_solver|lia].
  - rewrite elem_of_cons, IH. case_decide; split; intros; [lia|auto|destruct H0; [done|lia]|right; lia].
Qed.

Lemma count_nodup x l : NoDup l -> count x l <= 1.
Proof.
  induction 1 as [|y l Hn _ IH]; simpl; [lia|].
  case_decide; [subst; rewrite count_not_in by done; lia|lia].
Qed.

Lemma count_insert b (l : list A) i x y : l !! i = Some x ->
  count b (<[i := y]> l) + (if decide (b = x) then 1 else 0)
  = count b l + (if decide (b = y) then 1 else 0).
Proof.
  revert i. induction l as [|z l IH]; intros [|i] Hi; simplify_eq/=; [lia|].
  specialize (IH i Hi). lia.
Qed.

#[global] Instance count_perm x : Proper (Permutation ==> eq) (count x).
Proof. intros l1 l2 H; induction H; simpl; lia. Qed.

Lemma count_reverse x l : count x (reverse l) = count x l.
Proof. by rewrite reverse_Permutation. Qed.
End count.

Create HintDb vllm discriminated.

(** ** Lists *)

Lemma filter_all {A} (P : A -> Prop) `{forall x, Decision (P x)} (l : list A) :
  (forall x, x ∈ l -> P x) -> filter P l = l.
Proof.
  induction l as [|x l IH]; [done|]. intros Hl. rewrite filter_cons_True by (apply Hl; by left).
  rewrite IH; [done|]. intros y Hy. apply Hl. by right.
Qed.

(** ** Sums *)

Definition zsum (l : list Z) : Z := foldr Z.add 0%Z l.

Lemma zsum_cons x l : zsum (x :: l) = (x + zsum l)%Z.
Proof. done. Qed.

Lemma zsum_app l k : zsum (l ++ k) = (zsum l + zsum k)%Z.
Proof. unfold zsum. induction l as [|x l IH]; simpl; [done|]. rewrite IH. lia. Qed.

Lemma zsum_add {A} (f g : A -> Z) l : zsum ((fun x => f x + g x)%Z <$> l) = (zsum (f <$> l) + zsum (g <$> l))%Z.
Proof. induction l as [|x l IH]; [done|]. rewrite !fmap_cons, !zsum_cons, IH. lia. Qed.

#[export] Instance zsum_perm : Proper ((≡ₚ) ==> (=)) zsum.
Proof.
  intros l k H. induction H as [|x l k _ IH|x y l|l k k' _ IH1 _ IH2]; rewrite ?zsum_cons in *; [done|lia|lia|congruence].
Qed.
