(* ===== verification/FreeQueue.v ===== *)
(** * FreeQueue

    [KVCacheBlock] and [FreeKVCacheBlockQueue] of v1/core/kv_cache_utils.py: the
    block objects in one shared store, the intrusive doubly linked free list
    with its two sentinels, and the proof that its operations refine a plain
    list of blocks. *)

From S2P Require Import Prelude.

Module FreeQueue.

(** ** Block objects and references

    A reference to a [KVCacheBlock] object: the two sentinels of the queue
    (whose [block_id] is -1) or the block that the pool created for an index.
    [block_id] is assigned once, at construction, so it is a function of the
    reference. *)
Inductive ref :=
| FakeHead
| FakeTail
| Blk (i : nat).

#[export] Instance ref_eq_dec : EqDecision ref.
Proof. solve_decision. Defined.
#[export] Program Instance ref_countable : Countable ref :=
  inj_countable' (fun r => match r with
                           | FakeHead => 0 | FakeTail => 1 | Blk i => S (S i)
                           end)
                 (fun n => match n with
                           | 0 => FakeHead | 1 => FakeTail | S (S i) => Blk i
                           end) _.
Next Obligation. by intros []. Qed.

Definition block_id (r : ref) : Z :=
  match r with Blk i => Z.of_nat i | _ => (-1)%Z end.

Record KVCacheBlock := mkBlock {
  ref_cnt : Z;
  block_hash : option bytes;
  prev_free_block : option ref;
  next_free_block : option ref;
  is_null : bool
}.

(** [KVCacheBlock(block_id=...)]: the dataclass defaults. *)
Definition new_block : KVCacheBlock := mkBlock 0 None None None false.

Definition with_prev (p : option ref) (b : KVCacheBlock) : KVCacheBlock :=
  mkBlock (ref_cnt b) (block_hash b) p (next_free_block b) (is_null b).
Definition with_next (n : option ref) (b : KVCacheBlock) : KVCacheBlock :=
  mkBlock (ref_cnt b) (block_hash b) (prev_free_block b) n (is_null b).

Record queue := mkQueue {
  store : gmap ref KVCacheBlock;
  num_free_blocks : Z
}.

Definition on_store (f : gmap ref KVCacheBlock -> gmap ref KVCacheBlock) (q : queue) : queue :=
  mkQueue (f (store q)) (num_free_blocks q).
Definition add_num_free (d : Z) (q : queue) : queue :=
  mkQueue (store q) (num_free_blocks q + d).

(** Attribute reads and writes through a reference. *)
Definition deref (r : ref) : M queue KVCacheBlock :=
  s ← gets store; of_option AttributeError (s !! r).
Definition get_prev (r : ref) : M queue (option ref) :=
  b ← deref r; mret (prev_free_block b).
Definition get_next (r : ref) : M queue (option ref) :=
  b ← deref r; mret (next_free_block b).
Definition set_prev (r : ref) (p : option ref) : M queue unit :=
  b ← deref r; modify (on_store (insert r (with_prev p b))).
Definition set_next (r : ref) (n : option ref) : M queue unit :=
  b ← deref r; modify (on_store (insert r (with_next n b))).

(** ** The operations of [FreeKVCacheBlockQueue] *)

(** [__init__(self, blocks)]: link consecutive blocks, then create the two
    sentinels and connect them. *)
Definition init_link (blocks : list ref) (n : nat) (i : nat) : M queue unit :=
  b ← of_option IndexError (blocks !! i);
  (if decide (0 < i) then
     p ← of_option IndexError (blocks !! (i - 1)); set_prev b (Some p)
   else mret tt) ;;
  (if decide (S i < n) then
     x ← of_option IndexError (blocks !! (S i)); set_next b (Some x)
   else mret tt).

Definition connect_ends (blocks : list ref) : M queue unit :=
  match head blocks, last blocks with
  | Some first, Some final =>
      set_next FakeHead (Some first) ;;
      set_prev first (Some FakeHead) ;;
      set_prev FakeTail (Some final) ;;
      set_next final (Some FakeTail)
  | _, _ =>
      set_next FakeHead (Some FakeTail) ;;
      set_prev FakeTail (Some FakeHead)
  end.

Definition queue_init (blocks : list ref) : M queue unit :=
  modify (fun q => mkQueue (store q) (zlen blocks)) ;;
  for_each (init_link blocks (length blocks)) (seq 0 (length blocks)) ;;
  modify (on_store (fun s => <[FakeTail := new_block]> (<[FakeHead := new_block]> s))) ;;
  connect_ends blocks.

Definition popleft : M queue ref :=
  h ← get_next FakeHead;
  n ← gets num_free_blocks;
  match h with
  | None | Some FakeTail =>
      assert_ (n =? 0)%Z ;; raise ValueError
  | Some first_block =>
      x ← get_next first_block;
      match x with
      | None => raise RuntimeError
      | Some second =>
          set_next FakeHead (Some second) ;;
          set_prev second (Some FakeHead) ;;
          set_prev first_block None ;;
          set_next first_block None ;;
          modify (add_num_free (-1)) ;;
          mret first_block
      end
  end.

(** One round of the loop of [popleft_n]. *)
Definition pop_one (acc : list ref * option ref) (_ : Z) : M queue (list ref * option ref) :=
  match acc.2 with
  | None => raise AssertionError
  | Some last_block =>
      curr ← get_next last_block;
      set_prev last_block None ;;
      set_next last_block None ;;
      mret (acc.1 ++ [last_block], curr)
  end.

Definition popleft_n (n : Z) : M queue (list ref) :=
  if (n =? 0)%Z then mret []
  else
    nf ← gets num_free_blocks;
    assert_ (n <=? nf)%Z ;;
    modify (add_num_free (- n)) ;;
    curr ← get_next FakeHead;
    r ← for_fold pop_one (zrange n) ([], curr);
    (match r.2 with
     | Some curr_block =>
         set_next FakeHead (Some curr_block) ;;
         set_prev curr_block (Some FakeHead)
     | None => mret tt
     end) ;;
    mret r.1.

Definition remove (block : ref) : M queue unit :=
  p ← get_prev block;
  n ← get_next block;
  match p, n with
  | Some p, Some n =>
      set_next p (Some n) ;;
      set_prev n (Some p) ;;
      set_prev block None ;;
      set_next block None ;;
      modify (add_num_free (-1))
  | _, _ => raise RuntimeError
  end.

Definition append (block : ref) : M queue unit :=
  l ← get_prev FakeTail;
  match l with
  | None => raise RuntimeError
  | Some last_block =>
      set_next last_block (Some block) ;;
      set_prev block (Some last_block) ;;
      set_next block (Some FakeTail) ;;
      set_prev FakeTail (Some block) ;;
      modify (add_num_free 1)
  end.

(** The shared body of the loops of [prepend_n] and [append_n]. *)
Definition link_after (last_block block : ref) : M queue ref :=
  set_prev block (Some last_block) ;;
  set_next last_block (Some block) ;;
  mret block.

Definition prepend_n (blocks : list ref) : M queue unit :=
  match blocks with
  | [] => mret tt
  | _ =>
      f ← get_next FakeHead;
      match f with
      | None => raise AssertionError
      | Some first_block =>
          prev_block ← for_fold link_after blocks FakeHead;
          set_next prev_block (Some first_block) ;;
          set_prev first_block (Some prev_block) ;;
          modify (add_num_free (zlen blocks))
      end
  end.

Definition append_n (blocks : list ref) : M queue unit :=
  match blocks with
  | [] => mret tt
  | _ =>
      l ← get_prev FakeTail;
      match l with
      | None => raise AssertionError
      | Some last_block =>
          last_block ← for_fold link_after blocks last_block;
          set_next last_block (Some FakeTail) ;;
          set_prev FakeTail (Some last_block) ;;
          modify (add_num_free (zlen blocks))
      end
  end.

(** The [while] loop of [get_all_free_blocks]; [fuel] bounds its rounds. *)
Fixpoint walk (fuel : nat) (curr : ref) (acc : list ref) : M queue (list ref) :=
  match fuel with
  | 0 => raise OutOfFuel
  | S fuel' =>
      n ← get_next curr;
      match n with
      | None => mret acc
      | Some n => walk fuel' n (acc ++ [curr])
      end
  end.

Definition get_all_free_blocks (fuel : nat) : M queue (list ref) :=
  f ← get_next FakeHead;
  match f with
  | None => raise RuntimeError
  | Some curr => walk fuel curr []
  end.

(** ** Links and chains *)

Definition nxt (s : gmap ref KVCacheBlock) (r : ref) : option ref := s !! r ≫= next_free_block.
Definition prv (s : gmap ref KVCacheBlock) (r : ref) : option ref := s !! r ≫= prev_free_block.

(** What the queue never touches. *)
Definition meta (b : KVCacheBlock) : Z * option bytes * bool :=
  (ref_cnt b, block_hash b, is_null b).
Definition same_meta (s s' : gmap ref KVCacheBlock) : Prop :=
  forall r, meta <$> s' !! r = meta <$> s !! r.

(** Consecutive references of [L] point at each other. *)
Fixpoint chain (s : gmap ref KVCacheBlock) (L : list ref) : Prop :=
  match L with
  | a :: ((b :: _) as L') => nxt s a = Some b /\ prv s b = Some a /\ chain s L'
  | _ => True
  end.

Definition nodes (xs : list ref) : list ref := FakeHead :: xs ++ [FakeTail].
#[global] Arguments nodes : simpl never.

(** [q] represents the free list [xs], front first. *)
Record queue_rep (q : queue) (xs : list ref) : Prop := {
  rep_nodup : NoDup (nodes xs);
  rep_dom : forall r, r ∈ nodes xs -> is_Some (store q !! r);
  rep_chain : chain (store q) (nodes xs);
  rep_count : num_free_blocks q = zlen xs;
  rep_head : prv (store q) FakeHead = None;
  rep_tail : nxt (store q) FakeTail = None;
  rep_off : forall r, r ∉ nodes xs -> nxt (store q) r = None /\ prv (store q) r = None
}.

Section chains.
Implicit Types s : gmap ref KVCacheBlock.

Lemma chain_app s L1 a L2 :
  chain s (L1 ++ a :: L2) <-> chain s (L1 ++ [a]) /\ chain s (a :: L2).
Proof.
  induction L1 as [|x L1 IH]; simpl.
  - destruct L2; simpl; tauto.
  - destruct L1 as [|y L1]; simpl in *; [destruct L2; tauto|]. rewrite IH. tauto.
Qed.

Lemma chain_frame s s' L :
  (forall r, r ∈ L -> nxt s' r = nxt s r /\ prv s' r = prv s r) ->
  chain s L -> chain s' L.
Proof.
  induction L as [|a [|b L] IH]; simpl; [done..|].
  intros Heq (Hn & Hp & Hc). repeat split.
  - rewrite (proj1 (Heq a ltac:(set_solver))). done.
  - rewrite (proj2 (Heq b ltac:(set_solver))). done.
  - apply IH; [|done]. intros; apply Heq; set_solver.
Qed.

Lemma chain_frame_snoc s s' L a :
  NoDup (L ++ [a]) ->
  (forall r, r ∈ L -> nxt s' r = nxt s r) ->
  (forall r, r ∈ L ++ [a] -> prv s' r = prv s r) ->
  chain s (L ++ [a]) -> chain s' (L ++ [a]).
Proof.
  induction L as [|x [|y L] IH]; simpl; [done|..]; intros Hnd Hn Hp Hc.
  - rewrite Hn, Hp by set_solver. tauto.
  - rewrite Hn, Hp by set_solver. destruct Hc as (? & ? & Hc). repeat split; [done..|].
    apply IH; [by inversion Hnd|..|done]; intros; [apply Hn|apply Hp]; set_solver.
Qed.

Lemma chain_frame_cons s s' a L :
  (forall r, r ∈ a :: L -> nxt s' r = nxt s r) ->
  (forall r, r ∈ L -> prv s' r = prv s r) ->
  chain s (a :: L) -> chain s' (a :: L).
Proof.
  revert a. induction L as [|y L IH]; [done|]; intros a Hn Hp (H1 & H2 & Hc).
  change (nxt s' a = Some y /\ prv s' y = Some a /\ chain s' (y :: L)).
  rewrite Hn, Hp by set_solver. repeat split; [done..|].
  apply IH; [..|done]; intros; [apply Hn|apply Hp]; set_solver.
Qed.

Lemma nxt_insert_next s a b v r :
  s !! a = Some b -> nxt (<[a := with_next v b]> s) r = if decide (r = a) then v else nxt s r.
Proof.
  intros Ha. unfold nxt. case_decide; subst.
  - by rewrite lookup_insert_eq.
  - by rewrite lookup_insert_ne.
Qed.
Lemma prv_insert_next s a b v r :
  s !! a = Some b -> prv (<[a := with_next v b]> s) r = prv s r.
Proof.
  intros Ha. unfold prv. destruct (decide (r = a)); subst.
  - by rewrite lookup_insert_eq, Ha.
  - by rewrite lookup_insert_ne.
Qed.
Lemma prv_insert_prev s a b v r :
  s !! a = Some b -> prv (<[a := with_prev v b]> s) r = if decide (r = a) then v else prv s r.
Proof.
  intros Ha. unfold prv. case_decide; subst.
  - by rewrite lookup_insert_eq.
  - by rewrite lookup_insert_ne.
Qed.
Lemma nxt_insert_prev s a b v r :
  s !! a = Some b -> nxt (<[a := with_prev v b]> s) r = nxt s r.
Proof.
  intros Ha. unfold nxt. destruct (decide (r = a)); subst.
  - by rewrite lookup_insert_eq, Ha.
  - by rewrite lookup_insert_ne.
Qed.

#[export] Instance same_meta_equiv : Equivalence same_meta.
Proof.
  split.
  - by intros s r.
  - intros s s' H r. by rewrite H.
  - intros s1 s2 s3 H1 H2 r. by rewrite H2, H1.
Qed.

Lemma same_meta_insert s a b b' :
  s !! a = Some b -> meta b' = meta b -> same_meta s (<[a := b']> s).
Proof.
  intros Ha Hm r. destruct (decide (r = a)); subst.
  - by rewrite lookup_insert_eq, Ha; simpl; rewrite Hm.
  - by rewrite lookup_insert_ne.
Qed.

Lemma same_meta_dom s s' r : same_meta s s' -> is_Some (s !! r) <-> is_Some (s' !! r).
Proof. intros H. rewrite <- !(fmap_is_Some meta). by rewrite H. Qed.
End chains.

(** ** Symbolic execution of attribute accesses *)

Section link_wp.
Implicit Types q : queue.

Lemma wp_get_next r Q q :
  is_Some (store q !! r) -> Q (nxt (store q) r) q -> wp (get_next r) Q q.
Proof.
  intros [b Hb] HQ. unfold wp, get_next, deref, of_option, mbind, M_bind, gets.
  rewrite Hb. unfold nxt in HQ. by rewrite Hb in HQ.
Qed.

Lemma wp_get_prev r Q q :
  is_Some (store q !! r) -> Q (prv (store q) r) q -> wp (get_prev r) Q q.
Proof.
  intros [b Hb] HQ. unfold wp, get_prev, deref, of_option, mbind, M_bind, gets.
  rewrite Hb. unfold prv in HQ. by rewrite Hb in HQ.
Qed.

Lemma wp_set_next r v (Q : unit -> queue -> Prop) q :
  is_Some (store q !! r) ->
  (forall s', same_meta (store q) s' ->
     (forall x, nxt s' x = if decide (x = r) then v else nxt (store q) x) ->
     (forall x, prv s' x = prv (store q) x) ->
     Q tt (mkQueue s' (num_free_blocks q))) ->
  wp (set_next r v) Q q.
Proof.
  intros [b Hb] HQ. unfold wp, set_next, deref, of_option, mbind, M_bind, gets, modify.
  rewrite Hb. apply HQ.
  - by apply (same_meta_insert _ _ b).
  - intros x. by apply nxt_insert_next.
  - intros x. by apply prv_insert_next.
Qed.

Lemma wp_set_prev r v (Q : unit -> queue -> Prop) q :
  is_Some (store q !! r) ->
  (forall s', same_meta (store q) s' ->
     (forall x, prv s' x = if decide (x = r) then v else prv (store q) x) ->
     (forall x, nxt s' x = nxt (store q) x) ->
     Q tt (mkQueue s' (num_free_blocks q))) ->
  wp (set_prev r v) Q q.
Proof.
  intros [b Hb] HQ. unfold wp, set_prev, deref, of_option, mbind, M_bind, gets, modify.
  rewrite Hb. apply HQ.
  - by apply (same_meta_insert _ _ b).
  - intros x. by apply prv_insert_prev.
  - intros x. by apply nxt_insert_prev.
Qed.
End link_wp.

(** Walk through the updates of links, naming the equations of each step. *)
Ltac link_dom :=
  match goal with
  | H : same_meta ?s ?s' |- is_Some (?s' !! _) => apply (same_meta_dom s s' _ H); link_dom
  | _ => simpl; eauto with vllm
  end.
Ltac link_step :=
  match goal with
  | |- wp (_ ≫= _) _ _ => apply wp_bind
  | |- wp (set_next _ _) _ _ =>
      let s := fresh "s" in let Hm := fresh "Hm" in
      let Hn := fresh "Hn" in let Hp := fresh "Hp" in
      apply wp_set_next; [try link_dom|intros s Hm Hn Hp; simpl in Hm, Hn, Hp]
  | |- wp (set_prev _ _) _ _ =>
      let s := fresh "s" in let Hm := fresh "Hm" in
      let Hn := fresh "Hn" in let Hp := fresh "Hp" in
      apply wp_set_prev; [try link_dom|intros s Hm Hp Hn; simpl in Hm, Hn, Hp]
  | |- wp (modify _) _ _ => apply wp_modify
  | |- wp (mret _) _ _ => apply wp_ret
  | |- wp (gets _) _ _ => apply wp_gets
  | |- wp (get_next _) _ _ => apply wp_get_next; [try link_dom|]
  | |- wp (get_prev _) _ _ => apply wp_get_prev; [try link_dom|]
  end; cbn beta.
Ltac meta_chain :=
  simpl; match goal with
  | |- same_meta ?a ?a => reflexivity
  | H : same_meta ?c ?b |- same_meta _ ?b => transitivity c; [meta_chain|exact H]
  end.
Ltac only_elem :=
  repeat match goal with
  | H : ?T |- _ =>
      lazymatch T with
      | _ ∈ _ => fail
      | ~ _ => fail
      | _ = _ => fail
      | _ => clear H
      end
  end.
Ltac elem := only_elem; set_solver.
(** Rewrite with the equations of the updates, newest first, and settle which
    reference is meant. *)
Ltac links :=
  simpl; repeat match goal with
  | H : forall x, nxt ?s x = _ |- context [nxt ?s _] => rewrite H
  | H : forall x, prv ?s x = _ |- context [prv ?s _] => rewrite H
  end; repeat case_decide; subst; try done; try (exfalso; only_elem; set_solver).

Section rep.
Context (q : queue) (xs : list ref) (R : queue_rep q xs).

Lemma rep_nodup_xs : NoDup xs.
Proof.
  destruct R as [Hnd _ _ _ _ _ _]. unfold nodes in Hnd.
  apply NoDup_cons in Hnd as [_ Hnd]. by apply NoDup_app in Hnd as [? _].
Qed.

Lemma rep_not_fake r : r ∈ xs -> r <> FakeHead /\ r <> FakeTail.
Proof.
  intros Hr. pose proof (rep_nodup _ _ R) as Hnd. unfold nodes in Hnd.
  apply NoDup_cons in Hnd as [Hh Hnd]. apply NoDup_app in Hnd as (_ & Hd & _).
  split; intros ->; [apply Hh; set_solver|]. by apply (Hd FakeTail); [|set_solver].
Qed.

Lemma rep_dom_head : is_Some (store q !! FakeHead).
Proof. apply (rep_dom _ _ R). unfold nodes. set_solver. Qed.
Lemma rep_dom_tail : is_Some (store q !! FakeTail).
Proof. apply (rep_dom _ _ R). unfold nodes. set_solver. Qed.
Lemma rep_dom_in r : r ∈ xs -> is_Some (store q !! r).
Proof. intros. apply (rep_dom _ _ R). unfold nodes. set_solver. Qed.

(** The neighbours of the sentinels and of a member. *)
Lemma rep_first : nxt (store q) FakeHead = Some (default FakeTail (head xs)).
Proof. pose proof (rep_chain _ _ R) as Hc. destruct xs; apply Hc. Qed.

Lemma rep_split l1 x l2 : xs = l1 ++ x :: l2 ->
  exists L1 a b L2,
    FakeHead :: l1 = L1 ++ [a] /\ l2 ++ [FakeTail] = b :: L2 /\
    nodes xs = L1 ++ a :: x :: b :: L2 /\
    prv (store q) x = Some a /\ nxt (store q) x = Some b.
Proof.
  intros Hxs.
  destruct (exists_last (l := FakeHead :: l1)) as (L1 & a & Ha); [done|].
  assert (exists b L2, l2 ++ [FakeTail] = b :: L2) as (b & L2 & Hb).
  { destruct l2; simpl; eauto. }
  exists L1, a, b, L2. split; [done|]. split; [done|].
  assert (HN : nodes xs = L1 ++ a :: x :: b :: L2).
  { unfold nodes. rewrite Hxs. rewrite <- app_assoc. simpl. rewrite Hb.
    rewrite app_comm_cons, Ha, <- app_assoc. done. }
  split; [done|]. pose proof (rep_chain _ _ R) as Hc. rewrite HN in Hc.
  rewrite chain_app in Hc. destruct Hc as [_ (_ & ? & ? & _)]. done.
Qed.

Lemma rep_last : prv (store q) FakeTail = Some (default FakeHead (last xs)).
Proof.
  pose proof (rep_chain _ _ R) as Hc. unfold nodes in Hc.
  destruct xs as [|x l _] using rev_ind; [apply Hc|].
  rewrite last_snoc. rewrite <- app_assoc in Hc.
  change (chain (store q) ((FakeHead :: l) ++ x :: [FakeTail])) in Hc.
  apply chain_app in Hc as [_ Hc]. apply Hc.
Qed.
End rep.

#[export] Hint Resolve rep_dom_head rep_dom_tail rep_dom_in : vllm.

(** ** The operations refine a list *)

Lemma nodes_cons_inv x xs : NoDup (nodes (x :: xs)) ->
  x <> FakeHead /\ x <> FakeTail /\ x ∉ xs /\ NoDup (nodes xs) /\ x ∉ nodes xs.
Proof.
  unfold nodes. simpl. rewrite !NoDup_cons.
  intros (Hh & Hx & Hnd). set_solver.
Qed.

Lemma popleft_rep q x xs :
  queue_rep q (x :: xs) ->
  wp popleft (fun r q' => r = x /\ queue_rep q' xs /\ same_meta (store q) (store q')) q.
Proof.
  intros R. pose proof (rep_nodup _ _ R) as Hnd.
  destruct (nodes_cons_inv _ _ Hnd) as (Hxh & Hxt & Hx & Hnd' & Hxn).
  destruct (rep_split q (x :: xs) R [] x xs eq_refl) as (L1 & a & b & L2 & Ha & Hb & HN & Hp & Hn).
  destruct L1 as [|? [|]]; simplify_eq/=.
  assert (Hbd : is_Some (store q !! b)).
  { apply (rep_dom _ _ R). rewrite HN. set_solver. }
  assert (Hxd : is_Some (store q !! x)) by (apply (rep_dom_in _ _ R); set_solver).
  pose proof (rep_chain _ _ R) as Hc. rewrite HN in Hc, Hnd. simpl in Hc.
  rewrite !NoDup_cons in Hnd. destruct Hnd as (Hnh & Hnx & Hnb & _).
  unfold popleft. link_step. link_step. rewrite (rep_first _ _ R). simpl.
  link_step. link_step. destruct x as [| |i]; [done..|].
  link_step. link_step. rewrite Hn. repeat link_step.
  assert (HNb : nodes xs = FakeHead :: b :: L2) by (unfold nodes; by rewrite Hb).
  split; [done|]. split; [|meta_chain].
  constructor; cbn [store num_free_blocks add_num_free].
  - done.
  - intros r Hr. link_dom. apply (rep_dom _ _ R). rewrite HN. rewrite HNb in Hr. set_solver.
  - rewrite HNb. apply (chain_app _ [FakeHead] b L2). split.
    + simpl. split; [links|]. split; [links|done].
    + apply (chain_frame_cons (store q)); [..|apply Hc].
      * intros r Hr. links.
      * intros r Hr. links.
  - rewrite (rep_count _ _ R). simpl. lia.
  - pose proof (rep_head _ _ R). links.
  - pose proof (rep_tail _ _ R). links.
  - intros r Hr. destruct (decide (r = Blk i)) as [->|Hri].
    + split; links.
    + destruct (rep_off _ _ R r) as [? ?].
      { rewrite HN. rewrite HNb in Hr. set_solver. }
      rewrite HNb in Hr. split; links.
Qed.

Lemma popleft_empty q :
  queue_rep q [] -> popleft q = (Err ValueError, q).
Proof.
  intros R. unfold popleft, get_next, deref, of_option, assert_, raise, gets, mret, mbind, M_bind, M_ret.
  destruct (rep_dom_head _ _ R) as [b Hb]. rewrite Hb.
  pose proof (rep_first _ _ R) as Hf. unfold nxt in Hf. rewrite Hb in Hf. simpl in Hf. rewrite Hf.
  simpl. by rewrite (rep_count _ _ R).
Qed.

Lemma remove_rep q l1 x l2 :
  queue_rep q (l1 ++ x :: l2) ->
  wp (remove x) (fun _ q' => queue_rep q' (l1 ++ l2) /\ same_meta (store q) (store q')) q.
Proof.
  intros R. pose proof (rep_nodup _ _ R) as Hnd.
  destruct (rep_split q _ R l1 x l2 eq_refl) as (L1 & a & b & L2 & Ha & Hb & HN & Hp & Hn).
  pose proof (rep_chain _ _ R) as Hc. rewrite HN in Hc, Hnd.
  assert (HN' : nodes (l1 ++ l2) = L1 ++ a :: b :: L2).
  { unfold nodes. rewrite <- app_assoc, Hb, app_comm_cons, Ha, <- app_assoc. done. }
  assert (Hdom : forall r, r ∈ L1 ++ a :: x :: b :: L2 -> is_Some (store q !! r)).
  { intros r. rewrite <- HN. apply (rep_dom _ _ R). }
  assert (is_Some (store q !! x)) by (apply Hdom; set_solver).
  assert (is_Some (store q !! a)) by (apply Hdom; set_solver).
  assert (is_Some (store q !! b)) by (apply Hdom; set_solver).
  rewrite chain_app in Hc. destruct Hc as [Hc1 (_ & _ & _ & _ & Hc2)].
  assert (Hnd1 : NoDup (L1 ++ [a])).
  { apply NoDup_app in Hnd as (? & Hd & Hnd). apply NoDup_app. split; [done|].
    split; [|apply NoDup_singleton]. intros r Hr. specialize (Hd r Hr). set_solver. }
  assert (Hnd' : NoDup (L1 ++ a :: b :: L2)).
  { apply (NoDup_app_comm _ (a :: x :: b :: L2)) in Hnd. simpl in Hnd.
    rewrite !NoDup_cons in Hnd. destruct Hnd as (? & ? & Hnd).
    rewrite (Permutation_app_comm L1). simpl. rewrite !NoDup_cons in *. set_solver. }
  assert (Hxo : x ∉ L1 ++ a :: b :: L2 /\ a ∉ L1 /\ b ∉ L1 /\ b <> a /\ a ∉ L2 /\ b ∉ L2 /\
                (forall r, r ∈ L1 -> r ∉ L2)).
  { apply NoDup_app in Hnd as (? & Hd & Hnd). rewrite !NoDup_cons in Hnd.
    set_solver. }
  destruct Hxo as (Hx & HaL1 & HbL1 & Hab & HaL2 & HbL2 & Hdis).
  unfold remove. repeat (link_step || rewrite Hp || rewrite Hn).
  split; [|meta_chain]. constructor; cbn [store num_free_blocks add_num_free].
  - by rewrite HN'.
  - intros r Hr. link_dom. apply Hdom. rewrite HN' in Hr. set_solver.
  - rewrite HN', chain_app. split.
    + apply (chain_frame_snoc (store q)); [done| | |done].
      * intros r Hr. links.
      * intros r Hr. assert (r <> b) by (clear - Hr HbL1 Hab; set_solver). links.
    + split; [links|]. split; [links|].
      apply (chain_frame_cons (store q)); [..|done].
      * intros r Hr. assert (r <> a) by (clear - Hr HaL2 Hab; set_solver). links.
      * intros r Hr. links.
  - rewrite (rep_count _ _ R), !length_app. simpl. lia.
  - pose proof (rep_head _ _ R). assert (b <> FakeHead).
    { intros ->. apply (f_equal (fun l => l ++ [])) in Ha. rewrite app_nil_r in Ha.
      destruct L1; simplify_eq/=; set_solver. }
    links.
  - pose proof (rep_tail _ _ R). assert (a <> FakeTail).
    { intros ->. assert (FakeTail ∈ b :: L2) by (rewrite <- Hb; set_solver). set_solver. }
    links.
  - intros r Hr. rewrite HN' in Hr. destruct (decide (r = x)) as [->|Hrx].
    + split; links.
    + destruct (rep_off _ _ R r) as [? ?].
      { rewrite HN. set_solver. }
      split; links.
Qed.

Lemma remove_not_free q x xs :
  queue_rep q xs -> x ∉ nodes xs -> is_Some (store q !! x) ->
  remove x q = (Err RuntimeError, q).
Proof.
  intros R Hx [b Hb]. destruct (rep_off _ _ R x Hx) as [Hn Hp].
  unfold nxt, prv in *. rewrite Hb in Hn, Hp. simpl in Hn, Hp.
  unfold remove, get_prev, get_next, deref, of_option, raise, gets, mret, mbind, M_bind, M_ret.
  rewrite Hb. simpl. rewrite Hb. simpl. by rewrite Hp.
Qed.

(** Sentinel-side views of a representation split in two. *)
Lemma rep_junction q xs1 xs2 : queue_rep q (xs1 ++ xs2) ->
  exists L1 L2,
    let a := default FakeHead (last xs1) in
    let c := default FakeTail (head xs2) in
    FakeHead :: xs1 = L1 ++ [a] /\ xs2 ++ [FakeTail] = c :: L2 /\
    nodes (xs1 ++ xs2) = L1 ++ a :: c :: L2 /\
    chain (store q) (L1 ++ [a]) /\ chain (store q) (c :: L2).
Proof.
  intros R. pose proof (rep_chain _ _ R) as Hc.
  assert (exists L1, FakeHead :: xs1 = L1 ++ [default FakeHead (last xs1)]) as [L1 H1].
  { destruct xs1 as [|z l _] using rev_ind; [by exists []|].
    exists (FakeHead :: l). by rewrite last_snoc. }
  assert (exists L2, xs2 ++ [FakeTail] = default FakeTail (head xs2) :: L2) as [L2 H2].
  { destruct xs2; simpl; eauto. }
  exists L1, L2. simpl. split; [done|]. split; [done|].
  assert (HN : nodes (xs1 ++ xs2) =
               L1 ++ default FakeHead (last xs1) :: default FakeTail (head xs2) :: L2).
  { unfold nodes. rewrite <- app_assoc, H2, app_comm_cons, H1, <- app_assoc. done. }
  split; [done|]. rewrite HN, chain_app in Hc. destruct Hc as [? (_ & _ & ?)]. done.
Qed.

Lemma chain_join s L1 a bs c L2 :
  chain s (L1 ++ [a]) -> chain s (a :: bs ++ [c]) -> chain s (c :: L2) ->
  chain s (L1 ++ a :: bs ++ c :: L2).
Proof.
  intros H1 H2 H3. rewrite chain_app. split; [done|].
  rewrite app_comm_cons. rewrite chain_app. done.
Qed.

(** Inserting fresh blocks between two neighbours. *)
Lemma splice_rep q xs1 xs2 bs s' n :
  queue_rep q (xs1 ++ xs2) -> NoDup bs ->
  (forall r, r ∈ bs -> r ∉ nodes (xs1 ++ xs2) /\ is_Some (store q !! r)) ->
  same_meta (store q) s' ->
  let a := default FakeHead (last xs1) in
  let c := default FakeTail (head xs2) in
  chain s' (a :: bs ++ [c]) ->
  (forall x, x ∉ bs -> x <> c -> prv s' x = prv (store q) x) ->
  (forall x, x ∉ bs -> x <> a -> nxt s' x = nxt (store q) x) ->
  (n = num_free_blocks q + zlen bs)%Z ->
  queue_rep (mkQueue s' n) (xs1 ++ bs ++ xs2).
Proof.
  intros R Hbs Hfresh Hm a c Hch Hprv Hnxt Hn.
  destruct (rep_junction _ _ _ R) as (L1 & L2 & HL1 & HL2 & HN & Hc1 & Hc2).
  fold a in HL1, HN, Hc1. fold c in HL2, HN, Hc2. clearbody a c.
  pose proof (rep_nodup _ _ R) as Hnd. rewrite HN in Hnd, Hfresh.
  assert (HN' : nodes (xs1 ++ bs ++ xs2) = L1 ++ a :: bs ++ c :: L2).
  { unfold nodes. rewrite <- !app_assoc, HL2, app_comm_cons, HL1, <- app_assoc. done. }
  assert (HaL1 : a ∉ L1 /\ c ∉ L1 /\ a <> c /\ a ∉ L2 /\ c ∉ L2).
  { apply NoDup_app in Hnd as (? & Hd & Hnd). rewrite !NoDup_cons in Hnd. clear - Hd Hnd. set_solver. }
  destruct HaL1 as (HaL1 & HcL1 & Hac & HaL2 & HcL2).
  assert (HhN : FakeHead ∈ L1 ++ [a]) by (rewrite <- HL1; elem).
  assert (HtN : FakeTail ∈ c :: L2) by (rewrite <- HL2; elem).
  constructor; cbn [store num_free_blocks].
  - rewrite HN'.
    assert (HP : L1 ++ a :: bs ++ c :: L2 ≡ₚ bs ++ (L1 ++ a :: c :: L2)) by solve_Permutation.
    rewrite HP, NoDup_app. split; [done|]. split; [|done]. intros r Hr. by apply Hfresh.
  - intros r Hr. apply (same_meta_dom _ _ _ Hm). rewrite HN' in Hr.
    destruct (decide (r ∈ bs)); [by apply Hfresh|]. apply (rep_dom _ _ R). rewrite HN. elem.
  - rewrite HN'. apply chain_join; [|done|].
    + apply (chain_frame_snoc (store q)); [..|done].
      * rewrite <- HL1. pose proof (rep_nodup _ _ R) as Hnd'. unfold nodes in Hnd'.
        rewrite <- app_assoc, app_comm_cons in Hnd'. by apply NoDup_app in Hnd' as [? _].
      * intros r Hr. apply Hnxt; [|elem]. intros Hb; apply Hfresh in Hb as [Hb _]. elem.
      * intros r Hr. apply Hprv; [|elem]. intros Hb; apply Hfresh in Hb as [Hb _]. elem.
    + apply (chain_frame_cons (store q)); [..|done].
      * intros r Hr. apply Hnxt; [|elem]. intros Hb; apply Hfresh in Hb as [Hb _]. elem.
      * intros r Hr. apply Hprv; [|elem]. intros Hb; apply Hfresh in Hb as [Hb _]. elem.
  - rewrite Hn, (rep_count _ _ R), !length_app. lia.
  - rewrite <- (rep_head _ _ R). apply Hprv; [|elem].
    intros Hb; apply Hfresh in Hb as [Hb _]. elem.
  - rewrite <- (rep_tail _ _ R). apply Hnxt; [|elem].
    intros Hb; apply Hfresh in Hb as [Hb _]. elem.
  - intros r Hr. rewrite HN' in Hr. destruct (rep_off _ _ R r) as [E1 E2].
    { rewrite HN. elem. }
    rewrite Hnxt, Hprv by elem. done.
Qed.

(** The linking loop of [prepend_n] and [append_n]. *)
Lemma link_loop bs : forall q a,
  NoDup bs -> a ∉ bs -> (forall r, r ∈ a :: bs -> is_Some (store q !! r)) ->
  wp (for_fold link_after bs a) (fun z q' =>
      z = default a (last bs) /\ num_free_blocks q' = num_free_blocks q /\
      same_meta (store q) (store q') /\ chain (store q') (a :: bs) /\
      (forall x, x ∉ bs -> prv (store q') x = prv (store q) x) /\
      (forall x, x <> a -> x ∉ bs -> nxt (store q') x = nxt (store q) x)) q.
Proof.
  induction bs as [|b bs IH]; intros q a Hnd Ha Hdom; simpl.
  - apply wp_ret. done.
  - apply NoDup_cons in Hnd as [Hb Hnd].
    assert (is_Some (store q !! a)) by (apply Hdom; set_solver).
    assert (is_Some (store q !! b)) by (apply Hdom; set_solver).
    apply wp_bind. unfold link_after at 1. repeat link_step.
    eapply wp_mono; [apply IH; [done|done|]|].
    { intros r Hr. link_dom. apply Hdom. set_solver. }
    cbn [store num_free_blocks]. intros z q' (-> & Hnum & Hm' & Hch & Hp' & Hn').
    split; [by rewrite last_cons; destruct (last bs)|]. split; [done|]. split; [meta_chain|].
    assert (a <> b) by set_solver.
    split; [|split].
    + split; [|split; [|done]].
      * rewrite Hn' by set_solver. links.
      * rewrite Hp' by set_solver. links.
    + intros x Hx. rewrite Hp' by set_solver. links.
    + intros x Hxa Hx. rewrite Hn' by set_solver. links.
Qed.

Lemma default_last_in (z : ref) bs : bs <> [] -> default z (last bs) ∈ bs.
Proof. destruct bs as [|b l _] using rev_ind; [congruence|]. rewrite last_snoc. set_solver. Qed.

(** Redirecting the outgoing link of the last block extends a chain. *)
Lemma chain_extend s s' a bs c :
  bs <> [] -> NoDup (a :: bs) -> c ∉ a :: bs -> chain s (a :: bs) ->
  (forall x, nxt s' x = if decide (x = default a (last bs)) then Some c else nxt s x) ->
  (forall x, prv s' x = if decide (x = c) then Some (default a (last bs)) else prv s x) ->
  chain s' (a :: bs ++ [c]).
Proof.
  destruct bs as [|b l _] using rev_ind; [congruence|]. rewrite last_snoc.
  change (default a (Some b)) with b.
  intros _ Hnd Hc Hch Hn Hp.
  replace (a :: (l ++ [b]) ++ [c]) with ((a :: l) ++ b :: [c]) by (by rewrite <- app_assoc).
  apply (chain_app _ (a :: l) b [c]). split.
  - apply (chain_frame_snoc s); [done| | |done].
    + intros r Hr. rewrite Hn, decide_False; [done|]. intros ->.
      rewrite app_comm_cons in Hnd. apply NoDup_app in Hnd as (_ & Hd & _).
      apply (Hd b); set_solver.
    + intros r Hr. rewrite Hp, decide_False; [done|]. intros ->. set_solver.
  - split; [|split; [|done]].
    + rewrite Hn. by rewrite decide_True.
    + rewrite Hp. by rewrite decide_True.
Qed.

Lemma nodes_last xs : default FakeHead (last xs) ∈ nodes xs.
Proof.
  unfold nodes. destruct xs as [|x l _] using rev_ind; [set_solver|].
  rewrite last_snoc. set_solver.
Qed.
Lemma nodes_first xs : default FakeTail (head xs) ∈ nodes xs.
Proof. unfold nodes. destruct xs as [|x l]; set_solver. Qed.

Lemma tail_not_last q xs : queue_rep q xs -> FakeTail <> default FakeHead (last xs).
Proof.
  intros R. destruct (rep_junction q xs [] ltac:(by rewrite app_nil_r)) as (L1 & L2 & _ & _ & HN & _).
  pose proof (rep_nodup _ _ R) as Hnd. rewrite app_nil_r in HN. rewrite HN in Hnd.
  simpl in Hnd. apply NoDup_app in Hnd as (_ & _ & Hnd).
  apply NoDup_cons in Hnd as [Hnd _]. intros E. apply Hnd. rewrite <- E. set_solver.
Qed.

Lemma append_n_rep q xs bs :
  queue_rep q xs -> NoDup bs ->
  (forall r, r ∈ bs -> r ∉ nodes xs /\ is_Some (store q !! r)) ->
  wp (append_n bs) (fun _ q' => queue_rep q' (xs ++ bs) /\ same_meta (store q) (store q')) q.
Proof.
  intros R Hbs Hfresh. destruct (decide (bs = [])) as [->|Hne].
  { apply wp_ret. by rewrite app_nil_r. }
  unfold append_n. destruct bs as [|b0 bs0] eqn:Eb; [done|]. rewrite <- Eb in *. clear Eb b0 bs0.
  set (a := default FakeHead (last xs)).
  assert (Ha : a ∈ nodes xs) by apply nodes_last.
  assert (HF : FakeTail ∈ nodes xs) by (unfold nodes; set_solver).
  assert (Hout : forall r, r ∈ nodes xs -> r ∉ bs).
  { intros r Hr Hb. by apply Hfresh in Hb as [? _]. }
  assert (Hta : FakeTail <> a) by (by apply (tail_not_last q)).
  repeat link_step. rewrite (rep_last _ _ R). fold a. link_step.
  eapply wp_mono; [apply link_loop; [done|by apply Hout|]|].
  { intros r [->|Hr]%elem_of_cons; [by apply (rep_dom _ _ R)|by apply Hfresh]. }
  intros z q' (-> & Hnum & Hm' & Hch & Hp' & Hn').
  assert (Hzb : default a (last bs) ∈ bs) by by apply default_last_in.
  repeat link_step; [apply Hfresh, Hzb|]. split; [|meta_chain].
  assert (HbF : FakeTail ∉ bs) by auto.
  pose proof (splice_rep q xs [] bs) as Hsplice. rewrite !app_nil_r in Hsplice.
  apply Hsplice; [done..|meta_chain| | | |].
  - fold a. simpl. apply (chain_extend (store q')); [done| | |done|..].
    + apply NoDup_cons. auto.
    + set_solver.
    + intros x. links.
    + intros x. links.
  - simpl. intros x Hx HxF. rewrite <- Hp' by done. links.
  - fold a. intros x Hx Hxa. rewrite <- Hn' by done. links.
  - cbn [num_free_blocks]. by rewrite Hnum.
Qed.

Lemma prepend_n_rep q xs bs :
  queue_rep q xs -> NoDup bs ->
  (forall r, r ∈ bs -> r ∉ nodes xs /\ is_Some (store q !! r)) ->
  wp (prepend_n bs) (fun _ q' => queue_rep q' (bs ++ xs) /\ same_meta (store q) (store q')) q.
Proof.
  intros R Hbs Hfresh. destruct (decide (bs = [])) as [->|Hne]; [by apply wp_ret|].
  unfold prepend_n. destruct bs as [|b0 bs0] eqn:Eb; [done|]. rewrite <- Eb in *. clear Eb b0 bs0.
  set (c := default FakeTail (head xs)).
  assert (Hc : c ∈ nodes xs) by apply nodes_first.
  assert (HH : FakeHead ∈ nodes xs) by (unfold nodes; set_solver).
  assert (Hout : forall r, r ∈ nodes xs -> r ∉ bs).
  { intros r Hr Hb. by apply Hfresh in Hb as [? _]. }
  assert (Hcd : is_Some (store q !! c)) by by apply (rep_dom _ _ R).
  assert (Hhc : FakeHead <> c).
  { pose proof (rep_nodup _ _ R) as Hnd. unfold nodes in Hnd.
    apply NoDup_cons in Hnd as [Hnd _]. intros E. apply Hnd. rewrite E.
    unfold c. destruct xs; set_solver. }
  repeat link_step. rewrite (rep_first _ _ R). fold c. link_step.
  eapply wp_mono; [apply link_loop; [done|by apply Hout|]|].
  { intros r [->|Hr]%elem_of_cons; [by apply (rep_dom _ _ R)|by apply Hfresh]. }
  intros z q' (-> & Hnum & Hm' & Hch & Hp' & Hn').
  assert (Hzb : default FakeHead (last bs) ∈ bs) by by apply default_last_in.
  repeat link_step; [apply Hfresh, Hzb|]. split; [|meta_chain].
  assert (HbF : FakeHead ∉ bs) by auto. assert (Hcb : c ∉ bs) by auto.
  apply (splice_rep q [] xs bs); [done..|meta_chain| | | |].
  - fold c. apply (chain_extend (store q')); [done| | |done|..].
    + apply NoDup_cons. auto.
    + set_solver.
    + intros x. links.
    + intros x. links.
  - fold c. intros x Hx HxF. rewrite <- Hp' by done. links.
  - simpl. intros x Hx Hxa. rewrite <- Hn' by done. links.
  - cbn [num_free_blocks]. by rewrite Hnum.
Qed.

Lemma append_rep q xs b :
  queue_rep q xs -> b ∉ nodes xs -> is_Some (store q !! b) ->
  wp (append b) (fun _ q' => queue_rep q' (xs ++ [b]) /\ same_meta (store q) (store q')) q.
Proof.
  intros R Hb Hbd. set (a := default FakeHead (last xs)).
  assert (Ha : a ∈ nodes xs) by apply nodes_last.
  assert (Had : is_Some (store q !! a)) by by apply (rep_dom _ _ R).
  assert (HF : FakeTail ∈ nodes xs) by (unfold nodes; set_solver).
  assert (Hta : FakeTail <> a) by (by apply (tail_not_last q)).
  assert (Hab : a <> b) by (intros ->; done).
  assert (HbT : b <> FakeTail) by (intros ->; done).
  unfold append. repeat link_step. rewrite (rep_last _ _ R). fold a. repeat link_step.
  split; [|meta_chain].
  pose proof (splice_rep q xs [] [b]) as Hsplice. rewrite !app_nil_r in Hsplice.
  apply Hsplice; [done|apply NoDup_singleton| |meta_chain| | | |].
  - intros r ->%list_elem_of_singleton. done.
  - fold a. simpl. repeat split; links.
  - simpl. intros x Hx HxF. assert (x <> b) by set_solver. links.
  - fold a. intros x Hx Hxa. assert (x <> b) by set_solver. links.
  - done.
Qed.

(** The popping loop detaches a prefix of the chain. *)
Lemma pop_loop ys : forall ks q acc c L2,
  length ks = length ys -> NoDup (ys ++ c :: L2) ->
  chain (store q) (ys ++ c :: L2) ->
  (forall r, r ∈ ys -> is_Some (store q !! r)) ->
  wp (for_fold pop_one ks (acc, head (ys ++ [c]))) (fun r q' =>
      r = (acc ++ ys, Some c) /\ num_free_blocks q' = num_free_blocks q /\
      same_meta (store q) (store q') /\
      (forall x, x ∉ ys -> nxt (store q') x = nxt (store q) x /\ prv (store q') x = prv (store q) x) /\
      (forall x, x ∈ ys -> nxt (store q') x = None /\ prv (store q') x = None)) q.
Proof.
  induction ys as [|y ys IH]; intros ks q acc c L2 Hlen Hnd Hch Hdom;
    destruct ks as [|k ks]; simplify_eq/=.
  { apply wp_ret. rewrite app_nil_r. repeat split; done || elem. }
  apply NoDup_cons in Hnd as [Hy Hnd].
  assert (Hnext : nxt (store q) y = head (ys ++ [c]) /\ chain (store q) (ys ++ c :: L2)).
  { destruct ys; simpl in *; tauto. }
  destruct Hnext as [Hnext Hch'].
  assert (Hyd : is_Some (store q !! y)) by (apply Hdom; elem).
  apply wp_bind. unfold pop_one at 1. simpl. repeat link_step. rewrite Hnext.
  eapply wp_mono; [apply IH with (L2 := L2); [done|done| |]|].
  - apply (chain_frame (store q)); [|done]. intros r Hr.
    assert (r <> y) by (intros ->; done). split; links.
  - intros r Hr. link_dom. apply Hdom. elem.
  - cbn [store num_free_blocks]. intros r q' (-> & Hnum & Hm' & Hf & Hz).
    split; [by rewrite <- app_assoc|]. split; [done|]. split; [meta_chain|]. split.
    + intros x Hx. destruct (Hf x) as [-> ->]; [elem|].
      assert (x <> y) by elem. split; links.
    + intros x Hx. destruct (decide (x ∈ ys)) as [Hin|Hnin]; [by apply Hz|].
      destruct (Hf x Hnin) as [-> ->]. assert (x = y) as -> by elem. split; links.
Qed.

Lemma popleft_n_rep q ys zs :
  queue_rep q (ys ++ zs) ->
  wp (popleft_n (zlen ys)) (fun r q' =>
      r = ys /\ queue_rep q' zs /\ same_meta (store q) (store q')) q.
Proof.
  intros R. unfold popleft_n. destruct (decide (ys = [])) as [->|Hne]; [by apply wp_ret|].
  rewrite (proj2 (Z.eqb_neq _ _)) by (destruct ys; simpl; [done|lia]).
  set (c := default FakeTail (head zs)).
  assert (exists L2, zs ++ [FakeTail] = c :: L2) as [L2 HL2] by (destruct zs; simpl; eauto).
  clearbody c. assert (HN : nodes (ys ++ zs) = FakeHead :: ys ++ c :: L2).
  { unfold nodes. by rewrite <- app_assoc, HL2. }
  assert (HN' : nodes zs = FakeHead :: c :: L2) by (unfold nodes; by rewrite HL2).
  pose proof (rep_nodup _ _ R) as Hnd. pose proof (rep_chain _ _ R) as Hch.
  pose proof (rep_dom _ _ R) as Hdom. rewrite HN in *.
  apply NoDup_cons in Hnd as [Hh Hnd].
  assert (Hcd : is_Some (store q !! c)) by (apply Hdom; elem).
  assert (Hch' : nxt (store q) FakeHead = head (ys ++ [c]) /\ chain (store q) (ys ++ c :: L2)).
  { destruct ys; [done|]. simpl in Hch. simpl. tauto. }
  destruct Hch' as [Hfirst Hch'].
  repeat link_step. apply wp_assert.
  { rewrite (rep_count _ _ R), length_app. apply Z.leb_le. lia. }
  repeat link_step. cbn [store add_num_free]. rewrite Hfirst.
  eapply wp_mono; [apply pop_loop with (L2 := L2); [|done|done|]|].
  { unfold zrange. rewrite length_fmap, length_seq. lia. }
  { intros r Hr. apply Hdom. elem. }
  intros r q' (-> & Hnum & Hm' & Hf & Hz). cbn [snd fst].
  assert (is_Some (store q' !! FakeHead)).
  { apply (same_meta_dom _ _ _ Hm'), (rep_dom_head _ _ R). }
  repeat link_step. split; [done|]. split; [|meta_chain].
  assert (Hys : FakeHead ∉ ys /\ c ∉ ys /\ c <> FakeHead /\ (forall r, r ∈ L2 -> r ∉ ys) /\ c ∉ L2).
  { apply NoDup_app in Hnd as (_ & Hd & Hnd). apply NoDup_cons in Hnd as [? _].
    clear - Hh Hd H0. set_solver. }
  destruct Hys as (Hhy & Hcy & Hch0 & HLy & HcL).
  cbn [store add_num_free] in Hf. constructor; cbn [store num_free_blocks].
  - rewrite HN', NoDup_cons. apply NoDup_app in Hnd as (_ & _ & ?).
    split; [clear - Hh; set_solver|done].
  - intros r Hr. link_dom. apply Hdom. rewrite HN' in Hr.
    clear - Hr. set_solver.
  - rewrite HN'. apply (chain_app _ [FakeHead] c L2). split; [simpl; repeat split; links|].
    apply chain_app in Hch' as [_ Hch'].
    apply (chain_frame_cons (store q)); [..|done].
    + intros r Hr. rewrite <- (proj1 (Hf r ltac:(clear - Hr Hcy HLy; set_solver))). links.
    + intros r Hr. rewrite <- (proj2 (Hf r ltac:(clear - Hr Hcy HLy; set_solver))). links.
  - rewrite Hnum. simpl. rewrite (rep_count _ _ R), length_app. lia.
  - rewrite <- (rep_head _ _ R), <- (proj2 (Hf FakeHead Hhy)). links.
  - assert (HT : FakeTail ∈ c :: L2) by (rewrite <- HL2; elem).
    assert (FakeTail <> FakeHead) by done.
    assert (FakeTail ∉ ys) by (clear - HT Hcy HLy; set_solver).
    rewrite <- (rep_tail _ _ R), <- (proj1 (Hf FakeTail ltac:(done))). links.
  - intros r Hr. rewrite HN' in Hr. assert (r <> FakeHead /\ r <> c) as [? ?] by elem.
    destruct (decide (r ∈ ys)) as [Hy|Hy].
    + destruct (Hz r Hy). split; links.
    + destruct (Hf r Hy) as [E1 E2]. destruct (rep_off _ _ R r) as [E3 E4].
      { rewrite HN. elem. }
      split; [rewrite <- E3, <- E1|rewrite <- E4, <- E2]; links.
Qed.

Lemma popleft_n_too_many q xs n :
  queue_rep q xs -> (zlen xs < n)%Z -> popleft_n n q = (Err AssertionError, q).
Proof.
  intros R Hn. unfold popleft_n, gets, assert_, raise, mbind, M_bind.
  rewrite (proj2 (Z.eqb_neq _ _)) by lia. rewrite (rep_count _ _ R).
  by rewrite (proj2 (Z.leb_gt _ _)) by lia.
Qed.

Lemma walk_rep q c L2 : forall fuel acc,
  chain (store q) (c :: L2) -> (forall r, r ∈ c :: L2 -> is_Some (store q !! r)) ->
  nxt (store q) (default c (last L2)) = None -> length L2 < fuel ->
  wp (walk fuel c acc) (fun r q' => r = acc ++ removelast (c :: L2) /\ q' = q) q.
Proof.
  revert c. induction L2 as [|b L2 IH]; intros c [|fuel] acc Hch Hdom Hlast Hf;
    [simpl in Hf; lia| |simpl in Hf; lia|]; cbn [walk]; apply wp_bind, wp_get_next;
    try (apply Hdom; elem).
  - simpl in Hlast. rewrite Hlast. apply wp_ret. by rewrite app_nil_r.
  - destruct Hch as (Hn & Hp & Hch). rewrite Hn. eapply wp_mono; [apply IH|].
    + done.
    + intros r Hr. apply Hdom. elem.
    + rewrite <- Hlast, last_cons. by destruct (last L2).
    + simpl in Hf. lia.
    + intros r q' (-> & ->). by rewrite <- app_assoc.
Qed.

Lemma get_all_free_blocks_rep q xs fuel :
  queue_rep q xs -> length xs < fuel ->
  wp (get_all_free_blocks fuel) (fun r q' => r = xs /\ q' = q) q.
Proof.
  intros R Hf. unfold get_all_free_blocks. repeat link_step.
  rewrite (rep_first _ _ R).
  destruct (xs ++ [FakeTail]) as [|c L2] eqn:E; [by destruct xs|].
  replace (default FakeTail (head xs)) with c by (by destruct xs; simplify_eq/=).
  pose proof (rep_chain _ _ R) as Hch. unfold nodes in Hch. rewrite E in Hch.
  assert (Hl : length L2 = length xs).
  { apply (f_equal length) in E. rewrite length_app in E. simpl in E. lia. }
  eapply wp_mono; [apply (walk_rep q c L2)|].
  - destruct Hch as (_ & _ & Hch). done.
  - intros r Hr. apply (rep_dom _ _ R). unfold nodes. rewrite E. elem.
  - pose proof (rep_tail _ _ R) as Ht. pose proof (f_equal last E) as El.
    rewrite last_snoc, last_cons in El. destruct (last L2); by simplify_eq/=.
  - lia.
  - intros r q' (-> & ->). split; [|done]. rewrite <- E. apply removelast_last.
Qed.

(** ** Construction *)

(** A list is a chain when each of its adjacent positions is linked. *)
Lemma chain_of_lookup s L :
  (forall i a b, L !! i = Some a -> L !! S i = Some b -> nxt s a = Some b /\ prv s b = Some a) ->
  chain s L.
Proof.
  induction L as [|x [|y L] IH]; intros H; [done..|].
  destruct (H 0 x y) as [? ?]; [done..|]. split; [done|]. split; [done|].
  apply IH. intros i a b Ha Hb. by apply (H (S i)).
Qed.

(** The links that the first [k] rounds of the loop of [__init__] establish. *)
Definition init_links (bs : list ref) (k : nat) (s : gmap ref KVCacheBlock) : Prop :=
  (forall i x, bs !! i = Some x ->
     prv s x = (if decide (0 < i < k) then bs !! (i - 1) else None) /\
     nxt s x = (if decide (i < k) then bs !! S i else None)) /\
  (forall x, x ∉ bs -> nxt s x = None /\ prv s x = None).

Lemma init_link_step bs k q x :
  NoDup bs -> bs !! k = Some x -> init_links bs k (store q) ->
  (forall r, r ∈ bs -> is_Some (store q !! r)) ->
  wp (init_link bs (length bs) k) (fun _ q' =>
      init_links bs (S k) (store q') /\ num_free_blocks q' = num_free_blocks q /\
      same_meta (store q) (store q')) q.
Proof.
  intros Hnd Hk [Hin Hout] Hdom.
  assert (Hx : is_Some (store q !! x)) by (apply Hdom; by eapply list_elem_of_lookup_2).
  unfold init_link. apply wp_bind. apply (wp_of_option _ _ x); [done|]. apply wp_bind.
  assert (Hinj : forall i, bs !! i = Some x -> i = k) by (intros i Hi; by eapply NoDup_lookup).
  assert (Hpost : forall s, same_meta (store q) s ->
     (forall r, prv s r = if decide (r = x) then (if decide (0 < k) then bs !! (k - 1) else None)
                          else prv (store q) r) ->
     (forall r, nxt s r = if decide (r = x) then bs !! S k else nxt (store q) r) ->
     init_links bs (S k) s).
  { intros s Hm Hp Hn. split.
    - intros i y Hy. rewrite Hp, Hn. destruct (Hin i y Hy) as [E1 E2].
      destruct (decide (y = x)) as [->|Hne].
      + rewrite (Hinj i Hy). rewrite (decide_True (P := k < S k)) by lia.
        split; [|done]. repeat case_decide; done || lia.
      + rewrite E1, E2. assert (i <> k) by (intros ->; congruence).
        clear Hp Hn.
        split; repeat case_decide; done || lia.
    - intros r Hr. rewrite Hp, Hn. rewrite !decide_False; [by apply Hout|..];
        intros ->; apply Hr; by eapply list_elem_of_lookup_2. }
  assert (Hprev : wp (if decide (0 < k)
       then p ← of_option IndexError (bs !! (k - 1)); set_prev x (Some p) else mret tt)
     (fun _ q1 => num_free_blocks q1 = num_free_blocks q /\ same_meta (store q) (store q1) /\
        (forall r, nxt (store q1) r = nxt (store q) r) /\
        (forall r, prv (store q1) r =
           if decide (r = x) then (if decide (0 < k) then bs !! (k - 1) else None)
           else prv (store q) r)) q).
  { case_decide as Hk0.
    - destruct (lookup_lt_is_Some_2 bs (k - 1)) as [p Hp].
      { apply lookup_lt_Some in Hk. lia. }
      apply wp_bind, (wp_of_option _ _ p); [done|]. link_step. repeat split; [done..|].
      intros r. rewrite Hp0. by rewrite Hp.
    - apply wp_ret. repeat split; [done..|]. intros r. case_decide; [subst|done].
      destruct (Hin k x Hk) as [-> _]. rewrite decide_False by lia. done. }
  eapply wp_mono; [exact Hprev|]. intros [] q1 (Hnum & Hm1 & Hn1 & Hp1).
  destruct (decide (S k < length bs)) as [Hlt|Hlt].
  - destruct (lookup_lt_is_Some_2 bs (S k) Hlt) as [z Hz].
    apply wp_bind, (wp_of_option _ _ z); [done|]. link_step. split; [|split; [done|meta_chain]].
    apply Hpost; [meta_chain|..].
    + intros r. rewrite Hp. apply Hp1.
    + intros r. rewrite Hn, Hn1, Hz. done.
  - apply wp_ret. split; [|done]. apply Hpost; [done|done|]. intros r. rewrite Hn1.
    destruct (decide (r = x)) as [->|]; [|done]. destruct (Hin k x Hk) as [_ ->].
    rewrite decide_False by lia. symmetry. apply lookup_ge_None. lia.
Qed.

(** Closing the two ends of the linked blocks with the sentinels. *)
Lemma init_close bs s :
  nxt s FakeHead = Some (default FakeTail (head bs)) ->
  prv s FakeTail = Some (default FakeHead (last bs)) ->
  (forall i x, bs !! i = Some x ->
     nxt s x = Some (default FakeTail (bs !! S i)) /\
     prv s x = Some (default FakeHead (if decide (0 < i) then bs !! (i - 1) else None))) ->
  chain s (nodes bs).
Proof.
  intros Hh Ht Hin. apply chain_of_lookup. intros [|i] a b Ha Hb; unfold nodes in Ha, Hb; simpl in Ha, Hb.
  - simplify_eq. destruct bs as [|x bs]; simplify_eq/=; [done|].
    split; [done|]. destruct (Hin 0 b eq_refl) as [_ ->]. done.
  - apply lookup_app_Some in Ha as [Ha|[Hl Ha]].
    + destruct (Hin i a Ha) as [Hn _]. apply lookup_app_Some in Hb as [Hb|[Hl Hb]].
      * rewrite Hn, Hb. split; [done|]. destruct (Hin (S i) b Hb) as [_ ->].
        rewrite decide_True by lia. replace (S i - 1) with i by lia. by rewrite Ha.
      * apply list_lookup_singleton_Some in Hb as [Hi <-].
        assert (S i = length bs) as Hlen by (apply lookup_lt_Some in Ha; lia).
        rewrite Hn, (lookup_ge_None_2 bs (S i)) by lia. split; [done|].
        rewrite Ht, last_lookup. rewrite <- Hlen. simpl. by rewrite Ha.
    + apply list_lookup_singleton_Some in Ha as [Hi <-].
      apply lookup_lt_Some in Hb. rewrite length_app in Hb. simpl in Hb. lia.
Qed.

(** A store of freshly constructed blocks. *)
Definition fresh_store (bs : list ref) (s : gmap ref KVCacheBlock) : Prop :=
  (forall r, r ∈ bs -> is_Some (s !! r)) /\
  (forall r, nxt s r = None /\ prv s r = None).

(** The blocks linked to each other, and two unlinked sentinels. *)
Record init_ready (bs : list ref) (q : queue) : Prop := {
  ir_nodup : NoDup (nodes bs);
  ir_dom : forall r, r ∈ nodes bs -> is_Some (store q !! r);
  ir_num : num_free_blocks q = zlen bs;
  ir_links : forall i x, bs !! i = Some x ->
    prv (store q) x = (if decide (0 < i) then bs !! (i - 1) else None) /\
    nxt (store q) x = bs !! S i;
  ir_tail : nxt (store q) FakeTail = None;
  ir_head : prv (store q) FakeHead = None;
  ir_off : forall r, r ∉ nodes bs -> nxt (store q) r = None /\ prv (store q) r = None
}.

Lemma nodes_nodup bs : NoDup (nodes bs) -> NoDup bs /\ FakeHead ∉ bs /\ FakeTail ∉ bs.
Proof.
  unfold nodes. intros [Hh Hnd]%NoDup_cons. apply NoDup_app in Hnd as (? & Hd & _).
  split; [done|]. split; [elem|]. intros Ht. apply (Hd _ Ht). elem.
Qed.

Lemma init_loop bs q :
  NoDup bs -> fresh_store bs (store q) ->
  wp (for_each (init_link bs (length bs)) (seq 0 (length bs))) (fun _ q' =>
      init_links bs (length bs) (store q') /\ num_free_blocks q' = num_free_blocks q /\
      same_meta (store q) (store q')) q.
Proof.
  intros Hnb [Hdom Hfresh].
  eapply wp_mono; [apply (wp_for_each (fun done _ q' =>
     init_links bs (length done) (store q') /\ num_free_blocks q' = num_free_blocks q /\
     same_meta (store q) (store q')))|].
  - split; [|done]. split; [|done]. intros i x Hi.
    destruct (Hfresh x) as [-> ->]. rewrite !decide_False by (simpl; lia). done.
  - intros l1 k l2 q' Hl (Hlinks & Hnum & Hm). pose proof Hl as Hseq.
    apply (f_equal (fun l => l !! length l1)) in Hseq.
    rewrite list_lookup_middle in Hseq by done.
    apply lookup_seq in Hseq as [Hk Hlt]. simpl in Hk. subst k.
    destruct (lookup_lt_is_Some_2 bs (length l1) Hlt) as [x Hx].
    eapply wp_mono; [apply (init_link_step _ _ _ x); [done..|]|].
    + intros r Hr. by apply (same_meta_dom _ _ _ Hm), Hdom.
    + simpl. intros _ q'' (Hl' & Hn' & Hm'). rewrite length_app, Nat.add_1_r.
      split; [done|]. split; [congruence|by transitivity (store q')].
  - cbn beta. rewrite length_seq. done.
Qed.

(** The links of a block once the two ends are connected. *)
Lemma connected_links bs q first final s :
  init_ready bs q -> head bs = Some first -> last bs = Some final ->
  (forall r, nxt s r = if decide (r = final) then Some FakeTail
                       else if decide (r = FakeHead) then Some first else nxt (store q) r) ->
  (forall r, prv s r = if decide (r = FakeTail) then Some final
                       else if decide (r = first) then Some FakeHead else prv (store q) r) ->
  chain s (nodes bs).
Proof.
  intros Hr Ehd Elast Hn Hp. destruct (nodes_nodup _ (ir_nodup _ _ Hr)) as (Hnb & Hhb & Htb).
  rewrite head_lookup in Ehd. pose proof Elast as El. rewrite last_lookup in El.
  assert (Hfin : FakeHead <> final).
  { intros <-. apply Hhb. by eapply list_elem_of_lookup_2. }
  assert (Hfst : FakeTail <> first).
  { intros <-. apply Htb. by eapply list_elem_of_lookup_2. }
  apply init_close.
  - rewrite head_lookup, Ehd, Hn. rewrite decide_False by done.
    by rewrite decide_True.
  - rewrite Elast, Hp. by rewrite decide_True.
  - intros i x Hi. destruct (ir_links _ _ Hr i x Hi) as [E1 E2].
    assert (x ∈ bs) by by eapply list_elem_of_lookup_2.
    pose proof (lookup_lt_Some _ _ _ Hi) as Hlt. split.
    + rewrite Hn. destruct (decide (x = final)) as [->|Hxf].
      * assert (i = pred (length bs)) as -> by by eapply NoDup_lookup.
        rewrite lookup_ge_None_2 by lia. done.
      * assert (i <> pred (length bs)) by (intros ->; congruence).
        destruct (lookup_lt_is_Some_2 bs (S i)) as [y Hy]; [lia|].
        rewrite decide_False by (intros ->; done). by rewrite E2, Hy.
    + rewrite Hp. rewrite decide_False by (intros ->; done).
      destruct (decide (x = first)) as [->|Hxf].
      * assert (i = 0) as -> by by eapply NoDup_lookup. done.
      * assert (i <> 0) by (intros ->; congruence).
        destruct (lookup_lt_is_Some_2 bs (i - 1)) as [y Hy]; [lia|].
        rewrite decide_True in * by lia. by rewrite E1, Hy.
Qed.

Lemma ready_rep bs q s :
  init_ready bs q -> same_meta (store q) s -> chain s (nodes bs) ->
  prv s FakeHead = None -> nxt s FakeTail = None ->
  (forall r, r ∉ nodes bs -> nxt s r = nxt (store q) r /\ prv s r = prv (store q) r) ->
  queue_rep (mkQueue s (num_free_blocks q)) bs.
Proof.
  intros Hr Hs Hch H1 H2 Hoff. constructor; cbn [store num_free_blocks]; try done; try apply Hr.
  - intros r Hin. by apply (same_meta_dom _ _ _ Hs), Hr.
  - intros r Hin. destruct (Hoff r Hin) as [-> ->]. by apply Hr.
Qed.

Lemma connect_ends_rep bs q :
  init_ready bs q ->
  wp (connect_ends bs) (fun _ q' => queue_rep q' bs /\ same_meta (store q) (store q')) q.
Proof.
  intros Hr. destruct (nodes_nodup _ (ir_nodup _ _ Hr)) as (Hnb & Hhb & Htb).
  assert (HdH : is_Some (store q !! FakeHead)) by (apply (ir_dom _ _ Hr); unfold nodes; elem).
  assert (HdT : is_Some (store q !! FakeTail)) by (apply (ir_dom _ _ Hr); unfold nodes; elem).
  unfold connect_ends. destruct (head bs) as [first|] eqn:Ehd, (last bs) as [final|] eqn:Elast;
    [|by destruct bs; [|apply last_None in Elast]|by destruct bs|].
  - assert (first ∈ bs) as Hfirst.
    { rewrite head_lookup in Ehd. by eapply list_elem_of_lookup_2. }
    assert (final ∈ bs) as Hfinal.
    { rewrite last_lookup in Elast. by eapply list_elem_of_lookup_2. }
    assert (is_Some (store q !! first)) by (apply (ir_dom _ _ Hr); unfold nodes; elem).
    assert (is_Some (store q !! final)) by (apply (ir_dom _ _ Hr); unfold nodes; elem).
    assert (Hne : first <> FakeHead /\ first <> FakeTail /\ final <> FakeHead /\ final <> FakeTail)
      by (repeat split; intros ->; done).
    destruct Hne as (? & ? & ? & ?).
    pose proof (ir_head _ _ Hr). pose proof (ir_tail _ _ Hr).
    repeat link_step. split; [apply (ready_rep bs q); [done|meta_chain|..]|meta_chain].
    + eapply connected_links; [done..| |]; intros r; links.
    + links.
    + links.
    + intros r Hrn. unfold nodes in Hrn.
      assert (r <> FakeHead /\ r <> FakeTail /\ r ∉ bs) as (? & ? & ?) by (clear - Hrn; set_solver).
      assert (r <> first /\ r <> final) as [? ?] by (split; intros ->; done). split; links.
  - destruct bs as [|? bs']; [|done]. repeat link_step. split; [|meta_chain].
    pose proof (ir_head _ _ Hr). pose proof (ir_tail _ _ Hr).
    apply (ready_rep [] q); [done|meta_chain|..].
    + apply init_close; [links|links|done].
    + links.
    + links.
    + intros r Hrn. unfold nodes in Hrn. assert (r <> FakeHead /\ r <> FakeTail) as [? ?] by elem.
      split; links.
Qed.

Definition is_fake (r : ref) : bool := match r with Blk _ => false | _ => true end.

Lemma queue_init_rep bs q :
  NoDup (nodes bs) -> fresh_store bs (store q) ->
  wp (queue_init bs) (fun _ q' => queue_rep q' bs /\
      forall r, meta <$> store q' !! r =
                if is_fake r then Some (meta new_block) else meta <$> store q !! r) q.
Proof.
  intros Hnd Hfresh. destruct (nodes_nodup _ Hnd) as (Hnb & Hhb & Htb).
  unfold queue_init. apply wp_bind, wp_modify, wp_bind.
  eapply wp_mono; [by apply init_loop|].
  intros _ q1 ([Hin Hout] & Hnum & Hm). simpl in Hnum, Hm.
  apply wp_bind, wp_modify. set (q2 := on_store _ q1).
  assert (Hq2 : forall r, store q2 !! r = if is_fake r then Some new_block else store q1 !! r).
  { intros [| |i]; simpl.
    - rewrite lookup_insert_ne by done. apply lookup_insert_eq.
    - apply lookup_insert_eq.
    - by rewrite !lookup_insert_ne. }
  assert (Hlk : forall r, is_fake r = false -> nxt (store q2) r = nxt (store q1) r /\
                 prv (store q2) r = prv (store q1) r).
  { intros r Hr. unfold nxt, prv. by rewrite Hq2, Hr. }
  assert (Hready : init_ready bs q2).
  { constructor; try done.
    - intros r Hr. rewrite Hq2. destruct (is_fake r) eqn:Ef; [done|].
      apply (same_meta_dom _ _ _ Hm), Hfresh. unfold nodes in Hr.
      destruct r; try done. elem.
    - intros i x Hi. assert (x ∈ bs) by by eapply list_elem_of_lookup_2.
      pose proof (lookup_lt_Some _ _ _ Hi). destruct (Hlk x) as [-> ->]; [by destruct x|].
      destruct (Hin i x Hi) as [-> ->]. rewrite (decide_True (P := i < length bs)) by done.
      split; [|done]. repeat case_decide; done || lia.
    - unfold nxt. by rewrite Hq2.
    - unfold prv. by rewrite Hq2.
    - intros r Hr. unfold nodes in Hr. destruct r; [elem..|].
      destruct (Hlk (Blk i)) as [-> ->]; [done|]. apply Hout. elem. }
  eapply wp_mono; [by apply connect_ends_rep|]. intros _ q3 [R Hm3]. split; [done|].
  intros r. rewrite Hm3, Hq2. destruct (is_fake r); [done|apply Hm].
Qed.

(** ** The queue as an abstract data type

    One command per public operation, its meaning on a plain list (front
    first), and the run of the linked implementation. *)
Inductive op :=
| OpPopleft
| OpPopleftN (n : Z)
| OpRemove (b : ref)
| OpAppend (b : ref)
| OpPrependN (bs : list ref)
| OpAppendN (bs : list ref).

Definition op_args (o : op) : list ref :=
  match o with
  | OpPopleft | OpPopleftN _ => []
  | OpRemove b | OpAppend b => [b]
  | OpPrependN bs | OpAppendN bs => bs
  end.

Definition run_op (o : op) : M queue (list ref) :=
  match o with
  | OpPopleft => b ← popleft; mret [b]
  | OpPopleftN n => popleft_n n
  | OpRemove b => remove b ;; mret []
  | OpAppend b => append b ;; mret []
  | OpPrependN bs => prepend_n bs ;; mret []
  | OpAppendN bs => append_n bs ;; mret []
  end.

(** Blocks that may be pushed: real ones, not already free, no repetition. *)
Definition pushable (xs bs : list ref) : bool :=
  bool_decide (NoDup bs) && forallb (fun b => bool_decide (b ∉ nodes xs)) bs.

(** [None]: the call is outside the contract of the queue. *)
Definition spec_op (xs : list ref) (o : op) : option (list ref * list ref) :=
  match o with
  | OpPopleft => match xs with [] => None | x :: xs' => Some ([x], xs') end
  | OpPopleftN n =>
      if ((0 <=? n) && (n <=? zlen xs))%Z
      then Some (take (Z.to_nat n) xs, drop (Z.to_nat n) xs) else None
  | OpRemove b =>
      if decide (b ∈ xs) then Some ([], filter (fun x => x <> b) xs) else None
  | OpAppend b => if pushable xs [b] then Some ([], xs ++ [b]) else None
  | OpPrependN bs => if pushable xs bs then Some ([], bs ++ xs) else None
  | OpAppendN bs => if pushable xs bs then Some ([], xs ++ bs) else None
  end.

Fixpoint run_ops (os : list op) : M queue (list (list ref)) :=
  match os with
  | [] => mret []
  | o :: os' => r ← run_op o; rs ← run_ops os'; mret (r :: rs)
  end.

Fixpoint spec_ops (xs : list ref) (os : list op) : option (list (list ref) * list ref) :=
  match os with
  | [] => Some ([], xs)
  | o :: os' =>
      match spec_op xs o with
      | None => None
      | Some (r, xs') =>
          match spec_ops xs' os' with
          | None => None
          | Some (rs, ys) => Some (r :: rs, ys)
          end
      end
  end.

Definition fresh_blocks (bs : list ref) : gmap ref KVCacheBlock :=
  list_to_map ((fun b => (b, new_block)) <$> bs).

Lemma fresh_blocks_lookup bs r : r ∈ bs -> fresh_blocks bs !! r = Some new_block.
Proof.
  unfold fresh_blocks. induction bs as [|b bs IH]; [set_solver|].
  intros Hr. simpl. destruct (decide (r = b)) as [->|].
  - apply lookup_insert_eq.
  - rewrite lookup_insert_ne by done. apply IH. set_solver.
Qed.

Lemma fresh_blocks_lookup_None bs r : r ∉ bs -> fresh_blocks bs !! r = None.
Proof.
  unfold fresh_blocks. induction bs as [|b bs IH]; [done|].
  intros Hr. simpl. rewrite lookup_insert_ne by set_solver. apply IH. set_solver.
Qed.

Lemma fresh_blocks_fresh bs : fresh_store bs (fresh_blocks bs).
Proof.
  split.
  - intros r Hr. rewrite fresh_blocks_lookup; eauto.
  - intros r. unfold nxt, prv. destruct (decide (r ∈ bs)).
    + by rewrite fresh_blocks_lookup.
    + by rewrite fresh_blocks_lookup_None.
Qed.

Lemma pushable_spec q xs bs : pushable xs bs = true ->
  (forall r, r ∈ bs -> is_Some (store q !! r)) ->
  NoDup bs /\ forall r, r ∈ bs -> r ∉ nodes xs /\ is_Some (store q !! r).
Proof.
  unfold pushable. rewrite andb_true_iff, bool_decide_eq_true, forallb_forall.
  intros [Hnd Hf] Hd. split; [done|]. intros r Hr. split; [|by apply Hd].
  apply list_elem_of_In, Hf in Hr. by apply bool_decide_eq_true in Hr.
Qed.

Lemma filter_ne_split l1 (x : ref) l2 : NoDup (l1 ++ x :: l2) ->
  filter (fun y => y <> x) (l1 ++ x :: l2) = l1 ++ l2.
Proof.
  intros Hnd. apply NoDup_app in Hnd as (_ & Hd & Hnd). apply NoDup_cons in Hnd as [Hx _].
  assert (Hid : forall l : list ref, x ∉ l -> filter (fun y => y <> x) l = l).
  { induction l as [|y l IH]; [done|]. intros Hn. rewrite filter_cons_True by set_solver.
    rewrite IH by set_solver. done. }
  rewrite filter_app, filter_cons_False by auto.
  rewrite !Hid; [done|done|]. intros H. apply (Hd x H). set_solver.
Qed.

Lemma run_op_rep q xs o r xs' :
  queue_rep q xs -> (forall b, b ∈ op_args o -> is_Some (store q !! b)) ->
  spec_op xs o = Some (r, xs') ->
  wp (run_op o) (fun r' q' => r' = r /\ queue_rep q' xs' /\ same_meta (store q) (store q')) q.
Proof.
  intros R Hargs Hspec. destruct o as [|n|b|b|bs|bs]; simpl in *.
  - destruct xs as [|x xs]; simplify_eq. apply wp_bind.
    eapply wp_mono; [by apply popleft_rep|]. intros ? q' (-> & ? & ?). by apply wp_ret.
  - destruct ((0 <=? n) && (n <=? zlen xs))%Z eqn:E; simplify_eq.
    apply andb_true_iff in E as [E1%Z.leb_le E2%Z.leb_le].
    assert (n = zlen (take (Z.to_nat n) xs)) as Hn by (rewrite length_take; lia).
    rewrite Hn at 1. apply popleft_n_rep. by rewrite take_drop.
  - case_decide as Hb; simplify_eq. apply list_elem_of_split in Hb as (l1 & l2 & ->).
    rewrite filter_ne_split by apply (rep_nodup_xs _ _ R). apply wp_bind.
    eapply wp_mono; [by apply remove_rep|]. intros ? q' [? ?]. by apply wp_ret.
  - destruct (pushable xs [b]) eqn:E; simplify_eq.
    destruct (pushable_spec q _ _ E Hargs) as [_ Hf]. destruct (Hf b); [set_solver|]. apply wp_bind.
    eapply wp_mono; [by apply append_rep|]. intros ? q' [? ?]. by apply wp_ret.
  - destruct (pushable xs bs) eqn:E; simplify_eq.
    destruct (pushable_spec q _ _ E Hargs) as [? ?]. apply wp_bind.
    eapply wp_mono; [by apply prepend_n_rep|]. intros ? q' [? ?]. by apply wp_ret.
  - destruct (pushable xs bs) eqn:E; simplify_eq.
    destruct (pushable_spec q _ _ E Hargs) as [? ?]. apply wp_bind.
    eapply wp_mono; [by apply append_n_rep|]. intros ? q' [? ?]. by apply wp_ret.
Qed.

Lemma run_ops_rep os : forall q xs rs ys,
  queue_rep q xs ->
  (forall o b, o ∈ os -> b ∈ op_args o -> is_Some (store q !! b)) ->
  spec_ops xs os = Some (rs, ys) ->
  wp (run_ops os) (fun rs' q' => rs' = rs /\ queue_rep q' ys /\ same_meta (store q) (store q')) q.
Proof.
  induction os as [|o os IH]; intros q xs rs ys R Hargs Hspec; simpl in *.
  { simplify_eq. apply wp_ret. split; [done|]. split; [done|reflexivity]. }
  destruct (spec_op xs o) as [[r xs']|] eqn:E1; simplify_eq/=.
  destruct (spec_ops xs' os) as [[rs' ys']|] eqn:E2; simplify_eq/=.
  apply wp_bind. eapply wp_mono; [eapply (run_op_rep q xs o); [done| |done]|].
  { intros b Hb. apply (Hargs o); [set_solver|done]. }
  intros r' q' (-> & R' & Hm). apply wp_bind. eapply wp_mono; [eapply (IH q' xs' rs' ys); [done| |done]|].
  { intros o' b Ho Hb. apply (same_meta_dom _ _ _ Hm). apply (Hargs o'); [set_solver|done]. }
  intros rs'' q'' (-> & ? & ?). apply wp_ret. split; [done|]. split; [done|].
  by transitivity (store q').
Qed.

(** C24. The free list refines a plain list of blocks: on a queue built over
    distinct fresh blocks, every sequence of operations within the contract of
    the queue returns what the list operations return, never raises, and leaves
    a linked list that [get_all_free_blocks] walks to exactly the abstract list,
    with [num_free_blocks] its length. *)
Theorem free_queue_refines_list bs os rs xs :
  NoDup (nodes bs) ->
  (forall o b, o ∈ os -> b ∈ op_args o -> b ∈ bs) ->
  spec_ops bs os = Some (rs, xs) ->
  exists q, (queue_init bs ;; run_ops os) (mkQueue (fresh_blocks bs) 0) = (Ok rs, q) /\
            get_all_free_blocks (S (length xs)) q = (Ok xs, q) /\
            num_free_blocks q = zlen xs.
Proof.
  intros Hnd Hargs Hspec. destruct (fresh_blocks_fresh bs) as [Hd Hn].
  assert (Hwp : wp (queue_init bs ;; run_ops os)
     (fun r q => r = rs /\ queue_rep q xs) (mkQueue (fresh_blocks bs) 0)).
  { apply wp_bind. eapply wp_mono; [apply queue_init_rep; [done|by split]|].
    intros _ q1 [R1 Hm]. eapply wp_mono; [eapply (run_ops_rep os q1 bs); [done| |done]|].
    - intros o b Ho Hb. apply (rep_dom_in _ _ R1). by eapply Hargs.
    - intros r q2 (-> & ? & _). done. }
  apply wp_returns in Hwp as (r & q & Hrun & -> & R). exists q. split; [done|].
  split; [|by apply R].
  destruct (wp_returns _ _ _ (get_all_free_blocks_rep q xs (S (length xs)) R ltac:(lia)))
    as (a & q' & E & -> & ->). done.
Qed.

Lemma free_queue_refines_list_witness :
  let bs := [Blk 0; Blk 1; Blk 2; Blk 3] in
  let os := [OpPopleft; OpRemove (Blk 2); OpAppendN [Blk 0]; OpPrependN [Blk 2]; OpPopleftN 2] in
  exists q, (queue_init bs ;; run_ops os) (mkQueue (fresh_blocks bs) 0)
            = (Ok [[Blk 0]; []; []; []; [Blk 2; Blk 1]], q) /\
            get_all_free_blocks 3 q = (Ok [Blk 3; Blk 0], q) /\ num_free_blocks q = 2%Z.
Proof.
  apply (free_queue_refines_list _ _ [[Blk 0]; []; []; []; [Blk 2; Blk 1]] [Blk 3; Blk 0]).
  - apply (bool_decide_unpack _). vm_compute. exact I.
  - intros o b Ho Hb. repeat (apply elem_of_cons in Ho as [->|Ho]; [set_solver|]). set_solver.
  - vm_compute. reflexivity.
Defined.

(** Outside its contract the queue raises and changes nothing: [popleft] on
    an empty queue is a ValueError, [popleft_n] of more blocks than are free an
    AssertionError, [remove] of a block that is not free a RuntimeError. *)
Theorem free_queue_errors q xs (R : queue_rep q xs) :
  (xs = [] -> popleft q = (Err ValueError, q)) /\
  (forall n, (zlen xs < n)%Z -> popleft_n n q = (Err AssertionError, q)) /\
  (forall b, b ∉ nodes xs -> is_Some (store q !! b) -> remove b q = (Err RuntimeError, q)).
Proof.
  split; [|split].
  - intros ->. by apply popleft_empty.
  - intros n Hn. by eapply popleft_n_too_many.
  - intros b Hb Hd. by eapply remove_not_free.
Qed.

Lemma free_queue_errors_witness :
  exists q, queue_init [] (mkQueue (fresh_blocks [Blk 1]) 0) = (Ok tt, q) /\
    popleft q = (Err ValueError, q) /\ popleft_n 1 q = (Err AssertionError, q) /\
    remove (Blk 1) q = (Err RuntimeError, q).
Proof.
  destruct (wp_returns _ _ _ (queue_init_rep [] (mkQueue (fresh_blocks [Blk 1]) 0)
    ltac:(apply (bool_decide_unpack _); vm_compute; exact I)
    ltac:(split; [set_solver|apply fresh_blocks_fresh]))) as ([] & q & Hq & R & Hm).
  destruct (free_queue_errors q [] R) as (H1 & H2 & H3). exists q.
  split; [exact Hq|]. split; [by apply H1|]. split; [by apply H2|]. apply H3.
  - apply (bool_decide_unpack _). vm_compute. exact I.
  - destruct (store q !! Blk 1) eqn:E; [eauto|]. exfalso.
    pose proof (Hm (Blk 1)) as H. rewrite E in H. done.
Defined.

End FreeQueue.
