(* ===== verification/Request.v ===== *)
(** * Request

    v1/request.py: the state of one inference request, its status machine, the
    construction and the token bookkeeping; with the parts of
    sampling_params.py, multimodal/inputs.py, v1/metrics/stats.py and
    v1/engine/__init__.py that it is made of.

    A [Request] object is shared by the queues, the scheduler and the cache
    managers; the record below is its state. Python floats that are only
    compared (the arrival time) are integers here. A prompt-embedding tensor is
    the list of its rows' bytes. *)

From S2P Require Import Prelude.

Module Request.

(** ** Data carried by a request *)

(** [PlaceholderRange]; [embeds_cumsum] is the cumulative sum of the [is_embed]
    mask, [None] when there is no mask. *)
Record PlaceholderRange := mkPlaceholder {
  offset : Z;
  length_ : Z;
  embeds_cumsum : option (list Z)
}.

Record MultiModalFeatureSpec := mkFeature {
  identifier : string;
  mm_position : PlaceholderRange
}.

Definition get_num_embeds (p : PlaceholderRange) : Z :=
  match embeds_cumsum p with
  | None => length_ p
  | Some l => default 0%Z (last l)
  end.

Record LoRARequest := mkLoRA { adapter_id : Z; lora_name : string }.

Record RepetitionDetectionParams := mkRepetition {
  max_pattern_size : Z;
  min_pattern_size : Z;
  min_count : Z
}.

(** The fields of [SamplingParams] that the scheduler side reads.
    [structured_outputs] says whether [StructuredOutputRequest.from_sampling_params]
    builds an object. *)
Record SamplingParams := mkSampling {
  sp_max_tokens : option Z;
  min_tokens : Z;
  eos_token_id : option Z;
  stop_token_ids : list Z;
  repetition_detection : option RepetitionDetectionParams;
  sp_skip_reading_prefix_cache : option bool;
  structured_outputs : bool
}.

Record PoolingParams := mkPooling { pp_skip_reading_prefix_cache : option bool }.

Inductive StopReason := StopToken (t : Z) | StopString (s : string).

Record PrefillStats := mkPrefillStats {
  ps_num_prompt_tokens : Z;
  ps_num_computed_tokens : Z;
  ps_num_cached_tokens : Z;
  ps_num_local_cached_tokens : Z;
  ps_num_external_cached_tokens : Z
}.
Definition new_prefill_stats : PrefillStats := mkPrefillStats 0 0 0 0 0.

(** ** Status *)

Inductive RequestStatus :=
| WAITING
| WAITING_FOR_STRUCTURED_OUTPUT_GRAMMAR
| WAITING_FOR_REMOTE_KVS
| WAITING_FOR_STREAMING_REQ
| RUNNING
| PREEMPTED
| FINISHED_STOPPED
| FINISHED_LENGTH_CAPPED
| FINISHED_ABORTED
| FINISHED_IGNORED
| FINISHED_ERROR
| FINISHED_REPETITION.

#[export] Instance status_eq_dec : EqDecision RequestStatus.
Proof. solve_decision. Defined.

(** The [IntEnum] values: [enum.auto()] counts from 1. *)
Definition status_value (s : RequestStatus) : Z :=
  match s with
  | WAITING => 1
  | WAITING_FOR_STRUCTURED_OUTPUT_GRAMMAR => 2
  | WAITING_FOR_REMOTE_KVS => 3
  | WAITING_FOR_STREAMING_REQ => 4
  | RUNNING => 5
  | PREEMPTED => 6
  | FINISHED_STOPPED => 7
  | FINISHED_LENGTH_CAPPED => 8
  | FINISHED_ABORTED => 9
  | FINISHED_IGNORED => 10
  | FINISHED_ERROR => 11
  | FINISHED_REPETITION => 12
  end.

Definition is_finished (s : RequestStatus) : bool :=
  (status_value PREEMPTED <? status_value s)%Z.

Inductive FinishReason := STOP | LENGTH | ABORT | ERROR | REPETITION.

Definition get_finished_reason (s : RequestStatus) : option FinishReason :=
  match s with
  | FINISHED_STOPPED => Some STOP
  | FINISHED_LENGTH_CAPPED => Some LENGTH
  | FINISHED_ABORTED => Some ABORT
  | FINISHED_IGNORED => Some LENGTH
  | FINISHED_ERROR => Some ERROR
  | WAITING_FOR_STREAMING_REQ => Some STOP
  | FINISHED_REPETITION => Some REPETITION
  | _ => None
  end.

(** ** The request object *)

Record Request := mkRequest {
  request_id : string;
  client_index : Z;
  priority : Z;
  arrival_time : Z;
  sampling_params : option SamplingParams;
  pooling_params : option PoolingParams;
  lora_request : option LoRARequest;
  use_structured_output : bool;
  cache_salt : option string;
  prompt_embeds : option (list bytes);
  resumable : bool;
  abort_immediately : bool;
  skip_reading_prefix_cache : bool;
  max_tokens : Z;
  prompt_token_ids : option (list Z);
  num_prompt_tokens : Z;
  mm_features : list MultiModalFeatureSpec;
  status : RequestStatus;
  stop_reason : option StopReason;
  output_token_ids : list Z;
  all_token_ids : list Z;
  num_output_placeholders : Z;
  async_tokens_to_discard : Z;
  next_decode_eligible_step : Z;
  spec_token_ids : list Z;
  num_computed_tokens : Z;
  is_prefill_chunk : bool;
  num_nans_in_logits : Z;
  num_preemptions : Z;
  prefill_stats : option PrefillStats;
  block_hashes : list bytes;
  prompt_embeds_per_block_hashes : gmap (Z * Z) bytes
}.

(** Attribute assignment. *)
Definition set_arrival_time (v : Z) (r : Request) : Request :=
    mkRequest (request_id r) (client_index r) (priority r) v (sampling_params r)
    (pooling_params r) (lora_request r) (use_structured_output r) (cache_salt r)
    (prompt_embeds r) (resumable r) (abort_immediately r) (skip_reading_prefix_cache r)
    (max_tokens r) (prompt_token_ids r) (num_prompt_tokens r) (mm_features r) (status r)
    (stop_reason r) (output_token_ids r) (all_token_ids r) (num_output_placeholders r)
    (async_tokens_to_discard r) (next_decode_eligible_step r) (spec_token_ids r)
    (num_computed_tokens r) (is_prefill_chunk r) (num_nans_in_logits r) (num_preemptions
    r) (prefill_stats r) (block_hashes r) (prompt_embeds_per_block_hashes r).
Definition set_sampling_params (v : option SamplingParams) (r : Request) : Request :=
    mkRequest (request_id r) (client_index r) (priority r) (arrival_time r) v
    (pooling_params r) (lora_request r) (use_structured_output r) (cache_salt r)
    (prompt_embeds r) (resumable r) (abort_immediately r) (skip_reading_prefix_cache r)
    (max_tokens r) (prompt_token_ids r) (num_prompt_tokens r) (mm_features r) (status r)
    (stop_reason r) (output_token_ids r) (all_token_ids r) (num_output_placeholders r)
    (async_tokens_to_discard r) (next_decode_eligible_step r) (spec_token_ids r)
    (num_computed_tokens r) (is_prefill_chunk r) (num_nans_in_logits r) (num_preemptions
    r) (prefill_stats r) (block_hashes r) (prompt_embeds_per_block_hashes r).
Definition set_resumable (v : bool) (r : Request) : Request :=
    mkRequest (request_id r) (client_index r) (priority r) (arrival_time r)
    (sampling_params r) (pooling_params r) (lora_request r) (use_structured_output r)
    (cache_salt r) (prompt_embeds r) v (abort_immediately r) (skip_reading_prefix_cache
    r) (max_tokens r) (prompt_token_ids r) (num_prompt_tokens r) (mm_features r) (status
    r) (stop_reason r) (output_token_ids r) (all_token_ids r) (num_output_placeholders
    r) (async_tokens_to_discard r) (next_decode_eligible_step r) (spec_token_ids r)
    (num_computed_tokens r) (is_prefill_chunk r) (num_nans_in_logits r) (num_preemptions
    r) (prefill_stats r) (block_hashes r) (prompt_embeds_per_block_hashes r).
Definition set_max_tokens (v : Z) (r : Request) : Request :=
    mkRequest (request_id r) (client_index r) (priority r) (arrival_time r) (sampling_params
    r) (pooling_params r) (lora_request r) (use_structured_output r) (cache_salt r)
    (prompt_embeds r) (resumable r) (abort_immediately r) (skip_reading_prefix_cache r) v
    (prompt_token_ids r) (num_prompt_tokens r) (mm_features r) (status r) (stop_reason r)
    (output_token_ids r) (all_token_ids r) (num_output_placeholders r)
    (async_tokens_to_discard r) (next_decode_eligible_step r) (spec_token_ids r)
    (num_computed_tokens r) (is_prefill_chunk r) (num_nans_in_logits r) (num_preemptions r)
    (prefill_stats r) (block_hashes r) (prompt_embeds_per_block_hashes r).
Definition set_prompt_token_ids (v : option (list Z)) (r : Request) : Request :=
    mkRequest (request_id r) (client_index r) (priority r) (arrival_time r) (sampling_params
    r) (pooling_params r) (lora_request r) (use_structured_output r) (cache_salt r)
    (prompt_embeds r) (resumable r) (abort_immediately r) (skip_reading_prefix_cache r)
    (max_tokens r) v (num_prompt_tokens r) (mm_features r) (status r) (stop_reason r)
    (output_token_ids r) (all_token_ids r) (num_output_placeholders r)
    (async_tokens_to_discard r) (next_decode_eligible_step r) (spec_token_ids r)
    (num_computed_tokens r) (is_prefill_chunk r) (num_nans_in_logits r) (num_preemptions r)
    (prefill_stats r) (block_hashes r) (prompt_embeds_per_block_hashes r).
Definition set_num_prompt_tokens (v : Z) (r : Request) : Request :=
    mkRequest (request_id r) (client_index r) (priority r) (arrival_time r) (sampling_params
    r) (pooling_params r) (lora_request r) (use_structured_output r) (cache_salt r)
    (prompt_embeds r) (resumable r) (abort_immediately r) (skip_reading_prefix_cache r)
    (max_tokens r) (prompt_token_ids r) v (mm_features r) (status r) (stop_reason r)
    (output_token_ids r) (all_token_ids r) (num_output_placeholders r)
    (async_tokens_to_discard r) (next_decode_eligible_step r) (spec_token_ids r)
    (num_computed_tokens r) (is_prefill_chunk r) (num_nans_in_logits r) (num_preemptions r)
    (prefill_stats r) (block_hashes r) (prompt_embeds_per_block_hashes r).
Definition set_mm_features (v : list MultiModalFeatureSpec) (r : Request) : Request :=
    mkRequest (request_id r) (client_index r) (priority r) (arrival_time r) (sampling_params
    r) (pooling_params r) (lora_request r) (use_structured_output r) (cache_salt r)
    (prompt_embeds r) (resumable r) (abort_immediately r) (skip_reading_prefix_cache r)
    (max_tokens r) (prompt_token_ids r) (num_prompt_tokens r) v (status r) (stop_reason r)
    (output_token_ids r) (all_token_ids r) (num_output_placeholders r)
    (async_tokens_to_discard r) (next_decode_eligible_step r) (spec_token_ids r)
    (num_computed_tokens r) (is_prefill_chunk r) (num_nans_in_logits r) (num_preemptions r)
    (prefill_stats r) (block_hashes r) (prompt_embeds_per_block_hashes r).
Definition set_status (v : RequestStatus) (r : Request) : Request :=
    mkRequest (request_id r) (client_index r) (priority r) (arrival_time r) (sampling_params
    r) (pooling_params r) (lora_request r) (use_structured_output r) (cache_salt r)
    (prompt_embeds r) (resumable r) (abort_immediately r) (skip_reading_prefix_cache r)
    (max_tokens r) (prompt_token_ids r) (num_prompt_tokens r) (mm_features r) v (stop_reason
    r) (output_token_ids r) (all_token_ids r) (num_output_placeholders r)
    (async_tokens_to_discard r) (next_decode_eligible_step r) (spec_token_ids r)
    (num_computed_tokens r) (is_prefill_chunk r) (num_nans_in_logits r) (num_preemptions r)
    (prefill_stats r) (block_hashes r) (prompt_embeds_per_block_hashes r).
Definition set_stop_reason (v : option StopReason) (r : Request) : Request :=
    mkRequest (request_id r) (client_index r) (priority r) (arrival_time r) (sampling_params
    r) (pooling_params r) (lora_request r) (use_structured_output r) (cache_salt r)
    (prompt_embeds r) (resumable r) (abort_immediately r) (skip_reading_prefix_cache r)
    (max_tokens r) (prompt_token_ids r) (num_prompt_tokens r) (mm_features r) (status r) v
    (output_token_ids r) (all_token_ids r) (num_output_placeholders r)
    (async_tokens_to_discard r) (next_decode_eligible_step r) (spec_token_ids r)
    (num_computed_tokens r) (is_prefill_chunk r) (num_nans_in_logits r) (num_preemptions r)
    (prefill_stats r) (block_hashes r) (prompt_embeds_per_block_hashes r).
Definition set_output_token_ids (v : list Z) (r : Request) : Request :=
    mkRequest (request_id r) (client_index r) (priority r) (arrival_time r) (sampling_params
    r) (pooling_params r) (lora_request r) (use_structured_output r) (cache_salt r)
    (prompt_embeds r) (resumable r) (abort_immediately r) (skip_reading_prefix_cache r)
    (max_tokens r) (prompt_token_ids r) (num_prompt_tokens r) (mm_features r) (status r)
    (stop_reason r) v (all_token_ids r) (num_output_placeholders r) (async_tokens_to_discard
    r) (next_decode_eligible_step r) (spec_token_ids r) (num_computed_tokens r)
    (is_prefill_chunk r) (num_nans_in_logits r) (num_preemptions r) (prefill_stats r)
    (block_hashes r) (prompt_embeds_per_block_hashes r).
Definition set_all_token_ids (v : list Z) (r : Request) : Request :=
    mkRequest (request_id r) (client_index r) (priority r) (arrival_time r) (sampling_params
    r) (pooling_params r) (lora_request r) (use_structured_output r) (cache_salt r)
    (prompt_embeds r) (resumable r) (abort_immediately r) (skip_reading_prefix_cache r)
    (max_tokens r) (prompt_token_ids r) (num_prompt_tokens r) (mm_features r) (status r)
    (stop_reason r) (output_token_ids r) v (num_output_placeholders r)
    (async_tokens_to_discard r) (next_decode_eligible_step r) (spec_token_ids r)
    (num_computed_tokens r) (is_prefill_chunk r) (num_nans_in_logits r) (num_preemptions r)
    (prefill_stats r) (block_hashes r) (prompt_embeds_per_block_hashes r).
Definition set_num_output_placeholders (v : Z) (r : Request) : Request :=
    mkRequest (request_id r) (client_index r) (priority r) (arrival_time r) (sampling_params
    r) (pooling_params r) (lora_request r) (use_structured_output r) (cache_salt r)
    (prompt_embeds r) (resumable r) (abort_immediately r) (skip_reading_prefix_cache r)
    (max_tokens r) (prompt_token_ids r) (num_prompt_tokens r) (mm_features r) (status r)
    (stop_reason r) (output_token_ids r) (all_token_ids r) v (async_tokens_to_discard r)
    (next_decode_eligible_step r) (spec_token_ids r) (num_computed_tokens r)
    (is_prefill_chunk r) (num_nans_in_logits r) (num_preemptions r) (prefill_stats r)
    (block_hashes r) (prompt_embeds_per_block_hashes r).
Definition set_async_tokens_to_discard (v : Z) (r : Request) : Request :=
    mkRequest (request_id r) (client_index r) (priority r) (arrival_time r) (sampling_params
    r) (pooling_params r) (lora_request r) (use_structured_output r) (cache_salt r)
    (prompt_embeds r) (resumable r) (abort_immediately r) (skip_reading_prefix_cache r)
    (max_tokens r) (prompt_token_ids r) (num_prompt_tokens r) (mm_features r) (status r)
    (stop_reason r) (output_token_ids r) (all_token_ids r) (num_output_placeholders r) v
    (next_decode_eligible_step r) (spec_token_ids r) (num_computed_tokens r)
    (is_prefill_chunk r) (num_nans_in_logits r) (num_preemptions r) (prefill_stats r)
    (block_hashes r) (prompt_embeds_per_block_hashes r).
Definition set_next_decode_eligible_step (v : Z) (r : Request) : Request :=
    mkRequest (request_id r) (client_index r) (priority r) (arrival_time r) (sampling_params
    r) (pooling_params r) (lora_request r) (use_structured_output r) (cache_salt r)
    (prompt_embeds r) (resumable r) (abort_immediately r) (skip_reading_prefix_cache r)
    (max_tokens r) (prompt_token_ids r) (num_prompt_tokens r) (mm_features r) (status r)
    (stop_reason r) (output_token_ids r) (all_token_ids r) (num_output_placeholders r)
    (async_tokens_to_discard r) v (spec_token_ids r) (num_computed_tokens r)
    (is_prefill_chunk r) (num_nans_in_logits r) (num_preemptions r) (prefill_stats r)
    (block_hashes r) (prompt_embeds_per_block_hashes r).
Definition set_spec_token_ids (v : list Z) (r : Request) : Request :=
    mkRequest (request_id r) (client_index r) (priority r) (arrival_time r) (sampling_params
    r) (pooling_params r) (lora_request r) (use_structured_output r) (cache_salt r)
    (prompt_embeds r) (resumable r) (abort_immediately r) (skip_reading_prefix_cache r)
    (max_tokens r) (prompt_token_ids r) (num_prompt_tokens r) (mm_features r) (status r)
    (stop_reason r) (output_token_ids r) (all_token_ids r) (num_output_placeholders r)
    (async_tokens_to_discard r) (next_decode_eligible_step r) v (num_computed_tokens r)
    (is_prefill_chunk r) (num_nans_in_logits r) (num_preemptions r) (prefill_stats r)
    (block_hashes r) (prompt_embeds_per_block_hashes r).
Definition set_num_computed_tokens (v : Z) (r : Request) : Request :=
    mkRequest (request_id r) (client_index r) (priority r) (arrival_time r) (sampling_params
    r) (pooling_params r) (lora_request r) (use_structured_output r) (cache_salt r)
    (prompt_embeds r) (resumable r) (abort_immediately r) (skip_reading_prefix_cache r)
    (max_tokens r) (prompt_token_ids r) (num_prompt_tokens r) (mm_features r) (status r)
    (stop_reason r) (output_token_ids r) (all_token_ids r) (num_output_placeholders r)
    (async_tokens_to_discard r) (next_decode_eligible_step r) (spec_token_ids r) v
    (is_prefill_chunk r) (num_nans_in_logits r) (num_preemptions r) (prefill_stats r)
    (block_hashes r) (prompt_embeds_per_block_hashes r).
Definition set_is_prefill_chunk (v : bool) (r : Request) : Request :=
    mkRequest (request_id r) (client_index r) (priority r) (arrival_time r) (sampling_params
    r) (pooling_params r) (lora_request r) (use_structured_output r) (cache_salt r)
    (prompt_embeds r) (resumable r) (abort_immediately r) (skip_reading_prefix_cache r)
    (max_tokens r) (prompt_token_ids r) (num_prompt_tokens r) (mm_features r) (status r)
    (stop_reason r) (output_token_ids r) (all_token_ids r) (num_output_placeholders r)
    (async_tokens_to_discard r) (next_decode_eligible_step r) (spec_token_ids r)
    (num_computed_tokens r) v (num_nans_in_logits r) (num_preemptions r) (prefill_stats r)
    (block_hashes r) (prompt_embeds_per_block_hashes r).
Definition set_num_nans_in_logits (v : Z) (r : Request) : Request :=
    mkRequest (request_id r) (client_index r) (priority r) (arrival_time r) (sampling_params
    r) (pooling_params r) (lora_request r) (use_structured_output r) (cache_salt r)
    (prompt_embeds r) (resumable r) (abort_immediately r) (skip_reading_prefix_cache r)
    (max_tokens r) (prompt_token_ids r) (num_prompt_tokens r) (mm_features r) (status r)
    (stop_reason r) (output_token_ids r) (all_token_ids r) (num_output_placeholders r)
    (async_tokens_to_discard r) (next_decode_eligible_step r) (spec_token_ids r)
    (num_computed_tokens r) (is_prefill_chunk r) v (num_preemptions r) (prefill_stats r)
    (block_hashes r) (prompt_embeds_per_block_hashes r).
Definition set_num_preemptions (v : Z) (r : Request) : Request :=
    mkRequest (request_id r) (client_index r) (priority r) (arrival_time r) (sampling_params
    r) (pooling_params r) (lora_request r) (use_structured_output r) (cache_salt r)
    (prompt_embeds r) (resumable r) (abort_immediately r) (skip_reading_prefix_cache r)
    (max_tokens r) (prompt_token_ids r) (num_prompt_tokens r) (mm_features r) (status r)
    (stop_reason r) (output_token_ids r) (all_token_ids r) (num_output_placeholders r)
    (async_tokens_to_discard r) (next_decode_eligible_step r) (spec_token_ids r)
    (num_computed_tokens r) (is_prefill_chunk r) (num_nans_in_logits r) v (prefill_stats r)
    (block_hashes r) (prompt_embeds_per_block_hashes r).
Definition set_prefill_stats (v : option PrefillStats) (r : Request) : Request :=
    mkRequest (request_id r) (client_index r) (priority r) (arrival_time r) (sampling_params
    r) (pooling_params r) (lora_request r) (use_structured_output r) (cache_salt r)
    (prompt_embeds r) (resumable r) (abort_immediately r) (skip_reading_prefix_cache r)
    (max_tokens r) (prompt_token_ids r) (num_prompt_tokens r) (mm_features r) (status r)
    (stop_reason r) (output_token_ids r) (all_token_ids r) (num_output_placeholders r)
    (async_tokens_to_discard r) (next_decode_eligible_step r) (spec_token_ids r)
    (num_computed_tokens r) (is_prefill_chunk r) (num_nans_in_logits r) (num_preemptions r)
    v (block_hashes r) (prompt_embeds_per_block_hashes r).
Definition set_block_hashes (v : list bytes) (r : Request) : Request :=
    mkRequest (request_id r) (client_index r) (priority r) (arrival_time r) (sampling_params
    r) (pooling_params r) (lora_request r) (use_structured_output r) (cache_salt r)
    (prompt_embeds r) (resumable r) (abort_immediately r) (skip_reading_prefix_cache r)
    (max_tokens r) (prompt_token_ids r) (num_prompt_tokens r) (mm_features r) (status r)
    (stop_reason r) (output_token_ids r) (all_token_ids r) (num_output_placeholders r)
    (async_tokens_to_discard r) (next_decode_eligible_step r) (spec_token_ids r)
    (num_computed_tokens r) (is_prefill_chunk r) (num_nans_in_logits r) (num_preemptions r)
    (prefill_stats r) v (prompt_embeds_per_block_hashes r).
Definition set_prompt_embeds_per_block_hashes (v : gmap (Z * Z) bytes) (r : Request) : Request :=
    mkRequest (request_id r) (client_index r) (priority r) (arrival_time r) (sampling_params
    r) (pooling_params r) (lora_request r) (use_structured_output r) (cache_salt r)
    (prompt_embeds r) (resumable r) (abort_immediately r) (skip_reading_prefix_cache r)
    (max_tokens r) (prompt_token_ids r) (num_prompt_tokens r) (mm_features r) (status r)
    (stop_reason r) (output_token_ids r) (all_token_ids r) (num_output_placeholders r)
    (async_tokens_to_discard r) (next_decode_eligible_step r) (spec_token_ids r)
    (num_computed_tokens r) (is_prefill_chunk r) (num_nans_in_logits r) (num_preemptions r)
    (prefill_stats r) (block_hashes r) v.

(** ** Properties of the class *)

Definition num_tokens (r : Request) : Z := zlen (all_token_ids r).
Definition num_tokens_with_spec (r : Request) : Z :=
  zlen (all_token_ids r) + zlen (spec_token_ids r).
Definition num_output_tokens (r : Request) : Z := zlen (output_token_ids r).
Definition num_encoder_inputs (r : Request) : Z := zlen (mm_features r).
Definition has_encoder_inputs (r : Request) : bool := (0 <? num_encoder_inputs r)%Z.

(** [mm_features[i]] for a Python index: negative ones count from the end. *)
Definition py_index {A} (l : list A) (i : Z) : option A :=
  if (0 <=? i)%Z then l !! Z.to_nat i
  else if (0 <=? zlen l + i)%Z then l !! Z.to_nat (zlen l + i) else None.

Definition get_num_encoder_embeds {S} (r : Request) (input_id : Z) : M S Z :=
  assert_ (input_id <? zlen (mm_features r))%Z ;;
  f ← of_option IndexError (py_index (mm_features r) input_id);
  mret (get_num_embeds (mm_position f)).

Definition get_skip_reading_prefix_cache
    (sp : option SamplingParams) (pp : option PoolingParams) : bool :=
  match sp ≫= sp_skip_reading_prefix_cache with
  | Some b => b
  | None =>
      match pp ≫= pp_skip_reading_prefix_cache with
      | Some b => b
      | None => false
      end
  end.

Definition take_prefill_stats : M Request (option PrefillStats) :=
  r ← get;
  match prefill_stats r with
  | None => mret None
  | Some st => modify (set_prefill_stats None) ;; mret (Some st)
  end.

(** A [block_hasher]: computes the hashes of the new full blocks of a request,
    may raise, and may fill the request's cache of prompt-embedding hashes. *)
Definition hasher : Type := M Request (list bytes).

Definition update_block_hashes (h : option hasher) : M Request unit :=
  match h with
  | None => mret tt
  | Some h =>
      new ← h;
      modify (fun r => set_block_hashes (block_hashes r ++ new) r)
  end.

(** [append_output_token_ids]: a single token is the one-element list. *)
Definition append_output_token_ids (h : option hasher) (token_ids : list Z) : M Request unit :=
  modify (fun r => set_all_token_ids (all_token_ids r ++ token_ids)
                     (set_output_token_ids (output_token_ids r ++ token_ids) r)) ;;
  update_block_hashes h.

(** [length_from_prompt_token_ids_or_embeds] *)
Definition length_from_prompt_token_ids_or_embeds
    (ids : option (list Z)) (embeds : option (list bytes)) : result Z :=
  match ids with
  | None => match embeds with None => Err ValueError | Some e => Ok (zlen e) end
  | Some ids =>
      match embeds with
      | Some e => if (zlen e =? zlen ids)%Z then Ok (zlen ids) else Err ValueError
      | None => Ok (zlen ids)
      end
  end.

(** The arguments of the constructor that the model keeps. *)
Record RequestArgs := mkArgs {
  a_request_id : string;
  a_client_index : Z;
  a_priority : Z;
  a_arrival_time : Z;
  a_sampling_params : option SamplingParams;
  a_pooling_params : option PoolingParams;
  a_lora_request : option LoRARequest;
  a_cache_salt : option string;
  a_prompt_token_ids : option (list Z);
  a_prompt_embeds : option (list bytes);
  a_mm_features : list MultiModalFeatureSpec;
  a_resumable : bool;
  a_abort_immediately : bool
}.

(** [Request.__init__] up to the computation of the block hashes: the token
    budget, the initial status, the prompt length. *)
Definition init_fields (a : RequestArgs) : result Request :=
  let structured :=
    match a_sampling_params a with Some sp => structured_outputs sp | None => false end in
  let limits : result (Z * RequestStatus) :=
    match a_pooling_params a, a_sampling_params a with
    | Some _, _ => Ok (1%Z, WAITING)
    | None, Some sp =>
        match sp_max_tokens sp with
        | None => Err AssertionError
        | Some m => Ok (m, if structured then WAITING_FOR_STRUCTURED_OUTPUT_GRAMMAR else WAITING)
        end
    | None, None => Err ValueError
    end in
  match limits with
  | Err e => Err e
  | Ok (max_tokens, st) =>
      match length_from_prompt_token_ids_or_embeds (a_prompt_token_ids a) (a_prompt_embeds a) with
      | Err e => Err e
      | Ok n =>
          Ok {| request_id := a_request_id a; client_index := a_client_index a;
                priority := a_priority a; arrival_time := a_arrival_time a;
                sampling_params := a_sampling_params a; pooling_params := a_pooling_params a;
                lora_request := a_lora_request a; use_structured_output := structured;
                cache_salt := a_cache_salt a; prompt_embeds := a_prompt_embeds a;
                resumable := a_resumable a; abort_immediately := a_abort_immediately a;
                skip_reading_prefix_cache :=
                  get_skip_reading_prefix_cache (a_sampling_params a) (a_pooling_params a);
                max_tokens := max_tokens; prompt_token_ids := a_prompt_token_ids a;
                num_prompt_tokens := n; mm_features := a_mm_features a;
                status := st; stop_reason := None; output_token_ids := [];
                all_token_ids :=
                  match a_prompt_token_ids a with
                  | Some ids => ids
                  | None => replicate (Z.to_nat n) 0%Z
                  end;
                num_output_placeholders := 0; async_tokens_to_discard := 0;
                next_decode_eligible_step := 0; spec_token_ids := [];
                num_computed_tokens := 0; is_prefill_chunk := false;
                num_nans_in_logits := 0; num_preemptions := 0;
                prefill_stats := Some new_prefill_stats; block_hashes := [];
                prompt_embeds_per_block_hashes := ∅ |}
      end
  end.

Definition Request_init (h : option hasher) (a : RequestArgs) : result Request :=
  match init_fields a with
  | Err e => Err e
  | Ok r => match update_block_hashes h r with (Ok _, r') => Ok r' | (Err e, _) => Err e end
  end.

(** [Request.__lt__] with [id(self)] as the last key. *)
Definition request_lt (id1 id2 : Z) (r1 r2 : Request) : bool :=
  if negb (priority r1 =? priority r2)%Z then (priority r1 <? priority r2)%Z
  else if negb (arrival_time r1 =? arrival_time r2)%Z then (arrival_time r1 <? arrival_time r2)%Z
  else if negb (String.eqb (request_id r1) (request_id r2))
  then String.ltb (request_id r1) (request_id r2)
  else (id1 <? id2)%Z.

End Request.
