(* ===== verification/BlockHash.v ===== *)
(** * BlockHash

    The prefix-cache keys of v1/core/kv_cache_utils.py: packing a block hash
    with its KV-cache group, the extra keys of a block, the hash chain over the
    blocks of a request, and the change of hash granularity.

    The hash function, the hash of the empty prefix and SHA-256 are parameters.
    What prefix caching needs of them (no collisions) is stated where it is
    used. *)

From Stdlib Require Import Strings.Byte Sorting.Sorted.
From S2P Require Import Prelude Request.

Module BlockHash.
Import Request.

(** ** Byte packing *)

Definition byte_of (z : Z) : Byte.byte :=
  default Byte.x00 (Byte.of_N (Z.to_N (Z.land z 255))).
Definition z_of_byte (b : Byte.byte) : Z := Z.of_N (Byte.to_N b).

(** [n.to_bytes(4, "big", signed=False)] *)
Definition to_bytes4 (n : Z) : result bytes :=
  if ((0 <=? n) && (n <? 2 ^ 32))%Z
  then Ok [byte_of (Z.shiftr n 24); byte_of (Z.shiftr n 16); byte_of (Z.shiftr n 8); byte_of n]
  else Err OverflowError.

(** [int.from_bytes(b, "big")] *)
Definition from_bytes (b : bytes) : Z :=
  foldl (fun acc x => acc * 256 + z_of_byte x)%Z 0%Z b.

Definition make_block_hash_with_group_id (block_hash : bytes) (group_id : Z) : result bytes :=
  match to_bytes4 group_id with
  | Ok g => Ok (block_hash ++ g)
  | Err e => Err e
  end.

(** [key[:-4]] and [key[-4:]] *)
Definition get_block_hash (key : bytes) : bytes := take (length key - 4) key.
Definition get_group_id (key : bytes) : Z := from_bytes (drop (length key - 4) key).

Inductive ExternalBlockHash := EBytes (b : bytes) | EInt (n : Z).

(** [use_int] is VLLM_KV_EVENTS_USE_INT_BLOCK_HASHES. *)
Definition maybe_convert_block_hash (use_int : bool) (hash_bytes : bytes) : ExternalBlockHash :=
  if use_int then EInt (Z.land (from_bytes hash_bytes) (Z.shiftl 1 64 - 1))
  else EBytes hash_bytes.

(** ** Extra keys

    The elements of the Python tuple: plain strings (a LoRA name or a cache
    salt), an (identifier, offset) pair of a multi-modal input, or the bytes of
    a prompt-embedding hash. *)
Inductive extra_key :=
| KStr (s : string)
| KMM (identifier : string) (rel_offset : Z)
| KBytes (b : bytes).

#[export] Instance extra_key_eq_dec : EqDecision extra_key.
Proof. solve_decision. Defined.

Definition need_extra_keys (r : Request) : bool :=
  negb (bool_decide (length (mm_features r) = 0))
  || is_some (lora_request r) || is_some (cache_salt r).

(** The [while] loop of [_gen_mm_extra_hash_keys] over the features from
    [curr_mm_idx] on; every round that does not stop moves to the next one. *)
Fixpoint mm_scan (start_token_idx end_token_idx : Z) (fs : list MultiModalFeatureSpec)
    (curr_mm_idx : Z) (extra_keys : list extra_key) : list extra_key * Z :=
  match fs with
  | [] => (extra_keys, curr_mm_idx)
  | f :: fs' =>
      let off := offset (mm_position f) in
      let len := length_ (mm_position f) in
      if (off <? end_token_idx)%Z then
        if (off + len <=? start_token_idx)%Z
        then mm_scan start_token_idx end_token_idx fs' (curr_mm_idx + 1) extra_keys
        else
          let keys := extra_keys ++ [KMM (identifier f) (off - start_token_idx)] in
          if (off + len <=? end_token_idx)%Z
          then mm_scan start_token_idx end_token_idx fs' (curr_mm_idx + 1) keys
          else (keys, curr_mm_idx)
      else (extra_keys, curr_mm_idx)
  end.

Definition gen_mm_extra_hash_keys {S} (r : Request) (start_token_idx end_token_idx start_mm_idx : Z)
    : M S (list extra_key * Z) :=
  match last (mm_features r) with
  | None => mret ([], start_mm_idx)
  | Some f =>
      let last_pos := mm_position f in
      if (offset last_pos + length_ last_pos <=? start_token_idx)%Z
      then mret ([], start_mm_idx)
      else
        idx ← (if (start_mm_idx <? 0)%Z
               then assert_ (- start_mm_idx <=? zlen (mm_features r))%Z ;;
                    mret (zlen (mm_features r) + start_mm_idx)%Z
               else mret start_mm_idx);
        mret (mm_scan start_token_idx end_token_idx
                (drop (Z.to_nat idx) (mm_features r)) idx [])
  end.

Definition gen_lora_extra_hash_keys (r : Request) : list extra_key :=
  match lora_request r with
  | None => []
  | Some l => [KStr (lora_name l)]
  end.

Definition cache_salt_keys (r : Request) (start_token_idx : Z) : list extra_key :=
  match cache_salt r with
  | Some s =>
      if (start_token_idx =? 0)%Z && negb (String.eqb s "") then [KStr s] else []
  | None => []
  end.

Section hashing.
Context (hash_fn : bytes * list Z * option (list extra_key) -> bytes).
Context (NONE_HASH : bytes).
Context (sha256 : bytes -> bytes).

(** [_gen_prompt_embeds_extra_hash_keys]: hashes a slice of the embeddings once
    per block and keeps the result on the request. *)
Definition gen_prompt_embeds_extra_hash_keys (start_token_idx end_token_idx : Z)
    : M Request (list extra_key) :=
  r ← get;
  match prompt_embeds r with
  | None => mret []
  | Some rows =>
      let block_range := (start_token_idx, end_token_idx) in
      match prompt_embeds_per_block_hashes r !! block_range with
      | Some h => mret [KBytes h]
      | None =>
          let block_prompt_embeds :=
            slice (Z.to_nat start_token_idx) (Z.to_nat end_token_idx) rows in
          let h := sha256 (concat block_prompt_embeds) in
          modify (fun r => set_prompt_embeds_per_block_hashes
                             (<[block_range := h]> (prompt_embeds_per_block_hashes r)) r) ;;
          mret [KBytes h]
      end
  end.

Definition generate_block_hash_extra_keys (start_token_idx end_token_idx start_mm_idx : Z)
    : M Request (option (list extra_key) * Z) :=
  r ← get;
  mm ← gen_mm_extra_hash_keys r start_token_idx end_token_idx start_mm_idx;
  let lora_extra_keys := gen_lora_extra_hash_keys r in
  let salt_keys := cache_salt_keys r start_token_idx in
  prompt_embeds_keys ← gen_prompt_embeds_extra_hash_keys start_token_idx end_token_idx;
  let extra_keys := lora_extra_keys ++ mm.1 ++ salt_keys ++ prompt_embeds_keys in
  match extra_keys with
  | [] => mret (None, mm.2)
  | _ => mret (Some extra_keys, mm.2)
  end.

(** [hash_block_tokens]: a missing (or empty) parent is the empty prefix. *)
Definition hash_block_tokens (parent_block_hash : option bytes)
    (curr_block_token_ids : list Z) (extra_keys : option (list extra_key)) : bytes :=
  let parent := match parent_block_hash with
                | None | Some [] => NONE_HASH
                | Some p => p
                end in
  hash_fn (parent, curr_block_token_ids, extra_keys).

(** The [while True] loop of [request_block_hasher]. *)
Fixpoint hash_loop (fuel : nat) (block_size num_tokens start_token_idx curr_mm_idx : Z)
    (prev_block_hash_value : option bytes) (new_block_hashes : list bytes)
    : M Request (list bytes) :=
  match fuel with
  | 0 => raise OutOfFuel
  | S fuel' =>
      let end_token_idx := (start_token_idx + block_size)%Z in
      if (num_tokens <? end_token_idx)%Z then mret new_block_hashes
      else
        ek ← generate_block_hash_extra_keys start_token_idx end_token_idx curr_mm_idx;
        r ← get;
        let block_tokens :=
          slice (Z.to_nat start_token_idx) (Z.to_nat end_token_idx) (all_token_ids r) in
        let block_hash := hash_block_tokens prev_block_hash_value block_tokens ek.1 in
        hash_loop fuel' block_size num_tokens (start_token_idx + block_size) ek.2
          (Some block_hash) (new_block_hashes ++ [block_hash])
  end.

(** [get_request_block_hasher(block_size, caching_hash_fn)]. Each round advances
    by [block_size >= 1] tokens, so [num_tokens + 1] rounds are enough. *)
Definition request_block_hasher (block_size : Z) : hasher :=
  r ← get;
  let start_token_idx := (zlen (block_hashes r) * block_size)%Z in
  let n := num_tokens r in
  if (n <? start_token_idx + block_size)%Z then mret []
  else
    let curr_mm_idx := if (0 <? start_token_idx)%Z then (-1)%Z else 0%Z in
    hash_loop (S (Z.to_nat n)) block_size n start_token_idx curr_mm_idx
      (last (block_hashes r)) [].

End hashing.

(** ** [BlockHashListWithBlockSize] *)

Record BlockHashListWithBlockSize := mkHashList {
  hl_block_hashes : list bytes;
  scale_factor : Z
}.

Definition hash_list_init (block_hashes : list bytes) (hash_block_size target_block_size : Z)
    : result BlockHashListWithBlockSize :=
  if (hash_block_size =? 0)%Z then Err ZeroDivisionError
  else if (target_block_size mod hash_block_size =? 0)%Z
  then Ok (mkHashList block_hashes (target_block_size / hash_block_size))
  else Err AssertionError.

Definition hl_len (l : BlockHashListWithBlockSize) : Z :=
  (zlen (hl_block_hashes l) / scale_factor l)%Z.

Definition get_value_at (l : BlockHashListWithBlockSize) (idx : Z) : bytes :=
  let base := (idx * scale_factor l)%Z in
  let end_ := (base + scale_factor l)%Z in
  concat (slice (Z.to_nat base) (Z.to_nat end_) (hl_block_hashes l)).

(** [list(l[a:])] for [0 <= a] and [list(l)]. *)
Definition hl_from (l : BlockHashListWithBlockSize) (a : Z) : list bytes :=
  get_value_at l <$> drop (Z.to_nat a) (zrange (hl_len l)).
Definition hl_iter (l : BlockHashListWithBlockSize) : list bytes :=
  get_value_at l <$> zrange (hl_len l).

(** ** Packing is a bijection on its range *)

Lemma z_of_byte_of z : z_of_byte (byte_of z) = Z.land z 255.
Proof.
  unfold z_of_byte, byte_of.
  assert (Hr : (0 <= Z.land z 255 < 256)%Z).
  { change 255%Z with (Z.ones 8). rewrite Z.land_ones by lia. apply Z.mod_pos_bound. lia. }
  destruct (Byte.of_N (Z.to_N (Z.land z 255))) as [b|] eqn:E.
  - apply Byte.to_of_N in E. simpl. rewrite E. lia.
  - apply Byte.of_N_None_iff in E. lia.
Qed.

Lemma to_bytes4_spec n g : to_bytes4 n = Ok g -> length g = 4 /\ from_bytes g = n.
Proof.
  unfold to_bytes4. destruct ((0 <=? n) && (n <? 2 ^ 32))%Z eqn:E; [|done].
  apply andb_true_iff in E as [E1%Z.leb_le E2%Z.ltb_lt]. intros [= <-]. split; [done|].
  unfold from_bytes. simpl. rewrite !z_of_byte_of. change 255%Z with (Z.ones 8).
  rewrite !Z.land_ones, !Z.shiftr_div_pow2 by lia.
  change (2 ^ 8)%Z with 256%Z. change (2 ^ 24)%Z with (256 * 256 * 256)%Z.
  change (2 ^ 16)%Z with (256 * 256)%Z. rewrite <- !Z.div_div by lia.
  assert (Hb : (n / 256 / 256 / 256 < 256)%Z).
  { rewrite !Z.div_div by lia. apply Z.div_lt_upper_bound; lia. }
  assert (H0 : (0 <= n / 256 / 256 / 256)%Z) by (repeat apply Z.div_pos; lia).
  rewrite (Z.mod_small (n / 256 / 256 / 256)) by lia.
  pose proof (Z.div_mod n 256 ltac:(lia)).
  pose proof (Z.div_mod (n / 256) 256 ltac:(lia)).
  pose proof (Z.div_mod (n / 256 / 256) 256 ltac:(lia)). lia.
Qed.

Lemma make_block_hash_roundtrip h g k :
  make_block_hash_with_group_id h g = Ok k -> get_block_hash k = h /\ get_group_id k = g.
Proof.
  unfold make_block_hash_with_group_id. destruct (to_bytes4 g) as [b|] eqn:E; [|done].
  intros [= <-]. apply to_bytes4_spec in E as [Hl Hb].
  unfold get_block_hash, get_group_id. rewrite length_app, Hl.
  replace (length h + 4 - 4) with (length h) by lia.
  rewrite take_app_length, drop_app_length. done.
Qed.

Lemma make_block_hash_inj h1 g1 h2 g2 k :
  make_block_hash_with_group_id h1 g1 = Ok k -> make_block_hash_with_group_id h2 g2 = Ok k ->
  h1 = h2 /\ g1 = g2.
Proof.
  intros H1 H2. apply make_block_hash_roundtrip in H1 as [<- <-].
  by apply make_block_hash_roundtrip in H2 as [<- <-].
Qed.

(** ** The multi-modal scan *)

Definition mm_end (f : MultiModalFeatureSpec) : Z :=
  (offset (mm_position f) + length_ (mm_position f))%Z.

(** Features are ordered by where they end, as sorted disjoint placeholders
    are, and no placeholder has a negative length. *)
Definition mm_ordered (fs : list MultiModalFeatureSpec) : Prop :=
  StronglySorted (fun f g => (mm_end f <= mm_end g)%Z) fs /\
  Forall (fun f => (0 <= length_ (mm_position f))%Z) fs.

Definition all_end_by (t : Z) (fs : list MultiModalFeatureSpec) : Prop :=
  Forall (fun f => (mm_end f <= t)%Z) fs.

Lemma mm_scan_skip s e pre fs idx keys :
  (s < e)%Z -> all_end_by s pre -> Forall (fun f => (0 <= length_ (mm_position f))%Z) pre ->
  mm_scan s e (pre ++ fs) idx keys = mm_scan s e fs (idx + zlen pre)%Z keys.
Proof.
  intros Hse. revert idx. induction pre as [|f pre IH]; intros idx Hend Hlen; simpl.
  { f_equal. lia. }
  inversion Hend as [|? ? Hf Hend']; subst. inversion Hlen as [|? ? Hl Hlen']; subst.
  unfold mm_end in Hf. rewrite (proj2 (Z.ltb_lt _ _)) by lia.
  rewrite (proj2 (Z.leb_le _ _)) by lia. rewrite IH by done. f_equal. lia.
Qed.

(** Every feature the scan has moved past ends by the end of the block. *)
Lemma mm_scan_progress s e fs : (s < e)%Z -> forall idx keys,
  exists j, (mm_scan s e fs idx keys).2 = (idx + Z.of_nat j)%Z /\ j <= length fs /\
            all_end_by e (take j fs).
Proof.
  intros Hse. induction fs as [|f fs IH]; intros idx keys; simpl.
  { exists 0. split; [simpl; lia|]. split; [lia|constructor]. }
  destruct (Z.ltb_spec (offset (mm_position f)) e).
  2: { exists 0. split; [simpl; lia|]. split; [lia|constructor]. }
  destruct (Z.leb_spec (offset (mm_position f) + length_ (mm_position f)) s).
  - destruct (IH (idx + 1)%Z keys) as (j & -> & Hj & Hend). exists (S j).
    split; [lia|]. split; [lia|]. constructor; [unfold mm_end; lia|done].
  - destruct (Z.leb_spec (offset (mm_position f) + length_ (mm_position f)) e).
    + destruct (IH (idx + 1)%Z (keys ++ [KMM (identifier f) (offset (mm_position f) - s)]))
        as (j & -> & Hj & Hend).
      exists (S j). split; [lia|]. split; [lia|]. constructor; [unfold mm_end; lia|done].
    + exists 0. split; [simpl; lia|]. split; [lia|constructor].
Qed.

(** The index handed to the scan leaves out only features that have ended. *)
Definition mm_index_ok (fs : list MultiModalFeatureSpec) (s idx : Z) : Prop :=
  (0 <= idx <= zlen fs)%Z /\ all_end_by s (take (Z.to_nat idx) fs)
  \/ idx = (-1)%Z /\ all_end_by s (take (length fs - 1) fs).

Definition mm_keys (fs : list MultiModalFeatureSpec) (s e : Z) : list extra_key :=
  (mm_scan s e fs 0 []).1.

Lemma all_end_last s fs f : mm_ordered fs -> last fs = Some f -> (mm_end f <= s)%Z -> all_end_by s fs.
Proof.
  intros [Hs _] Hl Hf. destruct fs as [|g fs _] using rev_ind; [done|].
  rewrite last_snoc in Hl. simplify_eq. apply Forall_app. split; [|by constructor].
  clear - Hs Hf. induction fs as [|g fs IH]; [constructor|]. simpl in Hs.
  inversion Hs as [|? ? Hs' Hall]; subst. constructor; [|by apply IH].
  rewrite Forall_app in Hall. destruct Hall as [_ Hall]. inversion Hall; subst. lia.
Qed.

Lemma mm_scan_all_ended s e fs idx keys : (s < e)%Z -> all_end_by s fs ->
  Forall (fun f => (0 <= length_ (mm_position f))%Z) fs ->
  mm_scan s e fs idx keys = (keys, idx + zlen fs)%Z.
Proof.
  intros. pose proof (mm_scan_skip s e fs [] idx keys) as Hk. rewrite app_nil_r in Hk.
  by rewrite Hk.
Qed.

Lemma all_end_by_mono s s' fs : (s <= s')%Z -> all_end_by s fs -> all_end_by s' fs.
Proof. intros Hs H. eapply Forall_impl; [exact H|]. simpl. intros. lia. Qed.

Lemma gen_mm_keys_spec {S} (r : Request) s e idx (st : S) :
  (s < e)%Z -> mm_ordered (mm_features r) -> mm_index_ok (mm_features r) s idx ->
  wp (gen_mm_extra_hash_keys r s e idx) (fun res st' =>
      st' = st /\ res.1 = mm_keys (mm_features r) s e /\ mm_index_ok (mm_features r) e res.2) st.
Proof.
  intros Hse Hord Hidx. unfold gen_mm_extra_hash_keys. destruct (last (mm_features r)) as [f|] eqn:El.
  2: { apply last_None in El. unfold mm_keys. rewrite El in *. apply wp_ret. split; [done|].
       split; [done|]. destruct Hidx as [[? _]|[-> _]]; [left|right]; (split; [done|]);
       [rewrite take_nil|]; constructor. }
  destruct (Z.leb_spec (offset (mm_position f) + length_ (mm_position f)) s) as [Hle|Hgt].
  { apply wp_ret. split; [done|]. assert (Hall : all_end_by s (mm_features r)).
    { by apply (all_end_last _ _ f). }
    split; [unfold mm_keys; by rewrite mm_scan_all_ended by (done || apply Hord)|].
    destruct Hidx as [[? ?]|[-> ?]]; [left|right]; (split; [done|]);
      eapply all_end_by_mono; [|done| |done]; lia. }
  set (fs := mm_features r) in *.
  assert (Hpos : (0 < zlen fs)%Z) by (destruct fs; simpl in *; [done|lia]).
  assert (Hcase : exists c, (0 <= c <= zlen fs)%Z /\ all_end_by s (take (Z.to_nat c) fs) /\
     forall (Q : list extra_key * Z -> S -> Prop),
       Q (mm_scan s e (drop (Z.to_nat c) fs) c []) st ->
       wp (idx0 ← (if (idx <? 0)%Z
               then assert_ (- idx <=? zlen fs)%Z ;; mret (zlen fs + idx)%Z
               else mret idx);
        mret (mm_scan s e (drop (Z.to_nat idx0) fs) idx0 [])) Q st).
  { destruct Hidx as [[Hr Ha]|[-> Ha]].
    - exists idx. split; [done|]. split; [done|]. intros Q HQ.
      rewrite (proj2 (Z.ltb_ge _ _)) by lia. apply wp_bind, wp_ret, wp_ret, HQ.
    - exists (zlen fs - 1)%Z. split; [lia|]. split.
      { by replace (Z.to_nat (zlen fs - 1)) with (length fs - 1) by lia. }
      intros Q HQ. apply wp_bind. simpl. apply wp_bind, wp_assert; [apply Z.leb_le; lia|].
      apply wp_ret, wp_ret. by replace (zlen fs + -1)%Z with (zlen fs - 1)%Z by lia. }
  destruct Hcase as (c & Hc & Hca & Hwp). apply Hwp. split; [done|].
  assert (Hsk : mm_scan s e (drop (Z.to_nat c) fs) c [] = mm_scan s e fs 0 []).
  { rewrite <- (take_drop (Z.to_nat c) fs) at 2. rewrite mm_scan_skip; [|done|done|].
    - f_equal. rewrite length_take. lia.
    - apply Forall_take, Hord. }
  rewrite Hsk. split; [done|]. left.
  destruct (mm_scan_progress s e (drop (Z.to_nat c) fs) Hse c []) as (j & Hj & Hjl & Hje).
  rewrite <- Hsk, Hj. rewrite length_drop in Hjl. split; [lia|].
  replace (Z.to_nat (c + Z.of_nat j)) with (Z.to_nat c + j) by lia.
  rewrite <- take_take_drop. apply Forall_app. split; [|done].
  eapply all_end_by_mono; [|done]. lia.
Qed.

(** ** The hash chain, as a pure function of the request *)

Section chain.
Context (hash_fn : bytes * list Z * option (list extra_key) -> bytes).
Context (NONE_HASH : bytes).
Context (sha256 : bytes -> bytes).

Definition embeds_keys (r : Request) (s e : Z) : list extra_key :=
  match prompt_embeds r with
  | None => []
  | Some rows => [KBytes (sha256 (concat (slice (Z.to_nat s) (Z.to_nat e) rows)))]
  end.

Definition extra_keys_of (r : Request) (s e : Z) : option (list extra_key) :=
  match gen_lora_extra_hash_keys r ++ mm_keys (mm_features r) s e
        ++ cache_salt_keys r s ++ embeds_keys r s e with
  | [] => None
  | l => Some l
  end.

Definition block_tokens (block_size : Z) (r : Request) (i : nat) : list Z :=
  slice (Z.to_nat (Z.of_nat i * block_size)) (Z.to_nat (Z.of_nat i * block_size + block_size))
    (all_token_ids r).
Definition block_extra (block_size : Z) (r : Request) (i : nat) : option (list extra_key) :=
  extra_keys_of r (Z.of_nat i * block_size) (Z.of_nat i * block_size + block_size).

(** The hashes of [n] consecutive blocks from block [i] on. *)
Fixpoint hash_chain (block_size : Z) (r : Request) (prev : option bytes) (i n : nat) : list bytes :=
  match n with
  | 0 => []
  | S n' =>
      let h := hash_block_tokens hash_fn NONE_HASH prev
                 (block_tokens block_size r i) (block_extra block_size r i) in
      h :: hash_chain block_size r (Some h) (S i) n'
  end.

Definition num_full_blocks (block_size : Z) (r : Request) : nat :=
  Z.to_nat (num_tokens r / block_size).

(** The hashes of all full blocks of the request. *)
Definition all_block_hashes (block_size : Z) (r : Request) : list bytes :=
  hash_chain block_size r None 0 (num_full_blocks block_size r).

(** The request's cache of prompt-embedding hashes holds what it says. *)
Definition embeds_cache_ok (r : Request) : Prop :=
  forall s e h rows, prompt_embeds r = Some rows ->
    prompt_embeds_per_block_hashes r !! (s, e) = Some h ->
    h = sha256 (concat (slice (Z.to_nat s) (Z.to_nat e) rows)).

(** Same request up to that cache. *)
Definition same_but_cache (r r' : Request) : Prop :=
  exists c, r' = set_prompt_embeds_per_block_hashes c r.

Lemma same_but_cache_refl r : same_but_cache r r.
Proof. exists (prompt_embeds_per_block_hashes r). by destruct r. Qed.

Lemma same_but_cache_trans r1 r2 r3 :
  same_but_cache r1 r2 -> same_but_cache r2 r3 -> same_but_cache r1 r3.
Proof. intros [c1 ->] [c2 ->]. by exists c2. Qed.

Lemma gen_prompt_embeds_spec r s e :
  embeds_cache_ok r ->
  wp (gen_prompt_embeds_extra_hash_keys sha256 s e) (fun l r' =>
      l = embeds_keys r s e /\ same_but_cache r r' /\ embeds_cache_ok r') r.
Proof.
  intros Hc. unfold gen_prompt_embeds_extra_hash_keys, embeds_keys. apply wp_bind, wp_get.
  destruct (prompt_embeds r) as [rows|] eqn:Er.
  2: { apply wp_ret. split; [done|]. split; [apply same_but_cache_refl|done]. }
  destruct (prompt_embeds_per_block_hashes r !! (s, e)) as [h|] eqn:Eh.
  { apply wp_ret. rewrite (Hc s e h rows) by done.
    split; [done|]. split; [apply same_but_cache_refl|done]. }
  apply wp_bind, wp_modify, wp_ret. split; [done|]. split; [by eexists|].
  intros s' e' h' rows' Hr Hl. simpl in *. rewrite Er in Hr. simplify_eq.
  rewrite lookup_insert in Hl. case_decide; simplify_eq; [done|by eapply Hc].
Qed.

Lemma generate_extra_spec r s e idx :
  (s < e)%Z -> mm_ordered (mm_features r) -> mm_index_ok (mm_features r) s idx ->
  embeds_cache_ok r ->
  wp (generate_block_hash_extra_keys sha256 s e idx) (fun res r' =>
      res.1 = extra_keys_of r s e /\ mm_index_ok (mm_features r) e res.2 /\
      same_but_cache r r' /\ embeds_cache_ok r') r.
Proof.
  intros Hse Hord Hidx Hc. unfold generate_block_hash_extra_keys.
  apply wp_bind, wp_get, wp_bind.
  eapply wp_mono; [by apply gen_mm_keys_spec|]. intros [ks idx'] r1 (-> & Hk & Hidx').
  simpl in Hk, Hidx'. apply wp_bind. eapply wp_mono; [by apply gen_prompt_embeds_spec|].
  intros ek r' (-> & Hs & Hc'). unfold extra_keys_of. rewrite <- Hk. simpl.
  destruct (gen_lora_extra_hash_keys r ++ _); apply wp_ret; done.
Qed.

Lemma hash_loop_spec block_size : (0 < block_size)%Z -> forall n fuel r i idx prev acc,
  n < fuel -> (Z.of_nat (i + n) = num_tokens r / block_size)%Z ->
  mm_ordered (mm_features r) -> mm_index_ok (mm_features r) (Z.of_nat i * block_size) idx ->
  embeds_cache_ok r ->
  wp (hash_loop hash_fn NONE_HASH sha256 fuel block_size (num_tokens r)
        (Z.of_nat i * block_size) idx prev acc)
     (fun l r' => l = acc ++ hash_chain block_size r prev i n /\
                  same_but_cache r r' /\ embeds_cache_ok r') r.
Proof.
  intros Hbs. induction n as [|n IH]; intros [|fuel] r i idx prev acc Hf Hn Hord Hidx Hc; [lia| |lia|].
  - cbn [hash_loop]. rewrite (proj2 (Z.ltb_lt _ _)).
    2: { pose proof (Z.div_mod (num_tokens r) block_size). pose proof (Z.mod_pos_bound (num_tokens r) block_size). nia. }
    apply wp_ret. rewrite app_nil_r. split; [done|]. split; [apply same_but_cache_refl|done].
  - cbn [hash_loop]. rewrite (proj2 (Z.ltb_ge _ _)).
    2: { pose proof (Z.div_mod (num_tokens r) block_size). pose proof (Z.mod_pos_bound (num_tokens r) block_size). nia. }
    apply wp_bind. eapply wp_mono; [apply generate_extra_spec; [lia|done..]|].
    intros [ek idx'] r1 (Hek & Hidx' & [c ->] & Hc1). simpl in Hek, Hidx'.
    apply wp_bind, wp_get. cbn [fst snd]. rewrite Hek.
    replace (Z.of_nat i * block_size + block_size)%Z with (Z.of_nat (S i) * block_size)%Z in * by lia.
    set (r1 := set_prompt_embeds_per_block_hashes c r) in *.
    eapply wp_mono; [apply (IH fuel r1 (S i)); [lia| |done..]|].
    { change (num_tokens r1) with (num_tokens r). rewrite <- Hn. f_equal. lia. }
    intros l r2 (-> & Hs & Hc2). split; [|split; [|done]].
    + rewrite <- app_assoc. simpl. unfold block_tokens, block_extra.
      replace (Z.of_nat i * block_size + block_size)%Z with (Z.of_nat (S i) * block_size)%Z by lia.
      f_equal. f_equal. unfold r1. generalize (Some (hash_block_tokens hash_fn NONE_HASH prev
         (slice (Z.to_nat (Z.of_nat i * block_size)) (Z.to_nat (Z.of_nat (S i) * block_size)) (all_token_ids r))
         (extra_keys_of r (Z.of_nat i * block_size) (Z.of_nat (S i) * block_size)))).
      generalize (S i). clear. induction n as [|n IHn]; intros j p; [done|]. simpl. f_equal. apply IHn.
    + eapply same_but_cache_trans; [|done]. by eexists.
Qed.

Lemma hash_chain_length block_size r prev i n : length (hash_chain block_size r prev i n) = n.
Proof. revert prev i. induction n as [|n IH]; intros; simpl; [done|]. by rewrite IH. Qed.

Lemma hash_chain_app block_size r n1 n2 : forall prev i,
  hash_chain block_size r prev i (n1 + n2) =
  hash_chain block_size r prev i n1 ++
  hash_chain block_size r
    (match last (hash_chain block_size r prev i n1) with Some h => Some h | None => prev end)
    (i + n1) n2.
Proof.
  induction n1 as [|n1 IH]; intros prev i; simpl; [by rewrite Nat.add_0_r|].
  rewrite IH. f_equal. f_equal. rewrite last_cons, Nat.add_succ_r. by destruct (last _).
Qed.

(** What a request must satisfy for its next update of block hashes: the hashes
    so far are right, and once some exist, every multi-modal input but the last
    one lies in the blocks already hashed. *)
Definition hashes_so_far (block_size : Z) (r : Request) (k : nat) : Prop :=
  block_hashes r = hash_chain block_size r None 0 k /\
  k <= num_full_blocks block_size r /\
  (0 < k -> all_end_by (Z.of_nat k * block_size)
              (take (length (mm_features r) - 1) (mm_features r))).

Lemma update_block_hashes_spec block_size r k :
  (0 < block_size)%Z -> mm_ordered (mm_features r) -> embeds_cache_ok r ->
  hashes_so_far block_size r k ->
  wp (update_block_hashes (Some (request_block_hasher hash_fn NONE_HASH sha256 block_size)))
     (fun _ r' => block_hashes r' = all_block_hashes block_size r /\ embeds_cache_ok r' /\
        exists c, r' = set_block_hashes (all_block_hashes block_size r)
                         (set_prompt_embeds_per_block_hashes c r)) r.
Proof.
  intros Hbs Hord Hc (Hbh & Hk & Hmm). unfold update_block_hashes, request_block_hasher.
  assert (Hkz : (Z.of_nat k <= num_tokens r / block_size)%Z).
  { unfold num_full_blocks in Hk. pose proof (Z.div_pos (num_tokens r) block_size).
    unfold num_tokens in *. lia. }
  pose proof (Z.div_mod (num_tokens r) block_size ltac:(lia)) as Hdm.
  pose proof (Z.mod_pos_bound (num_tokens r) block_size Hbs) as Hmb.
  assert (Hlen : zlen (block_hashes r) = Z.of_nat k) by (by rewrite Hbh, hash_chain_length).
  apply wp_bind, wp_bind, wp_get. rewrite Hlen.
  destruct (Z.ltb_spec (num_tokens r) (Z.of_nat k * block_size + block_size)) as [Hlt|Hge].
  - apply wp_ret, wp_modify. rewrite app_nil_r.
    assert (Hkn : num_full_blocks block_size r = k) by (unfold num_full_blocks; nia).
    assert (Hb : block_hashes r = all_block_hashes block_size r).
    { unfold all_block_hashes. by rewrite Hkn. }
    split; [done|]. split; [done|]. exists (prompt_embeds_per_block_hashes r). rewrite <- Hb.
    by destruct r.
  - set (n := num_full_blocks block_size r - k).
    eapply wp_mono; [apply (hash_loop_spec block_size Hbs n)|].
    + unfold n, num_full_blocks. nia.
    + unfold n, num_full_blocks in *. nia.
    + done.
    + destruct (Z.ltb_spec 0 (Z.of_nat k * block_size)).
      * right. split; [done|]. apply Hmm. nia.
      * left. split; [lia|]. constructor.
    + done.
    + intros l r' (-> & [c ->] & Hc'). apply wp_modify.
      assert (Hall : block_hashes r ++ hash_chain block_size r (last (block_hashes r)) k n
                     = all_block_hashes block_size r).
      { unfold all_block_hashes. replace (num_full_blocks block_size r) with (k + n) by (unfold n; lia).
        rewrite hash_chain_app, <- Hbh. simpl. by destruct (last (block_hashes r)). }
      cbn [app]. simpl. rewrite Hall. split; [done|]. split; [done|]. by exists c.
Qed.

(** ** Hashes along the life of a request *)

Lemma slice_app_l {A} x y (l l' : list A) : y <= length l -> slice x y (l ++ l') = slice x y l.
Proof.
  intros Hy. unfold slice. destruct (decide (x <= length l)).
  - rewrite drop_app_le by done. apply take_app_le. rewrite length_drop. lia.
  - replace (y - x) with 0 by lia. done.
Qed.

(** The request after [append_output_token_ids] has extended its tokens. *)
Definition extend (toks : list Z) (r : Request) : Request :=
  set_all_token_ids (all_token_ids r ++ toks)
    (set_output_token_ids (output_token_ids r ++ toks) r).

Lemma hash_chain_extend block_size r toks : (0 < block_size)%Z -> forall n prev i,
  (Z.of_nat (i + n) * block_size <= num_tokens r)%Z ->
  hash_chain block_size (extend toks r) prev i n = hash_chain block_size r prev i n.
Proof.
  intros Hbs. induction n as [|n IH]; intros prev i Hle; [done|]. simpl.
  assert (Hb : block_tokens block_size (extend toks r) i = block_tokens block_size r i).
  { unfold block_tokens. simpl. apply slice_app_l. unfold num_tokens in Hle. nia. }
  rewrite Hb. change (block_extra block_size (extend toks r) i) with (block_extra block_size r i).
  f_equal. apply IH. by replace (S i + n) with (i + S n) by lia.
Qed.

Lemma hash_chain_ext block_size r r' :
  all_token_ids r' = all_token_ids r ->
  (forall s e, extra_keys_of r' s e = extra_keys_of r s e) ->
  forall n prev i, hash_chain block_size r' prev i n = hash_chain block_size r prev i n.
Proof.
  intros Ht He. induction n as [|n IH]; intros prev i; [done|]. simpl.
  unfold block_tokens, block_extra. rewrite Ht, He, IH. done.
Qed.

Lemma all_block_hashes_set block_size hs c r :
  all_block_hashes block_size (set_block_hashes hs (set_prompt_embeds_per_block_hashes c r))
  = all_block_hashes block_size r.
Proof. unfold all_block_hashes. by rewrite (hash_chain_ext _ r). Qed.

(** The state of a request whose hashes are up to date. *)
Record hashes_ok (block_size : Z) (r : Request) : Prop := {
  ho_hashes : block_hashes r = all_block_hashes block_size r;
  ho_cache : embeds_cache_ok r;
  ho_ordered : mm_ordered (mm_features r);
  ho_inside : all_end_by (num_tokens r) (mm_features r);
  ho_tail : 0 < num_full_blocks block_size r ->
            all_end_by (Z.of_nat (num_full_blocks block_size r) * block_size)
              (take (length (mm_features r) - 1) (mm_features r))
}.

Lemma num_full_blocks_bounds block_size r : (0 < block_size)%Z ->
  (Z.of_nat (num_full_blocks block_size r) * block_size <= num_tokens r
   < Z.of_nat (num_full_blocks block_size r) * block_size + block_size)%Z.
Proof.
  intros Hbs. unfold num_full_blocks.
  pose proof (Z.div_mod (num_tokens r) block_size ltac:(lia)).
  pose proof (Z.mod_pos_bound (num_tokens r) block_size Hbs).
  pose proof (Z.div_pos (num_tokens r) block_size). unfold num_tokens in *. nia.
Qed.

Lemma append_hashes_ok block_size r toks :
  (0 < block_size)%Z -> hashes_ok block_size r ->
  wp (append_output_token_ids (Some (request_block_hasher hash_fn NONE_HASH sha256 block_size)) toks)
     (fun _ r' => hashes_ok block_size r' /\ all_token_ids r' = all_token_ids r ++ toks) r.
Proof.
  intros Hbs [Hh Hc Ho Hin Ht]. unfold append_output_token_ids. apply wp_bind, wp_modify.
  set (r1 := set_all_token_ids _ _). change r1 with (extend toks r). clear r1.
  assert (Hnt : num_tokens (extend toks r) = (num_tokens r + zlen toks)%Z).
  { unfold num_tokens. simpl. rewrite length_app. lia. }
  pose proof (num_full_blocks_bounds block_size r Hbs) as Hb1.
  pose proof (num_full_blocks_bounds block_size (extend toks r) Hbs) as Hb2.
  assert (Hle : num_full_blocks block_size r <= num_full_blocks block_size (extend toks r)) by nia.
  eapply wp_mono; [apply (update_block_hashes_spec block_size _ (num_full_blocks block_size r)); [done..|]|].
  - split; [|split; [done|exact Ht]]. simpl. rewrite Hh. unfold all_block_hashes. symmetry.
    apply hash_chain_extend; [done|]. simpl. lia.
  - intros _ r' (Hh' & Hc' & [c ->]). split; [|done]. constructor; try done.
    + by rewrite all_block_hashes_set.
    + simpl. eapply all_end_by_mono; [|exact Hin].
      transitivity (num_tokens (extend toks r)); [lia|done].
    + change (0 < num_full_blocks block_size (extend toks r) ->
              all_end_by (Z.of_nat (num_full_blocks block_size (extend toks r)) * block_size)
                (take (length (mm_features r) - 1) (mm_features r))). intros Hpos. destruct (decide (0 < num_full_blocks block_size r)) as [Hp|Hp].
      * eapply all_end_by_mono; [|by apply Ht]. nia.
      * apply Forall_take. eapply all_end_by_mono; [|exact Hin]. nia.
Qed.

Definition append_all (h : option hasher) (tokss : list (list Z)) : M Request unit :=
  for_each (append_output_token_ids h) tokss.

Lemma append_all_hashes_ok block_size tokss r :
  (0 < block_size)%Z -> hashes_ok block_size r ->
  wp (append_all (Some (request_block_hasher hash_fn NONE_HASH sha256 block_size)) tokss)
     (fun _ r' => hashes_ok block_size r' /\ all_token_ids r' = all_token_ids r ++ concat tokss) r.
Proof.
  intros Hbs Hok. eapply wp_mono; [apply (wp_for_each (fun done _ r' =>
    hashes_ok block_size r' /\ all_token_ids r' = all_token_ids r ++ concat done))|].
  - split; [done|]. by rewrite app_nil_r.
  - intros l1 toks l2 r' _ [Hok' Heq]. eapply wp_mono; [by apply append_hashes_ok|].
    intros _ r'' [Hok'' Heq']. split; [done|].
    rewrite Heq', Heq, concat_app, app_assoc. simpl. by rewrite app_nil_r.
  - done.
Qed.

Lemma init_fields_facts a r : init_fields a = Ok r ->
  block_hashes r = [] /\ prompt_embeds_per_block_hashes r = ∅ /\ mm_features r = a_mm_features a.
Proof.
  unfold init_fields. destruct (a_pooling_params a), (a_sampling_params a) as [sp|];
    try destruct (sp_max_tokens sp); try destruct (length_from_prompt_token_ids_or_embeds _ _);
    intros; simplify_eq; done.
Qed.

Lemma Request_init_hashes_ok block_size a r0 :
  (0 < block_size)%Z -> init_fields a = Ok r0 -> mm_ordered (mm_features r0) ->
  all_end_by (num_tokens r0) (mm_features r0) ->
  (0 < num_full_blocks block_size r0 ->
   all_end_by (Z.of_nat (num_full_blocks block_size r0) * block_size)
     (take (length (mm_features r0) - 1) (mm_features r0))) ->
  exists r, Request_init (Some (request_block_hasher hash_fn NONE_HASH sha256 block_size)) a = Ok r /\
            hashes_ok block_size r /\ all_token_ids r = all_token_ids r0.
Proof.
  intros Hbs Hi Ho Hin Ht. destruct (init_fields_facts a r0 Hi) as (Hb & Hc & _).
  assert (Hc' : embeds_cache_ok r0) by (intros s e h rows _; rewrite Hc; done).
  pose proof (update_block_hashes_spec block_size r0 0 Hbs Ho Hc') as Hu.
  destruct (wp_returns _ _ _ (Hu ltac:(split; [done|split; [lia|lia]]))) as ([] & r & Hrun & Hh & Hc2 & [c Hr]).
  exists r. unfold Request_init. rewrite Hi, Hrun. split; [done|]. subst r. split; [|done].
  constructor; try done. by rewrite all_block_hashes_set.
Qed.

(** ** A block hash identifies the prefix it stands for *)

Lemma hash_chain_lookup block_size r n : forall prev i j h,
  hash_chain block_size r prev i n !! j = Some h ->
  exists p, h = hash_block_tokens hash_fn NONE_HASH p (block_tokens block_size r (i + j))
                  (block_extra block_size r (i + j)) /\
            p = (match j with 0 => prev | S j' => hash_chain block_size r prev i n !! j' end).
Proof.
  induction n as [|n IH]; intros prev i j h Hj; simpl in *; [done|].
  destruct j as [|j]; simplify_eq/=.
  - exists prev. by rewrite Nat.add_0_r.
  - apply IH in Hj as (p & -> & ->). rewrite Nat.add_succ_r. simpl. eexists. split; [done|].
    destruct j; done.
Qed.

Context (hash_inj : forall x y, hash_fn x = hash_fn y -> x = y).
Context (hash_nonempty : forall x, hash_fn x <> []).
Context (hash_none : forall x, hash_fn x <> NONE_HASH).

Lemma hash_chain_injective block_size r1 r2 n1 n2 : forall j1 j2 h,
  hash_chain block_size r1 None 0 n1 !! j1 = Some h ->
  hash_chain block_size r2 None 0 n2 !! j2 = Some h ->
  j1 = j2 /\ forall j, j <= j1 ->
    block_tokens block_size r1 j = block_tokens block_size r2 j /\
    block_extra block_size r1 j = block_extra block_size r2 j.
Proof.
  induction j1 as [|j1 IH]; intros j2 h H1 H2;
    pose proof (hash_chain_lookup _ _ _ _ _ _ _ H1) as (p1 & E1 & P1);
    pose proof (hash_chain_lookup _ _ _ _ _ _ _ H2) as (p2 & E2 & P2);
    rewrite E1 in E2; unfold hash_block_tokens in E2; apply hash_inj in E2; injection E2 as Ep Et Ex.
  - destruct j2 as [|j2]; [split; [done|]; intros j Hj; by replace j with 0 by lia|].
    subst p1. exfalso. destruct p2 as [[|b p2]|].
    + symmetry in P2. apply hash_chain_lookup in P2 as (? & E & _). symmetry in E.
      by apply hash_nonempty in E.
    + symmetry in P2. apply hash_chain_lookup in P2 as (? & E & _).
      rewrite E in Ep. symmetry in Ep. by apply hash_none in Ep.
    + symmetry in P2. apply lookup_ge_None in P2. apply lookup_lt_Some in H2. lia.
  - assert (Hp1 : exists b1, p1 = Some b1).
    { destruct p1; [eauto|]. symmetry in P1. apply lookup_ge_None in P1. apply lookup_lt_Some in H1. lia. }
    destruct Hp1 as [b1 ->]. symmetry in P1.
    pose proof (hash_chain_lookup _ _ _ _ _ _ _ P1) as (q1 & Eb1 & _).
    assert (Hb1 : match b1 with [] => NONE_HASH | _ :: _ => b1 end = b1).
    { destruct b1; [|done]. exfalso. symmetry in Eb1. by apply hash_nonempty in Eb1. }
    rewrite Hb1 in Ep. destruct j2 as [|j2].
    { subst p2. exfalso. rewrite Eb1 in Ep. by apply hash_none in Ep. }
    destruct p2 as [b2|]; symmetry in P2.
    2: { apply lookup_ge_None in P2. apply lookup_lt_Some in H2. lia. }
    pose proof (hash_chain_lookup _ _ _ _ _ _ _ P2) as (q2 & Eb2 & _).
    assert (Hb2 : match b2 with [] => NONE_HASH | _ :: _ => b2 end = b2).
    { destruct b2; [|done]. exfalso. symmetry in Eb2. by apply hash_nonempty in Eb2. }
    rewrite Hb2 in Ep. subst b2. destruct (IH j2 b1 P1 P2) as [-> Hall].
    split; [done|]. intros j Hj. destruct (decide (j = S j2)) as [->|]; [done|]. apply Hall. lia.
Qed.

(** Equal blocks up to [k] are equal prefixes. *)
Lemma block_tokens_prefix block_size r1 r2 k :
  (0 < block_size)%Z ->
  (forall j, j < k -> block_tokens block_size r1 j = block_tokens block_size r2 j) ->
  take (Z.to_nat (Z.of_nat k * block_size)) (all_token_ids r1) =
  take (Z.to_nat (Z.of_nat k * block_size)) (all_token_ids r2).
Proof.
  intros Hbs. induction k as [|k IH]; intros Heq; [done|].
  assert (Hsplit : forall r, take (Z.to_nat (Z.of_nat (S k) * block_size)) (all_token_ids r) =
     take (Z.to_nat (Z.of_nat k * block_size)) (all_token_ids r) ++ block_tokens block_size r k).
  { intros r. unfold block_tokens, slice. rewrite take_take_drop. f_equal. nia. }
  rewrite !Hsplit, (Heq k) by lia. f_equal. apply IH. intros. apply Heq. lia.
Qed.
End chain.

(** A concrete hash without collisions, for the instances of the theorems about
    collision-free hashes: the bits of the code of the hashed value. *)
Fixpoint pos_bytes (p : positive) : bytes :=
  match p with
  | xH => [Byte.x02]
  | xO p => Byte.x00 :: pos_bytes p
  | xI p => Byte.x01 :: pos_bytes p
  end.

#[export] Program Instance extra_key_countable : Countable extra_key :=
  inj_countable' (fun k => match k with
                           | KStr s => inl s | KMM i o => inr (inl (i, o)) | KBytes b => inr (inr b)
                           end)
                 (fun x => match x with
                           | inl s => KStr s | inr (inl (i, o)) => KMM i o | inr (inr b) => KBytes b
                           end) _.
Next Obligation. by intros []. Qed.

Definition code_hash (x : bytes * list Z * option (list extra_key)) : bytes :=
  pos_bytes (encode x).

Lemma pos_bytes_inj p q : pos_bytes p = pos_bytes q -> p = q.
Proof.
  revert q. induction p as [p IH|p IH|]; intros [q|q|] H; simplify_eq/=; f_equal; auto.
Qed.

Lemma code_hash_inj x y : code_hash x = code_hash y -> x = y.
Proof. intros H%pos_bytes_inj. by apply encode_inj in H. Qed.

Lemma code_hash_nonempty x : code_hash x <> [].
Proof. unfold code_hash. by destruct (encode x). Qed.

Lemma code_hash_none x : code_hash x <> [Byte.x03].
Proof. unfold code_hash. by destruct (encode x). Qed.

(** ** The theorems *)

(** C27. Packing a block hash with its group: the key exists exactly when the
    group id fits in 4 unsigned bytes (otherwise OverflowError), and both parts
    are read back from it. *)
Theorem block_hash_with_group_id_roundtrip h g :
  match make_block_hash_with_group_id h g with
  | Ok k => (0 <= g < 2 ^ 32)%Z /\ get_block_hash k = h /\ get_group_id k = g
  | Err e => e = OverflowError /\ ~ (0 <= g < 2 ^ 32)%Z
  end.
Proof.
  destruct (make_block_hash_with_group_id h g) as [k|e] eqn:E.
  - split; [|by apply make_block_hash_roundtrip].
    unfold make_block_hash_with_group_id, to_bytes4 in E.
    destruct ((0 <=? g) && (g <? 2 ^ 32))%Z eqn:Eb; [lia|done].
  - unfold make_block_hash_with_group_id, to_bytes4 in E.
    destruct ((0 <=? g) && (g <? 2 ^ 32))%Z eqn:Eb; simplify_eq. split; [done|]. lia.
Qed.

(** C25. The block hashes of a request are right along its whole life: after
    construction and any number of appended chunks of output tokens, the list
    kept incrementally equals the hash chain computed from scratch over the full
    blocks of all its tokens, with the extra keys of every block; hashing never
    raises. The multi-modal inputs are ordered, lie in the prompt, and at most
    one of them ends after the last full block of the prompt. *)
Theorem request_block_hashes_correct hash_fn NONE_HASH sha256 block_size a r0 tokss :
  (0 < block_size)%Z -> init_fields a = Ok r0 -> mm_ordered (mm_features r0) ->
  all_end_by (num_tokens r0) (mm_features r0) ->
  (0 < num_full_blocks block_size r0 ->
   all_end_by (Z.of_nat (num_full_blocks block_size r0) * block_size)
     (take (length (mm_features r0) - 1) (mm_features r0))) ->
  let h := Some (request_block_hasher hash_fn NONE_HASH sha256 block_size) in
  exists r r', Request_init h a = Ok r /\ append_all h tokss r = (Ok tt, r') /\
    all_token_ids r' = all_token_ids r0 ++ concat tokss /\
    block_hashes r' = all_block_hashes hash_fn NONE_HASH sha256 block_size r'.
Proof.
  intros Hbs Hi Ho Hin Ht h.
  destruct (Request_init_hashes_ok hash_fn NONE_HASH sha256 block_size a r0 Hbs Hi Ho Hin Ht)
    as (r & Hr & Hok & Htok).
  destruct (wp_returns _ _ _ (append_all_hashes_ok hash_fn NONE_HASH sha256 block_size tokss r Hbs Hok))
    as ([] & r' & Hrun & Hok' & Htok').
  exists r, r'. split; [done|]. split; [done|]. split; [by rewrite Htok', Htok|]. apply Hok'.
Qed.

(** A text-only request with the prompt [ids]. *)
Definition sample_args (ids : list Z) (salt : option string) (lora : option LoRARequest)
    (mm : list MultiModalFeatureSpec) : RequestArgs :=
  {| a_request_id := "r"; a_client_index := 0; a_priority := 0; a_arrival_time := 0;
     a_sampling_params := Some (mkSampling (Some 16) 0 None [] None None false)%Z;
     a_pooling_params := None; a_lora_request := lora; a_cache_salt := salt;
     a_prompt_token_ids := Some ids; a_prompt_embeds := None; a_mm_features := mm;
     a_resumable := false; a_abort_immediately := false |}.

Definition sample_request : Request :=
  match init_fields (sample_args [] None None []) with
  | Ok r => r
  | Err _ => mkRequest "" 0 0 0 None None None false None None false false false 0 None 0 []
               WAITING None [] [] 0 0 0 [] 0 false 0 0 None [] ∅
  end.

Definition image (name : string) (off len : Z) : MultiModalFeatureSpec :=
  mkFeature name (mkPlaceholder off len None).

Lemma request_block_hashes_correct_witness :
  let a := sample_args [1; 2; 3; 4; 5]%Z (Some "s") None [image "A" 1 2] in
  let h := Some (request_block_hasher code_hash [Byte.x03] id 2) in
  exists r r', Request_init h a = Ok r /\ append_all h [[7; 8]; [9]]%Z r = (Ok tt, r') /\
    all_token_ids r' = [1; 2; 3; 4; 5; 7; 8; 9]%Z /\
    block_hashes r' = all_block_hashes code_hash [Byte.x03] id 2 r'.
Proof.
  apply (request_block_hashes_correct code_hash [Byte.x03] id 2
           (sample_args [1; 2; 3; 4; 5]%Z (Some "s") None [image "A" 1 2])
           (match init_fields (sample_args [1; 2; 3; 4; 5]%Z (Some "s") None [image "A" 1 2]) with
            | Ok r => r | Err _ => sample_request end) [[7; 8]; [9]]%Z).
  - lia.
  - reflexivity.
  - split; repeat constructor; vm_compute; discriminate.
  - repeat constructor; vm_compute; discriminate.
  - intros _. constructor.
Defined.

(** C26. A block hash identifies the whole prefix it stands for: with a hash
    function without collisions, two requests that share a block hash share it
    at the same block, and agree on all tokens up to the end of that block and
    on the extra keys (LoRA, multi-modal inputs, salt, embeddings) of every
    block of the prefix. *)
Theorem block_hash_identifies_prefix hash_fn NONE_HASH sha256 block_size r1 r2 j1 j2 h :
  (forall x y, hash_fn x = hash_fn y -> x = y) ->
  (forall x, hash_fn x <> []) -> (forall x, hash_fn x <> NONE_HASH) ->
  (0 < block_size)%Z ->
  block_hashes r1 = all_block_hashes hash_fn NONE_HASH sha256 block_size r1 ->
  block_hashes r2 = all_block_hashes hash_fn NONE_HASH sha256 block_size r2 ->
  block_hashes r1 !! j1 = Some h -> block_hashes r2 !! j2 = Some h ->
  j1 = j2 /\
  take (Z.to_nat (Z.of_nat (S j1) * block_size)) (all_token_ids r1) =
  take (Z.to_nat (Z.of_nat (S j1) * block_size)) (all_token_ids r2) /\
  forall j, j <= j1 -> block_extra sha256 block_size r1 j = block_extra sha256 block_size r2 j.
Proof.
  intros Hinj Hne Hnone Hbs -> -> H1 H2.
  destruct (hash_chain_injective hash_fn NONE_HASH sha256 Hinj Hne Hnone
              block_size r1 r2 _ _ _ _ _ H1 H2) as [-> Hall].
  split; [done|]. split.
  - apply block_tokens_prefix; [done|]. intros. apply Hall. lia.
  - intros. by apply Hall.
Qed.

Lemma block_hash_identifies_prefix_witness :
  exists r1 r2 h, Request_init (Some (request_block_hasher code_hash [Byte.x03] id 2))
                    (sample_args [1; 2; 3; 4]%Z (Some "s") None []) = Ok r1 /\
    Request_init (Some (request_block_hasher code_hash [Byte.x03] id 2))
      (sample_args [1; 2; 3; 4; 5]%Z (Some "s") None []) = Ok r2 /\
    block_hashes r1 !! 1 = Some h /\ block_hashes r2 !! 1 = Some h /\
    take 4 (all_token_ids r1) = take 4 (all_token_ids r2).
Proof.
  do 3 eexists. split; [vm_compute; reflexivity|]. split; [vm_compute; reflexivity|].
  split; [vm_compute; reflexivity|]. split; [vm_compute; reflexivity|].
  eapply (block_hash_identifies_prefix code_hash [Byte.x03] id 2 _ _ 1 1);
    [exact code_hash_inj|exact code_hash_nonempty|exact code_hash_none|lia|
     vm_compute; reflexivity..].
Defined.

(** Coarsening: [BlockHashListWithBlockSize] groups the hashes of a finer
    granularity. Every index below its length yields the concatenation of
    exactly its [scale_factor] consecutive hashes, and iterating over the list
    covers each underlying hash of the complete groups once, in order. *)
Theorem hash_list_groups hs hash_block_size target_block_size l :
  (0 < hash_block_size)%Z -> (0 < target_block_size)%Z ->
  hash_list_init hs hash_block_size target_block_size = Ok l ->
  (scale_factor l * hash_block_size = target_block_size)%Z /\
  hl_len l = (zlen hs * hash_block_size / target_block_size)%Z /\
  concat (hl_iter l) = concat (take (Z.to_nat (hl_len l * scale_factor l)) hs).
Proof.
  unfold hash_list_init. intros Hh Ht. rewrite (proj2 (Z.eqb_neq _ _)) by lia.
  destruct (Z.eqb_spec (target_block_size mod hash_block_size) 0) as [Hm|]; [|done].
  intros [= <-]. unfold hl_len. simpl.
  pose proof (Z.div_mod target_block_size hash_block_size ltac:(lia)) as Hd.
  set (k := (target_block_size / hash_block_size)%Z) in *.
  assert (Hk : (k * hash_block_size = target_block_size)%Z) by lia.
  assert (Hkpos : (0 < k)%Z) by nia.
  split; [done|]. split; [rewrite <- Hk; symmetry; apply Z.div_mul_cancel_r; lia|].
  unfold hl_iter, hl_len, zrange. simpl.
  pose proof (Z.div_pos (zlen hs) k ltac:(lia) Hkpos) as Hpos.
  rewrite <- (Z2Nat.id (zlen hs / k)) at 2 by done.
  generalize (Z.to_nat (zlen hs / k)). intros n. clear - Hkpos.
  induction n as [|n IH]; [done|].
  rewrite seq_S, !fmap_app, concat_app, IH. simpl. rewrite app_nil_r.
  unfold get_value_at. simpl. unfold slice.
  rewrite <- concat_app, take_take_drop. do 2 f_equal. lia.
Qed.

Lemma hash_list_groups_witness :
  let hs := [[Byte.x61]; [Byte.x62]; [Byte.x63]; [Byte.x64]; [Byte.x65]] in
  let l := mkHashList hs 2 in
  hash_list_init hs 16 32 = Ok l /\ hl_len l = 2%Z /\
  concat (hl_iter l) = [Byte.x61; Byte.x62; Byte.x63; Byte.x64].
Proof.
  intros hs l.
  destruct (hash_list_groups hs 16 32 l ltac:(lia) ltac:(lia) ltac:(reflexivity)) as (_ & H2 & H3).
  split; [reflexivity|]. split; [exact H2|]. exact H3.
Defined.

(** A request whose prompt ends in a partial block that holds two
    multi-modal inputs loses the first of them: hashing resumes at the last
    input ([curr_mm_idx = -1]). Whatever the hash function, two requests that
    differ in that first input get the same block hashes once the block fills
    up with output tokens, although the inputs of that block differ. *)
Theorem mm_index_restart_misses_input hash_fn NONE_HASH sha256 :
  let h := Some (request_block_hasher hash_fn NONE_HASH sha256 16) in
  let ids := replicate 30 5%Z in
  let run := fun name =>
    match Request_init h (sample_args ids None None [image name 17 4; image "B" 22 4]) with
    | Ok r => (append_all h [[6; 7]%Z] r).2
    | Err _ => sample_request
    end in
  length (block_hashes (run "A1")) = 2 /\
  block_hashes (run "A1") = block_hashes (run "A2") /\
  block_extra sha256 16 (run "A1") 1 <> block_extra sha256 16 (run "A2") 1.
Proof.
  intros h ids run. split; [vm_compute; reflexivity|]. split; [vm_compute; reflexivity|].
  vm_compute. discriminate.
Qed.

(** The extra keys do not say which of them they are: a LoRA adapter named
    [x] without a cache salt and a cache salt [x] without a LoRA adapter give
    the first block of equal prompts the same hash, whatever the hash
    function. *)
Theorem lora_name_collides_with_salt hash_fn NONE_HASH sha256 x ids :
  length ids = 16 -> x <> "" ->
  let h := Some (request_block_hasher hash_fn NONE_HASH sha256 16) in
  exists r1 r2,
    Request_init h (sample_args ids None (Some (mkLoRA 1 x)) []) = Ok r1 /\
    Request_init h (sample_args ids (Some x) None []) = Ok r2 /\
    block_hashes r1 = block_hashes r2 /\ length (block_hashes r1) = 1 /\
    lora_request r1 <> lora_request r2.
Proof.
  intros Hl Hx h. destruct x as [|c x]; [done|].
  do 16 (destruct ids as [|? ids]; [done|]). destruct ids; [|done].
  do 2 eexists. split; [vm_compute; reflexivity|]. split; [vm_compute; reflexivity|]. done.
Qed.

Lemma lora_name_collides_with_salt_witness :
  exists r1 r2,
    Request_init (Some (request_block_hasher code_hash [] id 16))
      (sample_args (replicate 16 1%Z) None (Some (mkLoRA 1 "tenant")) []) = Ok r1 /\
    Request_init (Some (request_block_hasher code_hash [] id 16))
      (sample_args (replicate 16 1%Z) (Some "tenant") None []) = Ok r2 /\
    block_hashes r1 = block_hashes r2 /\ length (block_hashes r1) = 1 /\
    lora_request r1 <> lora_request r2.
Proof. apply (lora_name_collides_with_salt code_hash [] id "tenant"); [reflexivity|done]. Defined.

End BlockHash.
