(* ===== verification/BlockPool.v ===== *)
(** * BlockPool

    v1/core/block_pool.py: the map from block hashes to cached blocks
    ([BlockHashToBlockMap]) and the pool of KV-cache blocks ([BlockPool]) with
    its allocation, reference counting, caching and eviction.

    The metrics collector is an optional observer; the pool is modelled without
    one. [xs], [L] and [H] in the invariant are the free list, the blocks that
    an operation in progress has taken off the free list (or is about to put on
    it), and the multiset of references held by the users of the pool. *)

From Stdlib Require Import QArith.QArith.
From S2P Require Import Prelude FreeQueue Request BlockHash.

Module BlockPool.
Import FreeQueue Request BlockHash.
#[local] Open Scope nat_scope.

(** ** [BlockHashToBlockMap]

    A value of the dict is a block or a dict from block ids to blocks, kept in
    insertion order. *)
Inductive cache_entry :=
| OneBlock (b : ref)
| ManyBlocks (bs : list ref).

Notation BlockHashToBlockMap := (gmap bytes cache_entry).

Definition get_one_block {S : Type} (m : BlockHashToBlockMap) (key : bytes) : M S (option ref) :=
  match m !! key with
  | None => mret None
  | Some (OneBlock b) => mret (Some b)
  | Some (ManyBlocks bs) => b ← of_option StopIteration (head bs); mret (Some b)
  end.

(** [d[block.block_id] = block] for an insertion-ordered dict. *)
Definition dict_set (b : ref) (d : list ref) : list ref :=
  if existsb (fun x => block_id x =? block_id b)%Z d
  then (fun x => if (block_id x =? block_id b)%Z then b else x) <$> d
  else d ++ [b].

Definition map_insert (key : bytes) (b : ref) (m : BlockHashToBlockMap) : BlockHashToBlockMap :=
  match m !! key with
  | None => <[key := OneBlock b]> m
  | Some (OneBlock b0) => <[key := ManyBlocks (dict_set b [b0])]> m
  | Some (ManyBlocks d) => <[key := ManyBlocks (dict_set b d)]> m
  end.

Definition map_pop (key : bytes) (id : Z) (m : BlockHashToBlockMap)
    : option ref * BlockHashToBlockMap :=
  match m !! key with
  | None => (None, m)
  | Some (OneBlock b) =>
      if (block_id b =? id)%Z then (Some b, delete key m) else (None, m)
  | Some (ManyBlocks d) =>
      let popped := List.find (fun x => block_id x =? id)%Z d in
      let rest := List.filter (fun x => negb (block_id x =? id)%Z) d in
      (popped, if (0 <? zlen rest)%Z then <[key := ManyBlocks rest]> m else delete key m)
  end.

(** [__len__]: the number of distinct keys. *)
Definition map_len (m : BlockHashToBlockMap) : Z := Z.of_nat (size m).

(** ** Events *)

Record BlockStored := mkBlockStored {
  bs_block_hashes : list ExternalBlockHash;
  bs_parent_block_hash : option ExternalBlockHash;
  bs_token_ids : list Z;
  bs_block_size : Z;
  bs_lora_id : option Z;
  bs_lora_name : option string;
  bs_extra_keys : option (list (option (list extra_key)));
  bs_group_idx : Z
}.

Inductive KVCacheEvent :=
| EvStored (e : BlockStored)
| EvRemoved (block_hashes : list ExternalBlockHash) (group_idx : Z)
| EvCleared.

(** ** [BlockPool] *)

Record BlockPool := mkPool {
  num_gpu_blocks : Z;
  enable_caching : bool;
  hash_block_size : Z;
  blocks : list ref;
  free_block_queue : queue;
  cached_block_hash_to_block : BlockHashToBlockMap;
  null_block : ref;
  enable_kv_cache_events : bool;
  kv_event_queue : list KVCacheEvent
}.

Definition set_queue (q : queue) (p : BlockPool) : BlockPool :=
  mkPool (num_gpu_blocks p) (enable_caching p) (hash_block_size p) (blocks p) q
    (cached_block_hash_to_block p) (null_block p) (enable_kv_cache_events p) (kv_event_queue p).
Definition set_cache (m : BlockHashToBlockMap) (p : BlockPool) : BlockPool :=
  mkPool (num_gpu_blocks p) (enable_caching p) (hash_block_size p) (blocks p)
    (free_block_queue p) m (null_block p) (enable_kv_cache_events p) (kv_event_queue p).
Definition set_events (l : list KVCacheEvent) (p : BlockPool) : BlockPool :=
  mkPool (num_gpu_blocks p) (enable_caching p) (hash_block_size p) (blocks p)
    (free_block_queue p) (cached_block_hash_to_block p) (null_block p)
    (enable_kv_cache_events p) l.

Definition on_queue {A} (m : M queue A) : M BlockPool A := zoom free_block_queue set_queue m.

(** Attributes of a block object. *)
Definition with_ref_cnt (n : Z) (b : KVCacheBlock) : KVCacheBlock :=
  mkBlock n (block_hash b) (prev_free_block b) (next_free_block b) (is_null b).
Definition with_hash (h : option bytes) (b : KVCacheBlock) : KVCacheBlock :=
  mkBlock (ref_cnt b) h (prev_free_block b) (next_free_block b) (is_null b).
Definition with_is_null (v : bool) (b : KVCacheBlock) : KVCacheBlock :=
  mkBlock (ref_cnt b) (block_hash b) (prev_free_block b) (next_free_block b) v.

Definition block_at (r : ref) : M BlockPool KVCacheBlock := on_queue (deref r).
Definition update_block (f : KVCacheBlock -> KVCacheBlock) (r : ref) : M BlockPool unit :=
  on_queue (b ← deref r; modify (on_store (insert r (f b)))).

(** The [block_hash] setter and [reset_hash]. *)
Definition set_block_hash (h : bytes) (r : ref) : M BlockPool unit :=
  b ← block_at r;
  assert_ (negb (is_some (block_hash b))) ;;
  update_block (with_hash (Some h)) r.
Definition reset_hash (r : ref) : M BlockPool unit := update_block (with_hash None) r.

Definition add_ref (d : Z) (r : ref) : M BlockPool unit :=
  update_block (fun b => with_ref_cnt (ref_cnt b + d) b) r.

(** [BlockPool.__init__] *)
Definition pool_init (num_gpu_blocks : Z) (enable_caching : bool) (hash_block_size : Z)
    (enable_kv_cache_events : bool) : result BlockPool :=
  if (0 <? num_gpu_blocks)%Z then
    let blocks := Blk <$> seq 0 (Z.to_nat num_gpu_blocks) in
    match (queue_init blocks ;;
           null ← popleft;
           b ← deref null;
           modify (on_store (insert null (with_is_null true b))) ;;
           mret null) (mkQueue (fresh_blocks blocks) 0) with
    | (Ok null, q) =>
        Ok (mkPool num_gpu_blocks enable_caching hash_block_size blocks q ∅ null
              enable_kv_cache_events [])
    | (Err e, _) => Err e
    end
  else Err AssertionError.

Definition lift_result {S A} (r : result A) : M S A :=
  match r with Ok a => mret a | Err e => raise e end.

Fixpoint get_cached_block (block_hash : bytes) (kv_cache_group_ids : list Z)
    : M BlockPool (option (list ref)) :=
  match kv_cache_group_ids with
  | [] => mret (Some [])
  | g :: gs =>
      key ← lift_result (make_block_hash_with_group_id block_hash g);
      m ← gets cached_block_hash_to_block;
      b ← get_one_block m key;
      match b with
      | None => mret None
      | Some b =>
          rest ← get_cached_block block_hash gs;
          mret (match rest with None => None | Some l => Some (b :: l) end)
      end
  end.

Section pool.
(** VLLM_KV_EVENTS_USE_INT_BLOCK_HASHES, and SHA-256 of prompt embeddings. *)
Context (use_int : bool) (sha256 : bytes -> bytes).

Definition push_event (e : KVCacheEvent) : M BlockPool unit :=
  modify (fun p => set_events (kv_event_queue p ++ [e]) p).

Definition maybe_evict_cached_block (block : ref) : M BlockPool bool :=
  b ← block_at block;
  match block_hash b with
  | None => mret false
  | Some block_hash =>
      m ← gets cached_block_hash_to_block;
      let r := map_pop block_hash (block_id block) m in
      modify (set_cache r.2) ;;
      match r.1 with
      | None => mret false
      | Some _ =>
          reset_hash block ;;
          p ← get;
          (if enable_kv_cache_events p
           then push_event (EvRemoved [maybe_convert_block_hash use_int (get_block_hash block_hash)]
                              (get_group_id block_hash))
           else mret tt) ;;
          mret true
      end
  end.

Definition get_num_free_blocks : M BlockPool Z :=
  gets (fun p => num_free_blocks (free_block_queue p)).

Definition take_block (caching : bool) (block : ref) : M BlockPool unit :=
  (if caching then maybe_evict_cached_block block ;; mret tt else mret tt) ;;
  b ← block_at block;
  assert_ (ref_cnt b =? 0)%Z ;;
  add_ref 1 block.

Definition get_new_blocks (num_blocks : Z) : M BlockPool (list ref) :=
  nf ← get_num_free_blocks;
  if (nf <? num_blocks)%Z then raise ValueError
  else
    ret ← on_queue (popleft_n num_blocks);
    p ← get;
    for_each (take_block (enable_caching p)) ret ;;
    mret ret.

Definition touch_one (block : ref) : M BlockPool unit :=
  b ← block_at block;
  (if ((ref_cnt b =? 0)%Z && negb (is_null b)) then on_queue (remove block) else mret tt) ;;
  add_ref 1 block.

Definition touch (blocks : list ref) : M BlockPool unit := for_each touch_one blocks.

(** [[block for block in blocks_list if block.ref_cnt == 0 and not block.is_null]] *)
Definition is_freed (block : ref) : M BlockPool bool :=
  b ← block_at block; mret ((ref_cnt b =? 0)%Z && negb (is_null b)).

Definition filter_m {S A} (f : A -> M S bool) (l : list A) : M S (list A) :=
  for_fold (fun acc x => b ← f x; mret (if (b : bool) then acc ++ [x] else acc)) l [].

Definition free_blocks (ordered_blocks : list ref) (prepend : bool) : M BlockPool unit :=
  for_each (add_ref (-1)) ordered_blocks ;;
  freed_blocks ← filter_m is_freed ordered_blocks;
  if prepend then on_queue (prepend_n freed_blocks) else on_queue (append_n freed_blocks).

(** [block_ids] is the set, in the order it is iterated. *)
Definition evict_blocks (block_ids : list Z) : M BlockPool unit :=
  for_each (fun id =>
    p ← get;
    assert_ (id <? zlen (blocks p))%Z ;;
    block ← of_option IndexError (py_index (blocks p) id);
    maybe_evict_cached_block block ;; mret tt) block_ids.

Definition reset_prefix_cache : M BlockPool bool :=
  p ← get;
  let num_used_blocks := (num_gpu_blocks p - num_free_blocks (free_block_queue p))%Z in
  if negb (num_used_blocks =? 1)%Z then mret false
  else
    modify (set_cache ∅) ;;
    for_each reset_hash (blocks p) ;;
    (if enable_kv_cache_events p then push_event EvCleared else mret tt) ;;
    mret true.

(** A float in the source, the exact quotient here. *)
Definition get_usage (p : BlockPool) : Q :=
  let total_gpu_blocks := (num_gpu_blocks p - 1)%Z in
  if (total_gpu_blocks =? 0)%Z then 0%Q
  else (1 - inject_Z (num_free_blocks (free_block_queue p)) / inject_Z total_gpu_blocks)%Q.

Definition take_events : M BlockPool (list KVCacheEvent) :=
  p ← get;
  if enable_kv_cache_events p
  then modify (set_events []) ;; mret (kv_event_queue p)
  else mret [].

(** *** [cache_full_blocks] *)

(** The block hashes at the granularity of [block_size]. *)
Definition hashes_at (hash_block_size block_size : Z) (hs : list bytes)
    : result (list bytes + BlockHashListWithBlockSize) :=
  if (block_size =? hash_block_size)%Z then Ok (inl hs)
  else match hash_list_init hs hash_block_size block_size with
       | Ok l => Ok (inr l)
       | Err e => Err e
       end.

(** [block_hashes[a:]] and [block_hashes[i]] for nonnegative bounds. *)
Definition hashes_from (l : list bytes + BlockHashListWithBlockSize) (a : Z) : list bytes :=
  match l with inl hs => drop (Z.to_nat a) hs | inr hl => hl_from hl a end.
Definition hashes_get {S} (l : list bytes + BlockHashListWithBlockSize) (i : Z) : M S bytes :=
  match l with
  | inl hs => of_option IndexError (py_index hs i)
  | inr hl => mret (get_value_at hl i)
  end.

(** Is the block skipped: null, or masked out? *)
Definition skipped {S} (b : KVCacheBlock) (block_mask : option (list bool)) (i : nat) : M S bool :=
  if is_null b then mret true
  else match block_mask with
       | None => mret false
       | Some mask => m ← of_option IndexError (mask !! i); mret (negb m)
       end.

(** The hash is set on the block and the block entered in the map. *)
Definition cache_block (key : bytes) (b : ref) : M BlockPool unit :=
  set_block_hash key b ;;
  modify (fun p => set_cache (map_insert key b (cached_block_hash_to_block p)) p).

(** One round of the first loop. *)
Definition cache_one (new_block_hashes : list bytes) (kv_cache_group_id : Z)
    (block_mask : option (list bool)) (new_hashes : list ExternalBlockHash) (ib : nat * ref)
    : M BlockPool (list ExternalBlockHash) :=
  b ← block_at ib.2;
  skip ← skipped b block_mask ib.1;
  if (skip : bool) then mret new_hashes
  else
    assert_ (negb (is_some (block_hash b))) ;;
    block_hash ← of_option IndexError (new_block_hashes !! ib.1);
    key ← lift_result (make_block_hash_with_group_id block_hash kv_cache_group_id);
    cache_block key ib.2 ;;
    mret (new_hashes ++ [maybe_convert_block_hash use_int block_hash]).

Definition enumerate {A} (l : list A) : list (nat * A) := zip (seq 0 (length l)) l.

Definition on_pool {A} (m : M BlockPool A) : M (Request * BlockPool) A :=
  zoom snd (fun p s => (s.1, p)) m.

(** One round of the loop that collects the extra keys; the state is the request
    (whose embedding hashes it may fill) and the pool. *)
Definition extra_one (blks : list ref) (block_size : Z) (num_cached_blocks : nat)
    (block_mask : option (list bool)) (acc : list (option (list extra_key)) * Z) (i : nat)
    : M (Request * BlockPool) (list (option (list extra_key)) * Z) :=
  r ← of_option IndexError (blks !! i);
  b ← on_pool (block_at r);
  skip ← skipped b block_mask (i - num_cached_blocks);
  if (skip : bool) then mret acc
  else
    let block_start := (Z.of_nat i * block_size)%Z in
    ek ← zoom fst (fun r s => (r, s.2))
           (generate_block_hash_extra_keys sha256 block_start (block_start + block_size) acc.2);
    mret (acc.1 ++ [ek.1], ek.2).

(** [cache_full_blocks], for nonnegative block counts. *)
Definition cache_full_blocks (blks : list ref) (num_cached_blocks num_full_blocks : nat)
    (block_size kv_cache_group_id : Z) (block_mask : option (list bool))
    : M (Request * BlockPool) unit :=
  if decide (num_full_blocks <= num_cached_blocks) then mret tt
  else
    let new_full_blocks := slice num_cached_blocks num_full_blocks blks in
    s ← get;
    let request := s.1 in
    assert_ (Z.of_nat num_full_blocks <=? zlen (block_hashes request))%Z ;;
    assert_ (match block_mask with
             | None => true
             | Some mask => length mask =? length new_full_blocks
             end) ;;
    block_hashes ← lift_result (hashes_at (hash_block_size s.2) block_size (block_hashes request));
    let new_block_hashes := hashes_from block_hashes (Z.of_nat num_cached_blocks) in
    new_hashes ← on_pool (for_fold (cache_one new_block_hashes kv_cache_group_id block_mask)
                            (enumerate new_full_blocks) []);
    if negb (enable_kv_cache_events s.2) then mret tt
    else
      parent_block_hash ←
        (if decide (num_cached_blocks = 0) then mret None
         else h ← hashes_get block_hashes (Z.of_nat num_cached_blocks - 1);
              mret (Some (maybe_convert_block_hash use_int h)));
      ek ← for_fold (extra_one blks block_size num_cached_blocks block_mask)
             (seq num_cached_blocks (num_full_blocks - num_cached_blocks)) ([], 0%Z);
      on_pool (push_event (EvStored {|
        bs_block_hashes := new_hashes;
        bs_parent_block_hash := parent_block_hash;
        bs_token_ids := slice (Z.to_nat (Z.of_nat num_cached_blocks * block_size))
                          (Z.to_nat (Z.of_nat num_full_blocks * block_size)) (all_token_ids request);
        bs_block_size := block_size;
        bs_lora_id := adapter_id <$> lora_request request;
        bs_lora_name := lora_name <$> lora_request request;
        bs_extra_keys := match ek.1 with [] => None | l => Some l end;
        bs_group_idx := kv_cache_group_id |})).
End pool.

(** ** The map as a multimap from keys to blocks *)

Definition entry_refs (e : cache_entry) : list ref :=
  match e with OneBlock b => [b] | ManyBlocks d => d end.
Definition map_refs (m : BlockHashToBlockMap) (key : bytes) : list ref :=
  match m !! key with None => [] | Some e => entry_refs e end.

Definition is_blk (r : ref) : Prop := match r with Blk _ => True | _ => False end.

Lemma block_id_inj a b : is_blk a -> is_blk b -> block_id a = block_id b -> a = b.
Proof. destruct a, b; simpl; try done. intros. f_equal. lia. Qed.

(** Entries are never empty, hold real blocks, none twice. *)
Definition map_ok (m : BlockHashToBlockMap) : Prop :=
  forall key e, m !! key = Some e ->
    entry_refs e <> [] /\ NoDup (entry_refs e) /\ Forall is_blk (entry_refs e).

Lemma map_ok_empty : map_ok ∅.
Proof. intros key e H. by rewrite lookup_empty in H. Qed.

Lemma map_ok_refs m key : map_ok m -> NoDup (map_refs m key) /\ Forall is_blk (map_refs m key).
Proof.
  intros H. unfold map_refs. destruct (m !! key) eqn:E; [|split; constructor].
  by apply H in E as (_ & ? & ?).
Qed.

Lemma map_refs_None m key : map_ok m -> map_refs m key = [] <-> m !! key = None.
Proof.
  intros H. unfold map_refs. destruct (m !! key) eqn:E; [|done].
  apply H in E as [? _]. split; [done|congruence].
Qed.

Lemma get_one_block_spec {S : Type} m key (s : S) : map_ok m ->
  get_one_block m key s = (Ok (head (map_refs m key)), s).
Proof.
  intros Hok. unfold get_one_block, map_refs. destruct (m !! key) as [[b|d]|] eqn:E; [done| |done].
  apply Hok in E as [Hne _]. simpl in *. by destruct d.
Qed.

Lemma dict_set_fresh b d : is_blk b -> Forall is_blk d -> b ∉ d -> dict_set b d = d ++ [b].
Proof.
  intros Hb Hd Hn. unfold dict_set. destruct (existsb _ d) eqn:E; [|done].
  apply existsb_exists in E as (x & Hx & Heq). apply Z.eqb_eq in Heq.
  apply list_elem_of_In in Hx. rewrite Forall_forall in Hd.
  apply block_id_inj in Heq; [by subst|by apply Hd|done].
Qed.

Lemma map_insert_refs m key b :
  map_ok m -> is_blk b -> b ∉ map_refs m key ->
  map_ok (map_insert key b m) /\
  forall k, map_refs (map_insert key b m) k =
            if decide (k = key) then map_refs m key ++ [b] else map_refs m k.
Proof.
  intros Hok Hb Hn. destruct (map_ok_refs m key Hok) as [Hnd Hblk].
  assert (Hgen : forall e, entry_refs e = map_refs m key ++ [b] ->
    map_ok (<[key := e]> m) /\ forall k, map_refs (<[key := e]> m) k =
       if decide (k = key) then map_refs m key ++ [b] else map_refs m k).
  { intros e He. split.
    - intros k e' Hl. rewrite lookup_insert in Hl. case_decide; simplify_eq; [|by eapply Hok].
      rewrite He. split; [by destruct (map_refs m k)|]. split.
      + apply NoDup_app. split; [done|]. split; [set_solver|]. apply NoDup_singleton.
      + apply Forall_app. split; [done|]. by constructor.
    - intros k. unfold map_refs at 1. rewrite lookup_insert. destruct (decide (key = k)).
      + subst. by rewrite decide_True.
      + by rewrite decide_False. }
  unfold map_insert.
  destruct (m !! key) as [[b0|d]|] eqn:E; apply Hgen; unfold map_refs in *; rewrite E in *;
    simpl in *; try done.
  - by rewrite dict_set_fresh.
  - by apply dict_set_fresh.
Qed.

Lemma map_pop_refs m key b :
  map_ok m -> b ∈ map_refs m key ->
  (map_pop key (block_id b) m).1 = Some b /\ map_ok (map_pop key (block_id b) m).2 /\
  forall k, map_refs (map_pop key (block_id b) m).2 k =
            if decide (k = key) then filter (fun x => x <> b) (map_refs m key) else map_refs m k.
Proof.
  intros Hok Hin. destruct (map_ok_refs m key Hok) as [Hnd Hblk]. unfold map_pop.
  assert (Hdel : map_ok (delete key m)).
  { intros k e Hl. apply lookup_delete_Some in Hl as [_ Hl]. by eapply Hok. }
  assert (Hrdel : forall k, filter (fun x => x <> b) (map_refs m key) = [] ->
            map_refs (delete key m) k =
            if decide (k = key) then filter (fun x => x <> b) (map_refs m key) else map_refs m k).
  { intros k Hf. unfold map_refs at 1. rewrite lookup_delete. case_decide as Hk.
    - by rewrite decide_True, Hf.
    - by rewrite decide_False. }
  unfold map_refs in Hin, Hnd, Hblk, Hrdel |- *.
  destruct (m !! key) as [[b0|d]|] eqn:E; simpl in *; [| |set_solver].
  - assert (b0 = b) as -> by set_solver. rewrite Z.eqb_refl. simpl. split; [done|].
    split; [done|]. intros k. rewrite Hrdel; [done|]. by rewrite filter_cons_False by auto.
  - rewrite Forall_forall in Hblk.
    assert (Hf : List.filter (fun x => negb (block_id x =? block_id b)%Z) d
                 = filter (fun x => x <> b) d).
    { clear - Hin Hblk. assert (Hb : is_blk b) by auto. clear Hin.
      induction d as [|x d IH]; [done|]. simpl. rewrite IH by (intros; apply Hblk; set_solver).
      destruct (Z.eqb_spec (block_id x) (block_id b)) as [Heq|Hne]; simpl.
      - apply block_id_inj in Heq; [|apply Hblk; set_solver|done]. subst.
        by rewrite filter_cons_False by auto.
      - rewrite filter_cons_True; [done|]. intros ->. done. }
    split.
    { destruct (List.find _ d) as [x|] eqn:Ef.
      - apply find_some in Ef as [Hx Heq]. apply Z.eqb_eq in Heq. apply list_elem_of_In in Hx.
        apply block_id_inj in Heq; [by subst|by apply Hblk..].
      - eapply find_none in Ef; [|by apply list_elem_of_In]. simpl in Ef. lia. }
    rewrite Hf. destruct (Z.ltb_spec 0 (zlen (filter (fun x => x <> b) d))) as [Hpos|Hz].
    + split.
      * intros k e Hl. rewrite lookup_insert in Hl. case_decide; simplify_eq; [|by eapply Hok].
        simpl. split; [intros H0; rewrite H0 in Hpos; simpl in Hpos; lia|]. split.
        -- by apply NoDup_filter.
        -- apply Forall_forall. intros x [_ Hx]%list_elem_of_filter. by apply Hblk.
      * intros k. rewrite lookup_insert. destruct (decide (key = k)).
        -- subst. by rewrite decide_True.
        -- by rewrite decide_False.
    + split; [done|]. intros k. rewrite Hrdel; [done|].
      destruct (filter _ d); [done|simpl in Hz; lia].
Qed.

(** ** The cache and the hashes of the blocks agree *)

Definition hash_of (s : gmap ref KVCacheBlock) (b : ref) : option bytes := s !! b ≫= block_hash.

Record cache_ok (m : BlockHashToBlockMap) (hash_of : ref -> option bytes) : Prop := {
  co_map : map_ok m;
  co_iff : forall b key, b ∈ map_refs m key <-> hash_of b = Some key
}.

Lemma cache_ok_ext m f g : (forall b, f b = g b) -> cache_ok m f -> cache_ok m g.
Proof. intros He [H1 H2]. split; [done|]. intros. by rewrite <- He. Qed.

Lemma cache_ok_insert m f g b key :
  cache_ok m f -> is_blk b -> f b = None ->
  (forall x, g x = if decide (x = b) then Some key else f x) ->
  cache_ok (map_insert key b m) g.
Proof.
  intros [Hok Hiff] Hb Hf Hg.
  assert (Hn : b ∉ map_refs m key) by (rewrite Hiff; congruence).
  destruct (map_insert_refs m key b Hok Hb Hn) as [Hok' Hrefs]. split; [done|].
  intros x k. rewrite Hrefs, Hg. destruct (decide (k = key)) as [->|Hk].
  - rewrite elem_of_app, list_elem_of_singleton, Hiff. case_decide; [subst; tauto|tauto].
  - rewrite Hiff. case_decide; [|done]. subst. split; congruence.
Qed.

Lemma cache_ok_pop m f g b key :
  cache_ok m f -> f b = Some key ->
  (forall x, g x = if decide (x = b) then None else f x) ->
  (map_pop key (block_id b) m).1 = Some b /\ cache_ok (map_pop key (block_id b) m).2 g.
Proof.
  intros [Hok Hiff] Hf Hg. assert (Hin : b ∈ map_refs m key) by (by apply Hiff).
  destruct (map_pop_refs m key b Hok Hin) as (Hp & Hok' & Hrefs). split; [done|]. split; [done|].
  intros x k. rewrite Hrefs, Hg. destruct (decide (k = key)) as [->|Hk].
  - rewrite list_elem_of_filter, Hiff. case_decide; [subst; split; [tauto|done]|tauto].
  - rewrite Hiff. case_decide; [|done]. subst. split; congruence.
Qed.

(** ** The invariant of the pool *)

Notation kstore p := (store (free_block_queue p)).

Record pool_inv (p : BlockPool) (xs L H : list ref) : Prop := {
  pi_rep : queue_rep (free_block_queue p) xs;
  pi_blocks : blocks p = Blk <$> seq 0 (Z.to_nat (num_gpu_blocks p));
  pi_null : null_block p ∈ blocks p;
  pi_block : forall b, b ∈ blocks p -> exists k, kstore p !! b = Some k /\
    is_null k = bool_decide (b = null_block p) /\
    (b <> null_block p -> ref_cnt k = Z.of_nat (count b H));
  pi_free : forall b, b ∈ xs -> b ∈ blocks p /\ b <> null_block p;
  pi_free_iff : forall b, b ∈ blocks p -> b <> null_block p ->
    (b ∈ xs <-> count b H = 0 /\ b ∉ L);
  pi_held : forall b, b ∈ H -> b ∈ blocks p;
  pi_cache : cache_ok (cached_block_hash_to_block p) (hash_of (kstore p));
  pi_hashed : forall b key, hash_of (kstore p) b = Some key -> b ∈ blocks p /\ b <> null_block p;
  pi_nocache : enable_caching p = false -> cached_block_hash_to_block p = ∅
}.

(** What no operation changes. *)
Definition config (p : BlockPool) : Z * bool * Z * list ref * ref * bool :=
  (num_gpu_blocks p, enable_caching p, hash_block_size p, blocks p, null_block p,
   enable_kv_cache_events p).

Section inv.
Context {p : BlockPool} {xs L H : list ref}.
Hypothesis I : pool_inv p xs L H.

Lemma inv_is_blk b : b ∈ blocks p -> is_blk b.
Proof. rewrite (pi_blocks _ _ _ _ I). intros (i & -> & _)%list_elem_of_fmap. done. Qed.

Lemma inv_not_fake b : b ∈ blocks p -> b <> FakeHead /\ b <> FakeTail.
Proof. intros Hb%inv_is_blk. by destruct b. Qed.

Lemma inv_nodup : NoDup xs.
Proof. apply (rep_nodup_xs _ _ (pi_rep _ _ _ _ I)). Qed.

Lemma inv_not_node b : b ∈ blocks p -> b ∉ xs -> b ∉ nodes xs.
Proof. intros Hb Hn. destruct (inv_not_fake b Hb). unfold nodes. set_solver. Qed.

Lemma inv_blocks_length : length (blocks p) = Z.to_nat (num_gpu_blocks p).
Proof. by rewrite (pi_blocks _ _ _ _ I), length_fmap, length_seq. Qed.

Lemma inv_blocks_nodup : NoDup (blocks p).
Proof.
  rewrite (pi_blocks _ _ _ _ I). apply NoDup_fmap_2; [|apply NoDup_seq].
  intros i j Hij. congruence.
Qed.

(** Changing links only. *)
Lemma inv_queue q' xs' L' :
  queue_rep q' xs' -> same_meta (kstore p) (store q') ->
  (forall b, b ∈ xs' -> b ∈ blocks p /\ b <> null_block p) ->
  (forall b, b ∈ blocks p -> b <> null_block p -> (b ∈ xs' <-> count b H = 0 /\ b ∉ L')) ->
  pool_inv (set_queue q' p) xs' L' H.
Proof.
  intros R' Hm Hin Hiff. destruct I as [R Hbl Hnull Hblk Hfree Hfi Hheld Hc Hh Hnc].
  assert (Hhash : forall b, hash_of (kstore p) b = hash_of (store q') b).
  { intros b. unfold hash_of. pose proof (Hm b) as Hb.
    destruct (kstore p !! b), (store q' !! b); simplify_eq/=; done. }
  constructor; simpl; try done.
  - intros b Hb. destruct (Hblk b Hb) as (k & Hk & Hn & Hr). pose proof (Hm b) as Hmb.
    rewrite Hk in Hmb. destruct (store q' !! b) as [k'|]; [simpl in Hmb|done].
    exists k'. split; [done|]. injection Hmb as E1 E2 E3. rewrite E1, E3. done.
  - by eapply cache_ok_ext.
  - intros b key. rewrite <- Hhash. apply Hh.
Qed.

(** Leaving the limbo: everything in it is in use (or null). *)
Lemma inv_drop_limbo L' :
  (forall b, b ∈ L -> b <> null_block p -> b ∉ L' -> 0 < count b H) ->
  (forall b, b ∈ L' -> b ∈ L) -> pool_inv p xs L' H.
Proof.
  intros Hpos Hsub. destruct I as [R Hbl Hnull Hblk Hfree Hfi Hheld Hc Hh Hnc].
  constructor; try done. intros b Hb Hn. rewrite Hfi by done. split; intros [H0 Hl].
  - split; [done|]. intros Hl'. by apply Hl, Hsub.
  - split; [done|]. intros Hl'. specialize (Hpos b Hl' Hn Hl). lia.
Qed.

Lemma inv_limbo_ext L' : (forall b, b ∈ L' <-> b ∈ L) -> pool_inv p xs L' H.
Proof.
  intros He. destruct I as [R Hbl Hnull Hblk Hfree Hfi Hheld Hc Hh Hnc].
  constructor; try done. intros b Hb Hn. rewrite Hfi by done. by rewrite He.
Qed.

Lemma inv_events l : pool_inv (set_events l p) xs L H.
Proof. by destruct I; constructor. Qed.
End inv.

Lemma inv_held_perm p xs L H H' : H ≡ₚ H' -> pool_inv p xs L H -> pool_inv p xs L H'.
Proof.
  intros He I. destruct I as [R Hbl Hnull Hblk Hfree Hfi Hheld Hc Hh Hnc]. constructor; try done.
  - intros b Hb. destruct (Hblk b Hb) as (k & ? & ? & Hr). exists k. by rewrite <- He.
  - intros b. rewrite <- He. auto.
  - intros b. rewrite <- He. auto.
Qed.

(** A change of one block object that keeps its links. *)
Lemma rep_update q xs r k k' :
  queue_rep q xs -> store q !! r = Some k ->
  next_free_block k' = next_free_block k -> prev_free_block k' = prev_free_block k ->
  queue_rep (on_store (insert r k') q) xs.
Proof.
  intros [Hnd Hdom Hch Hcnt Hhd Htl Hoff] Hk Hn Hp.
  assert (Hnx : forall x, nxt (store (on_store (insert r k') q)) x = nxt (store q) x).
  { intros x. unfold nxt. simpl. destruct (decide (x = r)) as [->|].
    - rewrite lookup_insert_eq, Hk. done.
    - by rewrite lookup_insert_ne. }
  assert (Hpv : forall x, prv (store (on_store (insert r k') q)) x = prv (store q) x).
  { intros x. unfold prv. simpl. destruct (decide (x = r)) as [->|].
    - rewrite lookup_insert_eq, Hk. done.
    - by rewrite lookup_insert_ne. }
  constructor; try done.
  - intros x Hx. simpl. destruct (decide (x = r)) as [->|].
    + rewrite lookup_insert_eq. eauto.
    + rewrite lookup_insert_ne by done. auto.
  - eapply chain_frame; [|done]. auto.
  - by rewrite Hpv.
  - by rewrite Hnx.
  - intros x. rewrite Hnx, Hpv. auto.
Qed.

Lemma wp_block_at r k (Q : KVCacheBlock -> BlockPool -> Prop) p :
  kstore p !! r = Some k -> Q k p -> wp (block_at r) Q p.
Proof.
  intros Hk HQ. unfold wp, block_at, on_queue, zoom, deref, gets, of_option, mbind, M_bind.
  rewrite Hk. simpl. by destruct p.
Qed.

Lemma wp_update_block f r k (Q : unit -> BlockPool -> Prop) p :
  kstore p !! r = Some k ->
  Q tt (set_queue (on_store (insert r (f k)) (free_block_queue p)) p) ->
  wp (update_block f r) Q p.
Proof.
  intros Hk HQ. unfold wp, update_block, on_queue, zoom, deref, gets, of_option, mbind, M_bind.
  by rewrite Hk.
Qed.

(** One more, or one fewer, reference to a block. *)
Lemma inv_ref p xs L H H' L' r k d :
  pool_inv p xs L H -> kstore p !! r = Some k -> r ∈ blocks p ->
  (forall b, b ∈ H' -> b ∈ blocks p) ->
  (r <> null_block p -> Z.of_nat (count r H') = Z.of_nat (count r H) + d)%Z ->
  (forall b, b <> r -> count b H' = count b H) ->
  (forall b, b ∈ blocks p -> b <> null_block p -> (b ∈ xs <-> count b H' = 0 /\ b ∉ L')) ->
  pool_inv (set_queue (on_store (insert r (with_ref_cnt (ref_cnt k + d) k)) (free_block_queue p)) p)
    xs L' H'.
Proof.
  intros I Hk Hr Hin Hc1 Hc2 Hiff. destruct I as [R Hbl Hnull Hblk Hfree Hfi Hheld Hc Hh Hnc].
  assert (Hhash : forall b, hash_of (kstore p) b =
     hash_of (<[r := with_ref_cnt (ref_cnt k + d) k]> (kstore p)) b).
  { intros b. unfold hash_of. destruct (decide (b = r)) as [->|].
    - by rewrite lookup_insert_eq, Hk.
    - by rewrite lookup_insert_ne. }
  constructor; simpl; try done.
  - by eapply rep_update.
  - intros b Hb. destruct (Hblk b Hb) as (k0 & Hk0 & Hn & Hrc). destruct (decide (b = r)) as [->|].
    + rewrite lookup_insert_eq. eexists. split; [done|]. simplify_eq. split; [done|].
      intros Hnn. simpl. rewrite Hrc, Hc1 by done. lia.
    + rewrite lookup_insert_ne by done. exists k0. rewrite Hc2 by done. done.
  - by eapply cache_ok_ext.
  - intros b key. rewrite <- Hhash. apply Hh.
Qed.

(** A change of the hash of one block, with the map. *)
Lemma inv_hash p xs L H r k h m' :
  pool_inv p xs L H -> kstore p !! r = Some k -> r ∈ blocks p ->
  (forall g, (forall x, g x = if decide (x = r) then h else hash_of (kstore p) x) -> cache_ok m' g) ->
  (r = null_block p -> h = None) -> (enable_caching p = false -> m' = ∅) ->
  pool_inv (set_cache m' (set_queue (on_store (insert r (with_hash h k)) (free_block_queue p)) p))
    xs L H.
Proof.
  intros I Hk Hr Hm Hnh Hec. destruct I as [R Hbl Hnull Hblk Hfree Hfi Hheld Hc Hh Hnc].
  assert (Hhash : forall b, hash_of (<[r := with_hash h k]> (kstore p)) b =
     if decide (b = r) then h else hash_of (kstore p) b).
  { intros b. unfold hash_of. case_decide as Hb; [subst b|].
    - by rewrite lookup_insert_eq.
    - by rewrite lookup_insert_ne. }
  constructor; simpl; try done.
  - by eapply rep_update.
  - intros b Hb. destruct (Hblk b Hb) as (k0 & Hk0 & Hn & Hrc). destruct (decide (b = r)) as [->|].
    + rewrite lookup_insert_eq. eexists. split; [done|]. simplify_eq. done.
    + rewrite lookup_insert_ne by done. eauto.
  - apply Hm. intros x. by rewrite Hhash.
  - intros b key. rewrite Hhash. case_decide as Hb; [|apply Hh]. subst b. intros ->.
    split; [done|]. intros Heq. by specialize (Hnh Heq).
Qed.

(** ** The operations preserve the invariant *)

#[local] Set Default Proof Using "Type".
Section specs.
Context (use_int : bool).

Definition removed_event (p : BlockPool) (b : ref) : list KVCacheEvent :=
  match hash_of (kstore p) b with
  | Some key => if enable_kv_cache_events p
                then [EvRemoved [maybe_convert_block_hash use_int (get_block_hash key)]
                        (get_group_id key)]
                else []
  | None => []
  end.

Lemma maybe_evict_spec p xs L H b :
  pool_inv p xs L H -> b ∈ blocks p ->
  wp (maybe_evict_cached_block use_int b) (fun r p' =>
      pool_inv p' xs L H /\ config p' = config p /\ r = is_some (hash_of (kstore p) b) /\
      (forall x, hash_of (kstore p') x = if decide (x = b) then None else hash_of (kstore p) x) /\
      kv_event_queue p' = kv_event_queue p ++ removed_event p b) p.
Proof.
  intros I Hb. destruct (pi_block _ _ _ _ I b Hb) as (k & Hk & _).
  assert (Hh : hash_of (kstore p) b = block_hash k) by (unfold hash_of; by rewrite Hk).
  unfold maybe_evict_cached_block, removed_event. apply wp_bind. eapply wp_block_at; [done|].
  rewrite Hh. destruct (block_hash k) as [key|] eqn:Ek.
  2: { apply wp_ret. rewrite app_nil_r. split; [done|]. split; [done|]. split; [done|]. split; [|done].
       intros x. case_decide; [by subst|done]. }
  set (g := fun x => if decide (x = b) then None else hash_of (kstore p) x).
  destruct (cache_ok_pop _ _ g b key (pi_cache _ _ _ _ I) Hh ltac:(done)) as [Hpop _].
  wp_steps. rewrite Hpop. apply wp_bind. eapply wp_update_block; [exact Hk|].
  apply wp_bind, wp_get.
  match goal with |- context [enable_kv_cache_events ?p'] => set (p1 := p') end.
  assert (I1 : pool_inv p1 xs L H).
  { apply (inv_hash p xs L H b k None); try done.
    - intros g' Hg'. eapply cache_ok_pop; [apply I|done|done].
    - intros Hec. rewrite (pi_nocache _ _ _ _ I Hec) in Hpop. done. }
  assert (Hhash : forall x, hash_of (kstore p1) x = if decide (x = b) then None else hash_of (kstore p) x).
  { intros x. unfold hash_of. simpl. case_decide; [subst x|].
    - by rewrite lookup_insert_eq.
    - by rewrite lookup_insert_ne. }
  change (enable_kv_cache_events p1) with (enable_kv_cache_events p).
  destruct (enable_kv_cache_events p) eqn:Eev; wp_steps.
  - split; [by apply inv_events|]. split; [unfold config; simpl; by rewrite Eev|].
    split; [done|]. split; [done|done].
  - split; [done|]. split; [unfold config; simpl; by rewrite Eev|]. split; [done|].
    split; [done|]. by rewrite app_nil_r.
Qed.

Lemma config_eq p p' : config p' = config p ->
  num_gpu_blocks p' = num_gpu_blocks p /\ enable_caching p' = enable_caching p /\
  hash_block_size p' = hash_block_size p /\ blocks p' = blocks p /\
  null_block p' = null_block p /\ enable_kv_cache_events p' = enable_kv_cache_events p.
Proof. unfold config. intros. simplify_eq. repeat split; congruence. Qed.

Lemma hash_of_nocaching p xs L H b :
  pool_inv p xs L H -> enable_caching p = false -> hash_of (kstore p) b = None.
Proof.
  intros I He. destruct (hash_of (kstore p) b) as [key|] eqn:E; [|done].
  apply (co_iff _ _ (pi_cache _ _ _ _ I)) in E. unfold map_refs in E.
  rewrite (pi_nocache _ _ _ _ I He), lookup_empty in E. set_solver.
Qed.

(** Hashes of the blocks [bs] are gone, all others are kept. *)
Definition evicted (s s' : gmap ref KVCacheBlock) (bs : list ref) : Prop :=
  forall x, hash_of s' x = if decide (x ∈ bs) then None else hash_of s x.

Lemma take_block_spec p xs L H b :
  pool_inv p xs L H -> b ∈ L -> b ∈ blocks p -> b <> null_block p -> count b H = 0 ->
  wp (take_block use_int (enable_caching p) b) (fun _ p' =>
      pool_inv p' xs L (b :: H) /\ config p' = config p /\
      evicted (kstore p) (kstore p') [b]) p.
Proof.
  intros I HbL Hb Hnn Hc. unfold take_block. apply wp_bind.
  assert (Hev : wp (if enable_caching p then maybe_evict_cached_block use_int b ;; mret tt else mret tt)
     (fun _ p' => pool_inv p' xs L H /\ config p' = config p /\
        evicted (kstore p) (kstore p') [b]) p).
  { destruct (enable_caching p) eqn:Ec.
    - apply wp_bind. eapply wp_mono; [by apply maybe_evict_spec|].
      intros r p' (? & ? & _ & Hh & _). apply wp_ret. split; [done|]. split; [done|].
      intros x. rewrite Hh. destruct (decide (x = b)); [subst|].
      + rewrite decide_True; [done|set_solver].
      + rewrite decide_False; [done|set_solver].
    - apply wp_ret. split; [done|]. split; [done|]. intros x. case_decide; [|done].
      by eapply hash_of_nocaching. }
  eapply wp_mono; [exact Hev|]. intros _ p1 (I1 & Hcfg & Hh1).
  apply config_eq in Hcfg as Hcfg'. destruct Hcfg' as (E1 & E2 & E3 & E4 & E5 & E6).
  rewrite <- E4 in Hb. rewrite <- E5 in Hnn.
  destruct (pi_block _ _ _ _ I1 b Hb) as (k & Hk & _ & Hr). rewrite Hc in Hr.
  apply wp_bind. eapply wp_block_at; [done|]. apply wp_bind, wp_assert; [rewrite Hr by done; done|].
  eapply wp_update_block; [done|]. split; [|split].
  - apply (inv_ref p1 xs L H); try done.
    + intros x [->|Hx]%elem_of_cons; [done|by apply (pi_held _ _ _ _ I1)].
    + intros _. simpl. rewrite decide_True by done. lia.
    + intros x Hx. simpl. by rewrite decide_False.
    + intros x Hx Hxn. rewrite (pi_free_iff _ _ _ _ I1) by done. simpl.
      case_decide; [subst; split; intros [??]; done|done].
  - unfold config in *. done.
  - intros x. rewrite <- Hh1. unfold hash_of. simpl. destruct (decide (x = b)) as [->|].
    + by rewrite lookup_insert_eq, Hk.
    + by rewrite lookup_insert_ne.
Qed.

Lemma evicted_trans s1 s2 s3 l1 l2 :
  evicted s1 s2 l1 -> evicted s2 s3 l2 -> evicted s1 s3 (l1 ++ l2).
Proof.
  intros H1 H2 x. rewrite H2, H1. destruct (decide (x ∈ l2)), (decide (x ∈ l1)).
  all: try (rewrite decide_True; [done|set_solver]). rewrite decide_False; [done|set_solver].
Qed.

Lemma hash_of_same_meta s s' x : same_meta s s' -> hash_of s' x = hash_of s x.
Proof.
  intros Hm. unfold hash_of. pose proof (Hm x) as Hx.
  destruct (s !! x), (s' !! x); simplify_eq/=; done.
Qed.

Lemma evicted_nil s : evicted s s [].
Proof. intros x. by rewrite decide_False by set_solver. Qed.

(** [n] blocks from the front of the free list, without hashes, with one
    reference each. *)
Lemma get_new_blocks_spec p ys zs H :
  pool_inv p (ys ++ zs) [] H ->
  wp (get_new_blocks use_int (zlen ys)) (fun r p' =>
      r = ys /\ pool_inv p' zs [] (ys ++ H) /\ config p' = config p /\
      evicted (kstore p) (kstore p') ys) p.
Proof.
  intros I. pose proof (pi_rep _ _ _ _ I) as R. pose proof (inv_nodup I) as Hnd.
  apply NoDup_app in Hnd as (Hndy & Hdisj & Hndz).
  unfold get_new_blocks, get_num_free_blocks. wp_steps.
  rewrite (rep_count _ _ R), length_app. rewrite (proj2 (Z.ltb_ge _ _)) by lia.
  apply wp_bind, wp_zoom. eapply wp_mono; [by apply popleft_n_rep|].
  intros r q (-> & R' & Hm). apply wp_bind, wp_get. apply wp_bind.
  set (p1 := set_queue q p).
  assert (I1 : pool_inv p1 zs ys H).
  { apply (inv_queue I); [done|done| |].
    - intros b Hb. apply (pi_free _ _ _ _ I). set_solver.
    - intros b Hb Hn. pose proof (pi_free_iff _ _ _ _ I b Hb Hn) as Hi.
      rewrite elem_of_app in Hi. specialize (Hdisj b). split; [set_solver|].
      intros [Hc Hy]. destruct (proj2 Hi); [set_solver|done|done]. }
  assert (Hy : forall b, b ∈ ys -> b ∈ blocks p1 /\ b <> null_block p1 /\ count b H = 0).
  { intros b Hb. destruct (pi_free _ _ _ _ I b) as [? ?]; [set_solver|]. split; [done|].
    split; [done|]. apply (pi_free_iff _ _ _ _ I b); [done|done|set_solver]. }
  eapply wp_mono; [apply (wp_for_each (fun l1 _ p' =>
      pool_inv p' zs ys (l1 ++ H) /\ config p' = config p1 /\ evicted (kstore p1) (kstore p') l1))|].
  - split; [done|]. split; [done|]. apply evicted_nil.
  - intros l1 x l2 p' -> (I' & Hcfg & Hev). pose proof (config_eq _ _ Hcfg) as (_ & E2 & _ & E4 & E5 & _).
    destruct (Hy x) as (Hx1 & Hx2 & Hx3); [set_solver|]. rewrite <- E2.
    apply NoDup_app in Hndy as (_ & Hd & _). eapply wp_mono; [apply (take_block_spec p' zs (l1 ++ x :: l2) (l1 ++ H))|].
    + done.
    + set_solver.
    + by rewrite E4.
    + by rewrite E5.
    + rewrite count_app, count_not_in; [done|]. intros Hin. apply (Hd x Hin). set_solver.
    + intros _ p'' (I'' & Hcfg' & Hev'). split; [|split].
      * eapply inv_held_perm; [|exact I'']. rewrite <- app_assoc. simpl. by rewrite Permutation_middle.
      * congruence.
      * by eapply evicted_trans.
  - intros _ p' (I' & Hcfg & Hev). apply wp_ret. split; [done|]. split; [|split; [done|]].
    + eapply inv_drop_limbo; [exact I'| |set_solver]. intros b Hb _ _. rewrite count_app.
      apply count_pos in Hb. lia.
    + intros x. rewrite Hev. simpl. by rewrite (hash_of_same_meta (kstore p) (store q)).
Qed.

Lemma get_new_blocks_too_many p xs L H n :
  pool_inv p xs L H -> (zlen xs < n)%Z -> get_new_blocks use_int n p = (Err ValueError, p).
Proof.
  intros I Hn. unfold get_new_blocks, get_num_free_blocks, gets, mbind, M_bind.
  rewrite (rep_count _ _ (pi_rep _ _ _ _ I)). by rewrite (proj2 (Z.ltb_lt _ _)) by done.
Qed.
Lemma evicted_none s s' : (forall x, hash_of s' x = hash_of s x) -> evicted s s' [].
Proof. intros Hs x. by rewrite decide_False by set_solver. Qed.

Lemma evicted_none_inv s s' x : evicted s s' [] -> hash_of s' x = hash_of s x.
Proof. intros Hs. rewrite Hs. by rewrite decide_False by set_solver. Qed.

Lemma filter_ne_id b (xs : list ref) : b ∉ xs -> filter (fun x => x <> b) xs = xs.
Proof.
  induction xs as [|x xs IH]; [done|]. intros Hn.
  rewrite filter_cons_True by set_solver. by rewrite IH by set_solver.
Qed.

Lemma hash_of_ref s r k n x : s !! r = Some k -> hash_of (<[r := with_ref_cnt n k]> s) x = hash_of s x.
Proof.
  intros Hk. unfold hash_of. destruct (decide (x = r)) as [->|].
  - by rewrite lookup_insert_eq, Hk.
  - by rewrite lookup_insert_ne.
Qed.

(** ** [touch] *)

Lemma touch_one_spec p xs H b :
  pool_inv p xs [] H -> b ∈ blocks p ->
  wp (touch_one b) (fun _ p' =>
      pool_inv p' (filter (fun x => x <> b) xs) [] (b :: H) /\ config p' = config p /\
      evicted (kstore p) (kstore p') [] /\ kv_event_queue p' = kv_event_queue p) p.
Proof.
  intros I Hb. destruct (pi_block _ _ _ _ I b Hb) as (k & Hk & Hn & Hr).
  unfold touch_one. apply wp_bind. eapply wp_block_at; [done|]. apply wp_bind.
  assert (Hpre : wp (if ((ref_cnt k =? 0)%Z && negb (is_null k)) then on_queue (remove b) else mret tt)
     (fun _ p' => pool_inv p' (filter (fun x => x <> b) xs) [b] H /\ config p' = config p /\
        same_meta (kstore p) (kstore p') /\ kv_event_queue p' = kv_event_queue p) p).
  { rewrite Hn. destruct (decide (b ∈ xs)) as [Hin|Hin].
    - destruct (pi_free _ _ _ _ I b Hin) as [_ Hnn]. rewrite bool_decide_eq_false_2 by done.
      pose proof (proj1 (pi_free_iff _ _ _ _ I b Hb Hnn) Hin) as [Hc _].
      rewrite Hr, Hc by done. simpl. pose proof (inv_nodup I) as Hnd.
      pose proof Hin as Hs. apply list_elem_of_split in Hs as (l1 & l2 & ->).
      rewrite filter_ne_split by done. apply wp_zoom.
      eapply wp_mono; [apply remove_rep, I|]. intros _ q [R' Hm].
      split; [|done]. apply (inv_queue I); [done|done| |].
      + intros x Hx. apply (pi_free _ _ _ _ I). set_solver.
      + intros x Hx Hxn. pose proof (pi_free_iff _ _ _ _ I x Hx Hxn) as Hi.
        assert (Hbn : b ∉ l1 ++ l2). { apply NoDup_app in Hnd as (_ & Hd & Hnd%NoDup_cons).
          specialize (Hd b). set_solver. }
        split.
        * intros Hx'. split; [apply Hi; set_solver|]. intros ->%list_elem_of_singleton. done.
        * intros [Hcx Hxb]. assert (x ∈ l1 ++ b :: l2) by (apply Hi; set_solver). set_solver.
    - rewrite filter_ne_id by done. destruct ((ref_cnt k =? 0)%Z && negb (bool_decide (b = null_block p))) eqn:E.
      + apply andb_true_iff in E as [E1%Z.eqb_eq E2%negb_true_iff%bool_decide_eq_false].
        exfalso. apply Hin, (pi_free_iff _ _ _ _ I); [done|done|]. rewrite Hr in E1 by done.
        split; [lia|set_solver].
      + apply wp_ret. split; [|done]. destruct I as [R Hbl Hnull Hblk Hfree Hfi Hheld Hc Hh Hnc].
        constructor; try done. intros x Hx Hxn. rewrite Hfi by done.
        split; intros [Hcx Hxl]; (split; [done|]); [|set_solver].
        intros ->%list_elem_of_singleton. apply Hin, Hfi; try done. }
  eapply wp_mono; [exact Hpre|]. intros _ p1 (I1 & Hcfg & Hm & Hev).
  pose proof (config_eq _ _ Hcfg) as (E1 & E2 & E3 & E4 & E5 & E6).
  rewrite <- E4 in Hb. destruct (pi_block _ _ _ _ I1 b Hb) as (k1 & Hk1 & _).
  eapply wp_update_block; [done|]. split; [|split; [|split]].
  - apply (inv_ref p1 _ [b] H); try done.
    + intros x [->|Hx]%elem_of_cons; [done|by apply (pi_held _ _ _ _ I1)].
    + intros _. simpl. rewrite decide_True by done. lia.
    + intros x Hx. simpl. by rewrite decide_False.
    + intros x Hx Hxn. rewrite (pi_free_iff _ _ _ _ I1) by done. simpl.
      destruct (decide (x = b)) as [->|Hxb]; split; intros [Hc0 Hl].
      * exfalso. set_solver.
      * lia.
      * split; [done|set_solver].
      * split; [done|]. by intros ->%list_elem_of_singleton.
  - by unfold config in *.
  - apply evicted_none. intros x. simpl. rewrite hash_of_ref by done. by apply hash_of_same_meta.
  - done.
Qed.

Lemma touch_spec p xs H bs :
  pool_inv p xs [] H -> (forall b, b ∈ bs -> b ∈ blocks p) ->
  wp (touch bs) (fun _ p' =>
      pool_inv p' (filter (fun x => x ∉ bs) xs) [] (bs ++ H) /\ config p' = config p /\
      evicted (kstore p) (kstore p') [] /\ kv_event_queue p' = kv_event_queue p) p.
Proof.
  intros I Hbs. eapply wp_mono; [apply (wp_for_each (fun l1 _ p' =>
      pool_inv p' (filter (fun x => x ∉ l1) xs) [] (l1 ++ H) /\ config p' = config p /\
      evicted (kstore p) (kstore p') [] /\ kv_event_queue p' = kv_event_queue p))|].
  - split; [|split; [done|split; [apply evicted_nil|done]]].
    by rewrite filter_all by set_solver.
  - intros l1 b l2 p' -> (I' & Hcfg & Hev & Hq).
    pose proof (config_eq _ _ Hcfg) as (_ & _ & _ & E4 & _).
    eapply wp_mono; [apply touch_one_spec; [exact I'|rewrite E4; apply Hbs; set_solver]|].
    intros _ p'' (I'' & Hcfg' & Hev' & Hq'). split; [|split; [congruence|split; [|congruence]]].
    + rewrite list_filter_filter in I''.
      rewrite (list_filter_iff _ (fun x => x <> b /\ x ∉ l1)) by set_solver.
      eapply inv_held_perm; [|exact I'']. rewrite <- app_assoc. simpl. by rewrite Permutation_middle.
    + by apply (evicted_trans _ (kstore p') _ [] []).
  - done.
Qed.

(** ** [free_blocks] *)

Lemma filter_m_spec {S : Type} (f : ref -> M S bool) (P : ref -> Prop)
    `{!forall x, Decision (P x)} l (s : S) :
  (forall x, x ∈ l -> f x s = (Ok (bool_decide (P x)), s)) ->
  filter_m f l s = (Ok (filter P l), s).
Proof.
  intros Hf. unfold filter_m.
  assert (Hgen : forall l2 acc, (forall x, x ∈ l2 -> f x s = (Ok (bool_decide (P x)), s)) ->
    for_fold (fun acc x => b ← f x; mret (if (b : bool) then acc ++ [x] else acc)) l2 acc s
    = (Ok (acc ++ filter P l2), s)).
  { clear Hf l. induction l2 as [|x l2 IH]; intros acc Hf.
    - simpl. by rewrite app_nil_r.
    - cbn [for_fold]. unfold mbind, M_bind in *. rewrite Hf by set_solver. unfold mret, M_ret in *.
      rewrite IH by (intros; apply Hf; set_solver). case_bool_decide.
      + by rewrite filter_cons_True, <- app_assoc.
      + by rewrite filter_cons_False. }
  by apply Hgen.
Qed.

(** The blocks of [bs] that nobody holds any more. *)
Definition freed (p : BlockPool) (H' bs : list ref) : list ref :=
  filter (fun b => b <> null_block p /\ count b H' = 0) bs.

Lemma drop_refs_spec p xs bs H' :
  pool_inv p xs [] (bs ++ H') ->
  wp (for_each (add_ref (-1)) bs) (fun _ p' =>
      pool_inv p' xs bs H' /\ config p' = config p /\
      evicted (kstore p) (kstore p') [] /\ kv_event_queue p' = kv_event_queue p) p.
Proof.
  intros I. apply (wp_for_each (fun l1 l2 p' =>
      pool_inv p' xs l1 (l2 ++ H') /\ config p' = config p /\
      evicted (kstore p) (kstore p') [] /\ kv_event_queue p' = kv_event_queue p)).
  { split; [done|]. split; [done|]. split; [apply evicted_nil|done]. }
  intros l1 b l2 p' _ (I' & Hcfg & Hev & Hq).
  assert (Hb : b ∈ blocks p') by (apply (pi_held _ _ _ _ I'); set_solver).
  destruct (pi_block _ _ _ _ I' b Hb) as (k & Hk & _).
  eapply wp_update_block; [done|]. split; [|split; [by unfold config in *|split; [|done]]].
  - apply (inv_ref p' xs l1 (b :: l2 ++ H')); try done.
    + intros x Hx. apply (pi_held _ _ _ _ I'). set_solver.
    + intros _. simpl. rewrite decide_True by done. lia.
    + intros x Hx. simpl. by rewrite decide_False.
    + intros x Hx Hn. rewrite (pi_free_iff _ _ _ _ I') by done. simpl.
      destruct (decide (x = b)) as [->|Hxb].
      * split; [intros [? _]; lia|]. intros [_ Hl]. set_solver.
      * rewrite elem_of_app, list_elem_of_singleton. split; [tauto|]. tauto.
  - apply (evicted_trans _ (kstore p') _ [] []); [done|]. apply evicted_none. intros x. simpl.
    by rewrite hash_of_ref.
Qed.

Lemma is_freed_spec p xs L H b : pool_inv p xs L H -> b ∈ blocks p ->
  is_freed b p = (Ok (bool_decide (b <> null_block p /\ count b H = 0)), p).
Proof.
  intros I Hb. destruct (pi_block _ _ _ _ I b Hb) as (k & Hk & Hn & Hr).
  assert (Hw : wp (is_freed b) (fun r p' => r = bool_decide (b <> null_block p /\ count b H = 0) /\ p' = p) p).
  { unfold is_freed. apply wp_bind. eapply wp_block_at; [done|]. apply wp_ret. split; [|done].
    rewrite Hn. clear Hn. destruct (decide (b = null_block p)) as [->|Hne].
    - rewrite bool_decide_eq_true_2 by done. rewrite andb_false_r.
      by rewrite bool_decide_eq_false_2 by tauto.
    - rewrite bool_decide_eq_false_2 by done. rewrite Hr, andb_true_r by done.
      case_bool_decide as Hc; [apply Z.eqb_eq; lia|].
      apply Z.eqb_neq. intros Hz. apply Hc. split; [done|lia]. }
  apply wp_returns in Hw as (r & p' & -> & -> & ->). done.
Qed.

Lemma free_blocks_spec p xs H bs H' prepend :
  pool_inv p xs [] H -> H ≡ₚ bs ++ H' -> NoDup (filter (fun b => b <> null_block p) bs) ->
  wp (free_blocks bs prepend) (fun _ p' =>
      pool_inv p' (if prepend then freed p H' bs ++ xs else xs ++ freed p H' bs) [] H' /\
      config p' = config p /\ evicted (kstore p) (kstore p') [] /\
      kv_event_queue p' = kv_event_queue p) p.
Proof.
  intros I HH Hnd. unfold free_blocks. apply wp_bind.
  eapply wp_mono; [apply drop_refs_spec; by eapply inv_held_perm|].
  intros _ p1 (I1 & Hcfg & Hev & Hq). pose proof (config_eq _ _ Hcfg) as (_ & _ & _ & E4 & E5 & _).
  assert (Hbs : forall b, b ∈ bs -> b ∈ blocks p1).
  { intros b Hb. rewrite E4. apply (pi_held _ _ _ _ I). rewrite HH. set_solver. }
  apply wp_bind. unfold wp.
  rewrite (filter_m_spec _ (fun b => b <> null_block p /\ count b H' = 0)).
  2: { intros b Hb. rewrite <- E5. by eapply is_freed_spec; [|apply Hbs]. }
  change (filter _ bs) with (freed p H' bs). set (fr := freed p H' bs).
  assert (Hfr : forall b, b ∈ fr <-> b <> null_block p1 /\ count b H' = 0 /\ b ∈ bs).
  { intros b. unfold fr, freed. rewrite list_elem_of_filter, E5. tauto. }
  assert (Hfnd : NoDup fr).
  { unfold fr, freed. rewrite (list_filter_iff _ (fun b => count b H' = 0 /\ b <> null_block p)) by tauto.
    rewrite <- (list_filter_filter (fun b => count b H' = 0) (fun b => b <> null_block p)).
    by apply NoDup_filter. }
  assert (Hnodes : forall r, r ∈ fr -> r ∉ nodes xs /\ is_Some (kstore p1 !! r)).
  { intros r (Hn & Hc & Hr)%Hfr. split.
    - apply (inv_not_node I1); [auto|]. intros Hx.
      apply (pi_free_iff _ _ _ _ I1) in Hx as [_ Hl]; auto.
    - destruct (pi_block _ _ _ _ I1 r ltac:(auto)) as (k & Hk & _). eauto. }
  assert (Hfin : forall xs' q', (forall x, x ∈ xs' <-> x ∈ xs \/ x ∈ fr) -> queue_rep q' xs' ->
     same_meta (kstore p1) (store q') ->
     pool_inv (set_queue q' p1) xs' [] H' /\ config (set_queue q' p1) = config p /\
     evicted (kstore p) (kstore (set_queue q' p1)) [] /\
     kv_event_queue (set_queue q' p1) = kv_event_queue p).
  { intros xs' q' Hxs' R' Hm. split; [|split; [by unfold config in *|split; [|done]]].
    - apply (inv_queue I1); [done|done| |].
      + intros b [Hb|Hb]%Hxs'; [by apply (pi_free _ _ _ _ I1)|].
        apply Hfr in Hb as (? & ? & ?). auto.
      + intros b Hb Hn. rewrite Hxs', Hfr, (pi_free_iff _ _ _ _ I1) by done.
        destruct (decide (b ∈ bs)); set_solver.
    - apply (evicted_trans _ (kstore p1) _ [] []); [done|]. apply evicted_none. intros x.
      by apply hash_of_same_meta. }
  destruct prepend.
  - change (wp (on_queue (prepend_n fr)) (fun _ p' => pool_inv p' (fr ++ xs) [] H' /\
      config p' = config p /\ evicted (kstore p) (kstore p') [] /\
      kv_event_queue p' = kv_event_queue p) p1).
    apply wp_zoom. eapply wp_mono; [apply prepend_n_rep; [apply I1|done|done]|].
    intros _ q' [R' Hm]. apply Hfin; [set_solver|done|done].
  - change (wp (on_queue (append_n fr)) (fun _ p' => pool_inv p' (xs ++ fr) [] H' /\
      config p' = config p /\ evicted (kstore p) (kstore p') [] /\
      kv_event_queue p' = kv_event_queue p) p1).
    apply wp_zoom. eapply wp_mono; [apply append_n_rep; [apply I1|done|done]|].
    intros _ q' [R' Hm]. apply Hfin; [set_solver|done|done].
Qed.

(** ** Eviction and reset *)

Lemma py_index_nonneg {A} (l : list A) i : (0 <= i)%Z -> py_index l i = l !! Z.to_nat i.
Proof. intros Hi. unfold py_index. by rewrite (proj2 (Z.leb_le _ _)). Qed.

Lemma blocks_lookup p xs L H i : pool_inv p xs L H -> (0 <= i < zlen (blocks p))%Z ->
  py_index (blocks p) i = Some (Blk (Z.to_nat i)) /\ Blk (Z.to_nat i) ∈ blocks p.
Proof.
  intros I Hi. rewrite py_index_nonneg by lia. rewrite (pi_blocks _ _ _ _ I) in *.
  rewrite length_fmap, length_seq in Hi.
  assert (Hl : (Blk <$> seq 0 (Z.to_nat (num_gpu_blocks p))) !! Z.to_nat i = Some (Blk (Z.to_nat i))).
  { rewrite list_lookup_fmap, lookup_seq_lt by lia. done. }
  split; [done|]. by eapply list_elem_of_lookup_2.
Qed.

Lemma evict_blocks_spec p xs L H ids :
  pool_inv p xs L H -> (forall i, i ∈ ids -> (0 <= i < zlen (blocks p))%Z) ->
  wp (evict_blocks use_int ids) (fun _ p' =>
      pool_inv p' xs L H /\ config p' = config p /\
      evicted (kstore p) (kstore p') ((fun i => Blk (Z.to_nat i)) <$> ids)) p.
Proof.
  intros I Hids. eapply wp_mono; [apply (wp_for_each (fun l1 _ p' =>
      pool_inv p' xs L H /\ config p' = config p /\
      evicted (kstore p) (kstore p') ((fun i => Blk (Z.to_nat i)) <$> l1)))|].
  - split; [done|]. split; [done|]. apply evicted_nil.
  - intros l1 i l2 p' -> (I' & Hcfg & Hev). pose proof (config_eq _ _ Hcfg) as (_ & _ & _ & E4 & _).
    assert (Hi : (0 <= i < zlen (blocks p'))%Z) by (rewrite E4; apply Hids; set_solver).
    destruct (blocks_lookup _ _ _ _ _ I' Hi) as [Hl Hb].
    apply wp_bind, wp_get, wp_bind, wp_assert; [lia|]. apply wp_bind. eapply wp_of_option; [done|].
    apply wp_bind. eapply wp_mono; [by apply maybe_evict_spec|].
    intros r p'' (I'' & Hcfg' & _ & Hh & _). apply wp_ret. split; [done|].
    split; [congruence|]. rewrite fmap_app. eapply evicted_trans; [done|].
    intros x. rewrite Hh. simpl. destruct (decide (x = Blk (Z.to_nat i))); [subst|].
    + rewrite decide_True; [done|set_solver].
    + rewrite decide_False; [done|set_solver].
  - done.
Qed.

Lemma reset_loop p0 q xs bs :
  queue_rep q xs -> (forall b, b ∈ bs -> is_Some (store q !! b)) ->
  wp (for_each reset_hash bs) (fun _ p' => exists q', p' = set_queue q' p0 /\ queue_rep q' xs /\
      forall x, store q' !! x = if decide (x ∈ bs) then with_hash None <$> store q !! x
                               else store q !! x) (set_queue q p0).
Proof.
  intros R Hbs. eapply wp_mono; [apply (wp_for_each (fun l1 _ p' =>
      exists q', p' = set_queue q' p0 /\ queue_rep q' xs /\
      forall x, store q' !! x = if decide (x ∈ l1) then with_hash None <$> store q !! x
                               else store q !! x))|].
  - exists q. split; [done|]. split; [done|]. intros x. by rewrite decide_False by set_solver.
  - intros l1 b l2 p' -> (q' & -> & R' & Hs). destruct (Hbs b) as [k Hk]; [set_solver|].
    assert (Hk' : exists k', store q' !! b = Some k' /\ with_hash None k' = with_hash None k).
    { rewrite Hs. case_decide; rewrite Hk; simpl; eauto. }
    destruct Hk' as (k' & Hk' & Heq). eapply wp_update_block; [exact Hk'|]. eexists.
    split; [reflexivity|]. split; [by eapply rep_update|]. intros x. simpl.
    destruct (decide (x = b)) as [->|Hx].
    + rewrite lookup_insert_eq, decide_True by set_solver. rewrite Hk. simpl. by rewrite Heq.
    + rewrite lookup_insert_ne, Hs by done.
      destruct (decide (x ∈ l1)), (decide (x ∈ l1 ++ [b])); set_solver.
  - done.
Qed.

Lemma held_iff_used p xs H :
  pool_inv p xs [] H ->
  (num_gpu_blocks p - zlen xs = 1)%Z <-> (forall b, b ∈ H -> b = null_block p).
Proof.
  intros I. pose proof (inv_blocks_nodup I) as Hnd. pose proof (inv_nodup I) as Hx.
  pose proof (inv_blocks_length I) as Hlen. pose proof (pi_null _ _ _ _ I) as Hnull.
  assert (Hsub : null_block p :: xs ⊆+ blocks p).
  { apply NoDup_submseteq.
    - apply NoDup_cons. split; [|done]. intros Hin. by apply (pi_free _ _ _ _ I) in Hin as [_ ?].
    - intros b [->|Hb]%elem_of_cons; [done|]. by apply (pi_free _ _ _ _ I). }
  split.
  - intros Hn b Hb. destruct (decide (b = null_block p)); [done|]. exfalso.
    pose proof (pi_held _ _ _ _ I b Hb) as Hbb.
    assert (Hp : null_block p :: xs ≡ₚ blocks p).
    { apply submseteq_length_Permutation; [done|]. simpl. lia. }
    rewrite <- Hp in Hbb. apply elem_of_cons in Hbb as [?|Hbx]; [done|].
    apply (pi_free_iff _ _ _ _ I) in Hbx as [Hc _]; [|by apply (pi_held _ _ _ _ I)|done].
    apply count_pos in Hb. lia.
  - intros Hall. assert (Hrev : blocks p ⊆+ null_block p :: xs).
    { apply NoDup_submseteq; [done|]. intros b Hb. apply elem_of_cons.
      destruct (decide (b = null_block p)); [by left|right]. apply (pi_free_iff _ _ _ _ I); [done|done|].
      split; [|set_solver]. apply count_not_in. intros Hin. auto. }
    apply submseteq_length in Hsub, Hrev. simpl in *. lia.
Qed.

(** Succeeds exactly when no block but the null block is held; then no block
    has a hash any more, and otherwise nothing changes. *)
Lemma reset_prefix_cache_spec p xs H :
  pool_inv p xs [] H ->
  wp reset_prefix_cache (fun r p' =>
      pool_inv p' xs [] H /\ config p' = config p /\
      (r = true <-> forall b, b ∈ H -> b = null_block p) /\
      (r = true -> cached_block_hash_to_block p' = ∅ /\ forall x, hash_of (kstore p') x = None) /\
      (r = false -> p' = p)) p.
Proof.
  intros I. pose proof (held_iff_used _ _ _ I) as Hu. unfold reset_prefix_cache.
  apply wp_bind, wp_get. rewrite (rep_count _ _ (pi_rep _ _ _ _ I)).
  destruct (Z.eqb_spec (num_gpu_blocks p - zlen xs) 1) as [He|He]; cbn [negb].
  2: { apply wp_ret. split; [done|]. split; [done|]. split; [|done]. split; [done|tauto]. }
  apply wp_bind, wp_modify, wp_bind.
  destruct I as [R Hbl Hnull Hblk Hfree Hfi Hheld Hc Hh Hnc].
  replace (set_cache ∅ p) with (set_queue (free_block_queue p) (set_cache ∅ p)) by done.
  eapply wp_mono; [apply (reset_loop _ _ xs); [done|]|].
  { intros b Hb. destruct (Hblk b Hb) as (k & Hk & _). eauto. }
  intros _ p1 (q' & -> & R' & Hs).
  assert (Hnone : forall x, hash_of (store q') x = None).
  { intros x. unfold hash_of. rewrite Hs. case_decide as Hx.
    - by destruct (kstore p !! x).
    - destruct (hash_of (kstore p) x) eqn:E; [|done]. by apply Hh in E as [? _]. }
  set (p1 := set_queue q' (set_cache ∅ p)).
  assert (I1 : pool_inv p1 xs [] H).
  { constructor; try done.
    - intros b Hb. destruct (Hblk b Hb) as (k & Hk & ?). simpl. rewrite Hs, decide_True, Hk by done.
      eexists. split; [done|]. done.
    - split; [apply map_ok_empty|]. intros b key. simpl. rewrite Hnone. unfold map_refs.
      rewrite lookup_empty. set_solver.
    - intros b key. simpl. by rewrite Hnone. }
  apply wp_bind. destruct (enable_kv_cache_events p) eqn:Ee.
  - apply wp_modify, wp_ret. split; [by apply inv_events|].
    split; [by unfold config; simpl; rewrite Ee|]. split; [tauto|]. split; [done|done].
  - apply wp_ret, wp_ret. split; [done|].
    split; [by unfold config; simpl; rewrite Ee|]. split; [tauto|]. split; [done|done].
Qed.

(** ** Construction *)

Lemma pool_init_spec n caching hbs events :
  (0 < n)%Z ->
  exists p, pool_init n caching hbs events = Ok p /\
    pool_inv p (Blk <$> seq 1 (Z.to_nat n - 1)) [] [] /\
    num_gpu_blocks p = n /\ enable_caching p = caching /\ hash_block_size p = hbs /\
    null_block p = Blk 0 /\ enable_kv_cache_events p = events /\
    kv_event_queue p = [].
Proof.
  intros Hn. unfold pool_init. rewrite (proj2 (Z.ltb_lt _ _)) by done.
  set (bs := Blk <$> seq 0 (Z.to_nat n)). set (xs := Blk <$> seq 1 (Z.to_nat n - 1)).
  assert (Hbs : bs = Blk 0 :: xs).
  { unfold bs, xs. by replace (Z.to_nat n) with (S (Z.to_nat n - 1)) at 1 by lia. }
  assert (Hxn : Blk 0 ∉ xs).
  { unfold xs. intros (i & ? & Hi)%list_elem_of_fmap. apply elem_of_seq in Hi. simplify_eq. lia. }
  assert (Hnd : NoDup (nodes bs)).
  { unfold nodes, bs. apply NoDup_cons. split.
    - rewrite elem_of_app. intros [(? & ? & _)%list_elem_of_fmap|?%list_elem_of_singleton]; done.
    - apply NoDup_app. split; [|split; [|apply NoDup_singleton]].
      + apply NoDup_fmap_2; [intros ?? [=]; done|apply NoDup_seq].
      + intros x (? & -> & _)%list_elem_of_fmap. by intros ?%list_elem_of_singleton. }
  pose proof (fresh_blocks_fresh bs) as Hfresh.
  assert (Hw : wp (queue_init bs ;; null ← popleft; b ← deref null;
            modify (on_store (insert null (with_is_null true b))) ;; mret null)
     (fun r q => r = Blk 0 /\ queue_rep q xs /\
        forall b, meta <$> store q !! b =
          if is_fake b || bool_decide (b ∈ bs) then Some (0%Z, None, bool_decide (b = Blk 0))
          else None)
     (mkQueue (fresh_blocks bs) 0)).
  { apply wp_bind. eapply wp_mono; [by apply queue_init_rep|]. intros _ q1 [R1 Hm1].
    rewrite Hbs in R1. apply wp_bind. eapply wp_mono; [apply popleft_rep; exact R1|].
    intros r q2 (-> & R2 & Hm2). apply wp_bind.
    assert (Hm : forall b, meta <$> store q2 !! b =
      if is_fake b || bool_decide (b ∈ bs) then Some (0%Z, None, false) else None).
    { intros b. rewrite (Hm2 b), Hm1. destruct (is_fake b); [done|]. cbn [orb store].
      case_bool_decide; [by rewrite fresh_blocks_lookup|by rewrite fresh_blocks_lookup_None]. }
    pose proof (Hm (Blk 0)) as Hm0. rewrite bool_decide_eq_true_2 in Hm0 by (rewrite Hbs; set_solver).
    destruct (store q2 !! Blk 0) as [k|] eqn:Ek; [simpl in Hm0; injection Hm0 as E1 E2 E3|done].
    unfold deref. apply wp_bind, wp_gets. eapply wp_of_option; [exact Ek|].
    apply wp_bind, wp_modify, wp_ret. split; [done|]. split; [by eapply rep_update|].
    intros b. simpl. destruct (decide (b = Blk 0)) as [->|Hb0].
    - rewrite lookup_insert_eq. rewrite (bool_decide_eq_true_2 (Blk 0 ∈ bs)) by (rewrite Hbs; set_solver).
      simpl. unfold meta. simpl. by rewrite E1, E2.
    - rewrite lookup_insert_ne, (bool_decide_eq_false_2 (b = Blk 0)) by done. auto. }
  apply wp_returns in Hw as (r & q & Hrun & -> & R & Hm). rewrite Hrun. eexists. split; [reflexivity|].
  split; [|done].
  assert (Hnone : forall b, hash_of (store q) b = None).
  { intros b. specialize (Hm b). unfold hash_of. destruct (store q !! b) as [k|]; [|done].
    simpl in *. destruct (is_fake b || bool_decide (b ∈ bs)); [|done].
    by injection Hm as E1 E2 E3. }
  constructor; simpl; try done.
  - fold bs. rewrite Hbs. set_solver.
  - fold bs. intros b Hb. specialize (Hm b). rewrite (bool_decide_eq_true_2 (b ∈ bs)), orb_true_r in Hm by done.
    destruct (store q !! b) as [k|]; [|done]. simpl in Hm. injection Hm as E1 E2 E3. exists k. done.
  - fold bs. rewrite Hbs. intros b Hb. split; [set_solver|]. intros ->. done.
  - fold bs. rewrite Hbs. intros b Hb Hbn. set_solver.
  - set_solver.
  - split; [apply map_ok_empty|]. intros b key. rewrite Hnone. unfold map_refs.
    rewrite lookup_empty. set_solver.
  - intros b key. by rewrite Hnone.
Qed.

(** ** Lookups *)

(** [key] is the packed key of [h] in group [g]. *)
Definition pack (h : bytes) (g : Z) : bytes :=
  match make_block_hash_with_group_id h g with Ok k => k | Err _ => [] end.

Definition group_ok (g : Z) : Prop := (0 <= g < 2 ^ 32)%Z.

Lemma pack_ok h g : group_ok g -> make_block_hash_with_group_id h g = Ok (pack h g).
Proof.
  intros [H1 H2]. unfold pack, make_block_hash_with_group_id, to_bytes4.
  rewrite (proj2 (Z.leb_le _ _)), (proj2 (Z.ltb_lt _ _)) by done. done.
Qed.

(** A hit returns, for every group, a block that carries the hash in that
    group; a miss means that for some group no block does. *)
Lemma get_cached_block_spec p xs L H h gs :
  pool_inv p xs L H -> Forall group_ok gs ->
  wp (get_cached_block h gs) (fun r p' => p' = p /\
      match r with
      | Some bs => Forall2 (fun g b => hash_of (kstore p) b = Some (pack h g)) gs bs
      | None => exists g, g ∈ gs /\ forall b, hash_of (kstore p) b <> Some (pack h g)
      end) p.
Proof.
  intros I. induction gs as [|g gs IH]; intros Hg.
  { apply wp_ret. split; [done|constructor]. }
  apply Forall_cons in Hg as [Hg Hgs]. simpl. rewrite pack_ok by done.
  apply wp_bind, wp_ret, wp_bind, wp_gets, wp_bind. unfold wp at 1.
  rewrite get_one_block_spec by apply I. pose proof (pi_cache _ _ _ _ I) as [_ Hiff].
  destruct (map_refs (cached_block_hash_to_block p) (pack h g)) as [|b l] eqn:E; cbn [head].
  - apply wp_ret. split; [done|]. exists g. split; [set_solver|]. intros b Hb.
    apply Hiff in Hb. rewrite E in Hb. set_solver.
  - apply wp_bind. eapply wp_mono; [by apply IH|]. intros r p' [-> Hr]. apply wp_ret.
    split; [done|]. destruct r as [bs|].
    + constructor; [|done]. apply Hiff. rewrite E. set_solver.
    + destruct Hr as (g' & ? & ?). exists g'. split; [set_solver|done].
Qed.

(** ** [cache_full_blocks] *)

(** The blocks a call caches: neither null nor masked out. *)
Definition kept (null : ref) (block_mask : option (list bool)) (ib : nat * ref) : Prop :=
  ib.2 <> null /\ match block_mask with None => True | Some m => m !! ib.1 = Some true end.

#[export] Instance kept_dec null block_mask ib : Decision (kept null block_mask ib).
Proof. unfold kept. destruct block_mask; apply _. Defined.

Definition kept_hashes (null : ref) (mask : option (list bool)) (hs : list bytes)
    (l : list (nat * ref)) : list (ref * bytes) :=
  (fun ib => (ib.2, default [] (hs !! ib.1))) <$> filter (kept null mask) l.

(** What a call needs of each position it visits. *)
Definition cacheable (p : BlockPool) (mask : option (list bool)) (hs : list bytes)
    (ib : nat * ref) : Prop :=
  ib.2 ∈ blocks p /\
  (match mask with None => True | Some m => is_Some (m !! ib.1) end) /\
  (kept (null_block p) mask ib -> hash_of (kstore p) ib.2 = None /\ is_Some (hs !! ib.1)).

Lemma skipped_spec p xs L H k mask i b (Q : bool -> BlockPool -> Prop) (p0 : BlockPool) :
  pool_inv p xs L H -> kstore p !! b = Some k -> b ∈ blocks p ->
  (match mask with None => True | Some m => is_Some (m !! i) end) ->
  Q (negb (bool_decide (kept (null_block p) mask (i, b)))) p0 ->
  wp (skipped k mask i) Q p0.
Proof.
  intros I Hk Hb Hm HQ. destruct (pi_block _ _ _ _ I b Hb) as (k' & Hk' & Hn & _).
  simplify_eq. unfold skipped, kept in *. rewrite Hn. simpl in *.
  destruct (decide (b = null_block p)) as [->|Hne].
  - rewrite bool_decide_eq_true_2 by done. apply wp_ret.
    by rewrite bool_decide_eq_false_2 in HQ by tauto.
  - rewrite bool_decide_eq_false_2 by done. destruct mask as [m|].
    + destruct Hm as [v Hv]. apply wp_bind. eapply wp_of_option; [done|]. apply wp_ret.
      destruct v; simpl.
      * by rewrite bool_decide_eq_true_2 in HQ by done.
      * rewrite bool_decide_eq_false_2 in HQ; [done|]. intros [_ ?]. congruence.
    + apply wp_ret. by rewrite bool_decide_eq_true_2 in HQ by done.
Qed.

(** Caching one fresh block. *)
Lemma cache_fresh_spec p xs L H b k key :
  pool_inv p xs L H -> enable_caching p = true -> kstore p !! b = Some k -> block_hash k = None ->
  b ∈ blocks p -> b <> null_block p ->
  wp (cache_block key b)
     (fun _ p' => pool_inv p' xs L H /\ config p' = config p /\
        (forall x, hash_of (kstore p') x = if decide (x = b) then Some key else hash_of (kstore p) x) /\
        kv_event_queue p' = kv_event_queue p) p.
Proof.
  intros I Hec Hk Hh Hb Hn. unfold cache_block, set_block_hash. apply wp_bind, wp_bind. eapply wp_block_at; [done|].
  apply wp_bind, wp_assert; [by rewrite Hh|]. eapply wp_update_block; [done|]. apply wp_modify.
  assert (Hhk : hash_of (kstore p) b = None) by (unfold hash_of; by rewrite Hk).
  split; [|split; [done|split; [|done]]].
  - apply (inv_hash p xs L H b k (Some key)); try done; [|congruence].
    intros g Hg. eapply cache_ok_insert; [apply I|by eapply inv_is_blk|done|done].
  - intros x. unfold hash_of. simpl. case_decide; [subst x|].
    + by rewrite lookup_insert_eq.
    + by rewrite lookup_insert_ne.
Qed.

Lemma cache_loop_spec hs g mask xs L H : forall l p acc,
  pool_inv p xs L H -> enable_caching p = true -> group_ok g ->
  Forall (cacheable p mask hs) l -> NoDup (snd <$> filter (kept (null_block p) mask) l) ->
  wp (for_fold (cache_one use_int hs g mask) l acc) (fun r p' =>
      pool_inv p' xs L H /\ config p' = config p /\
      r = acc ++ (maybe_convert_block_hash use_int <$> (kept_hashes (null_block p) mask hs l).*2) /\
      (forall x, hash_of (kstore p') x =
         ((fun h => pack h g) <$> (list_to_map (kept_hashes (null_block p) mask hs l) : gmap ref bytes) !! x)
         ∪ hash_of (kstore p) x) /\
      kv_event_queue p' = kv_event_queue p) p.
Proof.
  induction l as [|[i b] l IH]; intros p acc I Hec Hg Hl Hnd.
  { apply wp_ret. split; [done|]. split; [done|]. split; [by rewrite app_nil_r|]. split; [|done].
    intros x. simpl. rewrite lookup_empty. by destruct (hash_of _ x). }
  apply Forall_cons in Hl as [(Hb & Hm & Hkept) Hl]. simpl in Hb, Hm.
  destruct (pi_block _ _ _ _ I b Hb) as (k & Hk & Hnull & _).
  cbn [for_fold]. unfold cache_one at 1. apply wp_bind, wp_bind. cbn [fst snd].
  eapply wp_block_at; [done|]. apply wp_bind. eapply skipped_spec; [done..|].
  destruct (decide (kept (null_block p) mask (i, b))) as [Hkp|Hkp].
  2: { rewrite bool_decide_eq_false_2 by done. cbn [negb]. apply wp_ret.
       unfold kept_hashes. rewrite filter_cons_False in Hnd |- * by done. by apply IH. }
  rewrite bool_decide_eq_true_2 by done. cbn [negb].
  destruct (Hkept Hkp) as [Hnone [h Hh]]. simpl in Hh, Hnone. pose proof Hkp as [Hbn _]. simpl in Hbn.
  assert (Hkh : block_hash k = None) by (unfold hash_of in Hnone; by rewrite Hk in Hnone).
  rewrite filter_cons_True in Hnd by done. apply NoDup_cons in Hnd as [Hbl Hnd].
  apply wp_bind, wp_assert; [by rewrite Hkh|]. apply wp_bind. eapply wp_of_option; [done|].
  rewrite pack_ok by done. apply wp_bind, wp_ret.
  apply wp_bind. eapply wp_mono; [by eapply cache_fresh_spec|]. intros _ p1 (I1 & Hcfg & Hhash & Hq). apply wp_ret.
  pose proof (config_eq _ _ Hcfg) as (_ & E2 & _ & E4 & E5 & _).
  eapply wp_mono; [apply IH|].
  - done.
  - congruence.
  - done.
  - rewrite Forall_forall in Hl |- *. intros [j c] Hin. destruct (Hl _ Hin) as (H1 & H2 & H3).
    unfold cacheable. rewrite E4, E5. split; [done|]. split; [done|]. intros Hc.
    destruct (H3 Hc). split; [|done]. rewrite Hhash, decide_False; [done|].
    simpl. intros ->. apply Hbl, list_elem_of_fmap. exists (j, b). split; [done|].
    by apply list_elem_of_filter.
  - by rewrite E5.
  - intros r p' (I' & Hcfg' & -> & Hhash' & Hq'). rewrite E5 in *.
    unfold kept_hashes in *. rewrite filter_cons_True by done. rewrite fmap_cons. cbn [fst snd].
    rewrite Hh. cbn [default]. split; [done|]. split; [congruence|].
    split; [by rewrite <- app_assoc|]. split; [|congruence].
    intros x. rewrite Hhash', Hhash. cbn [list_to_map foldr fst snd]. simpl.
    destruct (decide (x = b)) as [->|Hx].
    + rewrite lookup_insert_eq, Hnone. rewrite not_elem_of_list_to_map_1; [done|].
      intros ([c h'] & Hc & Hin)%list_elem_of_fmap. simpl in Hc. subst c.
      apply list_elem_of_fmap in Hin as ([j c] & [= -> ->] & Hin).
      apply Hbl, list_elem_of_fmap. by exists (j, c).
    + by rewrite lookup_insert_ne.
Qed.

End specs.

Section caching.
Context (use_int : bool) (sha256 : bytes -> bytes).

(** *** The event of a [cache_full_blocks] call *)

Lemma mm_scan_nonneg st e fs : forall idx keys,
  (0 <= idx)%Z -> (0 <= (mm_scan st e fs idx keys).2)%Z.
Proof.
  induction fs as [|f fs IH]; intros idx keys Hi; simpl; [done|].
  repeat case_match; simpl; try done; apply IH; lia.
Qed.

Lemma generate_total st e idx (r : Request) : (0 <= idx)%Z ->
  wp (generate_block_hash_extra_keys sha256 st e idx) (fun res r' =>
      (0 <= res.2)%Z /\ same_but_cache r r') r.
Proof.
  intros Hi. unfold generate_block_hash_extra_keys. apply wp_bind, wp_get, wp_bind.
  assert (Hmm : wp (gen_mm_extra_hash_keys r st e idx) (fun res r' => (0 <= res.2)%Z /\ r' = r) r).
  { unfold gen_mm_extra_hash_keys. destruct (last (mm_features r)); [|by apply wp_ret].
    case_match; [by apply wp_ret|]. rewrite (proj2 (Z.ltb_ge _ _)) by done.
    apply wp_bind, wp_ret, wp_ret. split; [by apply mm_scan_nonneg|done]. }
  eapply wp_mono; [exact Hmm|]. intros mm r1 [Hm ->]. apply wp_bind.
  assert (Hpe : wp (gen_prompt_embeds_extra_hash_keys sha256 st e) (fun _ r' => same_but_cache r r') r).
  { unfold gen_prompt_embeds_extra_hash_keys. apply wp_bind, wp_get.
    destruct (prompt_embeds r); [|apply wp_ret, same_but_cache_refl].
    destruct (_ !! _); [apply wp_ret, same_but_cache_refl|].
    apply wp_bind, wp_modify, wp_ret. by eexists. }
  eapply wp_mono; [exact Hpe|]. intros l r2 Hs. case_match; by apply wp_ret.
Qed.

Lemma extra_loop_spec blks bsz nc mask xs L H : forall l s acc,
  pool_inv s.2 xs L H -> (0 <= acc.2)%Z ->
  (forall i, i ∈ l -> exists b, blks !! i = Some b /\ b ∈ blocks s.2 /\
     match mask with None => True | Some m => is_Some (m !! (i - nc)) end) ->
  wp (for_fold (extra_one sha256 blks bsz nc mask) l acc) (fun r s' =>
      s'.2 = s.2 /\ same_but_cache s.1 s'.1 /\
      length r.1 = length acc.1 + length (filter (kept (null_block s.2) mask)
          ((fun i => (i - nc, default FakeHead (blks !! i))) <$> l))) s.
Proof.
  induction l as [|i l IH]; intros s acc I Hacc Hl.
  { apply wp_ret. split; [done|]. split; [apply same_but_cache_refl|simpl; lia]. }
  destruct (Hl i) as (b & Hbi & Hb & Hm); [set_solver|].
  destruct (pi_block _ _ _ _ I b Hb) as (k & Hk & _).
  cbn [for_fold]. unfold extra_one at 1. apply wp_bind, wp_bind. eapply wp_of_option; [done|].
  apply wp_bind, wp_zoom. eapply wp_block_at; [done|]. apply wp_bind.
  rewrite fmap_cons, Hbi. cbn [default].
  assert (Hsk : forall Q, Q (negb (bool_decide (kept (null_block s.2) mask (i - nc, b)))) s ->
            wp (skipped (S := Request * BlockPool) k mask (i - nc)) Q s).
  { intros Q HQ. pose proof (skipped_spec s.2 xs L H k mask (i - nc) b
      (fun v _ => Q v s) s.2 I Hk Hb Hm HQ) as Hw. clear - Hw.
    unfold skipped, wp in *. destruct (is_null k); [done|]. destruct mask as [m|]; [|done].
    unfold mbind, M_bind in *. by destruct (m !! (i - nc)). }
  destruct s as [rq p0]. simpl in *. apply Hsk. clear Hsk.
  assert (Hl' : forall i0, i0 ∈ l -> exists b, blks !! i0 = Some b /\ b ∈ blocks p0 /\
     match mask with None => True | Some m => is_Some (m !! (i0 - nc)) end).
  { intros. apply Hl. set_solver. }
  destruct (decide (kept (null_block p0) mask (i - nc, b))) as [Hkp|Hkp].
  - rewrite bool_decide_eq_true_2 by done. cbn [negb]. apply wp_bind, wp_zoom.
    eapply wp_mono; [by apply generate_total|]. intros ek r' [Hek Hs]. apply wp_ret. simpl.
    eapply wp_mono; [apply (IH (r', p0)); done|]. simpl. intros r s' (-> & Hs' & Hlen).
    split; [done|]. split; [by eapply same_but_cache_trans|].
    rewrite filter_cons_True by done. rewrite Hlen, length_app. simpl. lia.
  - rewrite bool_decide_eq_false_2 by done. cbn [negb]. apply wp_ret.
    eapply wp_mono; [apply (IH (rq, p0)); done|]. simpl. intros r s' (-> & Hs' & Hlen).
    split; [done|]. split; [done|]. by rewrite filter_cons_False.
Qed.

Lemma enumerate_slice (blks : list ref) nc nf : nf <= length blks -> nc <= nf ->
  (fun i => (i - nc, default FakeHead (blks !! i))) <$> seq nc (nf - nc)
  = enumerate (slice nc nf blks).
Proof.
  intros Hle Hn. apply list_eq. intros j. unfold enumerate. rewrite length_slice by done.
  rewrite list_lookup_fmap. destruct (decide (j < nf - nc)) as [Hj|Hj].
  - rewrite lookup_seq_lt by done. simpl.
    destruct (lookup_lt_is_Some_2 blks (nc + j)) as [b Hb]; [lia|]. rewrite Hb. simpl.
    symmetry. apply lookup_zip_with_Some. exists j, b.
    split; [f_equal; lia|]. split; [by rewrite lookup_seq_lt|].
    unfold slice. rewrite lookup_take_lt by done. by rewrite lookup_drop.
  - rewrite lookup_seq_ge by lia. symmetry. apply lookup_ge_None.
    rewrite length_zip_with, length_seq, length_slice by done. lia.
Qed.

Lemma elem_of_enumerate {A} (l : list A) i x : (i, x) ∈ enumerate l <-> l !! i = Some x.
Proof.
  unfold enumerate. rewrite list_elem_of_lookup. split.
  - intros [j Hj]. apply lookup_zip_with_Some in Hj as (a & b & [= -> ->] & Ha & Hb).
    apply lookup_seq in Ha as [-> _]. done.
  - intros Hi. exists i. apply lookup_zip_with_Some. exists i, x. split; [done|].
    split; [|done]. rewrite lookup_seq_lt; [done|]. by eapply lookup_lt_Some.
Qed.

(** What a call of [cache_full_blocks] relies on: full blocks of the pool with
    hashes at hand, the ones to cache distinct and without a hash. *)
Record cache_pre (p : BlockPool) (r : Request) (blks : list ref) (nc nf : nat)
    (block_size g : Z) (mask : option (list bool)) (hs : list bytes) : Prop := {
  cp_caching : enable_caching p = true;
  cp_group : group_ok g;
  cp_hashes : exists hl, hashes_at (hash_block_size p) block_size (block_hashes r) = Ok hl /\
                hs = hashes_from hl (Z.of_nat nc);
  cp_blocks : nf <= length blks;
  cp_enough : nf <= length (block_hashes r);
  cp_mask : match mask with None => True | Some m => length m = nf - nc end;
  cp_each : Forall (cacheable p mask hs) (enumerate (slice nc nf blks));
  cp_nodup : NoDup (snd <$> filter (kept (null_block p) mask) (enumerate (slice nc nf blks)))
}.

(** The blocks a call caches, with their hashes. *)
Definition cached_by (p : BlockPool) (blks : list ref) (nc nf : nat) (mask : option (list bool))
    (hs : list bytes) : list (ref * bytes) :=
  kept_hashes (null_block p) mask hs (enumerate (slice nc nf blks)).

Lemma cache_full_blocks_spec r p xs L H blks nc nf block_size g mask hs :
  pool_inv p xs L H -> nc < nf -> cache_pre p r blks nc nf block_size g mask hs ->
  wp (cache_full_blocks use_int sha256 blks nc nf block_size g mask) (fun _ s' =>
      pool_inv s'.2 xs L H /\ config s'.2 = config p /\ same_but_cache r s'.1 /\
      (forall x, hash_of (kstore s'.2) x =
         ((fun h => pack h g) <$>
            (list_to_map (cached_by p blks nc nf mask hs) : gmap ref bytes) !! x)
         ∪ hash_of (kstore p) x) /\
      (if enable_kv_cache_events p then exists e,
         kv_event_queue s'.2 = kv_event_queue p ++ [EvStored e] /\
         bs_block_hashes e = maybe_convert_block_hash use_int <$> (cached_by p blks nc nf mask hs).*2 /\
         bs_group_idx e = g /\
         length (default [] (bs_extra_keys e)) = length (bs_block_hashes e)
       else kv_event_queue s'.2 = kv_event_queue p)) (r, p).
Proof.
  intros I Hn [Hec Hg (hl & Hhl & ->) Hbl Hen Hmk Hl Hnd].
  unfold cache_full_blocks. rewrite decide_False by lia. apply wp_bind, wp_get. cbn [fst snd].
  apply wp_bind, wp_assert; [lia|]. apply wp_bind, wp_assert.
  { destruct mask; [|done]. apply Nat.eqb_eq. by rewrite length_slice. }
  rewrite Hhl. apply wp_bind, wp_ret, wp_bind, wp_zoom. cbn [fst snd].
  eapply wp_mono; [by apply (cache_loop_spec use_int _ g mask xs L H)|].
  intros nh p1 (I1 & Hcfg & -> & Hhash & Hq).
  pose proof (config_eq _ _ Hcfg) as (_ & _ & _ & E4 & E5 & E6).
  destruct (enable_kv_cache_events p) eqn:Ee; cbn [negb].
  2: { apply wp_ret. split; [done|]. split; [done|]. split; [apply same_but_cache_refl|done]. }
  apply wp_bind.
  assert (Hpar : wp (if decide (nc = 0) then mret None
         else h ← hashes_get hl (Z.of_nat nc - 1); mret (Some (maybe_convert_block_hash use_int h)))
     (fun _ s' => s' = (r, p1)) (r, p1)).
  { case_decide; [by apply wp_ret|]. apply wp_bind. destruct hl as [l|l]; simpl.
    - unfold hashes_at in Hhl. destruct (_ =? _)%Z; simplify_eq; [|by destruct (hash_list_init _ _ _)].
      rewrite py_index_nonneg by lia.
      destruct (lookup_lt_is_Some_2 (block_hashes r) (Z.to_nat (Z.of_nat nc - 1))) as [h Hh]; [lia|].
      eapply wp_of_option; [done|]. by apply wp_ret.
    - by apply wp_ret, wp_ret. }
  eapply wp_mono; [exact Hpar|]. intros par s' ->. apply wp_bind.
  eapply wp_mono; [apply (extra_loop_spec blks block_size nc mask xs L H); [done|done|]|].
  { intros i Hi%elem_of_seq. simpl.
    assert (Hin : (i - nc, default FakeHead (blks !! i)) ∈ enumerate (slice nc nf blks)).
    { rewrite <- enumerate_slice by lia. apply list_elem_of_fmap. exists i.
      split; [done|]. apply elem_of_seq. lia. }
    rewrite Forall_forall in Hl. destruct (Hl _ Hin) as (H1 & H2 & _). simpl in *.
    destruct (lookup_lt_is_Some_2 blks i) as [b Hb]; [lia|]. rewrite Hb in H1. exists b.
    rewrite E4. done. }
  intros ek s' (Hs2 & Hs1 & Hlen). simpl in *. apply wp_zoom, wp_modify. simpl. rewrite Hs2.
  split; [by apply inv_events|]. split; [unfold config in *; simpl; congruence|].
  split; [done|]. split; [done|]. eexists. split; [by rewrite Hq|]. simpl.
  split; [done|]. split; [done|]. rewrite length_fmap, length_fmap.
  unfold cached_by, kept_hashes. rewrite length_fmap. rewrite enumerate_slice, E5 in Hlen by lia.
  by destruct ek.1.
Qed.

(** *** Whatever the arguments, a call that returns has kept the invariant *)

Lemma cache_one_wlp hs g mask xs L H p acc ib :
  pool_inv p xs L H -> enable_caching p = true -> group_ok g -> ib.2 ∈ blocks p ->
  wlp (cache_one use_int hs g mask acc ib) (fun _ p' =>
      pool_inv p' xs L H /\ config p' = config p) p.
Proof.
  intros I Hec Hg Hb. destruct (pi_block _ _ _ _ I _ Hb) as (k & Hk & Hn & _).
  unfold cache_one. apply wpx_bind, wpx_wp. eapply wp_block_at; [done|].
  apply wpx_bind, (wlp_mono _ (fun v p' => p' = p /\ (v = false -> is_null k = false))).
  { unfold skipped. destruct (is_null k); [by apply wpx_ret|]. destruct mask as [mk|]; [|by apply wpx_ret].
    apply wpx_bind, wlp_of_option. intros v _. by apply wpx_ret. }
  intros v p' (-> & Hv). destruct v; [by apply wpx_ret|]. rewrite Hv in Hn by done.
  apply wpx_bind, wlp_assert. intros Hh. destruct (block_hash k) eqn:Ek; [done|].
  apply wpx_bind, wlp_of_option. intros h _. rewrite pack_ok by done. apply wpx_bind, wpx_ret.
  apply wpx_bind, wpx_wp. eapply wp_mono; [eapply (cache_fresh_spec p xs L H); try done|].
  - intros Heq. by rewrite bool_decide_eq_true_2 in Hn.
  - intros _ p1 (I1 & Hc & _). by apply wpx_ret.
Qed.

Lemma cache_full_blocks_wlp r p xs L H blks nc nf block_size g mask :
  pool_inv p xs L H -> enable_caching p = true -> group_ok g ->
  (forall b, b ∈ blks -> b ∈ blocks p) ->
  wlp (cache_full_blocks use_int sha256 blks nc nf block_size g mask) (fun _ s' =>
      pool_inv s'.2 xs L H /\ config s'.2 = config p) (r, p).
Proof.
  intros I Hec Hg Hb. unfold cache_full_blocks. case_decide; [by apply wpx_ret|].
  apply wpx_bind, wpx_get. cbn [fst snd]. apply wpx_bind, wlp_assert. intros _.
  apply wpx_bind, wlp_assert. intros _.
  destruct (hashes_at _ _ _) as [hl|e]; [|by apply wpx_bind, wpx_raise]. apply wpx_bind, wpx_ret.
  apply wpx_bind, wpx_zoom. cbn [fst snd].
  apply (wlp_mono _ (fun _ p' => pool_inv p' xs L H /\ config p' = config p)).
  { apply (wlp_for_fold (fun _ _ p' => pool_inv p' xs L H /\ config p' = config p)); [done|].
    intros [i b] l2 acc p' Hin [I' Hc]. apply elem_of_enumerate in Hin.
    pose proof (config_eq _ _ Hc) as (_ & E2 & _ & E4 & _ & _).
    eapply wlp_mono; [apply cache_one_wlp; [exact I'|congruence|done|]|].
    - rewrite E4. apply Hb. simpl. apply list_elem_of_lookup_2 in Hin. unfold slice in Hin.
      rewrite <- (take_drop nc blks). apply elem_of_app. right.
      rewrite <- (take_drop (nf - nc) (drop nc blks)). set_solver.
    - intros _ p'' [I'' Hc']. split; [done|congruence]. }
  intros nh p1 [I1 Hc1]. case_match; [by apply wpx_ret|].
  apply wpx_bind, (wlp_mono _ (fun _ s' => s' = (r, p1))).
  { case_decide; [by apply wpx_ret|]. apply wpx_bind. destruct hl; simpl.
    - apply wlp_of_option. intros. by apply wpx_ret.
    - by apply wpx_ret, wpx_ret. }
  intros par s' ->. apply wpx_bind, (wlp_mono _ (fun _ s' => s'.2 = p1)).
  { apply (wlp_for_fold (fun _ _ (s' : Request * BlockPool) => s'.2 = p1)); [done|].
    intros i l2 acc [r' p'] _ Hp. simpl in Hp. subst p'. unfold extra_one.
    apply wpx_bind, wlp_of_option. intros b _. apply wpx_bind, wpx_zoom. cbn [snd fst].
    unfold wpx at 1, block_at, on_queue, zoom, deref, gets, of_option, mbind, M_bind.
    destruct (store _ !! b) as [k|]; [|done]. simpl.
    replace (set_queue (free_block_queue p1) p1) with p1 by (by destruct p1).
    change (wlp (skipped k mask (i - nc) ≫= (fun skip : bool => if skip then mret acc
       else ek ← zoom fst (fun r s => (r, s.2)) (generate_block_hash_extra_keys sha256
                (Z.of_nat i * block_size) (Z.of_nat i * block_size + block_size) acc.2);
            mret (acc.1 ++ [ek.1], ek.2)))
      (fun _ (s' : Request * BlockPool) => s'.2 = p1) (r', p1)).
    apply wpx_bind, (wlp_mono _ (fun _ s' => s' = (r', p1))).
    { unfold skipped. destruct (is_null k); [by apply wpx_ret|].
      destruct mask as [mk|]; [|by apply wpx_ret].
      apply wpx_bind, wlp_of_option. intros v _. by apply wpx_ret. }
    intros [] s' ->; [by apply wpx_ret|]. apply wpx_bind, wpx_zoom. cbn [fst snd].
    unfold wpx. by destruct (generate_block_hash_extra_keys _ _ _ _ _) as [[ek|] r2]. }
  intros ek [r2 p2] Hp2. simpl in Hp2. subst p2. apply wpx_zoom, wpx_modify. cbn [fst snd].
  split; [by apply inv_events|done].
Qed.

(** ** The pool and its users as a transition system

    The users hold a multiset [H] of references: they take the blocks they are
    given or touch, give back references they hold (each block at most once per
    call), and cache full blocks of requests. *)

Inductive pool_step : BlockPool * list ref -> BlockPool * list ref -> Prop :=
| StepNew p H n ret p' :
    (0 <= n)%Z -> get_new_blocks use_int n p = (Ok ret, p') -> pool_step (p, H) (p', ret ++ H)
| StepTouch p H bs p' :
    (forall b, b ∈ bs -> b ∈ blocks p) -> touch bs p = (Ok tt, p') ->
    pool_step (p, H) (p', bs ++ H)
| StepFree p H bs H' prepend p' :
    H ≡ₚ bs ++ H' -> NoDup (filter (fun b => b <> null_block p) bs) ->
    free_blocks bs prepend p = (Ok tt, p') -> pool_step (p, H) (p', H')
| StepCache p H r blks nc nf block_size g mask hs s' :
    nc < nf -> cache_pre p r blks nc nf block_size g mask hs ->
    cache_full_blocks use_int sha256 blks nc nf block_size g mask (r, p) = (Ok tt, s') ->
    pool_step (p, H) (s'.2, H)
| StepEvict p H ids p' :
    (forall i, i ∈ ids -> (0 <= i < zlen (blocks p))%Z) ->
    evict_blocks use_int ids p = (Ok tt, p') -> pool_step (p, H) (p', H)
| StepReset p H res p' :
    reset_prefix_cache p = (Ok res, p') -> pool_step (p, H) (p', H)
| StepEvents p H evs p' :
    take_events p = (Ok evs, p') -> pool_step (p, H) (p', H).

Definition good (s : BlockPool * list ref) : Prop := exists xs, pool_inv s.1 xs [] s.2.

Lemma good_step s s' : pool_step s s' -> good s -> good s'.
Proof.
  intros Hs [xs I]. destruct Hs; simpl in *.
  - destruct (decide (zlen xs < n)%Z) as [Hlt|Hge].
    { rewrite (get_new_blocks_too_many use_int p xs [] H) in * by done. simplify_eq. }
    destruct (take_app_drop_split (Z.to_nat n) xs) as (ys & zs & -> & Hl & _); [lia|].
    replace n with (zlen ys) in * by lia.
    pose proof (wp_run _ _ _ _ _ H1 (get_new_blocks_spec use_int p ys zs H I)) as (-> & I' & _).
    by exists zs.
  - pose proof (wp_run _ _ _ _ _ H1 (touch_spec p xs H bs I H0)) as (I' & _). by eexists.
  - pose proof (wp_run _ _ _ _ _ H2 (free_blocks_spec p xs H bs H' prepend I H0 H1)) as (I' & _).
    by eexists.
  - pose proof (wp_run _ _ _ _ _ H2
      (cache_full_blocks_spec _ _ _ _ _ _ _ _ _ _ _ _ I H0 H1)) as (I' & _).
    by eexists.
  - pose proof (wp_run _ _ _ _ _ H1 (evict_blocks_spec use_int p xs [] H ids I H0)) as (I' & _).
    by eexists.
  - pose proof (wp_run _ _ _ _ _ H0 (reset_prefix_cache_spec p xs H I)) as (I' & _). by eexists.
  - unfold take_events, get, modify, mbind, M_bind, mret, M_ret in H0.
    destruct (enable_kv_cache_events p); simplify_eq; [|by exists xs].
    exists xs. by apply inv_events.
Qed.

Inductive reachable (n : Z) (caching : bool) (hbs : Z) (events : bool) :
    BlockPool * list ref -> Prop :=
| ReachInit p : pool_init n caching hbs events = Ok p -> reachable n caching hbs events (p, [])
| ReachStep s s' : reachable n caching hbs events s -> pool_step s s' ->
    reachable n caching hbs events s'.

Lemma reachable_good n caching hbs events s : reachable n caching hbs events s -> good s.
Proof.
  induction 1 as [p Hp|s s' _ IH Hs]; [|by eapply good_step].
  destruct (decide (0 < n)%Z) as [Hn|Hn].
  - destruct (pool_init_spec n caching hbs events Hn) as (p' & Hp' & I & _).
    rewrite Hp in Hp'. simplify_eq. by eexists.
  - unfold pool_init in Hp. rewrite (proj2 (Z.ltb_ge _ _)) in Hp by lia. done.
Qed.
End caching.

(** ** The theorems *)

Definition ref_cnt_of (p : BlockPool) (b : ref) : option Z := ref_cnt <$> kstore p !! b.

(** C23. Reference-count safety: in every state the pool can reach, whatever its
    users do within their rights, the reference count of a block is the number
    of references to it that are held; the free list has exactly the blocks
    nobody holds, once each, never the null block, and the counter counts it;
    and a block is in the hash map under a key exactly when it carries that
    key, so no block is handed out as free while in use and no stale hash can
    be hit. *)
Theorem block_pool_safety use_int sha256 n caching hbs events p H :
  reachable use_int sha256 n caching hbs events (p, H) ->
  exists xs,
    get_all_free_blocks (S (length xs)) (free_block_queue p) = (Ok xs, free_block_queue p) /\
    num_free_blocks (free_block_queue p) = zlen xs /\ NoDup xs /\ null_block p ∉ xs /\
    (forall b, b ∈ blocks p -> b <> null_block p ->
       ref_cnt_of p b = Some (Z.of_nat (count b H)) /\ (b ∈ xs <-> b ∉ H)) /\
    (forall b key, b ∈ map_refs (cached_block_hash_to_block p) key <->
       kstore p !! b ≫= block_hash = Some key).
Proof.
  intros Hr. destruct (reachable_good _ _ _ _ _ _ _ Hr) as [xs I]. simpl in I. exists xs.
  destruct (wp_returns _ _ _ (get_all_free_blocks_rep _ xs (S (length xs)) (pi_rep _ _ _ _ I) ltac:(lia)))
    as (a & q' & E & -> & ->).
  split; [done|]. split; [apply I|]. split; [apply (inv_nodup I)|].
  split; [intros Hn; by apply (pi_free _ _ _ _ I) in Hn as [_ ?]|]. split.
  - intros b Hb Hn. destruct (pi_block _ _ _ _ I b Hb) as (k & Hk & _ & Hrc).
    unfold ref_cnt_of. rewrite Hk. simpl. rewrite Hrc by done. split; [done|].
    rewrite (pi_free_iff _ _ _ _ I) by done. rewrite (count_pos b H).
    split; [intros [? _]; lia|]. intros. split; [lia|set_solver].
  - apply (co_iff _ _ (pi_cache _ _ _ _ I)).
Qed.

Lemma block_pool_safety_witness : exists p,
  reachable false id 4 true 16 false (p, [Blk 1; Blk 2]) /\
  ref_cnt_of p (Blk 1) = Some 1%Z /\ ref_cnt_of p (Blk 3) = Some 0%Z.
Proof.
  destruct (pool_init_spec 4 true 16 false ltac:(lia)) as (p & Hp & I & _).
  destruct (wp_returns _ _ _ (get_new_blocks_spec false p [Blk 1; Blk 2] [Blk 3] [] I))
    as (ret & p' & Hrun & -> & I' & Hcfg & _).
  assert (Hr : reachable false id 4 true 16 false (p', [Blk 1; Blk 2])).
  { eapply ReachStep; [by apply ReachInit|]. by apply (StepNew false id p [] 2 [Blk 1; Blk 2]). }
  exists p'. split; [exact Hr|].
  destruct (block_pool_safety _ _ _ _ _ _ _ _ Hr) as (xs & _ & _ & _ & _ & Hb & _).
  apply config_eq in Hcfg as (_ & _ & _ & E4 & E5 & _).
  assert (Hn : null_block p' = Blk 0 /\ blocks p' = [Blk 0; Blk 1; Blk 2; Blk 3]).
  { rewrite E4, E5. revert Hp. vm_compute. by intros [= <-]. }
  destruct Hn as [Hn Hbl]. rewrite Hn, Hbl in Hb.
  split; [apply (Hb (Blk 1))|apply (Hb (Blk 3))]; done || set_solver.
Defined.

(** Allocation: [get_new_blocks n] either raises ValueError and changes
    nothing, exactly when fewer than [n] blocks are free, or returns [n]
    distinct blocks that nobody held, from the front of the free list, with one
    reference and no block hash. *)
Theorem get_new_blocks_fresh use_int p xs H n :
  pool_inv p xs [] H -> (0 <= n)%Z ->
  match get_new_blocks use_int n p with
  | (Ok ret, p') =>
      (n <= zlen xs)%Z /\ ret = take (Z.to_nat n) xs /\ NoDup ret /\
      (forall b, b ∈ ret -> b ∈ blocks p /\ b <> null_block p /\ b ∉ H /\
         ref_cnt_of p' b = Some 1%Z /\ hash_of (kstore p') b = None) /\
      pool_inv p' (drop (Z.to_nat n) xs) [] (ret ++ H)
  | (Err e, p') => e = ValueError /\ p' = p /\ (zlen xs < n)%Z
  end.
Proof.
  intros I Hn. destruct (decide (zlen xs < n)%Z) as [Hlt|Hge].
  { by rewrite (get_new_blocks_too_many use_int p xs [] H). }
  destruct (take_app_drop_split (Z.to_nat n) xs) as (ys & zs & -> & Hl & Hy & Hz); [lia|].
  rewrite <- Hy, <- Hz.
  pose proof (get_new_blocks_spec use_int p ys zs H I) as Hw. replace (zlen ys) with n in Hw by lia.
  unfold wp in Hw. destruct (get_new_blocks use_int n p) as [[ret|] p']; [|done].
  destruct Hw as (-> & I' & Hcfg & Hev). apply config_eq in Hcfg as (_ & _ & _ & E4 & E5 & _).
  pose proof (inv_nodup I) as Hnd. apply NoDup_app in Hnd as (Hnd & _ & _).
  split; [lia|]. split; [done|]. split; [done|]. split; [|done].
  intros b Hb. destruct (pi_free _ _ _ _ I b) as [Hbb Hbn]; [set_solver|].
  assert (Hc : count b H = 0).
  { apply (pi_free_iff _ _ _ _ I b); [done|done|set_solver]. }
  split; [done|]. split; [done|]. split; [intros Hin%count_pos; lia|].
  split; [|rewrite Hev; by rewrite decide_True].
  destruct (pi_block _ _ _ _ I' b ltac:(congruence)) as (k & Hk & _ & Hrc).
  unfold ref_cnt_of. rewrite Hk. simpl. rewrite Hrc, count_app, Hc by congruence.
  pose proof (count_nodup b ys Hnd). apply count_pos in Hb. f_equal. lia.
Qed.

Lemma get_new_blocks_fresh_witness : exists p,
  pool_init 3 true 16 true = Ok p /\
  exists p', get_new_blocks false 2 p = (Ok [Blk 1; Blk 2], p') /\
             get_new_blocks false 3 p = (Err ValueError, p).
Proof.
  destruct (pool_init_spec 3 true 16 true ltac:(lia)) as (p & Hp & I & _).
  pose proof (get_new_blocks_fresh false p _ [] 2 I ltac:(lia)) as H2.
  pose proof (get_new_blocks_fresh false p _ [] 3 I ltac:(lia)) as H3.
  exists p. split; [exact Hp|].
  destruct (get_new_blocks false 2 p) as [[ret|] p2].
  2: { destruct H2 as (_ & _ & H2). simpl in H2. lia. }
  destruct (get_new_blocks false 3 p) as [[r3|] p3].
  { destruct H3 as (H3 & _). simpl in H3. lia. }
  destruct H2 as (_ & -> & _), H3 as (-> & -> & _). by exists p2.
Defined.

(** Caching makes hits: after [cache_full_blocks], looking up the hash of
    any block it cached, in its group, returns a block that carries that very
    hash; every block it did not cache keeps its hash. *)
Theorem cache_full_blocks_hits use_int sha256 r p xs H blks nc nf block_size g mask hs :
  pool_inv p xs [] H -> nc < nf -> cache_pre p r blks nc nf block_size g mask hs ->
  exists s', cache_full_blocks use_int sha256 blks nc nf block_size g mask (r, p) = (Ok tt, s') /\
    pool_inv s'.2 xs [] H /\
    (forall b h, (b, h) ∈ cached_by p blks nc nf mask hs ->
       exists b', get_cached_block h [g] s'.2 = (Ok (Some [b']), s'.2) /\
                  hash_of (kstore s'.2) b' = Some (pack h g)) /\
    (forall b, b ∉ (cached_by p blks nc nf mask hs).*1 ->
       hash_of (kstore s'.2) b = hash_of (kstore p) b).
Proof.
  intros I Hn Hpre.
  destruct (wp_returns _ _ _ (cache_full_blocks_spec use_int sha256 _ _ _ _ _ _ _ _ _ _ _ _ I Hn Hpre))
    as ([] & s' & Hrun & I' & _ & _ & Hh & _).
  exists s'. split; [done|]. split; [done|]. split.
  - intros b h Hin. pose proof (cp_group _ _ _ _ _ _ _ _ _ Hpre) as Hg.
    destruct (wp_returns _ _ _ (get_cached_block_spec s'.2 xs [] H h [g] I' ltac:(constructor; [exact Hg|constructor])))
      as (res & p' & Hget & -> & Hres).
    destruct res as [bs|].
    + apply Forall2_cons_inv_l in Hres as (b' & l & Hb' & Hl & ->).
      apply Forall2_nil_inv_l in Hl as ->. by exists b'.
    + exfalso. destruct Hres as (g' & ->%list_elem_of_singleton & Hno). apply (Hno b). rewrite Hh.
      rewrite (elem_of_list_to_map_1 _ b h); [|clear - Hpre|done].
      * simpl. by destruct (hash_of (kstore p) b).
      * unfold cached_by, kept_hashes. rewrite <- list_fmap_compose.
        rewrite (list_fmap_ext _ snd) by (by intros ? []). apply (cp_nodup _ _ _ _ _ _ _ _ _ Hpre).
  - intros b Hb. rewrite Hh, not_elem_of_list_to_map_1 by done. simpl.
    by destruct (hash_of (kstore p) b).
Qed.

(** A pool of four blocks with two of them allocated. *)
Lemma sample_pool (use_int events : bool) : exists p,
  pool_inv p [Blk 3] [] [Blk 1; Blk 2] /\
  config p = (4%Z, true, 16%Z, [Blk 0; Blk 1; Blk 2; Blk 3], Blk 0, events) /\
  hash_of (kstore p) (Blk 1) = None /\ hash_of (kstore p) (Blk 2) = None.
Proof.
  destruct (pool_init_spec 4 true 16 events ltac:(lia)) as (p & Hp & I & E1 & E2 & E3 & E5 & E6 & _).
  pose proof (pi_blocks _ _ _ _ I) as E4. rewrite E1 in E4.
  destruct (wp_returns _ _ _ (get_new_blocks_spec use_int p [Blk 1; Blk 2] [Blk 3] [] I))
    as (ret & p' & _ & -> & I' & Hcfg & Hev).
  exists p'. split; [done|]. split.
  - rewrite Hcfg. unfold config. by rewrite E1, E2, E3, E4, E5, E6.
  - rewrite !Hev. by rewrite !decide_True by set_solver.
Qed.

Definition two_hashes (r : Request) : Request :=
  set_block_hashes [[Byte.x61]; [Byte.x62]] r.

Lemma cache_full_blocks_hits_witness : exists p s' b',
  cache_full_blocks false id [Blk 1; Blk 2] 0 2 16 0 (Some [true; false])
    (two_hashes sample_request, p) = (Ok tt, s') /\
  get_cached_block [Byte.x61] [0%Z] s'.2 = (Ok (Some [b']), s'.2).
Proof.
  destruct (sample_pool false true) as (p & I & Hcfg & H1 & H2).
  unfold config in Hcfg. injection Hcfg as E1 E2 E3 E4 E5 E6.
  destruct (cache_full_blocks_hits false id (two_hashes sample_request) p [Blk 3] [Blk 1; Blk 2]
    [Blk 1; Blk 2] 0 2 16 0 (Some [true; false]) [[Byte.x61]; [Byte.x62]] I ltac:(lia))
    as (s' & Hrun & _ & Hhit & _).
  - constructor; try done.
    + eexists. rewrite E3. split; [reflexivity|done].
    + repeat constructor; cbn [snd fst]; rewrite ?E4, ?E5; try set_solver; try done; eauto.
    + rewrite E5. vm_compute. repeat constructor. set_solver.
  - destruct (Hhit (Blk 1) [Byte.x61]) as (b' & Hget & _).
    + unfold cached_by. rewrite E5. vm_compute. left.
    + exists p, s', b'. split; [exact Hrun|exact Hget].
Defined.

(** Giving blocks back: [free_blocks] drops one reference per entry; the
    blocks nobody holds any more join the free list in the order given, at its
    end, or at its front when [prepend] asks for their early reuse. No block
    loses its hash by being freed, so a later [touch] takes it off the free list
    again with its contents intact. *)
Theorem free_blocks_order p xs H bs H' prepend :
  pool_inv p xs [] H -> H ≡ₚ bs ++ H' -> NoDup (filter (fun b => b <> null_block p) bs) ->
  exists p', free_blocks bs prepend p = (Ok tt, p') /\
    pool_inv p' (if prepend then freed p H' bs ++ xs else xs ++ freed p H' bs) [] H' /\
    (forall b, hash_of (kstore p') b = hash_of (kstore p) b) /\
    forall ts, (forall b, b ∈ ts -> b ∈ blocks p) ->
      exists p'', touch ts p' = (Ok tt, p'') /\
        pool_inv p'' (filter (fun b => b ∉ ts)
          (if prepend then freed p H' bs ++ xs else xs ++ freed p H' bs)) [] (ts ++ H') /\
        (forall b, hash_of (kstore p'') b = hash_of (kstore p) b).
Proof.
  intros I HH Hnd.
  destruct (wp_returns _ _ _ (free_blocks_spec p xs H bs H' prepend I HH Hnd))
    as ([] & p' & Hrun & I' & Hcfg & Hev & _).
  exists p'. split; [done|]. split; [done|].
  split; [intros b; by apply evicted_none_inv|]. intros ts Hts.
  apply config_eq in Hcfg as (_ & _ & _ & E4 & _ & _). rewrite <- E4 in Hts.
  destruct (wp_returns _ _ _ (touch_spec p' _ H' ts I' Hts)) as ([] & p'' & Hrun' & I'' & _ & Hev' & _).
  exists p''. split; [done|]. split; [done|]. intros b.
  rewrite (evicted_none_inv _ _ _ Hev'). by apply evicted_none_inv.
Qed.

Lemma free_blocks_order_witness : exists p p',
  pool_inv p [Blk 3] [] [Blk 0; Blk 1; Blk 2] /\
  free_blocks [Blk 2; Blk 0; Blk 1] true p = (Ok tt, p') /\
  pool_inv p' [Blk 2; Blk 1; Blk 3] [] [].
Proof.
  destruct (sample_pool false true) as (p0 & I0 & Hcfg & _).
  unfold config in Hcfg. injection Hcfg as E1 E2 E3 E4 E5 E6.
  destruct (wp_returns _ _ _ (touch_spec p0 _ _ [Blk 0] I0 ltac:(rewrite E4; set_solver)))
    as ([] & p & _ & I & Hc & _).
  apply config_eq in Hc as (_ & _ & _ & _ & E5' & _). rewrite E5 in E5'. exists p.
  destruct (free_blocks_order p [Blk 3] [Blk 0; Blk 1; Blk 2] [Blk 2; Blk 0; Blk 1] [] true)
    as (p' & Hrun & I' & _).
  - exact I.
  - apply (bool_decide_unpack _). vm_compute. exact Logic.I.
  - rewrite E5'. apply (bool_decide_unpack _). vm_compute. exact Logic.I.
  - exists p'. split; [exact I|]. split; [exact Hrun|].
    unfold freed in I'. rewrite E5' in I'. exact I'.
Defined.

(** [reset_prefix_cache] never fails: it returns True exactly when no block
    but the null block is in use; then no block has a hash and the map is
    empty; when it returns False nothing has changed. *)
Theorem reset_prefix_cache_iff_unused p xs H :
  pool_inv p xs [] H ->
  exists r p', reset_prefix_cache p = (Ok r, p') /\ pool_inv p' xs [] H /\
    (r = true <-> forall b, b ∈ H -> b = null_block p) /\
    (r = true -> cached_block_hash_to_block p' = ∅ /\ forall b, hash_of (kstore p') b = None) /\
    (r = false -> p' = p).
Proof.
  intros I. destruct (wp_returns _ _ _ (reset_prefix_cache_spec p xs H I))
    as (r & p' & Hrun & I' & _ & H1 & H2 & H3). exists r, p'. done.
Qed.

Lemma reset_prefix_cache_iff_unused_witness : exists p p' r,
  pool_inv p [Blk 3] [] [Blk 1; Blk 2] /\ reset_prefix_cache p = (Ok r, p') /\ r = false.
Proof.
  destruct (sample_pool false true) as (p & I & Hcfg & _).
  unfold config in Hcfg. injection Hcfg as E1 E2 E3 E4 E5 E6.
  destruct (reset_prefix_cache_iff_unused p _ _ I) as (r & p' & Hrun & _ & Hiff & _).
  exists p, p', r. split; [exact I|]. split; [exact Hrun|].
  destruct r; [|reflexivity]. exfalso. rewrite E5 in Hiff.
  discriminate (proj1 Hiff eq_refl (Blk 1) ltac:(set_solver)).
Defined.

End BlockPool.
