(* ===== verification/SingleType.v ===== *)
(** * SingleType

    v1/core/single_type_kv_cache_manager.py: the per-group managers of KV-cache
    blocks (full attention, sliding window, chunked local attention, Mamba,
    cross attention). A manager and the block pool it shares with the managers
    of other groups form the state of its operations; the subclasses are the
    constructors of [AttnSpec], and a method that a subclass overrides is a
    case distinction on them. *)

From S2P Require Import Prelude FreeQueue Request BlockHash BlockPool.

Module SingleType.
Import FreeQueue Request BlockHash BlockPool.
#[local] Open Scope Z_scope.

(** ** Specs and manager state *)

(** The classes of [KVCacheSpec] by the manager registered for them.
    [counted] says that the spec is exactly a [FullAttentionSpec],
    [TQFullAttentionSpec] or [MLAAttentionSpec]. *)
Inductive AttnSpec :=
| FullAttention (counted : bool)
| SlidingWindow (sliding_window : Z)
| ChunkedLocalAttention (attention_chunk_size : Z)
| Mamba (align_mode : bool) (num_speculative_blocks : Z)
| CrossAttention.

Record KVCacheSpec := mkSpec {
  spec_block_size : Z;
  dcp_replicated : bool;
  attn : AttnSpec
}.

Record Manager := mkManager {
  scheduler_block_size : Z;
  block_size : Z;
  kv_cache_spec : KVCacheSpec;
  m_enable_caching : bool;
  max_admission_blocks_per_request : option Z;
  kv_cache_group_id : Z;
  m_null_block : ref;
  use_eagle : bool;
  new_block_ids : list Z;
  req_to_blocks : gmap string (list ref);
  num_cached_block : gmap string Z;
  (* Mamba only *)
  cached_blocks_this_step : gset bytes;
  last_state_block_idx : gmap string Z;
  allocated_block_reqs : gset string
}.

Definition manager_init (spec : KVCacheSpec) (pool : BlockPool) (enable_caching : bool)
    (group_id sched_block_size dcp_world_size pcp_world_size : Z)
    (max_admission_blocks_per_request : option Z) : Manager :=
  {| scheduler_block_size := sched_block_size;
     block_size :=
       if (1 <? dcp_world_size * pcp_world_size) && negb (dcp_replicated spec)
       then spec_block_size spec * (dcp_world_size * pcp_world_size)
       else spec_block_size spec;
     kv_cache_spec := spec; m_enable_caching := enable_caching;
     max_admission_blocks_per_request := max_admission_blocks_per_request;
     kv_cache_group_id := group_id; m_null_block := null_block pool; use_eagle := false;
     new_block_ids := []; req_to_blocks := ∅; num_cached_block := ∅;
     cached_blocks_this_step := ∅; last_state_block_idx := ∅; allocated_block_reqs := ∅ |}.

(** Attribute assignment. *)
Definition set_new_block_ids (v : list Z) (m : Manager) : Manager :=
  mkManager (scheduler_block_size m) (block_size m) (kv_cache_spec m) (m_enable_caching m)
    (max_admission_blocks_per_request m) (kv_cache_group_id m) (m_null_block m) (use_eagle m)
    v (req_to_blocks m) (num_cached_block m) (cached_blocks_this_step m)
    (last_state_block_idx m) (allocated_block_reqs m).
Definition set_req_to_blocks (v : gmap string (list ref)) (m : Manager) : Manager :=
  mkManager (scheduler_block_size m) (block_size m) (kv_cache_spec m) (m_enable_caching m)
    (max_admission_blocks_per_request m) (kv_cache_group_id m) (m_null_block m) (use_eagle m)
    (new_block_ids m) v (num_cached_block m) (cached_blocks_this_step m)
    (last_state_block_idx m) (allocated_block_reqs m).
Definition set_num_cached_block (v : gmap string Z) (m : Manager) : Manager :=
  mkManager (scheduler_block_size m) (block_size m) (kv_cache_spec m) (m_enable_caching m)
    (max_admission_blocks_per_request m) (kv_cache_group_id m) (m_null_block m) (use_eagle m)
    (new_block_ids m) (req_to_blocks m) v (cached_blocks_this_step m)
    (last_state_block_idx m) (allocated_block_reqs m).
Definition set_cached_this_step (v : gset bytes) (m : Manager) : Manager :=
  mkManager (scheduler_block_size m) (block_size m) (kv_cache_spec m) (m_enable_caching m)
    (max_admission_blocks_per_request m) (kv_cache_group_id m) (m_null_block m) (use_eagle m)
    (new_block_ids m) (req_to_blocks m) (num_cached_block m) v
    (last_state_block_idx m) (allocated_block_reqs m).
Definition set_last_state (v : gmap string Z) (m : Manager) : Manager :=
  mkManager (scheduler_block_size m) (block_size m) (kv_cache_spec m) (m_enable_caching m)
    (max_admission_blocks_per_request m) (kv_cache_group_id m) (m_null_block m) (use_eagle m)
    (new_block_ids m) (req_to_blocks m) (num_cached_block m) (cached_blocks_this_step m)
    v (allocated_block_reqs m).
Definition set_allocated (v : gset string) (m : Manager) : Manager :=
  mkManager (scheduler_block_size m) (block_size m) (kv_cache_spec m) (m_enable_caching m)
    (max_admission_blocks_per_request m) (kv_cache_group_id m) (m_null_block m) (use_eagle m)
    (new_block_ids m) (req_to_blocks m) (num_cached_block m) (cached_blocks_this_step m)
    (last_state_block_idx m) v.
Definition set_use_eagle (v : bool) (m : Manager) : Manager :=
  mkManager (scheduler_block_size m) (block_size m) (kv_cache_spec m) (m_enable_caching m)
    (max_admission_blocks_per_request m) (kv_cache_group_id m) (m_null_block m) v
    (new_block_ids m) (req_to_blocks m) (num_cached_block m) (cached_blocks_this_step m)
    (last_state_block_idx m) (allocated_block_reqs m).

(** A manager and the pool. *)
Definition St : Type := Manager * BlockPool.
Definition on_pool {A} (c : M BlockPool A) : M St A := zoom snd (fun p s => (s.1, p)) c.
Definition mgr : M St Manager := gets fst.
Definition set_mgr (f : Manager -> Manager) : M St unit := modify (fun s => (f s.1, s.2)).

(** [self.req_to_blocks[request_id]] of the defaultdict: reading creates the
    entry. Assignments to the list object write the entry back. *)
Definition req_blocks (request_id : string) : M St (list ref) :=
  m ← mgr;
  match req_to_blocks m !! request_id with
  | Some l => mret l
  | None => set_mgr (set_req_to_blocks (<[request_id := []]> (req_to_blocks m))) ;; mret []
  end.
Definition write_blocks (request_id : string) (l : list ref) : M St unit :=
  m ← mgr; set_mgr (set_req_to_blocks (<[request_id := l]> (req_to_blocks m))).

(** [max_length // block_size] and the like: a zero divisor raises. *)
Definition floordiv {S} (a b : Z) : M S Z :=
  if b =? 0 then raise ZeroDivisionError else mret (a / b).
Definition cdiv_m {S} (a b : Z) : M S Z :=
  if b =? 0 then raise ZeroDivisionError else mret (cdiv a b).

(** ** Skipped tokens *)

Definition get_num_skipped_tokens (m : Manager) (num_computed_tokens : Z) : M St Z :=
  match attn (kv_cache_spec m) with
  | FullAttention _ | CrossAttention => mret 0
  | SlidingWindow w => mret (Z.max 0 (num_computed_tokens - w + 1))
  | ChunkedLocalAttention c => q ← floordiv num_computed_tokens c; mret (q * c)
  | Mamba _ _ => mret (num_computed_tokens - 1)
  end.

(** ** How many blocks are needed *)

Fixpoint get_num_evictable_blocks (blocks : list ref) : M St Z :=
  match blocks with
  | [] => mret 0
  | b :: bs =>
      k ← on_pool (block_at b);
      n ← get_num_evictable_blocks bs;
      mret (if (ref_cnt k =? 0) && negb (is_null k) then n + 1 else n)
  end.

(** [SingleTypeKVCacheManager.get_num_blocks_to_allocate] *)
Definition base_num_blocks_to_allocate (request_id : string) (num_tokens : Z)
    (new_computed_blocks : list ref) (total_computed_tokens : Z) (apply_admission_cap : bool)
    : M St Z :=
  m ← mgr;
  r0 ← cdiv_m num_tokens (block_size m);
  let num_required_blocks :=
    match max_admission_blocks_per_request m with
    | Some cap => if apply_admission_cap then Z.min r0 cap else r0
    | None => r0
    end in
  let num_req_blocks := zlen (default [] (req_to_blocks m !! request_id)) in
  if is_some (num_cached_block m !! request_id) then
    assert_ (zlen new_computed_blocks =? 0) ;;
    mret (Z.max (num_required_blocks - num_req_blocks) 0)
  else
    num_skipped_tokens ← get_num_skipped_tokens m total_computed_tokens;
    let num_local_computed_blocks := zlen new_computed_blocks + num_req_blocks in
    let num_skipped_blocks := num_skipped_tokens / block_size m in
    let num_new_blocks :=
      Z.max (num_required_blocks - Z.max num_skipped_blocks num_local_computed_blocks) 0 in
    let num_skipped_new_computed_blocks := Z.max 0 (num_skipped_blocks - num_req_blocks) in
    num_evictable_blocks ←
      get_num_evictable_blocks (drop (Z.to_nat num_skipped_new_computed_blocks) new_computed_blocks);
    mret (num_new_blocks + num_evictable_blocks).

(** [MambaManager.get_num_blocks_to_allocate] *)
Definition mamba_num_blocks_to_allocate (align_mode : bool) (num_speculative_blocks : Z)
    (request_id : string) (num_tokens : Z) (new_computed_blocks : list ref)
    (total_computed_tokens num_tokens_main_model : Z) (apply_admission_cap : bool) : M St Z :=
  m ← mgr;
  this_step ← (match last new_computed_blocks with
               | None => mret false
               | Some b =>
                   k ← on_pool (block_at b);
                   mret (match block_hash k with
                         | Some h => bool_decide (h ∈ cached_blocks_this_step m)
                         | None => false
                         end)
               end);
  if (this_step : bool) then p ← gets snd; mret (num_gpu_blocks p + 1)
  else if negb align_mode then
    let num_tokens :=
      if 0 <? num_speculative_blocks
      then num_tokens + spec_block_size (kv_cache_spec m) * num_speculative_blocks
      else num_tokens in
    base_num_blocks_to_allocate request_id num_tokens new_computed_blocks total_computed_tokens
      apply_admission_cap
  else
    r0 ← cdiv_m num_tokens_main_model (block_size m);
    let num_required_blocks := r0 + num_speculative_blocks in
    rb ← req_blocks request_id;
    let n := num_required_blocks - zlen new_computed_blocks - zlen rb in
    m ← mgr;
    let num_new_blocks :=
      if 0 <? n then
        if decide (request_id ∈ allocated_block_reqs m) then 1 else 1 + num_speculative_blocks
      else n in
    num_evictable ← get_num_evictable_blocks new_computed_blocks;
    mret (num_new_blocks + num_evictable).

Definition get_num_blocks_to_allocate (request_id : string) (num_tokens : Z)
    (new_computed_blocks : list ref) (total_computed_tokens num_tokens_main_model : Z)
    (apply_admission_cap : bool) : M St Z :=
  m ← mgr;
  match attn (kv_cache_spec m) with
  | Mamba al sp =>
      mamba_num_blocks_to_allocate al sp request_id num_tokens new_computed_blocks
        total_computed_tokens num_tokens_main_model apply_admission_cap
  | _ =>
      base_num_blocks_to_allocate request_id num_tokens new_computed_blocks total_computed_tokens
        apply_admission_cap
  end.
(** ** The sparse-caching mask of sliding-window groups *)

Definition contiguous_blocks_for_hit {S} (window_size block_size : Z) (use_eagle : bool) : M S Z :=
  blocks ← cdiv_m (window_size - 1) block_size;
  mret (if use_eagle then blocks + 1 else blocks).

(** Python's [range(a, b)]. *)
Definition range (a b : Z) : list Z := (fun i => a + i) <$> zrange (b - a).

(** [mask[i - start] = True] for the [i] of a list. *)
Definition set_true (start : Z) (idxs : list Z) (mask : list bool) : list bool :=
  foldl (fun mk i => <[Z.to_nat (i - start) := true]> mk) mask idxs.

(** The tail before the latest aligned boundary of the prompt. *)
Definition replay_tail {S} (bs need shift alignment_tokens start_block end_block : Z)
    (retention_interval num_prompt_tokens : option Z) (mask : list bool) : M S (list bool) :=
  match retention_interval, num_prompt_tokens with
  | Some _, Some n =>
      q ← floordiv (n - 1) alignment_tokens;
      let latest := q * alignment_tokens in
      let prompt_end_block := latest / bs + shift in
      mret (set_true start_block
              (range (Z.max start_block (prompt_end_block - need))
                 (Z.min end_block prompt_end_block)) mask)
  | _, _ => mret mask
  end.

Definition reachable_block_mask {S} (spec : KVCacheSpec) (start_block end_block : Z)
    (alignment_tokens : option Z) (use_eagle : bool)
    (retention_interval num_prompt_tokens : option Z) : M S (option (list bool)) :=
  match attn spec with
  | SlidingWindow w =>
      match alignment_tokens with
      | None => mret None
      | Some alignment_tokens =>
          let bs := spec_block_size spec in
          (if bs =? 0 then raise ZeroDivisionError else mret tt) ;;
          assert_ (alignment_tokens mod bs =? 0) ;;
          need ← contiguous_blocks_for_hit w bs use_eagle;
          let shift := if use_eagle then 1 else 0 in
          let mask0 := replicate (Z.to_nat (end_block - start_block)) false in
          let segment_tokens :=
            match retention_interval with
            | None => Some alignment_tokens
            | Some r => if r =? 0 then None else Some r
            end in
          match segment_tokens with
          | Some seg =>
              let per_segment := seg / bs in
              if per_segment <=? need then mret None
              else
                (* [need < per_segment] makes [per_segment] a legal divisor *)
                let tails := List.filter (fun i => (shift <=? i) &&
                     (per_segment - need <=? (i - shift) mod per_segment)) (range start_block end_block) in
                let mask1 := set_true start_block tails mask0 in
                mask2 ← replay_tail bs need shift alignment_tokens start_block end_block
                           retention_interval num_prompt_tokens mask1;
                mret (Some mask2)
          | None =>
              mask2 ← replay_tail bs need shift alignment_tokens start_block end_block
                           retention_interval num_prompt_tokens mask0;
              mret (Some mask2)
          end
      end
  | _ => mret None
  end.

(** ** Allocation and release *)

Definition counted_spec (m : Manager) : bool :=
  match attn (kv_cache_spec m) with FullAttention c => c | _ => false end.

Definition record_new_ids (blocks : list ref) : M St unit :=
  m ← mgr;
  if counted_spec m
  then set_mgr (set_new_block_ids (new_block_ids m ++ (block_id <$> blocks)))
  else mret tt.

(** Item assignment [l[i] = x] for a Python index. *)
Definition py_set {A} (l : list A) (i : Z) (x : A) : option (list A) :=
  if 0 <=? i then (if i <? zlen l then Some (<[Z.to_nat i := x]> l) else None)
  else if 0 <=? zlen l + i then Some (<[Z.to_nat (zlen l + i) := x]> l) else None.

Section ops.
Context (use_int : bool) (sha256 : bytes -> bytes).

(** [SingleTypeKVCacheManager.allocate_new_computed_blocks] *)
Definition base_allocate_new_computed_blocks (request_id : string) (new_computed_blocks : list ref)
    (num_local_computed_tokens num_external_computed_tokens : Z) : M St unit :=
  m ← mgr;
  if is_some (num_cached_block m !! request_id) then assert_ (zlen new_computed_blocks =? 0)
  else
    rb ← req_blocks request_id;
    assert_ (zlen rb =? 0) ;;
    let num_total_computed_tokens := num_local_computed_tokens + num_external_computed_tokens in
    num_skipped_tokens ← get_num_skipped_tokens m num_total_computed_tokens;
    num_skipped_blocks ← floordiv num_skipped_tokens (block_size m);
    let new_computed_blocks :=
      if 0 <? num_skipped_blocks then drop (Z.to_nat num_skipped_blocks) new_computed_blocks
      else new_computed_blocks in
    let num_external_computed_tokens :=
      if 0 <? num_skipped_blocks
      then Z.min (num_total_computed_tokens - num_skipped_tokens) num_external_computed_tokens
      else num_external_computed_tokens in
    (if m_enable_caching m then on_pool (touch new_computed_blocks)
     else assert_ (zlen new_computed_blocks =? 0)) ;;
    let rb := rb ++ replicate (Z.to_nat num_skipped_blocks) (m_null_block m) ++ new_computed_blocks in
    write_blocks request_id rb ;;
    set_mgr (fun m => set_num_cached_block (<[request_id := zlen rb]> (num_cached_block m)) m) ;;
    if 0 <? num_external_computed_tokens then
      r ← cdiv_m num_total_computed_tokens (block_size m);
      allocated_blocks ← on_pool (get_new_blocks use_int (r - zlen rb));
      write_blocks request_id (rb ++ allocated_blocks) ;;
      record_new_ids allocated_blocks
    else mret tt.

Definition allocate_new_computed_blocks (request_id : string) (new_computed_blocks : list ref)
    (num_local_computed_tokens num_external_computed_tokens : Z) : M St unit :=
  m ← mgr;
  match attn (kv_cache_spec m) with
  | CrossAttention => assert_ (zlen new_computed_blocks =? 0)
  | _ => base_allocate_new_computed_blocks request_id new_computed_blocks
           num_local_computed_tokens num_external_computed_tokens
  end.

(** [SingleTypeKVCacheManager.allocate_new_blocks] *)
Definition base_allocate_new_blocks (request_id : string) (num_tokens : Z) : M St (list ref) :=
  m ← mgr;
  rb ← req_blocks request_id;
  num_required_blocks ← cdiv_m num_tokens (block_size m);
  let num_new_blocks := num_required_blocks - zlen rb in
  if num_new_blocks <=? 0 then mret []
  else
    new_blocks ← on_pool (get_new_blocks use_int num_new_blocks);
    write_blocks request_id (rb ++ new_blocks) ;;
    record_new_ids new_blocks ;;
    mret new_blocks.

(** The loop that moves last step's speculative blocks behind the padding. *)
Fixpoint reuse_loop {S} (null : ref) (num_skipped_blocks : Z) (idxs : list Z) (rb : list ref)
    : M S (list ref) :=
  match idxs with
  | [] => mret rb
  | i :: idxs' =>
      if i <? num_skipped_blocks then
        b ← of_option IndexError (py_index rb i);
        rb' ← of_option IndexError (py_set (rb ++ [b]) i null);
        reuse_loop null num_skipped_blocks idxs' rb'
      else mret rb
  end.

(** [MambaManager.allocate_new_blocks] in align mode *)
Definition mamba_align_allocate (num_speculative_blocks : Z) (request_id : string)
    (num_tokens : Z) : M St (list ref) :=
  m ← mgr;
  rb ← req_blocks request_id;
  r0 ← cdiv_m num_tokens (block_size m);
  let num_required_blocks := r0 + num_speculative_blocks in
  if num_required_blocks <=? zlen rb then mret []
  else
    let prev_block_len := zlen rb in
    let blocks_allocated := bool_decide (request_id ∈ allocated_block_reqs m) in
    (if blocks_allocated then
       set_mgr (fun m => set_last_state
         (<[request_id := prev_block_len - 1 - num_speculative_blocks]> (last_state_block_idx m)) m)
     else if 0 <? prev_block_len then
       set_mgr (fun m => set_last_state
         (<[request_id := prev_block_len - 1]> (last_state_block_idx m)) m)
     else mret tt) ;;
    let num_skipped_blocks := num_required_blocks - num_speculative_blocks - 1 in
    let rb1 := rb ++ replicate (Z.to_nat (num_skipped_blocks - prev_block_len)) (m_null_block m) in
    write_blocks request_id rb1 ;;
    rb2 ← (if blocks_allocated
           then reuse_loop (m_null_block m) num_skipped_blocks
                  (range (prev_block_len - num_speculative_blocks) prev_block_len) rb1
           else mret rb1);
    write_blocks request_id rb2 ;;
    let num_new_blocks := num_required_blocks - zlen rb2 in
    assert_ (num_new_blocks <=? (if blocks_allocated then 1 else num_speculative_blocks + 1)) ;;
    new_blocks ← on_pool (get_new_blocks use_int num_new_blocks);
    write_blocks request_id (rb2 ++ new_blocks) ;;
    set_mgr (fun m => set_allocated ({[request_id]} ∪ allocated_block_reqs m) m) ;;
    mret (drop (Z.to_nat prev_block_len) (rb2 ++ new_blocks)).

Definition allocate_new_blocks (request_id : string) (num_tokens num_tokens_main_model : Z)
    : M St (list ref) :=
  m ← mgr;
  match attn (kv_cache_spec m) with
  | Mamba false sp =>
      base_allocate_new_blocks request_id
        (if 0 <? sp then num_tokens + block_size m * sp else num_tokens)
  | Mamba true sp => mamba_align_allocate sp request_id num_tokens_main_model
  | _ => base_allocate_new_blocks request_id num_tokens
  end.

Definition take_new_block_ids : M St (list Z) :=
  m ← mgr; set_mgr (set_new_block_ids []) ;; mret (new_block_ids m).

(** [cache_full_blocks] for a request that the caller keeps: the embedding
    hashes that building the event may memoise on the request are dropped, since
    computing them again gives the same hashes. *)
Definition cache_full (request : Request) (blks : list ref) (nc nf bs g : Z)
    (mask : option (list bool)) : M St unit := fun s =>
  match cache_full_blocks use_int sha256 blks (Z.to_nat nc) (Z.to_nat nf) bs g mask (request, s.2) with
  | (r, (_, p)) => (r, (s.1, p))
  end.

(** [SingleTypeKVCacheManager.cache_blocks] *)
Definition base_cache_blocks (request : Request) (num_tokens : Z)
    (retention_interval : option Z) : M St unit :=
  m ← mgr;
  let rid := request_id request in
  let num_cached_blocks := default 0 (num_cached_block m !! rid) in
  num_full_blocks ← floordiv num_tokens (block_size m);
  if num_full_blocks <=? num_cached_blocks then mret tt
  else
    block_mask ← reachable_block_mask (kv_cache_spec m) num_cached_blocks num_full_blocks
                   (Some (scheduler_block_size m)) (use_eagle m) retention_interval
                   (Some (num_prompt_tokens request));
    rb ← req_blocks rid;
    cache_full request rb num_cached_blocks num_full_blocks (block_size m)
      (kv_cache_group_id m) block_mask ;;
    set_mgr (fun m => set_num_cached_block (<[rid := num_full_blocks]> (num_cached_block m)) m).

(** The loop of [MambaManager.cache_blocks] over the newly cached blocks. *)
Definition note_cached (b : ref) : M St unit :=
  k ← on_pool (block_at b);
  if is_null k then mret tt
  else match block_hash k with
       | None => raise AssertionError
       | Some h => set_mgr (fun m => set_cached_this_step ({[h]} ∪ cached_blocks_this_step m) m)
       end.

Definition cache_blocks (request : Request) (num_tokens : Z) (retention_interval : option Z)
    : M St unit :=
  m ← mgr;
  match attn (kv_cache_spec m) with
  | CrossAttention => raise ValueError
  | Mamba _ _ =>
      let rid := request_id request in
      let before := default 0 (num_cached_block m !! rid) in
      base_cache_blocks request num_tokens retention_interval ;;
      m ← mgr;
      let after := default 0 (num_cached_block m !! rid) in
      if before <? after then
        rb ← req_blocks rid;
        for_each note_cached (slice (Z.to_nat before) (Z.to_nat after) rb)
      else mret tt
  | _ => base_cache_blocks request num_tokens retention_interval
  end.

(** Split the reversed blocks of a request by whether they carry a hash. *)
Fixpoint split_hashed (blks : list ref) : M St (list ref * list ref) :=
  match blks with
  | [] => mret ([], [])
  | b :: bs =>
      k ← on_pool (block_at b);
      r ← split_hashed bs;
      mret (if is_some (block_hash k) then (b :: r.1, r.2) else (r.1, b :: r.2))
  end.

Definition forget_cached (request_id : string) : M St unit :=
  set_mgr (fun m => set_num_cached_block (delete request_id (num_cached_block m)) m).
Definition pop_blocks (request_id : string) : M St (list ref) :=
  m ← mgr;
  set_mgr (set_req_to_blocks (delete request_id (req_to_blocks m))) ;;
  mret (default [] (req_to_blocks m !! request_id)).

Definition base_free (request_id : string) : M St unit :=
  rb ← pop_blocks request_id;
  on_pool (free_blocks (reverse rb) false) ;;
  forget_cached request_id.

Definition free (request_id : string) : M St unit :=
  m ← mgr;
  match attn (kv_cache_spec m) with
  | SlidingWindow _ =>
      rb ← pop_blocks request_id;
      (match rb with
       | [] => mret tt
       | _ =>
           r ← split_hashed (reverse rb);
           on_pool (free_blocks r.1 false) ;;
           on_pool (free_blocks r.2 true)
       end) ;;
      forget_cached request_id
  | Mamba true _ =>
      set_mgr (fun m => set_allocated (allocated_block_reqs m ∖ {[request_id]}) m) ;;
      set_mgr (fun m => set_last_state (delete request_id (last_state_block_idx m)) m) ;;
      base_free request_id
  | _ => base_free request_id
  end.

(** The loop of [remove_skipped_blocks] over the indices below [i], from the
    right; returns the blocks with the removed ones replaced, and the removed
    ones with and without a hash. *)
Fixpoint remove_loop (null : ref) (i : nat) (blks cached uncached : list ref)
    : M St (list ref * list ref * list ref) :=
  match i with
  | O => mret (blks, cached, uncached)
  | S i' =>
      b ← of_option IndexError (blks !! i');
      if decide (b = null) then mret (blks, cached, uncached)
      else
        k ← on_pool (block_at b);
        if is_some (block_hash k)
        then remove_loop null i' (<[i' := null]> blks) (cached ++ [b]) uncached
        else remove_loop null i' (<[i' := null]> blks) cached (uncached ++ [b])
  end.

Definition base_remove_skipped_blocks (request_id : string) (total_computed_tokens : Z)
    : M St unit :=
  m ← mgr;
  num_skipped_tokens ← get_num_skipped_tokens m total_computed_tokens;
  if num_skipped_tokens <=? 0 then mret tt
  else
    blks ← req_blocks request_id;
    q ← floordiv num_skipped_tokens (block_size m);
    let num_skipped_blocks := Z.min q (zlen blks) in
    r ← remove_loop (m_null_block m) (Z.to_nat num_skipped_blocks) blks [] [];
    write_blocks request_id r.1.1 ;;
    on_pool (free_blocks r.1.2 false) ;;
    on_pool (free_blocks r.2 true).

Definition remove_skipped_blocks (request_id : string) (num_computed_tokens : Z) : M St unit :=
  m ← mgr;
  match attn (kv_cache_spec m) with
  | Mamba al sp =>
      let num_computed_tokens := Z.max 0 (num_computed_tokens - sp) in
      base_remove_skipped_blocks request_id num_computed_tokens ;;
      if al then
        m ← mgr;
        match last_state_block_idx m !! request_id with
        | None => mret tt
        | Some idx =>
            c ← cdiv_m num_computed_tokens (block_size m);
            if idx <? c - 1 then
              blks ← req_blocks request_id;
              b ← of_option IndexError (py_index blks idx);
              if decide (b = m_null_block m) then mret tt
              else
                on_pool (free_blocks [b] false) ;;
                blks' ← of_option IndexError (py_set blks idx (m_null_block m));
                write_blocks request_id blks'
            else mret tt
        end
      else mret tt
  | _ => base_remove_skipped_blocks request_id num_computed_tokens
  end.
End ops.

(** [FullAttentionManager.get_num_common_prefix_blocks]; 0 for the others. *)
Fixpoint count_shared (n : Z) (blks : list ref) : M St Z :=
  match blks with
  | [] => mret 0
  | b :: bs =>
      k ← on_pool (block_at b);
      if ref_cnt k =? n then c ← count_shared n bs; mret (c + 1) else mret 0
  end.

Definition get_num_common_prefix_blocks (running_request_id : string) : M St Z :=
  m ← mgr;
  match attn (kv_cache_spec m) with
  | FullAttention _ =>
      blks ← req_blocks running_request_id;
      m ← mgr;
      count_shared (Z.of_nat (size (req_to_blocks m))) blks
  | _ => mret 0
  end.

Definition new_step_starts : M St unit :=
  m ← mgr;
  match attn (kv_cache_spec m) with
  | Mamba _ _ => set_mgr (set_cached_this_step ∅)
  | _ => mret tt
  end.

(** ** Longest cache hits

    One list of blocks per KV-cache group id. *)

Definition BlockHashList : Type := list bytes + BlockHashListWithBlockSize.

(** Iteration over a [BlockHashList], as [itertools.islice] uses it. *)
Definition hashes_all (hl : BlockHashList) : list bytes :=
  match hl with inl hs => hs | inr l => hl_iter l end.
Definition islice {S} (hl : BlockHashList) (n : Z) : M S (list bytes) :=
  if n <? 0 then raise ValueError else mret (take (Z.to_nat n) (hashes_all hl)).

Definition first_len {S} (computed : list (list ref)) : M S Z :=
  l ← of_option IndexError (head computed); mret (zlen l).

(** [for computed in computed_blocks: computed.pop()] *)
Definition pop_each {S} (computed : list (list ref)) : M S (list (list ref)) :=
  if forallb (fun l => negb (zlen l =? 0)) computed
  then mret ((fun l => take (length l - 1) l) <$> computed)
  else raise IndexError.

(** The [while] loop that pops until the length is aligned; it pops once per
    round, so the length of the first list bounds its rounds. *)
Fixpoint align_loop {S} (fuel : nat) (block_size alignment_tokens : Z) (computed : list (list ref))
    : M S (list (list ref)) :=
  match fuel with
  | O => raise OutOfFuel
  | S fuel' =>
      if block_size =? alignment_tokens then mret computed
      else
        n ← first_len computed;
        if alignment_tokens =? 0 then raise ZeroDivisionError
        else if (n * block_size) mod alignment_tokens =? 0 then mret computed
        else c ← pop_each computed; align_loop fuel' block_size alignment_tokens c
  end.
Definition align_hit {S} (block_size alignment_tokens : Z) (computed : list (list ref))
    : M S (list (list ref)) :=
  align_loop (Datatypes.S (length (default [] (head computed)))) block_size alignment_tokens computed.

(** Drop the last matched block for EAGLE, if there is one. *)
Definition drop_eagle {S} (drop_eagle_block : bool) (computed : list (list ref))
    : M S (list (list ref)) :=
  if drop_eagle_block then
    n ← first_len computed;
    if n =? 0 then mret computed else pop_each computed
  else mret computed.

(** [for computed, cached in zip(computed_blocks, cached_block)] *)
Definition append_each (computed : list (list ref)) (cached : list ref) : list (list ref) :=
  zip_with (fun l b => l ++ [b]) computed cached.
Definition set_each (i : nat) (computed : list (list ref)) (cached : list ref) : list (list ref) :=
  zip_with (fun l b => <[i := b]> l) computed cached.

Section hits.
Context (kv_cache_group_ids : list Z).

Definition empty_hit : list (list ref) := replicate (length kv_cache_group_ids) [].

(** The [for] loop over the block hashes, stopping at the first miss. *)
Fixpoint prefix_scan (hs : list bytes) (computed : list (list ref)) : M BlockPool (list (list ref)) :=
  match hs with
  | [] => mret computed
  | h :: hs' =>
      c ← get_cached_block h kv_cache_group_ids;
      match c with
      | Some ((_ :: _) as cached) => prefix_scan hs' (append_each computed cached)
      | _ => mret computed
      end
  end.

Definition full_find_longest_cache_hit (block_hashes : BlockHashList) (max_length : Z)
    (spec : KVCacheSpec) (drop_eagle_block : bool) (alignment_tokens cp_world_size : Z)
    : M BlockPool (list (list ref)) :=
  assert_ (match attn spec with FullAttention _ | ChunkedLocalAttention _ => true | _ => false end) ;;
  let block_size :=
    if 1 <? cp_world_size then spec_block_size spec * cp_world_size else spec_block_size spec in
  max_num_blocks ← floordiv max_length block_size;
  hs ← islice block_hashes max_num_blocks;
  computed ← prefix_scan hs empty_hit;
  computed ← drop_eagle drop_eagle_block computed;
  align_hit block_size alignment_tokens computed.

(** The right-to-left search of [SlidingWindowManager]; the blocks below [i]
    remain to be looked at. Returns whether a match was found. *)
Fixpoint window_scan (block_hashes : BlockHashList) (block_size alignment_tokens need : Z)
    (drop_eagle_block : bool) (i : nat) (computed : list (list ref)) (num_contiguous_blocks : Z)
    : M BlockPool (list (list ref) * Z * bool) :=
  match i with
  | O => mret (computed, num_contiguous_blocks, false)
  | S i' =>
      h ← hashes_get block_hashes (Z.of_nat i');
      c ← get_cached_block h kv_cache_group_ids;
      match c with
      | Some ((_ :: _) as cached) =>
          skip ← (if (num_contiguous_blocks =? 0) && negb (block_size =? alignment_tokens) then
                    let post_pop_blocks := if drop_eagle_block then Z.of_nat i' else Z.of_nat i' + 1 in
                    if alignment_tokens =? 0 then raise ZeroDivisionError
                    else mret (negb ((post_pop_blocks * block_size) mod alignment_tokens =? 0))
                  else mret false);
          if (skip : bool)
          then window_scan block_hashes block_size alignment_tokens need drop_eagle_block i'
                 computed num_contiguous_blocks
          else
            let computed := set_each i' computed cached in
            let num_contiguous_blocks := num_contiguous_blocks + 1 in
            if need <=? num_contiguous_blocks
            then mret ((fun l => take (i' + Z.to_nat num_contiguous_blocks) l) <$> computed,
                       num_contiguous_blocks, true)
            else window_scan block_hashes block_size alignment_tokens need drop_eagle_block i'
                   computed num_contiguous_blocks
      | _ => window_scan block_hashes block_size alignment_tokens need drop_eagle_block i' computed 0
      end
  end.

Definition window_find_longest_cache_hit (block_hashes : BlockHashList) (max_length : Z)
    (spec : KVCacheSpec) (drop_eagle_block : bool)
    (alignment_tokens dcp_world_size pcp_world_size : Z) : M BlockPool (list (list ref)) :=
  match attn spec with
  | SlidingWindow w =>
      assert_ (dcp_world_size =? 1) ;;
      assert_ (pcp_world_size =? 1) ;;
      let block_size := spec_block_size spec in
      need ← contiguous_blocks_for_hit w block_size drop_eagle_block;
      max_num_blocks ← floordiv max_length block_size;
      p ← get;
      let computed := replicate (length kv_cache_group_ids)
                        (replicate (Z.to_nat max_num_blocks) (null_block p)) in
      r ← window_scan block_hashes block_size alignment_tokens need drop_eagle_block
            (Z.to_nat max_num_blocks) computed 0;
      computed ← (if (r.2 : bool) then mret r.1.1
                  else align_hit block_size alignment_tokens
                         ((fun l : list ref => take (Z.to_nat r.1.2) l) <$> r.1.1));
      (if drop_eagle_block then
         n ← first_len computed;
         if n =? 0 then mret computed
         else c ← pop_each computed; align_hit block_size alignment_tokens c
       else mret computed)
  | _ => raise AssertionError
  end.

Fixpoint chunk_scan (block_hashes : BlockHashList) (idxs : list Z) (computed : list (list ref))
    : M BlockPool (list (list ref)) :=
  match idxs with
  | [] => mret computed
  | i :: idxs' =>
      h ← hashes_get block_hashes i;
      c ← get_cached_block h kv_cache_group_ids;
      match c with
      | Some ((_ :: _) as cached) => chunk_scan block_hashes idxs' (append_each computed cached)
      | _ => mret computed
      end
  end.

Definition chunked_find_longest_cache_hit (block_hashes : BlockHashList) (max_length : Z)
    (spec : KVCacheSpec) (drop_eagle_block : bool)
    (alignment_tokens dcp_world_size pcp_world_size : Z) : M BlockPool (list (list ref)) :=
  match attn spec with
  | ChunkedLocalAttention chunk =>
      assert_ (negb drop_eagle_block) ;;
      assert_ (dcp_world_size =? 1) ;;
      assert_ (pcp_world_size =? 1) ;;
      let bs := spec_block_size spec in
      assert_ (bs =? alignment_tokens) ;;
      max_num_blocks ← floordiv max_length bs;
      local_attention_start_idx ←
        (if 0 <? max_length then q ← floordiv max_length chunk; mret (q * chunk) else mret 0);
      let start := local_attention_start_idx / bs in
      p ← get;
      chunk_scan block_hashes (range start max_num_blocks)
        (replicate (length kv_cache_group_ids) (replicate (Z.to_nat start) (null_block p)))
  | _ => raise AssertionError
  end.

(** The search of [MambaManager]: only the last matching block is needed. *)
Fixpoint mamba_scan (block_hashes : BlockHashList) (bs alignment_tokens : Z) (i : nat)
    : M BlockPool (list (list ref)) :=
  match i with
  | O => mret empty_hit
  | S i' =>
      h ← hashes_get block_hashes (Z.of_nat i');
      c ← get_cached_block h kv_cache_group_ids;
      match c with
      | Some ((_ :: _) as cached) =>
          skip ← (if bs =? alignment_tokens then mret false
                  else if alignment_tokens =? 0 then raise ZeroDivisionError
                  else mret (negb (((Z.of_nat i' + 1) * bs) mod alignment_tokens =? 0)));
          if (skip : bool) then mamba_scan block_hashes bs alignment_tokens i'
          else p ← get;
               mret (append_each (replicate (length kv_cache_group_ids)
                                    (replicate i' (null_block p))) cached)
      | _ => mamba_scan block_hashes bs alignment_tokens i'
      end
  end.

Definition mamba_find_longest_cache_hit (block_hashes : BlockHashList) (max_length : Z)
    (spec : KVCacheSpec) (alignment_tokens dcp_world_size pcp_world_size : Z)
    : M BlockPool (list (list ref)) :=
  match attn spec with
  | Mamba _ _ =>
      assert_ (dcp_world_size =? 1) ;;
      assert_ (pcp_world_size =? 1) ;;
      max_num_blocks ← floordiv max_length (spec_block_size spec);
      mamba_scan block_hashes (spec_block_size spec) alignment_tokens (Z.to_nat max_num_blocks)
  | _ => raise AssertionError
  end.

Definition find_longest_cache_hit (block_hashes : BlockHashList) (max_length : Z)
    (spec : KVCacheSpec) (drop_eagle_block : bool)
    (alignment_tokens dcp_world_size pcp_world_size : Z) : M BlockPool (list (list ref)) :=
  match attn spec with
  | FullAttention _ => full_find_longest_cache_hit block_hashes max_length spec drop_eagle_block
                         alignment_tokens (dcp_world_size * pcp_world_size)
  | SlidingWindow _ => window_find_longest_cache_hit block_hashes max_length spec drop_eagle_block
                         alignment_tokens dcp_world_size pcp_world_size
  | ChunkedLocalAttention _ => chunked_find_longest_cache_hit block_hashes max_length spec
                         drop_eagle_block alignment_tokens dcp_world_size pcp_world_size
  | Mamba _ _ => mamba_find_longest_cache_hit block_hashes max_length spec alignment_tokens
                   dcp_world_size pcp_world_size
  | CrossAttention => raise NotImplementedError
  end.
End hits.

(** ** Admission caps of the recycling specs *)

(** [SlidingWindowSpec.max_admission_blocks_per_request] and its counterpart of
    [ChunkedLocalAttentionSpec]. *)
Definition window_admission_blocks (sliding_window bs max_num_batched_tokens max_model_len : Z) : Z :=
  cdiv (Z.min (sliding_window - 1 + max_num_batched_tokens) max_model_len) bs + 1.
Definition chunk_admission_blocks (chunk bs max_num_batched_tokens max_model_len : Z) : Z :=
  cdiv (Z.min (chunk + max_num_batched_tokens) max_model_len) bs.

(** [get_manager_for_kv_cache_spec] for the specs above; [mla_sharded] says
    that the spec is a [SlidingWindowMLASpec] sharded under context
    parallelism. *)
Definition get_manager_for_kv_cache_spec (spec : KVCacheSpec) (mla_sharded : bool)
    (max_num_batched_tokens max_model_len : Z) (pool : BlockPool) (enable_caching : bool)
    (group_id sched_block_size dcp_world_size pcp_world_size : Z) : result Manager :=
  let cap :=
    match attn spec with
    | SlidingWindow w =>
        let bs := if mla_sharded then spec_block_size spec * dcp_world_size * pcp_world_size
                  else spec_block_size spec in
        if bs =? 0 then Err ZeroDivisionError
        else Ok (Some (window_admission_blocks w bs max_num_batched_tokens max_model_len))
    | ChunkedLocalAttention c =>
        if spec_block_size spec =? 0 then Err ZeroDivisionError
        else Ok (Some (chunk_admission_blocks c (spec_block_size spec) max_num_batched_tokens
                         max_model_len))
    | _ => Ok None
    end in
  match cap with
  | Err e => Err e
  | Ok cap => Ok (manager_init spec pool enable_caching group_id sched_block_size
                    dcp_world_size pcp_world_size cap)
  end.

End SingleType.
