(* ===== verification/SingleTypeSafety.v ===== *)
(** * SingleTypeSafety

    The managers of [SingleType] keep the pool safe: the block tables of the
    requests are exactly what the manager holds of the pool, every operation of
    every kind of manager preserves that, and releasing a request gives all its
    blocks back. *)

From S2P Require Import Prelude FreeQueue Request BlockHash BlockPool SingleType.

Module SingleTypeSafety.
Import FreeQueue Request BlockHash BlockPool SingleType.
#[local] Open Scope Z_scope.

(** ** The references a manager holds *)

Definition mheld (M : gmap string (list ref)) : list ref := concat (map_to_list M).*2.

Lemma mheld_insert_fresh M rid l : M !! rid = None -> mheld (<[rid := l]> M) ≡ₚ l ++ mheld M.
Proof. intros Hn. unfold mheld. by rewrite map_to_list_insert. Qed.

Lemma mheld_insert M rid l : mheld (<[rid := l]> M) ≡ₚ l ++ mheld (delete rid M).
Proof.
  rewrite <- (insert_delete_eq M). apply mheld_insert_fresh. apply lookup_delete_eq.
Qed.

Lemma mheld_open M rid : mheld M ≡ₚ default [] (M !! rid) ++ mheld (delete rid M).
Proof.
  destruct (M !! rid) as [l|] eqn:E; simpl.
  - rewrite <- (mheld_insert M rid l). by rewrite insert_id.
  - by rewrite delete_id.
Qed.

(** The blocks of a table other than the null block. *)
Definition real (null : ref) (l : list ref) : list ref := filter (fun b => b <> null) l.

Lemma real_app null l1 l2 : real null (l1 ++ l2) = real null l1 ++ real null l2.
Proof. apply filter_app. Qed.

Lemma elem_of_real null l b : b ∈ real null l <-> b <> null /\ b ∈ l.
Proof. unfold real. by rewrite list_elem_of_filter. Qed.

Lemma real_nulls null n : real null (replicate n null) = [].
Proof. unfold real. induction n; [done|]. simpl. by rewrite filter_cons_False by auto. Qed.

Lemma NoDup_real null l : NoDup l -> NoDup (real null l).
Proof. apply NoDup_filter. Qed.

Lemma count_real null l b : b <> null -> count b (real null l) = count b l.
Proof.
  intros Hb. unfold real. induction l as [|x l IH]; [done|].
  destruct (decide (x = null)) as [->|].
  - rewrite filter_cons_False by auto. simpl. by rewrite decide_False.
  - rewrite filter_cons_True by done. simpl. by rewrite IH.
Qed.

Lemma NoDup_real_count null l :
  NoDup (real null l) <-> forall b, b <> null -> (count b l <= 1)%nat.
Proof.
  split.
  - intros Hnd b Hb. rewrite <- (count_real null) by done. by apply count_nodup.
  - induction l as [|x l IH]; intros Hc; [constructor|].
    assert (Hc' : forall b, b <> null -> (count b l <= 1)%nat).
    { intros b Hb. specialize (Hc b Hb). simpl in Hc. case_decide; lia. }
    unfold real in *. destruct (decide (x = null)) as [->|Hx].
    + rewrite filter_cons_False by auto. by apply IH.
    + rewrite filter_cons_True by done. apply NoDup_cons. split; [|by apply IH].
      intros [_ Hin]%list_elem_of_filter. specialize (Hc x Hx). simpl in Hc.
      rewrite decide_True in Hc by done. apply count_pos in Hin. lia.
Qed.

(** Only the references to real blocks count. *)
Lemma inv_held_ext p xs L H H' :
  (forall b, b <> null_block p -> count b H' = count b H) -> (forall b, b ∈ H' -> b ∈ blocks p) ->
  pool_inv p xs L H -> pool_inv p xs L H'.
Proof.
  intros He Hin I. destruct I as [R Hbl Hnull Hblk Hfree Hfi Hheld Hc Hh Hnc].
  constructor; try done.
  - intros b Hb. destruct (Hblk b Hb) as (k & ? & ? & Hr). exists k.
    split; [done|]. split; [done|]. intros. rewrite He by done. auto.
  - intros b Hb Hn. rewrite He by done. auto.
Qed.

(** ** The invariant of a manager

    [R] is what the other users of the pool hold. *)
Definition align_reqs (m : Manager) : option Z :=
  match attn (kv_cache_spec m) with Mamba true sp => Some sp | _ => None end.

Record mgr_open (s : St) (rid : string) (l xs R : list ref) : Prop := {
  mo_pool : pool_inv s.2 xs [] (l ++ mheld (delete rid (req_to_blocks s.1)) ++ R);
  mo_null : m_null_block s.1 = null_block s.2;
  mo_bs : 0 < block_size s.1;
  mo_group : group_ok (kv_cache_group_id s.1);
  mo_nodup : NoDup (real (null_block s.2) l);
  mo_others : forall rid' l', rid' <> rid -> req_to_blocks s.1 !! rid' = Some l' ->
    NoDup (real (null_block s.2) l');
  mo_align : match align_reqs s.1 with
             | Some sp => 0 <= sp /\ (rid ∈ allocated_block_reqs s.1 -> sp <= zlen l) /\
                 forall rid', rid' <> rid -> rid' ∈ allocated_block_reqs s.1 ->
                   sp <= zlen (default [] (req_to_blocks s.1 !! rid'))
             | None => True
             end
}.

(** Every table is accounted for. *)
Definition mgr_inv (s : St) (xs R : list ref) : Prop :=
  forall rid, mgr_open s rid (default [] (req_to_blocks s.1 !! rid)) xs R.

(** What the operations never change. *)
Definition mconf (m : Manager) :=
  (scheduler_block_size m, block_size m, kv_cache_spec m, m_enable_caching m,
   max_admission_blocks_per_request m, kv_cache_group_id m, m_null_block m, use_eagle m).
Definition same_conf (s s' : St) : Prop := mconf s'.1 = mconf s.1 /\ config s'.2 = config s.2.

#[export] Instance same_conf_refl : Reflexive same_conf.
Proof. by intros s. Qed.
#[export] Instance same_conf_trans : Transitive same_conf.
Proof. intros s1 s2 s3 [? ?] [? ?]. split; congruence. Qed.

Lemma mconf_eq m m' : mconf m' = mconf m ->
  block_size m' = block_size m /\ kv_cache_spec m' = kv_cache_spec m /\
  m_enable_caching m' = m_enable_caching m /\ kv_cache_group_id m' = kv_cache_group_id m /\
  m_null_block m' = m_null_block m /\ align_reqs m' = align_reqs m.
Proof.
  unfold mconf, align_reqs. intros H. injection H as E1 E2 E3 E4 E5 E6 E7 E8.
  rewrite E3. done.
Qed.

(** Opening one table gives the whole invariant when it is written back. *)
Lemma mgr_close m p rid l xs R :
  mgr_open (m, p) rid l xs R ->
  mgr_inv (set_req_to_blocks (<[rid := l]> (req_to_blocks m)) m, p) xs R.
Proof.
  intros [Hp Hn Hbs Hg Hnd Ho Ha] rid'. simpl in *.
  destruct (decide (rid' = rid)) as [->|Hne].
  - rewrite lookup_insert_eq. simpl. constructor; simpl; try done.
    + by rewrite delete_insert_eq.
    + intros r l' Hr. rewrite lookup_insert_ne by done. by apply Ho.
    + unfold align_reqs in *. simpl in *. destruct (attn _) as [| | |[] sp|]; try done.
      destruct Ha as (? & ? & Ha). split; [done|]. split; [done|].
      intros r Hr. rewrite lookup_insert_ne by done. by apply Ha.
  - rewrite lookup_insert_ne by done. constructor; simpl; try done.
    + eapply inv_held_perm; [|exact Hp]. rewrite !app_assoc. f_equiv.
      rewrite <- (mheld_insert (req_to_blocks m) rid l).
      rewrite (mheld_open (<[rid := l]> _) rid'). by rewrite lookup_insert_ne.
    + destruct (req_to_blocks m !! rid') eqn:E; simpl; [by eapply Ho|constructor].
    + intros r l' Hr. rewrite lookup_insert. case_decide; [intros [= <-]; done|]. by apply Ho.
    + unfold align_reqs in *. simpl in *. destruct (attn _) as [| | |[] sp|]; try done.
      destruct Ha as (? & Hrid & Ha). split; [done|]. split; [by apply Ha|].
      intros r Hr. rewrite lookup_insert. case_decide; [by subst|]. by apply Ha.
Qed.

Lemma mgr_open_inv m p rid l xs R :
  mgr_open (m, p) rid l xs R -> req_to_blocks m !! rid = Some l -> mgr_inv (m, p) xs R.
Proof.
  intros O Hl. apply mgr_close in O. rewrite insert_id in O by done. by destruct m.
Qed.

(** The invariant looks at these fields only. *)
Lemma mgr_open_ext m m' p rid l xs R :
  req_to_blocks m' = req_to_blocks m -> mconf m' = mconf m ->
  allocated_block_reqs m' = allocated_block_reqs m ->
  mgr_open (m, p) rid l xs R -> mgr_open (m', p) rid l xs R.
Proof.
  intros Hr Hc Hal [Hp Hn Hbs Hg Hnd Ho Ha].
  apply mconf_eq in Hc as (E1 & E2 & E3 & E4 & E5 & E6).
  constructor; simpl in *; rewrite ?Hr, ?E1, ?E4, ?E5, ?E6, ?Hal; done.
Qed.

Lemma mgr_inv_ext m m' p xs R :
  mgr_inv (m, p) xs R -> req_to_blocks m' = req_to_blocks m -> mconf m' = mconf m ->
  allocated_block_reqs m' = allocated_block_reqs m -> mgr_inv (m', p) xs R.
Proof.
  intros I Hr Hc Hal rid. eapply mgr_open_ext; [done..|]. simpl. rewrite Hr. apply I.
Qed.

(** Nothing relies on the length of the table of [rid]. *)
Definition unaligned (m : Manager) (rid : string) : Prop :=
  align_reqs m = None \/ rid ∉ allocated_block_reqs m.

Definition long_enough (m : Manager) (rid : string) (l : list ref) : Prop :=
  forall sp, align_reqs m = Some sp -> rid ∈ allocated_block_reqs m -> sp <= zlen l.

Lemma unaligned_long m rid l : unaligned m rid -> long_enough m rid l.
Proof. intros [H|H] sp Hs Hin; [congruence|done]. Qed.

Lemma mo_long m p rid l l' xs R :
  mgr_open (m, p) rid l xs R -> (length l <= length l')%nat -> long_enough m rid l'.
Proof.
  intros [_ _ _ _ _ _ Ha] Hl sp Hs Hin. simpl in Ha. rewrite Hs in Ha.
  destruct Ha as (_ & Hr & _). specialize (Hr Hin). lia.
Qed.

(** A change of the pool and of what the open table holds. *)
Lemma mgr_open_pool m p p' rid l l' xs xs' R :
  mgr_open (m, p) rid l xs R -> config p' = config p ->
  pool_inv p' xs' [] (l' ++ mheld (delete rid (req_to_blocks m)) ++ R) ->
  NoDup (real (null_block p) l') ->
  long_enough m rid l' ->
  mgr_open (m, p') rid l' xs' R.
Proof.
  intros [Hp Hn Hbs Hg Hnd Ho Ha] Hc Hp' Hnd' Hlen. apply config_eq in Hc as (_ & _ & _ & _ & E5 & _).
  constructor; simpl in *; rewrite ?E5; try done.
  destruct (align_reqs m) as [sp|] eqn:Ea; [|done]. destruct Ha as (? & Hr & ?).
  split; [done|]. split; [|done]. by apply Hlen.
Qed.

Section table.
Context {m : Manager} {p : BlockPool} {rid : string} {l xs R : list ref}.
Hypothesis O : mgr_open (m, p) rid l xs R.

Lemma mo_xs_real b : b ∈ xs -> b ∈ blocks p /\ b <> null_block p /\ b ∉ l /\
  b ∉ mheld (delete rid (req_to_blocks m)) ++ R.
Proof.
  intros Hb. pose proof (mo_pool _ _ _ _ _ O) as I. simpl in I.
  destruct (pi_free _ _ _ _ I b Hb) as [? ?]. split; [done|]. split; [done|].
  pose proof (proj1 (pi_free_iff _ _ _ _ I b ltac:(done) ltac:(done)) Hb) as [Hc _].
  assert (Hn : b ∉ l ++ mheld (delete rid (req_to_blocks m)) ++ R).
  { intros Hin%count_pos. lia. }
  rewrite elem_of_app in Hn. tauto.
Qed.

Lemma mo_l_blocks b : b ∈ l -> b ∈ blocks p.
Proof. intros Hb. apply (pi_held _ _ _ _ (mo_pool _ _ _ _ _ O)). set_solver. Qed.
End table.

(** A table loses its entry. *)
Lemma mgr_close_delete m p rid xs R :
  mgr_open (m, p) rid [] xs R -> unaligned m rid ->
  mgr_inv (set_req_to_blocks (delete rid (req_to_blocks m)) m, p) xs R.
Proof.
  intros [Hp Hn Hbs Hg Hnd Ho Ha] Hal rid'. unfold unaligned in Hal. simpl in *.
  destruct (decide (rid' = rid)) as [->|Hne].
  - rewrite lookup_delete_eq. simpl. constructor; simpl; try done.
    + by rewrite delete_delete_eq.
    + intros r l' Hr. rewrite lookup_delete_ne by done. by apply Ho.
    + unfold align_reqs in *. simpl in *. destruct (attn _) as [| | |[] sp|]; try done.
      destruct Hal as [?|Hal]; [done|].
      destruct Ha as (? & _ & Ha). split; [done|]. split; [done|].
      intros r Hr. rewrite lookup_delete_ne by done. by apply Ha.
  - rewrite lookup_delete_ne by done. constructor; simpl; try done.
    + eapply inv_held_perm; [|exact Hp]. rewrite !app_assoc. f_equiv.
      rewrite (mheld_open (delete rid (req_to_blocks m)) rid'). by rewrite lookup_delete_ne.
    + destruct (req_to_blocks m !! rid') eqn:E; simpl; [by eapply Ho|constructor].
    + intros r l' Hr [? Hl]%lookup_delete_Some. apply (Ho r); [congruence|done].
    + unfold align_reqs in *. simpl in *. destruct (attn _) as [| | |[] sp|]; try done.
      destruct Hal as [?|Hal]; [done|].
      destruct Ha as (? & _ & Ha). split; [done|]. split; [by apply Ha|].
      intros r Hr Hin. destruct (decide (r = rid)) as [->|]; [done|].
      rewrite lookup_delete_ne by done. by apply Ha.
Qed.

(** ** Reading and writing tables *)

Lemma req_blocks_spec m p rid xs R :
  mgr_inv (m, p) xs R ->
  wp (req_blocks rid) (fun l s' => l = default [] (req_to_blocks m !! rid) /\
      s' = (set_req_to_blocks (<[rid := l]> (req_to_blocks m)) m, p) /\
      mgr_open s' rid l xs R) (m, p).
Proof.
  intros I. unfold req_blocks, mgr. wp_steps. simpl. specialize (I rid) as O. simpl in O.
  destruct (req_to_blocks m !! rid) as [l|] eqn:E; simpl in O.
  - apply wp_ret. rewrite insert_id by done. split; [done|].
    assert (Hm : set_req_to_blocks (req_to_blocks m) m = m) by (by destruct m).
    rewrite Hm. split; [done|exact O].
  - unfold set_mgr. wp_steps. simpl. split; [done|]. split; [done|].
    apply mgr_close in O as I'. specialize (I' rid). simpl in I'. by rewrite lookup_insert_eq in I'.
Qed.

Lemma write_blocks_spec m p rid l xs R :
  mgr_open (m, p) rid l xs R ->
  wp (write_blocks rid l) (fun _ s' =>
      s' = (set_req_to_blocks (<[rid := l]> (req_to_blocks m)) m, p) /\ mgr_inv s' xs R) (m, p).
Proof.
  intros O. unfold write_blocks, mgr, set_mgr. wp_steps. simpl. split; [done|]. by apply mgr_close.
Qed.

(** ** Taking blocks from the pool and giving them back *)

Section pool_ops.
Context (use_int : bool).

Lemma alloc_spec m p rid l xs R n :
  mgr_open (m, p) rid l xs R -> 0 <= n <= zlen xs ->
  wp (get_new_blocks use_int n) (fun ret p' => exists zs, xs = ret ++ zs /\ zlen ret = n /\
      config p' = config p /\ mgr_open (m, p') rid (l ++ ret) zs R) p.
Proof.
  intros O Hn. pose proof (mo_pool _ _ _ _ _ O) as I. simpl in I.
  destruct (take_app_drop_split (Z.to_nat n) xs) as (ys & zs & -> & Hl & _ & _); [lia|].
  replace n with (zlen ys) by lia.
  eapply wp_mono; [apply get_new_blocks_spec; exact I|]. intros r p' (-> & I' & Hc & _).
  exists zs. split; [done|]. split; [done|]. split; [done|].
  eapply mgr_open_pool; [exact O|done| | |eapply mo_long; [exact O|rewrite length_app; lia]].
  - eapply inv_held_perm; [|exact I'].
    rewrite (Permutation_app_comm l ys). by rewrite <- app_assoc.
  - rewrite real_app. apply NoDup_app. split; [apply O|]. pose proof (inv_nodup I) as Hnd.
    apply NoDup_app in Hnd as (Hy & _ & _). split; [|by apply NoDup_real].
    intros b [_ Hb]%elem_of_real [_ Hb']%elem_of_real.
    destruct (mo_xs_real O b) as (_ & _ & ? & _); [set_solver|done].
Qed.

Lemma alloc_wpx m p rid l xs R n :
  mgr_open (m, p) rid l xs R -> 0 <= n ->
  wpx (get_new_blocks use_int n) (fun ret p' => exists zs, xs = ret ++ zs /\ zlen ret = n /\
      config p' = config p /\ mgr_open (m, p') rid (l ++ ret) zs R)
    (fun e p' => e = ValueError /\ p' = p /\ zlen xs < n) p.
Proof.
  intros O Hn. destruct (decide (n <= zlen xs)) as [Hle|Hgt].
  - by apply wpx_wp, alloc_spec.
  - unfold wpx. rewrite (get_new_blocks_too_many use_int p xs [] _ n (mo_pool _ _ _ _ _ O)) by lia.
    split; [done|]. split; [done|lia].
Qed.

(** [fs] leaves the table, [l'] stays in it. *)
Lemma give_back_spec m p rid l l' fs xs R prepend :
  mgr_open (m, p) rid l xs R ->
  (forall b, b <> null_block p -> count b l = (count b fs + count b l')%nat) ->
  (forall b, b ∈ fs -> b ∈ blocks p) -> (forall b, b ∈ l' -> b ∈ blocks p) ->
  long_enough m rid l' ->
  wp (free_blocks fs prepend) (fun _ p' => exists xs', config p' = config p /\
      mgr_open (m, p') rid l' xs' R) p.
Proof.
  intros O Hc Hfs Hl' Hal. pose proof (mo_pool _ _ _ _ _ O) as I. simpl in I.
  set (rest := mheld (delete rid (req_to_blocks m)) ++ R) in *.
  assert (I2 : pool_inv p xs [] (fs ++ l' ++ rest)).
  { eapply inv_held_ext; [| |exact I].
    - intros b Hb. rewrite !count_app, Hc by done. lia.
    - intros b. rewrite !elem_of_app. intros [?|[?|?]]; [auto|auto|].
      apply (pi_held _ _ _ _ I). rewrite elem_of_app. by right. }
  assert (Hnd : forall b, b <> null_block p -> (count b fs + count b l' <= 1)%nat).
  { intros b Hb. rewrite <- Hc by done. pose proof (mo_nodup _ _ _ _ _ O) as Hnd.
    exact (proj1 (NoDup_real_count _ _) Hnd b Hb). }
  eapply wp_mono; [eapply (free_blocks_spec p xs _ fs (l' ++ rest)); [exact I2|done|]|].
  - apply NoDup_real_count. intros b Hb. specialize (Hnd b Hb). lia.
  - intros _ p' (I' & Hcfg & _). eexists. split; [done|]. eapply mgr_open_pool; [exact O|done|exact I'| |done].
    apply NoDup_real_count. intros b Hb. specialize (Hnd b Hb). lia.
Qed.

(** Rearranging a table and padding it with null blocks. *)
Lemma mgr_open_shuffle m p rid l l' xs R :
  mgr_open (m, p) rid l xs R ->
  (forall b, b <> null_block p -> count b l' = count b l) ->
  (forall b, b ∈ l' -> b ∈ l \/ b = null_block p) -> long_enough m rid l' ->
  mgr_open (m, p) rid l' xs R.
Proof.
  intros O Hc Hin Hl. pose proof (mo_pool _ _ _ _ _ O) as I. simpl in I.
  eapply mgr_open_pool; [exact O|done| | |done].
  - eapply inv_held_ext; [| |exact I].
    + intros b Hb. by rewrite !count_app, Hc.
    + intros b [[?| ->]%Hin|?]%elem_of_app; [|apply I|]; apply (pi_held _ _ _ _ I); set_solver.
  - apply NoDup_real_count. intros b Hb. rewrite Hc by done.
    exact (proj1 (NoDup_real_count _ _) (mo_nodup _ _ _ _ _ O) b Hb).
Qed.

(** Taking over blocks that the prefix cache found. *)
Lemma touch_open m p rid l xs R bs :
  mgr_open (m, p) rid l xs R -> (forall b, b ∈ bs -> b ∈ blocks p) ->
  NoDup (real (null_block p) (l ++ bs)) ->
  wp (touch bs) (fun _ p' => config p' = config p /\
      mgr_open (m, p') rid (l ++ bs) (filter (fun x => x ∉ bs) xs) R) p.
Proof.
  intros O Hbs Hnd. eapply wp_mono; [apply touch_spec; [apply O|done]|].
  intros _ p' (I' & Hc & _). split; [done|].
  eapply mgr_open_pool; [exact O|done| |done|eapply mo_long; [exact O|rewrite length_app; lia]].
  eapply inv_held_perm; [|exact I']. simpl.
  rewrite (Permutation_app_comm l bs). by rewrite <- app_assoc.
Qed.
End pool_ops.

(** ** The operations *)

Section manager_ops.
Context (use_int : bool) (sha256 : bytes -> bytes).

Definition table (m : Manager) (rid : string) : list ref := default [] (req_to_blocks m !! rid).

(** A change of bookkeeping fields only. *)
Definition book (m m' : Manager) : Prop :=
  req_to_blocks m' = req_to_blocks m /\ mconf m' = mconf m /\
  allocated_block_reqs m' = allocated_block_reqs m.

Lemma record_new_ids_spec ids m p :
  wp (record_new_ids ids) (fun _ s' => s'.2 = p /\ book m s'.1 /\
      num_cached_block s'.1 = num_cached_block m) (m, p).
Proof.
  unfold record_new_ids, mgr, set_mgr. wp_steps. simpl. destruct (counted_spec m); wp_steps; done.
Qed.

Lemma on_pool_wpx {A} (c : M BlockPool A) Q E m p :
  wpx c (fun a p' => Q a (m, p')) (fun e p' => E e (m, p')) p -> wpx (on_pool c) Q E (m, p).
Proof. intros H. by apply wpx_zoom. Qed.

Lemma on_pool_wp {A} (c : M BlockPool A) Q m p :
  wp c (fun a p' => Q a (m, p')) p -> wp (on_pool c) Q (m, p).
Proof. intros H. by apply wp_zoom. Qed.

(** [allocate_new_blocks]: the table grows by fresh blocks to the required
    length, or the pool is too small, a ValueError, and the table is as
    before. *)
Lemma base_allocate_new_blocks_wpx m p rid nt xs R :
  mgr_inv (m, p) xs R ->
  let need := Z.max 0 (cdiv nt (block_size m) - zlen (table m rid)) in
  wpx (base_allocate_new_blocks use_int rid nt) (fun ret s' => exists xs',
        mgr_inv s' xs' R /\ same_conf (m, p) s' /\ xs = ret ++ xs' /\ zlen ret = need /\
        req_to_blocks s'.1 = <[rid := table m rid ++ ret]> (req_to_blocks m) /\
        num_cached_block s'.1 = num_cached_block m)
    (fun e s' => e = ValueError /\ zlen xs < need /\ mgr_inv s' xs R) (m, p).
Proof.
  intros I need. unfold base_allocate_new_blocks. apply wpx_bind, wpx_gets, wpx_bind.
  apply wpx_wp. eapply wp_mono; [by apply req_blocks_spec|]. intros l s' (-> & -> & O).
  fold (table m rid) in *. set (m1 := set_req_to_blocks _ m) in *.
  assert (Hbs : 0 < block_size m) by apply O.
  unfold cdiv_m. cbn [fst snd]. rewrite (proj2 (Z.eqb_neq _ _)) by lia. apply wpx_bind, wpx_ret.
  destruct (Z.leb_spec (cdiv nt (block_size m) - zlen (table m rid)) 0) as [Hle|Hgt].
  - apply wpx_ret. exists xs. split.
    { apply mgr_close in O. unfold m1 in O. simpl in O. by rewrite insert_insert_eq in O. }
    split; [done|]. split; [done|]. split; [simpl; lia|]. by rewrite app_nil_r.
  - apply wpx_bind, on_pool_wpx. eapply wpx_mono; [eapply alloc_wpx; [exact O|lia]|..].
    2: { intros e p' (-> & -> & Hlt). split; [done|]. split; [lia|].
         apply mgr_close in O. unfold m1 in O. simpl in O. by rewrite insert_insert_eq in O. }
    intros ret p' (zs & -> & Hlen & Hc & O'). apply wpx_bind, wpx_wp.
    eapply wp_mono; [by eapply write_blocks_spec|]. intros _ s' (-> & I').
    apply wpx_bind, wpx_wp. eapply wp_mono; [apply record_new_ids_spec|].
    intros _ [m2 p2] (Hp2 & (Hr & Hcf & Hal) & Hnc). simpl in *. subst p2.
    apply wpx_ret. exists zs. split; [by apply (mgr_inv_ext _ m2 _ _ _ I')|].
    split; [split; [exact Hcf|exact Hc]|].
    split; [done|]. split; [lia|]. split; [|done]. simpl. rewrite Hr. by rewrite insert_insert_eq.
Qed.

(** The windows and chunks of a spec are not empty. *)
Definition spec_ok (spec : KVCacheSpec) : Prop :=
  match attn spec with
  | SlidingWindow w => 0 < w
  | ChunkedLocalAttention c => 0 < c
  | Mamba _ sp => 0 <= sp
  | _ => True
  end.

Definition num_skipped (spec : KVCacheSpec) (n : Z) : Z :=
  match attn spec with
  | FullAttention _ | CrossAttention => 0
  | SlidingWindow w => Z.max 0 (n - w + 1)
  | ChunkedLocalAttention c => n / c * c
  | Mamba _ _ => n - 1
  end.

Lemma get_num_skipped_tokens_spec m n s :
  spec_ok (kv_cache_spec m) ->
  get_num_skipped_tokens m n s = (Ok (num_skipped (kv_cache_spec m) n), s).
Proof.
  unfold spec_ok, get_num_skipped_tokens, num_skipped, floordiv.
  destruct (attn (kv_cache_spec m)); try done. intros Hc. unfold mbind, M_bind.
  by rewrite (proj2 (Z.eqb_neq _ _)) by lia.
Qed.

Lemma num_skipped_le spec n : spec_ok spec -> 0 <= n -> num_skipped spec n <= n.
Proof.
  unfold spec_ok, num_skipped. destruct (attn spec) as [|w|c| |]; intros Hs Hn; try lia.
  pose proof (Z.mul_div_le n c Hs). lia.
Qed.

(** What [allocate_new_computed_blocks] puts in a new table before any external
    tokens: padding for the skipped blocks, then the hits behind them. *)
Definition skipped_blocks (m : Manager) (total : Z) : Z :=
  num_skipped (kv_cache_spec m) total / block_size m.
Definition kept_hits (m : Manager) (total : Z) (ncb : list ref) : list ref :=
  if 0 <? skipped_blocks m total then drop (Z.to_nat (skipped_blocks m total)) ncb else ncb.
Definition hit_table (m : Manager) (total : Z) (ncb : list ref) : list ref :=
  replicate (Z.to_nat (skipped_blocks m total)) (m_null_block m) ++ kept_hits m total ncb.

Lemma hit_table_length m total ncb :
  zlen (hit_table m total ncb) = Z.max (Z.max 0 (skipped_blocks m total)) (zlen ncb).
Proof.
  unfold hit_table, kept_hits. rewrite length_app, length_replicate.
  destruct (Z.ltb_spec 0 (skipped_blocks m total)); [rewrite length_drop|]; lia.
Qed.

(** Blocks allocated for external tokens. *)
Definition external_need (m : Manager) (ncb : list ref) (local ext : Z) : Z :=
  let total := local + ext in
  let ext' := if 0 <? skipped_blocks m total
              then Z.min (total - num_skipped (kv_cache_spec m) total) ext else ext in
  if 0 <? ext' then cdiv total (block_size m) - zlen (hit_table m total ncb) else 0.

Lemma external_need_nonneg m ncb local ext :
  spec_ok (kv_cache_spec m) -> 0 < block_size m -> local = zlen ncb * block_size m -> 0 <= ext ->
  0 <= external_need m ncb local ext.
Proof.
  intros Hs Hbs -> He. unfold external_need. cbv zeta.
  destruct (Z.ltb_spec 0 (if 0 <? skipped_blocks m (zlen ncb * block_size m + ext)
     then Z.min (zlen ncb * block_size m + ext - num_skipped (kv_cache_spec m)
       (zlen ncb * block_size m + ext)) ext else ext)); [|lia].
  rewrite hit_table_length. set (t := zlen ncb * block_size m + ext) in *.
  pose proof (num_skipped_le (kv_cache_spec m) t Hs ltac:(nia)) as Hle.
  assert (skipped_blocks m t <= cdiv t (block_size m)).
  { unfold skipped_blocks. rewrite cdiv_spec by done. apply Z.div_le_mono; lia. }
  assert (zlen ncb <= cdiv t (block_size m)).
  { rewrite cdiv_spec by done. apply Z.div_le_lower_bound; [done|]. unfold t. nia. }
  pose proof (cdiv_nonneg t (block_size m) Hbs ltac:(nia)). lia.
Qed.

Lemma set_num_cached_book v m :
  book m (set_num_cached_block v m).
Proof. done. Qed.

Lemma kept_hits_incl m total ncb b : b ∈ kept_hits m total ncb -> b ∈ ncb.
Proof.
  unfold kept_hits. case_match; [|done]. intros Hb.
  rewrite <- (take_drop (Z.to_nat (skipped_blocks m total)) ncb). set_solver.
Qed.

Lemma real_hit_table m p total ncb :
  m_null_block m = null_block p -> NoDup (real (null_block p) ncb) ->
  NoDup (real (null_block p) (hit_table m total ncb)).
Proof.
  intros Hn Hnd. unfold hit_table, kept_hits. rewrite Hn, real_app, real_nulls. simpl.
  case_match; [|done].
  rewrite <- (take_drop (Z.to_nat (skipped_blocks m total)) ncb) in Hnd.
  rewrite real_app in Hnd. by apply NoDup_app in Hnd as (_ & _ & ?).
Qed.

Lemma filter_not_in_nil (xs : list ref) : filter (fun x => x ∉ []) xs = xs.
Proof. apply filter_all. set_solver. Qed.

(** The pool part: the hits are touched (or there are none). *)
Lemma touch_hits_wpx m p rid xs R kept :
  mgr_open (m, p) rid [] xs R -> (forall b, b ∈ kept -> b ∈ blocks p) ->
  NoDup (real (null_block p) kept) ->
  wpx (if m_enable_caching m then on_pool (touch kept) else assert_ (zlen kept =? 0))
    (fun _ s' => s'.1 = m /\ config s'.2 = config p /\
        mgr_open s' rid kept (filter (fun x => x ∉ kept) xs) R)
    (fun e _ => e = AssertionError /\ m_enable_caching m = false /\ kept <> []) (m, p).
Proof.
  intros O Hk Hnd. destruct (m_enable_caching m) eqn:Ec.
  - apply on_pool_wpx, wpx_wp. eapply wp_mono; [by eapply touch_open|].
    intros _ p' [Hc O']. split; [done|]. split; [done|]. exact O'.
  - apply wpx_assert.
    + intros Hz%Z.eqb_eq. destruct kept; [|simpl in Hz; lia]. rewrite filter_not_in_nil. done.
    + intros Hz%Z.eqb_neq. split; [done|]. split; [done|]. intros ->. done.
Qed.

(** Adding null blocks to a table. *)
Lemma count_nulls (null : ref) k b : b <> null -> count b (replicate k null) = O.
Proof. intros Hb. apply count_not_in. by intros [? _]%elem_of_replicate. Qed.

Lemma mgr_open_nulls m p rid l k xs R :
  mgr_open (m, p) rid l xs R ->
  mgr_open (m, p) rid (replicate k (m_null_block m) ++ l) xs R.
Proof.
  intros O. pose proof (mo_null _ _ _ _ _ O) as Hn. simpl in Hn. rewrite Hn.
  apply (mgr_open_shuffle _ _ _ l); [done|..].
  - intros b Hb. by rewrite count_app, count_nulls.
  - intros b [[-> _]%elem_of_replicate|]%elem_of_app; auto.
  - eapply mo_long; [exact O|rewrite length_app; lia].
Qed.

Lemma base_allocate_new_computed_blocks_wpx m p rid ncb local ext xs R :
  mgr_inv (m, p) xs R -> spec_ok (kv_cache_spec m) -> num_cached_block m !! rid = None ->
  (forall b, b ∈ ncb -> b ∈ blocks p) -> NoDup (real (null_block p) ncb) ->
  local = zlen ncb * block_size m -> 0 <= ext ->
  let kept := kept_hits m (local + ext) ncb in
  let need := external_need m ncb local ext in
  wpx (base_allocate_new_computed_blocks use_int rid ncb local ext) (fun _ s' => exists alloc xs',
        mgr_inv s' xs' R /\ same_conf (m, p) s' /\
        filter (fun x => x ∉ kept) xs = alloc ++ xs' /\ zlen alloc = need /\ table m rid = [] /\
        req_to_blocks s'.1 = <[rid := hit_table m (local + ext) ncb ++ alloc]> (req_to_blocks m) /\
        num_cached_block s'.1 = <[rid := zlen (hit_table m (local + ext) ncb)]> (num_cached_block m))
    (fun e s' => (e = AssertionError /\ (table m rid <> [] \/ m_enable_caching m = false /\ kept <> []))
       \/ (e = ValueError /\ zlen (filter (fun x => x ∉ kept) xs) < need)) (m, p).
Proof.
  intros I Hs Hnc Hncb Hnd Hloc Hext kept need.
  assert (Hbs : 0 < block_size m) by apply (I rid).
  assert (Hneed : 0 <= need) by (by apply external_need_nonneg).
  unfold base_allocate_new_computed_blocks. apply wpx_bind, wpx_gets. cbn [fst].
  rewrite Hnc. cbn [is_some]. apply wpx_bind, wpx_wp.
  eapply wp_mono; [by apply req_blocks_spec|]. intros l s' (-> & -> & O). fold (table m rid) in *.
  apply wpx_bind, wpx_assert.
  2: { intros Hz%Z.eqb_neq. left. split; [done|]. left. intros Ht. by rewrite Ht in Hz. }
  intros Ht%Z.eqb_eq. assert (Htn : table m rid = []) by (destruct (table m rid); [done|simpl in Ht; lia]).
  rewrite Htn in *. set (m1 := set_req_to_blocks _ m) in *.
  apply wpx_bind. unfold wpx at 1. rewrite get_num_skipped_tokens_spec by done.
  unfold floordiv. rewrite (proj2 (Z.eqb_neq _ _)) by lia. apply wpx_bind, wpx_ret.
  change (num_skipped (kv_cache_spec m) (local + ext) / block_size m) with (skipped_blocks m (local + ext)).
  set (k := skipped_blocks m (local + ext)) in *.
  change (if 0 <? k then drop (Z.to_nat k) ncb else ncb) with kept.
  apply wpx_bind. change (m_enable_caching m) with (m_enable_caching m1).
  eapply wpx_mono; [apply (touch_hits_wpx m1 p rid xs R kept); [exact O| |]|..].
  { intros b Hb%kept_hits_incl. auto. }
  { unfold kept, kept_hits. case_match; [|done].
    rewrite <- (take_drop (Z.to_nat (skipped_blocks m (local + ext))) ncb) in Hnd.
    rewrite real_app in Hnd. by apply NoDup_app in Hnd as (_ & _ & ?). }
  2: { intros e s' (-> & ? & ?). left. split; [done|]. by right. }
  intros _ [m2 p2] (Hm2 & Hc2 & O2). simpl in Hm2, Hc2. subst m2.
  apply (mgr_open_nulls _ _ _ _ (Z.to_nat k)) in O2. change (m_null_block m1) with (m_null_block m) in O2.
  change (replicate (Z.to_nat k) (m_null_block m) ++ kept) with (hit_table m (local + ext) ncb) in O2 |- *.
  simpl app. apply wpx_bind, wpx_wp. eapply wp_mono; [by eapply write_blocks_spec|].
  intros _ s3 (-> & I3). apply wpx_bind, wpx_modify. cbn [fst snd].
  set (rb := hit_table m (local + ext) ncb) in *. set (m3 := set_num_cached_block _ _).
  assert (I3' : mgr_inv (m3, p2) (filter (fun x => x ∉ kept) xs) R) by exact (mgr_inv_ext _ m3 _ _ _ I3 eq_refl eq_refl eq_refl).
  assert (Hr3 : req_to_blocks m3 = <[rid := rb]> (req_to_blocks m)).
  { unfold m3, m1. simpl. by rewrite insert_insert_eq. }
  unfold need, external_need in Hneed |- *. cbv zeta in Hneed |- *. fold k rb in Hneed |- *.
  case_match.
  2: { apply wpx_ret. exists [], (filter (fun x => x ∉ kept) xs). split; [done|].
       split; [by split|]. split; [done|]. split; [done|]. split; [done|].
       split; [by rewrite app_nil_r|done]. }
  unfold cdiv_m. rewrite (proj2 (Z.eqb_neq (block_size m) 0)) by lia. apply wpx_bind, wpx_ret.
  pose proof (I3' rid) as O3. cbn [fst] in O3. rewrite Hr3, lookup_insert_eq in O3. cbn [default] in O3.
  apply wpx_bind, on_pool_wpx. eapply wpx_mono; [by eapply alloc_wpx|..].
  2: { intros e p' (-> & -> & Hlt). by right. }
  intros ret p' (zs & Hxs & Hlen & Hc & O'). apply wpx_bind, wpx_wp.
  eapply wp_mono; [by eapply write_blocks_spec|]. intros _ s' (-> & I').
  apply wpx_wp. eapply wp_mono; [apply record_new_ids_spec|].
  intros _ [m4 p4] (Hp4 & (Hr & Hcf & Hal) & Hnc4). simpl in *. subst p4.
  exists ret, zs. split; [by apply (mgr_inv_ext _ m4 _ _ _ I')|].
  split; [split; [exact Hcf|simpl; congruence]|]. split; [done|]. split; [done|]. split; [done|].
  split; [|done]. rewrite Hr, Hr3. by rewrite insert_insert_eq.
Qed.

(** ** Releasing *)

Lemma count_filter_split (P : ref -> bool) b l :
  (count b (List.filter P l) + count b (List.filter (fun x => negb (P x)) l) = count b l)%nat.
Proof. induction l as [|x l IH]; [done|]. simpl. destruct (P x); simpl; lia. Qed.

(** [split_hashed] partitions by a predicate on the blocks. *)
Lemma split_hashed_spec m p l :
  (forall b, b ∈ l -> is_Some (kstore p !! b)) ->
  wp (split_hashed l) (fun r s' => s' = (m, p) /\
      r.1 = List.filter (fun b => is_some (hash_of (kstore p) b)) l /\
      r.2 = List.filter (fun b => negb (is_some (hash_of (kstore p) b))) l) (m, p).
Proof.
  induction l as [|b l IH]; intros Hl; cbn [split_hashed]; [by apply wp_ret|].
  destruct (Hl b) as [k Hk]; [set_solver|]. apply wp_bind, on_pool_wp. eapply wp_block_at; [done|].
  apply wp_bind. eapply wp_mono; [apply IH; set_solver|]. intros r s' (-> & H1 & H2). apply wp_ret.
  split; [done|]. assert (Hh : hash_of (kstore p) b = block_hash k).
  { unfold hash_of. by rewrite Hk. }
  cbn [List.filter]. rewrite Hh. destruct (block_hash k); simpl; by rewrite H1, H2.
Qed.

Lemma mo_l_stored m p rid l xs R b : mgr_open (m, p) rid l xs R -> b ∈ l -> is_Some (kstore p !! b).
Proof.
  intros O Hb. pose proof (mo_l_blocks O b Hb) as Hbb.
  destruct (pi_block _ _ _ _ (mo_pool _ _ _ _ _ O) b Hbb) as (k & ? & _). eauto.
Qed.

(** The table is removed first; the references are given back afterwards. *)
Lemma pop_blocks_spec m p rid xs R :
  mgr_inv (m, p) xs R ->
  wp (pop_blocks rid) (fun l s' => l = table m rid /\
      s' = (set_req_to_blocks (delete rid (req_to_blocks m)) m, p) /\ mgr_open s' rid l xs R) (m, p).
Proof.
  intros I. unfold pop_blocks, mgr, set_mgr. wp_steps. simpl. split; [done|]. split; [done|].
  destruct (I rid) as [Hp Hn Hbs Hg Hnd Ho Ha]. simpl in *. constructor; simpl; try done.
  - by rewrite delete_delete_eq.
  - intros r l' Hr. rewrite lookup_delete_ne by done. by apply Ho.
  - unfold align_reqs in *. simpl in *. destruct (attn _) as [| | |[] sp|]; try done.
    destruct Ha as (? & ? & Ha). split; [done|]. split; [done|].
    intros r Hr. rewrite lookup_delete_ne by done. by apply Ha.
Qed.

(** After [free]: the request has no table and no cached count, and every
    reference of its table is given back. *)
Definition freed_state (m : Manager) (p : BlockPool) (rid : string) (R : list ref) (s' : St) : Prop :=
  (exists xs', mgr_inv s' xs' R) /\ same_conf (m, p) s' /\
  req_to_blocks s'.1 = delete rid (req_to_blocks m) /\
  num_cached_block s'.1 = delete rid (num_cached_block m).

Lemma finish_free m m1 p p' rid xs R :
  req_to_blocks m1 = delete rid (req_to_blocks m) -> mconf m1 = mconf m ->
  num_cached_block m1 = num_cached_block m ->
  mgr_open (m1, p') rid [] xs R -> unaligned m1 rid -> config p' = config p ->
  wp (forget_cached rid) (fun _ s' => freed_state m p rid R s') (m1, p').
Proof.
  intros Hr Hcf Hnc O Hal Hc. unfold forget_cached, set_mgr. apply wp_modify. cbn [fst snd].
  unfold freed_state. split; [|split; [by split|split; [done|simpl; by rewrite Hnc]]].
  exists xs. apply mgr_close_delete in O; [|done].
  apply (mgr_inv_ext _ _ _ _ _ O); try done. simpl. rewrite Hr. by rewrite delete_delete_eq.
Qed.

Lemma base_free_spec m p rid xs R :
  mgr_inv (m, p) xs R -> unaligned m rid ->
  wp (base_free rid) (fun _ s' => freed_state m p rid R s') (m, p).
Proof.
  intros I Hal. unfold base_free. apply wp_bind. eapply wp_mono; [by apply pop_blocks_spec|].
  intros l s' (-> & -> & O). set (m1 := set_req_to_blocks _ m) in *.
  apply wp_bind, on_pool_wp. eapply wp_mono;
    [eapply (give_back_spec m1 p rid (table m rid) [] (reverse (table m rid))); [exact O|..]|].
  - intros b _. rewrite count_reverse. simpl. lia.
  - intros b Hb. rewrite elem_of_reverse in Hb. by apply (mo_l_blocks O).
  - set_solver.
  - by apply unaligned_long.
  - intros _ p' (xs' & Hc & O'). by eapply (finish_free m m1).
Qed.

Lemma free_spec m p rid xs R :
  mgr_inv (m, p) xs R -> wp (free rid) (fun _ s' => freed_state m p rid R s') (m, p).
Proof.
  intros I. unfold free. apply wp_bind, wp_gets. cbn [fst].
  destruct (attn (kv_cache_spec m)) as [c|w|c|al sp|] eqn:Ea.
  all: try (apply (base_free_spec m p rid xs R I); left; unfold align_reqs; by rewrite Ea).
  - assert (Hal : forall m1, kv_cache_spec m1 = kv_cache_spec m -> unaligned m1 rid).
    { intros m1 E. left. unfold align_reqs. by rewrite E, Ea. }
    apply wp_bind. eapply wp_mono; [by apply pop_blocks_spec|]. intros l s' (-> & -> & O).
    set (m1 := set_req_to_blocks _ m) in *. apply wp_bind.
    destruct (table m rid) as [|b0 l0] eqn:Et.
    { apply wp_ret. eapply (finish_free m m1); try done. by apply Hal. }
    rewrite <- Et in *. clear Et b0 l0. apply wp_bind.
    eapply wp_mono; [apply split_hashed_spec|].
    { intros b Hb. rewrite elem_of_reverse in Hb. by eapply mo_l_stored. }
    intros r s' (-> & -> & ->). set (P := fun b => is_some (hash_of (kstore p) b)).
    assert (Hin : forall (Q : ref -> bool) b, b ∈ List.filter Q (reverse (table m rid)) -> b ∈ blocks p).
    { intros Q b Hb. apply list_elem_of_In, filter_In in Hb as [Hb _]. apply list_elem_of_In in Hb.
      apply (mo_l_blocks O). by rewrite elem_of_reverse in Hb. }
    apply wp_bind, on_pool_wp. eapply wp_mono;
      [eapply (give_back_spec m1 p rid (table m rid)
         (List.filter (fun x => negb (P x)) (reverse (table m rid))) (List.filter P (reverse (table m rid))));
       [exact O|..]|].
    + intros b _. by rewrite count_filter_split, count_reverse.
    + apply Hin.
    + apply Hin.
    + by apply unaligned_long, Hal.
    + intros _ p' (xs1 & Hc1 & O1). pose proof (config_eq _ _ Hc1) as (_ & _ & _ & E4 & _).
      apply on_pool_wp. eapply wp_mono; [eapply (give_back_spec m1 p' rid _ []); [exact O1|..]|].
      * intros b _. cbn [count]. rewrite Nat.add_0_r. reflexivity.
      * rewrite E4. apply Hin.
      * set_solver.
      * by apply unaligned_long, Hal.
      * intros _ p'' (xs2 & Hc2 & O2). eapply (finish_free m m1); try done; [by apply Hal|congruence].
  - destruct al; [|apply (base_free_spec m p rid xs R I); left; unfold align_reqs; by rewrite Ea].
    unfold set_mgr. apply wp_bind, wp_modify, wp_bind, wp_modify. cbn [fst snd].
    set (m1 := set_last_state _ _).
    assert (I1 : mgr_inv (m1, p) xs R).
    { intros r. destruct (I r) as [Hp Hn Hbs Hg Hnd Ho Ha]. constructor; simpl in *; try done.
      unfold align_reqs in *. simpl. rewrite Ea in *. destruct Ha as (? & Hr & Ha).
      split; [done|]. split; [intros Hin; apply Hr; set_solver|].
      intros r' Hr' Hin. apply Ha; [done|set_solver]. }
    eapply wp_mono; [apply (base_free_spec m1 p rid xs R I1)|].
    + right. simpl. set_solver.
    + intros _ s' (Hinv & Hcf & Hr & Hnc). split; [done|]. split; [done|]. by split.
Qed.

(** ** Removing skipped blocks *)

Lemma wp_of_option_some {S A} e (a : A) (Q : A -> S -> Prop) s :
  Q a s -> wp (of_option e (Some a)) Q s.
Proof. done. Qed.

Lemma elem_of_insert_null (l : list ref) i (null b : ref) :
  b ∈ <[i := null]> l -> b ∈ l \/ b = null.
Proof.
  intros [j Hj]%list_elem_of_lookup. apply list_lookup_insert_Some in Hj as [(_ & -> & _)|[_ Hj]].
  - by right.
  - left. by eapply list_elem_of_lookup_2.
Qed.

(** The table [remove_loop] leaves: null below [i], down to the first null. *)
Fixpoint trim (null : ref) (i : nat) (blks : list ref) : list ref :=
  match i with
  | O => blks
  | S i' => if decide (blks !! i' = Some null) then blks else trim null i' (<[i' := null]> blks)
  end.

(** The blocks leave the table, and are sorted by whether they have a hash. *)
Lemma remove_loop_spec m p i : forall blks cached uncached,
  (i <= length blks)%nat -> (forall b, b ∈ blks -> b <> null_block p -> is_Some (kstore p !! b)) ->
  wp (remove_loop (null_block p) i blks cached uncached) (fun r s' => s' = (m, p) /\
      exists fc fu, r.1.2 = cached ++ fc /\ r.2 = uncached ++ fu /\
        length r.1.1 = length blks /\
        (forall b, b <> null_block p ->
           count b blks = (count b fc + (count b fu + count b r.1.1))%nat) /\
        (forall b, b ∈ fc \/ b ∈ fu -> b ∈ blks \/ b = null_block p) /\
        (forall b, b ∈ r.1.1 -> b ∈ blks \/ b = null_block p) /\
        r.1.1 = trim (null_block p) i blks) (m, p).
Proof.
  induction i as [|i IH]; intros blks cached uncached Hi Hst; cbn [remove_loop trim].
  { apply wp_ret. split; [done|]. exists [], []. rewrite !app_nil_r. repeat split; try done; set_solver. }
  destruct (lookup_lt_is_Some_2 blks i) as [b Hb]; [lia|]. rewrite Hb.
  apply wp_bind, wp_of_option_some. destruct (decide (b = null_block p)) as [->|Hbn].
  { rewrite decide_True by done. apply wp_ret. split; [done|]. exists [], []. rewrite !app_nil_r. repeat split; try done; set_solver. }
  rewrite decide_False by congruence.
  assert (Hbin : b ∈ blks) by by eapply list_elem_of_lookup_2.
  destruct (Hst b Hbin Hbn) as [k Hk]. apply wp_bind, on_pool_wp. eapply wp_block_at; [done|].
  assert (Hst' : forall b', b' ∈ <[i := null_block p]> blks -> b' <> null_block p ->
            is_Some (kstore p !! b')).
  { intros b' [?|?]%elem_of_insert_null ?; [auto|done]. }
  assert (Hcnt : forall c, c <> null_block p ->
     count c blks = (count c (<[i := null_block p]> blks) + (if decide (c = b) then 1 else 0))%nat).
  { intros c Hc. pose proof (count_insert c blks i b (null_block p) Hb) as He.
    rewrite (decide_False (P := c = null_block p)) in He by done. lia. }
  destruct (is_some (block_hash k)).
  all: eapply wp_mono; [apply (IH (<[i := null_block p]> blks)); [rewrite length_insert; lia|done]|].
  all: intros r s' (-> & fc & fu & E1 & E2 & El & Hc & Hf & Hr & Htr); split; [done|].
  all: assert (Hin : forall c, c ∈ <[i := null_block p]> blks \/ c = null_block p ->
          c ∈ blks \/ c = null_block p)
    by (intros c [Hc'|]; [by apply elem_of_insert_null in Hc'|auto]).
  - exists (b :: fc), fu. rewrite E1, E2, <- app_assoc. split; [done|]. split; [done|].
    rewrite El, length_insert. split; [done|]. split; [|split].
    + intros c Hcn. rewrite Hcnt, Hc by done. simpl. lia.
    + intros c [[->|Hc']%elem_of_cons|Hc']; [by left|apply Hin, Hf; auto..].
    + split; [|done]. intros c Hc'. by apply Hin, Hr.
  - exists fc, (b :: fu). rewrite E1, E2, <- app_assoc. split; [done|]. split; [done|].
    rewrite El, length_insert. split; [done|]. split; [|split].
    + intros c Hcn. rewrite Hcnt, Hc by done. simpl. lia.
    + intros c [Hc'|[->|Hc']%elem_of_cons]; [apply Hin, Hf; auto|by left|apply Hin, Hf; auto].
    + split; [|done]. intros c Hc'. by apply Hin, Hr.
Qed.

Lemma mgr_open_reinsert m p rid l0 l xs R :
  mgr_open (set_req_to_blocks (<[rid := l0]> (req_to_blocks m)) m, p) rid l xs R ->
  mgr_open (m, p) rid l xs R.
Proof.
  intros [Hp Hn Hbs Hg Hnd Ho Ha]. simpl in *. constructor; simpl; try done.
  - by rewrite delete_insert_eq in Hp.
  - intros r l' Hr Hl. apply (Ho r); [done|]. by rewrite lookup_insert_ne.
  - unfold align_reqs in *. simpl in *. destruct (attn _) as [| | |[] sp|]; try done.
    destruct Ha as (? & ? & Ha). split; [done|]. split; [done|].
    intros r Hr Hin. specialize (Ha r Hr Hin). by rewrite lookup_insert_ne in Ha.
Qed.

Lemma mgr_open_written m p rid l0 l xs R :
  mgr_open (m, p) rid l xs R ->
  mgr_open (set_req_to_blocks (<[rid := l0]> (req_to_blocks m)) m, p) rid l xs R.
Proof.
  intros [Hp Hn Hbs Hg Hnd Ho Ha]. simpl in *. constructor; simpl; try done.
  - by rewrite delete_insert_eq.
  - intros r l' Hr. rewrite lookup_insert_ne by done. by apply Ho.
  - unfold align_reqs in *. simpl in *. destruct (attn _) as [| | |[] sp|]; try done.
    destruct Ha as (? & ? & Ha). split; [done|]. split; [done|].
    intros r Hr. rewrite lookup_insert_ne by done. by apply Ha.
Qed.

(** The outcome of an operation that only gives blocks back from one table:
    same length, null blocks in the place of what was given back. *)
Definition trimmed (m : Manager) (p : BlockPool) (rid : string) (R : list ref) (s' : St) : Prop :=
  (exists xs', mgr_inv s' xs' R) /\ same_conf (m, p) s' /\ book (set_req_to_blocks (req_to_blocks s'.1) m) s'.1 /\
  num_cached_block s'.1 = num_cached_block m /\ last_state_block_idx s'.1 = last_state_block_idx m /\
  length (table s'.1 rid) = length (table m rid) /\
  (forall rid', rid' <> rid -> table s'.1 rid' = table m rid').

Definition skipped_table (m : Manager) (p : BlockPool) (rid : string) (n : Z) : list ref :=
  let sk := num_skipped (kv_cache_spec m) n in
  if sk <=? 0 then table m rid
  else trim (null_block p) (Z.to_nat (Z.min (sk / block_size m) (zlen (table m rid)))) (table m rid).

Lemma base_remove_skipped_blocks_spec m p rid n xs R :
  mgr_inv (m, p) xs R -> spec_ok (kv_cache_spec m) ->
  wp (base_remove_skipped_blocks rid n) (fun _ s' => trimmed m p rid R s' /\
    table s'.1 rid = skipped_table m p rid n) (m, p).
Proof.
  intros I Hs. assert (Hbs : 0 < block_size m) by apply (I rid).
  unfold base_remove_skipped_blocks. apply wp_bind, wp_gets, wp_bind. cbn [fst].
  unfold wp at 1. rewrite get_num_skipped_tokens_spec by done. unfold skipped_table.
  case_match.
  { apply wp_ret. split; [|done]. split; [by exists xs|]. split; [done|]. split; [by destruct m|]. done. }
  apply wp_bind. eapply wp_mono; [by apply req_blocks_spec|]. intros l s' (-> & -> & O).
  fold (table m rid) in *. set (m1 := set_req_to_blocks _ m) in *.
  unfold floordiv. rewrite (proj2 (Z.eqb_neq _ _)) by lia. apply wp_bind, wp_ret.
  apply wp_bind. pose proof (mo_null _ _ _ _ _ O) as Hnull. simpl in Hnull. rewrite Hnull.
  eapply wp_mono; [apply (remove_loop_spec m1 p)|].
  { lia. }
  { intros b Hb _. by eapply mo_l_stored. }
  intros r s' (-> & fc & fu & E1 & E2 & El & Hc & Hf & Hr & Htr). rewrite E1, E2. simpl app.
  assert (Hin : forall b, b ∈ table m rid \/ b = null_block p -> b ∈ blocks p).
  { intros b [Hb| ->]; [by apply (mo_l_blocks O)|apply (mo_pool _ _ _ _ _ O)]. }
  apply wp_bind. unfold write_blocks, mgr, set_mgr. apply wp_bind, wp_gets, wp_modify. cbn [fst snd].
  apply (mgr_open_written _ _ _ r.1.1) in O. set (m2 := set_req_to_blocks _ m1) in *.
  apply wp_bind, on_pool_wp. eapply wp_mono;
    [eapply (give_back_spec m2 p rid (table m rid) (fu ++ r.1.1) fc); [exact O|..]|].
  - intros b Hb. rewrite count_app. by apply Hc.
  - intros b Hb. apply Hin, Hf. by left.
  - intros b Hb. apply Hin. apply elem_of_app in Hb as [Hb|Hb]; [apply Hf; by right|by apply Hr].
  - eapply mo_long; [exact O|rewrite length_app; lia].
  - intros _ p1 (xs1 & Hc1 & O1). pose proof (config_eq _ _ Hc1) as (_ & _ & _ & E4 & E5 & _).
    apply on_pool_wp. eapply wp_mono; [eapply (give_back_spec m2 p1 rid _ r.1.1 fu); [exact O1|..]|].
    + intros b Hb. by rewrite count_app.
    + intros b Hb. rewrite E4. apply Hin, Hf. by right.
    + intros b Hb. rewrite E4. by apply Hin, Hr.
    + eapply mo_long; [exact O|lia].
    + intros _ p2 (xs2 & Hc2 & O2).
      assert (Ht : forall rid', table m2 rid' = if decide (rid' = rid) then r.1.1 else table m rid').
      { intros rid'. unfold table, m2, m1. simpl. case_decide; [subst rid'|].
        - by rewrite lookup_insert_eq.
        - by rewrite !lookup_insert_ne. }
      split.
      2: { cbn [fst]. rewrite Ht, decide_True by done. exact Htr. }
      split; [|split; [split; [done|cbn [snd]; congruence]|split; [done|split; [done|split; [done|split]]]]].
      * exists xs2. eapply mgr_open_inv; [exact O2|]. simpl. apply lookup_insert_eq.
      * cbn [fst]. by rewrite Ht, decide_True.
      * intros rid' Hne. cbn [fst]. by rewrite Ht, decide_False.
Qed.

(** *** Mamba: indices from either end *)

Lemma py_index_set {A} (l : list A) i b x :
  py_index l i = Some b ->
  exists j, l !! j = Some b /\ py_set l i x = Some (<[j := x]> l).
Proof.
  unfold py_index, py_set. intros Hi. destruct (0 <=? i) eqn:E.
  - pose proof (lookup_lt_Some _ _ _ Hi). rewrite (proj2 (Z.ltb_lt _ _)) by lia. eauto.
  - destruct (0 <=? zlen l + i); [|done]. eauto.
Qed.

Lemma trimmed_trans m p rid R m1 p1 s' :
  trimmed m p rid R (m1, p1) -> trimmed m1 p1 rid R s' -> trimmed m p rid R s'.
Proof.
  intros (_ & C1 & B1 & N1 & L1 & T1 & O1) (I2 & C2 & B2 & N2 & L2 & T2 & O2).
  split; [done|]. split; [by transitivity (m1, p1)|]. unfold book in *. simpl in *.
  destruct B1 as (_ & Bm1 & Ba1), B2 as (_ & Bm2 & Ba2).
  split; [split; [done|split]|].
  { transitivity (mconf m1); [exact Bm2|exact Bm1]. }
  { congruence. }
  split; [congruence|]. split; [congruence|].
  split; [congruence|]. intros. rewrite O2 by done. auto.
Qed.

Lemma remove_skipped_blocks_wlp m p rid n xs R :
  mgr_inv (m, p) xs R -> spec_ok (kv_cache_spec m) ->
  wlp (remove_skipped_blocks rid n) (fun _ s' => trimmed m p rid R s') (m, p).
Proof.
  intros I Hs. unfold remove_skipped_blocks. apply wpx_bind, wpx_gets. cbn [fst].
  destruct (attn (kv_cache_spec m)) as [c|w|c|al sp|] eqn:Ea;
    try (by apply wpx_wp; eapply wp_mono; [by eapply base_remove_skipped_blocks_spec|];
         intros _ s' [? _]).
  apply wpx_bind, wpx_wp. eapply wp_mono; [by eapply base_remove_skipped_blocks_spec|].
  intros _ [m1 p1] [T1 _]. destruct al; [|by apply wpx_ret].
  apply wpx_bind, wpx_gets. cbn [fst].
  destruct (last_state_block_idx m1 !! rid) as [idx|]; [|by apply wpx_ret].
  unfold cdiv_m. case_match; [done|]. apply wpx_bind, wpx_ret.
  case_match; [|by apply wpx_ret]. pose proof T1 as ([xs1 I1] & _).
  apply wpx_bind, wpx_wp. eapply wp_mono; [by apply req_blocks_spec|].
  intros l s2 (-> & -> & O). fold (table m1 rid) in *. set (m2 := set_req_to_blocks _ m1) in *.
  apply wpx_bind, wlp_of_option. intros b Hb.
  assert (Hnn : m_null_block m1 = null_block p1) by apply (I1 rid). rewrite Hnn.
  assert (Ht2 : forall rid', table m2 rid' = table m1 rid').
  { intros rid'. unfold table, m2. simpl. rewrite lookup_insert. by case_decide; subst. }
  case_decide as Hbn.
  { apply wpx_ret. eapply trimmed_trans; [exact T1|].
    split; [exists xs1; eapply mgr_open_inv; [exact O|apply lookup_insert_eq]|].
    split; [done|]. split; [done|]. split; [done|]. split; [done|]. cbn [fst].
    split; [by rewrite Ht2|intros; apply Ht2]. }
  destruct (py_index_set _ _ _ (null_block p1) Hb) as (j & Hj & Hset).
  pose proof (count_insert b (table m1 rid) j b (null_block p1) Hj) as Hcb.
  apply wpx_bind, on_pool_wpx, wpx_wp. eapply wp_mono;
    [eapply (give_back_spec m2 p1 rid _ (<[j := null_block p1]> (table m1 rid)) [b]); [exact O|..]|].
  - intros c Hc. pose proof (count_insert c (table m1 rid) j b (null_block p1) Hj) as He.
    rewrite (decide_False (P := c = null_block p1)) in He by done. simpl. lia.
  - intros c ->%list_elem_of_singleton. apply (mo_l_blocks O). by eapply list_elem_of_lookup_2.
  - intros c [Hc| ->]%elem_of_insert_null; [by apply (mo_l_blocks O)|].
    apply (mo_pool _ _ _ _ _ O).
  - eapply mo_long; [exact O|rewrite length_insert; lia].
  - intros _ p2 (xs2 & Hc2 & O2). rewrite Hset. apply wpx_bind, wpx_ret, wpx_wp.
    eapply wp_mono; [by eapply write_blocks_spec|]. intros _ s3 (-> & I3).
    eapply trimmed_trans; [exact T1|]. set (m3 := set_req_to_blocks _ m2) in *.
    split; [by exists xs2|]. split; [by split|]. split; [done|]. split; [done|]. split; [done|].
    cbn [fst]. split.
    + unfold table at 1, m3. simpl. rewrite lookup_insert_eq. simpl. by rewrite length_insert.
    + intros rid' Hne. unfold table, m3, m2. simpl. by rewrite !lookup_insert_ne.
Qed.

(** *** Mamba in align mode *)

Lemma range_seq a b : range a b = (fun i => a + Z.of_nat i) <$> seq 0 (Z.to_nat (b - a)).
Proof. unfold range, zrange. by rewrite <- list_fmap_compose. Qed.

(** Moving speculative blocks to the end of the table keeps what it holds. *)
Lemma reuse_loop_wlp {S : Type} (null : ref) k a (s : S) n : forall j rb,
  0 <= a ->
  wlp (reuse_loop null k ((fun i => a + Z.of_nat i) <$> seq j n) rb) (fun rb' s' => s' = s /\
      (length rb <= length rb')%nat /\
      zlen rb' <= zlen rb + Z.max 0 (Z.min (Z.of_nat n) (k - (a + Z.of_nat j))) /\
      (forall b, b <> null -> count b rb' = count b rb) /\
      (forall b, b ∈ rb' -> b ∈ rb \/ b = null)) s.
Proof.
  induction n as [|n IH]; intros j rb Ha; cbn [seq fmap list_fmap reuse_loop].
  { apply wpx_ret. split; [done|]. split; [done|]. split; [lia|]. split; [done|auto]. }
  destruct (Z.ltb_spec (a + Z.of_nat j) k) as [Hlt|Hge].
  2: { apply wpx_ret. split; [done|]. split; [done|]. split; [lia|]. split; [done|auto]. }
  apply wpx_bind, wlp_of_option. intros b Hb. rewrite py_index_nonneg in Hb by lia.
  pose proof (lookup_lt_Some _ _ _ Hb) as Hlt'.
  assert (Hset : py_set (rb ++ [b]) (a + Z.of_nat j) null
                 = Some (<[Z.to_nat (a + Z.of_nat j) := null]> (rb ++ [b]))).
  { unfold py_set. rewrite (proj2 (Z.leb_le _ _)), (proj2 (Z.ltb_lt _ _)); [done| |lia].
    rewrite length_app. simpl. lia. }
  rewrite Hset. apply wpx_bind, wpx_ret. eapply wlp_mono; [by apply IH|].
  intros rb' s' (-> & H1 & H2 & Hc & Hin). rewrite length_insert, length_app in H1, H2. simpl in H1, H2.
  assert (Hbj : (rb ++ [b]) !! Z.to_nat (a + Z.of_nat j) = Some b) by (by apply lookup_app_l_Some).
  split; [done|]. split; [lia|]. split; [lia|]. split.
  - intros c Hcn. rewrite Hc by done. pose proof (count_insert c _ _ _ null Hbj) as He.
    rewrite (decide_False (P := c = null)), count_app in He by done. simpl in He. lia.
  - intros c [Hc'|]%Hin; [|auto]. apply elem_of_insert_null in Hc' as [Hc'|]; [|auto].
    left. apply elem_of_app in Hc' as [|Hc']; [done|]. apply list_elem_of_singleton in Hc' as ->.
    by eapply list_elem_of_lookup_2.
Qed.

(** What every allocating operation guarantees for the other tables. *)
Definition extended (m : Manager) (p : BlockPool) (rid : string) (R : list ref) (s' : St) : Prop :=
  (exists xs', mgr_inv s' xs' R) /\ same_conf (m, p) s' /\
  (forall rid', rid' <> rid -> table s'.1 rid' = table m rid').

Lemma mamba_align_allocate_wlp m p sp rid nt xs R :
  mgr_inv (m, p) xs R -> attn (kv_cache_spec m) = Mamba true sp -> 0 <= nt ->
  wlp (mamba_align_allocate use_int sp rid nt) (fun _ s' => extended m p rid R s') (m, p).
Proof.
  intros I Ea Hnt. unfold mamba_align_allocate. apply wpx_bind, wpx_gets. cbn [fst].
  assert (Hbs : 0 < block_size m) by apply (I rid).
  assert (Hsp : 0 <= sp /\ (rid ∈ allocated_block_reqs m -> sp <= zlen (table m rid))).
  { destruct (I rid) as [_ _ _ _ _ _ Ha]. unfold align_reqs in Ha. simpl in Ha. rewrite Ea in Ha.
    destruct Ha as (? & ? & _). done. }
  destruct Hsp as [Hsp Hlong].
  apply wpx_bind, wpx_wp. eapply wp_mono; [by apply req_blocks_spec|]. intros l s1 (-> & -> & O).
  fold (table m rid) in *. set (m1 := set_req_to_blocks _ m) in *.
  unfold cdiv_m. rewrite (proj2 (Z.eqb_neq _ _)) by lia. apply wpx_bind, wpx_ret.
  pose proof (cdiv_nonneg nt (block_size m) Hbs Hnt) as Hc0. set (c := cdiv nt (block_size m)) in *.
  destruct (Z.leb_spec (c + sp) (zlen (table m rid))) as [Hle|Hgt].
  { apply wpx_ret. split; [exists xs; eapply mgr_open_inv; [exact O|apply lookup_insert_eq]|].
    split; [done|]. intros rid' Hne. unfold table, m1. simpl. by rewrite lookup_insert_ne. }
  remember (bool_decide (rid ∈ allocated_block_reqs m)) as ba eqn:Eba.
  apply wpx_bind.
  apply (wlp_mono _ (fun _ s' => exists m2, s' = (m2, p) /\ book m1 m2)).
  { destruct ba; [|case_match]; unfold set_mgr; (apply wpx_modify || apply wpx_ret); cbn beta; eexists; (split; [reflexivity|done]). }
  intros _ s2 (m2 & -> & Hr2 & Hm2 & Ha2). apply wpx_bind, wpx_wp.
  assert (Hn2 : m_null_block m = null_block p) by apply (I rid). rewrite Hn2.
  set (k := c + sp - sp - 1). set (rb1 := table m rid ++ replicate _ (null_block p)).
  assert (O1 : mgr_open (m2, p) rid rb1 xs R).
  { apply (mgr_open_ext m1 m2) in O; [|done..]. apply (mgr_open_shuffle _ _ _ _ rb1) in O; [done|..].
    - intros b Hb. unfold rb1. rewrite count_app, count_nulls by done. lia.
    - intros b Hb. unfold rb1 in Hb. rewrite elem_of_app, elem_of_replicate in Hb.
      destruct Hb as [?|[-> _]]; auto.
    - eapply mo_long; [exact O|unfold rb1; rewrite length_app; lia]. }
  assert (Hlen1 : zlen rb1 = Z.max (zlen (table m rid)) k).
  { unfold rb1. rewrite length_app, length_replicate. lia. }
  eapply wp_mono; [by eapply write_blocks_spec|]. intros _ s3 (-> & I3).
  set (m3 := set_req_to_blocks _ m2) in *.
  apply wpx_bind, (wlp_mono _ (fun rb2 s' => s' = (m3, p) /\ mgr_open (m3, p) rid rb2 xs R /\
      zlen rb2 < c + sp)); [|intros rb2 s' (-> & O3 & Hlen2)].
  { pose proof (I3 rid) as O3. cbn [fst] in O3. unfold m3 in O3 at 2. simpl in O3.
    rewrite lookup_insert_eq in O3. simpl in O3. destruct ba.
    - symmetry in Eba. apply bool_decide_eq_true in Eba. specialize (Hlong Eba). rewrite range_seq.
      eapply wlp_mono; [apply reuse_loop_wlp; lia|].
      intros rb2 s' (-> & H1 & H2 & Hcnt & Hin). split; [done|]. split; [|lia].
      eapply mgr_open_shuffle; [exact O3|done|done|]. eapply mo_long; [exact O3|done].
    - apply wpx_ret. split; [done|]. split; [done|]. lia. }
  apply wpx_bind, wpx_wp. eapply wp_mono; [by eapply write_blocks_spec|]. intros _ s4 (-> & I4).
  set (m4 := set_req_to_blocks _ m3) in *.
  apply wpx_bind, wlp_assert. intros _. apply wpx_bind, on_pool_wpx.
  pose proof (I4 rid) as O4. cbn [fst] in O4. unfold m4 in O4 at 2. simpl in O4.
  rewrite lookup_insert_eq in O4. simpl in O4.
  eapply wpx_mono; [eapply alloc_wpx; [exact O4|lia]| |done].
  intros ret p5 (zs & _ & Hret & Hc5 & O5). apply wpx_bind, wpx_wp.
  eapply wp_mono; [by eapply write_blocks_spec|]. intros _ s6 (-> & I6).
  apply wpx_bind, wpx_modify, wpx_ret. cbn [fst snd].
  set (m6 := set_req_to_blocks _ m4) in *.
  assert (Ht : forall r, table (set_allocated ({[rid]} ∪ allocated_block_reqs m6) m6) r
                = if decide (r = rid) then rb2 ++ ret else table m r).
  { intros r. unfold table, m6, m4, m3. simpl.
    destruct (decide (r = rid)) as [->|Hne]; [by rewrite lookup_insert_eq|].
    rewrite !lookup_insert_ne by done. rewrite Hr2. unfold m1. simpl. by rewrite lookup_insert_ne. }
  split; [|split; [split; [exact Hm2|exact Hc5]|]].
  - assert (Hal : align_reqs m2 = Some sp).
    { apply mconf_eq in Hm2 as (_ & _ & _ & _ & _ & E6). rewrite E6. unfold align_reqs.
      change (kv_cache_spec m1) with (kv_cache_spec m). by rewrite Ea. }
    exists zs. intros r. destruct (I6 r) as [Hp Hn Hb Hg Hnd Ho Ha].
    change (align_reqs (m6, p5).1) with (align_reqs m2) in Ha. rewrite Hal in Ha.
    constructor; try done.
    change (align_reqs (set_allocated ({[rid]} ∪ allocated_block_reqs m6) m6, p5).1)
      with (align_reqs m2). rewrite Hal. simpl in *.
    assert (Hlr : sp <= zlen (rb2 ++ ret)) by (rewrite length_app; lia).
    destruct Ha as (? & Ha1 & Ha2'). split; [done|]. split.
    + intros [->%elem_of_singleton|Hin]%elem_of_union; [|by apply Ha1].
      by rewrite lookup_insert_eq.
    + intros r' Hr' [->%elem_of_singleton|Hin]%elem_of_union; [|by apply Ha2'].
      by rewrite lookup_insert_eq.
  - intros r Hr. cbn [fst]. rewrite Ht. by rewrite decide_False.
Qed.

(** ** Caching *)

(** Tables and free list are as they were. *)
Definition unmoved (m : Manager) (p : BlockPool) (xs R : list ref) (s' : St) : Prop :=
  mgr_inv s' xs R /\ same_conf (m, p) s' /\ (forall rid, table s'.1 rid = table m rid).

Lemma base_cache_blocks_wlp m p request nt ri xs R :
  mgr_inv (m, p) xs R -> enable_caching p = true ->
  wlp (base_cache_blocks use_int sha256 request nt ri) (fun _ s' => unmoved m p xs R s') (m, p).
Proof.
  intros I Hec. unfold base_cache_blocks. apply wpx_bind, wpx_gets. cbn [fst].
  unfold floordiv. case_match; [done|]. apply wpx_bind, wpx_ret.
  case_match; [by apply wpx_ret|].
  apply wpx_bind, (wlp_mono _ (fun _ s' => s' = (m, p))).
  { unfold reachable_block_mask. destruct (attn (kv_cache_spec m)) as [| w| | |]; try by apply wpx_ret.
    destruct (spec_block_size (kv_cache_spec m) =? 0) eqn:H1; [done|].
    apply wpx_bind, wpx_ret, wpx_bind, wlp_assert. intros _.
    unfold contiguous_blocks_for_hit, cdiv_m. rewrite H1. apply wpx_bind, wpx_bind, wpx_ret, wpx_ret.
    assert (Hrt : forall need sh a b c d e f mk (Q : option (list bool) -> St -> Prop),
       (forall v, Q (Some v) (m, p)) ->
       wlp (mask2 ← replay_tail need sh a b c d e f mk; mret (Some mask2)) Q (m, p)).
    { intros. unfold replay_tail. destruct e; [|by apply wpx_bind, wpx_ret, wpx_ret].
      destruct f; [|by apply wpx_bind, wpx_ret, wpx_ret]. unfold floordiv. apply wpx_bind.
      case_match; [done|]. by apply wpx_bind, wpx_ret, wpx_ret, wpx_ret. }
    destruct ri as [rv|]; [destruct (rv =? 0)|].
    - by apply Hrt.
    - case_match; [by apply wpx_ret|by apply Hrt].
    - case_match; [by apply wpx_ret|by apply Hrt]. }
  intros mask s' ->. apply wpx_bind, wpx_wp. eapply wp_mono; [by apply req_blocks_spec|].
  intros l s' (-> & -> & O). fold (table m (request_id request)) in *.
  set (m1 := set_req_to_blocks _ m) in *. apply wpx_bind.
  pose proof (mo_pool _ _ _ _ _ O) as Ip. simpl in Ip.
  apply (wlp_mono _ (fun _ s' => exists p', s' = (m1, p') /\ config p' = config p /\
     mgr_open (m1, p') (request_id request) (table m (request_id request)) xs R)).
  { unfold cache_full, wpx. cbn [fst snd].
    pose proof (cache_full_blocks_wlp use_int sha256 request p xs []
      _ (table m (request_id request)) (Z.to_nat (default 0 (num_cached_block m !! request_id request)))
      (Z.to_nat (nt / block_size m)) (block_size m) (kv_cache_group_id m) mask Ip Hec
      ltac:(apply (I (request_id request))) ltac:(intros b; apply (mo_l_blocks O))) as Hw.
    unfold wpx in Hw. destruct (cache_full_blocks _ _ _ _ _ _ _ _ _) as [[[]|e] [r' p']]; [|done].
    destruct Hw as [I' Hc]. simpl in I', Hc. exists p'. split; [done|]. split; [done|].
    eapply mgr_open_pool; [exact O|exact Hc|exact I'|apply O|]. by eapply mo_long; [exact O|]. }
  intros _ s' (p' & -> & Hc & O'). apply wpx_modify. cbn [fst snd].
  apply mgr_open_inv in O' as I'; [|apply lookup_insert_eq].
  split; [by apply (mgr_inv_ext _ _ _ _ _ I')|]. split; [by split|].
  intros r. unfold table, m1. simpl. rewrite lookup_insert. case_decide; by subst.
Qed.

Lemma note_cached_wlp m p b xs R :
  mgr_inv (m, p) xs R ->
  wlp (note_cached b) (fun _ s' => unmoved m p xs R s') (m, p).
Proof.
  intros I. unfold note_cached. apply wpx_bind, on_pool_wpx.
  unfold wpx, block_at, on_queue, zoom, deref, gets, of_option, mbind, M_bind.
  destruct (store _ !! b) as [k|]; [|done]. simpl.
  replace (set_queue (free_block_queue p) p) with p by (by destruct p).
  destruct (is_null k); [done|]. destruct (block_hash k); [|done]. simpl.
  split; [by apply (mgr_inv_ext _ _ _ _ _ I)|done].
Qed.

Lemma unmoved_trans m p xs R m1 p1 s' :
  unmoved m p xs R (m1, p1) -> unmoved m1 p1 xs R s' -> unmoved m p xs R s'.
Proof.
  intros (_ & C1 & T1) (I2 & C2 & T2). split; [done|]. split; [by transitivity (m1, p1)|].
  intros r. rewrite T2. apply T1.
Qed.

Lemma cache_blocks_wlp m p request nt ri xs R :
  mgr_inv (m, p) xs R -> enable_caching p = true ->
  wlp (cache_blocks use_int sha256 request nt ri) (fun _ s' => unmoved m p xs R s') (m, p).
Proof.
  intros I Hec. unfold cache_blocks. apply wpx_bind, wpx_gets. cbn [fst].
  destruct (attn (kv_cache_spec m)); try (by apply base_cache_blocks_wlp); [|done].
  apply wpx_bind. eapply wlp_mono; [by apply base_cache_blocks_wlp|]. intros _ [m1 p1] U1.
  apply wpx_bind, wpx_gets. cbn [fst]. case_match; [|by apply wpx_ret].
  apply wpx_bind, wpx_wp. eapply wp_mono; [apply req_blocks_spec, U1|].
  intros l s2 (-> & -> & O). set (m2 := set_req_to_blocks _ m1) in *.
  apply mgr_open_inv in O as I2; [|apply lookup_insert_eq].
  assert (U2 : unmoved m p xs R (m2, p1)).
  { eapply unmoved_trans; [exact U1|]. split; [done|]. split; [done|].
    intros r. unfold table, m2. simpl. rewrite lookup_insert. case_decide; by subst. }
  eapply wlp_mono; [apply (wlp_for_each (fun _ _ s' => unmoved m p xs R s'))|]; [done| |done].
  intros _ b _ [m3 p3] _ U3. eapply wlp_mono; [apply (note_cached_wlp m3 p3 b xs R), U3|].
  intros ? s4 U4. by apply (unmoved_trans _ _ _ _ m3 p3).
Qed.

(** ** The admission check *)

Lemma num_evictable_spec m p xs L H bs :
  pool_inv p xs L H -> (forall b, b ∈ bs -> b ∈ blocks p) ->
  get_num_evictable_blocks bs (m, p) = (Ok (zlen (freed p H bs)), (m, p)).
Proof.
  intros I. induction bs as [|b bs IH]; intros Hb; [done|].
  assert (Hw : wp (get_num_evictable_blocks (b :: bs))
     (fun n s' => n = zlen (freed p H (b :: bs)) /\ s' = (m, p)) (m, p)).
  { destruct (pi_block _ _ _ _ I b ltac:(set_solver)) as (k & Hk & Hn & Hr).
    cbn [get_num_evictable_blocks]. apply wp_bind, on_pool_wp. eapply wp_block_at; [done|].
    apply wp_bind. unfold wp at 1. rewrite IH by set_solver. apply wp_ret. split; [|done].
    unfold freed. rewrite Hn. clear Hn. destruct (decide (b = null_block p)) as [->|Hne].
    - rewrite bool_decide_eq_true_2 by done. rewrite andb_false_r.
      by rewrite filter_cons_False by tauto.
    - rewrite bool_decide_eq_false_2 by done. rewrite Hr, andb_true_r by done.
      destruct (Z.eqb_spec (Z.of_nat (count b H)) 0).
      + rewrite filter_cons_True by (split; [done|lia]). simpl. lia.
      + rewrite filter_cons_False by lia. done. }
  apply wp_returns in Hw as (n & s' & -> & -> & ->). done.
Qed.

(** The free hits of a prefix are exactly what touching them takes off the free
    list. *)
Lemma touched_count p xs H kept :
  pool_inv p xs [] H -> (forall b, b ∈ kept -> b ∈ blocks p) -> NoDup (real (null_block p) kept) ->
  zlen (filter (fun x => x ∉ kept) xs) = zlen xs - zlen (freed p H kept).
Proof.
  intros I Hk Hnd. pose proof (inv_nodup I) as Hx.
  assert (Hp : freed p H kept ≡ₚ filter (fun x => ~ (x ∉ kept)) xs).
  { apply NoDup_Permutation.
    - unfold freed. rewrite (list_filter_iff _ (fun b => count b H = 0%nat /\ b <> null_block p)) by tauto.
      rewrite <- (list_filter_filter (fun b => count b H = 0%nat) (fun b => b <> null_block p)).
      by apply NoDup_filter.
    - by apply NoDup_filter.
    - intros b. unfold freed. rewrite !list_elem_of_filter. split.
      + intros ((Hn & Hc) & Hb). split; [tauto|].
        apply (pi_free_iff _ _ _ _ I); [auto|done|]. split; [done|set_solver].
      + intros (Hb & Hxb). destruct (decide (b ∈ kept)) as [Hb'|]; [|tauto].
        destruct (pi_free _ _ _ _ I b Hxb) as [? Hn]. split; [|done]. split; [done|].
        by apply (pi_free_iff _ _ _ _ I). }
  pose proof (filter_app_complement (fun x => x ∉ kept) xs) as Hc.
  apply Permutation_length in Hc. rewrite length_app in Hc.
  apply Permutation_length in Hp. lia.
Qed.

(** What [get_num_blocks_to_allocate] answers for a request without a table. *)
Lemma num_blocks_new_request m p rid nt ncb total main xs R :
  mgr_inv (m, p) xs R -> spec_ok (kv_cache_spec m) ->
  (match attn (kv_cache_spec m) with Mamba _ _ => False | _ => True end) ->
  num_cached_block m !! rid = None -> table m rid = [] ->
  (forall b, b ∈ ncb -> b ∈ blocks p) ->
  get_num_blocks_to_allocate rid nt ncb total main false (m, p) =
  (Ok (Z.max (cdiv nt (block_size m) - Z.max (skipped_blocks m total) (zlen ncb)) 0
       + zlen (freed p (table m rid ++ mheld (delete rid (req_to_blocks m)) ++ R)
                 (kept_hits m total ncb))), (m, p)).
Proof.
  intros I Hs Hnm Hnc Ht Hb. assert (Hbs : 0 < block_size m) by apply (I rid).
  assert (Hw : base_num_blocks_to_allocate rid nt ncb total false (m, p) =
    (Ok (Z.max (cdiv nt (block_size m) - Z.max (skipped_blocks m total) (zlen ncb)) 0
       + zlen (freed p (table m rid ++ mheld (delete rid (req_to_blocks m)) ++ R)
                 (kept_hits m total ncb))), (m, p))).
  { unfold base_num_blocks_to_allocate, mgr, gets, cdiv_m, mbind, M_bind. cbn [fst].
    rewrite (proj2 (Z.eqb_neq _ _)) by lia. unfold mret, M_ret. rewrite Hnc. cbn [is_some].
    rewrite get_num_skipped_tokens_spec by done. fold (table m rid). rewrite Ht.
    change (num_skipped (kv_cache_spec m) total / block_size m) with (skipped_blocks m total).
    replace (Z.to_nat (Z.max 0 (skipped_blocks m total - zlen (@nil ref))))
      with (Z.to_nat (skipped_blocks m total)) by (simpl; lia).
    assert (Hd : drop (Z.to_nat (skipped_blocks m total)) ncb = kept_hits m total ncb).
    { unfold kept_hits. destruct (Z.ltb_spec 0 (skipped_blocks m total)); [done|].
      by replace (Z.to_nat (skipped_blocks m total)) with O by lia. }
    rewrite Hd. erewrite (num_evictable_spec m p xs []); [|apply (I rid)|].
    - simpl. rewrite Z.add_0_r. destruct (max_admission_blocks_per_request m); do 3 f_equal.
      all: unfold table in Ht; by rewrite Ht.
    - intros b Hin%kept_hits_incl. auto. }
  unfold get_num_blocks_to_allocate, mgr, gets, mbind, M_bind. cbn [fst].
  destruct (attn (kv_cache_spec m)); try exact Hw. done.
Qed.

(** ** The manager as a transition system *)

Inductive mgr_op :=
| OpHits (rid : string) (ncb : list ref) (local ext : Z)
| OpAlloc (rid : string) (num_tokens num_tokens_main_model : Z)
| OpCache (request : Request) (num_tokens : Z) (retention_interval : option Z)
| OpSkip (rid : string) (num_computed_tokens : Z)
| OpFree (rid : string)
| OpNewStep
| OpTakeIds.

Definition run_mgr_op (o : mgr_op) : M St unit :=
  match o with
  | OpHits rid ncb local ext => allocate_new_computed_blocks use_int rid ncb local ext
  | OpAlloc rid nt main => _ ← allocate_new_blocks use_int rid nt main; mret tt
  | OpCache request nt ri => cache_blocks use_int sha256 request nt ri
  | OpSkip rid n => remove_skipped_blocks rid n
  | OpFree rid => free rid
  | OpNewStep => new_step_starts
  | OpTakeIds => _ ← take_new_block_ids; mret tt
  end.

(** What callers respect: hits are blocks of the pool, each real one once, and
    cover the local computed tokens; caching is for caching pools. *)
Definition op_ok (s : St) (o : mgr_op) : Prop :=
  match o with
  | OpHits _ ncb local ext =>
      (forall b, b ∈ ncb -> b ∈ blocks s.2) /\ NoDup (real (null_block s.2) ncb) /\
      (attn (kv_cache_spec s.1) <> CrossAttention -> local = zlen ncb * block_size s.1) /\ 0 <= ext
  | OpAlloc _ _ main => 0 <= main
  | OpCache _ _ _ => enable_caching s.2 = true
  | _ => True
  end.

Lemma allocate_new_blocks_wlp m p rid nt main xs R :
  mgr_inv (m, p) xs R -> 0 <= main ->
  wlp (allocate_new_blocks use_int rid nt main) (fun _ s' => extended m p rid R s') (m, p).
Proof.
  intros I Hmain.
  assert (Hbase : forall n, wlp (base_allocate_new_blocks use_int rid n)
            (fun _ s' => extended m p rid R s') (m, p)).
  { intros n. eapply wpx_mono; [by apply base_allocate_new_blocks_wpx| |done].
    intros ret s' (xs' & I' & Hc & _ & _ & Hr & _). split; [by exists xs'|]. split; [done|].
    intros r Hne. unfold table. by rewrite Hr, lookup_insert_ne. }
  unfold allocate_new_blocks. apply wpx_bind, wpx_gets. cbn [fst].
  destruct (attn (kv_cache_spec m)) as [| | |[] sp|] eqn:Ea; try apply Hbase.
  by eapply mamba_align_allocate_wlp.
Qed.

Lemma run_mgr_op_wlp o s xs R :
  mgr_inv s xs R -> spec_ok (kv_cache_spec s.1) -> op_ok s o ->
  wlp (run_mgr_op o) (fun _ s' => (exists xs', mgr_inv s' xs' R) /\ same_conf s s') s.
Proof.
  destruct s as [m p]. intros I Hs Hok. destruct o as [rid ncb local ext|rid nt main|rq nt ri|rid n|rid| |];
    simpl in Hok; cbn [run_mgr_op].
  - unfold allocate_new_computed_blocks. apply wpx_bind, wpx_gets. cbn [fst].
    destruct Hok as (Hb & Hnd & Hl & He).
    assert (Hbase : local = zlen ncb * block_size m ->
      wlp (base_allocate_new_computed_blocks use_int rid ncb local ext)
        (fun _ s' => (exists xs', mgr_inv s' xs' R) /\ same_conf (m, p) s') (m, p)).
    { intros Hl'. destruct (num_cached_block m !! rid) as [nc|] eqn:Enc.
      - unfold base_allocate_new_computed_blocks. apply wpx_bind, wpx_gets. cbn [fst]. rewrite Enc.
        apply wlp_assert. intros _. split; [by exists xs|done].
      - eapply wpx_mono; [by eapply base_allocate_new_computed_blocks_wpx| |done].
        intros _ s' (al & xs' & I' & Hc & _). split; [by exists xs'|done]. }
    destruct (attn (kv_cache_spec m)); try (by apply Hbase, Hl).
    apply wlp_assert. intros _. split; [by exists xs|done].
  - apply wpx_bind. eapply wlp_mono; [by eapply allocate_new_blocks_wlp|].
    intros ret s' (? & ? & _). by apply wpx_ret.
  - eapply wlp_mono; [by eapply cache_blocks_wlp|]. intros _ s' (? & ? & _). split; [by exists xs|done].
  - eapply wlp_mono; [by eapply remove_skipped_blocks_wlp|]. intros _ s' (? & ? & _). done.
  - apply wpx_wp. eapply wp_mono; [by eapply free_spec|]. intros _ s' (? & ? & _). done.
  - unfold new_step_starts. apply wpx_bind, wpx_gets. cbn [fst].
    destruct (attn (kv_cache_spec m)); try (apply wpx_ret; split; [by exists xs|done]).
    apply wpx_modify. split; [|done]. exists xs. by apply (mgr_inv_ext _ _ _ _ _ I).
  - unfold take_new_block_ids. apply wpx_bind, wpx_bind, wpx_gets, wpx_bind, wpx_modify, wpx_ret, wpx_ret.
    split; [|done]. exists xs. by apply (mgr_inv_ext _ _ _ _ _ I).
Qed.

Inductive mgr_reachable (s0 : St) : St -> Prop :=
| MgrInit : mgr_reachable s0 s0
| MgrStep s o s' : mgr_reachable s0 s -> op_ok s o -> run_mgr_op o s = (Ok tt, s') ->
    mgr_reachable s0 s'.

Lemma mgr_reachable_inv s0 s xs R :
  mgr_inv s0 xs R -> spec_ok (kv_cache_spec s0.1) -> mgr_reachable s0 s ->
  (exists xs', mgr_inv s xs' R) /\ same_conf s0 s.
Proof.
  intros I0 Hs. induction 1 as [|s o s' _ [[xs' I] Hc] Hok Hrun]; [split; [by exists xs|done]|].
  assert (Hs' : spec_ok (kv_cache_spec s.1)).
  { destruct Hc as [Hm _]. apply mconf_eq in Hm as (_ & E & _). by rewrite E. }
  pose proof (wpx_run _ _ _ _ _ _ Hrun (run_mgr_op_wlp o s xs' R I Hs' Hok)) as [I' Hc'].
  split; [done|]. by transitivity s.
Qed.

Lemma manager_init_inv spec p caching g sbs dcp pcp cap xs R :
  pool_inv p xs [] R -> group_ok g -> 0 < spec_block_size spec -> 0 < dcp * pcp -> spec_ok spec ->
  mgr_inv (manager_init spec p caching g sbs dcp pcp cap, p) xs R.
Proof.
  intros I Hg Hbs Hcp Hs rid. constructor; simpl; try done.
  - destruct (_ && _); nia.
  - rewrite lookup_empty. constructor.
  - unfold align_reqs. simpl. unfold spec_ok in Hs. destruct (attn spec) as [| | |[] sp|]; try done.
Qed.
End manager_ops.

(** ** The theorems *)

(** C19. The managers keep the pool safe. Start any kind of manager on a pool of
    which others hold the references [R], and let it perform any sequence of
    allocations, prefix-cache hits, cachings, trimmings and releases that
    return. Then every reference count equals the number of entries for the
    block in the manager's block tables plus those in [R]; a block is free
    exactly when it is in no table and not in [R], so no free block is in use
    and nothing leaks; and no table lists a real block twice. *)
Theorem manager_safety use_int sha256 spec p0 caching g sbs dcp pcp cap xs0 R m p :
  pool_inv p0 xs0 [] R -> group_ok g -> 0 < spec_block_size spec -> 0 < dcp * pcp -> spec_ok spec ->
  mgr_reachable use_int sha256 (manager_init spec p0 caching g sbs dcp pcp cap, p0) (m, p) ->
  exists xs, pool_inv p xs [] (mheld (req_to_blocks m) ++ R) /\
    (forall b, b ∈ blocks p -> b <> null_block p ->
       ref_cnt_of p b = Some (Z.of_nat (count b (mheld (req_to_blocks m) ++ R))) /\
       (b ∈ xs <-> b ∉ mheld (req_to_blocks m) /\ b ∉ R)) /\
    (forall rid l, req_to_blocks m !! rid = Some l -> NoDup (real (null_block p) l)) /\
    (req_to_blocks m = ∅ -> pool_inv p xs [] R).
Proof.
  intros I0 Hg Hbs Hcp Hs Hr.
  pose proof (manager_init_inv spec p0 caching g sbs dcp pcp cap xs0 R I0 Hg Hbs Hcp Hs) as Im.
  destruct (mgr_reachable_inv use_int sha256 _ _ _ _ Im Hs Hr) as [[xs I] Hc]. exists xs.
  assert (Ip : pool_inv p xs [] (mheld (req_to_blocks m) ++ R)).
  { eapply inv_held_perm; [|apply (mo_pool _ _ _ _ _ (I EmptyString))]. simpl.
    rewrite app_assoc. f_equiv. symmetry. apply mheld_open. }
  split; [done|]. split; [|split].
  - intros b Hb Hn. destruct (pi_block _ _ _ _ Ip b Hb) as (k & Hk & _ & Hrc).
    unfold ref_cnt_of. rewrite Hk. simpl. rewrite Hrc by done. split; [done|].
    rewrite (pi_free_iff _ _ _ _ Ip) by done.
    assert (Hin : b ∉ mheld (req_to_blocks m) ++ R <-> count b (mheld (req_to_blocks m) ++ R) = 0%nat).
    { rewrite count_pos. lia. }
    rewrite elem_of_app in Hin. set_solver.
  - intros rid l Hl. pose proof (mo_nodup _ _ _ _ _ (I rid)) as Hnd. simpl in Hnd.
    by rewrite Hl in Hnd.
  - intros He. rewrite He in Ip. exact Ip.
Qed.

(** [allocate_new_blocks] (every manager but Mamba in align mode) gives the
    request exactly the blocks it lacks: the table grows at its end by fresh
    blocks from the front of the free list, or, exactly when the pool has too
    few, a ValueError is raised and all tables are as before. *)
Theorem allocate_new_blocks_exact use_int m p rid nt main xs R :
  mgr_inv (m, p) xs R -> (match attn (kv_cache_spec m) with Mamba _ _ => False | _ => True end) ->
  let need := Z.max 0 (cdiv nt (block_size m) - zlen (table m rid)) in
  match allocate_new_blocks use_int rid nt main (m, p) with
  | (Ok ret, s') => need <= zlen xs /\ ret = take (Z.to_nat need) xs /\
      (exists xs', mgr_inv s' xs' R) /\
      req_to_blocks s'.1 = <[rid := table m rid ++ ret]> (req_to_blocks m)
  | (Err e, s') => e = ValueError /\ zlen xs < need /\ mgr_inv s' xs R
  end.
Proof.
  intros I Hm need.
  assert (Hrun : allocate_new_blocks use_int rid nt main (m, p)
                 = base_allocate_new_blocks use_int rid nt (m, p)).
  { unfold allocate_new_blocks, mgr, gets, mbind, M_bind. cbn [fst].
    by destruct (attn (kv_cache_spec m)) as [| | |[]|]. }
  rewrite Hrun. pose proof (base_allocate_new_blocks_wpx use_int m p rid nt xs R I) as Hw.
  unfold wpx in Hw. destruct (base_allocate_new_blocks use_int rid nt (m, p)) as [[ret|e] s'].
  - destruct Hw as (xs' & I' & _ & -> & Hl & Hr & _). fold need in Hl.
    split; [rewrite length_app; lia|]. split; [|by split; [exists xs'|]].
    replace (Z.to_nat need) with (length ret) by lia. by rewrite take_app_length.
  - done.
Qed.

(** C22. The admission check is sound and exact: for a new request, if
    [get_num_blocks_to_allocate] (without the recycling cap) asks for no more
    blocks than are free, then attaching the prefix-cache hits and allocating
    the rest both succeed, and together they take exactly that many blocks off
    the free list. *)
Theorem admission_check_exact use_int m p rid nt main ncb local ext xs R :
  mgr_inv (m, p) xs R -> spec_ok (kv_cache_spec m) ->
  (match attn (kv_cache_spec m) with Mamba _ _ | CrossAttention => False | _ => True end) ->
  num_cached_block m !! rid = None -> table m rid = [] ->
  (forall b, b ∈ ncb -> b ∈ blocks p) -> NoDup (real (null_block p) ncb) ->
  (m_enable_caching m = true \/ ncb = []) ->
  local = zlen ncb * block_size m -> 0 <= ext -> local + ext <= nt ->
  exists n, get_num_blocks_to_allocate rid nt ncb (local + ext) main false (m, p) = (Ok n, (m, p)) /\
    (n <= zlen xs ->
     exists s1 ret s2 xs2,
       allocate_new_computed_blocks use_int rid ncb local ext (m, p) = (Ok tt, s1) /\
       allocate_new_blocks use_int rid nt main s1 = (Ok ret, s2) /\
       mgr_inv s2 xs2 R /\ zlen xs2 = zlen xs - n /\
       cdiv nt (block_size m) <= zlen (table s2.1 rid)).
Proof.
  intros I Hs Hm Hnc Ht Hb Hnd Hcache Hloc Hext Hle.
  assert (Hbs : 0 < block_size m) by apply (I rid).
  assert (Hm' : match attn (kv_cache_spec m) with Mamba _ _ => False | _ => True end)
    by (by destruct (attn (kv_cache_spec m))).
  eexists. split; [by eapply num_blocks_new_request|]. intros Hn.
  assert (Hkb : forall b, b ∈ kept_hits m (local + ext) ncb -> b ∈ blocks p).
  { intros b Hin%kept_hits_incl. auto. }
  assert (Hknd : NoDup (real (null_block p) (kept_hits m (local + ext) ncb))).
  { unfold kept_hits. destruct (0 <? _); [|done].
    rewrite <- (take_drop (Z.to_nat (skipped_blocks m (local + ext))) ncb), real_app in Hnd.
    by apply NoDup_app in Hnd as (_ & _ & ?). }
  pose proof (touched_count p xs _ _ (mo_pool _ _ _ _ _ (I rid)) Hkb Hknd) as Hcount.
  cbn [fst snd] in Hcount. fold (table m rid) in Hcount.
  set (fr := zlen (freed _ _ _)) in *. set (kept := kept_hits m (local + ext) ncb) in *.
  pose proof (external_need_nonneg m ncb local ext Hs Hbs Hloc Hext) as Hen.
  pose proof (hit_table_length m (local + ext) ncb) as Hht.
  (* the two allocations together *)
  assert (Hsum : forall a, a = external_need m ncb local ext ->
     a + Z.max 0 (cdiv nt (block_size m) - (zlen (hit_table m (local + ext) ncb) + a))
     = Z.max (cdiv nt (block_size m) - Z.max (skipped_blocks m (local + ext)) (zlen ncb)) 0).
  { intros a ->. unfold external_need in *. cbv zeta in *.
    assert (cdiv (local + ext) (block_size m) <= cdiv nt (block_size m)).
    { rewrite !cdiv_spec by done. apply Z.div_le_mono; lia. }
    destruct (0 <? (if 0 <? skipped_blocks m (local + ext)
       then Z.min (local + ext - num_skipped (kv_cache_spec m) (local + ext)) ext else ext)); lia. }
  pose proof (base_allocate_new_computed_blocks_wpx use_int m p rid ncb local ext xs R
                I Hs Hnc Hb Hnd Hloc Hext) as H1. cbv zeta in H1. fold kept in H1.
  assert (Hrun1 : allocate_new_computed_blocks use_int rid ncb local ext (m, p)
                  = base_allocate_new_computed_blocks use_int rid ncb local ext (m, p)).
  { unfold allocate_new_computed_blocks, mgr, gets, mbind, M_bind. cbn [fst].
    by destruct (attn (kv_cache_spec m)). }
  rewrite Hrun1. unfold wpx in H1.
  destruct (base_allocate_new_computed_blocks use_int rid ncb local ext (m, p)) as [[[]|e] [m1 p1]].
  2: { exfalso. destruct H1 as [(_ & [?|[Hf Hk]])|(_ & Hlt)]; [done| |].
       - destruct Hcache as [|E]; [congruence|]. apply Hk. unfold kept, kept_hits. rewrite E.
         destruct (0 <? _); [apply drop_nil|done].
       - specialize (Hsum _ eq_refl). lia. }
  destruct H1 as (alloc & xs1 & I1 & Hc1 & Hxs & Hal & _ & Hr1 & Hnc1). cbn [fst snd] in *.
  destruct Hc1 as [Hmc1 _]. cbn [fst] in Hmc1. apply mconf_eq in Hmc1 as (Eb & Ek & _).
  assert (Hm1 : match attn (kv_cache_spec m1) with Mamba _ _ => False | _ => True end)
    by (by rewrite Ek).
  pose proof (base_allocate_new_blocks_wpx use_int m1 p1 rid nt xs1 R I1) as H2.
  assert (Hrun2 : allocate_new_blocks use_int rid nt main (m1, p1)
                 = base_allocate_new_blocks use_int rid nt (m1, p1)).
  { unfold allocate_new_blocks, mgr, gets, mbind, M_bind. cbn [fst].
    by destruct (attn (kv_cache_spec m1)) as [| | |[]|]. }
  assert (Ht1 : table m1 rid = hit_table m (local + ext) ncb ++ alloc).
  { unfold table. by rewrite Hr1, lookup_insert_eq. }
  assert (Hlx : zlen xs1 = zlen xs - fr - zlen alloc).
  { rewrite <- Hcount, Hxs, length_app. lia. }
  specialize (Hsum _ eq_refl). rewrite <- Hal in Hsum.
  unfold wpx in H2. cbv zeta in H2. rewrite Ht1, length_app, Eb, Nat2Z.inj_add in H2.
  destruct (base_allocate_new_blocks use_int rid nt (m1, p1)) as [[ret|e] s2] eqn:E2.
  2: { exfalso. destruct H2 as (_ & Hlt & _). lia. }
  destruct H2 as (xs2 & I2 & _ & Hx2 & Hret & Hr2 & _).
  exists (m1, p1), ret, s2, xs2. split; [done|]. split; [by rewrite Hrun2|]. split; [done|].
  assert (zlen xs1 = zlen ret + zlen xs2) by (rewrite Hx2, length_app; lia).
  split; [lia|]. unfold table at 1. rewrite Hr2, lookup_insert_eq. cbn [default from_option id].
  rewrite !length_app, !Nat2Z.inj_add. lia.
Qed.

(** [free] releases a request whatever its state: it never raises, its block
    table and count of cached blocks are gone, the other tables are as they
    were, and a second [free] changes no table. *)
Theorem free_releases_request m p rid xs R :
  mgr_inv (m, p) xs R ->
  exists s', free rid (m, p) = (Ok tt, s') /\ (exists xs', mgr_inv s' xs' R) /\
    req_to_blocks s'.1 = delete rid (req_to_blocks m) /\
    num_cached_block s'.1 = delete rid (num_cached_block m) /\
    exists s'', free rid s' = (Ok tt, s'') /\ req_to_blocks s''.1 = req_to_blocks s'.1.
Proof.
  intros I. destruct (wp_returns _ _ _ (free_spec m p rid xs R I)) as ([] & s' & Hrun & F).
  destruct s' as [m' p'], F as ([xs' I'] & _ & Hr & Hn). cbn [fst] in *.
  exists (m', p'). split; [done|]. split; [by exists xs'|]. split; [done|]. split; [done|].
  destruct (wp_returns _ _ _ (free_spec m' p' rid xs' R I')) as ([] & s'' & Hrun' & _ & _ & Hr' & _).
  exists s''. split; [done|]. cbn [fst]. rewrite Hr', Hr, delete_delete_eq. done.
Qed.

(** ** Witnesses *)

Definition full_spec : KVCacheSpec := mkSpec 16 false (FullAttention true).

(** A manager of full attention over the pool of which others hold two blocks
    and one is free. *)
Lemma sample_manager : exists p,
  let m := manager_init full_spec p true 0 16 1 1 None in
  mgr_inv (m, p) [Blk 3] [Blk 1; Blk 2] /\ pool_inv p [Blk 3] [] [Blk 1; Blk 2] /\
  config p = (4, true, 16, [Blk 0; Blk 1; Blk 2; Blk 3], Blk 0, true).
Proof.
  destruct (sample_pool false true) as (p & I & Hcfg & _). exists p. split; [|done].
  apply manager_init_inv; try done.
Qed.

Lemma allocate_new_blocks_exact_witness : exists m p s',
  mgr_inv (m, p) [Blk 3] [Blk 1; Blk 2] /\
  allocate_new_blocks true "r" 16 16 (m, p) = (Ok [Blk 3], s') /\
  req_to_blocks s'.1 !! "r" = Some [Blk 3] /\
  exists s2, allocate_new_blocks true "r" 33 33 (m, p) = (Err ValueError, s2).
Proof.
  destruct sample_manager as (p & I & _). cbv zeta in I.
  set (m := manager_init full_spec p true 0 16 1 1 None) in *. exists m, p.
  pose proof (allocate_new_blocks_exact true m p "r" 16 16 _ _ I Logic.I) as H1.
  pose proof (allocate_new_blocks_exact true m p "r" 33 33 _ _ I Logic.I) as H2.
  destruct (allocate_new_blocks true "r" 16 16 (m, p)) as [[ret|e] s'].
  - destruct H1 as (_ & -> & _ & Hr). exists s'. split; [exact I|]. split; [reflexivity|].
    split; [rewrite Hr; apply lookup_insert_eq|].
    destruct (allocate_new_blocks true "r" 33 33 (m, p)) as [[ret2|e2] s2].
    + exfalso. destruct H2 as (Hle & _). vm_compute in Hle. by apply Hle.
    + exists s2. by destruct H2 as (-> & _).
  - exfalso. destruct H1 as (_ & Hlt & _). vm_compute in Hlt. discriminate Hlt.
Defined.

(** A run of calls, each of which callers may make and which returns. *)
Definition op_okb (s : St) (o : mgr_op) : bool :=
  match o with
  | OpHits _ ncb local ext =>
      bool_decide (Forall (fun b => b ∈ blocks s.2) ncb) && bool_decide (NoDup (real (null_block s.2) ncb)) &&
      (local =? zlen ncb * block_size s.1) && (0 <=? ext)
  | OpAlloc _ _ main => 0 <=? main
  | OpCache _ _ _ => enable_caching s.2
  | _ => true
  end.

Lemma op_okb_sound s o : op_okb s o = true -> op_ok s o.
Proof.
  destruct o; cbn; try done; [|lia]. rewrite !andb_true_iff, !bool_decide_eq_true, Forall_forall. intros [[[? ?] ?] ?].
  split; [done|]. split; [done|]. split; lia.
Qed.

Fixpoint run_mgr_ops (l : list mgr_op) (s : St) : option St :=
  match l with
  | [] => Some s
  | o :: l => if op_okb s o then match run_mgr_op false id o s with (Ok tt, s') => run_mgr_ops l s' | _ => None end else None
  end.

Lemma run_mgr_ops_reachable l s0 s s' :
  mgr_reachable false id s0 s -> run_mgr_ops l s = Some s' -> mgr_reachable false id s0 s'.
Proof.
  revert s. induction l as [|o l IH]; intros s Hr; cbn; [by intros [= <-]|]. destruct (op_okb s o) eqn:Eo; [|done].
  destruct (run_mgr_op false id o s) as [[[]|e] s1] eqn:E; [|done]. apply IH. eapply MgrStep; [exact Hr| |exact E]. by apply op_okb_sound.
Qed.

(** A request fills three blocks and caches two, another one hits them and takes
    a fourth; the first leaves its window, then goes. *)
Definition window_spec33 : KVCacheSpec := mkSpec 16 false (SlidingWindow 33).
Definition sample_ops : list mgr_op :=
  let rid := request_id sample_request in
  [OpNewStep; OpAlloc rid 40 40; OpCache (two_hashes sample_request) 32 None; OpHits "other" [Blk 1; Blk 2] 32 0;
   OpAlloc "other" 56 56; OpTakeIds; OpSkip rid 56; OpFree rid].

Lemma manager_safety_witness : exists p0 m p xs, pool_init 6 true 16 true = Ok p0 /\
  mgr_reachable false id (manager_init window_spec33 p0 true 0 16 1 1 None, p0) (m, p) /\
  req_to_blocks m = {["other" := [Blk 1; Blk 2; Blk 4; Blk 5]]} /\
  pool_inv p xs [] (mheld (req_to_blocks m) ++ []) /\ ref_cnt_of p (Blk 1) = Some 1 /\ Blk 3 ∈ xs.
Proof.
  destruct (pool_init 6 true 16 true) as [p0|] eqn:E0; [|discriminate E0].
  destruct (pool_init_spec 6 true 16 true ltac:(lia)) as (p1 & Hp & I0 & _). assert (p1 = p0) as -> by congruence.
  destruct (run_mgr_ops sample_ops (manager_init window_spec33 p0 true 0 16 1 1 None, p0)) as [[m p]|] eqn:Erun.
  2: { vm_compute in E0. injection E0 as <-. vm_compute in Erun. discriminate Erun. }
  assert (Ht : req_to_blocks m = {["other" := [Blk 1; Blk 2; Blk 4; Blk 5]]} /\ blocks p = Blk <$> seq 0 6 /\ null_block p = Blk 0).
  { vm_compute in E0. injection E0 as <-. vm_compute in Erun. injection Erun as <- <-. split; [|split]; vm_compute; reflexivity. }
  destruct Ht as (Ht & Eb & En).
  assert (Hr : mgr_reachable false id (manager_init window_spec33 p0 true 0 16 1 1 None, p0) (m, p)).
  { eapply run_mgr_ops_reachable; [apply MgrInit|exact Erun]. }
  destruct (manager_safety false id window_spec33 p0 true 0 16 1 1 None _ [] m p I0 ltac:(split; vm_compute; done) eq_refl eq_refl eq_refl Hr)
    as (xs & Hi & Hc & _).
  exists p0, m, p, xs. split; [reflexivity|]. split; [exact Hr|]. split; [exact Ht|]. split; [exact Hi|].
  destruct (Hc (Blk 1)) as [H1 _]; [rewrite Eb; apply (bool_decide_unpack _); vm_compute; exact Logic.I|rewrite En; discriminate|].
  destruct (Hc (Blk 3)) as [_ H3]; [rewrite Eb; apply (bool_decide_unpack _); vm_compute; exact Logic.I|rewrite En; discriminate|].
  rewrite Ht in H1, H3. split; [rewrite H1; vm_compute; reflexivity|].
  apply H3. split; apply (bool_decide_unpack _); vm_compute; exact Logic.I.
Defined.

Lemma admission_check_exact_witness : exists m p n s1 s2 ret,
  mgr_inv (m, p) [Blk 3] [Blk 1; Blk 2] /\
  get_num_blocks_to_allocate "r" 40 [Blk 1; Blk 2] 32 40 false (m, p) = (Ok n, (m, p)) /\ n = 1 /\
  allocate_new_computed_blocks true "r" [Blk 1; Blk 2] 32 0 (m, p) = (Ok tt, s1) /\
  allocate_new_blocks true "r" 40 40 s1 = (Ok ret, s2) /\ 3 <= zlen (table s2.1 "r").
Proof.
  destruct sample_manager as (p & I & Ip & Hcfg). cbv zeta in I. unfold config in Hcfg.
  injection Hcfg as E1 E2 E3 E4 E5 E6.
  set (m := manager_init full_spec p true 0 16 1 1 None) in *.
  edestruct (admission_check_exact true m p "r" 40 40 [Blk 1; Blk 2] 32 0 [Blk 3] [Blk 1; Blk 2] I)
    as (n & Hn & Hgo).
  - done.
  - done.
  - done.
  - done.
  - intros b Hb. rewrite E4. set_solver.
  - rewrite E5. apply (bool_decide_unpack _). vm_compute. exact Logic.I.
  - by left.
  - done.
  - lia.
  - lia.
  - assert (En : n = 1).
    { change (32 + 0) with 32 in Hn. rewrite (num_blocks_new_request m p "r" 40 [Blk 1; Blk 2] 32 40 _ _ I Logic.I Logic.I
        eq_refl eq_refl) in Hn by (intros b Hb; rewrite E4; set_solver).
      unfold freed in Hn. rewrite E5 in Hn. vm_compute in Hn. by injection Hn. }
    destruct (Hgo ltac:(rewrite En; vm_compute; discriminate)) as (s1 & ret & s2 & xs2 & H1 & H2 & _ & _ & H3).
    by exists m, p, n, s1, s2, ret.
Defined.

Lemma free_releases_request_witness : exists m p ret s1 s2,
  base_allocate_new_blocks true "r" 16 (m, p) = (Ok ret, s1) /\ zlen ret = 1 /\
  free "r" s1 = (Ok tt, s2) /\ req_to_blocks s2.1 !! "r" = None /\ exists xs, mgr_inv s2 xs [Blk 1; Blk 2].
Proof.
  destruct sample_manager as (p & I & _). cbv zeta in I.
  set (m := manager_init full_spec p true 0 16 1 1 None) in *.
  pose proof (base_allocate_new_blocks_wpx true m p "r" 16 _ _ I) as H1. unfold wpx in H1.
  destruct (base_allocate_new_blocks true "r" 16 (m, p)) as [[ret|e] [m1 p1]] eqn:E.
  - destruct H1 as (xs' & I1 & _ & _ & Hl & _).
    destruct (free_releases_request m1 p1 "r" xs' _ I1) as (s2 & Hf & Hi & Hr & _).
    exists m, p, ret, (m1, p1), s2. split; [exact E|]. split; [rewrite Hl; vm_compute; reflexivity|].
    split; [exact Hf|]. split; [rewrite Hr; apply lookup_delete_eq|exact Hi].
  - exfalso. destruct H1 as (_ & Hlt & _). vm_compute in Hlt. discriminate Hlt.
Defined.

End SingleTypeSafety.
