(* ===== verification/CacheHit.v ===== *)
(** * CacheHit

    What the longest-prefix searches of the managers return
    (find_longest_cache_hit of v1/core/single_type_kv_cache_manager.py): the
    blocks are the cached ones, the length is aligned, and no longer prefix
    qualifies; which blocks the sparse caching of sliding windows keeps; and
    how many blocks a request of a recycling manager can hold at once. *)

From S2P Require Import Prelude FreeQueue Request BlockHash BlockPool SingleType SingleTypeSafety.

Module CacheHit.
Import FreeQueue Request BlockHash BlockPool SingleType SingleTypeSafety.
#[local] Open Scope Z_scope.

(** A length in blocks that falls on an alignment boundary. *)
Definition aligned (bs al : Z) (n : nat) : Prop := bs = al \/ (Z.of_nat n * bs) mod al = 0.

#[export] Instance aligned_dec bs al n : Decision (aligned bs al n).
Proof. unfold aligned. apply _. Defined.

Lemma aligned_0 bs al : 0 < al -> aligned bs al 0.
Proof. intros H. right. by rewrite Z.mod_0_l by lia. Qed.

(** The block [b] carries the hash [h] in group [g]. *)
Definition carries (p : BlockPool) (h : bytes) (g : Z) (b : ref) : Prop :=
  hash_of (kstore p) b = Some (pack h g).
(** The hash is cached in every group. *)
Definition cached (p : BlockPool) (gs : list Z) (h : bytes) : Prop :=
  forall g, g ∈ gs -> exists b, carries p h g b.

(** ** Tables: one row per group, all of one length *)

Definition table_ok (gs : list Z) (computed : list (list ref)) (n : nat) (P : nat -> Z -> ref -> Prop) : Prop :=
  Forall2 (fun g l => length l = n /\ forall k b, l !! k = Some b -> P k g b) gs computed.

Lemma table_mono gs c n P P' :
  table_ok gs c n P -> (forall k g b, (k < n)%nat -> P k g b -> P' k g b) -> table_ok gs c n P'.
Proof.
  intros H HP. eapply Forall2_impl; [exact H|]. intros g l [Hl Hk]. split; [done|].
  intros k b Hb. apply HP; [|auto]. rewrite <- Hl. by eapply lookup_lt_Some.
Qed.

Lemma table_replicate gs n P x :
  (forall k g, (k < n)%nat -> P k g x) ->
  table_ok gs (replicate (length gs) (replicate n x)) n P.
Proof.
  intros HP. unfold table_ok. induction gs as [|g l IH]; simpl; [constructor|]. constructor; [|exact IH].
  split; [apply length_replicate|]. intros k b [-> Hk]%lookup_replicate. auto.
Qed.

Lemma table_empty gs P : table_ok gs (empty_hit gs) 0 P.
Proof. apply (table_replicate gs 0 P (Blk 0)). lia. Qed.

Lemma table_append gs c n P cs :
  table_ok gs c n P -> Forall2 (P n) gs cs -> table_ok gs (append_each c cs) (S n) P.
Proof.
  unfold append_each, table_ok. intros H. revert cs. induction H as [|g l gs' c' [Hl Hk] _ IH]; intros cs Hcs.
  { by apply Forall2_nil_inv_l in Hcs as ->. }
  apply Forall2_cons_inv_l in Hcs as (b & cs' & Hb & Hcs & ->). simpl. constructor; [|auto].
  split; [rewrite length_app; simpl; lia|]. intros k b' [Hk'|(Hle & Hk')]%lookup_app_Some; [auto|].
  apply list_lookup_singleton_Some in Hk' as [Hz <-]. by replace k with n by lia.
Qed.

Lemma table_set gs c n (P P' : nat -> Z -> ref -> Prop) i cs :
  table_ok gs c n P -> (i < n)%nat -> Forall2 (P' i) gs cs ->
  (forall k g b, k <> i -> P k g b -> P' k g b) -> table_ok gs (set_each i c cs) n P'.
Proof.
  unfold set_each, table_ok. intros H Hi Hcs HP. revert cs Hcs.
  induction H as [|g l gs' c' [Hl Hk] _ IH]; intros cs Hcs.
  { by apply Forall2_nil_inv_l in Hcs as ->. }
  apply Forall2_cons_inv_l in Hcs as (b & cs' & Hb & Hcs & ->). simpl. constructor; [|auto].
  split; [by rewrite length_insert|]. intros k b'. rewrite list_lookup_insert_Some.
  intros [(<- & -> & _)|[Hne Hk']]; [done|]. auto.
Qed.

Lemma table_take gs c n P m : table_ok gs c n P -> table_ok gs (take m <$> c) (Nat.min m n) P.
Proof.
  intros H. apply Forall2_fmap_r. eapply Forall2_impl; [exact H|]. intros g l [Hl Hk]. simpl.
  split; [rewrite length_take; lia|]. intros k b [Hb _]%lookup_take_Some. auto.
Qed.

Lemma wp_first_len {S} gs c n P Q (s : S) :
  table_ok gs c n P -> gs <> [] -> Q (Z.of_nat n) s -> wp (first_len c) Q s.
Proof.
  intros H Hg HQ. unfold first_len. destruct H as [|g l gs' c' [Hl _] _]; [done|].
  simpl. apply wp_bind, wp_ret, wp_ret. by rewrite Hl.
Qed.

Lemma wp_pop_each {S} gs c n P Q (s : S) :
  table_ok gs c (Datatypes.S n) P -> (forall c', table_ok gs c' n P -> Q c' s) -> wp (pop_each c) Q s.
Proof.
  intros H HQ. unfold pop_each.
  assert (Hall : Forall (fun l => length l = Datatypes.S n) c).
  { clear HQ. induction H as [|g l gs' c' [Hl _] _ IH]; constructor; auto. }
  rewrite (proj2 (forallb_forall _ c)).
  2: { intros l Hl%list_elem_of_In. rewrite Forall_forall in Hall. by rewrite (Hall l Hl). }
  apply wp_ret, HQ. pose proof (table_take _ _ _ _ n H) as Ht. rewrite Nat.min_l in Ht by lia.
  replace ((fun l => take (length l - 1) l) <$> c) with (take n <$> c); [done|].
  apply list_fmap_ext. intros i l Hi. eapply Forall_lookup_1 in Hall; [|exact Hi].
  f_equal. lia.
Qed.

(** The alignment loop cuts to the longest aligned length. *)
Lemma wp_align_hit {S} gs bs al c n P Q (s : S) :
  table_ok gs c n P -> gs <> [] -> 0 < al ->
  (forall c' m, table_ok gs c' m P -> (m <= n)%nat -> aligned bs al m ->
     (forall m', (m' <= n)%nat -> aligned bs al m' -> (m' <= m)%nat) -> Q c' s) ->
  wp (align_hit bs al c) Q s.
Proof.
  intros H Hg Hal. unfold align_hit.
  assert (Hfuel : (n < Datatypes.S (length (default [] (head c))))%nat).
  { destruct H as [|g l gs' c' [Hl _] _]; [done|]. simpl. lia. }
  revert Hfuel. generalize (Datatypes.S (length (default [] (head c)))) as fuel.
  intros fuel. revert c n H. induction fuel as [|fuel IH]; intros c n H Hf HQ; [lia|]. simpl.
  destruct (Z.eqb_spec bs al) as [E|E].
  { apply wp_ret. eapply HQ; [done|done|by left|done]. }
  apply wp_bind. eapply wp_first_len; [done|done|]. rewrite (proj2 (Z.eqb_neq al 0)) by lia.
  destruct (Z.eqb_spec ((Z.of_nat n * bs) mod al) 0) as [Em|Em].
  { apply wp_ret. eapply HQ; [done|done|by right|done]. }
  assert (Hna : ~ aligned bs al n) by (by intros [|]).
  destruct n as [|n]; [by destruct Hna; apply aligned_0|].
  apply wp_bind. eapply wp_pop_each; [done|]. intros c' H'. eapply IH; [done|lia|].
  intros c'' m Hm Hle Ha Hmax. eapply HQ; [done|lia|done|]. intros m' Hm' Ha'.
  apply Hmax; [|done]. destruct (decide (m' = Datatypes.S n)) as [->|]; [done|lia].
Qed.

(** ** The searches *)

Section searches.
Context (p : BlockPool) (xs L H : list ref) (gs : list Z).
Hypothesis I : pool_inv p xs L H.
Hypothesis Hgs : gs <> [].
Hypothesis Hgok : Forall group_ok gs.

Lemma wp_lookup h Q :
  (forall c cs, Forall2 (carries p h) gs (c :: cs) -> cached p gs h -> Q (Some (c :: cs)) p) ->
  (~ cached p gs h -> Q None p) -> wp (get_cached_block h gs) Q p.
Proof.
  intros Hhit Hmiss. eapply wp_mono; [by eapply get_cached_block_spec|].
  intros [[|c cs]|] p' [-> Hr].
  - by apply Forall2_nil_inv_r in Hr.
  - apply Hhit; [done|]. intros g (k & Hk)%list_elem_of_lookup.
    destruct (Forall2_lookup_l _ _ _ _ _ Hr Hk) as (b & _ & Hb). by exists b.
  - apply Hmiss. destruct Hr as (g & Hg & Hno). intros Hc. destruct (Hc g Hg) as (b & Hb).
    by eapply Hno.
Qed.

(** The entry of a table at a position is the cached block of that hash. *)
Definition holds (hs : list bytes) (k : nat) (g : Z) (b : ref) : Prop :=
  exists h, hs !! k = Some h /\ carries p h g b.
Definition cached_at (hs : list bytes) (k : nat) : Prop :=
  exists h, hs !! k = Some h /\ cached p gs h.

Lemma wp_prefix_scan HS Q : forall hs n c,
  drop n HS = hs -> table_ok gs c n (holds HS) -> (forall k, (k < n)%nat -> cached_at HS k) ->
  (forall c' n', table_ok gs c' n' (holds HS) -> (n' <= length HS)%nat \/ n' = n ->
     (forall k, (k < n')%nat -> cached_at HS k) -> ~ cached_at HS n' -> Q c' p) ->
  wp (prefix_scan gs hs c) Q p.
Proof.
  induction hs as [|h hs IH]; intros n c Hd Hc Hpre HQ; simpl.
  - apply wp_ret. eapply HQ; [done|by right|done|].
    intros (h & Hh & _). apply lookup_lt_Some in Hh. apply (f_equal length) in Hd.
    rewrite length_drop in Hd. simpl in Hd. lia.
  - assert (Hh : HS !! n = Some h) by (by rewrite <- (Nat.add_0_r n), <- lookup_drop, Hd).
    apply wp_bind, wp_lookup.
    + intros c0 cs Hcs Hcach. apply (IH (S n)).
      * by rewrite <- Nat.add_1_r, <- drop_drop, Hd.
      * apply table_append; [done|]. eapply Forall2_impl; [exact Hcs|]. intros g b Hb. by exists h.
      * intros k Hk. destruct (decide (k = n)) as [->|]; [by exists h|]. apply Hpre. lia.
      * intros c' n' H' Hn' Hp' Hno. apply (HQ c' n'); try done. destruct Hn' as [| ->]; [by left|].
        left. by apply lookup_lt_Some in Hh.
    + intros Hno. apply wp_ret. eapply HQ; [done|by right|done|].
      intros (h' & Hh' & Hc'). rewrite Hh in Hh'. by injection Hh' as ->.
Qed.

(** A prefix of [n] blocks is a usable hit of full attention: aligned, and the
    blocks, and one more under EAGLE, are cached. *)
Definition full_hit (hs : list bytes) (maxb : nat) (bs al : Z) (drop_eagle_block : bool) (n : nat)
    : Prop :=
  aligned bs al n /\
  (n = 0%nat \/ let m := if drop_eagle_block then S n else n in
    (m <= maxb)%nat /\ forall k, (k < m)%nat -> cached_at hs k).

Lemma full_search hl max_length spec de al cp Q counted :
  let bs := if 1 <? cp then spec_block_size spec * cp else spec_block_size spec in
  let maxb := Z.to_nat (max_length / bs) in
  attn spec = FullAttention counted -> 0 < spec_block_size spec -> 0 < al -> 0 <= max_length ->
  (forall c n, table_ok gs c n (holds (hashes_all hl)) ->
     full_hit (hashes_all hl) maxb bs al de n ->
     (forall n', full_hit (hashes_all hl) maxb bs al de n' -> (n' <= n)%nat) -> Q c p) ->
  wp (full_find_longest_cache_hit gs hl max_length spec de al cp) Q p.
Proof.
  intros bs maxb Hat Hbs Hal Hml HQ. unfold full_find_longest_cache_hit. rewrite Hat.
  apply wp_bind, wp_assert; [done|]. fold bs.
  assert (Hbs' : 0 < bs) by (unfold bs; destruct (Z.ltb_spec 1 cp); nia).
  unfold floordiv. rewrite (proj2 (Z.eqb_neq bs 0)) by lia. apply wp_bind, wp_ret.
  unfold islice. pose proof (Z.div_pos max_length bs Hml Hbs') as Hmb.
  rewrite (proj2 (Z.ltb_ge _ _)) by lia. apply wp_bind, wp_ret. fold maxb.
  set (hs := take maxb (hashes_all hl)).
  apply wp_bind, (wp_prefix_scan hs _ hs 0); [done|apply table_empty|lia|].
  intros c n0 Hc Hn0 Hpre Hno.
  assert (Hn0' : (n0 <= length hs)%nat) by lia.
  assert (Hcat : forall k, cached_at hs k <-> (k < maxb)%nat /\ cached_at (hashes_all hl) k).
  { intros k. unfold cached_at, hs. setoid_rewrite lookup_take_Some. naive_solver. }
  assert (Hc' : table_ok gs c n0 (holds (hashes_all hl))).
  { eapply table_mono; [exact Hc|]. intros k g b _ (h & Hh & ?). exists h. split; [|done].
    by apply lookup_take_Some in Hh as [? _]. }
  assert (Hmb0 : (n0 <= maxb)%nat) by (unfold hs in Hn0'; rewrite length_take in Hn0'; lia).
  assert (Hlen : forall m, (m <= maxb)%nat -> (forall k, (k < m)%nat -> cached_at (hashes_all hl) k) ->
            (m <= n0)%nat).
  { intros m Hm Hall. destruct (decide (m <= n0)%nat) as [|Hgt]; [done|]. exfalso. apply Hno, Hcat.
    split; [lia|]. apply Hall. lia. }
  assert (Hpre' : forall k, (k < n0)%nat -> cached_at (hashes_all hl) k)
    by (intros k Hk; by apply Hcat, Hpre).
  unfold drop_eagle. destruct de.
  - apply wp_bind, wp_bind. eapply wp_first_len; [done|done|].
    destruct (Z.eqb_spec (Z.of_nat n0) 0) as [E|E].
    + apply wp_ret. eapply wp_align_hit; [done|done|done|]. intros c' m Hm Hle Ha Hmax.
      eapply HQ; [done|split; [done|left; lia]|].
      intros n' [_ [->|[Hle' Hall]]]; [lia|]. specialize (Hlen _ Hle' Hall). lia.
    + destruct n0 as [|n0]; [lia|]. eapply wp_pop_each; [done|]. intros c1 Hc1.
      eapply wp_align_hit; [done|done|done|]. intros c' m Hm Hle Ha Hmax. eapply HQ; [done| |].
      * split; [done|]. right. split; [lia|]. intros k Hk. apply Hpre'. lia.
      * intros n' [Ha' [->|[Hle' Hall]]]; [lia|]. apply Hmax; [|done].
        specialize (Hlen _ Hle' Hall). lia.
  - apply wp_bind, wp_ret. eapply wp_align_hit; [done|done|done|].
    intros c' m Hm Hle Ha Hmax. eapply HQ; [done| |].
    * split; [done|]. right. split; [lia|]. intros k Hk. apply Hpre'. lia.
    * intros n' [Ha' [->|[Hle' Hall]]]; [lia|]. apply Hmax; [|done]. by apply Hlen.
Qed.

(** *** Sliding windows *)

Lemma wp_hashes_get {S} hl i h Q (s : S) :
  hashes_all hl !! i = Some h -> Q h s -> wp (hashes_get hl (Z.of_nat i)) Q s.
Proof.
  unfold hashes_all, hashes_get. destruct hl as [hs|l]; intros Hh HQ.
  - unfold py_index. rewrite (proj2 (Z.leb_le _ _)), Nat2Z.id, Hh by lia. by apply wp_ret.
  - apply wp_ret. unfold hl_iter, zrange in Hh.
    rewrite !list_lookup_fmap in Hh. apply fmap_Some in Hh as (z & Hz & ->).
    apply fmap_Some in Hz as (i' & [-> _]%lookup_seq & ->). done.
Qed.

Section window.
Context (hs : list bytes) (maxb : nat) (bs al : Z) (de : bool) (need : nat).
Hypothesis Hal : 0 < al.
Hypothesis Hlen : (maxb <= length hs)%nat.
(** The extra block EAGLE needs. *)
Definition extra : nat := if de then 1 else 0.

(** A prefix of [n] blocks is a usable hit of a window: aligned, and the last
    [need] blocks up to the EAGLE block are cached. *)
Definition window_hit (n : nat) : Prop :=
  aligned bs al n /\
  (n = 0%nat \/ (n + extra <= maxb)%nat /\
     forall k, (n + extra - need <= k < n + extra)%nat -> cached_at hs k).

(** Entries of a window table: the cached block from [lo] to [hi], elsewhere
    that or the null block. *)
Definition window_entry (lo hi k : nat) (g : Z) (b : ref) : Prop :=
  (b = null_block p \/ holds hs k g b) /\ ((lo <= k < hi)%nat -> holds hs k g b).

(** What the search knows when the blocks from [i] on are done and the run of
    cached blocks ends at [R]. *)
Record window_run (i R : nat) (c : list (list ref)) : Prop := {
  wr_table : table_ok gs c maxb (window_entry i R);
  wr_le : (i <= R <= maxb)%nat;
  wr_cached : forall k, (i <= k < R)%nat -> cached_at hs k;
  wr_aligned : (i < R)%nat -> aligned bs al (R - extra);
  wr_short : R = i \/ (R - i < need)%nat;
  wr_max : (1 <= need)%nat -> forall n', window_hit n' -> (n' + extra <= R)%nat \/ n' = 0%nat
}.

Lemma window_run_miss i R c : window_run (S i) R c -> ~ cached_at hs i -> window_run i i c.
Proof.
  intros [Ht Hle Hc Ha Hs Hm] Hno. constructor; try lia.
  - eapply table_mono; [exact Ht|]. intros k g b _ [? _]. split; [done|lia].
  - intros Hn n' Hw. destruct (Hm Hn n' Hw) as [Hle'|]; [|by right].
    destruct Hw as [_ [->|[_ Hall]]]; [by right|]. left.
    destruct (decide (n' + extra <= i)%nat) as [|Hgt]; [done|]. exfalso. apply Hno, Hall. lia.
Qed.

Lemma window_run_skip i c : window_run (S i) (S i) c -> ~ aligned bs al (S i - extra) ->
  window_run i i c.
Proof.
  intros [Ht Hle Hc Ha Hs Hm] Hno. constructor; try lia.
  - eapply table_mono; [exact Ht|]. intros k g b _ [? _]. split; [done|lia].
  - intros Hn n' Hw. destruct (Hm Hn n' Hw) as [Hle'|]; [|by right].
    destruct (decide (n' + extra <= i)%nat) as [|Hgt]; [by left|]. exfalso. apply Hno.
    replace (S i - extra)%nat with n' by lia. apply Hw.
Qed.

Lemma window_run_hit i R c cs :
  window_run (S i) R c -> cached_at hs i -> Forall2 (holds hs i) gs cs ->
  (R = S i -> aligned bs al (R - extra)) ->
  table_ok gs (set_each i c cs) maxb (window_entry i R) /\
  (forall k, (i <= k < R)%nat -> cached_at hs k) /\ aligned bs al (R - extra).
Proof.
  intros [Ht Hle Hc Ha Hs Hm] Hi Hcs Hal'. split; [|split].
  - eapply table_set; [exact Ht|lia| |].
    + eapply Forall2_impl; [exact Hcs|]. intros g b Hb. split; [by right|done].
    + intros k g b Hne [Hb Hh]. split; [done|]. intros Hk. apply Hh. lia.
  - intros k Hk. destruct (decide (k = i)) as [->|]; [done|]. apply Hc. lia.
  - destruct (decide (R = S i)); [by apply Hal'|]. apply Ha. lia.
Qed.

Lemma wp_window_scan hl Q : hashes_all hl = hs -> forall i R c,
  window_run i R c ->
  (forall c' R', table_ok gs c' R' (window_entry (R' - need) R') ->
     (1 <= R' <= maxb)%nat -> aligned bs al (R' - extra) ->
     (forall k, (R' - need <= k < R')%nat -> cached_at hs k) -> (need <= R')%nat ->
     ((1 <= need)%nat -> forall n', window_hit n' -> (n' + extra <= R')%nat \/ n' = 0%nat) ->
     forall z, Q (c', z, true) p) ->
  (forall c' R', window_run 0 R' c' -> Q (c', Z.of_nat R', false) p) ->
  wp (window_scan gs hl bs al (Z.of_nat need) de i c (Z.of_nat (R - i))) Q p.
Proof.
  intros Hhl. induction i as [|i IH]; intros R c W HQ1 HQ2; cbn [window_scan].
  { apply wp_ret. rewrite Nat.sub_0_r. by apply HQ2. }
  assert (Hlt : (i < length hs)%nat) by (pose proof (wr_le _ _ _ W); lia).
  apply lookup_lt_is_Some in Hlt as [h Hh]. apply wp_bind.
  eapply wp_hashes_get; [by rewrite Hhl|]. apply wp_bind, wp_lookup.
  2: { intros Hno. replace 0 with (Z.of_nat (i - i)) by lia. apply IH; [|done|done].
       eapply window_run_miss; [done|]. intros (h' & Hh' & Hc'). rewrite Hh in Hh'.
       by injection Hh' as ->. }
  intros c0 cs Hcs Hcach.
  assert (Hi : cached_at hs i) by by exists h.
  assert (Hcs' : Forall2 (holds hs i) gs (c0 :: cs)).
  { eapply Forall2_impl; [exact Hcs|]. intros g b Hb. by exists h. }
  pose proof (wr_le _ _ _ W) as HleR.
  assert (Hpp : (if de then Z.of_nat i else Z.of_nat i + 1) = Z.of_nat (S i - extra)).
  { unfold extra. destruct de; lia. }
  apply wp_bind.
  assert (Hskip : forall Q', (forall sk : bool,
      (sk = true -> R = S i /\ ~ aligned bs al (S i - extra)) ->
      (sk = false -> R = S i -> aligned bs al (R - extra)) -> Q' sk p) ->
    wp (if (Z.of_nat (R - S i) =? 0) && negb (bs =? al)
        then if al =? 0 then raise ZeroDivisionError
             else mret (negb (((if de then Z.of_nat i else Z.of_nat i + 1) * bs) mod al =? 0))
        else mret false) Q' p).
  { intros Q' HQ'. rewrite (proj2 (Z.eqb_neq al 0)) by lia. rewrite Hpp.
    destruct (Z.eqb_spec (Z.of_nat (R - S i)) 0) as [E|E]; cbn [andb].
    - assert (R = S i) as -> by lia. destruct (Z.eqb_spec bs al) as [Eb|Eb]; cbn [negb].
      + apply wp_ret, HQ'; [done|]. intros _ _. by left.
      + apply wp_ret, HQ'.
        * intros [=Hne%negb_true_iff%Z.eqb_neq]. split; [done|]. by intros [|].
        * intros He%negb_false_iff%Z.eqb_eq _. by right.
    - apply wp_ret, HQ'; [done|lia]. }
  apply Hskip. intros sk Hsk1 Hsk2. destruct sk.
  { destruct (Hsk1 eq_refl) as [-> Hna]. replace (Z.of_nat (S i - S i)) with (Z.of_nat (i - i)) by lia.
    apply IH; [|done|done]. by apply window_run_skip. }
  destruct (window_run_hit i R c (c0 :: cs) W Hi Hcs' (Hsk2 eq_refl)) as (Ht' & Hc' & Ha').
  replace (Z.of_nat (R - S i) + 1) with (Z.of_nat (R - i)) by lia. cbv zeta.
  destruct (Z.leb_spec (Z.of_nat need) (Z.of_nat (R - i))) as [Hn|Hn].
  - apply wp_ret. rewrite Nat2Z.id. replace (i + (R - i))%nat with R by lia.
    apply (HQ1 _ R); [|lia|done| |lia|].
    + pose proof (table_take _ _ _ _ R Ht') as Htk. rewrite Nat.min_l in Htk by lia.
      eapply table_mono; [exact Htk|]. intros k g b Hk [Hb Hh']. split; [done|]. intros Hk'.
      destruct (wr_short _ _ _ W); apply Hh'; lia.
    + intros k Hk. destruct (wr_short _ _ _ W); apply Hc'; lia.
    + apply (wr_max _ _ _ W).
  - apply IH; [|done|done]. constructor; try done; [lia|right; lia|]. apply (wr_max _ _ _ W).
Qed.
End window.

(** The blocks a window of [w] tokens needs before the next token. *)
Definition window_need (w bs : Z) (de : bool) : nat :=
  (Z.to_nat (cdiv (w - 1) bs) + extra de)%nat.

Lemma window_search hl max_length spec de al w Q :
  let bs := spec_block_size spec in
  let maxb := Z.to_nat (max_length / bs) in
  let need := window_need w bs de in
  let hs := hashes_all hl in
  attn spec = SlidingWindow w -> 0 < w -> 0 < bs -> 0 < al -> 0 <= max_length ->
  (maxb <= length hs)%nat ->
  (forall c n, table_ok gs c n (window_entry hs (n + extra de - need) n) ->
     window_hit hs maxb bs al de need n ->
     ((1 <= need)%nat -> forall n', window_hit hs maxb bs al de need n' ->
        de = false \/ bs = al \/ (need <= n' + extra de)%nat -> (n' <= n)%nat) -> Q c p) ->
  wp (window_find_longest_cache_hit gs hl max_length spec de al 1 1) Q p.
Proof.
  intros bs maxb need hs Hat Hw Hbs Hal Hml Hlen HQ. unfold window_find_longest_cache_hit.
  rewrite Hat. apply wp_bind, wp_assert; [done|]. apply wp_bind, wp_assert; [done|]. fold bs.
  unfold contiguous_blocks_for_hit, cdiv_m, floordiv.
  rewrite (proj2 (Z.eqb_neq bs 0)) by lia. apply wp_bind, wp_bind, wp_ret, wp_ret.
  apply wp_bind, wp_ret, wp_bind, wp_get. fold maxb.
  assert (Hn : (if de then cdiv (w - 1) bs + 1 else cdiv (w - 1) bs) = Z.of_nat need).
  { pose proof (cdiv_nonneg (w - 1) bs Hbs ltac:(lia)).
    unfold need, window_need, extra. destruct de; lia. }
  rewrite Hn. apply wp_bind.
  assert (W0 : window_run hs maxb bs al de need maxb maxb
                 (replicate (length gs) (replicate maxb (null_block p)))).
  { constructor; try lia.
    - apply table_replicate. intros k g _. split; [by left|lia].
    - intros _ n' [_ [->|[? _]]]; [by right|by left]. }
  pose proof (fun Q => wp_window_scan hs maxb bs al de need Hal Hlen hl Q eq_refl maxb maxb _ W0) as Hscan.
  rewrite Nat.sub_diag in Hscan. apply Hscan; clear Hscan.
  - (* a run of [need] blocks *)
    intros c' R Ht HR Ha Hc HnR Hm z. apply wp_bind. cbn [fst snd]. apply wp_ret.
    destruct de.
    + apply wp_bind. eapply wp_first_len; [done|done|].
      destruct (Z.eqb_spec (Z.of_nat R) 0) as [E|_]; [lia|].
      destruct R as [|R]; [lia|]. apply wp_bind. eapply wp_pop_each; [done|]. intros c1 H1.
      eapply wp_align_hit; [done|done|done|]. intros c2 m H2 Hle Ha2 Hmax.
      assert (m = R) as ->.
      { cbn [extra] in Ha. rewrite Nat.sub_succ, Nat.sub_0_r in Ha.
        specialize (Hmax R ltac:(lia) Ha). lia. }
      cbn [extra] in *. apply (HQ _ R).
      * eapply table_mono; [exact H2|]. intros k g b Hk [Hb Hh]. split; [done|].
        intros Hk'. apply Hh. lia.
      * split; [done|]. right. cbn [extra]. split; [lia|]. intros k Hk. apply Hc. lia.
      * intros Hn1 n' Hw' _. destruct (Hm Hn1 n' Hw'); cbn [extra] in *; lia.
    + apply wp_ret. cbn [extra] in *. rewrite Nat.sub_0_r in Ha. apply (HQ _ R).
      * eapply table_mono; [exact Ht|]. intros k g b Hk [Hb Hh]. split; [done|].
        intros Hk'. apply Hh. lia.
      * split; [done|]. right. cbn [extra]. split; [lia|]. intros k Hk. apply Hc. lia.
      * intros Hn1 n' Hw' _. destruct (Hm Hn1 n' Hw'); lia.
  - (* the run of cached blocks from the start *)
    intros c' R W. apply wp_bind. cbn [fst snd]. rewrite Nat2Z.id.
    pose proof (table_take _ _ _ _ R (wr_table _ _ _ _ _ _ _ _ _ W)) as Ht.
    pose proof (wr_le _ _ _ _ _ _ _ _ _ W) as HleR. rewrite Nat.min_l in Ht by lia.
    pose proof (wr_cached _ _ _ _ _ _ _ _ _ W) as Hc. pose proof (wr_short _ _ _ _ _ _ _ _ _ W) as Hs.
    pose proof (wr_max _ _ _ _ _ _ _ _ _ W) as Hm. pose proof (wr_aligned _ _ _ _ _ _ _ _ _ W) as Ha.
    eapply wp_align_hit; [done|done|done|]. intros c1 m1 H1 Hle1 Ha1 Hmax1.
    assert (Hent : forall c m, (m <= R)%nat -> table_ok gs c m (window_entry hs 0 R) ->
              table_ok gs c m (window_entry hs (m + extra de - need) m)).
    { intros c m Hmr Htm. eapply table_mono; [exact Htm|]. intros k g b Hk [Hb Hh].
      split; [done|]. intros _. apply Hh. lia. }
    destruct de; cbn [extra] in *.
    + apply wp_bind. eapply wp_first_len; [done|done|].
      destruct (Z.eqb_spec (Z.of_nat m1) 0) as [E|E].
      * apply wp_ret. apply (HQ c1 m1); [by apply Hent|split; [done|left; lia]|].
        intros Hn1 n' Hw' Hcase. destruct (Hm Hn1 n' Hw') as [HnR|]; [|lia].
        destruct Hcase as [|[Heq|Hneed]]; [done| |lia].
        specialize (Hmax1 R ltac:(lia) ltac:(by left)). lia.
      * destruct m1 as [|m1]; [lia|]. apply wp_bind. eapply wp_pop_each; [done|]. intros c2 H2.
        eapply wp_align_hit; [done|done|done|]. intros c3 m H3 Hle3 Ha3 Hmax3.
        apply (HQ c3 m); [by apply Hent; [lia|]| |].
        { split; [done|]. right. cbn [extra]. split; [lia|]. intros k Hk. apply Hc. lia. }
        intros Hn1 n' Hw' Hcase. destruct (Hm Hn1 n' Hw') as [HnR|]; [|lia].
        destruct Hcase as [|[Heq|Hneed]]; [done| |lia].
        specialize (Hmax1 R ltac:(lia) ltac:(by left)).
        specialize (Hmax3 m1 ltac:(lia) ltac:(by left)). lia.
    + apply wp_ret. apply (HQ c1 m1); [by apply Hent| |].
      * split; [done|]. right. cbn [extra]. split; [lia|]. intros k Hk. apply Hc. lia.
      * intros Hn1 n' Hw' _. destruct (Hm Hn1 n' Hw') as [HnR|]; [|lia].
        apply Hmax1; [lia|]. apply Hw'.
Qed.
End searches.

(** ** Sparse caching of sliding windows *)

Lemma elem_of_range x a b : x ∈ range a b <-> a <= x < b.
Proof.
  unfold range, zrange. rewrite list_elem_of_fmap. setoid_rewrite list_elem_of_fmap.
  setoid_rewrite elem_of_seq. split.
  - intros (y & -> & k & -> & Hk). lia.
  - intros Hx. exists (x - a). split; [lia|]. exists (Z.to_nat (x - a)). lia.
Qed.

Lemma set_true_lookup start idxs mask j :
  (forall i, i ∈ idxs -> 0 <= i - start < zlen mask) ->
  length (set_true start idxs mask) = length mask /\
  (set_true start idxs mask !! j = Some true <->
     mask !! j = Some true \/ exists i, i ∈ idxs /\ Z.to_nat (i - start) = j).
Proof.
  unfold set_true. revert mask. induction idxs as [|i idxs IH]; intros mask Hi; simpl.
  { split; [done|]. set_solver. }
  destruct (IH (<[Z.to_nat (i - start) := true]> mask)) as [E1 E2].
  { intros i' Hi'. rewrite length_insert. apply Hi. set_solver. }
  rewrite E1, length_insert, E2. split; [done|]. rewrite list_lookup_insert_Some.
  specialize (Hi i ltac:(set_solver)). split.
  - intros [[(<- & _ & _)|[_ ?]]|(i' & ? & ?)]; [right; exists i; set_solver|by left|].
    right. exists i'. set_solver.
  - intros [Hm|(i' & [->|Hin]%elem_of_cons & <-)].
    + left. destruct (decide (Z.to_nat (i - start) = j)); [left; split; [done|]|right; done].
      split; [done|]. by eapply lookup_lt_Some.
    + left. left. split; [done|]. split; [done|]. lia.
    + right. by exists i'.
Qed.

(** Is block [i] cached by a call with this mask? [None] masks nothing out. *)
Definition keeps (mask : option (list bool)) (start i : Z) : bool :=
  match mask with None => true | Some m => bool_decide (m !! Z.to_nat (i - start) = Some true) end.

(** The blocks a hit at block [n] reads: the last [need] up to the EAGLE block. *)
Definition in_tail (need shift n i : Z) : Prop := n + shift - need <= i < n + shift.

(** The boundaries the retention interval keeps, in blocks. *)
Definition segment_boundary (bs al : Z) (retention : option Z) (n : Z) : Prop :=
  exists k, 1 <= k /\ n = k * (default al retention / bs) /\ retention <> Some 0.
Definition replay_boundary (bs al : Z) (retention np : option Z) (n : Z) : Prop :=
  exists t, retention <> None /\ np = Some t /\ n = (t - 1) / al * al / bs.

Lemma mod_tail i ps need : 0 < ps -> need < ps -> 0 <= i ->
  ps - need <= i mod ps <-> exists k, 1 <= k /\ k * ps - need <= i < k * ps.
Proof.
  intros Hps Hn Hi. pose proof (Z.div_mod i ps ltac:(lia)) as E.
  pose proof (Z.mod_pos_bound i ps Hps) as B. pose proof (Z.div_pos i ps Hi Hps). split.
  - intros Hm. exists (i / ps + 1). nia.
  - intros (k & Hk & Hlo & Hhi). assert (i / ps = k - 1) by (symmetry; apply Z.div_unique with (i - (k - 1) * ps); nia).
    nia.
Qed.

Lemma replay_tail_spec {S} bs need shift al start end_ retention np mask (st : S) :
  al <> 0 -> start <= end_ -> zlen mask = end_ - start ->
  exists mask', replay_tail bs need shift al start end_ retention np mask st = (Ok mask', st) /\
    forall i, start <= i < end_ -> mask' !! Z.to_nat (i - start) = Some true <->
      mask !! Z.to_nat (i - start) = Some true \/
      exists n, replay_boundary bs al retention np n /\ in_tail need shift n i.
Proof.
  intros Hal Hse Hlen. unfold replay_tail, replay_boundary, in_tail.
  destruct retention as [r|]; [|eexists; split; [done|]; intros; naive_solver].
  destruct np as [t|]; [|eexists; split; [done|]; intros; naive_solver].
  unfold floordiv. rewrite (proj2 (Z.eqb_neq al 0)) by done. eexists. split; [reflexivity|].
  intros i Hi.
  assert (Hin : forall x, x ∈ range (Z.max start ((t - 1) / al * al / bs + shift - need))
            (Z.min end_ ((t - 1) / al * al / bs + shift)) -> 0 <= x - start < zlen mask).
  { intros x Hx%elem_of_range. lia. }
  rewrite (proj2 (set_true_lookup _ _ _ _ Hin)).
  setoid_rewrite elem_of_range. split; (intros [|(x & Hx)]; [by left|right]).
  - exists ((t - 1) / al * al / bs). split; [by exists t|]. lia.
  - destruct Hx as ((? & _ & [= <-] & ->) & Hx). exists i. lia.
Qed.

Lemma mask_spec {S} spec w start end_ al eagle retention np (st : S) :
  let bs := spec_block_size spec in
  let need := Z.of_nat (window_need w bs eagle) in
  let shift := Z.of_nat (extra eagle) in
  attn spec = SlidingWindow w -> 0 < w -> 0 < bs -> 0 < al -> al mod bs = 0 ->
  0 <= start <= end_ -> (forall r, retention = Some r -> 0 <= r /\ r mod bs = 0) ->
  exists mask, reachable_block_mask spec start end_ (Some al) eagle retention np st = (Ok mask, st) /\
    forall i, start <= i < end_ ->
      (mask <> None -> keeps mask start i = true ->
         exists n, (segment_boundary bs al retention n \/ replay_boundary bs al retention np n) /\
           in_tail need shift n i) /\
      ((exists n, (segment_boundary bs al retention n \/ replay_boundary bs al retention np n) /\
           in_tail need shift n i) -> keeps mask start i = true).
Proof.
  intros bs need shift Hat Hw Hbs Hal Hmod Hse Hr. unfold reachable_block_mask. rewrite Hat.
  fold bs. unfold contiguous_blocks_for_hit, cdiv_m. rewrite (proj2 (Z.eqb_neq bs 0)) by lia.
  rewrite Hmod. unfold assert_. unfold mbind, M_bind, mret, M_ret. cbn [Z.eqb].
  assert (Hn : (if eagle then cdiv (w - 1) bs + 1 else cdiv (w - 1) bs) = need).
  { pose proof (cdiv_nonneg (w - 1) bs Hbs ltac:(lia)).
    unfold need, window_need, extra. destruct eagle; lia. }
  assert (Hsh : (if eagle then 1 else 0) = shift) by (unfold shift, extra; by destruct eagle).
  rewrite Hn, Hsh.
  set (mask0 := replicate (Z.to_nat (end_ - start)) false).
  assert (Hm0 : forall i, mask0 !! i <> Some true) by (intros i [[=] _]%lookup_replicate).
  assert (Hl0 : zlen mask0 = end_ - start) by (unfold mask0; rewrite length_replicate; lia).
  assert (Hseg : (exists seg, retention <> Some 0 /\ seg = default al retention /\
      match retention with None => Some al | Some r => if r =? 0 then None else Some r end = Some seg) \/
    (retention = Some 0 /\
      match retention with None => Some al | Some r => if r =? 0 then None else Some r end = None)).
  { destruct retention as [r|]; [|left; by exists al].
    destruct (Z.eqb_spec r 0) as [->|]; [by right|]. left. exists r. split; [congruence|done]. }
  destruct Hseg as [(seg & Hr0 & -> & ->)|[Hr0 ->]].
  - set (ps := default al retention / bs).
    destruct (Z.leb_spec ps need) as [Hle|Hlt]; [by exists None|].
    set (tails := List.filter _ _).
    assert (Htails : forall i, i ∈ tails <-> start <= i < end_ /\ shift <= i /\
                       ps - need <= (i - shift) mod ps).
    { intros i. unfold tails. rewrite list_elem_of_In, filter_In, <- list_elem_of_In, elem_of_range.
      rewrite andb_true_iff, !Z.leb_le. tauto. }
    assert (Hin : forall i, i ∈ tails -> 0 <= i - start < zlen mask0).
    { intros i (? & _)%Htails. lia. }
    destruct (replay_tail_spec bs need shift al start end_ retention np
      (set_true start tails mask0) st ltac:(lia) ltac:(lia)) as (mask' & -> & Hmask).
    { by rewrite (proj1 (set_true_lookup _ _ _ 0 Hin)). }
    exists (Some mask'). split; [done|]. intros i Hi. unfold keeps. rewrite bool_decide_eq_true.
    rewrite (Hmask i Hi), (proj2 (set_true_lookup _ _ _ _ Hin)).
    assert (Hti : (exists x, x ∈ tails /\ Z.to_nat (x - start) = Z.to_nat (i - start)) <->
                  exists n, segment_boundary bs al retention n /\ in_tail need shift n i).
    { unfold segment_boundary, in_tail. fold ps. split.
      - intros (x & Hx & Ex). apply Htails in Hx as (? & ? & Hx).
        assert (x = i) as -> by lia. apply mod_tail in Hx as (k & ? & ?); [|lia..].
        exists (k * ps). split; [by exists k|]. lia.
      - intros (n & (k & Hk & -> & _) & Hi'). exists i. split; [|done]. apply Htails.
        split; [lia|]. assert (shift <= i) by nia. split; [done|]. apply mod_tail; [lia..|].
        exists k. lia. }
    rewrite Hti. split.
    + intros _ [[?|(n & ? & ?)]|(n & ? & ?)]; [by destruct (Hm0 (Z.to_nat (i - start)))|exists n; by split; [left|]|].
      exists n. by split; [right|].
    + intros (n & [?|?] & ?); [left; right; by exists n|right; by exists n].
  - destruct (replay_tail_spec bs need shift al start end_ retention np mask0 st
      ltac:(lia) ltac:(lia) Hl0) as (mask' & -> & Hmask).
    exists (Some mask'). split; [done|]. intros i Hi. unfold keeps. rewrite bool_decide_eq_true.
    rewrite (Hmask i Hi). split.
    + intros _ [?|(n & ? & ?)]; [by destruct (Hm0 (Z.to_nat (i - start)))|]. exists n. by split; [right|].
    + intros (n & [(k & _ & _ & ?)|?] & ?); [done|right; by exists n].
Qed.

(** ** The theorems *)

(** C20. [FullAttentionManager.find_longest_cache_hit] returns the longest usable
    prefix: it changes nothing, its rows all have the same length [n], every
    entry is the cached block of that position for its group, [n] blocks are
    aligned, within [max_length], and cached (with EAGLE, one more block is and
    was dropped), and no longer prefix qualifies. *)
Theorem full_hit_longest p xs L H gs hl max_length spec de al cp counted :
  let bs := if 1 <? cp then spec_block_size spec * cp else spec_block_size spec in
  let maxb := Z.to_nat (max_length / bs) in
  let hs := hashes_all hl in
  pool_inv p xs L H -> gs <> [] -> Forall group_ok gs ->
  attn spec = FullAttention counted -> 0 < spec_block_size spec -> 0 < al -> 0 <= max_length ->
  exists c n, full_find_longest_cache_hit gs hl max_length spec de al cp p = (Ok c, p) /\
    table_ok gs c n (holds p hs) /\ full_hit p gs hs maxb bs al de n /\
    forall n', full_hit p gs hs maxb bs al de n' -> (n' <= n)%nat.
Proof.
  intros bs maxb hs I Hgs Hg Hat Hbs Hal Hml.
  destruct (wp_returns _ (fun c p' => p' = p /\ exists n, table_ok gs c n (holds p hs) /\
    full_hit p gs hs maxb bs al de n /\
    forall n', full_hit p gs hs maxb bs al de n' -> (n' <= n)%nat) p
    (full_search p xs L H gs I Hgs Hg hl max_length spec de al cp _ counted Hat Hbs Hal Hml
      (fun c n H1 H2 H3 => conj eq_refl (ex_intro _ n (conj H1 (conj H2 H3))))))
    as (c & p' & Hrun & -> & n & Hn). by exists c, n.
Qed.

(** C21. [SlidingWindowManager.find_longest_cache_hit] returns a prefix from which
    decoding can go on: it is aligned and within [max_length]; the blocks that
    the window still reads at its end are the cached ones, the others are cached
    or null; and no longer prefix qualifies, except that under EAGLE with a
    coarser alignment a prefix shorter than the window may be missed. *)
Theorem window_hit_longest p xs L H gs hl max_length spec de al w :
  let bs := spec_block_size spec in
  let maxb := Z.to_nat (max_length / bs) in
  let need := window_need w bs de in
  let hs := hashes_all hl in
  pool_inv p xs L H -> gs <> [] -> Forall group_ok gs ->
  attn spec = SlidingWindow w -> 1 < w -> 0 < bs -> 0 < al -> 0 <= max_length ->
  (maxb <= length hs)%nat ->
  exists c n, window_find_longest_cache_hit gs hl max_length spec de al 1 1 p = (Ok c, p) /\
    table_ok gs c n (window_entry p hs (n + extra de - need) n) /\
    window_hit p gs hs maxb bs al de need n /\
    forall n', window_hit p gs hs maxb bs al de need n' ->
      de = false \/ bs = al \/ (need <= n' + extra de)%nat -> (n' <= n)%nat.
Proof.
  intros bs maxb need hs I Hgs Hg Hat Hw Hbs Hal Hml Hlen.
  assert (Hneed : (1 <= need)%nat).
  { unfold need, window_need. assert (~ cdiv (w - 1) bs <= 0); [|lia].
    rewrite cdiv_le_iff by done. lia. }
  destruct (wp_returns _ (fun c p' => p' = p /\ exists n,
    table_ok gs c n (window_entry p hs (n + extra de - need) n) /\
    window_hit p gs hs maxb bs al de need n /\
    forall n', window_hit p gs hs maxb bs al de need n' ->
      de = false \/ bs = al \/ (need <= n' + extra de)%nat -> (n' <= n)%nat) p
    (window_search p xs L H gs I Hgs Hg hl max_length spec de al w _ Hat ltac:(lia) Hbs Hal Hml Hlen
      (fun c n H1 H2 H3 => conj eq_refl (ex_intro _ n (conj H1 (conj H2 (H3 Hneed)))))))
    as (c & p' & Hrun & -> & n & Hn). by exists c, n.
Qed.

(** Sparse caching of a sliding-window group skips only blocks that no
    future hit reads: the blocks the mask keeps are exactly the tails before the
    boundaries of the retention interval and before the last boundary of the
    prompt (all blocks when there is no mask). *)
Theorem sparse_mask_exact {S} spec w start end_ al eagle retention np (st : S) :
  let bs := spec_block_size spec in
  let need := Z.of_nat (window_need w bs eagle) in
  let shift := Z.of_nat (extra eagle) in
  attn spec = SlidingWindow w -> 0 < w -> 0 < bs -> 0 < al -> al mod bs = 0 ->
  0 <= start <= end_ -> (forall r, retention = Some r -> 0 <= r /\ r mod bs = 0) ->
  exists mask, reachable_block_mask spec start end_ (Some al) eagle retention np st = (Ok mask, st) /\
    forall i, start <= i < end_ ->
      let wanted := exists n, (segment_boundary bs al retention n \/
                     replay_boundary bs al retention np n) /\ in_tail need shift n i in
      (mask <> None -> keeps mask start i = true -> wanted) /\
      (wanted -> keeps mask start i = true).
Proof.
  intros bs need shift H1 H2 H3 H4 H5 H6 H7.
  exact (mask_spec spec w start end_ al eagle retention np st H1 H2 H3 H4 H5 H6 H7).
Qed.

(** Sparse caching loses no hit at the boundaries it keeps: when the blocks
    the masks keep are cached, the search finds a hit at least as long as every
    segment boundary within reach. *)
Theorem sparse_caching_keeps_boundary_hits p xs L H gs hl max_length spec eagle al w retention np E k :
  let bs := spec_block_size spec in
  let maxb := Z.to_nat (max_length / bs) in
  let need := window_need w bs eagle in
  let hs := hashes_all hl in
  let n := k * (default al retention / bs) in
  pool_inv p xs L H -> gs <> [] -> Forall group_ok gs ->
  attn spec = SlidingWindow w -> 1 < w -> 0 < bs -> 0 < al -> al mod bs = 0 -> 0 <= max_length ->
  (forall r, retention = Some r -> 0 < r /\ r mod al = 0) -> (maxb <= length hs)%nat ->
  0 <= E ->
  (exists mask, reachable_block_mask spec 0 E (Some al) eagle retention np p = (Ok mask, p) /\
     forall i, 0 <= i < E -> keeps mask 0 i = true -> cached_at p gs hs (Z.to_nat i)) ->
  1 <= k -> n + Z.of_nat (extra eagle) <= Z.min E (Z.of_nat maxb) ->
  eagle = false \/ bs = al \/ Z.of_nat need <= n + Z.of_nat (extra eagle) ->
  exists c n', window_find_longest_cache_hit gs hl max_length spec eagle al 1 1 p = (Ok c, p) /\
    table_ok gs c n' (window_entry p hs (n' + extra eagle - need) n') /\ n <= Z.of_nat n'.
Proof.
  intros bs maxb need hs n I Hgs Hg Hat Hw Hbs Hal Hmod Hml Hr Hlen HE (mask & Hmask & Hkeep) Hk Hn Hcase.
  assert (Hneed : (1 <= need)%nat).
  { unfold need, window_need. assert (~ cdiv (w - 1) bs <= 0); [|lia].
    rewrite cdiv_le_iff by done. lia. }
  assert (Hdiv : exists q, 0 < q /\ al = q * bs).
  { exists (al / bs). pose proof (Z.div_mod al bs ltac:(lia)). nia. }
  destruct Hdiv as (q & Hq & Eq).
  assert (Hseg : exists t, 0 < t /\ default al retention = t * al).
  { destruct retention as [r|]; [|exists 1; simpl; lia]. destruct (Hr r eq_refl) as [Hr0 Hrm]. simpl.
    exists (r / al). pose proof (Z.div_mod r al ltac:(lia)). nia. }
  destruct Hseg as (t & Ht & Eseg).
  assert (En : n = k * (t * q)).
  { unfold n. rewrite Eseg, Eq. replace (t * (q * bs)) with (t * q * bs) by ring.
    by rewrite Z.div_mul by lia. }
  assert (Hn0 : 0 < n) by nia.
  destruct (mask_spec spec w 0 E al eagle retention np p Hat ltac:(lia) Hbs Hal Hmod ltac:(lia))
    as (mask' & Hmask' & Hspec).
  { intros r ->. destruct (Hr r eq_refl) as [? Hrm]. split; [lia|]. fold bs.
    apply Z.mod_divide in Hrm as [z ->]; [|lia]. rewrite Eq. rewrite Z.mul_assoc. by apply Z.mod_mul; lia. }
  rewrite Hmask in Hmask'. injection Hmask' as <-.
  assert (Hhit : window_hit p gs hs maxb bs al eagle need (Z.to_nat n)).
  { split.
    - right. rewrite Z2Nat.id by lia. rewrite En, Eq.
      replace (k * (t * q) * bs) with (k * t * (q * bs)) by ring. apply Z.mod_mul. nia.
    - right. split; [lia|]. intros j Hj. rewrite <- (Nat2Z.id j). apply Hkeep; [lia|].
      apply (Hspec (Z.of_nat j)); [lia|]. exists n. split.
      + left. exists k. split; [done|]. split; [done|]. intros ->.
        destruct (Hr 0 eq_refl). lia.
      + unfold in_tail. fold bs need. lia. }
  assert (Hsearch : wp (window_find_longest_cache_hit gs hl max_length spec eagle al 1 1)
    (fun c p' => p' = p /\ exists n',
       table_ok gs c n' (window_entry p hs (n' + extra eagle - need) n') /\ n <= Z.of_nat n') p).
  { apply (window_search p xs L H gs I Hgs Hg hl max_length spec eagle al w); try done; [lia|].
    intros c n' H1 _ H3. split; [done|]. exists n'. split; [done|].
    assert (Z.to_nat n <= n')%nat; [|lia]. apply (H3 Hneed); [done|]. fold bs need.
    destruct Hcase as [?|[?|?]]; [by left|right; by left|right; right; lia]. }
  destruct (wp_returns _ _ _ Hsearch) as (c & p' & Hrun & -> & n' & Hn'). by exists c, n'.
Qed.

(** ** Witnesses *)

Definition sample_hashes : list bytes :=
  (fun b => [b]) <$> [Byte.x61; Byte.x62; Byte.x63; Byte.x64; Byte.x65].

(** A pool of eight blocks of four tokens with five cached blocks. *)
Definition five_cached : BlockPool :=
  match pool_init 8 true 4 false with
  | Err _ => mkPool 0 false 0 [] (mkQueue ∅ 0) ∅ (Blk 0) false []
  | Ok p0 =>
      (cache_full_blocks false id (Blk <$> seq 1 5) 0 5 4 0 None
         (set_block_hashes sample_hashes sample_request, (get_new_blocks false 5 p0).2)).2.2
  end.

Lemma five_cached_inv : exists xs H, pool_inv five_cached xs [] H.
Proof.
  assert (Hr : exists H, reachable false id 8 true 4 false (five_cached, H)).
  2: { destruct Hr as (H & Hr). destruct (reachable_good _ _ _ _ _ _ _ Hr) as [xs I]. by exists xs, H. }
  destruct (pool_init_spec 8 true 4 false ltac:(lia)) as (p & Hp & I & F1 & F2 & F3 & F5 & _).
  pose proof (pi_blocks _ _ _ _ I) as F4. rewrite F1 in F4.
  replace (Blk <$> seq 1 (Z.to_nat 8 - 1)) with ((Blk <$> seq 1 5) ++ (Blk <$> seq 6 2)) in I by done.
  destruct (wp_returns _ _ _ (get_new_blocks_spec false p (Blk <$> seq 1 5) (Blk <$> seq 6 2) [] I))
    as (ret & p' & Hrun & -> & I' & Hcfg & Hev).
  pose proof (config_eq _ _ Hcfg) as (_ & E2 & E3 & E4 & E5 & _).
  exists ((Blk <$> seq 1 5) ++ []). eapply ReachStep.
  { eapply ReachStep; [by apply ReachInit|]. by apply (StepNew false id p [] 5 (Blk <$> seq 1 5) p'). }
  unfold five_cached. rewrite Hp.
  replace (get_new_blocks false 5 p) with (@Ok (list ref) (Blk <$> seq 1 5), p') by done.
  cbn [snd]. change (Blk <$> seq 1 5) with [Blk 1; Blk 2; Blk 3; Blk 4; Blk 5].
  set (r := set_block_hashes sample_hashes sample_request).
  assert (Hpre : cache_pre p' r [Blk 1; Blk 2; Blk 3; Blk 4; Blk 5] 0 5 4 0 None sample_hashes).
  { constructor; try done.
    - congruence.
    - eexists. rewrite E3, F3. split; [reflexivity|done].
    - assert (Hc : forall i, (i < 5)%nat -> cacheable p' None sample_hashes (i, Blk (S i))).
      { intros i Hi. unfold cacheable. cbn [fst snd]. rewrite E4, F4, Hev. split; [|split; [done|]].
        - apply list_elem_of_fmap. exists (S i). split; [done|]. apply elem_of_seq. lia.
        - intros _. split; [|by apply lookup_lt_is_Some]. rewrite decide_True; [done|].
          apply list_elem_of_fmap. exists (S i). split; [done|]. apply elem_of_seq. lia. }
      repeat (apply Forall_cons; split; [apply Hc; lia|]). by apply Forall_nil.
    - rewrite E5, F5. apply (bool_decide_unpack _). vm_compute. exact Logic.I. }
  destruct (wp_returns _ _ _ (cache_full_blocks_spec false id r p' (Blk <$> seq 6 2) [] ((Blk <$> seq 1 5) ++ []) _ 0 5 4 0 None _ I' ltac:(lia) Hpre))
    as ([] & s' & Hrun' & _).
  rewrite Hrun'. cbn [snd]. eapply StepCache; [|exact Hpre|exact Hrun']. lia.
Qed.

Definition full4 : KVCacheSpec := mkSpec 4 false (FullAttention true).
Definition window4 (w : Z) : KVCacheSpec := mkSpec 4 false (SlidingWindow w).

Lemma full_hit_longest_witness : exists c n,
  full_find_longest_cache_hit [0] (inl sample_hashes) 20 full4 true 8 1 five_cached
    = (Ok c, five_cached) /\ c = [[Blk 1; Blk 2; Blk 3; Blk 4]] /\ table_ok [0] c n (holds five_cached sample_hashes).
Proof.
  destruct five_cached_inv as (xs & H & I).
  destruct (full_hit_longest five_cached xs [] H [0] (inl sample_hashes) 20 full4 true 8 1 true I)
    as (c & n & Hrun & Ht & _);
    [done|by repeat constructor|reflexivity|reflexivity|lia|lia|].
  exists c, n. split; [exact Hrun|]. split; [|exact Ht].
  apply (f_equal fst) in Hrun. cbn [fst] in Hrun.
  assert (E : Ok c = Ok [[Blk 1; Blk 2; Blk 3; Blk 4]]) by (rewrite <- Hrun; vm_compute; reflexivity).
  by injection E.
Defined.

Lemma window_hit_longest_witness : exists c n,
  window_find_longest_cache_hit [0] (inl sample_hashes) 20 (window4 6) false 8 1 1 five_cached
    = (Ok c, five_cached) /\ c = [[Blk 0; Blk 0; Blk 3; Blk 4]] /\
  table_ok [0] c n (window_entry five_cached sample_hashes (n + 0 - 2) n).
Proof.
  destruct five_cached_inv as (xs & H & I).
  destruct (window_hit_longest five_cached xs [] H [0] (inl sample_hashes) 20 (window4 6) false 8 6 I)
    as (c & n & Hrun & Ht & _);
    [done|by repeat constructor|reflexivity|lia|reflexivity|lia|lia|vm_compute; lia|].
  exists c, n. split; [exact Hrun|]. split; [|exact Ht].
  apply (f_equal fst) in Hrun. cbn [fst] in Hrun.
  assert (E : Ok c = Ok [[Blk 0; Blk 0; Blk 3; Blk 4]]) by (rewrite <- Hrun; vm_compute; reflexivity).
  by injection E.
Defined.

Lemma sparse_mask_exact_witness : exists mask,
  reachable_block_mask (window4 6) 2 10 (Some 16) false None (Some 40) tt = (Ok mask, tt) /\
  mask = Some [true; true; false; false; true; true; false; false].
Proof.
  destruct (sparse_mask_exact (window4 6) 6 2 10 16 false None (Some 40) tt) as (mask & Hrun & _);
    try done.
  exists mask. split; [exact Hrun|]. vm_compute in Hrun. by injection Hrun.
Defined.

Lemma sparse_caching_keeps_boundary_hits_witness : exists c n',
  window_find_longest_cache_hit [0] (inl sample_hashes) 17 (window4 6) false 16 1 1 five_cached
    = (Ok c, five_cached) /\
  table_ok [0] c n' (window_entry five_cached sample_hashes (n' + 0 - 2) n') /\ 4 <= Z.of_nat n'.
Proof.
  destruct five_cached_inv as (xs & H & I).
  apply (sparse_caching_keeps_boundary_hits five_cached xs [] H [0] (inl sample_hashes) 17 (window4 6)
           false 16 6 None (Some 18) 4 1 I);
    [done|by repeat constructor|reflexivity|lia|reflexivity|lia|reflexivity|lia|done|vm_compute; lia|lia
    | |lia|vm_compute; discriminate|by left].
  eexists. split; [vm_compute; reflexivity|]. intros i Hi _.
  assert (Hc : forall k h b, sample_hashes !! k = Some h ->
    hash_of (kstore five_cached) b = Some (pack h 0) -> cached_at five_cached [0] sample_hashes k).
  { intros k h b Hk Hb. exists h. split; [exact Hk|]. intros g ->%list_elem_of_singleton. by exists b. }
  assert (Hcase : i = 0 \/ i = 1 \/ i = 2 \/ i = 3) by lia.
  destruct Hcase as [->|[->|[->| ->]]].
  - by apply (Hc _ [Byte.x61] (Blk 1)).
  - by apply (Hc _ [Byte.x62] (Blk 2)).
  - by apply (Hc _ [Byte.x63] (Blk 3)).
  - by apply (Hc _ [Byte.x64] (Blk 4)).
Defined.

(** A prefix that is missed: with EAGLE and an alignment of four blocks, five
    cached blocks of a window of 32 tokens make a hit of four blocks (the
    fifth is EAGLE's), which full attention finds; the window search first cuts
    the run of five to the aligned four, then drops one for EAGLE, cuts again
    and returns nothing. *)
Theorem window_eagle_align_loses_hit :
  window_find_longest_cache_hit [0] (inl sample_hashes) 20 (window4 32) true 16 1 1 five_cached
    = (Ok [[]], five_cached) /\
  full_find_longest_cache_hit [0] (inl sample_hashes) 20 full4 true 16 1 five_cached
    = (Ok [[Blk 1; Blk 2; Blk 3; Blk 4]], five_cached).
Proof. split; vm_compute; reflexivity. Qed.

End CacheHit.
