(* ===== verification/Recycling.v ===== *)
(** * Recycling

    Sliding-window and chunked-local managers give back the blocks a request no
    longer reads (remove_skipped_blocks of
    v1/core/single_type_kv_cache_manager.py), so that a request holds a bounded
    number of blocks however long it gets; the bound is
    max_admission_blocks_per_request of v1/kv_cache_interface.py, which startup
    and the admission check rely on. *)

From S2P Require Import Prelude FreeQueue Request BlockHash BlockPool SingleType SingleTypeSafety.

Module Recycling.
Import FreeQueue Request BlockHash BlockPool SingleType SingleTypeSafety.
#[local] Open Scope Z_scope.

(** ** Trimming a table *)

(** A table is null blocks first, real blocks after. *)
Definition null_then_real (null : ref) (k : nat) (l : list ref) (blks : list ref) : Prop :=
  blks = replicate k null ++ l /\ null ∉ l.

Lemma trim_done null i k l : (i <= k)%nat -> trim null i (replicate k null ++ l) = replicate k null ++ l.
Proof.
  intros Hi. destruct i as [|i]; [done|]. cbn [trim]. rewrite decide_True; [done|].
  rewrite lookup_app_l by (rewrite length_replicate; lia). apply lookup_replicate. split; [done|lia].
Qed.

(** The loop in the middle: it has replaced [d] blocks from [i] on and goes left. *)
Lemma trim_loop null k l : forall i d, (i + d <= k + length l)%nat -> (k <= i)%nat ->
  null ∉ take (i - k) l ->
  trim null i (replicate k null ++ take (i - k) l ++ replicate d null ++ drop (i + d - k) l)
  = replicate (i + d) null ++ drop (i + d - k) l.
Proof.
  intros j. induction j as [|j IH]; intros d Hlen Hk Hn.
  { assert (k = 0)%nat as -> by lia. done. }
  destruct (decide (k = S j)) as [->|Hne].
  { rewrite trim_done by lia. rewrite Nat.sub_diag. simpl take. rewrite app_nil_l, app_assoc.
    by rewrite <- replicate_add. }
  cbn [trim]. replace (S j - k)%nat with (S (j - k)) in * by lia.
  destruct (lookup_lt_is_Some_2 l (j - k)) as [b Hb]; [lia|].
  assert (Htk : take (S (j - k)) l = take (j - k) l ++ [b]) by by apply take_S_r.
  assert (Hmin : length (take (j - k) l) = (j - k)%nat) by (rewrite length_take; lia).
  rewrite Htk in *. rewrite decide_False.
  2: { rewrite lookup_app_r by (rewrite length_replicate; lia). rewrite length_replicate.
       rewrite <- app_assoc, lookup_app_r by lia. rewrite Hmin, Nat.sub_diag. simpl. intros [= ->]. set_solver. }
  assert (Hins : <[j := null]> (replicate k null ++ (take (j - k) l ++ [b]) ++ replicate d null ++
             drop (S j + d - k) l)
    = replicate k null ++ take (j - k) l ++ replicate (S d) null ++ drop (j + S d - k) l).
  { rewrite insert_app_r_alt by (rewrite length_replicate; lia). f_equal. rewrite length_replicate.
    rewrite <- app_assoc, insert_app_r_alt by lia. rewrite Hmin, Nat.sub_diag.
    by replace (j + S d - k)%nat with (S j + d - k)%nat by lia. }
  rewrite Hins, IH; [do 2 f_equal; lia|lia|lia|set_solver].
Qed.

(** Trimming below [i] nulls exactly the entries below [i]. *)
Lemma trim_spec null i k l : (i <= k + length l)%nat -> null ∉ l ->
  trim null i (replicate k null ++ l) = replicate (Nat.max k i) null ++ drop (i - k) l.
Proof.
  intros Hlen Hn. destruct (decide (i <= k)%nat) as [Hle|Hgt].
  - rewrite trim_done by done. replace (i - k)%nat with 0%nat by lia. by rewrite Nat.max_l by lia.
  - assert (Hn' : null ∉ take (i - k) l).
    { rewrite <- (take_drop (i - k) l) in Hn. set_solver. }
    pose proof (trim_loop null k l i 0 ltac:(lia) ltac:(lia) Hn') as Hgen. simpl in Hgen.
    rewrite Nat.add_0_r, take_drop in Hgen. rewrite Hgen. by rewrite Nat.max_r by lia.
Qed.

(** ** The bound on what a request holds *)

(** The cap of a spec, [None] for specs that do not recycle. *)
Definition admission_blocks (spec : KVCacheSpec) (batch max_model_len : Z) : option Z :=
  match attn spec with
  | SlidingWindow w => Some (window_admission_blocks w (spec_block_size spec) batch max_model_len)
  | ChunkedLocalAttention c => Some (chunk_admission_blocks c (spec_block_size spec) batch max_model_len)
  | _ => None
  end.

(** Chunks are whole blocks. *)
Definition whole_chunks (spec : KVCacheSpec) : Prop :=
  match attn spec with ChunkedLocalAttention c => c mod spec_block_size spec = 0 | _ => True end.

Lemma held_le_cap spec n new batch mml cap :
  spec_ok spec -> 0 < spec_block_size spec -> whole_chunks spec ->
  0 <= n -> 0 <= new <= batch -> n + new <= mml ->
  admission_blocks spec batch mml = Some cap ->
  cdiv (n + new) (spec_block_size spec) - Z.max 0 (num_skipped spec n) / spec_block_size spec <= cap.
Proof.
  unfold spec_ok, whole_chunks, admission_blocks, num_skipped. intros Hs Hbs Hw Hn Hnew Hmml Hcap.
  set (bs := spec_block_size spec) in *.
  assert (Hmono : forall a b, a <= b -> cdiv a bs <= cdiv b bs) by (intros; by apply cdiv_mono).
  destruct (attn spec) as [|w|c| |]; try done; injection Hcap as <-.
  - unfold window_admission_blocks. set (sk := Z.max 0 _).
    assert (Hsk : 0 <= sk / bs) by (apply Z.div_pos; lia).
    destruct (Z.min_spec (w - 1 + batch) mml) as [[_ ->]|[_ ->]].
    + assert (cdiv (n + new) bs <= sk / bs + 1 + cdiv (w - 1 + batch) bs); [|lia].
      rewrite cdiv_le_iff by done.
      pose proof (proj1 (cdiv_le_iff (w - 1 + batch) bs _ Hbs) ltac:(reflexivity)).
      pose proof (Z.div_mod sk bs ltac:(lia)). pose proof (Z.mod_pos_bound sk bs Hbs). nia.
    + specialize (Hmono (n + new) mml Hmml). lia.
  - unfold chunk_admission_blocks. pose proof (Z.div_pos n c Hn Hs).
    rewrite Z.max_r by nia. apply Z.mod_divide in Hw as [q Eq]; [|lia].
    replace (n / c * c) with (n / c * q * bs) by (rewrite Eq; ring). rewrite Z.div_mul by lia.
    destruct (Z.min_spec (c + batch) mml) as [[_ ->]|[_ ->]].
    + assert (cdiv (n + new) bs <= n / c * q + cdiv (c + batch) bs); [|lia].
      rewrite cdiv_le_iff by done.
      pose proof (proj1 (cdiv_le_iff (c + batch) bs _ Hbs) ltac:(reflexivity)).
      pose proof (Z.div_mod n c ltac:(lia)). pose proof (Z.mod_pos_bound n c Hs). nia.
    + specialize (Hmono (n + new) mml Hmml). nia.
Qed.

Section theorems.
Context (use_int : bool).

(** What trimming does to a table of null blocks followed by real ones. *)
Lemma remove_skipped_table m p rid n xs R k l :
  mgr_inv (m, p) xs R -> spec_ok (kv_cache_spec m) ->
  (match attn (kv_cache_spec m) with Mamba _ _ => False | _ => True end) ->
  null_then_real (null_block p) k l (table m rid) ->
  let i := Z.to_nat (Z.min (Z.max 0 (num_skipped (kv_cache_spec m) n) / block_size m)
                       (zlen (table m rid))) in
  exists s', remove_skipped_blocks rid n (m, p) = (Ok tt, s') /\ trimmed m p rid R s' /\
    null_then_real (null_block p) (Nat.max k i) (drop (i - k) l) (table s'.1 rid).
Proof.
  intros I Hs Hm [Ht Hnull] i. assert (Hbs : 0 < block_size m) by apply (I rid).
  assert (Hrun : remove_skipped_blocks rid n (m, p) = base_remove_skipped_blocks rid n (m, p)).
  { unfold remove_skipped_blocks, mgr, gets, mbind, M_bind. cbn [fst].
    by destruct (attn (kv_cache_spec m)). }
  rewrite Hrun.
  destruct (wp_returns _ _ _ (base_remove_skipped_blocks_spec m p rid n xs R I Hs))
    as ([] & s' & Hr & T & Htab). exists s'. split; [done|]. split; [done|].
  rewrite Htab. unfold skipped_table. subst i. rewrite Ht.
  assert (Hlen : zlen (replicate k (null_block p) ++ l) = Z.of_nat k + zlen l)
    by (rewrite length_app, length_replicate; lia).
  rewrite Hlen. destruct (Z.leb_spec (num_skipped (kv_cache_spec m) n) 0) as [Hle|Hgt].
  - rewrite Z.max_l by done. rewrite Z.div_0_l by lia. rewrite Z.min_l by lia. simpl.
    rewrite Nat.max_0_r. split; [done|done].
  - rewrite Z.max_r by lia. split.
    + apply trim_spec; [lia|done].
    + intros Hin. apply Hnull. rewrite <- (take_drop (Z.to_nat (Z.min (num_skipped (kv_cache_spec m) n / block_size m)
          (Z.of_nat k + zlen l)) - k) l). set_solver.
Qed.

(** [remove_skipped_blocks] (all managers but Mamba's) gives back exactly the
    blocks that no later token reads: of a table of null blocks followed by
    real ones, the entries below the first one the window or chunk still needs
    become null, the rest stays, the other tables are untouched, it never
    raises, and the bookkeeping of the pool is kept. *)
Theorem remove_skipped_blocks_exact m p rid n xs R k l :
  mgr_inv (m, p) xs R -> spec_ok (kv_cache_spec m) ->
  (match attn (kv_cache_spec m) with Mamba _ _ => False | _ => True end) ->
  table m rid = replicate k (null_block p) ++ l -> null_block p ∉ l ->
  let i := Z.to_nat (Z.min (Z.max 0 (num_skipped (kv_cache_spec m) n) / block_size m)
                       (zlen (table m rid))) in
  exists s', remove_skipped_blocks rid n (m, p) = (Ok tt, s') /\
    table s'.1 rid = replicate (Nat.max k i) (null_block p) ++ drop (i - k) l /\
    (forall rid', rid' <> rid -> table s'.1 rid' = table m rid') /\
    exists xs', mgr_inv s' xs' R.
Proof.
  intros I Hs Hm Ht Hn i.
  destruct (remove_skipped_table m p rid n xs R k l I Hs Hm (conj Ht Hn))
    as (s' & Hrun & T & Htab & _). exists s'. split; [done|]. split; [done|].
  destruct T as (? & _ & _ & _ & _ & _ & ?). done.
Qed.

(** The admission cap is enough: a request whose computed tokens have blocks,
    that is trimmed and then given room for up to [batch] more tokens within
    [max_model_len], holds at most [max_admission_blocks_per_request] real
    blocks (for chunked local attention: when chunks are whole blocks). *)
Theorem admission_cap_covers_held m p rid n new batch mml cap xs R k l :
  mgr_inv (m, p) xs R -> spec_ok (kv_cache_spec m) -> whole_chunks (kv_cache_spec m) ->
  block_size m = spec_block_size (kv_cache_spec m) ->
  admission_blocks (kv_cache_spec m) batch mml = Some cap ->
  table m rid = replicate k (null_block p) ++ l -> null_block p ∉ l ->
  0 <= n -> 0 <= new <= batch -> n + new <= mml ->
  cdiv n (block_size m) <= zlen (table m rid) <= cdiv (n + new) (block_size m) ->
  exists s1, remove_skipped_blocks rid n (m, p) = (Ok tt, s1) /\
    match allocate_new_blocks use_int rid (n + new) (n + new) s1 with
    | (Ok _, s2) => zlen (real (null_block p) (table s2.1 rid)) <= cap
    | (Err e, _) => e = ValueError
    end.
Proof.
  intros I Hs Hw Hbseq Hcap Ht Hnull Hn Hnew Hmml Hlen.
  assert (Hbs : 0 < block_size m) by apply (I rid).
  assert (Hm : match attn (kv_cache_spec m) with Mamba _ _ => False | _ => True end).
  { unfold admission_blocks in Hcap. by destruct (attn (kv_cache_spec m)). }
  destruct (remove_skipped_table m p rid n xs R k l I Hs Hm (conj Ht Hnull))
    as ([m1 p1] & Hrun & T & Htab & Hn1). exists (m1, p1). split; [done|].
  destruct T as ([xs1 I1] & [Hmc _] & _ & _ & _ & Hl1 & _). cbn [fst] in *.
  apply mconf_eq in Hmc as (Eb & Ek & _).
  assert (Hrun2 : allocate_new_blocks use_int rid (n + new) (n + new) (m1, p1)
                 = base_allocate_new_blocks use_int rid (n + new) (m1, p1)).
  { unfold allocate_new_blocks, mgr, gets, mbind, M_bind. cbn [fst]. rewrite Ek.
    by destruct (attn (kv_cache_spec m)) as [| | |[]|]. }
  rewrite Hrun2. pose proof (base_allocate_new_blocks_wpx use_int m1 p1 rid (n + new) xs1 R I1) as Hb.
  unfold wpx in Hb. destruct (base_allocate_new_blocks use_int rid (n + new) (m1, p1)) as [[ret|e] s2].
  2: by destruct Hb as [-> _].
  destruct Hb as (_ & _ & _ & _ & Hret & Hr2 & _).
  assert (Hcapn : cdiv (n + new) (block_size m)
                  - Z.max 0 (num_skipped (kv_cache_spec m) n) / block_size m <= cap).
  { rewrite Hbseq in *. by eapply held_le_cap. }
  assert (Hsk : Z.max 0 (num_skipped (kv_cache_spec m) n) / block_size m <= cdiv n (block_size m)).
  { rewrite cdiv_spec by done. apply Z.div_le_mono; [done|].
    pose proof (num_skipped_le (kv_cache_spec m) n Hs Hn). lia. }
  set (sk := Z.max 0 _ / _) in *.
  assert (0 <= sk) by (apply Z.div_pos; lia).
  assert (Htab2 : table s2.1 rid = table m1 rid ++ ret) by (unfold table at 1; by rewrite Hr2, lookup_insert_eq).
  rewrite Htab2, Htab, !real_app, !length_app.
  rewrite Eb, Hl1 in Hret.
  assert (Hrep : forall j, real (null_block p) (replicate j (null_block p)) = []).
  { intros j. induction j as [|j IH]; [done|]. unfold real in *. simpl. by rewrite filter_cons_False by auto. }
  rewrite Hrep. simpl length.
  assert (Hf : forall x : list ref, (length (real (null_block p) x) <= length x)%nat) by (intros; apply length_filter).
  pose proof (Hf (drop (Z.to_nat (Z.min sk (zlen (table m rid))) - k) l)) as F1. pose proof (Hf ret) as F2.
  rewrite length_drop in F1. rewrite Ht, length_app, length_replicate in *. lia.
Qed.
End theorems.

(** ** Witnesses *)

Definition window_spec4 : KVCacheSpec := mkSpec 16 false (SlidingWindow 20).

(** A window manager over the sample pool that has one real block for "r". *)
Lemma sample_window : exists m p,
  mgr_inv (m, p) [] [Blk 1; Blk 2] /\ kv_cache_spec m = window_spec4 /\ block_size m = 16 /\
  table m "r" = [Blk 3] /\ null_block p = Blk 0.
Proof.
  destruct (sample_pool false true) as (p & I & Hcfg & _). unfold config in Hcfg.
  injection Hcfg as E1 E2 E3 E4 E5 E6.
  assert (Im : mgr_inv (manager_init window_spec4 p true 0 16 1 1 None, p) [Blk 3] [Blk 1; Blk 2])
    by (apply manager_init_inv; done).
  pose proof (base_allocate_new_blocks_wpx true _ p "r" 16 _ _ Im) as Hb. unfold wpx in Hb.
  destruct (base_allocate_new_blocks true "r" 16 _) as [[ret|e] [m p']].
  2: { destruct Hb as (_ & Hlt & _). vm_compute in Hlt. discriminate Hlt. }
  destruct Hb as (xs' & I' & [Hc Hcp] & Hx & Hl & Hr & _). cbn [fst snd] in *.
  vm_compute in Hl. destruct ret as [|b [|? ?]]; [discriminate| |discriminate].
  injection Hx as <- <-. apply mconf_eq in Hc as (Eb & Es & _).
  apply config_eq in Hcp as (_ & _ & _ & _ & En & _).
  exists m, p'. split; [exact I'|]. split; [exact Es|]. split; [exact Eb|]. split; [|congruence].
  unfold table. rewrite Hr. by rewrite lookup_insert_eq.
Qed.

Lemma remove_skipped_blocks_exact_witness : exists m p s',
  table m "r" = [Blk 3] /\ remove_skipped_blocks "r" 35 (m, p) = (Ok tt, s') /\
  table s'.1 "r" = [Blk 0].
Proof.
  destruct sample_window as (m & p & I & Es & Eb & Et & En).
  destruct (remove_skipped_blocks_exact m p "r" 35 [] [Blk 1; Blk 2] 0 [Blk 3] I)
    as (s' & Hrun & Ht & _).
  - by rewrite Es.
  - by rewrite Es.
  - by rewrite Et.
  - rewrite En. apply (bool_decide_unpack _). vm_compute. exact Logic.I.
  - exists m, p, s'. split; [exact Et|]. split; [exact Hrun|]. rewrite Ht, Es, Eb, Et, En.
    vm_compute. reflexivity.
Defined.

Lemma admission_cap_covers_held_witness : exists m p s1,
  table m "r" = [Blk 3] /\ remove_skipped_blocks "r" 16 (m, p) = (Ok tt, s1) /\
  match allocate_new_blocks true "r" 32 32 s1 with
  | (Ok _, s2) => zlen (real (null_block p) (table s2.1 "r")) <= 4
  | (Err e, _) => e = ValueError
  end.
Proof.
  destruct sample_window as (m & p & I & Es & Eb & Et & En).
  destruct (admission_cap_covers_held true m p "r" 16 16 16 1000 4 [] [Blk 1; Blk 2] 0 [Blk 3] I)
    as (s1 & Hrun & Hm).
  - by rewrite Es.
  - by rewrite Es.
  - by rewrite Es, Eb.
  - by rewrite Es.
  - by rewrite Et.
  - rewrite En. apply (bool_decide_unpack _). vm_compute. exact Logic.I.
  - lia.
  - lia.
  - lia.
  - rewrite Et, Eb. vm_compute. split; discriminate.
  - by exists m, p, s1.
Defined.

(** For chunks that are not whole blocks the cap is too small: blocks of four
    tokens, chunks of five, batches of three tokens. After 14 computed tokens
    the chunk starts inside the third block; with room for three more tokens
    the request holds three blocks, one more than its cap of two. *)
Theorem chunk_cap_too_small :
  let spec := mkSpec 4 false (ChunkedLocalAttention 5) in
  chunk_admission_blocks 5 4 3 1000 = 2 /\
  match pool_init 10 true 4 false with
  | Err _ => False
  | Ok p =>
      let m := manager_init spec p true 0 4 1 1 (Some 2) in
      match (allocate_new_blocks true "r" 14 14 ;; remove_skipped_blocks "r" 14 ;;
             allocate_new_blocks true "r" 17 17) (m, p) with
      | (Ok _, (m', p')) => zlen (real (null_block p') (table m' "r")) = 3
      | (Err _, _) => False
      end
  end.
Proof. split; vm_compute; reflexivity. Qed.

End Recycling.
