(* ===== verification/Coordinator.v ===== *)
(** * Coordinator

    v1/core/kv_cache_coordinator.py: one single-type manager per KV-cache group,
    all on one block pool, and the search for the longest prefix that every
    group has cached. *)

From S2P Require Import Prelude FreeQueue Request BlockHash BlockPool SingleType.

Module Coordinator.
Import FreeQueue Request BlockHash BlockPool SingleType.
#[local] Open Scope Z_scope.

(** ** Configuration and state *)

(** A KV-cache group of v1/kv_cache_interface.py. [g_other] stands for the fields
    of its spec that only matter when specs are compared (head sizes, dtypes),
    [g_mla_sharded] for a [SlidingWindowMLASpec] sharded under context
    parallelism. *)
Record ManagedGroupSpec := mkGroup {
  g_spec : KVCacheSpec;
  g_other : bytes;
  g_mla_sharded : bool;
  is_eagle_group : bool
}.

(** [dsv4_hybrid] is [is_deepseek_v4_hybrid_kv_cache_config], which looks at
    model names. *)
Record ManagedKVConfig := mkConfig {
  num_blocks : Z;
  kv_cache_groups : list ManagedGroupSpec;
  dsv4_hybrid : bool
}.

#[export] Instance AttnSpec_eq_dec : EqDecision AttnSpec.
Proof. solve_decision. Defined.
#[export] Instance KVCacheSpec_eq_dec : EqDecision KVCacheSpec.
Proof. solve_decision. Defined.

Definition same_spec (g1 g2 : ManagedGroupSpec) : bool :=
  bool_decide (g_spec g1 = g_spec g2) && bool_decide (g_other g1 = g_other g2) &&
  Bool.eqb (g_mla_sharded g1) (g_mla_sharded g2).

Definition is_full (s : KVCacheSpec) : bool :=
  match attn s with FullAttention _ => true | _ => false end.
Definition is_window (s : KVCacheSpec) : bool :=
  match attn s with SlidingWindow _ => true | _ => false end.
Definition is_cross (s : KVCacheSpec) : bool :=
  match attn s with CrossAttention => true | _ => false end.

Record SpecGroup := mkSpecGroup {
  sg_group : ManagedGroupSpec;
  group_ids : list nat;
  sg_use_eagle : bool
}.
Definition sg_spec (g : SpecGroup) : KVCacheSpec := g_spec (sg_group g).

(** The three coordinator classes with the attributes of their own. *)
Inductive CoordKind :=
| NoPrefixCache
| Unitary (unitary_block_size : Z)
| Hybrid (disable_prefix_cache_for_dsv4_dcp : bool) (attention_groups : list SpecGroup).

Record Coordinator := mkCoord {
  c_kind : CoordKind;
  c_groups : list ManagedGroupSpec;
  c_scheduler_block_size : Z;
  c_hash_block_size : Z;
  c_dcp : Z;
  c_pcp : Z;
  eagle_group_ids : list nat;
  c_retention_interval : option Z;
  single_type_managers : list Manager;
  c_block_pool : BlockPool;
  num_uncached_common_prefix_tokens : Z
}.

Definition set_state (ms : list Manager) (p : BlockPool) (c : Coordinator) : Coordinator :=
  mkCoord (c_kind c) (c_groups c) (c_scheduler_block_size c) (c_hash_block_size c) (c_dcp c) (c_pcp c)
    (eagle_group_ids c) (c_retention_interval c) ms p (num_uncached_common_prefix_tokens c).
Definition set_uncached (n : Z) (c : Coordinator) : Coordinator :=
  mkCoord (c_kind c) (c_groups c) (c_scheduler_block_size c) (c_hash_block_size c) (c_dcp c) (c_pcp c)
    (eagle_group_ids c) (c_retention_interval c) (single_type_managers c) (c_block_pool c) n.

(** ** Construction *)

Definition validate_prefix_cache_retention_interval (retention_interval : option Z)
    (scheduler_block_size : Z) (config : ManagedKVConfig) : result unit :=
  match retention_interval with
  | None => Ok tt
  | Some r =>
      if negb (existsb (fun g => is_window (g_spec g)) (kv_cache_groups config)) then Err ValueError
      else if r <? 0 then Err ValueError
      else if scheduler_block_size =? 0 then Err ZeroDivisionError
      else if r mod scheduler_block_size =? 0 then Ok tt else Err ValueError
  end.

(** [all(scheduler_block_size % g.kv_cache_spec.block_size == 0 for g in groups)] *)
Fixpoint all_divide (n : Z) (groups : list ManagedGroupSpec) : result bool :=
  match groups with
  | [] => Ok true
  | g :: gs =>
      if spec_block_size (g_spec g) =? 0 then Err ZeroDivisionError
      else if n mod spec_block_size (g_spec g) =? 0 then all_divide n gs else Ok false
  end.

Fixpoint make_managers (i : nat) (groups : list ManagedGroupSpec) (batch max_model_len : Z)
    (pool : BlockPool) (caching : bool) (dcp pcp sched : Z) : result (list Manager) :=
  match groups with
  | [] => Ok []
  | g :: gs =>
      match get_manager_for_kv_cache_spec (g_spec g) (g_mla_sharded g) batch max_model_len pool caching
              (Z.of_nat i) sched dcp pcp with
      | Err e => Err e
      | Ok m => match make_managers (S i) gs batch max_model_len pool caching dcp pcp sched with
                | Err e => Err e
                | Ok ms => Ok (m :: ms)
                end
      end
  end.

(** [KVCacheCoordinator.__init__]; the kind is filled in by the subclass. *)
Definition base_init (config : ManagedKVConfig) (max_model_len batch : Z) (use_eagle caching events : bool)
    (dcp pcp sched hash : Z) (env_retention_interval : option Z) : result Coordinator :=
  let groups := kv_cache_groups config in
  if hash =? 0 then Err ZeroDivisionError
  else match (if sched mod hash =? 0 then all_divide sched groups else Ok false) with
  | Err e => Err e
  | Ok false => Err AssertionError
  | Ok true =>
    match pool_init (num_blocks config) caching hash events with
    | Err e => Err e
    | Ok pool =>
      let flagged := filter (fun i => is_eagle_group <$> groups !! i = Some true) (seq 0 (length groups)) in
      let eagle := match flagged with
                   | [] => if use_eagle then seq 0 (length groups) else []
                   | _ => flagged
                   end in
      match make_managers 0 groups batch max_model_len pool caching dcp pcp sched with
      | Err e => Err e
      | Ok ms =>
        match validate_prefix_cache_retention_interval env_retention_interval sched config with
        | Err e => Err e
        | Ok _ => Ok (mkCoord NoPrefixCache groups sched hash dcp pcp eagle env_retention_interval ms pool 0)
        end
      end
    end
  end.

Definition set_kind (k : CoordKind) (ms : list Manager) (c : Coordinator) : Coordinator :=
  mkCoord k (c_groups c) (c_scheduler_block_size c) (c_hash_block_size c) (c_dcp c) (c_pcp c)
    (eagle_group_ids c) (c_retention_interval c) ms (c_block_pool c) (num_uncached_common_prefix_tokens c).
Definition unitary_init (c : Coordinator) (caching : bool) : result Coordinator :=
  match c_groups c with
  | [] => Err IndexError
  | g :: gs =>
      let bs0 := spec_block_size (g_spec g) in
      let bs1 := if 1 <? c_dcp c then bs0 * c_dcp c else bs0 in
      let bs := if 1 <? c_pcp c then bs1 * c_pcp c else bs1 in
      if negb caching || (c_hash_block_size c =? bs) then
        match gs with
        | [] => Ok (set_kind (Unitary bs)
                  (alter (set_use_eagle (bool_decide (0%nat ∈ eagle_group_ids c))) 0%nat
                     (single_type_managers c)) c)
        | _ => Err AssertionError
        end
      else Err AssertionError
  end.

(** One round of the grouping loop: join the first group with the same spec, or
    open a new one. *)
Fixpoint add_to_groups (i : nat) (g : ManagedGroupSpec) (eagle : bool) (sgs : list SpecGroup)
    : list SpecGroup :=
  match sgs with
  | [] => [mkSpecGroup g [i] eagle]
  | sg :: sgs' =>
      if same_spec (sg_group sg) g
      then mkSpecGroup (sg_group sg) (group_ids sg ++ [i]) (sg_use_eagle sg || eagle) :: sgs'
      else sg :: add_to_groups i g eagle sgs'
  end.
Fixpoint split_groups (i : nat) (groups : list ManagedGroupSpec) (eagle : list nat)
    (sgs : list SpecGroup) : list SpecGroup :=
  match groups with
  | [] => sgs
  | g :: gs => split_groups (S i) gs eagle (add_to_groups i g (bool_decide (i ∈ eagle)) sgs)
  end.
(** The stable sort by [not isinstance(g.spec, FullAttentionSpec)]. *)
Definition full_first (sgs : list SpecGroup) : list SpecGroup :=
  List.filter (fun g => is_full (sg_spec g)) sgs ++
  List.filter (fun g => negb (is_full (sg_spec g))) sgs.
Definition mark_eagle_managers (sgs : list SpecGroup) (ms : list Manager) : list Manager :=
  foldl (fun ms g => if sg_use_eagle g
                     then foldl (fun ms i => alter (set_use_eagle true) i ms) ms (group_ids g)
                     else ms) ms sgs.

Definition verify_and_split_kv_cache_groups (c : Coordinator) : result (list SpecGroup * list Manager) :=
  let sgs := split_groups 0 (c_groups c) (eagle_group_ids c) [] in
  if (length sgs <=? 1)%nat then Err AssertionError
  else let sgs := full_first sgs in Ok (sgs, mark_eagle_managers sgs (single_type_managers c)).

(** [all(g.kv_cache_spec.block_size % hash_block_size == 0 for g in groups)] *)
Definition all_multiples (h : Z) (groups : list ManagedGroupSpec) : bool :=
  forallb (fun g => spec_block_size (g_spec g) mod h =? 0) groups.

Definition hybrid_init (c : Coordinator) (config : ManagedKVConfig) (caching : bool) : result Coordinator :=
  let has_dcp_replicated := existsb (fun g => dcp_replicated (g_spec g)) (c_groups c) in
  let disable := caching && (1 <? c_dcp c) && (c_pcp c =? 1) && (dsv4_hybrid config || has_dcp_replicated) in
  if negb disable && negb (all_multiples (c_hash_block_size c) (c_groups c)) then Err AssertionError
  else if negb ((c_dcp c =? 1) || disable) then Err AssertionError
  else if negb (c_pcp c =? 1) then Err AssertionError
  else match verify_and_split_kv_cache_groups c with
       | Err e => Err e
       | Ok (sgs, ms) => Ok (set_kind (Hybrid disable sgs) ms c)
       end.

Definition get_kv_cache_coordinator (config : ManagedKVConfig) (max_model_len batch : Z)
    (use_eagle caching events : bool) (dcp pcp sched hash : Z) (env_retention_interval : option Z)
    : result Coordinator :=
  match base_init config max_model_len batch use_eagle caching events dcp pcp sched hash
          env_retention_interval with
  | Err e => Err e
  | Ok c =>
      if negb caching then Ok c
      else if (length (kv_cache_groups config) =? 1)%nat then unitary_init c caching
      else hybrid_init c config caching
  end.

(** ** Operations on all managers *)

(** Run an operation of manager [i] on it and the pool. *)
Definition at_manager {A} (i : nat) (op : M St A) : M Coordinator A := fun c =>
  match single_type_managers c !! i with
  | None => (Err IndexError, c)
  | Some m =>
      match op (m, c_block_pool c) with
      | (r, (m', p')) => (r, set_state (<[i := m']> (single_type_managers c)) p' c)
      end
  end.
Definition on_block_pool {A} (op : M BlockPool A) : M Coordinator A :=
  zoom c_block_pool (fun p c => set_state (single_type_managers c) p c) op.

(** [for manager in self.single_type_managers: op(manager)] *)
Definition manager_indices (c : Coordinator) : list nat := seq 0 (length (single_type_managers c)).
Definition for_managers (op : nat -> M St unit) : M Coordinator unit :=
  idxs ← gets manager_indices; for_each (fun i => at_manager i (op i)) idxs.
Definition map_managers {A} (op : nat -> M St A) : M Coordinator (list A) :=
  idxs ← gets manager_indices; map_m (fun i => at_manager i (op i)) idxs.

Section ops.
Context (use_int : bool) (sha256 : bytes -> bytes).

Definition c_get_num_blocks_to_allocate (request_id : string) (num_tokens : Z)
    (new_computed_blocks : list (list ref))
    (num_encoder_tokens total_computed_tokens num_tokens_main_model : Z) (apply_admission_cap : bool)
    : M Coordinator Z :=
  ns ← map_managers (fun i =>
         m ← mgr;
         if is_cross (kv_cache_spec m) then
           get_num_blocks_to_allocate request_id num_encoder_tokens [] 0 num_encoder_tokens
             apply_admission_cap
         else
           ncb ← of_option IndexError (new_computed_blocks !! i);
           get_num_blocks_to_allocate request_id num_tokens ncb total_computed_tokens
             num_tokens_main_model apply_admission_cap);
  mret (foldr Z.add 0 ns).

Definition c_allocate_new_computed_blocks (request_id : string) (new_computed_blocks : list (list ref))
    (num_local_computed_tokens num_external_computed_tokens : Z) : M Coordinator unit :=
  for_managers (fun i =>
    ncb ← of_option IndexError (new_computed_blocks !! i);
    allocate_new_computed_blocks use_int request_id ncb num_local_computed_tokens
      num_external_computed_tokens).

Definition c_allocate_new_blocks (request_id : string)
    (num_tokens num_tokens_main_model num_encoder_tokens : Z) : M Coordinator (list (list ref)) :=
  map_managers (fun i =>
    m ← mgr;
    allocate_new_blocks use_int request_id
      (if is_cross (kv_cache_spec m) then num_encoder_tokens else num_tokens) num_tokens_main_model).

(** [HybridKVCacheCoordinator.cache_blocks] and that of the base class *)
Definition c_cache_blocks (request : Request) (num_computed_tokens : Z) : M Coordinator unit :=
  c ← get;
  match c_kind c with
  | Hybrid true _ => mret tt
  | Hybrid false _ =>
      q ← floordiv num_computed_tokens (c_scheduler_block_size c);
      let aligned_num_computed_tokens := q * c_scheduler_block_size c in
      for_managers (fun i =>
        m ← mgr;
        let num_tokens_to_cache :=
          if use_eagle m && (0 <? aligned_num_computed_tokens)
          then Z.min num_computed_tokens (aligned_num_computed_tokens + block_size m)
          else aligned_num_computed_tokens in
        cache_blocks use_int sha256 request num_tokens_to_cache (c_retention_interval c))
  | _ =>
      for_managers (fun i =>
        cache_blocks use_int sha256 request num_computed_tokens (c_retention_interval c))
  end.
End ops.

Definition c_free (request_id : string) : M Coordinator unit := for_managers (fun _ => free request_id).

Definition c_get_num_common_prefix_blocks (running_request_id : string) : M Coordinator (list Z) :=
  c ← get;
  match c_kind c with
  | NoPrefixCache => mret (replicate (length (single_type_managers c)) 0)
  | _ => map_managers (fun _ => get_num_common_prefix_blocks running_request_id)
  end.

Definition c_remove_skipped_blocks (request_id : string) (total_computed_tokens : Z) : M Coordinator unit :=
  for_managers (fun _ => remove_skipped_blocks request_id total_computed_tokens).

Definition c_get_blocks (request_id : string) (c : Coordinator) : list (list ref) :=
  (fun m => default [] (req_to_blocks m !! request_id)) <$> single_type_managers c.

Definition c_new_step_starts : M Coordinator unit := for_managers (fun _ => new_step_starts).

(** ** The longest hit of all groups *)

Definition group_block_hashes {S} (hash_block_size : Z) (block_hashes : list bytes) (spec : KVCacheSpec)
    : M S BlockHashList :=
  if spec_block_size spec =? hash_block_size then mret (inl block_hashes)
  else l ← lift_result (hash_list_init block_hashes hash_block_size (spec_block_size spec)); mret (inr l).

(** The variables of the fixed-point loop. *)
Record HitState := mkHit {
  hit_blocks_by_group : list (option (list ref));
  curr_hit_length : Z;
  longest_hit_length : Z;
  eagle_verified : gset nat
}.

(** [for group_id, blocks in zip(group_ids, hit_blocks): by_group[group_id] = blocks] *)
Definition record_hits {A} (group_ids : list nat) (hit_blocks : list A) (by_group : list A) : list A :=
  foldl (fun acc ib => <[ib.1 := ib.2]> acc) by_group (zip group_ids hit_blocks).

Section hybrid.
Context (hash_block_size scheduler_block_size : Z) (block_hashes : list bytes) (max_cache_hit_length : Z).

Definition group_ids_z (g : SpecGroup) : list Z := Z.of_nat <$> group_ids g.

(** The body of the [for] loop over the attention groups. *)
Definition check_group (st : HitState) (ig : nat * SpecGroup) : M BlockPool HitState :=
  let idx := ig.1 in let g := ig.2 in let spec := sg_spec g in
  g0 ← of_option IndexError (head (group_ids g));
  cached_blocks ← of_option IndexError (hit_blocks_by_group st !! g0);
  if is_full spec && is_some cached_blocks then
    q ← floordiv (curr_hit_length st) (spec_block_size spec);
    mret (mkHit (hit_blocks_by_group st) (q * spec_block_size spec) (longest_hit_length st)
            (eagle_verified st))
  else
    let drop_eagle_block := sg_use_eagle g && negb (bool_decide (idx ∈ eagle_verified st)) in
    let max_length :=
      if drop_eagle_block
      then Z.min (curr_hit_length st + spec_block_size spec) max_cache_hit_length
      else curr_hit_length st in
    hl ← group_block_hashes hash_block_size block_hashes spec;
    hit_blocks ← find_longest_cache_hit (group_ids_z g) hl max_length spec drop_eagle_block
                   scheduler_block_size 1 1;
    n ← first_len hit_blocks;
    let new_hit_length := n * spec_block_size spec in
    let verified :=
      if drop_eagle_block then {[idx]} ∪ eagle_verified st
      else if new_hit_length <? curr_hit_length st then ∅ else eagle_verified st in
    mret (mkHit (record_hits (group_ids g) (Some <$> hit_blocks) (hit_blocks_by_group st))
            new_hit_length (Z.max (longest_hit_length st) new_hit_length) verified).

Definition check_groups (groups : list SpecGroup) (st : HitState) : M BlockPool HitState :=
  for_fold check_group (imap pair groups) st.

(** The [while] loop; every round but the last shortens the hit, so
    [max_cache_hit_length + 1] rounds are enough. *)
Fixpoint hit_loop (fuel : nat) (simple : bool) (groups : list SpecGroup) (hit_length : Z) (st : HitState)
    : M BlockPool (Z * HitState) :=
  match fuel with
  | O => raise OutOfFuel
  | S fuel' =>
      st' ← check_groups groups
              (mkHit (hit_blocks_by_group st) hit_length (longest_hit_length st) (eagle_verified st));
      if hit_length <=? curr_hit_length st' then mret (hit_length, st')
      else if simple then mret (curr_hit_length st', st')
      else hit_loop fuel' simple groups (curr_hit_length st') st'
  end.

(** Truncate the blocks of the full-attention groups to the final length. *)
Definition truncate_full (groups : list SpecGroup) (hit_length : Z)
    (by_group : list (option (list ref))) : M BlockPool (list (option (list ref))) :=
  first_group ← of_option IndexError (head groups);
  if is_full (sg_spec first_group) then
    num_blocks ← floordiv hit_length (spec_block_size (sg_spec first_group));
    mret (foldl (fun acc i => alter (fmap (take (Z.to_nat num_blocks))) i acc) by_group
            (group_ids first_group))
  else mret by_group.

Definition hybrid_find_longest_cache_hit (num_groups : nat) (groups : list SpecGroup)
    : M BlockPool (list (list ref) * Z * Z) :=
  first_group ← of_option IndexError (head groups);
  let simple := (length groups =? 2)%nat && is_full (sg_spec first_group) in
  r ← hit_loop (Z.to_nat max_cache_hit_length + 1) simple groups max_cache_hit_length
        (mkHit (replicate num_groups None) max_cache_hit_length 0 ∅);
  by_group ← truncate_full groups r.1 (hit_blocks_by_group r.2);
  mret ((default []) <$> by_group, r.1, longest_hit_length r.2 - r.1).
End hybrid.

(** [find_longest_cache_hit] of the three coordinators. *)
Definition c_find_longest_cache_hit (block_hashes : list bytes) (max_cache_hit_length : Z)
    : M Coordinator (list (list ref) * Z) :=
  c ← get;
  match c_kind c with
  | NoPrefixCache => mret (replicate (length (single_type_managers c)) [], 0)
  | Unitary bs =>
      g ← of_option IndexError (head (c_groups c));
      hit_blocks ← on_block_pool (find_longest_cache_hit [0] (inl block_hashes) max_cache_hit_length
                     (g_spec g) (bool_decide (0%nat ∈ eagle_group_ids c)) bs (c_dcp c) (c_pcp c));
      n ← first_len hit_blocks;
      mret (hit_blocks, n * bs)
  | Hybrid true _ => mret (replicate (length (c_groups c)) [], 0)
  | Hybrid false groups =>
      r ← on_block_pool (hybrid_find_longest_cache_hit (c_hash_block_size c) (c_scheduler_block_size c)
            block_hashes max_cache_hit_length (length (c_groups c)) groups);
      modify (set_uncached r.2) ;;
      mret (r.1.1, r.1.2)
  end.

(** [HybridKVCacheCoordinator.find_longest_cache_hit_per_group] *)
Definition find_per_group (c : Coordinator) (block_hashes : list bytes) (max_cache_hit_length : Z)
    (acc : list (list ref) * list Z) (g : SpecGroup) : M Coordinator (list (list ref) * list Z) :=
  hl ← group_block_hashes (c_hash_block_size c) block_hashes (sg_spec g);
  blocks ← on_block_pool (find_longest_cache_hit (group_ids_z g) hl max_cache_hit_length (sg_spec g)
             (sg_use_eagle g) (c_scheduler_block_size c) 1 1);
  n ← first_len blocks;
  mret (record_hits (group_ids g) blocks acc.1,
        record_hits (group_ids g) (replicate (length blocks) (n * spec_block_size (sg_spec g))) acc.2).

Definition find_longest_cache_hit_per_group (block_hashes : list bytes) (max_cache_hit_length : Z)
    : M Coordinator (list (list ref) * list Z) :=
  c ← get;
  match c_kind c with
  | Hybrid _ groups =>
      for_fold (find_per_group c block_hashes max_cache_hit_length) groups
        (replicate (length (c_groups c)) [], replicate (length (c_groups c)) 0)
  | _ => raise AttributeError
  end.

End Coordinator.
