(* ===== verification/CoordinatorSafety.v ===== *)
(** * CoordinatorSafety

    The coordinator keeps the pool safe: an operation of one manager keeps the
    bookkeeping of all of them, since to each manager the blocks of the others
    are references that someone else holds. *)

From S2P Require Import Prelude FreeQueue Request BlockHash BlockPool SingleType SingleTypeSafety Coordinator.

Module CoordinatorSafety.
Import FreeQueue Request BlockHash BlockPool SingleType SingleTypeSafety Coordinator.
#[local] Open Scope Z_scope.

(** ** The invariant of a manager, apart from the pool *)

Record mgr_static (null : ref) (m : Manager) : Prop := {
  ms_null : m_null_block m = null;
  ms_bs : 0 < block_size m;
  ms_group : group_ok (kv_cache_group_id m);
  ms_nodup : forall rid l, req_to_blocks m !! rid = Some l -> NoDup (real null l);
  ms_align : match align_reqs m with
             | Some sp => 0 <= sp /\ forall rid, rid ∈ allocated_block_reqs m -> sp <= zlen (table m rid)
             | None => True
             end
}.

Lemma mgr_inv_iff m p xs R :
  mgr_inv (m, p) xs R <->
  pool_inv p xs [] (mheld (req_to_blocks m) ++ R) /\ mgr_static (null_block p) m.
Proof.
  split.
  - intros I. split.
    + eapply inv_held_perm; [|apply (mo_pool _ _ _ _ _ (I EmptyString))]. simpl.
      rewrite app_assoc. f_equiv. symmetry. apply mheld_open.
    + constructor; try apply (I EmptyString).
      * intros rid l Hl. pose proof (mo_nodup _ _ _ _ _ (I rid)) as Hnd. simpl in Hnd. by rewrite Hl in Hnd.
      * pose proof (mo_align _ _ _ _ _ (I EmptyString)) as Ha. simpl in Ha. destruct (align_reqs m) eqn:E; [|done].
        split; [apply Ha|]. intros rid Hr. pose proof (mo_align _ _ _ _ _ (I rid)) as Hr'. simpl in Hr'.
        rewrite E in Hr'. destruct Hr' as (_ & Hr' & _). by apply Hr'.
  - intros [Ip [H1 H2 H3 H4 H5]] rid. constructor; simpl; try done.
    + eapply inv_held_perm; [|exact Ip]. rewrite app_assoc. f_equiv. apply mheld_open.
    + destruct (req_to_blocks m !! rid) as [l|] eqn:E; [by eapply H4|constructor].
    + intros. by eapply H4.
    + destruct (align_reqs m); [|done]. destruct H5 as [? H5]. split; [done|]. split; [apply H5|].
      intros. by apply H5.
Qed.

(** ** The invariant of the coordinator *)

Definition all_held (ms : list Manager) : list ref := concat ((fun m => mheld (req_to_blocks m)) <$> ms).

Record coord_inv (c : Coordinator) (xs R : list ref) : Prop := {
  ci_pool : pool_inv (c_block_pool c) xs [] (all_held (single_type_managers c) ++ R);
  ci_managers : Forall (mgr_static (null_block (c_block_pool c))) (single_type_managers c);
  ci_specs : Forall (fun m => spec_ok (kv_cache_spec m)) (single_type_managers c)
}.

(** What the operations never change. *)
Definition cconf (c : Coordinator) :=
  (c_kind c, c_groups c, c_scheduler_block_size c, c_hash_block_size c, c_dcp c, c_pcp c,
   eagle_group_ids c, c_retention_interval c, mconf <$> single_type_managers c, config (c_block_pool c)).
Definition same_cconf (c c' : Coordinator) : Prop := cconf c' = cconf c.

#[export] Instance same_cconf_refl : Reflexive same_cconf.
Proof. by intros c. Qed.
#[export] Instance same_cconf_trans : Transitive same_cconf.
Proof. intros c1 c2 c3 ? ?. unfold same_cconf in *. congruence. Qed.

Lemma all_held_split ms i m :
  ms !! i = Some m -> all_held ms ≡ₚ mheld (req_to_blocks m) ++ all_held (delete i ms).
Proof.
  intros Hi. unfold all_held. rewrite (delete_Permutation ms i m Hi) at 1. done.
Qed.

Lemma delete_insert_same {A} (l : list A) i x : delete i (<[i := x]> l) = delete i l.
Proof. revert i. induction l as [|y l IH]; intros [|i]; simpl; try done. by rewrite IH. Qed.

Lemma all_held_insert ms i m m' :
  ms !! i = Some m -> all_held (<[i := m']> ms) ≡ₚ mheld (req_to_blocks m') ++ all_held (delete i ms).
Proof.
  intros Hi. rewrite (all_held_split (<[i := m']> ms) i m').
  - by rewrite delete_insert_same.
  - apply list_lookup_insert_eq. by eapply lookup_lt_Some.
Qed.

Lemma coord_manager c xs R i m :
  coord_inv c xs R -> single_type_managers c !! i = Some m ->
  mgr_inv (m, c_block_pool c) xs (all_held (delete i (single_type_managers c)) ++ R).
Proof.
  intros [Ip Im _] Hi. apply mgr_inv_iff. split.
  - eapply inv_held_perm; [|exact Ip]. rewrite app_assoc. f_equiv. by apply all_held_split.
  - by eapply Forall_lookup_1 in Im.
Qed.

Lemma coord_update c xs xs' R i m m' p' :
  coord_inv c xs R -> single_type_managers c !! i = Some m ->
  mgr_inv (m', p') xs' (all_held (delete i (single_type_managers c)) ++ R) ->
  same_conf (m, c_block_pool c) (m', p') ->
  coord_inv (set_state (<[i := m']> (single_type_managers c)) p' c) xs' R /\
  same_cconf c (set_state (<[i := m']> (single_type_managers c)) p' c).
Proof.
  intros [Ip Im Is] Hi I' [Hm Hp]. cbn [fst snd] in *. apply mgr_inv_iff in I' as [Ip' Is'].
  pose proof (config_eq _ _ Hp) as (_ & _ & _ & _ & En & _). split; [constructor; simpl|].
  - eapply inv_held_perm; [|exact Ip']. rewrite app_assoc. f_equiv. symmetry. by apply all_held_insert with m.
  - rewrite En. apply Forall_insert; [done|by rewrite <- En].
  - apply Forall_insert; [done|]. apply mconf_eq in Hm as (_ & E & _). rewrite E.
    by eapply (Forall_lookup_1 (fun m => spec_ok (kv_cache_spec m))) in Is.
  - unfold same_cconf, cconf. simpl. rewrite list_fmap_insert, Hm, Hp.
    rewrite list_insert_id; [done|]. by rewrite list_lookup_fmap, Hi.
Qed.

(** ** Operations of the managers, lifted *)

Definition good_op {A} (op : M St A) (m : Manager) (p : BlockPool) : Prop :=
  forall xs R, mgr_inv (m, p) xs R -> spec_ok (kv_cache_spec m) ->
    wlp op (fun _ s' => (exists xs', mgr_inv s' xs' R) /\ same_conf (m, p) s') (m, p).

Definition kept_coord {A} (R : list ref) (c : Coordinator) : A -> Coordinator -> Prop :=
  fun _ c' => (exists xs', coord_inv c' xs' R) /\ same_cconf c c'.

Lemma at_manager_wlp {A} i (op : M St A) c xs R :
  coord_inv c xs R ->
  (forall m, single_type_managers c !! i = Some m -> good_op op m (c_block_pool c)) ->
  wlp (at_manager i op) (fun a c' => kept_coord R c a c' /\
    forall j, j <> i -> single_type_managers c' !! j = single_type_managers c !! j) c.
Proof.
  intros I Hop. unfold wpx, at_manager. destruct (single_type_managers c !! i) as [m|] eqn:Hi; [|done].
  pose proof (coord_manager c xs R i m I Hi) as Im.
  assert (Hs : spec_ok (kv_cache_spec m)).
  { pose proof (ci_specs _ _ _ I) as Is. by eapply (Forall_lookup_1 (fun m => spec_ok (kv_cache_spec m))) in Is. }
  specialize (Hop m eq_refl _ _ Im Hs). unfold wpx in Hop.
  destruct (op (m, c_block_pool c)) as [[a|e] [m' p']]; [|done].
  destruct Hop as [[xs' I'] Hc]. destruct (coord_update c xs xs' R i m m' p' I Hi I' Hc) as [Ic Hcc].
  split; [split; [by exists xs'|done]|]. intros j Hj. simpl. by apply list_lookup_insert_ne.
Qed.

(** The common step of the two loops: each manager is still as it was when its
    turn comes, and the pool has its configuration. *)
Lemma managers_loop {A} (op : nat -> M St A) c xs R idxs :
  NoDup idxs -> coord_inv c xs R ->
  (forall i m p', i ∈ idxs -> single_type_managers c !! i = Some m ->
     config p' = config (c_block_pool c) -> good_op (op i) m p') ->
  wlp (map_m (fun i => at_manager i (op i)) idxs) (fun a c' => kept_coord R c a c') c.
Proof.
  revert c xs. induction idxs as [|i idxs IH]; intros c xs Hnd I Hop; cbn [map_m].
  { apply wpx_ret. split; [by exists xs|done]. }
  apply NoDup_cons in Hnd as [Hni Hnd]. apply wpx_bind.
  eapply wlp_mono; [eapply at_manager_wlp; [exact I|]|].
  { intros m Hm. apply (Hop i m); [set_solver|done|done]. }
  intros a c1 [[[xs1 I1] Hc1] Hj]. apply wpx_bind.
  eapply wlp_mono; [eapply (IH c1 xs1 Hnd I1)|].
  - intros j m p' Hjin Hm Hp. apply (Hop j m); [set_solver| |].
    + rewrite <- Hj; [done|]. by intros ->.
    + unfold same_cconf, cconf in Hc1. congruence.
  - intros b c2 [I2 Hc2]. apply wpx_ret. split; [done|]. by transitivity c1.
Qed.

Lemma for_each_map {S A} (f : A -> M S unit) l s :
  (for_each f l s).2 = (map_m f l s).2 /\
  (forall u, (for_each f l s).1 = Ok u -> is_Some (match (map_m f l s).1 with Ok a => Some a | Err _ => None end)).
Proof.
  revert s. induction l as [|x l IH]; intros s; [done|]. cbn [for_each map_m].
  unfold mbind, M_bind. destruct (f x s) as [[[]|e] s1]; [|done].
  specialize (IH s1) as [E1 E2]. destruct (map_m f l s1) as [[ys|e] s2]; simpl in *.
  - split; [done|]. intros; done.
  - split; [done|]. intros u Hu. specialize (E2 u Hu). by destruct E2.
Qed.

Lemma map_managers_wlp {A} (op : nat -> M St A) c xs R :
  coord_inv c xs R ->
  (forall i m p', single_type_managers c !! i = Some m -> config p' = config (c_block_pool c) ->
     good_op (op i) m p') ->
  wlp (map_managers op) (fun a c' => kept_coord R c a c') c.
Proof.
  intros I Hop. unfold map_managers. apply wpx_bind, wpx_gets.
  eapply managers_loop; [apply NoDup_seq|exact I|]. intros. by eapply Hop.
Qed.

Lemma for_managers_wlp (op : nat -> M St unit) c xs R :
  coord_inv c xs R ->
  (forall i m p', single_type_managers c !! i = Some m -> config p' = config (c_block_pool c) ->
     good_op (op i) m p') ->
  wlp (for_managers op) (fun a c' => kept_coord R c a c') c.
Proof.
  intros I Hop. unfold for_managers. apply wpx_bind, wpx_gets.
  pose proof (managers_loop op c xs R (manager_indices c) (NoDup_seq _ _) I
    (fun i m p' _ Hm Hp => Hop i m p' Hm Hp)) as Hw.
  destruct (for_each_map (fun i => at_manager i (op i)) (manager_indices c) c) as [E1 E2].
  unfold wpx in *. destruct (for_each _ _ c) as [[u|e] c1]; [|done]. simpl in *. subst c1.
  specialize (E2 u eq_refl). destruct (map_m _ _ c) as [[ys|e] c2]; simpl in *; [done|by destruct E2].
Qed.

(** ** The operations of the coordinator *)

Section ops.
Context (use_int : bool) (sha256 : bytes -> bytes).

Lemma good_mgr_op o m p : op_ok (m, p) o -> good_op (run_mgr_op use_int sha256 o) m p.
Proof. intros Hok xs R I Hs. by eapply run_mgr_op_wlp. Qed.

(** An operation whose result is thrown away. *)
Lemma good_ignore {A} (op : M St A) m p :
  good_op (_ ← op; mret tt) m p -> good_op op m p.
Proof.
  intros H xs R I Hs. specialize (H xs R I Hs). unfold wpx, mbind, M_bind in *.
  by destruct (op (m, p)) as [[a|e] s'].
Qed.

Lemma good_get {A} (f : Manager -> M St A) m p :
  good_op (f m) m p -> good_op (m ← mgr; f m) m p.
Proof. intros H xs R I Hs. apply wpx_bind, wpx_gets. exact (H xs R I Hs). Qed.

Lemma good_of_option {A B} e (o : option A) (f : A -> M St B) m p :
  (forall a, o = Some a -> good_op (f a) m p) -> good_op (a ← of_option e o; f a) m p.
Proof.
  intros H xs R I Hs. apply wpx_bind, wlp_of_option. intros a Ha. exact (H a Ha xs R I Hs).
Qed.

(** What callers respect when they attach hits: for every group they are blocks
    of the pool, each real one once, that cover the local computed tokens. *)
Definition hits_ok (c : Coordinator) (ncb : list (list ref)) (local ext : Z) : Prop :=
  forall i m l, single_type_managers c !! i = Some m -> ncb !! i = Some l ->
    (forall b, b ∈ l -> b ∈ blocks (c_block_pool c)) /\ NoDup (real (null_block (c_block_pool c)) l) /\
    (attn (kv_cache_spec m) <> CrossAttention -> local = zlen l * block_size m) /\ 0 <= ext.

Lemma c_allocate_new_computed_blocks_wlp c xs R rid ncb local ext :
  coord_inv c xs R -> hits_ok c ncb local ext ->
  wlp (c_allocate_new_computed_blocks use_int rid ncb local ext) (kept_coord R c) c.
Proof.
  intros I Hok. eapply for_managers_wlp; [exact I|]. intros i m p' Hm Hp.
  apply good_of_option. intros l Hl. apply (good_mgr_op (OpHits rid l local ext)).
  destruct (Hok i m l Hm Hl) as (? & ? & ? & ?). apply config_eq in Hp as (_ & _ & _ & E4 & E5 & _).
  simpl. rewrite E4, E5. done.
Qed.

Lemma c_allocate_new_blocks_wlp c xs R rid nt main enc :
  coord_inv c xs R -> 0 <= main ->
  wlp (c_allocate_new_blocks use_int rid nt main enc) (kept_coord R c) c.
Proof.
  intros I Hmain. eapply map_managers_wlp; [exact I|]. intros i m p' Hm Hp. apply good_get.
  apply good_ignore, (good_mgr_op (OpAlloc rid _ main)). exact Hmain.
Qed.

Lemma c_cache_blocks_wlp c xs R request n :
  coord_inv c xs R -> enable_caching (c_block_pool c) = true ->
  wlp (c_cache_blocks use_int sha256 request n) (kept_coord R c) c.
Proof.
  intros I Hc. unfold c_cache_blocks. apply wpx_bind, wpx_get.
  assert (Hgood : forall nt ri m p', config p' = config (c_block_pool c) ->
            good_op (cache_blocks use_int sha256 request nt ri) m p').
  { intros nt ri m p' Hp. apply (good_mgr_op (OpCache request nt ri)).
    apply config_eq in Hp as (_ & E2 & _). simpl. congruence. }
  destruct (c_kind c) as [| |[] ?].
  3: { apply wpx_ret. split; [by exists xs|done]. }
  3: { unfold floordiv. case_match; [done|]. apply wpx_bind, wpx_ret. cbv zeta.
       eapply for_managers_wlp; [exact I|]. intros. apply good_get. by apply Hgood. }
  all: eapply for_managers_wlp; [exact I|]; intros; by apply Hgood.
Qed.

Lemma c_free_wlp c xs R rid :
  coord_inv c xs R -> wlp (c_free rid) (kept_coord R c) c.
Proof. intros I. eapply for_managers_wlp; [exact I|]. intros. by apply (good_mgr_op (OpFree rid)). Qed.

Lemma c_remove_skipped_blocks_wlp c xs R rid n :
  coord_inv c xs R -> wlp (c_remove_skipped_blocks rid n) (kept_coord R c) c.
Proof. intros I. eapply for_managers_wlp; [exact I|]. intros. by apply (good_mgr_op (OpSkip rid n)). Qed.

Lemma c_new_step_starts_wlp c xs R :
  coord_inv c xs R -> wlp c_new_step_starts (kept_coord R c) c.
Proof. intros I. eapply for_managers_wlp; [exact I|]. intros. by apply (good_mgr_op OpNewStep). Qed.

(** Creating an empty table entry, as reading a defaultdict does. *)
Lemma req_blocks_good rid m p : good_op (req_blocks rid) m p.
Proof.
  intros xs R I _. apply wpx_wp. eapply wp_mono; [by apply req_blocks_spec|].
  intros l s' (-> & -> & O). split; [|by split]. exists xs. apply mgr_inv_iff.
  eapply mgr_open_inv in O; [by apply mgr_inv_iff|]. simpl. by rewrite lookup_insert_eq.
Qed.
End ops.

End CoordinatorSafety.
