(* ===== verification/KVCacheManager.v ===== *)
(** * KVCacheManager

    v1/core/kv_cache_manager.py: the scheduler's view of the KV cache; the
    lookup of cached prefixes and the admission and allocation of slots, on top
    of a coordinator. *)

From S2P Require Import Prelude FreeQueue Request BlockHash BlockPool SingleType Coordinator.

Module KVCacheManager.
Import FreeQueue Request BlockHash BlockPool SingleType Coordinator.
#[local] Open Scope Z_scope.

(** ** [KVCacheBlocks] *)

(** [is_shared_empty]: the object is the manager's pre-constructed
    [empty_kv_cache_blocks], which [allocate_slots] tests by identity. *)
Record KVCacheBlocks := mkBlocks {
  kb_blocks : list (list ref);
  is_shared_empty : bool
}.

(** [KVCacheBlocks.__add__] *)
Definition kb_add (x y : KVCacheBlocks) : KVCacheBlocks :=
  mkBlocks (zip_with app (kb_blocks x) (kb_blocks y)) false.

Definition get_block_ids (x : KVCacheBlocks) (allow_none : bool) : option (list (list Z)) :=
  if allow_none && forallb (fun g : list ref => (length g =? 0)%nat) (kb_blocks x) then None
  else Some ((fun g : list ref => block_id <$> g) <$> kb_blocks x).

(** [[b.block_id for b in group if keep(b)]] *)
Fixpoint ids_where (keep : KVCacheBlock -> bool) (group : list ref) : M BlockPool (list Z) :=
  match group with
  | [] => mret []
  | b :: bs =>
      k ← block_at b;
      ids ← ids_where keep bs;
      mret (if keep k then block_id b :: ids else ids)
  end.

Definition get_unhashed_block_ids (x : KVCacheBlocks) : M BlockPool (list Z) :=
  assert_ (length (kb_blocks x) =? 1)%nat ;;
  g ← of_option IndexError (head (kb_blocks x));
  ids_where (fun k => negb (is_some (block_hash k))) g.

Definition get_unhashed_block_ids_all_groups (x : KVCacheBlocks) : M BlockPool (list (list Z)) :=
  map_m (ids_where (fun k => negb (is_some (block_hash k)) && negb (is_null k))) (kb_blocks x).

Definition new_empty (x : KVCacheBlocks) : KVCacheBlocks :=
  mkBlocks (replicate (length (kb_blocks x)) []) false.

(** ** Statistics (v1/metrics/stats.py) *)

Record PrefixCacheStats := mkStats {
  ps_reset : bool;
  ps_requests : Z;
  ps_queries : Z;
  ps_hits : Z;
  ps_preempted_requests : Z;
  ps_preempted_queries : Z;
  ps_preempted_hits : Z
}.
Definition new_stats : PrefixCacheStats := mkStats false 0 0 0 0 0 0.

Definition record_stats (num_tokens num_hits : Z) (preempted : bool) (s : PrefixCacheStats)
    : PrefixCacheStats :=
  if preempted
  then mkStats (ps_reset s) (ps_requests s) (ps_queries s) (ps_hits s)
         (ps_preempted_requests s + 1) (ps_preempted_queries s + num_tokens)
         (ps_preempted_hits s + num_hits)
  else mkStats (ps_reset s) (ps_requests s + 1) (ps_queries s + num_tokens) (ps_hits s + num_hits)
         (ps_preempted_requests s) (ps_preempted_queries s) (ps_preempted_hits s).
Definition set_reset (s : PrefixCacheStats) : PrefixCacheStats :=
  mkStats true (ps_requests s) (ps_queries s) (ps_hits s)
    (ps_preempted_requests s) (ps_preempted_queries s) (ps_preempted_hits s).

(** ** The manager *)

Record KVCacheManager := mkKVManager {
  k_max_model_len : Z;
  k_enable_caching : bool;
  log_stats : bool;
  prefix_cache_stats : option PrefixCacheStats;
  coordinator : Coordinator;
  num_kv_cache_groups : nat;
  watermark_blocks : Z;
  kv_cache_event_metadata : list (string * option Z)
}.

Definition set_coordinator (c : Coordinator) (k : KVCacheManager) : KVCacheManager :=
  mkKVManager (k_max_model_len k) (k_enable_caching k) (log_stats k) (prefix_cache_stats k) c
    (num_kv_cache_groups k) (watermark_blocks k) (kv_cache_event_metadata k).
Definition set_stats (v : option PrefixCacheStats) (k : KVCacheManager) : KVCacheManager :=
  mkKVManager (k_max_model_len k) (k_enable_caching k) (log_stats k) v (coordinator k)
    (num_kv_cache_groups k) (watermark_blocks k) (kv_cache_event_metadata k).

(** [watermark] is [int(watermark * num_blocks)] when the fraction is not
    negative, [None] when it is. *)
Definition kv_manager_init (config : ManagedKVConfig) (max_model_len sched hash : Z)
    (max_num_batched_tokens : option Z) (caching use_eagle log events : bool) (dcp pcp : Z)
    (watermark : option Z) (metadata : list (string * option Z)) (env_retention_interval : option Z)
    : result KVCacheManager :=
  match get_kv_cache_coordinator config max_model_len (default max_model_len max_num_batched_tokens)
          use_eagle caching events dcp pcp sched hash env_retention_interval with
  | Err e => Err e
  | Ok c =>
      match watermark with
      | None => Err AssertionError
      | Some w => Ok (mkKVManager max_model_len caching log (if log then Some new_stats else None) c
                        (length (kv_cache_groups config)) w metadata)
      end
  end.

Definition on_coordinator {A} (op : M Coordinator A) : M KVCacheManager A :=
  zoom coordinator set_coordinator op.
Definition on_k_pool {A} (op : M BlockPool A) : M KVCacheManager A := on_coordinator (on_block_pool op).

Definition empty_kv_cache_blocks (k : KVCacheManager) : KVCacheBlocks :=
  mkBlocks (replicate (num_kv_cache_groups k) []) true.

(** [KVCacheBlocks(blocks) if any(blocks) else self.empty_kv_cache_blocks] *)
Definition create_kv_cache_blocks (k : KVCacheManager) (blocks : list (list ref)) : KVCacheBlocks :=
  if existsb (fun g : list ref => negb (length g =? 0)%nat) blocks then mkBlocks blocks false
  else empty_kv_cache_blocks k.

Definition make_prefix_cache_stats : M KVCacheManager (option PrefixCacheStats) :=
  k ← get;
  if log_stats k then modify (set_stats (Some new_stats)) ;; mret (prefix_cache_stats k)
  else mret None.

(** [if self.log_stats: assert stats is not None; update it] *)
Definition update_stats (f : PrefixCacheStats -> PrefixCacheStats) : M KVCacheManager unit :=
  k ← get;
  if log_stats k then
    match prefix_cache_stats k with
    | None => raise AssertionError
    | Some s => modify (set_stats (Some (f s)))
    end
  else mret tt.

Definition get_computed_blocks (request : Request) : M KVCacheManager (KVCacheBlocks * Z) :=
  k ← get;
  if negb (k_enable_caching k) || skip_reading_prefix_cache request
  then mret (empty_kv_cache_blocks k, 0)
  else
    let max_cache_hit_length := num_tokens request - 1 in
    r ← on_coordinator (c_find_longest_cache_hit (block_hashes request) max_cache_hit_length);
    update_stats (record_stats (num_tokens request) r.2 (0 <? num_preemptions request)) ;;
    mret (create_kv_cache_blocks k r.1, r.2).

(** The optional arguments of [allocate_slots]. *)
Record SlotArgs := mkSlotArgs {
  num_new_tokens : Z;
  num_new_computed_tokens : Z;
  new_computed_blocks : option KVCacheBlocks;
  num_lookahead_tokens : Z;
  num_external_computed_tokens : Z;
  delay_cache_blocks : bool;
  num_encoder_tokens : Z;
  full_sequence_must_fit : bool;
  reserved_blocks : Z;
  has_scheduled_reqs : bool
}.

Section ops.
Context (use_int : bool) (sha256 : bytes -> bytes).

(** The watermark applies to waiting and preempted requests. *)
Definition watermark_for (k : KVCacheManager) (request : Request) (a : SlotArgs) : Z :=
  if has_scheduled_reqs a && (bool_decide (status request = WAITING) || bool_decide (status request = PREEMPTED))
  then watermark_blocks k else 0.

(** The gate on the whole sequence; [false] makes [allocate_slots] return None. *)
Definition full_sequence_fits (k : KVCacheManager) (request : Request) (a : SlotArgs)
    (new_computed_block_list : list (list ref)) (total_computed_tokens : Z) : M KVCacheManager bool :=
  if full_sequence_must_fit a then
    let full_num_tokens := Z.min (num_tokens request) (k_max_model_len k) in
    n ← on_coordinator (c_get_num_blocks_to_allocate (request_id request) full_num_tokens
          new_computed_block_list (num_encoder_tokens a) total_computed_tokens full_num_tokens true);
    num_free ← on_k_pool get_num_free_blocks;
    mret (negb (num_free <? n + watermark_for k request a))
  else mret true.

(** Attaching hits, allocating, caching: what follows once the blocks are known
    to be there. *)
Definition commit_slots (k : KVCacheManager) (request : Request) (a : SlotArgs) (ncb : KVCacheBlocks)
    (num_local_computed_tokens total_computed_tokens num_tokens_need_slot num_tokens_main_model : Z)
    : M KVCacheManager KVCacheBlocks :=
  (if negb (is_shared_empty ncb) || (0 <? num_external_computed_tokens a) then
     on_coordinator (c_allocate_new_computed_blocks use_int (request_id request) (kb_blocks ncb)
       num_local_computed_tokens (num_external_computed_tokens a))
   else mret tt) ;;
  new_blocks ← on_coordinator (c_allocate_new_blocks use_int (request_id request)
                 num_tokens_need_slot num_tokens_main_model (num_encoder_tokens a));
  (if negb (k_enable_caching k) || delay_cache_blocks a then mret tt
   else
     let num_tokens_to_cache := Z.min (total_computed_tokens + num_new_tokens a) (num_tokens request) in
     on_coordinator (c_cache_blocks use_int sha256 request num_tokens_to_cache)) ;;
  mret (create_kv_cache_blocks k new_blocks).

Definition allocate_slots (request : Request) (a : SlotArgs) : M KVCacheManager (option KVCacheBlocks) :=
  if (num_new_tokens a =? 0) && (num_external_computed_tokens a =? 0) then raise ValueError
  else
    k ← get;
    let ncb := default (empty_kv_cache_blocks k) (new_computed_blocks a) in
    let num_local_computed_tokens := num_computed_tokens request + num_new_computed_tokens a in
    let total_computed_tokens :=
      Z.min (num_local_computed_tokens + num_external_computed_tokens a) (k_max_model_len k) in
    fits ← full_sequence_fits k request a (kb_blocks ncb) total_computed_tokens;
    if negb fits then mret None
    else
      let num_tokens_main_model := total_computed_tokens + num_new_tokens a in
      let num_tokens_need_slot :=
        Z.min (num_tokens_main_model + num_lookahead_tokens a) (k_max_model_len k) in
      on_coordinator (c_remove_skipped_blocks (request_id request) total_computed_tokens) ;;
      n ← on_coordinator (c_get_num_blocks_to_allocate (request_id request) num_tokens_need_slot
            (kb_blocks ncb) (num_encoder_tokens a)
            (num_local_computed_tokens + num_external_computed_tokens a) num_tokens_main_model false);
      num_free ← on_k_pool get_num_free_blocks;
      let available_blocks := num_free - reserved_blocks a in
      if available_blocks <? n + watermark_for k request a then mret None
      else
        new_blocks ← commit_slots k request a ncb num_local_computed_tokens total_computed_tokens
                       num_tokens_need_slot num_tokens_main_model;
        mret (Some new_blocks).

Definition k_cache_blocks (request : Request) (num_computed_tokens : Z) : M KVCacheManager unit :=
  k ← get;
  if k_enable_caching k then on_coordinator (c_cache_blocks use_int sha256 request num_computed_tokens)
  else mret tt.

Definition k_evict_blocks (block_ids : list Z) : M KVCacheManager unit :=
  on_k_pool (evict_blocks use_int block_ids).
End ops.

Definition k_free (request : Request) : M KVCacheManager unit :=
  on_coordinator (c_free (request_id request)).
Definition k_remove_skipped_blocks (request_id : string) (total_computed_tokens : Z)
    : M KVCacheManager unit :=
  on_coordinator (c_remove_skipped_blocks request_id total_computed_tokens).

Definition k_reset_prefix_cache : M KVCacheManager bool :=
  r ← on_k_pool reset_prefix_cache;
  if (r : bool) then update_stats set_reset ;; mret true else mret false.

Definition k_get_num_common_prefix_blocks (running_request_id : string) : M KVCacheManager (list Z) :=
  on_coordinator (c_get_num_common_prefix_blocks running_request_id).

(** Events, a stored block with the metadata of its group where it has one. *)
Definition annotate (metadata : list (string * option Z)) (e : KVCacheEvent)
    : KVCacheEvent * option (string * option Z) :=
  match e with
  | EvStored b =>
      (e, if (bs_group_idx b <? 0) || (zlen metadata <=? bs_group_idx b) then None
          else metadata !! Z.to_nat (bs_group_idx b))
  | _ => (e, None)
  end.
Definition k_take_events : M KVCacheManager (list (KVCacheEvent * option (string * option Z))) :=
  k ← get;
  events ← on_k_pool take_events;
  mret (annotate (kv_cache_event_metadata k) <$> events).

Definition k_get_blocks (request_id : string) (k : KVCacheManager) : KVCacheBlocks :=
  create_kv_cache_blocks k (c_get_blocks request_id (coordinator k)).
Definition k_get_block_ids (request_id : string) (k : KVCacheManager) : list (list Z) :=
  default [] (get_block_ids (k_get_blocks request_id k) false).

Definition k_take_new_block_ids : M KVCacheManager (list Z) :=
  ids ← on_coordinator (map_managers (fun _ => take_new_block_ids));
  mret (concat ids).
Definition k_new_step_starts : M KVCacheManager unit := on_coordinator c_new_step_starts.

End KVCacheManager.
