(* ===== verification/KVSafety.v ===== *)
(** * KVSafety

    The KV cache manager keeps the pool safe whatever the scheduler asks of it:
    reference counts, free list and block tables of all groups agree after every
    allocation, release, cache lookup and eviction. *)

From S2P Require Import Prelude FreeQueue Request BlockHash BlockPool SingleType SingleTypeSafety Coordinator CoordinatorSafety KVCacheManager.

Module KVSafety.
Import FreeQueue Request BlockHash BlockPool SingleType SingleTypeSafety Coordinator CoordinatorSafety
  KVCacheManager.
#[local] Open Scope Z_scope.

(** ** What only reads *)

Lemma ro_block_at b : readonly (block_at b).
Proof.
  apply ro_zoom; [by intros [] |]. unfold deref. ro.
Qed.
#[export] Hint Resolve ro_block_at : vllm_ro.

Lemma ro_on_pool {A} (op : M BlockPool A) : readonly op -> readonly (on_pool op).
Proof. apply ro_zoom. by intros []. Qed.

Lemma ro_get_cached_block h gs : readonly (get_cached_block h gs).
Proof.
  induction gs as [|g gs IH]; simpl; [ro|]. unfold lift_result, get_one_block. ro; auto.
Qed.
#[export] Hint Resolve ro_get_cached_block : vllm_ro.

Lemma ro_first_len {S} c : readonly (S := S) (first_len c).
Proof. unfold first_len. ro. Qed.
Lemma ro_pop_each {S} c : readonly (S := S) (pop_each c).
Proof. unfold pop_each. ro. Qed.
Lemma ro_floordiv {S} a b : readonly (S := S) (floordiv a b).
Proof. unfold floordiv. ro. Qed.
Lemma ro_cdiv_m {S} a b : readonly (S := S) (cdiv_m a b).
Proof. unfold cdiv_m. ro. Qed.
Lemma ro_hashes_get {S} l i : readonly (S := S) (hashes_get l i).
Proof. unfold hashes_get. ro. Qed.
#[export] Hint Resolve ro_first_len ro_pop_each ro_floordiv ro_cdiv_m ro_hashes_get : vllm_ro.

Lemma ro_align_hit {S} bs al c : readonly (S := S) (align_hit bs al c).
Proof.
  unfold align_hit. generalize (Datatypes.S (length (default [] (head c)))) as n.
  intros n. revert c. induction n as [|n IH]; intros c; simpl; ro; apply IH.
Qed.
Lemma ro_drop_eagle {S} b c : readonly (S := S) (drop_eagle b c).
Proof. unfold drop_eagle. ro. Qed.
#[export] Hint Resolve ro_align_hit ro_drop_eagle : vllm_ro.

Lemma ro_prefix_scan gs hs : forall c, readonly (prefix_scan gs hs c).
Proof. induction hs as [|h hs IH]; intros c; simpl; ro; apply IH. Qed.
Lemma ro_window_scan gs hl bs al need de i : forall c n, readonly (window_scan gs hl bs al need de i c n).
Proof. induction i as [|i IH]; intros c n; simpl; ro; apply IH. Qed.
Lemma ro_chunk_scan gs hl idxs : forall c, readonly (chunk_scan gs hl idxs c).
Proof. induction idxs as [|i idxs IH]; intros c; simpl; ro; apply IH. Qed.
Lemma ro_mamba_scan gs hl bs al i : readonly (mamba_scan gs hl bs al i).
Proof. induction i as [|i IH]; simpl; ro; apply IH. Qed.
#[export] Hint Resolve ro_prefix_scan ro_window_scan ro_chunk_scan ro_mamba_scan : vllm_ro.

Lemma ro_find gs hl ml spec de al dcp pcp : readonly (find_longest_cache_hit gs hl ml spec de al dcp pcp).
Proof.
  unfold find_longest_cache_hit, full_find_longest_cache_hit, window_find_longest_cache_hit,
    chunked_find_longest_cache_hit, mamba_find_longest_cache_hit, islice, contiguous_blocks_for_hit.
  ro.
Qed.
#[export] Hint Resolve ro_find : vllm_ro.

Lemma ro_hybrid hbs sbs bh ml n groups : readonly (hybrid_find_longest_cache_hit hbs sbs bh ml n groups).
Proof.
  assert (Hc : forall st ig, readonly (check_group hbs sbs bh ml st ig)).
  { intros st ig. unfold check_group, group_block_hashes, lift_result. ro. }
  assert (Hl : forall simple fuel hit st, readonly (hit_loop hbs sbs bh ml fuel simple groups hit st)).
  { intros simple fuel. induction fuel as [|fuel IH]; intros hit st; simpl; unfold check_groups; ro; auto. }
  unfold hybrid_find_longest_cache_hit, truncate_full. ro; auto.
Qed.

Lemma ro_evictable bs : readonly (get_num_evictable_blocks bs).
Proof. induction bs as [|b bs IH]; simpl; ro; auto. apply ro_on_pool. ro. Qed.
Lemma ro_skipped_tokens m n : readonly (get_num_skipped_tokens m n).
Proof. unfold get_num_skipped_tokens. ro. Qed.
#[export] Hint Resolve ro_evictable ro_skipped_tokens : vllm_ro.

Lemma ro_base_num_blocks rid nt ncb total cap : readonly (base_num_blocks_to_allocate rid nt ncb total cap).
Proof. unfold base_num_blocks_to_allocate, mgr. ro. Qed.
#[export] Hint Resolve ro_base_num_blocks : vllm_ro.

(** ** The remaining operations of managers and coordinator *)

Lemma good_readonly {A} (op : M St A) m p : readonly op -> good_op op m p.
Proof. intros Hro xs R I _. apply ro_wlp; [done|]. intros a _. split; [by exists xs|done]. Qed.

Lemma good_bind {A B} (op : M St A) (k : A -> M St B) m p :
  good_op op m p ->
  (forall a m' p', config p' = config p -> mconf m' = mconf m -> good_op (k a) m' p') ->
  good_op (op ≫= k) m p.
Proof.
  intros Hop Hk xs R I Hs. apply wpx_bind. eapply wlp_mono; [by eapply Hop|].
  intros a [m' p'] [[xs' I'] [Hm Hp]]. cbn [fst snd] in *.
  eapply wlp_mono; [apply (Hk a m' p' Hp Hm xs' R I')|].
  - apply mconf_eq in Hm as (_ & E & _). by rewrite E.
  - intros b [m'' p''] [I'' Hc]. split; [done|]. transitivity (m', p'); [by split|done].
Qed.

Lemma num_blocks_good rid nt ncb total main cap m p :
  good_op (get_num_blocks_to_allocate rid nt ncb total main cap) m p.
Proof.
  unfold get_num_blocks_to_allocate. apply good_get.
  destruct (attn (kv_cache_spec m)) as [| | |al sp|]; try (apply good_readonly; solve [ro]).
  unfold mamba_num_blocks_to_allocate. apply good_bind.
  { apply good_readonly. ro. }
  intros m0 m1 p1 _ _. apply good_bind.
  { apply good_readonly. ro. apply ro_on_pool. ro. }
  intros b m2 p2 _ _. destruct b; [apply good_readonly; ro|].
  destruct al; simpl; [|apply good_readonly; ro].
  apply good_bind; [apply good_readonly; ro|]. intros r0 m3 p3 _ _.
  apply good_bind; [apply req_blocks_good|]. intros rb m4 p4 _ _. cbv zeta.
  apply good_readonly. unfold mgr. ro.
Qed.

Lemma c_num_blocks_wlp c xs R rid nt ncb enc total main cap :
  coord_inv c xs R ->
  wlp (c_get_num_blocks_to_allocate rid nt ncb enc total main cap) (kept_coord R c) c.
Proof.
  intros I. unfold c_get_num_blocks_to_allocate. apply wpx_bind.
  eapply wlp_mono; [eapply map_managers_wlp; [exact I|]|].
  - intros i m p' Hm _. apply good_get. case_match; [apply num_blocks_good|].
    apply good_of_option. intros l _. apply num_blocks_good.
  - intros ns c' H. by apply wpx_ret.
Qed.

Lemma common_prefix_good rid m p : good_op (get_num_common_prefix_blocks rid) m p.
Proof.
  unfold get_num_common_prefix_blocks. apply good_get.
  destruct (attn (kv_cache_spec m)); try (apply good_readonly; solve [ro]).
  apply good_bind; [apply req_blocks_good|]. intros l m1 p1 _ _. apply good_readonly.
  unfold mgr. ro.
  match goal with |- readonly (count_shared ?n l) => generalize n end. intros n.
  induction l as [|b l IH]; simpl; ro; auto. apply ro_on_pool. ro.
Qed.

Lemma c_common_prefix_wlp c xs R rid :
  coord_inv c xs R -> wlp (c_get_num_common_prefix_blocks rid) (kept_coord R c) c.
Proof.
  intros I. unfold c_get_num_common_prefix_blocks. apply wpx_bind, wpx_get.
  case_match; [apply wpx_ret; split; [by exists xs|done]| |].
  all: eapply map_managers_wlp; [exact I|]; intros; apply common_prefix_good.
Qed.

(** An operation of the pool alone that keeps the references. *)
Lemma on_block_pool_wlp {A} (op : M BlockPool A) c xs R :
  coord_inv c xs R ->
  wlp op (fun _ p' => (exists xs', pool_inv p' xs' [] (all_held (single_type_managers c) ++ R)) /\
                      config p' = config (c_block_pool c)) (c_block_pool c) ->
  wlp (on_block_pool op) (kept_coord R c) c.
Proof.
  intros [Ip Im Is] Hop. apply wpx_zoom. eapply wpx_mono; [exact Hop| |done].
  intros a p' [[xs' Ip'] Hc]. pose proof (config_eq _ _ Hc) as (_ & _ & _ & _ & En & _). split.
  - exists xs'. constructor; simpl; try done. by rewrite En.
  - unfold same_cconf, cconf. simpl. by rewrite Hc.
Qed.

Lemma on_block_pool_ro {A} (op : M BlockPool A) c xs R :
  readonly op -> coord_inv c xs R -> wlp (on_block_pool op) (kept_coord R c) c.
Proof.
  intros Hro I. eapply on_block_pool_wlp; [exact I|]. apply ro_wlp; [done|].
  intros a _. split; [exists xs; apply I|done].
Qed.

Lemma c_find_wlp c xs R bh ml :
  coord_inv c xs R -> wlp (c_find_longest_cache_hit bh ml) (kept_coord R c) c.
Proof.
  intros I. unfold c_find_longest_cache_hit. apply wpx_bind, wpx_get.
  destruct (c_kind c) as [|bs|[] groups].
  - apply wpx_ret. split; [by exists xs|done].
  - apply wpx_bind, wlp_of_option. intros g _. apply wpx_bind.
    eapply wlp_mono; [by eapply on_block_pool_ro; [apply ro_find|exact I]|].
    intros hb c' H. apply wpx_bind. apply ro_wlp; [apply ro_first_len|]. intros n _. by apply wpx_ret.
  - apply wpx_ret. split; [by exists xs|done].
  - apply wpx_bind. eapply wlp_mono; [by eapply on_block_pool_ro; [apply ro_hybrid|exact I]|].
    intros r c' [[xs' [Ip Im Is]] Hc]. apply wpx_bind, wpx_modify, wpx_ret. split; [|done].
    exists xs'. by constructor.
Qed.

(** ** The manager *)

Definition kv_inv (k : KVCacheManager) (xs R : list ref) : Prop :=
  coord_inv (coordinator k) xs R /\
  enable_caching (c_block_pool (coordinator k)) = k_enable_caching k.

(** What the operations of the manager keep: the invariant and the configuration. *)
Definition kv_kept {A} (R : list ref) (k : KVCacheManager) : A -> KVCacheManager -> Prop :=
  fun _ k' => (exists xs', kv_inv k' xs' R) /\ same_cconf (coordinator k) (coordinator k') /\
    k_enable_caching k' = k_enable_caching k.

Lemma kv_kept_refl {A} R k xs (a : A) : kv_inv k xs R -> kv_kept R k a k.
Proof. intros I. split; [by exists xs|done]. Qed.

Lemma kv_kept_trans {A B} R k k1 k2 (a : A) (b : B) :
  kv_kept R k a k1 -> kv_kept R k1 b k2 -> kv_kept R k b k2.
Proof.
  intros (_ & H1 & H2) (I & H3 & H4). split; [done|]. split; [by transitivity (coordinator k1)|congruence].
Qed.

Lemma on_coordinator_wlp {A} (op : M Coordinator A) k xs R :
  kv_inv k xs R -> wlp op (kept_coord R (coordinator k)) (coordinator k) -> wlp (on_coordinator op) (kv_kept R k) k.
Proof.
  intros [_ He] H. apply wpx_zoom. eapply wpx_mono; [exact H| |done]. intros a c' [[xs' I'] Hc].
  split; [|done]. exists xs'. split; [done|]. simpl. rewrite <- He.
  unfold same_cconf, cconf in Hc. pose proof (f_equal snd Hc) as Hp. cbn [snd] in Hp.
  by apply config_eq in Hp as (_ & E2 & _).
Qed.

(** Sequencing under [kv_kept]. *)
Lemma kv_bind {A B} (op : M KVCacheManager A) (f : A -> M KVCacheManager B) k R :
  wlp op (kv_kept R k) k ->
  (forall a k' xs', kv_inv k' xs' R -> kv_kept R k a k' -> wlp (f a) (kv_kept R k') k') ->
  wlp (op ≫= f) (kv_kept R k) k.
Proof.
  intros Hop Hf. apply wpx_bind. eapply wlp_mono; [exact Hop|]. intros a k' H.
  pose proof H as ([xs' I'] & _ & _). eapply wlp_mono; [by eapply Hf|].
  intros b k'' H'. by eapply kv_kept_trans.
Qed.

Lemma update_stats_wlp f k xs R : kv_inv k xs R -> wlp (update_stats f) (kv_kept R k) k.
Proof.
  intros I. unfold update_stats. apply wpx_bind, wpx_get. case_match; [|by apply wpx_ret, kv_kept_refl with xs].
  case_match; [|by apply wpx_raise]. apply wpx_modify. split; [by exists xs|done].
Qed.

Lemma on_k_pool_ro {A} (op : M BlockPool A) k xs R :
  readonly op -> kv_inv k xs R -> wlp (on_k_pool op) (kv_kept R k) k.
Proof. intros Hro I. eapply on_coordinator_wlp; [exact I|]. eapply on_block_pool_ro; [done|apply I]. Qed.

Lemma hits_ok_conf c c' ncb local ext : same_cconf c c' -> hits_ok c ncb local ext -> hits_ok c' ncb local ext.
Proof.
  intros Hc H i m' l Hm' Hl. unfold same_cconf, cconf in Hc.
  pose proof (f_equal snd Hc) as Hp. pose proof (f_equal (fun x => x.1.2) Hc) as Hms. cbn [fst snd] in Hp, Hms.
  assert (Hi : (mconf <$> single_type_managers c) !! i = Some (mconf m')).
  { rewrite <- Hms, list_lookup_fmap, Hm'. done. }
  rewrite list_lookup_fmap in Hi. apply fmap_Some in Hi as (m & Hm & Hmc).
  destruct (H i m l Hm Hl) as (? & ? & ? & ?). apply mconf_eq in Hmc as (E1 & E2 & _).
  apply config_eq in Hp as (_ & _ & _ & E4 & E5 & _).
  rewrite E4, E5, E1, E2. done.
Qed.

Section ops.
Context (use_int : bool) (sha256 : bytes -> bytes).

(** What the scheduler respects: token counts are not negative, and hits that
    are passed on are proper. *)
Record slot_ok (k : KVCacheManager) (request : Request) (a : SlotArgs) : Prop := {
  so_computed : 0 <= num_computed_tokens request;
  so_new_computed : 0 <= num_new_computed_tokens a;
  so_external : 0 <= num_external_computed_tokens a;
  so_new : 0 <= num_new_tokens a;
  so_max_len : 0 <= k_max_model_len k;
  so_hits : let ncb := default (empty_kv_cache_blocks k) (new_computed_blocks a) in
    negb (is_shared_empty ncb) || (0 <? num_external_computed_tokens a) = true ->
    hits_ok (coordinator k) (kb_blocks ncb) (num_computed_tokens request + num_new_computed_tokens a)
      (num_external_computed_tokens a)
}.

Lemma on_c k xs R {A} (op : M Coordinator A) :
  kv_inv k xs R -> (coord_inv (coordinator k) xs R -> wlp op (kept_coord R (coordinator k)) (coordinator k)) ->
  wlp (on_coordinator op) (kv_kept R k) k.
Proof. intros I H. eapply on_coordinator_wlp; [exact I|]. apply H, I. Qed.

Lemma commit_slots_wlp k0 k xs R request a ncb local total need main :
  kv_inv k xs R -> k_enable_caching k = k_enable_caching k0 -> 0 <= main ->
  (negb (is_shared_empty ncb) || (0 <? num_external_computed_tokens a) = true ->
   hits_ok (coordinator k) (kb_blocks ncb) local (num_external_computed_tokens a)) ->
  wlp (commit_slots use_int sha256 k0 request a ncb local total need main) (kv_kept R k) k.
Proof.
  intros I Hk Hmain Hhits. unfold commit_slots. apply kv_bind.
  { destruct (_ || _); [|by apply wpx_ret, kv_kept_refl with xs]. eapply on_c; [exact I|]. intros Ic.
    eapply (c_allocate_new_computed_blocks_wlp use_int sha256); [exact Ic|by apply Hhits]. }
  intros _ k1 xs1 I1 (_ & _ & Hk1). apply kv_bind.
  { eapply on_c; [exact I1|]. intros Ic. by eapply (c_allocate_new_blocks_wlp use_int sha256). }
  intros nb k2 xs2 I2 (_ & _ & Hk2). apply kv_bind.
  { destruct (k_enable_caching k0) eqn:E; simpl; [|by apply wpx_ret, kv_kept_refl with xs2].
    case_match; [by apply wpx_ret, kv_kept_refl with xs2|]. eapply on_c; [exact I2|]. intros Ic.
    eapply (c_cache_blocks_wlp use_int sha256); [exact Ic|]. destruct I2 as [_ ->]. congruence. }
  intros _ k3 xs3 I3 _. by apply wpx_ret, kv_kept_refl with xs3.
Qed.

Lemma allocate_slots_wlp k xs R request a :
  kv_inv k xs R -> slot_ok k request a ->
  wlp (allocate_slots use_int sha256 request a) (kv_kept R k) k.
Proof.
  intros I [H1 H2 H3 H4 H5 Hh]. unfold allocate_slots. case_match; [by apply wpx_raise|].
  apply wpx_bind, wpx_get. cbv zeta. apply kv_bind.
  { unfold full_sequence_fits. case_match; [|by apply wpx_ret, kv_kept_refl with xs]. apply kv_bind.
    - eapply on_c; [exact I|]. intros Ic. by eapply c_num_blocks_wlp.
    - intros n k1 xs1 I1 _. apply kv_bind; [eapply on_k_pool_ro; [apply ro_gets|exact I1]|].
      intros f k2 xs2 I2 _. by apply wpx_ret, kv_kept_refl with xs2. }
  intros fits k1 xs1 I1 (_ & Hc1 & Hk1). destruct fits; simpl; [|by apply wpx_ret, kv_kept_refl with xs1].
  apply kv_bind.
  { eapply on_c; [exact I1|]. intros Ic. by eapply (c_remove_skipped_blocks_wlp use_int sha256). }
  intros _ k2 xs2 I2 (_ & Hc2 & Hk2). apply kv_bind.
  { eapply on_c; [exact I2|]. intros Ic. by eapply c_num_blocks_wlp. }
  intros n k3 xs3 I3 (_ & Hc3 & Hk3). apply kv_bind; [eapply on_k_pool_ro; [apply ro_gets|exact I3]|].
  intros f k4 xs4 I4 (_ & Hc4 & Hk4). case_match; [by apply wpx_ret, kv_kept_refl with xs4|].
  apply kv_bind; [|intros nb k5 xs5 I5 _; by apply wpx_ret, kv_kept_refl with xs5].
  eapply commit_slots_wlp; [exact I4|congruence|lia|]. intros Hor. eapply hits_ok_conf; [|by apply Hh].
  etransitivity; [exact Hc1|]. etransitivity; [exact Hc2|]. by etransitivity.
Qed.

(** ** Reachable states *)

Inductive kv_op :=
| KGetComputed (request : Request)
| KAllocate (request : Request) (a : SlotArgs)
| KFree (request : Request)
| KRemoveSkipped (rid : string) (total : Z)
| KCache (request : Request) (n : Z)
| KEvict (ids : list Z)
| KReset
| KCommonPrefix (rid : string)
| KTakeEvents
| KTakeNewIds
| KNewStep.

Definition run_kv_op (o : kv_op) : M KVCacheManager unit :=
  match o with
  | KGetComputed r => _ ← get_computed_blocks r; mret tt
  | KAllocate r a => _ ← allocate_slots use_int sha256 r a; mret tt
  | KFree r => k_free r
  | KRemoveSkipped rid n => k_remove_skipped_blocks rid n
  | KCache r n => k_cache_blocks use_int sha256 r n
  | KEvict ids => k_evict_blocks use_int ids
  | KReset => _ ← k_reset_prefix_cache; mret tt
  | KCommonPrefix rid => _ ← k_get_num_common_prefix_blocks rid; mret tt
  | KTakeEvents => _ ← k_take_events; mret tt
  | KTakeNewIds => _ ← k_take_new_block_ids; mret tt
  | KNewStep => k_new_step_starts
  end.

Definition kv_op_ok (k : KVCacheManager) (o : kv_op) : Prop :=
  match o with
  | KAllocate r a => slot_ok k r a
  | KEvict ids => forall i, i ∈ ids -> 0 <= i < zlen (blocks (c_block_pool (coordinator k)))
  | _ => True
  end.

Lemma kv_ignore {A} (op : M KVCacheManager A) k R :
  wlp op (kv_kept R k) k -> wlp (_ ← op; mret tt) (kv_kept R k) k.
Proof. intros H. apply wpx_bind. eapply wlp_mono; [exact H|]. intros a k' H'. by apply wpx_ret. Qed.

Lemma get_computed_blocks_wlp k xs R request :
  kv_inv k xs R -> wlp (get_computed_blocks request) (kv_kept R k) k.
Proof.
  intros I. unfold get_computed_blocks. apply wpx_bind, wpx_get.
  case_match; [by apply wpx_ret, kv_kept_refl with xs|]. cbv zeta. apply kv_bind.
  { eapply on_c; [exact I|]. intros Ic. by eapply c_find_wlp. }
  intros r k1 xs1 I1 _. apply kv_bind; [by eapply update_stats_wlp|].
  intros _ k2 xs2 I2 _. by apply wpx_ret, kv_kept_refl with xs2.
Qed.

Lemma run_kv_op_wlp o k xs R :
  kv_inv k xs R -> kv_op_ok k o -> wlp (run_kv_op o) (kv_kept R k) k.
Proof.
  intros I Hok.
  destruct o as [r|r a|r|rid n|r n|ids| |rid| | |]; cbn [run_kv_op kv_op_ok] in *.
  - apply kv_ignore. by eapply get_computed_blocks_wlp.
  - apply kv_ignore. by eapply allocate_slots_wlp.
  - eapply on_c; [exact I|]. intros Ic. by eapply (c_free_wlp use_int sha256).
  - eapply on_c; [exact I|]. intros Ic. by eapply (c_remove_skipped_blocks_wlp use_int sha256).
  - unfold k_cache_blocks. apply wpx_bind, wpx_get. destruct (k_enable_caching k) eqn:E;
      [|by apply wpx_ret, kv_kept_refl with xs]. eapply on_c; [exact I|]. intros Ic.
    eapply (c_cache_blocks_wlp use_int sha256); [exact Ic|]. destruct I as [_ ->]. done.
  - eapply on_c; [exact I|]. intros Ic. eapply on_block_pool_wlp; [exact Ic|]. apply wpx_wp.
    eapply wp_mono; [eapply evict_blocks_spec; [apply Ic|exact Hok]|].
    intros _ p' (? & ? & _). split; [by eexists|done].
  - apply kv_ignore. unfold k_reset_prefix_cache. apply kv_bind.
    { eapply on_c; [exact I|]. intros Ic. eapply on_block_pool_wlp; [exact Ic|]. apply wpx_wp.
      eapply wp_mono; [eapply reset_prefix_cache_spec; apply Ic|].
      intros r p' (? & ? & _). split; [by eexists|done]. }
    intros r k1 xs1 I1 _. destruct r; [|by apply wpx_ret, kv_kept_refl with xs1].
    apply kv_bind; [by eapply update_stats_wlp|]. intros _ k2 xs2 I2 _. by apply wpx_ret, kv_kept_refl with xs2.
  - apply kv_ignore. eapply on_c; [exact I|]. intros Ic. by eapply c_common_prefix_wlp.
  - apply kv_ignore. unfold k_take_events. apply wpx_bind, wpx_get. apply kv_bind.
    { eapply on_c; [exact I|]. intros Ic. eapply on_block_pool_wlp; [exact Ic|].
      pose proof (ci_pool _ _ _ Ic) as Ip. unfold take_events. apply wpx_bind, wpx_get.
      destruct (enable_kv_cache_events _); [|apply wpx_ret; split; [by exists xs|done]].
      apply wpx_bind, wpx_modify, wpx_ret. split; [|done]. exists xs. by apply inv_events. }
    intros e k1 xs1 I1 _. by apply wpx_ret, kv_kept_refl with xs1.
  - apply kv_ignore. unfold k_take_new_block_ids. apply kv_bind.
    { eapply on_c; [exact I|]. intros Ic. eapply map_managers_wlp; [exact Ic|]. intros i m p' _ _.
      apply good_ignore, (good_mgr_op use_int sha256 OpTakeIds). exact Logic.I. }
    intros ids k1 xs1 I1 _. by apply wpx_ret, kv_kept_refl with xs1.
  - eapply on_c; [exact I|]. intros Ic. by eapply (c_new_step_starts_wlp use_int sha256).
Qed.

Inductive kv_reachable (k0 : KVCacheManager) : KVCacheManager -> Prop :=
| KvInit : kv_reachable k0 k0
| KvStep k o k' : kv_reachable k0 k -> kv_op_ok k o -> run_kv_op o k = (Ok tt, k') ->
    kv_reachable k0 k'.

Lemma kv_reachable_inv k0 k xs R :
  kv_inv k0 xs R -> kv_reachable k0 k -> kv_kept R k0 tt k.
Proof.
  intros I0. induction 1 as [|k o k' _ IH Hok Hrun]; [by apply kv_kept_refl with xs|].
  pose proof IH as ([xs1 I1] & _). eapply kv_kept_trans; [exact IH|].
  exact (wpx_run _ _ _ _ _ _ Hrun (run_kv_op_wlp o k xs1 R I1 Hok)).
Qed.
End ops.

(** ** Construction *)

(** A configuration the engine builds: positive block sizes, windows and chunks. *)
Definition config_ok (config : ManagedKVConfig) : Prop :=
  Forall (fun g => 0 < spec_block_size (g_spec g) /\ spec_ok (g_spec g)) (kv_cache_groups config) /\
  zlen (kv_cache_groups config) < 2 ^ 32.

Lemma manager_init_static spec pool caching g sched dcp pcp cap :
  group_ok g -> 0 < spec_block_size spec -> 0 < dcp * pcp -> spec_ok spec ->
  mgr_static (null_block pool) (manager_init spec pool caching g sched dcp pcp cap).
Proof.
  intros Hg Hbs Hcp Hs. constructor; simpl; try done.
  - destruct (_ && _); nia.
  - unfold align_reqs. simpl. unfold spec_ok in Hs. destruct (attn spec) as [| | |[] sp|]; try done.
Qed.

Lemma get_manager_init spec sharded batch mml pool caching g sched dcp pcp m :
  get_manager_for_kv_cache_spec spec sharded batch mml pool caching g sched dcp pcp = Ok m ->
  exists cap, m = manager_init spec pool caching g sched dcp pcp cap.
Proof.
  unfold get_manager_for_kv_cache_spec. cbv zeta. intros H.
  destruct (attn spec); try (destruct (_ =? 0) in H); simplify_eq; eauto.
Qed.

Lemma make_managers_static groups batch mml pool caching dcp pcp sched : forall i ms,
  make_managers i groups batch mml pool caching dcp pcp sched = Ok ms ->
  Forall (fun g => 0 < spec_block_size (g_spec g) /\ spec_ok (g_spec g)) groups ->
  0 < dcp * pcp -> Z.of_nat i + zlen groups < 2 ^ 32 ->
  Forall (mgr_static (null_block pool)) ms /\ Forall (fun m => spec_ok (kv_cache_spec m)) ms /\
  Forall (fun m => req_to_blocks m = ∅) ms.
Proof.
  induction groups as [|g gs IH]; intros i ms Hms Hg Hcp Hlen; simpl in *; [by injection Hms as <-|].
  apply Forall_cons in Hg as [[Hbs Hs] Hg]. 
  destruct (get_manager_for_kv_cache_spec _ _ _ _ _ _ _ _ _ _) as [m|] eqn:Em; [|done].
  apply get_manager_init in Em as [cap ->].
  destruct (make_managers (S i) gs batch mml pool caching dcp pcp sched) as [ms'|] eqn:Ems; [|done].
  injection Hms as <-. destruct (IH (S i) ms' Ems Hg Hcp ltac:(lia)) as (H1 & H2 & H3).
  split; [|split]; (apply Forall_cons; split; [|done]); [|exact Hs|reflexivity].
  apply manager_init_static; try done. unfold group_ok. lia.
Qed.

Lemma set_use_eagle_static null b m : mgr_static null m -> mgr_static null (set_use_eagle b m).
Proof. intros [H1 H2 H3 H4 H5]. by constructor. Qed.

(** What the subclasses do to the managers. *)
Definition fresh_managers (null : ref) (ms : list Manager) : Prop :=
  Forall (fun m => mgr_static null m /\ spec_ok (kv_cache_spec m) /\ req_to_blocks m = ∅) ms.

Lemma fresh_alter null b i ms : fresh_managers null ms -> fresh_managers null (alter (set_use_eagle b) i ms).
Proof.
  intros H. apply Forall_alter; [done|]. intros m Hm (H1 & H2 & H3).
  split; [by apply set_use_eagle_static|done].
Qed.

Lemma fresh_mark null sgs : forall ms, fresh_managers null ms -> fresh_managers null (mark_eagle_managers sgs ms).
Proof.
  unfold mark_eagle_managers. induction sgs as [|g sgs IH]; intros ms H; simpl; [done|]. apply IH.
  destruct (sg_use_eagle g); [|done]. generalize (group_ids g) as ids. intros ids. revert ms H.
  induction ids as [|i ids IHi]; intros ms H; simpl; [done|]. apply IHi. by apply fresh_alter.
Qed.

Lemma fresh_held ms null : fresh_managers null ms -> all_held ms = [].
Proof.
  unfold all_held. induction 1 as [|m ms (_ & _ & Hm) _ IH]; [done|].
  rewrite fmap_cons. cbn [concat]. rewrite Hm, IH. done.
Qed.

Lemma coordinator_init_inv config mml batch use_eagle caching events dcp pcp sched hash env c :
  get_kv_cache_coordinator config mml batch use_eagle caching events dcp pcp sched hash env = Ok c ->
  config_ok config -> 0 < dcp * pcp -> 0 < num_blocks config ->
  exists xs, coord_inv c xs [] /\ enable_caching (c_block_pool c) = caching.
Proof.
  intros Hc [Hg Hlen] Hcp Hn. unfold get_kv_cache_coordinator, base_init in Hc.
  destruct (hash =? 0); [done|].
  match type of Hc with context [match (if ?b then _ else _) with Ok _ => _ | Err _ => _ end] => destruct b end;
    [|done].
  destruct (all_divide sched (kv_cache_groups config)) as [[]|]; [|done..].
  destruct (pool_init_spec (num_blocks config) caching hash events Hn)
    as (p & Hp & I & _ & E2 & _). rewrite Hp in Hc.
  destruct (make_managers 0 (kv_cache_groups config) batch mml p caching dcp pcp sched) as [ms|] eqn:Ems; [|done].
  destruct (validate_prefix_cache_retention_interval env sched config); [|done].
  destruct (make_managers_static _ _ _ _ _ _ _ _ _ _ Ems Hg Hcp ltac:(lia)) as (H1 & H2 & H3).
  set (xs := Blk <$> seq 1 (Z.to_nat (num_blocks config) - 1)) in *.
  assert (Hf : fresh_managers (null_block p) ms).
  { unfold fresh_managers. apply Forall_and; split; [done|]. by apply Forall_and. }
  assert (Hfin : forall c', fresh_managers (null_block p) (single_type_managers c') -> c_block_pool c' = p ->
            coord_inv c' xs [] /\ enable_caching (c_block_pool c') = caching).
  { intros c' Hf' Ep. split; [|by rewrite Ep]. constructor; rewrite ?Ep.
    - by rewrite (fresh_held _ _ Hf').
    - eapply Forall_impl; [exact Hf'|]. intros m (? & _). done.
    - eapply Forall_impl; [exact Hf'|]. intros m (_ & ? & _). done. }
  exists xs. destruct caching; simpl in Hc; [|injection Hc as <-; by apply Hfin].
  destruct (length (kv_cache_groups config) =? 1)%nat.
  - unfold unitary_init in Hc. simpl in Hc. destruct (kv_cache_groups config) as [|g [|? ?]]; [done| |].
    2: { by destruct (_ =? _) in Hc. }
    destruct (hash =? _) in Hc; [|done]. injection Hc as <-. apply Hfin; [|done]. by apply fresh_alter.
  - unfold hybrid_init, verify_and_split_kv_cache_groups in Hc. simpl in Hc.
    destruct (_ && _) in Hc; [done|]. destruct (negb _) in Hc; [done|]. destruct (negb _) in Hc; [done|].
    destruct (_ <=? _)%nat in Hc; [done|]. injection Hc as <-. apply Hfin; [|done]. by apply fresh_mark.
Qed.

Lemma kv_manager_init_inv config mml sched hash batch caching eagle log events dcp pcp wm meta env k :
  kv_manager_init config mml sched hash batch caching eagle log events dcp pcp wm meta env = Ok k ->
  config_ok config -> 0 < dcp * pcp -> 0 < num_blocks config -> exists xs, kv_inv k xs [].
Proof.
  intros Hinit Hcfg Hcp Hn. unfold kv_manager_init in Hinit.
  destruct (get_kv_cache_coordinator _ _ _ _ _ _ _ _ _ _ _) as [c|] eqn:Ec; [|done].
  destruct wm; [|done]. injection Hinit as <-.
  destruct (coordinator_init_inv _ _ _ _ _ _ _ _ _ _ _ _ Ec Hcfg Hcp Hn) as (xs0 & I0 & E0).
  by exists xs0.
Qed.

(** ** The theorems *)

(** C16. The KV cache manager keeps the pool safe. From its construction on,
    through any sequence of its operations that return (cache lookups,
    [allocate_slots] whether or not it finds room, releases, trimming, caching,
    evictions, resets, events), the reference count of every real block is the
    number of entries for it in the block tables of all groups, a block is on
    the free list exactly when no table has it, and no table has a real block
    twice; when no request holds blocks, every block but the null block is
    free. *)
Theorem kv_cache_manager_safety use_int sha256 config mml sched hash batch caching eagle log events dcp pcp
    wm meta env k0 k :
  kv_manager_init config mml sched hash batch caching eagle log events dcp pcp wm meta env = Ok k0 ->
  config_ok config -> 0 < dcp * pcp -> 0 < num_blocks config ->
  kv_reachable use_int sha256 k0 k ->
  let ms := single_type_managers (coordinator k) in
  let p := c_block_pool (coordinator k) in
  exists xs, pool_inv p xs [] (all_held ms) /\
    (forall b, b ∈ blocks p -> b <> null_block p ->
       ref_cnt_of p b = Some (Z.of_nat (count b (all_held ms))) /\ (b ∈ xs <-> b ∉ all_held ms)) /\
    (forall m rid l, m ∈ ms -> req_to_blocks m !! rid = Some l -> NoDup (real (null_block p) l)) /\
    (Forall (fun m => req_to_blocks m = ∅) ms ->
       forall b, b ∈ blocks p -> b <> null_block p -> b ∈ xs).
Proof.
  intros Hinit Hcfg Hcp Hn Hr ms p.
  destruct (kv_manager_init_inv _ _ _ _ _ _ _ _ _ _ _ _ _ _ _ Hinit Hcfg Hcp Hn) as [xs0 Ik].
  destruct (kv_reachable_inv use_int sha256 _ k xs0 [] Ik Hr) as ([xs [[Ip Im Is] _]] & _ & _).
  rewrite app_nil_r in Ip. exists xs. split; [done|].
  assert (Hfree : forall b, b ∈ blocks p -> b <> null_block p ->
    ref_cnt_of p b = Some (Z.of_nat (count b (all_held ms))) /\ (b ∈ xs <-> b ∉ all_held ms)).
  { intros b Hb Hnb. destruct (pi_block _ _ _ _ Ip b Hb) as (q & Hq & _ & Hrc).
    unfold ref_cnt_of. fold p in Hq. rewrite Hq. simpl. rewrite Hrc by done. split; [done|].
    rewrite (pi_free_iff _ _ _ _ Ip) by done. fold ms. rewrite (count_pos b (all_held ms)).
    split; [intros [? _]; lia|]. intros. split; [lia|set_solver]. }
  split; [done|]. split.
  - intros m rid l Hm Hl. rewrite Forall_forall in Im. by eapply (ms_nodup _ _ (Im m Hm)).
  - intros Hall b Hb Hnb. apply Hfree; [done|done|].
    assert (E : all_held ms = []); [|rewrite E; set_solver].
    clear - Hall. unfold all_held. induction Hall as [|m l Hm _ IH]; [done|].
    rewrite fmap_cons. cbn [concat]. by rewrite Hm, IH.
Qed.

(** ** A witness: two requests on a hybrid of full and sliding-window attention *)

Definition hybrid_config : ManagedKVConfig :=
  mkConfig 12 [mkGroup (mkSpec 4 false (FullAttention true)) [] false false;
               mkGroup (mkSpec 4 false (SlidingWindow 6)) [] false false] false.

Definition slots (n : Z) : SlotArgs := mkSlotArgs n 0 None 0 0 false 0 true 0 true.

Definition sample_manager_k : result KVCacheManager :=
  kv_manager_init hybrid_config 100 4 4 (Some 16) true false false false 1 1 (Some 0)
    [("full"%string, None); ("window"%string, Some 6)] None.

Lemma kv_cache_manager_safety_witness : exists k0 k xs,
  sample_manager_k = Ok k0 /\
  kv_reachable false id k0 k /\ length (all_held (single_type_managers (coordinator k))) = 4%nat /\
  pool_inv (c_block_pool (coordinator k)) xs [] (all_held (single_type_managers (coordinator k))).
Proof.
  destruct sample_manager_k as [k0|] eqn:E; [|vm_compute in E; discriminate E].
  set (o := KAllocate sample_request (slots 7)).
  destruct (run_kv_op false id o k0) as [r k] eqn:Erun.
  assert (Hr : r = Ok tt /\ length (all_held (single_type_managers (coordinator k))) = 4%nat /\
    k_max_model_len k0 = 100).
  { vm_compute in E. injection E as <-. vm_compute in Erun. injection Erun as <- <-.
    split; [reflexivity|]. split; vm_compute; reflexivity. }
  destruct Hr as (-> & Hne & Hmax).
  assert (Hreach : kv_reachable false id k0 k).
  { eapply KvStep; [apply KvInit| |exact Erun]. simpl.
    constructor; [vm_compute; discriminate..|rewrite Hmax; vm_compute; discriminate|].
    intros ncb H. discriminate H. }
  destruct (kv_cache_manager_safety false id hybrid_config 100 4 4 (Some 16) true false false false 1 1
    (Some 0) [("full"%string, None); ("window"%string, Some 6)] None k0 k E) as (xs & Hi & _).
  - split; [|vm_compute; reflexivity]. repeat constructor.
  - lia.
  - vm_compute. reflexivity.
  - exact Hreach.
  - exists k0, k, xs. split; [reflexivity|]. split; [exact Hreach|]. split; [exact Hne|exact Hi].
Defined.

End KVSafety.
