(* ===== verification/HybridHit.v ===== *)
(** * HybridHit

    The common prefix hit of all KV-cache groups
    ([HybridKVCacheCoordinator.find_longest_cache_hit]). What each group's
    search promises is the class [GroupSearch]; the fixed-point loop is proved
    against it, and the managers' searches are its instances. *)

From S2P Require Import Prelude FreeQueue Request BlockHash BlockPool SingleType SingleTypeSafety CacheHit Coordinator.

Module HybridHit.
Import FreeQueue Request BlockHash BlockPool SingleType SingleTypeSafety CacheHit Coordinator.
#[local] Open Scope Z_scope.

(** ** What a group's search promises *)

(** Block [k] is still read after a hit of [n] blocks: it holds tokens that
    [get_num_skipped_tokens] does not skip. *)
Definition needed (spec : KVCacheSpec) (n k : nat) : Prop :=
  num_skipped spec (Z.of_nat n * spec_block_size spec) < (Z.of_nat k + 1) * spec_block_size spec.

(** Entry [k] of a hit of [n] blocks: cached or null, and cached where needed. *)
Definition good_entry (p : BlockPool) (spec : KVCacheSpec) (hs : list bytes) (n k : nat) (g : Z) (b : ref)
    : Prop :=
  (b = null_block p \/ holds p hs k g b) /\ (needed spec n k -> holds p hs k g b).

Class GroupSearch (p : BlockPool) (gs : list Z) (hl : BlockHashList) (spec : KVCacheSpec) (al cap : Z)
    (eagle : bool) : Prop := {
  group_search ml de : (de = true -> eagle = true) -> 0 <= ml <= cap ->
    exists c n, find_longest_cache_hit gs hl ml spec de al 1 1 p = (Ok c, p) /\
      table_ok gs c n (good_entry p spec (hashes_all hl) n) /\
      aligned (spec_block_size spec) al n /\
      (n = 0%nat \/ (Z.of_nat n + Z.of_nat (extra de)) * spec_block_size spec <= ml)
}.

Section instances.
Context (p : BlockPool) (xs L H : list ref) (gs : list Z) (hl : BlockHashList) (spec : KVCacheSpec) (al cap : Z).
Hypothesis I : pool_inv p xs L H.
Hypothesis Hgs : gs <> [].
Hypothesis Hgok : Forall group_ok gs.
Hypothesis Hbs : 0 < spec_block_size spec.
Hypothesis Hal : 0 < al.

Lemma le_maxb n d ml : 0 <= ml -> (n + d <= Z.to_nat (ml / spec_block_size spec))%nat ->
  (Z.of_nat n + Z.of_nat d) * spec_block_size spec <= ml.
Proof.
  intros Hml Hn. pose proof (Z.div_mod ml (spec_block_size spec) ltac:(lia)).
  pose proof (Z.mod_pos_bound ml _ Hbs). pose proof (Z.div_pos ml _ Hml Hbs). nia.
Qed.

Lemma full_group_search counted eagle :
  attn spec = FullAttention counted -> GroupSearch p gs hl spec al cap eagle.
Proof.
  intros Ha. constructor. intros ml de _ [Hml _]. unfold find_longest_cache_hit. rewrite Ha.
  assert (Hw : wp (full_find_longest_cache_hit gs hl ml spec de al (1 * 1)) (fun c p' => p' = p /\
    exists n, table_ok gs c n (good_entry p spec (hashes_all hl) n) /\
      aligned (spec_block_size spec) al n /\
      (n = 0%nat \/ (Z.of_nat n + Z.of_nat (extra de)) * spec_block_size spec <= ml)) p).
  { apply (full_search p xs L H gs I Hgs Hgok hl ml spec de al (1 * 1) _ counted Ha Hbs Hal Hml).
    change (1 <? 1 * 1) with false. cbv iota. intros c n Ht [Hal' Hn] _. split; [done|]. exists n.
    split; [|split; [done|]].
    - eapply table_mono; [exact Ht|]. intros k g b _ Hb. split; [by right|done].
    - destruct Hn as [->|[Hn _]]; [by left|right]. apply le_maxb; [done|].
      unfold extra. destruct de; lia. }
  destruct (wp_returns _ _ _ Hw) as (c & p' & Hrun & -> & n & Hn). by exists c, n.
Qed.

Lemma window_group_search w eagle :
  attn spec = SlidingWindow w -> 0 < w -> (Z.to_nat (cap / spec_block_size spec) <= length (hashes_all hl))%nat ->
  GroupSearch p gs hl spec al cap eagle.
Proof.
  intros Ha Hwp Hlen. constructor. intros ml de _ [Hml Hcap]. unfold find_longest_cache_hit. rewrite Ha.
  assert (Hw : wp (window_find_longest_cache_hit gs hl ml spec de al 1 1) (fun c p' => p' = p /\
    exists n, table_ok gs c n (good_entry p spec (hashes_all hl) n) /\
      aligned (spec_block_size spec) al n /\
      (n = 0%nat \/ (Z.of_nat n + Z.of_nat (extra de)) * spec_block_size spec <= ml)) p).
  { assert (Hlen' : (Z.to_nat (ml / spec_block_size spec) <= length (hashes_all hl))%nat).
    { etransitivity; [|exact Hlen]. apply Z2Nat.inj_le; [apply Z.div_pos; lia..|].
      apply Z.div_le_mono; lia. }
    apply (window_search p xs L H gs I Hgs Hgok hl ml spec de al w _ Ha Hwp Hbs Hal Hml Hlen').
    intros c n Ht [Hal' Hn] _. split; [done|]. exists n. split; [|split; [done|]].
    - eapply table_mono; [exact Ht|]. intros k g b Hk [Hb Hh]. split; [done|]. intros Hne. apply Hh.
      split; [|done]. unfold needed, num_skipped in Hne. rewrite Ha in Hne. unfold window_need.
      pose proof (proj1 (cdiv_le_iff (w - 1) _ (cdiv (w - 1) (spec_block_size spec)) Hbs) ltac:(lia)).
      pose proof (cdiv_nonneg (w - 1) _ Hbs ltac:(lia)). nia.
    - destruct Hn as [->|[Hn _]]; [by left|right]. by apply le_maxb. }
  destruct (wp_returns _ _ _ Hw) as (c & p' & Hrun & -> & n & Hn). by exists c, n.
Qed.

(** Mamba reads one state, the last; its search ignores the EAGLE drop, so it
    keeps the promise only in groups without EAGLE. *)
Lemma mamba_scan_wp i Q :
  (i <= length (hashes_all hl))%nat ->
  (forall c n, table_ok gs c n (fun k g b => (b = null_block p \/ holds p (hashes_all hl) k g b) /\
       (n = S k -> holds p (hashes_all hl) k g b)) ->
     aligned (spec_block_size spec) al n -> (n <= i)%nat -> Q c p) ->
  wp (mamba_scan gs hl (spec_block_size spec) al i) Q p.
Proof.
  induction i as [|i IH]; intros Hi HQ; cbn [mamba_scan].
  { apply wp_ret, (HQ _ 0%nat); [apply table_empty|by apply aligned_0|lia]. }
  destruct (lookup_lt_is_Some_2 (hashes_all hl) i) as [h Hh]; [lia|].
  assert (Hrec : wp (mamba_scan gs hl (spec_block_size spec) al i) Q p).
  { apply IH; [lia|]. intros c n Ht Ha Hn. apply (HQ c n); [done|done|lia]. }
  apply wp_bind. eapply wp_hashes_get; [done|]. apply wp_bind.
  eapply (wp_lookup p xs L H gs I Hgs Hgok); [|intros _; exact Hrec].
  intros c0 cs Hcs _. apply wp_bind.
  assert (Hdone : aligned (spec_block_size spec) al (S i) ->
    Q (append_each (replicate (length gs) (replicate i (null_block p))) (c0 :: cs)) p).
  { intros Ha. apply (HQ _ (S i)); [|done|lia]. apply table_append.
    - apply table_replicate. intros k g Hk. split; [by left|]. intros. lia.
    - eapply Forall2_impl; [exact Hcs|]. intros g b Hb.
      assert (holds p (hashes_all hl) i g b) by (by exists h). by split; [right|]. }
  destruct (Z.eqb_spec (spec_block_size spec) al) as [E|E].
  - apply wp_ret, wp_bind, wp_get, wp_ret, Hdone. by left.
  - rewrite (proj2 (Z.eqb_neq al 0)) by lia. apply wp_ret.
    destruct (Z.eqb_spec (((Z.of_nat i + 1) * spec_block_size spec) mod al) 0) as [Em|Em]; cbn [negb].
    + apply wp_bind, wp_get, wp_ret, Hdone. right. rewrite Nat2Z.inj_succ. exact Em.
    + exact Hrec.
Qed.

Lemma mamba_group_search align sp :
  attn spec = Mamba align sp -> (Z.to_nat (cap / spec_block_size spec) <= length (hashes_all hl))%nat ->
  GroupSearch p gs hl spec al cap false.
Proof.
  intros Ha Hlen. constructor. intros ml de Hde [Hml Hcap].
  assert (de = false) as -> by (destruct de; [by discriminate Hde|done]).
  unfold find_longest_cache_hit, mamba_find_longest_cache_hit. rewrite Ha.
  set (Q := fun (c : list (list ref)) p' => p' = p /\
    exists n, table_ok gs c n (good_entry p spec (hashes_all hl) n) /\
      aligned (spec_block_size spec) al n /\
      (n = 0%nat \/ (Z.of_nat n + Z.of_nat (extra false)) * spec_block_size spec <= ml)).
  match goal with |- exists c n, ?m p = _ /\ _ => assert (Hw : wp m Q p) end.
  { apply wp_bind, wp_assert; [done|]. apply wp_bind, wp_assert; [done|].
    unfold floordiv. rewrite (proj2 (Z.eqb_neq _ 0)) by lia. apply wp_bind, wp_ret.
    apply mamba_scan_wp.
    { etransitivity; [|exact Hlen]. apply Z2Nat.inj_le; [apply Z.div_pos; lia..|].
      apply Z.div_le_mono; lia. }
    intros c n Ht Hal' Hn. split; [done|]. exists n. split; [|split; [done|]].
    - eapply table_mono; [exact Ht|]. intros k g b Hk [Hb Hh]. split; [done|]. intros Hne. apply Hh.
      unfold needed, num_skipped in Hne. rewrite Ha in Hne. nia.
    - right. apply le_maxb; [done|]. simpl. lia. }
  destruct (wp_returns _ _ _ Hw) as (c & p' & Hrun & -> & n & Hn). by exists c, n.
Qed.
End instances.

(** ** Recording the hits of a group *)

Lemma Forall2_impl_in {A B} (P Q : A -> B -> Prop) l k :
  Forall2 P l k -> (forall x y, x ∈ l -> P x y -> Q x y) -> Forall2 Q l k.
Proof.
  induction 1 as [|x y l k Hxy _ IH]; intros HQ; constructor; [apply HQ; [set_solver|done]|].
  apply IH. intros x' y' Hin. apply HQ. set_solver.
Qed.

Lemma record_hits_spec {A} (ids : list nat) : forall (hits by_group : list A),
  NoDup ids -> length ids = length hits -> (forall i, i ∈ ids -> (i < length by_group)%nat) ->
  length (record_hits ids hits by_group) = length by_group /\
  Forall2 (fun i l => record_hits ids hits by_group !! i = Some l) ids hits /\
  (forall j, j ∉ ids -> record_hits ids hits by_group !! j = by_group !! j).
Proof.
  unfold record_hits. induction ids as [|i ids IH]; intros [|h hits] by_group Hnd Hlen Hin; try done.
  apply NoDup_cons in Hnd as [Hni Hnd]. simpl in *.
  destruct (IH hits (<[i := h]> by_group) Hnd ltac:(lia)) as (E1 & E2 & E3).
  { intros j Hj. rewrite length_insert. apply Hin. set_solver. }
  rewrite length_insert in E1. split; [done|]. split.
  - constructor; [|done]. rewrite E3 by done. apply list_lookup_insert_eq. apply Hin. set_solver.
  - intros j Hj. rewrite E3 by set_solver. apply list_lookup_insert_ne. set_solver.
Qed.

(** ** The loop *)

Section loop.
Context (p : BlockPool) (hbs al cap : Z) (bh : list bytes) (num_groups : nat).
Context (hl_of : SpecGroup -> BlockHashList).

(** What the loop needs of a group. *)
Record good_group (g : SpecGroup) : Prop := {
  gg_nonempty : group_ids g <> [];
  gg_range : forall i, i ∈ group_ids g -> (i < num_groups)%nat;
  gg_nodup : NoDup (group_ids g);
  gg_bs : 0 < spec_block_size (sg_spec g);
  gg_al : al mod spec_block_size (sg_spec g) = 0;
  gg_hl : forall s : BlockPool, group_block_hashes hbs bh (sg_spec g) s = (Ok (hl_of g), s);
  gg_search : GroupSearch p (group_ids_z g) (hl_of g) (sg_spec g) al cap (sg_use_eagle g)
}.
Hypothesis Hal : 0 < al.

(** The blocks of group [g] are recorded, [n] per row. *)
Definition recorded (by_group : list (option (list ref))) (g : SpecGroup) (n : nat) : Prop :=
  exists c, table_ok (group_ids_z g) c n (good_entry p (sg_spec g) (hashes_all (hl_of g)) n) /\
    Forall2 (fun i l => by_group !! i = Some (Some l)) (group_ids g) c.

Definition tokens (g : SpecGroup) (n : nat) : Z := Z.of_nat n * spec_block_size (sg_spec g).

Lemma recorded_ext by1 by2 g n :
  (forall i, i ∈ group_ids g -> by2 !! i = by1 !! i) -> recorded by1 g n -> recorded by2 g n.
Proof.
  intros He (c & Ht & Hc). exists c. split; [done|].
  eapply Forall2_impl_in; [exact Hc|]. intros i l Hi Hl. cbn beta. by rewrite He.
Qed.

Lemma aligned_tokens g n : good_group g -> aligned (spec_block_size (sg_spec g)) al n ->
  tokens g n mod al = 0.
Proof.
  intros G [E|E]; [|exact E]. unfold tokens. rewrite E. by apply Z.mod_mul; lia.
Qed.

(** One round of the [for] loop that searches. *)
Lemma check_group_search st idx g Q :
  good_group g -> length (hit_blocks_by_group st) = num_groups ->
  0 <= curr_hit_length st <= cap ->
  (is_full (sg_spec g) = true -> exists i, head (group_ids g) = Some i /\ hit_blocks_by_group st !! i = Some None) ->
  (forall by_group n v lg, recorded by_group g n -> tokens g n mod al = 0 ->
     0 <= tokens g n <= curr_hit_length st -> length by_group = num_groups ->
     (forall i, i ∉ group_ids g -> by_group !! i = hit_blocks_by_group st !! i) ->
     Q (mkHit by_group (tokens g n) lg v) p) ->
  wp (check_group hbs al bh cap st (idx, g)) Q p.
Proof.
  intros G Hlen Hcurr Hfull HQ. unfold check_group. cbn [fst snd].
  destruct (group_ids g) as [|i0 ids] eqn:Eids; [by destruct (gg_nonempty g G)|].
  assert (Hi0 : (i0 < num_groups)%nat) by (apply (gg_range g G); rewrite Eids; set_solver).
  apply wp_bind, wp_ret. rewrite <- Hlen in Hi0. apply lookup_lt_is_Some in Hi0 as [cb Hcb].
  rewrite Hcb. apply wp_bind, wp_ret.
  assert (Hno : is_full (sg_spec g) && is_some cb = false).
  { destruct (is_full (sg_spec g)); [|done]. destruct (Hfull eq_refl) as (i & [= <-] & Hi).
    rewrite Hcb in Hi. by injection Hi as ->. }
  rewrite Hno. cbv zeta. set (de := sg_use_eagle g && _). set (ml := if de then _ else _).
  apply wp_bind. unfold wp at 1. rewrite (gg_hl g G). apply wp_bind.
  pose proof (gg_bs g G) as Hbs.
  assert (Hml : 0 <= ml <= cap) by (unfold ml; destruct de; lia).
  destruct (@group_search _ _ _ _ _ _ _ (gg_search g G) ml de) as (c & n & Hrun & Ht & Ha & Hn); [|done|].
  { unfold de. intros Hd. by apply andb_true_iff in Hd as [? _]. }
  unfold wp at 1. rewrite Hrun. apply wp_bind.
  assert (Hgz : group_ids_z g <> []) by (unfold group_ids_z; by rewrite Eids).
  eapply wp_first_len; [exact Ht|done|]. apply wp_ret.
  assert (Hlc : length (i0 :: ids) = length (Some <$> c)).
  { rewrite length_fmap. apply Forall2_length in Ht. unfold group_ids_z in Ht. rewrite length_fmap, Eids in Ht. done. }
  rewrite <- Eids in *.
  destruct (record_hits_spec (group_ids g) (Some <$> c) (hit_blocks_by_group st) (gg_nodup g G) Hlc)
    as (E1 & E2 & E3).
  { intros i Hi. rewrite Hlen. by apply (gg_range g G). }
  apply HQ.
  - exists c. split; [exact Ht|]. by apply Forall2_fmap_r in E2.
  - by apply aligned_tokens.
  - unfold tokens, ml in *. destruct Hn as [->|Hn]; [lia|]. destruct de; simpl in Hn; lia.
  - congruence.
  - exact E3.
Qed.

(** The groups after the first: none is full attention. *)
Lemma check_rest rest Q : forall idx st,
  Forall good_group rest -> Forall (fun g => is_full (sg_spec g) = false) rest ->
  NoDup (concat (group_ids <$> rest)) ->
  length (hit_blocks_by_group st) = num_groups -> 0 <= curr_hit_length st <= cap ->
  curr_hit_length st mod al = 0 ->
  (forall st', length (hit_blocks_by_group st') = num_groups ->
     0 <= curr_hit_length st' <= curr_hit_length st -> curr_hit_length st' mod al = 0 ->
     (forall g, g ∈ rest -> exists n, recorded (hit_blocks_by_group st') g n /\
        curr_hit_length st' <= tokens g n <= curr_hit_length st) ->
     (forall i, i ∉ concat (group_ids <$> rest) -> hit_blocks_by_group st' !! i = hit_blocks_by_group st !! i) ->
     (rest = [] -> curr_hit_length st' = curr_hit_length st) ->
     (forall g, rest = [g] -> exists n, recorded (hit_blocks_by_group st') g n /\
        curr_hit_length st' = tokens g n) ->
     Q st' p) ->
  wp (for_fold (check_group hbs al bh cap) (imap (fun i g => ((idx + i)%nat, g)) rest) st) Q p.
Proof.
  induction rest as [|g rest IH]; intros idx st Hg Hf Hnd Hlen Hcurr Hmod HQ; simpl.
  { apply wp_ret, HQ; try done; [lia|]. set_solver. }
  apply Forall_cons in Hg as [G Hg]. apply Forall_cons in Hf as [F Hf].
  rewrite fmap_cons in Hnd. cbn [concat] in Hnd. apply NoDup_app in Hnd as (Hnd1 & Hdis & Hnd2).
  rewrite Nat.add_0_r. apply wp_bind. apply check_group_search; [done|done|done|congruence|].
  intros by_group n v lg Hrec Hm Htk Hlen' Hout.
  rewrite (imap_ext _ (fun i g => ((S idx + i)%nat, g))) by (intros; simpl; f_equal; lia).
  apply IH; try done; [cbn [curr_hit_length]; lia|]. cbn [hit_blocks_by_group curr_hit_length].
  intros st' Hl Hc Hcm Hall Hout' Hnil Hlast.
  assert (Hrec' : recorded (hit_blocks_by_group st') g n).
  { eapply recorded_ext; [|exact Hrec]. intros i Hi. apply Hout'. by apply Hdis. }
  apply HQ; [done|lia|done| | |done|].
  - intros g' [->|Hin]%elem_of_cons; [exists n; split; [done|lia]|].
    destruct (Hall g' Hin) as (n' & ? & ?). exists n'. split; [done|lia].
  - intros i Hi. rewrite fmap_cons in Hi. cbn [concat] in Hi. rewrite Hout', Hout by set_solver. done.
  - intros g' [= <- ->]. exists n. split; [done|]. by apply Hnil.
Qed.

Context (g0 : SpecGroup) (rest : list SpecGroup).
Hypothesis Hgroups : Forall good_group (g0 :: rest).
Hypothesis Hrest : Forall (fun g => is_full (sg_spec g) = false) rest.
Hypothesis Hnodup : NoDup (concat (group_ids <$> g0 :: rest)).

(** At the head of the [while] loop: nothing is recorded yet, or the hit is
    aligned and the full-attention group, looked up once, covers it. *)
Record at_head (hit : Z) (by_group : list (option (list ref))) : Prop := {
  ah_len : length by_group = num_groups;
  ah_hit : 0 <= hit <= cap;
  ah_first : (forall i, (i < num_groups)%nat -> by_group !! i = Some None) \/
             (hit mod al = 0 /\ (is_full (sg_spec g0) = true ->
                exists n, recorded by_group g0 n /\ hit <= tokens g0 n))
}.

(** After a round of the [for] loop that ends with length [curr]. *)
Record after_pass (hit curr : Z) (by_group : list (option (list ref))) : Prop := {
  ap_len : length by_group = num_groups;
  ap_curr : 0 <= curr <= hit;
  ap_mod : curr mod al = 0;
  ap_first : exists n, recorded by_group g0 n /\ curr <= tokens g0 n /\
               (is_full (sg_spec g0) = false -> tokens g0 n <= hit);
  ap_rest : forall g, g ∈ rest -> exists n, recorded by_group g n /\ curr <= tokens g n <= hit;
  ap_simple : forall g, rest = [g] -> exists n, recorded by_group g n /\ curr = tokens g n
}.

(** From the result of the first group to the end of the round. *)
Lemma finish_pass hit st n0 Q :
  length (hit_blocks_by_group st) = num_groups -> 0 <= curr_hit_length st <= hit -> hit <= cap ->
  curr_hit_length st mod al = 0 -> recorded (hit_blocks_by_group st) g0 n0 ->
  curr_hit_length st <= tokens g0 n0 -> (is_full (sg_spec g0) = false -> tokens g0 n0 <= hit) ->
  (forall st', after_pass hit (curr_hit_length st') (hit_blocks_by_group st') -> Q st' p) ->
  wp (for_fold (check_group hbs al bh cap) (imap (fun i g => (S i, g)) rest) st) Q p.
Proof.
  intros Hlen Hc Hcap Hm Hr0 Ht0 Hf0 HQ. apply Forall_cons in Hgroups as [G0 Hg].
  rewrite fmap_cons in Hnodup. cbn [concat] in Hnodup. apply NoDup_app in Hnodup as (_ & Hdis & Hnd).
  apply (check_rest rest Q 1 st Hg Hrest Hnd Hlen ltac:(lia) Hm).
  intros st' Hl Hc' Hm' Hall Hout _ Hs. apply HQ. constructor; try done; [lia| |].
  - exists n0. split; [|split; [lia|done]]. eapply recorded_ext; [|exact Hr0].
    intros i Hi. apply Hout. by apply Hdis.
  - intros g Hin. destruct (Hall g Hin) as (n & ? & ?). exists n. split; [done|lia].
Qed.

Lemma check_groups_spec hit st Q :
  at_head hit (hit_blocks_by_group st) -> curr_hit_length st = hit ->
  (forall st', after_pass hit (curr_hit_length st') (hit_blocks_by_group st') -> Q st' p) ->
  wp (check_groups hbs al bh cap (g0 :: rest) st) Q p.
Proof.
  intros [Hlen Hhit Hfirst] Hcurr HQ. unfold check_groups. cbn [imap].
  pose proof (Forall_inv Hgroups) as G0. pose proof (gg_bs g0 G0) as Hbs.
  destruct (group_ids g0) as [|i0 ids] eqn:Eids; [by destruct (gg_nonempty g0 G0)|].
  assert (Hi0 : (i0 < num_groups)%nat) by (apply (gg_range g0 G0); rewrite Eids; set_solver).
  apply wp_bind.
  assert (Hsearch : (is_full (sg_spec g0) = true -> exists i, head (group_ids g0) = Some i /\
      hit_blocks_by_group st !! i = Some None) ->
    wp (check_group hbs al bh cap st (0%nat, g0)) (fun b s' =>
      wp (for_fold (check_group hbs al bh cap) (imap (fun i g => (S i, g)) rest) b) Q s') p).
  { intros Hnone. apply check_group_search; [done|done|lia|done|].
    intros by_group n v lg Hrec Hm Htk Hlen' _.
    eapply finish_pass with (hit := hit); cbn [hit_blocks_by_group curr_hit_length];
      [done|lia|lia|done|exact Hrec|lia|lia|done]. }
  destruct Hfirst as [Hnone|[Hm Hrec]].
  { apply Hsearch. intros _. exists i0. rewrite Eids. split; [done|by apply Hnone]. }
  destruct (is_full (sg_spec g0)) eqn:Efull; [|by apply Hsearch].
  destruct (Hrec eq_refl) as (n & Hr & Hle). clear Hsearch Hrec.
  unfold check_group. cbn [fst snd]. rewrite Eids. apply wp_bind, wp_ret.
  destruct Hr as (c & Ht & Hc). pose proof Hc as Hc'. rewrite Eids in Hc'.
  apply Forall2_cons_inv_l in Hc' as (l & c' & Hl & _ & _). rewrite Hl. apply wp_bind, wp_ret.
  rewrite Efull. cbn [andb is_some]. unfold floordiv. rewrite (proj2 (Z.eqb_neq _ 0)) by lia.
  apply wp_bind, wp_ret, wp_ret.
  assert (Hq : hit / spec_block_size (sg_spec g0) * spec_block_size (sg_spec g0) = hit).
  { pose proof (gg_al g0 G0) as Hdiv. apply Z.mod_divide in Hm as [z Hz]; [|lia].
    apply Z.mod_divide in Hdiv as [y Hy]; [|lia].
    assert (Hmm : hit mod spec_block_size (sg_spec g0) = 0).
    { rewrite Hz, Hy, Z.mul_assoc. apply Z.mod_mul. lia. }
    pose proof (Z.div_mod hit (spec_block_size (sg_spec g0)) ltac:(lia)). lia. }
  rewrite Hcurr, Hq.
  eapply finish_pass with (hit := hit); cbn [hit_blocks_by_group curr_hit_length];
    [done|lia|lia|done|exists c; by split|lia|congruence|done].
Qed.

(** At the end: every group's blocks make exactly the hit, those of full
    attention at least. *)
Record hit_found (h : Z) (by_group : list (option (list ref))) : Prop := {
  hf_len : length by_group = num_groups;
  hf_range : 0 <= h <= cap;
  hf_mod : h mod al = 0;
  hf_first : exists n, recorded by_group g0 n /\ h <= tokens g0 n /\
               (is_full (sg_spec g0) = false -> tokens g0 n = h);
  hf_rest : forall g, g ∈ rest -> exists n, recorded by_group g n /\ tokens g n = h
}.

Lemma hit_loop_spec simple Q : forall fuel hit st,
  (Z.to_nat hit < fuel)%nat -> at_head hit (hit_blocks_by_group st) ->
  (simple = true -> is_full (sg_spec g0) = true /\ exists g, rest = [g]) ->
  (forall h st', hit_found h (hit_blocks_by_group st') -> Q (h, st') p) ->
  wp (hit_loop hbs al bh cap fuel simple (g0 :: rest) hit st) Q p.
Proof.
  induction fuel as [|fuel IH]; intros hit st Hf Hh Hs HQ; [lia|]. cbn [hit_loop].
  apply wp_bind. eapply check_groups_spec; [exact Hh|done|].
  intros st' [Hl Hc Hm (n0 & Hr0 & Ht0 & Hn0) Hr Hsim]. pose proof (ah_hit _ _ Hh) as Hcap.
  destruct (Z.leb_spec hit (curr_hit_length st')) as [Hle|Hlt].
  - apply wp_ret, HQ. assert (Heq : curr_hit_length st' = hit) by lia. rewrite Heq in *.
    constructor; try done.
    + exists n0. split; [done|]. split; [done|]. intros Hnf. specialize (Hn0 Hnf). lia.
    + intros g Hin. destruct (Hr g Hin) as (n & ? & ?). exists n. split; [done|lia].
  - destruct simple.
    + destruct (Hs eq_refl) as (Hfull & g & Eg). apply wp_ret, HQ. constructor; try done; [lia| |].
      * exists n0. split; [done|]. split; [done|congruence].
      * intros g' Hg'. rewrite Eg in Hg'. apply list_elem_of_singleton in Hg' as ->.
        destruct (Hsim g Eg) as (n & ? & ?). by exists n.
    + apply IH; [lia| |done|done]. constructor; [done|lia|]. right. split; [done|].
      intros _. by exists n0.
Qed.

(** ** Truncation and the result *)

Lemma take_full_spec k ids : forall (by_group : list (option (list ref))) c,
  NoDup ids -> Forall2 (fun i l => by_group !! i = Some (Some l)) ids c ->
  let by' := foldl (fun acc i => alter (fmap (take k)) i acc) by_group ids in
  length by' = length by_group /\
  Forall2 (fun i l => by' !! i = Some (Some l)) ids (take k <$> c) /\
  (forall j, j ∉ ids -> by' !! j = by_group !! j).
Proof.
  induction ids as [|i ids IH]; intros by_group c Hnd Hc; simpl.
  { apply Forall2_nil_inv_l in Hc as ->. done. }
  apply NoDup_cons in Hnd as [Hni Hnd]. apply Forall2_cons_inv_l in Hc as (l & c' & Hl & Hc & ->).
  destruct (IH (alter (fmap (take k)) i by_group) c' Hnd) as (E1 & E2 & E3).
  { eapply Forall2_impl_in; [exact Hc|]. intros j l' Hj Hl'. cbn beta.
    rewrite list_lookup_alter_ne; [done|]. by intros ->. }
  rewrite length_alter in E1. split; [done|]. split.
  - constructor; [|done]. rewrite E3 by done. by rewrite list_lookup_alter_eq, Hl.
  - intros j Hj. rewrite E3 by set_solver. apply list_lookup_alter_ne. set_solver.
Qed.

(** The blocks of [g] in a result are good for a hit of [h] tokens. *)
Definition group_result (h : Z) (blocks : list (list ref)) (g : SpecGroup) : Prop :=
  exists c n, tokens g n = h /\
    table_ok (group_ids_z g) c n (good_entry p (sg_spec g) (hashes_all (hl_of g)) n) /\
    Forall2 (fun i l => blocks !! i = Some l) (group_ids g) c.

Lemma recorded_result by_group g n :
  recorded by_group g n -> group_result (tokens g n) (default [] <$> by_group) g.
Proof.
  intros (c & Ht & Hc). exists c, n. split; [done|]. split; [done|].
  eapply Forall2_impl; [exact Hc|]. intros i l Hl. by rewrite list_lookup_fmap, Hl.
Qed.

Lemma truncate_spec h by_group Q :
  hit_found h by_group ->
  (forall by', length by' = num_groups ->
     (forall g, g ∈ g0 :: rest -> group_result h (default [] <$> by') g) -> Q by' p) ->
  wp (truncate_full (g0 :: rest) h by_group) Q p.
Proof.
  intros [Hl Hh Hm (n0 & Hr0 & Hle & Hn0) Hr] HQ. unfold truncate_full. simpl head.
  pose proof (Forall_inv Hgroups) as G0. pose proof (gg_bs g0 G0) as Hbs.
  apply wp_bind, wp_ret. destruct (is_full (sg_spec g0)) eqn:Ef.
  2: { apply wp_ret, HQ; [done|]. intros g [->|Hin]%elem_of_cons.
       - rewrite <- (Hn0 eq_refl). by apply recorded_result.
       - destruct (Hr g Hin) as (n & ? & <-). by apply recorded_result. }
  unfold floordiv. rewrite (proj2 (Z.eqb_neq _ 0)) by lia. apply wp_bind, wp_ret, wp_ret.
  set (k := Z.to_nat (h / spec_block_size (sg_spec g0))). destruct Hr0 as (c & Ht & Hc).
  destruct (take_full_spec k (group_ids g0) by_group c (gg_nodup g0 G0) Hc) as (E1 & E2 & E3).
  assert (Hdis : forall g i, g ∈ rest -> i ∈ group_ids g -> i ∉ group_ids g0).
  { intros g i Hg Hi Hi0. rewrite fmap_cons in Hnodup. cbn [concat] in Hnodup.
    apply NoDup_app in Hnodup as (_ & Hdis & _). apply (Hdis i Hi0), list_elem_of_In, in_concat.
    exists (group_ids g). rewrite <- !list_elem_of_In. split; [|done]. apply list_elem_of_fmap. by exists g. }
  apply HQ; [congruence|]. intros g [->|Hin]%elem_of_cons.
  - assert (Hmm : h mod spec_block_size (sg_spec g0) = 0).
    { pose proof (gg_al g0 G0) as Hdiv. apply Z.mod_divide in Hm as [z Hz]; [|lia].
      apply Z.mod_divide in Hdiv as [y Hy]; [|lia]. rewrite Hz, Hy, Z.mul_assoc. apply Z.mod_mul. lia. }
    assert (Hk : Z.of_nat k * spec_block_size (sg_spec g0) = h).
    { pose proof (Z.div_mod h (spec_block_size (sg_spec g0)) ltac:(lia)).
      pose proof (Z.div_pos h _ (proj1 Hh) Hbs). unfold k. rewrite Z2Nat.id by done. lia. }
    assert (Hkn : (k <= n0)%nat) by (unfold tokens in Hle; nia).
    exists (take k <$> c), k. split; [done|]. split.
    + pose proof (table_take _ _ _ _ k Ht) as Htk. rewrite Nat.min_l in Htk by done.
      eapply table_mono; [exact Htk|]. intros j g' b Hj [Hb Hnd]. split; [done|]. intros _. apply Hnd.
      unfold needed, num_skipped. unfold is_full in Ef. destruct (attn (sg_spec g0)); try done. nia.
    + eapply Forall2_impl; [exact E2|]. intros i l Hi. by rewrite list_lookup_fmap, Hi.
  - destruct (Hr g Hin) as (n & Hrec & <-). apply recorded_result. eapply recorded_ext; [|exact Hrec].
    intros i Hi. apply E3. by eapply Hdis.
Qed.

Lemma hybrid_find_spec :
  0 <= cap ->
  exists blocks h u, hybrid_find_longest_cache_hit hbs al bh cap num_groups (g0 :: rest) p
      = (Ok (blocks, h, u), p) /\
    length blocks = num_groups /\ 0 <= h <= cap /\ h mod al = 0 /\
    forall g, g ∈ g0 :: rest -> group_result h blocks g.
Proof.
  intros Hcap. set (Q := fun (r : list (list ref) * Z * Z) p' => p' = p /\ length r.1.1 = num_groups /\
    0 <= r.1.2 <= cap /\ r.1.2 mod al = 0 /\ forall g, g ∈ g0 :: rest -> group_result r.1.2 r.1.1 g).
  assert (Hw : wp (hybrid_find_longest_cache_hit hbs al bh cap num_groups (g0 :: rest)) Q p).
  { unfold hybrid_find_longest_cache_hit. apply wp_bind, wp_ret. apply wp_bind.
    apply hit_loop_spec; [lia| | |].
    - constructor; [apply length_replicate|simpl; lia|left]. intros i Hi. simpl.
      by apply lookup_replicate.
    - intros [Hlen Hfull]%andb_true_iff. split; [done|]. apply Nat.eqb_eq in Hlen.
      destruct rest as [|g [|? ?]]; try done. by exists g.
    - intros h st' Hf. apply wp_bind. cbn [fst snd]. apply truncate_spec; [exact Hf|].
      intros by' Hl Hall. apply wp_ret. split; [done|]. cbn [fst snd].
      split; [by rewrite length_fmap|]. split; [apply (hf_range _ _ Hf)|].
      split; [apply (hf_mod _ _ Hf)|done]. }
  destruct (wp_returns _ _ _ Hw) as ([[blocks h] u] & p' & Hrun & -> & ? & ? & ? & ?).
  by exists blocks, h, u.
Qed.
End loop.

End HybridHit.
