(* ===== verification/CoordinatorHit.v ===== *)
(** * CoordinatorHit

    The cache hits of a hybrid coordinator as the engine builds it: how the
    KV-cache groups are split by spec, and what a hit promises to each of them;
    and the configurations for which the promise fails. *)

From S2P Require Import Prelude FreeQueue Request BlockHash BlockPool SingleType SingleTypeSafety CacheHit Coordinator CoordinatorSafety HybridHit KVCacheManager KVSafety.

Module CoordinatorHit.
Import FreeQueue Request BlockHash BlockPool SingleType SingleTypeSafety CacheHit Coordinator
  CoordinatorSafety HybridHit KVCacheManager KVSafety.
#[local] Open Scope Z_scope.

(** ** Splitting the groups by spec *)

Definition spec_key (g : ManagedGroupSpec) : KVCacheSpec * bytes * bool :=
  (g_spec g, g_other g, g_mla_sharded g).

Lemma same_spec_key g1 g2 : same_spec g1 g2 = true <-> spec_key g1 = spec_key g2.
Proof.
  unfold same_spec, spec_key. rewrite !andb_true_iff, !bool_decide_eq_true, eqb_true_iff.
  split; [intros [[-> ->] ->]; done|intros [=]; done].
Qed.

(** [sgs] splits the groups below [i]: every index once, under its own spec, and
    no spec twice. *)
Record splits (groups : list ManagedGroupSpec) (eagle : list nat) (i : nat) (sgs : list SpecGroup) : Prop := {
  sp_perm : concat (group_ids <$> sgs) ≡ₚ seq 0 i;
  sp_nonempty : forall sg, sg ∈ sgs -> group_ids sg <> [];
  sp_spec : forall sg j, sg ∈ sgs -> j ∈ group_ids sg ->
    exists g, groups !! j = Some g /\ spec_key (sg_group sg) = spec_key g;
  sp_keys : NoDup ((fun sg => spec_key (sg_group sg)) <$> sgs);
  sp_eagle : forall sg, sg ∈ sgs -> sg_use_eagle sg = true -> exists j, j ∈ group_ids sg /\ j ∈ eagle
}.

Lemma elem_of_add i g e sgs sg : sg ∈ add_to_groups i g e sgs ->
  sg ∈ sgs \/ sg = mkSpecGroup g [i] e \/
  exists sg0, sg0 ∈ sgs /\ spec_key (sg_group sg0) = spec_key g /\
    sg = mkSpecGroup (sg_group sg0) (group_ids sg0 ++ [i]) (sg_use_eagle sg0 || e).
Proof.
  induction sgs as [|s sgs IH]; simpl.
  - intros ->%list_elem_of_singleton. auto.
  - destruct (same_spec (sg_group s) g) eqn:E.
    + intros [->|?]%elem_of_cons; [|set_solver]. right. right. exists s.
      split; [set_solver|]. split; [by apply same_spec_key|done].
    + intros [->|Hin]%elem_of_cons; [set_solver|]. destruct (IH Hin) as [?|[?|(s0 & ? & ? & ?)]].
      * set_solver.
      * auto.
      * right. right. exists s0. split; [set_solver|done].
Qed.

Lemma add_perm i g e sgs :
  concat (group_ids <$> add_to_groups i g e sgs) ≡ₚ concat (group_ids <$> sgs) ++ [i].
Proof.
  induction sgs as [|s sgs IH]; [done|]. cbn [add_to_groups].
  destruct (same_spec _ _); rewrite !fmap_cons; cbn [concat group_ids].
  - rewrite <- !app_assoc. f_equiv. apply Permutation_app_comm.
  - by rewrite IH, app_assoc.
Qed.

Lemma add_keys i g e sgs :
  NoDup ((fun sg => spec_key (sg_group sg)) <$> sgs) ->
  NoDup ((fun sg => spec_key (sg_group sg)) <$> add_to_groups i g e sgs).
Proof.
  assert (Hk : forall x, x ∈ ((fun sg => spec_key (sg_group sg)) <$> add_to_groups i g e sgs) ->
            x ∈ ((fun sg => spec_key (sg_group sg)) <$> sgs) \/ x = spec_key g).
  { intros x (sg & -> & Hin)%list_elem_of_fmap.
    destruct (elem_of_add _ _ _ _ _ Hin) as [?|[->|(s0 & Hs0 & Hk & ->)]].
    - left. apply list_elem_of_fmap. by exists sg.
    - by right.
    - by right. }
  revert Hk. induction sgs as [|s sgs IH]; intros _ Hnd; [simpl; apply NoDup_singleton|].
  cbn [add_to_groups]. rewrite fmap_cons in Hnd. apply NoDup_cons in Hnd as [Hni Hnd].
  destruct (same_spec (sg_group s) g) eqn:E; rewrite fmap_cons; apply NoDup_cons; [done|].
  split.
  - intros (sg & Hsg & Hin)%list_elem_of_fmap.
    destruct (elem_of_add _ _ _ _ _ Hin) as [Hin'|[->|(s0 & Hs0 & Hk & ->)]].
    + apply Hni, list_elem_of_fmap. by exists sg.
    + apply not_true_iff_false in E. apply E. by apply same_spec_key.
    + apply Hni, list_elem_of_fmap. exists s0. done.
  - apply IH; [|done]. intros x (sg & -> & Hin)%list_elem_of_fmap.
    destruct (elem_of_add _ _ _ _ _ Hin) as [?|[->|(s0 & ? & ? & ->)]]; [|by right|by right].
    left. apply list_elem_of_fmap. by exists sg.
Qed.

Lemma add_splits groups eagle i g sgs :
  groups !! i = Some g -> splits groups eagle i sgs ->
  splits groups eagle (S i) (add_to_groups i g (bool_decide (i ∈ eagle)) sgs).
Proof.
  intros Hg [H1 H2 H3 H4 H5]. constructor.
  - rewrite add_perm, H1. by rewrite seq_S.
  - intros sg Hin. destruct (elem_of_add _ _ _ _ _ Hin) as [?|[->|(s0 & ? & ? & ->)]]; [auto|done|].
    simpl. by destruct (group_ids s0).
  - intros sg j Hin Hj. destruct (elem_of_add _ _ _ _ _ Hin) as [?|[->|(s0 & ? & Hk & ->)]]; [auto| |].
    + apply list_elem_of_singleton in Hj as ->. by exists g.
    + cbn [group_ids sg_group] in *. apply elem_of_app in Hj as [Hj| ->%list_elem_of_singleton]; [auto|].
      by exists g.
  - by apply add_keys.
  - intros sg Hin He. destruct (elem_of_add _ _ _ _ _ Hin) as [?|[->|(s0 & ? & Hk & ->)]]; [auto| |].
    + exists i. simpl in *. apply bool_decide_eq_true in He. set_solver.
    + simpl in *. apply orb_true_iff in He as [He|He%bool_decide_eq_true].
      * destruct (H5 s0 ltac:(done) He) as (j & ? & ?). exists j. set_solver.
      * exists i. set_solver.
Qed.

Lemma split_groups_splits groups eagle : forall gs i sgs,
  drop i groups = gs -> splits groups eagle i sgs ->
  splits groups eagle (i + length gs) (split_groups i gs eagle sgs).
Proof.
  induction gs as [|g gs IH]; intros i sgs Hd Hs; simpl; [by rewrite Nat.add_0_r|].
  replace (i + S (length gs))%nat with (S i + length gs)%nat by lia. apply IH.
  - rewrite <- Nat.add_1_r, <- drop_drop, Hd. done.
  - apply add_splits; [|done]. by rewrite <- (Nat.add_0_r i), <- lookup_drop, Hd.
Qed.

Lemma all_groups_split groups eagle :
  splits groups eagle (length groups) (split_groups 0 groups eagle []).
Proof.
  apply (split_groups_splits groups eagle groups 0 []); [done|].
  constructor; [done| | |constructor|]; intros sg; intros; by match goal with H : _ ∈ [] |- _ => apply not_elem_of_nil in H end.
Qed.

Lemma full_first_perm sgs : full_first sgs ≡ₚ sgs.
Proof.
  unfold full_first. induction sgs as [|s sgs IH]; [done|]. simpl.
  destruct (is_full (sg_spec s)); simpl; [by f_equiv|].
  rewrite <- Permutation_middle. by f_equiv.
Qed.

Lemma splits_perm groups eagle i sgs sgs' : sgs ≡ₚ sgs' -> splits groups eagle i sgs -> splits groups eagle i sgs'.
Proof.
  intros Hp [H1 H2 H3 H4 H5]. constructor.
  - by rewrite <- Hp.
  - intros sg Hin. apply H2. by rewrite Hp.
  - intros sg j Hin. apply H3. by rewrite Hp.
  - by rewrite <- Hp.
  - intros sg Hin. apply H5. by rewrite Hp.
Qed.

(** After the first group of [full_first] no group is full attention, when all
    full-attention groups share their spec. *)
Lemma full_first_rest g0 rest sgs :
  full_first sgs = g0 :: rest ->
  NoDup ((fun sg => spec_key (sg_group sg)) <$> sgs) ->
  (forall s1 s2, s1 ∈ sgs -> s2 ∈ sgs -> is_full (sg_spec s1) = true -> is_full (sg_spec s2) = true ->
     spec_key (sg_group s1) = spec_key (sg_group s2)) ->
  Forall (fun g => is_full (sg_spec g) = false) rest.
Proof.
  unfold full_first. intros He Hnd Hsame.
  assert (Hno : Forall (fun g => is_full (sg_spec g) = false)
                  (List.filter (fun g => negb (is_full (sg_spec g))) sgs)).
  { apply Forall_forall. intros g Hin. apply list_elem_of_In, filter_In in Hin as [_ Hn].
    by apply negb_true_iff in Hn. }
  assert (Hfull : forall g, g ∈ List.filter (fun g => is_full (sg_spec g)) sgs -> g ∈ sgs /\ is_full (sg_spec g) = true).
  { intros g Hin. apply list_elem_of_In, filter_In in Hin as [Hin Hf]. by apply list_elem_of_In in Hin. }
  assert (Hndf : NoDup ((fun sg => spec_key (sg_group sg)) <$> List.filter (fun g => is_full (sg_spec g)) sgs)).
  { clear - Hnd. induction sgs as [|s sgs IH]; [constructor|]. rewrite fmap_cons in Hnd.
    apply NoDup_cons in Hnd as [Hni Hnd]. simpl. destruct (is_full (sg_spec s)); [|auto].
    rewrite fmap_cons. apply NoDup_cons. split; [|auto]. intros (x & Hx & Hin)%list_elem_of_fmap.
    apply Hni, list_elem_of_fmap. exists x. split; [done|]. apply list_elem_of_In, filter_In in Hin as [Hin _].
    by apply list_elem_of_In. }
  destruct (List.filter (fun g => is_full (sg_spec g)) sgs) as [|f [|f2 fs]]; simpl in He.
  - rewrite He in Hno. by apply Forall_cons in Hno as [_ ?].
  - injection He as _ <-. done.
  - exfalso. rewrite !fmap_cons in Hndf. apply NoDup_cons in Hndf as [Hni _]. apply Hni.
    destruct (Hfull f ltac:(set_solver)) as [? ?]. destruct (Hfull f2 ltac:(set_solver)) as [? ?].
    apply elem_of_cons. left. by apply Hsame.
Qed.

(** ** The coordinator the engine builds *)

Definition hybrid_groups (config : ManagedKVConfig) (eagle : list nat) : list SpecGroup :=
  full_first (split_groups 0 (kv_cache_groups config) eagle []).

Record hybrid_coord (config : ManagedKVConfig) (sched hash : Z) (c : Coordinator) : Prop := {
  hc_kind : c_kind c = Hybrid false (hybrid_groups config (eagle_group_ids c));
  hc_groups : c_groups c = kv_cache_groups config;
  hc_sched : c_scheduler_block_size c = sched;
  hc_hash : c_hash_block_size c = hash;
  hc_sizes : Forall (fun g => sched mod spec_block_size (g_spec g) = 0 /\
                              spec_block_size (g_spec g) mod hash = 0) (kv_cache_groups config);
  hc_several : (1 < length (hybrid_groups config (eagle_group_ids c)))%nat
}.

Lemma all_divide_spec n groups :
  all_divide n groups = Ok true -> Forall (fun g => n mod spec_block_size (g_spec g) = 0) groups.
Proof.
  induction groups as [|g gs IH]; simpl; [constructor|]. case_match; [done|].
  destruct (Z.eqb_spec (n mod spec_block_size (g_spec g)) 0); [|done]. constructor; auto.
Qed.

Lemma get_hybrid_coordinator config mml batch eagle events sched hash env c :
  get_kv_cache_coordinator config mml batch eagle true events 1 1 sched hash env = Ok c ->
  length (kv_cache_groups config) <> 1%nat -> hybrid_coord config sched hash c.
Proof.
  unfold get_kv_cache_coordinator, base_init. intros Hc Hlen.
  destruct (hash =? 0); [done|]. destruct (sched mod hash =? 0); [|done].
  destruct (all_divide sched (kv_cache_groups config)) as [[]|] eqn:Ediv; [|done..].
  apply all_divide_spec in Ediv.
  destruct (pool_init _ _ _ _) as [p|]; [|done].
  destruct (make_managers _ _ _ _ _ _ _ _ _) as [ms|]; [|done].
  destruct (validate_prefix_cache_retention_interval _ _ _); [|done]. cbn [negb] in Hc.
  rewrite (proj2 (Nat.eqb_neq _ _)) in Hc by done.
  unfold hybrid_init, verify_and_split_kv_cache_groups in Hc. simpl in Hc.
  destruct (all_multiples hash (kv_cache_groups config)) eqn:Emul; [|done]. simpl in Hc.
  match type of Hc with context [(?n <=? 1)%nat] => destruct (Nat.leb_spec n 1) as [|Hgt]; [done|] end.
  injection Hc as <-. constructor; try done; simpl.
  - apply Forall_and. split; [done|]. apply Forall_forall. intros g Hg. unfold all_multiples in Emul.
    rewrite forallb_forall in Emul. apply Z.eqb_eq, Emul. by apply list_elem_of_In.
  - unfold hybrid_groups. by rewrite full_first_perm.
Qed.

(** The configurations for which hits are sound: full attention of one spec,
    sliding windows, and Mamba groups without EAGLE. *)
Record searchable (config : ManagedKVConfig) (c : Coordinator) : Prop := {
  se_kind : forall i g, kv_cache_groups config !! i = Some g ->
    match attn (g_spec g) with
    | FullAttention _ => True
    | SlidingWindow w => 0 < w
    | Mamba _ _ => i ∉ eagle_group_ids c
    | _ => False
    end;
  se_full : forall g1 g2, g1 ∈ kv_cache_groups config -> g2 ∈ kv_cache_groups config ->
    is_full (g_spec g1) = true -> is_full (g_spec g2) = true -> spec_key g1 = spec_key g2
}.

(** The block hashes as a group sees them. *)
Definition hashes_for (hash : Z) (bh : list bytes) (spec : KVCacheSpec) : BlockHashList :=
  if spec_block_size spec =? hash then inl bh
  else inr (mkHashList bh (spec_block_size spec / hash)).

Lemma hashes_for_length hash bh spec cap :
  0 < hash -> 0 < spec_block_size spec -> spec_block_size spec mod hash = 0 -> 0 <= cap ->
  cap / hash <= zlen bh ->
  (Z.to_nat (cap / spec_block_size spec) <= length (hashes_all (hashes_for hash bh spec)))%nat.
Proof.
  intros Hh Hbs Hm Hcap Hle. unfold hashes_for, hashes_all.
  destruct (Z.eqb_spec (spec_block_size spec) hash) as [->|Hne].
  - pose proof (Z.div_pos cap hash Hcap Hh). lia.
  - apply Z.mod_divide in Hm as [f Hf]; [|lia]. assert (0 < f) by nia.
    unfold hl_iter, zrange, hl_len. rewrite !length_fmap, length_seq. simpl.
    rewrite Hf, Z.div_mul by lia. replace (f * hash) with (hash * f) by ring.
    rewrite <- Z.div_div by lia. apply Z2Nat.inj_le.
    + apply Z.div_pos; [|lia]. apply Z.div_pos; lia.
    + apply Z.div_pos; lia.
    + apply Z.div_le_mono; lia.
Qed.

Lemma coord_good_group config sched hash c xs H bh cap sg :
  hybrid_coord config sched hash c -> searchable config c -> config_ok config ->
  pool_inv (c_block_pool c) xs [] H -> 0 < sched -> 0 < hash -> 0 <= cap -> cap / hash <= zlen bh ->
  sg ∈ hybrid_groups config (eagle_group_ids c) ->
  good_group (c_block_pool c) hash sched cap bh (length (kv_cache_groups config))
    (fun g => hashes_for hash bh (sg_spec g)) sg.
Proof.
  intros Hhc Hse [Hok Hlen] I Hs Hh Hcap Hbh Hin.
  pose proof (splits_perm _ _ _ _ _ (symmetry (full_first_perm _))
    (all_groups_split (kv_cache_groups config) (eagle_group_ids c))) as Hsp.
  fold (hybrid_groups config (eagle_group_ids c)) in Hsp.
  assert (Hids : forall i, i ∈ group_ids sg -> (i < length (kv_cache_groups config))%nat).
  { intros i Hi. destruct (sp_spec _ _ _ _ Hsp sg i Hin Hi) as (g & Hg & _). by eapply lookup_lt_Some. }
  destruct (group_ids sg) as [|i0 ids] eqn:Eids; [by destruct (sp_nonempty _ _ _ _ Hsp sg Hin)|].
  destruct (sp_spec _ _ _ _ Hsp sg i0 Hin ltac:(rewrite Eids; set_solver)) as (g & Hg & Hk).
  injection Hk as Hspec _ _. fold (sg_spec sg) in Hspec.
  assert (Hgin : g ∈ kv_cache_groups config) by by eapply list_elem_of_lookup_2.
  pose proof (proj1 (Forall_forall _ _) Hok g Hgin) as [Hbs Hsok].
  pose proof (proj1 (Forall_forall _ _) (hc_sizes _ _ _ _ Hhc) g Hgin) as [Hsm Hhm].
  rewrite <- Hspec in *.
  assert (Hgz : group_ids_z sg <> []) by (unfold group_ids_z; by rewrite Eids).
  assert (Hgok : Forall group_ok (group_ids_z sg)).
  { apply Forall_forall. intros z (i & -> & Hi)%list_elem_of_fmap. rewrite Eids in Hi.
    specialize (Hids i Hi). unfold group_ok. lia. }
  pose proof (hashes_for_length hash bh (sg_spec sg) cap Hh Hbs Hhm Hcap Hbh) as Hhl.
  constructor; try done.
  - by rewrite Eids.
  - intros i. rewrite Eids. apply Hids.
  - pose proof (sp_perm _ _ _ _ Hsp) as Hperm. pose proof (NoDup_seq 0 (length (kv_cache_groups config))) as Hnd.
    rewrite <- Hperm in Hnd. apply list_elem_of_lookup in Hin as [k Hk].
    rewrite (delete_Permutation _ _ _ Hk) in Hnd. rewrite fmap_cons in Hnd. cbn [concat] in Hnd.
    by apply NoDup_app in Hnd as (? & _).
  - intros s. unfold group_block_hashes, hashes_for, hash_list_init.
    destruct (spec_block_size (sg_spec sg) =? hash); [done|].
    rewrite (proj2 (Z.eqb_neq hash 0)), Hhm by lia. done.
  - pose proof (se_kind _ _ Hse i0 g Hg) as Hkind. rewrite <- Hspec in Hkind.
    destruct (attn (sg_spec sg)) as [ct|w|ch|al sp|] eqn:Ea; try done.
    + by eapply full_group_search.
    + by eapply window_group_search.
    + assert (Hne : sg_use_eagle sg = false).
      { destruct (sg_use_eagle sg) eqn:Ee; [|done]. exfalso.
        destruct (sp_eagle _ _ _ _ Hsp sg Hin Ee) as (j & Hj & Hje).
        destruct (sp_spec _ _ _ _ Hsp sg j Hin Hj) as (g' & Hg' & [= Hsp' _ _]).
        fold (sg_spec sg) in Hsp'. pose proof (se_kind _ _ Hse j g' Hg') as Hk'.
        rewrite <- Hsp', Ea in Hk'. done. }
      rewrite Hne. by eapply mamba_group_search.
Qed.

(** ** The theorems *)

(** C17. A prefix hit is sound for every KV-cache group. For a hybrid coordinator
    as the engine builds it (full attention of one spec, sliding windows, Mamba
    without EAGLE), in any state with the pool's invariant, the search
    terminates without an exception, changes only the statistics, and returns a
    number of tokens within the limit and on a scheduling boundary, with, for
    each group, exactly the blocks of that many tokens: each is the cached block
    of its hash or null, and every block with tokens the group still reads (as
    [get_num_skipped_tokens] has it) is the cached one. *)
Theorem hybrid_hit_sound config mml batch eagle events sched hash env c0 c xs H bh cap :
  get_kv_cache_coordinator config mml batch eagle true events 1 1 sched hash env = Ok c0 ->
  length (kv_cache_groups config) <> 1%nat -> config_ok config -> searchable config c0 ->
  same_cconf c0 c -> pool_inv (c_block_pool c) xs [] H ->
  0 < sched -> 0 < hash -> 0 <= cap -> cap / hash <= zlen bh ->
  exists blocks h u, c_find_longest_cache_hit bh cap c = (Ok (blocks, h), set_uncached u c) /\
    0 <= h <= cap /\ h mod sched = 0 /\
    forall i g, kv_cache_groups config !! i = Some g ->
      exists l, blocks !! i = Some l /\ zlen l * spec_block_size (g_spec g) = h /\
        forall k b, l !! k = Some b ->
          good_entry (c_block_pool c) (g_spec g) (hashes_all (hashes_for hash bh (g_spec g))) (length l) k
            (Z.of_nat i) b.
Proof.
  intros Hget Hlen Hok Hse Hcc I Hs Hh Hcap Hbh.
  destruct (get_hybrid_coordinator _ _ _ _ _ _ _ _ _ Hget Hlen) as [K1 K2 K3 K4 K5 K6].
  unfold same_cconf, cconf in Hcc. injection Hcc as E1 E2 E3 E4 E5 E6 E7 E8 E9 _ _ _ _ _ _.
  assert (Hhc : hybrid_coord config sched hash c) by (constructor; congruence).
  assert (Hse' : searchable config c).
  { destruct Hse as [S1 S2]. constructor; [|done]. intros i g Hg. rewrite E7. exact (S1 i g Hg). }
  pose proof (fun sg => coord_good_group config sched hash c xs H bh cap sg Hhc Hse' Hok I Hs Hh Hcap Hbh) as Hgood.
  pose proof (splits_perm _ _ _ _ _ (symmetry (full_first_perm _))
    (all_groups_split (kv_cache_groups config) (eagle_group_ids c))) as Hsp.
  fold (hybrid_groups config (eagle_group_ids c)) in Hsp.
  destruct (hybrid_groups config (eagle_group_ids c)) as [|g0 rest] eqn:Eg; [rewrite <- E7, Eg in K6; simpl in K6; lia|].
  assert (Hrest : Forall (fun g => is_full (sg_spec g) = false) rest).
  { eapply full_first_rest; [exact Eg|apply (sp_keys _ _ _ _ (all_groups_split _ _))|].
    assert (Hmem : forall s, s ∈ split_groups 0 (kv_cache_groups config) (eagle_group_ids c) [] ->
      exists g, g ∈ kv_cache_groups config /\ spec_key (sg_group s) = spec_key g).
    { intros s Hin. pose proof (all_groups_split (kv_cache_groups config) (eagle_group_ids c)) as Hs0.
      destruct (group_ids s) as [|j js] eqn:Ej; [by destruct (sp_nonempty _ _ _ _ Hs0 s Hin)|].
      destruct (sp_spec _ _ _ _ Hs0 s j Hin ltac:(rewrite Ej; set_solver)) as (g & Hg & Hk).
      exists g. split; [by eapply list_elem_of_lookup_2|done]. }
    intros s1 s2 H1 H2 F1 F2. destruct (Hmem s1 H1) as (g1 & G1 & Q1). destruct (Hmem s2 H2) as (g2 & G2 & Q2).
    rewrite Q1, Q2. apply (se_full _ _ Hse); [done|done| |].
    - injection Q1 as Q _ _. unfold sg_spec in F1. by rewrite <- Q.
    - injection Q2 as Q _ _. unfold sg_spec in F2. by rewrite <- Q. }
  assert (Hnd : NoDup (concat (group_ids <$> g0 :: rest))).
  { rewrite (sp_perm _ _ _ _ Hsp). apply NoDup_seq. }
  assert (Hall : Forall (good_group (c_block_pool c) hash sched cap bh (length (kv_cache_groups config))
    (fun g => hashes_for hash bh (sg_spec g))) (g0 :: rest)) by (apply Forall_forall; exact Hgood).
  destruct (hybrid_find_spec _ _ _ _ _ _ _ Hs g0 rest Hall Hrest Hnd Hcap)
    as (blocks & h & u & Hrun & Hlb & Hh1 & Hh2 & Hres).
  exists blocks, h, u. split; [|split; [done|split; [done|]]].
  - unfold c_find_longest_cache_hit, mbind, M_bind, get. rewrite (hc_kind _ _ _ _ Hhc), Eg.
    unfold on_block_pool, zoom. rewrite (hc_hash _ _ _ _ Hhc), (hc_sched _ _ _ _ Hhc), (hc_groups _ _ _ _ Hhc), Hrun.
    destruct c. reflexivity.
  - intros i g Hg. assert (Hi : i ∈ concat (group_ids <$> g0 :: rest)).
    { rewrite (sp_perm _ _ _ _ Hsp). apply elem_of_seq. apply lookup_lt_Some in Hg. lia. }
    apply list_elem_of_In, in_concat in Hi as (ids & Hids & Hi). apply list_elem_of_In in Hids, Hi.
    apply list_elem_of_fmap in Hids as (sg & -> & Hsg).
    destruct (sp_spec _ _ _ _ Hsp sg i Hsg Hi) as (g' & Hg' & Hk). rewrite Hg in Hg'. injection Hg' as <-.
    injection Hk as Hspec _ _. fold (sg_spec sg) in Hspec.
    destruct (Hres sg Hsg) as (cc & n & Htok & Ht & Hc). apply list_elem_of_lookup in Hi as [j Hj].
    destruct (Forall2_lookup_l _ _ _ _ _ Hc Hj) as (l & Hl & Hbl).
    assert (Hjz : group_ids_z sg !! j = Some (Z.of_nat i)) by (unfold group_ids_z; by rewrite list_lookup_fmap, Hj).
    destruct (Forall2_lookup_l _ _ _ _ _ Ht Hjz) as (l' & Hl' & Hln & Hentry).
    rewrite Hl in Hl'. injection Hl' as <-. exists l. split; [done|]. rewrite <- Hspec.
    split; [unfold tokens in Htok; by rewrite Hln|]. by rewrite Hln.
Qed.

(** ** Where the promise fails *)

Definition five_hashes : list bytes := sample_hashes.

(** The pool after five more blocks were taken, the first [n] of them cached in
    group [g] as the first blocks of a prompt. *)
Definition cache_group (p : BlockPool) (gn : nat * nat) : BlockPool :=
  match get_new_blocks false 5 p with
  | (Ok blks, p1) =>
      (cache_full_blocks false id blks 0 gn.2 4 (Z.of_nat gn.1) None
         (set_block_hashes five_hashes sample_request, p1)).2.2
  | (Err _, p1) => p1
  end.

(** A coordinator whose pool has the given number of the prompt's blocks cached
    in each group. *)
Definition cached_coordinator (config : ManagedKVConfig) (eagle : bool) (sched : Z) (cached : list nat)
    : option Coordinator :=
  match get_kv_cache_coordinator config 100 16 eagle true false 1 1 sched 4 None with
  | Err _ => None
  | Ok c => Some (set_state (single_type_managers c) (foldl cache_group (c_block_pool c) (enumerate cached)) c)
  end.

Definition group4 (a : AttnSpec) (other : bytes) : ManagedGroupSpec := mkGroup (mkSpec 4 false a) other false false.

(** With EAGLE on all groups (the fall-back when no group is flagged), the
    Mamba search ignores the drop of the last block that full attention makes:
    with three blocks of the prompt cached in both groups, the coordinator
    reports a hit of 12 tokens but gives full attention only two blocks, the
    keys and values of 8. *)
Theorem eagle_mamba_hit_too_long :
  match cached_coordinator (mkConfig 40 [group4 (FullAttention true) []; group4 (Mamba false 0) []] false)
          true 4 [3; 3]%nat with
  | None => False
  | Some c => exists c', c_find_longest_cache_hit five_hashes 20 c =
      (Ok ([[Blk 1; Blk 2]; [Blk 0; Blk 0; Blk 8]], 12), c')
  end.
Proof. vm_compute. eexists. reflexivity. Qed.

(** With two full-attention specs and a third group, only the blocks of the
    first are cut to the hit: the prompt has five blocks cached for both, two
    for the window; the hit is 8 tokens, and the second full-attention group
    keeps its five blocks. *)
Theorem second_full_group_not_truncated :
  match cached_coordinator (mkConfig 40 [group4 (FullAttention true) []; group4 (FullAttention true) [Byte.x01];
          group4 (SlidingWindow 6) []] false) false 4 [5; 5; 2]%nat with
  | None => False
  | Some c => exists c', c_find_longest_cache_hit five_hashes 20 c =
      (Ok ([[Blk 1; Blk 2]; [Blk 6; Blk 7; Blk 8; Blk 9; Blk 10]; [Blk 11; Blk 12]], 8), c')
  end.
Proof. vm_compute. eexists. reflexivity. Qed.

(** ** A witness: five blocks of a prompt cached in both groups *)

(** Blocks taken from a fresh stretch of the free list and cached as the first
    five of a prompt, in a pool of sixteen blocks. *)
Lemma cache_five g a rest p H :
  a = 1%nat \/ a = 6%nat -> group_ok (Z.of_nat g) ->
  pool_inv p ((Blk <$> seq a 5) ++ rest) [] H ->
  config p = (16, true, 4, Blk <$> seq 0 16, Blk 0, false) ->
  exists ret p1 s2, get_new_blocks false 5 p = (Ok ret, p1) /\
    cache_full_blocks false id ret 0 5 4 (Z.of_nat g) None
      (set_block_hashes sample_hashes sample_request, p1) = (Ok tt, s2) /\
    pool_inv s2.2 rest [] ((Blk <$> seq a 5) ++ H) /\ config s2.2 = config p.
Proof.
  intros Ha Hg I Hcfg.
  destruct (wp_returns _ _ _ (get_new_blocks_spec false p (Blk <$> seq a 5) rest H I))
    as (ret & p1 & Hrun & -> & I1 & Hcfg1 & Hev).
  exists (Blk <$> seq a 5), p1. rewrite <- Hcfg1 in Hcfg. unfold config in Hcfg.
  injection Hcfg as E1 E2 E3 E4 E5 E6. set (ys := Blk <$> seq a 5) in *.
  assert (Hlen : length ys = 5%nat) by done.
  assert (Hsl : slice 0 5 ys = ys) by done.
  assert (Hpre : cache_pre p1 (set_block_hashes sample_hashes sample_request) ys 0 5 4 (Z.of_nat g) None sample_hashes).
  { constructor; try done.
    - eexists. rewrite E3. split; [reflexivity|done].
    - apply Forall_forall. intros [i b] Hin%elem_of_enumerate. rewrite Hsl in Hin.
      pose proof (lookup_lt_Some _ _ _ Hin) as Hi. unfold cacheable. cbn [fst snd].
      assert (Hb : b = Blk (a + i)).
      { unfold ys in Hin. apply list_lookup_fmap_Some in Hin as (x & -> & Hx).
        apply lookup_seq in Hx as [-> _]. done. }
      rewrite E4, Hev. split; [|split; [done|]].
      + rewrite Hb. change (Blk (a + i) ∈ Blk <$> seq 0 16). apply list_elem_of_fmap. exists (a + i)%nat. split; [done|]. apply elem_of_seq. lia.
      + intros _. split; [|apply lookup_lt_is_Some; simpl; lia]. rewrite decide_True; [done|].
        by eapply list_elem_of_lookup_2.
    - rewrite E5. unfold ys. destruct Ha as [-> | ->]; apply (bool_decide_unpack _); vm_compute; exact Logic.I. }
  destruct (wp_returns _ _ _ (cache_full_blocks_spec false id _ p1 rest [] (ys ++ H) ys 0 5 4 (Z.of_nat g)
      None _ I1 ltac:(lia) Hpre)) as ([] & s2 & Hrun2 & I2 & Hcfg2 & _).
  exists s2. split; [done|]. split; [done|]. split; [done|]. by rewrite Hcfg2.
Qed.

Definition fa_window_config : ManagedKVConfig :=
  mkConfig 16 [group4 (FullAttention true) []; group4 (SlidingWindow 6) []] false.

Lemma cache_group_inv g a rest p H :
  a = 1%nat \/ a = 6%nat -> group_ok (Z.of_nat g) ->
  pool_inv p ((Blk <$> seq a 5) ++ rest) [] H ->
  config p = (16, true, 4, Blk <$> seq 0 16, Blk 0, false) ->
  exists H', pool_inv (cache_group p (g, 5%nat)) rest [] H' /\ config (cache_group p (g, 5%nat)) = config p.
Proof.
  intros Ha Hg I Hcfg. destruct (cache_five g a rest p H Ha Hg I Hcfg) as (ret & p1 & s2 & H1 & H2 & H3).
  unfold cache_group, five_hashes. rewrite H1. cbn [fst snd]. rewrite H2. by eexists.
Qed.

Lemma hybrid_hit_sound_witness : exists c0 c c' blocks,
  get_kv_cache_coordinator fa_window_config 100 16 false true false 1 1 4 4 None = Ok c0 /\
  cached_coordinator fa_window_config false 4 [5; 5]%nat = Some c /\
  c_find_longest_cache_hit five_hashes 17 c = (Ok (blocks, 16), c') /\
  blocks = [Blk <$> seq 1 4; [Blk 0; Blk 0; Blk 8; Blk 9]] /\
  forall k b, [Blk 0; Blk 0; Blk 8; Blk 9] !! k = Some b ->
    good_entry (c_block_pool c) (mkSpec 4 false (SlidingWindow 6)) five_hashes 4 k 1 b.
Proof.
  destruct (get_kv_cache_coordinator fa_window_config 100 16 false true false 1 1 4 4 None)
    as [c0|] eqn:E0; [|vm_compute in E0; discriminate E0].
  destruct (pool_init_spec 16 true 4 false eq_refl) as (p0 & Hp & I0 & F1 & F2 & F3 & F5 & F6 & _).
  assert (Ep : c_block_pool c0 = p0).
  { vm_compute in E0. injection E0 as <-. vm_compute in Hp. by injection Hp. }
  assert (Hcfg : config p0 = (16, true, 4, Blk <$> seq 0 16, Blk 0, false)).
  { vm_compute in Hp. injection Hp as <-. reflexivity. }
  destruct (cache_group_inv 0 1 (Blk <$> seq 6 10) p0 [] ltac:(by left) ltac:(done) I0 Hcfg) as (H1 & I1 & C1).
  rewrite Hcfg in C1.
  destruct (cache_group_inv 1 6 (Blk <$> seq 11 5) _ H1 ltac:(by right) ltac:(done) I1 C1) as (H2 & I2 & C2).
  rewrite C1 in C2.
  set (c := set_state (single_type_managers c0) (foldl cache_group (c_block_pool c0) (enumerate [5; 5]%nat)) c0).
  assert (Hc : cached_coordinator fa_window_config false 4 [5; 5]%nat = Some c).
  { unfold cached_coordinator. rewrite E0. reflexivity. }
  destruct (hybrid_hit_sound fa_window_config 100 16 false false 4 4 None c0 c (Blk <$> seq 11 5) H2
    five_hashes 17 E0) as (blocks & h & u & Hrun & _ & _ & Hall).
  - done.
  - split; [|vm_compute; reflexivity]. repeat constructor.
  - vm_compute in E0. injection E0 as <-. constructor.
    + intros [|[|i]] g Hg; [injection Hg as <-; exact Logic.I|injection Hg as <-; done|discriminate Hg].
    + intros g1 g2 G1 G2 S1 S2. cbn in G1, G2.
      apply elem_of_cons in G1 as [->|G1]; [|apply list_elem_of_singleton in G1 as ->; discriminate S1].
      apply elem_of_cons in G2 as [->|G2]; [reflexivity|apply list_elem_of_singleton in G2 as ->; discriminate S2].
  - unfold same_cconf, cconf, c. cbn -[foldl]. f_equal. rewrite Ep. cbn [foldl enumerate seq length zip zip_with].
    rewrite C2, Hcfg. reflexivity.
  - unfold c. cbn -[foldl]. rewrite Ep. exact I2.
  - lia.
  - lia.
  - lia.
  - vm_compute. discriminate.
  - exists c0, c, (set_uncached u c), blocks. split; [reflexivity|]. split; [exact Hc|].
    assert (Hv : (c_find_longest_cache_hit five_hashes 17 c).1 =
      Ok ([Blk <$> seq 1 4; [Blk 0; Blk 0; Blk 8; Blk 9]], 16)).
    { unfold c. vm_compute in E0. injection E0 as <-. vm_compute. reflexivity. }
    rewrite Hrun in Hv. cbn [fst] in Hv. injection Hv as -> ->. split; [exact Hrun|]. split; [reflexivity|].
    destruct (Hall 1%nat (group4 (SlidingWindow 6) []) eq_refl) as (l & Hl & _ & Hg).
    injection Hl as <-. exact Hg.
Defined.

End CoordinatorHit.
