(* ===== verification/AdmissionSafety.v ===== *)
(** * AdmissionSafety

    The admission check of [allocate_slots] over all KV-cache groups: what
    get_num_blocks_to_allocate of v1/core/kv_cache_coordinator.py predicts is
    enough for every manager to take its hits and its new blocks from the shared
    pool, so that a request that passes the check never runs into an empty free
    list halfway. *)

From S2P Require Import Prelude FreeQueue Request BlockHash BlockPool SingleType SingleTypeSafety Coordinator CoordinatorSafety KVCacheManager KVSafety.

Module AdmissionSafety.
Import FreeQueue Request BlockHash BlockPool SingleType SingleTypeSafety Coordinator CoordinatorSafety KVCacheManager KVSafety.
#[local] Open Scope Z_scope.

(** ** Budgets *)

(** Free blocks among [kept]. *)
Definition taken (kept xs : list ref) : Z := zlen (filter (fun x => x ∈ kept) xs).

Lemma taken_split kept xs : zlen (filter (fun x => x ∉ kept) xs) = zlen xs - taken kept xs.
Proof.
  unfold taken. pose proof (filter_app_complement (fun x => x ∈ kept) xs) as Hc.
  apply Permutation_length in Hc. rewrite length_app in Hc. lia.
Qed.

Lemma taken_mono kept xs ys : NoDup xs -> xs ⊆ ys -> taken kept xs <= taken kept ys.
Proof.
  intros Hnd Hs. unfold taken. apply inj_le, submseteq_length, NoDup_submseteq; [by apply NoDup_filter|].
  intros x [H1 H2]%list_elem_of_filter. apply list_elem_of_filter. auto.
Qed.

(** A loop over managers in which every step is sure to succeed. [ok] relates
    the steps that remain to the free list, [post] says what a step does to its
    own manager. *)
Lemma managers_total {A} (op : nat -> M St A) (ok : list nat -> list ref -> Prop)
    (post : nat -> Manager -> A -> Manager -> Prop) : forall idxs c xs R,
  NoDup idxs -> coord_inv c xs R -> ok idxs xs ->
  (forall i, i ∈ idxs -> is_Some (single_type_managers c !! i)) ->
  (forall i rest m p xs' R', i ∈ idxs -> single_type_managers c !! i = Some m ->
     mgr_inv (m, p) xs' R' -> spec_ok (kv_cache_spec m) -> config p = config (c_block_pool c) ->
     ok (i :: rest) xs' ->
     wp (op i) (fun a s' => exists xs'', mgr_inv s' xs'' R' /\ same_conf (m, p) s' /\
       ok rest xs'' /\ post i m a s'.1) (m, p)) ->
  wp (map_m (fun i => at_manager i (op i)) idxs) (fun _ c' => exists xs',
    coord_inv c' xs' R /\ same_cconf c c' /\ ok [] xs' /\
    (forall i, i ∈ idxs -> exists m a m', single_type_managers c !! i = Some m /\
       single_type_managers c' !! i = Some m' /\ post i m a m') /\
    (forall j, j ∉ idxs -> single_type_managers c' !! j = single_type_managers c !! j)) c.
Proof.
  induction idxs as [|i idxs IH]; intros c xs R Hnd I Hok Hin Hop; cbn [map_m].
  { apply wp_ret. exists xs. do 3 (split; [done|]). split; [set_solver|done]. }
  apply NoDup_cons in Hnd as [Hni Hnd]. destruct (Hin i ltac:(set_solver)) as [m Hm].
  pose proof (coord_manager c xs R i m I Hm) as Im.
  assert (Hs : spec_ok (kv_cache_spec m)).
  { pose proof (ci_specs _ _ _ I) as Is. by eapply (Forall_lookup_1 (fun m => spec_ok (kv_cache_spec m))) in Is. }
  apply wp_bind. unfold wp at 1, at_manager. rewrite Hm.
  specialize (Hop i) as Hopi. specialize (Hopi idxs m _ xs _ ltac:(set_solver) Hm Im Hs eq_refl Hok).
  apply wp_returns in Hopi as (a & [m' p'] & Hrun & xs1 & I1 & Hc1 & Hok1 & Hpost). rewrite Hrun. cbn [fst] in Hpost.
  destruct (coord_update c xs xs1 R i m m' p' I Hm I1 Hc1) as [Ic Hcc].
  set (c1 := set_state (<[i := m']> (single_type_managers c)) p' c) in *.
  assert (Hj : forall j, j <> i -> single_type_managers c1 !! j = single_type_managers c !! j).
  { intros j Hj. simpl. by apply list_lookup_insert_ne. }
  assert (Hi1 : single_type_managers c1 !! i = Some m').
  { simpl. apply list_lookup_insert_eq. by eapply lookup_lt_Some. }
  apply wp_bind. eapply wp_mono; [eapply (IH c1 xs1 R Hnd Ic Hok1)|].
  - intros j Hjin. rewrite Hj; [apply Hin; set_solver|by intros ->].
  - intros j rest mj p xs' R' Hjin Hmj Ij Hsj Hpj Hokj. eapply (Hop j rest); try done; [set_solver| |].
    + rewrite <- Hj; [done|by intros ->].
    + destruct Hc1 as [_ Hc1]. cbn [snd] in Hc1. rewrite Hpj. exact Hc1.
  - intros b c2 (xs2 & I2 & Hcc2 & Hok2 & Hp2 & Hj2). apply wp_ret. exists xs2. split; [done|].
    split; [by transitivity c1|]. split; [done|]. split.
    + intros j [->|Hjin]%elem_of_cons.
      * exists m, a, m'. split; [done|]. split; [by rewrite Hj2|done].
      * destruct (Hp2 j Hjin) as (mj & aj & mj' & E1 & E2 & E3). exists mj, aj, mj'.
        rewrite <- Hj; [done|by intros ->].
    + intros j Hjn. rewrite Hj2 by set_solver. apply Hj. set_solver.
Qed.

Lemma map_managers_total {A} (op : nat -> M St A) ok post c xs R :
  coord_inv c xs R -> ok (manager_indices c) xs ->
  (forall i rest m p xs' R', single_type_managers c !! i = Some m ->
     mgr_inv (m, p) xs' R' -> spec_ok (kv_cache_spec m) -> config p = config (c_block_pool c) ->
     ok (i :: rest) xs' ->
     wp (op i) (fun a s' => exists xs'', mgr_inv s' xs'' R' /\ same_conf (m, p) s' /\
       ok rest xs'' /\ post i m a s'.1) (m, p)) ->
  wp (map_managers op) (fun _ c' => exists xs',
    coord_inv c' xs' R /\ same_cconf c c' /\ ok [] xs' /\
    forall i m', single_type_managers c' !! i = Some m' ->
      exists m a, single_type_managers c !! i = Some m /\ post i m a m') c.
Proof.
  intros I Hok Hop. unfold map_managers. apply wp_bind, wp_gets.
  eapply wp_mono; [eapply (managers_total op ok post); [apply NoDup_seq|exact I|exact Hok| |]|].
  - intros i [_ Hi]%elem_of_seq. apply lookup_lt_is_Some. lia.
  - intros. by eapply Hop.
  - intros _ c' (xs' & I' & Hcc & Hok' & Hp & Hj). exists xs'. do 3 (split; [done|]).
    intros i m' Hm'. destruct (decide (i ∈ manager_indices c)) as [Hin|Hni].
    + destruct (Hp i Hin) as (m & a & m1 & E1 & E2 & E3). exists m, a. split; [done|]. congruence.
    + rewrite (Hj i Hni) in Hm'. exfalso. apply Hni, elem_of_seq. apply lookup_lt_Some in Hm'. lia.
Qed.

(** ** One manager *)

(** Managers of full, sliding-window and chunked local attention. *)
Definition attends (m : Manager) : Prop :=
  match attn (kv_cache_spec m) with Mamba _ _ | CrossAttention => False | _ => True end.

Lemma attends_conf m m' : mconf m' = mconf m -> attends m -> attends m'.
Proof. unfold attends. by intros (_ & -> & _)%mconf_eq. Qed.

(** Blocks missing for [nt] tokens. *)
Definition missing (m : Manager) (rid : string) (nt : Z) : Z :=
  Z.max 0 (cdiv nt (block_size m) - zlen (table m rid)).

Lemma get_num_base rid nt ncb total main cap m p :
  attends m ->
  get_num_blocks_to_allocate rid nt ncb total main cap (m, p) =
  base_num_blocks_to_allocate rid nt ncb total cap (m, p).
Proof.
  unfold attends, get_num_blocks_to_allocate, mgr, gets, mbind, M_bind. cbn [fst].
  by destruct (attn (kv_cache_spec m)).
Qed.

(** The prediction when nothing is attached. *)
Lemma predict_running m p rid nt total main xs R :
  mgr_inv (m, p) xs R -> spec_ok (kv_cache_spec m) -> attends m ->
  is_Some (num_cached_block m !! rid) \/ skipped_blocks m total <= zlen (table m rid) ->
  get_num_blocks_to_allocate rid nt [] total main false (m, p) = (Ok (missing m rid nt), (m, p)).
Proof.
  intros I Hs Ha Hc. rewrite get_num_base by done. assert (Hbs : 0 < block_size m) by apply (I rid).
  unfold base_num_blocks_to_allocate, mgr, gets, cdiv_m, mbind, M_bind, missing. cbn [fst].
  rewrite (proj2 (Z.eqb_neq _ _)) by lia. unfold mret, M_ret. fold (table m rid).
  destruct (num_cached_block m !! rid) as [nc|]; cbn [is_some].
  { cbn. destruct (max_admission_blocks_per_request m); do 2 f_equal; lia. }
  destruct Hc as [[? ?]|Hc]; [done|]. rewrite get_num_skipped_tokens_spec by done.
  fold (skipped_blocks m total). rewrite drop_nil. cbn [get_num_evictable_blocks mret M_ret length].
  destruct (max_admission_blocks_per_request m); do 2 f_equal; lia.
Qed.

(** The gate on the whole sequence only needs the check to answer. *)
Lemma predict_total m p rid nt ncb total main cap xs R :
  mgr_inv (m, p) xs R -> spec_ok (kv_cache_spec m) -> attends m ->
  (forall b, b ∈ ncb -> b ∈ blocks p) -> (is_Some (num_cached_block m !! rid) -> ncb = []) ->
  exists n, get_num_blocks_to_allocate rid nt ncb total main cap (m, p) = (Ok n, (m, p)).
Proof.
  intros I Hs Ha Hb Hc. rewrite get_num_base by done. assert (Hbs : 0 < block_size m) by apply (I rid).
  unfold base_num_blocks_to_allocate, mgr, gets, cdiv_m, mbind, M_bind. cbn [fst].
  rewrite (proj2 (Z.eqb_neq _ _)) by lia. unfold mret, M_ret.
  destruct (num_cached_block m !! rid) as [nc|]; cbn [is_some].
  { rewrite (Hc ltac:(done)). cbn. by eexists. }
  rewrite get_num_skipped_tokens_spec by done.
  erewrite (num_evictable_spec m p xs []); [by eexists|apply (I rid)|].
  intros b Hin. apply Hb. by eapply subseteq_drop.
Qed.

(** An operation for one request leaves the tables of the others alone. *)
Definition other_tables (rid : string) (m m' : Manager) : Prop :=
  forall rid', rid' <> rid -> table m' rid' = table m rid'.

Lemma other_tables_insert rid m m' l : req_to_blocks m' = <[rid := l]> (req_to_blocks m) -> other_tables rid m m'.
Proof. intros E rid' Hne. unfold table. by rewrite E, lookup_insert_ne. Qed.

Lemma other_tables_trans rid m1 m2 m3 : other_tables rid m1 m2 -> other_tables rid m2 m3 -> other_tables rid m1 m3.
Proof. intros H1 H2 rid' Hne. by rewrite H2, H1. Qed.

Section ops.
Context (use_int : bool).

Lemma alloc_step m p rid nt main xs R :
  mgr_inv (m, p) xs R -> attends m -> missing m rid nt <= zlen xs ->
  wp (allocate_new_blocks use_int rid nt main) (fun _ s' => exists xs', mgr_inv s' xs' R /\
      same_conf (m, p) s' /\ zlen xs' = zlen xs - missing m rid nt /\
      cdiv nt (block_size m) <= zlen (table s'.1 rid) /\ other_tables rid m s'.1) (m, p).
Proof.
  intros I Ha Hle. unfold wp, allocate_new_blocks, mgr, gets, mbind, M_bind. cbn [fst].
  pose proof (base_allocate_new_blocks_wpx use_int m p rid nt xs R I) as H. cbv zeta in H. fold (missing m rid nt) in H.
  assert (Hw : wp (base_allocate_new_blocks use_int rid nt) (fun _ s' => exists xs', mgr_inv s' xs' R /\
      same_conf (m, p) s' /\ zlen xs' = zlen xs - missing m rid nt /\
      cdiv nt (block_size m) <= zlen (table s'.1 rid) /\ other_tables rid m s'.1) (m, p)).
  { eapply wp_wpx; [eapply wpx_mono; [exact H| |]|].
    - intros ret s' (xs' & I' & Hc & -> & Hl & Hr & _). exists xs'. split; [done|]. split; [done|].
      rewrite length_app, Nat2Z.inj_add. split; [lia|]. split; [|by eapply other_tables_insert].
      unfold table at 1. rewrite Hr, lookup_insert_eq.
      cbn [default from_option id]. rewrite length_app, Nat2Z.inj_add, Hl. unfold missing. lia.
    - intros e s' H'. exact H'.
    - intros e s' _ (_ & Hlt & _). lia. }
  unfold attends in Ha. unfold wp in Hw. by destruct (attn (kv_cache_spec m)).
Qed.

(** What attaching hits takes off the free list. *)
Definition hits_cost (m : Manager) (ncb : list ref) (local ext : Z) (xs : list ref) : Z :=
  taken (kept_hits m (local + ext) ncb) xs + external_need m ncb local ext.

Lemma hits_step m p rid ncb local ext xs R :
  mgr_inv (m, p) xs R -> spec_ok (kv_cache_spec m) -> attends m ->
  num_cached_block m !! rid = None -> table m rid = [] ->
  (forall b, b ∈ ncb -> b ∈ blocks p) -> NoDup (real (null_block p) ncb) ->
  m_enable_caching m = true \/ ncb = [] ->
  local = zlen ncb * block_size m -> 0 <= ext -> hits_cost m ncb local ext xs <= zlen xs ->
  wp (allocate_new_computed_blocks use_int rid ncb local ext) (fun _ s' => exists xs', mgr_inv s' xs' R /\
      same_conf (m, p) s' /\ xs' ⊆ xs /\ zlen xs' = zlen xs - hits_cost m ncb local ext xs /\
      zlen (table s'.1 rid) = zlen (hit_table m (local + ext) ncb) + external_need m ncb local ext /\
      other_tables rid m s'.1) (m, p).
Proof.
  intros I Hs Ha Hnc Ht Hb Hnd Hcache Hloc Hext Hle.
  unfold wp, allocate_new_computed_blocks, mgr, gets, mbind, M_bind. cbn [fst].
  pose proof (base_allocate_new_computed_blocks_wpx use_int m p rid ncb local ext xs R I Hs Hnc Hb Hnd Hloc Hext) as H.
  cbv zeta in H. unfold hits_cost in *. set (kept := kept_hits m (local + ext) ncb) in *.
  rewrite taken_split in H.
  assert (Hw : wp (base_allocate_new_computed_blocks use_int rid ncb local ext) (fun _ s' => exists xs',
      mgr_inv s' xs' R /\ same_conf (m, p) s' /\ xs' ⊆ xs /\
      zlen xs' = zlen xs - (taken kept xs + external_need m ncb local ext) /\
      zlen (table s'.1 rid) = zlen (hit_table m (local + ext) ncb) + external_need m ncb local ext /\
      other_tables rid m s'.1) (m, p)).
  { eapply wp_wpx; [eapply wpx_mono; [exact H| |]|].
    - intros u s' (alloc & xs' & I' & Hc & Hxs & Hal & _ & Hr & _). exists xs'. split; [done|]. split; [done|].
      split; [|split; [|split; [|by eapply other_tables_insert]]].
      + intros x Hx. assert (Hf : x ∈ filter (fun x => x ∉ kept) xs) by (rewrite Hxs; set_solver).
        by apply list_elem_of_filter in Hf as [_ ?].
      + pose proof (taken_split kept xs) as E. rewrite Hxs, length_app in E. lia.
      + unfold table. rewrite Hr, lookup_insert_eq. cbn [default from_option id].
        rewrite length_app, Nat2Z.inj_add. lia.
    - intros e s' H'. exact H'.
    - intros e s' _ [(_ & [?|[Hf Hk]])|(_ & Hlt)]; [done| |lia].
      destruct Hcache as [|E]; [congruence|]. apply Hk. unfold kept, kept_hits. rewrite E.
      destruct (0 <? _); [apply drop_nil|done]. }
  unfold attends in Ha. unfold wp in Hw. by destruct (attn (kv_cache_spec m)).
Qed.

(** The prediction for a new request covers both steps. *)
Lemma predict_new m p rid nt ncb local ext main xs R :
  mgr_inv (m, p) xs R -> spec_ok (kv_cache_spec m) -> attends m ->
  num_cached_block m !! rid = None -> table m rid = [] ->
  (forall b, b ∈ ncb -> b ∈ blocks p) -> NoDup (real (null_block p) ncb) ->
  local = zlen ncb * block_size m -> 0 <= ext -> local + ext <= nt ->
  get_num_blocks_to_allocate rid nt ncb (local + ext) main false (m, p) =
  (Ok (hits_cost m ncb local ext xs +
       Z.max 0 (cdiv nt (block_size m) - (zlen (hit_table m (local + ext) ncb) + external_need m ncb local ext))),
   (m, p)).
Proof.
  intros I Hs Ha Hnc Ht Hb Hnd Hloc Hext Hle. assert (Hbs : 0 < block_size m) by apply (I rid).
  assert (Hm' : match attn (kv_cache_spec m) with Mamba _ _ => False | _ => True end)
    by (unfold attends in Ha; by destruct (attn (kv_cache_spec m))).
  rewrite (num_blocks_new_request m p rid nt ncb (local + ext) main xs R) by done. do 2 f_equal.
  assert (Hkb : forall b, b ∈ kept_hits m (local + ext) ncb -> b ∈ blocks p).
  { intros b Hin%kept_hits_incl. auto. }
  assert (Hknd : NoDup (real (null_block p) (kept_hits m (local + ext) ncb))).
  { unfold kept_hits. destruct (0 <? _); [|done].
    rewrite <- (take_drop (Z.to_nat (skipped_blocks m (local + ext))) ncb), real_app in Hnd.
    by apply NoDup_app in Hnd as (_ & _ & ?). }
  pose proof (touched_count p xs _ _ (mo_pool _ _ _ _ _ (I rid)) Hkb Hknd) as Hcount.
  cbn [fst snd] in Hcount. fold (table m rid) in Hcount. rewrite taken_split in Hcount.
  pose proof (external_need_nonneg m ncb local ext Hs Hbs Hloc Hext) as Hen.
  pose proof (hit_table_length m (local + ext) ncb) as Hht. unfold hits_cost.
  assert (cdiv (local + ext) (block_size m) <= cdiv nt (block_size m)).
  { rewrite !cdiv_spec by done. apply Z.div_le_mono; lia. }
  unfold external_need in *. cbv zeta in *.
  destruct (0 <? (if 0 <? skipped_blocks m (local + ext)
     then Z.min (local + ext - num_skipped (kv_cache_spec m) (local + ext)) ext else ext)); lia.
Qed.
End ops.

(** ** All managers *)

Lemma for_each_of_map {S A} (f : A -> M S unit) l s ys s' :
  map_m f l s = (Ok ys, s') -> for_each f l s = (Ok tt, s').
Proof.
  revert s ys s'. induction l as [|x l IH]; intros s ys s'; [by intros [= _ ->]|].
  cbn [map_m for_each]. unfold mbind, M_bind. destruct (f x s) as [[[]|e] s1]; [|done].
  destruct (map_m f l s1) as [[zs|e] s2] eqn:E; [|done]. intros [= _ ->]. by eapply IH.
Qed.

Lemma for_managers_total op ok post c xs R :
  coord_inv c xs R -> ok (manager_indices c) xs ->
  (forall i rest m p xs' R', single_type_managers c !! i = Some m ->
     mgr_inv (m, p) xs' R' -> spec_ok (kv_cache_spec m) -> config p = config (c_block_pool c) ->
     ok (i :: rest) xs' ->
     wp (op i) (fun a s' => exists xs'', mgr_inv s' xs'' R' /\ same_conf (m, p) s' /\
       ok rest xs'' /\ post i m s'.1) (m, p)) ->
  wp (for_managers op) (fun _ c' => exists xs',
    coord_inv c' xs' R /\ same_cconf c c' /\ ok [] xs' /\
    forall i m', single_type_managers c' !! i = Some m' ->
      exists m, single_type_managers c !! i = Some m /\ post i m m') c.
Proof.
  intros I Hok Hop.
  destruct (wp_returns _ _ _ (map_managers_total op ok (fun i m _ m' => post i m m') c xs R I Hok Hop))
    as (a & c' & Hrun & xs' & I' & Hcc & Hok' & Hp).
  assert (Hf : for_managers op c = (Ok tt, c')).
  { unfold map_managers, for_managers, gets, mbind, M_bind in *. by eapply for_each_of_map. }
  unfold wp. rewrite Hf. exists xs'. do 3 (split; [done|]). intros i m' Hm'.
  destruct (Hp i m' Hm') as (m & ? & ? & ?). by exists m.
Qed.

(** Asking every manager changes nothing. *)
Lemma map_managers_pure {A} (op : nat -> M St A) (f : nat -> A) c :
  (forall i m, single_type_managers c !! i = Some m ->
     op i (m, c_block_pool c) = (Ok (f i), (m, c_block_pool c))) ->
  map_managers op c = (Ok (f <$> manager_indices c), c).
Proof.
  intros H. unfold map_managers, gets, mbind, M_bind.
  assert (Hin : forall i, i ∈ manager_indices c -> is_Some (single_type_managers c !! i)).
  { intros i [_ Hi]%elem_of_seq. apply lookup_lt_is_Some. lia. }
  induction (manager_indices c) as [|i idxs IH]; [done|]. cbn [map_m].
  destruct (Hin i ltac:(set_solver)) as [m Hm]. unfold mbind, M_bind, at_manager. rewrite Hm, (H i m Hm).
  rewrite list_insert_id by done.
  assert (Ec : set_state (single_type_managers c) (c_block_pool c) c = c) by (by destruct c).
  rewrite Ec. unfold at_manager, mbind, M_bind in IH. rewrite IH by set_solver. done.
Qed.

(** The managers of the model's coordinators that only attend. *)
Definition all_attend (c : Coordinator) : Prop := forall i m, single_type_managers c !! i = Some m -> attends m.

Lemma conf_managers c c' i m' :
  same_cconf c c' -> single_type_managers c' !! i = Some m' ->
  exists m, single_type_managers c !! i = Some m /\ mconf m' = mconf m.
Proof.
  intros Hc Hm'. unfold same_cconf, cconf in Hc. pose proof (f_equal (fun x => x.1.2) Hc) as Hms.
  cbn [fst snd] in Hms. assert (Hi : (mconf <$> single_type_managers c) !! i = Some (mconf m')).
  { rewrite <- Hms, list_lookup_fmap, Hm'. done. }
  rewrite list_lookup_fmap in Hi. apply fmap_Some in Hi as (m & Hm & ?). by exists m.
Qed.

Lemma conf_indices c c' : same_cconf c c' -> manager_indices c' = manager_indices c.
Proof.
  intros Hc. unfold same_cconf, cconf in Hc. pose proof (f_equal (fun x => x.1.2) Hc) as Hms.
  cbn [fst snd] in Hms. apply (f_equal length) in Hms. rewrite !length_fmap in Hms.
  unfold manager_indices. by rewrite Hms.
Qed.

Lemma all_attend_conf c c' : same_cconf c c' -> all_attend c -> all_attend c'.
Proof.
  intros Hc Ha i m' Hm'. destruct (conf_managers _ _ _ _ Hc Hm') as (m & Hm & E). by eapply attends_conf; eauto.
Qed.

Lemma coord_spec_ok c xs R i m :
  coord_inv c xs R -> single_type_managers c !! i = Some m -> spec_ok (kv_cache_spec m).
Proof.
  intros I Hm. pose proof (ci_specs _ _ _ I) as Is.
  by eapply (Forall_lookup_1 (fun m => spec_ok (kv_cache_spec m))) in Is.
Qed.

Lemma c_predict rid nt ncb enc total main cap c (f : nat -> Z) :
  all_attend c ->
  (forall i m, single_type_managers c !! i = Some m -> exists l, ncb !! i = Some l /\
     get_num_blocks_to_allocate rid nt l total main cap (m, c_block_pool c) = (Ok (f i), (m, c_block_pool c))) ->
  c_get_num_blocks_to_allocate rid nt ncb enc total main cap c = (Ok (zsum (f <$> manager_indices c)), c).
Proof.
  intros Ha H. unfold c_get_num_blocks_to_allocate, mbind at 1, M_bind at 1.
  erewrite (map_managers_pure _ f); [done|]. intros i m Hm. destruct (H i m Hm) as (l & Hl & Hrun).
  unfold mgr, gets, mbind, M_bind. cbn [fst].
  assert (Hc : is_cross (kv_cache_spec m) = false).
  { specialize (Ha i m Hm). unfold attends in Ha. unfold is_cross. by destruct (attn (kv_cache_spec m)). }
  rewrite Hc, Hl. exact Hrun.
Qed.

(** The sums over managers that the loops are budgeted with. *)
Definition missing_at (c : Coordinator) (rid : string) (nt : Z) (i : nat) : Z :=
  match single_type_managers c !! i with Some m => missing m rid nt | None => 0 end.

Definition covers (c : Coordinator) (rid : string) (nt : Z) : Prop :=
  forall i m, single_type_managers c !! i = Some m -> cdiv nt (block_size m) <= zlen (table m rid).

Definition others_kept (c c' : Coordinator) (rid : string) : Prop :=
  forall i m', single_type_managers c' !! i = Some m' ->
    exists m, single_type_managers c !! i = Some m /\ other_tables rid m m'.

Lemma others_kept_trans c1 c2 c3 rid : others_kept c1 c2 rid -> others_kept c2 c3 rid -> others_kept c1 c3 rid.
Proof.
  intros H1 H2 i m3 Hm3. destruct (H2 i m3 Hm3) as (m2 & Hm2 & O2). destruct (H1 i m2 Hm2) as (m1 & Hm1 & O1).
  exists m1. split; [done|]. by eapply other_tables_trans.
Qed.

Section ops.
Context (use_int : bool).

(** New blocks for every group. *)
Lemma c_alloc_total c xs R rid nt main enc slack :
  coord_inv c xs R -> all_attend c -> 0 <= slack ->
  slack + zsum (missing_at c rid nt <$> manager_indices c) <= zlen xs ->
  wp (c_allocate_new_blocks use_int rid nt main enc) (fun _ c' => exists xs',
    coord_inv c' xs' R /\ same_cconf c c' /\ slack <= zlen xs' /\ covers c' rid nt /\ others_kept c c' rid) c.
Proof.
  intros I Ha Hs Hle. unfold c_allocate_new_blocks.
  assert (Hpos : forall idxs, 0 <= zsum (missing_at c rid nt <$> idxs)).
  { induction idxs as [|i l IH]; [done|]. rewrite fmap_cons, zsum_cons. unfold missing_at at 1, missing.
    destruct (single_type_managers c !! i); lia. }
  eapply wp_mono; [eapply (map_managers_total _
    (fun rest xs' => slack + zsum (missing_at c rid nt <$> rest) <= zlen xs')
    (fun _ m _ m' => mconf m' = mconf m /\ cdiv nt (block_size m) <= zlen (table m' rid) /\ other_tables rid m m'));
    [exact I|exact Hle|]|].
  - intros i rest m p xs' R' Hm Im Hsp Hp Hok. apply wp_bind, wp_gets. cbn [fst].
    pose proof (Ha i m Hm) as Ham.
    assert (Hc : is_cross (kv_cache_spec m) = false).
    { unfold attends in Ham. unfold is_cross. by destruct (attn (kv_cache_spec m)). }
    rewrite Hc. rewrite fmap_cons, zsum_cons in Hok. unfold missing_at at 1 in Hok. rewrite Hm in Hok.
    specialize (Hpos rest). eapply wp_mono; [apply (alloc_step use_int m p rid nt main xs' R' Im Ham); lia|].
    intros a s' (xs'' & I' & Hc' & Hl & Hcov & Hoth). exists xs''. split; [done|]. split; [done|].
    split; [lia|]. split; [apply Hc'|done].
  - intros _ c' (xs' & I' & Hcc & Hok & Hp). exists xs'. split; [done|]. split; [done|].
    split; [unfold zsum in Hok; simpl in Hok; lia|]. split; intros i m' Hm'; destruct (Hp i m' Hm') as (m & _ & Hm & Hc & Hcov & Hoth).
    + apply mconf_eq in Hc as (-> & _). done.
    + by exists m.
Qed.

(** What callers respect for a request without a table: hits for every group,
    none where caching is off. *)
Definition new_request (c : Coordinator) (rid : string) (ncb : list (list ref)) : Prop :=
  forall i m, single_type_managers c !! i = Some m ->
    num_cached_block m !! rid = None /\ table m rid = [] /\
    exists l, ncb !! i = Some l /\ (m_enable_caching m = true \/ l = []).

(** Without hits: the request is known, or its computed tokens have blocks. *)
Definition no_hits (c : Coordinator) (rid : string) (total : Z) (ncb : list (list ref)) : Prop :=
  forall i m, single_type_managers c !! i = Some m ->
    ncb !! i = Some [] /\
    (is_Some (num_cached_block m !! rid) \/ skipped_blocks m total <= zlen (table m rid)).

Definition hits_cost_at (c : Coordinator) (ncb : list (list ref)) (local ext : Z) (xs : list ref) (i : nat) : Z :=
  match single_type_managers c !! i, ncb !! i with
  | Some m, Some l => hits_cost m l local ext xs
  | _, _ => 0
  end.

(** The blocks missing once the hits are attached. *)
Definition missing_after (c : Coordinator) (ncb : list (list ref)) (local ext nt : Z) (i : nat) : Z :=
  match single_type_managers c !! i, ncb !! i with
  | Some m, Some l =>
      Z.max 0 (cdiv nt (block_size m) - (zlen (hit_table m (local + ext) l) + external_need m l local ext))
  | _, _ => 0
  end.

Lemma hits_cost_nonneg m l local ext xs :
  spec_ok (kv_cache_spec m) -> 0 < block_size m -> local = zlen l * block_size m -> 0 <= ext ->
  0 <= hits_cost m l local ext xs.
Proof.
  intros Hs Hbs Hloc Hext. pose proof (external_need_nonneg m l local ext Hs Hbs Hloc Hext).
  unfold hits_cost, taken. lia.
Qed.

(** The hits of every group. *)
Lemma c_hits_total c xs R rid ncb local ext nt slack :
  coord_inv c xs R -> all_attend c -> new_request c rid ncb -> hits_ok c ncb local ext -> 0 <= slack ->
  slack + zsum (hits_cost_at c ncb local ext xs <$> manager_indices c) <= zlen xs ->
  wp (c_allocate_new_computed_blocks use_int rid ncb local ext) (fun _ c' => exists xs',
    coord_inv c' xs' R /\ same_cconf c c' /\ slack <= zlen xs' /\
    others_kept c c' rid /\ forall i, missing_at c' rid nt i = missing_after c ncb local ext nt i) c.
Proof.
  intros I Ha Hnew Hok Hs Hle. unfold c_allocate_new_computed_blocks.
  assert (Hat : forall (i : nat) m, attends m -> attn (kv_cache_spec m) <> CrossAttention).
  { intros i m. unfold attends. by destruct (attn (kv_cache_spec m)). }
  assert (Hbs : forall i m, single_type_managers c !! i = Some m -> 0 < block_size m).
  { intros i m Hm. pose proof (ci_managers _ _ _ I) as Im. by eapply Forall_lookup_1 in Im as [_ ? _ _ _]. }
  assert (Hpos : forall idxs, 0 <= zsum (hits_cost_at c ncb local ext xs <$> idxs)).
  { induction idxs as [|i l IH]; [done|]. rewrite fmap_cons, zsum_cons. unfold hits_cost_at at 1.
    destruct (single_type_managers c !! i) as [m|] eqn:Hm; [|lia]. destruct (ncb !! i) as [l'|] eqn:Hl; [|lia].
    destruct (Hok i m l' Hm Hl) as (_ & _ & Hloc & He).
    pose proof (hits_cost_nonneg m l' local ext xs (coord_spec_ok _ _ _ _ _ I Hm) (Hbs i m Hm)
      (Hloc (Hat i m (Ha i m Hm))) He). lia. }
  eapply wp_mono; [eapply (for_managers_total _
    (fun rest xs' => xs' ⊆ xs /\ slack + zsum (hits_cost_at c ncb local ext xs <$> rest) <= zlen xs')
    (fun i m m' => mconf m' = mconf m /\ other_tables rid m m' /\ forall l, ncb !! i = Some l ->
       zlen (table m' rid) = zlen (hit_table m (local + ext) l) + external_need m l local ext));
    [exact I|done|]|].
  - intros i rest m p xs' R' Hm Im Hsp Hp [Hsub Hb].
    destruct (Hnew i m Hm) as (Hnc & Ht & l & Hl & Hcache). rewrite Hl. apply wp_bind, wp_ret.
    destruct (Hok i m l Hm Hl) as (Hblk & Hnd & Hloc & He). specialize (Hloc (Hat i m (Ha i m Hm))).
    pose proof Hp as Hp'. apply config_eq in Hp' as (_ & _ & _ & E4 & E5 & _).
    rewrite fmap_cons, zsum_cons in Hb. unfold hits_cost_at at 1 in Hb. rewrite Hm, Hl in Hb.
    specialize (Hpos rest).
    pose proof (inv_nodup (mo_pool _ _ _ _ _ (Im rid))) as Hndx.
    pose proof (taken_mono (kept_hits m (local + ext) l) xs' xs Hndx Hsub) as Hmono.
    unfold hits_cost in Hb.
    eapply wp_mono; [apply (hits_step use_int m p rid l local ext xs' R' Im Hsp (Ha i m Hm) Hnc Ht)|].
    + by rewrite E4.
    + by rewrite E5.
    + done.
    + done.
    + done.
    + unfold hits_cost. lia.
    + unfold hits_cost. intros a s' (xs'' & I' & Hc' & Hsub' & Hlen & Htab & Hoth). exists xs''. split; [done|]. split; [done|].
      split; [split; [by transitivity xs'|lia]|]. split; [apply Hc'|]. split; [done|]. intros l' Hl'. by replace l' with l by congruence.
  - intros _ c' (xs' & I' & Hcc & [_ Hsl] & Hp). exists xs'. split; [done|]. split; [done|].
    split; [unfold zsum in Hsl; simpl in Hsl; lia|].
    split; [intros i m' Hm'; destruct (Hp i m' Hm') as (m & Hm & _ & Hoth & _); by exists m|].
    intros i. unfold missing_at, missing_after.
    destruct (single_type_managers c' !! i) as [m'|] eqn:Hm'.
    + destruct (Hp i m' Hm') as (m & Hm & Hc & _ & Htab). rewrite Hm.
      destruct (Hnew i m Hm) as (_ & _ & l & Hl & _). rewrite Hl. unfold missing. rewrite (Htab l Hl).
      by apply mconf_eq in Hc as (-> & _).
    + destruct (single_type_managers c !! i) as [m|] eqn:Hm; [|done]. exfalso.
      assert (Hi : i ∈ manager_indices c') .
      { rewrite (conf_indices _ _ Hcc). apply elem_of_seq. apply lookup_lt_Some in Hm. lia. }
      apply elem_of_seq in Hi as [_ Hi]. apply lookup_ge_None in Hm'. lia.
Qed.

(** The check for a new request, and what follows it. *)
Lemma c_admit_new c xs R rid nt main enc ncb local ext :
  coord_inv c xs R -> all_attend c -> new_request c rid ncb -> hits_ok c ncb local ext -> local + ext <= nt ->
  exists n, c_get_num_blocks_to_allocate rid nt ncb enc (local + ext) main false c = (Ok n, c) /\
    (n <= zlen xs ->
     wp (c_allocate_new_computed_blocks use_int rid ncb local ext ;;
         c_allocate_new_blocks use_int rid nt main enc) (fun _ c' => exists xs',
       coord_inv c' xs' R /\ same_cconf c c' /\ covers c' rid nt /\ others_kept c c' rid) c).
Proof.
  intros I Ha Hnew Hok Hle. eexists. split.
  - apply (c_predict rid nt ncb enc (local + ext) main false c
      (fun i => hits_cost_at c ncb local ext xs i + missing_after c ncb local ext nt i)); [done|].
    intros i m Hm. destruct (Hnew i m Hm) as (Hnc & Ht & l & Hl & _). exists l. split; [done|].
    destruct (Hok i m l Hm Hl) as (Hblk & Hnd & Hloc & He). unfold hits_cost_at, missing_after. rewrite Hm, Hl.
    eapply (predict_new m _ rid nt l local ext main xs); try done;
      [by apply coord_manager|by eapply coord_spec_ok|by eapply Ha|].
    apply Hloc. specialize (Ha i m Hm). unfold attends in Ha. by destruct (attn (kv_cache_spec m)).
  - rewrite zsum_add. intros Hn.
    assert (Hpos : 0 <= zsum (missing_after c ncb local ext nt <$> manager_indices c)).
    { clear Hn. induction (manager_indices c) as [|i l IH]; [done|]. rewrite fmap_cons, zsum_cons. unfold missing_after at 1.
      destruct (single_type_managers c !! i); [|lia]. destruct (ncb !! i); lia. }
    apply wp_bind. eapply wp_mono; [apply (c_hits_total c xs R rid ncb local ext nt
      (zsum (missing_after c ncb local ext nt <$> manager_indices c)) I Ha Hnew Hok Hpos); lia|].
    intros _ c1 (xs1 & I1 & Hc1 & Hs1 & Ho1 & Hm1).
    eapply wp_mono; [apply (c_alloc_total c1 xs1 R rid nt main enc 0 I1)|].
    + by eapply all_attend_conf.
    + lia.
    + rewrite (conf_indices _ _ Hc1).
      replace (missing_at c1 rid nt <$> manager_indices c)
        with (missing_after c ncb local ext nt <$> manager_indices c); [lia|].
      apply list_fmap_ext. intros _ i _. by rewrite Hm1.
    + intros _ c2 (xs2 & I2 & Hc2 & _ & Hcov & Ho2). exists xs2. split; [done|]. split; [by transitivity c1|].
      split; [done|]. by eapply others_kept_trans.
Qed.

(** The check when nothing is attached. *)
Lemma c_admit_running c xs R rid nt main enc ncb total :
  coord_inv c xs R -> all_attend c -> no_hits c rid total ncb ->
  exists n, c_get_num_blocks_to_allocate rid nt ncb enc total main false c = (Ok n, c) /\
    (n <= zlen xs ->
     wp (c_allocate_new_blocks use_int rid nt main enc) (fun _ c' => exists xs',
       coord_inv c' xs' R /\ same_cconf c c' /\ covers c' rid nt /\ others_kept c c' rid) c).
Proof.
  intros I Ha Hno. eexists. split.
  - apply (c_predict rid nt ncb enc total main false c (missing_at c rid nt)); [done|].
    intros i m Hm. destruct (Hno i m Hm) as (Hl & Hc). exists []. split; [done|].
    unfold missing_at. rewrite Hm. eapply predict_running; try done;
      [by apply coord_manager|by eapply coord_spec_ok|by eapply Ha].
  - intros Hn. eapply wp_mono; [apply (c_alloc_total c xs R rid nt main enc 0 I Ha); lia|].
    intros _ c2 (xs2 & I2 & Hc2 & _ & Hcov). by exists xs2.
Qed.
End ops.

(** ** Trimming first *)

(** What trimming leaves alone. *)
Definition trimmed_from (c c' : Coordinator) (rid : string) : Prop :=
  same_cconf c c' /\ forall i m', single_type_managers c' !! i = Some m' ->
    exists m, single_type_managers c !! i = Some m /\ mconf m' = mconf m /\
      num_cached_block m' = num_cached_block m /\ zlen (table m' rid) = zlen (table m rid) /\ other_tables rid m m'.

Lemma c_trim_total c xs R rid n :
  coord_inv c xs R -> all_attend c ->
  wp (c_remove_skipped_blocks rid n) (fun _ c' => exists xs', coord_inv c' xs' R /\ trimmed_from c c' rid) c.
Proof.
  intros I Ha. unfold c_remove_skipped_blocks.
  eapply wp_mono; [eapply (for_managers_total _ (fun _ _ => True) (fun _ m m' => mconf m' = mconf m /\
      num_cached_block m' = num_cached_block m /\ zlen (table m' rid) = zlen (table m rid) /\ other_tables rid m m'));
      [exact I|done|]|].
  - intros i rest m p xs' R' Hm Im Hsp _ _.
    assert (Hw : wp (base_remove_skipped_blocks rid n) (fun _ s' => trimmed m p rid R' s') (m, p)).
    { eapply wp_mono; [by eapply base_remove_skipped_blocks_spec|]. by intros _ s' [? _]. }
    assert (Hw' : wp (remove_skipped_blocks rid n) (fun _ s' => trimmed m p rid R' s') (m, p)).
    { specialize (Ha i m Hm). unfold attends in Ha. unfold remove_skipped_blocks. apply wp_bind, wp_gets. cbn [fst].
      by destruct (attn (kv_cache_spec m)). }
    eapply wp_mono; [exact Hw'|]. intros _ s' ([xs'' I'] & Hc & _ & Hn & _ & Hl & Hoth). exists xs''.
    split; [done|]. split; [done|]. split; [done|]. split; [apply Hc|]. split; [done|]. split; [lia|done].
  - intros _ c' (xs' & I' & Hcc & _ & Hp). exists xs'. split; [done|]. by split.
Qed.

Lemma new_request_trimmed c c' rid ncb : trimmed_from c c' rid -> new_request c rid ncb -> new_request c' rid ncb.
Proof.
  intros [_ Ht] Hn i m' Hm'. destruct (Ht i m' Hm') as (m & Hm & Hc & En & El & _).
  destruct (Hn i m Hm) as (H1 & H2 & l & H3 & H4). apply mconf_eq in Hc as (_ & _ & Ec & _).
  rewrite En, Ec. split; [done|]. split; [|by exists l].
  rewrite H2 in El. destruct (table m' rid); [done|simpl in El; lia].
Qed.

Lemma no_hits_trimmed c c' rid total ncb : trimmed_from c c' rid -> no_hits c rid total ncb -> no_hits c' rid total ncb.
Proof.
  intros [_ Ht] Hn i m' Hm'. destruct (Ht i m' Hm') as (m & Hm & Hc & En & El & _).
  destruct (Hn i m Hm) as (H1 & H2). apply mconf_eq in Hc as (Eb & Es & _).
  split; [done|]. rewrite En, El. unfold skipped_blocks in *. by rewrite Eb, Es.
Qed.

Lemma free_count k xs R : kv_inv k xs R -> on_k_pool get_num_free_blocks k = (Ok (zlen xs), k).
Proof.
  intros [I _]. unfold on_k_pool, on_coordinator, on_block_pool, zoom, get_num_free_blocks, gets.
  pose proof (rep_count _ _ (pi_rep _ _ _ _ (ci_pool _ _ _ I))) as E. rewrite E.
  by destruct k as [? ? ? ? [] ? ? ?].
Qed.

Lemma kv_of_coord k c xs R : kv_inv k xs R -> same_cconf (coordinator k) c ->
  forall xs', coord_inv c xs' R -> kv_inv (set_coordinator c k) xs' R.
Proof.
  intros [_ He] Hc xs' I. split; [done|]. simpl. rewrite <- He. unfold same_cconf, cconf in Hc.
  pose proof (f_equal snd Hc) as Hp. cbn [snd] in Hp. by apply config_eq in Hp as (_ & E2 & _).
Qed.

(** ** [allocate_slots] *)

Definition slot_need (k : KVCacheManager) (request : Request) (a : SlotArgs) : Z :=
  Z.min (Z.min (num_computed_tokens request + num_new_computed_tokens a + num_external_computed_tokens a)
           (k_max_model_len k) + num_new_tokens a + num_lookahead_tokens a) (k_max_model_len k).

(** What the scheduler passes: hits and external tokens only for a request that
    has no blocks yet, within the model length. *)
Record slot_request (k : KVCacheManager) (request : Request) (a : SlotArgs) : Prop := {
  sr_case : let ncb := default (empty_kv_cache_blocks k) (new_computed_blocks a) in
    let total := num_computed_tokens request + num_new_computed_tokens a + num_external_computed_tokens a in
    if negb (is_shared_empty ncb) || (0 <? num_external_computed_tokens a)
    then new_request (coordinator k) (request_id request) (kb_blocks ncb)
    else no_hits (coordinator k) (request_id request) total (kb_blocks ncb);
  sr_len : num_computed_tokens request + num_new_computed_tokens a + num_external_computed_tokens a
             <= k_max_model_len k;
  sr_lookahead : 0 <= num_lookahead_tokens a;
  sr_reserved : 0 <= reserved_blocks a;
  sr_watermark : 0 <= watermark_blocks k;
  sr_some : ~ (num_new_tokens a = 0 /\ num_external_computed_tokens a = 0)
}.

Lemma trimmed_refl c rid : trimmed_from c c rid.
Proof. split; [done|]. intros i m Hm. by exists m. Qed.

Lemma trimmed_others c c' rid : trimmed_from c c' rid -> others_kept c c' rid.
Proof. intros [_ H] i m' Hm'. destruct (H i m' Hm') as (m & Hm & _ & _ & _ & Ho). by exists m. Qed.

(** The check answers, with or without the admission cap. *)
Lemma c_predict_answers c xs R rid nt ncb enc total main cap :
  coord_inv c xs R -> all_attend c ->
  (forall i m, single_type_managers c !! i = Some m -> exists l, ncb !! i = Some l /\
     (forall b, b ∈ l -> b ∈ blocks (c_block_pool c)) /\ (is_Some (num_cached_block m !! rid) -> l = [])) ->
  exists n, c_get_num_blocks_to_allocate rid nt ncb enc total main cap c = (Ok n, c).
Proof.
  intros I Ha H.
  set (f := fun i => match single_type_managers c !! i, ncb !! i with
                     | Some m, Some l =>
                         match (get_num_blocks_to_allocate rid nt l total main cap (m, c_block_pool c)).1 with
                         | Ok n => n | Err _ => 0 end
                     | _, _ => 0 end).
  eexists. apply (c_predict rid nt ncb enc total main cap c f Ha). intros i m Hm.
  destruct (H i m Hm) as (l & Hl & Hb & Hc). exists l. split; [done|].
  destruct (predict_total m (c_block_pool c) rid nt l total main cap xs _ (coord_manager c xs R i m I Hm)
    (coord_spec_ok _ _ _ _ _ I Hm) (Ha i m Hm) Hb Hc) as [n Hn].
  unfold f. by rewrite Hm, Hl, Hn.
Qed.

Lemma slot_hits_known k xs R request a :
  kv_inv k xs R -> slot_ok k request a -> slot_request k request a ->
  let ncb := kb_blocks (default (empty_kv_cache_blocks k) (new_computed_blocks a)) in
  forall i m, single_type_managers (coordinator k) !! i = Some m -> exists l, ncb !! i = Some l /\
     (forall b, b ∈ l -> b ∈ blocks (c_block_pool (coordinator k))) /\
     (is_Some (num_cached_block m !! request_id request) -> l = []).
Proof.
  intros I Hok [Hcase _ _ _ _ _] ncb i m Hm. cbv zeta in Hcase. fold ncb in Hcase.
  pose proof (so_hits _ _ _ Hok) as Hh. cbv zeta in Hh. fold ncb in Hh. destruct (_ || _).
  - destruct (Hcase i m Hm) as (Hn & _ & l & Hl & _). exists l. split; [done|].
    destruct (Hh eq_refl i m l Hm Hl) as (Hb & _). split; [done|]. rewrite Hn. by intros [? ?].
  - destruct (Hcase i m Hm) as (Hl & _). exists []. split; [done|]. split; [set_solver|done].
Qed.

Lemma full_sequence_fits_answers k xs R request a :
  kv_inv k xs R -> slot_ok k request a -> slot_request k request a -> all_attend (coordinator k) ->
  forall total, exists b, full_sequence_fits k request a
    (kb_blocks (default (empty_kv_cache_blocks k) (new_computed_blocks a))) total k = (Ok b, k).
Proof.
  intros I Hok Hreq Ha total. unfold full_sequence_fits. case_match; [|by eexists]. cbv zeta.
  unfold mbind, M_bind. unfold on_coordinator at 1, zoom at 1.
  match goal with |- context [c_get_num_blocks_to_allocate ?rid ?nt ?l ?enc ?t ?main ?cap _] =>
    destruct (c_predict_answers (coordinator k) xs R rid nt l enc t main cap) as [n Hn];
      [apply I|done|by apply slot_hits_known with xs R|] end.
  rewrite Hn. assert (Ek : set_coordinator (coordinator k) k = k) by (by destruct k). rewrite Ek.
  rewrite (free_count k xs R I). by eexists.
Qed.

Section ops.
Context (use_int : bool) (sha256 : bytes -> bytes).

(** The last part of [allocate_slots], caching. *)
Definition cache_slots (k : KVCacheManager) (request : Request) (a : SlotArgs) (new : list (list ref))
    : M KVCacheManager (option KVCacheBlocks) :=
  (if negb (k_enable_caching k) || delay_cache_blocks a then mret tt
   else
     let total := Z.min (num_computed_tokens request + num_new_computed_tokens a + num_external_computed_tokens a)
                    (k_max_model_len k) in
     on_coordinator (c_cache_blocks use_int sha256 request
       (Z.min (total + num_new_tokens a) (num_tokens request)))) ;;
  mret (Some (create_kv_cache_blocks k new)).

(** What a call ends with: it declines after trimming at most, or the blocks
    are there for all tokens and only caching is left. *)
Definition slots_outcome (k : KVCacheManager) (R : list ref) (request : Request) (a : SlotArgs)
    (o : result (option KVCacheBlocks) * KVCacheManager) : Prop :=
  match o with
  | (Ok None, k') => (exists xs', kv_inv k' xs' R) /\
      trimmed_from (coordinator k) (coordinator k') (request_id request)
  | _ => exists ka xs' new, kv_inv ka xs' R /\ same_cconf (coordinator k) (coordinator ka) /\
      covers (coordinator ka) (request_id request) (slot_need k request a) /\
      others_kept (coordinator k) (coordinator ka) (request_id request) /\
      o = cache_slots k request a new ka
  end.

Lemma cache_slots_outcome k R request a ka xs' new :
  kv_inv ka xs' R -> same_cconf (coordinator k) (coordinator ka) ->
  covers (coordinator ka) (request_id request) (slot_need k request a) ->
  others_kept (coordinator k) (coordinator ka) (request_id request) ->
  slots_outcome k R request a (cache_slots k request a new ka).
Proof.
  intros I Hc Hcov Hoth. unfold slots_outcome.
  destruct (cache_slots k request a new ka) as [[[b|]|e] k'] eqn:E.
  - by exists ka, xs', new.
  - exfalso. unfold cache_slots, mbind, M_bind in E.
    match type of E with (let (_, _) := ?o in _) = _ => destruct o as [[?|?] ?] | match ?o with _ => _ end = _ => destruct o as [[?|?] ?] end; done.
  - by exists ka, xs', new.
Qed.

(** [commit_slots] when both allocations succeed. *)
Lemma commit_slots_run k k1 c1 c2 c3 request a ncb local total need main new :
  coordinator k1 = c1 -> set_coordinator c3 k1 = set_coordinator c3 k ->
  (if negb (is_shared_empty ncb) || (0 <? num_external_computed_tokens a)
   then c_allocate_new_computed_blocks use_int (request_id request) (kb_blocks ncb) local
          (num_external_computed_tokens a) c1 = (Ok tt, c2)
   else c2 = c1) ->
  c_allocate_new_blocks use_int (request_id request) need main (num_encoder_tokens a) c2 = (Ok new, c3) ->
  total = Z.min (num_computed_tokens request + num_new_computed_tokens a + num_external_computed_tokens a)
            (k_max_model_len k) ->
  (nb ← commit_slots use_int sha256 k request a ncb local total need main; mret (Some nb)) k1
  = cache_slots k request a new (set_coordinator c3 k).
Proof.
  intros Hk1 Hset H1 H2 Ht. unfold commit_slots, cache_slots. rewrite <- Ht, <- Hset.
  assert (Hfin : forall (o : M KVCacheManager unit) s,
    match (match o s with (Ok _, s') => (Ok (create_kv_cache_blocks k new), s') | (Err e, s') => (Err e, s') end) with
    | (Ok x, s') => (Ok (Some x), s') | (Err e, s') => (Err e, s') end
    = match o s with (Ok _, s') => (Ok (Some (create_kv_cache_blocks k new)), s') | (Err e, s') => (Err e, s') end).
  { intros o s. by destruct (o s) as [[]]. }
  unfold mbind, M_bind, mret, M_ret. cbv zeta. destruct (_ || _) in *.
  - unfold on_coordinator at 1, zoom at 1. rewrite Hk1, H1. unfold on_coordinator at 1, zoom at 1. simpl coordinator.
    rewrite H2. apply Hfin.
  - subst c2. unfold on_coordinator at 1, zoom at 1. rewrite Hk1, H2. apply Hfin.
Qed.

(** After trimming, the check on the managers and what follows when it passes. *)
Lemma slots_admitted k xs R request a c1 xs1 :
  kv_inv k xs R -> slot_ok k request a -> slot_request k request a ->
  coord_inv c1 xs1 R -> trimmed_from (coordinator k) c1 (request_id request) -> all_attend c1 ->
  let ncb := default (empty_kv_cache_blocks k) (new_computed_blocks a) in
  let local := num_computed_tokens request + num_new_computed_tokens a in
  let total := Z.min (local + num_external_computed_tokens a) (k_max_model_len k) in
  exists n, c_get_num_blocks_to_allocate (request_id request)
      (Z.min (total + num_new_tokens a + num_lookahead_tokens a) (k_max_model_len k)) (kb_blocks ncb)
      (num_encoder_tokens a) (local + num_external_computed_tokens a) (total + num_new_tokens a) false c1 = (Ok n, c1) /\
    (n <= zlen xs1 -> exists ka xs' new, kv_inv ka xs' R /\ same_cconf (coordinator k) (coordinator ka) /\
      covers (coordinator ka) (request_id request) (slot_need k request a) /\
      others_kept (coordinator k) (coordinator ka) (request_id request) /\
      (nb ← commit_slots use_int sha256 k request a ncb local total
        (Z.min (total + num_new_tokens a + num_lookahead_tokens a) (k_max_model_len k))
        (total + num_new_tokens a); mret (Some nb)) (set_coordinator c1 k)
      = cache_slots k request a new ka).
Proof.
  intros I Hok [Hcase Hlen Hla Hres Hwm Hsome] I1 T1 Ha1 ncb local total. cbv zeta in Hcase. fold ncb in Hcase.
  set (k1 := set_coordinator c1 k).
  destruct (negb (is_shared_empty ncb) || (0 <? num_external_computed_tokens a)) eqn:Eat.
  - pose proof (hits_ok_conf _ _ _ _ _ (proj1 T1) (so_hits _ _ _ Hok Eat)) as Hh.
    destruct (c_admit_new use_int c1 xs1 R (request_id request)
      (Z.min (total + num_new_tokens a + num_lookahead_tokens a) (k_max_model_len k))
      (total + num_new_tokens a) (num_encoder_tokens a) (kb_blocks ncb) local (num_external_computed_tokens a)
      I1 Ha1 (new_request_trimmed _ _ _ _ T1 Hcase) Hh) as (n & Hn & Hgo).
    { pose proof (so_new _ _ _ Hok). unfold total. lia. }
    exists n. split; [exact Hn|]. intros Hx.
    destruct (wp_returns _ _ _ (Hgo Hx)) as (new & c3 & Hrun & xs3 & I3 & Hc3 & Hcov & Ho3).
    unfold mbind at 1, M_bind at 1 in Hrun.
    destruct (c_allocate_new_computed_blocks _ _ _ _ _ c1) as [[[]|e] c2] eqn:E2; [|done].
    assert (Hck : same_cconf (coordinator k) c3) by (transitivity c1; [apply T1|done]).
    exists (set_coordinator c3 k), xs3, new.
    split; [by eapply kv_of_coord|]. split; [done|]. split; [done|].
    split; [eapply others_kept_trans; [by apply trimmed_others|done]|].
    eapply (commit_slots_run k k1 c1 c2 c3); [done|done|by rewrite Eat|exact Hrun|done].
  - destruct (c_admit_running use_int c1 xs1 R (request_id request)
      (Z.min (total + num_new_tokens a + num_lookahead_tokens a) (k_max_model_len k))
      (total + num_new_tokens a) (num_encoder_tokens a) (kb_blocks ncb) (local + num_external_computed_tokens a)
      I1 Ha1 (no_hits_trimmed _ _ _ _ _ T1 Hcase)) as (n & Hn & Hgo).
    exists n. split; [exact Hn|]. intros Hx.
    destruct (wp_returns _ _ _ (Hgo Hx)) as (new & c3 & Hrun & xs3 & I3 & Hc3 & Hcov & Ho3).
    assert (Hck : same_cconf (coordinator k) c3) by (transitivity c1; [apply T1|done]).
    exists (set_coordinator c3 k), xs3, new.
    split; [by eapply kv_of_coord|]. split; [done|]. split; [done|].
    split; [eapply others_kept_trans; [by apply trimmed_others|done]|].
    eapply (commit_slots_run k k1 c1 c1 c3); [done|done|by rewrite Eat|exact Hrun|done].
Qed.

(** C18. [allocate_slots] never runs short of blocks halfway. For full,
    sliding-window and chunked local attention groups in any combination, in
    any state with the pool's invariant, a call by the rules of the scheduler
    either returns None, having at most trimmed the request's tables, or attaches
    the hits of all groups and gives every group blocks for all tokens that
    need a slot; in both cases the tables of other requests are untouched, and
    nothing but the caching that follows can raise. *)
Theorem allocate_slots_never_short k xs R request a :
  kv_inv k xs R -> slot_ok k request a -> slot_request k request a -> all_attend (coordinator k) ->
  slots_outcome k R request a (allocate_slots use_int sha256 request a k).
Proof.
  intros I Hok Hreq Ha. pose proof Hreq as [Hcase Hlen Hla Hres Hwm Hsome]. cbv zeta in Hcase.
  set (ncb := default (empty_kv_cache_blocks k) (new_computed_blocks a)) in *.
  unfold allocate_slots. 
  assert (Hg : (num_new_tokens a =? 0) && (num_external_computed_tokens a =? 0) = false).
  { apply not_true_iff_false. intros [E1%Z.eqb_eq E2%Z.eqb_eq]%andb_true_iff. tauto. }
  rewrite Hg.
  unfold mbind at 1, M_bind at 1, get at 1. fold ncb. cbv zeta.
  set (local := num_computed_tokens request + num_new_computed_tokens a) in *.
  set (total := Z.min (local + num_external_computed_tokens a) (k_max_model_len k)).
  destruct (full_sequence_fits_answers k xs R request a I Hok Hreq Ha total) as [b Hb].
  fold ncb in Hb. unfold mbind at 1, M_bind at 1. rewrite Hb.
  destruct b; cbn [negb]; [|by split; [exists xs|apply trimmed_refl]].
  destruct (wp_returns _ _ _ (c_trim_total (coordinator k) xs R (request_id request) total (proj1 I) Ha))
    as ([] & c1 & Htrim & xs1 & I1 & T1).
  unfold mbind at 1, M_bind at 1. unfold on_coordinator at 1, zoom at 1. rewrite Htrim.
  set (k1 := set_coordinator c1 k).
  assert (Ik1 : kv_inv k1 xs1 R) by (eapply kv_of_coord; [exact I|apply T1|done]).
  assert (Ha1 : all_attend c1) by (eapply all_attend_conf; [apply T1|done]).
  destruct (slots_admitted k xs R request a c1 xs1 I Hok Hreq I1 T1 Ha1) as (n & Hn & Hgo).
  fold ncb in Hn, Hgo. fold local in Hn, Hgo. fold total k1 in Hn, Hgo.
  unfold mbind at 1, M_bind at 1. unfold on_coordinator at 1, zoom at 1. cbn [coordinator k1 set_coordinator].
  rewrite Hn. unfold mbind at 1, M_bind at 1.
  assert (Ek1 : set_coordinator c1 k1 = k1) by done. rewrite Ek1, (free_count k1 xs1 R Ik1).
  destruct (Z.ltb_spec (zlen xs1 - reserved_blocks a) (n + watermark_for k request a)) as [|Hle].
  { split; [by exists xs1|done]. }
  destruct Hgo as (ka & xs' & new & Ika & Hcc & Hcov & Hoth & ->).
  { unfold watermark_for in Hle. destruct (_ && _) in Hle; lia. }
  by eapply cache_slots_outcome.
Qed.

End ops.

(** ** A witness: room for seven tokens, none for forty *)

Lemma allocate_slots_never_short_witness : exists k0 b k1 k2,
  sample_manager_k = Ok k0 /\
  allocate_slots false id sample_request (slots 7) k0 = (Ok (Some b), k1) /\
  allocate_slots false id sample_request (slots 40) k0 = (Ok None, k2) /\
  slots_outcome false id k0 [] sample_request (slots 7) (Ok (Some b), k1) /\
  slots_outcome false id k0 [] sample_request (slots 40) (Ok None, k2).
Proof.
  destruct sample_manager_k as [k0|] eqn:E; [|vm_compute in E; discriminate E].
  assert (I : exists xs, kv_inv k0 xs []).
  { eapply kv_manager_init_inv; [exact E| | |].
    - split; [|vm_compute; reflexivity]. repeat constructor.
    - lia.
    - vm_compute. reflexivity. }
  destruct I as [xs I].
  assert (Ha : all_attend (coordinator k0)).
  { vm_compute in E. injection E as <-. intros [|[|i]] m Hm; [injection Hm as <-; exact Logic.I..|discriminate Hm]. }
  assert (Hok : forall n, 0 < n -> slot_ok k0 sample_request (slots n)).
  { intros n Hn. vm_compute in E. injection E as <-.
    constructor; [vm_compute; discriminate..|cbn; lia|vm_compute; discriminate|]. intros ncb H. discriminate H. }
  assert (Hreq : forall n, 0 < n -> slot_request k0 sample_request (slots n)).
  { intros n Hn. vm_compute in E. injection E as <-. constructor; try (vm_compute; discriminate).
    - cbn. intros [|[|i]] m Hm; [injection Hm as <-|injection Hm as <-|discriminate Hm];
        (split; [reflexivity|right; vm_compute; discriminate]).
    - cbn. lia. }
  pose proof (allocate_slots_never_short false id k0 xs [] sample_request (slots 7) I (Hok 7 ltac:(lia))
    (Hreq 7 ltac:(lia)) Ha) as H7.
  pose proof (allocate_slots_never_short false id k0 xs [] sample_request (slots 40) I (Hok 40 ltac:(lia))
    (Hreq 40 ltac:(lia)) Ha) as H40.
  assert (E7 : match (allocate_slots false id sample_request (slots 7) k0).1 with Ok (Some _) => true | _ => false end = true).
  { vm_compute in E. injection E as <-. vm_compute. reflexivity. }
  assert (E40 : match (allocate_slots false id sample_request (slots 40) k0).1 with Ok None => true | _ => false end = true).
  { vm_compute in E. injection E as <-. vm_compute. reflexivity. }
  destruct (allocate_slots false id sample_request (slots 7) k0) as [[[b|]|] k1] eqn:A7; try discriminate E7.
  destruct (allocate_slots false id sample_request (slots 40) k0) as [[[b'|]|] k2] eqn:A40; try discriminate E40.
  exists k0, b, k1, k2. split; [reflexivity|]. split; [exact A7|]. split; [exact A40|]. split; [exact H7|exact H40].
Defined.

End AdmissionSafety.
