(* ===== verification/NgramProposer.v ===== *)
(** * NgramProposer

    v1/spec_decode/ngram_proposer.py: drafting tokens by looking the last tokens
    of a request up in what came before. The search is the prefix function of
    Knuth, Morris and Pratt on the reversed tokens, capped at [max_ngram]; it is
    proved equal to the direct search it stands for. *)

From S2P Require Import Prelude.

Module NgramProposer.
#[local] Open Scope nat_scope.

(** ** The search *)

(** The local variables of the loop. *)
Record Kmp := mkKmp {
  lps : list nat;
  longest_ngram : nat;
  position : nat;
  prev_lps : nat;
  kmp_i : nat
}.

(** One turn of [while i < total_token]; reading outside an array is an
    IndexError. *)
Definition kmp_step (tokens : list Z) (max_ngram : nat) (s : Kmp) : result Kmp :=
  match tokens !! prev_lps s, tokens !! kmp_i s with
  | Some a, Some b =>
      if (a =? b)%Z then
        let prev := prev_lps s + 1 in
        let longer := longest_ngram s <=? prev in
        let lps1 := if kmp_i s <? max_ngram then <[kmp_i s := prev]> (lps s) else lps s in
        let found p := mkKmp lps1 (if longer then prev else longest_ngram s)
                         (if longer then kmp_i s else position s) p (kmp_i s + 1) in
        if prev =? max_ngram then
          match lps1 !! (max_ngram - 1) with None => Err IndexError | Some p => Ok (found p) end
        else Ok (found prev)
      else if negb (prev_lps s =? 0) then
        match lps s !! (prev_lps s - 1) with
        | None => Err IndexError
        | Some p => Ok (mkKmp (lps s) (longest_ngram s) (position s) p (kmp_i s))
        end
      else Ok (mkKmp (lps s) (longest_ngram s) (position s) (prev_lps s) (kmp_i s + 1))
  | _, _ => Err IndexError
  end.

(** The loop; each turn moves on by one token or falls back to a shorter
    prefix, so twice the number of tokens is enough fuel. *)
Fixpoint kmp_loop (fuel : nat) (tokens : list Z) (max_ngram : nat) (s : Kmp) : result Kmp :=
  if kmp_i s <? length tokens then
    match fuel with
    | O => Err OutOfFuel
    | S fuel' => match kmp_step tokens max_ngram s with
                 | Err e => Err e
                 | Ok s' => kmp_loop fuel' tokens max_ngram s'
                 end
    end
  else Ok s.

Definition find_longest_matched_ngram_and_propose_tokens (origin_tokens : list Z)
    (min_ngram max_ngram : nat) (max_model_len k : Z) : result (list Z) :=
  let total_token := length origin_tokens in
  if total_token <? min_ngram then Ok []
  else
    let k := Z.min k (max_model_len - Z.of_nat total_token) in
    if (k <=? 0)%Z then Ok []
    else
      let tokens := reverse origin_tokens in
      match kmp_loop (2 * total_token) tokens max_ngram (mkKmp (replicate max_ngram 0) 0 0 0 1) with
      | Err e => Err e
      | Ok s =>
          if longest_ngram s <? min_ngram then Ok []
          else
            let start_position := total_token - 1 - position s + longest_ngram s in
            let k := Z.min k (Z.of_nat total_token - Z.of_nat start_position) in
            Ok (take (Z.to_nat k) (drop start_position origin_tokens))
      end.

(** ** The proposer *)

(** The settings, and the buffers the batch loop writes its drafts to: a row of
    [ng_k] tokens and a count per request. *)
Record NgramProposer := mkNgram {
  min_n : nat;
  max_n : nat;
  ng_k : nat;
  ng_max_model_len : Z;
  valid_ngram_draft : list (list Z);
  valid_ngram_num_drafts : list nat
}.

Definition set_drafts (d : list (list Z)) (n : list nat) (p : NgramProposer) : NgramProposer :=
  mkNgram (min_n p) (max_n p) (ng_k p) (ng_max_model_len p) d n.

(** One turn of the parallel loop of [batch_propose_numba]. *)
Definition draft_one (num_tokens_no_spec : list nat) (token_ids_cpu : list (list Z)) (idx : nat)
    (p : NgramProposer) : result NgramProposer :=
  match num_tokens_no_spec !! idx, token_ids_cpu !! idx, valid_ngram_draft p !! idx,
        valid_ngram_num_drafts p !! idx with
  | Some num_tokens, Some tokens, Some row, Some _ =>
      match find_longest_matched_ngram_and_propose_tokens (take num_tokens tokens) (min_n p) (max_n p)
              (ng_max_model_len p) (Z.of_nat (ng_k p)) with
      | Err e => Err e
      | Ok out =>
          if length out <=? length row then
            Ok (set_drafts (<[idx := out ++ drop (length out) row]> (valid_ngram_draft p))
                  (<[idx := length out]> (valid_ngram_num_drafts p)) p)
          else Err ValueError
      end
  | _, _, _, _ => Err IndexError
  end.

(** [prange]: [order] is the order in which the threads get to the requests. *)
Fixpoint batch_propose_numba (order : list nat) (num_tokens_no_spec : list nat)
    (token_ids_cpu : list (list Z)) (p : NgramProposer) : result NgramProposer :=
  match order with
  | [] => Ok p
  | idx :: order' =>
      match draft_one num_tokens_no_spec token_ids_cpu idx p with
      | Err e => Err e
      | Ok p' => batch_propose_numba order' num_tokens_no_spec token_ids_cpu p'
      end
  end.

Definition read_draft (valid : list nat) (p : NgramProposer) (i : nat) : result (list Z) :=
  if decide (i ∈ valid) then
    match valid_ngram_num_drafts p !! i, valid_ngram_draft p !! i with
    | Some n, Some row => Ok (if 0 <? n then take n row else [])
    | _, _ => Err IndexError
    end
  else Ok [].

Fixpoint read_drafts (valid : list nat) (p : NgramProposer) (idxs : list nat) : result (list (list Z)) :=
  match idxs with
  | [] => Ok []
  | i :: idxs' =>
      match read_draft valid p i, read_drafts valid p idxs' with
      | Ok d, Ok ds => Ok (d :: ds)
      | Err e, _ => Err e
      | _, Err e => Err e
      end
  end.

Definition batch_propose (num_requests : nat) (valid order : list nat) (num_tokens_no_spec : list nat)
    (token_ids_cpu : list (list Z)) (p : NgramProposer) : result (list (list Z) * NgramProposer) :=
  match batch_propose_numba order num_tokens_no_spec token_ids_cpu p with
  | Err e => Err e
  | Ok p' => match read_drafts valid p' (seq 0 num_requests) with
             | Err e => Err e
             | Ok ds => Ok (ds, p')
             end
  end.

(** The requests that sampled something and have room left. *)
Fixpoint ngram_requests (i : nat) (sampled_token_ids : list (list Z)) (num_tokens_no_spec : list nat)
    (max_model_len : Z) : result (list nat) :=
  match sampled_token_ids with
  | [] => Ok []
  | ids :: rest =>
      match ngram_requests (S i) rest num_tokens_no_spec max_model_len with
      | Err e => Err e
      | Ok valid =>
          if length ids =? 0 then Ok valid
          else match num_tokens_no_spec !! i with
               | None => Err IndexError
               | Some n => if (max_model_len <=? Z.of_nat n)%Z then Ok valid else Ok (i :: valid)
               end
      end
  end.

(** [propose]; [order] picks the order of the parallel loop. *)
Definition propose (order : list nat -> list nat) (sampled_token_ids : list (list Z))
    (num_tokens_no_spec : list nat) (token_ids_cpu : list (list Z)) (p : NgramProposer)
    : result (list (list Z) * NgramProposer) :=
  match ngram_requests 0 sampled_token_ids num_tokens_no_spec (ng_max_model_len p) with
  | Err e => Err e
  | Ok valid => batch_propose (length sampled_token_ids) valid (order valid) num_tokens_no_spec token_ids_cpu p
  end.

(** ** The direct search *)

(** The last [n] tokens also start at [s], and not only at the end. *)
Definition occurs (o : list Z) (n s : nat) : bool :=
  (s + n <? length o) && bool_decide (take n (drop s o) = drop (length o - n) o).

(** The earliest place where the last [n] tokens occur. *)
Definition first_match (o : list Z) (n : nat) : option nat :=
  head (filter (fun s => occurs o n s = true) (seq 0 (length o))).

(** The largest [n] from [lo + d] down to [lo] whose last [n] tokens occur earlier. *)
Fixpoint longest_match (o : list Z) (lo d : nat) : option (nat * nat) :=
  match first_match o (lo + d) with
  | Some s => Some (lo + d, s)
  | None => match d with O => None | S d' => longest_match o lo d' end
  end.

Definition propose_spec (o : list Z) (min_ngram max_ngram : nat) (max_model_len k : Z) : list Z :=
  match longest_match o min_ngram (max_ngram - min_ngram) with
  | None => []
  | Some (n, s) => take (Z.to_nat (Z.min k (max_model_len - Z.of_nat (length o)))) (drop (s + n) o)
  end.

(** ** Borders *)

Section borders.
Context (t : list Z).

(** [t[:v]] is a proper prefix and a suffix of [t[:i]]. *)
Definition border (i v : nat) : Prop :=
  v < i /\ forall j, j < v -> t !! j = t !! (i - v + j).

Lemma border_0 i : 0 < i -> border i 0.
Proof. intros. split; [lia|]. intros; lia. Qed.

Lemma border_step i v : border (S i) (S v) <-> border i v /\ t !! v = t !! i.
Proof.
  split.
  - intros [H1 H2]. assert (Hv : v < i) by lia. split; [split; [done|]|].
    + intros j Hj. rewrite (H2 j) by lia. f_equal; lia.
    + rewrite (H2 v) by lia. f_equal; lia.
  - intros [[H1 H2] H3]. split; [lia|]. intros j Hj. destruct (decide (j = v)) as [->|].
    + rewrite H3. f_equal; lia.
    + rewrite (H2 j) by lia. f_equal; lia.
Qed.

Lemma border_trans i p q : border i p -> border p q -> border i q.
Proof.
  intros [H1 H2] [H3 H4]. split; [lia|]. intros j Hj. rewrite (H4 j), (H2 (p - q + j)) by lia. f_equal; lia.
Qed.

Lemma border_nested i p q : border i p -> border i q -> q < p -> border p q.
Proof.
  intros [H1 H2] [H3 H4] Hlt. split; [done|]. intros j Hj. rewrite (H4 j), (H2 (p - q + j)) by lia. f_equal; lia.
Qed.

(** ** The invariant of the loop *)

Context (max_ngram : nat).
Hypothesis Hmax : 0 < max_ngram.

(** The longest match found before position [i], at the last place. *)
Record best (i L pos : nat) : Prop := {
  be_max : forall j v, 1 <= j < i -> v <= max_ngram -> border (S j) v -> v <= L;
  be_pos : (L = 0 /\ pos = 0) \/
    (1 <= pos < i /\ 1 <= L <= max_ngram /\ border (S pos) L /\ forall j, pos < j < i -> ~ border (S j) L)
}.

Record kmp_inv (s : Kmp) : Prop := {
  ki_i : 1 <= kmp_i s;
  ki_length : length (lps s) = max_ngram;
  ki_lps : forall j, j < kmp_i s -> j < max_ngram -> exists b, lps s !! j = Some b /\
             border (S j) b /\ forall q, border (S j) q -> q <= b;
  ki_zero : forall j, kmp_i s <= j < max_ngram -> lps s !! j = Some 0;
  ki_prev : prev_lps s < max_ngram /\ border (kmp_i s) (prev_lps s);
  ki_cand : forall q, border (kmp_i s) q -> q < max_ngram -> t !! q = t !! kmp_i s -> q <= prev_lps s;
  ki_best : best (kmp_i s) (longest_ngram s) (position s)
}.

(** What is left to do. *)
Definition kmp_measure (s : Kmp) : nat := 2 * (length t - kmp_i s) + prev_lps s.

Lemma kmp_init : kmp_inv (mkKmp (replicate max_ngram 0) 0 0 0 1).
Proof.
  constructor; simpl.
  - lia.
  - by rewrite length_replicate.
  - intros j Hj Hm. assert (j = 0) as -> by lia. exists 0. split; [apply lookup_replicate; by split|].
    split; [by apply border_0; lia|]. intros q [Hq _]. lia.
  - intros j [_ Hj]. by apply lookup_replicate.
  - split; [done|apply border_0; lia].
  - intros q [Hq _] _ _. lia.
  - constructor; [intros; lia|by left].
Qed.

(** A match of length [v] at [i] that no longer one beats. *)
Lemma best_match i L pos v :
  1 <= i -> best i L pos -> 1 <= v <= max_ngram -> border (S i) v ->
  (forall q, q <= max_ngram -> border (S i) q -> q <= v) ->
  best (S i) (if L <=? v then v else L) (if L <=? v then i else pos).
Proof.
  intros Hi [B1 B2] Hv Hb Hmaxv. destruct (Nat.leb_spec L v).
  - constructor.
    + intros j q Hj Hq Hbj. destruct (decide (j = i)) as [->|]; [auto|].
      specialize (B1 j q ltac:(lia) Hq Hbj). lia.
    + right. split; [lia|]. split; [done|]. split; [done|]. intros; lia.
  - constructor.
    + intros j q Hj Hq Hbj. destruct (decide (j = i)) as [->|].
      * specialize (Hmaxv q Hq Hbj). lia.
      * apply (B1 j q); [lia|done|done].
    + destruct B2 as [[? ?]|(P1 & P2 & P3 & P4)]; [lia|]. right. split; [lia|]. split; [done|]. split; [done|].
      intros j Hj Hbj. destruct (decide (j = i)) as [->|]; [|by apply (P4 j); [lia|]].
      specialize (Hmaxv L ltac:(lia) Hbj). lia.
Qed.

Lemma best_nomatch i L pos :
  1 <= i -> best i L pos -> (forall q, q <= max_ngram -> border (S i) q -> q = 0) -> best (S i) L pos.
Proof.
  intros Hi [B1 B2] Hno. constructor.
  - intros j q Hj Hq Hbj. destruct (decide (j = i)) as [->|]; [rewrite (Hno q Hq Hbj); lia|].
    apply (B1 j q); [lia|done|done].
  - destruct B2 as [?|(P1 & P2 & P3 & P4)]; [by left|]. right. split; [lia|]. split; [done|]. split; [done|].
    intros j Hj Hbj. destruct (decide (j = i)) as [->|]; [|by apply (P4 j); [lia|]].
    specialize (Hno L ltac:(lia) Hbj). lia.
Qed.

(** Any border of the next prefix extends a border of this one. *)
Lemma border_pred i q : 0 < q -> border (S i) q -> exists v, q = S v /\ border i v /\ t !! v = t !! i.
Proof. intros Hq Hb. destruct q as [|v]; [lia|]. apply border_step in Hb. by exists v. Qed.

(** The three ways a turn can go. *)
Lemma step_match s p :
  kmp_inv s -> kmp_i s < length t -> t !! prev_lps s = t !! kmp_i s ->
  let prev := prev_lps s + 1 in
  let lps1 := if kmp_i s <? max_ngram then <[kmp_i s := prev]> (lps s) else lps s in
  (if prev =? max_ngram then lps1 !! (max_ngram - 1) = Some p else p = prev) ->
  let s' := mkKmp lps1 (if longest_ngram s <=? prev then prev else longest_ngram s)
              (if longest_ngram s <=? prev then kmp_i s else position s) p (kmp_i s + 1) in
  kmp_inv s' /\ kmp_measure s' < kmp_measure s.
Proof.
  destruct s as [l L pos p0 i]. intros [K1 K2 K3 K4 [K5 K5'] K6 K7] Hlt Heq prev lps1 Hp s'.
  subst s' lps1 prev. unfold kmp_measure. simpl in *.
  replace (i + 1) with (S i) by lia. replace (p0 + 1) with (S p0) in * by lia.
  assert (Hb : border (S i) (S p0)) by (by apply border_step).
  assert (Hmx : forall q, q <= max_ngram -> border (S i) q -> q <= S p0).
  { intros q Hq Hbq. destruct (decide (q = 0)) as [->|]; [lia|].
    destruct (border_pred i q ltac:(lia) Hbq) as (v & -> & Hv & Hv'). specialize (K6 v Hv ltac:(lia) Hv'). lia. }
  set (l1 := if i <? max_ngram then <[i:=S p0]> l else l) in *.
  assert (Hl1 : length l1 = max_ngram).
  { unfold l1. destruct (i <? max_ngram); [by rewrite length_insert|done]. }
  assert (Hlps : forall j, j < S i -> j < max_ngram -> exists b, l1 !! j = Some b /\
             border (S j) b /\ forall q, border (S j) q -> q <= b).
  { intros j Hj Hjm. destruct (decide (j = i)) as [->|Hne].
    - exists (S p0). unfold l1. rewrite (proj2 (Nat.ltb_lt _ _)) by done.
      rewrite list_lookup_insert_eq by lia. split; [done|]. split; [done|]. intros q Hq.
      apply Hmx; [destruct Hq; lia|done].
    - destruct (K3 j ltac:(lia) Hjm) as (b & Hl & Hbb). exists b. split; [|done].
      unfold l1. destruct (i <? max_ngram); [by rewrite list_lookup_insert_ne|done]. }
  assert (Hp' : p < max_ngram /\ border (S i) p /\ p <= S p0 /\
            forall q, border (S i) q -> q < max_ngram -> q <= p).
  { destruct (Nat.eqb_spec (S p0) max_ngram) as [E|Hne].
    - destruct (Hlps (max_ngram - 1)) as (b & Hl & Hbb & Hbm); [destruct Hb; lia|lia|].
      rewrite Hl in Hp. injection Hp as <-. replace (S (max_ngram - 1)) with (S p0) in * by lia.
      split; [destruct Hbb; lia|]. split; [by eapply border_trans|]. split; [destruct Hbb; lia|].
      intros q Hq Hqm. apply Hbm. eapply border_nested; [exact Hb|done|lia].
    - subst p. split; [lia|]. split; [done|]. split; [done|]. intros q Hq Hqm. apply Hmx; [lia|done]. }
  destruct Hp' as (P1 & P2 & P3 & P4). split; [|destruct P2; lia]. constructor; simpl.
  - lia.
  - done.
  - done.
  - intros j Hj. unfold l1. destruct (i <? max_ngram); [rewrite list_lookup_insert_ne by lia|]; apply K4; lia.
  - done.
  - intros q Hq Hqm _. by apply P4.
  - apply best_match; [done|done|lia|done|done].
Qed.

Lemma step_fallback s p :
  kmp_inv s -> kmp_i s < length t -> t !! prev_lps s <> t !! kmp_i s -> prev_lps s <> 0 ->
  lps s !! (prev_lps s - 1) = Some p ->
  let s' := mkKmp (lps s) (longest_ngram s) (position s) p (kmp_i s) in
  kmp_inv s' /\ kmp_measure s' < kmp_measure s.
Proof.
  destruct s as [l L pos p0 i]. intros [K1 K2 K3 K4 [K5 K5'] K6 K7] Hlt Hne Hp0 Hl. simpl in *.
  destruct (K3 (p0 - 1)) as (b & Hl' & Hb & Hbm); [destruct K5'; lia|lia|]. rewrite Hl' in Hl. injection Hl as ->.
  replace (S (p0 - 1)) with p0 in * by lia. split; [|unfold kmp_measure; simpl; destruct Hb; lia].
  constructor; simpl; try done.
  - split; [destruct Hb; lia|]. by eapply border_trans.
  - intros q Hq Hqm Hqi. apply Hbm. assert (q <> p0) by (by intros ->). specialize (K6 q Hq Hqm Hqi).
    eapply border_nested; [exact K5'|done|lia].
Qed.

Lemma step_advance s :
  kmp_inv s -> kmp_i s < length t -> t !! prev_lps s <> t !! kmp_i s -> prev_lps s = 0 ->
  let s' := mkKmp (lps s) (longest_ngram s) (position s) (prev_lps s) (kmp_i s + 1) in
  kmp_inv s' /\ kmp_measure s' < kmp_measure s.
Proof.
  destruct s as [l L pos p0 i]. intros [K1 K2 K3 K4 [K5 K5'] K6 K7] Hlt Hne Hp0. simpl in *. subst p0.
  rewrite Nat.add_1_r. split; [|unfold kmp_measure; simpl; lia].
  assert (Hno : forall q, q <= max_ngram -> border (S i) q -> q = 0).
  { intros q Hq Hb. destruct (decide (q = 0)) as [|Hq0]; [done|]. exfalso.
    destruct (border_pred i q ltac:(lia) Hb) as (v & -> & Hv & Hvi). specialize (K6 v Hv ltac:(lia) Hvi).
    assert (v = 0) as -> by lia. done. }
  constructor; simpl; try done.
  - lia.
  - intros j Hj Hjm. destruct (decide (j = i)) as [->|]; [|apply K3; lia].
    exists 0. split; [apply K4; lia|]. split; [apply border_0; lia|]. intros q Hq.
    rewrite (Hno q); [done|destruct Hq; lia|done].
  - intros j Hj. apply K4. lia.
  - split; [done|apply border_0; lia].
  - intros q Hq Hqm _. rewrite (Hno q); [done|lia|done].
  - by apply best_nomatch.
Qed.

Lemma kmp_step_ok s :
  kmp_inv s -> kmp_i s < length t ->
  exists s', kmp_step t max_ngram s = Ok s' /\ kmp_inv s' /\ kmp_measure s' < kmp_measure s.
Proof.
  intros I Hlt. pose proof I as [K1 K2 K3 K4 [K5 K5'] K6 K7]. unfold kmp_step.
  destruct (lookup_lt_is_Some_2 t (prev_lps s)) as [a Ha]; [destruct K5'; lia|].
  destruct (lookup_lt_is_Some_2 t (kmp_i s) Hlt) as [b Hb]. rewrite Ha, Hb.
  destruct (Z.eqb_spec a b) as [->|Hne].
  - assert (Heq : t !! prev_lps s = t !! kmp_i s) by congruence. cbv zeta.
    destruct (prev_lps s + 1 =? max_ngram) eqn:Em.
    + match goal with |- context [match ?l !! ?j with None => _ | _ => _ end] =>
        destruct (lookup_lt_is_Some_2 l j) as [p Hp]; [case_match; rewrite ?length_insert; lia|] end.
      rewrite Hp. eexists. split; [done|]. apply step_match; try done. by rewrite Em.
    + eexists. split; [done|]. apply step_match; try done. by rewrite Em.
  - assert (Hneq : t !! prev_lps s <> t !! kmp_i s) by congruence.
    destruct (Nat.eqb_spec (prev_lps s) 0) as [E0|E0]; cbn [negb].
    + eexists. split; [done|]. by apply step_advance.
    + destruct (lookup_lt_is_Some_2 (lps s) (prev_lps s - 1)) as [p Hp]; [lia|]. rewrite Hp.
      eexists. split; [done|]. by apply step_fallback.
Qed.

Lemma kmp_loop_ok fuel s :
  kmp_inv s -> kmp_i s <= length t -> kmp_measure s <= fuel ->
  exists s', kmp_loop fuel t max_ngram s = Ok s' /\ kmp_inv s' /\ kmp_i s' = length t.
Proof.
  revert s. induction fuel as [|fuel IH]; intros s I Hle Hm; cbn [kmp_loop];
    destruct (Nat.ltb_spec (kmp_i s) (length t)) as [Hlt|Hge].
  - unfold kmp_measure in Hm. lia.
  - exists s. split; [done|]. split; [done|lia].
  - destruct (kmp_step_ok s I Hlt) as (s1 & Hs & I1 & Hm1). rewrite Hs. apply IH; [done| |lia].
    assert (kmp_i s1 <= kmp_i s + 1); [|lia]. clear - Hs. unfold kmp_step in Hs.
    repeat case_match; simplify_eq; simpl; lia.
  - exists s. split; [done|]. split; [done|lia].
Qed.
End borders.

(** ** Reversing back *)

Lemma occurs_border o n s :
  s < length o -> occurs o n s = true <-> border (reverse o) (length o - s) n.
Proof.
  intros Hs. unfold occurs. rewrite andb_true_iff, Nat.ltb_lt, bool_decide_eq_true.
  assert (Hrev : forall j, j < n -> s + n < length o ->
    reverse o !! j = o !! (length o - n + (n - 1 - j)) /\
    reverse o !! (length o - s - n + j) = o !! (s + (n - 1 - j))).
  { intros j Hj Hlt. split; rewrite reverse_lookup by lia; f_equal; lia. }
  split.
  - intros [Hlt He]. split; [lia|]. intros j Hj. destruct (Hrev j Hj Hlt) as [-> ->].
    apply (f_equal (fun l => l !! (n - 1 - j))) in He. rewrite lookup_take_lt, !lookup_drop in He by lia. done.
  - intros [Hlt Hb]. split; [lia|]. apply list_eq. intros x. rewrite lookup_drop.
    destruct (decide (x < n)) as [Hx|Hx].
    + rewrite lookup_take_lt, lookup_drop by done. specialize (Hb (n - 1 - x) ltac:(lia)).
      destruct (Hrev (n - 1 - x) ltac:(lia) ltac:(lia)) as [E1 E2].
      rewrite E1, E2 in Hb. replace (n - 1 - (n - 1 - x)) with x in Hb by lia. done.
    + rewrite !lookup_ge_None_2; [done| |]; rewrite ?length_take, ?length_drop; lia.
Qed.

Lemma filter_occurs_nil o n l :
  (forall s, s ∈ l -> occurs o n s = false) -> filter (fun s => occurs o n s = true) l = [].
Proof.
  induction l as [|x l IH]; intros H; [done|]. rewrite filter_cons_False.
  - apply IH. set_solver.
  - by rewrite H by set_solver.
Qed.

Lemma first_match_none o n :
  (forall s, s < length o -> occurs o n s = false) -> first_match o n = None.
Proof.
  intros H. unfold first_match. rewrite filter_occurs_nil; [done|].
  intros s [_ Hs]%elem_of_seq. by rewrite H by lia.
Qed.

Lemma first_match_some o n s :
  occurs o n s = true -> (forall s', s' < s -> occurs o n s' = false) -> first_match o n = Some s.
Proof.
  intros Ho Hmin. unfold first_match.
  assert (Hs : s < length o).
  { unfold occurs in Ho. apply andb_true_iff in Ho as [Hlt%Nat.ltb_lt _]. lia. }
  replace (length o) with (s + S (length o - s - 1)) by lia. rewrite seq_app, filter_app. simpl.
  rewrite (filter_occurs_nil o n (seq 0 s)); [by rewrite filter_cons_True|].
  intros s' [_ Hs']%elem_of_seq. by rewrite Hmin by lia.
Qed.

Lemma longest_match_none o lo d :
  (forall n, lo <= n <= lo + d -> first_match o n = None) -> longest_match o lo d = None.
Proof.
  induction d as [|d IH]; intros H; cbn [longest_match]; rewrite (H _) by lia; [done|].
  apply IH. intros n Hn. apply H. lia.
Qed.

Lemma longest_match_some o lo d n s :
  lo <= n <= lo + d -> first_match o n = Some s ->
  (forall n', n < n' <= lo + d -> first_match o n' = None) -> longest_match o lo d = Some (n, s).
Proof.
  induction d as [|d IH]; intros Hn Hf Hno; cbn [longest_match].
  - replace (lo + 0) with n by lia. by rewrite Hf.
  - destruct (decide (n = lo + S d)) as [->|]; [by rewrite Hf|].
    rewrite (Hno (lo + S d)) by lia. apply IH; [lia|done|]. intros n' Hn'. apply Hno. lia.
Qed.

(** The whole search, and with it the draft. *)
Lemma search_direct o min_ngram max_ngram max_model_len k :
  1 <= min_ngram <= max_ngram ->
  find_longest_matched_ngram_and_propose_tokens o min_ngram max_ngram max_model_len k
  = Ok (propose_spec o min_ngram max_ngram max_model_len k).
Proof.
  intros Hm. unfold find_longest_matched_ngram_and_propose_tokens, propose_spec.
  destruct (Nat.ltb_spec (length o) min_ngram) as [Hshort|Hlong].
  { rewrite longest_match_none; [done|]. intros n Hn. apply first_match_none. intros s Hs.
    unfold occurs. by rewrite (proj2 (Nat.ltb_ge _ _)) by lia. }
  set (kk := Z.min k (max_model_len - Z.of_nat (length o))). cbv zeta.
  destruct (Z.leb_spec kk 0) as [Hk|Hk].
  { replace (Z.to_nat kk) with 0 by lia. by destruct (longest_match _ _ _) as [[? ?]|]. }
  assert (Hlen : length (reverse o) = length o) by apply length_reverse.
  destruct (kmp_loop_ok (reverse o) max_ngram ltac:(lia) (2 * length o) _ (kmp_init (reverse o) max_ngram ltac:(lia)))
    as (s & Hrun & I & Hi); [simpl; lia|unfold kmp_measure; simpl; lia|].
  rewrite Hrun. pose proof (ki_best _ _ _ I) as [B1 B2]. rewrite Hi, Hlen in *.
  assert (Hnone : forall n, longest_ngram s < n <= max_ngram -> first_match o n = None).
  { intros n Hn. apply first_match_none. intros x Hx. apply not_true_iff_false. intros Ho.
    apply (occurs_border o n x Hx) in Ho. destruct Ho as [Ho1 Ho2].
    specialize (B1 (length o - x - 1) n ltac:(lia) ltac:(lia)).
    replace (S (length o - x - 1)) with (length o - x) in B1 by lia. specialize (B1 (conj Ho1 Ho2)). lia. }
  destruct (Nat.ltb_spec (longest_ngram s) min_ngram) as [Hlt|Hge].
  { rewrite longest_match_none; [done|]. intros n Hn. apply Hnone. lia. }
  destruct B2 as [[? ?]|(P1 & P2 & P3 & P4)]; [lia|].
  rewrite (longest_match_some o min_ngram (max_ngram - min_ngram) (longest_ngram s) (length o - 1 - position s)).
  - f_equal. replace (length o - 1 - position s + longest_ngram s) with
      (length o - 1 - position s + longest_ngram s) by lia.
    set (st := length o - 1 - position s + longest_ngram s).
    destruct (Z.le_gt_cases kk (Z.of_nat (length o) - Z.of_nat st)) as [Hc|Hc]; [by rewrite Z.min_l|].
    rewrite !take_ge; [done| |]; rewrite length_drop; lia.
  - lia.
  - apply first_match_some.
    + apply occurs_border; [lia|]. by replace (length o - (length o - 1 - position s)) with (S (position s)) by lia.
    + intros x Hx. apply not_true_iff_false. intros Ho. apply occurs_border in Ho; [|lia].
      apply (P4 (length o - x - 1)); [lia|]. by replace (S (length o - x - 1)) with (length o - x) by lia.
  - intros n Hn. apply Hnone. lia.
Qed.

(** ** The theorems *)

(** C30. The n-gram search is the direct search. For every context and all limits
    with 1 <= [min_ngram] <= [max_ngram], the capped Knuth-Morris-Pratt loop
    terminates without reading outside its arrays, and the draft is the one the
    comments promise: of the sizes within the limits the largest whose last
    tokens also occur before, at the earliest place, and what follows there, at
    most [k] tokens and within the model length. *)
Theorem ngram_search_is_direct o min_ngram max_ngram max_model_len k :
  1 <= min_ngram <= max_ngram ->
  find_longest_matched_ngram_and_propose_tokens o min_ngram max_ngram max_model_len k
  = Ok (propose_spec o min_ngram max_ngram max_model_len k).
Proof. intros Hm. by apply search_direct. Qed.

Lemma ngram_search_is_direct_witness :
  find_longest_matched_ngram_and_propose_tokens [7; 1; 2; 3; 9; 1; 2; 3; 5; 1; 2; 3]%Z 2 4 100 2 = Ok [9; 1]%Z.
Proof. rewrite ngram_search_is_direct by lia. vm_compute. reflexivity. Defined.

(** ** The batch *)

Section batch.
Context (nums : list nat) (toks : list (list Z)).

(** The buffers hold at least [n] requests, rows of [ng_k] tokens. *)
Record buffers_ok (n : nat) (p : NgramProposer) : Prop := {
  bo_nums : n <= length (valid_ngram_num_drafts p);
  bo_rows : n <= length (valid_ngram_draft p);
  bo_width : Forall (fun row => length row = ng_k p) (valid_ngram_draft p)
}.

Definition same_settings (p p' : NgramProposer) : Prop :=
  (min_n p', max_n p', ng_k p', ng_max_model_len p') = (min_n p, max_n p, ng_k p, ng_max_model_len p).

(** The draft of request [i] alone. *)
Definition draft_for (p : NgramProposer) (i : nat) : list Z :=
  propose_spec (take (default 0 (nums !! i)) (default [] (toks !! i))) (min_n p) (max_n p)
    (ng_max_model_len p) (Z.of_nat (ng_k p)).

Definition has_draft (p : NgramProposer) (i : nat) (d : list Z) : Prop :=
  valid_ngram_num_drafts p !! i = Some (length d) /\
  exists row, valid_ngram_draft p !! i = Some row /\ take (length d) row = d.

Lemma draft_for_length p i : length (draft_for p i) <= ng_k p.
Proof.
  unfold draft_for, propose_spec. destruct (longest_match _ _ _) as [[n s]|]; simpl; [|lia].
  rewrite length_take. lia.
Qed.

Lemma draft_one_ok n p idx :
  1 <= min_n p <= max_n p -> buffers_ok n p -> idx < n -> n <= length nums -> n <= length toks ->
  exists p', draft_one nums toks idx p = Ok p' /\ buffers_ok n p' /\ same_settings p p' /\
    has_draft p' idx (draft_for p idx) /\
    forall j, j <> idx -> valid_ngram_num_drafts p' !! j = valid_ngram_num_drafts p !! j /\
      valid_ngram_draft p' !! j = valid_ngram_draft p !! j.
Proof.
  intros Hm [B1 B2 B3] Hi Hn Ht. unfold draft_one.
  destruct (lookup_lt_is_Some_2 nums idx) as [num Hnum]; [lia|].
  destruct (lookup_lt_is_Some_2 toks idx) as [tok Htok]; [lia|].
  destruct (lookup_lt_is_Some_2 (valid_ngram_draft p) idx) as [row Hrow]; [lia|].
  destruct (lookup_lt_is_Some_2 (valid_ngram_num_drafts p) idx) as [c Hc]; [lia|].
  rewrite Hnum, Htok, Hrow, Hc, search_direct by done.
  pose proof (draft_for_length p idx) as Hlen. unfold draft_for in *. rewrite Hnum, Htok in *.
  cbn [default from_option id] in *.
  set (out := propose_spec _ _ _ _ _) in *.
  assert (Hw : length row = ng_k p) by (by eapply (Forall_lookup_1 _ _ idx row B3)).
  rewrite (proj2 (Nat.leb_le _ _)) by lia. eexists. split; [done|]. split; [|split; [done|split]].
  - constructor; simpl; rewrite ?length_insert; try done. apply Forall_insert; [done|].
    rewrite length_app, length_drop. lia.
  - split; simpl; [rewrite list_lookup_insert_eq by lia; done|].
    eexists. split; [apply list_lookup_insert_eq; lia|]. by rewrite take_app_length.
  - intros j Hj. simpl. by rewrite !list_lookup_insert_ne.
Qed.

Lemma batch_ok n p order :
  1 <= min_n p <= max_n p -> buffers_ok n p -> NoDup order -> (forall i, i ∈ order -> i < n) ->
  n <= length nums -> n <= length toks ->
  exists p', batch_propose_numba order nums toks p = Ok p' /\ buffers_ok n p' /\ same_settings p p' /\
    (forall i, i ∈ order -> has_draft p' i (draft_for p i)) /\
    forall j, j ∉ order -> valid_ngram_num_drafts p' !! j = valid_ngram_num_drafts p !! j /\
      valid_ngram_draft p' !! j = valid_ngram_draft p !! j.
Proof.
  revert p. induction order as [|idx order IH]; intros p Hm B Hnd Hin Hn Ht; cbn [batch_propose_numba].
  { exists p. split; [done|]. split; [done|]. split; [done|]. split; [set_solver|done]. }
  apply NoDup_cons in Hnd as [Hni Hnd].
  destruct (draft_one_ok n p idx Hm B (Hin idx ltac:(set_solver)) Hn Ht) as (p1 & H1 & B1 & S1 & D1 & O1).
  rewrite H1. assert (S1' := S1). injection S1' as E1 E2 E3 E4.
  destruct (IH p1) as (p2 & H2 & B2 & S2 & D2 & O2); [by rewrite E1, E2|done|done|set_solver|done|done|].
  exists p2. split; [done|]. split; [done|]. split; [unfold same_settings in *; congruence|].
  assert (Ed : forall i, draft_for p1 i = draft_for p i).
  { intros i. unfold draft_for. by rewrite E1, E2, E3, E4. }
  split.
  - intros i [->|Hi]%elem_of_cons; [|rewrite <- Ed; by apply D2].
    destruct (O2 idx Hni) as [Ea Eb]. unfold has_draft. by rewrite Ea, Eb.
  - intros j Hj. destruct (O2 j ltac:(set_solver)) as [-> ->]. apply O1. set_solver.
Qed.

Lemma read_drafts_ok valid p idxs f :
  (forall i, i ∈ idxs -> read_draft valid p i = Ok (f i)) -> read_drafts valid p idxs = Ok (f <$> idxs).
Proof.
  induction idxs as [|i idxs IH]; intros H; [done|]. cbn [read_drafts].
  rewrite H by set_solver. rewrite IH by set_solver. done.
Qed.

(** Whether [propose] drafts for request [i]. *)
Definition wants_draft (sampled : list (list Z)) (max_model_len : Z) (i : nat) : Prop :=
  default [] (sampled !! i) <> [] /\ (Z.of_nat (default 0%nat (nums !! i)) < max_model_len)%Z.
#[local] Instance wants_draft_dec sampled l i : Decision (wants_draft sampled l i).
Proof. unfold wants_draft. apply _. Defined.

Lemma ngram_requests_ok sampled max_model_len : forall i,
  i + length sampled <= length nums ->
  exists valid, ngram_requests i sampled nums max_model_len = Ok valid /\ NoDup valid /\
    forall j, j ∈ valid <-> i <= j < i + length sampled /\
      default [] (sampled !! (j - i)) <> [] /\ (Z.of_nat (default 0%nat (nums !! j)) < max_model_len)%Z.
Proof.
  induction sampled as [|ids rest IH]; intros i Hle; cbn [ngram_requests].
  { exists []. split; [done|]. split; [constructor|]. intros j. simpl. split; [set_solver|lia]. }
  simpl in Hle. destruct (IH (S i)) as (valid & -> & Hnd & Hv); [lia|].
  assert (Hskip : forall j, j ∈ valid -> i < j) by (intros j Hj%Hv; lia).
  assert (Hshift : forall j, S i <= j -> (ids :: rest) !! (j - i) = rest !! (j - S i)).
  { intros j Hj. by replace (j - i) with (S (j - S i)) by lia. }
  assert (Hdrop : ids = [] \/ (max_model_len <= Z.of_nat (default 0%nat (nums !! i)))%Z ->
    forall j, j ∈ valid <-> i <= j < i + length (ids :: rest) /\
      default [] ((ids :: rest) !! (j - i)) <> [] /\ (Z.of_nat (default 0%nat (nums !! j)) < max_model_len)%Z).
  { intros Hno j. rewrite Hv. simpl. split.
    - intros (Hj & H1 & H2). split; [lia|]. rewrite Hshift by lia. done.
    - intros (Hj & H1 & H2). destruct (decide (j = i)) as [->|].
      + rewrite Nat.sub_diag in H1. simpl in H1. destruct Hno; [done|lia].
      + rewrite Hshift in H1 by lia. split; [lia|done]. }
  destruct (Nat.eqb_spec (length ids) 0) as [E|E].
  { exists valid. split; [done|]. split; [done|]. apply Hdrop. left. by apply nil_length_inv. }
  destruct (lookup_lt_is_Some_2 nums i) as [num Hnum]; [lia|]. rewrite Hnum.
  destruct (Z.leb_spec max_model_len (Z.of_nat num)) as [Hfull|Hroom].
  { exists valid. split; [done|]. split; [done|]. apply Hdrop. right. by rewrite Hnum. }
  exists (i :: valid). split; [done|]. split; [apply NoDup_cons; split; [intros H%Hskip; lia|done]|].
  intros j. rewrite elem_of_cons, Hv. simpl. split.
  - intros [->|(Hj & H1 & H2)].
    + split; [lia|]. rewrite Nat.sub_diag, Hnum. simpl. split; [by destruct ids|done].
    + split; [lia|]. rewrite Hshift by lia. done.
  - intros (Hj & H1 & H2). destruct (decide (j = i)) as [->|]; [by left|]. right.
    rewrite Hshift in H1 by lia. split; [lia|done].
Qed.
End batch.

(** Batched drafting is per-request drafting. Whatever a previous call left
    in the shared buffers and in whatever order the parallel loop gets to the
    requests, [propose] returns for each request that sampled something and has
    room left the draft of its own tokens, for the others nothing, and leaves
    buffers of the same shape; it raises nothing. *)
Theorem propose_per_request order sampled nums toks p n :
  1 <= min_n p <= max_n p -> buffers_ok n p -> length sampled <= n -> n <= length nums -> n <= length toks ->
  (forall valid, order valid ≡ₚ valid) ->
  exists p', propose order sampled nums toks p =
      Ok ((fun i => if decide (wants_draft nums sampled (ng_max_model_len p) i) then draft_for nums toks p i else [])
            <$> seq 0 (length sampled), p') /\
    buffers_ok n p' /\ same_settings p p'.
Proof.
  intros Hm B Hs Hn Ht Hord. unfold propose.
  destruct (ngram_requests_ok nums sampled (ng_max_model_len p) 0) as (valid & -> & Hnd & Hv); [lia|].
  unfold batch_propose. specialize (Hord valid).
  destruct (batch_ok nums toks n p (order valid) Hm B) as (p' & -> & B' & S' & D & _).
  { by rewrite Hord. }
  { intros i. rewrite Hord. intros Hi%Hv. lia. }
  { done. }
  { done. }
  exists p'. erewrite read_drafts_ok; [done|]. intros i [_ Hi]%elem_of_seq. simpl in Hi.
  unfold read_draft. specialize (Hv i). rewrite Nat.sub_0_r in Hv.
  destruct (decide (i ∈ valid)) as [Hin|Hnin].
  - rewrite decide_True by (apply Hv in Hin; apply Hin). rewrite <- Hord in Hin.
    destruct (D i Hin) as (-> & row & -> & Htake). destruct (Nat.ltb_spec 0 (length (draft_for nums toks p i))).
    + by rewrite Htake.
    + f_equal. symmetry. apply nil_length_inv. lia.
  - rewrite decide_False; [done|]. intros Hw. apply Hnin, Hv. split; [simpl; lia|exact Hw].
Qed.

Lemma propose_per_request_witness : exists p',
  propose reverse [[5]; []; [2]]%Z [5; 3; 4] [[1; 2; 3; 1; 2; 0]; [1; 1; 1; 0; 0; 0]; [4; 4; 4; 4; 0; 0]]%Z
    (mkNgram 1 3 2 6 (replicate 3 [9; 9]%Z) [2; 2; 2]) = Ok ([[3]; []; [4]]%Z, p').
Proof.
  edestruct (propose_per_request reverse [[5]; []; [2]]%Z [5; 3; 4]
    [[1; 2; 3; 1; 2; 0]; [1; 1; 1; 0; 0; 0]; [4; 4; 4; 4; 0; 0]]%Z (mkNgram 1 3 2 6 (replicate 3 [9; 9]%Z) [2; 2; 2]) 3)
    as (p' & Hp & _); [simpl; lia|constructor; simpl; [lia|lia|repeat constructor]|simpl; lia..| |].
  - intros valid. apply reverse_Permutation.
  - exists p'. rewrite Hp. vm_compute. reflexivity.
Defined.

End NgramProposer.
