(* ===== verification/Heap.v ===== *)
(** * Heap

    The functions of Python's heapq that v1/core/sched/request_queue.py keeps
    its priority queue with, and what they promise for any linear order. *)

From S2P Require Import Prelude.
From stdpp Require Import sorting.
From Stdlib Require Import ZifyNat.

Module Heap.
#[local] Open Scope nat_scope.

(** What a comparison [a < b] has to be for a heap to work. *)
Class LinearLt {A} (lt : A -> A -> bool) : Prop := {
  lt_irrefl a : lt a a = false;
  lt_trans a b c : lt a b = true -> lt b c = true -> lt a c = true;
  lt_linear a b : lt a b = false -> lt b a = false -> a = b
}.

Section heap.
Context {A : Type} (lt : A -> A -> bool).

(** ** The functions of heapq *)

Fixpoint siftdown_loop (fuel : nat) (newitem : A) (startpos : nat) (heap : list A) (pos : nat)
    : result (list A * nat) :=
  if startpos <? pos then
    match fuel with
    | O => Err OutOfFuel
    | S fuel' =>
        let parentpos := (pos - 1) / 2 in
        match heap !! parentpos with
        | None => Err IndexError
        | Some parent =>
            if lt newitem parent
            then siftdown_loop fuel' newitem startpos (<[pos := parent]> heap) parentpos
            else Ok (heap, pos)
        end
    end
  else Ok (heap, pos).

Definition siftdown (heap : list A) (startpos pos : nat) : result (list A) :=
  match heap !! pos with
  | None => Err IndexError
  | Some newitem =>
      match siftdown_loop pos newitem startpos heap pos with
      | Err e => Err e
      | Ok (heap', pos') => Ok (<[pos' := newitem]> heap')
      end
  end.

(** The smaller child moves up until the hole is a leaf. *)
Fixpoint siftup_loop (fuel : nat) (endpos : nat) (heap : list A) (pos : nat) : result (list A * nat) :=
  let childpos := 2 * pos + 1 in
  if childpos <? endpos then
    match fuel with
    | O => Err OutOfFuel
    | S fuel' =>
        let rightpos := childpos + 1 in
        match heap !! childpos with
        | None => Err IndexError
        | Some c =>
            if rightpos <? endpos then
              match heap !! rightpos with
              | None => Err IndexError
              | Some r =>
                  if negb (lt c r) then siftup_loop fuel' endpos (<[pos := r]> heap) rightpos
                  else siftup_loop fuel' endpos (<[pos := c]> heap) childpos
              end
            else siftup_loop fuel' endpos (<[pos := c]> heap) childpos
        end
    end
  else Ok (heap, pos).

Definition siftup (heap : list A) (pos : nat) : result (list A) :=
  match heap !! pos with
  | None => Err IndexError
  | Some newitem =>
      match siftup_loop (length heap) (length heap) heap pos with
      | Err e => Err e
      | Ok (heap', pos') => siftdown (<[pos' := newitem]> heap') pos pos'
      end
  end.

Definition heappush (heap : list A) (item : A) : result (list A) :=
  siftdown (heap ++ [item]) 0 (length heap).

Definition heappop (heap : list A) : result (A * list A) :=
  match last heap with
  | None => Err IndexError
  | Some lastelt =>
      let heap' := take (length heap - 1) heap in
      match heap' with
      | [] => Ok (lastelt, [])
      | returnitem :: _ =>
          match siftup (<[0 := lastelt]> heap') 0 with
          | Err e => Err e
          | Ok h => Ok (returnitem, h)
          end
      end
  end.

(** [for i in reversed(range(n)): siftup(x, i)] *)
Fixpoint heapify_loop (n : nat) (x : list A) : result (list A) :=
  match n with
  | O => Ok x
  | S i => match siftup x i with Err e => Err e | Ok x' => heapify_loop i x' end
  end.

Definition heapify (x : list A) : result (list A) := heapify_loop (length x / 2) x.

(** Popping a copy until it is empty, as iterating does. *)
Fixpoint pop_all (n : nat) (heap : list A) : result (list A) :=
  match n with
  | O => Ok []
  | S n' => match heappop heap with
            | Err e => Err e
            | Ok (x, h) => match pop_all n' h with Err e => Err e | Ok xs => Ok (x :: xs) end
            end
  end.

(** ** Order and tree *)

Context `{!LinearLt lt}.

Definition le (a b : A) : Prop := lt b a = false.

Lemma le_refl a : le a a.
Proof. apply lt_irrefl. Qed.
Lemma lt_le a b : lt a b = true -> le a b.
Proof. unfold le. intros H. destruct (lt b a) eqn:E; [|done]. pose proof (lt_trans _ _ _ H E). by rewrite lt_irrefl in *. Qed.
Lemma le_trans a b c : le a b -> le b c -> le a c.
Proof.
  unfold le. intros H1 H2. destruct (lt c a) eqn:E; [|done].
  destruct (lt a b) eqn:E1; [by rewrite (lt_trans _ _ _ E E1) in H2|].
  by rewrite (lt_linear _ _ E1 H1), H2 in E.
Qed.
#[local] Instance le_antisymm : AntiSymm (=) le.
Proof. intros a b H1 H2. by apply lt_linear. Qed.
#[local] Instance le_transitive : Transitive le.
Proof. intros a b c. apply le_trans. Qed.
Lemma le_total a b : le a b \/ le b a.
Proof. unfold le. destruct (lt b a) eqn:E; [|by left]. right. by apply lt_le. Qed.

Definition parent (j : nat) : nat := (j - 1) / 2.

(** [p] is in the subtree of [s]. *)
Inductive desc (s : nat) : nat -> Prop :=
| desc_refl : desc s s
| desc_child c : desc s (parent c) -> 0 < c -> desc s c.

Lemma desc_ge s p : desc s p -> s <= p.
Proof. induction 1; unfold parent in *; lia. Qed.

Lemma desc_parent s p : desc s p -> p <> s -> 0 < p /\ desc s (parent p).
Proof. destruct 1; [done|by split]. Qed.

(** Every edge below [s] is in order. *)
Definition heap_from (s : nat) (l : list A) : Prop :=
  forall j x y, 0 < j -> s <= parent j -> l !! parent j = Some x -> l !! j = Some y -> le x y.

Lemma heap_root l x : heap_from 0 l -> l !! 0 = Some x -> forall i y, l !! i = Some y -> le x y.
Proof.
  intros Hh Hx i. induction (lt_wf i) as [i _ IH]. intros y Hy. destruct (decide (i = 0)) as [->|Hi].
  { rewrite Hx in Hy. injection Hy as <-. apply le_refl. }
  assert (Hp : parent i < i) by (unfold parent; lia).
  destruct (lookup_lt_is_Some_2 l (parent i)) as [z Hz]; [apply lookup_lt_Some in Hy; lia|].
  eapply le_trans; [by apply (IH (parent i) Hp)|]. eapply (Hh i); [lia|lia|done|done].
Qed.

(** Moving the hole. *)
Lemma hole_perm (l : list A) i j x y :
  i <> j -> l !! j = Some y -> i < length l -> <[j := x]> (<[i := y]> l) ≡ₚ <[i := x]> l.
Proof.
  intros Hne Hj Hi. assert (Hlj := lookup_lt_Some _ _ _ Hj).
  destruct (lookup_lt_is_Some_2 l i Hi) as [z Hz].
  assert (Hperm : forall (k : list A) n a b, k !! n = Some a -> <[n := b]> k ≡ₚ b :: delete n k).
  { intros k n a b Hn. rewrite insert_take_drop by (by eapply lookup_lt_Some).
    by rewrite delete_take_drop, Permutation_middle. }
  assert (Hm : <[i:=y]> l !! j = Some y) by by rewrite list_lookup_insert_ne.
  rewrite (Hperm _ j y x Hm), (Hperm l i z x Hz). f_equiv.
  apply (Permutation_cons_inv (a := y)). rewrite <- (delete_Permutation _ _ _ Hm).
  by rewrite (Hperm l i z y Hz).
Qed.

(** ** Sifting *)

(** All edges below [s] are in order but those of the hole, whose parent is
    below its children. *)
Record holed (s : nat) (l : list A) (pos : nat) : Prop := {
  ho_desc : desc s pos;
  ho_lt : pos < length l;
  ho_edges : forall j x y, 0 < j -> j <> pos -> parent j <> pos -> s <= parent j ->
    l !! parent j = Some x -> l !! j = Some y -> le x y;
  ho_grand : forall c x y, 0 < c -> parent c = pos -> pos <> s ->
    l !! parent pos = Some x -> l !! c = Some y -> le x y
}.

(** The new item is below the children of the hole. *)
Definition fits (newitem : A) (l : list A) (pos : nat) : Prop :=
  forall c y, 0 < c -> parent c = pos -> l !! c = Some y -> le newitem y.

Lemma holed_fill s l pos newitem :
  holed s l pos -> fits newitem l pos ->
  (pos <> s -> forall x, l !! parent pos = Some x -> le x newitem) ->
  heap_from s (<[pos := newitem]> l).
Proof.
  intros [D Hlt E G] Hf Hp j x y Hj Hs Hx Hy.
  destruct (decide (j = pos)) as [->|Hne].
  - rewrite list_lookup_insert_eq in Hy by done. injection Hy as <-.
    destruct (decide (pos = s)) as [->|Hns]; [unfold parent in *; lia|].
    rewrite list_lookup_insert_ne in Hx by (unfold parent; lia). by apply Hp.
  - rewrite list_lookup_insert_ne in Hy by done. destruct (decide (parent j = pos)) as [Ep|Hnp].
    + rewrite Ep, list_lookup_insert_eq in Hx by done. injection Hx as <-. by apply (Hf j).
    + rewrite list_lookup_insert_ne in Hx by done. by apply (E j).
Qed.

Lemma siftdown_loop_ok fuel newitem s l pos :
  holed s l pos -> fits newitem l pos -> pos <= fuel ->
  exists l' pos', siftdown_loop fuel newitem s l pos = Ok (l', pos') /\
    length l' = length l /\ pos' < length l /\
    heap_from s (<[pos' := newitem]> l') /\ <[pos' := newitem]> l' ≡ₚ <[pos := newitem]> l.
Proof.
  revert l pos. induction fuel as [|fuel IH]; intros l pos H Hf Hle; cbn [siftdown_loop];
    pose proof (desc_ge _ _ (ho_desc _ _ _ H)) as Hge; pose proof (ho_lt _ _ _ H) as Hlt.
  - rewrite (proj2 (Nat.ltb_ge _ _)) by lia. exists l, pos. split; [done|]. split; [done|]. split; [done|].
    split; [|done]. apply holed_fill; [done|done|]. intros; lia.
  - destruct (Nat.ltb_spec s pos) as [Hsp|Hsp].
    2: { exists l, pos. split; [done|]. split; [done|]. split; [done|]. split; [|done].
         apply holed_fill; [done|done|]. intros; lia. }
    change ((pos - 1) / 2) with (parent pos).
    destruct (desc_parent _ _ (ho_desc _ _ _ H) ltac:(lia)) as [Hpos Hdp].
    assert (Hpp : parent pos < pos) by (unfold parent; lia).
    destruct (lookup_lt_is_Some_2 l (parent pos)) as [par Hpar]; [lia|]. rewrite Hpar.
    destruct (lt newitem par) eqn:Elt.
    + destruct H as [D _ E G].
      destruct (IH (<[pos:=par]> l) (parent pos)) as (l' & pos' & Hrun & Hl & Hp' & Hh & Hperm).
      * constructor.
        -- done.
        -- rewrite length_insert. lia.
        -- intros j x y Hj Hjne Hjp Hs Hx Hy. destruct (decide (j = pos)) as [->|Hnj]; [done|].
           rewrite list_lookup_insert_ne in Hy by done. destruct (decide (parent j = pos)) as [Ep|Hnp].
           ++ rewrite Ep, list_lookup_insert_eq in Hx by done. injection Hx as <-.
              by apply (G j par y Hj Ep ltac:(lia)).
           ++ rewrite list_lookup_insert_ne in Hx by done. by apply (E j).
        -- intros c x y Hc Hcp Hns Hx Hy. rewrite list_lookup_insert_ne in Hx by (unfold parent in *; lia).
           assert (Hle' : le x par).
           { destruct (desc_parent _ _ Hdp Hns) as [Hp0 Hd]. apply desc_ge in Hd.
             apply (E (parent pos) x par); [lia|lia|unfold parent in *; lia|done|done|done]. }
           destruct (decide (c = pos)) as [->|Hnc].
           ++ rewrite list_lookup_insert_eq in Hy by done. by injection Hy as <-.
           ++ rewrite list_lookup_insert_ne in Hy by done. eapply le_trans; [exact Hle'|].
              apply (E c par y Hc Hnc); [rewrite Hcp; lia|rewrite Hcp; by apply desc_ge in Hdp|by rewrite Hcp|done].
      * intros c y Hc Hcp Hy. destruct (decide (c = pos)) as [->|Hnc].
        -- rewrite list_lookup_insert_eq in Hy by done. injection Hy as <-. by apply lt_le.
        -- rewrite list_lookup_insert_ne in Hy by done. eapply le_trans; [by apply lt_le|].
           apply (E c par y Hc Hnc); [rewrite Hcp; lia|rewrite Hcp; by apply desc_ge in Hdp|by rewrite Hcp|done].
      * lia.
      * rewrite length_insert in *. exists l', pos'. split; [done|]. split; [done|]. split; [done|]. split; [done|].
        rewrite Hperm. apply hole_perm; [lia|done|done].
    + exists l, pos. split; [done|]. split; [done|]. split; [done|]. split; [|done].
      apply holed_fill; [done|done|]. intros _ x Hx. rewrite Hpar in Hx. by injection Hx as <-.
Qed.

Lemma siftdown_ok s l pos newitem :
  l !! pos = Some newitem -> holed s l pos -> fits newitem l pos ->
  exists l', siftdown l s pos = Ok l' /\ heap_from s l' /\ l' ≡ₚ l.
Proof.
  intros Hn H Hf. unfold siftdown. rewrite Hn.
  destruct (siftdown_loop_ok pos newitem s l pos H Hf (le_n _)) as (l' & pos' & -> & _ & _ & Hh & Hp).
  eexists. split; [done|]. split; [done|]. rewrite Hp. by rewrite list_insert_id.
Qed.

(** The hole moves to the smaller child. *)
Lemma holed_down s l pos c v :
  holed s l pos -> 0 < c -> parent c = pos -> l !! c = Some v ->
  (forall j y, 0 < j -> parent j = pos -> l !! j = Some y -> le v y) ->
  holed s (<[pos := v]> l) c.
Proof.
  intros [D Hlt E G] Hc Hcp Hv Hmin. assert (Hpc : pos < c) by (unfold parent in *; lia).
  pose proof (desc_ge _ _ D) as Hge. constructor.
  - apply desc_child; [by rewrite Hcp|done].
  - rewrite length_insert. by eapply lookup_lt_Some.
  - intros j x y Hj Hjc Hjp Hs Hx Hy. destruct (decide (j = pos)) as [->|Hnj].
    + rewrite list_lookup_insert_eq in Hy by done. injection Hy as <-.
      rewrite list_lookup_insert_ne in Hx by (unfold parent; lia).
      apply (G c); [done|done|unfold parent in *; lia|done|done].
    + rewrite list_lookup_insert_ne in Hy by done. destruct (decide (parent j = pos)) as [Ep|Hnp].
      * rewrite Ep, list_lookup_insert_eq in Hx by done. injection Hx as <-. by apply (Hmin j).
      * rewrite list_lookup_insert_ne in Hx by done. by apply (E j).
  - intros c' x y Hc' Hcc' _ Hx Hy. rewrite Hcp, list_lookup_insert_eq in Hx by done. injection Hx as <-.
    rewrite list_lookup_insert_ne in Hy by (unfold parent in *; lia).
    apply (E c'); [done|unfold parent in *; lia|rewrite Hcc'; lia|rewrite Hcc'; lia|by rewrite Hcc'|done].
Qed.

Lemma children pos j : 0 < j -> parent j = pos -> j = 2 * pos + 1 \/ j = 2 * pos + 1 + 1.
Proof. unfold parent. lia. Qed.

Lemma siftup_loop_ok fuel s l pos :
  holed s l pos -> length l - pos <= fuel ->
  exists l' pos', siftup_loop fuel (length l) l pos = Ok (l', pos') /\
    length l' = length l /\ holed s l' pos' /\ (forall x, fits x l' pos') /\
    forall x, <[pos' := x]> l' ≡ₚ <[pos := x]> l.
Proof.
  revert l pos. induction fuel as [|fuel IH]; intros l pos H Hle; cbn [siftup_loop]; cbv zeta;
    pose proof (ho_lt _ _ _ H) as Hlt; [lia|].
  assert (Hnext : forall c v, 0 < c -> parent c = pos -> l !! c = Some v ->
    (forall j y, 0 < j -> parent j = pos -> l !! j = Some y -> le v y) ->
    exists l' pos', siftup_loop fuel (length l) (<[pos := v]> l) c = Ok (l', pos') /\
      length l' = length l /\ holed s l' pos' /\ (forall x, fits x l' pos') /\
      forall x, <[pos' := x]> l' ≡ₚ <[pos := x]> l).
  { intros c v Hc Hcp Hv Hmin. assert (pos < c) by (unfold parent in *; lia).
    destruct (IH (<[pos := v]> l) c (holed_down s l pos c v H Hc Hcp Hv Hmin)) as (l' & pos' & Hr & Hl & Hh & Hf & Hp).
    - rewrite length_insert. lia.
    - rewrite length_insert in *. exists l', pos'. split; [done|]. split; [done|]. split; [done|]. split; [done|].
      intros x. rewrite Hp. apply hole_perm; [lia|done|done]. }
  destruct (Nat.ltb_spec (2 * pos + 1) (length l)) as [Hc|Hc].
  - destruct (lookup_lt_is_Some_2 l (2 * pos + 1) Hc) as [a Ha]. rewrite Ha.
    destruct (Nat.ltb_spec (2 * pos + 1 + 1) (length l)) as [Hr|Hr].
    + destruct (lookup_lt_is_Some_2 l (2 * pos + 1 + 1) Hr) as [b Hb]. rewrite Hb.
      destruct (lt a b) eqn:E; cbn [negb]; apply Hnext; try done; try (unfold parent; lia);
        intros j y Hj Hjp Hy; destruct (children pos j Hj Hjp) as [-> | ->]; rewrite ?Ha, ?Hb in Hy; injection Hy as <-.
      * apply le_refl.
      * by apply lt_le.
      * exact E.
      * apply le_refl.
    + apply Hnext; try done; try (unfold parent; lia).
      intros j y Hj Hjp Hy. destruct (children pos j Hj Hjp) as [-> | ->]; [rewrite Ha in Hy; injection Hy as <-; apply le_refl|].
      apply lookup_lt_Some in Hy. lia.
  - exists l, pos. split; [done|]. split; [done|]. split; [done|]. split; [|done].
    intros x c y Hc0 Hcp Hy. apply lookup_lt_Some in Hy. destruct (children pos c Hc0 Hcp) as [-> | ->]; lia.
Qed.

Lemma holed_insert s l pos x : holed s l pos -> holed s (<[pos := x]> l) pos.
Proof.
  intros [D Hlt E G]. constructor; [done|by rewrite length_insert| |].
  - intros j a b Hj Hjp Hjpp Hs Ha Hb. rewrite list_lookup_insert_ne in Ha, Hb by done. by apply (E j).
  - intros c a b Hc Hcp Hns Ha Hb. destruct (desc_parent _ _ D Hns) as [Hp0 _].
    rewrite list_lookup_insert_ne in Ha, Hb by (unfold parent in *; lia). by apply (G c).
Qed.

(** One more root in order, whatever it was. *)
Lemma siftup_ok s l :
  s < length l -> (forall j x y, 0 < j -> s < parent j -> l !! parent j = Some x -> l !! j = Some y -> le x y) ->
  exists l', siftup l s = Ok l' /\ heap_from s l' /\ l' ≡ₚ l.
Proof.
  intros Hlt Hh. unfold siftup. destruct (lookup_lt_is_Some_2 l s Hlt) as [x Hx]. rewrite Hx.
  destruct (siftup_loop_ok (length l) s l s) as (l1 & p1 & -> & Hl & H1 & Hf & Hp).
  - constructor; [constructor|done| |done]. intros j a b Hj Hjs Hjp Hs Ha Hb. apply (Hh j); [done|lia|done|done].
  - lia.
  - destruct (siftdown_ok s (<[p1 := x]> l1) p1 x) as (l2 & -> & Hh2 & Hp2).
    + apply list_lookup_insert_eq, H1.
    + by apply holed_insert.
    + intros c y Hc Hcp Hy. rewrite list_lookup_insert_ne in Hy by (unfold parent in *; lia). by apply (Hf x c).
    + exists l2. split; [done|]. split; [done|]. rewrite Hp2, Hp. by rewrite list_insert_id.
Qed.

(** ** The operations *)

Lemma heap_from_prefix s l k : heap_from s (l ++ k) -> heap_from s l.
Proof.
  intros H j x y Hj Hs Hx Hy. apply (H j); [done|done| |]; by apply lookup_app_l_Some.
Qed.

Lemma heappush_ok l x :
  heap_from 0 l -> exists l', heappush l x = Ok l' /\ heap_from 0 l' /\ l' ≡ₚ x :: l.
Proof.
  intros H. unfold heappush. destruct (siftdown_ok 0 (l ++ [x]) (length l) x) as (l' & Hr & Hh & Hp).
  - by rewrite lookup_app_r, Nat.sub_diag by lia.
  - constructor.
    + induction (lt_wf (length l)) as [n _ IH]. destruct (decide (n = 0)) as [->|]; [constructor|].
      apply desc_child; [apply IH; unfold parent; lia|lia].
    + rewrite length_app. simpl. lia.
    + intros j a b Hj Hjn Hjp _ Ha Hb.
      assert (Hlt : j < length l).
      { apply lookup_lt_Some in Hb. rewrite length_app in Hb. simpl in Hb. lia. }
      rewrite lookup_app_l in Hb by done. rewrite lookup_app_l in Ha by (unfold parent; lia).
      apply (H j); [done|lia|done|done].
    + intros c a b Hc Hcp _ _ Hb. apply lookup_lt_Some in Hb. rewrite length_app in Hb. simpl in Hb.
      unfold parent in Hcp. lia.
  - intros c y Hc Hcp Hy. apply lookup_lt_Some in Hy. rewrite length_app in Hy. simpl in Hy.
    unfold parent in Hcp. lia.
  - exists l'. split; [done|]. split; [done|]. rewrite Hp, Permutation_app_comm. done.
Qed.

Lemma heappop_ok l :
  heap_from 0 l -> l <> [] ->
  exists x l', heappop l = Ok (x, l') /\ heap_from 0 l' /\ l ≡ₚ x :: l' /\ forall y, y ∈ l -> le x y.
Proof.
  intros H Hne. destruct l as [|a l] using rev_ind; [done|]. clear IHl Hne. unfold heappop.
  rewrite last_snoc, length_app. simpl length. rewrite Nat.add_sub, take_app_length.
  assert (Hroot : forall x, (l ++ [a]) !! 0 = Some x -> forall y, y ∈ l ++ [a] -> le x y).
  { intros x Hx y [i Hi]%list_elem_of_lookup. by eapply heap_root. }
  apply heap_from_prefix in H. destruct l as [|x l].
  - exists a, []. split; [done|]. split; [done|]. split; [done|]. by apply Hroot.
  - destruct (siftup_ok 0 (a :: l)) as (l' & Hr & Hh & Hp).
    + simpl. lia.
    + intros j u v Hj Hs Hu Hv. assert (E : forall i, 0 < i -> (a :: l) !! i = (x :: l) !! i) by (by intros [|i]; [lia|]).
      rewrite E in Hu, Hv by lia. apply (H j); [done|lia|done|done].
    + cbn [insert list_insert]. change (<[0:=a]> (x :: l)) with (a :: l). rewrite Hr. exists x, l'. split; [done|].
      split; [done|]. split; [|by apply Hroot]. rewrite Hp. simpl. f_equiv. apply Permutation_app_comm.
Qed.

Lemma heapify_loop_ok n l :
  n <= length l -> (forall j x y, 0 < j -> n <= parent j -> l !! parent j = Some x -> l !! j = Some y -> le x y) ->
  exists l', heapify_loop n l = Ok l' /\ heap_from 0 l' /\ l' ≡ₚ l.
Proof.
  revert l. induction n as [|n IH]; intros l Hn H; cbn [heapify_loop].
  - exists l. split; [done|]. split; [|done]. intros j x y Hj Hs. by apply H.
  - destruct (siftup_ok n l) as (l1 & -> & Hh & Hp); [lia|exact H|].
    destruct (IH l1) as (l2 & -> & Hh2 & Hp2).
    + rewrite Hp. lia.
    + exact Hh.
    + exists l2. split; [done|]. split; [done|]. by rewrite Hp2.
Qed.

Lemma heapify_ok l : exists l', heapify l = Ok l' /\ heap_from 0 l' /\ l' ≡ₚ l.
Proof.
  apply heapify_loop_ok; [lia|]. intros j x y Hj Hs Hx Hy. apply lookup_lt_Some in Hy. unfold parent in Hs. lia.
Qed.

(** Popping until empty sorts. *)
Lemma pop_all_ok n l :
  heap_from 0 l -> length l = n ->
  exists k, pop_all n l = Ok k /\ k ≡ₚ l /\ StronglySorted le k.
Proof.
  revert l. induction n as [|n IH]; intros l H Hn; cbn [pop_all].
  { exists []. apply nil_length_inv in Hn as ->. split; [done|]. split; [done|constructor]. }
  destruct (heappop_ok l H) as (x & l' & -> & H' & Hp & Hmin); [by intros ->|].
  destruct (IH l' H') as (k & -> & Hk & Hs).
  - apply Permutation_length in Hp. simpl in Hp. lia.
  - exists (x :: k). split; [done|]. split; [by rewrite Hk|]. constructor; [done|].
    apply List.Forall_forall. intros y Hy%list_elem_of_In. apply Hmin. rewrite Hp, <- Hk. set_solver.
Qed.
End heap.
End Heap.
