(* ===== verification/RequestQueue.v ===== *)
(** * RequestQueue

    v1/core/sched/request_queue.py: the waiting queues of the scheduler, first
    come first served on a deque or by priority on a heap, and the abstract
    queue both implement. *)

From S2P Require Import Prelude Request Heap.
From stdpp Require Import sorting.

Module RequestQueue.
Import Request Heap.

Inductive SchedulingPolicy := FCFS | PRIORITY.

(** Queues hold references to request objects: their [id()]s. *)
Inductive RequestQueue :=
| FCFSRequestQueue (q : list Z)
| PriorityRequestQueue (heap : list Z).

Definition create_request_queue (policy : SchedulingPolicy) : RequestQueue :=
  match policy with
  | PRIORITY => PriorityRequestQueue []
  | FCFS => FCFSRequestQueue []
  end.

(** [list.remove]: the first occurrence goes. *)
Fixpoint list_remove `{EqDecision A} (x : A) (l : list A) : option (list A) :=
  match l with
  | [] => None
  | y :: l' => if decide (x = y) then Some l' else (fun k => y :: k) <$> list_remove x l'
  end.

Section queue.
(** The object a reference points to. *)
Context (obj : Z -> Request).

(** [Request.__lt__] on references. *)
Definition lt (a b : Z) : bool := request_lt a b (obj a) (obj b).

Definition of_result {S A} (r : result A) : M S A := fun s => (r, s).
Definition put {S} (s : S) : M S unit := fun _ => (Ok tt, s).

(** ** Operations *)

Definition add_request (r : Z) : M RequestQueue unit :=
  q ← get;
  match q with
  | FCFSRequestQueue l => put (FCFSRequestQueue (l ++ [r]))
  | PriorityRequestQueue h => h' ← of_result (heappush lt h r); put (PriorityRequestQueue h')
  end.

Definition pop_request : M RequestQueue Z :=
  q ← get;
  match q with
  | FCFSRequestQueue [] => raise IndexError
  | FCFSRequestQueue (r :: l) => put (FCFSRequestQueue l) ;; mret r
  | PriorityRequestQueue [] => raise IndexError
  | PriorityRequestQueue h =>
      rh ← of_result (heappop lt h); put (PriorityRequestQueue rh.2) ;; mret rh.1
  end.

Definition peek_request : M RequestQueue Z :=
  q ← get;
  match q with
  | FCFSRequestQueue (r :: _) | PriorityRequestQueue (r :: _) => mret r
  | _ => raise IndexError
  end.

Definition prepend_request (r : Z) : M RequestQueue unit :=
  q ← get;
  match q with
  | FCFSRequestQueue l => put (FCFSRequestQueue (r :: l))
  | PriorityRequestQueue _ => add_request r
  end.

(** [__iter__] *)
Definition iter (q : RequestQueue) : result (list Z) :=
  match q with
  | FCFSRequestQueue l => Ok l
  | PriorityRequestQueue h => pop_all lt (length h) h
  end.

Definition prepend_requests (requests : RequestQueue) : M RequestQueue unit :=
  rs ← of_result (iter requests);
  q ← get;
  match q with
  | FCFSRequestQueue l => put (FCFSRequestQueue (reverse rs ++ l))
  | PriorityRequestQueue _ => for_each add_request rs
  end.

(** [list.remove] and [deque.remove] compare by identity. *)
Definition remove_request (r : Z) : M RequestQueue unit :=
  q ← get;
  match q with
  | FCFSRequestQueue l => l' ← of_option ValueError (list_remove r l); put (FCFSRequestQueue l')
  | PriorityRequestQueue h =>
      h' ← of_option ValueError (list_remove r h);
      h'' ← of_result (heapify lt h');
      put (PriorityRequestQueue h'')
  end.

Definition remove_requests (rs : list Z) : M RequestQueue unit :=
  q ← get;
  match q with
  | FCFSRequestQueue l => put (FCFSRequestQueue (filter (fun r => r ∉ rs) l))
  | PriorityRequestQueue h =>
      h' ← of_result (heapify lt (filter (fun r => r ∉ rs) h));
      put (PriorityRequestQueue h')
  end.

Definition len (q : RequestQueue) : nat :=
  match q with FCFSRequestQueue l | PriorityRequestQueue l => length l end.

(** ** The abstract queue: the requests in the order of service *)

Fixpoint insert_by (r : Z) (l : list Z) : list Z :=
  match l with
  | [] => [r]
  | x :: l' => if lt r x then r :: l else x :: insert_by r l'
  end.

Definition enqueue (policy : SchedulingPolicy) (r : Z) (l : list Z) : list Z :=
  match policy with FCFS => l ++ [r] | PRIORITY => insert_by r l end.

Inductive queue_op :=
| QAdd (r : Z) | QPop | QPeek | QPrepend (r : Z) | QPrependAll (other : RequestQueue)
| QRemove (r : Z) | QRemoveAll (rs : list Z) | QIter | QLen.

Inductive queue_out := OUnit | OReq (r : Z) | OErr (e : exn) | OAll (rs : list Z) | OLen (n : nat).

Definition out_of {A} (f : A -> queue_out) (r : result A * RequestQueue) : queue_out * RequestQueue :=
  match r with (Ok a, q) => (f a, q) | (Err e, q) => (OErr e, q) end.

Definition run_queue_op (o : queue_op) (q : RequestQueue) : queue_out * RequestQueue :=
  match o with
  | QAdd r => out_of (fun _ => OUnit) (add_request r q)
  | QPop => out_of OReq (pop_request q)
  | QPeek => out_of OReq (peek_request q)
  | QPrepend r => out_of (fun _ => OUnit) (prepend_request r q)
  | QPrependAll other => out_of (fun _ => OUnit) (prepend_requests other q)
  | QRemove r => out_of (fun _ => OUnit) (remove_request r q)
  | QRemoveAll rs => out_of (fun _ => OUnit) (remove_requests rs q)
  | QIter => match iter q with Ok l => (OAll l, q) | Err e => (OErr e, q) end
  | QLen => (OLen (len q), q)
  end.

(** The same operations on the order of service; [others] are the requests of a
    queue to prepend, in its order. *)
Definition spec_queue_op (policy : SchedulingPolicy) (o : queue_op) (others : list Z) (l : list Z)
    : queue_out * list Z :=
  match o with
  | QAdd r => (OUnit, enqueue policy r l)
  | QPop => match l with [] => (OErr IndexError, []) | r :: l' => (OReq r, l') end
  | QPeek => match l with [] => (OErr IndexError, []) | r :: _ => (OReq r, l) end
  | QPrepend r => (OUnit, match policy with FCFS => r :: l | PRIORITY => insert_by r l end)
  | QPrependAll _ =>
      (OUnit, match policy with FCFS => reverse others ++ l | PRIORITY => foldl (fun l r => insert_by r l) l others end)
  | QRemove r => match list_remove r l with None => (OErr ValueError, l) | Some l' => (OUnit, l') end
  | QRemoveAll rs => (OUnit, filter (fun r => r ∉ rs) l)
  | QIter => (OAll l, l)
  | QLen => (OLen (length l), l)
  end.

(** ** The order of requests *)

(** The comparison spelled out: priority, arrival time, request id, identity. *)
Definition sle (a b : string) : Prop := String.le a b.

Lemma request_lt_spec a b :
  lt a b = true <->
  (priority (obj a) < priority (obj b))%Z \/ priority (obj a) = priority (obj b) /\
    ((arrival_time (obj a) < arrival_time (obj b))%Z \/ arrival_time (obj a) = arrival_time (obj b) /\
      (sle (request_id (obj a)) (request_id (obj b)) /\ request_id (obj a) <> request_id (obj b) \/
       request_id (obj a) = request_id (obj b) /\ (a < b)%Z)).
Proof.
  unfold lt, request_lt, sle.
  destruct (Z.eqb_spec (priority (obj a)) (priority (obj b))) as [E1|E1]; cbn [negb]; [|rewrite Z.ltb_lt; lia].
  destruct (Z.eqb_spec (arrival_time (obj a)) (arrival_time (obj b))) as [E2|E2]; cbn [negb]; [|rewrite Z.ltb_lt; lia].
  destruct (String.eqb_spec (request_id (obj a)) (request_id (obj b))) as [E3|E3]; cbn [negb].
  - rewrite Z.ltb_lt. split; [tauto|]. intros [?|[_ [?|[_ [[_ ?]|[_ ?]]]]]]; [lia|lia|done|done].
  - assert (Hs : String.ltb (request_id (obj a)) (request_id (obj b)) = true <->
        String.le (request_id (obj a)) (request_id (obj b))).
    { unfold String.le, String.leb, String.ltb.
      destruct (String.compare _ _) eqn:E; simpl; split; try done; try (by intros []); auto.
      intros _. by apply String.compare_eq_iff in E. }
    rewrite Hs. split; [tauto|]. intros [?|[_ [?|[_ [[? _]|[? _]]]]]]; [lia|lia|done|done].
Qed.

#[local] Instance lt_linear_lt : LinearLt lt.
Proof.
  constructor.
  - intros a. apply not_true_iff_false. rewrite request_lt_spec. intros [?|[_ [?|[_ [[_ ?]|[_ ?]]]]]]; [lia|lia|done|lia].
  - intros a b c. rewrite !request_lt_spec. unfold sle.
    intros [H1|(E1 & [H1|(E2 & [[H1 N1]|(E3 & H1)])])] [G1|(F1 & [G1|(F2 & [[G1 M1]|(F3 & G1)])])];
      try (left; lia); right; (split; [congruence|]); try (left; lia); right; (split; [congruence|]).
    + left. split; [by etrans|]. intros E. apply N1. apply (anti_symm String.le); [done|]. by rewrite E.
    + left. rewrite <- F3. done.
    + left. rewrite E3. done.
    + right. split; [congruence|lia].
  - intros a b H1 H2. apply not_true_iff_false in H1, H2. rewrite request_lt_spec in H1, H2. unfold sle in *.
    assert (E1 : priority (obj a) = priority (obj b)) by lia.
    assert (E2 : arrival_time (obj a) = arrival_time (obj b)) by lia.
    assert (E3 : request_id (obj a) = request_id (obj b)).
    { destruct (decide (request_id (obj a) = request_id (obj b))) as [|Hne]; [done|exfalso].
      destruct (String.le_total (request_id (obj a)) (request_id (obj b))); [apply H1|apply H2]; auto 10. }
    assert (~ (a < b)%Z) by (intros ?; apply H1; auto 10).
    assert (~ (b < a)%Z) by (intros ?; apply H2; auto 10). lia.
Qed.

(** ** Refinement *)

Notation lle := (le lt).

(** A queue and its order of service. *)
Definition serves (policy : SchedulingPolicy) (q : RequestQueue) (l : list Z) : Prop :=
  match policy, q with
  | FCFS, FCFSRequestQueue k => k = l
  | PRIORITY, PriorityRequestQueue h => heap_from lt 0 h /\ h ≡ₚ l /\ StronglySorted lle l
  | _, _ => False
  end.

Lemma sorted_unique l k : StronglySorted lle l -> StronglySorted lle k -> l ≡ₚ k -> l = k.
Proof. apply StronglySorted_unique_strong. intros x y _ _ H1 H2. by apply (lt_linear (lt := lt)). Qed.

Lemma insert_by_perm r l : insert_by r l ≡ₚ r :: l.
Proof.
  induction l as [|x l IH]; simpl; [done|]. destruct (lt r x); [done|]. rewrite IH. apply Permutation_swap.
Qed.

Lemma insert_by_sorted r l : StronglySorted lle l -> StronglySorted lle (insert_by r l).
Proof.
  induction 1 as [|x l Hs IH Hx]; simpl; [by repeat constructor|]. rewrite List.Forall_forall in Hx.
  destruct (lt r x) eqn:E.
  - assert (Hrx : lle r x) by (apply Heap.lt_le; [apply _|exact E]).
    constructor; [constructor; [exact Hs|apply List.Forall_forall; exact Hx]|]. apply List.Forall_forall.
    intros y [<-|Hy]; [done|]. eapply (Heap.le_trans lt); [exact Hrx|by apply Hx].
  - constructor; [done|]. apply List.Forall_forall. intros y Hy%list_elem_of_In.
    rewrite insert_by_perm in Hy. apply elem_of_cons in Hy as [->|Hy]; [done|]. by apply Hx, list_elem_of_In.
Qed.

Lemma list_remove_perm (r : Z) l l' : list_remove r l = Some l' -> l ≡ₚ r :: l'.
Proof.
  revert l'. induction l as [|x l IH]; intros l' H; simpl in H; [done|].
  destruct (decide (r = x)) as [->|]; [by injection H as <-|].
  destruct (list_remove r l) as [k|]; [|done]. injection H as <-. rewrite (IH k) by done. apply Permutation_swap.
Qed.

Lemma list_remove_none (r : Z) l : list_remove r l = None <-> r ∉ l.
Proof.
  induction l as [|x l IH]; simpl; [by split; [set_solver|]|].
  destruct (decide (r = x)) as [->|Hne]; [split; [done|set_solver]|].
  rewrite fmap_None, IH. set_solver.
Qed.

Lemma sorted_sublist l k : k `sublist_of` l -> StronglySorted lle l -> StronglySorted lle k.
Proof.
  induction 1 as [|x k l Hs IH|x k l Hs IH]; intros H; [constructor| |].
  - inversion H as [|? ? Hl Hx]; subst. constructor; [auto|]. rewrite List.Forall_forall in *.
    intros y Hy. apply Hx. apply list_elem_of_In. apply list_elem_of_In in Hy. by eapply elem_of_sublist.
  - inversion H; subst. auto.
Qed.

Lemma list_remove_sublist (r : Z) l l' : list_remove r l = Some l' -> l' `sublist_of` l.
Proof.
  revert l'. induction l as [|x l IH]; intros l' H; simpl in H; [done|].
  destruct (decide (r = x)); [injection H as <-; by constructor|].
  destruct (list_remove r l); [|done]. injection H as <-. constructor. by apply IH.
Qed.

(** Each operation, by policy. *)
Lemma add_serves policy q l r :
  serves policy q l -> exists q', add_request r q = (Ok tt, q') /\ serves policy q' (enqueue policy r l).
Proof.
  destruct policy, q as [k|h]; try done; simpl.
  - intros ->. by eexists.
  - intros (Hh & Hp & Hs). unfold add_request, mbind, M_bind, get, of_result, put.
    destruct (heappush_ok lt h r Hh) as (h' & -> & Hh' & Hp'). eexists. split; [done|].
    split; [done|]. split; [|by apply insert_by_sorted]. by rewrite Hp', insert_by_perm, Hp.
Qed.

Lemma add_all_serves q l rs :
  serves PRIORITY q l ->
  exists q', for_each add_request rs q = (Ok tt, q') /\
    serves PRIORITY q' (foldl (fun l r => insert_by r l) l rs).
Proof.
  revert q l. induction rs as [|r rs IH]; intros q l H; cbn [for_each foldl]; [by exists q|].
  destruct (add_serves PRIORITY q l r H) as (q1 & H1 & S1). destruct (IH q1 _ S1) as (q2 & H2 & S2).
  exists q2. unfold mbind, M_bind. by rewrite H1.
Qed.

Lemma serves_perm policy q l :
  serves policy q l -> match q with FCFSRequestQueue k | PriorityRequestQueue k => k ≡ₚ l end.
Proof. destruct policy, q; try done; simpl; [by intros ->|tauto]. Qed.

Lemma iter_serves policy q l : serves policy q l -> iter q = Ok l.
Proof.
  destruct policy, q as [k|h]; try done; simpl; [by intros ->|]. intros (Hh & Hp & Hs).
  destruct (pop_all_ok lt (length h) h Hh eq_refl) as (k & -> & Hk & Hks).
  f_equal. apply sorted_unique; [done|done|]. by rewrite Hk.
Qed.

Lemma pop_serves policy q l :
  serves policy q l ->
  match l with
  | [] => pop_request q = (Err IndexError, q)
  | r :: l' => exists q', pop_request q = (Ok r, q') /\ serves policy q' l'
  end.
Proof.
  destruct policy, q as [k|h]; try done; simpl.
  - intros ->. destruct l; [done|by eexists].
  - intros (Hh & Hp & Hs). destruct l as [|r l'].
    { by apply Permutation_nil_r in Hp as ->. }
    destruct (heappop_ok lt h Hh) as (x & h' & Hr & Hh' & Hp' & Hmin); [intros ->; by apply Permutation_nil_l in Hp|].
    assert (x = r) as ->.
    { apply (lt_linear (lt := lt)).
      - inversion Hs as [|? ? _ Hx]; subst. rewrite List.Forall_forall in Hx.
        assert (Hin : x ∈ r :: l') by (rewrite <- Hp, Hp'; set_solver).
        apply elem_of_cons in Hin as [->|Hin]; [apply Heap.le_refl; apply _|]. by apply Hx, list_elem_of_In.
      - apply Hmin. rewrite Hp. set_solver. }
    exists (PriorityRequestQueue h'). unfold pop_request, mbind, M_bind, get, of_result, put. rewrite Hr.
    destruct h as [|y h]; [done|]. split; [done|]. split; [done|]. split; [|by inversion Hs].
    apply (Permutation_cons_inv (a := r)). by rewrite <- Hp'.
Qed.

Lemma heapify_serves h l :
  h ≡ₚ l -> StronglySorted lle l ->
  exists h', heapify lt h = Ok h' /\ serves PRIORITY (PriorityRequestQueue h') l.
Proof.
  intros Hp Hs. destruct (heapify_ok lt h) as (h' & -> & Hh & Hp'). exists h'.
  split; [done|]. split; [done|]. split; [|done]. by rewrite Hp'.
Qed.

Lemma remove_serves policy q l r :
  serves policy q l ->
  match list_remove r l with
  | None => remove_request r q = (Err ValueError, q)
  | Some l' => exists q', remove_request r q = (Ok tt, q') /\ serves policy q' l'
  end.
Proof.
  destruct policy, q as [k|h]; try done.
  - simpl. intros ->. unfold remove_request, mbind, M_bind, get, put, of_option.
    destruct (list_remove r l) as [l'|]; [by eexists|done].
  - intros (Hh & Hp & Hs). unfold remove_request, mbind, M_bind, get, put, of_option.
    destruct (list_remove r l) as [l'|] eqn:El, (list_remove r h) as [h'|] eqn:Eh.
    + destruct (heapify_serves h' l') as (h'' & E & S).
      * apply (Permutation_cons_inv (a := r)). rewrite <- (list_remove_perm r l l' El).
        by rewrite <- (list_remove_perm r h h' Eh).
      * eapply sorted_sublist; [by eapply list_remove_sublist|done].
      * unfold mret, M_ret, of_result. rewrite E. by eexists.
    + apply list_remove_none in Eh. apply list_remove_perm in El. exfalso. apply Eh. rewrite Hp, El. set_solver.
    + apply list_remove_none in El. apply list_remove_perm in Eh. exfalso. apply El. rewrite <- Hp, Eh. set_solver.
    + done.
Qed.

Lemma remove_all_serves policy q l rs :
  serves policy q l ->
  exists q', remove_requests rs q = (Ok tt, q') /\ serves policy q' (filter (fun r => r ∉ rs) l).
Proof.
  destruct policy, q as [k|h]; try done.
  - simpl. intros ->. by eexists.
  - intros (Hh & Hp & Hs). unfold remove_requests, mbind, M_bind, get, put, of_result.
    destruct (heapify_serves (filter (fun r => r ∉ rs) h) (filter (fun r => r ∉ rs) l)) as (h' & -> & S).
    + by rewrite Hp.
    + eapply sorted_sublist; [apply sublist_filter|done].
    + by eexists.
Qed.

Lemma prepend_serves policy q l r :
  serves policy q l -> exists q', prepend_request r q = (Ok tt, q') /\
    serves policy q' (match policy with FCFS => r :: l | PRIORITY => insert_by r l end).
Proof.
  destruct policy, q as [k|h]; try done; [simpl; intros ->; by eexists|]. intros S.
  destruct (add_serves PRIORITY _ l r S) as (q' & Hr & S'). by exists q'.
Qed.

Lemma prepend_all_serves policy q l other others policy' :
  serves policy q l -> serves policy' other others ->
  exists q', prepend_requests other q = (Ok tt, q') /\
    serves policy q' (match policy with
                      | FCFS => reverse others ++ l
                      | PRIORITY => foldl (fun l r => insert_by r l) l others
                      end).
Proof.
  intros S So. apply iter_serves in So. unfold prepend_requests, mbind, M_bind, of_result, get. rewrite So.
  destruct policy, q as [k|h]; try done; [simpl in S; subst; by eexists|]. by apply add_all_serves.
Qed.

Lemma peek_serves policy q l :
  serves policy q l -> peek_request q = (match l with [] => Err IndexError | r :: _ => Ok r end, q).
Proof.
  intros S. destruct policy, q as [k|h]; try done; simpl in S; [subst; by destruct l|]. destruct S as (Hh & Hp & Hs).
  destruct h as [|x h]; [apply Permutation_nil_l in Hp; by subst|].
  destruct l as [|r l']; [by apply Permutation_nil_r in Hp|]. unfold peek_request, mbind, M_bind, get, mret, M_ret.
  do 2 f_equal. apply (lt_linear (lt := lt)).
  - inversion Hs as [|? ? _ Hx]; subst. rewrite List.Forall_forall in Hx.
    assert (Hin : x ∈ r :: l') by (rewrite <- Hp; set_solver).
    apply elem_of_cons in Hin as [->|Hin]; [apply Heap.le_refl; apply _|]. by apply Hx, list_elem_of_In.
  - assert (Hin : r ∈ x :: h) by (rewrite Hp; set_solver). apply list_elem_of_lookup in Hin as [i Hi].
    by eapply (heap_root lt (x :: h) x Hh).
Qed.

Lemma len_serves policy q l : serves policy q l -> len q = length l.
Proof. intros S%serves_perm. destruct q; by apply Permutation_length in S. Qed.

(** What a call of [prepend_requests] prepends is a queue itself. *)
Definition op_serves (o : queue_op) (others : list Z) : Prop :=
  match o with QPrependAll other => exists policy, serves policy other others | _ => True end.

Lemma run_queue_op_serves policy q l o others :
  serves policy q l -> op_serves o others ->
  exists q', run_queue_op o q = ((spec_queue_op policy o others l).1, q') /\
    serves policy q' (spec_queue_op policy o others l).2.
Proof.
  intros S Ho. destruct o as [r| | |r|other|r|rs| |]; cbn [run_queue_op spec_queue_op fst snd].
  - destruct (add_serves policy q l r S) as (q' & -> & S'). by exists q'.
  - pose proof (pop_serves policy q l S) as Hp. destruct l as [|r l']; [rewrite Hp; by exists q|].
    destruct Hp as (q' & -> & S'). by exists q'.
  - exists q. rewrite (peek_serves policy q l S). by destruct l.
  - destruct (prepend_serves policy q l r S) as (q' & -> & S'). by exists q'.
  - destruct Ho as [policy' So]. destruct (prepend_all_serves policy q l other others policy' S So) as (q' & -> & S').
    by exists q'.
  - pose proof (remove_serves policy q l r S) as Hr. destruct (list_remove r l) as [l'|].
    + destruct Hr as (q' & -> & S'). by exists q'.
    + rewrite Hr. by exists q.
  - destruct (remove_all_serves policy q l rs S) as (q' & -> & S'). by exists q'.
  - rewrite (iter_serves policy q l S). by exists q.
  - exists q. by rewrite (len_serves policy q l S).
Qed.

(** Sequences of operations, with the requests of the queues prepended. *)
Fixpoint run_queue_ops (os : list (queue_op * list Z)) (q : RequestQueue) : list queue_out :=
  match os with
  | [] => []
  | (o, _) :: os' => let r := run_queue_op o q in r.1 :: run_queue_ops os' r.2
  end.

Fixpoint spec_queue_ops (policy : SchedulingPolicy) (os : list (queue_op * list Z)) (l : list Z)
    : list queue_out :=
  match os with
  | [] => []
  | (o, others) :: os' => let r := spec_queue_op policy o others l in r.1 :: spec_queue_ops policy os' r.2
  end.

(** C31. Both queues implement the abstract queue. Any sequence of operations on a
    queue made by [create_request_queue] answers as the same operations on the
    plain list of requests in the order of service: for FCFS the order of
    arrival, for PRIORITY the order by priority, arrival time, request id and
    identity that inserting in order gives. *)
Theorem request_queue_refines policy os :
  Forall (fun oo => op_serves oo.1 oo.2) os ->
  run_queue_ops os (create_request_queue policy) = spec_queue_ops policy os [].
Proof.
  intros Hos. assert (S : serves policy (create_request_queue policy) []).
  { destruct policy; simpl; [done|]. split; [|split; [done|constructor]].
    intros j x y _ _ Hx. by rewrite lookup_nil in Hx. }
  revert S. generalize (create_request_queue policy), (@nil Z).
  induction Hos as [|[o others] os Ho _ IH]; intros q l S; [done|]. cbn [run_queue_ops spec_queue_ops].
  destruct (run_queue_op_serves policy q l o others S Ho) as (q' & -> & S'). cbn [fst snd]. by rewrite (IH q' _ S').
Qed.
End queue.

(** ** A witness: four requests by priority *)

(** Requests 1 and 3 share a priority, 2 goes first. *)
Definition sample_obj (i : Z) : Request :=
  mkRequest "r" 0 (if (i =? 2)%Z then 0 else if (i =? 4)%Z then 2 else 1) (10 - i) None None None false None None
    false false false 16 None 0 [] WAITING None [] [] 0 0 0 [] 0 false 0 0 None [] ∅.

Definition sample_queue_ops : list (queue_op * list Z) :=
  (fun o => (o, [])) <$> [QAdd 4; QAdd 1; QAdd 2; QIter; QAdd 3; QRemove 2; QRemove 7; QPop; QPrepend 2; QPeek; QIter].

Lemma request_queue_refines_witness :
  run_queue_ops sample_obj sample_queue_ops (create_request_queue PRIORITY) =
  [OUnit; OUnit; OUnit; OAll [2; 1; 4]%Z; OUnit; OUnit; OErr ValueError; OReq 3; OUnit; OReq 2; OAll [2; 1; 4]%Z].
Proof.
  rewrite (request_queue_refines sample_obj PRIORITY sample_queue_ops).
  - vm_compute. reflexivity.
  - repeat (apply Forall_cons; split; [exact Logic.I|]). by apply Forall_nil.
Defined.

End RequestQueue.
