(* ===== verification/StopCheck.v ===== *)
(** * StopCheck

    v1/core/sched/utils.py: when a request stops (check_stop), the detection of
    repeated patterns it uses, and the loop of the scheduler that appends
    generated tokens until one of them stops the request
    (Scheduler._update_request_with_output of v1/core/sched/scheduler.py). *)

From S2P Require Import Prelude Request.

Module StopCheck.
Import Request.
#[local] Open Scope Z_scope.

(** [range(a, b)] *)
Definition py_range (a b : Z) : list Z := (fun i => a + i) <$> zrange (b - a).

(** A loop that returns False at the first element that fails. *)
Fixpoint all_m {A} (f : A -> result bool) (l : list A) : result bool :=
  match l with
  | [] => Ok true
  | x :: l' => match f x with
               | Err e => Err e
               | Ok false => Ok false
               | Ok true => all_m f l'
               end
  end.

(** ** Repetition *)

Definition has_repeating_pattern (token_ids : list Z) (pattern_len repetition_min_count : Z) : result bool :=
  all_m (fun n =>
    match py_index token_ids (- n) with
    | None => Err IndexError
    | Some target_token =>
        all_m (fun m =>
          match py_index token_ids (- (pattern_len * m + n)) with
          | None => Err IndexError
          | Some t => Ok (t =? target_token)
          end) (py_range 1 repetition_min_count)
    end) (py_range 1 (pattern_len + 1)).

Fixpoint find_pattern (token_ids : list Z) (min_count : Z) (pattern_lens : list Z) : result bool :=
  match pattern_lens with
  | [] => Ok false
  | pattern_len :: rest =>
      if zlen token_ids <? pattern_len * min_count then Ok false
      else match has_repeating_pattern token_ids pattern_len min_count with
           | Err e => Err e
           | Ok true => Ok true
           | Ok false => find_pattern token_ids min_count rest
           end
  end.

Definition check_sequence_repetition (token_ids : list Z) (params : RepetitionDetectionParams) : result bool :=
  let min_pattern_size := if min_pattern_size params <=? 0 then 1 else min_pattern_size params in
  if (max_pattern_size params <=? 0) || (min_count params <? 2) ||
     (max_pattern_size params <? min_pattern_size)
  then Ok false
  else find_pattern token_ids (min_count params) (py_range min_pattern_size (max_pattern_size params + 1)).

(** [remove_all] *)
Definition remove_all `{EqDecision A} (lst items_to_remove : list A) : list A :=
  match items_to_remove with
  | [] => lst
  | [item] =>
      match list_find (fun x => x = item) lst with
      | Some (i, _) => delete i lst
      | None => lst
      end
  | _ => filter (fun x => x ∉ items_to_remove) lst
  end.

(** ** Stopping *)

Definition stop_with (s : RequestStatus) (reason : option StopReason) : M Request bool :=
  modify (fun r => match reason with
                   | None => set_status s r
                   | Some x => set_stop_reason (Some x) (set_status s r)
                   end) ;;
  mret true.

Definition check_stop (max_model_len : Z) : M Request bool :=
  request ← get;
  assert_ (match pooling_params request with None => true | Some _ => false end) ;;
  match sampling_params request with
  | None => raise AssertionError
  | Some sp =>
      if num_output_tokens request <? min_tokens sp then mret false
      else
        last_token_id ← of_option IndexError (py_index (output_token_ids request) (-1));
        if match eos_token_id sp with Some e => last_token_id =? e | None => false end
        then stop_with FINISHED_STOPPED None
        else if bool_decide (last_token_id ∈ stop_token_ids sp)
        then stop_with FINISHED_STOPPED (Some (StopToken last_token_id))
        else if (max_model_len <=? num_tokens request) || (max_tokens request <=? num_output_tokens request)
        then stop_with FINISHED_LENGTH_CAPPED None
        else
          match repetition_detection sp with
          | None => mret false
          | Some params =>
              rep ← (fun r => (check_sequence_repetition (output_token_ids request) params, r));
              if (rep : bool) then stop_with FINISHED_REPETITION (Some (StopString "repetition_detected"))
              else mret false
          end
  end.

(** [Scheduler._update_request_with_output]: the tokens kept, and whether the
    request stopped. *)
Fixpoint update_request_with_output (h : option hasher) (max_model_len : Z) (new_token_ids : list Z)
    : M Request (list Z * bool) :=
  match new_token_ids with
  | [] => mret ([], false)
  | t :: rest =>
      append_output_token_ids h [t] ;;
      stopped ← check_stop max_model_len;
      if (stopped : bool) then mret ([t], true)
      else
        ks ← update_request_with_output h max_model_len rest;
        mret (t :: ks.1, ks.2)
  end.

(** ** What repetition means *)

(** The last [count * p] tokens are [count] copies of the last [p]. *)
Definition repeats (ids : list Z) (p count : nat) : Prop :=
  (p * count <= length ids)%nat /\
  drop (length ids - p * count) ids = concat (replicate count (drop (length ids - p) ids)).

Lemma all_m_spec {A} (f : A -> result bool) (P : A -> Prop) l :
  (forall x, x ∈ l -> exists b, f x = Ok b /\ (b = true <-> P x)) ->
  exists b, all_m f l = Ok b /\ (b = true <-> forall x, x ∈ l -> P x).
Proof.
  induction l as [|x l IH]; intros H; cbn [all_m]; [exists true; split; [done|set_solver]|].
  destruct (H x ltac:(set_solver)) as (b & -> & Hb). destruct IH as (b' & -> & Hb'); [set_solver|].
  destruct b.
  - exists b'. split; [done|]. rewrite Hb'. split.
    + intros Hl y [->|Hy]%elem_of_cons; [by apply Hb|auto].
    + set_solver.
  - exists false. split; [done|]. split; [done|]. intros Hl. apply Hb. set_solver.
Qed.

Lemma elem_of_py_range a b i : i ∈ py_range a b <-> a <= i < b.
Proof.
  unfold py_range, zrange. rewrite list_elem_of_fmap. split.
  - intros (j & -> & (n & -> & Hn)%list_elem_of_fmap). apply elem_of_seq in Hn. lia.
  - intros Hi. exists (i - a). split; [lia|]. apply list_elem_of_fmap. exists (Z.to_nat (i - a)).
    split; [lia|]. apply elem_of_seq. lia.
Qed.

Lemma lookup_repeated {A} (pat : list A) c x :
  (0 < length pat)%nat -> (x < length pat * c)%nat ->
  concat (replicate c pat) !! x = pat !! (x mod length pat)%nat.
Proof.
  intros Hp. revert x. induction c as [|c IH]; intros x Hx; [lia|]. simpl.
  destruct (decide (x < length pat)%nat) as [Hlt|Hge].
  - rewrite lookup_app_l by done. by rewrite Nat.mod_small.
  - rewrite lookup_app_r, IH by lia. f_equal.
    replace x with (x - length pat + 1 * length pat)%nat at 2 by lia. by rewrite Nat.Div0.mod_add.
Qed.

Lemma length_repeated {A} (pat : list A) c : length (concat (replicate c pat)) = (length pat * c)%nat.
Proof. induction c as [|c IH]; simpl; [lia|]. rewrite length_app, IH. lia. Qed.

Lemma py_index_back {A} (l : list A) (n : nat) :
  (1 <= n <= length l)%nat -> py_index l (- Z.of_nat n) = l !! (length l - n)%nat.
Proof.
  intros Hn. unfold py_index. rewrite (proj2 (Z.leb_gt _ _)), (proj2 (Z.leb_le _ _)) by lia. f_equal. lia.
Qed.

(** Comparing position by position is comparing the copies. *)
Lemma repeats_pointwise ids p c :
  (0 < p)%nat -> (0 < c)%nat -> (p * c <= length ids)%nat ->
  repeats ids p c <->
  forall n m, (1 <= n <= p)%nat -> (1 <= m < c)%nat ->
    ids !! (length ids - (p * m + n))%nat = ids !! (length ids - n)%nat.
Proof.
  intros Hp Hc Hle. assert (Hpl : (p <= length ids)%nat) by nia.
  set (pat := drop (length ids - p) ids).
  assert (Hpat : length pat = p) by (unfold pat; rewrite length_drop; lia).
  assert (Hlook : forall x, pat !! x = ids !! (length ids - p + x)%nat) by (intros; apply lookup_drop).
  unfold repeats. fold pat. split.
  - intros [_ He] n m Hn Hm.
    assert (Hx : (p * (c - 1 - m) + (p - n) < length pat * c)%nat) by (rewrite Hpat; nia).
    assert (Hmod : ((p * (c - 1 - m) + (p - n)) mod length pat = (p - n) mod p)%nat).
    { rewrite Hpat, (Nat.add_comm (p * _)), (Nat.mul_comm p). apply Nat.Div0.mod_add. }
    pose proof (lookup_repeated pat c _ ltac:(lia) Hx) as Hl. rewrite <- He, lookup_drop, Hmod in Hl.
    rewrite Nat.mod_small, Hlook in Hl by lia.
    replace (length ids - (p * m + n))%nat with (length ids - p * c + (p * (c - 1 - m) + (p - n)))%nat by nia.
    rewrite Hl. f_equal. lia.
  - intros H. split; [done|]. apply list_eq. intros x. rewrite lookup_drop.
    destruct (decide (x < p * c)%nat) as [Hx|Hx].
    + rewrite lookup_repeated, Hpat, Hlook by (rewrite ?Hpat; lia).
      pose proof (Nat.div_mod_eq x p) as Hdm. pose proof (Nat.mod_upper_bound x p ltac:(lia)) as Hmb.
      assert (Hq : (x / p < c)%nat) by (apply Nat.Div0.div_lt_upper_bound; lia).
      destruct (decide (x / p = c - 1)%nat) as [E|Hne].
      * f_equal. nia.
      * specialize (H (p - x mod p)%nat (c - 1 - x / p)%nat ltac:(lia) ltac:(lia)).
        replace (length ids - p * c + x)%nat with (length ids - (p * (c - 1 - x / p) + (p - x mod p)))%nat by nia.
        rewrite H. f_equal. lia.
    + rewrite !lookup_ge_None_2; [done| |lia]. rewrite length_repeated, Hpat. lia.
Qed.

Lemma has_repeating_pattern_spec ids p c :
  (0 < p)%nat -> (2 <= c)%nat -> (p * c <= length ids)%nat ->
  exists b, has_repeating_pattern ids (Z.of_nat p) (Z.of_nat c) = Ok b /\ (b = true <-> repeats ids p c).
Proof.
  intros Hp Hc Hle. unfold has_repeating_pattern.
  assert (Hin : forall n m, (1 <= n <= p)%nat -> (m < c)%nat -> (1 <= p * m + n <= length ids)%nat) by (intros; nia).
  match goal with |- context [all_m ?f ?l = _] =>
    destruct (all_m_spec f (fun n => forall m, m ∈ py_range 1 (Z.of_nat c) ->
      ids !! (length ids - (p * Z.to_nat m + Z.to_nat n))%nat = ids !! (length ids - Z.to_nat n)%nat) l)
      as (b & Hb & Hiff) end.
  2: { exists b. split; [exact Hb|]. rewrite Hiff, repeats_pointwise by lia. split.
       - intros H n m Hn Hm. specialize (H (Z.of_nat n)). rewrite elem_of_py_range in H.
         specialize (H ltac:(lia) (Z.of_nat m)). rewrite elem_of_py_range, !Nat2Z.id in H. apply H. lia.
       - intros H n Hn m Hm. rewrite elem_of_py_range in Hn, Hm. apply H; lia. }
  intros n Hn. rewrite elem_of_py_range in Hn. replace (- n) with (- Z.of_nat (Z.to_nat n)) by lia.
  rewrite (py_index_back ids (Z.to_nat n)) by nia.
  destruct (lookup_lt_is_Some_2 ids (length ids - Z.to_nat n)) as [t Ht]; [nia|]. rewrite Ht.
  apply all_m_spec. intros m Hm. rewrite elem_of_py_range in Hm.
  specialize (Hin (Z.to_nat n) (Z.to_nat m) ltac:(lia) ltac:(lia)).
  replace (Z.of_nat p * m + n) with (Z.of_nat (p * Z.to_nat m + Z.to_nat n)) by lia.
  rewrite py_index_back by done.
  destruct (lookup_lt_is_Some_2 ids (length ids - (p * Z.to_nat m + Z.to_nat n))) as [u Hu]; [lia|]. rewrite Hu.
  exists (u =? t). split; [done|]. rewrite Z.eqb_eq. split; [by intros ->|by intros [=]].
Qed.

Lemma py_range_cons a b : a < b -> py_range a b = a :: py_range (a + 1) b.
Proof.
  intros Hlt. unfold py_range, zrange. replace (Z.to_nat (b - a)) with (S (Z.to_nat (b - (a + 1)))) by lia.
  cbn [seq]. rewrite <- fmap_S_seq, !fmap_cons. f_equal; [lia|]. rewrite <- !list_fmap_compose.
  apply list_fmap_ext. intros _ x _. simpl. lia.
Qed.

Lemma py_range_nil a b : b <= a -> py_range a b = [].
Proof. intros Hle. unfold py_range, zrange. by replace (Z.to_nat (b - a)) with O by lia. Qed.

Lemma find_pattern_spec ids c n : forall a,
  1 <= a -> 2 <= c ->
  exists b, find_pattern ids c (py_range a (a + Z.of_nat n)) = Ok b /\
    (b = true <-> exists p : nat, a <= Z.of_nat p < a + Z.of_nat n /\ repeats ids p (Z.to_nat c)).
Proof.
  induction n as [|n IH]; intros a Ha Hc.
  { rewrite py_range_nil by lia. exists false. split; [done|]. split; [done|]. intros (p & ? & _). lia. }
  rewrite py_range_cons by lia. cbn [find_pattern].
  destruct (Z.ltb_spec (zlen ids) (a * c)) as [Hlt|Hge].
  { exists false. split; [done|]. split; [done|]. intros (p & Hp & [Hl _]). nia. }
  destruct (has_repeating_pattern_spec ids (Z.to_nat a) (Z.to_nat c)) as (b & Hb & Hiff); [lia|lia|nia|].
  rewrite !Z2Nat.id in Hb by lia. rewrite Hb. destruct b.
  - exists true. split; [done|]. split; [|done]. intros _. exists (Z.to_nat a). split; [lia|]. by apply Hiff.
  - replace (a + Z.of_nat (S n)) with (a + 1 + Z.of_nat n) by lia.
    destruct (IH (a + 1)) as (b' & Hb' & Hiff'); [lia|lia|]. exists b'. split; [done|]. rewrite Hiff'. split.
    + intros (p & Hp & Hr). exists p. split; [lia|done].
    + intros (p & Hp & Hr). destruct (decide (Z.of_nat p = a)) as [E|Hne]; [|exists p; split; [lia|done]].
      exfalso. assert (Hf : false = true); [|done]. apply Hiff. by rewrite <- E, Nat2Z.id.
Qed.

Lemma repetition_spec ids params :
  exists b, check_sequence_repetition ids params = Ok b /\
    (b = true <-> exists p : nat, Z.max 1 (min_pattern_size params) <= Z.of_nat p <= max_pattern_size params /\
                    2 <= min_count params /\ repeats ids p (Z.to_nat (min_count params))).
Proof.
  unfold check_sequence_repetition. set (lo := if min_pattern_size params <=? 0 then 1 else min_pattern_size params).
  assert (Hlo : lo = Z.max 1 (min_pattern_size params)).
  { unfold lo. destruct (Z.leb_spec (min_pattern_size params) 0); lia. }
  destruct (Z.leb_spec (max_pattern_size params) 0); simpl.
  { exists false. split; [done|]. split; [done|]. intros (p & ? & _). lia. }
  destruct (Z.ltb_spec (min_count params) 2); simpl.
  { exists false. split; [done|]. split; [done|]. intros (p & _ & ? & _). lia. }
  destruct (Z.ltb_spec (max_pattern_size params) lo).
  { exists false. split; [done|]. split; [done|]. intros (p & ? & _). lia. }
  destruct (find_pattern_spec ids (min_count params) (Z.to_nat (max_pattern_size params + 1 - lo)) lo) as (b & Hb & Hiff);
    [lia|lia|].
  replace (lo + Z.of_nat (Z.to_nat (max_pattern_size params + 1 - lo))) with (max_pattern_size params + 1) in * by lia.
  exists b. split; [done|]. rewrite Hiff, <- Hlo. split.
  - intros (p & ? & ?). exists p. split; [lia|]. split; [lia|done].
  - intros (p & ? & ? & ?). exists p. split; [lia|done].
Qed.

(** Repetition is found exactly when it is there: [check_sequence_repetition]
    never indexes out of range, and it answers True if and only if for some
    pattern length between the limits (a lower limit below one counts as one)
    the last [min_count] (at least two) stretches of that length are equal. *)
Theorem check_sequence_repetition_exact ids params :
  exists b, check_sequence_repetition ids params = Ok b /\
    (b = true <-> exists p : nat, Z.max 1 (min_pattern_size params) <= Z.of_nat p <= max_pattern_size params /\
                    2 <= min_count params /\ repeats ids p (Z.to_nat (min_count params))).
Proof. apply repetition_spec. Qed.

(** ** Generation stops *)

(** A block hasher that raises nothing and touches nothing but its cache. *)
Definition hasher_calm (h : option hasher) : Prop :=
  forall hf, h = Some hf -> forall r, exists hs c, hf r = (Ok hs, set_prompt_embeds_per_block_hashes c r).

(** What neither appending nor stopping changes. *)
Definition unsampled (r : Request) :=
  (request_id r, client_index r, priority r, arrival_time r, mm_features r, resumable r, num_prompt_tokens r,
   num_computed_tokens r, num_output_placeholders r, spec_token_ids r, is_prefill_chunk r, prefill_stats r,
   use_structured_output r).

(** What appending leaves alone. *)
Record appended (toks : list Z) (r r' : Request) : Prop := {
  ap_all : all_token_ids r' = all_token_ids r ++ toks;
  ap_output : output_token_ids r' = output_token_ids r ++ toks;
  ap_limits : (sampling_params r', pooling_params r', max_tokens r') = (sampling_params r, pooling_params r, max_tokens r);
  ap_rest : unsampled r' = unsampled r
}.

Lemma append_appends h t r :
  hasher_calm h -> exists r', append_output_token_ids h [t] r = (Ok tt, r') /\ appended [t] r r' /\ status r' = status r.
Proof.
  intros Hc. unfold append_output_token_ids, update_block_hashes, modify, mbind, M_bind.
  destruct h as [hf|]; [|by eexists]. destruct (Hc hf eq_refl (set_all_token_ids (all_token_ids r ++ [t])
    (set_output_token_ids (output_token_ids r ++ [t]) r))) as (hs & c & ->). by eexists.
Qed.

Lemma append_keeps_reason h t r r' : hasher_calm h -> append_output_token_ids h [t] r = (Ok tt, r') -> stop_reason r' = stop_reason r.
Proof.
  intros Hc. unfold append_output_token_ids, update_block_hashes, modify, mbind, M_bind. destruct h as [hf|]; [|by intros [= <-]].
  destruct (Hc hf eq_refl (set_all_token_ids (all_token_ids r ++ [t]) (set_output_token_ids (output_token_ids r ++ [t]) r))) as (hs & c & ->).
  by intros [= <-].
Qed.

(** The number of outputs at which a request stops at the latest. *)
Definition output_limit (sp : SamplingParams) (max_model_len : Z) (r : Request) : Z :=
  Z.max (min_tokens sp) (Z.min (max_tokens r) (max_model_len - (num_tokens r - num_output_tokens r))).

Lemma check_stop_answers max_model_len r sp :
  sampling_params r = Some sp -> pooling_params r = None -> output_token_ids r <> [] ->
  is_finished (status r) = false ->
  exists b r', check_stop max_model_len r = (Ok b, r') /\ appended [] r r' /\ is_finished (status r') = b /\
    (b = false -> r' = r /\ num_output_tokens r < output_limit sp max_model_len r).
Proof.
  intros Hsp Hpp Hout Hfin. unfold check_stop, mbind, M_bind, get. rewrite Hpp, Hsp.
  assert (Hap : forall s reason, appended [] r (match reason with
                   | None => set_status s r | Some x => set_stop_reason (Some x) (set_status s r) end)).
  { intros s reason. destruct reason; constructor; simpl; rewrite ?app_nil_r; done. }
  assert (Hsame : appended [] r r) by (constructor; rewrite ?app_nil_r; done).
  unfold assert_, mret, M_ret. destruct (Z.ltb_spec (num_output_tokens r) (min_tokens sp)) as [Hmin|Hmin].
  { exists false, r. split; [done|]. split; [done|]. split; [done|]. intros _. split; [done|]. unfold output_limit. lia. }
  destruct (exists_last Hout) as (l & t & Hl).
  assert (Hidx : py_index (output_token_ids r) (-1) = Some t).
  { replace (-1) with (- Z.of_nat 1) by lia. rewrite Hl, py_index_back by (rewrite length_app; simpl; lia).
    rewrite length_app, Nat.add_sub. by apply list_lookup_middle. }
  rewrite Hidx. cbn [of_option].
  unfold stop_with, modify, mbind, M_bind, mret, M_ret.
  destruct (match eos_token_id sp with Some e => t =? e | None => false end).
  { eexists true, _. split; [done|]. split; [apply (Hap FINISHED_STOPPED None)|]. done. }
  case_bool_decide.
  { eexists true, _. split; [done|]. split; [apply (Hap FINISHED_STOPPED (Some (StopToken t)))|]. done. }
  destruct (Z.leb_spec max_model_len (num_tokens r)) as [|Hlen]; simpl.
  { eexists true, _. split; [done|]. split; [apply (Hap FINISHED_LENGTH_CAPPED None)|]. done. }
  destruct (Z.leb_spec (max_tokens r) (num_output_tokens r)) as [|Hmax].
  { eexists true, _. split; [done|]. split; [apply (Hap FINISHED_LENGTH_CAPPED None)|]. done. }
  assert (Hlim : num_output_tokens r < output_limit sp max_model_len r) by (unfold output_limit; lia).
  destruct (repetition_detection sp) as [params|]; [|by exists false, r].
  destruct (repetition_spec (output_token_ids r) params) as (b & -> & _).
  destruct b; [|by exists false, r].
  eexists true, _. split; [done|]. split; [apply (Hap FINISHED_REPETITION (Some (StopString "repetition_detected")))|]. done.
Qed.

Lemma appended_trans a b r1 r2 r3 : appended a r1 r2 -> appended b r2 r3 -> appended (a ++ b) r1 r3.
Proof.
  intros [A1 A2 A3 A4] [B1 B2 B3 B4]. constructor; [by rewrite B1, A1, app_assoc|by rewrite B2, A2, app_assoc|congruence..].
Qed.

Lemma appended_limit toks sp max_model_len r r' :
  appended toks r r' -> output_limit sp max_model_len r' = output_limit sp max_model_len r /\
    num_output_tokens r' = num_output_tokens r + zlen toks.
Proof.
  intros [A1 A2 A3 _]. injection A3 as _ _ Em. unfold output_limit, num_tokens, num_output_tokens.
  rewrite A1, A2, Em, !length_app. split; lia.
Qed.

(** Until one of them stops the request, the tokens are appended. *)
Lemma appends_until_stop h max_model_len sp toks r :
  hasher_calm h -> sampling_params r = Some sp -> pooling_params r = None -> is_finished (status r) = false ->
  exists kept stopped r', update_request_with_output h max_model_len toks r = (Ok (kept, stopped), r') /\
    kept `prefix_of` toks /\ (stopped = false -> kept = toks) /\
    appended kept r r' /\ is_finished (status r') = stopped /\ (stopped = false -> status r' = status r) /\
    (stopped = false -> toks <> [] -> num_output_tokens r' < output_limit sp max_model_len r) /\
    num_output_tokens r' <= Z.max (num_output_tokens r + 1) (output_limit sp max_model_len r).
Proof.
  intros Hc. revert r. induction toks as [|t toks IH]; intros r Hsp Hpp Hfin; cbn [update_request_with_output].
  { exists [], false, r. split; [done|]. split; [done|]. split; [done|]. split; [constructor; rewrite ?app_nil_r; done|].
    split; [done|]. split; [done|]. split; [done|lia]. }
  unfold mbind, M_bind, mret, M_ret. destruct (append_appends h t r Hc) as (r1 & -> & A1 & S1).
  pose proof (ap_limits _ _ _ A1) as L1. injection L1 as E1 E2 _.
  destruct (check_stop_answers max_model_len r1 sp) as (b & r2 & -> & A2 & Hb & Hno).
  { by rewrite E1. }
  { by rewrite E2. }
  { rewrite (ap_output _ _ _ A1). by destruct (output_token_ids r). }
  { by rewrite S1. }
  destruct (appended_limit [t] sp max_model_len r r1 A1) as [HL1 HN1].
  destruct (appended_limit [] sp max_model_len r1 r2 A2) as [HL2 HN2]. simpl in HN1, HN2.
  destruct b.
  - exists [t], true, r2. split; [done|]. split; [by exists toks|]. split; [done|].
    split; [by apply (appended_trans [t] [] r r1 r2)|]. split; [done|]. split; [done|]. split; [done|]. lia.
  - destruct (Hno eq_refl) as [-> Hlt].
    destruct (IH r1) as (kept & stopped & r3 & -> & Hpre & Hall & A3 & Hs & Hst & Hl & Hn);
      [by rewrite E1|by rewrite E2|by rewrite S1|].
    exists (t :: kept), stopped, r3. split; [done|]. split; [by apply prefix_cons|].
    split; [intros; f_equal; auto|]. split; [by apply (appended_trans [t] kept r r1 r3)|]. split; [done|].
    split; [intros E; by rewrite Hst, S1|]. rewrite HL1 in *. split; [|lia]. intros Hns _.
    destruct toks as [|u toks]; [|by apply Hl].
    destruct Hpre as [k Hk]. destruct kept; [|done].
    destruct (appended_limit [] sp max_model_len r1 r3 A3) as [_ HN3]. simpl in HN3. lia.
Qed.

(** When a request has to stop, and with what status and reason, by its limits, the
    number [n] of all its tokens and its outputs: not before [min_tokens] outputs;
    then at the end-of-sequence token, at a stop token, at a limit, or in a
    repetition, the first of these that applies. *)
Record may_stop (sp : SamplingParams) (out : list Z) (t : Z) : Prop := {
  ms_min : min_tokens sp <= zlen out;
  ms_last : last out = Some t
}.
Definition at_limit (max_model_len max_tok n : Z) (out : list Z) : Prop := max_model_len <= n \/ max_tok <= zlen out.
Inductive stops (sp : SamplingParams) (max_model_len max_tok n : Z) (out : list Z) : RequestStatus -> option StopReason -> Prop :=
| stops_eos t : may_stop sp out t -> eos_token_id sp = Some t -> stops sp max_model_len max_tok n out FINISHED_STOPPED None
| stops_token t : may_stop sp out t -> eos_token_id sp <> Some t -> t ∈ stop_token_ids sp ->
    stops sp max_model_len max_tok n out FINISHED_STOPPED (Some (StopToken t))
| stops_length t : may_stop sp out t -> eos_token_id sp <> Some t -> t ∉ stop_token_ids sp -> at_limit max_model_len max_tok n out ->
    stops sp max_model_len max_tok n out FINISHED_LENGTH_CAPPED None
| stops_repetition t params (p : nat) : may_stop sp out t -> eos_token_id sp <> Some t -> t ∉ stop_token_ids sp -> ~ at_limit max_model_len max_tok n out ->
    repetition_detection sp = Some params -> Z.max 1 (min_pattern_size params) <= Z.of_nat p <= max_pattern_size params ->
    2 <= min_count params -> repeats out p (Z.to_nat (min_count params)) ->
    stops sp max_model_len max_tok n out FINISHED_REPETITION (Some (StopString "repetition_detected")).

(** The request after [toks] more outputs. *)
Definition stops_after (sp : SamplingParams) (max_model_len : Z) (r : Request) (toks : list Z) : RequestStatus -> option StopReason -> Prop :=
  stops sp max_model_len (max_tokens r) (num_tokens r + zlen toks) (output_token_ids r ++ toks).
Definition reason_set (reason : option StopReason) (r r' : Request) : Prop :=
  stop_reason r' = match reason with Some x => Some x | None => stop_reason r end.

Lemma check_stop_exact max_model_len r sp t :
  sampling_params r = Some sp -> pooling_params r = None -> last (output_token_ids r) = Some t ->
  exists b r', check_stop max_model_len r = (Ok b, r') /\
    (if b then exists reason, stops_after sp max_model_len r [] (status r') reason /\ reason_set reason r r'
     else r' = r /\ forall st reason, ~ stops_after sp max_model_len r [] st reason).
Proof.
  intros Hsp Hpp Hlast. unfold check_stop, stops_after, mbind, M_bind, get. rewrite Hpp, Hsp, app_nil_r, Z.add_0_r.
  assert (Ht : forall t', may_stop sp (output_token_ids r) t' -> t' = t) by (intros t' [_ H]; congruence).
  unfold assert_, mret, M_ret. destruct (Z.ltb_spec (num_output_tokens r) (min_tokens sp)) as [Hmin|Hmin].
  { exists false, r. split; [done|]. split; [done|]. unfold num_output_tokens in Hmin. intros st reason H. destruct H as [? []|? []|? []|? ? ? []]; lia. }
  assert (Hms : may_stop sp (output_token_ids r) t) by (split; [unfold num_output_tokens in Hmin; lia|done]).
  apply last_Some in Hlast as [l Hl].
  assert (Hidx : py_index (output_token_ids r) (-1) = Some t).
  { replace (-1) with (- Z.of_nat 1) by lia. rewrite Hl, py_index_back by (rewrite length_app; simpl; lia).
    rewrite length_app, Nat.add_sub. by apply list_lookup_middle. }
  rewrite Hidx. cbn [of_option]. unfold stop_with, modify, mbind, M_bind, mret, M_ret.
  assert (Heos : match eos_token_id sp with Some e => t =? e | None => false end = bool_decide (eos_token_id sp = Some t)).
  { destruct (eos_token_id sp) as [e|]; [|done]. destruct (Z.eqb_spec t e) as [->|]; [by rewrite bool_decide_true|rewrite bool_decide_false; [done|congruence]]. }
  rewrite Heos. case_bool_decide as He.
  { eexists true, _. split; [done|]. exists None. split; [by apply (stops_eos _ _ _ _ _ t)|done]. }
  case_bool_decide as Hs.
  { eexists true, _. split; [done|]. exists (Some (StopToken t)). split; [by apply stops_token|done]. }
  destruct (_ || _) eqn:El.
  { eexists true, _. split; [done|]. exists None. split; [|done]. apply (stops_length _ _ _ _ _ t); [done..|].
    unfold at_limit. apply orb_true_iff in El as [El|El]; apply Z.leb_le in El; [by left|by right]. }
  assert (Hlim : ~ at_limit max_model_len (max_tokens r) (num_tokens r) (output_token_ids r)).
  { apply orb_false_iff in El as [E1 E2]. apply Z.leb_gt in E1, E2. unfold at_limit, num_output_tokens in *. lia. }
  assert (Hno : (forall params p, repetition_detection sp = Some params -> Z.max 1 (min_pattern_size params) <= Z.of_nat p <= max_pattern_size params ->
      2 <= min_count params -> ~ repeats (output_token_ids r) p (Z.to_nat (min_count params))) ->
    forall st reason, ~ stops sp max_model_len (max_tokens r) (num_tokens r) (output_token_ids r) st reason).
  { intros Hr st reason H. destruct H as [t' H ?|t' H ? ?|t' H ? ? ?|t' ? ? H ? ? ? E Hp Hc Hrep]; try rewrite (Ht _ H) in *; try done. by eapply Hr. }
  destruct (repetition_detection sp) as [params|] eqn:Er; [|exists false, r; split; [done|]; split; [done|by apply Hno]].
  destruct (repetition_spec (output_token_ids r) params) as (b & -> & Hb). destruct b.
  - eexists true, _. split; [done|]. destruct (proj1 Hb eq_refl) as (p & Hp & Hc & Hrep). eexists. split; [|by instantiate (1 := Some _)].
    by apply (stops_repetition _ _ _ _ _ t params p).
  - exists false, r. split; [done|]. split; [done|]. apply Hno. intros params' p [= <-] Hp Hc Hrep.
    assert (false = true); [|done]. apply Hb. by exists p.
Qed.

Lemma stops_after_appended sp max_model_len r r1 toks more : appended toks r r1 ->
  stops_after sp max_model_len r1 more = stops_after sp max_model_len r (toks ++ more).
Proof.
  intros [A1 A2 A3 _]. injection A3 as _ _ Em. unfold stops_after, num_tokens. rewrite A1, A2, Em, <- app_assoc, !length_app. f_equal. lia.
Qed.

(** The tokens kept end at the first at which the request has to stop. *)
Definition first_stop_at (sp : SamplingParams) (max_model_len : Z) (r : Request) (kept : list Z) (stopped : bool) (r' : Request) : Prop :=
  (forall k st reason, k <> [] -> k `prefix_of` kept -> (stopped = true -> k <> kept) -> ~ stops_after sp max_model_len r k st reason) /\
  if stopped then exists reason, stops_after sp max_model_len r kept (status r') reason /\ reason_set reason r r'
  else status r' = status r /\ stop_reason r' = stop_reason r.

Lemma stops_at_first h max_model_len sp toks r :
  hasher_calm h -> sampling_params r = Some sp -> pooling_params r = None ->
  exists kept stopped r', update_request_with_output h max_model_len toks r = (Ok (kept, stopped), r') /\
    first_stop_at sp max_model_len r kept stopped r'.
Proof.
  intros Hc. revert r. induction toks as [|t toks IH]; intros r Hsp Hpp; cbn [update_request_with_output].
  { exists [], false, r. split; [done|]. split; [|done]. intros k st reason Hk [l E] _. by destruct k. }
  unfold mbind, M_bind, mret, M_ret. destruct (append_appends h t r Hc) as (r1 & E0 & A1 & S1). rewrite E0.
  pose proof (ap_limits _ _ _ A1) as L1. injection L1 as E1 E2 _. pose proof (append_keeps_reason _ _ _ _ Hc E0) as R1.
  destruct (check_stop_exact max_model_len r1 sp t) as (b & r2 & -> & Hb); [by rewrite E1|by rewrite E2|rewrite (ap_output _ _ _ A1); apply last_snoc|].
  pose proof (stops_after_appended sp max_model_len r r1 [t]) as Hsh. destruct b.
  - exists [t], true, r2. split; [done|]. destruct Hb as (reason & Hst & Hre). rewrite (Hsh [] A1) in Hst. split.
    + intros k st reason' Hk [l El] Hne. destruct k as [|a [|]]; [done| |done]. injection El as -> ->. by destruct (Hne eq_refl).
    + exists reason. split; [done|]. unfold reason_set in *. by rewrite Hre, R1.
  - destruct Hb as [-> Hn]. destruct (IH r1) as (kept & stopped & r3 & -> & Hfst & Hend); [by rewrite E1|by rewrite E2|].
    exists (t :: kept), stopped, r3. split; [done|]. split.
    + intros k st reason Hk Hpre Hne. destruct k as [|a k]; [done|]. apply prefix_cons_inv_1 in Hpre as Ha. apply prefix_cons_inv_2 in Hpre. subst a.
      destruct k as [|c k].
      * rewrite <- (app_nil_r [t]), <- (Hsh [] A1). apply Hn.
      * change (t :: c :: k) with ([t] ++ (c :: k)). rewrite <- (Hsh (c :: k) A1). apply Hfst; [done|done|]. intros Est E. apply (Hne Est). by rewrite E.
    + destruct stopped; [|by rewrite <- S1, <- R1]. destruct Hend as (reason & Hst & Hre). exists reason. rewrite (Hsh kept A1) in Hst. split; [done|].
      unfold reason_set in *. by rewrite Hre, R1.
Qed.

(** C32. Generation stops in time and nothing follows a stop. For an unfinished
    generation request, appending the tokens of a step never raises. The tokens
    kept are a prefix of the new ones, and all of them unless the request stopped;
    they are what was appended to the request. It stops at the first of them after
    which it has to ([stops]): once it has [min_tokens] outputs, at the
    end-of-sequence token, at a stop token, at a limit, or in a repetition, with the
    status and the reason of the first of these that applies, and it is finished
    exactly then. A request that goes on has fewer outputs than its limit, so that
    it stops at the latest when max(min_tokens, min(max_tokens, max_model_len -
    prompt)) tokens have been generated. *)
Theorem generation_stops_in_time h max_model_len sp toks r :
  hasher_calm h -> sampling_params r = Some sp -> pooling_params r = None -> is_finished (status r) = false ->
  exists kept stopped r', update_request_with_output h max_model_len toks r = (Ok (kept, stopped), r') /\
    kept `prefix_of` toks /\ (stopped = false -> kept = toks) /\
    appended kept r r' /\ is_finished (status r') = stopped /\ first_stop_at sp max_model_len r kept stopped r' /\
    (stopped = false -> toks <> [] -> num_output_tokens r' < output_limit sp max_model_len r) /\
    num_output_tokens r' <= Z.max (num_output_tokens r + 1) (output_limit sp max_model_len r).
Proof.
  intros Hc Hsp Hpp Hfin.
  destruct (appends_until_stop h max_model_len sp toks r Hc Hsp Hpp Hfin)
    as (kept & stopped & r' & H1 & H2 & H3 & H4 & H5 & _ & H6).
  destruct (stops_at_first h max_model_len sp toks r Hc Hsp Hpp) as (kept2 & stopped2 & r2 & E & Hf).
  rewrite H1 in E. injection E as <- <- <-. by exists kept, stopped, r'.
Qed.

Definition sample_sampling : SamplingParams :=
  mkSampling (Some 8) 2 (Some 0) [7] (Some (mkRepetition 3 1 2)) None false.

Definition sample_running : Request :=
  mkRequest "r" 0 0 0 (Some sample_sampling) None None false None None false false false 8 (Some [1; 2]) 2 []
    RUNNING None [] [1; 2] 0 0 0 [] 2 false 0 0 None [] ∅.

Lemma generation_stops_in_time_witness : exists r',
  update_request_with_output None 100 [7; 5; 6; 5; 6; 9] sample_running = (Ok ([7; 5; 6; 5; 6], true), r') /\
  status r' = FINISHED_REPETITION /\ all_token_ids r' = [1; 2; 7; 5; 6; 5; 6].
Proof.
  destruct (generation_stops_in_time None 100 sample_sampling [7; 5; 6; 5; 6; 9] sample_running)
    as (kept & stopped & r' & Hrun & _ & _ & Ha & _); [done|reflexivity|reflexivity|reflexivity|].
  assert (Hv : (update_request_with_output None 100 [7; 5; 6; 5; 6; 9] sample_running).1 = Ok ([7; 5; 6; 5; 6], true) /\
               status (update_request_with_output None 100 [7; 5; 6; 5; 6; 9] sample_running).2 = FINISHED_REPETITION)
    by (split; vm_compute; reflexivity).
  rewrite Hrun in Hv. cbn [fst snd] in Hv. destruct Hv as [E Hs]. injection E as -> ->.
  exists r'. split; [exact Hrun|]. split; [exact Hs|]. exact (ap_all _ _ _ Ha).
Defined.

End StopCheck.
