(* ===== verification/OrderedDict.v ===== *)
(** * [collections.OrderedDict]

    An insertion-ordered dictionary as an association list with distinct keys,
    and its operations' effect on the finite map it stands for. *)

From S2P Require Import Prelude.

Module OrderedDict.

Section dict.
Context {K V : Type} `{!EqDecision K, !Countable K}.
Implicit Types (d : list (K * V)) (k : K) (v : V).

(** [d.get(k)] *)
Fixpoint od_get k d : option V :=
  match d with
  | [] => None
  | (k', v) :: d' => if decide (k = k') then Some v else od_get k d'
  end.

(** [d[k] = v]: an existing key keeps its place. *)
Fixpoint od_set k v d : list (K * V) :=
  match d with
  | [] => [(k, v)]
  | (k', v') :: d' => if decide (k = k') then (k, v) :: d' else (k', v') :: od_set k v d'
  end.

(** [d.pop(k, None)] without the value. *)
Definition od_remove k d : list (K * V) := filter (fun kv => kv.1 <> k) d.

(** [del d[k]] *)
Definition od_del k : M (list (K * V)) unit :=
  d ← get;
  if is_some (od_get k d) then modify (od_remove k) else raise KeyError.

(** [d.move_to_end(k)] *)
Definition od_move_to_end k : M (list (K * V)) unit :=
  d ← get;
  match od_get k d with
  | None => raise KeyError
  | Some v => modify (fun d => od_remove k d ++ [(k, v)])
  end.

(** [d.popitem(last=False)] *)
Definition od_popitem_first : M (list (K * V)) (K * V) :=
  d ← get;
  match d with
  | [] => raise KeyError
  | kv :: d' => modify (fun _ => d') ;; mret kv
  end.

(** ** Lemmas *)

Lemma od_get_map k d : od_get k d = (list_to_map d : gmap K V) !! k.
Proof.
  induction d as [|[k' v'] d IH]; simpl; [by rewrite lookup_empty|].
  case_decide; [subst; by rewrite lookup_insert_eq|by rewrite lookup_insert_ne].
Qed.

Lemma od_get_elem k v d : NoDup d.*1 -> (k, v) ∈ d <-> od_get k d = Some v.
Proof. intros Hn. rewrite od_get_map. by apply elem_of_list_to_map. Qed.

Lemma od_get_none k d : od_get k d = None <-> k ∉ d.*1.
Proof. rewrite od_get_map. symmetry. apply not_elem_of_list_to_map. Qed.

Lemma od_get_in k v d : od_get k d = Some v -> k ∈ d.*1.
Proof. intros H. apply dec_stable. intros Hn%od_get_none. congruence. Qed.

Lemma od_set_map k v d : list_to_map (od_set k v d) = <[k := v]> (list_to_map d) :> gmap K V.
Proof.
  induction d as [|[k' v'] d IH]; simpl; [done|].
  case_decide; [subst; simpl; by rewrite insert_insert_eq|]. simpl. rewrite IH. by apply insert_insert_ne.
Qed.

Lemma od_get_set_ne k k' v d : k' <> k -> od_get k' (od_set k v d) = od_get k' d.
Proof. intros H. rewrite !od_get_map, od_set_map. by apply lookup_insert_ne. Qed.

Lemma od_get_set k v d : od_get k (od_set k v d) = Some v.
Proof. rewrite od_get_map, od_set_map. apply lookup_insert_eq. Qed.

Lemma od_get_snoc k k' v d : od_get k (d ++ [(k', v)]) =
  match od_get k d with Some x => Some x | None => if decide (k = k') then Some v else None end.
Proof. induction d as [|[i x] d IH]; simpl; [done|]. by destruct (decide (k = i)). Qed.

Lemma od_set_keys k v d : k ∈ d.*1 -> (od_set k v d).*1 = d.*1.
Proof.
  induction d as [|[k' v'] d IH]; simpl; [by intros ?%elem_of_nil|]. intros H.
  case_decide; simpl; [by subst|]. f_equal. apply IH. set_solver.
Qed.

Lemma od_set_new k v d : k ∉ d.*1 -> od_set k v d = d ++ [(k, v)].
Proof.
  induction d as [|[k' v'] d IH]; simpl; [done|]. intros H.
  rewrite decide_False by set_solver. f_equal. apply IH. set_solver.
Qed.

Lemma od_set_elem k v d x : x ∈ (od_set k v d).*1 <-> x = k \/ x ∈ d.*1.
Proof.
  destruct (decide (k ∈ d.*1)); [rewrite od_set_keys by done|rewrite od_set_new, fmap_app by done]; set_solver.
Qed.

Lemma od_set_nodup k v d : NoDup d.*1 -> NoDup (od_set k v d).*1.
Proof.
  intros H. destruct (decide (k ∈ d.*1)); [by rewrite od_set_keys|].
  rewrite od_set_new, fmap_app by done. simpl. apply NoDup_app. split; [done|].
  split; [set_solver|apply NoDup_singleton].
Qed.

Lemma od_remove_keys k d x : x ∈ (od_remove k d).*1 <-> x ∈ d.*1 /\ x <> k.
Proof.
  unfold od_remove. rewrite !list_elem_of_fmap. setoid_rewrite list_elem_of_filter.
  split; [intros (kv & -> & ? & ?); split; [by exists kv|done]|intros [(kv & -> & ?) ?]; by exists kv].
Qed.

Lemma od_remove_sublist k d : od_remove k d `sublist_of` d.
Proof. apply sublist_filter. Qed.

Lemma od_remove_nodup k d : NoDup d.*1 -> NoDup (od_remove k d).*1.
Proof. intros H. eapply sublist_NoDup; [exact H|]. apply fmap_sublist, od_remove_sublist. Qed.

Lemma od_remove_map k d : list_to_map (od_remove k d) = delete k (list_to_map d) :> gmap K V.
Proof.
  induction d as [|[k' v'] d IH]; [symmetry; apply delete_empty|].
  unfold od_remove in *. rewrite filter_cons. cbn [fst]. destruct (decide (k' = k)) as [->|E].
  - rewrite decide_False by (by intros ?). simpl. by rewrite IH, delete_insert_eq.
  - rewrite decide_True by done. simpl. rewrite IH. symmetry. by apply delete_insert_ne.
Qed.

Lemma od_remove_none k d : k ∉ d.*1 -> od_remove k d = d.
Proof.
  intros H. unfold od_remove. induction d as [|[k' v'] d IH]; [done|]. simpl in H.
  rewrite filter_cons_True by (simpl; set_solver). f_equal. apply IH. set_solver.
Qed.

Lemma od_remove_cons k kv d : od_remove k (kv :: d) = if decide (kv.1 = k) then od_remove k d else kv :: od_remove k d.
Proof.
  unfold od_remove. rewrite filter_cons. destruct (decide (kv.1 = k)); [by rewrite decide_False by (by intros ?)|by rewrite decide_True].
Qed.

Lemma od_remove_perm k v d : NoDup d.*1 -> od_get k d = Some v -> d ≡ₚ (k, v) :: od_remove k d.
Proof.
  induction d as [|[k' v'] d IH]; simpl; [done|]. intros [Hn Hd]%NoDup_cons. rewrite od_remove_cons. cbn [fst].
  destruct (decide (k = k')) as [<-|Hne].
  - intros [= ->]. rewrite decide_True by done. by rewrite od_remove_none.
  - intros H. rewrite decide_False by congruence. rewrite Permutation_swap. f_equiv. by apply IH.
Qed.

Lemma od_move_map k v d : od_get k d = Some v ->
  list_to_map (od_remove k d ++ [(k, v)]) = (list_to_map d : gmap K V).
Proof.
  intros H. rewrite list_to_map_app, od_remove_map. simpl. rewrite od_get_map in H.
  apply map_eq. intros i. rewrite lookup_union. destruct (decide (i = k)) as [->|Hne].
  - rewrite lookup_delete_eq, lookup_insert_eq, H. done.
  - rewrite lookup_delete_ne, lookup_insert_ne, lookup_empty by done. by rewrite (right_id _ _).
Qed.

Lemma od_move_nodup k v d : NoDup d.*1 -> NoDup (od_remove k d ++ [(k, v)]).*1.
Proof.
  intros H. rewrite fmap_app. apply NoDup_app. split; [by apply od_remove_nodup|].
  split; [|apply NoDup_singleton]. intros x [_ Hx]%od_remove_keys. set_solver.
Qed.

Lemma od_move_elem k v d x : x ∈ (od_remove k d ++ [(k, v)]).*1 <-> x = k \/ x ∈ d.*1.
Proof.
  rewrite fmap_app, elem_of_app, od_remove_keys. simpl. destruct (decide (x = k)); set_solver.
Qed.

Lemma od_remove_length k v d : NoDup d.*1 -> od_get k d = Some v -> length d = S (length (od_remove k d)).
Proof. intros H Hg. by rewrite (od_remove_perm k v d H Hg) at 1. Qed.
End dict.
End OrderedDict.
