(* ===== verification/EncoderCache.v ===== *)
(** * EncoderCache

    v1/core/encoder_cache_manager.py: the cache of encoder outputs of
    multi-modal inputs, shared between requests by the hash of the input, its
    space accounting and its eviction; and the simpler manager of
    encoder-decoder models. *)

From S2P Require Import Prelude Request OrderedDict.

Module EncoderCache.
Import Request OrderedDict.
#[local] Open Scope Z_scope.
#[local] Arguments zsum : simpl never.

(** ** [EncoderCacheManager] *)

(** [freeable] is an OrderedDict, oldest first. *)
Record EncoderCacheManager := mkEC {
  cache_size : Z;
  num_free_slots : Z;
  num_freeable_slots : Z;
  cached : gmap string (gset string);
  request_cached_ids : gmap string (gset Z);
  freeable : list (string * Z);
  freed : list string
}.

Definition ec_init (cache_size : Z) : EncoderCacheManager :=
  mkEC cache_size cache_size cache_size ∅ ∅ [] [].

Definition set_slots (free freeable : Z) (m : EncoderCacheManager) : EncoderCacheManager :=
  mkEC (cache_size m) free freeable (cached m) (request_cached_ids m) (EncoderCache.freeable m) (freed m).
Definition set_cached (c : gmap string (gset string)) (m : EncoderCacheManager) : EncoderCacheManager :=
  mkEC (cache_size m) (num_free_slots m) (num_freeable_slots m) c (request_cached_ids m) (freeable m) (freed m).
Definition set_ids (c : gmap string (gset Z)) (m : EncoderCacheManager) : EncoderCacheManager :=
  mkEC (cache_size m) (num_free_slots m) (num_freeable_slots m) (cached m) c (freeable m) (freed m).
Definition set_freeable (f : list (string * Z)) (m : EncoderCacheManager) : EncoderCacheManager :=
  mkEC (cache_size m) (num_free_slots m) (num_freeable_slots m) (cached m) (request_cached_ids m) f (freed m).
Definition set_freed (f : list string) (m : EncoderCacheManager) : EncoderCacheManager :=
  mkEC (cache_size m) (num_free_slots m) (num_freeable_slots m) (cached m) (request_cached_ids m) (freeable m) f.

Definition reset : M EncoderCacheManager unit := modify (fun m => ec_init (cache_size m)).

(** [request.mm_features[input_id].identifier] *)
Definition mm_hash_of {S} (request : Request) (input_id : Z) : M S string :=
  f ← of_option IndexError (py_index (mm_features request) input_id); mret (identifier f).

(** Note that a request uses a cached entry. *)
Definition add_reference (request_id mm_hash : string) (input_id : Z) : M EncoderCacheManager unit :=
  m ← get;
  refs ← of_option KeyError (cached m !! mm_hash);
  modify (set_cached (<[mm_hash := {[request_id]} ∪ refs]> (cached m))) ;;
  modify (fun m => set_ids (<[request_id := {[input_id]} ∪ default ∅ (request_cached_ids m !! request_id)]>
                              (request_cached_ids m)) m).

Definition check_and_update_cache (request : Request) (input_id : Z) : M EncoderCacheManager bool :=
  mm_hash ← mm_hash_of request input_id;
  m ← get;
  match cached m !! mm_hash with
  | None => mret false
  | Some refs =>
      (if decide (refs = ∅) then
         n ← of_option KeyError (od_get mm_hash (freeable m));
         modify (fun m => set_slots (num_free_slots m) (num_freeable_slots m - n)
                            (set_freeable (od_remove mm_hash (freeable m)) m))
       else mret tt) ;;
      add_reference (request_id request) mm_hash input_id ;;
      mret true
  end.

(** The loop that evicts the oldest unreferenced entries. *)
Fixpoint evict_loop (fr : list (string * Z)) (num_embeds : Z) : M EncoderCacheManager unit :=
  m ← get;
  if num_free_slots m <? num_embeds then
    match fr with
    | [] => raise KeyError
    | (mm_hash, num_free_embeds) :: fr' =>
        modify (set_freeable fr') ;;
        _ ← of_option KeyError (cached m !! mm_hash);
        modify (fun m => set_cached (delete mm_hash (cached m)) m) ;;
        modify (fun m => set_freed (freed m ++ [mm_hash]) m) ;;
        modify (fun m => set_slots (num_free_slots m + num_free_embeds) (num_freeable_slots m) m) ;;
        evict_loop fr' num_embeds
    end
  else mret tt.

Definition can_allocate (request : Request) (input_id encoder_compute_budget num_embeds_to_schedule : Z)
    : M EncoderCacheManager bool :=
  n ← get_num_encoder_embeds request input_id;
  if encoder_compute_budget <? n then mret false
  else
    let num_embeds := n + num_embeds_to_schedule in
    m ← get;
    if num_embeds <=? num_free_slots m then mret true
    else if num_freeable_slots m <? num_embeds then mret false
    else evict_loop (freeable m) num_embeds ;; mret true.

Definition allocate (request : Request) (input_id : Z) : M EncoderCacheManager unit :=
  mm_hash ← mm_hash_of request input_id;
  modify (fun m => match cached m !! mm_hash with
                   | Some _ => m
                   | None => set_cached (<[mm_hash := ∅]> (cached m)) m
                   end) ;;
  num_encoder_embeds ← get_num_encoder_embeds request input_id;
  m ← get;
  assert_ (num_encoder_embeds <=? num_free_slots m) ;;
  assert_ (num_encoder_embeds <=? num_freeable_slots m) ;;
  add_reference (request_id request) mm_hash input_id ;;
  modify (fun m => set_slots (num_free_slots m - num_encoder_embeds) (num_freeable_slots m - num_encoder_embeds) m).

Definition get_cached_input_ids (request : Request) (m : EncoderCacheManager) : gset Z :=
  default ∅ (request_cached_ids m !! request_id request).

(** Drop an input from the ids cached for a request. *)
Definition discard_id (req_id : string) (input_id : Z) (ids : gmap string (gset Z)) : gmap string (gset Z) :=
  match ids !! req_id with
  | None => ids
  | Some s => let s' := s ∖ {[input_id]} in
              if decide (s' = ∅) then delete req_id ids else <[req_id := s']> ids
  end.

Definition free_encoder_input (request : Request) (input_id : Z) : M EncoderCacheManager unit :=
  let req_id := request_id request in
  mm_hash ← mm_hash_of request input_id;
  modify (fun m => set_ids (discard_id req_id input_id (request_cached_ids m)) m) ;;
  m ← get;
  match cached m !! mm_hash with
  | None => mret tt
  | Some refs =>
      if decide (refs = ∅) then mret tt
      else
        let refs' := refs ∖ {[req_id]} in
        modify (set_cached (<[mm_hash := refs']> (cached m))) ;;
        if decide (refs' = ∅) then
          num_encoder_embeds ← get_num_encoder_embeds request input_id;
          modify (fun m => set_slots (num_free_slots m) (num_freeable_slots m + num_encoder_embeds)
                             (set_freeable (od_set mm_hash num_encoder_embeds (freeable m)) m))
        else mret tt
  end.

(** [free]; [order] is the order in which [list(set)] has the input ids. *)
Definition ec_free (order : gset Z -> list Z) (request : Request) : M EncoderCacheManager unit :=
  m ← get;
  for_each (free_encoder_input request) (order (get_cached_input_ids request m)).

Definition get_freed_mm_hashes : M EncoderCacheManager (list string) :=
  m ← get; modify (set_freed []) ;; mret (freed m).

(** [compute_mm_encoder_budget] *)
Definition compute_mm_encoder_budget (disable_chunked_mm_input : bool)
    (max_num_batched_tokens max_num_encoder_input_tokens encoder_cache_size : Z) (mm_max_toks_per_item : list Z)
    : result (Z * Z) :=
  match mm_max_toks_per_item with
  | [] => Ok (0, 0)
  | t :: ts =>
      let max_tokens_per_mm_item := foldl Z.max t ts in
      if disable_chunked_mm_input && (max_num_batched_tokens <? max_tokens_per_mm_item) then Err ValueError
      else Ok (Z.max max_num_encoder_input_tokens max_tokens_per_mm_item,
               Z.max encoder_cache_size max_tokens_per_mm_item)
  end.

(** ** [EncoderDecoderCacheManager] *)

Record EncoderDecoderCacheManager := mkED {
  ed_cache_size : Z;
  ed_num_free_slots : Z;
  allocated : list string;
  to_free : list string
}.

Definition ed_init (cache_size : Z) : EncoderDecoderCacheManager := mkED cache_size cache_size [] [].
Definition ed_reset : M EncoderDecoderCacheManager unit := modify (fun m => ed_init (ed_cache_size m)).
Definition ed_check_and_update_cache (request : Request) (input_id : Z) : M EncoderDecoderCacheManager bool :=
  mret false.

Definition ed_can_allocate (request : Request) (input_id encoder_compute_budget num_embeds_to_schedule : Z)
    : M EncoderDecoderCacheManager bool :=
  n ← get_num_encoder_embeds request input_id;
  if encoder_compute_budget <? n then mret false
  else m ← get; mret (n + num_embeds_to_schedule <=? ed_num_free_slots m).

Definition ed_allocate (request : Request) (input_id : Z) : M EncoderDecoderCacheManager unit :=
  n ← get_num_encoder_embeds request input_id;
  modify (fun m => mkED (ed_cache_size m) (ed_num_free_slots m - n) (allocated m) (to_free m)) ;;
  mm_hash ← mm_hash_of request input_id;
  modify (fun m => mkED (ed_cache_size m) (ed_num_free_slots m) (allocated m ++ [mm_hash]) (to_free m)).

Definition ed_free_encoder_input (request : Request) (input_id : Z) : M EncoderDecoderCacheManager unit :=
  n ← get_num_encoder_embeds request input_id;
  modify (fun m => mkED (ed_cache_size m) (ed_num_free_slots m + n) (allocated m) (to_free m)).

Definition ed_get_cached_input_ids (request : Request) : list Z := zrange (zlen (mm_features request)).

Definition ed_free (request : Request) : M EncoderDecoderCacheManager unit :=
  for_each (ed_free_encoder_input request) (zrange (zlen (mm_features request))).

Definition ed_get_freed_mm_hashes : M EncoderDecoderCacheManager (list string) :=
  m ← get;
  modify (fun m => mkED (ed_cache_size m) (ed_num_free_slots m) [] (allocated m)) ;;
  mret (to_free m).

(** ** Space accounting *)

Section accounting.
(** The size of an entry: inputs with one hash have one size. *)
Context (sz : string -> Z) (Hsz : forall h, 0 <= sz h).

Definition total (c : gmap string (gset string)) : Z := zsum (sz <$> (map_to_list c).*1).

Lemma total_insert_new c h s : c !! h = None -> total (<[h := s]> c) = sz h + total c.
Proof. intros Hn. unfold total. by rewrite map_to_list_insert, !fmap_cons, zsum_cons by done. Qed.

Lemma total_delete c h s : c !! h = Some s -> total c = sz h + total (delete h c).
Proof.
  intros Hs. rewrite <- (insert_delete_id c h s) at 1 by done. apply total_insert_new, lookup_delete_eq.
Qed.

Lemma total_insert_old c h s s' : c !! h = Some s -> total (<[h := s']> c) = total c.
Proof.
  intros Hs. rewrite (total_delete c h s), <- insert_delete_eq by done. apply total_insert_new, lookup_delete_eq.
Qed.

Lemma total_mono c' c : c' ⊆ c -> total c' <= total c.
Proof using Hsz.
  revert c. induction c' as [|h s c' Hn IH] using map_ind; intros c Hsub.
  - clear Hsub. induction c as [|h s c Hn IH] using map_ind; [done|]. rewrite total_insert_new by done. specialize (Hsz h). lia.
  - assert (Hh : c !! h = Some s) by (eapply lookup_weaken; [apply lookup_insert_eq|done]).
    rewrite total_insert_new, (total_delete c h s) by done. specialize (IH (delete h c)).
    enough (total c' <= total (delete h c)) by lia. apply IH. apply map_subseteq_spec. intros h' s' Hl.
    rewrite lookup_delete_ne by congruence. eapply lookup_weaken; [|exact Hsub]. rewrite lookup_insert_ne; congruence.
Qed.

(** The invariant: what is cached fits, exactly the entries without references
    are freeable, and the counters are what they say. *)
Record ec_inv (m : EncoderCacheManager) : Prop := {
  ei_free : num_free_slots m = cache_size m - total (cached m);
  ei_freeable : num_freeable_slots m = num_free_slots m + zsum (freeable m).*2;
  ei_nonneg : 0 <= num_free_slots m;
  ei_nodup : NoDup (freeable m).*1;
  ei_keys : forall h, h ∈ (freeable m).*1 <-> cached m !! h = Some ∅;
  ei_sizes : Forall (fun e => e.2 = sz e.1) (freeable m)
}.

Definition features_ok (request : Request) : Prop :=
  Forall (fun f => get_num_embeds (mm_position f) = sz (identifier f)) (mm_features request).

Definition valid_input (request : Request) (input_id : Z) : Prop := 0 <= input_id < zlen (mm_features request).

(** The hash of a valid input. *)
Definition hash_at (request : Request) (input_id : Z) : string :=
  match mm_features request !! Z.to_nat input_id with Some f => identifier f | None => EmptyString end.

Lemma mm_hash_of_ok {S} request input_id (s : S) :
  valid_input request input_id -> mm_hash_of request input_id s = (Ok (hash_at request input_id), s).
Proof.
  intros [H1 H2]. unfold mm_hash_of, hash_at, py_index, mbind, M_bind. rewrite (proj2 (Z.leb_le _ _)) by lia.
  destruct (lookup_lt_is_Some_2 (mm_features request) (Z.to_nat input_id)) as [f Hf]; [lia|]. by rewrite Hf.
Qed.

Lemma num_embeds_ok {S} request input_id (s : S) :
  valid_input request input_id -> features_ok request ->
  get_num_encoder_embeds request input_id s = (Ok (sz (hash_at request input_id)), s).
Proof.
  intros [H1 H2] Hf. unfold get_num_encoder_embeds, hash_at, py_index, mbind, M_bind, assert_.
  rewrite (proj2 (Z.ltb_lt _ _)), (proj2 (Z.leb_le _ _)) by lia.
  destruct (lookup_lt_is_Some_2 (mm_features request) (Z.to_nat input_id)) as [f Hl]; [lia|]. rewrite Hl.
  pose proof (Forall_lookup_1 _ _ _ _ Hf Hl) as E. cbn. by rewrite E.
Qed.

(** Adding a reference to a cached entry that is not freeable. *)
Lemma add_reference_ok m request_id mm_hash input_id refs :
  cached m !! mm_hash = Some refs ->
  add_reference request_id mm_hash input_id m =
    (Ok tt, set_ids (<[request_id := {[input_id]} ∪ default ∅ (request_cached_ids m !! request_id)]>
                      (request_cached_ids m)) (set_cached (<[mm_hash := {[request_id]} ∪ refs]> (cached m)) m)).
Proof. intros Hr. unfold add_reference, mbind, M_bind, get, of_option, modify, mret, M_ret. by rewrite Hr. Qed.

Lemma referenced_inv m mm_hash refs refs' ids :
  ec_inv m -> cached m !! mm_hash = Some refs -> refs <> ∅ -> refs' <> ∅ ->
  ec_inv (set_ids ids (set_cached (<[mm_hash := refs']> (cached m)) m)).
Proof.
  intros [I1 I2 I3 I4 I5 I6] Hr Hne Hne'. constructor; simpl; try done.
  - by rewrite (total_insert_old _ _ refs).
  - intros h. rewrite I5. destruct (decide (h = mm_hash)) as [->|Hn].
    + rewrite lookup_insert_eq, Hr. split; intros [=]; by subst.
    + by rewrite lookup_insert_ne.
Qed.

(** What a reference changes: the references of the entry and the ids cached for
    the request. *)
Definition referenced (request : Request) (input_id : Z) (m m' : EncoderCacheManager) : Prop :=
  let h := hash_at request input_id in
  num_free_slots m' = num_free_slots m /\ freed m' = freed m /\
  cached m' = <[h := {[request_id request]} ∪ default ∅ (cached m !! h)]> (cached m) /\
  request_cached_ids m' = <[request_id request := {[input_id]} ∪ get_cached_input_ids request m]> (request_cached_ids m).

(** ** The operations *)

Lemma check_ok m request input_id :
  ec_inv m -> valid_input request input_id ->
  wp (check_and_update_cache request input_id) (fun b m' => ec_inv m' /\
      cache_size m' = cache_size m /\ b = bool_decide (is_Some (cached m !! hash_at request input_id)) /\
      (b = true -> exists refs, cached m' !! hash_at request input_id = Some refs /\ request_id request ∈ refs) /\
      (b = false -> m' = m) /\ (b = true -> referenced request input_id m m')) m.
Proof.
  intros I Hv. unfold check_and_update_cache. apply wp_bind. unfold wp at 1. rewrite mm_hash_of_ok by done.
  set (h := hash_at request input_id). apply wp_bind, wp_get.
  destruct (cached m !! h) as [refs|] eqn:Hr.
  2: { apply wp_ret. split; [done|]. split; [done|]. split; [by rewrite bool_decide_eq_false_2 by (by intros [? ?])|]. by split. }
  rewrite bool_decide_eq_true_2 by done.
  assert (Hend : forall refs', refs' = {[request_id request]} ∪ refs ->
    exists rs, Some refs' = Some rs /\ request_id request ∈ rs) by (intros; exists refs'; split; [done|set_solver]).
  apply wp_bind. destruct (decide (refs = ∅)) as [->|Hne].
  - destruct I as [I1 I2 I3 I4 I5 I6].
    destruct (od_get h (freeable m)) as [v|] eqn:Hget; [|by apply od_get_none in Hget; destruct Hget; apply I5].
    pose proof (od_remove_perm _ _ _ I4 Hget) as Hp. set (d' := od_remove h (freeable m)) in *.
    apply wp_bind, (wp_of_option _ _ v); [done|]. apply wp_modify. apply wp_bind.
    unfold wp at 1. erewrite add_reference_ok by (simpl; exact Hr). apply wp_ret. simpl.
    split; [|split; [done|split; [done|split; [intros _; rewrite lookup_insert_eq; by apply Hend|]]]].
    2: { split; [done|]. intros _. unfold referenced. fold h. simpl. by rewrite Hr. }
    fold d'. clearbody d'. rewrite Hp in I4, I6. rewrite fmap_cons in I4. apply NoDup_cons in I4 as [Hn4 I4]. cbn [fst snd] in Hn4. apply Forall_cons in I6 as [E6 I6].
    constructor; simpl; try done.
    + by rewrite (total_insert_old _ _ ∅).
    + rewrite I2, Hp, fmap_cons, zsum_cons. cbn [snd]. lia.
    + intros h'. destruct (decide (h' = h)) as [->|Hnh].
      * rewrite lookup_insert_eq. split; [done|]. intros E. apply (inj Some) in E. exfalso.
        assert (Hin : request_id request ∈ ({[request_id request]} ∪ ∅ : gset string)) by set_solver.
        rewrite E in Hin. set_solver.
      * rewrite lookup_insert_ne, <- I5, Hp, fmap_cons by done. cbn [fst]. set_solver.
  - apply wp_ret. apply wp_bind. unfold wp at 1. erewrite add_reference_ok by exact Hr. apply wp_ret. simpl.
    split; [|split; [done|split; [done|split; [intros _; rewrite lookup_insert_eq; by apply Hend|]]]].
    2: { split; [done|]. intros _. unfold referenced. fold h. simpl. by rewrite Hr. }
    eapply referenced_inv; [done|exact Hr|done|set_solver].
Qed.

(** Eviction: the oldest entries go, no more than needed. *)
Lemma evict_ok n : forall fr m,
  ec_inv m -> freeable m = fr -> n <= num_freeable_slots m ->
  wp (evict_loop fr n) (fun _ m' => ec_inv m' /\ cache_size m' = cache_size m /\ n <= num_free_slots m' /\
      num_freeable_slots m' = num_freeable_slots m /\ request_cached_ids m' = request_cached_ids m /\
      exists k, freeable m' = drop k fr /\ freed m' = freed m ++ (take k fr).*1 /\
        (forall h, cached m' !! h = if decide (h ∈ (take k fr).*1) then None else cached m !! h) /\
        (forall j, (j < k)%nat -> num_free_slots m + zsum (take j fr).*2 < n)) m.
Proof.
  induction fr as [|[h v] fr IH]; intros m I Hfr Hn; cbn [evict_loop]; apply wp_bind, wp_get;
    destruct (Z.ltb_spec (num_free_slots m) n) as [Hlt|Hge].
  - exfalso. rewrite (ei_freeable _ I), Hfr in Hn. simpl in Hn. change (zsum []) with 0 in Hn. lia.
  - apply wp_ret. split; [done|]. split; [done|]. split; [done|]. split; [done|]. split; [done|].
    exists O. rewrite Hfr. simpl. rewrite app_nil_r. split; [done|]. split; [done|]. split; [done|]. intros; lia.
  - pose proof I as [I1 I2 I3 I4 I5 I6]. rewrite Hfr in *. rewrite !fmap_cons in *. cbn [fst snd] in *.
    apply NoDup_cons in I4 as [Hni I4].
    apply Forall_cons in I6 as [E6 I6]. cbn [fst snd] in E6. subst v.
    assert (Hc : cached m !! h = Some ∅) by (apply I5; set_solver).
    apply wp_bind, wp_modify, wp_bind. unfold wp at 1, of_option. rewrite Hc.
    apply wp_bind, wp_modify, wp_bind, wp_modify, wp_bind, wp_modify.
    match goal with |- wp _ _ ?x => set (m1 := x) end.
    assert (Hm1 : ec_inv m1).
    { constructor; simpl; try done.
      - rewrite I1, (total_delete _ _ _ Hc). lia.
      - rewrite I2, zsum_cons. lia.
      - specialize (Hsz h). lia.
      - intros h'. destruct (decide (h' = h)) as [->|Hne].
        + rewrite lookup_delete_eq. split; [by intros ?%Hni|intros [=]].
        + rewrite lookup_delete_ne, <- I5 by done. set_solver. }
    eapply wp_mono; [apply (IH m1 Hm1 eq_refl)|].
    + exact Hn.
    + intros _ m' (I' & C' & N' & F' & Q' & k & E1 & E2 & E3 & E4). split; [done|]. split; [done|].
      split; [done|]. split; [done|]. split; [done|]. exists (S k). simpl in *.
      split; [done|]. split; [by rewrite E2, <- app_assoc|]. split.
      * intros h'. rewrite E3.
        assert (Hiff : h' ∈ (take (S k) ((h, sz h) :: fr)).*1 <-> h' = h \/ h' ∈ (take k fr).*1) by apply elem_of_cons.
        rewrite (decide_ext _ _ None (cached m !! h') Hiff). case_decide as H1; case_decide as H2; try done; [by destruct H2; right| |].
        -- destruct H2 as [->|]; [apply lookup_delete_eq|by destruct H1].
        -- apply lookup_delete_ne. intros <-. apply H2. by left.
      * intros j Hj. destruct j as [|j]; [change (zsum (take 0 ((h, sz h) :: fr)).*2) with 0; lia|].
        change ((take (S j) ((h, sz h) :: fr)).*2) with (sz h :: (take j fr).*2). rewrite zsum_cons.
        specialize (E4 j ltac:(lia)). lia.
  - apply wp_ret. split; [done|]. split; [done|]. split; [done|]. split; [done|]. split; [done|].
    exists O. rewrite Hfr. simpl. rewrite app_nil_r. split; [done|]. split; [done|]. split; [done|]. intros; lia.
Qed.

Lemma zsum_sizes l : Forall (fun e => e.2 = sz e.1) l -> 0 <= zsum l.*2.
Proof using Hsz.
  induction 1 as [|[h v] l E _ IH]; [done|]. rewrite fmap_cons, zsum_cons. cbn [fst snd] in *.
  specialize (Hsz h). lia.
Qed.

Lemma allocate_ok m request input_id :
  ec_inv m -> valid_input request input_id -> features_ok request ->
  let h := hash_at request input_id in
  cached m !! h = None -> sz h <= num_free_slots m ->
  wp (allocate request input_id) (fun _ m' => ec_inv m' /\ cache_size m' = cache_size m /\
      cached m' = <[h := {[request_id request]}]> (cached m) /\ freeable m' = freeable m /\
      num_free_slots m' = num_free_slots m - sz h /\
      request_cached_ids m' = <[request_id request := {[input_id]} ∪ get_cached_input_ids request m]> (request_cached_ids m)) m.
Proof using Hsz.
  intros I Hv Hf h Hc Hle. pose proof I as [I1 I2 I3 I4 I5 I6]. pose proof (zsum_sizes _ I6) as Hpos.
  unfold allocate. apply wp_bind. unfold wp at 1. rewrite mm_hash_of_ok by done. fold h.
  apply wp_bind, wp_modify. rewrite Hc. set (m1 := set_cached _ m).
  apply wp_bind. unfold wp at 1. rewrite num_embeds_ok by done. fold h. apply wp_bind, wp_get.
  apply wp_bind. apply wp_assert; [apply Z.leb_le; exact Hle|].
  apply wp_bind. apply wp_assert; [apply Z.leb_le; simpl; lia|].
  apply wp_bind. unfold wp at 1.
  erewrite add_reference_ok by (simpl; apply lookup_insert_eq). apply wp_modify. simpl.
  rewrite insert_insert_eq, union_empty_r_L.
  split; [|done]. constructor; simpl; try done.
  - rewrite total_insert_new by done. lia.
  - lia.
  - lia.
  - intros h'. destruct (decide (h' = h)) as [->|Hne].
    + rewrite lookup_insert_eq, I5, Hc. split; [done|]. intros E. apply (inj Some) in E.
      assert (Hin : request_id request ∈ ({[request_id request]} : gset string)) by set_solver.
      rewrite E in Hin. set_solver.
    + by rewrite lookup_insert_ne, I5.
Qed.

(** What a release changes: no space is used or won, no entry comes or goes. *)
Definition released (request : Request) (input_id : Z) (m m' : EncoderCacheManager) : Prop :=
  num_free_slots m' = num_free_slots m /\ freed m' = freed m /\
  request_cached_ids m' = discard_id (request_id request) input_id (request_cached_ids m) /\
  forall h, cached m' !! h = None <-> cached m !! h = None.

Lemma released_insert request input_id m m1 m2 h refs refs' :
  released request input_id m m1 -> cached m1 !! h = Some refs ->
  num_free_slots m2 = num_free_slots m1 -> freed m2 = freed m1 ->
  request_cached_ids m2 = request_cached_ids m1 -> cached m2 = <[h := refs']> (cached m1) ->
  released request input_id m m2.
Proof.
  intros (E1 & E2 & E3 & E4) Hr F1 F2 F3 F4. unfold released. rewrite F1, F2, F3, F4. split; [done|]. split; [done|].
  split; [done|]. intros h'. rewrite <- E4, lookup_insert_None. split; [tauto|]. intros Hn. split; [done|].
  intros <-. congruence.
Qed.

Lemma free_input_ok m request input_id :
  ec_inv m -> valid_input request input_id -> features_ok request ->
  wp (free_encoder_input request input_id) (fun _ m' => ec_inv m' /\ cache_size m' = cache_size m /\
      released request input_id m m') m.
Proof using Hsz.
  intros I Hv Hf. unfold free_encoder_input. apply wp_bind. unfold wp at 1. rewrite mm_hash_of_ok by done.
  set (h := hash_at request input_id). apply wp_bind, wp_modify. set (m1 := set_ids _ m).
  assert (I1 : ec_inv m1) by (by destruct I; constructor).
  assert (C1 : cache_size m1 = cache_size m) by done.
  assert (D1 : released request input_id m m1) by (unfold released; auto).
  rewrite <- C1. clearbody m1. clear I C1.
  apply wp_bind, wp_get. destruct (cached m1 !! h) as [refs|] eqn:Hr; [|by apply wp_ret].
  destruct (decide (refs = ∅)) as [|Hne]; [by apply wp_ret|].
  apply wp_bind, wp_modify. set (refs' := refs ∖ {[request_id request]}).
  destruct (decide (refs' = ∅)) as [He|Hne'].
  - apply wp_bind. unfold wp at 1. rewrite num_embeds_ok by done. fold h. apply wp_modify. rewrite He. simpl.
    destruct I1 as [J1 J2 J3 J4 J5 J6].
    assert (Hn : h ∉ (freeable m1).*1) by (rewrite J5, Hr; intros E; by apply (inj Some) in E).
    rewrite od_set_new by done. split; [|split; [done|by eapply released_insert]]. constructor; simpl; try done.
    + by rewrite (total_insert_old _ _ refs).
    + rewrite J2, fmap_app, zsum_app. cbn. change (zsum [sz h]) with (sz h + 0). lia.
    + rewrite fmap_app. apply NoDup_app. split; [done|]. split; [|apply NoDup_singleton].
      intros x Hx. cbn. intros E%list_elem_of_singleton. by subst.
    + intros h'. rewrite fmap_app, elem_of_app. cbn. rewrite list_elem_of_singleton.
      destruct (decide (h' = h)) as [->|Hh]; [rewrite lookup_insert_eq; tauto|].
      rewrite lookup_insert_ne by done. rewrite J5. tauto.
    + apply Forall_app. split; [done|]. by constructor.
  - apply wp_ret. split; [|split; [done|by eapply released_insert]].
    assert (E : set_cached (<[h := refs']> (cached m1)) m1 =
      set_ids (request_cached_ids m1) (set_cached (<[h := refs']> (cached m1)) m1)) by (by destruct m1).
    rewrite E. by eapply referenced_inv.
Qed.

Lemma discard_id_lookup rid i (ids : gmap string (gset Z)) rid' :
  default ∅ (discard_id rid i ids !! rid') =
    if decide (rid' = rid) then default ∅ (ids !! rid) ∖ {[i]} else default ∅ (ids !! rid').
Proof.
  unfold discard_id. destruct (ids !! rid) as [s|] eqn:E; destruct (decide (rid' = rid)) as [H1|H1].
  - subst rid'. simpl. case_decide as H2; [rewrite lookup_delete_eq; simpl; congruence|by rewrite lookup_insert_eq].
  - case_decide; [by rewrite lookup_delete_ne|by rewrite lookup_insert_ne].
  - subst rid'. rewrite E. simpl. set_solver.
  - done.
Qed.

(** Releasing all inputs of a request. *)
Lemma ec_free_clears m order request :
  ec_inv m -> features_ok request -> (forall s i, i ∈ order s -> i ∈ s) ->
  (forall i, i ∈ get_cached_input_ids request m -> valid_input request i) ->
  wp (ec_free order request) (fun _ m' => ec_inv m' /\ cache_size m' = cache_size m /\
      num_free_slots m' = num_free_slots m /\ freed m' = freed m /\
      (forall h, cached m' !! h = None <-> cached m !! h = None) /\
      (forall rid, default ∅ (request_cached_ids m' !! rid) =
         if decide (rid = request_id request)
         then filter (fun i => i ∉ order (get_cached_input_ids request m)) (get_cached_input_ids request m)
         else default ∅ (request_cached_ids m !! rid))) m.
Proof using Hsz.
  intros I Hf Hord Hv. unfold ec_free. apply wp_bind, wp_get. set (s := get_cached_input_ids request m).
  eapply wp_mono; [apply (wp_for_each (fun l1 _ m' => ec_inv m' /\ cache_size m' = cache_size m /\
      num_free_slots m' = num_free_slots m /\ freed m' = freed m /\
      (forall h, cached m' !! h = None <-> cached m !! h = None) /\
      (forall rid, default ∅ (request_cached_ids m' !! rid) =
         if decide (rid = request_id request) then filter (fun i => i ∉ l1) s
         else default ∅ (request_cached_ids m !! rid)))); [|]|done].
  - split; [done|]. split; [done|]. split; [done|]. split; [done|]. split; [done|]. intros rid.
    case_decide; [|done]. subst rid. fold (get_cached_input_ids request m). fold s.
    apply set_eq. intros i. rewrite elem_of_filter. split; [|tauto]. intros Hi. split; [apply not_elem_of_nil|done].
  - intros l1 i l2 m1 Hl (I1 & C1 & N1 & F1 & D1 & R1). eapply wp_mono; [apply free_input_ok; [done| |done]|].
    + apply Hv, Hord. fold s. rewrite Hl. set_solver.
    + intros _ m2 (I2 & C2 & N2 & F2 & R2 & D2). split; [done|]. split; [congruence|]. split; [congruence|].
      split; [congruence|]. split; [intros h; rewrite D2; apply D1|]. intros rid. rewrite R2, discard_id_lookup, !R1.
      destruct (decide (rid = request_id request)); [|done]. rewrite decide_True by done.
      apply set_eq. intros j. rewrite elem_of_difference, !elem_of_filter, elem_of_app, list_elem_of_singleton. set_solver.
Qed.

Lemma ec_free_ok m order request :
  ec_inv m -> features_ok request -> (forall s i, i ∈ order s -> i ∈ s) ->
  (forall i, i ∈ get_cached_input_ids request m -> valid_input request i) ->
  wp (ec_free order request) (fun _ m' => ec_inv m' /\ cache_size m' = cache_size m) m.
Proof using Hsz. intros. eapply wp_mono; [by apply ec_free_clears|]. by intros _ m' (? & ? & _). Qed.

Lemma reset_ok m : 0 <= cache_size m -> ec_inv (ec_init (cache_size m)).
Proof.
  intros Hc. constructor; simpl; try done.
  - unfold total. rewrite map_to_list_empty. change (zsum _) with 0. lia.
  - change (zsum _) with 0. lia.
  - constructor.
  - intros h. rewrite lookup_empty. split; [set_solver|done].
Qed.

(** ** Reachable states *)

Inductive ec_op :=
| ECheck (request : Request) (input_id : Z)
| ECanAllocate (request : Request) (input_id budget scheduled : Z)
| EAllocate (request : Request) (input_id : Z)
| EFreeInput (request : Request) (input_id : Z)
| EFree (order : gset Z -> list Z) (request : Request)
| EFreed
| EReset.

Definition run_ec_op (o : ec_op) : M EncoderCacheManager unit :=
  match o with
  | ECheck r i => _ ← check_and_update_cache r i; mret tt
  | ECanAllocate r i b n => _ ← can_allocate r i b n; mret tt
  | EAllocate r i => allocate r i
  | EFreeInput r i => free_encoder_input r i
  | EFree order r => ec_free order r
  | EFreed => _ ← get_freed_mm_hashes; mret tt
  | EReset => reset
  end.

(** What the scheduler respects: valid inputs; space is allocated for an input
    that is not cached and fits. *)
Definition ec_op_ok (m : EncoderCacheManager) (o : ec_op) : Prop :=
  match o with
  | ECheck r i => valid_input r i
  | ECanAllocate r i _ n => valid_input r i /\ features_ok r /\ 0 <= n
  | EAllocate r i => valid_input r i /\ features_ok r /\ cached m !! hash_at r i = None /\
                     sz (hash_at r i) <= num_free_slots m
  | EFreeInput r i => valid_input r i /\ features_ok r
  | EFree order r => features_ok r /\ (forall s i, i ∈ order s -> i ∈ s) /\
                     forall i, i ∈ get_cached_input_ids r m -> valid_input r i
  | EFreed | EReset => True
  end.

Lemma can_allocate_ok m request input_id budget scheduled :
  ec_inv m -> valid_input request input_id -> features_ok request ->
  let n := sz (hash_at request input_id) in
  wp (can_allocate request input_id budget scheduled) (fun b m' => ec_inv m' /\ cache_size m' = cache_size m /\
      (b = true <-> n <= budget /\ n + scheduled <= num_freeable_slots m) /\ (b = false -> m' = m) /\
      (b = true -> n + scheduled <= num_free_slots m' /\ request_cached_ids m' = request_cached_ids m /\
         exists k, freeable m' = drop k (freeable m) /\ freed m' = freed m ++ (take k (freeable m)).*1 /\
           (forall h, cached m' !! h = if decide (h ∈ (take k (freeable m)).*1) then None else cached m !! h) /\
           forall j, (j < k)%nat -> num_free_slots m + zsum (take j (freeable m)).*2 < n + scheduled)) m.
Proof using Hsz.
  intros I Hv Hf n. unfold can_allocate. apply wp_bind. unfold wp at 1. rewrite num_embeds_ok by done. fold n.
  pose proof (zsum_sizes _ (ei_sizes _ I)) as Hpos. pose proof (ei_freeable _ I) as Hfr.
  destruct (Z.ltb_spec budget n).
  { apply wp_ret. split; [done|]. split; [done|]. split; [split; [done|lia]|]. split; [done|done]. }
  cbv zeta. apply wp_bind, wp_get. destruct (Z.leb_spec (n + scheduled) (num_free_slots m)).
  { apply wp_ret. split; [done|]. split; [done|]. split; [split; [lia|done]|]. split; [done|]. intros _.
    split; [done|]. split; [done|]. exists O. rewrite app_nil_r. split; [done|]. split; [done|].
    split; [|intros; lia]. intros h. by rewrite decide_False by (apply not_elem_of_nil). }
  destruct (Z.ltb_spec (num_freeable_slots m) (n + scheduled)).
  { apply wp_ret. split; [done|]. split; [done|]. split; [split; [done|lia]|]. split; [done|done]. }
  apply wp_bind. eapply wp_mono; [by apply (evict_ok (n + scheduled) (freeable m) m I eq_refl)|].
  intros _ m' (I' & C' & N' & _ & F' & k & Hk). apply wp_ret. split; [done|]. split; [done|].
  split; [split; [lia|done]|]. split; [done|]. intros _. split; [done|]. split; [done|]. by exists k.
Qed.

Lemma run_ec_op_ok o m :
  ec_inv m -> 0 <= cache_size m -> ec_op_ok m o ->
  wp (run_ec_op o) (fun _ m' => ec_inv m' /\ cache_size m' = cache_size m) m.
Proof using Hsz.
  intros I Hc Hok. destruct o as [r i|r i b n|r i|r i|order r| |]; cbn [run_ec_op ec_op_ok] in *.
  - apply wp_bind. eapply wp_mono; [by apply check_ok|]. intros b m' (I' & C' & _). by apply wp_ret.
  - destruct Hok as (Hv & Hf & _). apply wp_bind. eapply wp_mono; [by apply can_allocate_ok|].
    intros b' m' (I' & C' & _). by apply wp_ret.
  - destruct Hok as (Hv & Hf & Hn & Hle). eapply wp_mono; [by apply allocate_ok|]. by intros _ m' (? & ? & _).
  - destruct Hok as (Hv & Hf). eapply wp_mono; [by apply free_input_ok|]. by intros _ m' (? & ? & _).
  - destruct Hok as (Hf & Hord & Hv). by apply ec_free_ok.
  - unfold get_freed_mm_hashes. apply wp_bind, wp_bind, wp_get, wp_bind, wp_modify, wp_ret, wp_ret.
    split; [by destruct I; constructor|done].
  - apply wp_modify. split; [by apply reset_ok|done].
Qed.

Inductive ec_reachable (size : Z) : EncoderCacheManager -> Prop :=
| EcInit : ec_reachable size (ec_init size)
| EcStep m o m' r : ec_reachable size m -> ec_op_ok m o -> run_ec_op o m = (r, m') -> ec_reachable size m'.

Lemma ec_reachable_inv size m : 0 <= size -> ec_reachable size m -> ec_inv m /\ cache_size m = size.
Proof using Hsz.
  intros Hs. induction 1 as [|m o m' r _ [I C] Hok Hrun]; [split; [by apply (reset_ok (ec_init size))|done]|].
  destruct (wp_returns _ _ _ (run_ec_op_ok o m I ltac:(lia) Hok)) as ([] & m1 & Hrun' & I1 & C1).
  rewrite Hrun in Hrun'. injection Hrun' as _ <-. split; [done|congruence].
Qed.
End accounting.

(** ** The theorems *)

(** C33. The encoder cache never overcommits. In every state reached by the
    operations, used by the rules of the scheduler, the sizes of all cached
    entries and the free slots add up to the cache size and are not negative;
    exactly the entries no request references are up for eviction, each once;
    what can be reclaimed is the free slots plus their sizes; and no operation
    raises, allocations that follow a positive answer included. *)
Theorem encoder_cache_accounting sz size m :
  (forall h, 0 <= sz h) -> 0 <= size -> ec_reachable sz size m ->
  num_free_slots m + total sz (cached m) = size /\ 0 <= num_free_slots m /\
  NoDup (freeable m).*1 /\ (forall h, h ∈ (freeable m).*1 <-> cached m !! h = Some ∅) /\
  num_freeable_slots m = num_free_slots m + zsum (freeable m).*2 /\
  forall o, ec_op_ok sz m o -> exists m', run_ec_op o m = (Ok tt, m').
Proof.
  intros Hsz Hs Hr. destruct (ec_reachable_inv sz Hsz size m Hs Hr) as [I C].
  split; [rewrite (ei_free _ _ I); lia|]. split; [apply I|]. split; [apply I|]. split; [apply I|]. split; [apply I|].
  intros o Hok. destruct (wp_returns _ _ _ (run_ec_op_ok sz Hsz o m I ltac:(lia) Hok)) as ([] & m' & Hrun & _).
  by exists m'.
Qed.

(** [can_allocate] is exact and evicts no more than it must. It answers True
    exactly when the input is within the compute budget and fits into what is
    free or reclaimable; it then has made room, by evicting the oldest
    unreferenced entries and only while room was missing, so that the
    allocation that follows succeeds; every other entry stays. *)
Theorem can_allocate_exact sz m request input_id budget scheduled :
  (forall h, 0 <= sz h) -> ec_inv sz m -> valid_input request input_id -> features_ok sz request -> 0 <= scheduled ->
  let n := sz (hash_at request input_id) in
  exists b m', can_allocate request input_id budget scheduled m = (Ok b, m') /\
    (b = true <-> n <= budget /\ n + scheduled <= num_freeable_slots m) /\ (b = false -> m' = m) /\
    (b = true ->
       (exists k, freeable m' = drop k (freeable m) /\ freed m' = freed m ++ (take k (freeable m)).*1 /\
          (forall h, h ∉ (take k (freeable m)).*1 -> cached m' !! h = cached m !! h) /\
          forall j, (j < k)%nat -> num_free_slots m + zsum (take j (freeable m)).*2 < n + scheduled) /\
       (cached m' !! hash_at request input_id = None ->
        exists m'', allocate request input_id m' = (Ok tt, m'') /\ scheduled <= num_free_slots m'')).
Proof.
  intros Hsz I Hv Hf Hs n.
  destruct (wp_returns _ _ _ (can_allocate_ok sz Hsz m request input_id budget scheduled I Hv Hf))
    as (b & m' & Hrun & I' & C' & Hb & Hno & Hyes).
  exists b, m'. split; [done|]. split; [done|]. split; [done|]. intros E. destruct (Hyes E) as (Hn & _ & k & H1 & H2 & H3 & H4).
  split.
  - exists k. split; [done|]. split; [done|]. split; [|done]. intros h Hh. by rewrite H3, decide_False.
  - intros Hc. fold n in Hn.
    destruct (wp_returns _ _ _ (allocate_ok sz Hsz m' request input_id I' Hv Hf Hc ltac:(fold n; lia)))
      as ([] & m'' & Ha & _ & _ & _ & _ & Hfree & _).
    exists m''. split; [done|]. fold n in Hfree. lia.
Qed.

(** ** Witnesses *)

Definition image (name : string) (len : Z) : MultiModalFeatureSpec := mkFeature name (mkPlaceholder 0 len None).

Definition image_request (id : string) (features : list MultiModalFeatureSpec) : Request :=
  mkRequest id 0 0 0 None None None false None None false false false 16 None 0 features RUNNING None [] [] 0 0 0 []
    0 false 0 0 None [] ∅.

Definition sample_sizes (h : string) : Z := if String.eqb h "A" then 4 else if String.eqb h "B" then 7 else 0.

Lemma sample_sizes_nonneg h : 0 <= sample_sizes h.
Proof. unfold sample_sizes. repeat case_match; lia. Qed.

Definition request_a : Request := image_request "r1" [image "A" 4; image "A" 4].
Definition request_b : Request := image_request "r2" [image "B" 7].

(** A cache of eight slots after one image was allocated and released. *)
Definition released_a : EncoderCacheManager :=
  ((allocate request_a 0 ;; free_encoder_input request_a 0) (ec_init 8)).2.

Lemma released_a_reachable : ec_reachable sample_sizes 8 released_a.
Proof.
  set (m1 := (allocate request_a 0 (ec_init 8)).2).
  assert (H1 : ec_reachable sample_sizes 8 m1).
  { apply (EcStep _ _ (ec_init 8) (EAllocate request_a 0) m1 (Ok tt)); [apply EcInit| |vm_compute; reflexivity].
    split; [by vm_compute|]. split; [repeat constructor|]. split; [reflexivity|]. vm_compute. discriminate. }
  apply (EcStep _ _ m1 (EFreeInput request_a 0) released_a (Ok tt)); [exact H1| |vm_compute; reflexivity].
  split; [by vm_compute|repeat constructor].
Qed.

Lemma encoder_cache_accounting_witness : exists m',
  cached released_a !! "A" = Some ∅ /\ num_free_slots released_a + total sample_sizes (cached released_a) = 8 /\
  run_ec_op (ECanAllocate request_b 0 100 0) released_a = (Ok tt, m').
Proof.
  destruct (encoder_cache_accounting sample_sizes 8 released_a sample_sizes_nonneg ltac:(lia) released_a_reachable)
    as (H1 & _ & _ & H4 & _ & H6).
  destruct (H6 (ECanAllocate request_b 0 100 0)) as [m' Hm'].
  - split; [by vm_compute|]. split; [repeat constructor|lia].
  - exists m'. split; [apply H4; vm_compute; by left|]. split; [exact H1|exact Hm'].
Defined.

Lemma can_allocate_exact_witness : exists m' m'',
  can_allocate request_b 0 100 0 released_a = (Ok true, m') /\ freed m' = ["A"%string] /\
  allocate request_b 0 m' = (Ok tt, m'').
Proof.
  destruct (can_allocate_exact sample_sizes released_a request_b 0 100 0 sample_sizes_nonneg)
    as (b & m' & Hrun & Hb & _ & Hyes).
  - by apply (ec_reachable_inv _ sample_sizes_nonneg 8 _ ltac:(lia) released_a_reachable).
  - by vm_compute.
  - repeat constructor.
  - lia.
  - assert (Eb : b = true) by (apply Hb; vm_compute; split; discriminate). subst b.
    assert (Hf : freed (can_allocate request_b 0 100 0 released_a).2 = ["A"%string]) by (vm_compute; reflexivity).
    assert (Hc : cached (can_allocate request_b 0 100 0 released_a).2 !! hash_at request_b 0 = None)
      by (vm_compute; reflexivity).
    rewrite Hrun in Hf, Hc. cbn [snd] in Hf, Hc.
    destruct (Hyes eq_refl) as [_ Ha]. destruct (Ha Hc) as (m'' & Hm'' & _).
    exists m', m''. split; [exact Hrun|]. split; [exact Hf|exact Hm''].
Defined.

(** Two inputs of one request with the same hash share one reference: after
    the first is freed, the entry can be evicted although the second is still
    recorded as cached for the request. *)
Theorem duplicate_input_reference_dropped :
  match (allocate request_a 0 ;; check_and_update_cache request_a 1 ;; free_encoder_input request_a 0 ;;
         can_allocate request_b 0 100 0) (ec_init 8) with
  | (Ok b, m) => b = true /\ get_cached_input_ids request_a m = {[1]} /\
                 cached m !! hash_at request_a 1 = None /\ freed m = ["A"%string]
  | (Err _, _) => False
  end.
Proof. vm_compute. repeat split. Qed.

End EncoderCache.
