(* ===== verification/PyNum.v ===== *)
(** * Python numbers: ints and floats

    The values of a Python variable that holds an [int] or a [float], with the
    operations the cache policies use. A float is IEEE 754 binary64, in the
    executable form of the Standard Library's [SpecFloat]; comparisons between
    the two kinds of numbers are exact, as in Python. *)

From S2P Require Import Prelude.
From Stdlib Require Import Floats.SpecFloat.

#[local] Open Scope Z_scope.

Module PyNum.

Inductive num := PInt (z : Z) | PFloat (f : spec_float).

(** The nearest float, ties to even. Python raises OverflowError for an int
    beyond the largest float, here it is infinity; the bounds on the values
    below exclude it. *)
Definition to_float (x : num) : spec_float :=
  match x with PInt z => binary_normalize 53 1024 z 0 false | PFloat f => f end.

Definition num_add (x y : num) : num :=
  match x, y with
  | PInt a, PInt b => PInt (a + b)
  | _, _ => PFloat (SFadd 53 1024 (to_float x) (to_float y))
  end.
Definition num_sub (x y : num) : num :=
  match x, y with
  | PInt a, PInt b => PInt (a - b)
  | _, _ => PFloat (SFsub 53 1024 (to_float x) (to_float y))
  end.

(** [a / b] of two ints. *)
Definition true_div {S} (a b : Z) : M S num :=
  if b =? 0 then raise ZeroDivisionError
  else mret (PFloat (SFdiv 53 1024 (to_float (PInt a)) (to_float (PInt b)))).

(** The exact value of a number: [m * 2 ^ e]. *)
Inductive value := VNaN | VInf (negative : bool) | VFin (m e : Z).

Definition value_of (x : num) : value :=
  match x with
  | PInt z => VFin z 0
  | PFloat (S754_zero _) => VFin 0 0
  | PFloat (S754_infinity s) => VInf s
  | PFloat S754_nan => VNaN
  | PFloat (S754_finite s m e) => VFin (cond_Zopp s (Zpos m)) e
  end.

Definition value_ltb (v w : value) : bool :=
  match v, w with
  | VNaN, _ | _, VNaN => false
  | VInf s, VInf t => s && negb t
  | VInf s, _ => s
  | _, VInf t => negb t
  | VFin m1 e1, VFin m2 e2 =>
      let e := Z.min e1 e2 in m1 * 2 ^ (e1 - e) <? m2 * 2 ^ (e2 - e)
  end.

(** [x < y]. *)
Definition num_ltb (x y : num) : bool := value_ltb (value_of x) (value_of y).

(** [max(x, y)] and [min(x, y)] keep the first argument unless the second is
    strictly larger or smaller. *)
Definition py_max (x y : num) : num := if num_ltb x y then y else x.
Definition py_min (x y : num) : num := if num_ltb y x then y else x.

(** [int(x)]: truncation. *)
Definition num_int {S} (x : num) : M S Z :=
  match value_of x with
  | VNaN => raise ValueError
  | VInf _ => raise OverflowError
  | VFin m e => mret (if 0 <=? e then m * 2 ^ e else Z.quot m (2 ^ (- e)))
  end.

(** ** Rounding stays below a representable bound *)

(** [m1 * 2 ^ e1 <= m2 * 2 ^ e2] *)
Definition vle (m1 e1 m2 e2 : Z) : Prop :=
  forall k, 0 <= e1 + k -> 0 <= e2 + k -> m1 * 2 ^ (e1 + k) <= m2 * 2 ^ (e2 + k).

Lemma scale_le m1 m2 a b d : 0 <= a -> 0 <= b -> 0 <= d ->
  (m1 * 2 ^ (a + d) <= m2 * 2 ^ (b + d) <-> m1 * 2 ^ a <= m2 * 2 ^ b).
Proof.
  intros Ha Hb Hd. rewrite !Z.pow_add_r, !Z.mul_assoc by lia.
  symmetry. apply Z.mul_le_mono_pos_r, Z.pow_pos_nonneg; lia.
Qed.

Lemma vle_at m1 e1 m2 e2 k : 0 <= e1 + k -> 0 <= e2 + k ->
  m1 * 2 ^ (e1 + k) <= m2 * 2 ^ (e2 + k) -> vle m1 e1 m2 e2.
Proof.
  intros H1 H2 H j J1 J2. set (d := Z.max k j).
  apply (scale_le _ _ _ _ (d - j)); [lia..|].
  replace (e1 + j + (d - j)) with (e1 + k + (d - k)) by lia.
  replace (e2 + j + (d - j)) with (e2 + k + (d - k)) by lia.
  apply scale_le; lia.
Qed.

Lemma vle_trans m1 e1 m2 e2 m3 e3 : vle m1 e1 m2 e2 -> vle m2 e2 m3 e3 -> vle m1 e1 m3 e3.
Proof.
  intros H1 H2. set (k := Z.max 0 (- Z.min e1 (Z.min e2 e3))).
  apply (vle_at _ _ _ _ k); [lia|lia|]. etrans; [apply H1|apply H2]; lia.
Qed.

Lemma value_ltb_vle m1 e1 m2 e2 : value_ltb (VFin m1 e1) (VFin m2 e2) = false <-> vle m2 e2 m1 e1.
Proof.
  simpl. rewrite Z.ltb_ge. split.
  - intros H. by apply (vle_at _ _ _ _ (- Z.min e1 e2)); [lia|lia|rewrite !Z.add_opp_r].
  - intros H. specialize (H (- Z.min e1 e2)). rewrite !Z.add_opp_r in H. apply H; lia.
Qed.

(** Moving the exponent without rounding. *)
Lemma vle_shl m d e1 m2 e2 : 0 <= d -> vle m e1 m2 e2 -> vle (m * 2 ^ d) (e1 - d) m2 e2.
Proof.
  intros Hd H. set (k := Z.max 0 (Z.max (d - e1) (- e2))). apply (vle_at _ _ _ _ k); [lia..|].
  rewrite <- Z.mul_assoc, <- Z.pow_add_r by lia. replace (d + (e1 - d + k)) with (e1 + k) by lia. apply H; lia.
Qed.

Lemma vle_shr m n e d m2 e2 : 0 <= d -> n * 2 ^ d <= m -> vle m e m2 e2 -> vle n (e + d) m2 e2.
Proof.
  intros Hd Hn H. set (k := Z.max 0 (Z.max (- e) (- e2))). apply (vle_at _ _ _ _ k); [lia..|].
  etrans; [|apply (H k); lia]. replace (e + d + k) with (d + (e + k)) by lia.
  rewrite Z.pow_add_r, Z.mul_assoc by lia. apply Z.mul_le_mono_nonneg_r; [apply Z.pow_nonneg; lia|done].
Qed.

(** Rounding up an inexact value below an integer stays below it. *)
Lemma vle_up m n e d cap : 0 <= d -> e + d <= 0 -> n * 2 ^ d < m -> vle m e cap 0 -> vle (n + 1) (e + d) cap 0.
Proof.
  intros Hd He Hn H. apply (vle_at _ _ _ _ (- (e + d))); [lia..|].
  specialize (H (- e) ltac:(lia) ltac:(lia)).
  replace (e + - e) with 0 in H by lia. replace (e + d + - (e + d)) with 0 by lia.
  rewrite !Z.add_0_l, Z.pow_0_r, Z.mul_1_r in *.
  replace (- e) with (- (e + d) + d) in H by lia. rewrite Z.pow_add_r, Z.mul_assoc in H by lia.
  pose proof (Z.pow_pos_nonneg 2 d ltac:(lia) Hd). nia.
Qed.

(** ** The rounding steps *)

Definition inexact (r : shr_record) : bool := shr_r r || shr_s r.

Lemma shr_1_spec r : 0 <= shr_m r ->
  shr_m (shr_1 r) = shr_m r / 2 /\ inexact (shr_1 r) = inexact r || Z.odd (shr_m r).
Proof.
  destruct r as [m r s]. unfold inexact. cbn [shr_m shr_r shr_s]. intros Hm.
  destruct m as [|[p|p|]|p]; [| | | |lia].
  all: cbn; rewrite ?orb_true_r, ?orb_false_r; split; [|done].
  all: try done.
  - change (Zpos p~1) with (2 * Zpos p + 1). by apply (Z.div_unique _ 2 _ 1); lia.
  - change (Zpos p~0) with (2 * Zpos p). rewrite Z.mul_comm. by rewrite Z.div_mul.
Qed.

Lemma iter_pos_nat {A} (f : A -> A) p x : iter_pos f p x = Nat.iter (Pos.to_nat p) f x.
Proof.
  revert x. induction p as [p IH|p IH|]; intros x; cbn [iter_pos].
  - rewrite !IH, <- Nat.iter_succ_r, <- Nat.iter_add. f_equal. lia.
  - rewrite !IH, <- Nat.iter_add. f_equal. lia.
  - done.
Qed.

Lemma shr_iter r n : 0 <= shr_m r -> let r' := Nat.iter n shr_1 r in
  0 <= shr_m r' /\ shr_m r' * 2 ^ Z.of_nat n <= shr_m r /\
  (inexact r = false -> inexact r' = true -> shr_m r' * 2 ^ Z.of_nat n < shr_m r).
Proof.
  intros Hr. induction n as [|n (IH0 & IH1 & IH2)]; cbn zeta in *.
  { simpl. split; [done|]. split; [lia|congruence]. }
  rewrite Nat.iter_succ. set (q := Nat.iter n shr_1 r) in *.
  destruct (shr_1_spec q IH0) as [-> ->]. rewrite Nat2Z.inj_succ, Z.pow_succ_r by lia.
  pose proof (Z.pow_pos_nonneg 2 (Z.of_nat n) ltac:(lia) ltac:(lia)).
  pose proof (Z.div_mod (shr_m q) 2 ltac:(lia)). pose proof (Z.mod_pos_bound (shr_m q) 2 ltac:(lia)).
  split; [by apply Z.div_pos|]. split; [nia|]. intros E [Hi|Hodd]%orb_true_iff.
  - specialize (IH2 E Hi). nia.
  - assert (shr_m q mod 2 = 1) by (rewrite Zmod_odd, Hodd; done). nia.
Qed.

Lemma digits_le m : 0 < m -> 2 ^ (Zdigits2 m - 1) <= m.
Proof.
  destruct m as [|p|p]; [lia| |lia]. intros _. cbn [Zdigits2].
  induction p as [p IH|p IH|]; cbn [digits2_pos]; [| |done].
  all: rewrite Pos2Z.inj_succ, Z.sub_1_r, Z.pred_succ.
  all: replace (Zpos (digits2_pos p)) with (Z.succ (Zpos (digits2_pos p) - 1)) at 1 by lia.
  all: rewrite Z.pow_succ_r by lia; lia.
Qed.

Lemma shl_pos m d : Zpos (Pos.iter xO m d) = Zpos m * 2 ^ Zpos d.
Proof.
  rewrite Pos2Nat.inj_iter, <- (positive_nat_Z d). induction (Pos.to_nat d) as [|n IH]; [simpl; lia|].
  simpl nat_rect. rewrite Pos2Z.pos_xO, IH, Nat2Z.inj_succ, Z.pow_succ_r by lia. lia.
Qed.

Section rounding.
Context (cap : Z) (Hcap : cap < 2 ^ 53).

Lemma fexp_small m e : 0 <= m -> 0 < m \/ e <= 0 -> vle m e cap 0 -> fexp 53 1024 (Zdigits2 m + e) <= 0.
Proof using Hcap.
  intros Hm He H. unfold fexp, emin. destruct (decide (m = 0)) as [->|]; [cbn [Zdigits2]; lia|].
  assert (Zdigits2 m + e <= 53); [|lia].
  pose proof (digits_le m ltac:(lia)) as Hd.
  assert (Hp : 0 < Zdigits2 m) by (destruct m; simpl; lia).
  set (k := Z.max 0 (- e)). specialize (H k ltac:(lia) ltac:(lia)).
  pose proof (Z.pow_pos_nonneg 2 (e + k) ltac:(lia) ltac:(lia)).
  pose proof (Z.pow_pos_nonneg 2 (0 + k) ltac:(lia) ltac:(lia)).
  assert (Hlt : 2 ^ (Zdigits2 m - 1 + (e + k)) < 2 ^ (53 + k)).
  { rewrite (Z.pow_add_r 2 53) by lia. rewrite Z.pow_add_r by lia. replace (0 + k) with k in * by lia. nia. }
  apply Z.pow_lt_mono_r_iff in Hlt; lia.
Qed.

Lemma round_cases r : 0 <= shr_m r ->
  (inexact r = false /\ round_nearest_even (shr_m r) (loc_of_shr_record r) = shr_m r) \/
  (inexact r = true /\ shr_m r <= round_nearest_even (shr_m r) (loc_of_shr_record r) <= shr_m r + 1).
Proof.
  destruct r as [m [] []]; cbn; intros Hm; [right; split; [done|lia]|right|right; split; [done|lia]|by left].
  split; [done|]. destruct (Z.even m); lia.
Qed.

Lemma shr_fexp_le m e : 0 <= m -> e <= 0 -> vle m e cap 0 ->
  let '(r, e') := shr_fexp 53 1024 m e loc_Exact in
  let n := round_nearest_even (shr_m r) (loc_of_shr_record r) in
  0 <= shr_m r <= n /\ e' <= 0 /\ vle (shr_m r) e' cap 0 /\ vle n e' cap 0.
Proof using Hcap.
  intros Hm He H. pose proof (fexp_small m e Hm ltac:(lia) H) as Hf.
  unfold shr_fexp, shr. cbn [shr_record_of_loc].
  destruct (fexp 53 1024 (Zdigits2 m + e) - e) as [|p|p] eqn:E; try (cbn; split; [lia|done]).
  rewrite iter_pos_nat. set (r0 := Build_shr_record m false false).
  destruct (shr_iter r0 (Pos.to_nat p) Hm) as (H0 & H1 & H2). rewrite positive_nat_Z in H1, H2.
  set (r := Nat.iter (Pos.to_nat p) shr_1 r0) in *. cbn [shr_m r0] in H1, H2.
  assert (Hle : vle (shr_m r) (e + Zpos p) cap 0) by (eapply vle_shr; [lia|exact H1|done]).
  destruct (round_cases r H0) as [[Ei ->]|[Ei Hn]].
  { split; [lia|]. split; [lia|done]. }
  split; [lia|]. split; [lia|]. split; [done|].
  assert (Hup : vle (shr_m r + 1) (e + Zpos p) cap 0).
  { eapply vle_up; [lia|lia|by apply H2|done]. }
  intros k K1 K2. etrans; [|by apply Hup]. apply Z.mul_le_mono_nonneg_r; [apply Z.pow_nonneg; lia|lia].
Qed.

(** A float that is not NaN, not infinite, not negative and at most the bound. *)
Definition small (f : spec_float) : Prop :=
  match f with
  | S754_zero _ => True
  | S754_finite false m e => vle (Zpos m) e cap 0
  | _ => False
  end.

Lemma round_aux_small m e : 0 <= m -> e <= 0 -> vle m e cap 0 -> small (binary_round_aux 53 1024 false m e loc_Exact).
Proof using Hcap.
  intros Hm He H. unfold binary_round_aux. pose proof (shr_fexp_le m e Hm He H) as H1.
  destruct (shr_fexp 53 1024 m e loc_Exact) as [r1 e1]. destruct H1 as (H0 & He1 & _ & H1).
  pose proof (shr_fexp_le _ e1 ltac:(etrans; apply H0) He1 H1) as H2.
  destruct (shr_fexp 53 1024 (round_nearest_even (shr_m r1) (loc_of_shr_record r1)) e1 loc_Exact) as [r2 e2].
  destruct H2 as (H3 & He2 & H2 & _). destruct (shr_m r2) as [|q|q]; [done| |lia].
  rewrite (proj2 (Z.leb_le _ _)) by lia. done.
Qed.

Lemma round_small m e : vle (Zpos m) e cap 0 -> small (binary_round 53 1024 false m e).
Proof using Hcap.
  intros H. unfold binary_round, shl_align.
  pose proof (fexp_small (Zpos m) e ltac:(lia) ltac:(lia) H) as Hf. cbn [Zdigits2] in Hf.
  set (x := fexp 53 1024 (Zpos (digits2_pos m) + e)) in *.
  destruct (x - e) as [|d|d] eqn:E.
  1,2: apply round_aux_small; [lia|lia|done].
  rewrite shl_pos. apply round_aux_small; [lia|lia|].
  replace x with (e - Zpos d) by lia. by apply vle_shl.
Qed.
End rounding.

(** ** Numbers between 0 and a bound *)

Definition has_sign (sx : bool) (f : spec_float) : Prop :=
  match f with S754_zero s | S754_infinity s | S754_finite s _ _ => s = sx | S754_nan => False end.

Lemma shr_fexp_nonneg m e l : 0 <= m -> 0 <= shr_m (shr_fexp 53 1024 m e l).1.
Proof.
  intros Hm. unfold shr_fexp, shr.
  assert (H0 : 0 <= shr_m (shr_record_of_loc m l)) by (by destruct l as [|[]]).
  destruct (_ - e) as [|p|p]; [done| |done]. cbn [fst]. rewrite iter_pos_nat. apply (shr_iter _ _ H0).
Qed.

Lemma round_aux_sign sx m e l : 0 <= m -> has_sign sx (binary_round_aux 53 1024 sx m e l).
Proof.
  intros Hm. unfold binary_round_aux. pose proof (shr_fexp_nonneg m e l Hm) as H1.
  destruct (shr_fexp 53 1024 m e l) as [r1 e1]. cbn [fst] in H1.
  set (n := round_nearest_even _ _). assert (Hn : 0 <= n) by (destruct (round_cases r1 H1) as [[_ Hx]|[_ Hx]]; fold n in Hx; lia).
  pose proof (shr_fexp_nonneg n e1 loc_Exact Hn) as H2.
  destruct (shr_fexp 53 1024 n e1 loc_Exact) as [r2 e2]. cbn [fst] in H2.
  destruct (shr_m r2); [done| |lia]. by case_match.
Qed.

Lemma round_sign sx m e : has_sign sx (binary_round 53 1024 sx m e).
Proof. unfold binary_round. destruct (shl_align _ _ _). by apply round_aux_sign. Qed.

Lemma align_le m e e' : e' <= e -> Zpos (shl_align m e e').1 = Zpos m * 2 ^ (e - e').
Proof.
  intros H. unfold shl_align. destruct (e' - e) as [|d|d] eqn:E; [|lia|]; cbn [fst].
  - replace (e - e') with 0 by lia. lia.
  - rewrite shl_pos. do 2 f_equal. lia.
Qed.

(** [max(1, x)] of a float: 1 or a positive float. *)
Definition step_ok (d : num) : Prop := match d with PInt z => z = 1 | PFloat f => has_sign false f end.

Lemma step_max f : step_ok (py_max (PInt 1) (PFloat f)).
Proof.
  unfold py_max, num_ltb. destruct (value_ltb _ _) eqn:E; [|done].
  destruct f as [s|s| |s m e]; cbn in E |- *; [done|by destruct s|done|]. destruct s; [|done].
  exfalso. apply Z.ltb_lt in E. cbn [cond_Zopp] in E.
  pose proof (Z.pow_pos_nonneg 2 (0 - Z.min 0 e) ltac:(lia) ltac:(lia)).
  pose proof (Z.pow_pos_nonneg 2 (e - Z.min 0 e) ltac:(lia) ltac:(lia)). nia.
Qed.

Section range.
Context (cap : Z) (Hcap : 0 <= cap < 2 ^ 53).

Definition in_range (t : num) : Prop := match t with PInt z => 0 <= z <= cap | PFloat f => small cap f end.

Lemma to_float_small t : in_range t -> small cap (to_float t).
Proof using Hcap.
  destruct t as [z|f]; [|done]. simpl. intros Hz. destruct z as [|p|p]; [done| |lia].
  apply round_small; [lia|]. apply (vle_at _ _ _ _ 0); lia.
Qed.

Lemma step_sign d : step_ok d -> has_sign false (to_float d).
Proof. destruct d as [z|f]; [|done]. simpl. intros ->. apply (round_sign false 1 0). Qed.

Lemma num_int_range {S} t (s : S) : in_range t -> exists z, num_int t s = (Ok z, s) /\ 0 <= z <= cap.
Proof using Hcap.
  unfold num_int. destruct t as [z|[sz|sz| |[] m e]]; cbn; try done.
  - intros Hz. exists (z * 1). split; [done|lia].
  - intros _. exists (0 * 1). split; [done|lia].
  - intros H. eexists. split; [done|].
    specialize (H (Z.max 0 (- e)) ltac:(lia) ltac:(lia)).
    destruct (Z.leb_spec 0 e) as [He|He].
    + rewrite Z.max_l in H by lia. rewrite !Z.add_0_r, Z.pow_0_r, Z.mul_1_r in H.
      pose proof (Z.pow_nonneg 2 e ltac:(lia)). lia.
    + rewrite Z.max_r in H by lia. replace (e + - e) with 0 in H by lia. rewrite Z.add_0_l, Z.pow_0_r, Z.mul_1_r in H.
      pose proof (Z.pow_pos_nonneg 2 (- e) ltac:(lia) ltac:(lia)).
      rewrite Z.quot_div_nonneg by lia. split; [apply Z.div_pos; lia|].
      apply Z.div_le_upper_bound; nia.
Qed.

Lemma in_range_bounds t : in_range t -> num_ltb t (PInt 0) = false /\ num_ltb (PInt cap) t = false.
Proof using Hcap.
  unfold num_ltb. destruct t as [z|[s|s| |[] m e]]; cbn [value_of in_range small]; try done; intros H.
  - split; apply value_ltb_vle, (vle_at _ _ _ _ 0); rewrite ?Z.pow_0_r; lia.
  - split; apply value_ltb_vle, (vle_at _ _ _ _ 0); rewrite ?Z.pow_0_r; lia.
  - split; [|by apply value_ltb_vle]. apply value_ltb_vle. intros k K1 K2. cbn [cond_Zopp].
    rewrite Z.mul_0_l. apply Z.mul_nonneg_nonneg; [lia|apply Z.pow_nonneg; lia].
Qed.

Lemma add_sign x y : small cap x -> has_sign false y -> has_sign false (SFadd 53 1024 x y).
Proof.
  destruct x as [sx|sx| |[] mx ex], y as [sy|sy| |sy my ey]; cbn; intros Hx; try done; intros ->; try done.
  - by destruct sx.
  - apply (round_sign false).
Qed.

(** [min(t + d, cap)] *)
Lemma grow_range t d : in_range t -> step_ok d -> in_range (py_min (num_add t d) (PInt cap)).
Proof using Hcap.
  intros Ht Hd. unfold py_min, num_ltb.
  assert (Hf : forall f, has_sign false f ->
    in_range (if value_ltb (VFin cap 0) (value_of (PFloat f)) then PInt cap else PFloat f)).
  { intros f Hs. destruct (value_ltb _ _) eqn:E; [simpl; lia|]. destruct f as [s|s| |s m e]; simpl in Hs; subst; try done.
    by apply value_ltb_vle in E. }
  destruct t as [z|f], d as [y|g]; cbn [num_add].
  - simpl in Ht, Hd. subst y. cbn [value_of]. destruct (value_ltb _ _) eqn:E; [simpl; lia|].
    apply value_ltb_vle in E. specialize (E 0 ltac:(lia) ltac:(lia)). rewrite Z.pow_0_r in E. simpl. lia.
  - apply Hf, add_sign; [by apply (to_float_small (PInt z))|done].
  - apply Hf, add_sign; [done|by apply (step_sign (PInt y))].
  - by apply Hf, add_sign.
Qed.

Lemma sub_cases x y : small cap x -> has_sign false y ->
  small cap (SFsub 53 1024 x y) \/ has_sign true (SFsub 53 1024 x y).
Proof using Hcap.
  destruct x as [sx|sx| |[] mx ex], y as [sy|sy| |sy my ey]; cbn; intros Hx; try done; intros ->; try (by left); try (by right); try (by left; destruct sx).
  - set (ez := Z.min ex ey). rewrite (align_le mx ex ez) by lia. set (b := (shl_align my ey ez).1).
    cbn [cond_Zopp]. destruct (Zpos mx * 2 ^ (ex - ez) - Zpos b) as [|p|p] eqn:E; [by left| |right; by apply round_sign].
    left. cbn [binary_normalize]. apply round_small; [lia|].
    apply (vle_at _ _ _ _ (Z.max 0 (- ez))); [lia..|].
    etrans; [|apply (Hx (Z.max 0 (- ez))); lia].
    set (k := Z.max 0 (- ez)). replace (ex + k) with (ex - ez + (ez + k)) by lia.
    rewrite (Z.pow_add_r 2 (ex - ez) (ez + k)), Z.mul_assoc by lia.
    apply Z.mul_le_mono_nonneg_r; [apply Z.pow_nonneg; lia|lia].
Qed.

(** [max(t - d, 0)] *)
Lemma shrink_range t d : in_range t -> step_ok d -> in_range (py_max (num_sub t d) (PInt 0)).
Proof using Hcap.
  intros Ht Hd. unfold py_max, num_ltb.
  assert (Hf : forall f, small cap f \/ has_sign true f ->
    in_range (if value_ltb (value_of (PFloat f)) (VFin 0 0) then PInt 0 else PFloat f)).
  { intros f Hs. destruct (value_ltb _ _) eqn:E; [simpl; lia|]. destruct Hs as [Hs|Hs]; [done|].
    destruct f as [s|s| |s m e]; simpl in Hs; subst; try done.
    exfalso. apply Z.ltb_ge in E. cbn [cond_Zopp] in E.
    pose proof (Z.pow_pos_nonneg 2 (e - Z.min e 0) ltac:(lia) ltac:(lia)). nia. }
  destruct t as [z|f], d as [y|g]; cbn [num_sub].
  - simpl in Ht, Hd. subst y. cbn [value_of]. destruct (value_ltb _ _) eqn:E; [simpl; lia|].
    apply value_ltb_vle in E. specialize (E 0 ltac:(lia) ltac:(lia)). rewrite Z.pow_0_r in E. simpl. lia.
  - apply Hf, sub_cases; [by apply (to_float_small (PInt z))|done].
  - apply Hf, sub_cases; [done|by apply (step_sign (PInt y))].
  - by apply Hf, sub_cases.
Qed.
End range.
End PyNum.
