(* ===== verification/OffloadPolicy.v ===== *)
(** * OffloadPolicy

    v1/kv_offload/cpu/policies: which offloaded blocks the CPU cache holds and
    which it gives up. [CachePolicy] is the interface of base.py, [CachePolicyLaws]
    what the offloading manager relies on; the LRU policy (lru.py) and the
    adaptive replacement cache (arc.py) are its two implementations. *)

From S2P Require Import Prelude OrderedDict PyNum.
From Stdlib Require Import Floats.SpecFloat.

Module OffloadPolicy.
Import OrderedDict PyNum.
#[local] Open Scope Z_scope.

(** ** [BlockStatus]

    A ctypes structure: [ref_cnt] is a [c_int32], [block_id] a [c_int64], and
    assignments wrap around. Each object is the value of one key, so that the
    objects are modelled as values and assignments update the entry. *)
Record BlockStatus := mkStatus { ref_cnt : Z; block_id : Z }.

Definition wrap (w z : Z) : Z := (z + 2 ^ (w - 1)) mod 2 ^ w - 2 ^ (w - 1).

Definition new_status (id : Z) : BlockStatus := mkStatus (-1) (wrap 64 id).
Definition is_ready (b : BlockStatus) : bool := 0 <=? ref_cnt b.
Definition set_ref_cnt (n : Z) (b : BlockStatus) : BlockStatus := mkStatus (wrap 32 n) (block_id b).

(** ** [CachePolicy]

    [assign] is an attribute assignment to the object a key is mapped to. *)
Class CachePolicy (P : Type) := {
  get_block : bytes -> P -> option BlockStatus;
  insert_block : bytes -> BlockStatus -> M P unit;
  remove_block : bytes -> M P unit;
  touch : list bytes -> M P unit;
  evict : Z -> gset bytes -> M P (option (list (bytes * BlockStatus)));
  clear : M P unit;
  assign : bytes -> (BlockStatus -> BlockStatus) -> P -> P
}.

Notation odict := (list (bytes * BlockStatus)).

(** [for key, block in d.items()]: may this entry be evicted? *)
Definition idle (protected : gset bytes) (kb : bytes * BlockStatus) : bool :=
  (ref_cnt kb.2 =? 0) && bool_decide (kb.1 ∉ protected).

Definition assign_in (k : bytes) (f : BlockStatus -> BlockStatus) (d : odict) : odict :=
  match od_get k d with Some b => od_set k (f b) d | None => d end.

(** ** [LRUCachePolicy] *)

Record LRUCachePolicy := mkLRU { blocks : odict }.

Definition LRU_init (cache_capacity : Z) : LRUCachePolicy := mkLRU [].
Definition on_blocks {A} (m : M odict A) : M LRUCachePolicy A := zoom blocks (fun d _ => mkLRU d) m.

Definition lru_touch (keys : list bytes) : M LRUCachePolicy unit :=
  for_each (fun key =>
    p ← get;
    if is_some (od_get key (blocks p)) then on_blocks (od_move_to_end key) else mret tt)
    (reverse keys).

(** The loop over the items that stops at [n] candidates. *)
Fixpoint lru_candidates (n : Z) (protected : gset bytes) (items candidates : odict) : odict :=
  match items with
  | [] => candidates
  | kb :: items' =>
      if idle protected kb then
        let candidates := candidates ++ [kb] in
        if zlen candidates =? n then candidates else lru_candidates n protected items' candidates
      else lru_candidates n protected items' candidates
  end.

Definition lru_evict (n : Z) (protected : gset bytes) : M LRUCachePolicy (option odict) :=
  if n =? 0 then mret (Some [])
  else
    p ← get;
    let candidates := lru_candidates n protected (blocks p) [] in
    if zlen candidates <? n then mret None
    else
      for_each (fun kb => on_blocks (od_del kb.1)) candidates ;;
      mret (Some candidates).

#[export] Instance LRU_policy : CachePolicy LRUCachePolicy := {
  get_block key p := od_get key (blocks p);
  insert_block key block := on_blocks (modify (od_set key block));
  remove_block key := on_blocks (od_del key);
  touch := lru_touch;
  evict := lru_evict;
  clear := modify (fun _ => mkLRU []);
  assign key f p := mkLRU (assign_in key f (blocks p))
}.

(** ** [ARCCachePolicy] *)

Record ARCCachePolicy := mkARC {
  cache_capacity : Z;
  target_t1_size : num;
  t1 : odict;
  t2 : odict;
  b1 : list (bytes * unit);
  b2 : list (bytes * unit)
}.

Definition ARC_init (cache_capacity : Z) : ARCCachePolicy :=
  mkARC cache_capacity (PFloat (S754_zero false)) [] [] [] [].

Definition set_target (t : num) (p : ARCCachePolicy) : ARCCachePolicy :=
  mkARC (cache_capacity p) t (t1 p) (t2 p) (b1 p) (b2 p).
Definition set_t1 (d : odict) (p : ARCCachePolicy) : ARCCachePolicy :=
  mkARC (cache_capacity p) (target_t1_size p) d (t2 p) (b1 p) (b2 p).
Definition set_t2 (d : odict) (p : ARCCachePolicy) : ARCCachePolicy :=
  mkARC (cache_capacity p) (target_t1_size p) (t1 p) d (b1 p) (b2 p).
Definition set_b1 (d : list (bytes * unit)) (p : ARCCachePolicy) : ARCCachePolicy :=
  mkARC (cache_capacity p) (target_t1_size p) (t1 p) (t2 p) d (b2 p).
Definition set_b2 (d : list (bytes * unit)) (p : ARCCachePolicy) : ARCCachePolicy :=
  mkARC (cache_capacity p) (target_t1_size p) (t1 p) (t2 p) (b1 p) d.

Definition on_t1 {A} (m : M odict A) : M ARCCachePolicy A := zoom t1 set_t1 m.
Definition on_t2 {A} (m : M odict A) : M ARCCachePolicy A := zoom t2 set_t2 m.
Definition on_b1 {A} (m : M (list (bytes * unit)) A) : M ARCCachePolicy A := zoom b1 set_b1 m.
Definition on_b2 {A} (m : M (list (bytes * unit)) A) : M ARCCachePolicy A := zoom b2 set_b2 m.

(** [self.t1.get(key) or self.t2.get(key)]: a ctypes structure is truthy. *)
Definition arc_get (key : bytes) (p : ARCCachePolicy) : option BlockStatus :=
  match od_get key (t1 p) with Some b => Some b | None => od_get key (t2 p) end.

Definition arc_insert (key : bytes) (block : BlockStatus) : M ARCCachePolicy unit :=
  on_t1 (modify (od_set key block)) ;;
  on_b1 (modify (od_remove key)) ;;
  on_b2 (modify (od_remove key)).

Definition arc_remove (key : bytes) : M ARCCachePolicy unit :=
  p ← get;
  if is_some (od_get key (t1 p)) then on_t1 (modify (od_remove key))
  else on_t2 (modify (od_remove key)).

(** One key of the loop of [touch]. *)
Definition arc_touch_one (key : bytes) : M ARCCachePolicy unit :=
  p ← get;
  match od_get key (t1 p) with
  | Some block =>
      on_t1 (modify (od_remove key)) ;;
      if negb (is_ready block) then on_t1 (modify (od_set key block))
      else on_t2 (modify (od_set key block))
  | None =>
      if is_some (od_get key (t2 p)) then on_t2 (od_move_to_end key)
      else if is_some (od_get key (b1 p)) then
        q ← true_div (zlen (b2 p)) (zlen (b1 p));
        let delta := py_max (PInt 1) q in
        modify (set_target (py_min (num_add (target_t1_size p) delta) (PInt (cache_capacity p)))) ;;
        on_b1 (od_move_to_end key)
      else if is_some (od_get key (b2 p)) then
        q ← true_div (zlen (b1 p)) (zlen (b2 p));
        let delta := py_max (PInt 1) q in
        modify (set_target (py_max (num_sub (target_t1_size p) delta) (PInt 0))) ;;
        on_b2 (od_move_to_end key)
      else mret tt
  end.

Definition arc_touch (keys : list bytes) : M ARCCachePolicy unit := for_each arc_touch_one (reverse keys).

(** The first entry that is idle and not yet selected. *)
Definition arc_candidate (protected already_selected : gset bytes) (d : odict) : option (bytes * BlockStatus) :=
  List.find (fun kb => idle protected kb && bool_decide (kb.1 ∉ already_selected)) d.

(** The selection loop: [n] rounds, the dictionaries are not modified. A
    selected entry comes with [from_t1]. *)
Fixpoint arc_select (n : nat) (protected : gset bytes) (p : ARCCachePolicy)
    (candidates : list (bytes * BlockStatus * bool)) (already_selected : gset bytes) (virtual_t1_size : Z)
    : M ARCCachePolicy (option (list (bytes * BlockStatus * bool))) :=
  match n with
  | O => mret (Some candidates)
  | S n' =>
      target ← num_int (target_t1_size p);
      let c1 := if target <=? virtual_t1_size then arc_candidate protected already_selected (t1 p) else None in
      match c1 with
      | Some kb =>
          arc_select n' protected p (candidates ++ [(kb, true)]) ({[kb.1]} ∪ already_selected) (virtual_t1_size - 1)
      | None =>
          match arc_candidate protected already_selected (t2 p) with
          | Some kb =>
              arc_select n' protected p (candidates ++ [(kb, false)]) ({[kb.1]} ∪ already_selected) virtual_t1_size
          | None => mret None
          end
      end
  end.

Definition arc_apply (c : bytes * BlockStatus * bool) : M ARCCachePolicy unit :=
  let key := c.1.1 in
  if c.2 then on_t1 (od_del key) ;; on_b1 (modify (od_set key tt))
  else on_t2 (od_del key) ;; on_b2 (modify (od_set key tt)).

(** [for _ in range(len(ghost) - self.cache_capacity): ghost.popitem(last=False)] *)
Definition trim_ghost (capacity : Z) : M (list (bytes * unit)) unit :=
  ghost ← get;
  for_each (fun _ => od_popitem_first ;; mret tt) (zrange (zlen ghost - capacity)).

Definition arc_evict (n : Z) (protected : gset bytes) : M ARCCachePolicy (option odict) :=
  if n =? 0 then mret (Some [])
  else
    p ← get;
    r ← arc_select (Z.to_nat n) protected p [] ∅ (zlen (t1 p));
    match r with
    | None => mret None
    | Some candidates =>
        for_each arc_apply candidates ;;
        on_b1 (trim_ghost (cache_capacity p)) ;;
        on_b2 (trim_ghost (cache_capacity p)) ;;
        mret (Some candidates.*1)
    end.

Definition arc_clear : M ARCCachePolicy unit :=
  modify (fun p => ARC_init (cache_capacity p)).

Definition arc_assign (key : bytes) (f : BlockStatus -> BlockStatus) (p : ARCCachePolicy) : ARCCachePolicy :=
  if is_some (od_get key (t1 p)) then set_t1 (assign_in key f (t1 p)) p else set_t2 (assign_in key f (t2 p)) p.

#[export] Instance ARC_policy : CachePolicy ARCCachePolicy := {
  get_block := arc_get;
  insert_block := arc_insert;
  remove_block := arc_remove;
  touch := arc_touch;
  evict := arc_evict;
  clear := arc_clear;
  assign := arc_assign
}.

(** ** Either policy, as [_CACHE_POLICIES] offers them *)

Inductive AnyPolicy := LRU (p : LRUCachePolicy) | ARC (p : ARCCachePolicy).

Definition any_op {A} (l : M LRUCachePolicy A) (a : M ARCCachePolicy A) : M AnyPolicy A := fun p =>
  match p with
  | LRU p => let r := l p in (r.1, LRU r.2)
  | ARC p => let r := a p in (r.1, ARC r.2)
  end.

#[export] Instance Any_policy : CachePolicy AnyPolicy := {
  get_block key p := match p with LRU p => get_block key p | ARC p => get_block key p end;
  insert_block key block := any_op (insert_block key block) (insert_block key block);
  remove_block key := any_op (remove_block key) (remove_block key);
  touch keys := any_op (touch keys) (touch keys);
  evict n protected := any_op (evict n protected) (evict n protected);
  clear := any_op clear clear;
  assign key f p := match p with LRU p => LRU (assign key f p) | ARC p => ARC (assign key f p) end
}.

(** [_CACHE_POLICIES.get(cache_policy)] *)
Definition make_policy (cache_policy : string) (capacity : Z) : result AnyPolicy :=
  if String.eqb cache_policy "lru" then Ok (LRU (LRU_init capacity))
  else if String.eqb cache_policy "arc" then Ok (ARC (ARC_init capacity))
  else Err ValueError.

(** ** What the manager relies on *)

(** The outcome of [evict]: [n] distinct idle unprotected blocks leave, or
    nothing changes. *)
Definition evicted (n : Z) (protected : gset bytes) (c : gmap bytes BlockStatus) (r : option odict)
    (c' : gmap bytes BlockStatus) : Prop :=
  match r with
  | None => c' = c
  | Some l =>
      zlen l = n /\ NoDup l.*1 /\
      (forall k b, (k, b) ∈ l -> c !! k = Some b /\ ref_cnt b = 0 /\ k ∉ protected) /\
      (forall k, c' !! k = if decide (k ∈ l.*1) then None else c !! k)
  end.

Class CachePolicyLaws (P : Type) `{CachePolicy P} := {
  policy_ok : P -> Prop;
  contents : P -> gmap bytes BlockStatus;
  get_ok p k : policy_ok p -> get_block k p = contents p !! k;
  insert_ok p k b : policy_ok p -> contents p !! k = None ->
    wp (insert_block k b) (fun _ p' => policy_ok p' /\ contents p' = <[k := b]> (contents p)) p;
  remove_ok p k : policy_ok p -> is_Some (contents p !! k) ->
    wp (remove_block k) (fun _ p' => policy_ok p' /\ contents p' = delete k (contents p)) p;
  touch_ok p ks : policy_ok p -> wp (touch ks) (fun _ p' => policy_ok p' /\ contents p' = contents p) p;
  evict_ok p n protected : policy_ok p -> 0 <= n ->
    wp (evict n protected) (fun r p' => policy_ok p' /\ evicted n protected (contents p) r (contents p') /\
                                        (r = None -> p' = p)) p;
  clear_ok p : policy_ok p -> wp clear (fun _ p' => policy_ok p' /\ contents p' = ∅) p;
  assign_ok p k f : policy_ok p ->
    policy_ok (assign k f p) /\ contents (assign k f p) = alter f k (contents p)
}.

(** ** Entries *)

Lemma assign_in_keys k f d : (assign_in k f d).*1 = d.*1.
Proof. unfold assign_in. destruct (od_get k d) eqn:E; [|done]. apply od_set_keys. by eapply od_get_in. Qed.

Lemma assign_in_map k f d : list_to_map (assign_in k f d) = alter f k (list_to_map d) :> gmap bytes BlockStatus.
Proof.
  unfold assign_in. rewrite od_get_map. set (m := list_to_map d : gmap bytes BlockStatus).
  apply map_eq. intros i. destruct (m !! k) as [b|] eqn:E.
  - rewrite od_set_map. fold m. destruct (decide (i = k)) as [->|].
    + by rewrite lookup_insert_eq, lookup_alter_eq, E.
    + by rewrite lookup_insert_ne, lookup_alter_ne.
  - fold m. destruct (decide (i = k)) as [->|]; [by rewrite lookup_alter_eq, E|by rewrite lookup_alter_ne].
Qed.

Lemma wp_od_del k (d : odict) (Q : unit -> odict -> Prop) : k ∈ d.*1 -> Q tt (od_remove k d) -> wp (od_del k) Q d.
Proof.
  intros Hk HQ. unfold od_del. wp_steps. destruct (od_get k d) eqn:E; [by wp_steps|by apply od_get_none in E].
Qed.

Lemma wp_od_move {V} k v (d : list (bytes * V)) (Q : unit -> _ -> Prop) :
  od_get k d = Some v -> Q tt (od_remove k d ++ [(k, v)]) -> wp (od_move_to_end k) Q d.
Proof. intros E HQ. unfold od_move_to_end. wp_steps. rewrite E. by wp_steps. Qed.

(** Deleting the entries of a list one by one. *)
Lemma delete_all_lookup (l : odict) (m : gmap bytes BlockStatus) k :
  foldl (fun m kb => delete kb.1 m) m l !! k = if decide (k ∈ l.*1) then None else m !! k.
Proof.
  revert m. induction l as [|[k' b] l IH]; intros m; [by rewrite decide_False by set_solver|].
  cbn [foldl fst]. rewrite IH. simpl. destruct (decide (k ∈ l.*1)).
  - by rewrite decide_True by set_solver.
  - destruct (decide (k = k')) as [->|]; [rewrite decide_True by set_solver; apply lookup_delete_eq|].
    rewrite decide_False by set_solver. by apply lookup_delete_ne.
Qed.

Lemma idle_spec protected kb : idle protected kb = true <-> ref_cnt kb.2 = 0 /\ kb.1 ∉ protected.
Proof. unfold idle. by rewrite andb_true_iff, Z.eqb_eq, bool_decide_eq_true. Qed.

(** [wp_steps] that also enters the dictionaries of a policy. *)
Ltac pol_steps :=
  repeat first
    [ wp_step; cbn beta
    | lazymatch goal with
      | |- wp (on_blocks _) _ _ => unfold on_blocks at 1
      | |- wp (on_t1 _) _ _ => unfold on_t1 at 1
      | |- wp (on_t2 _) _ _ => unfold on_t2 at 1
      | |- wp (on_b1 _) _ _ => unfold on_b1 at 1
      | |- wp (on_b2 _) _ _ => unfold on_b2 at 1
      end ].

(** ** LRU *)

Definition lru_ok (p : LRUCachePolicy) : Prop := NoDup (blocks p).*1.
Definition lru_contents (p : LRUCachePolicy) : gmap bytes BlockStatus := list_to_map (blocks p).

(** The candidates are the oldest idle entries. *)
Lemma lru_candidates_spec n protected items : forall cs, 0 <= zlen cs < n ->
  lru_candidates n protected items cs = cs ++ take (Z.to_nat n - length cs) (List.filter (idle protected) items).
Proof.
  induction items as [|kb items IH]; intros cs Hcs; [simpl; by rewrite take_nil, app_nil_r|].
  cbn [lru_candidates List.filter]. destruct (idle protected kb); [|by apply IH].
  destruct (Z.eqb_spec (zlen (cs ++ [kb])) n) as [E|E]; rewrite length_app in E; simpl in E.
  - replace (Z.to_nat n - length cs)%nat with 1%nat by lia. simpl. by rewrite take_0.
  - rewrite IH by (rewrite length_app; simpl; lia). rewrite <- app_assoc, length_app. simpl.
    f_equal. replace (Z.to_nat n - length cs)%nat with (S (Z.to_nat n - (length cs + 1))) by lia. done.
Qed.

Lemma lru_delete_all p l : lru_ok p -> l `sublist_of` blocks p ->
  wp (for_each (fun kb => on_blocks (od_del kb.1)) l)
     (fun _ p' => lru_ok p' /\ blocks p' `sublist_of` blocks p /\
        lru_contents p' = foldl (fun m kb => delete kb.1 m) (lru_contents p) l) p.
Proof.
  unfold lru_ok, lru_contents. intros Hn Hsub.
  assert (Hl : NoDup l.*1) by (eapply sublist_NoDup; [exact Hn|by apply fmap_sublist]).
  assert (Hin : forall k, k ∈ l.*1 -> k ∈ (blocks p).*1).
  { intros k Hk. eapply elem_of_sublist; [exact Hk|by apply fmap_sublist]. }
  clear Hsub. revert p Hn Hin. induction l as [|kb l IH]; intros p Hn Hin; cbn [for_each]; [by wp_steps|].
  rewrite fmap_cons in Hl, Hin. apply NoDup_cons in Hl as [Hkb Hl]. pol_steps.
  apply wp_od_del; [apply Hin; set_solver|].
  eapply wp_mono; [apply IH; [done|by apply od_remove_nodup|]|].
  - intros k Hk. simpl. apply od_remove_keys. split; [apply Hin; set_solver|]. by intros ->.
  - intros [] p' (H1 & H2 & H3). split; [done|]. cbn [blocks] in H2. split; [etrans; [exact H2|apply od_remove_sublist]|].
    rewrite H3. cbn [blocks foldl]. by rewrite od_remove_map.
Qed.

Lemma lru_touch_ok p ks : lru_ok p -> wp (lru_touch ks) (fun _ p' => lru_ok p' /\ lru_contents p' = lru_contents p) p.
Proof.
  intros Hok. unfold lru_touch.
  apply (wp_for_each (fun _ _ p' => lru_ok p' /\ lru_contents p' = lru_contents p)); [done|].
  intros _ k _ p' _ [Hok' Hc]. wp_steps. destruct (od_get k (blocks p')) as [b|] eqn:E; cbn [is_some]; [|by wp_steps].
  pol_steps. apply (wp_od_move k b); [done|]. split; [by apply od_move_nodup|].
  rewrite <- Hc. unfold lru_contents. cbn [blocks]. by apply od_move_map.
Qed.

Lemma filter_sub {A} (f : A -> bool) (l : list A) : List.filter f l `sublist_of` l.
Proof. induction l as [|x l IH]; simpl; [done|]. destruct (f x); by constructor. Qed.

(** [evict] of the LRU policy: the [n] oldest idle blocks, if there are that
    many. *)
Lemma lru_evict_spec p n protected : lru_ok p -> 0 <= n ->
  let able := List.filter (idle protected) (blocks p) in
  wp (lru_evict n protected) (fun r p' =>
    lru_ok p' /\ (r = None -> p' = p /\ zlen able < n) /\
    (forall l, r = Some l -> l = take (Z.to_nat n) able /\ n <= zlen able /\ blocks p' `sublist_of` blocks p /\
       lru_contents p' = foldl (fun m kb => delete kb.1 m) (lru_contents p) l)) p.
Proof.
  intros Hok Hn able. unfold lru_evict. destruct (Z.eqb_spec n 0) as [->|Hz].
  { wp_steps. split; [done|]. split; [done|]. intros l [= <-]. rewrite take_0. split; [done|]. split; [lia|done]. }
  wp_steps. rewrite (lru_candidates_spec n protected (blocks p) []) by (simpl; lia).
  rewrite Nat.sub_0_r. cbn [app]. fold able.
  destruct (Z.ltb_spec (zlen (take (Z.to_nat n) able)) n) as [Hlt|Hge].
  - rewrite length_take in Hlt. wp_steps. split; [done|]. split; [|done]. intros _. split; [done|lia].
  - rewrite length_take in Hge. wp_steps. eapply wp_mono.
    + apply lru_delete_all; [done|]. etrans; [apply sublist_take|apply filter_sub].
    + intros [] p' (H1 & H2 & H3). wp_steps. split; [done|]. split; [done|]. intros l [= <-].
      split; [done|]. split; [lia|done].
Qed.

Lemma in_filter {A} (f : A -> bool) l x : x ∈ List.filter f l <-> x ∈ l /\ f x = true.
Proof. rewrite !list_elem_of_In. apply List.filter_In. Qed.

Lemma lru_evict_ok p n protected : lru_ok p -> 0 <= n ->
  wp (lru_evict n protected) (fun r p' => lru_ok p' /\ evicted n protected (lru_contents p) r (lru_contents p') /\
                                          (r = None -> p' = p)) p.
Proof.
  intros Hok Hn. eapply wp_mono; [by apply lru_evict_spec|]. cbn beta zeta.
  intros r p' (H1 & H2 & H3). split; [done|]. split; [|by intros Hr; apply H2].
  destruct r as [l|]; [|by destruct (H2 eq_refl) as [-> _]].
  destruct (H3 l eq_refl) as (Hl & Hlen & _ & Hc).
  assert (Hsub : l `sublist_of` blocks p).
  { rewrite Hl. etrans; [apply sublist_take|apply filter_sub]. }
  split; [rewrite Hl, length_take; lia|]. split; [eapply sublist_NoDup; [exact Hok|by apply fmap_sublist]|]. split.
  - intros k b Hin. pose proof Hin as Hin'. rewrite Hl in Hin'.
    assert (Hf : (k, b) ∈ List.filter (idle protected) (blocks p)).
    { eapply elem_of_sublist; [exact Hin'|apply sublist_take]. }
    apply in_filter in Hf as [Hb Hi]. apply idle_spec in Hi as [Hr Hp].
    split; [|done]. unfold lru_contents. rewrite <- od_get_map. by apply od_get_elem.
  - intros k. rewrite Hc. apply delete_all_lookup.
Qed.

#[export] Program Instance LRU_laws : CachePolicyLaws LRUCachePolicy :=
  {| policy_ok := lru_ok; contents := lru_contents |}.
Next Obligation. intros p k _. apply od_get_map. Qed.
Next Obligation.
  intros p k b Hok _. simpl. pol_steps. split; [by apply od_set_nodup|apply od_set_map].
Qed.
Next Obligation.
  intros p k Hok [b Hb]. simpl. pol_steps. unfold lru_contents in Hb. rewrite <- od_get_map in Hb.
  apply wp_od_del; [by eapply od_get_in|]. split; [by apply od_remove_nodup|apply od_remove_map].
Qed.
Next Obligation. intros. by apply lru_touch_ok. Qed.
Next Obligation. intros. by apply lru_evict_ok. Qed.
Next Obligation. intros p _. simpl. wp_steps. split; [constructor|done]. Qed.
Next Obligation.
  intros p k f Hok. simpl. split; [|apply assign_in_map]. unfold lru_ok. cbn [blocks]. by rewrite assign_in_keys.
Qed.

(** ** ARC *)

(** The four dictionaries have no key in common; the ghosts and the target
    stay within the capacity. *)
Record arc_shape (p : ARCCachePolicy) : Prop := {
  as_cap : 0 <= cache_capacity p < 2 ^ 53;
  as_t1 : NoDup (t1 p).*1;
  as_t2 : NoDup (t2 p).*1;
  as_b1 : NoDup (b1 p).*1;
  as_b2 : NoDup (b2 p).*1;
  as_t : (t1 p).*1 ## (t2 p).*1;
  as_tb1 : (t1 p).*1 ++ (t2 p).*1 ## (b1 p).*1;
  as_tb2 : (t1 p).*1 ++ (t2 p).*1 ## (b2 p).*1;
  as_b : (b1 p).*1 ## (b2 p).*1;
  as_target : in_range (cache_capacity p) (target_t1_size p)
}.

Record arc_ok (p : ARCCachePolicy) : Prop := {
  ao_shape : arc_shape p;
  ao_b1 : zlen (b1 p) <= cache_capacity p;
  ao_b2 : zlen (b2 p) <= cache_capacity p
}.

Definition arc_contents (p : ARCCachePolicy) : gmap bytes BlockStatus := list_to_map (t1 p) ∪ list_to_map (t2 p).

Lemma arc_get_contents p k : arc_get k p = arc_contents p !! k.
Proof. unfold arc_get, arc_contents. rewrite !od_get_map, lookup_union. by destruct (list_to_map (t1 p) !! k), (list_to_map (t2 p) !! k). Qed.

Lemma arc_contents_none p k : arc_contents p !! k = None <-> k ∉ (t1 p).*1 /\ k ∉ (t2 p).*1.
Proof. unfold arc_contents. by rewrite lookup_union_None, <- !not_elem_of_list_to_map. Qed.

Lemma od_remove_incl {V} k (d : list (bytes * V)) : (od_remove k d).*1 ⊆ d.*1.
Proof. intros x Hx. by apply od_remove_keys in Hx as [? _]. Qed.

Lemma in_od_remove {V} k (d : list (bytes * V)) : k ∉ (od_remove k d).*1.
Proof. intros Hx. by apply od_remove_keys in Hx as [_ ?]. Qed.

Lemma od_set_new_keys {V} k v (d : list (bytes * V)) : k ∉ d.*1 -> (od_set k v d).*1 = d.*1 ++ [k].
Proof. intros H. by rewrite od_set_new, fmap_app. Qed.

Lemma od_move_keys {V} k v (d : list (bytes * V)) : od_get k d = Some v ->
  forall x, x ∈ (od_remove k d ++ [(k, v)]).*1 <-> x ∈ d.*1.
Proof. intros H x. rewrite od_move_elem. apply od_get_in in H. set_solver. Qed.

Lemma arc_insert_ok p k b : arc_ok p -> arc_contents p !! k = None ->
  wp (arc_insert k b) (fun _ p' => arc_ok p' /\ arc_contents p' = <[k := b]> (arc_contents p)) p.
Proof.
  intros [S L1 L2] [Hk1 Hk2]%arc_contents_none. unfold arc_insert. pol_steps. split; [split|].
  - pose proof (od_remove_incl k (b1 p)). pose proof (od_remove_incl k (b2 p)).
    pose proof (in_od_remove k (b1 p)). pose proof (in_od_remove k (b2 p)).
    destruct S. split; cbn [cache_capacity target_t1_size t1 t2 b1 b2 set_t1 set_b1 set_b2]; try done.
    1: by apply od_set_nodup.
    1,2: by apply od_remove_nodup.
    all: rewrite ?od_set_new_keys by done; set_solver.
  - cbn. etrans; [|exact L1]. apply inj_le, sublist_length, od_remove_sublist.
  - cbn. etrans; [|exact L2]. apply inj_le, sublist_length, od_remove_sublist.
  - unfold arc_contents. cbn. rewrite od_set_map. by rewrite insert_union_l.
Qed.

(** Disjointness of key lists, one key at a time. *)
Ltac disjoint_keys k :=
  let x := fresh "x" in
  intros x;
  repeat match goal with
  | H : _ ## _ |- _ => specialize (H x)
  | H : _ ⊆ _ |- _ => clear H
  end;
  rewrite ?elem_of_app, ?list_elem_of_singleton, ?od_remove_keys in *;
  destruct (decide (x = k)) as [->|]; tauto.

Ltac arc_fields := cbn [cache_capacity target_t1_size t1 t2 b1 b2 set_target set_t1 set_t2 set_b1 set_b2] in *.

Lemma arc_remove_ok p k : arc_ok p -> is_Some (arc_contents p !! k) ->
  wp (arc_remove k) (fun _ p' => arc_ok p' /\ arc_contents p' = delete k (arc_contents p)) p.
Proof.
  intros [S L1 L2] Hk. unfold arc_remove. wp_steps. unfold arc_contents. rewrite delete_union.
  pose proof (od_remove_incl k (t1 p)). pose proof (od_remove_incl k (t2 p)).
  destruct (od_get k (t1 p)) as [b|] eqn:E; cbn [is_some]; pol_steps.
  - apply od_get_in in E as Hin. split; [split; [|done|done]|].
    + destruct S. split; arc_fields; try done; [by apply od_remove_nodup|set_solver..].
    + arc_fields. rewrite od_remove_map. f_equal. symmetry. apply delete_id.
      apply not_elem_of_list_to_map. destruct S. set_solver.
  - apply od_get_none in E as Hin. split; [split; [|done|done]|].
    + destruct S. split; arc_fields; try done; [by apply od_remove_nodup|set_solver..].
    + arc_fields. rewrite od_remove_map. f_equal. symmetry. apply delete_id. by apply not_elem_of_list_to_map.
Qed.

(** A ghost list after a hit. *)
Lemma ghost_move {V} k v (d : list (bytes * V)) : NoDup d.*1 -> od_get k d = Some v ->
  NoDup (od_remove k d ++ [(k, v)]).*1 /\ (forall x, x ∈ (od_remove k d ++ [(k, v)]).*1 <-> x ∈ d.*1) /\
  length (od_remove k d ++ [(k, v)]) = length d.
Proof.
  intros Hn Hg. split; [by apply od_move_nodup|]. split; [by apply od_move_keys|].
  rewrite length_app, (od_remove_length k v d Hn Hg). simpl. lia.
Qed.

(** Moving keys within their dictionaries. *)
Lemma arc_shape_same p p' : arc_shape p -> cache_capacity p' = cache_capacity p ->
  in_range (cache_capacity p) (target_t1_size p') ->
  NoDup (t1 p').*1 -> NoDup (t2 p').*1 -> NoDup (b1 p').*1 -> NoDup (b2 p').*1 ->
  (forall x, x ∈ (t1 p').*1 <-> x ∈ (t1 p).*1) -> (forall x, x ∈ (t2 p').*1 <-> x ∈ (t2 p).*1) ->
  (forall x, x ∈ (b1 p').*1 <-> x ∈ (b1 p).*1) -> (forall x, x ∈ (b2 p').*1 <-> x ∈ (b2 p).*1) -> arc_shape p'.
Proof.
  intros [] Ec Hr N1 N2 N3 N4 I1 I2 I3 I4. split; rewrite ?Ec; try done; intros x;
    repeat match goal with H : _ ## _ |- _ => specialize (H x) end;
    rewrite ?elem_of_app, ?I1, ?I2, ?I3, ?I4 in *; tauto.
Qed.

Lemma wp_true_div {S} (a b : Z) (Q : num -> S -> Prop) s :
  b <> 0 -> (forall f, Q (PFloat f) s) -> wp (true_div a b) Q s.
Proof. intros Hb HQ. unfold true_div. rewrite (proj2 (Z.eqb_neq _ _)) by done. wp_steps. apply HQ. Qed.

Lemma arc_touch_one_ok p k : arc_ok p -> wp (arc_touch_one k) (fun _ p' => arc_ok p' /\ arc_contents p' = arc_contents p) p.
Proof.
  intros [S L1 L2]. unfold arc_touch_one. wp_steps.
  destruct (od_get k (t1 p)) as [b|] eqn:E1.
  { pose proof (od_get_in _ _ _ E1). pose proof (od_remove_incl k (t1 p)). pose proof (in_od_remove k (t1 p)).
    destruct (is_ready b); cbn [negb]; pol_steps; arc_fields.
    - assert (k ∉ (t2 p).*1) by (destruct S; set_solver). split; [split; [|done|done]|].
      + destruct S; split; arc_fields; try done; [by apply od_remove_nodup|by apply od_set_nodup|..];
          rewrite ?od_set_new_keys by done; disjoint_keys k.
      + unfold arc_contents; arc_fields. rewrite od_remove_map, od_set_map.
        rewrite od_get_map in E1. apply map_eq. intros i. rewrite !lookup_union.
        destruct (decide (i = k)) as [->|].
        * rewrite lookup_delete_eq, lookup_insert_eq, E1.
          by rewrite (proj1 (not_elem_of_list_to_map (t2 p) k)).
        * by rewrite lookup_delete_ne, lookup_insert_ne by done.
    - rewrite od_set_new by done. destruct (ghost_move k b (t1 p) (as_t1 _ S) E1) as (N & I & _). split; [split; [|done|done]|].
      + by eapply (arc_shape_same p); try apply S.
      + unfold arc_contents; arc_fields. by rewrite od_move_map. }
  destruct (od_get k (t2 p)) as [b|] eqn:E2; cbn [is_some].
  { pol_steps. apply (wp_od_move k b); [done|]. destruct (ghost_move k b (t2 p) (as_t2 _ S) E2) as (N & I & _).
    split; [split; [|done|done]|].
    + by eapply (arc_shape_same p); try apply S.
    + unfold arc_contents; arc_fields. by rewrite od_move_map. }
  destruct (od_get k (b1 p)) as [u|] eqn:E3; cbn [is_some].
  { wp_steps. destruct (ghost_move k u (b1 p) (as_b1 _ S) E3) as (N & I & Hlen).
    apply wp_true_div; [destruct (b1 p); simpl in *; [done|lia]|]. intros f. pol_steps. apply (wp_od_move k u); [done|].
    split; [split|done].
    + eapply (arc_shape_same p); try apply S; try done. apply grow_range; [apply S..|apply step_max].
    + arc_fields. by rewrite Hlen.
    + done. }
  destruct (od_get k (b2 p)) as [u|] eqn:E4; cbn [is_some]; [|by wp_steps].
  wp_steps. destruct (ghost_move k u (b2 p) (as_b2 _ S) E4) as (N & I & Hlen).
  apply wp_true_div; [destruct (b2 p); simpl in *; [done|lia]|]. intros f. pol_steps. apply (wp_od_move k u); [done|].
  split; [split|done].
  + eapply (arc_shape_same p); try apply S; try done. apply shrink_range; [apply S..|apply step_max].
  + done.
  + arc_fields. by rewrite Hlen.
Qed.

Lemma arc_touch_ok p ks : arc_ok p -> wp (arc_touch ks) (fun _ p' => arc_ok p' /\ arc_contents p' = arc_contents p) p.
Proof.
  intros Hok. apply (wp_for_each (fun _ _ p' => arc_ok p' /\ arc_contents p' = arc_contents p)); [done|].
  intros _ k _ p' _ [Hok' <-]. by apply arc_touch_one_ok.
Qed.

(** What a selection of candidates is. *)
Record selection (protected : gset bytes) (p : ARCCachePolicy) (cs : list (bytes * BlockStatus * bool)) : Prop := {
  se_nodup : NoDup cs.*1.*1;
  se_in (c : bytes * BlockStatus * bool) : c ∈ cs -> c.1 ∈ (if c.2 then t1 p else t2 p) /\ idle protected c.1 = true
}.

Lemma arc_candidate_spec protected sel d kb : arc_candidate protected sel d = Some kb ->
  kb ∈ d /\ idle protected kb = true /\ kb.1 ∉ sel.
Proof.
  intros [Hin Hb]%List.find_some. apply andb_true_iff in Hb as [Hi Hs%bool_decide_eq_true].
  by rewrite list_elem_of_In.
Qed.

Lemma selection_snoc protected p cs kb (from_t1 : bool) : selection protected p cs ->
  kb ∈ (if from_t1 then t1 p else t2 p) -> idle protected kb = true -> kb.1 ∉ cs.*1.*1 ->
  selection protected p (cs ++ [(kb, from_t1)]).
Proof.
  intros [Hn Hin] Hd Hi Hs. split.
  - rewrite !fmap_app. simpl. apply NoDup_app. split; [done|]. split; [set_solver|apply NoDup_singleton].
  - intros c [Hc|Hc%list_elem_of_singleton]%elem_of_app; [by apply Hin|]. by subst.
Qed.

Lemma arc_select_ok n protected p : in_range (cache_capacity p) (target_t1_size p) -> 0 <= cache_capacity p < 2 ^ 53 ->
  forall cs (sel : gset bytes) vsize s, selection protected p cs -> sel = list_to_set cs.*1.*1 ->
  wp (arc_select n protected p cs sel vsize) (fun r s' => s' = s /\
    forall cs', r = Some cs' -> selection protected p cs' /\ length cs' = (length cs + n)%nat) s.
Proof.
  intros Hr Hcap. induction n as [|n IH]; intros cs sel vsize s Hs ->; cbn [arc_select].
  { wp_steps. split; [done|]. intros cs' [= <-]. split; [done|lia]. }
  assert (Hgo : forall kb (from_t1 : bool) vs, kb ∈ (if (from_t1 : bool) then t1 p else t2 p) -> idle protected kb = true ->
    kb.1 ∉ (list_to_set cs.*1.*1 : gset bytes) ->
    wp (arc_select n protected p (cs ++ [(kb, from_t1)]) ({[kb.1]} ∪ list_to_set cs.*1.*1) vs)
      (fun r s' => s' = s /\ forall cs', r = Some cs' -> selection protected p cs' /\ length cs' = (length cs + S n)%nat) s).
  { intros kb from_t1 vs Hd Hi Hn. eapply wp_mono.
    - apply IH; [apply selection_snoc; [done..|set_solver]|]. rewrite !fmap_app. simpl. set_solver.
    - intros r s' [-> H]. split; [done|]. intros cs' E. destruct (H cs' E) as [H1 H2]. split; [done|].
      rewrite length_app in H2. simpl in H2. lia. }
  apply wp_bind. destruct (num_int_range (cache_capacity p) Hcap (target_t1_size p) s Hr) as (z & Hz & _).
  unfold wp at 1. rewrite Hz.
  destruct (if z <=? vsize then _ else _) as [kb|] eqn:E1.
  { destruct (z <=? vsize); [|done]. apply arc_candidate_spec in E1 as (Hd & Hi & Hn). by apply (Hgo kb true). }
  destruct (arc_candidate protected _ (t2 p)) as [kb|] eqn:E2.
  { apply arc_candidate_spec in E2 as (Hd & Hi & Hn). by apply (Hgo kb false). }
  wp_steps. split; [done|]. by intros.
Qed.

Lemma arc_apply_one p (c : bytes * BlockStatus * bool) : arc_shape p -> c.1.1 ∈ (if c.2 then t1 p else t2 p).*1 ->
  wp (arc_apply c) (fun _ p' => arc_shape p' /\ arc_contents p' = delete c.1.1 (arc_contents p) /\
    cache_capacity p' = cache_capacity p /\
    t1 p' = (if c.2 then od_remove c.1.1 (t1 p) else t1 p) /\
    t2 p' = (if c.2 then t2 p else od_remove c.1.1 (t2 p))) p.
Proof.
  intros S Hk. unfold arc_apply. set (k := c.1.1) in *. destruct c.2; pol_steps.
  - apply wp_od_del; [done|]. pol_steps. arc_fields.
    pose proof (od_remove_incl k (t1 p)). pose proof (in_od_remove k (t1 p)).
    assert (k ∉ (t2 p).*1 /\ k ∉ (b1 p).*1 /\ k ∉ (b2 p).*1) as (? & ? & ?) by (destruct S; set_solver).
    split.
    + destruct S; split; arc_fields; try done; [by apply od_remove_nodup|by apply od_set_nodup|..];
        rewrite ?od_set_new_keys by done; disjoint_keys k.
    + split; [|done]. unfold arc_contents; arc_fields. rewrite od_remove_map, delete_union. f_equal.
      symmetry. apply delete_id. by apply not_elem_of_list_to_map.
  - apply wp_od_del; [done|]. pol_steps. arc_fields.
    pose proof (od_remove_incl k (t2 p)). pose proof (in_od_remove k (t2 p)).
    assert (k ∉ (t1 p).*1 /\ k ∉ (b1 p).*1 /\ k ∉ (b2 p).*1) as (? & ? & ?) by (destruct S; set_solver).
    split.
    + destruct S; split; arc_fields; try done; [by apply od_remove_nodup|by apply od_set_nodup|..];
        rewrite ?od_set_new_keys by done; disjoint_keys k.
    + split; [|done]. unfold arc_contents; arc_fields. rewrite od_remove_map, delete_union. f_equal.
      symmetry. apply delete_id. by apply not_elem_of_list_to_map.
Qed.

Lemma arc_apply_all p (cs : list (bytes * BlockStatus * bool)) : arc_shape p -> NoDup cs.*1.*1 ->
  (forall (c : bytes * BlockStatus * bool), c ∈ cs -> c.1.1 ∈ (if c.2 then t1 p else t2 p).*1) ->
  wp (for_each arc_apply cs) (fun _ p' => arc_shape p' /\ cache_capacity p' = cache_capacity p /\
    arc_contents p' = foldl (fun m kb => delete kb.1 m) (arc_contents p) cs.*1) p.
Proof.
  revert p. induction cs as [|c cs IH]; intros p S Hn Hin; cbn [for_each]; [by wp_steps|].
  rewrite !fmap_cons in Hn. apply NoDup_cons in Hn as [Hc Hn].
  wp_steps. eapply wp_mono; [apply arc_apply_one; [done|apply Hin; set_solver]|].
  intros [] p1 (S1 & Hc1 & Hcap1 & Ht1 & Ht2). eapply wp_mono; [apply IH; [done..|]|].
  - intros c' Hc'. specialize (Hin c' ltac:(set_solver)).
    assert (c'.1.1 <> c.1.1).
    { intros E. apply Hc. rewrite <- E. apply list_elem_of_fmap. exists c'.1. split; [done|].
      apply list_elem_of_fmap. by exists c'. }
    destruct c'.2; [rewrite Ht1|rewrite Ht2]; destruct c.2; rewrite ?od_remove_keys; auto.
  - intros [] p2 (S2 & Hcap2 & Hc2). split; [done|]. split; [congruence|].
    rewrite Hc2, Hc1. done.
Qed.

Lemma trim_ghost_ok cap (d : list (bytes * unit)) : 0 <= cap ->
  wp (trim_ghost cap) (fun _ d' => d' `sublist_of` d /\ zlen d' <= cap) d.
Proof.
  intros Hcap. unfold trim_ghost. wp_steps.
  assert (Hlen : length (zrange (zlen d - cap)) = Z.to_nat (zlen d - cap)).
  { unfold zrange. by rewrite length_fmap, length_seq. }
  eapply wp_mono.
  - apply (wp_for_each (fun l1 l2 d' => d' = drop (length l1) d)); [by rewrite drop_0|].
    intros l1 z l2 d' Hl ->. unfold od_popitem_first. wp_steps.
    assert (length l1 < length d)%nat by (rewrite Hl, length_app in Hlen; simpl in Hlen; lia).
    destruct (drop (length l1) d) as [|kv d'] eqn:E; [apply (f_equal length) in E; rewrite length_drop in E; simpl in E; lia|].
    wp_steps. rewrite length_app, <- drop_drop, E. done.
  - intros [] d' ->. split; [apply sublist_drop|]. rewrite length_drop, Hlen. lia.
Qed.

Lemma arc_shape_ghosts p d1 d2 : arc_shape p -> d1 `sublist_of` b1 p -> d2 `sublist_of` b2 p ->
  arc_shape (set_b2 d2 (set_b1 d1 p)).
Proof.
  intros [] H1%(fmap_sublist fst) H2%(fmap_sublist fst).
  assert (d1.*1 ⊆ (b1 p).*1) by (intros x Hx; by eapply elem_of_sublist).
  assert (d2.*1 ⊆ (b2 p).*1) by (intros x Hx; by eapply elem_of_sublist).
  split; arc_fields; try done; [by eapply sublist_NoDup; [|exact H1]|by eapply sublist_NoDup; [|exact H2]|set_solver..].
Qed.

Lemma arc_evict_ok p n protected : arc_ok p -> 0 <= n ->
  wp (arc_evict n protected) (fun r p' => arc_ok p' /\ evicted n protected (arc_contents p) r (arc_contents p') /\
                                          (r = None -> p' = p)) p.
Proof.
  intros Hok Hn. pose proof Hok as [S L1 L2]. unfold arc_evict. destruct (Z.eqb_spec n 0) as [->|Hz].
  { wp_steps. split; [done|]. split; [|done]. split; [done|]. split; [constructor|]. split; [set_solver|done]. }
  wp_steps. eapply wp_mono.
  { apply (arc_select_ok (Z.to_nat n) protected p (as_target _ S) (as_cap _ S) [] ∅ (zlen (t1 p)) p);
      [split; [constructor|set_solver]|done]. }
  intros r p0 [-> Hsel]. destruct r as [cs|]; [|by wp_steps].
  destruct (Hsel cs eq_refl) as [[Hnd Hin] Hlen]. wp_steps. eapply wp_mono.
  { apply arc_apply_all; [done..|]. intros c Hc. destruct (Hin c Hc) as [Hd _].
    apply list_elem_of_fmap. exists c.1. destruct c.2; done. }
  intros [] p1 (S1 & Hcap1 & Hc1). pol_steps. destruct (as_cap _ S1).
  eapply wp_mono; [apply trim_ghost_ok; rewrite <- Hcap1; lia|]. intros [] d1 [Hd1 Hl1]. pol_steps.
  eapply wp_mono; [apply trim_ghost_ok; rewrite <- Hcap1; lia|]. intros [] d2 [Hd2 Hl2]. pol_steps. arc_fields.
  split; [split; [by apply arc_shape_ghosts|arc_fields; lia|arc_fields; lia]|]. split; [|done].
  split; [rewrite length_fmap, Hlen; simpl; lia|]. split; [done|]. split.
  - intros k b Hkb. apply list_elem_of_fmap in Hkb as (c & Ec & Hc). destruct (Hin c Hc) as [Hd Hi].
    rewrite <- Ec in Hd, Hi. apply idle_spec in Hi as [Hr Hp]. split; [|done].
    rewrite <- arc_get_contents. unfold arc_get. destruct c.2.
    + apply od_get_elem in Hd; [by rewrite Hd|apply S].
    + destruct (od_get k (t1 p)) eqn:E.
      * apply od_get_in in E. exfalso. apply (as_t _ S k E). apply list_elem_of_fmap. by exists (k, b).
      * apply od_get_elem; [apply S|done].
  - intros k. change (arc_contents (set_b2 d2 (set_b1 d1 p1))) with (arc_contents p1). rewrite Hc1. apply delete_all_lookup.
Qed.

Lemma arc_init_ok cap : 0 <= cap < 2 ^ 53 -> arc_ok (ARC_init cap).
Proof. intros H. split; [split; simpl; try done; try constructor; set_solver|simpl; lia|simpl; lia]. Qed.

Lemma arc_assign_ok p k f : arc_ok p -> arc_ok (arc_assign k f p) /\ arc_contents (arc_assign k f p) = alter f k (arc_contents p).
Proof.
  intros [S L1 L2]. unfold arc_assign, arc_contents. destruct (od_get k (t1 p)) as [b|] eqn:E; cbn [is_some]; arc_fields.
  - split.
    + split; [|done|done]. destruct S; split; arc_fields; rewrite ?assign_in_keys; done.
    + rewrite assign_in_map. apply map_eq. intros i. rewrite lookup_union.
      destruct (decide (i = k)) as [->|].
      * rewrite !lookup_alter_eq, lookup_union, <- (od_get_map k (t1 p)), E. simpl.
        by destruct (list_to_map (t2 p) !! k).
      * rewrite !lookup_alter_ne by done. by rewrite lookup_union.
  - split.
    + split; [|done|done]. destruct S; split; arc_fields; rewrite ?assign_in_keys; done.
    + rewrite assign_in_map. apply map_eq. intros i. rewrite lookup_union.
      destruct (decide (i = k)) as [->|].
      * rewrite !lookup_alter_eq, lookup_union, <- (od_get_map k (t1 p)), E. by rewrite !(left_id None _).
      * rewrite !lookup_alter_ne by done. by rewrite lookup_union.
Qed.

#[export] Program Instance ARC_laws : CachePolicyLaws ARCCachePolicy :=
  {| policy_ok := arc_ok; contents := arc_contents |}.
Next Obligation. intros. apply arc_get_contents. Qed.
Next Obligation. intros. by apply arc_insert_ok. Qed.
Next Obligation. intros. by apply arc_remove_ok. Qed.
Next Obligation. intros. by apply arc_touch_ok. Qed.
Next Obligation. intros. by apply arc_evict_ok. Qed.
Next Obligation.
  intros p Hok. simpl. unfold arc_clear. wp_steps. split; [apply arc_init_ok, Hok|]. unfold arc_contents. simpl.
  by rewrite (left_id _ _).
Qed.
Next Obligation. intros. by apply arc_assign_ok. Qed.

(** ** Either *)

Definition any_ok (p : AnyPolicy) : Prop := match p with LRU p => policy_ok p | ARC p => policy_ok p end.
Definition any_contents (p : AnyPolicy) : gmap bytes BlockStatus :=
  match p with LRU p => contents p | ARC p => contents p end.

Lemma wp_any {A} (l : M LRUCachePolicy A) (a : M ARCCachePolicy A) (Q : A -> AnyPolicy -> Prop) p :
  match p with
  | LRU p => wp l (fun r p' => Q r (LRU p')) p
  | ARC p => wp a (fun r p' => Q r (ARC p')) p
  end -> wp (any_op l a) Q p.
Proof. unfold wp, any_op. destruct p as [p|p]; [by destruct (l p) as [[] ?]|by destruct (a p) as [[] ?]]. Qed.

#[export] Program Instance Any_laws : CachePolicyLaws AnyPolicy :=
  {| policy_ok := any_ok; contents := any_contents |}.
Next Obligation. intros [p|p] k Hok; by apply (get_ok p). Qed.
Next Obligation. intros [p|p] k b Hok H; apply wp_any; by apply (insert_ok p). Qed.
Next Obligation. intros [p|p] k Hok H; apply wp_any; by apply (remove_ok p). Qed.
Next Obligation. intros [p|p] ks Hok; apply wp_any; by apply (touch_ok p). Qed.
Next Obligation.
  intros [p|p] n protected Hok Hn; apply wp_any; (eapply wp_mono; [by apply (evict_ok p n protected)|]);
    intros r p' (H1 & H2 & H3); (split; [done|]); (split; [done|]); intros E; by rewrite H3.
Qed.
Next Obligation. intros [p|p] Hok; apply wp_any; by apply (clear_ok p). Qed.
Next Obligation. intros [p|p] k f Hok; by apply (assign_ok p). Qed.

Lemma make_policy_ok name cap p : 0 <= cap < 2 ^ 53 -> make_policy name cap = Ok p -> any_ok p /\ any_contents p = ∅.
Proof.
  intros Hcap. unfold make_policy. destruct (String.eqb name "lru"); [intros [= <-]; split; [constructor|done]|].
  destruct (String.eqb name "arc"); [intros [= <-]|done]. split; [by apply arc_init_ok|]. unfold any_contents. simpl.
  unfold arc_contents. simpl. by rewrite (left_id _ _).
Qed.

(** ** The theorems *)

(** LRU eviction is exact. With distinct keys, [evict] takes the [n] oldest
    blocks that are idle and not protected, and nothing else leaves or changes
    place; it gives up, changing nothing, exactly if there are fewer. *)
Theorem lru_evict_exact p n protected : NoDup (blocks p).*1 -> 0 <= n ->
  let able := List.filter (idle protected) (blocks p) in
  exists r p', lru_evict n protected p = (Ok r, p') /\
    (r = None <-> zlen able < n) /\ (r = None -> p' = p) /\
    (forall l, r = Some l -> l = take (Z.to_nat n) able /\ blocks p' `sublist_of` blocks p /\
       forall k, od_get k (blocks p') = if decide (k ∈ l.*1) then None else od_get k (blocks p)).
Proof.
  intros Hok Hn able. destruct (wp_returns _ _ _ (lru_evict_spec p n protected Hok Hn)) as (r & p' & Hrun & Hok' & Hnone & Hsome).
  fold able in Hnone, Hsome. exists r, p'. split; [done|]. split; [|split].
  - split; [intros E; by apply Hnone|]. intros Hlt. destruct r as [l|]; [|done]. destruct (Hsome l eq_refl) as (_ & ? & _). lia.
  - intros E. by apply Hnone.
  - intros l E. destruct (Hsome l E) as (Hl & _ & Hsub & Hc). split; [done|]. split; [done|]. intros k.
    rewrite !od_get_map. change (lru_contents p' !! k = if decide (k ∈ l.*1) then None else lru_contents p !! k).
    rewrite Hc. apply delete_all_lookup.
Qed.

Definition sample_lru : LRUCachePolicy :=
  mkLRU [([Byte.x61], mkStatus 0 0); ([Byte.x62], mkStatus 1 1); ([Byte.x63], mkStatus 0 2); ([Byte.x64], mkStatus 0 3)].

Lemma lru_evict_exact_witness : exists p', lru_evict 2 {[ [Byte.x61] ]} sample_lru
  = (Ok (Some [([Byte.x63], mkStatus 0 2); ([Byte.x64], mkStatus 0 3)]), p').
Proof.
  destruct (lru_evict_exact sample_lru 2 {[ [Byte.x61] ]} ltac:(apply (bool_decide_unpack _); by vm_compute) ltac:(lia))
    as (r & p' & Hrun & Hnone & _ & Hsome).
  exists p'. rewrite Hrun. destruct r as [l|].
  - destruct (Hsome l eq_refl) as [-> _]. do 2 f_equal.
  - exfalso. pose proof (proj1 Hnone eq_refl) as H. by vm_compute in H.
Defined.

(** The operations of the interface on an ARC, used by its rules. *)
Inductive policy_op :=
| PInsert (key : bytes) (block : BlockStatus) | PRemove (key : bytes) | PTouch (keys : list bytes)
| PEvict (n : Z) (protected : gset bytes) | PClear | PAssign (key : bytes) (f : BlockStatus -> BlockStatus).

Definition run_arc_op (o : policy_op) : M ARCCachePolicy unit :=
  match o with
  | PInsert k b => arc_insert k b
  | PRemove k => arc_remove k
  | PTouch ks => arc_touch ks
  | PEvict n protected => arc_evict n protected ;; mret tt
  | PClear => arc_clear
  | PAssign k f => modify (arc_assign k f)
  end.

Definition arc_op_ok (p : ARCCachePolicy) (o : policy_op) : Prop :=
  match o with
  | PInsert k _ => arc_get k p = None
  | PRemove k => is_Some (arc_get k p)
  | PEvict n _ => 0 <= n
  | _ => True
  end.

Inductive arc_reachable (capacity : Z) : ARCCachePolicy -> Prop :=
| arc_start : arc_reachable capacity (ARC_init capacity)
| arc_step p o p' : arc_reachable capacity p -> arc_op_ok p o -> run_arc_op o p = (Ok tt, p') -> arc_reachable capacity p'.

(** The capacity never changes. *)
Definition keeps_capacity {A} (op : M ARCCachePolicy A) : Prop := forall p, cache_capacity (op p).2 = cache_capacity p.

Lemma keeps_bind {A B} (op : M ARCCachePolicy A) (k : A -> M ARCCachePolicy B) :
  keeps_capacity op -> (forall a, keeps_capacity (k a)) -> keeps_capacity (op ≫= k).
Proof.
  intros H1 H2 p. unfold mbind, M_bind. specialize (H1 p). destruct (op p) as [[a|e] p1]; simpl in *; [|done].
  by rewrite H2.
Qed.
Lemma keeps_zoom {S A} (g : ARCCachePolicy -> S) st (op : M S A) :
  (forall d p, cache_capacity (st d p) = cache_capacity p) -> keeps_capacity (zoom g st op).
Proof. intros H p. unfold zoom. destruct (op (g p)). apply H. Qed.
Lemma keeps_each {A} (f : A -> M ARCCachePolicy unit) l : (forall x, keeps_capacity (f x)) -> keeps_capacity (for_each f l).
Proof. intros H. induction l as [|x l IH]; [done|]. by apply keeps_bind. Qed.
Lemma keeps_readonly {A} (op : M ARCCachePolicy A) : readonly op -> keeps_capacity op.
Proof. intros H p. by rewrite H. Qed.

Ltac keeps :=
  repeat first
    [ apply keeps_bind; [|intros ?]
    | apply keeps_each; intros ?
    | apply keeps_zoom; by intros
    | done
    | match goal with |- keeps_capacity (match ?x with _ => _ end) => destruct x end
    | match goal with |- keeps_capacity (if ?x then _ else _) => destruct x end ].

Lemma ro_num_int t : readonly (S := ARCCachePolicy) (num_int t).
Proof. unfold num_int. by destruct (value_of t). Qed.

Lemma ro_arc_select n protected p cs sel v : readonly (arc_select n protected p cs sel v).
Proof.
  revert cs sel v. induction n as [|n IH]; intros cs sel v; [done|]. cbn [arc_select].
  apply ro_bind; [apply ro_num_int|]. intros z.
  destruct (if z <=? v then _ else _); [apply IH|]. destruct (arc_candidate _ _ _); [apply IH|done].
Qed.

Lemma run_arc_op_capacity o : keeps_capacity (run_arc_op o).
Proof.
  destruct o; cbn [run_arc_op].
  - unfold arc_insert, on_t1, on_b1, on_b2. keeps.
  - unfold arc_remove, on_t1, on_t2. keeps.
  - unfold arc_touch. apply keeps_each. intros k. unfold arc_touch_one, on_t1, on_t2, on_b1, on_b2, true_div. keeps.
  - unfold arc_evict, on_b1, on_b2. apply keeps_bind; [|done]. destruct (_ =? 0); [done|].
    apply keeps_bind; [done|]. intros p. apply keeps_bind; [apply keeps_readonly, ro_arc_select|]. intros r.
    unfold arc_apply, on_t1, on_t2, on_b1, on_b2. keeps.
  - done.
  - intros p. simpl. unfold arc_assign. by destruct (is_some _).
Qed.

Lemma run_arc_op_ok p o : arc_ok p -> arc_op_ok p o -> wp (run_arc_op o) (fun _ p' => arc_ok p') p.
Proof.
  intros Hok Hop. destruct o; cbn [run_arc_op arc_op_ok] in *; rewrite ?arc_get_contents in Hop.
  - eapply wp_mono; [by apply arc_insert_ok|]. by intros [] p' [? _].
  - eapply wp_mono; [by apply arc_remove_ok|]. by intros [] p' [? _].
  - eapply wp_mono; [by apply arc_touch_ok|]. by intros [] p' [? _].
  - apply wp_bind. eapply wp_mono; [by apply arc_evict_ok|]. intros r p' [? _]. by wp_steps.
  - unfold arc_clear. wp_steps. apply arc_init_ok, Hok.
  - wp_steps. by apply arc_assign_ok.
Qed.

(** C36. The adaptive policy stays within its bounds. Whatever the operations, used
    by the rules of the interface: no key is in two of the four dictionaries,
    each ghost list and the target size of the recent blocks stay between 0 and
    the capacity, whatever the floating-point steps the target moved by, so that
    [int(target_t1_size)] is defined; and no operation raises. *)
Theorem arc_stays_in_bounds capacity p : 0 <= capacity < 2 ^ 53 -> arc_reachable capacity p ->
  NoDup ((t1 p).*1 ++ (t2 p).*1 ++ (b1 p).*1 ++ (b2 p).*1) /\
  zlen (b1 p) <= capacity /\ zlen (b2 p) <= capacity /\
  num_ltb (target_t1_size p) (PInt 0) = false /\ num_ltb (PInt capacity) (target_t1_size p) = false /\
  (exists z, num_int (target_t1_size p) p = (Ok z, p) /\ 0 <= z <= capacity) /\
  forall o, arc_op_ok p o -> exists p', run_arc_op o p = (Ok tt, p').
Proof.
  intros Hcap Hr. assert (arc_ok p /\ cache_capacity p = capacity) as [Hok Hc].
  { induction Hr as [|p o p' _ [IH Ec] Hop Hrun]; [split; [by apply arc_init_ok|done]|]. split.
    - exact (wp_run _ _ _ _ _ Hrun (run_arc_op_ok p o IH Hop)).
    - rewrite <- Ec, <- (run_arc_op_capacity o p), Hrun. done. }
  pose proof Hok as [S L1 L2]. rewrite Hc in L1, L2. pose proof (as_target _ S) as Ht. rewrite Hc in Ht. split.
  { destruct S. rewrite !NoDup_app. split; [done|]. split; [set_solver|]. split; [done|]. split; [set_solver|].
    split; [done|]. split; [set_solver|done]. }
  split; [done|]. split; [done|]. destruct (in_range_bounds capacity Hcap _ Ht) as [B1 B2].
  split; [done|]. split; [done|]. split; [by apply num_int_range|].
  intros o Hop. destruct (wp_returns _ _ _ (run_arc_op_ok p o Hok Hop)) as ([] & p' & Hrun & _). by exists p'.
Qed.

Definition ghostly_arc : ARCCachePolicy :=
  mkARC 1 (PFloat (S754_zero false)) [([Byte.x62], mkStatus 0 0)] [] [([Byte.x61], tt)] [].

Lemma arc_stays_in_bounds_witness : exists p',
  run_arc_op (PTouch [[Byte.x61]]) ghostly_arc = (Ok tt, p') /\ arc_reachable 1 ghostly_arc.
Proof.
  assert (Hr : arc_reachable 1 ghostly_arc).
  { set (p1 := (run_arc_op (PInsert [Byte.x61] (mkStatus 0 0)) (ARC_init 1)).2).
    set (p2 := (run_arc_op (PEvict 1 ∅) p1).2).
    apply (arc_step 1 p2 (PInsert [Byte.x62] (mkStatus 0 0))); [|by vm_compute|by vm_compute].
    apply (arc_step 1 p1 (PEvict 1 ∅)); [|by vm_compute|by vm_compute].
    apply (arc_step 1 (ARC_init 1) (PInsert [Byte.x61] (mkStatus 0 0))); [apply arc_start|done|by vm_compute]. }
  destruct (arc_stays_in_bounds 1 ghostly_arc ltac:(lia) Hr) as (_ & _ & _ & _ & _ & _ & H).
  destruct (H (PTouch [[Byte.x61]]) I) as [p' Hp]. exists p'. done.
Defined.
End OffloadPolicy.
