(* ===== verification/OffloadManager.v ===== *)
(** * OffloadManager

    v1/kv_offload/cpu/manager.py: the manager of KV blocks offloaded to CPU
    memory. It hands out slots of the CPU buffer, counts the transfers that
    read a block, and leaves the choice of blocks to evict to its policy. *)

From S2P Require Import Prelude OrderedDict PyNum OffloadPolicy.

Module OffloadManager.
Import OrderedDict PyNum OffloadPolicy.
#[local] Open Scope Z_scope.

Record OffloadingEvent := mkEvent { ev_keys : list bytes; ev_medium : string; ev_removed : bool }.

Record PrepareStoreOutput := mkOutput {
  keys_to_store : list bytes;
  store_spec : list Z;
  evicted_keys : list bytes
}.

(** [CPULoadStoreSpec.medium()] *)
Definition medium : string := "CPU".

Record CPUOffloadingManager (P : Type) := mkCPU {
  num_blocks : Z;
  num_allocated_blocks : Z;
  free_list : list Z;
  events : option (list OffloadingEvent);
  policy : P;
  store_threshold : Z;
  max_tracker_size : Z;
  stores_skipped_in_current_batch : Z;
  counts : option (list (bytes * Z))
}.
Arguments mkCPU {P}.
Arguments num_blocks {P}.
Arguments num_allocated_blocks {P}.
Arguments free_list {P}.
Arguments events {P}.
Arguments policy {P}.
Arguments store_threshold {P}.
Arguments max_tracker_size {P}.
Arguments stores_skipped_in_current_batch {P}.
Arguments counts {P}.

(** [__init__], for a policy object. *)
Definition cpu_init_with {P} (num_blocks : Z) (policy : P) (enable_events : bool)
    (store_threshold max_tracker_size : Z) : CPUOffloadingManager P :=
  mkCPU num_blocks 0 [] (if enable_events then Some [] else None) policy store_threshold max_tracker_size 0
    (if 2 <=? store_threshold then Some [] else None).

Definition cpu_init (num_blocks : Z) (cache_policy : string) (enable_events : bool)
    (store_threshold max_tracker_size : Z) : result (CPUOffloadingManager AnyPolicy) :=
  match make_policy cache_policy num_blocks with
  | Err e => Err e
  | Ok p => Ok (cpu_init_with num_blocks p enable_events store_threshold max_tracker_size)
  end.

Section manager.
Context {P : Type} `{!CachePolicy P}.
Notation CPU := (CPUOffloadingManager P).

Definition set_pool (alloc : Z) (free : list Z) (m : CPU) : CPU :=
  mkCPU (num_blocks m) alloc free (events m) (policy m) (store_threshold m) (max_tracker_size m)
    (stores_skipped_in_current_batch m) (counts m).
Definition set_events (e : option (list OffloadingEvent)) (m : CPU) : CPU :=
  mkCPU (num_blocks m) (num_allocated_blocks m) (free_list m) e (policy m) (store_threshold m)
    (max_tracker_size m) (stores_skipped_in_current_batch m) (counts m).
Definition set_policy (p : P) (m : CPU) : CPU :=
  mkCPU (num_blocks m) (num_allocated_blocks m) (free_list m) (events m) p (store_threshold m)
    (max_tracker_size m) (stores_skipped_in_current_batch m) (counts m).
Definition set_tracker (skipped : Z) (c : option (list (bytes * Z))) (m : CPU) : CPU :=
  mkCPU (num_blocks m) (num_allocated_blocks m) (free_list m) (events m) (policy m) (store_threshold m)
    (max_tracker_size m) skipped c.

Definition on_policy {A} (op : M P A) : M CPU A := zoom policy set_policy op.
Definition push_offload_event (ks : list bytes) (removed : bool) : M CPU unit :=
  modify (fun m => match events m with
                   | None => m
                   | Some es => set_events (Some (es ++ [mkEvent ks medium removed])) m
                   end).

(** [_get_num_free_blocks], [_allocate_blocks] and [_free_block] *)
Definition cpu_get_num_free_blocks (m : CPU) : Z := zlen (free_list m) + num_blocks m - num_allocated_blocks m.

Definition fresh_block (blocks : list BlockStatus) : M CPU (list BlockStatus) :=
  m ← get;
  modify (fun m => set_pool (num_allocated_blocks m + 1) (free_list m) m) ;;
  mret (blocks ++ [new_status (num_allocated_blocks m)]).

Definition reused_block (blocks : list BlockStatus) : M CPU (list BlockStatus) :=
  m ← get;
  id ← of_option IndexError (last (free_list m));
  modify (fun m => set_pool (num_allocated_blocks m) (removelast (free_list m)) m) ;;
  mret (blocks ++ [new_status id]).

Definition allocate_blocks (keys : list bytes) : M CPU (list BlockStatus) :=
  m ← get;
  let num_fresh := Z.min (zlen keys) (num_blocks m - num_allocated_blocks m) in
  let num_reused := zlen keys - num_fresh in
  assert_ (num_reused <=? zlen (free_list m)) ;;
  blocks ← for_fold (fun bs _ => fresh_block bs) (zrange num_fresh) [];
  for_fold (fun bs _ => reused_block bs) (zrange num_reused) blocks.

Definition free_block (b : BlockStatus) : M CPU unit :=
  modify (fun m => set_pool (num_allocated_blocks m) (free_list m ++ [block_id b]) m).

(** The reference tracker of [lookup]. *)
Definition track (key : bytes) : M CPU unit :=
  m ← get;
  match counts m with
  | None => mret tt
  | Some c =>
      match od_get key c with
      | Some n =>
          modify (set_tracker (stores_skipped_in_current_batch m)
                    (Some (od_remove key c ++ [(key, n + 1)])))
      | None =>
          (if max_tracker_size m <=? zlen c then
             match c with
             | [] => raise KeyError
             | _ :: c' => modify (set_tracker (stores_skipped_in_current_batch m) (Some c'))
             end
           else mret tt) ;;
          m' ← get;
          modify (set_tracker (stores_skipped_in_current_batch m)
                    (Some (od_set key 1 (default [] (counts m')))))
      end
  end.

(** [lookup]: None stands for a write in flight. *)
Definition lookup (key : bytes) : M CPU (option bool) :=
  track key ;;
  m ← get;
  match get_block key (policy m) with
  | None => mret (Some false)
  | Some b => if negb (is_ready b) then mret None else mret (Some true)
  end.

Definition load_one (ids : list Z) (key : bytes) : M CPU (list Z) :=
  m ← get;
  b ← of_option AssertionError (get_block key (policy m));
  assert_ (is_ready b) ;;
  modify (fun m => set_policy (assign key (fun b => set_ref_cnt (ref_cnt b + 1) b) (policy m)) m) ;;
  mret (ids ++ [block_id b]).

(** [prepare_load]: the slots to read from. *)
Definition prepare_load (keys : list bytes) : M CPU (list Z) := for_fold load_one keys [].

Definition cpu_touch (keys : list bytes) : M CPU unit := on_policy (touch keys).

Definition complete_one (key : bytes) : M CPU unit :=
  m ← get;
  b ← of_option AssertionError (get_block key (policy m));
  assert_ (0 <? ref_cnt b) ;;
  modify (fun m => set_policy (assign key (fun b => set_ref_cnt (ref_cnt b - 1) b) (policy m)) m).

Definition complete_load (keys : list bytes) : M CPU unit := for_each complete_one keys.

(** The keys of a store that were looked up often enough. *)
Definition wanted (m : CPU) (keys : list bytes) : list bytes :=
  match counts m with
  | None => keys
  | Some c => List.filter (fun k => store_threshold m <=? default 0 (od_get k c)) keys
  end.

Definition unstored (m : CPU) (keys : list bytes) : list bytes :=
  List.filter (fun k => negb (is_some (get_block k (policy m)))) keys.

(** Making room: None if the policy cannot. *)
Definition make_room (num_blocks_to_evict : Z) (protected : gset bytes) : M CPU (option (list bytes)) :=
  if 0 <? num_blocks_to_evict then
    ev ← on_policy (evict num_blocks_to_evict protected);
    match ev with
    | None => mret None
    | Some l => for_each (fun kb => free_block kb.2) l ;; mret (Some l.*1)
    end
  else mret (Some []).

Definition prepare_store (keys : list bytes) : M CPU (option PrepareStoreOutput) :=
  m ← get;
  let kept := wanted m keys in
  (if is_some (counts m)
   then modify (set_tracker (stores_skipped_in_current_batch m + (zlen keys - zlen kept)) (counts m))
   else mret tt) ;;
  let to_store := unstored m kept in
  match to_store with
  | [] => mret (Some (mkOutput [] [] []))
  | _ =>
      room ← make_room (zlen to_store - cpu_get_num_free_blocks m) (list_to_set kept);
      match room with
      | None => mret None
      | Some to_evict =>
          (match to_evict with [] => mret tt | _ => push_offload_event to_evict true end) ;;
          blocks ← allocate_blocks to_store;
          assert_ (zlen blocks =? zlen to_store) ;;
          for_each (fun kb => on_policy (insert_block kb.1 kb.2)) (zip to_store blocks) ;;
          mret (Some (mkOutput to_store (block_id <$> blocks) to_evict))
      end
  end.

Definition store_done (stored : list bytes) (key : bytes) : M CPU (list bytes) :=
  m ← get;
  match get_block key (policy m) with
  | Some b =>
      if negb (is_ready b) then
        modify (fun m => set_policy (assign key (set_ref_cnt 0) (policy m)) m) ;;
        mret (stored ++ [key])
      else mret stored
  | None => mret stored
  end.

Definition store_failed (key : bytes) : M CPU unit :=
  m ← get;
  match get_block key (policy m) with
  | Some b => if negb (is_ready b) then on_policy (remove_block key) ;; free_block b else mret tt
  | None => mret tt
  end.

Definition complete_store (keys : list bytes) (success : bool) : M CPU unit :=
  stored ← (if success then for_fold store_done keys []
            else for_each store_failed keys ;; mret []);
  match stored with [] => mret tt | _ => push_offload_event stored false end.

Definition reset_cache : M CPU unit :=
  on_policy clear ;;
  modify (set_pool 0 []).

Definition cpu_take_events : M CPU (list OffloadingEvent) :=
  m ← get;
  match events m with
  | None => mret []
  | Some es => modify (set_events (Some [])) ;; mret es
  end.

(** [get_stats]: the counter of skipped stores, if stores are filtered. *)
Definition get_stats : M CPU (option Z) :=
  m ← get;
  if store_threshold m <? 2 then mret None
  else modify (set_tracker 0 (counts m)) ;; mret (Some (stores_skipped_in_current_batch m)).
End manager.

(** ** Slots *)

(** The slots of the blocks a map holds. *)
Definition slots (c : gmap bytes BlockStatus) : list Z := block_id <$> (map_to_list c).*2.

Lemma slots_insert c k b : c !! k = None -> slots (<[k := b]> c) ≡ₚ block_id b :: slots c.
Proof. intros H. unfold slots. by rewrite map_to_list_insert. Qed.

Lemma slots_delete c k b : c !! k = Some b -> slots c ≡ₚ block_id b :: slots (delete k c).
Proof. intros H. unfold slots. by rewrite <- (map_to_list_delete c k b H). Qed.

Lemma slots_alter c k f : (forall b, block_id (f b) = block_id b) -> slots (alter f k c) ≡ₚ slots c.
Proof.
  intros Hf. destruct (c !! k) as [b|] eqn:E.
  - rewrite (slots_delete c k b E), (slots_delete (alter f k c) k (f b)) by (by rewrite lookup_alter_eq, E).
    rewrite Hf. replace (delete k (alter f k c)) with (delete k c); [done|]. apply map_eq. intros i.
    destruct (decide (i = k)) as [->|]; [by rewrite !lookup_delete_eq|].
    by rewrite !lookup_delete_ne, lookup_alter_ne by done.
  - replace (alter f k c) with c; [done|]. apply map_eq. intros i.
    destruct (decide (i = k)) as [->|]; [by rewrite lookup_alter_eq, E|by rewrite lookup_alter_ne].
Qed.

Lemma slots_evict l : forall c c', NoDup l.*1 -> (forall k b, (k, b) ∈ l -> c !! k = Some b) ->
  (forall k, c' !! k = if decide (k ∈ l.*1) then None else c !! k) ->
  slots c ≡ₚ (block_id <$> l.*2) ++ slots c'.
Proof.
  induction l as [|[k b] l IH]; intros c c' Hn Hin Hc.
  { simpl. replace c' with c; [done|]. apply map_eq. intros i. rewrite Hc. by rewrite decide_False by (simpl; set_solver). }
  rewrite fmap_cons in Hn. cbn [fst] in Hn. apply NoDup_cons in Hn as [Hk Hn].
  rewrite (slots_delete c k b) by (apply Hin; set_solver). simpl. f_equiv. apply IH; [done|..].
  - intros k' b' Hkb. rewrite lookup_delete_ne; [apply Hin; set_solver|].
    intros ->. apply Hk. apply list_elem_of_fmap. by exists (k', b').
  - intros k'. rewrite Hc, fmap_cons. cbn [fst]. destruct (decide (k' = k)) as [->|].
    + rewrite decide_True by set_solver. rewrite lookup_delete_eq. by case_decide.
    + rewrite lookup_delete_ne by done. destruct (decide (k' ∈ l.*1)).
      * by rewrite decide_True by set_solver.
      * by rewrite decide_False by set_solver.
Qed.

Lemma zrange_snoc n : 0 <= n -> zrange (n + 1) = zrange n ++ [n].
Proof.
  intros Hn. unfold zrange. replace (Z.to_nat (n + 1)) with (S (Z.to_nat n)) by lia.
  rewrite seq_S, fmap_app. simpl. do 2 f_equal. lia.
Qed.

Lemma length_zrange n : length (zrange n) = Z.to_nat n.
Proof. unfold zrange. by rewrite length_fmap, length_seq. Qed.

Lemma wrap_small w z : 0 < w -> - 2 ^ (w - 1) <= z < 2 ^ (w - 1) -> wrap w z = z.
Proof.
  intros Hw Hz. unfold wrap. replace (2 ^ w) with (2 ^ (w - 1) + 2 ^ (w - 1)).
  - rewrite Z.mod_small; lia.
  - replace w with (w - 1 + 1) at 3 by lia. rewrite Z.pow_add_r by lia. lia.
Qed.

(** ** Allocation *)

Section alloc.
Context {P : Type} `{!CachePolicy P}.
Notation CPU := (CPUOffloadingManager P).

(** The new blocks [bs] of [m'], taken from the pool of [m]. *)
Definition allocated (m : CPU) (bs : list BlockStatus) (m' : CPU) : Prop :=
  m' = set_pool (num_allocated_blocks m') (free_list m') m /\
  num_allocated_blocks m <= num_allocated_blocks m' <= num_blocks m /\
  Forall (fun b => ref_cnt b = -1) bs /\
  forall used, used ++ free_list m ≡ₚ zrange (num_allocated_blocks m) ->
    used ++ (block_id <$> bs) ++ free_list m' ≡ₚ zrange (num_allocated_blocks m').

Lemma fresh_ok m bs m' : 0 <= num_allocated_blocks m -> allocated m bs m' ->
  num_allocated_blocks m' < num_blocks m < 2 ^ 63 ->
  wp (fresh_block bs) (fun bs' m'' => allocated m bs' m'' /\ length bs' = S (length bs) /\
    num_allocated_blocks m'' = num_allocated_blocks m' + 1 /\ free_list m'' = free_list m') m'.
Proof.
  intros H0 (Em & Ha & Hr & Hp) Hlt. unfold fresh_block. wp_steps. split; [|by rewrite length_app; simpl; split; [lia|]].
  split; [rewrite Em; done|]. split; [simpl; lia|]. split; [apply Forall_app; split; [done|by repeat constructor]|].
  intros used Hu. specialize (Hp used Hu). cbn [num_allocated_blocks free_list set_pool].
  rewrite zrange_snoc by lia. rewrite <- Hp, fmap_app. simpl. rewrite wrap_small by lia. solve_Permutation.
Qed.

Lemma reused_ok m bs m' : 0 <= num_allocated_blocks m -> allocated m bs m' -> num_blocks m < 2 ^ 63 ->
  free_list m' <> [] -> (exists used, used ++ free_list m ≡ₚ zrange (num_allocated_blocks m)) ->
  wp (reused_block bs) (fun bs' m'' => allocated m bs' m'' /\ length bs' = S (length bs) /\
    length (free_list m') = S (length (free_list m'')) /\ num_allocated_blocks m'' = num_allocated_blocks m') m'.
Proof.
  intros H0 (Em & Ha & Hr & Hp) Hlt Hne [u0 Hu0]. unfold reused_block. wp_steps.
  destruct (last (free_list m')) as [id|] eqn:E; [|by apply last_None in E]. cbn [of_option]. wp_steps.
  apply last_Some in E as [fl E]. rewrite E, List.removelast_last.
  split; [|rewrite !length_app; simpl; split; [lia|split; [lia|done]]].
  split; [rewrite Em; done|]. split; [simpl; lia|]. split; [apply Forall_app; split; [done|by repeat constructor]|].
  assert (Hid : 0 <= id < num_allocated_blocks m').
  { specialize (Hp u0 Hu0). assert (Hin : id ∈ zrange (num_allocated_blocks m')).
    { rewrite <- Hp, E. set_solver. }
    unfold zrange in Hin. apply list_elem_of_fmap in Hin as (j & -> & Hj%elem_of_seq). lia. }
  intros used Hu. specialize (Hp used Hu). cbn [num_allocated_blocks free_list set_pool].
  rewrite <- Hp, E, fmap_app. simpl. rewrite wrap_small by lia. solve_Permutation.
Qed.

Lemma allocate_blocks_ok m keys used : 0 <= num_allocated_blocks m <= num_blocks m -> num_blocks m < 2 ^ 63 ->
  zlen keys <= cpu_get_num_free_blocks m -> used ++ free_list m ≡ₚ zrange (num_allocated_blocks m) ->
  wp (allocate_blocks keys) (fun bs m' => allocated m bs m' /\ length bs = length keys) m.
Proof.
  intros Ha Hb Hlen Hu. unfold allocate_blocks, cpu_get_num_free_blocks in *.
  apply wp_bind, wp_get. cbv zeta.
  set (nf := Z.min (zlen keys) (num_blocks m - num_allocated_blocks m)) in *.
  assert (Hnf : 0 <= nf) by lia. wp_steps; [apply Z.leb_le; lia|].
  eapply wp_mono.
  - apply (wp_for_fold (fun l1 l2 bs m' => allocated m bs m' /\ length bs = length l1 /\
      num_allocated_blocks m' = num_allocated_blocks m + zlen l1 /\ free_list m' = free_list m)).
    + split; [|simpl; split; [done|split; [lia|done]]]. split; [by destruct m|]. split; [lia|]. by split.
    + intros l1 x l2 bs m' Hl (A & L & N & F).
      assert (zlen l1 < nf) by (apply (f_equal length) in Hl; rewrite length_zrange, length_app in Hl; simpl in Hl; lia).
      eapply wp_mono; [apply (fresh_ok m); [lia|exact A|lia]|].
      intros bs' m'' (A' & L' & N' & F'). rewrite length_app. simpl. split; [done|]. split; [lia|]. split; [lia|congruence].
  - intros bs m1 (A1 & L1 & N1 & F1). rewrite length_zrange in L1, N1.
    eapply wp_mono.
    + apply (wp_for_fold (fun l1 l2 bs m' => allocated m bs m' /\ length bs = (Z.to_nat nf + length l1)%nat /\
        length (free_list m) = (length (free_list m') + length l1)%nat)).
      * split; [done|]. rewrite F1. simpl. lia.
      * intros l1 x l2 bs' m' Hl (A & L & F).
        assert (zlen l1 < zlen keys - nf) by (apply (f_equal length) in Hl; rewrite length_zrange, length_app in Hl; simpl in Hl; lia).
        eapply wp_mono; [apply (reused_ok m); [lia|exact A|done| |by exists used]|].
        { intros E. rewrite E in F. simpl in F. lia. }
        intros bs'' m'' (A' & L' & F' & _). rewrite length_app. simpl. split; [done|]. lia.
    + intros bs' m' (A & L & _). split; [done|]. rewrite L, length_zrange. lia.
Qed.
End alloc.

(** ** The invariant *)

Lemma count_length {A} `{!EqDecision A} (x : A) l : (count x l <= length l)%nat.
Proof. induction l as [|y l IH]; simpl; [lia|]. case_decide; lia. Qed.

Section safety.
Context {P : Type} `{!CachePolicy P, !CachePolicyLaws P} (cap : Z).
Notation CPU := (CPUOffloadingManager P).

Definition stored (m : CPU) : gmap bytes BlockStatus := contents (policy m).

(** [loads] lists the keys of the transfers that read from the buffer, once for
    each. Every slot handed out belongs to one block or to the free list; a
    block that is being written is not read, any other one counts its readers. *)
Record cpu_inv (loads : list bytes) (m : CPU) : Prop := {
  ci_policy : policy_ok (policy m);
  ci_slots : slots (stored m) ++ free_list m ≡ₚ zrange (num_allocated_blocks m);
  ci_alloc : 0 <= num_allocated_blocks m <= num_blocks m;
  ci_blocks : num_blocks m < 2 ^ 63;
  ci_cap : num_blocks m = cap;
  ci_refs k : match stored m !! k with
              | Some b => ref_cnt b = -1 /\ count k loads = 0%nat \/ ref_cnt b = Z.of_nat (count k loads)
              | None => count k loads = 0%nat
              end;
  ci_loads : zlen loads < 2 ^ 31;
  ci_tracker : 1 <= max_tracker_size m
}.

(** Changes that only concern events and statistics. *)
Definition same_pool (m m' : CPU) : Prop :=
  policy m' = policy m /\ num_blocks m' = num_blocks m /\ max_tracker_size m' = max_tracker_size m /\
  num_allocated_blocks m' = num_allocated_blocks m /\ free_list m' = free_list m.

Lemma inv_same loads m m' : same_pool m m' -> cpu_inv loads m -> cpu_inv loads m'.
Proof.
  intros (E1 & E2 & E3 & E4 & E5) []. split; unfold stored in *; rewrite ?E1, ?E2, ?E3, ?E4, ?E5; done.
Qed.

Lemma inv_perm loads loads' m : loads ≡ₚ loads' -> cpu_inv loads m -> cpu_inv loads' m.
Proof.
  intros E []. split; try done.
  - intros k. specialize (ci_refs0 k). by rewrite (count_perm k _ _ E) in ci_refs0.
  - by rewrite <- E.
Qed.

(** An assignment to the reference count of one block. *)
Lemma inv_assign loads loads' m k b n f : cpu_inv loads m -> stored m !! k = Some b ->
  f b = set_ref_cnt n b -> (forall b', block_id (f b') = block_id b') ->
  0 <= n < 2 ^ 31 -> n = Z.of_nat (count k loads') -> zlen loads' < 2 ^ 31 ->
  (forall k', k' <> k -> count k' loads' = count k' loads) ->
  let m' := set_policy (assign k f (policy m)) m in
  cpu_inv loads' m' /\ stored m' = alter f k (stored m).
Proof.
  intros [] Hb Hf Hid Hn En Hlen Hother m'.
  assert (Hs : stored m' = alter f k (stored m)) by (apply assign_ok; done).
  split; [|done]. split; try done.
  - by apply assign_ok.
  - rewrite Hs, slots_alter by done. done.
  - intros k'. rewrite Hs. destruct (decide (k' = k)) as [->|Hk].
    + rewrite lookup_alter_eq, Hb. simpl. rewrite Hf. right. simpl. rewrite wrap_small by lia. done.
    + rewrite lookup_alter_ne by done. rewrite Hother by done. apply ci_refs0.
Qed.

Lemma count_cons_eq (k : bytes) l : count k (k :: l) = S (count k l).
Proof. simpl. by rewrite decide_True. Qed.
Lemma count_cons_ne (k k' : bytes) l : k' <> k -> count k' (k :: l) = count k' l.
Proof. intros. simpl. by rewrite decide_False. Qed.

(** ** Loads *)

Definition readable (m : CPU) (k : bytes) (id : Z) : Prop :=
  exists b, stored m !! k = Some b /\ is_ready b = true /\ block_id b = id.

Lemma load_one_ok loads m ids k id : cpu_inv loads m -> readable m k id -> zlen loads + 1 < 2 ^ 31 ->
  wp (load_one ids k) (fun ids' m' => cpu_inv (k :: loads) m' /\ ids' = ids ++ [id] /\
    forall k' id', readable m k' id' -> readable m' k' id') m.
Proof.
  intros I (b & Hb & Hr & Hid) Hlen. unfold load_one. wp_steps.
  rewrite (get_ok _ _ (ci_policy _ _ I)). unfold stored in Hb. rewrite Hb. cbn [of_option]. wp_steps; [done|].
  pose proof (ci_refs _ _ I k) as Href. unfold stored in Href. rewrite Hb in Href.
  unfold is_ready in Hr. apply Z.leb_le in Hr. destruct Href as [[Href _]|Href]; [lia|].
  pose proof (count_length k loads).
  destruct (inv_assign loads (k :: loads) m k b (Z.of_nat (count k loads) + 1) (fun b => set_ref_cnt (ref_cnt b + 1) b))
    as [I' Hs]; [done|done|by rewrite Href|done|lia|rewrite count_cons_eq; lia|simpl; lia|intros; by apply count_cons_ne|].
  split; [exact I'|]. split; [by rewrite Hid|]. intros k' id' (b' & Hb' & Hr' & Hid').
  destruct (decide (k' = k)) as [->|Hne].
  - unfold stored in Hb'. rewrite Hb in Hb'. injection Hb' as <-.
    exists (set_ref_cnt (ref_cnt b + 1) b). rewrite Hs, lookup_alter_eq. unfold stored. rewrite Hb. split; [done|].
    split; [|done]. unfold is_ready. simpl. rewrite wrap_small by lia. apply Z.leb_le. lia.
  - exists b'. rewrite Hs, lookup_alter_ne by done. done.
Qed.

Lemma prepare_load_ok loads m ks ids : cpu_inv loads m -> Forall2 (readable m) ks ids -> zlen loads + zlen ks < 2 ^ 31 ->
  wp (prepare_load ks) (fun ids' m' => ids' = ids /\ cpu_inv (ks ++ loads) m') m.
Proof.
  intros I Hr Hlen. unfold prepare_load. eapply wp_mono.
  - apply (wp_for_fold (fun l1 l2 ids1 m1 => cpu_inv (l1 ++ loads) m1 /\
      exists ids2, ids = ids1 ++ ids2 /\ Forall2 (readable m1) l2 ids2)).
    + split; [done|]. by exists ids.
    + intros l1 k l2 ids1 m1 El (I1 & ids2 & Eids & Hr2).
      apply Forall2_cons_inv_l in Hr2 as (id & ids3 & Hk & Hr3 & ->).
      eapply wp_mono; [apply (load_one_ok (l1 ++ loads) m1 ids1 k id I1 Hk)|].
      { rewrite El, length_app in Hlen. rewrite length_app. simpl in Hlen. lia. }
      intros ids' m2 (I2 & -> & Hmono). split.
      * eapply inv_perm; [|exact I2]. solve_Permutation.
      * exists ids3. split; [rewrite Eids; by rewrite <- app_assoc|]. eapply Forall2_impl; [exact Hr3|done].
  - intros ids' m' (I' & ids2 & E & Hnil). apply Forall2_nil_inv_l in Hnil. subst ids2.
    by rewrite app_nil_r in E.
Qed.

Lemma complete_one_ok loads m k : cpu_inv (k :: loads) m -> wp (complete_one k) (fun _ m' => cpu_inv loads m') m.
Proof.
  intros I. unfold complete_one. wp_steps. rewrite (get_ok _ _ (ci_policy _ _ I)).
  pose proof (ci_refs _ _ I k) as Href. unfold stored in Href. rewrite count_cons_eq in Href.
  destruct (contents (policy m) !! k) as [b|] eqn:Hb; [|done]. destruct Href as [[_ Href]|Href]; [done|].
  cbn [of_option]. wp_steps; [apply Z.ltb_lt; lia|].
  pose proof (count_length k loads). pose proof (ci_loads _ _ I) as Hl. simpl in Hl.
  eapply (inv_assign (k :: loads) loads m k b (Z.of_nat (count k loads)));
    [done|done| |done|lia|done|lia|intros; symmetry; by apply count_cons_ne].
  rewrite Href. f_equal. lia.
Qed.

Lemma complete_load_ok loads ks m : cpu_inv (ks ++ loads) m -> wp (complete_load ks) (fun _ m' => cpu_inv loads m') m.
Proof.
  intros I. apply (wp_for_each (fun _ l2 m' => cpu_inv (l2 ++ loads) m')); [done|].
  intros l1 k l2 m' _ I'. by apply complete_one_ok.
Qed.

Lemma touch_all_ok loads ks m : cpu_inv loads m ->
  wp (cpu_touch ks) (fun _ m' => cpu_inv loads m' /\ stored m' = stored m) m.
Proof.
  intros I. unfold cpu_touch, on_policy. wp_steps. eapply wp_mono; [apply touch_ok, I|].
  intros [] p [Hok Hc]. split; [|done]. destruct I. split; try done; unfold stored in *; cbn [policy set_policy]; rewrite Hc; done.
Qed.

Lemma track_same k m : 1 <= max_tracker_size m -> wp (track k) (fun _ m' => same_pool m m') m.
Proof.
  intros Ht. unfold track. wp_steps. destruct (counts m) as [c|] eqn:E; [|by wp_steps].
  destruct (od_get k c); [by wp_steps|]. destruct (Z.leb_spec (max_tracker_size m) (zlen c)); [|by wp_steps].
  destruct c as [|kn c]; [simpl in *; lia|]. by wp_steps.
Qed.

Lemma lookup_ok loads k m : cpu_inv loads m ->
  wp (lookup k) (fun r m' => cpu_inv loads m' /\ stored m' = stored m /\
    r = match stored m !! k with None => Some false | Some b => if is_ready b then Some true else None end) m.
Proof.
  intros I. unfold lookup. wp_steps. eapply wp_mono; [apply track_same, I|]. intros [] m' S.
  pose proof (inv_same _ _ _ S I) as I'. destruct S as [Ep _]. wp_steps.
  rewrite (get_ok _ _ (ci_policy _ _ I')), Ep. unfold stored.
  destruct (contents (policy m) !! k) as [b|]; [destruct (is_ready b); cbn [negb]|]; wp_steps; by rewrite Ep.
Qed.

(** ** Stores *)

Lemma free_all_ok (l : list (bytes * BlockStatus)) (m : CPU) :
  wp (for_each (fun kb => free_block kb.2) l)
     (fun _ m' => m' = set_pool (num_allocated_blocks m) (free_list m ++ (block_id <$> l.*2)) m) m.
Proof.
  revert m. induction l as [|kb l IH]; intros m; cbn [for_each].
  - wp_steps. simpl. rewrite app_nil_r. by destruct m.
  - apply wp_bind, wp_modify. eapply wp_mono; [apply IH|]. intros [] m' ->. cbn.
    by rewrite <- app_assoc.
Qed.

Definition insert_all (c : gmap bytes BlockStatus) (kbs : list (bytes * BlockStatus)) : gmap bytes BlockStatus :=
  foldl (fun c kb => <[kb.1 := kb.2]> c) c kbs.

Lemma insert_all_other c kbs k : k ∉ kbs.*1 -> insert_all c kbs !! k = c !! k.
Proof.
  unfold insert_all. revert c. induction kbs as [|kb kbs IH]; intros c Hk; [done|]. cbn [foldl].
  rewrite fmap_cons in Hk. rewrite IH by set_solver. apply lookup_insert_ne. set_solver.
Qed.

Lemma insert_all_in c kbs k b : NoDup kbs.*1 -> (k, b) ∈ kbs -> insert_all c kbs !! k = Some b.
Proof.
  revert c. induction kbs as [|kb kbs IH]; intros c Hn Hin; [by apply elem_of_nil in Hin|].
  rewrite fmap_cons in Hn. apply NoDup_cons in Hn as [Hkb Hn]. apply elem_of_cons in Hin as [<-|Hin].
  - change (insert_all (<[k := b]> c) kbs !! k = Some b). rewrite insert_all_other by done. apply lookup_insert_eq.
  - by apply (IH (<[kb.1 := kb.2]> c)).
Qed.

Lemma insert_all_slots c kbs : NoDup kbs.*1 -> (forall k, k ∈ kbs.*1 -> c !! k = None) ->
  slots (insert_all c kbs) ≡ₚ (block_id <$> kbs.*2) ++ slots c.
Proof.
  revert c. induction kbs as [|kb kbs IH]; intros c Hn Hc; [done|].
  rewrite fmap_cons in Hn, Hc. apply NoDup_cons in Hn as [Hkb Hn].
  change (insert_all c (kb :: kbs)) with (insert_all (<[kb.1 := kb.2]> c) kbs).
  rewrite IH; [|done|].
  - rewrite slots_insert by (apply Hc; set_solver). rewrite !fmap_cons. simpl. solve_Permutation.
  - intros k Hk. rewrite lookup_insert_ne by (intros E; apply Hkb; by rewrite E). apply Hc. set_solver.
Qed.

Lemma insert_blocks_ok kbs m : policy_ok (policy m) -> NoDup kbs.*1 -> (forall k, k ∈ kbs.*1 -> stored m !! k = None) ->
  wp (for_each (fun kb => on_policy (insert_block kb.1 kb.2)) kbs) (fun _ m' =>
    m' = set_policy (policy m') m /\ policy_ok (policy m') /\ stored m' = insert_all (stored m) kbs) m.
Proof.
  revert m. induction kbs as [|kb kbs IH]; intros m Hok Hn Hc; cbn [for_each].
  { wp_steps. split; [by destruct m|done]. }
  rewrite fmap_cons in Hn, Hc. apply NoDup_cons in Hn as [Hkb Hn]. apply wp_bind, wp_zoom.
  eapply wp_mono; [apply insert_ok; [done|apply Hc; set_solver]|]. intros [] p [Hok' Hc'].
  eapply wp_mono; [apply IH; [done|done|]|].
  - intros k Hk. unfold stored. cbn. rewrite Hc', lookup_insert_ne by (intros E; apply Hkb; by rewrite E).
    apply Hc. set_solver.
  - intros [] m' (E & Hok2 & Hs). split; [by rewrite E|]. split; [done|]. rewrite Hs. unfold stored. cbn. by rewrite Hc'.
Qed.

(** What [make_room] leaves: [n] more free slots and without the evicted blocks,
    or the manager as it was. *)
Definition room (n : Z) (protected : gset bytes) (m : CPU) (r : option (list bytes)) (m' : CPU) : Prop :=
  match r with
  | None => m' = m
  | Some ks =>
      m' = set_policy (policy m') (set_pool (num_allocated_blocks m') (free_list m') m) /\
      num_allocated_blocks m' = num_allocated_blocks m /\
      zlen ks = Z.max 0 n /\ zlen (free_list m') = zlen (free_list m) + zlen ks /\ NoDup ks /\
      (forall k, k ∈ ks -> k ∉ protected /\ exists b, stored m !! k = Some b /\ ref_cnt b = 0) /\
      (forall k, stored m' !! k = if decide (k ∈ ks) then None else stored m !! k)
  end.

Lemma make_room_ok loads n protected m : cpu_inv loads m ->
  wp (make_room n protected) (fun r m' => cpu_inv loads m' /\ room n protected m r m' /\ (r = None -> 0 < n)) m.
Proof.
  intros I. unfold make_room. destruct (Z.ltb_spec 0 n) as [Hn|Hn].
  2:{ wp_steps. split; [done|]. split; [|done]. split; [by destruct m|]. split; [done|]. split; [simpl; lia|].
      split; [simpl; lia|]. split; [constructor|]. split; [set_solver|]. intros k. by rewrite decide_False by set_solver. }
  unfold on_policy. wp_steps. eapply wp_mono; [apply evict_ok; [apply I|lia]|].
  intros r p (Hok & Hev & Hnone). destruct r as [l|].
  2:{ wp_steps. rewrite (Hnone eq_refl). replace (set_policy (policy m) m) with m by (by destruct m). done. }
  destruct Hev as (Hlen & Hnd & Hin & Hc). wp_steps. eapply wp_mono; [apply free_all_ok|]. intros [] m' ->. wp_steps.
  assert (Hs : stored (set_pool (num_allocated_blocks m) (free_list m ++ (block_id <$> l.*2)) (set_policy p m)) = contents p) by done.
  split; [|split; [|done]].
  - destruct I. split; unfold stored in *; cbn; try done.
    + rewrite <- ci_slots0. rewrite (slots_evict l (contents (policy m)) (contents p) Hnd); [solve_Permutation| |done].
      intros k b Hkb. by apply Hin.
    + intros k. rewrite Hc. destruct (decide (k ∈ l.*1)) as [Hk|]; [|apply ci_refs0].
      apply list_elem_of_fmap in Hk as ([k' b] & -> & Hkb). destruct (Hin _ _ Hkb) as (Hb & Hr & _).
      specialize (ci_refs0 k'). cbn [fst]. rewrite Hb in ci_refs0. destruct ci_refs0 as [[]|]; lia.
  - split; [done|]. split; [done|]. split; [rewrite length_fmap; lia|]. cbn. rewrite length_app, !length_fmap.
    split; [lia|]. split; [done|]. split; [|exact Hc].
    intros k Hk. apply list_elem_of_fmap in Hk as ([k' b] & -> & Hkb). destruct (Hin _ _ Hkb) as (Hb & Hr & Hp).
    split; [done|]. by exists b.
Qed.

(** The outcome of [prepare_store]. *)
Definition store_outcome (m : CPU) (ks : list bytes) (r : option PrepareStoreOutput) (m' : CPU) : Prop :=
  let want := wanted m ks in
  let new := unstored m want in
  match r with
  | None => stored m' = stored m /\ free_list m' = free_list m /\ cpu_get_num_free_blocks m < zlen new
  | Some out =>
      keys_to_store out = new /\ length (store_spec out) = length new /\
      zlen (evicted_keys out) = Z.max 0 (zlen new - cpu_get_num_free_blocks m) /\ NoDup (evicted_keys out) /\
      (forall k, k ∈ evicted_keys out -> k ∉ want /\ exists b, stored m !! k = Some b /\ ref_cnt b = 0) /\
      (forall i k id, new !! i = Some k -> store_spec out !! i = Some id -> stored m' !! k = Some (mkStatus (-1) id)) /\
      (forall k, k ∉ new -> stored m' !! k = if decide (k ∈ evicted_keys out) then None else stored m !! k)
  end.

Lemma free_nonneg loads m : cpu_inv loads m -> 0 <= cpu_get_num_free_blocks m.
Proof. intros []. unfold cpu_get_num_free_blocks. lia. Qed.

Lemma unstored_spec m ks k : policy_ok (policy m) -> k ∈ unstored m ks <-> k ∈ ks /\ stored m !! k = None.
Proof.
  intros Hok. unfold unstored. rewrite in_filter, (get_ok _ _ Hok). unfold stored.
  destruct (contents (policy m) !! k); simpl; naive_solver.
Qed.

Lemma nodup_filter {A} (f : A -> bool) l : NoDup l -> NoDup (List.filter f l).
Proof. intros H. eapply sublist_NoDup; [exact H|apply filter_sub]. Qed.

(** Storing new blocks after room has been made. *)
Lemma store_new_ok loads new m : cpu_inv loads m -> NoDup new -> (forall k, k ∈ new -> stored m !! k = None) ->
  zlen new <= cpu_get_num_free_blocks m ->
  wp (blocks ← allocate_blocks new;
      assert_ (zlen blocks =? zlen new) ;;
      for_each (fun kb => on_policy (insert_block kb.1 kb.2)) (zip new blocks) ;;
      mret (block_id <$> blocks))
    (fun ids m' => cpu_inv loads m' /\ length ids = length new /\ 
      (forall i k id, new !! i = Some k -> ids !! i = Some id -> stored m' !! k = Some (mkStatus (-1) id)) /\
      (forall k, k ∉ new -> stored m' !! k = stored m !! k)) m.
Proof.
  intros I Hnd Hnone Hfree. wp_steps. eapply wp_mono.
  { apply (allocate_blocks_ok m new (slots (stored m))); [apply I|apply I|done|apply I]. }
  intros bs m1 [(E1 & Ha & Hr & Hp) Hlen]. wp_steps; [apply Z.eqb_eq; by rewrite Hlen|].
  assert (Hfst : (zip new bs).*1 = new) by (apply fst_zip; lia).
  assert (Hsnd : (zip new bs).*2 = bs) by (apply snd_zip; lia).
  assert (S1 : stored m1 = stored m) by (by rewrite E1).
  eapply wp_mono; [apply insert_blocks_ok; [rewrite E1; apply I|by rewrite Hfst|rewrite Hfst, S1; exact Hnone]|].
  intros [] m2 (E2 & Hok & S2). wp_steps. rewrite S1 in S2.
  assert (Hin : forall i k b, new !! i = Some k -> bs !! i = Some b -> stored m2 !! k = Some b).
  { intros i k b Hk Hb. rewrite S2. apply insert_all_in; [by rewrite Hfst|].
    apply list_elem_of_lookup. exists i. by rewrite lookup_zip_with, Hk, Hb. }
  assert (Hout : forall k, k ∉ new -> stored m2 !! k = stored m !! k).
  { intros k Hk. rewrite S2. apply insert_all_other. by rewrite Hfst. }
  assert (Hneg : forall i b, bs !! i = Some b -> ref_cnt b = -1) by (intros i b Hb; by eapply (Forall_lookup_1 _ _ _ _ Hr)).
  assert (num_blocks m1 = num_blocks m /\ max_tracker_size m1 = max_tracker_size m) as [B1 T1] by (rewrite E1; done).
  assert (num_blocks m2 = num_blocks m1 /\ max_tracker_size m2 = max_tracker_size m1 /\
    num_allocated_blocks m2 = num_allocated_blocks m1 /\ free_list m2 = free_list m1) as (B2 & T2 & A2 & F2)
    by (rewrite E2; done).
  split; [|split; [by rewrite length_fmap|split; [|done]]].
  - destruct I. split; rewrite ?B2, ?T2, ?A2, ?F2, ?B1, ?T1; try assumption.
    + rewrite S2, insert_all_slots; [|by rewrite Hfst|rewrite Hfst; exact Hnone].
      rewrite Hsnd, <- (Hp _ ci_slots0). solve_Permutation.
    + lia.
    + intros k. destruct (decide (k ∈ new)) as [Hk|Hk]; [|rewrite Hout by done; apply ci_refs0].
      apply list_elem_of_lookup in Hk as [i Hk].
      destruct (lookup_lt_is_Some_2 bs i) as [b Hb]; [rewrite Hlen; by eapply lookup_lt_Some|].
      rewrite (Hin i k b Hk Hb). left. split; [by eapply Hneg|].
      specialize (ci_refs0 k). rewrite Hnone in ci_refs0; [done|]. by eapply list_elem_of_lookup_2.
  - intros i k id Hk Hid.
    rewrite list_lookup_fmap in Hid. destruct (bs !! i) as [b|] eqn:Hb; [|done]. injection Hid as <-.
    rewrite (Hin i k b Hk Hb). f_equal. specialize (Hneg i b Hb). destruct b; simpl in *. by subst.
Qed.

Lemma prepare_store_ok loads m ks : cpu_inv loads m -> NoDup ks ->
  wp (prepare_store ks) (fun r m' => cpu_inv loads m' /\ store_outcome m ks r m') m.
Proof.
  intros I Hnd. unfold prepare_store. apply wp_bind, wp_get. cbv zeta. set (want := wanted m ks).
  apply wp_bind. apply (wp_mono _ (fun _ m1 => same_pool m m1)).
  { destruct (counts m); cbn [is_some]; by wp_steps. }
  intros [] m1 Sm. pose proof (inv_same _ _ _ Sm I) as I1. destruct Sm as (Ep & Eb & Et & Ea & Ef).
  assert (Hw : NoDup want) by (unfold want, wanted; destruct (counts m); [by apply nodup_filter|done]).
  assert (Hun : NoDup (unstored m want)) by (by apply nodup_filter).
  assert (Hs1 : stored m1 = stored m) by (unfold stored; by rewrite Ep).
  assert (Hfree1 : cpu_get_num_free_blocks m1 = cpu_get_num_free_blocks m) by (unfold cpu_get_num_free_blocks; by rewrite Ef, Eb, Ea).
  unfold store_outcome. fold want. cbv zeta. set (new := unstored m want) in *.
  assert (Hnew : forall k, k ∈ new -> k ∈ want /\ stored m !! k = None) by (intros k; by apply unstored_spec, I).
  pose proof (free_nonneg _ _ I).
  destruct new as [|k0 new0] eqn:En.
  { wp_steps. split; [done|]. split; [done|]. split; [done|]. split; [simpl; lia|]. split; [constructor|].
    split; [set_solver|]. split; [done|]. intros k _. rewrite decide_False by set_solver. by rewrite Hs1. }
  rewrite <- En in *. clear En k0 new0. apply wp_bind.
  eapply wp_mono; [apply make_room_ok; exact I1|]. intros r m2 (I2 & Hroom & Hpos). destruct r as [ks2|].
  2:{ wp_steps. simpl in Hroom. subst m2. split; [done|]. split; [done|]. split; [by rewrite Ef|]. specialize (Hpos eq_refl). lia. }
  destruct Hroom as (E2 & Ea2 & Hlen2 & Hfl2 & Hnd2 & Hev & Hs2). rewrite Hs1 in Hev, Hs2.
  apply wp_bind. apply (wp_mono _ (fun _ m3 => same_pool m2 m3)).
  { destruct ks2; [by wp_steps|]. unfold push_offload_event. wp_steps. by destruct (events m2). }
  intros [] m3 S3. pose proof (inv_same _ _ _ S3 I2) as I3. destruct S3 as (Ep3 & Eb3 & _ & Ea3 & Ef3).
  assert (Hs3 : stored m3 = stored m2) by (unfold stored; by rewrite Ep3).
  assert (Hb2 : num_blocks m2 = num_blocks m1) by (by rewrite E2).
  assert (Habs : forall k, k ∈ new -> stored m3 !! k = None).
  { intros k Hk. rewrite Hs3, Hs2. case_decide; [done|by apply Hnew]. }
  assert (Hroom3 : zlen new <= cpu_get_num_free_blocks m3).
  { unfold cpu_get_num_free_blocks in *. rewrite Ef3, Ea3, Eb3, Ea2, Hb2. lia. }
  pose proof (store_new_ok loads new m3 I3 Hun Habs Hroom3) as Hstore.
  revert Hstore. unfold wp, mbind, M_bind. intros Hstore.
  destruct (allocate_blocks new m3) as [[bs|] m4]; [|done].
  destruct (assert_ (zlen bs =? zlen new) m4) as [[[]|] m5]; [|done].
  destruct (for_each _ _ m5) as [[[]|] m6]; [|done]. simpl in Hstore |- *.
  destruct Hstore as (I6 & Hl6 & Hin6 & Hout6). split; [done|]. split; [done|]. split; [done|].
  split; [cbn [evicted_keys]; lia|]. split; [done|]. split.
  { intros k Hk. destruct (Hev k Hk) as [Hp Hb]. split; [by rewrite elem_of_list_to_set in Hp|done]. }
  split; [done|]. intros k Hk. by rewrite Hout6, Hs3, Hs2.
Qed.

Lemma not_ready b n : ref_cnt b = -1 /\ n = 0%nat \/ ref_cnt b = Z.of_nat n -> is_ready b = false -> ref_cnt b = -1 /\ n = 0%nat.
Proof. intros [H|H]; [done|]. unfold is_ready. intros E%Z.leb_gt. lia. Qed.

Lemma store_done_ok loads acc k m : cpu_inv loads m -> wp (store_done acc k) (fun _ m' => cpu_inv loads m') m.
Proof.
  intros I. unfold store_done. wp_steps. rewrite (get_ok _ _ (ci_policy _ _ I)).
  pose proof (ci_refs _ _ I k) as Href. unfold stored in Href. destruct (contents (policy m) !! k) as [b|] eqn:Hb; [|by wp_steps].
  destruct (is_ready b) eqn:Hr; cbn [negb]; [by wp_steps|]. destruct (not_ready _ _ Href Hr) as [_ Hc]. wp_steps.
  eapply (inv_assign loads loads m k b 0); try done; [by rewrite Hc|apply I].
Qed.

Lemma store_failed_ok loads k m : cpu_inv loads m -> wp (store_failed k) (fun _ m' => cpu_inv loads m') m.
Proof.
  intros I. unfold store_failed. wp_steps. rewrite (get_ok _ _ (ci_policy _ _ I)).
  pose proof (ci_refs _ _ I k) as Href. unfold stored in Href. destruct (contents (policy m) !! k) as [b|] eqn:Hb; [|by wp_steps].
  destruct (is_ready b) eqn:Hr; cbn [negb]; [by wp_steps|]. destruct (not_ready _ _ Href Hr) as [_ Hc].
  apply wp_bind, wp_zoom. eapply wp_mono; [apply remove_ok; [apply I|by eexists]|]. intros [] p [Hok Hs].
  unfold free_block. wp_steps. destruct I. split; unfold stored in *; cbn; try assumption.
  - rewrite <- ci_slots0, (slots_delete _ _ _ Hb), Hs. solve_Permutation.
  - intros k'. rewrite Hs. destruct (decide (k' = k)) as [->|]; [by rewrite lookup_delete_eq|].
    rewrite lookup_delete_ne by done. apply ci_refs0.
Qed.

Lemma complete_store_ok loads ks success m : cpu_inv loads m ->
  wp (complete_store ks success) (fun _ m' => cpu_inv loads m') m.
Proof.
  intros I. unfold complete_store. apply wp_bind. apply (wp_mono _ (fun _ m1 => cpu_inv loads m1)).
  - destruct success.
    + apply (wp_for_fold (fun _ _ _ m1 => cpu_inv loads m1)); [done|]. intros. by apply store_done_ok.
    + apply wp_bind. apply (wp_mono _ (fun _ m1 => cpu_inv loads m1)); [|intros [] m1 I1; by wp_steps].
      apply (wp_for_each (fun _ _ m1 => cpu_inv loads m1)); [done|]. intros. by apply store_failed_ok.
  - intros st m1 I1. destruct st; [by wp_steps|]. unfold push_offload_event. wp_steps.
    eapply inv_same; [|exact I1]. by destruct (events m1).
Qed.

Lemma reset_cache_ok loads m : cpu_inv loads m -> wp reset_cache (fun _ m' => cpu_inv [] m' /\ stored m' = ∅) m.
Proof.
  intros I. unfold reset_cache. apply wp_bind, wp_zoom. eapply wp_mono; [apply clear_ok, I|]. intros [] p [Hok Hs].
  wp_steps. assert (E : stored (set_pool 0 [] (set_policy p m)) = ∅) by exact Hs. split; [|done].
  destruct I. split; rewrite ?E; cbn; try assumption; try done; lia.
Qed.

Lemma cpu_init_inv p events threshold tracker : policy_ok p -> contents p = ∅ -> 0 <= cap < 2 ^ 63 -> 1 <= tracker ->
  cpu_inv [] (cpu_init_with cap p events threshold tracker).
Proof. intros Hok Hc Hn Ht. split; unfold stored; cbn; rewrite ?Hc; try done; lia. Qed.

(** ** The operations of the scheduler *)

Inductive off_op :=
| OLookup (key : bytes) | OPrepareLoad (keys : list bytes) | OTouch (keys : list bytes)
| OCompleteLoad (keys : list bytes) | OPrepareStore (keys : list bytes)
| OCompleteStore (keys : list bytes) (success : bool) | OReset | OTakeEvents | OGetStats.

Definition ignore {A} (op : M CPU A) : M CPU unit := op ;; mret tt.

Definition run_off_op (o : off_op) : M CPU unit :=
  match o with
  | OLookup k => ignore (lookup k)
  | OPrepareLoad ks => ignore (prepare_load ks)
  | OTouch ks => cpu_touch ks
  | OCompleteLoad ks => complete_load ks
  | OPrepareStore ks => ignore (prepare_store ks)
  | OCompleteStore ks success => complete_store ks success
  | OReset => reset_cache
  | OTakeEvents => ignore cpu_take_events
  | OGetStats => ignore get_stats
  end.

(** The rules of the interface, and the transfers in flight afterwards: only
    blocks that a lookup reported are loaded, a transfer completes once, the
    keys of a store are distinct, and a reset forgets all transfers. *)
Definition off_op_ok (loads : list bytes) (m : CPU) (o : off_op) (loads' : list bytes) : Prop :=
  match o with
  | OPrepareLoad ks => Forall (fun k => exists id, readable m k id) ks /\ loads' = ks ++ loads /\ zlen loads' < 2 ^ 31
  | OCompleteLoad ks => loads ≡ₚ ks ++ loads'
  | OPrepareStore ks => NoDup ks /\ loads' = loads
  | OReset => loads' = []
  | _ => loads' = loads
  end.

Inductive off_reachable (m0 : CPU) : list bytes -> CPU -> Prop :=
| off_start : off_reachable m0 [] m0
| off_step loads m o loads' m' : off_reachable m0 loads m -> off_op_ok loads m o loads' ->
    run_off_op o m = (Ok tt, m') -> off_reachable m0 loads' m'.

Lemma run_off_op_ok loads m o loads' : cpu_inv loads m -> off_op_ok loads m o loads' ->
  wp (run_off_op o) (fun _ m' => cpu_inv loads' m') m.
Proof.
  intros I Hok. destruct o as [k|ks|ks|ks|ks|ks success| | |]; cbn [run_off_op off_op_ok] in *; unfold ignore.
  - subst. apply wp_bind. eapply wp_mono; [by apply lookup_ok|]. intros r m' [I' _]. by wp_steps.
  - destruct Hok as (Hr & -> & Hlen). apply wp_bind.
    assert (exists ids, Forall2 (readable m) ks ids) as [ids Hids].
    { clear -Hr. induction Hr as [|k ks [id Hk] _ [ids IH]]; [by exists []|]. exists (id :: ids). by constructor. }
    eapply wp_mono; [apply (prepare_load_ok loads m ks ids I Hids)|].
    + rewrite length_app in Hlen. lia.
    + intros r m' [_ I']. by wp_steps.
  - subst. eapply wp_mono; [by apply touch_all_ok|]. by intros [] m' [I' _].
  - apply complete_load_ok. by eapply inv_perm.
  - destruct Hok as [Hnd ->]. apply wp_bind. eapply wp_mono; [by apply prepare_store_ok|]. intros r m' [I' _]. by wp_steps.
  - subst. by apply complete_store_ok.
  - subst. eapply wp_mono; [by apply (reset_cache_ok loads)|]. by intros [] m' [I' _].
  - subst. apply wp_bind. unfold cpu_take_events. wp_steps. destruct (events m); wp_steps; [|done].
    by eapply inv_same; [|exact I].
  - subst. apply wp_bind. unfold get_stats. wp_steps. destruct (store_threshold m <? 2); wp_steps; [done|].
    by eapply inv_same; [|exact I].
Qed.

Lemma off_reachable_inv m0 loads m : cpu_inv [] m0 -> off_reachable m0 loads m -> cpu_inv loads m.
Proof.
  intros I0. induction 1 as [|loads m o loads' m' _ IH Hok Hrun]; [done|].
  exact (wp_run _ _ _ _ _ Hrun (run_off_op_ok _ _ _ _ IH Hok)).
Qed.

Lemma slots_distinct loads m k1 k2 c1 c2 : cpu_inv loads m -> stored m !! k1 = Some c1 -> stored m !! k2 = Some c2 ->
  block_id c1 = block_id c2 -> k1 = k2.
Proof.
  intros I H1 H2 E. destruct (decide (k1 = k2)) as [|Hne]; [done|]. exfalso.
  assert (Hnd : NoDup (slots (stored m) ++ free_list m)).
  { rewrite (ci_slots _ _ I). unfold zrange. apply NoDup_fmap; [intros ? ? ?; lia|apply NoDup_seq]. }
  apply NoDup_app in Hnd as [Hnd _].
  rewrite (slots_delete _ _ _ H1), (slots_delete _ k2 c2) in Hnd by (by rewrite lookup_delete_ne).
  apply NoDup_cons in Hnd as [Hnd _]. apply Hnd. rewrite E. set_solver.
Qed.

Lemma slot_in_range loads m k b : cpu_inv loads m -> stored m !! k = Some b -> 0 <= block_id b < cap.
Proof.
  intros I Hb. assert (Hin : block_id b ∈ zrange (num_allocated_blocks m)).
  { rewrite <- (ci_slots _ _ I), (slots_delete _ _ _ Hb). set_solver. }
  unfold zrange in Hin. apply list_elem_of_fmap in Hin as (j & -> & Hj%elem_of_seq). destruct I. lia.
Qed.

Lemma pool_conserved loads m : cpu_inv loads m -> Z.of_nat (size (stored m)) + cpu_get_num_free_blocks m = cap.
Proof.
  intros I. pose proof (Permutation_length (ci_slots _ _ I)) as Hl. rewrite length_app, length_zrange in Hl.
  unfold slots in Hl. rewrite !length_fmap, length_map_to_list in Hl. unfold cpu_get_num_free_blocks. destruct I. lia.
Qed.
End safety.

(** ** The theorems *)

Lemma offload_inv n name ev threshold tracker m0 loads m :
  0 <= n < 2 ^ 53 -> 1 <= tracker -> cpu_init n name ev threshold tracker = Ok m0 -> off_reachable m0 loads m ->
  cpu_inv n loads m.
Proof.
  intros Hn Ht Hinit Hr. unfold cpu_init in Hinit. destruct (make_policy name n) as [p|] eqn:Ep; [|done].
  injection Hinit as <-. destruct (make_policy_ok name n p Hn Ep) as [Hok Hc].
  eapply off_reachable_inv; [|exact Hr]. apply cpu_init_inv; [done..|lia|done].
Qed.

(** C35. Offloaded blocks are safe. For either policy, in every state the
    scheduler can reach from a new manager: no two keys share a slot of the CPU
    buffer, slots are in range, stored and free slots add up to the capacity; a
    key that transfers are reading is stored, complete and counts exactly those
    transfers; and no operation raises. *)
Theorem offload_blocks_safe n name ev threshold tracker m0 loads m :
  0 <= n < 2 ^ 53 -> 1 <= tracker -> cpu_init n name ev threshold tracker = Ok m0 -> off_reachable m0 loads m ->
  (forall k1 k2 c1 c2, stored m !! k1 = Some c1 -> stored m !! k2 = Some c2 -> block_id c1 = block_id c2 -> k1 = k2) /\
  (forall k b, stored m !! k = Some b -> 0 <= block_id b < n) /\
  Z.of_nat (size (stored m)) + cpu_get_num_free_blocks m = n /\
  (forall k, k ∈ loads -> exists b, stored m !! k = Some b /\ is_ready b = true /\ ref_cnt b = Z.of_nat (count k loads)) /\
  forall o loads', off_op_ok loads m o loads' -> exists m', run_off_op o m = (Ok tt, m').
Proof.
  intros Hn Ht Hinit Hr. pose proof (offload_inv _ _ _ _ _ _ _ _ Hn Ht Hinit Hr) as I.
  split; [intros; by eapply slots_distinct|]. split; [intros k b; by eapply slot_in_range|].
  split; [by eapply pool_conserved|]. split.
  - intros k Hk%count_pos. pose proof (ci_refs _ _ _ I k) as Href.
    destruct (stored m !! k) as [b|]; [|lia]. exists b. split; [done|]. destruct Href as [[]|Href]; [lia|].
    split; [|done]. apply Z.leb_le. lia.
  - intros o loads' Hop. destruct (wp_returns _ _ _ (run_off_op_ok _ _ _ _ _ I Hop)) as ([] & m' & Hrun & _). by exists m'.
Qed.

(** [prepare_store] is exact. In every reachable state, for distinct keys, it
    never raises. It refuses only when slots are missing, and then changes
    neither blocks nor slots; or it stores exactly the keys that were looked up
    often enough and are not yet stored, in the slots it reports and not yet
    readable, having evicted exactly as many blocks as slots were missing, all
    of them idle and none of them asked for; every other block stays. *)
Theorem prepare_store_exact n name ev threshold tracker m0 loads m ks :
  0 <= n < 2 ^ 53 -> 1 <= tracker -> cpu_init n name ev threshold tracker = Ok m0 -> off_reachable m0 loads m ->
  NoDup ks -> exists r m', prepare_store ks m = (Ok r, m') /\ store_outcome m ks r m'.
Proof.
  intros Hn Ht Hinit Hr Hnd. pose proof (offload_inv _ _ _ _ _ _ _ _ Hn Ht Hinit Hr) as I.
  destruct (wp_returns _ _ _ (prepare_store_ok n loads m ks I Hnd)) as (r & m' & Hrun & _ & Ho). by exists r, m'.
Qed.

(** ** Examples *)

Definition key (c : Byte.byte) : bytes := [c].
Definition ka : bytes := key Byte.x61.
Definition kb : bytes := key Byte.x62.
Definition kc : bytes := key Byte.x63.
Definition kd : bytes := key Byte.x64.

Definition small_arc : CPUOffloadingManager AnyPolicy := cpu_init_with 2 (ARC (ARC_init 2)) true 1 64000.

(** Operations without transfers, run one after the other. *)
Definition quiet (o : off_op) : bool :=
  match o with
  | OPrepareStore ks => bool_decide (NoDup ks)
  | OPrepareLoad _ | OCompleteLoad _ => false
  | _ => true
  end.

Fixpoint run_quiet (os : list off_op) (m : CPUOffloadingManager AnyPolicy) : option (CPUOffloadingManager AnyPolicy) :=
  match os with
  | [] => Some m
  | o :: os' => match run_off_op o m with
                | (Ok _, m') => if quiet o then run_quiet os' m' else None
                | _ => None
                end
  end.

Lemma run_quiet_reachable os m0 m m' : off_reachable m0 [] m -> run_quiet os m = Some m' -> off_reachable m0 [] m'.
Proof.
  revert m. induction os as [|o os IH]; intros m Hr; cbn [run_quiet]; [by intros [= <-]|].
  destruct (run_off_op o m) as [[[]|] m1] eqn:Hrun; [|done]. destruct (quiet o) eqn:Hq; [|done].
  apply IH. eapply off_step; [exact Hr| |exact Hrun].
  destruct o; try done. split; [by apply bool_decide_eq_true in Hq|done].
Qed.

(** Two blocks stored, [ka] touched twice; [kb] gives way to [kc] and is asked
    for again, so that the policy favours recent blocks; then [ka] is read. *)
Definition quiet_ops : list off_op :=
  [OPrepareStore [ka; kb]; OCompleteStore [ka; kb] true; OTouch [ka]; OPrepareStore [kc];
   OCompleteStore [kc] true; OTouch [kb]; OTouch [kb]; OLookup ka].
Definition quiet_arc : CPUOffloadingManager AnyPolicy := default small_arc (run_quiet quiet_ops small_arc).

Definition loaded_arc : CPUOffloadingManager AnyPolicy := (run_off_op (OPrepareLoad [ka]) quiet_arc).2.

Lemma loaded_arc_reachable : off_reachable small_arc [ka] loaded_arc.
Proof.
  apply (off_step small_arc [] quiet_arc (OPrepareLoad [ka]) [ka] loaded_arc).
  - apply (run_quiet_reachable quiet_ops _ small_arc); [apply off_start|by vm_compute].
  - split; [|by split]. apply Forall_singleton. exists 0, (mkStatus 0 0). by vm_compute.
  - by vm_compute.
Qed.

Lemma offload_blocks_safe_witness :
  (forall k b, stored loaded_arc !! k = Some b -> 0 <= block_id b < 2) /\
  exists m', run_off_op (OCompleteLoad [ka]) loaded_arc = (Ok tt, m').
Proof.
  pose proof (offload_blocks_safe 2 "arc" true 1 64000 small_arc [ka] loaded_arc
    ltac:(lia) ltac:(lia) ltac:(reflexivity) loaded_arc_reachable) as (_ & H1 & _ & _ & H2).
  split; [exact H1|]. apply (H2 (OCompleteLoad [ka]) []). cbn [off_op_ok]. by rewrite app_nil_r.
Defined.

Lemma prepare_store_exact_witness : exists r m', prepare_store [kd] loaded_arc = (Ok r, m') /\
  store_outcome loaded_arc [kd] r m'.
Proof.
  apply (prepare_store_exact 2 "arc" true 1 64000 small_arc [ka] loaded_arc [kd]
    ltac:(lia) ltac:(lia) ltac:(reflexivity) loaded_arc_reachable). apply NoDup_singleton.
Defined.

(** When its target for recent blocks is large, the ARC policy looks for a block
    to evict among the frequent ones only: with [ka] being read it refuses to
    make room, although [kc] is idle and nobody asks for it. *)
Theorem arc_refuses_evictable_block :
  (prepare_store [kd] loaded_arc).1 = Ok None /\
  exists b, stored loaded_arc !! kc = Some b /\ ref_cnt b = 0 /\ kc ∉ [kd].
Proof.
  split; [by vm_compute|]. exists (mkStatus 0 1). split; [by vm_compute|]. split; [done|]. intros H%list_elem_of_singleton. done.
Qed.
End OffloadManager.
