(* ===== verification/SchedulerState.v ===== *)
(** * SchedulerState

    v1/core/sched/scheduler.py and output.py, the data: the configuration of a
    scheduler, the interfaces through which it uses the KV cache manager and the
    encoder cache manager, its state, the local variables of one step, and the
    output of a step.

    This is the scheduler without a KV connector and without an EC connector
    ([self.connector] and [self.ec_connector] are None), and without routed
    experts. *)

From S2P Require Import Prelude FreeQueue Request RequestQueue BlockPool EncoderCache Coordinator KVCacheManager.
From stdpp Require Export functions list.

Module SchedulerState.
Import Request RequestQueue KVCacheManager.
#[local] Open Scope Z_scope.

(** ** The interfaces *)

(** What the scheduler calls of a KV cache manager. *)
Class SlotManager (KV : Type) := {
  sm_new_step_starts : M KV unit;
  sm_allocate_slots : Request -> SlotArgs -> M KV (option KVCacheBlocks);
  sm_free : Request -> M KV unit;
  sm_get_computed_blocks : Request -> M KV (KVCacheBlocks * Z);
  sm_empty_blocks : KV -> KVCacheBlocks;
  sm_get_blocks : string -> KV -> KVCacheBlocks;
  sm_get_num_common_prefix_blocks : string -> M KV (list Z);
  sm_take_new_block_ids : M KV (list Z);
  sm_reset_prefix_cache : M KV bool;
  sm_cache_blocks : Request -> Z -> M KV unit;
  sm_uncached_common_prefix : KV -> Z;
  sm_take_events : M KV (list (BlockPool.KVCacheEvent * option (string * option Z)))
}.

(** What it calls of an encoder cache manager; [em_get_cached_input_ids] in the
    order of [list(set)]. *)
Class EncoderManager (EC : Type) := {
  em_check_and_update_cache : Request -> Z -> M EC bool;
  em_can_allocate : Request -> Z -> Z -> Z -> M EC bool;
  em_allocate : Request -> Z -> M EC unit;
  em_free : Request -> M EC unit;
  em_free_encoder_input : Request -> Z -> M EC unit;
  em_get_cached_input_ids : Request -> EC -> list Z;
  em_get_freed_mm_hashes : M EC (list string);
  em_reset : M EC unit
}.

(** The managers of the repository. *)
#[local] Instance kv_slot_manager (use_int : bool) (sha256 : bytes -> bytes) : SlotManager KVCacheManager := {
  sm_new_step_starts := k_new_step_starts;
  sm_allocate_slots := allocate_slots use_int sha256;
  sm_free := k_free;
  sm_get_computed_blocks := get_computed_blocks;
  sm_empty_blocks := empty_kv_cache_blocks;
  sm_get_blocks := k_get_blocks;
  sm_get_num_common_prefix_blocks := k_get_num_common_prefix_blocks;
  sm_take_new_block_ids := k_take_new_block_ids;
  sm_reset_prefix_cache := k_reset_prefix_cache;
  sm_cache_blocks := k_cache_blocks use_int sha256;
  sm_uncached_common_prefix k := Coordinator.num_uncached_common_prefix_tokens (coordinator k);
  sm_take_events := k_take_events
}.

#[local] Instance ec_encoder_manager (order : gset Z -> list Z) : EncoderManager EncoderCache.EncoderCacheManager := {
  em_check_and_update_cache := EncoderCache.check_and_update_cache;
  em_can_allocate := EncoderCache.can_allocate;
  em_allocate := EncoderCache.allocate;
  em_free := EncoderCache.ec_free order;
  em_free_encoder_input := EncoderCache.free_encoder_input;
  em_get_cached_input_ids r m := order (EncoderCache.get_cached_input_ids r m);
  em_get_freed_mm_hashes := EncoderCache.get_freed_mm_hashes;
  em_reset := EncoderCache.reset
}.

#[local] Instance ed_encoder_manager : EncoderManager EncoderCache.EncoderDecoderCacheManager := {
  em_check_and_update_cache := EncoderCache.ed_check_and_update_cache;
  em_can_allocate := EncoderCache.ed_can_allocate;
  em_allocate := EncoderCache.ed_allocate;
  em_free := EncoderCache.ed_free;
  em_free_encoder_input := EncoderCache.ed_free_encoder_input;
  em_get_cached_input_ids r _ := EncoderCache.ed_get_cached_input_ids r;
  em_get_freed_mm_hashes := EncoderCache.ed_get_freed_mm_hashes;
  em_reset := EncoderCache.ed_reset
}.

(** ** Configuration *)

(** The attributes that [__init__] computes once. [max_loras] is the LoRA
    configuration where there is one; [send_token_ids] is
    [use_pp and not async_scheduling]; [async_scheduling] and [pp_size] tell an
    [AsyncScheduler]. *)
Record SchedulerConfig := mkConfig {
  policy : SchedulingPolicy;
  max_num_running_reqs : Z;
  max_num_scheduled_tokens : Z;
  max_model_len : Z;
  num_sampled_tokens_per_step : Z;
  long_prefill_token_threshold : Z;
  enable_chunked_prefill : bool;
  disable_chunked_mm_input : bool;
  is_encoder_decoder : bool;
  max_num_encoder_input_tokens : Z;
  requires_eagle_cache_drop : bool;
  cfg_num_lookahead_tokens : Z;
  num_spec_tokens : Z;
  has_mamba_layers : bool;
  need_mamba_block_aligned_split : bool;
  cache_block_size : Z;
  scheduler_reserve_full_isl : bool;
  max_loras : option Z;
  use_v2_model_runner : bool;
  needs_kv_cache_zeroing : bool;
  send_token_ids : bool;
  num_kv_groups : nat;
  async_scheduling : bool;
  pp_size : Z
}.

(** ** State *)

Inductive PauseState := UNPAUSED | PAUSED_NEW | PAUSED_ALL.
#[export] Instance pause_eq_dec : EqDecision PauseState.
Proof. solve_decision. Defined.

Record StreamingUpdate := mkUpdate {
  su_mm_features : list MultiModalFeatureSpec;
  su_prompt_token_ids : option (list Z);
  su_max_tokens : Z;
  su_arrival_time : Z;
  su_sampling_params : option SamplingParams
}.

(** [StreamingUpdate.from_request] *)
Definition streaming_update (r : Request) : option StreamingUpdate :=
  if resumable r
  then Some (mkUpdate (mm_features r) (prompt_token_ids r) (max_tokens r) (arrival_time r) (sampling_params r))
  else None.

(** The requests are objects, [objs] is the store; [streaming_queue] is that
    attribute of each request. *)
Record Scheduler {KV EC : Type} := mkScheduler {
  objs : Z -> Request;
  streaming_queue : Z -> option (list (option StreamingUpdate));
  requests : gmap string Z;
  waiting : RequestQueue;
  skipped_waiting : RequestQueue;
  running : list Z;
  finished_req_ids : gset string;
  finished_req_ids_dict : option (gmap Z (gset string));
  prev_step_scheduled_req_ids : gset string;
  num_waiting_for_streaming_input : Z;
  finished_recving_kv_req_ids : gset string;
  failed_recving_kv_req_ids : gset string;
  kv_cache_manager : KV;
  encoder_cache_manager : EC;
  current_step : Z;
  pause_state : PauseState;
  inflight_prefills : gset Z
}.
#[global] Arguments Scheduler : clear implicits.
#[global] Arguments mkScheduler {KV EC}.

Section state.
Context {KV EC : Type}.
#[local] Notation State := (Scheduler KV EC).

(** Attribute assignment. *)
Definition set_objs (v : Z -> Request) (s : State) : State :=
  mkScheduler v (streaming_queue s) (requests s) (waiting s) (skipped_waiting s) (running s)
    (finished_req_ids s) (finished_req_ids_dict s) (prev_step_scheduled_req_ids s)
    (num_waiting_for_streaming_input s) (finished_recving_kv_req_ids s)
    (failed_recving_kv_req_ids s) (kv_cache_manager s) (encoder_cache_manager s) (current_step
    s) (pause_state s) (inflight_prefills s).
Definition set_streaming_queue (v : Z -> option (list (option StreamingUpdate))) (s : State) : State :=
  mkScheduler (objs s) v (requests s) (waiting s) (skipped_waiting s) (running s)
    (finished_req_ids s) (finished_req_ids_dict s) (prev_step_scheduled_req_ids s)
    (num_waiting_for_streaming_input s) (finished_recving_kv_req_ids s)
    (failed_recving_kv_req_ids s) (kv_cache_manager s) (encoder_cache_manager s) (current_step
    s) (pause_state s) (inflight_prefills s).
Definition set_requests (v : gmap string Z) (s : State) : State :=
  mkScheduler (objs s) (streaming_queue s) v (waiting s) (skipped_waiting s) (running s)
    (finished_req_ids s) (finished_req_ids_dict s) (prev_step_scheduled_req_ids s)
    (num_waiting_for_streaming_input s) (finished_recving_kv_req_ids s)
    (failed_recving_kv_req_ids s) (kv_cache_manager s) (encoder_cache_manager s) (current_step
    s) (pause_state s) (inflight_prefills s).
Definition set_waiting (v : RequestQueue) (s : State) : State :=
  mkScheduler (objs s) (streaming_queue s) (requests s) v (skipped_waiting s) (running s)
    (finished_req_ids s) (finished_req_ids_dict s) (prev_step_scheduled_req_ids s)
    (num_waiting_for_streaming_input s) (finished_recving_kv_req_ids s)
    (failed_recving_kv_req_ids s) (kv_cache_manager s) (encoder_cache_manager s) (current_step
    s) (pause_state s) (inflight_prefills s).
Definition set_skipped_waiting (v : RequestQueue) (s : State) : State :=
  mkScheduler (objs s) (streaming_queue s) (requests s) (waiting s) v (running s)
    (finished_req_ids s) (finished_req_ids_dict s) (prev_step_scheduled_req_ids s)
    (num_waiting_for_streaming_input s) (finished_recving_kv_req_ids s)
    (failed_recving_kv_req_ids s) (kv_cache_manager s) (encoder_cache_manager s) (current_step
    s) (pause_state s) (inflight_prefills s).
Definition set_running (v : list Z) (s : State) : State :=
  mkScheduler (objs s) (streaming_queue s) (requests s) (waiting s) (skipped_waiting s) v
    (finished_req_ids s) (finished_req_ids_dict s) (prev_step_scheduled_req_ids s)
    (num_waiting_for_streaming_input s) (finished_recving_kv_req_ids s)
    (failed_recving_kv_req_ids s) (kv_cache_manager s) (encoder_cache_manager s) (current_step
    s) (pause_state s) (inflight_prefills s).
Definition set_finished_req_ids (v : gset string) (s : State) : State :=
  mkScheduler (objs s) (streaming_queue s) (requests s) (waiting s) (skipped_waiting s) (running
    s) v (finished_req_ids_dict s) (prev_step_scheduled_req_ids s)
    (num_waiting_for_streaming_input s) (finished_recving_kv_req_ids s)
    (failed_recving_kv_req_ids s) (kv_cache_manager s) (encoder_cache_manager s) (current_step
    s) (pause_state s) (inflight_prefills s).
Definition set_finished_req_ids_dict (v : option (gmap Z (gset string))) (s : State) : State :=
  mkScheduler (objs s) (streaming_queue s) (requests s) (waiting s) (skipped_waiting s) (running
    s) (finished_req_ids s) v (prev_step_scheduled_req_ids s) (num_waiting_for_streaming_input
    s) (finished_recving_kv_req_ids s) (failed_recving_kv_req_ids s) (kv_cache_manager s)
    (encoder_cache_manager s) (current_step s) (pause_state s) (inflight_prefills s).
Definition set_prev_step_scheduled_req_ids (v : gset string) (s : State) : State :=
  mkScheduler (objs s) (streaming_queue s) (requests s) (waiting s) (skipped_waiting s) (running
    s) (finished_req_ids s) (finished_req_ids_dict s) v (num_waiting_for_streaming_input s)
    (finished_recving_kv_req_ids s) (failed_recving_kv_req_ids s) (kv_cache_manager s)
    (encoder_cache_manager s) (current_step s) (pause_state s) (inflight_prefills s).
Definition set_num_waiting_for_streaming_input (v : Z) (s : State) : State :=
  mkScheduler (objs s) (streaming_queue s) (requests s) (waiting s) (skipped_waiting s) (running
    s) (finished_req_ids s) (finished_req_ids_dict s) (prev_step_scheduled_req_ids s) v
    (finished_recving_kv_req_ids s) (failed_recving_kv_req_ids s) (kv_cache_manager s)
    (encoder_cache_manager s) (current_step s) (pause_state s) (inflight_prefills s).
Definition set_finished_recving_kv_req_ids (v : gset string) (s : State) : State :=
  mkScheduler (objs s) (streaming_queue s) (requests s) (waiting s) (skipped_waiting s) (running
    s) (finished_req_ids s) (finished_req_ids_dict s) (prev_step_scheduled_req_ids s)
    (num_waiting_for_streaming_input s) v (failed_recving_kv_req_ids s) (kv_cache_manager s)
    (encoder_cache_manager s) (current_step s) (pause_state s) (inflight_prefills s).
Definition set_failed_recving_kv_req_ids (v : gset string) (s : State) : State :=
  mkScheduler (objs s) (streaming_queue s) (requests s) (waiting s) (skipped_waiting s) (running
    s) (finished_req_ids s) (finished_req_ids_dict s) (prev_step_scheduled_req_ids s)
    (num_waiting_for_streaming_input s) (finished_recving_kv_req_ids s) v (kv_cache_manager s)
    (encoder_cache_manager s) (current_step s) (pause_state s) (inflight_prefills s).
Definition set_kv_cache_manager (v : KV) (s : State) : State :=
  mkScheduler (objs s) (streaming_queue s) (requests s) (waiting s) (skipped_waiting s) (running
    s) (finished_req_ids s) (finished_req_ids_dict s) (prev_step_scheduled_req_ids s)
    (num_waiting_for_streaming_input s) (finished_recving_kv_req_ids s)
    (failed_recving_kv_req_ids s) v (encoder_cache_manager s) (current_step s) (pause_state s)
    (inflight_prefills s).
Definition set_encoder_cache_manager (v : EC) (s : State) : State :=
  mkScheduler (objs s) (streaming_queue s) (requests s) (waiting s) (skipped_waiting s) (running
    s) (finished_req_ids s) (finished_req_ids_dict s) (prev_step_scheduled_req_ids s)
    (num_waiting_for_streaming_input s) (finished_recving_kv_req_ids s)
    (failed_recving_kv_req_ids s) (kv_cache_manager s) v (current_step s) (pause_state s)
    (inflight_prefills s).
Definition set_current_step (v : Z) (s : State) : State :=
  mkScheduler (objs s) (streaming_queue s) (requests s) (waiting s) (skipped_waiting s) (running
    s) (finished_req_ids s) (finished_req_ids_dict s) (prev_step_scheduled_req_ids s)
    (num_waiting_for_streaming_input s) (finished_recving_kv_req_ids s)
    (failed_recving_kv_req_ids s) (kv_cache_manager s) (encoder_cache_manager s) v (pause_state
    s) (inflight_prefills s).
Definition set_pause_state (v : PauseState) (s : State) : State :=
  mkScheduler (objs s) (streaming_queue s) (requests s) (waiting s) (skipped_waiting s) (running
    s) (finished_req_ids s) (finished_req_ids_dict s) (prev_step_scheduled_req_ids s)
    (num_waiting_for_streaming_input s) (finished_recving_kv_req_ids s)
    (failed_recving_kv_req_ids s) (kv_cache_manager s) (encoder_cache_manager s) (current_step
    s) v (inflight_prefills s).
Definition set_inflight_prefills (v : gset Z) (s : State) : State :=
  mkScheduler (objs s) (streaming_queue s) (requests s) (waiting s) (skipped_waiting s) (running
    s) (finished_req_ids s) (finished_req_ids_dict s) (prev_step_scheduled_req_ids s)
    (num_waiting_for_streaming_input s) (finished_recving_kv_req_ids s)
    (failed_recving_kv_req_ids s) (kv_cache_manager s) (encoder_cache_manager s) (current_step
    s) (pause_state s) v.

(** Code of the components. *)
Definition on_kv {A} (op : M KV A) : M State A := zoom kv_cache_manager set_kv_cache_manager op.
Definition on_ec {A} (op : M EC A) : M State A := zoom encoder_cache_manager set_encoder_cache_manager op.

(** The object behind a reference, and assignment to its attributes. *)
Definition obj (r : Z) : M State Request := gets (fun s => objs s r).
Definition update_obj (r : Z) (f : Request -> Request) : M State unit :=
  modify (fun s => set_objs (<[r := f (objs s r)]> (objs s)) s).
(** A method of a request object. *)
Definition on_obj {A} (r : Z) (op : M Request A) : M State A :=
  zoom (fun s => objs s r) (fun o s => set_objs (<[r := o]> (objs s)) s) op.

(** The queues compare requests through the store. *)
Definition on_waiting {A} (op : (Z -> Request) -> M RequestQueue A) : M State A :=
  s ← get; zoom waiting set_waiting (op (objs s)).
Definition on_skipped_waiting {A} (op : (Z -> Request) -> M RequestQueue A) : M State A :=
  s ← get; zoom skipped_waiting set_skipped_waiting (op (objs s)).

(** [policy is PRIORITY] for the queues of a new scheduler. *)
Definition scheduler_init (policy : SchedulingPolicy) (objs : Z -> Request) (include_finished_set : bool)
    (kv : KV) (ec : EC) : State :=
  mkScheduler objs (fun _ => None) ∅ (create_request_queue policy) (create_request_queue policy) [] ∅
    (if include_finished_set then Some ∅ else None) ∅ 0 ∅ ∅ kv ec 0 UNPAUSED ∅.
End state.

(** ** The local variables of [schedule] *)

(** The dicts are in insertion order; [scheduled_loras] and
    [step_skipped_waiting] are used while the waiting requests are scheduled. *)
Record Step := mkStep {
  token_budget : Z;
  encoder_compute_budget : Z;
  scheduled_new_reqs : list Z;
  scheduled_resumed_reqs : list Z;
  scheduled_running_reqs : list Z;
  preempted_reqs : list Z;
  req_to_new_blocks : list (string * KVCacheBlocks);
  num_scheduled_tokens : list (string * Z);
  scheduled_encoder_inputs : list (string * list Z);
  scheduled_spec_decode_tokens : list (string * list Z);
  scheduled_loras : gset Z;
  step_skipped_waiting : RequestQueue
}.

Definition set_token_budget (v : Z) (st : Step) : Step :=
  mkStep v (encoder_compute_budget st) (scheduled_new_reqs st) (scheduled_resumed_reqs st)
    (scheduled_running_reqs st) (preempted_reqs st) (req_to_new_blocks st) (num_scheduled_tokens
    st) (scheduled_encoder_inputs st) (scheduled_spec_decode_tokens st) (scheduled_loras st)
    (step_skipped_waiting st).
Definition set_encoder_compute_budget (v : Z) (st : Step) : Step :=
  mkStep (token_budget st) v (scheduled_new_reqs st) (scheduled_resumed_reqs st)
    (scheduled_running_reqs st) (preempted_reqs st) (req_to_new_blocks st) (num_scheduled_tokens
    st) (scheduled_encoder_inputs st) (scheduled_spec_decode_tokens st) (scheduled_loras st)
    (step_skipped_waiting st).
Definition set_scheduled_new_reqs (v : list Z) (st : Step) : Step :=
  mkStep (token_budget st) (encoder_compute_budget st) v (scheduled_resumed_reqs st)
    (scheduled_running_reqs st) (preempted_reqs st) (req_to_new_blocks st) (num_scheduled_tokens
    st) (scheduled_encoder_inputs st) (scheduled_spec_decode_tokens st) (scheduled_loras st)
    (step_skipped_waiting st).
Definition set_scheduled_resumed_reqs (v : list Z) (st : Step) : Step :=
  mkStep (token_budget st) (encoder_compute_budget st) (scheduled_new_reqs st) v
    (scheduled_running_reqs st) (preempted_reqs st) (req_to_new_blocks st) (num_scheduled_tokens
    st) (scheduled_encoder_inputs st) (scheduled_spec_decode_tokens st) (scheduled_loras st)
    (step_skipped_waiting st).
Definition set_scheduled_running_reqs (v : list Z) (st : Step) : Step :=
  mkStep (token_budget st) (encoder_compute_budget st) (scheduled_new_reqs st)
    (scheduled_resumed_reqs st) v (preempted_reqs st) (req_to_new_blocks st)
    (num_scheduled_tokens st) (scheduled_encoder_inputs st) (scheduled_spec_decode_tokens st)
    (scheduled_loras st) (step_skipped_waiting st).
Definition set_preempted_reqs (v : list Z) (st : Step) : Step :=
  mkStep (token_budget st) (encoder_compute_budget st) (scheduled_new_reqs st)
    (scheduled_resumed_reqs st) (scheduled_running_reqs st) v (req_to_new_blocks st)
    (num_scheduled_tokens st) (scheduled_encoder_inputs st) (scheduled_spec_decode_tokens st)
    (scheduled_loras st) (step_skipped_waiting st).
Definition set_req_to_new_blocks (v : list (string * KVCacheBlocks)) (st : Step) : Step :=
  mkStep (token_budget st) (encoder_compute_budget st) (scheduled_new_reqs st)
    (scheduled_resumed_reqs st) (scheduled_running_reqs st) (preempted_reqs st) v
    (num_scheduled_tokens st) (scheduled_encoder_inputs st) (scheduled_spec_decode_tokens st)
    (scheduled_loras st) (step_skipped_waiting st).
Definition set_num_scheduled_tokens (v : list (string * Z)) (st : Step) : Step :=
  mkStep (token_budget st) (encoder_compute_budget st) (scheduled_new_reqs st)
    (scheduled_resumed_reqs st) (scheduled_running_reqs st) (preempted_reqs st)
    (req_to_new_blocks st) v (scheduled_encoder_inputs st) (scheduled_spec_decode_tokens st)
    (scheduled_loras st) (step_skipped_waiting st).
Definition set_scheduled_encoder_inputs (v : list (string * list Z)) (st : Step) : Step :=
  mkStep (token_budget st) (encoder_compute_budget st) (scheduled_new_reqs st)
    (scheduled_resumed_reqs st) (scheduled_running_reqs st) (preempted_reqs st)
    (req_to_new_blocks st) (num_scheduled_tokens st) v (scheduled_spec_decode_tokens st)
    (scheduled_loras st) (step_skipped_waiting st).
Definition set_scheduled_spec_decode_tokens (v : list (string * list Z)) (st : Step) : Step :=
  mkStep (token_budget st) (encoder_compute_budget st) (scheduled_new_reqs st)
    (scheduled_resumed_reqs st) (scheduled_running_reqs st) (preempted_reqs st)
    (req_to_new_blocks st) (num_scheduled_tokens st) (scheduled_encoder_inputs st) v
    (scheduled_loras st) (step_skipped_waiting st).
Definition set_scheduled_loras (v : gset Z) (st : Step) : Step :=
  mkStep (token_budget st) (encoder_compute_budget st) (scheduled_new_reqs st)
    (scheduled_resumed_reqs st) (scheduled_running_reqs st) (preempted_reqs st)
    (req_to_new_blocks st) (num_scheduled_tokens st) (scheduled_encoder_inputs st)
    (scheduled_spec_decode_tokens st) v (step_skipped_waiting st).
Definition set_step_skipped_waiting (v : RequestQueue) (st : Step) : Step :=
  mkStep (token_budget st) (encoder_compute_budget st) (scheduled_new_reqs st)
    (scheduled_resumed_reqs st) (scheduled_running_reqs st) (preempted_reqs st)
    (req_to_new_blocks st) (num_scheduled_tokens st) (scheduled_encoder_inputs st)
    (scheduled_spec_decode_tokens st) (scheduled_loras st) v.

(** ** The output of a step *)

Record NewRequestData := mkNewData {
  nd_req_id : string;
  nd_prompt_token_ids : option (list Z);
  nd_mm_features : list MultiModalFeatureSpec;
  nd_sampling_params : option SamplingParams;
  nd_pooling_params : option PoolingParams;
  nd_block_ids : list (list Z);
  nd_num_computed_tokens : Z;
  nd_lora_request : option LoRARequest;
  nd_prompt_embeds : option (list bytes);
  nd_prefill_token_ids : option (list Z)
}.

(** [NewRequestData.from_request] *)
Definition new_request_data (request : Request) (block_ids : list (list Z)) (prefill_token_ids : option (list Z))
    : NewRequestData :=
  mkNewData (request_id request) (prompt_token_ids request) (mm_features request) (sampling_params request)
    (pooling_params request) block_ids (num_computed_tokens request) (lora_request request)
    (prompt_embeds request) prefill_token_ids.

Record CachedRequestData := mkCachedData {
  cd_req_ids : list string;
  cd_resumed_req_ids : gset string;
  cd_new_token_ids : list (list Z);
  cd_all_token_ids : gmap string (list Z);
  cd_new_block_ids : list (option (list (list Z)));
  cd_num_computed_tokens : list Z;
  cd_num_output_tokens : list Z
}.
Definition empty_cached_data : CachedRequestData := mkCachedData [] ∅ [] ∅ [] [] [].

Record SchedulerOutput := mkOutput {
  scheduled_new_reqs_data : list NewRequestData;
  scheduled_cached_reqs : CachedRequestData;
  out_num_scheduled_tokens : list (string * Z);
  total_num_scheduled_tokens : Z;
  out_spec_decode_tokens : list (string * list Z);
  out_encoder_inputs : list (string * list Z);
  num_common_prefix_blocks : list Z;
  out_finished_req_ids : gset string;
  free_encoder_mm_hashes : list string;
  preempted_req_ids : gset string;
  has_structured_output_requests : bool;
  pending_structured_output_tokens : bool;
  num_invalid_spec_tokens : option (gmap string Z);
  new_block_ids_to_zero : option (list Z)
}.

Definition set_has_structured_output_requests (v : bool) (o : SchedulerOutput) : SchedulerOutput :=
  mkOutput (scheduled_new_reqs_data o) (scheduled_cached_reqs o) (out_num_scheduled_tokens o)
    (total_num_scheduled_tokens o) (out_spec_decode_tokens o) (out_encoder_inputs o) (num_common_prefix_blocks o)
    (out_finished_req_ids o) (free_encoder_mm_hashes o) (preempted_req_ids o) v
    (pending_structured_output_tokens o) (num_invalid_spec_tokens o) (new_block_ids_to_zero o).
Definition set_pending_structured_output_tokens (v : bool) (o : SchedulerOutput) : SchedulerOutput :=
  mkOutput (scheduled_new_reqs_data o) (scheduled_cached_reqs o) (out_num_scheduled_tokens o)
    (total_num_scheduled_tokens o) (out_spec_decode_tokens o) (out_encoder_inputs o) (num_common_prefix_blocks o)
    (out_finished_req_ids o) (free_encoder_mm_hashes o) (preempted_req_ids o) (has_structured_output_requests o) v
    (num_invalid_spec_tokens o) (new_block_ids_to_zero o).

End SchedulerState.
