(* ===== verification/EncoderScheduling.v ===== *)
(** * EncoderScheduling

    Which encoder inputs a step of the scheduler runs: the window of
    multi-modal features (get_mm_features_in_window of multimodal/utils.py,
    PlaceholderRange.get_embeds_indices_in_range of multimodal/inputs.py) and
    Scheduler._try_schedule_encoder_inputs of v1/core/sched/scheduler.py. *)

From S2P Require Import Prelude Request RequestQueue StopCheck EncoderCache SchedulerState.

Module EncoderScheduling.
Import Request RequestQueue StopCheck SchedulerState.
#[local] Open Scope Z_scope.

(** ** The window *)

(** [bisect.bisect_left(a, x, key=key)] *)
Fixpoint bisect_loop {A} (key : A -> Z) (a : list A) (x : Z) (fuel : nat) (lo hi : Z) : result Z :=
  match fuel with
  | O => Err OutOfFuel
  | S fuel =>
      if lo <? hi then
        let mid := (lo + hi) / 2 in
        match py_index a mid with
        | None => Err IndexError
        | Some e => if key e <? x then bisect_loop key a x fuel (mid + 1) hi else bisect_loop key a x fuel lo mid
        end
      else Ok lo
  end.
Definition bisect_left {A} (key : A -> Z) (a : list A) (x : Z) : result Z :=
  bisect_loop key a x (S (length a)) 0 (zlen a).

Definition feature_start (f : MultiModalFeatureSpec) : Z := offset (mm_position f).
Definition feature_end (f : MultiModalFeatureSpec) : Z := offset (mm_position f) + length_ (mm_position f).

Definition get_mm_features_in_window {S} (features : list MultiModalFeatureSpec) (start end_ : Z) : M S (Z * Z) :=
  lo ← of_result (bisect_left feature_end features (start + 1));
  hi ← of_result (bisect_left feature_start features end_);
  mret (lo, hi).

Definition get_embeds_indices_in_range {S} (p : PlaceholderRange) (start_idx end_idx : Z) : M S (Z * Z) :=
  match embeds_cumsum p with
  | None => mret (start_idx, end_idx)
  | Some l =>
      embeds_start_idx ← (if 0 <? start_idx then of_option IndexError (py_index l (start_idx - 1)) else mret 0);
      embeds_end_idx ← (if 0 <? end_idx then of_option IndexError (py_index l (end_idx - 1)) else mret 0);
      mret (embeds_start_idx, embeds_end_idx)
  end.

(** ** [_try_schedule_encoder_inputs] *)

(** Its local variables. *)
Record EncStep := mkEncStep {
  inputs_to_schedule : list Z;
  mm_hashes_to_schedule : gset string;
  num_embeds_to_schedule : Z;
  enc_num_new_tokens : Z;
  enc_compute_budget : Z
}.

Definition set_enc_num_new_tokens (n : Z) (e : EncStep) : EncStep :=
  mkEncStep (inputs_to_schedule e) (mm_hashes_to_schedule e) (num_embeds_to_schedule e) n (enc_compute_budget e).
(** Schedule input [i] with its hash and number of embeddings. *)
Definition schedule_input (i : Z) (mm_hash : string) (num_encoder_embeds : Z) (e : EncStep) : EncStep :=
  mkEncStep (inputs_to_schedule e ++ [i]) ({[mm_hash]} ∪ mm_hashes_to_schedule e)
    (num_embeds_to_schedule e + num_encoder_embeds) (enc_num_new_tokens e) (enc_compute_budget e - num_encoder_embeds).

Section schedule.
Context {EC : Type} `{!EncoderManager EC} (cfg : SchedulerConfig).

Section loop.
Context (request : Request) (num_computed_tokens shift_computed_tokens : Z).

(** The tail of the loop body: room is made, the input runs if the range has
    embeddings of it. *)
Definition schedule_if_needed (i : Z) (f : MultiModalFeatureSpec) (e : EncStep) : M EC EncStep :=
  let start_pos := offset (mm_position f) in
  let start_idx_rel := Z.max 0 (num_computed_tokens - start_pos) in
  let end_idx_rel := Z.min (length_ (mm_position f)) (num_computed_tokens + enc_num_new_tokens e - start_pos) in
  range ← get_embeds_indices_in_range (mm_position f) start_idx_rel end_idx_rel;
  if range.2 - range.1 =? 0 then mret e
  else mret (schedule_input i (identifier f) (get_num_embeds (mm_position f)) e).

Fixpoint encoder_loop (idxs : list Z) (e : EncStep) : M EC EncStep :=
  match idxs with
  | [] => mret e
  | i :: rest =>
      f ← of_option IndexError (py_index (mm_features request) i);
      let start_pos := offset (mm_position f) in
      if is_encoder_decoder cfg && (0 <? num_computed_tokens) then
        assert_ (start_pos =? 0) ;; encoder_loop rest e
      else if negb (is_encoder_decoder cfg) && bool_decide (identifier f ∈ mm_hashes_to_schedule e) then
        encoder_loop rest e
      else
        cached ← (if is_encoder_decoder cfg then mret false else em_check_and_update_cache request i);
        if (cached : bool) then encoder_loop rest e
        else if disable_chunked_mm_input cfg && (num_computed_tokens <? start_pos) &&
                (num_computed_tokens + enc_num_new_tokens e <? start_pos + length_ (mm_position f)) then
          mret (set_enc_num_new_tokens (Z.max 0 (start_pos - (num_computed_tokens + shift_computed_tokens))) e)
        else
          fits ← em_can_allocate request i (enc_compute_budget e) (num_embeds_to_schedule e);
          if negb fits then
            mret (set_enc_num_new_tokens
                    (if num_computed_tokens + shift_computed_tokens <? start_pos
                     then start_pos - (num_computed_tokens + shift_computed_tokens) else 0) e)
          else
            e' ← schedule_if_needed i f e;
            encoder_loop rest e'
  end.
End loop.

(** The inputs to run, the number of tokens and the budget that remain. *)
Definition try_schedule_encoder_inputs (request : Request)
    (num_computed_tokens num_new_tokens encoder_compute_budget shift_computed_tokens : Z) : M EC (list Z * Z * Z) :=
  if (num_new_tokens =? 0) || negb (has_encoder_inputs request)
  then mret ([], num_new_tokens, encoder_compute_budget)
  else
    window ← get_mm_features_in_window (mm_features request) num_computed_tokens
               (num_computed_tokens + num_new_tokens + shift_computed_tokens);
    let lo := if is_encoder_decoder cfg then 0 else window.1 in
    e ← encoder_loop request num_computed_tokens shift_computed_tokens (py_range lo window.2)
          (mkEncStep [] ∅ 0 num_new_tokens encoder_compute_budget);
    mret (inputs_to_schedule e, enc_num_new_tokens e, enc_compute_budget e).
End schedule.

(** ** The binary search *)

Section bisect.
Context {A : Type} (key : A -> Z) (a : list A).

Definition nondecreasing : Prop :=
  forall (i j : nat) x y, (i <= j)%nat -> a !! i = Some x -> a !! j = Some y -> key x <= key y.

(** The number of elements below [x]. *)
Definition splits_at (x lo : Z) : Prop :=
  0 <= lo <= zlen a /\
  (forall (i : nat) e, Z.of_nat i < lo -> a !! i = Some e -> key e < x) /\
  (forall (i : nat) e, lo <= Z.of_nat i -> a !! i = Some e -> x <= key e).

Lemma bisect_loop_ok x : nondecreasing -> forall fuel lo hi,
  0 <= lo <= hi -> hi <= zlen a -> hi - lo < Z.of_nat fuel ->
  (forall (i : nat) e, Z.of_nat i < lo -> a !! i = Some e -> key e < x) ->
  (forall (i : nat) e, hi <= Z.of_nat i -> a !! i = Some e -> x <= key e) ->
  exists r, bisect_loop key a x fuel lo hi = Ok r /\ splits_at x r.
Proof.
  intros Hmono. induction fuel as [|fuel IH]; intros lo hi H1 H2 H3 Hlo Hhi; [lia|]. cbn [bisect_loop].
  destruct (Z.ltb_spec lo hi) as [Hlt|Hge].
  2: { exists lo. split; [done|]. replace lo with hi by lia. split; [lia|]. split; [|done]. intros i e Hi. apply Hlo. lia. }
  cbv zeta. set (mid := (lo + hi) / 2).
  assert (Hm : lo <= mid < hi).
  { unfold mid. split; [apply Z.div_le_lower_bound; lia|apply Z.div_lt_upper_bound; lia]. }
  unfold py_index. rewrite (proj2 (Z.leb_le _ _)) by lia.
  destruct (lookup_lt_is_Some_2 a (Z.to_nat mid)) as [e He]; [lia|]. rewrite He.
  destruct (Z.ltb_spec (key e) x) as [Hk|Hk].
  - apply IH; [lia|lia|lia| |done]. intros i e' Hi He'.
    enough (key e' <= key e) by lia. eapply (Hmono i (Z.to_nat mid)); [lia|done|done].
  - apply IH; [lia|lia|lia|done|]. intros i e' Hi He'.
    enough (key e <= key e') by lia. eapply (Hmono (Z.to_nat mid) i); [lia|done|done].
Qed.

Lemma bisect_left_ok x : nondecreasing -> exists r, bisect_left key a x = Ok r /\ splits_at x r.
Proof.
  intros Hmono. apply bisect_loop_ok; [done|lia|lia|lia|lia|]. intros i e Hi He.
  apply lookup_lt_Some in He. lia.
Qed.
End bisect.

(** ** Features of a request *)

(** The embeddings among the first [k] positions of a placeholder. *)
Definition embeds_before (p : PlaceholderRange) (k : Z) : Z :=
  match embeds_cumsum p with
  | None => k
  | Some l => if 0 <? k then default 0 (l !! Z.to_nat (k - 1)) else 0
  end.

Record placeholder_ok (p : PlaceholderRange) : Prop := {
  po_length : 0 <= length_ p;
  po_cumsum : match embeds_cumsum p with
    | None => True
    | Some l => zlen l = length_ p /\
        forall (i j : nat) x y, (i <= j)%nat -> l !! i = Some x -> l !! j = Some y -> 0 <= x <= y
    end
}.

(** In order of their offsets, without overlap. *)
Record features_sorted (l : list MultiModalFeatureSpec) : Prop := {
  fs_ok : Forall (fun f => placeholder_ok (mm_position f)) l;
  fs_order : forall (i j : nat) f g, (i < j)%nat -> l !! i = Some f -> l !! j = Some g ->
    feature_end f <= feature_start g
}.

(** A step over the positions [[c, c + n)] reads embeddings of the feature. *)
Definition needed (f : MultiModalFeatureSpec) (c n : Z) : Prop :=
  c < feature_end f /\ feature_start f < c + n /\
  embeds_before (mm_position f) (Z.max 0 (c - feature_start f)) <>
  embeds_before (mm_position f) (Z.min (length_ (mm_position f)) (c + n - feature_start f)).

Lemma embeds_before_mono p i j :
  placeholder_ok p -> 0 <= i <= j -> j <= length_ p -> embeds_before p i <= embeds_before p j.
Proof.
  intros [_ Hc] Hij Hj. unfold embeds_before. destruct (embeds_cumsum p) as [l|]; [|lia].
  destruct Hc as [Hl Hm]. destruct (Z.ltb_spec 0 j); [|rewrite (proj2 (Z.ltb_ge _ _)) by lia; done].
  destruct (lookup_lt_is_Some_2 l (Z.to_nat (j - 1))) as [y Hy]; [lia|]. rewrite Hy. simpl.
  destruct (Z.ltb_spec 0 i).
  - destruct (lookup_lt_is_Some_2 l (Z.to_nat (i - 1))) as [x Hx]; [lia|]. rewrite Hx. simpl.
    by eapply Hm; [|exact Hx|exact Hy]; lia.
  - by eapply (Hm _ _ y y); [|exact Hy|exact Hy].
Qed.

Lemma needed_mono f c n n' : placeholder_ok (mm_position f) -> 0 <= n' <= n -> needed f c n' -> needed f c n.
Proof.
  intros Hp Hn (H1 & H2 & H3). unfold feature_end, feature_start in *. split; [done|]. split; [unfold feature_start; lia|].
  set (s := offset (mm_position f)) in *. intros E. apply H3. unfold feature_start in *. fold s in E |- *.
  pose proof (po_length _ Hp).
  assert (A1 : embeds_before (mm_position f) (Z.max 0 (c - s)) <=
          embeds_before (mm_position f) (Z.min (length_ (mm_position f)) (c + n' - s))) by (apply embeds_before_mono; [done|lia|lia]).
  assert (A2 : embeds_before (mm_position f) (Z.min (length_ (mm_position f)) (c + n' - s)) <=
          embeds_before (mm_position f) (Z.min (length_ (mm_position f)) (c + n - s))) by (apply embeds_before_mono; [done|lia|lia]).
  lia.
Qed.

Lemma not_needed_0 f c : ~ needed f c 0.
Proof.
  intros (H1 & H2 & H3). unfold feature_end, feature_start in *. apply H3. f_equal. lia.
Qed.

Lemma not_needed_later f c n : c + n <= feature_start f -> ~ needed f c n.
Proof. intros H (_ & H2 & _). lia. Qed.

Lemma embeds_range_ok {S} p s e (st : S) :
  placeholder_ok p -> 0 <= s <= length_ p -> e <= length_ p ->
  exists a b, get_embeds_indices_in_range p s e st = (Ok (a, b), st) /\
    (0 <= e -> a = embeds_before p s /\ b = embeds_before p e).
Proof.
  intros [_ Hc] Hs He. unfold get_embeds_indices_in_range, embeds_before. destruct (embeds_cumsum p) as [l|].
  2: { exists s, e. done. }
  destruct Hc as [Hl _].
  assert (H : forall k, k <= length_ p ->
    (if 0 <? k then of_option IndexError (py_index l (k - 1)) else mret 0) st =
      (Ok (if 0 <? k then default 0 (l !! Z.to_nat (k - 1)) else 0), st)).
  { intros k Hk. destruct (Z.ltb_spec 0 k); [|done]. unfold py_index. rewrite (proj2 (Z.leb_le _ _)) by lia.
    destruct (lookup_lt_is_Some_2 l (Z.to_nat (k - 1))) as [x Hx]; [lia|]. by rewrite Hx. }
  unfold mbind, M_bind. rewrite (H s), (H e) by lia. by do 2 eexists.
Qed.

(** ** Scheduling the inputs of a request *)

Section ready.
Import EncoderCache.
Context (sz : string -> Z) (Hsz : forall h, 0 <= sz h) (request : Request).

(** The request holds a reference to the entry of [h]. *)
Definition holds (m : EncoderCacheManager) (h : string) : Prop :=
  exists refs, cached m !! h = Some refs /\ request_id request ∈ refs.

Definition input_sizes (inputs : list Z) : Z := zsum ((fun i => sz (hash_at request i)) <$> inputs).

(** What scheduling does to the cache: it evicts unreferenced entries and adds
    references of this request. *)
Record cache_step (m m' : EncoderCacheManager) : Prop := {
  cs_inv : ec_inv sz m';
  cs_size : cache_size m' = cache_size m;
  cs_holds : forall h, holds m h -> holds m' h;
  cs_fresh : forall h, cached m !! h = None -> cached m' !! h = None;
  cs_free : num_free_slots m <= num_free_slots m';
  cs_other : forall rid, rid <> request_id request -> request_cached_ids m' !! rid = request_cached_ids m !! rid;
  cs_ids : forall i, i ∈ get_cached_input_ids request m' -> i ∈ get_cached_input_ids request m \/ valid_input request i
}.

Lemma cache_step_refl m : ec_inv sz m -> cache_step m m.
Proof. intros I. constructor; auto; lia. Qed.

Lemma cache_step_trans m1 m2 m3 : cache_step m1 m2 -> cache_step m2 m3 -> cache_step m1 m3.
Proof.
  intros [A1 A2 A3 A4 A5 A6 A7] [B1 B2 B3 B4 B5 B6 B7]. constructor; [done|congruence|auto|auto|lia| |].
  - intros rid Hr. by rewrite B6, A6.
  - intros i [Hi|Hi]%B7; [by apply A7|by right].
Qed.

Lemma check_step m i :
  ec_inv sz m -> valid_input request i ->
  wp (check_and_update_cache request i) (fun b m' => cache_step m m' /\ num_free_slots m' = num_free_slots m /\
    (b = true -> holds m' (hash_at request i)) /\ (b = false -> m' = m /\ cached m !! hash_at request i = None)) m.
Proof using Hsz.
  intros I Hv. eapply wp_mono; [by apply (check_ok sz)|]. intros b m' (I' & C' & Hb & Hh & Hno & Hyes).
  destruct b.
  - destruct (Hyes eq_refl) as (E1 & E2 & E3 & E4). destruct (cached m !! hash_at request i) as [refs|] eqn:Hr.
    2: { symmetry in Hb. apply bool_decide_eq_true in Hb as [? [=]]. }
    split; [|split; [done|split; [intros _; by apply Hh|done]]]. constructor; [done|done| | |lia| |].
    + intros h (refs' & Hr' & Hin). unfold holds. rewrite E3.
      destruct (decide (h = hash_at request i)) as [->|Hne]; [|rewrite lookup_insert_ne by done; eauto].
      rewrite lookup_insert_eq. eexists. split; [done|set_solver].
    + intros h Hn. rewrite E3, lookup_insert_ne; [done|]. intros <-. congruence.
    + intros rid Hn. by rewrite E4, lookup_insert_ne.
    + intros j. unfold get_cached_input_ids at 1. rewrite E4, lookup_insert_eq. simpl.
      intros [->%elem_of_singleton|?]%elem_of_union; [by right|by left].
  - rewrite (Hno eq_refl). split; [by apply cache_step_refl|]. split; [done|]. split; [done|]. intros _. split; [done|].
    symmetry in Hb. apply bool_decide_eq_false in Hb. by apply eq_None_not_Some.
Qed.

Lemma can_allocate_step m i budget n :
  features_ok sz request -> ec_inv sz m -> valid_input request i ->
  wp (can_allocate request i budget n) (fun b m' => cache_step m m' /\
    (b = true -> sz (hash_at request i) <= budget /\ sz (hash_at request i) + n <= num_free_slots m')) m.
Proof using Hsz.
  intros Hf I Hv. eapply wp_mono; [by apply (can_allocate_ok sz Hsz)|]. intros b m' (I' & C' & Hb & Hno & Hyes).
  destruct b; [|rewrite (Hno eq_refl); split; [by apply cache_step_refl|done]].
  destruct (Hyes eq_refl) as (Hfit & Hids & k & Hk1 & _ & Hk & _). pose proof (proj1 Hb eq_refl) as [Hbud _].
  split; [|done]. assert (Hk' : forall h refs, cached m !! h = Some refs -> refs <> ∅ -> cached m' !! h = Some refs).
  { intros h refs Hr Hne. rewrite Hk. rewrite decide_False; [done|]. intros Hin.
    assert (Hin' : h ∈ (freeable m).*1) by (eapply elem_of_submseteq; [exact Hin|apply sublist_submseteq, fmap_sublist, sublist_take]).
    apply (ei_keys _ _ I) in Hin'. congruence. }
  constructor; [done|done| | | | |].
  - intros h (refs & Hr & Hin). exists refs. split; [|done]. apply Hk'; [done|]. set_solver.
  - intros h Hn. rewrite Hk. by case_decide.
  - pose proof (ei_freeable _ _ I) as F. pose proof (ei_free _ _ I) as F1. pose proof (ei_free _ _ I') as F2.
    assert (Hle : total sz (cached m') <= total sz (cached m)); [|lia].
    apply (total_mono sz Hsz), map_subseteq_spec. intros h refs. rewrite Hk. by case_decide.
  - intros rid _. by rewrite Hids.
  - intros j. unfold get_cached_input_ids. rewrite Hids. by left.
Qed.

Lemma input_sizes_snoc l i : input_sizes (l ++ [i]) = input_sizes l + sz (hash_at request i).
Proof. unfold input_sizes. rewrite fmap_app, zsum_app. cbn. unfold zsum. simpl. lia. Qed.

Lemma feature_at (i : nat) f : mm_features request !! i = Some f ->
  valid_input request (Z.of_nat i) /\ hash_at request (Z.of_nat i) = identifier f /\
  py_index (mm_features request) (Z.of_nat i) = Some f.
Proof.
  intros Hl. pose proof (lookup_lt_Some _ _ _ Hl). unfold valid_input, hash_at, py_index.
  rewrite Nat2Z.id, Hl, (proj2 (Z.leb_le _ _)) by lia. split; [lia|done].
Qed.

(** The encoder output of a feature will be there: cached and referenced, or
    computed in this step. *)
Definition ready (e : EncStep) (m : EncoderCacheManager) (f : MultiModalFeatureSpec) : Prop :=
  identifier f ∈ mm_hashes_to_schedule e \/ holds m (identifier f).

(** The accounting of the loop, from a cache [m0] and a budget [b0]. *)
Record enc_acc (m0 : EncoderCacheManager) (b0 : Z) (e : EncStep) (m : EncoderCacheManager) : Prop := {
  ea_step : cache_step m0 m;
  ea_budget : enc_compute_budget e = b0 - input_sizes (inputs_to_schedule e);
  ea_pos : 0 <= b0 -> 0 <= enc_compute_budget e;
  ea_embeds : num_embeds_to_schedule e = input_sizes (inputs_to_schedule e);
  ea_fit : input_sizes (inputs_to_schedule e) <= num_free_slots m;
  ea_hashes : forall h, h ∈ mm_hashes_to_schedule e <-> exists j, j ∈ inputs_to_schedule e /\ hash_at request j = h;
  ea_nodup : NoDup (hash_at request <$> inputs_to_schedule e);
  ea_inputs : forall j, j ∈ inputs_to_schedule e -> valid_input request j /\ cached m !! hash_at request j = None
}.

Lemma enc_acc_step m0 b0 e m m' : enc_acc m0 b0 e m -> cache_step m m' -> enc_acc m0 b0 e m'.
Proof.
  intros [A1 A2 A3 A4 A5 A6 A7 A8] S. constructor; [by eapply cache_step_trans|done|done|done| |done|done|].
  - pose proof (cs_free _ _ S). lia.
  - intros j Hj. destruct (A8 j Hj) as [? Hn]. split; [done|]. by apply S.
Qed.

Lemma enc_acc_tokens m0 b0 e m n : enc_acc m0 b0 e m -> enc_acc m0 b0 (set_enc_num_new_tokens n e) m.
Proof. by intros []. Qed.

Lemma ready_step e m m' f : ready e m f -> cache_step m m' -> ready e m' f.
Proof. intros [?|?] S; [by left|right; by apply S]. Qed.

(** Scheduling one more input. *)
Lemma enc_acc_schedule m0 b0 e m i :
  enc_acc m0 b0 e m -> valid_input request i -> cached m !! hash_at request i = None ->
  hash_at request i ∉ mm_hashes_to_schedule e ->
  sz (hash_at request i) <= enc_compute_budget e ->
  sz (hash_at request i) + num_embeds_to_schedule e <= num_free_slots m ->
  enc_acc m0 b0 (schedule_input i (hash_at request i) (sz (hash_at request i)) e) m.
Proof.
  intros [A1 A2 A3 A4 A5 A6 A7 A8] Hv Hn Hh Hb Hfit. constructor; simpl; rewrite ?input_sizes_snoc; try done; try lia.
  - intros h. rewrite elem_of_union, elem_of_singleton, A6. setoid_rewrite elem_of_app.
    setoid_rewrite list_elem_of_singleton. split.
    + intros [->|(j & ? & ?)]; [exists i; auto|exists j; auto].
    + intros (j & [?| ->] & <-); [right; by exists j|by left].
  - rewrite fmap_app. apply list.NoDup_app. split; [done|]. split; [|apply NoDup_singleton].
    intros h (j & E & Hj)%list_elem_of_fmap ->%list_elem_of_singleton. apply Hh, A6. by exists j.
  - intros j [Hj| ->%list_elem_of_singleton]%elem_of_app; [by apply A8|done].
Qed.

Section loop.
Context (order : gset Z -> list Z) (cfg : SchedulerConfig).
#[local] Instance ecm : EncoderManager EncoderCacheManager := ec_encoder_manager order.
Context (c shift n b0 : Z) (m0 : EncoderCacheManager).
Hypothesis Hed : is_encoder_decoder cfg = false.
Hypothesis Hshift : 0 <= shift.
Hypothesis Hn : 0 <= n.
Hypothesis Hf : features_ok sz request.
Hypothesis Hs : features_sorted (mm_features request).

(** Everything the step over [[c, c + tokens)] reads is ready. *)
Definition enc_done (e : EncStep) (m : EncoderCacheManager) : Prop :=
  enc_acc m0 b0 e m /\ 0 <= enc_num_new_tokens e <= n /\
  forall (j : nat) f, mm_features request !! j = Some f -> needed f c (enc_num_new_tokens e) -> ready e m f.

(** Cutting the step at feature [i]. *)
Lemma enc_cut (i : nat) f e m k :
  mm_features request !! i = Some f -> enc_acc m0 b0 e m ->
  (forall (j : nat) g, (j < i)%nat -> mm_features request !! j = Some g -> needed g c n -> ready e m g) ->
  0 <= k <= n -> (k = 0 \/ c + k <= feature_start f) -> enc_done (set_enc_num_new_tokens k e) m.
Proof using Hs.
  intros Hi A Hr Hk Hcut. split; [by apply enc_acc_tokens|]. split; [done|]. intros j g Hj Hne. simpl in Hne.
  destruct Hcut as [->|Hcut]; [by apply not_needed_0 in Hne|].
  destruct (decide (j < i)%nat) as [Hlt|Hge].
  - apply (Hr j g Hlt Hj). eapply needed_mono; [|exact Hk|exact Hne]. by eapply (Forall_lookup_1 _ _ _ _ (fs_ok _ Hs)) in Hj.
  - exfalso. eapply not_needed_later; [|exact Hne]. destruct (decide (j = i)) as [->|Hne'].
    + rewrite Hi in Hj. by injection Hj as <-.
    + pose proof (fs_order _ Hs i j f g ltac:(lia) Hi Hj) as Ho.
      pose proof (Forall_lookup_1 _ _ _ _ (fs_ok _ Hs) Hi) as Hp. pose proof (po_length _ Hp).
      unfold feature_end, feature_start in *. lia.
Qed.

Lemma encoder_loop_ok hi : 0 <= hi <= zlen (mm_features request) ->
  (forall (j : nat) f, Z.of_nat j < hi -> mm_features request !! j = Some f -> feature_start f < c + n + shift) ->
  (forall (j : nat) f, hi <= Z.of_nat j -> mm_features request !! j = Some f -> c + n + shift <= feature_start f) ->
  forall d (i : nat) e m, Z.of_nat i + Z.of_nat d = Z.max (Z.of_nat i) hi ->
  (forall (j : nat) f, (i <= j)%nat -> mm_features request !! j = Some f -> c < feature_end f) ->
  enc_acc m0 b0 e m -> enc_num_new_tokens e = n ->
  (forall (j : nat) g, (j < i)%nat -> mm_features request !! j = Some g -> needed g c n -> ready e m g) ->
  wp (encoder_loop cfg request c shift (py_range (Z.of_nat i) hi) e) enc_done m.
Proof using Hsz Hed Hshift Hn Hf Hs.
  intros Hhi Hbelow Habove. induction d as [|d IH]; intros i e m Hd Hend A En Hr.
  { rewrite py_range_nil by lia. apply wp_ret. split; [done|]. split; [lia|]. rewrite En. intros j f Hj Hne.
    destruct (decide (j < i)%nat) as [Hlt|Hge]; [by apply (Hr j f)|]. exfalso.
    eapply not_needed_later; [|exact Hne]. specialize (Habove j f ltac:(lia) Hj). lia. }
  rewrite py_range_cons by lia. cbn [encoder_loop].
  destruct (lookup_lt_is_Some_2 (mm_features request) i) as [f Hi]; [lia|].
  destruct (feature_at i f Hi) as (Hv & Hh & Hpy). rewrite Hpy. apply wp_bind, (wp_of_option _ _ f); [done|].
  rewrite Hed. cbn [andb negb].
  assert (Hnext : forall e' m', enc_acc m0 b0 e' m' -> enc_num_new_tokens e' = n ->
     (forall (j : nat) g, (j < i)%nat -> mm_features request !! j = Some g -> needed g c n -> ready e' m' g) ->
     (needed f c n -> ready e' m' f) ->
     wp (encoder_loop cfg request c shift (py_range (Z.of_nat i + 1) hi) e') enc_done m').
  { intros e' m' A' En' Hr' Hrf. replace (Z.of_nat i + 1) with (Z.of_nat (S i)) by lia.
    apply IH; [lia| |done|done|].
    - intros j g Hj. apply Hend. lia.
    - intros j g Hj Hg Hne. destruct (decide (j = i)) as [->|]; [|apply (Hr' j g); [lia|done|done]].
      rewrite Hi in Hg. injection Hg as <-. by apply Hrf. }
  pose proof (Hend i f ltac:(lia) Hi) as Hce. pose proof (Hbelow i f ltac:(lia) Hi) as Hst.
  pose proof (Forall_lookup_1 _ _ _ _ (fs_ok _ Hs) Hi) as Hp. unfold feature_end, feature_start in *.
  destruct (bool_decide (identifier f ∈ mm_hashes_to_schedule e)) eqn:Ehash.
  { apply bool_decide_eq_true in Ehash. apply Hnext; [done|done|done|]. intros _. by left. }
  apply bool_decide_eq_false in Ehash.
  apply wp_bind. eapply wp_mono; [apply check_step; [apply A|done]|]. intros b m1 (S1 & F1 & Hyes & Hno).
  pose proof (enc_acc_step _ _ _ _ _ A S1) as A1.
  assert (Hr1 : forall (j : nat) g, (j < i)%nat -> mm_features request !! j = Some g -> needed g c n -> ready e m1 g).
  { intros j g Hj Hg Hne. eapply ready_step; [by apply (Hr j g)|done]. }
  destruct b.
  { apply Hnext; [done|done|done|]. intros _. right. rewrite <- Hh. by apply Hyes. }
  rewrite En. destruct (_ && _ && _) eqn:Ech.
  { apply andb_true_iff in Ech as [[_ E1%Z.ltb_lt]%andb_true_iff E2%Z.ltb_lt]. apply wp_ret.
    eapply enc_cut; [exact Hi|done|done|lia|]. unfold feature_start. lia. }
  clear Ech. apply wp_bind. eapply wp_mono; [apply can_allocate_step; [done|apply A1|done]|].
  intros b m2 (S2 & Hfit). pose proof (enc_acc_step _ _ _ _ _ A1 S2) as A2.
  assert (Hr2 : forall (j : nat) g, (j < i)%nat -> mm_features request !! j = Some g -> needed g c n -> ready e m2 g).
  { intros j g Hj Hg Hne. eapply ready_step; [by apply (Hr1 j g)|done]. }
  destruct b; cbn [negb].
  2: { apply wp_ret. eapply enc_cut; [exact Hi|done|done| |unfold feature_start];
         destruct (Z.ltb_spec (c + shift) (offset (mm_position f))); lia. }
  destruct (Hfit eq_refl) as [Hbud Hroom]. destruct (Hno eq_refl) as [-> Hfresh].
  apply wp_bind. unfold schedule_if_needed. rewrite En.
  destruct (embeds_range_ok (mm_position f) (Z.max 0 (c - offset (mm_position f)))
    (Z.min (length_ (mm_position f)) (c + n - offset (mm_position f))) m2 Hp) as (x & y & Hrun & Hxy); [pose proof (po_length _ Hp); lia|lia|].
  apply wp_bind. unfold wp at 1. rewrite Hrun. cbn [fst snd].
  destruct (Z.eqb_spec (y - x) 0) as [Exy|Exy]; apply wp_ret.
  - apply Hnext; [done|done|done|]. intros (_ & N2 & N3). unfold feature_start in *. destruct Hxy as [-> ->]; [pose proof (po_length _ Hp); lia|]. lia.
  - rewrite <- Hh. assert (Esz : get_num_embeds (mm_position f) = sz (hash_at request (Z.of_nat i))).
    { rewrite Hh. by apply (Forall_lookup_1 _ _ _ _ Hf Hi). }
    rewrite Esz. apply Hnext; [|done| |].
    + apply enc_acc_schedule; [done|done|by apply S2|by rewrite Hh|done|done].
    + intros j g Hj Hg Hne. destruct (Hr2 j g Hj Hg Hne) as [?|?]; [left; simpl; set_solver|by right].
    + intros _. left. simpl. rewrite Hh. set_solver.
Qed.
End loop.

Lemma sorted_starts : features_sorted (mm_features request) ->
  nondecreasing feature_start (mm_features request) /\ nondecreasing feature_end (mm_features request).
Proof.
  intros [Hok Ho]. assert (Hl : forall (i : nat) f, mm_features request !! i = Some f -> feature_start f <= feature_end f).
  { intros i f Hi. pose proof (po_length _ (Forall_lookup_1 _ _ _ _ Hok Hi)). unfold feature_start, feature_end. lia. }
  split; intros i j f g Hij Hi Hj; (destruct (decide (i = j)) as [->|Hne];
    [rewrite Hi in Hj; injection Hj as ->; lia|
     pose proof (Ho i j f g ltac:(lia) Hi Hj); pose proof (Hl i f Hi); pose proof (Hl j g Hj); lia]).
Qed.

(** What the scheduler gets. *)
Record inputs_ready (c n b : Z) (m : EncoderCacheManager) (out : list Z * Z * Z) (m' : EncoderCacheManager) : Prop := {
  ir_tokens : 0 <= out.1.2 <= n;
  ir_budget : out.2 = b - input_sizes out.1.1;
  ir_pos : 0 <= b -> 0 <= out.2;
  ir_nodup : NoDup (hash_at request <$> out.1.1);
  ir_inputs : forall i, i ∈ out.1.1 -> valid_input request i /\ cached m' !! hash_at request i = None;
  ir_fit : input_sizes out.1.1 <= num_free_slots m';
  ir_step : cache_step m m';
  ir_ready : forall (j : nat) f, mm_features request !! j = Some f -> needed f c out.1.2 ->
    identifier f ∈ hash_at request <$> out.1.1 \/ holds m' (identifier f)
}.

Lemma try_schedule_ok order cfg c n b shift m :
  is_encoder_decoder cfg = false -> 0 <= n -> 0 <= shift -> features_ok sz request ->
  features_sorted (mm_features request) -> ec_inv sz m ->
  wp (@try_schedule_encoder_inputs _ (ec_encoder_manager order) cfg request c n b shift)
    (fun out m' => inputs_ready c n b m out m') m.
Proof using Hsz.
  intros Hed Hn Hsh Hf Hs I. unfold try_schedule_encoder_inputs.
  assert (H0 : forall k, k = n -> (k = 0 \/ mm_features request = []) -> inputs_ready c n b m ([], k, b) m).
  { intros k -> Hk. constructor; simpl; try done; try lia.
    - unfold input_sizes. change (zsum _) with 0. lia.
    - constructor.
    - intros i Hi. by apply elem_of_nil in Hi.
    - apply (ei_nonneg _ _ I).
    - by apply cache_step_refl.
    - intros j f Hj Hne. destruct Hk as [->|Hk]; [by apply not_needed_0 in Hne|by rewrite Hk in Hj]. }
  destruct (Z.eqb_spec n 0) as [E|E]; [apply wp_ret; by apply H0; [|left]|]. cbn [orb].
  destruct (has_encoder_inputs request) eqn:Eh; cbn [negb].
  2: { apply wp_ret, H0; [done|]. right. unfold has_encoder_inputs, num_encoder_inputs in Eh.
       apply Z.ltb_ge in Eh. destruct (mm_features request); [done|simpl in Eh; lia]. }
  destruct (sorted_starts Hs) as [M1 M2].
  destruct (bisect_left_ok feature_end (mm_features request) (c + 1) M2) as (lo & Elo & Slo & Llo & Ulo).
  destruct (bisect_left_ok feature_start (mm_features request) (c + n + shift) M1) as (hi & Ehi & Shi & Lhi & Uhi).
  unfold get_mm_features_in_window. apply wp_bind, wp_bind. unfold wp at 1, of_result. rewrite Elo.
  apply wp_bind. unfold wp at 1. rewrite Ehi. apply wp_ret. cbn [fst snd]. rewrite Hed.
  apply wp_bind. replace lo with (Z.of_nat (Z.to_nat lo)) by lia.
  eapply wp_mono; [apply (encoder_loop_ok order cfg c shift n b m Hed Hsh Hn Hf Hs hi Shi Lhi Uhi (Z.to_nat (hi - lo)))|].
  - lia.
  - intros j f Hj Hjf. specialize (Ulo j f ltac:(lia) Hjf). lia.
  - constructor; simpl; try done.
    + by apply cache_step_refl.
    + unfold input_sizes. change (zsum _) with 0. lia.
    + apply (ei_nonneg _ _ I).
    + intros h. split; [set_solver|]. intros (j & Hj & _). by apply elem_of_nil in Hj.
    + constructor.
    + intros j Hj. by apply elem_of_nil in Hj.
  - done.
  - intros j g Hj Hg (Hne & _). exfalso. specialize (Llo j g ltac:(lia) Hg). lia.
  - intros e m' (A & Hk & Hr). apply wp_ret. destruct A as [A1 A2 A3 A4 A5 A6 A7 A8]. constructor; simpl; try done.
    intros j f Hj Hne. destruct (Hr j f Hj Hne) as [Hh|Hh]; [left|by right]. apply A6 in Hh as (i & Hi & <-).
    apply list_elem_of_fmap. by exists i.
Qed.
End ready.

(** ** The theorem *)

(** C34. The encoder inputs of a step are complete and affordable. For a request
    whose features are in order, _try_schedule_encoder_inputs returns; it keeps
    at most the tokens it was given and stays within the compute budget, which
    it charges for exactly the inputs it schedules; these are distinct, not
    cached, and fit together into the free space of the encoder cache; and
    every feature whose embeddings the remaining tokens read is scheduled or
    cached with a reference of this request, so that it cannot be evicted. *)
Theorem encoder_inputs_ready order cfg sz request c n b shift m :
  (forall h, 0 <= sz h) -> is_encoder_decoder cfg = false -> 0 <= n -> 0 <= shift ->
  EncoderCache.features_ok sz request -> features_sorted (mm_features request) -> EncoderCache.ec_inv sz m ->
  exists out m', @try_schedule_encoder_inputs _ (ec_encoder_manager order) cfg request c n b shift m = (Ok out, m') /\
    inputs_ready sz request c n b m out m'.
Proof. intros Hsz Hed Hn Hsh Hf Hs I. exact (wp_returns _ _ _ (try_schedule_ok sz Hsz request order cfg c n b shift m Hed Hn Hsh Hf Hs I)). Qed.

(** ** A witness: the first image fits, the step is cut before the second *)

Definition sample_config (policy : SchedulingPolicy) : SchedulerConfig :=
  mkConfig policy 4 16 64 1 0 true false false 100 false 0 0 false false 4 true None false false false 1 false 1.

Definition two_images : Request :=
  EncoderCache.image_request "r"
    [mkFeature "A" (mkPlaceholder 1 4 None); mkFeature "B" (mkPlaceholder 6 7 None)].

Lemma encoder_inputs_ready_witness : exists m',
  @try_schedule_encoder_inputs _ (ec_encoder_manager elements) (sample_config FCFS) two_images 0 16 100 0
    (EncoderCache.ec_init 8) = (Ok ([0], 6, 96), m') /\
  inputs_ready EncoderCache.sample_sizes two_images 0 16 100 (EncoderCache.ec_init 8) ([0], 6, 96) m'.
Proof.
  destruct (encoder_inputs_ready elements (sample_config FCFS) EncoderCache.sample_sizes two_images 0 16 100 0
    (EncoderCache.ec_init 8) EncoderCache.sample_sizes_nonneg) as (out & m' & Hrun & Hr).
  - reflexivity.
  - lia.
  - lia.
  - repeat constructor.
  - constructor; [repeat constructor; simpl; lia|].
    intros [|[|i]] [|[|j]] f g Hij Hf Hg; try lia; try discriminate Hf; try discriminate Hg.
    injection Hf as <-. injection Hg as <-. vm_compute. discriminate.
  - apply (EncoderCache.reset_ok EncoderCache.sample_sizes EncoderCache.sample_sizes_nonneg (EncoderCache.ec_init 8)). vm_compute. discriminate.
  - assert (E : (@try_schedule_encoder_inputs _ (ec_encoder_manager elements) (sample_config FCFS) two_images 0 16 100 0
      (EncoderCache.ec_init 8)).1 = Ok ([0], 6, 96)) by (vm_compute; reflexivity).
    rewrite Hrun in E. injection E as ->. exists m'. split; [exact Hrun|exact Hr].
Defined.

End EncoderScheduling.
