(* ===== verification/Scheduler.v ===== *)
(** * Scheduler

    v1/core/sched/scheduler.py and async_scheduler.py: one step of scheduling,
    [schedule] with everything it calls. The running requests come first, under
    a token budget, preempting others when the KV cache is full; then waiting
    requests are admitted. *)

From S2P Require Import Prelude FreeQueue Request OrderedDict RequestQueue StopCheck SingleType KVCacheManager SchedulerState EncoderScheduling.

Module Scheduler.
Import Request OrderedDict RequestQueue StopCheck KVCacheManager SchedulerState EncoderScheduling.
#[local] Open Scope Z_scope.

Section scheduler.
Context {KV EC : Type} `{!SlotManager KV} `{!EncoderManager EC} (cfg : SchedulerConfig).
#[local] Notation State := (SchedulerState.Scheduler KV EC).

(** ** Token counts *)

Definition mamba_block_aligned_split {S} (request : Request) (num_new_tokens num_new_local_computed_tokens
    num_external_computed_tokens num_uncached_common_prefix_tokens : Z) : M S Z :=
  let num_computed_tokens :=
    Request.num_computed_tokens request + num_new_local_computed_tokens + num_external_computed_tokens in
  if num_computed_tokens <? Z.max (num_prompt_tokens request) (num_tokens request - 1) then
    let block_size := cache_block_size cfg in
    if block_size =? 0 then raise ZeroDivisionError
    else
      let last_cache_position := num_tokens request - num_tokens request mod block_size in
      let last_cache_position :=
        if requires_eagle_cache_drop cfg then Z.max (last_cache_position - block_size) 0 else last_cache_position in
      let num_computed_tokens_after_sched := num_computed_tokens + num_new_tokens in
      let num_new_tokens :=
        if num_computed_tokens_after_sched <? last_cache_position then num_new_tokens / block_size * block_size
        else if (num_computed_tokens <? last_cache_position) && (last_cache_position <? num_computed_tokens_after_sched)
        then last_cache_position - num_computed_tokens
        else num_new_tokens in
      mret (if (block_size <=? num_uncached_common_prefix_tokens) &&
               (num_uncached_common_prefix_tokens <? num_new_tokens)
            then num_uncached_common_prefix_tokens / block_size * block_size else num_new_tokens)
  else mret num_new_tokens.

(** [self._mamba_block_aligned_split(...)] where the configuration needs it. *)
Definition split_if_needed {S} (request : Request) (num_new_tokens num_local num_uncached : Z) : M S Z :=
  if need_mamba_block_aligned_split cfg
  then mamba_block_aligned_split request num_new_tokens num_local 0 num_uncached
  else mret num_new_tokens.

(** The running requests a step leaves out: the last step has reached the limit
    of tokens, or the next decode is not due. *)
Definition skip_running (s : State) (request : Request) : bool :=
  ((0 <? num_output_placeholders request) &&
   (num_prompt_tokens request + max_tokens request <=?
    num_computed_tokens request + 2 - num_output_placeholders request))
  || (current_step s <? next_decode_eligible_step request).

Definition threshold_tokens (num_new_tokens : Z) : Z :=
  let threshold := long_prefill_token_threshold cfg in
  if (0 <? threshold) && (threshold <? num_new_tokens) then threshold else num_new_tokens.

(** The tokens of a running request within budget and model length. *)
Definition running_num_new_tokens (request : Request) (budget : Z) : Z :=
  let num_new_tokens :=
    num_tokens_with_spec request + num_output_placeholders request - num_computed_tokens request in
  let num_new_tokens := Z.min (threshold_tokens num_new_tokens) budget in
  Z.min num_new_tokens (max_model_len cfg - num_computed_tokens request - num_sampled_tokens_per_step cfg).

Definition shift_computed_tokens : Z := if requires_eagle_cache_drop cfg then 1 else 0.

(** The encoder inputs of the step, the tokens and the compute budget left. *)
Definition schedule_encoder (request : Request) (num_computed_tokens num_new_tokens budget : Z)
    : M State (list Z * Z * Z) :=
  if has_encoder_inputs request
  then on_ec (try_schedule_encoder_inputs cfg request num_computed_tokens num_new_tokens budget shift_computed_tokens)
  else mret ([], num_new_tokens, budget).

(** [for i in encoder_inputs_to_schedule: self.encoder_cache_manager.allocate(request, i)] *)
Definition allocate_encoder (request : Request) (inputs : list Z) : M State unit :=
  on_ec (for_each (em_allocate request) inputs).

(** ** Preemption *)

Definition preempt_request (r : Z) : M State unit :=
  request ← obj r;
  assert_ (bool_decide (status request = RUNNING)) ;;
  on_kv (sm_free request) ;;
  on_ec (em_free request) ;;
  modify (fun s => set_inflight_prefills (inflight_prefills s ∖ {[r]}) s) ;;
  update_obj r (fun q => set_num_preemptions (num_preemptions q + 1)
    (set_spec_token_ids [] (set_num_computed_tokens 0 (set_status PREEMPTED q)))) ;;
  on_waiting (fun o => prepend_request o r).

(** [max(l, key=...)] returns the first maximum. *)
Fixpoint max_by {A} (gt : A -> A -> bool) (best : A) (l : list A) : A :=
  match l with
  | [] => best
  | x :: l' => max_by gt (if gt x best then x else best) l'
  end.

(** [(a.priority, a.arrival_time) > (b.priority, b.arrival_time)] *)
Definition less_urgent (a b : Request) : bool :=
  (priority b <? priority a) || ((priority a =? priority b) && (arrival_time b <? arrival_time a)).

(** Take back what this step has scheduled for a request that is preempted. *)
Definition unschedule (r : Z) (st : Step) : M State Step :=
  request ← obj r;
  let id := request_id request in
  rs ← of_option ValueError (list_remove r (scheduled_running_reqs st));
  n ← of_option KeyError (od_get id (num_scheduled_tokens st));
  _ ← of_option KeyError (od_get id (req_to_new_blocks st));
  embeds ← map_m (get_num_encoder_embeds request) (default [] (od_get id (scheduled_encoder_inputs st)));
  mret (set_scheduled_running_reqs rs
         (set_token_budget (token_budget st + n)
           (set_num_scheduled_tokens (od_remove id (num_scheduled_tokens st))
             (set_req_to_new_blocks (od_remove id (req_to_new_blocks st))
               (set_scheduled_spec_decode_tokens (od_remove id (scheduled_spec_decode_tokens st))
                 (set_scheduled_encoder_inputs (od_remove id (scheduled_encoder_inputs st))
                   (set_encoder_compute_budget (encoder_compute_budget st + zsum embeds) st))))))).

(** The request to preempt, taken off the running list; the index moves back
    when it was scheduled in this step. *)
Definition pick_victim (req_index : Z) (st : Step) : M State (Z * Z * Step) :=
  s ← get;
  match policy cfg with
  | PRIORITY =>
      match running s with
      | [] => raise ValueError
      | r :: rs =>
          let victim := max_by (fun a b => less_urgent (objs s a) (objs s b)) r rs in
          rest ← of_option ValueError (list_remove victim (running s));
          modify (set_running rest) ;;
          if bool_decide (victim ∈ scheduled_running_reqs st) then
            st' ← unschedule victim st;
            mret (victim, req_index - 1, st')
          else mret (victim, req_index, st)
      end
  | FCFS =>
      match last (running s) with
      | None => raise IndexError
      | Some victim => modify (set_running (removelast (running s))) ;; mret (victim, req_index, st)
      end
  end.

Definition running_slot_args (num_new_tokens : Z) : SlotArgs :=
  mkSlotArgs num_new_tokens 0 None (cfg_num_lookahead_tokens cfg) 0 false 0 false 0 true.

(** [while True]: allocate, preempt while there is no room; [None] when the
    request itself was preempted. *)
Fixpoint alloc_loop (fuel : nat) (r num_new_tokens req_index : Z) (st : Step)
    : M State (option KVCacheBlocks * Z * Step) :=
  match fuel with
  | O => raise OutOfFuel
  | S fuel =>
      request ← obj r;
      new_blocks ← on_kv (sm_allocate_slots request (running_slot_args num_new_tokens));
      match new_blocks with
      | Some _ => mret (new_blocks, req_index, st)
      | None =>
          v ← pick_victim req_index st;
          let '(victim, req_index, st) := v in
          preempt_request victim ;;
          let st := set_preempted_reqs (preempted_reqs st ++ [victim]) st in
          if decide (victim = r) then mret (None, req_index, st)
          else alloc_loop fuel r num_new_tokens req_index st
      end
  end.

(** ** The running requests *)

(** Record what a running request got: its blocks and tokens, its drafts. *)
Definition schedule_running (r num_new_tokens : Z) (new_blocks : KVCacheBlocks) (st : Step) : M State Step :=
  request ← obj r;
  let id := request_id request in
  let st :=
    set_scheduled_running_reqs (scheduled_running_reqs st ++ [r])
      (set_req_to_new_blocks (od_set id new_blocks (req_to_new_blocks st))
        (set_num_scheduled_tokens (od_set id num_new_tokens (num_scheduled_tokens st))
          (set_token_budget (token_budget st - num_new_tokens) st))) in
  match spec_token_ids request with
  | [] => mret st
  | ids =>
      let num_scheduled_spec_tokens :=
        num_new_tokens + num_computed_tokens request - num_tokens request - num_output_placeholders request in
      update_obj r (set_spec_token_ids []) ;;
      mret (if 0 <? num_scheduled_spec_tokens
            then set_scheduled_spec_decode_tokens
                   (od_set id (if num_scheduled_spec_tokens <? zlen ids then take (Z.to_nat num_scheduled_spec_tokens) ids
                               else ids) (scheduled_spec_decode_tokens st)) st
            else st)
  end.

(** Record and allocate the encoder inputs of a scheduled request. *)
Definition schedule_encoder_inputs (r : Z) (inputs : list Z) (new_encoder_compute_budget : Z) (st : Step)
    : M State Step :=
  request ← obj r;
  match inputs with
  | [] => mret st
  | _ =>
      allocate_encoder request inputs ;;
      mret (set_encoder_compute_budget new_encoder_compute_budget
             (set_scheduled_encoder_inputs (od_set (request_id request) inputs (scheduled_encoder_inputs st)) st))
  end.

(** The body of the loop over [self.running]; false is [break]. *)
Definition running_step (req_index : Z) (st : Step) : M State (bool * Z * Step) :=
  s ← get;
  r ← of_option IndexError (py_index (running s) req_index);
  request ← obj r;
  if skip_running s request then mret (true, req_index + 1, st)
  else
    enc ← schedule_encoder request (num_computed_tokens request)
            (running_num_new_tokens request (token_budget st)) (encoder_compute_budget st);
    let '(inputs, num_new_tokens, new_encoder_compute_budget) := enc in
    num_new_tokens ← split_if_needed request num_new_tokens 0 0;
    if num_new_tokens =? 0 then mret (true, req_index + 1, st)
    else
      a ← alloc_loop (S (length (running s))) r num_new_tokens req_index st;
      let '(new_blocks, req_index, st) := a in
      match new_blocks with
      | None => mret (false, req_index, st)
      | Some new_blocks =>
          st ← schedule_running r num_new_tokens new_blocks st;
          st ← schedule_encoder_inputs r inputs new_encoder_compute_budget st;
          mret (true, req_index + 1, st)
      end.

Fixpoint running_loop (fuel : nat) (req_index : Z) (st : Step) : M State Step :=
  match fuel with
  | O => raise OutOfFuel
  | S fuel =>
      s ← get;
      if (req_index <? zlen (running s)) && (0 <? token_budget st) then
        o ← running_step req_index st;
        let '(go_on, req_index, st) := o in
        if (go_on : bool) then running_loop fuel req_index st else mret st
      else mret st
  end.

(** The LoRAs of the scheduled running requests. *)
Definition record_loras (st : Step) : M State Step :=
  match max_loras cfg with
  | None => mret st
  | Some max_loras =>
      s ← get;
      let loras := list_to_set (omap (fun r =>
        match lora_request (objs s r) with
        | Some l => if 0 <? adapter_id l then Some (adapter_id l) else None
        | None => None
        end) (scheduled_running_reqs st)) : gset Z in
      assert_ (Z.of_nat (size loras) <=? max_loras) ;;
      mret (set_scheduled_loras loras st)
  end.

(** ** The waiting requests *)

Inductive which_queue := Waiting | SkippedWaiting.
Definition on_queue {A} (w : which_queue) (op : (Z -> Request) -> M RequestQueue A) : M State A :=
  match w with Waiting => on_waiting op | SkippedWaiting => on_skipped_waiting op end.

(** [bool(queue)] *)
Definition nonempty (q : RequestQueue) : bool := negb (len q =? 0)%nat.

Definition select_waiting_queue_for_scheduling : M State (option which_queue) :=
  s ← get;
  match policy cfg with
  | FCFS =>
      mret (if nonempty (skipped_waiting s) then Some SkippedWaiting
            else if nonempty (waiting s) then Some Waiting else None)
  | PRIORITY =>
      if nonempty (waiting s) && nonempty (skipped_waiting s) then
        waiting_req ← on_waiting (fun _ => peek_request);
        skipped_req ← on_skipped_waiting (fun _ => peek_request);
        mret (Some (if lt (objs s) waiting_req skipped_req then Waiting else SkippedWaiting))
      else mret (if nonempty (waiting s) then Some Waiting
                 else if nonempty (skipped_waiting s) then Some SkippedWaiting else None)
  end.

Definition is_blocked_waiting_status (s : RequestStatus) : bool :=
  match s with
  | WAITING_FOR_STRUCTURED_OUTPUT_GRAMMAR | WAITING_FOR_REMOTE_KVS | WAITING_FOR_STREAMING_REQ => true
  | _ => false
  end.

(** [grammar_ready] answers [structured_output_req and structured_output_req.grammar],
    which another thread fills in. Without a connector the update of a request
    with remote KVs fails its assertion. *)
Definition try_promote_blocked_waiting_request (grammar_ready : Z -> bool) (r : Z) : M State bool :=
  request ← obj r;
  s ← get;
  match status request with
  | WAITING_FOR_REMOTE_KVS =>
      if bool_decide (request_id request ∈ finished_recving_kv_req_ids s) then raise AssertionError else mret false
  | WAITING_FOR_STRUCTURED_OUTPUT_GRAMMAR =>
      if grammar_ready r then update_obj r (set_status WAITING) ;; mret true else mret false
  | WAITING_FOR_STREAMING_REQ =>
      assert_ (match streaming_queue s r with Some (_ :: _) => false | _ => true end) ;; mret false
  | _ => raise AssertionError
  end.

(** Scheduling the request would exceed [max_loras]. *)
Definition lora_blocked (request : Request) (st : Step) : bool :=
  match max_loras cfg, lora_request request with
  | Some max_loras, Some l =>
      (Z.of_nat (size (scheduled_loras st)) =? max_loras) && negb (bool_decide (adapter_id l ∈ scheduled_loras st))
  | _, _ => false
  end.

(** Take the request off its queue until the end of the step. *)
Definition skip_for_this_step (w : which_queue) (r : Z) (st : Step) : M State Step :=
  _ ← on_queue w pop_request;
  s ← get;
  q ← of_result (match prepend_request (objs s) r (step_skipped_waiting st) with
                 | (Ok _, q) => Ok q
                 | (Err e, _) => Err e
                 end);
  mret (set_step_skipped_waiting q st).

(** [request.prefill_stats.set(...)] *)
Definition record_prefill (r num_cached_tokens : Z) : M State unit :=
  request ← obj r;
  match prefill_stats request with
  | None => mret tt
  | Some _ =>
      let n := num_prompt_tokens request in
      assert_ (num_cached_tokens <=? n) ;;
      update_obj r (set_prefill_stats
        (Some (mkPrefillStats n (n - num_cached_tokens) num_cached_tokens num_cached_tokens 0)))
  end.

(** The cached prefix of a request: its blocks, their tokens, all computed
    tokens, and the hint of hybrid models. *)
Definition cached_prefix (r : Z) : M State (KVCacheBlocks * Z * Z * Z) :=
  request ← obj r;
  if num_computed_tokens request =? 0 then
    hit ← on_kv (sm_get_computed_blocks request);
    s ← get;
    let num_uncached := if has_mamba_layers cfg then sm_uncached_common_prefix (kv_cache_manager s) else 0 in
    assert_ (hit.2 <=? num_tokens request) ;;
    record_prefill r hit.2 ;;
    mret (hit.1, hit.2, hit.2, num_uncached)
  else
    s ← get;
    mret (sm_empty_blocks (kv_cache_manager s), 0, num_computed_tokens request, 0).

(** The tokens of a waiting request, [None] for [break], with its encoder
    inputs and the compute budget left. *)
Definition waiting_num_new_tokens (request : Request) (num_computed_tokens num_local num_uncached : Z) (st : Step)
    : M State (option (list Z * Z * Z)) :=
  let num_new_tokens := threshold_tokens (num_tokens request - num_computed_tokens) in
  if negb (enable_chunked_prefill cfg) && (token_budget st <? num_new_tokens) then mret None
  else
    let num_new_tokens := Z.min num_new_tokens (token_budget st) in
    assert_ (0 <? num_new_tokens) ;;
    enc ← schedule_encoder request num_computed_tokens num_new_tokens (encoder_compute_budget st);
    let '(inputs, num_new_tokens, new_encoder_compute_budget) := enc in
    if num_new_tokens =? 0 then mret None
    else
      num_new_tokens ← split_if_needed request num_new_tokens num_local num_uncached;
      if num_new_tokens =? 0 then mret None
      else mret (Some (inputs, num_new_tokens, new_encoder_compute_budget)).

Definition waiting_slot_args (request : Request) (num_new_tokens num_local : Z) (blocks : KVCacheBlocks)
    (num_encoder_tokens : Z) (running : list Z) : SlotArgs :=
  mkSlotArgs num_new_tokens num_local (Some blocks) (cfg_num_lookahead_tokens cfg) 0 false num_encoder_tokens
    (scheduler_reserve_full_isl cfg) 0 (match running with [] => false | _ => true end).

(** The cross-attention tokens of an encoder-decoder model. *)
Definition cross_attention_tokens (request : Request) (inputs : list Z) : M State Z :=
  if is_encoder_decoder cfg && has_encoder_inputs request then
    embeds ← map_m (get_num_encoder_embeds request) inputs; mret (zsum embeds)
  else mret 0.

(** An admitted request starts running. *)
Definition start_running (w : which_queue) (id : string) (num_computed num_new_tokens : Z) (st : Step)
    : M State (Z * Step) :=
  r ← on_queue w pop_request;
  modify (fun s => set_running (running s ++ [r]) s) ;;
  request ← obj r;
  st ← match status request with
       | WAITING => mret (set_scheduled_new_reqs (scheduled_new_reqs st ++ [r]) st)
       | PREEMPTED => mret (set_scheduled_resumed_reqs (scheduled_resumed_reqs st ++ [r]) st)
       | _ => raise RuntimeError
       end;
  let st := match max_loras cfg, lora_request request with
            | Some _, Some l => set_scheduled_loras ({[adapter_id l]} ∪ scheduled_loras st) st
            | _, _ => st
            end in
  s ← get;
  let st := set_req_to_new_blocks (od_set id (sm_get_blocks id (kv_cache_manager s)) (req_to_new_blocks st))
              (set_num_scheduled_tokens (od_set id num_new_tokens (num_scheduled_tokens st))
                (set_token_budget (token_budget st - num_new_tokens) st)) in
  update_obj r (fun q => set_num_computed_tokens num_computed (set_status RUNNING q)) ;;
  (if num_computed + num_new_tokens <? num_tokens request
   then modify (fun s => set_inflight_prefills ({[r]} ∪ inflight_prefills s) s) else mret tt) ;;
  mret (r, st).

(** The body of the loop over the waiting queues; false is [break]. *)
Definition waiting_step (grammar_ready : Z -> bool) (st : Step) : M State (bool * Step) :=
  s ← get;
  if zlen (running s) =? max_num_running_reqs cfg then mret (false, st)
  else
    w ← select_waiting_queue_for_scheduling;
    w ← of_option AssertionError w;
    r ← on_queue w (fun _ => peek_request);
    request ← obj r;
    schedulable ← (if is_blocked_waiting_status (status request)
                   then try_promote_blocked_waiting_request grammar_ready r else mret true);
    if negb schedulable || lora_blocked request st then
      st ← skip_for_this_step w r st; mret (true, st)
    else
      hit ← cached_prefix r;
      let '(blocks, num_local, num_computed, num_uncached) := hit in
      request ← obj r;
      plan ← waiting_num_new_tokens request num_computed num_local num_uncached st;
      match plan with
      | None => mret (false, st)
      | Some (inputs, num_new_tokens, new_encoder_compute_budget) =>
          num_encoder_tokens ← cross_attention_tokens request inputs;
          s ← get;
          new_blocks ← on_kv (sm_allocate_slots request
            (waiting_slot_args request num_new_tokens num_local blocks num_encoder_tokens (running s)));
          match new_blocks with
          | None => (if has_encoder_inputs request then on_ec (em_free request) else mret tt) ;; mret (false, st)
          | Some _ =>
              a ← start_running w (request_id request) num_computed num_new_tokens st;
              st ← schedule_encoder_inputs a.1 inputs new_encoder_compute_budget a.2;
              mret (true, st)
          end
      end.

Fixpoint waiting_loop (fuel : nat) (grammar_ready : Z -> bool) (st : Step) : M State Step :=
  match fuel with
  | O => raise OutOfFuel
  | S fuel =>
      s ← get;
      if (nonempty (waiting s) || nonempty (skipped_waiting s)) && (0 <? token_budget st) then
        o ← waiting_step grammar_ready st;
        if (o.1 : bool) then waiting_loop fuel grammar_ready o.2 else mret o.2
      else mret st
  end.

(** The second half of [schedule], skipped when requests were preempted. *)
Definition schedule_waiting (grammar_ready : Z -> bool) (st : Step) : M State Step :=
  s ← get;
  match preempted_reqs st with
  | [] =>
      if decide (pause_state s = UNPAUSED) then
        st ← waiting_loop (S (len (waiting s) + len (skipped_waiting s))) grammar_ready
               (set_step_skipped_waiting (create_request_queue (policy cfg)) st);
        (if nonempty (step_skipped_waiting st)
         then on_skipped_waiting (fun o => prepend_requests o (step_skipped_waiting st)) else mret tt) ;;
        mret st
      else mret st
  | _ => mret st
  end.

(** ** The output *)

Definition cached_request_data_one (num_running : nat) (st : Step) (d : CachedRequestData) (ir : nat * Z)
    : M State CachedRequestData :=
  s ← get;
  let req := objs s ir.2 in
  let req_id := request_id req in
  toks ← (if send_token_ids cfg then
            n ← of_option KeyError (od_get req_id (num_scheduled_tokens st));
            let num_tokens := n - zlen (default [] (od_get req_id (scheduled_spec_decode_tokens st))) in
            mret [slice (Z.to_nat (num_computed_tokens req)) (Z.to_nat (num_computed_tokens req + num_tokens))
                    (all_token_ids req)]
          else mret []);
  let scheduled_in_prev_step := bool_decide (req_id ∈ prev_step_scheduled_req_ids s) in
  (if (num_running <=? ir.1)%nat then assert_ (negb scheduled_in_prev_step) else mret tt) ;;
  blocks ← of_option KeyError (od_get req_id (req_to_new_blocks st));
  mret (mkCachedData (cd_req_ids d ++ [req_id])
          (if (num_running <=? ir.1)%nat then {[req_id]} ∪ cd_resumed_req_ids d else cd_resumed_req_ids d)
          (cd_new_token_ids d ++ toks)
          (if scheduled_in_prev_step then cd_all_token_ids d else <[req_id := all_token_ids req]> (cd_all_token_ids d))
          (cd_new_block_ids d ++ [get_block_ids blocks true])
          (cd_num_computed_tokens d ++ [num_computed_tokens req])
          (cd_num_output_tokens d ++ [num_output_tokens req + num_output_placeholders req])).

Definition make_cached_request_data (running_reqs resumed_reqs : list Z) (st : Step) : M State CachedRequestData :=
  let reqs := running_reqs ++ resumed_reqs in
  for_fold (cached_request_data_one (length running_reqs) st) (zip (seq 0 (length reqs)) reqs) empty_cached_data.

Definition make_new_request_data (st : Step) (r : Z) : M State NewRequestData :=
  req ← obj r;
  blocks ← of_option KeyError (od_get (request_id req) (req_to_new_blocks st));
  mret (new_request_data req (default [] (get_block_ids blocks false))
          (if use_v2_model_runner cfg then Some (all_token_ids req) else None)).

(** The number of common prefix blocks of the running requests, by group. *)
Definition common_prefix_blocks : M State (list Z) :=
  s ← get;
  match running s with
  | [] => mret (replicate (num_kv_groups cfg) 0)
  | r :: _ => on_kv (sm_get_num_common_prefix_blocks (request_id (objs s r)))
  end.

(** [_update_after_schedule] for one request, and the part an [AsyncScheduler] adds. *)
Definition update_one (o : SchedulerOutput) (e : string * Z) : M State SchedulerOutput :=
  s ← get;
  r ← of_option KeyError (requests s !! e.1);
  update_obj r (fun q => set_num_computed_tokens (num_computed_tokens q + e.2) q) ;;
  update_obj r (fun q => set_is_prefill_chunk
    (num_computed_tokens q <? num_tokens q + num_output_placeholders q) q) ;;
  request ← obj r;
  (if is_prefill_chunk request then mret tt
   else modify (fun s => set_inflight_prefills (inflight_prefills s ∖ {[r]}) s)) ;;
  mret (set_has_structured_output_requests
    (has_structured_output_requests o || (use_structured_output request && negb (is_prefill_chunk request))) o).

Definition update_one_async (o : SchedulerOutput) (e : string * Z) : M State SchedulerOutput :=
  s ← get;
  r ← of_option KeyError (requests s !! e.1);
  request ← obj r;
  if is_prefill_chunk request then mret o
  else
    let cur_num_spec_tokens := zlen (default [] (od_get e.1 (out_spec_decode_tokens o))) in
    update_obj r (fun q => set_spec_token_ids (replicate (Z.to_nat (num_spec_tokens cfg)) (-1))
      (set_num_output_placeholders
        (num_output_placeholders q + (num_sampled_tokens_per_step cfg + cur_num_spec_tokens)) q)) ;;
    (if use_v2_model_runner cfg
     then update_obj r (set_next_decode_eligible_step (current_step s + pp_size cfg)) else mret tt) ;;
    mret (set_pending_structured_output_tokens
      (pending_structured_output_tokens o || (use_structured_output request && (0 <? num_output_placeholders request))) o).

Definition update_after_schedule (o : SchedulerOutput) : M State SchedulerOutput :=
  o ← for_fold update_one (out_num_scheduled_tokens o) o;
  modify (set_finished_req_ids ∅) ;;
  if async_scheduling cfg then for_fold update_one_async (out_num_scheduled_tokens o) o else mret o.

(** ** The step *)

Definition initial_step (s : State) : Step :=
  mkStep (if decide (pause_state s = PAUSED_ALL) then 0 else max_num_scheduled_tokens cfg)
    (max_num_encoder_input_tokens cfg) [] [] [] [] [] [] [] [] ∅ (create_request_queue (policy cfg)).

(** The assertions at the end of the scheduling loops. *)
Definition check_step (st : Step) : M State unit :=
  s ← get;
  assert_ (zsum (num_scheduled_tokens st).*2 <=? max_num_scheduled_tokens cfg) ;;
  assert_ (0 <=? token_budget st) ;;
  assert_ (zlen (running s) <=? max_num_running_reqs cfg) ;;
  assert_ (zlen (scheduled_new_reqs st) + zlen (scheduled_resumed_reqs st) + zlen (scheduled_running_reqs st)
           <=? zlen (running s)).

(** Building the output, up to [_update_after_schedule]. *)
Definition make_output (st : Step) : M State SchedulerOutput :=
  common ← common_prefix_blocks;
  let new_reqs := if use_v2_model_runner cfg then scheduled_new_reqs st ++ scheduled_resumed_reqs st
                  else scheduled_new_reqs st in
  let resumed_reqs := if use_v2_model_runner cfg then [] else scheduled_resumed_reqs st in
  new_data ← map_m (make_new_request_data st) new_reqs;
  cached_data ← make_cached_request_data (scheduled_running_reqs st) resumed_reqs st;
  modify (set_prev_step_scheduled_req_ids (list_to_set (num_scheduled_tokens st).*1)) ;;
  zero ← (if needs_kv_cache_zeroing cfg then
            ids ← on_kv sm_take_new_block_ids; mret (match ids with [] => None | _ => Some ids end)
          else mret None);
  freed ← on_ec em_get_freed_mm_hashes;
  s ← get;
  mret (mkOutput new_data cached_data (num_scheduled_tokens st) (zsum (num_scheduled_tokens st).*2)
          (scheduled_spec_decode_tokens st) (scheduled_encoder_inputs st) common (finished_req_ids s) freed
          (list_to_set ((fun r => request_id (objs s r)) <$> preempted_reqs st)) false false None zero).

Definition schedule (grammar_ready : Z -> bool) : M State SchedulerOutput :=
  modify (fun s => set_current_step (current_step s + 1) s) ;;
  on_kv sm_new_step_starts ;;
  s ← get;
  st ← running_loop (S (length (running s))) 0 (initial_step s);
  st ← record_loras st;
  st ← schedule_waiting grammar_ready st;
  check_step st ;;
  o ← make_output st;
  update_after_schedule o.

End scheduler.
End Scheduler.
