(* ===== verification/SchedulerSafety.v ===== *)
(** * SchedulerSafety

    A step of the scheduler is safe: [schedule] returns whatever the state of the
    queues, loses and duplicates no request, stays within its budgets, and gives
    every scheduled request slots for its tokens. It is proved against the
    interface [SlotContract] of the KV cache manager. *)

From S2P Require Import Prelude Request OrderedDict Heap RequestQueue StopCheck EncoderCache KVCacheManager SchedulerState EncoderScheduling Scheduler.

Module SchedulerSafety.
Import EncoderCache Request OrderedDict RequestQueue KVCacheManager SchedulerState EncoderScheduling Scheduler.
#[local] Open Scope Z_scope.

(** ** The interface to the KV cache *)

(** [slots_rep k S]: the manager is sound and exactly the requests of [S] hold
    slots, for the given numbers of tokens. [slots_hit]: what a lookup for a
    request has just found. The laws are what the scheduler relies on: called by
    its rules, the operations return, and touch the slots of that request only. *)
Class SlotContract (cfg : SchedulerConfig) (KV : Type) `{!SlotManager KV} := {
  slots_rep : KV -> gmap string Z -> Prop;
  slots_hit : KV -> Request -> KVCacheBlocks -> Z -> Prop;
  slots_new_step k S : slots_rep k S -> wp sm_new_step_starts (fun _ k' => slots_rep k' S) k;
  slots_free k S r : slots_rep k S -> wp (sm_free r) (fun _ k' => slots_rep k' (delete (request_id r) S)) k;
  slots_common k S id : slots_rep k S -> is_Some (S !! id) ->
    wp (sm_get_num_common_prefix_blocks id) (fun _ k' => slots_rep k' S) k;
  slots_take_ids k S : slots_rep k S -> wp sm_take_new_block_ids (fun _ k' => slots_rep k' S) k;
  slots_cache k S r n : slots_rep k S -> is_Some (S !! request_id r) -> 0 <= n <= num_tokens r ->
    wp (sm_cache_blocks r n) (fun _ k' => slots_rep k' S) k;
  slots_take_events k S : slots_rep k S -> wp sm_take_events (fun _ k' => slots_rep k' S) k;
  slots_reset k S : slots_rep k S -> wp sm_reset_prefix_cache (fun ok k' => slots_rep k' S /\ (S = ∅ -> ok = true)) k;
  slots_running k S r n m : slots_rep k S -> S !! request_id r = Some m ->
    0 <= num_computed_tokens r <= m -> 0 < n -> num_computed_tokens r + n <= max_model_len cfg ->
    wp (sm_allocate_slots r (running_slot_args cfg n)) (fun o k' =>
      match o with
      | None => slots_rep k' S
      | Some _ => exists m', num_computed_tokens r + n <= m' /\ slots_rep k' (<[request_id r := m']> S)
      end) k;
  slots_lookup k S r : slots_rep k S -> S !! request_id r = None -> 0 < num_tokens r ->
    wp (sm_get_computed_blocks r) (fun hit k' =>
      slots_rep k' S /\ 0 <= hit.2 < num_tokens r /\
      forall stats, slots_hit k' (set_prefill_stats stats r) hit.1 hit.2) k;
  slots_waiting k S r n blocks local enc running : slots_rep k S -> S !! request_id r = None ->
    num_computed_tokens r = 0 -> slots_hit k r blocks local -> 0 < n -> 0 <= local ->
    local + n <= max_model_len cfg ->
    wp (sm_allocate_slots r (waiting_slot_args cfg r n local blocks enc running)) (fun o k' =>
      match o with
      | None => slots_rep k' S
      | Some _ => exists m', local + n <= m' /\ slots_rep k' (<[request_id r := m']> S)
      end) k
}.

(** What the configuration has to satisfy: a decoder-only model without LoRAs. *)
Record config_ok (cfg : SchedulerConfig) : Prop := {
  cfg_decoder : is_encoder_decoder cfg = false;
  cfg_no_loras : max_loras cfg = None;
  cfg_tokens : 0 <= max_num_scheduled_tokens cfg;
  cfg_sampled : 0 <= num_sampled_tokens_per_step cfg;
  cfg_split : need_mamba_block_aligned_split cfg = true -> 0 < cache_block_size cfg
}.

(** ** Token counts *)

Lemma split_if_needed_ok {S} cfg request n local uncached (s : S) :
  config_ok cfg -> 0 <= n ->
  wp (split_if_needed cfg request n local uncached) (fun n' s' => s' = s /\ 0 <= n' <= n) s.
Proof.
  intros C Hn. unfold split_if_needed. destruct (need_mamba_block_aligned_split cfg) eqn:E; [|apply wp_ret; split; [done|lia]].
  pose proof (cfg_split _ C E) as Hb. unfold mamba_block_aligned_split. case_match eqn:E1; [|apply wp_ret; split; [done|lia]].
  apply Z.ltb_lt in E1. rewrite (proj2 (Z.eqb_neq _ _)) by lia. apply wp_ret. split; [done|].
  set (c := num_computed_tokens request + local + 0) in *.
  match goal with |- context [if ?b then Z.max (?x - ?y) 0 else ?x] => set (last := if b then Z.max (x - y) 0 else x) end.
  set (b := cache_block_size cfg) in *.
  assert (Hfl : forall x, 0 <= x -> 0 <= x / b * b <= x).
  { intros x Hx. pose proof (Z.div_pos x b Hx Hb). pose proof (Z.mul_div_le x b Hb). nia. }
  set (n1 := if c + n <? last then n / b * b else if (c <? last) && (last <? c + n) then last - c else n).
  assert (H1 : 0 <= n1 <= n).
  { unfold n1. destruct (c + n <? last) eqn:F1; [by apply Hfl|].
    destruct ((c <? last) && (last <? c + n)) eqn:F2; [|lia].
    apply andb_true_iff in F2 as [F2%Z.ltb_lt F3%Z.ltb_lt]. lia. }
  destruct ((b <=? uncached) && (uncached <? n1)) eqn:F; [|done].
  apply andb_true_iff in F as [F1%Z.leb_le F2%Z.ltb_lt]. specialize (Hfl uncached ltac:(lia)). lia.
Qed.

Lemma threshold_bounds cfg n : 0 <= n -> 0 <= threshold_tokens cfg n <= n /\ (0 < n -> 0 < threshold_tokens cfg n).
Proof.
  intros Hn. unfold threshold_tokens. cbv zeta. destruct (_ && _) eqn:E; [|lia].
  apply andb_true_iff in E as [E1%Z.ltb_lt E2%Z.ltb_lt]. lia.
Qed.

(** ** Queues under updates of the requests *)

(** What no operation of a step changes of a request. *)
Definition static (q : Request) :=
  (request_id q, priority q, arrival_time q, mm_features q, all_token_ids q, num_prompt_tokens q, max_tokens q,
   resumable q, sampling_params q, pooling_params q, output_token_ids q).

Lemma static_eq q q' : static q = static q' ->
  request_id q = request_id q' /\ priority q = priority q' /\ arrival_time q = arrival_time q' /\
  mm_features q = mm_features q' /\ all_token_ids q = all_token_ids q' /\ num_prompt_tokens q = num_prompt_tokens q'.
Proof. unfold static. intros [= -> -> -> -> -> -> _ _ _ _ _]. done. Qed.

(** What the order of requests depends on. *)
Definition rank (q : Request) := (request_id q, priority q, arrival_time q).

Lemma lt_ext o o' a b : rank (o a) = rank (o' a) -> rank (o b) = rank (o' b) -> lt o a b = lt o' a b.
Proof. unfold lt, request_lt, rank. intros [= -> -> ->] [= -> -> ->]. done. Qed.

Lemma serves_rank o o' policy q l :
  (forall r, r ∈ l -> rank (o r) = rank (o' r)) -> serves o policy q l -> serves o' policy q l.
Proof.
  intros H. destruct policy, q as [k|h]; try done. simpl. intros (Hh & Hp & Hs). split; [|split; [done|]].
  - intros j x y Hj H1 Hx Hy. unfold Heap.le. rewrite <- (lt_ext o o'); [by apply (Hh j)|apply H..].
    + rewrite <- Hp. by eapply list_elem_of_lookup_2.
    + rewrite <- Hp. by eapply list_elem_of_lookup_2.
  - clear Hp. induction Hs as [|x l Hs IH Hx]; constructor; [apply IH; intros r Hr; apply H; by right|].
    rewrite List.Forall_forall in *. intros y Hy. unfold Heap.le. apply list_elem_of_In in Hy as Hy'.
    rewrite <- (lt_ext o o'); [by apply Hx|apply H; by right|apply H; by left].
Qed.

Lemma serves_ext o o' policy q l :
  (forall r, static (o r) = static (o' r)) -> serves o policy q l -> serves o' policy q l.
Proof.
  intros H. apply serves_rank. intros r _. destruct (static_eq _ _ (H r)) as (E1 & E2 & E3 & _). unfold rank. congruence.
Qed.

(** ** The state during a step *)

Section step.
Context {KV : Type} {SM : SlotManager KV} (cfg : SchedulerConfig) {SC : SlotContract cfg KV} (C : config_ok cfg).
Context (order : gset Z -> list Z) (Horder : forall s i, i ∈ order s -> i ∈ s).
Context (sz : string -> Z) (Hsz : forall h, 0 <= sz h).
#[local] Notation EC := EncoderCache.EncoderCacheManager.
#[local] Instance ecm : EncoderManager EC := ec_encoder_manager order.
#[local] Notation State := (SchedulerState.Scheduler KV EC).

(** The unfinished requests when the step starts: their references and their
    data then. *)
Context (all : list Z) (objs0 : Z -> Request) (rmap : gmap string Z).
Notation idof r := (request_id (objs0 r)).

(** What holds of every unfinished request throughout. *)
Record request_ok (q : Request) : Prop := {
  rq_tokens : 0 < num_tokens q;
  rq_length : num_tokens q + num_sampled_tokens_per_step cfg <= max_model_len cfg;
  rq_embeds : features_ok sz q;
  rq_sorted : features_sorted (mm_features q)
}.

Hypothesis Hall : NoDup all.
Hypothesis Hmap : forall id r, rmap !! id = Some r <-> r ∈ all /\ idof r = id.
Hypothesis Hok : forall r, r ∈ all -> request_ok (objs0 r).

(** Output placeholders are used by asynchronous scheduling only. *)
Definition placeholders_ok (q : Request) : Prop :=
  0 <= num_output_placeholders q /\ (async_scheduling cfg = false -> num_output_placeholders q = 0).

(** A running request has slots for its computed tokens. *)
Definition run_ok (q : Request) (slots : option Z) : Prop :=
  status q = RUNNING /\ placeholders_ok q /\
  0 <= num_computed_tokens q <= max_model_len cfg - num_sampled_tokens_per_step cfg /\
  exists m, slots = Some m /\ num_computed_tokens q <= m.

Definition wait_ok (q : Request) : Prop :=
  (status q = WAITING \/ status q = PREEMPTED \/ status q = WAITING_FOR_STRUCTURED_OUTPUT_GRAMMAR) /\
  num_computed_tokens q = 0 /\ placeholders_ok q.

(** [R]: the running requests, [W] and [K]: the waiting queues in the order of
    service, [Q]: skipped in this step, [H]: in no list right now; [S]: the
    slots held, by the requests of [D]; [P]: preempted in this step; [prev]: the
    ids scheduled in the step before. *)
Record core_at {prev : gset string} (s : State) (R W K Q H D P : list Z) (S : gmap string Z) : Prop := {
  co_static : forall r, static (objs s r) = static (objs0 r);
  co_requests : requests s = rmap;
  co_perm : R ++ W ++ K ++ Q ++ H ≡ₚ all;
  co_waiting : serves objs0 (policy cfg) (waiting s) W;
  co_skipped : serves objs0 (policy cfg) (skipped_waiting s) K;
  co_run : forall r, r ∈ R -> run_ok (objs s r) (S !! idof r);
  co_wait : forall r, r ∈ W ++ K ++ Q -> wait_ok (objs s r);
  co_slots : slots_rep (kv_cache_manager s) S;
  co_dom : forall id, is_Some (S !! id) -> exists r, r ∈ D /\ idof r = id;
  co_enc : ec_inv sz (encoder_cache_manager s);
  co_ids : forall id i, i ∈ default ∅ (EncoderCache.request_cached_ids (encoder_cache_manager s) !! id) ->
    exists r, r ∈ all /\ idof r = id /\ valid_input (objs0 r) i;
  co_prefill : forall r, r ∈ all -> is_Some (prefill_stats (objs s r)) -> num_tokens (objs0 r) <= num_prompt_tokens (objs0 r);
  co_prev : prev_step_scheduled_req_ids s = prev;
  co_preempted : forall r, r ∈ W ++ K ++ Q -> status (objs s r) = PREEMPTED -> r ∈ P \/ idof r ∉ prev
}.
#[local] Arguments co_static {prev s R W K Q H D P S} _.
#[local] Arguments co_requests {prev s R W K Q H D P S} _.
#[local] Arguments co_perm {prev s R W K Q H D P S} _.
#[local] Arguments co_waiting {prev s R W K Q H D P S} _.
#[local] Arguments co_skipped {prev s R W K Q H D P S} _.
#[local] Arguments co_run {prev s R W K Q H D P S} _.
#[local] Arguments co_wait {prev s R W K Q H D P S} _.
#[local] Arguments co_slots {prev s R W K Q H D P S} _.
#[local] Arguments co_dom {prev s R W K Q H D P S} _.
#[local] Arguments co_enc {prev s R W K Q H D P S} _.
#[local] Arguments co_ids {prev s R W K Q H D P S} _.
#[local] Arguments co_prefill {prev s R W K Q H D P S} _.
#[local] Arguments co_prev {prev s R W K Q H D P S} _.
#[local] Arguments co_preempted {prev s R W K Q H D P S} _.

Lemma id_inj r r' : r ∈ all -> r' ∈ all -> idof r = idof r' -> r = r'.
Proof.
  intros H1 H2 E. assert (rmap !! idof r = Some r) by (by apply Hmap).
  assert (rmap !! idof r = Some r') by (by apply Hmap). congruence.
Qed.

Section core.
Context {prev : gset string} {s : State} {R W K Q H D P : list Z} {S : gmap string Z}.
#[local] Notation core := (core_at (prev:=prev)).
Context (I : core s R W K Q H D P S).

Lemma core_in r : r ∈ R \/ r ∈ W \/ r ∈ K \/ r ∈ Q \/ r ∈ H -> r ∈ all.
Proof. rewrite <- (co_perm I), !elem_of_app. done. Qed.

Lemma core_nodup : NoDup (R ++ W ++ K ++ Q ++ H).
Proof. by rewrite (co_perm I). Qed.

Lemma core_request r : r ∈ all -> request_ok (objs s r).
Proof.
  intros Hr. destruct (Hok r Hr) as [H1 H2 H3 H4]. pose proof (co_static I r) as E.
  destruct (static_eq _ _ E) as (_ & _ & _ & E1 & E2 & _). constructor; unfold num_tokens, features_ok in *; by rewrite ?E1, ?E2.
Qed.

Lemma core_id r : request_id (objs s r) = idof r.
Proof. apply static_eq, (co_static I). Qed.

Lemma core_features r : mm_features (objs s r) = mm_features (objs0 r).
Proof. apply static_eq, (co_static I). Qed.

Lemma core_valid r i : valid_input (objs s r) i <-> valid_input (objs0 r) i.
Proof. unfold valid_input. by rewrite core_features. Qed.

(** A change of the KV cache manager. *)
Lemma core_kv k' S' D' :
  slots_rep k' S' -> (forall r, r ∈ R -> run_ok (objs s r) (S' !! idof r)) ->
  (forall id, is_Some (S' !! id) -> exists r, r ∈ D' /\ idof r = id) ->
  core (set_kv_cache_manager k' s) R W K Q H D' P S'.
Proof. intros. by destruct I; constructor. Qed.

Lemma core_kv_same k' : slots_rep k' S -> core (set_kv_cache_manager k' s) R W K Q H D P S.
Proof. intros. by destruct I; constructor. Qed.

(** Of the encoder cache manager. *)
Lemma core_ec e' :
  ec_inv sz e' ->
  (forall id i, i ∈ default ∅ (EncoderCache.request_cached_ids e' !! id) ->
    exists r, r ∈ all /\ idof r = id /\ valid_input (objs0 r) i) ->
  core (set_encoder_cache_manager e' s) R W K Q H D P S.
Proof. intros. by destruct I; constructor. Qed.

(** Of a request in no list. *)
Lemma core_obj_held r f :
  r ∈ H -> static (f (objs s r)) = static (objs s r) ->
  (is_Some (prefill_stats (f (objs s r))) -> is_Some (prefill_stats (objs s r))) ->
  core (set_objs (<[r := f (objs s r)]> (objs s)) s) R W K Q H D P S.
Proof.
  intros Hr Hst Hpf. pose proof core_nodup as Hn.
  assert (Hne : forall r', r' ∈ R ++ W ++ K ++ Q -> r' <> r).
  { intros r' Hr' ->. rewrite !app_assoc in Hn. apply list.NoDup_app in Hn as (_ & Hd & _). apply (Hd r); [|done].
    by rewrite <- !app_assoc. }
  destruct I. constructor; simpl; try done.
  - intros r'. destruct (decide (r' = r)) as [->|]; [rewrite fn_lookup_insert; congruence|by rewrite fn_lookup_insert_ne].
  - intros r' Hr'. rewrite fn_lookup_insert_ne; [auto|]. intros <-. apply (Hne r); [set_solver|done].
  - intros r' Hr'. rewrite fn_lookup_insert_ne; [auto|]. intros <-. apply (Hne r); [set_solver|done].
  - intros r' Hr'. destruct (decide (r' = r)) as [->|]; [rewrite fn_lookup_insert; auto|by rewrite fn_lookup_insert_ne; auto].
  - intros r' Hr'. rewrite fn_lookup_insert_ne; [auto|]. intros <-. apply (Hne r); [set_solver|done].
Qed.

(** Of a request that stays where it is. *)
Lemma core_obj r f :
  static (f (objs s r)) = static (objs s r) ->
  (is_Some (prefill_stats (f (objs s r))) -> is_Some (prefill_stats (objs s r))) ->
  (r ∈ R -> run_ok (f (objs s r)) (S !! idof r)) ->
  (r ∈ W ++ K ++ Q -> wait_ok (f (objs s r))) ->
  (status (f (objs s r)) = PREEMPTED -> status (objs s r) = PREEMPTED) ->
  core (set_objs (<[r := f (objs s r)]> (objs s)) s) R W K Q H D P S.
Proof.
  intros Hst Hpf Hrun Hwait Hpre. destruct I. constructor; simpl; try done;
    intros r'; (destruct (decide (r' = r)) as [->|]; [rewrite fn_lookup_insert|by rewrite fn_lookup_insert_ne; auto]); auto.
  congruence.
Qed.
End core.

(** The step before this one. *)
Context (prev0 : gset string).
#[local] Notation core := (core_at (prev:=prev0)).

(** ** What is scheduled so far *)

Context (B0 : Z).

(** The count of a scheduled request: positive, within its slots and the model
    length. *)
Definition count_ok (s : State) (S : gmap string Z) (r n : Z) : Prop :=
  0 < n /\ num_computed_tokens (objs s r) + n <= max_model_len cfg - num_sampled_tokens_per_step cfg /\
  exists m, S !! idof r = Some m /\ num_computed_tokens (objs s r) + n <= m.

(** With [d] drafts among its [n] tokens the request is computed up to its last
    draft; without, at most up to its last token. *)
Definition draft_ok (q : Request) (n d : Z) : Prop :=
  num_computed_tokens q + n <= num_tokens q + num_output_placeholders q + d /\
  (0 < d -> num_computed_tokens q + n = num_tokens q + num_output_placeholders q + d).
Definition drafts_of (st : Step) (id : string) : Z := zlen (default [] (od_get id (scheduled_spec_decode_tokens st))).

(** [X]: the requests scheduled in this step. *)
Record step_inv (s : State) (S : gmap string Z) (st : Step) (X : list Z) : Prop := {
  si_counts_keys : (num_scheduled_tokens st).*1 ≡ₚ (fun r => idof r) <$> X;
  si_blocks_keys : (req_to_new_blocks st).*1 ≡ₚ (fun r => idof r) <$> X;
  si_counts : forall r n, r ∈ X -> od_get (idof r) (num_scheduled_tokens st) = Some n -> count_ok s S r n;
  si_budget : token_budget st = B0 - zsum (num_scheduled_tokens st).*2;
  si_pos : 0 <= token_budget st;
  si_encoder : forall id ins, od_get id (scheduled_encoder_inputs st) = Some ins ->
    exists r, r ∈ X /\ idof r = id /\ forall i, i ∈ ins -> valid_input (objs0 r) i;
  si_drafts : forall r n, r ∈ X -> od_get (idof r) (num_scheduled_tokens st) = Some n ->
    draft_ok (objs s r) n (drafts_of st (idof r));
  si_draft_keys : forall id ds, od_get id (scheduled_spec_decode_tokens st) = Some ds -> exists r, r ∈ X /\ idof r = id
}.
#[local] Arguments si_counts_keys {s S st X} _.
#[local] Arguments si_blocks_keys {s S st X} _.
#[local] Arguments si_counts {s S st X} _.
#[local] Arguments si_budget {s S st X} _.
#[local] Arguments si_pos {s S st X} _.
#[local] Arguments si_encoder {s S st X} _.
#[local] Arguments si_drafts {s S st X} _.
#[local] Arguments si_draft_keys {s S st X} _.

Lemma step_inv_env s s' S S' st X :
  step_inv s S st X -> (forall r, r ∈ X -> objs s' r = objs s r /\ S' !! idof r = S !! idof r) -> step_inv s' S' st X.
Proof.
  intros [I1 I2 I3 I4 I5 I6 I7 I8] H. constructor; try done; intros r n Hr Hn; destruct (H r Hr) as [E1 E2].
  - unfold count_ok. rewrite E1, E2. by apply I3.
  - rewrite E1. by apply I7.
Qed.

Lemma ids_nodup X : NoDup X -> (forall r, r ∈ X -> r ∈ all) -> NoDup ((fun r => idof r) <$> X).
Proof.
  intros Hn Hin. apply NoDup_fmap_2_strong; [|done]. intros r r' Hr Hr' E. apply id_inj; auto.
Qed.

(** One more request, [r], gets [n] tokens. *)
Lemma step_inv_add s S st X r n blocks st' :
  step_inv s S st X -> r ∉ X -> r ∈ all -> (forall x, x ∈ X -> x ∈ all) ->
  count_ok s S r n -> n <= token_budget st ->
  num_scheduled_tokens st' = od_set (idof r) n (num_scheduled_tokens st) ->
  req_to_new_blocks st' = od_set (idof r) blocks (req_to_new_blocks st) ->
  token_budget st' = token_budget st - n ->
  scheduled_encoder_inputs st' = scheduled_encoder_inputs st ->
  draft_ok (objs s r) n (drafts_of st' (idof r)) ->
  (forall id, id <> idof r -> od_get id (scheduled_spec_decode_tokens st') = od_get id (scheduled_spec_decode_tokens st)) ->
  step_inv s S st' (X ++ [r]).
Proof.
  intros [I1 I2 I3 I4 I5 I6 I7 I8] Hr Ha Hin Hc Hn E1 E2 E3 E4 Hd Hds.
  assert (Hnot : idof r ∉ (fun r => idof r) <$> X).
  { intros (x & E & Hx)%list_elem_of_fmap. apply id_inj in E; [|done|auto]. congruence. }
  assert (H1 : idof r ∉ (num_scheduled_tokens st).*1) by (by rewrite I1).
  assert (H2 : idof r ∉ (req_to_new_blocks st).*1) by (by rewrite I2).
  constructor; rewrite ?E1, ?E2, ?E3, ?E4.
  - rewrite od_set_new, !fmap_app by done. by rewrite I1.
  - rewrite od_set_new, !fmap_app by done. by rewrite I2.
  - intros x k Hx. rewrite od_get_map, od_set_map. intros [[E ->]|[E Hk]]%lookup_insert_Some.
    + apply elem_of_app in Hx as [Hx|Hx%list_elem_of_singleton]; [|by subst].
      apply id_inj in E; [by subst|done|auto].
    + rewrite <- od_get_map in Hk. apply elem_of_app in Hx as [Hx|Hx%list_elem_of_singleton]; [by apply I3|by subst].
  - rewrite od_set_new, fmap_app, zsum_app by done. cbn. change (zsum [n]) with (n + 0). lia.
  - lia.
  - intros id ins Hg. destruct (I6 id ins Hg) as (x & Hx & ?). exists x. split; [set_solver|done].
  - intros x k Hx. rewrite od_get_map, od_set_map. intros [[E ->]|[E Hk]]%lookup_insert_Some.
    + apply elem_of_app in Hx as [Hx|Hx%list_elem_of_singleton]; [|by subst]. apply id_inj in E; [by subst|done|auto].
    + rewrite <- od_get_map in Hk. apply elem_of_app in Hx as [Hx|Hx%list_elem_of_singleton]; [|by subst].
      unfold drafts_of. rewrite Hds by done. by apply I7.
  - intros id ds Hg. destruct (decide (id = idof r)) as [->|Hne]; [exists r; set_solver|]. rewrite Hds in Hg by done.
    destruct (I8 id ds Hg) as (x & Hx & ?). exists x. split; [set_solver|done].
Qed.

(** No drafts are recorded for a request that is not scheduled. *)
Lemma no_drafts s S st X r : step_inv s S st X -> (forall x, x ∈ X -> x ∈ all) -> r ∈ all -> r ∉ X -> 
  od_get (idof r) (scheduled_spec_decode_tokens st) = None.
Proof.
  intros I Hin Ha Hr. destruct (od_get _ _) as [ds|] eqn:E; [|done]. apply (si_draft_keys I) in E as (x & Hx & E).
  apply id_inj in E; [by subst|auto|done].
Qed.

(** ** Lists without one element *)

Notation without v l := (filter (fun x : Z => x <> v) (l : list Z)).

Lemma without_id (v : Z) l : v ∉ l -> without v l = l.
Proof.
  induction l as [|x l IH]; [done|]. intros Hv. rewrite filter_cons_True by set_solver. f_equal. apply IH. set_solver.
Qed.

Lemma list_remove_without (v : Z) l : NoDup l -> v ∈ l -> list_remove v l = Some (without v l).
Proof.
  induction l as [|x l IH]; [set_solver|]. intros [Hx Hn]%NoDup_cons Hv. simpl. destruct (decide (v = x)) as [->|Hne].
  - rewrite filter_cons_False by tauto. by rewrite without_id.
  - rewrite IH by set_solver. rewrite filter_cons_True by congruence. done.
Qed.

Lemma without_perm (v : Z) l : NoDup l -> v ∈ l -> l ≡ₚ v :: without v l.
Proof. intros Hn Hv. apply (list_remove_perm v), list_remove_without; done. Qed.

Lemma without_sublist (v : Z) l k : l `sublist_of` k -> without v l `sublist_of` without v k.
Proof.
  induction 1 as [|x l k _ IH|x l k _ IH]; [done| |].
  - rewrite !filter_cons. case_decide; [by constructor|done].
  - rewrite filter_cons. case_decide; [by constructor|done].
Qed.

Lemma removelast_without (v : Z) l : NoDup l -> last l = Some v -> removelast l = without v l.
Proof.
  intros Hn Hl. apply last_Some in Hl as [k ->]. rewrite removelast_last.
  apply list.NoDup_app in Hn as (_ & Hd & _). rewrite filter_app, (without_id v k) by (intros Hv; apply (Hd v Hv); set_solver).
  rewrite filter_cons_False by tauto. by rewrite filter_nil, app_nil_r.
Qed.

Lemma od_remove_fmap {V} k (d : list (string * V)) : (od_remove k d).*1 = filter (fun x => x <> k) d.*1.
Proof.
  induction d as [|[k' v] d IH]; [done|]. rewrite od_remove_cons, fmap_cons, filter_cons. cbn [fst].
  destruct (decide (k' = k)), (decide (k' <> k)); try done; [congruence..|]. by rewrite fmap_cons, IH.
Qed.

Lemma ids_without X v : v ∈ all -> (forall r, r ∈ X -> r ∈ all) ->
  filter (fun x => x <> idof v) ((fun r => idof r) <$> X) = (fun r => idof r) <$> without v X.
Proof.
  intros Hv Hin. induction X as [|x X IH]; [done|]. rewrite fmap_cons, !filter_cons, IH by set_solver.
  destruct (decide (x = v)) as [->|Hne].
  - rewrite !decide_False by tauto. done.
  - rewrite !decide_True; [done|done|]. intros E. apply Hne, id_inj; [set_solver|done|done].
Qed.

Lemma keys_without {V} (d : list (string * V)) X v : v ∈ all -> (forall r, r ∈ X -> r ∈ all) ->
  d.*1 ≡ₚ (fun r => idof r) <$> X -> (od_remove (idof v) d).*1 ≡ₚ (fun r => idof r) <$> without v X.
Proof. intros Hv Hin E. rewrite od_remove_fmap, E, ids_without; done. Qed.

Lemma od_get_key {V} (d : list (string * V)) X r :
  d.*1 ≡ₚ (fun r => idof r) <$> X -> r ∈ X -> exists v, od_get (idof r) d = Some v.
Proof.
  intros E Hr. destruct (od_get (idof r) d) as [v|] eqn:G; [by exists v|]. apply od_get_none in G. destruct G.
  rewrite E. apply list_elem_of_fmap. by exists r.
Qed.

(** ** Preemption *)

(** Room in the encoder cache is kept, and what is not cached stays so. *)
Definition keeps_room (e e' : EC) : Prop :=
  num_free_slots e <= num_free_slots e' /\ forall h, cached e !! h = None -> cached e' !! h = None.

Lemma keeps_room_refl e : keeps_room e e.
Proof. split; [lia|done]. Qed.
Lemma keeps_room_trans e1 e2 e3 : keeps_room e1 e2 -> keeps_room e2 e3 -> keeps_room e1 e3.
Proof. intros [? ?] [? ?]. split; [lia|auto]. Qed.

Lemma enc_free_ok s R W K Q H D P S r :
  core s R W K Q H D P S -> r ∈ all ->
  wp (on_ec (em_free (objs s r))) (fun _ s' => exists e', s' = set_encoder_cache_manager e' s /\
    core s' R W K Q H D P S /\ keeps_room (encoder_cache_manager s) e') s.
Proof.
  intros I Hr. pose proof (core_request I r Hr) as Hq. apply wp_zoom.
  eapply wp_mono; [apply (ec_free_clears sz Hsz)|].
  - apply I.
  - apply Hq.
  - exact Horder.
  - intros i Hi. unfold get_cached_input_ids in Hi. rewrite (core_id I) in Hi.
    destruct (co_ids I _ _ Hi) as (r' & Hr' & E & Hv). apply id_inj in E; [|done|done]. subst.
    by apply (core_valid I).
  - intros _ e' (I' & _ & Hfree & _ & Hc & Hids). exists e'. split; [done|]. split.
    + apply (core_ec I); [done|]. intros id i. rewrite Hids. case_decide as E; [|apply I].
      intros Hi. subst id. unfold get_cached_input_ids in Hi. apply (co_ids I). set_solver.
    + split; [lia|]. intros h. by apply Hc.
Qed.

Lemma wp_obj r (Q : Request -> State -> Prop) s : Q (objs s r) s -> wp (obj r) Q s.
Proof. done. Qed.

(** Prepending to the waiting queue. *)
Lemma waiting_prepend_ok s R W K Q H D P S r :
  core s R W K Q (r :: H) D P S -> wait_ok (objs s r) ->
  (status (objs s r) = PREEMPTED -> r ∈ P \/ idof r ∉ prev0) ->
  wp (on_waiting (fun o => prepend_request o r)) (fun _ s' => exists q' W', s' = set_waiting q' s /\ W' ≡ₚ r :: W /\
    core s' R W' K Q H D P S) s.
Proof.
  intros I Hw Hp. unfold on_waiting. apply wp_bind, wp_get, wp_zoom.
  assert (Hs : serves (objs s) (policy cfg) (waiting s) W).
  { eapply serves_ext; [|apply I]. intros r'. symmetry. apply I. }
  destruct (prepend_serves (objs s) (policy cfg) (waiting s) W r Hs) as (q' & Hrun & Hs').
  unfold wp. rewrite Hrun.
  set (W' := match policy cfg with FCFS => r :: W | PRIORITY => insert_by (objs s) r W end) in *.
  assert (HW : W' ≡ₚ r :: W) by (unfold W'; destruct (policy cfg); [done|apply insert_by_perm]).
  exists q', W'. split; [done|]. split; [done|].
  assert (Hin : forall x, x ∈ W' ++ K ++ Q -> x = r \/ x ∈ W ++ K ++ Q) by (intros x; rewrite HW; set_solver).
  destruct I. constructor; simpl; try done.
  - rewrite HW. etransitivity; [|exact co_perm0]. solve_Permutation.
  - eapply serves_ext; [|exact Hs']. done.
  - intros x [->|Hx]%Hin; auto.
  - intros x [->|Hx]%Hin; auto.
Qed.

(** Preempting a request that has left the running list. *)
Lemma preempt_request_ok s R W K P S r :
  core s R W K [] [r] (r :: R) P S -> run_ok (objs s r) (S !! idof r) ->
  wp (preempt_request r) (fun _ s' => exists W', W' ≡ₚ r :: W /\
    core s' R W' K [] [] R (P ++ [r]) (delete (idof r) S) /\ running s' = running s /\
    (forall r', r' <> r -> objs s' r' = objs s r') /\
    keeps_room (encoder_cache_manager s) (encoder_cache_manager s')) s.
Proof.
  intros I (Hst & Hph & _). pose proof (core_nodup I) as Hn. pose proof (core_in I) as Hin.
  assert (Hr : r ∈ all) by (apply Hin; set_solver).
  assert (HrR : r ∉ R).
  { intros Hx. apply list.NoDup_app in Hn as (_ & Hd & _). apply (Hd r Hx). set_solver. }
  unfold preempt_request. apply wp_bind, wp_obj, wp_bind, wp_assert; [by apply bool_decide_eq_true|].
  apply wp_bind. apply wp_zoom. eapply wp_mono; [apply (slots_free _ S), I|]. intros [] k' Hk'. cbv beta in Hk' |- *.
  rewrite (core_id I) in Hk'.
  assert (I1 : core (set_kv_cache_manager k' s) R W K [] [r] R P (delete (idof r) S)).
  { apply (core_kv I); [done| |].
    - intros x Hx. rewrite lookup_delete_ne; [by apply (co_run I)|].
      intros E. apply id_inj in E; [by subst|done|]. apply Hin. by left.
    - intros id [m Hm]. apply lookup_delete_Some in Hm as [Hne Hm].
      destruct (co_dom I id ltac:(by exists m)) as (x & [->|Hx]%elem_of_cons & E); [done|by exists x]. }
  apply wp_bind. eapply wp_mono; [apply (enc_free_ok _ _ _ _ _ _ _ _ _ r I1 Hr)|].
  intros _ s2 (e' & -> & I2 & Hroom). clear I1. apply wp_bind, wp_modify.
  match goal with |- wp _ _ ?x => assert (I3 : core x R W K [] [r] R (P ++ [r]) (delete (idof r) S)) end.
  { destruct I2. constructor; simpl; try done. intros x Hx Hs'. destruct (co_preempted0 x Hx Hs'); [left; set_solver|by right]. }
  apply wp_bind, wp_modify.
  set (f := fun q => set_num_preemptions (num_preemptions q + 1)
    (set_spec_token_ids [] (set_num_computed_tokens 0 (set_status PREEMPTED q)))).
  pose proof (core_obj_held I3 r f ltac:(set_solver) eq_refl ltac:(done)) as I4.
  match type of I4 with core ?x _ _ _ _ _ _ _ _ => set (s4 := x) in * end.
  assert (Eo : objs s4 r = f (objs s r)) by apply fn_lookup_insert.
  eapply wp_mono; [apply (waiting_prepend_ok s4 R W K [] [] R (P ++ [r]) _ r I4)|].
  - rewrite Eo. split; [right; by left|]. split; [done|exact Hph].
  - intros _. left. set_solver.
  - intros _ s5 (q' & W' & -> & HW & I5). exists W'. split; [done|]. split; [done|]. split; [done|].
    split; [|done]. intros x Hx. simpl. by rewrite fn_lookup_insert_ne.
Qed.

(** ** The running requests *)

(** The request has tokens left or is up to date, drafts and placeholders
    included. *)
Definition caught (q : Request) : Prop :=
  num_computed_tokens q <= num_tokens_with_spec q + num_output_placeholders q.

Record run_inv (s : State) (st : Step) (R W K P : list Z) (S : gmap string Z) (L : list Z) : Prop := {
  ri_core : core s R W K [] [] R P S;
  ri_running : running s = R;
  ri_step : step_inv s S st L;
  ri_scheduled : scheduled_running_reqs st = L;
  ri_new : scheduled_new_reqs st = [] /\ scheduled_resumed_reqs st = [];
  ri_preempted : preempted_reqs st = P /\ forall r, r ∈ P -> r ∈ W;
  ri_untouched : forall r, r ∈ R -> r ∉ L -> objs s r = objs0 r;
  ri_computed : forall r, r ∈ R -> status (objs0 r) = RUNNING /\ num_computed_tokens (objs s r) = num_computed_tokens (objs0 r);
  ri_caught : forall r, r ∈ R -> caught (objs0 r);
  ri_sub : NoDup L /\ forall r, r ∈ L -> r ∈ R;
  ri_max : zlen R <= max_num_running_reqs cfg;
  ri_from : forall r, r ∈ W ++ K -> r ∈ P \/ status (objs0 r) <> RUNNING
}.
#[local] Arguments ri_core {s st R W K P S L} _.
#[local] Arguments ri_running {s st R W K P S L} _.
#[local] Arguments ri_step {s st R W K P S L} _.
#[local] Arguments ri_scheduled {s st R W K P S L} _.
#[local] Arguments ri_new {s st R W K P S L} _.
#[local] Arguments ri_preempted {s st R W K P S L} _.
#[local] Arguments ri_untouched {s st R W K P S L} _.
#[local] Arguments ri_computed {s st R W K P S L} _.
#[local] Arguments ri_caught {s st R W K P S L} _.
#[local] Arguments ri_sub {s st R W K P S L} _.
#[local] Arguments ri_max {s st R W K P S L} _.
#[local] Arguments ri_from {s st R W K P S L} _.

Lemma get_embeds_all {T} q ins (t : T) : features_ok sz q -> (forall i, i ∈ ins -> valid_input q i) ->
  exists l, map_m (get_num_encoder_embeds q) ins t = (Ok l, t).
Proof.
  intros Hf. induction ins as [|i ins IH]; intros Hv; [by eexists|]. destruct IH as [l Hl]; [set_solver|].
  cbn [map_m]. unfold mbind, M_bind. rewrite (num_embeds_ok sz) by (try apply Hv; set_solver). rewrite Hl. by eexists.
Qed.

Lemma unschedule_ok s S st L v :
  step_inv s S st L -> NoDup L -> (forall r, r ∈ L -> r ∈ all) -> v ∈ L -> scheduled_running_reqs st = L ->
  static (objs s v) = static (objs0 v) ->
  wp (unschedule v st) (fun st' s' => s' = s /\ step_inv s S st' (without v L) /\
    scheduled_running_reqs st' = without v L /\ preempted_reqs st' = preempted_reqs st /\
    scheduled_new_reqs st' = scheduled_new_reqs st /\ scheduled_resumed_reqs st' = scheduled_resumed_reqs st /\
    token_budget st <= token_budget st') s.
Proof.
  intros [I1 I2 I3 I4 I5 I6 I7 I8] Hn Hin Hv HL Hst. unfold unschedule. apply wp_bind, wp_obj.
  destruct (static_eq _ _ Hst) as (Eid & _ & _ & Em & _). rewrite Eid.
  apply wp_bind, (wp_of_option _ _ (without v L)); [rewrite HL; by apply list_remove_without|].
  destruct (od_get_key (num_scheduled_tokens st) L v I1 Hv) as [n Hg].
  destruct (od_get_key (req_to_new_blocks st) L v I2 Hv) as [b Hb].
  apply wp_bind, (wp_of_option _ _ n); [done|]. apply wp_bind, (wp_of_option _ _ b); [done|]. apply wp_bind.
  assert (Hf : features_ok sz (objs s v)) by (unfold features_ok; rewrite Em; apply Hok; auto).
  destruct (get_embeds_all (objs s v) (default [] (od_get (idof v) (scheduled_encoder_inputs st))) s Hf) as [l Hl].
  { destruct (od_get (idof v) (scheduled_encoder_inputs st)) as [ins|] eqn:E; [|set_solver].
    destruct (I6 _ _ E) as (x & Hx & Ex & Hval). apply id_inj in Ex; [|auto..]. subst.
    intros i Hi. unfold valid_input. rewrite Em. by apply Hval. }
  unfold wp at 1. rewrite Hl. apply wp_ret. split; [done|].
  assert (Hsum : zsum (num_scheduled_tokens st).*2 = n + zsum (od_remove (idof v) (num_scheduled_tokens st)).*2).
  { assert (Hd : NoDup (num_scheduled_tokens st).*1) by (rewrite I1; by apply ids_nodup).
    rewrite (od_remove_perm _ _ _ Hd Hg) at 1. by rewrite fmap_cons, zsum_cons. }
  destruct (I3 v n Hv Hg) as [Hpos _]. split; [|simpl; repeat (split; [done|]); lia].
  assert (Hids : forall x, x ∈ without v L -> x ∈ L /\ idof x <> idof v).
  { intros x [Hne Hx]%list_elem_of_filter. split; [done|]. intros E. apply id_inj in E; auto. }
  constructor; simpl.
  - by apply keys_without; auto.
  - by apply keys_without; auto.
  - intros r k [Hr Hne]%Hids. rewrite od_get_map, od_remove_map, lookup_delete_ne, <- od_get_map by done. by apply I3.
  - lia.
  - lia.
  - intros id ins. rewrite od_get_map, od_remove_map. intros [Hne Hi]%lookup_delete_Some. rewrite <- od_get_map in Hi.
    destruct (I6 _ _ Hi) as (x & Hx & Ex & ?). exists x. split; [|done]. apply list_elem_of_filter. split; [|done].
    congruence.
  - intros r k [Hr Hne]%Hids. unfold drafts_of. cbn [scheduled_spec_decode_tokens set_scheduled_running_reqs]. simpl.
    rewrite !od_get_map, !od_remove_map, !lookup_delete_ne, <- !od_get_map by done. by apply I7.
  - intros id ds. rewrite od_get_map, od_remove_map. intros [Hne Hi]%lookup_delete_Some. rewrite <- od_get_map in Hi.
    destruct (I8 _ _ Hi) as (x & Hx & Ex). exists x. split; [|done]. apply list_elem_of_filter. split; [|done]. congruence.
Qed.

(** The list of a step around the current request [r]: what was scheduled
    stands before it. *)
Definition around (R L : list Z) (r ix : Z) : Prop :=
  exists X Y, R = X ++ r :: Y /\ L `sublist_of` X /\ zlen X <= ix.

(** Taking [v] off the running list. *)
Lemma max_by_in {A} (gt : A -> A -> bool) x l : max_by gt x l = x \/ In (max_by gt x l) l.
Proof.
  revert x. induction l as [|y l IH]; intros x; [by left|]. simpl. destruct (IH (if gt y x then y else x)) as [->|?]; [|auto].
  destruct (gt y x); auto.
Qed.

Lemma pick_victim_ok s st R W K P S L r ix :
  run_inv s st R W K P S L -> around R L r ix ->
  wp (pick_victim cfg ix st) (fun v s' => exists L', let '(v, ix', st') := v in
    v ∈ R /\ s' = set_running (without v R) s /\ step_inv s S st' L' /\ scheduled_running_reqs st' = L' /\
    preempted_reqs st' = preempted_reqs st /\ scheduled_new_reqs st' = [] /\ scheduled_resumed_reqs st' = [] /\
    L' = without v L /\ (v <> r -> around (without v R) L' r ix') /\ zlen (without v R) - ix' <= zlen R - ix /\
    token_budget st <= token_budget st') s.
Proof.
  intros [I ER St HL [N1 N2] HP _ _ _ _ _ _] (X & Y & EX & HLX & Hix). pose proof (core_nodup I) as Hn.
  assert (HnR : NoDup R) by (by apply list.NoDup_app in Hn as (? & _)).
  assert (HsubR : L `sublist_of` R) by (rewrite EX; by apply sublist_inserts_r).
  assert (HnL : NoDup L) by (by eapply sublist_NoDup).
  assert (HinR : forall x, x ∈ L -> x ∈ R) by (intros x Hx; by eapply elem_of_sublist).
  assert (HinA : forall x, x ∈ R -> x ∈ all) by (intros x Hx; apply (core_in I); by left).
  assert (Hlen : forall v, v ∈ R -> zlen (without v R) = zlen R - 1).
  { intros v Hv. pose proof (Permutation_length (without_perm v R HnR Hv)) as E. simpl in E. lia. }
  assert (Haround : forall v, v ∈ R -> v <> r -> forall ix', (v ∈ L -> ix' = ix - 1) -> (v ∉ L -> ix' = ix) ->
    around (without v R) (without v L) r ix').
  { intros v Hv Hne ix' H1 H2. exists (without v X), (without v Y). split.
    - rewrite EX, filter_app, filter_cons_True by done. done.
    - split; [by apply without_sublist|]. rewrite EX in HnR. apply list.NoDup_app in HnR as (HnX & _ & _).
      destruct (decide (v ∈ L)) as [HvL|HvL].
      + rewrite H1 by done. assert (HvX : v ∈ X) by (by eapply elem_of_sublist).
        pose proof (Permutation_length (without_perm v X HnX HvX)) as E. simpl in E. lia.
      + rewrite H2 by done. pose proof (length_filter (fun x => x <> v) X). lia. }
  assert (Hstay : forall v, v ∉ L -> L = without v L) by (intros; by rewrite without_id).
  unfold pick_victim. apply wp_bind, wp_get. rewrite ER. destruct (policy cfg).
  - destruct (last R) as [v|] eqn:El.
    2: { apply last_None in El. rewrite El in EX. by destruct X. }
    assert (HvR : v ∈ R) by (apply last_Some in El as [k ->]; set_solver).
    apply wp_bind, wp_modify, wp_ret. exists L. rewrite (removelast_without v R HnR El).
    assert (HvL : v ∉ L).
    { intros Hx. assert (HvX : v ∈ X) by (by eapply elem_of_sublist). rewrite EX in HnR, El.
      apply list.NoDup_app in HnR as (_ & Hd & _). apply (Hd v HvX).
      rewrite last_app, last_cons in El. destruct (last Y) as [y|] eqn:Ey; injection El as <-; [|by left].
      apply last_Some in Ey as [k ->]. set_solver. }
    split; [done|]. split; [done|]. split; [done|]. split; [done|]. split; [done|]. split; [done|]. split; [done|].
    split; [by apply Hstay|]. split; [|rewrite Hlen by done; lia].
    intros Hne. rewrite (Hstay v HvL). by apply Haround.
  - destruct R as [|r0 R'] eqn:ER'; [by destruct X|]. rewrite <- ER' in *.
    match goal with |- context [max_by ?gt r0 R'] => set (v := max_by gt r0 R');
      assert (HvR : v ∈ R) by (rewrite ER'; destruct (max_by_in gt r0 R') as [E|E];
        [unfold v; rewrite E; by left|right; by apply list_elem_of_In]) end.
    apply wp_bind, (wp_of_option _ _ (without v R)); [by apply list_remove_without|].
    apply wp_bind, wp_modify. rewrite HL. destruct (bool_decide (v ∈ L)) eqn:Ev.
    + apply bool_decide_eq_true in Ev. apply wp_bind.
      eapply wp_mono; [apply (unschedule_ok (set_running (without v R) s) S st L v)|].
      * by apply (step_inv_env s _ S S).
      * done.
      * auto.
      * done.
      * done.
      * apply (co_static I).
      * intros st' s' (-> & St' & F1 & F2 & F3 & F4 & F5). apply wp_ret. exists (without v L).
        split; [done|]. split; [done|]. split; [by apply (step_inv_env (set_running (without v R) s) s S S)|]. split; [done|].
        split; [done|]. split; [congruence|]. split; [congruence|]. split; [done|].
        split; [intros Hne; by apply Haround|]. rewrite Hlen by done. lia.
    + apply bool_decide_eq_false in Ev. apply wp_ret. exists L.
      split; [done|]. split; [done|]. split; [done|]. split; [done|]. split; [done|]. split; [done|]. split; [done|].
      split; [by apply Hstay|]. split; [|rewrite Hlen by done; lia].
      intros Hne. rewrite (Hstay v Ev). by apply Haround.
Qed.

(** The victim, off the running list and not yet back in the queue. *)
Lemma core_take s R W K P S v :
  core s R W K [] [] R P S -> v ∈ R ->
  core (set_running (without v R) s) (without v R) W K [] [v] (v :: without v R) P S /\ run_ok (objs s v) (S !! idof v).
Proof.
  intros I Hv. pose proof (core_nodup I) as Hn. apply list.NoDup_app in Hn as (HnR & _).
  pose proof (without_perm v R HnR Hv) as HR. split; [|by apply (co_run I)].
  destruct I. constructor; simpl; try done.
  - rewrite <- co_perm0. rewrite HR at 2. solve_Permutation.
  - intros x [_ Hx]%list_elem_of_filter. auto.
  - intros id Hid. destruct (co_dom0 id Hid) as (x & Hx & E). exists x. split; [by rewrite <- HR|done].
Qed.

(** One preemption, [v] in place of the victim. *)
Lemma run_inv_preempted s s2 st st' R W W' K P S L v :
  run_inv s st R W K P S L -> v ∈ R ->
  step_inv s S st' (without v L) -> scheduled_running_reqs st' = without v L ->
  preempted_reqs st' = preempted_reqs st -> scheduled_new_reqs st' = [] -> scheduled_resumed_reqs st' = [] ->
  core s2 (without v R) W' K [] [] (without v R) (P ++ [v]) (delete (idof v) S) ->
  running s2 = without v R -> (forall r, r <> v -> objs s2 r = objs s r) -> W' ≡ₚ v :: W ->
  run_inv s2 (set_preempted_reqs (preempted_reqs st' ++ [v]) st') (without v R) W' K (P ++ [v]) (delete (idof v) S) (without v L).
Proof.
  intros [I ER St HL [N1 N2] [HP HPW] Hun Hc Hca [HnL HLR] Hmax Hfrom] Hv St' E1 E2 E3 E4 I2 ER2 Hobj HW.
  assert (Hall' : forall x, x ∈ R -> x ∈ all) by (intros x Hx; apply (core_in I); by left).
  constructor; simpl; try done.
  - destruct (step_inv_env s s2 S (delete (idof v) S) st' (without v L) St') as [J1 J2 J3 J4 J5 J6 J7 J8]; [|by constructor].
    intros x [Hne Hx]%list_elem_of_filter. split; [by apply Hobj|]. rewrite lookup_delete_ne; [done|].
    intros E. apply Hne. symmetry. apply id_inj; auto.
  - rewrite E2, HP. split; [done|]. intros x [Hx|Hx%list_elem_of_singleton]%elem_of_app; rewrite HW, elem_of_cons; [right; auto|by left].
  - intros x [Hne Hx]%list_elem_of_filter Hnot. rewrite Hobj by done. apply Hun; [done|].
    intros HxL. apply Hnot, list_elem_of_filter. by split.
  - intros x [Hne Hx]%list_elem_of_filter. rewrite Hobj by done. by apply Hc.
  - intros x [Hne Hx]%list_elem_of_filter. by apply Hca.
  - split; [by apply NoDup_filter|]. intros x [Hne Hx]%list_elem_of_filter. apply list_elem_of_filter. auto.
  - pose proof (length_filter (fun x => x <> v) R). lia.
  - intros x Hx. rewrite HW in Hx. destruct (decide (x = v)) as [->|Hne]; [left; set_solver|].
    destruct (Hfrom x) as [?|?]; [set_solver|left; set_solver|by right].
Qed.

(** Slots for the current request, which was not scheduled yet. *)
Lemma run_inv_slots s st R W K P S L r m k' :
  run_inv s st R W K P S L -> r ∈ R -> r ∉ L -> (forall x, x ∈ L -> x ∈ R) ->
  slots_rep k' (<[idof r := m]> S) -> num_computed_tokens (objs s r) <= m ->
  run_inv (set_kv_cache_manager k' s) st R W K P (<[idof r := m]> S) L.
Proof.
  intros [I ER St HL [N1 N2] HP Hun Hc Hca Hsub Hmax Hfrom] Hr HrL HLR Hk Hm.
  assert (Hall' : forall x, x ∈ R -> x ∈ all) by (intros x Hx; apply (core_in I); by left).
  assert (Hne : forall x, x ∈ R -> x <> r -> idof r <> idof x).
  { intros x Hx Hne E. apply Hne. symmetry. apply id_inj; auto. }
  constructor; try done.
  - apply (core_kv I); [done| |].
    + intros x Hx. destruct (decide (x = r)) as [->|Hxr].
      * rewrite lookup_insert_eq. destruct (co_run I r Hx) as (? & ? & ? & _). repeat (split; [done|]). by exists m.
      * rewrite lookup_insert_ne by auto. by apply (co_run I).
    + intros id [m' [[<- _]|[_ Hm']]%lookup_insert_Some]; [by exists r|]. apply (co_dom I). by exists m'.
  - apply (step_inv_env s _ S (<[idof r := m]> S)); [done|]. intros x Hx. split; [done|].
    rewrite lookup_insert_ne; [done|]. apply Hne; [auto|]. by intros ->.
Qed.

Lemma around_in R L r ix : NoDup R -> around R L r ix -> r ∈ R /\ r ∉ L /\ (forall x, x ∈ L -> x ∈ R) /\ NoDup L.
Proof.
  intros Hn (X & Y & -> & HL & _). assert (HLX : forall x, x ∈ L -> x ∈ X) by (intros x Hx; by eapply elem_of_sublist).
  apply list.NoDup_app in Hn as (HX & Hd & _). split; [set_solver|]. split; [|split; [set_solver|by eapply sublist_NoDup]].
  intros Hr. apply (Hd r); [auto|by left].
Qed.

(** What [alloc_loop] leaves behind. *)
Record allocated (s : State) (st : Step) (W K : list Z) (r n ix : Z) (R : list Z)
    (o : option KVCacheBlocks * Z * Step) (s' : State) (R' W' P' L' : list Z) (S' : gmap string Z) : Prop := {
  al_inv : run_inv s' o.2 R' W' K P' S' L';
  al_perm : R' ++ W' ≡ₚ R ++ W;
  al_room : keeps_room (encoder_cache_manager s) (encoder_cache_manager s');
  al_measure : zlen R' - o.1.2 <= zlen R - ix;
  al_budget : token_budget st <= token_budget o.2;
  al_blocks : match o.1.1 with
    | None => P' <> []
    | Some _ => around R' L' r o.1.2 /\ objs s' r = objs s r /\
        exists m, S' !! idof r = Some m /\ num_computed_tokens (objs s r) + n <= m
    end
}.

Lemma alloc_loop_ok r n : 0 < n -> forall fuel s st R W K P S L ix,
  run_inv s st R W K P S L -> around R L r ix -> num_computed_tokens (objs s r) + n <= max_model_len cfg ->
  (length R < fuel)%nat ->
  wp (alloc_loop cfg fuel r n ix st) (fun o s' => exists R' W' P' L' S',
    allocated s st W K r n ix R o s' R' W' P' L' S') s.
Proof.
  intros Hn. induction fuel as [|fuel IH]; intros s st R W K P S L ix I Ha Hlen Hf; [lia|]. cbn [alloc_loop].
  pose proof (ri_core I) as Ic. pose proof (core_nodup Ic) as Hnd. apply list.NoDup_app in Hnd as (HnR & _).
  destruct (around_in R L r ix HnR Ha) as (HrR & HrL & HLR & HnL).
  destruct (co_run Ic r HrR) as (_ & _ & Hcomp & m & HSm & Hcm).
  apply wp_bind, wp_obj, wp_bind, wp_zoom.
  eapply wp_mono.
  { eapply (slots_running _ S _ _ m); [apply Ic| |lia|done|done]. by rewrite (core_id Ic). }
  intros [b|] k'; cbv beta iota.
  - rewrite (core_id Ic). intros (m' & Hm' & Hk'). apply wp_ret. exists R, W, P, L, (<[idof r := m']> S).
    constructor; cbn [fst snd]; [|done|apply keeps_room_refl|lia|lia|].
    + eapply run_inv_slots; [done|done|done|done|done|lia].
    + split; [done|]. split; [done|]. exists m'. by rewrite lookup_insert_eq.
  - intros Hk'. set (s1 := set_kv_cache_manager k' s).
    assert (I1 : run_inv s1 st R W K P S L).
    { destruct I as [J1 J2 J3 J4 J5 J6 J7 J8 J9 J10 J11 J12]. constructor; try done; [by apply core_kv_same|].
      by apply (step_inv_env s _ S S). }
    apply wp_bind. eapply wp_mono; [by eapply pick_victim_ok|].
    intros [[v ix'] st'] s2 (L' & Hv & -> & St' & E1 & E2 & E3 & E4 & -> & Har & Hmeas & Hbud).
    destruct (core_take s1 R W K P S v (ri_core I1) Hv) as [It Hrun].
    apply wp_bind. eapply wp_mono; [by apply preempt_request_ok|].
    intros _ s3 (W1 & HW1 & I3 & ER3 & Hobj & Hroom). cbv zeta.
    assert (Iv : run_inv s3 (set_preempted_reqs (preempted_reqs st' ++ [v]) st') (without v R) W1 K (P ++ [v])
      (delete (idof v) S) (without v L)).
    { eapply (run_inv_preempted s1 s3 st st'); [exact I1|done|done|done|done|done|done|done|done|done|done]. }
    assert (Hperm : without v R ++ W1 ≡ₚ R ++ W).
    { rewrite HW1. rewrite (without_perm v R HnR Hv) at 2. solve_Permutation. }
    destruct (decide (v = r)) as [->|Hvr].
    + apply wp_ret. do 5 eexists. constructor; cbn [fst snd]; [exact Iv|done|done|done|done|]. by destruct P.
    + eapply wp_mono.
      * eapply (IH s3 _ _ _ K _ _ _ ix'); [exact Iv|by apply Har| |].
        -- rewrite Hobj by done. done.
        -- pose proof (Permutation_length (without_perm v R HnR Hv)) as E. simpl in E. lia.
      * intros o s' (R' & W' & P' & L' & S' & [A1 A2 A3 A4 A5 A6]). exists R', W', P', L', S'.
        constructor; [done|by rewrite A2| |lia|simpl in A5; lia|].
        -- by eapply keeps_room_trans.
        -- destruct (o.1.1); [|done]. rewrite Hobj in A6 by done. done.
Qed.

(** ** Encoder inputs *)

(** Inputs chosen for request [q] and not allocated yet. *)
Record pending (q : Request) (ins : list Z) (e : EC) : Prop := {
  pe_valid : forall i, i ∈ ins -> valid_input q i /\ cached e !! hash_at q i = None;
  pe_nodup : NoDup (hash_at q <$> ins);
  pe_fit : input_sizes sz q ins <= num_free_slots e
}.

Lemma pending_room q ins e e' : pending q ins e -> keeps_room e e' -> pending q ins e'.
Proof.
  intros [P1 P2 P3] [R1 R2]. constructor; [|done|lia]. intros i Hi. destruct (P1 i Hi). split; [done|]. by apply R2.
Qed.

Lemma pending_ext q q' ins e : mm_features q = mm_features q' -> pending q ins e -> pending q' ins e.
Proof.
  intros E [P1 P2 P3]. unfold valid_input, hash_at, input_sizes in *. constructor.
  - intros i Hi. unfold valid_input, hash_at. rewrite <- E. by apply P1.
  - revert P2. unfold hash_at. by rewrite E.
  - revert P3. unfold hash_at. unfold input_sizes, hash_at. by rewrite E.
Qed.

Lemma pending_nil q e : ec_inv sz e -> pending q [] e.
Proof. intros I. constructor; [set_solver|constructor|apply (ei_nonneg _ _ I)]. Qed.

Lemma schedule_encoder_ok s R W K Q H D P S r c n b :
  core s R W K Q H D P S -> r ∈ all -> 0 <= n ->
  wp (schedule_encoder cfg (objs s r) c n b) (fun out s' => exists e', s' = set_encoder_cache_manager e' s /\
    core s' R W K Q H D P S /\ 0 <= out.1.2 <= n /\ pending (objs s r) out.1.1 e') s.
Proof.
  intros I Hr Hn. unfold schedule_encoder. pose proof (core_request I r Hr) as Hq.
  destruct (has_encoder_inputs (objs s r)).
  - apply wp_zoom. eapply wp_mono; [apply (try_schedule_ok sz Hsz)|].
    + apply C.
    + done.
    + unfold shift_computed_tokens. by destruct (requires_eagle_cache_drop cfg).
    + apply Hq.
    + apply Hq.
    + apply I.
    + intros out e' [T1 T2 T3 T4 T5 T6 T7 T8]. exists e'. split; [done|]. split; [|split; [done|by constructor]].
      apply (core_ec I); [apply T7|]. intros id i Hi. destruct (decide (id = idof r)) as [->|Hne].
      * exists r. split; [done|]. split; [done|]. destruct (cs_ids _ _ _ _ T7 i) as [Hi'|Hv].
        -- unfold get_cached_input_ids. by rewrite (core_id I).
        -- unfold get_cached_input_ids in Hi'. rewrite (core_id I) in Hi'.
           destruct (co_ids I _ _ Hi') as (r' & Hr' & E & Hv). by apply id_inj in E as ->.
        -- by apply (core_valid I).
      * apply (co_ids I). rewrite (cs_other _ _ _ _ T7) in Hi; [done|]. by rewrite (core_id I).
  - apply wp_ret. exists (encoder_cache_manager s). split; [by destruct s|]. split; [done|]. split; [simpl; lia|].
    apply pending_nil, I.
Qed.

Lemma allocate_encoder_ok q r ins : forall s R W K Q H D P S,
  core s R W K Q H D P S -> r ∈ all -> q = objs s r -> pending q ins (encoder_cache_manager s) ->
  wp (allocate_encoder q ins) (fun _ s' => exists e', s' = set_encoder_cache_manager e' s /\ core s' R W K Q H D P S) s.
Proof.
  induction ins as [|i ins IH]; intros s R W K Q H D P S I Hr -> [P1 P2 P3].
  { apply wp_zoom, wp_ret. exists (encoder_cache_manager s). split; [done|].
    assert (E : set_encoder_cache_manager (encoder_cache_manager s) s = s) by (by destruct s). by rewrite E. }
  pose proof (core_request I r Hr) as Hq. unfold allocate_encoder. cbn [for_each]. apply wp_zoom, wp_bind.
  destruct (P1 i ltac:(by left)) as [Hv Hno]. rewrite fmap_cons in P2. apply NoDup_cons in P2 as [Hni Hnd].
  unfold input_sizes in P3. rewrite fmap_cons, zsum_cons in P3.
  assert (Hpos : forall l, 0 <= zsum ((fun i => sz (hash_at (objs s r) i)) <$> l)).
  { induction l as [|x l IHl]; [done|]. rewrite fmap_cons, zsum_cons. specialize (Hsz (hash_at (objs s r) x)). lia. }
  eapply wp_mono; [apply (allocate_ok sz Hsz)|].
  - apply I.
  - done.
  - apply Hq.
  - done.
  - specialize (Hpos ins). lia.
  - intros [] e1 (J1 & J2 & J3 & J4 & J5 & J6). set (s1 := set_encoder_cache_manager e1 s).
    assert (I1 : core s1 R W K Q H D P S).
    { apply (core_ec I); [done|]. intros id j. rewrite J6, lookup_insert. rewrite (core_id I).
      case_decide as E; [|apply (co_ids I)]. subst id. simpl.
      intros [->%elem_of_singleton|Hj]%elem_of_union; [exists r; split; [done|]; split; [done|]; by apply (core_valid I)|].
      unfold get_cached_input_ids in Hj. rewrite (core_id I) in Hj. by apply (co_ids I). }
    assert (Hp : pending (objs s r) ins (encoder_cache_manager s1)).
    { constructor; [|done|simpl; unfold input_sizes; lia]. intros j Hj. destruct (P1 j ltac:(by right)) as [? Hc].
      split; [done|]. simpl. rewrite J3, lookup_insert_ne; [done|]. intros E. apply Hni. rewrite E.
      apply list_elem_of_fmap. by exists j. }
    specialize (IH s1 R W K Q H D P S I1 Hr eq_refl Hp). unfold allocate_encoder in IH.
    change (objs s1 r) with (objs s r) in IH. unfold wp, on_ec, zoom in IH |- *. cbn [encoder_cache_manager set_encoder_cache_manager s1] in IH.
    destruct (for_each (em_allocate (objs s r)) ins e1) as [[[]|x] e2]; [|done].
    destruct IH as (e' & E & I2). exists e2. split; [done|]. by exact I2.
Qed.

(** The part of a step that the bookkeeping of encoder inputs leaves alone. *)
Definition plan (st : Step) :=
  (token_budget st, scheduled_new_reqs st, scheduled_resumed_reqs st, scheduled_running_reqs st, preempted_reqs st,
   req_to_new_blocks st, num_scheduled_tokens st, scheduled_loras st, step_skipped_waiting st,
   scheduled_spec_decode_tokens st).

Lemma plan_eq st st' : plan st = plan st' ->
  token_budget st = token_budget st' /\ scheduled_new_reqs st = scheduled_new_reqs st' /\
  scheduled_resumed_reqs st = scheduled_resumed_reqs st' /\ scheduled_running_reqs st = scheduled_running_reqs st' /\
  preempted_reqs st = preempted_reqs st' /\ req_to_new_blocks st = req_to_new_blocks st' /\
  num_scheduled_tokens st = num_scheduled_tokens st' /\ step_skipped_waiting st = step_skipped_waiting st' /\
  scheduled_spec_decode_tokens st = scheduled_spec_decode_tokens st'.
Proof. unfold plan. intros [= -> -> -> -> -> -> -> _ -> ->]. done. Qed.

Lemma step_inv_plan s S st st' X :
  step_inv s S st X -> plan st = plan st' -> scheduled_encoder_inputs st' = scheduled_encoder_inputs st ->
  step_inv s S st' X.
Proof.
  intros [I1 I2 I3 I4 I5 I6 I7 I8] (E1 & _ & _ & _ & _ & E2 & E3 & _ & E4)%plan_eq E.
  rewrite E1, E3 in I4. rewrite E1 in I5. rewrite E2 in I2. rewrite E3 in I1, I3, I7. unfold drafts_of in I7.
  rewrite E4 in I7, I8. by constructor; rewrite ?E.
Qed.

Lemma schedule_encoder_inputs_ok s R W K Q H D P S st X r ins b :
  core s R W K Q H D P S -> step_inv s S st X -> r ∈ X -> r ∈ all -> pending (objs s r) ins (encoder_cache_manager s) ->
  wp (schedule_encoder_inputs r ins b st) (fun st' s' => exists e', s' = set_encoder_cache_manager e' s /\
    core s' R W K Q H D P S /\ step_inv s' S st' X /\ plan st' = plan st) s.
Proof.
  intros I St Hr Ha Hp. unfold schedule_encoder_inputs. apply wp_bind, wp_obj. destruct ins as [|i ins].
  { apply wp_ret. exists (encoder_cache_manager s). assert (E : set_encoder_cache_manager (encoder_cache_manager s) s = s) by (by destruct s).
    by rewrite E. }
  apply wp_bind. eapply wp_mono; [by eapply (allocate_encoder_ok _ r)|]. intros _ s' (e' & -> & I'). apply wp_ret.
  exists e'. split; [done|]. split; [done|]. split; [|done].
  destruct (step_inv_env s (set_encoder_cache_manager e' s) S S st X St) as [J1 J2 J3 J4 J5 J6 J7 J8]; [done|].
  constructor; try done. intros id l. simpl. rewrite od_get_map, od_set_map, (core_id I).
  intros [[<- <-]|[Hne Hl]]%lookup_insert_Some.
  - exists r. split; [done|]. split; [done|]. intros j Hj. apply (core_valid I), (pe_valid _ _ _ Hp), Hj.
  - rewrite <- od_get_map in Hl. by apply J6.
Qed.

(** The request gets its tokens. *)
Lemma schedule_running_ok s R W K P S st L r n blocks :
  core s R W K [] [] R P S -> step_inv s S st L -> r ∈ R -> r ∉ L -> (forall x, x ∈ L -> x ∈ R) ->
  count_ok s S r n -> n <= token_budget st ->
  num_computed_tokens (objs s r) + n <= num_tokens_with_spec (objs s r) + num_output_placeholders (objs s r) ->
  wp (schedule_running r n blocks st) (fun st' s' => core s' R W K [] [] R P S /\ step_inv s' S st' (L ++ [r]) /\
    running s' = running s /\ encoder_cache_manager s' = encoder_cache_manager s /\
    (forall x, x <> r -> objs s' x = objs s x) /\ num_computed_tokens (objs s' r) = num_computed_tokens (objs s r) /\
    scheduled_running_reqs st' = scheduled_running_reqs st ++ [r] /\
    scheduled_new_reqs st' = scheduled_new_reqs st /\ scheduled_resumed_reqs st' = scheduled_resumed_reqs st /\
    preempted_reqs st' = preempted_reqs st) s.
Proof.
  intros I St HrR HrL HLR Hc Hn Hw. assert (HRa : forall x, x ∈ R -> x ∈ all) by (intros x Hx; apply (core_in I); by left).
  pose proof (no_drafts s S st L r St ltac:(auto) ltac:(auto) HrL) as Hno.
  unfold schedule_running. apply wp_bind, wp_obj. cbv zeta. rewrite (core_id I).
  match goal with |- context [match spec_token_ids _ with [] => mret ?x | _ => _ end] => set (st1 := x) end.
  assert (Hadd : forall ds, (ds = scheduled_spec_decode_tokens st \/
      exists l, ds = od_set (idof r) l (scheduled_spec_decode_tokens st)) ->
      draft_ok (objs s r) n (zlen (default [] (od_get (idof r) ds))) ->
      step_inv s S (set_scheduled_spec_decode_tokens ds st1) (L ++ [r])).
  { intros ds Hds Hd. eapply (step_inv_add s S st L r n blocks); try done; [by apply HRa|intros x Hx; by apply HRa, HLR|].
    intros id Hid. simpl. destruct Hds as [->|[l ->]]; [done|]. by rewrite !od_get_map, od_set_map, lookup_insert_ne. }
  unfold num_tokens_with_spec in Hw. change (zlen (all_token_ids (objs s r))) with (num_tokens (objs s r)) in Hw.
  assert (Hnone : num_computed_tokens (objs s r) + n <= num_tokens (objs s r) + num_output_placeholders (objs s r) ->
    step_inv s S st1 (L ++ [r])).
  { intros Hle. apply (Hadd (scheduled_spec_decode_tokens st)); [by left|]. rewrite Hno. split; [simpl; lia|]. simpl. lia. }
  destruct (spec_token_ids (objs s r)) as [|t ids] eqn:Es.
  { apply wp_ret. split; [done|]. split; [apply Hnone; simpl in Hw; lia|]. by repeat (split; [done|]). }
  rewrite <- Es in *. clear Es t ids. set (ids := spec_token_ids (objs s r)) in *.
  set (k := n + num_computed_tokens (objs s r) - num_tokens (objs s r) - num_output_placeholders (objs s r)).
  apply wp_bind, wp_modify. cbn beta. set (s1 := set_objs _ s).
  match goal with |- wp (mret ?x) _ _ => set (st2 := x) end.
  assert (St2 : step_inv s S st2 (L ++ [r])).
  { unfold st2. destruct (Z.ltb_spec 0 k) as [Hk|Hk]; [|apply Hnone; lia]. apply Hadd; [right; by eexists|].
    rewrite od_get_map, od_set_map, lookup_insert_eq. cbn [default]. assert (Hkl : k <= zlen ids) by lia.
    assert (El : zlen (if k <? zlen ids then take (Z.to_nat k) ids else ids) = k).
    { destruct (Z.ltb_spec k (zlen ids)); [rewrite length_take|]; lia. }
    unfold draft_ok. simpl. rewrite El. lia. }
  assert (E1 : num_computed_tokens (objs s1 r) = num_computed_tokens (objs s r)) by (simpl; by rewrite fn_lookup_insert).
  assert (E2 : forall x, x <> r -> objs s1 x = objs s x) by (intros x Hx; simpl; by rewrite fn_lookup_insert_ne).
  assert (Er : objs s1 r = set_spec_token_ids [] (objs s r)) by apply fn_lookup_insert.
  assert (I1 : core s1 R W K [] [] R P S).
  { apply (core_obj I r (set_spec_token_ids [])); try done; intros Hr.
    - by apply (co_run I).
    - by apply (co_wait I). }
  apply wp_ret. split; [done|]. split.
  - destruct St2 as [J1 J2 J3 J4 J5 J6 J7 J8]. constructor; try done; intros x m Hx Hm; specialize (J3 x m Hx Hm); specialize (J7 x m Hx Hm);
      unfold count_ok, draft_ok in *; (destruct (decide (x = r)) as [->|Hne]; [by rewrite Er|by rewrite E2]).
  - unfold st2. destruct (0 <? _); by repeat (split; [done|]).
Qed.

(** *** The body of the loop *)

Definition cursor (R L : list Z) (ix : Z) : Prop :=
  exists X Y, R = X ++ Y /\ L `sublist_of` X /\ zlen X <= ix.

Lemma cursor_around R L r ix : cursor R L ix -> 0 <= ix -> py_index R ix = Some r -> around R L r ix.
Proof.
  intros (X & Y & -> & HL & Hix) H0 Hr. unfold py_index in Hr. rewrite (proj2 (Z.leb_le _ _)) in Hr by lia.
  rewrite lookup_app_r in Hr by lia. apply list_elem_of_split_length in Hr as (Y1 & Y2 & -> & HY).
  exists (X ++ Y1), Y2. rewrite <- app_assoc. split; [done|]. split; [by apply sublist_inserts_r|]. rewrite length_app. lia.
Qed.

Lemma around_next R L r ix : around R L r ix -> cursor R (L ++ [r]) (ix + 1).
Proof.
  intros (X & Y & -> & HL & Hix). exists (X ++ [r]), Y. rewrite <- app_assoc. split; [done|].
  split; [by apply sublist_app|]. rewrite length_app. simpl. lia.
Qed.

Lemma cursor_skip R L ix : cursor R L ix -> cursor R L (ix + 1).
Proof. intros (X & Y & ? & ? & ?). exists X, Y. split; [done|]. split; [done|]. lia. Qed.

Lemma run_inv_enc s e' st R W K P S L :
  run_inv s st R W K P S L -> core (set_encoder_cache_manager e' s) R W K [] [] R P S ->
  run_inv (set_encoder_cache_manager e' s) st R W K P S L.
Proof. intros [J1 J2 J3 J4 J5 J6 J7 J8 J9 J10 J11 J12] I. constructor; try done. by apply (step_inv_env s _ S S). Qed.

Lemma running_new_tokens s st R W K P S L r :
  run_inv s st R W K P S L -> r ∈ R -> r ∉ L -> 
  let n := running_num_new_tokens cfg (objs s r) (token_budget st) in
  0 <= n <= token_budget st /\ num_computed_tokens (objs s r) + n <= max_model_len cfg - num_sampled_tokens_per_step cfg /\
  num_computed_tokens (objs s r) + n <= num_tokens_with_spec (objs s r) + num_output_placeholders (objs s r).
Proof.
  intros I Hr HrL. pose proof (si_pos (ri_step I)) as Hb.
  destruct (co_run (ri_core I) r Hr) as (_ & _ & Hc & _).
  pose proof (ri_caught I r Hr) as Hca. unfold caught in Hca.
  rewrite <- (ri_untouched I r Hr HrL) in Hca. unfold running_num_new_tokens. cbv zeta.
  match goal with |- context [threshold_tokens cfg ?x] => pose proof (threshold_bounds cfg x ltac:(lia)) as [? _] end. lia.
Qed.

Lemma cursor_nonneg R L ix : cursor R L ix -> 0 <= ix.
Proof. intros (X & Y & _ & _ & H). lia. Qed.

(** Scheduling [r] once it has its slots. *)
Lemma run_inv_scheduled s s' st st' R W K P S L r :
  run_inv s st R W K P S L -> r ∈ R -> r ∉ L -> core s' R W K [] [] R P S -> step_inv s' S st' (L ++ [r]) ->
  running s' = running s -> (forall x, x <> r -> objs s' x = objs s x) ->
  num_computed_tokens (objs s' r) = num_computed_tokens (objs s r) ->
  scheduled_running_reqs st' = scheduled_running_reqs st ++ [r] ->
  scheduled_new_reqs st' = scheduled_new_reqs st -> scheduled_resumed_reqs st' = scheduled_resumed_reqs st ->
  preempted_reqs st' = preempted_reqs st -> run_inv s' st' R W K P S (L ++ [r]).
Proof.
  intros [J1 J2 J3 J4 [J5 J5'] [J6 J6'] J7 J8 J9 [J10 J11] J12 J13] HrR HrL I St ER Hobj Hnc E1 E2 E3 E4. constructor; try done; try congruence.
  - split; congruence.
  - split; [congruence|done].
  - intros x Hx HxL. rewrite Hobj; [apply J7; [done|]|]; set_solver.
  - intros x Hx. destruct (decide (x = r)) as [->|]; [rewrite Hnc|rewrite Hobj by done]; by apply J8.
  - split; [|set_solver]. apply list.NoDup_app. split; [done|]. split; [set_solver|apply NoDup_singleton].
Qed.

(** What one round of the loop achieves. *)
Record stepped (R W K : list Z) (ix : Z) (o : bool * Z * Step) (s' : State) (R' W' P' L' : list Z) (S' : gmap string Z)
    : Prop := {
  sp_inv : run_inv s' o.2 R' W' K P' S' L';
  sp_perm : R' ++ W' ≡ₚ R ++ W;
  sp_next : if o.1.1 then cursor R' L' o.1.2 /\ zlen R' - o.1.2 < zlen R - ix else P' <> []
}.

Lemma running_step_ok s st R W K P S L ix :
  run_inv s st R W K P S L -> cursor R L ix -> ix < zlen R ->
  wp (running_step cfg ix st) (fun o s' => exists R' W' P' L' S', stepped R W K ix o s' R' W' P' L' S') s.
Proof.
  intros I Hcur Hix. pose proof (cursor_nonneg _ _ _ Hcur) as H0. pose proof (ri_core I) as Ic.
  pose proof (core_nodup Ic) as Hnd. apply list.NoDup_app in Hnd as (HnR & _).
  unfold running_step. apply wp_bind, wp_get. rewrite (ri_running I).
  destruct (lookup_lt_is_Some_2 R (Z.to_nat ix)) as [r Hr]; [lia|].
  assert (Hpy : py_index R ix = Some r) by (unfold py_index; by rewrite (proj2 (Z.leb_le _ _)) by lia).
  apply wp_bind, (wp_of_option _ _ r); [done|]. apply wp_bind, wp_obj.
  pose proof (cursor_around _ _ _ _ Hcur H0 Hpy) as Har. destruct (around_in R L r ix HnR Har) as (HrR & HrL & HLR & _).
  assert (Hra : r ∈ all) by (apply (core_in Ic); by left).
  assert (Hskip : forall s1, run_inv s1 st R W K P S L ->
    exists R' W' P' L' S', stepped R W K ix (true, ix + 1, st) s1 R' W' P' L' S').
  { intros s1 I1. exists R, W, P, L, S. constructor; [done|done|]. cbn. split; [by apply cursor_skip|lia]. }
  destruct (skip_running s (objs s r)); [apply wp_ret; by apply Hskip|].
  destruct (running_new_tokens s st R W K P S L r I HrR HrL) as (Hn & Hlen & Hcov).
  set (n0 := running_num_new_tokens cfg (objs s r) (token_budget st)) in *.
  apply wp_bind. eapply wp_mono; [apply (schedule_encoder_ok s R W K [] [] R P S r); [done|done|lia]|].
  intros [[ins n1] b1] s1 (e1 & -> & I1 & Hn1 & Hp). cbn [fst snd] in Hn1, Hp.
  pose proof (run_inv_enc _ _ _ _ _ _ _ _ _ I I1) as J1. set (s1 := set_encoder_cache_manager e1 s) in *.
  apply wp_bind. eapply wp_mono; [by apply split_if_needed_ok; [|apply Hn1]|]. intros n s2 [-> Hn2].
  destruct (Z.eqb_spec n 0) as [|Hne]; [apply wp_ret; by apply Hskip|].
  apply wp_bind. eapply wp_mono.
  { apply (alloc_loop_ok r n ltac:(lia) _ s1 st R W K P S L ix J1 Har); [|lia].
    change (objs s1 r) with (objs s r). pose proof (cfg_sampled _ C). lia. }
  intros [[[blocks|] ix'] st'] s3 (R' & W' & P' & L' & S' & [A1 A2 A3 A4 A5 A6]); cbn [fst snd] in *.
  2: { apply wp_ret. exists R', W', P', L', S'. by constructor. }
  destruct A6 as (Har' & Hobj & m & HSm & Hm). change (objs s1 r) with (objs s r) in Hobj, Hm.
  pose proof (ri_core A1) as I3. pose proof (core_nodup I3) as Hnd'. apply list.NoDup_app in Hnd' as (HnR' & _).
  destruct (around_in R' L' r ix' HnR' Har') as (HrR' & HrL' & HLR' & _).
  apply wp_bind. eapply wp_mono.
  { apply (schedule_running_ok s3 R' W' K P' S' st' L' r n blocks I3); try done; [apply A1| |lia|rewrite Hobj; lia].
    split; [lia|]. rewrite Hobj. split; [lia|by exists m]. }
  intros st2 s4 (I4 & St4 & ER & Eenc & Eo & Enc & E1 & E2 & E3 & E4).
  pose proof (run_inv_scheduled _ _ _ _ _ _ _ _ _ _ _ A1 HrR' HrL' I4 St4 ER Eo Enc E1 E2 E3 E4) as J4.
  apply wp_bind. eapply wp_mono.
  { apply (schedule_encoder_inputs_ok s4 R' W' K [] [] R' P' S' st2 (L' ++ [r]) r ins b1 I4 St4); [set_solver|done|].
    rewrite Eenc. eapply pending_ext; [|eapply pending_room; [exact Hp|exact A3]].
    by rewrite (core_features I4), (core_features Ic). }
  intros st3 s5 (e5 & -> & I5 & St5 & Hpl). apply wp_ret. exists R', W', P', (L' ++ [r]), S'.
  symmetry in Hpl. apply plan_eq in Hpl as (_ & F2 & F3 & F4 & F5 & _). constructor; cbn [fst snd].
  - destruct (run_inv_enc _ _ _ _ _ _ _ _ _ J4 I5) as [K1 K2 _ K4 [K5 K5'] [K6 K6'] K7 K8 K9 K10 K11 K12].
    constructor; try done; try congruence; split; try congruence; done.
  - done.
  - split; [by apply around_next|lia].
Qed.

Lemma running_loop_ok fuel : forall s st R W K P S L ix,
  run_inv s st R W K P S L -> cursor R L ix -> Z.max 0 (zlen R - ix) < Z.of_nat fuel ->
  wp (running_loop cfg fuel ix st) (fun st' s' => exists R' W' P' L' S',
    run_inv s' st' R' W' K P' S' L' /\ R' ++ W' ≡ₚ R ++ W) s.
Proof.
  induction fuel as [|fuel IH]; intros s st R W K P S L ix I Hcur Hf; [lia|]. cbn [running_loop].
  apply wp_bind, wp_get. rewrite (ri_running I).
  destruct ((ix <? zlen R) && (0 <? token_budget st)) eqn:E; [|apply wp_ret; by exists R, W, P, L, S].
  apply andb_true_iff in E as [E%Z.ltb_lt _]. apply wp_bind. eapply wp_mono; [by eapply running_step_ok|].
  intros [[go ix'] st'] s' (R' & W' & P' & L' & S' & [H1 H2 H3]). cbn [fst snd] in *. destruct go.
  - destruct H3 as [Hcur' Hm]. eapply wp_mono; [eapply IH; [exact H1|done|lia]|].
    intros st2 s2 (R2 & W2 & P2 & L2 & S2 & H4 & H5). exists R2, W2, P2, L2, S2. split; [done|]. by rewrite H5.
  - apply wp_ret. by exists R', W', P', L', S'.
Qed.

(** ** The waiting queues *)

Definition queue_list (w : which_queue) (W K : list Z) : list Z :=
  match w with Waiting => W | SkippedWaiting => K end.

Lemma serves_now s R W K Q H D P S q l :
  core s R W K Q H D P S -> serves objs0 (policy cfg) q l <-> serves (objs s) (policy cfg) q l.
Proof. intros I. split; apply serves_ext; intros r; [symmetry|]; apply I. Qed.

(** Looking at the head of a queue changes nothing. *)
Lemma peek_queue_ok s R W K Q H D P S w r l :
  core s R W K Q H D P S -> queue_list w W K = r :: l ->
  wp (on_queue w (fun _ => peek_request)) (fun x s' => x = r /\ s' = s) s.
Proof.
  intros I E. destruct w; simpl in E; subst; apply wp_bind, wp_get, wp_zoom; unfold wp.
  - rewrite (peek_serves objs0 _ _ _ (co_waiting I)). split; [done|by destruct s].
  - rewrite (peek_serves objs0 _ _ _ (co_skipped I)). split; [done|by destruct s].
Qed.

(** What a queue operation leaves alone. *)
Definition same_rest (s s' : State) : Prop :=
  objs s' = objs s /\ running s' = running s /\ kv_cache_manager s' = kv_cache_manager s /\
  encoder_cache_manager s' = encoder_cache_manager s.

Lemma pop_queue_ok s R W K Q H D P S w r l :
  core s R W K Q H D P S -> queue_list w W K = r :: l ->
  wp (on_queue w pop_request) (fun x s' => x = r /\ same_rest s s' /\ exists W' K',
    W ++ K ≡ₚ r :: W' ++ K' /\
    core s' R W' K' Q (r :: H) D P S) s.
Proof.
  intros I E. pose proof (serves_now s R W K Q H D P S) as Hnow. destruct w; simpl in E; subst; apply wp_bind, wp_get, wp_zoom; unfold wp.
  - pose proof (pop_serves (objs s) _ _ _ (proj1 (Hnow _ _ I) (co_waiting I))) as (q' & -> & Hs).
    apply (Hnow _ _ I) in Hs. split; [done|]. split; [done|]. exists l, K. split; [done|].
    destruct I. constructor; simpl in *; try done; [rewrite <- co_perm0; solve_Permutation|intros x Hx..].
    + apply co_wait0. set_solver.
    + apply co_preempted0. set_solver.
  - pose proof (pop_serves (objs s) _ _ _ (proj1 (Hnow _ _ I) (co_skipped I))) as (q' & -> & Hs).
    apply (Hnow _ _ I) in Hs. split; [done|]. split; [done|]. exists W, l. split; [solve_Permutation|].
    destruct I. constructor; simpl in *; try done; [rewrite <- co_perm0; solve_Permutation|intros x Hx..].
    + apply co_wait0. set_solver.
    + apply co_preempted0. set_solver.
Qed.

Lemma queue_nonempty s R W K Q H D P S :
  core s R W K Q H D P S ->
  nonempty (waiting s) = negb (length W =? 0)%nat /\ nonempty (skipped_waiting s) = negb (length K =? 0)%nat.
Proof.
  intros I. unfold nonempty. by rewrite (len_serves objs0 _ _ _ (co_waiting I)),
    (len_serves objs0 _ _ _ (co_skipped I)).
Qed.

Lemma select_queue_ok s R W K Q H D P S :
  core s R W K Q H D P S -> nonempty (waiting s) || nonempty (skipped_waiting s) = true ->
  wp (select_waiting_queue_for_scheduling cfg) (fun o s' => s' = s /\ exists w, o = Some w /\ queue_list w W K <> []) s.
Proof.
  intros I Hne. destruct (queue_nonempty _ _ _ _ _ _ _ _ _ I) as [E1 E2]. unfold select_waiting_queue_for_scheduling.
  assert (HW : W = [] \/ exists a l, W = a :: l) by (destruct W; eauto). assert (HK : K = [] \/ exists a l, K = a :: l) by (destruct K; eauto).
  apply wp_bind, wp_get. destruct (policy cfg) eqn:Epol; rewrite E1, E2 in *.
  - apply wp_ret. split; [done|]. destruct HW as [->|(a & l & ->)], HK as [->|(b & k & ->)]; try done;
      first [by exists SkippedWaiting|by exists Waiting].
  - destruct HW as [->|(a & l & ->)], HK as [->|(b & k & ->)]; try done; cbn [length Nat.eqb negb andb].
    + apply wp_ret. split; [done|]. by exists SkippedWaiting.
    + apply wp_ret. split; [done|]. by exists Waiting.
    + apply wp_bind. eapply wp_mono; [by apply (peek_queue_ok s R _ _ Q H D P S Waiting a l I)|]. intros x s1 [-> ->].
      apply wp_bind. eapply wp_mono; [by apply (peek_queue_ok s R _ _ Q H D P S SkippedWaiting b k I)|]. intros x s1 [-> ->].
      apply wp_ret. split; [done|]. destruct (lt (objs s) a b); [by exists Waiting|by exists SkippedWaiting].
Qed.

(** ** Admitting waiting requests *)

(** [L]: the running requests scheduled before, [N]: the requests admitted. *)
Record wait_inv (s : State) (st : Step) (R W K Q L N : list Z) (S : gmap string Z) : Prop := {
  wi_core : core s R W K Q [] R [] S;
  wi_running : running s = R;
  wi_step : step_inv s S st (L ++ N);
  wi_sub : NoDup (L ++ N) /\ forall r, r ∈ L ++ N -> r ∈ R;
  wi_scheduled : scheduled_running_reqs st = L;
  wi_new : scheduled_new_reqs st ++ scheduled_resumed_reqs st ≡ₚ N;
  wi_resumed : forall r, r ∈ scheduled_resumed_reqs st -> idof r ∉ prev0;
  wi_preempted : preempted_reqs st = [];
  wi_skipped : serves objs0 (policy cfg) (step_skipped_waiting st) Q;
  wi_max : zlen R <= max_num_running_reqs cfg;
  wi_from : forall r, r ∈ W ++ K ++ Q ++ N -> status (objs0 r) <> RUNNING;
  wi_computed : forall r, r ∈ R -> r ∉ N -> status (objs0 r) = RUNNING /\ num_computed_tokens (objs s r) = num_computed_tokens (objs0 r)
}.
#[local] Arguments wi_core {s st R W K Q L N S} _.
#[local] Arguments wi_running {s st R W K Q L N S} _.
#[local] Arguments wi_step {s st R W K Q L N S} _.
#[local] Arguments wi_sub {s st R W K Q L N S} _.
#[local] Arguments wi_scheduled {s st R W K Q L N S} _.
#[local] Arguments wi_new {s st R W K Q L N S} _.
#[local] Arguments wi_resumed {s st R W K Q L N S} _.
#[local] Arguments wi_preempted {s st R W K Q L N S} _.
#[local] Arguments wi_skipped {s st R W K Q L N S} _.
#[local] Arguments wi_max {s st R W K Q L N S} _.
#[local] Arguments wi_from {s st R W K Q L N S} _.
#[local] Arguments wi_computed {s st R W K Q L N S} _.

(** A request changes in a way that matters to no list. *)
Lemma wait_inv_state s s' st R W K Q L N S :
  wait_inv s st R W K Q L N S -> core s' R W K Q [] R [] S -> running s' = running s ->
  (forall r, r ∈ R -> objs s' r = objs s r) -> wait_inv s' st R W K Q L N S.
Proof.
  intros [J1 J2 J3 [J4 J4'] J5 J6 J7 J8 J9 J10 J11 J12] I ER Ho. constructor; try done; [congruence| |].
  - apply (step_inv_env s s' S S); [done|]. intros r Hr. split; [|done]. by apply Ho, J4'.
  - intros r Hr HrN. rewrite Ho by done. by apply J12.
Qed.

Lemma head_facts s st R W K Q L N S w r l :
  wait_inv s st R W K Q L N S -> queue_list w W K = r :: l ->
  r ∈ W ++ K ++ Q /\ r ∈ all /\ r ∉ R /\ S !! idof r = None /\ wait_ok (objs s r).
Proof.
  intros I E. pose proof (wi_core I) as Ic. pose proof (core_nodup Ic) as Hnd.
  assert (Hr : r ∈ W ++ K ++ Q) by (destruct w; simpl in E; subst; set_solver).
  assert (HrR : r ∉ R).
  { intros Hx. apply list.NoDup_app in Hnd as (_ & Hd & _). apply (Hd r Hx). set_solver. }
  assert (Ha : forall x, x ∈ R \/ x ∈ W ++ K ++ Q -> x ∈ all) by (intros x Hx; apply (core_in Ic); set_solver).
  split; [done|]. split; [by apply Ha; right|]. split; [done|]. split; [|by apply (co_wait Ic)].
  apply eq_None_not_Some. intros Hs. apply (co_dom Ic) in Hs as (x & Hx & Ex).
  apply id_inj in Ex; [by subst|apply Ha; by left|apply Ha; by right].
Qed.

(** A waiting request may have got its grammar meanwhile. *)
Lemma promote_ok grammar_ready s st R W K Q L N S w r l :
  wait_inv s st R W K Q L N S -> queue_list w W K = r :: l ->
  wp (if is_blocked_waiting_status (status (objs s r)) then try_promote_blocked_waiting_request grammar_ready r else mret true)
    (fun b s' => wait_inv s' st R W K Q L N S /\
      (b = true -> status (objs s' r) = WAITING \/ status (objs s' r) = PREEMPTED)) s.
Proof.
  intros I E. destruct (head_facts _ _ _ _ _ _ _ _ _ _ _ _ I E) as (Hr & Ha & HrR & _ & Hst & Hnc & Hph).
  destruct Hst as [Es|[Es|Es]]; rewrite Es; cbn [is_blocked_waiting_status].
  - apply wp_ret. split; [done|by left].
  - apply wp_ret. split; [done|by right].
  - unfold try_promote_blocked_waiting_request. apply wp_bind, wp_obj, wp_bind, wp_get. rewrite Es.
    destruct (grammar_ready r); [|by apply wp_ret]. apply wp_bind, wp_modify, wp_ret. split.
    + eapply wait_inv_state; [exact I| |done|].
      * apply (core_obj (wi_core I) r (set_status WAITING)); try done.
        intros _. split; [by left|done].
      * intros x Hx. simpl. rewrite fn_lookup_insert_ne; [done|]. by intros ->.
    + intros _. left. simpl. by rewrite fn_lookup_insert.
Qed.

(** Skipping the head of a queue. *)
Lemma skip_ok s st R W K Q L N S w r l :
  wait_inv s st R W K Q L N S -> queue_list w W K = r :: l ->
  wp (skip_for_this_step w r st) (fun st' s' => exists W' K' Q', W ++ K ≡ₚ r :: W' ++ K' /\ Q' ≡ₚ r :: Q /\
    wait_inv s' st' R W' K' Q' L N S) s.
Proof.
  intros I E. pose proof (wi_core I) as Ic. destruct (head_facts _ _ _ _ _ _ _ _ _ _ _ _ I E) as (Hr & _ & _ & _ & Hw).
  pose proof (co_preempted Ic r Hr) as Hpre.
  unfold skip_for_this_step. apply wp_bind. eapply wp_mono; [by eapply (pop_queue_ok s)|].
  intros x s1 (-> & (Eo & Er & _ & _) & W' & K' & HWK & I1). apply wp_bind, wp_get.
  pose proof (proj1 (serves_now s1 _ _ _ _ _ _ _ _ _ _ I1) (wi_skipped I)) as Hsk.
  destruct (prepend_serves (objs s1) (policy cfg) _ Q r Hsk) as (q' & Hq & Hs'). rewrite Hq. apply wp_bind. unfold of_result, wp at 1.
  apply wp_ret. set (Q' := match policy cfg with FCFS => r :: Q | PRIORITY => insert_by (objs s1) r Q end) in *.
  assert (HQ : Q' ≡ₚ r :: Q) by (unfold Q'; destruct (policy cfg); [done|apply insert_by_perm]).
  apply (serves_now s1 _ _ _ _ _ _ _ _ _ _ I1) in Hs'. exists W', K', Q'. split; [done|]. split; [done|].
  assert (Hin : forall x, x ∈ W' ++ K' ++ Q' -> x = r \/ x ∈ W' ++ K' ++ Q) by (intros x; rewrite HQ; set_solver).
  destruct I as [J1 J2 J3 [J4 J4'] J5 J6 J7 J8 J9 J10 J11 J12]. constructor; simpl; try done; [|congruence| | |].
  - destruct I1. constructor; try done.
    + rewrite HQ, <- co_perm0. solve_Permutation.
    + intros x [->|Hx]%Hin; [by rewrite Eo|auto].
    + intros x [->|Hx]%Hin; [by rewrite Eo|auto].
  - destruct (step_inv_env s s1 S S st (L ++ N) J3) as []; [by rewrite Eo|by constructor].
  - intros x Hx. apply J11. rewrite HQ in Hx. rewrite (assoc_L (++) W K), HWK. set_solver.
  - by rewrite Eo.
Qed.

(** The cached prefix: its length is less than the request's. *)
Lemma cached_prefix_ok s st R W K Q L N S w r l :
  wait_inv s st R W K Q L N S -> queue_list w W K = r :: l -> status (objs s r) = WAITING \/ status (objs s r) = PREEMPTED ->
  wp (cached_prefix cfg r) (fun hit s' => let '(blocks, num_local, num_computed, num_uncached) := hit in
    wait_inv s' st R W K Q L N S /\ num_computed = num_local /\ 0 <= num_local < num_tokens (objs s' r) /\
    slots_hit (kv_cache_manager s') (objs s' r) blocks num_local /\
    (status (objs s' r) = WAITING \/ status (objs s' r) = PREEMPTED)) s.
Proof.
  intros I E Hst. pose proof (wi_core I) as Ic.
  destruct (head_facts _ _ _ _ _ _ _ _ _ _ _ _ I E) as (Hr & Ha & HrR & HSr & _ & Hnc & Hph).
  pose proof (core_request Ic r Ha) as Hq. unfold cached_prefix. apply wp_bind, wp_obj. rewrite Hnc. cbn [Z.eqb].
  apply wp_bind, wp_zoom. eapply wp_mono; [apply (slots_lookup _ S); [apply Ic|by rewrite (core_id Ic)|apply Hq]|].
  intros hit k' (Hk' & Hhit & Hslots). set (s1 := set_kv_cache_manager k' s).
  assert (I1 : wait_inv s1 st R W K Q L N S).
  { eapply wait_inv_state; [exact I|by apply core_kv_same|done|done]. }
  apply wp_bind, wp_get, wp_bind, wp_assert; [apply Z.leb_le; lia|]. apply wp_bind. unfold record_prefill. apply wp_bind, wp_obj.
  change (objs s1 r) with (objs s r). destruct (prefill_stats (objs s r)) as [ps|] eqn:Eps.
  - pose proof (co_prefill Ic r Ha ltac:(rewrite Eps; by eexists)) as Hpf.
    destruct (static_eq _ _ (co_static Ic r)) as (_ & _ & _ & _ & Et & Ep).
    assert (Et' : num_tokens (objs s r) = num_tokens (objs0 r)) by (unfold num_tokens; by rewrite Et).
    apply wp_bind, wp_assert; [apply Z.leb_le; lia|]. apply wp_modify. apply wp_ret.
    set (f := set_prefill_stats (Some _)). split; [|].
    + eapply wait_inv_state; [exact I1| |done|].
      * apply (core_obj (wi_core I1) r f); try done; intros Hx.
        by apply (co_wait Ic).
      * intros x Hx. simpl. rewrite fn_lookup_insert_ne; [done|]. by intros ->.
    + simpl. rewrite fn_lookup_insert. split; [done|]. split; [done|]. split; [apply Hslots|done].
  - apply wp_ret, wp_ret. split; [done|]. split; [done|]. split; [done|]. split; [|done].
    assert (Eset : set_prefill_stats None (objs s r) = objs s r) by (rewrite <- Eps; by destruct (objs s r)).
    change (objs s1 r) with (objs s r). rewrite <- Eset. apply Hslots.
Qed.

(** The tokens of a request to admit. *)
Lemma waiting_tokens_ok s st R W K Q L N S w r l local uncached :
  wait_inv s st R W K Q L N S -> queue_list w W K = r :: l -> 0 <= local < num_tokens (objs s r) -> 0 < token_budget st ->
  wp (waiting_num_new_tokens cfg (objs s r) local local uncached st) (fun plan s' => exists e',
    s' = set_encoder_cache_manager e' s /\ wait_inv s' st R W K Q L N S /\
    match plan with
    | None => True
    | Some (ins, n, _) => 0 < n /\ n <= token_budget st /\ local + n <= num_tokens (objs s r) /\ pending (objs s r) ins e'
    end) s.
Proof.
  intros I E Hl Hb. pose proof (wi_core I) as Ic.
  destruct (head_facts _ _ _ _ _ _ _ _ _ _ _ _ I E) as (_ & Ha & _).
  assert (Hid : set_encoder_cache_manager (encoder_cache_manager s) s = s) by (by destruct s).
  unfold waiting_num_new_tokens. cbv zeta.
  destruct (threshold_bounds cfg (num_tokens (objs s r) - local)) as [Ht1 Ht2]; [lia|]. specialize (Ht2 ltac:(lia)).
  set (n0 := threshold_tokens cfg (num_tokens (objs s r) - local)) in *.
  destruct (negb (enable_chunked_prefill cfg) && (token_budget st <? n0)).
  { apply wp_ret. exists (encoder_cache_manager s). by rewrite Hid. }
  apply wp_bind, wp_assert; [apply Z.ltb_lt; lia|]. apply wp_bind.
  eapply wp_mono; [apply (schedule_encoder_ok s R W K Q [] R [] S r); [done|done|lia]|].
  intros [[ins n1] b1] s1 (e1 & -> & I1 & Hn1 & Hp). cbn [fst snd] in Hn1, Hp.
  assert (J1 : wait_inv (set_encoder_cache_manager e1 s) st R W K Q L N S) by (by eapply wait_inv_state).
  destruct (Z.eqb_spec n1 0) as [|Hne]; [apply wp_ret; by exists e1|].
  apply wp_bind. eapply wp_mono; [by apply split_if_needed_ok; [|apply Hn1]|]. intros n s2 [-> Hn2].
  destruct (Z.eqb_spec n 0) as [|Hne2]; apply wp_ret; exists e1; [done|]. split; [done|]. split; [done|].
  split; [lia|]. split; [lia|]. split; [lia|done].
Qed.

(** The request has slots, in no table of its own yet. *)
Lemma core_slots s R W K Q P S r m k' :
  core s R W K Q [] R P S -> r ∈ all -> r ∉ R -> slots_rep k' (<[idof r := m]> S) ->
  core (set_kv_cache_manager k' s) R W K Q [] (r :: R) P (<[idof r := m]> S).
Proof.
  intros I Ha Hr Hk. apply (core_kv I); [done| |].
  - intros x Hx. rewrite lookup_insert_ne; [by apply (co_run I)|].
    intros E. apply id_inj in E; [by subst|done|]. apply (core_in I). by left.
  - intros id [m' [[<- _]|[_ Hm]]%lookup_insert_Some]; [exists r; split; [by left|done]|].
    destruct (co_dom I id ltac:(by exists m')) as (x & Hx & E). exists x. split; [by right|done].
Qed.

(** A request off its queue, with slots, joins the running ones. *)
Lemma core_start s R W K Q P S r m local infl :
  core s R W K Q [r] (r :: R) P S -> S !! idof r = Some m ->
  0 <= local <= max_model_len cfg - num_sampled_tokens_per_step cfg -> local <= m -> placeholders_ok (objs s r) ->
  core (set_inflight_prefills infl (set_objs (<[r := set_num_computed_tokens local (set_status RUNNING (objs s r))]> (objs s))
    (set_running (R ++ [r]) s))) (R ++ [r]) W K Q [] (R ++ [r]) P S.
Proof.
  intros I Hm Hl Hlm Hph. pose proof (core_nodup I) as Hn.
  pose proof (core_obj_held I r (fun q => set_num_computed_tokens local (set_status RUNNING q)) ltac:(set_solver) eq_refl ltac:(done)) as I1.
  destruct I1. constructor; simpl in *; try done.
  - rewrite <- co_perm0. solve_Permutation.
  - intros x [Hx|Hx%list_elem_of_singleton]%elem_of_app; [by apply co_run0|]. subst x. rewrite fn_lookup_insert.
    split; [done|]. split; [done|]. split; [done|]. by exists m.
  - intros id Hid. destruct (co_dom0 id Hid) as (x & Hx & E). exists x. split; [|done]. set_solver.
Qed.

(** What admission records for [r]. *)
Lemma step_inv_admit s s' S st (R L N : list Z) r m n blocks st' :
  step_inv s S st (L ++ N) -> (forall x, x ∈ L ++ N -> x ∈ R) -> (forall x, x ∈ R -> x ∈ all) -> r ∈ all -> r ∉ R ->
  (forall x, x ∈ R -> objs s' x = objs s x) -> n <= token_budget st ->
  count_ok s' (<[idof r := m]> S) r n ->
  num_scheduled_tokens st' = od_set (idof r) n (num_scheduled_tokens st) ->
  req_to_new_blocks st' = od_set (idof r) blocks (req_to_new_blocks st) ->
  token_budget st' = token_budget st - n ->
  scheduled_encoder_inputs st' = scheduled_encoder_inputs st ->
  scheduled_spec_decode_tokens st' = scheduled_spec_decode_tokens st ->
  num_computed_tokens (objs s' r) + n <= num_tokens (objs s' r) + num_output_placeholders (objs s' r) ->
  step_inv s' (<[idof r := m]> S) st' (L ++ N ++ [r]).
Proof.
  intros St Hsub HRa Ha HrR Ho Hn Hc E1 E2 E3 E4 E5 Hd. rewrite app_assoc. eapply (step_inv_add s' _ st); try done; [|auto..| |by rewrite E5].
  2: { unfold drafts_of. rewrite E5, (no_drafts s S st (L ++ N) r St); [|auto..]. split; simpl; lia. }
  eapply step_inv_env; [exact St|]. intros x Hx. split; [by apply Ho, Hsub|]. rewrite lookup_insert_ne; [done|].
  intros E. apply id_inj in E; [subst; auto|done|auto].
Qed.

Lemma start_running_ok s st R W K Q L N S w r l local n m k' :
  wait_inv s st R W K Q L N S -> queue_list w W K = r :: l -> slots_rep k' (<[idof r := m]> S) -> zlen R < max_num_running_reqs cfg ->
  status (objs s r) = WAITING \/ status (objs s r) = PREEMPTED ->
  0 <= local -> 0 < n <= token_budget st -> local + n <= num_tokens (objs s r) -> local + n <= m ->
  wp (start_running cfg w (idof r) local n st) (fun a s' => a.1 = r /\ exists W' K', W ++ K ≡ₚ r :: W' ++ K' /\
    encoder_cache_manager s' = encoder_cache_manager s /\
    wait_inv s' a.2 (R ++ [r]) W' K' Q L (N ++ [r]) (<[idof r := m]> S)) (set_kv_cache_manager k' s).
Proof.
  intros I E Hk Hmax Hst Hl Hn Hln Hm. pose proof (wi_core I) as Ic.
  destruct (head_facts _ _ _ _ _ _ _ _ _ _ _ _ I E) as (Hr & Ha & HrR & HSr & _ & _ & Hph).
  pose proof (core_request Ic r Ha) as Hq. pose proof (rq_length _ Hq) as Hlen.
  pose proof (co_preempted Ic r Hr) as Hpre.
  pose proof (core_slots _ _ _ _ _ _ _ r m k' Ic Ha HrR Hk) as I0.
  unfold start_running. apply wp_bind. eapply wp_mono; [by eapply (pop_queue_ok _ R W K Q)|].
  intros x s1 (-> & (Eo & Er & Ek & Ee) & W' & K' & HWK & I1). change (objs (set_kv_cache_manager k' s)) with (objs s) in Eo.
  apply wp_bind, wp_modify. apply wp_bind, wp_obj. apply wp_bind.
  change (objs (set_running (running s1 ++ [r]) s1) r) with (objs s1 r). rewrite Eo.
  assert (Hrun1 : running s1 = R) by (rewrite Er; apply I).
  set (st1 := match status (objs s r) with WAITING => set_scheduled_new_reqs (scheduled_new_reqs st ++ [r]) st
              | _ => set_scheduled_resumed_reqs (scheduled_resumed_reqs st ++ [r]) st end).
  assert (Hst1 : wp (match status (objs s r) with
       | WAITING => mret (set_scheduled_new_reqs (scheduled_new_reqs st ++ [r]) st)
       | PREEMPTED => mret (set_scheduled_resumed_reqs (scheduled_resumed_reqs st ++ [r]) st)
       | _ => raise RuntimeError
       end) (fun st' s' => st' = st1 /\ s' = set_running (running s1 ++ [r]) s1) (set_running (running s1 ++ [r]) s1)).
  { unfold st1. by destruct Hst as [-> | ->]. }
  eapply wp_mono; [exact Hst1|]. clear Hst1. intros st2 s2 [-> ->]. cbv zeta. rewrite (cfg_no_loras _ C).
  apply wp_bind, wp_get. apply wp_bind, wp_modify. cbn beta.
  match goal with |- context [mret (r, ?x)] => set (st' := x) end.
  set (s3 := set_objs _ _).
  assert (Hgo : forall infl, wait_inv (set_inflight_prefills infl s3) st' (R ++ [r]) W' K' Q L (N ++ [r]) (<[idof r := m]> S)).
  { intros infl. pose proof (core_start s1 R W' K' Q [] _ r m local infl I1 ltac:(apply lookup_insert_eq) ltac:(lia) ltac:(lia)
      ltac:(rewrite Eo; done)) as I2. unfold s3. rewrite Hrun1. 
    assert (Ho3 : forall x, x ∈ R -> objs s3 x = objs s x).
    { intros x Hx. simpl. rewrite Eo, fn_lookup_insert_ne; [done|]. by intros ->. }
    destruct I as [J1 J2 J3 [J4 J4'] J5 J6 J7 J8 J9 J10 J11 J12].
    assert (HRa : forall x, x ∈ R -> x ∈ all) by (intros x Hx; apply (core_in J1); by left).
    assert (Est : token_budget st1 = token_budget st /\ num_scheduled_tokens st1 = num_scheduled_tokens st /\
      req_to_new_blocks st1 = req_to_new_blocks st /\ scheduled_encoder_inputs st1 = scheduled_encoder_inputs st /\
      scheduled_running_reqs st1 = scheduled_running_reqs st /\ preempted_reqs st1 = preempted_reqs st /\
      step_skipped_waiting st1 = step_skipped_waiting st /\
      scheduled_spec_decode_tokens st1 = scheduled_spec_decode_tokens st).
    { unfold st1. by destruct Hst as [-> | ->]. }
    destruct Est as (F1 & F2 & F3 & F4 & F5 & F6 & F7 & F8).
    constructor; simpl.
    - exact I2.
    - done.
    - eapply (step_inv_admit s _ S st R L N r m n); [exact J3|done|done|done|done| |lia| |by rewrite <- F2|by rewrite <- F3|by rewrite <- F1|by rewrite <- F4|by rewrite <- F8|].
      + exact Ho3.
      + unfold count_ok. simpl. rewrite fn_lookup_insert. simpl. split; [lia|]. split; [lia|]. exists m. by rewrite lookup_insert_eq.
      + simpl. rewrite fn_lookup_insert. simpl. unfold num_tokens in *. simpl. rewrite Eo. destruct Hph; lia.
    - rewrite app_assoc. split; [|set_solver]. apply list.NoDup_app. split; [done|]. split; [|apply NoDup_singleton].
      intros x Hx ->%list_elem_of_singleton. by apply HrR, J4'.
    - by rewrite F5.
    - unfold st1. destruct Hst as [-> | ->]; simpl; rewrite <- J6; solve_Permutation.
    - unfold st1. destruct Hst as [Es|Es]; rewrite Es; simpl; [done|]. intros x [Hx|Hx%list_elem_of_singleton]%elem_of_app; [auto|].
      subst x. destruct (Hpre Es) as [[]%elem_of_nil|?]; done.
    - by rewrite F6.
    - by rewrite F7.
    - rewrite length_app. simpl. lia.
    - intros x Hx. apply J11. rewrite (assoc_L (++) W K), HWK. set_solver.
    - intros x Hx HxN. assert (x ∈ R) by set_solver. assert (x <> r) by set_solver.
      rewrite Eo, fn_lookup_insert_ne by done. apply J12; [done|set_solver]. }
  apply wp_bind. destruct (_ <? _).
  - apply wp_modify, wp_ret. split; [done|]. exists W', K'. split; [done|]. split; [by simpl; rewrite Ee|]. apply Hgo.
  - apply wp_ret, wp_ret. split; [done|]. exists W', K'. split; [done|]. split; [by simpl; rewrite Ee|].
    specialize (Hgo (inflight_prefills s3)). by destruct s3.
Qed.

(** One round of the loop over the waiting queues. *)
Definition waited (R W K Q : list Z) (L : list Z) (go_on : bool) (st' : Step) (s' : State) : Prop :=
  exists R' W' K' Q' N' S', wait_inv s' st' R' W' K' Q' L N' S' /\ R' ++ W' ++ K' ++ Q' ≡ₚ R ++ W ++ K ++ Q /\
    (go_on = true -> (length W' + length K' < length W + length K)%nat).

Lemma waited_stop R W K Q L N S st s : wait_inv s st R W K Q L N S -> waited R W K Q L false st s.
Proof. intros I. by exists R, W, K, Q, N, S. Qed.

Lemma waiting_step_ok grammar_ready s st R W K Q L N S :
  wait_inv s st R W K Q L N S -> nonempty (waiting s) || nonempty (skipped_waiting s) = true -> 0 < token_budget st ->
  wp (waiting_step cfg grammar_ready st) (fun o s' => waited R W K Q L o.1 o.2 s') s.
Proof.
  intros I Hne Hb. unfold waiting_step. apply wp_bind, wp_get. rewrite (wi_running I).
  destruct (Z.eqb_spec (zlen R) (max_num_running_reqs cfg)) as [|Hmax]; [apply wp_ret; by eapply waited_stop|].
  pose proof (wi_max I) as Hle.
  apply wp_bind. eapply wp_mono; [by apply (select_queue_ok s R W K Q [] R [] S); [apply I|]|]. intros o s0 (-> & w & -> & Hw).
  apply wp_bind, (wp_of_option _ _ w); [done|].
  destruct (queue_list w W K) as [|r l] eqn:E; [done|]. clear Hw.
  apply wp_bind. eapply wp_mono; [by eapply (peek_queue_ok s); [apply I|]|]. intros x s0 [-> ->].
  apply wp_bind, wp_obj, wp_bind. eapply wp_mono; [by eapply promote_ok|].
  intros b s1 (I1 & Hst).
  assert (Elora : forall q, lora_blocked cfg q st = false) by (intros; unfold lora_blocked; by rewrite (cfg_no_loras _ C)).
  rewrite Elora, orb_false_r. clear Elora I Hne s. rename s1 into s. destruct b; cbn [negb].
  2: { apply wp_bind. eapply wp_mono; [by eapply skip_ok|]. intros st' s' (W' & K' & Q' & HWK & HQ & I'). apply wp_ret.
       exists R, W', K', Q', N, S. split; [done|]. pose proof (Permutation_length HWK) as Hlen. rewrite length_app in Hlen. simpl in Hlen.
       rewrite length_app in Hlen. split; [|intros _; lia]. rewrite HQ. rewrite (assoc_L (++) W K Q), HWK. solve_Permutation. }
  specialize (Hst eq_refl). apply wp_bind. eapply wp_mono; [by eapply cached_prefix_ok|].
  intros [[[blocks local] computed] uncached] s1 (I2 & -> & Hl & Hhit & Hst1). clear I1 Hst s.
  apply wp_bind, wp_obj, wp_bind. eapply wp_mono; [by eapply waiting_tokens_ok|].
  intros [[[ins n] b1]|] s2 (e' & -> & I3 & Hplan); [|apply wp_ret; by eapply waited_stop].
  destruct Hplan as (Hn1 & Hn2 & Hn3 & Hp). set (s := set_encoder_cache_manager e' s1) in *.
  pose proof (wi_core I3) as Ic.
  destruct (head_facts _ _ _ _ _ _ _ _ _ _ _ _ I3 E) as (Hr & Ha & HrR & HSr & _ & Hnc & _).
  change (objs s1 r) with (objs s r) in *. pose proof (rq_length _ (core_request Ic r Ha)) as Hlen.
  pose proof (cfg_sampled _ C) as Hs0.
  unfold cross_attention_tokens. rewrite (cfg_decoder _ C). cbn [andb]. apply wp_bind, wp_ret, wp_bind, wp_get, wp_bind, wp_zoom.
  eapply wp_mono.
  { apply (slots_waiting _ S); [apply Ic|by rewrite (core_id Ic)|done|exact Hhit|lia|lia|lia]. }
  intros [b|] k'; cbv beta iota; rewrite ?(core_id Ic).
  - intros (m & Hm & Hk'). apply wp_bind. eapply wp_mono.
    { eapply (start_running_ok s st R W K Q L N S w r l local n m k'); try done; lia. }
    intros [r' st1] s3 (Er & W' & K' & HWK & Ee & I4). cbn [fst snd] in Er, I4 |- *. subst r'. apply wp_bind.
    pose proof (wi_core I4) as Ic4. eapply wp_mono.
    { apply (schedule_encoder_inputs_ok s3 _ _ _ _ _ _ _ _ st1 (L ++ N ++ [r]) r ins b1 Ic4); [apply I4|set_solver|done|].
      rewrite Ee. eapply pending_ext; [|exact Hp]. by rewrite (core_features Ic4), (core_features Ic). }
    intros st2 s4 (e4 & -> & I5 & St5 & Hpl). apply wp_ret.
    symmetry in Hpl. apply plan_eq in Hpl as (_ & F2 & F3 & F4 & F5 & _ & _ & F8 & _).
    exists (R ++ [r]), W', K', Q, (N ++ [r]), (<[idof r := m]> S). split; [|split].
    + destruct I4 as [J1 J2 J3 J4 J5 J6 J7 J8 J9 J10 J11 J12]. constructor; try done; cbn [snd]; rewrite <- ?F2, <- ?F3, <- ?F4, <- ?F5, <- ?F8; done.
    + rewrite (assoc_L (++) W K Q), HWK. solve_Permutation.
    + pose proof (Permutation_length HWK) as Hlw. rewrite length_app in Hlw. simpl in Hlw. rewrite length_app in Hlw. lia.
  - intros Hk'. apply wp_bind. set (s3 := set_kv_cache_manager k' s).
    assert (I4 : wait_inv s3 st R W K Q L N S) by (eapply wait_inv_state; [exact I3|by apply core_kv_same|done|done]).
    destruct (has_encoder_inputs (objs s r)); [|apply wp_ret, wp_ret; by eapply waited_stop].
    change (objs s r) with (objs s3 r).
    eapply wp_mono; [by eapply (enc_free_ok s3); [apply I4|]|]. intros [] s4 (e4 & -> & I5 & _). apply wp_ret.
    eapply waited_stop. eapply wait_inv_state; [exact I4|exact I5|done|done].
Qed.

Lemma waiting_loop_ok grammar_ready fuel : forall s st R W K Q L N S,
  wait_inv s st R W K Q L N S -> (length W + length K < fuel)%nat ->
  wp (waiting_loop cfg fuel grammar_ready st) (fun st' s' => waited R W K Q L false st' s') s.
Proof.
  induction fuel as [|fuel IH]; intros s st R W K Q L N S I Hf; [lia|]. cbn [waiting_loop].
  apply wp_bind, wp_get. destruct (_ && _) eqn:E; [|apply wp_ret; by eapply waited_stop].
  apply andb_true_iff in E as [E1 E2%Z.ltb_lt]. apply wp_bind. eapply wp_mono; [by eapply waiting_step_ok|].
  intros [go st1] s1 (R1 & W1 & K1 & Q1 & N1 & S1 & I1 & HP & Hlt). cbn [fst snd] in *. destruct go.
  - eapply wp_mono; [eapply IH; [exact I1|specialize (Hlt eq_refl); lia]|].
    intros st2 s2 (R2 & W2 & K2 & Q2 & N2 & S2 & I2 & HP2 & _). exists R2, W2, K2, Q2, N2, S2. split; [done|].
    split; [by rewrite HP2|done].
  - apply wp_ret. exists R1, W1, K1, Q1, N1, S1. done.
Qed.

(** ** The plan of the step *)

Record planned (s : State) (st : Step) (R W K L N P : list Z) (S : gmap string Z) : Prop := {
  pl_core : core s R W K [] [] R P S;
  pl_running : running s = R;
  pl_step : step_inv s S st (L ++ N);
  pl_sub : NoDup (L ++ N) /\ forall r, r ∈ L ++ N -> r ∈ R;
  pl_scheduled : scheduled_running_reqs st = L;
  pl_new : scheduled_new_reqs st ++ scheduled_resumed_reqs st ≡ₚ N;
  pl_resumed : forall r, r ∈ scheduled_resumed_reqs st -> idof r ∉ prev0;
  pl_preempted : preempted_reqs st = P /\ forall r, r ∈ P -> r ∈ W;
  pl_max : zlen R <= max_num_running_reqs cfg;
  pl_from : forall r, r ∈ N -> status (objs0 r) <> RUNNING;
  pl_computed : forall r, r ∈ R -> r ∉ N -> status (objs0 r) = RUNNING /\ num_computed_tokens (objs s r) = num_computed_tokens (objs0 r)
}.

Lemma requeue_ok s R W K Q P S q :
  core s R W K Q [] R P S -> serves objs0 (policy cfg) q Q ->
  wp (if nonempty q then on_skipped_waiting (fun o => prepend_requests o q) else mret tt) (fun _ s' =>
    same_rest s s' /\ exists K', K' ≡ₚ K ++ Q /\ core s' R W K' [] [] R P S) s.
Proof.
  intros I Hq. assert (Hcore : forall q' K', K' ≡ₚ K ++ Q -> serves objs0 (policy cfg) q' K' ->
    core (set_skipped_waiting q' s) R W K' [] [] R P S).
  { intros q' K' HK Hs. destruct I. constructor; simpl; try done.
    - rewrite HK, <- co_perm0. solve_Permutation.
    - intros x Hx. apply co_wait0. rewrite HK in Hx. set_solver.
    - intros x Hx. apply co_preempted0. rewrite HK in Hx. set_solver. }
  unfold nonempty. rewrite (len_serves objs0 _ _ _ Hq). destruct Q as [|a Q]; cbn [length Nat.eqb negb].
  - apply wp_ret. split; [done|]. exists K. split; [by rewrite app_nil_r|].
    specialize (Hcore (skipped_waiting s) K). rewrite app_nil_r in Hcore. specialize (Hcore (reflexivity K) (co_skipped I)).
    by destruct s.
  - apply wp_bind, wp_get, wp_zoom. pose proof (serves_now s R W K (a :: Q) [] R P S) as Hnow.
    destruct (prepend_all_serves (objs s) (policy cfg) _ K q (a :: Q) (policy cfg)
      (proj1 (Hnow _ _ I) (co_skipped I)) (proj1 (Hnow _ _ I) Hq)) as (q' & Hr & Hs).
    unfold wp. rewrite Hr. split; [done|].
    match type of Hs with serves _ _ _ ?x => exists x; set (K' := x) in * end.
    assert (HK : K' ≡ₚ K ++ a :: Q).
    { unfold K'. destruct (policy cfg).
      - rewrite reverse_Permutation. solve_Permutation.
      - clear. revert K. induction (a :: Q) as [|b l IH]; intros K; [by rewrite app_nil_r|]. cbn [foldl]. rewrite IH, insert_by_perm.
        solve_Permutation. }
    split; [done|]. apply Hcore; [done|]. by apply (Hnow _ _ I).
Qed.

Lemma schedule_waiting_ok grammar_ready s st R W K P S L :
  run_inv s st R W K P S L ->
  wp (schedule_waiting cfg grammar_ready st) (fun st' s' => exists R' W' K' N S',
    planned s' st' R' W' K' L N P S' /\ R' ++ W' ++ K' ≡ₚ R ++ W ++ K) s.
Proof.
  intros [J1 J2 J3 J4 [J5 J5'] [J6 J6'] J7 J8 J9 [J10 J11] J12 J13]. unfold schedule_waiting. apply wp_bind, wp_get.
  assert (Hplan : exists R' W' K' N S', planned s st R' W' K' L N P S' /\ R' ++ W' ++ K' ≡ₚ R ++ W ++ K).
  { exists R, W, K, [], S. split; [|done]. constructor; rewrite ?app_nil_r; try done; [by rewrite J5, J5'| | |].
    - rewrite J5'. set_solver.
    - set_solver.
    - intros x Hx _. by apply J8. }
  rewrite J6. destruct P as [|p P]; [|by apply wp_ret]. destruct (decide _); [|by apply wp_ret].
  assert (Hq : serves objs0 (policy cfg) (create_request_queue (policy cfg)) []).
  { destruct (policy cfg); [done|]. split; [|by split; [|constructor]]. intros j x y _ _ Hx. by apply lookup_nil_Some in Hx || done. }
  apply wp_bind. eapply wp_mono.
  { apply (waiting_loop_ok grammar_ready _ s _ R W K [] L [] S).
    - constructor; rewrite ?app_nil_r; try done.
      + destruct J3. by constructor.
      + simpl. by rewrite J5, J5'.
      + simpl. rewrite J5'. set_solver.
      + intros x Hx. destruct (J13 x Hx) as [[]%elem_of_nil|?]; done.
      + intros x Hx _. by apply J8.
    - rewrite (len_serves objs0 _ _ _ (co_waiting J1)), (len_serves objs0 _ _ _ (co_skipped J1)). lia. }
  intros st1 s1 (R1 & W1 & K1 & Q1 & N1 & S1 & [I1 I2 I3 I4 I5 I6 I7 I8 I9 I10 I11 I12] & HP & _).
  apply wp_bind. eapply wp_mono; [by eapply requeue_ok|]. intros _ s2 ((Eo & Er & _) & K2 & HK & I1'). apply wp_ret.
  exists R1, W1, K2, N1, S1. split; [|by rewrite HK, HP, app_nil_r]. constructor; try done; [congruence| | | |].
  - apply (step_inv_env s1 s2 S1 S1); [done|]. by rewrite Eo.
  - split; [done|]. set_solver.
  - intros x Hx. apply I11. set_solver.
  - by rewrite Eo.
Qed.

Lemma check_step_ok s st R W K L N P S :
  planned s st R W K L N P S -> B0 <= max_num_scheduled_tokens cfg -> wp (check_step cfg st) (fun _ s' => s' = s) s.
Proof.
  intros [J1 J2 J3 [J4 J4'] J5 J6 J7 J8 J9] HB. unfold check_step. apply wp_bind, wp_get.
  pose proof (si_budget J3). pose proof (si_pos J3).
  apply wp_bind, wp_assert; [apply Z.leb_le; lia|]. apply wp_bind, wp_assert; [by apply Z.leb_le|].
  rewrite J2. apply wp_bind, wp_assert; [by apply Z.leb_le|]. apply wp_assert; [|done]. apply Z.leb_le. rewrite J5.
  apply Permutation_length in J6. rewrite length_app in J6.
  assert (Hle : (length (L ++ N) <= length R)%nat) by (by apply submseteq_length, NoDup_submseteq).
  rewrite length_app in Hle. lia.
Qed.

(** The output is built without an exception. *)
Lemma common_prefix_ok s R W K P S :
  core s R W K [] [] R P S -> running s = R ->
  wp (common_prefix_blocks cfg) (fun _ s' => exists k', s' = set_kv_cache_manager k' s /\ core s' R W K [] [] R P S) s.
Proof.
  intros I ER. unfold common_prefix_blocks. apply wp_bind, wp_get. rewrite ER. destruct R as [|r R].
  - apply wp_ret. exists (kv_cache_manager s). assert (E : set_kv_cache_manager (kv_cache_manager s) s = s) by (by destruct s).
    by rewrite E.
  - apply wp_zoom. eapply wp_mono; [apply (slots_common _ S); [apply I|]|].
    + rewrite (core_id I). destruct (co_run I r ltac:(by left)) as (_ & _ & _ & m & -> & _). by eexists.
    + intros l k' Hk'. exists k'. split; [done|]. by apply core_kv_same.
Qed.

Lemma new_data_ok {prev} s R W K H D P S st X l :
  core_at (prev:=prev) s R W K [] H D P S -> step_inv s S st X -> (forall r, r ∈ l -> r ∈ X) ->
  wp (map_m (make_new_request_data cfg st) l) (fun _ s' => s' = s) s.
Proof.
  intros I St. induction l as [|r l IH]; intros Hl; [done|]. cbn [map_m]. apply wp_bind.
  destruct (od_get_key (req_to_new_blocks st) X r (si_blocks_keys St) ltac:(apply Hl; by left)) as [b Hb].
  unfold make_new_request_data at 1. apply wp_bind, wp_obj, wp_bind. rewrite (core_id I).
  apply (wp_of_option _ _ b); [done|]. apply wp_ret, wp_bind.
  eapply wp_mono; [apply IH; set_solver|]. intros a s' ->. by apply wp_ret.
Qed.

Lemma cached_data_ok s R W K H D P S st X running_reqs resumed_reqs :
  core s R W K [] H D P S -> step_inv s S st X -> (forall r, r ∈ running_reqs ++ resumed_reqs -> r ∈ X) ->
  (forall r, r ∈ resumed_reqs -> idof r ∉ prev0) ->
  wp (make_cached_request_data cfg running_reqs resumed_reqs st) (fun _ s' => s' = s) s.
Proof.
  intros I St HX Hres. unfold make_cached_request_data. cbv zeta. set (reqs := running_reqs ++ resumed_reqs) in *.
  apply (wp_for_fold (fun _ _ _ s' => s' = s)); [done|]. intros l1 [i r] l2 d s' E ->.
  assert (Hir : zip (seq 0 (length reqs)) reqs !! length l1 = Some (i, r)) by (rewrite E; by apply list_lookup_middle).
  apply lookup_zip_with_Some in Hir as (i' & r' & [= -> ->] & Hi & Hr). apply lookup_seq in Hi as [-> _]. cbn [Nat.add].
  assert (HrX : r' ∈ X) by (apply HX; by eapply list_elem_of_lookup_2).
  destruct (od_get_key (req_to_new_blocks st) X r' (si_blocks_keys St) HrX) as [b Hb].
  destruct (od_get_key (num_scheduled_tokens st) X r' (si_counts_keys St) HrX) as [n Hn].
  unfold cached_request_data_one. apply wp_bind, wp_get. cbn [fst snd]. rewrite (core_id I). apply wp_bind.
  assert (Htoks : wp (if send_token_ids cfg then
            n ← of_option KeyError (od_get (idof r') (num_scheduled_tokens st));
            let num_tokens := n - zlen (default [] (od_get (idof r') (scheduled_spec_decode_tokens st))) in
            mret [slice (Z.to_nat (num_computed_tokens (objs s r'))) (Z.to_nat (num_computed_tokens (objs s r') + num_tokens))
                    (all_token_ids (objs s r'))]
          else mret []) (fun _ s' => s' = s) s).
  { destruct (send_token_ids cfg); [|by apply wp_ret]. apply wp_bind, (wp_of_option _ _ n); [done|]. by apply wp_ret. }
  eapply wp_mono; [exact Htoks|]. clear Htoks. intros toks s' ->. apply wp_bind.
  assert (Has : wp (if (length running_reqs <=? length l1)%nat
      then assert_ (negb (bool_decide (idof r' ∈ prev_step_scheduled_req_ids s))) else mret tt) (fun _ s' => s' = s) s).
  { destruct (Nat.leb_spec (length running_reqs) (length l1)) as [Hle|]; [|by apply wp_ret]. apply wp_assert; [|done].
    rewrite (co_prev I). apply negb_true_iff, bool_decide_eq_false, Hres.
    unfold reqs in Hr. rewrite lookup_app_r in Hr by done. by eapply list_elem_of_lookup_2. }
  eapply wp_mono; [exact Has|]. intros _ s' ->. apply wp_bind, (wp_of_option _ _ b); [done|]. by apply wp_ret.
Qed.

(** The ids of this step replace those of the last. *)
Lemma core_next s R W K P S st X :
  core s R W K [] [] R P S -> step_inv s S st X -> (forall r, r ∈ X -> r ∈ R) ->
  core_at (prev:=list_to_set (num_scheduled_tokens st).*1)
    (set_prev_step_scheduled_req_ids (list_to_set (num_scheduled_tokens st).*1) s) R W K [] [] R P S.
Proof.
  intros I St HX. pose proof (core_nodup I) as Hn. pose proof (core_in I) as Hin. destruct I. constructor; try done.
  intros r Hr _. right. intros Hk%elem_of_list_to_set. rewrite (si_counts_keys St) in Hk.
  apply list_elem_of_fmap in Hk as (x & E & Hx). apply list.NoDup_app in Hn as (_ & Hd & _).
  apply HX in Hx as HxR. assert (r = x) as ->.
  { apply id_inj; [|by apply Hin; left|done]. apply Hin. set_solver. }
  apply (Hd x HxR). set_solver.
Qed.

Record output_of (s : State) (st : Step) (o : SchedulerOutput) (s' : State) : Prop := {
  oo_objs : objs s' = objs s;
  oo_running : running s' = running s;
  oo_counts : out_num_scheduled_tokens o = num_scheduled_tokens st;
  oo_total : total_num_scheduled_tokens o = zsum (num_scheduled_tokens st).*2;
  oo_spec : out_spec_decode_tokens o = scheduled_spec_decode_tokens st;
  oo_preempted : preempted_req_ids o = list_to_set ((fun r => request_id (objs s r)) <$> preempted_reqs st)
}.

Lemma make_output_ok s st R W K L N P S :
  planned s st R W K L N P S ->
  wp (make_output cfg st) (fun o s' => output_of s st o s' /\
    core_at (prev:=list_to_set (num_scheduled_tokens st).*1) s' R W K [] [] R P S) s.
Proof.
  intros [J1 J2 J3 [J4 J4'] J5 J6 J7 J8 J9 _ _]. unfold make_output. apply wp_bind.
  eapply wp_mono; [by eapply common_prefix_ok|]. intros common s1 (k1 & -> & I1). cbv zeta. set (s1 := set_kv_cache_manager k1 s) in *.
  assert (St1 : step_inv s1 S st (L ++ N)) by (by apply (step_inv_env s _ S S)).
  assert (HN : forall r, r ∈ scheduled_new_reqs st \/ r ∈ scheduled_resumed_reqs st -> r ∈ L ++ N).
  { intros r Hr. apply elem_of_app. right. rewrite <- J6. by apply elem_of_app. }
  apply wp_bind. eapply wp_mono; [eapply (new_data_ok s1); [exact I1|exact St1|]|].
  { intros r Hr. apply HN. destruct (use_v2_model_runner cfg); [by apply elem_of_app in Hr|by left]. }
  intros nd s' ->. apply wp_bind. eapply wp_mono; [eapply (cached_data_ok s1); [exact I1|exact St1| |]|].
  { intros r [Hr|Hr]%elem_of_app; [rewrite J5 in Hr; set_solver|]. apply HN. right.
    destruct (use_v2_model_runner cfg); [by apply elem_of_nil in Hr|done]. }
  { intros r Hr. apply J7. destruct (use_v2_model_runner cfg); [by apply elem_of_nil in Hr|done]. }
  intros cd s' ->. apply wp_bind, wp_modify. cbn beta.
  pose proof (core_next _ _ _ _ _ _ _ _ I1 St1 J4') as I2. set (s2 := set_prev_step_scheduled_req_ids _ s1) in *.
  apply wp_bind. apply (wp_mono _ (fun _ s' => core_at (prev:=list_to_set (num_scheduled_tokens st).*1) s' R W K [] [] R P S /\
    objs s' = objs s /\ running s' = running s)).
  { destruct (needs_kv_cache_zeroing cfg); [|by apply wp_ret]. apply wp_bind, wp_zoom.
    eapply wp_mono; [apply (slots_take_ids _ S), I2|]. intros ids k' Hk'. apply wp_ret. split; [by apply core_kv_same|done]. }
  intros zero s3 (I3 & Eo & Er). apply wp_bind, wp_zoom. apply wp_bind, wp_get, wp_bind, wp_modify, wp_ret.
  cbn beta. apply wp_bind, wp_get, wp_ret. split; [by constructor; simpl; rewrite ?Eo|]. 
  apply (core_ec I3); [|apply (co_ids I3)].
  destruct (co_enc I3). by constructor.
Qed.

(** ** Advancing the computed tokens *)

Definition same_counts (o o' : SchedulerOutput) : Prop :=
  out_num_scheduled_tokens o' = out_num_scheduled_tokens o /\ total_num_scheduled_tokens o' = total_num_scheduled_tokens o /\
  preempted_req_ids o' = preempted_req_ids o /\ out_spec_decode_tokens o' = out_spec_decode_tokens o.
Lemma same_counts_trans o1 o2 o3 : same_counts o1 o2 -> same_counts o2 o3 -> same_counts o1 o3.
Proof. intros (A1 & A2 & A3 & A4) (B1 & B2 & B3 & B4). unfold same_counts. by rewrite B1, B2, B3, B4. Qed.

(** [l]: the entries that have been processed. *)
Record advanced {prev} (s : State) (R W K P : list Z) (S : gmap string Z) (l : list (string * Z)) (s' : State) : Prop := {
  ad_core : core_at (prev:=prev) s' R W K [] [] R P S;
  ad_running : running s' = running s;
  ad_placeholders : async_scheduling cfg = false -> forall r, num_output_placeholders (objs s' r) = num_output_placeholders (objs s r);
  ad_tokens : forall r, r ∈ R ->
    num_computed_tokens (objs s' r) = num_computed_tokens (objs s r) + default 0 (od_get (idof r) l)
}.

Lemma core_obj_run {prev} s R W K P S r f :
  core_at (prev:=prev) s R W K [] [] R P S -> r ∈ R -> static (f (objs s r)) = static (objs s r) ->
  prefill_stats (f (objs s r)) = prefill_stats (objs s r) -> run_ok (f (objs s r)) (S !! idof r) ->
  core_at (prev:=prev) (set_objs (<[r := f (objs s r)]> (objs s)) s) R W K [] [] R P S.
Proof.
  intros I Hr H1 H2 H3. pose proof (core_nodup I) as Hnd. apply list.NoDup_app in Hnd as (_ & Hd & _).
  apply (core_obj I r f); [done|by rewrite H2|done|intros Hx|by rewrite (proj1 H3)]. destruct (Hd r Hr). set_solver.
Qed.

Lemma update_one_ok {prev} s R W K P S l s' o id n r :
  advanced (prev:=prev) s R W K P S l s' -> id ∉ l.*1 -> r ∈ R -> idof r = id -> count_ok s S r n ->
  wp (update_one o (id, n)) (fun o' s'' => advanced (prev:=prev) s R W K P S (l ++ [(id, n)]) s'' /\
    same_counts o o') s'.
Proof.
  intros [I ER Hph0 Htok] Hid Hr Eid (Hn & Hlen & m & Hm & Hcm). assert (Ha : r ∈ all) by (apply (core_in I); by left).
  assert (Hc : num_computed_tokens (objs s' r) = num_computed_tokens (objs s r)).
  { rewrite Htok by done. rewrite Eid, (proj2 (od_get_none _ _) Hid). simpl. lia. }
  rewrite <- Hc in Hlen, Hcm.
  unfold update_one. apply wp_bind, wp_get, wp_bind. cbn [fst snd]. rewrite (co_requests I).
  apply (wp_of_option _ _ r); [by apply Hmap|]. apply wp_bind, wp_modify. cbn beta.
  destruct (co_run I r Hr) as (Hst & Hph & Hc0 & _).
  pose proof (core_obj_run s' _ _ _ _ _ r (fun q => set_num_computed_tokens (num_computed_tokens q + n) q) I Hr eq_refl eq_refl) as I1.
  cbn beta in I1. specialize (I1 ltac:(split; [done|]; split; [done|]; simpl; split; [lia|]; by exists m)).
  match type of I1 with core_at ?x _ _ _ _ _ _ _ _ => set (s1 := x) in * end.
  assert (E1 : objs s1 r = set_num_computed_tokens (num_computed_tokens (objs s' r) + n) (objs s' r)) by apply fn_lookup_insert.
  apply wp_bind, wp_modify. cbn beta.
  pose proof (core_obj_run s1 _ _ _ _ _ r (fun q => set_is_prefill_chunk (num_computed_tokens q <? num_tokens q + num_output_placeholders q) q) I1 Hr eq_refl eq_refl) as I2.
  cbn beta in I2. specialize (I2 (co_run I1 r Hr)).
  match type of I2 with core_at ?x _ _ _ _ _ _ _ _ => set (s2 := x) in * end.
  assert (Hadv : forall infl, advanced (prev:=prev) s R W K P S (l ++ [(id, n)]) (set_inflight_prefills infl s2)).
  { intros infl. constructor; [|done|..].
    - destruct I2. by constructor.
    - intros Hs x. rewrite <- Hph0 by done. simpl. destruct (decide (x = r)) as [->|Hxr]; [by rewrite !fn_lookup_insert|].
      by rewrite !fn_lookup_insert_ne.
    - intros x Hx. rewrite <- od_set_new, od_get_map, od_set_map by done. simpl. destruct (decide (x = r)) as [->|Hxr].
      + rewrite !fn_lookup_insert, Eid, lookup_insert_eq. simpl. lia.
      + rewrite !fn_lookup_insert_ne by done. rewrite lookup_insert_ne, <- od_get_map; [by apply Htok|].
        rewrite <- Eid. intros E. apply Hxr. symmetry. apply id_inj; [done| |done]. apply (core_in I). by left. }
  apply wp_bind, wp_obj, wp_bind. destruct (is_prefill_chunk (objs s2 r)).
  - apply wp_ret, wp_ret. split; [|done]. specialize (Hadv (inflight_prefills s2)). by destruct s2.
  - apply wp_modify, wp_ret. split; [|done]. apply Hadv.
Qed.

Lemma update_one_async_ok {prev} s R W K P S l s' o id n r :
  advanced (prev:=prev) s R W K P S l s' -> r ∈ R -> idof r = id -> async_scheduling cfg = true ->
  wp (update_one_async cfg o (id, n)) (fun o' s'' => advanced (prev:=prev) s R W K P S l s'' /\
    same_counts o o') s'.
Proof.
  intros [I ER Hph0 Htok] Hr Eid Hasync. assert (Ha : r ∈ all) by (apply (core_in I); by left).
  unfold update_one_async. apply wp_bind, wp_get, wp_bind. cbn [fst snd]. rewrite (co_requests I).
  apply (wp_of_option _ _ r); [by apply Hmap|]. apply wp_bind, wp_obj.
  destruct (is_prefill_chunk (objs s' r)); [by apply wp_ret|]. cbv zeta.
  set (k := zlen (default [] (od_get id (out_spec_decode_tokens o)))).
  destruct (co_run I r Hr) as (Hst & Hph & Hc). pose proof (cfg_sampled _ C) as H0.
  set (f := fun q => set_spec_token_ids (replicate (Z.to_nat (num_spec_tokens cfg)) (-1))
      (set_num_output_placeholders (num_output_placeholders q + (num_sampled_tokens_per_step cfg + k)) q)).
  pose proof (core_obj_run s' _ _ _ _ _ r f I Hr eq_refl eq_refl 
    ltac:(split; [done|]; split; [split; [destruct Hph; simpl; lia|by rewrite Hasync]|]; done)) as I1.
  assert (Hadv : forall (s1 : State), core_at (prev:=prev) s1 R W K [] [] R P S -> running s1 = running s' ->
    (forall x, num_computed_tokens (objs s1 x) = num_computed_tokens (objs s' x)) -> advanced (prev:=prev) s R W K P S l s1).
  { intros s1 I' E1 E2. constructor; [done|congruence|congruence|]. intros x Hx. rewrite E2. by apply Htok. }
  match type of I1 with core_at ?x _ _ _ _ _ _ _ _ => set (s1 := x) in * end.
  assert (E1 : forall x, num_computed_tokens (objs s1 x) = num_computed_tokens (objs s' x)).
  { intros x. simpl. destruct (decide (x = r)) as [->|]; [by rewrite fn_lookup_insert|by rewrite fn_lookup_insert_ne]. }
  apply wp_bind, wp_modify. change (set_objs _ s') with s1. cbn beta. apply wp_bind. destruct (use_v2_model_runner cfg).
  - apply wp_modify, wp_ret. split; [|done]. apply Hadv; [|done|].
    + apply (core_obj_run s1 _ _ _ _ _ r (fun q => set_next_decode_eligible_step (current_step s1 + pp_size cfg) q) I1 Hr eq_refl eq_refl).
      apply (co_run I1 r Hr).
    + intros x. rewrite <- E1. simpl. destruct (decide (x = r)) as [->|]; [by rewrite !fn_lookup_insert|by rewrite !fn_lookup_insert_ne].
  - apply wp_ret, wp_ret. split; [|done]. by apply Hadv.
Qed.

Lemma update_after_schedule_ok {prev} s R W K P S st X o :
  core_at (prev:=prev) s R W K [] [] R P S -> step_inv s S st X -> (forall r, r ∈ X -> r ∈ R) -> NoDup X ->
  out_num_scheduled_tokens o = num_scheduled_tokens st ->
  wp (update_after_schedule cfg o) (fun o' s' => advanced (prev:=prev) s R W K P S (num_scheduled_tokens st) s' /\ same_counts o o') s.
Proof.
  intros I St HX HnX Eo. unfold update_after_schedule. rewrite Eo. set (cs := num_scheduled_tokens st).
  assert (HXa : forall x, x ∈ X -> x ∈ all) by (intros x Hx; apply (core_in I); left; by apply HX).
  assert (Hk : NoDup cs.*1) by (unfold cs; rewrite (si_counts_keys St); by apply ids_nodup).
  assert (Hreq : forall id n, (id, n) ∈ cs -> exists r, r ∈ R /\ idof r = id /\ count_ok s S r n).
  { intros id n He. assert (Hid : id ∈ cs.*1) by (apply list_elem_of_fmap; by exists (id, n)).
    unfold cs in Hid. rewrite (si_counts_keys St) in Hid. apply list_elem_of_fmap in Hid as (r & -> & Hr).
    exists r. split; [by apply HX|]. split; [done|]. apply (si_counts St); [done|]. by apply od_get_elem. }
  apply wp_bind. eapply wp_mono.
  { apply (wp_for_fold (fun l1 _ o' s' => advanced (prev:=prev) s R W K P S l1 s' /\ same_counts o o')).
    - split; [|done]. constructor; [done..|]. intros r Hr. simpl. lia.
    - intros l1 [id n] l2 o' s' E [A Ho]. destruct (Hreq id n) as (r & Hr & Eid & Hc); [rewrite E; set_solver|].
      eapply wp_mono; [apply (update_one_ok s R W K P S l1 s' o' id n r A)|]; try done.
      + rewrite E, fmap_app in Hk. apply list.NoDup_app in Hk as (_ & Hd & _). intros Hx. apply (Hd id Hx). simpl. by left.
      + intros o2 s2 (A2 & Ho2). split; [done|]. by eapply same_counts_trans. }
  intros o1 s1 [A1 Ho1]. apply wp_bind, wp_modify. cbn beta. set (s2 := set_finished_req_ids ∅ s1).
  assert (A2 : advanced (prev:=prev) s R W K P S cs s2) by (destruct A1 as [I1 ? ? ?]; constructor; [by destruct I1; constructor|done..]).
  destruct (async_scheduling cfg) eqn:Easync; [|by apply wp_ret]. rewrite (proj1 Ho1), Eo. fold cs.
  eapply wp_mono.
  { apply (wp_for_fold (fun _ _ o' s' => advanced (prev:=prev) s R W K P S cs s' /\ same_counts o o')); [done|].
    intros l1 [id n] l2 o' s' E [A Ho]. destruct (Hreq id n) as (r & Hr & Eid & _); [rewrite E; set_solver|].
    eapply wp_mono; [by eapply (update_one_async_ok s R W K P S cs s' o' id n r)|].
    intros o2 s3 (A3 & Ho2). split; [done|]. by eapply same_counts_trans. }
  done.
Qed.

(** ** The whole step *)

Record step_facts (s : State) (R W K : list Z) (o : SchedulerOutput) (s' : State) (R' W' K' P : list Z) (S' : gmap string Z)
    : Prop := {
  sf_core : core_at (prev:=list_to_set (out_num_scheduled_tokens o).*1) s' R' W' K' [] [] R' P S';
  sf_running : running s' = R';
  sf_max : zlen R' <= max_num_running_reqs cfg;
  sf_perm : R' ++ W' ++ K' ≡ₚ R ++ W ++ K;
  sf_keys : NoDup (out_num_scheduled_tokens o).*1;
  sf_counts : forall id n, (id, n) ∈ out_num_scheduled_tokens o -> 0 < n /\ exists r, r ∈ R' /\ idof r = id;
  sf_budget : zsum (out_num_scheduled_tokens o).*2 <= B0;
  sf_total : total_num_scheduled_tokens o = zsum (out_num_scheduled_tokens o).*2;
  sf_preempted : forall id, id ∈ preempted_req_ids o -> exists r, r ∈ W' /\ idof r = id;
  sf_advanced : forall r, r ∈ R' -> status (objs0 r) = RUNNING ->
    num_computed_tokens (objs s' r) = num_computed_tokens (objs0 r) + default 0 (od_get (idof r) (out_num_scheduled_tokens o));
  sf_new : forall r, r ∈ R' -> status (objs0 r) <> RUNNING -> idof r ∈ (out_num_scheduled_tokens o).*1;
  sf_drafts : async_scheduling cfg = false -> forall r, r ∈ R' -> idof r ∈ (out_num_scheduled_tokens o).*1 ->
    draft_ok (objs s' r) 0 (zlen (default [] (od_get (idof r) (out_spec_decode_tokens o))))
}.

Lemma schedule_ok grammar_ready s R W K S :
  core s R W K [] [] R [] S -> running s = R -> (forall r, objs s r = objs0 r) -> zlen R <= max_num_running_reqs cfg ->
  (forall r, r ∈ R -> caught (objs0 r)) -> B0 = token_budget (initial_step cfg s) ->
  wp (schedule cfg grammar_ready) (fun o s' => exists R' W' K' P S', step_facts s R W K o s' R' W' K' P S') s.
Proof.
  intros I ER Eo Hmax Hca HB. unfold schedule. apply wp_bind, wp_modify. cbn beta.
  set (s0 := set_current_step _ s). assert (I0 : core s0 R W K [] [] R [] S) by (destruct I; by constructor).
  apply wp_bind, wp_zoom. eapply wp_mono; [apply (slots_new_step _ S), I0|]. intros [] k' Hk'. set (s1 := set_kv_cache_manager k' s0).
  assert (I1 : core s1 R W K [] [] R [] S) by (by apply core_kv_same). apply wp_bind, wp_get.
  change (initial_step cfg s1) with (initial_step cfg s). change (running s1) with (running s). rewrite ER.
  assert (HB0 : 0 <= B0 <= max_num_scheduled_tokens cfg).
  { rewrite HB. pose proof (cfg_tokens _ C). simpl. destruct (decide _); lia. }
  assert (Ho1 : forall r, objs s1 r = objs0 r) by exact Eo.
  assert (Hr : run_inv s1 (initial_step cfg s) R W K [] S []).
  { constructor; try done.
    - constructor; simpl; try done; simpl in HB; unfold zsum; simpl; lia.
    - split; [done|]. set_solver.
    - intros r Hr. rewrite Ho1. split; [|done]. rewrite <- Ho1. by apply (co_run I1).
    - split; [constructor|set_solver].
    - intros r Hr. right. destruct (co_wait I1 r) as [Hst _]; [set_solver|]. rewrite Ho1 in Hst.
      destruct Hst as [E|[E|E]]; by rewrite E. }
  apply wp_bind. eapply wp_mono.
  { apply (running_loop_ok _ s1 _ R W K [] S [] 0 Hr); [|lia]. exists [], R. split; [done|]. split; [constructor|done]. }
  intros st2 s2 (R2 & W2 & P2 & L2 & S2 & I2 & HP2). apply wp_bind. unfold record_loras. rewrite (cfg_no_loras _ C). apply wp_ret.
  apply wp_bind. eapply wp_mono; [by eapply schedule_waiting_ok|].
  intros st3 s3 (R3 & W3 & K3 & N3 & S3 & I3 & HP3). apply wp_bind. eapply wp_mono; [eapply check_step_ok; [exact I3|lia]|].
  intros [] s' ->. apply wp_bind. eapply wp_mono; [by eapply make_output_ok|].
  intros o s4 ([O1 O2 O3 O4 O6 O5] & I4).
  destruct I3 as [J1 J2 J3 [J4 J4'] J5 J6 J7 [J8 J8'] J9 J10 J11].
  assert (St4 : step_inv s4 S3 st3 (L2 ++ N3)) by (apply (step_inv_env s3 s4 S3 S3); [done|by rewrite O1]).
  eapply wp_mono; [by eapply update_after_schedule_ok|]. intros o' s5 ([I5 E5 P5 A5] & F1 & F2 & F3 & F4).
  exists R3, W3, K3, P2, S3. rewrite O3 in F1. rewrite O4 in F2. rewrite O5, J8 in F3. rewrite O6 in F4. constructor; rewrite ?F1, ?F4; try done.
  - by rewrite E5, O2.
  - by rewrite HP3, !app_assoc, HP2.
  - rewrite (si_counts_keys J3). apply ids_nodup; [done|]. intros x Hx. apply (core_in I4). left. by apply J4'.
  - intros id n He. assert (Hid : id ∈ (num_scheduled_tokens st3).*1) by (apply list_elem_of_fmap; by exists (id, n)).
    rewrite (si_counts_keys J3) in Hid. apply list_elem_of_fmap in Hid as (r & -> & Hx). split; [|exists r; auto].
    destruct (si_counts J3 r n Hx) as [? _]; [|done]. apply od_get_elem; [|done].
    rewrite (si_counts_keys J3). apply ids_nodup; [done|]. intros x Hx'. apply (core_in I4). left. by apply J4'.
  - pose proof (si_budget J3). pose proof (si_pos J3). lia.
  - intros id. rewrite F3, elem_of_list_to_set. intros (r & -> & Hx)%list_elem_of_fmap. exists r.
    split; [by apply J8'|]. symmetry. apply (core_id J1).
  - intros r Hx Hrun. rewrite A5 by done. rewrite O1. rewrite (proj2 (J11 r Hx ltac:(intros HN; by apply (J10 r HN)))). done.
  - intros r Hx Hst. rewrite (si_counts_keys J3). apply list_elem_of_fmap. exists r. split; [done|]. apply elem_of_app. right.
    destruct (decide (r ∈ N3)) as [|HN]; [done|]. by destruct (J11 r Hx HN).
  - intros Hs r Hx Hid. rewrite (si_counts_keys J3) in Hid. apply list_elem_of_fmap in Hid as (x & E & Hx').
    assert (r = x) as <-.
    { apply id_inj; [apply (core_in I4); by left|apply (core_in I4); left; by apply J4'|done]. }
    destruct (od_get_key (num_scheduled_tokens st3) _ r (si_counts_keys J3) Hx') as [n Hn].
    pose proof (si_drafts St4 r n Hx' Hn) as Hd. unfold draft_ok, drafts_of in *. rewrite P5, A5, Hn by done. cbn [default].
    destruct (static_eq _ _ (co_static I5 r)) as (_ & _ & _ & _ & T5 & _).
    destruct (static_eq _ _ (co_static I4 r)) as (_ & _ & _ & _ & T4 & _). unfold num_tokens in *. rewrite T5, <- T4, Z.add_0_r. exact Hd.
Qed.

End step.

(** ** The theorem *)

#[local] Arguments co_static {KV SM cfg SC sz all objs0 rmap prev s R W K Q H D P S} _.
#[local] Arguments co_requests {KV SM cfg SC sz all objs0 rmap prev s R W K Q H D P S} _.
#[local] Arguments co_perm {KV SM cfg SC sz all objs0 rmap prev s R W K Q H D P S} _.
#[local] Arguments co_waiting {KV SM cfg SC sz all objs0 rmap prev s R W K Q H D P S} _.
#[local] Arguments co_skipped {KV SM cfg SC sz all objs0 rmap prev s R W K Q H D P S} _.
#[local] Arguments co_run {KV SM cfg SC sz all objs0 rmap prev s R W K Q H D P S} _.
#[local] Arguments co_wait {KV SM cfg SC sz all objs0 rmap prev s R W K Q H D P S} _.
#[local] Arguments co_slots {KV SM cfg SC sz all objs0 rmap prev s R W K Q H D P S} _.
#[local] Arguments co_dom {KV SM cfg SC sz all objs0 rmap prev s R W K Q H D P S} _.
#[local] Arguments co_enc {KV SM cfg SC sz all objs0 rmap prev s R W K Q H D P S} _.
#[local] Arguments co_ids {KV SM cfg SC sz all objs0 rmap prev s R W K Q H D P S} _.
#[local] Arguments co_prefill {KV SM cfg SC sz all objs0 rmap prev s R W K Q H D P S} _.
#[local] Arguments co_prev {KV SM cfg SC sz all objs0 rmap prev s R W K Q H D P S} _.
#[local] Arguments co_preempted {KV SM cfg SC sz all objs0 rmap prev s R W K Q H D P S} _.

Section theorem.
Context {KV : Type} {SM : SlotManager KV} (cfg : SchedulerConfig) {SC : SlotContract cfg KV}.
Context (order : gset Z -> list Z) (sz : string -> Z).
#[local] Notation EC := EncoderCache.EncoderCacheManager.
#[local] Existing Instance ecm.
#[local] Notation State := (SchedulerState.Scheduler KV EC).

(** The state between steps: every unfinished request is in exactly one of the
    running list [R] and the two queues [W] and [K], the running ones and no
    others hold slots, for at least the tokens computed, and the encoder cache
    references inputs of these requests only. *)
Record sched_ok (s : State) (R W K : list Z) (S : gmap string Z) : Prop := {
  sk_nodup : NoDup (R ++ W ++ K);
  sk_requests : forall id r, requests s !! id = Some r <-> r ∈ R ++ W ++ K /\ request_id (objs s r) = id;
  sk_ok : forall r, r ∈ R ++ W ++ K -> request_ok cfg sz (objs s r);
  sk_running : running s = R;
  sk_max : zlen R <= max_num_running_reqs cfg;
  sk_waiting : serves (objs s) (policy cfg) (waiting s) W;
  sk_skipped : serves (objs s) (policy cfg) (skipped_waiting s) K;
  sk_run : forall r, r ∈ R -> run_ok cfg (objs s r) (S !! request_id (objs s r));
  sk_wait : forall r, r ∈ W ++ K -> wait_ok cfg (objs s r);
  sk_slots : slots_rep (kv_cache_manager s) S;
  sk_dom : forall id, is_Some (S !! id) -> exists r, r ∈ R /\ request_id (objs s r) = id;
  sk_enc : ec_inv sz (encoder_cache_manager s);
  sk_inputs : forall id i, i ∈ default ∅ (EncoderCache.request_cached_ids (encoder_cache_manager s) !! id) ->
    exists r, r ∈ R ++ W ++ K /\ request_id (objs s r) = id /\ valid_input (objs s r) i;
  sk_prefill : forall r, r ∈ R ++ W ++ K -> is_Some (prefill_stats (objs s r)) ->
    num_tokens (objs s r) <= num_prompt_tokens (objs s r);
  sk_prev : forall r, r ∈ W ++ K -> status (objs s r) = PREEMPTED -> request_id (objs s r) ∉ prev_step_scheduled_req_ids s
}.

(** What a step does. *)
Record step_done (s : State) (R W K : list Z) (o : SchedulerOutput) (s' : State) (R' W' K' : list Z) (S' : gmap string Z)
    : Prop := {
  sd_ok : sched_ok s' R' W' K' S';
  sd_perm : R' ++ W' ++ K' ≡ₚ R ++ W ++ K;
  sd_static : forall r, static (objs s' r) = static (objs s r);
  sd_keys : NoDup (out_num_scheduled_tokens o).*1;
  sd_counts : forall id n, (id, n) ∈ out_num_scheduled_tokens o ->
    0 < n /\ exists r, r ∈ R' /\ request_id (objs s r) = id;
  sd_budget : zsum (out_num_scheduled_tokens o).*2 <=
    (if decide (pause_state s = PAUSED_ALL) then 0 else max_num_scheduled_tokens cfg);
  sd_total : total_num_scheduled_tokens o = zsum (out_num_scheduled_tokens o).*2;
  sd_preempted : forall id, id ∈ preempted_req_ids o -> exists r, r ∈ W' /\ request_id (objs s r) = id;
  sd_advanced : forall r, r ∈ R' -> r ∈ R ->
    num_computed_tokens (objs s' r) =
    num_computed_tokens (objs s r) + default 0 (od_get (request_id (objs s r)) (out_num_scheduled_tokens o));
  sd_new : forall r, r ∈ R' -> r ∉ R -> request_id (objs s r) ∈ (out_num_scheduled_tokens o).*1;
  sd_drafts : async_scheduling cfg = false -> forall r, r ∈ R' -> request_id (objs s r) ∈ (out_num_scheduled_tokens o).*1 ->
    draft_ok (objs s' r) 0 (zlen (default [] (od_get (request_id (objs s r)) (out_spec_decode_tokens o))))
}.

Lemma sched_ok_core s R W K S :
  sched_ok s R W K S ->
  core_at cfg sz (R ++ W ++ K) (objs s) (requests s) (prev:=prev_step_scheduled_req_ids s) s R W K [] [] R [] S.
Proof.
  intros [J1 J2 J3 J4 J5 J6 J7 J8 J9 J10 J11 J12 J13 J14 J15]. constructor; rewrite ?app_nil_r; try done.
  intros r Hr Hst. right. by apply J15.
Qed.

Lemma core_sched_ok objs0 rmap all prev s R W K P S :
  core_at cfg sz all objs0 rmap (prev:=prev) s R W K [] [] R P S -> running s = R -> zlen R <= max_num_running_reqs cfg ->
  NoDup all -> (forall id r, rmap !! id = Some r <-> r ∈ all /\ request_id (objs0 r) = id) ->
  (forall r, r ∈ all -> request_ok cfg sz (objs0 r)) ->
  (forall r, r ∈ W ++ K -> request_id (objs0 r) ∉ prev) -> sched_ok s R W K S.
Proof.
  intros I ER Hmax Hnd Hmap Hok Hprev.
  assert (Hid : forall r, request_id (objs s r) = request_id (objs0 r)) by (intros r; eapply core_id, I).
  assert (Hp : R ++ W ++ K ≡ₚ all) by (rewrite <- (co_perm I), !app_nil_r; done).
  assert (Hst : forall r, static (objs0 r) = static (objs s r)) by (intros r; by rewrite (co_static I r)).
  pose proof (co_wait I) as Hw. pose proof (co_ids I) as Hids. rewrite !app_nil_r in Hw.
  constructor; try done.
  - by rewrite Hp.
  - intros id r. by rewrite Hp, Hid, (co_requests I).
  - intros r. rewrite Hp. intros Hr. by eapply core_request.
  - eapply serves_ext; [exact Hst|]. apply (co_waiting I).
  - eapply serves_ext; [exact Hst|]. apply (co_skipped I).
  - intros r Hr. rewrite Hid. by apply (co_run I).
  - apply (co_slots I).
  - intros id Hs. setoid_rewrite Hid. by apply (co_dom I).
  - apply (co_enc I).
  - intros id i Hi. destruct (Hids id i Hi) as (r & Hr & E & Hv). exists r. rewrite Hp, Hid. split; [done|]. split; [done|].
    by eapply core_valid.
  - intros r. rewrite Hp. intros Hr Hpf. destruct (static_eq _ _ (co_static I r)) as (_ & _ & _ & _ & E1 & E2).
    unfold num_tokens. rewrite E1, E2. by apply (co_prefill I).
  - intros r Hr _. rewrite Hid, (co_prev I). by apply Hprev.
Qed.

(** A step from a state between steps. *)
Lemma schedule_step grammar_ready s R W K S :
  config_ok cfg -> (forall s i, i ∈ order s -> i ∈ s) -> (forall h, 0 <= sz h) ->
  sched_ok s R W K S -> (forall r, r ∈ R -> caught (objs s r)) ->
  exists o s' R' W' K' S', @schedule KV EC SM (ecm order) cfg grammar_ready s = (Ok o, s') /\
    step_done s R W K o s' R' W' K' S'.
Proof.
  intros C Horder Hsz I Hca. pose proof (sched_ok_core _ _ _ _ _ I) as Ic.
  destruct I as [J1 J2 J3 J4 J5 _ _ _ _ _ _ _ _ _ _].
  destruct (wp_returns _ _ _ (schedule_ok cfg C order Horder sz Hsz (R ++ W ++ K) (objs s) (requests s) J1 J2 J3
    (prev_step_scheduled_req_ids s) _ grammar_ready s R W K S Ic J4 (fun _ => eq_refl) J5 Hca eq_refl))
    as (o & s' & Hrun & R' & W' & K' & P & S' & [F1 F2 F3 F4 F5 F6 F7 F8 F9 F10 F11 F12]).
  exists o, s', R', W', K', S'. split; [exact Hrun|].
  assert (Hp : R' ++ W' ++ K' ≡ₚ R ++ W ++ K) by done.
  constructor; try done.
  - eapply core_sched_ok; try done. intros r Hr Hin%elem_of_list_to_set.
    apply list_elem_of_fmap in Hin as ([id n] & E & He). destruct (F6 id n He) as (_ & r' & Hr' & Er'). simpl in E.
    assert (r = r') as ->.
    { eapply id_inj; [exact J2| | |congruence]; rewrite <- Hp; set_solver. }
    rewrite <- Hp in J1. apply list.NoDup_app in J1 as (_ & Hd & _). by apply (Hd r').
  - intros r. apply (co_static F1).
  - intros r Hr HrR. apply F10; [done|]. by apply (co_run Ic).
  - intros r Hr HrR. apply F11; [done|]. assert (HWK : r ∈ W ++ K).
    { assert (Hin : r ∈ R' ++ W' ++ K') by set_solver. rewrite Hp in Hin. by apply elem_of_app in Hin as [?|?]. }
    destruct (co_wait Ic r ltac:(by rewrite app_nil_r)) as [[E|[E|E]] _]; by rewrite E.
Qed.
(** C3. A step of the scheduler is safe. For a decoder-only model without LoRAs,
    over any KV cache manager that keeps the contract, from any state between
    steps in which no running request has computed more tokens than it has:
    [schedule] returns, whatever the policy, the budgets, the lengths of the
    queues and the room left in both caches. No request is lost or duplicated,
    and only its scheduling state changes; the scheduled requests are distinct
    running requests with at least one token each, within the token budget
    (none when scheduling is paused); requests preempted in the step are waiting
    again; a request that keeps running has advanced by exactly its tokens, and
    without asynchronous scheduling never past its tokens and the drafts it was
    given; and the state is again one between steps: every running request holds slots for
    its computed tokens, within the model length. *)
Theorem schedule_safe grammar_ready s R W K S :
  config_ok cfg -> (forall s i, i ∈ order s -> i ∈ s) -> (forall h, 0 <= sz h) ->
  sched_ok s R W K S -> (forall r, r ∈ R -> caught (objs s r)) ->
  exists o s' R' W' K' S', @schedule KV EC SM (ecm order) cfg grammar_ready s = (Ok o, s') /\
    step_done s R W K o s' R' W' K' S'.
Proof.
  intros C Horder Hsz I Hca.
  destruct (schedule_step grammar_ready s R W K S C Horder Hsz I Hca) as (o & s' & R' & W' & K' & S' & Hrun & Hd).
  by exists o, s', R', W', K', S'.
Qed.
End theorem.
End SchedulerSafety.
