(* ===== verification/SlotSafety.v ===== *)
(** * SlotSafety

    The KV cache manager keeps the contract by which the scheduler uses it
    ([SlotContract]), when prefix caching is off: the groups are full,
    sliding-window or chunked local attention in any combination. With it the
    safety of a step holds for the scheduler over the managers of the
    repository. *)

From S2P Require Import Prelude FreeQueue Request RequestQueue BlockPool SingleType SingleTypeSafety EncoderCache Coordinator CoordinatorSafety KVCacheManager KVSafety AdmissionSafety SchedulerState EncoderScheduling Scheduler SchedulerSafety.

Module SlotSafety.
Import FreeQueue Request RequestQueue BlockPool SingleType SingleTypeSafety Coordinator CoordinatorSafety KVCacheManager KVSafety AdmissionSafety SchedulerState EncoderScheduling Scheduler SchedulerSafety.
#[local] Open Scope Z_scope.

(** ** The slots that requests hold *)

(** A request has blocks for its tokens in every group; the others have none. *)
Definition tables_hold (c : Coordinator) (S : gmap string Z) : Prop :=
  forall i m, single_type_managers c !! i = Some m -> forall id,
    match S !! id with
    | None => table m id = []
    | Some n => cdiv n (block_size m) <= zlen (table m id)
    end.

Section contract.
Context (cfg : SchedulerConfig).

Record uncached_rep (k : KVCacheManager) (S : gmap string Z) : Prop := {
  ur_inv : exists xs, kv_inv k xs [];
  ur_attend : all_attend (coordinator k);
  ur_kind : c_kind (coordinator k) = NoPrefixCache;
  ur_caching : k_enable_caching k = false;
  ur_length : k_max_model_len k = max_model_len cfg;
  ur_watermark : 0 <= watermark_blocks k;
  ur_groups : num_kv_cache_groups k = length (single_type_managers (coordinator k));
  ur_tables : tables_hold (coordinator k) S;
  ur_stats : log_stats k = true -> is_Some (prefix_cache_stats k)
}.

(** A new state of the coordinator. *)
Lemma uncached_rep_step k S c xs S' :
  uncached_rep k S -> coord_inv c xs [] -> same_cconf (coordinator k) c -> tables_hold c S' ->
  uncached_rep (set_coordinator c k) S'.
Proof.
  intros [[xs0 U1] U2 U3 U4 U5 U6 U7 U8 U9] I Hc Ht. constructor; try done.
  - exists xs. by eapply kv_of_coord.
  - by eapply all_attend_conf.
  - unfold same_cconf, cconf in Hc. injection Hc as E _ _ _ _ _ _ _ _ _. simpl. by rewrite E.
  - unfold same_cconf, cconf in Hc. injection Hc as _ _ _ _ _ _ _ _ E _. apply (f_equal length) in E.
    rewrite !length_fmap in E. simpl. congruence.
Qed.

Lemma conf_block_size c c' (i : nat) m m' :
  same_cconf c c' -> single_type_managers c !! i = Some m -> single_type_managers c' !! i = Some m' ->
  block_size m' = block_size m.
Proof.
  unfold same_cconf, cconf. intros Hc Hm Hm'. injection Hc as _ _ _ _ _ _ _ _ E _.
  assert (Ei : (mconf <$> single_type_managers c') !! i = (mconf <$> single_type_managers c) !! i) by (by rewrite E).
  rewrite !list_lookup_fmap, Hm, Hm' in Ei. apply (inj Some) in Ei. by apply mconf_eq in Ei as (? & _).
Qed.

(** An operation for [rid], the tables of the others untouched. *)
Lemma tables_hold_other c c' S rid :
  tables_hold c S -> others_kept c c' rid -> same_cconf c c' ->
  (forall i m m', single_type_managers c !! i = Some m -> single_type_managers c' !! i = Some m' ->
    zlen (table m' rid) = zlen (table m rid)) -> tables_hold c' S.
Proof.
  intros Ht Ho Hc Hr i m' Hm' id. destruct (Ho i m' Hm') as (m & Hm & Hoth).
  pose proof (conf_block_size c c' i m m' Hc Hm Hm') as Eb.
  specialize (Ht i m Hm id). destruct (decide (id = rid)) as [->|Hne].
  - specialize (Hr i m m' Hm Hm'). rewrite Eb. destruct (S !! rid); [lia|].
    rewrite Ht in Hr. by destruct (table m' rid).
  - rewrite Hoth by done. by rewrite Eb.
Qed.
(** One that changes no table. *)
Lemma for_managers_quiet op k S :
  uncached_rep k S ->
  (forall i m p xs R, mgr_inv (m, p) xs R -> wp (op i) (fun _ s' => mgr_inv s' xs R /\ same_conf (m, p) s' /\
     req_to_blocks s'.1 = req_to_blocks m) (m, p)) ->
  wp (on_coordinator (for_managers op)) (fun _ k' => uncached_rep k' S) k.
Proof.
  intros U Hop. destruct (ur_inv _ _ U) as [xs [I He]]. apply wp_zoom.
  eapply wp_mono; [apply (for_managers_total op (fun _ _ => True)
    (fun _ m m' => mconf m' = mconf m /\ req_to_blocks m' = req_to_blocks m) _ xs [] I Logic.I)|].
  - intros i rest m p xs' R' _ Im _ _ _. eapply wp_mono; [by eapply Hop|]. intros _ s' (I' & Hc & Hr).
    exists xs'. split; [done|]. split; [done|]. split; [done|]. split; [apply Hc|done].
  - intros _ c' (xs' & I' & Hc & _ & Hp). eapply uncached_rep_step; [exact U|exact I'|exact Hc|].
    intros i m' Hm' id. destruct (Hp i m' Hm') as (m & Hm & _ & Er). pose proof (ur_tables _ _ U i m Hm id) as Ht.
    unfold table in *. rewrite Er, (conf_block_size _ _ _ _ _ Hc Hm Hm'). done.
Qed.

Lemma new_step_ok k S : uncached_rep k S -> wp k_new_step_starts (fun _ k' => uncached_rep k' S) k.
Proof.
  intros U. apply for_managers_quiet; [done|]. intros _ m p xs R I. unfold new_step_starts. apply wp_bind, wp_gets.
  cbn [fst]. unfold set_mgr. destruct (attn (kv_cache_spec m));
    first [by apply wp_ret|apply wp_modify; split; [by apply (mgr_inv_ext _ _ _ _ _ I)|done]].
Qed.

Lemma free_ok k S r : uncached_rep k S -> wp (k_free r) (fun _ k' => uncached_rep k' (delete (request_id r) S)) k.
Proof.
  intros U. destruct (ur_inv _ _ U) as [xs [I He]]. apply wp_zoom. unfold c_free.
  eapply wp_mono; [apply (for_managers_total _ (fun _ _ => True)
    (fun _ m m' => mconf m' = mconf m /\ req_to_blocks m' = delete (request_id r) (req_to_blocks m)) _ xs [] I Logic.I)|].
  - intros i rest m p xs' R' _ Im _ _ _. eapply wp_mono; [by eapply free_spec|]. intros _ s' ([xs'' I'] & Hc & Hr & _).
    exists xs''. split; [done|]. split; [done|]. split; [done|]. split; [apply Hc|done].
  - intros _ c' (xs' & I' & Hc & _ & Hp). eapply uncached_rep_step; [exact U|exact I'|exact Hc|].
    intros i m' Hm' id. destruct (Hp i m' Hm') as (m & Hm & _ & Er). pose proof (ur_tables _ _ U i m Hm id) as Ht.
    unfold table in *. rewrite Er, (conf_block_size _ _ _ _ _ Hc Hm Hm'). rewrite !lookup_delete. case_decide; [done|]. done.
Qed.

Lemma take_ids_ok k S : uncached_rep k S -> wp k_take_new_block_ids (fun _ k' => uncached_rep k' S) k.
Proof.
  intros U. destruct (ur_inv _ _ U) as [xs [I He]]. apply wp_bind, wp_zoom.
  eapply wp_mono; [apply (map_managers_total _ (fun _ _ => True)
    (fun _ m _ m' => mconf m' = mconf m /\ req_to_blocks m' = req_to_blocks m) _ xs [] I Logic.I)|].
  - intros i rest m p xs' R' _ Im _ _ _. unfold take_new_block_ids. apply wp_bind, wp_gets, wp_bind, wp_modify, wp_ret.
    exists xs'. split; [by apply (mgr_inv_ext _ _ _ _ _ Im)|done].
  - intros ids c' (xs' & I' & Hc & _ & Hp). apply wp_ret. eapply uncached_rep_step; [exact U|exact I'|exact Hc|].
    intros i m' Hm' id. destruct (Hp i m' Hm') as (m & _ & Hm & _ & Er). pose proof (ur_tables _ _ U i m Hm id) as Ht.
    unfold table in *. rewrite Er, (conf_block_size _ _ _ _ _ Hc Hm Hm'). done.
Qed.

Lemma common_ok k S id : uncached_rep k S -> wp (k_get_num_common_prefix_blocks id) (fun _ k' => uncached_rep k' S) k.
Proof.
  intros U. apply wp_zoom, wp_bind, wp_get. rewrite (ur_kind _ _ U). apply wp_ret.
  assert (E : set_coordinator (coordinator k) k = k) by (by destruct k). by rewrite E.
Qed.

(** An operation of the block pool that keeps its references. *)
Lemma pool_quiet {A} (op : M BlockPool A) (Q : A -> Prop) k S :
  uncached_rep k S ->
  (forall p xs H, p = c_block_pool (coordinator k) -> H = all_held (single_type_managers (coordinator k)) ->
    pool_inv p xs [] H -> wp op (fun a p' => pool_inv p' xs [] H /\ config p' = config p /\ Q a) p) ->
  wp (on_k_pool op) (fun a k' => uncached_rep k' S /\ Q a) k.
Proof.
  intros U Hop. destruct (ur_inv _ _ U) as [xs [[Ip Im Is] He]]. apply wp_zoom, wp_zoom.
  rewrite app_nil_r in Ip. eapply wp_mono; [by eapply Hop|]. intros a p' (Ip' & Ec & Hq). split; [|done].
  eapply uncached_rep_step; [exact U| | |exact (ur_tables _ _ U)].
  - constructor; [by rewrite app_nil_r| |done]. unfold config in Ec. injection Ec as _ _ _ _ En _. simpl. by rewrite En.
  - unfold same_cconf, cconf. simpl. by rewrite Ec.
Qed.

Lemma take_events_ok k S : uncached_rep k S -> wp k_take_events (fun _ k' => uncached_rep k' S) k.
Proof.
  intros U. apply wp_bind, wp_get, wp_bind. eapply wp_mono; [apply (pool_quiet _ (fun _ => True) k S U)|].
  - intros p xs H _ _ I. unfold take_events. apply wp_bind, wp_get.
    destruct (enable_kv_cache_events p); [apply wp_bind, wp_modify|]; apply wp_ret; [|done].
    split; [by apply inv_events|done].
  - intros evs k' [U' _]. by apply wp_ret.
Qed.

Lemma nothing_held c : tables_hold c ∅ -> all_held (single_type_managers c) = [].
Proof.
  intros Ht. apply List.concat_nil_Forall, Forall_fmap, Forall_lookup. intros i m Hm.
  apply List.concat_nil_Forall, Forall_fmap, Forall_forall. intros [id l] Hl%elem_of_map_to_list.
  specialize (Ht i m Hm id). rewrite lookup_empty in Ht. unfold table in Ht. by rewrite Hl in Ht.
Qed.

Lemma slots_reset_ok k S : uncached_rep k S ->
  wp k_reset_prefix_cache (fun ok k' => uncached_rep k' S /\ (S = ∅ -> ok = true)) k.
Proof.
  intros U. unfold k_reset_prefix_cache. apply wp_bind.
  eapply wp_mono; [apply (pool_quiet _ (fun ok => S = ∅ -> ok = true) k S U)|].
  - intros p xs H _ -> I. eapply wp_mono; [by apply reset_prefix_cache_spec|].
    intros ok p' (I' & Hc & Hok & _). split; [done|]. split; [done|]. intros ->. apply Hok. intros b Hb. exfalso.
    rewrite (nothing_held _ (ur_tables _ _ U)) in Hb. by apply elem_of_nil in Hb.
  - intros ok k' [U' Hs]. destruct ok; [|by apply wp_ret]. apply wp_bind. unfold update_stats. apply wp_bind, wp_get.
    destruct (log_stats k') eqn:El; [|by apply wp_ret, wp_ret]. destruct (ur_stats _ _ U' El) as [st Est]. rewrite Est.
    apply wp_modify, wp_ret. split; [|done]. destruct U' as [V1 V2 V3 V4 V5 V6 V7 V8 V9]. by constructor.
Qed.

(** ** [allocate_slots] *)

(** The manager's own attributes are never changed. *)
Definition attributes (k : KVCacheManager) := (k_max_model_len k, k_enable_caching k, num_kv_cache_groups k, watermark_blocks k,
  log_stats k, prefix_cache_stats k).
Definition keeps_attributes {A} (op : M KVCacheManager A) : Prop := forall k, attributes (op k).2 = attributes k.

Lemma attributes_bind {A B} (op : M KVCacheManager A) (f : A -> M KVCacheManager B) :
  keeps_attributes op -> (forall a, keeps_attributes (f a)) -> keeps_attributes (op ≫= f).
Proof.
  intros H1 H2 k. unfold mbind, M_bind. specialize (H1 k). destruct (op k) as [[a|e] k1]; [|done]. by rewrite H2.
Qed.
Lemma attributes_coordinator {A} (op : M Coordinator A) : keeps_attributes (on_coordinator op).
Proof. intros k. unfold on_coordinator, zoom. by destruct (op (coordinator k)). Qed.
Lemma attributes_pool {A} (op : M BlockPool A) : keeps_attributes (on_k_pool op).
Proof. apply attributes_coordinator. Qed.

Section ops.
Context (use_int : bool) (sha256 : bytes -> bytes).

Lemma allocate_slots_attributes r a : keeps_attributes (allocate_slots use_int sha256 r a).
Proof.
  unfold allocate_slots, full_sequence_fits, commit_slots. cbv zeta.
  repeat first [apply attributes_coordinator | apply attributes_pool | done | apply attributes_bind; [|intros ?]
    | match goal with |- keeps_attributes (if ?b then _ else _) => destruct b end
    | match goal with |- keeps_attributes ((if ?b then _ else _) _) => destruct b end ].
Qed.

Lemma skipped_le m n : spec_ok (kv_cache_spec m) -> 0 < block_size m -> 0 <= n -> skipped_blocks m n <= cdiv n (block_size m).
Proof.
  intros Hs Hb Hn. unfold skipped_blocks. rewrite cdiv_spec by done. apply Z.div_le_mono; [done|].
  pose proof (num_skipped_le (kv_cache_spec m) n Hs Hn). lia.
Qed.

Lemma slots_ok k S r a n :
  uncached_rep k S -> default (empty_kv_cache_blocks k) (new_computed_blocks a) = empty_kv_cache_blocks k ->
  num_new_tokens a = n -> 0 < n -> num_new_computed_tokens a = 0 -> num_external_computed_tokens a = 0 ->
  0 <= num_lookahead_tokens a -> 0 <= reserved_blocks a ->
  0 <= num_computed_tokens r -> num_computed_tokens r + n <= max_model_len cfg ->
  num_computed_tokens r <= default 0 (S !! request_id r) ->
  wp (allocate_slots use_int sha256 r a) (fun o k' =>
    match o with
    | None => uncached_rep k' S
    | Some _ => uncached_rep k' (<[request_id r := num_computed_tokens r + n]> S)
    end) k.
Proof.
  intros U Encb En Hn Enc Eext Hla Hres Hc Hlen HS. destruct (ur_inv _ _ U) as [xs I]. pose proof I as [Ic He].
  pose proof (ur_length _ _ U) as Eml.
  assert (Hbs : forall i m, single_type_managers (coordinator k) !! i = Some m -> 0 < block_size m /\ spec_ok (kv_cache_spec m)).
  { intros i m Hm. split; [|by eapply coord_spec_ok]. pose proof (ci_managers _ _ _ Ic) as Im. by eapply Forall_lookup_1 in Im as [_ ? _ _ _]. }
  assert (Hreq : slot_request k r a).
  { constructor; try lia; rewrite ?Enc, ?Eext.
    - cbv zeta. rewrite Encb. simpl. intros i m Hm. split.
      + simpl. apply lookup_replicate. split; [done|]. rewrite (ur_groups _ _ U). by eapply lookup_lt_Some.
      + right. destruct (Hbs i m Hm) as [Hb Hs]. pose proof (ur_tables _ _ U i m Hm (request_id r)) as Ht.
        rewrite !Z.add_0_r. pose proof (skipped_le m _ Hs Hb Hc) as Hsk. destruct (S !! request_id r) as [n0|]; simpl in HS.
        * assert (cdiv (num_computed_tokens r) (block_size m) <= cdiv n0 (block_size m)); [|lia].
          rewrite !cdiv_spec by done. apply Z.div_le_mono; lia.
        * replace (num_computed_tokens r) with 0 in * by lia. rewrite cdiv_spec, Z.add_0_l in Hsk by done.
          rewrite Z.div_small in Hsk by lia. lia.
    - apply (ur_watermark _ _ U). }
  assert (Hok : slot_ok k r a).
  { constructor; try lia. cbv zeta. rewrite Encb, Eext. done. }
  pose proof (allocate_slots_never_short use_int sha256 k xs [] r a I Hok Hreq (ur_attend _ _ U)) as Hout.
  pose proof (allocate_slots_attributes r a k) as Hat. unfold wp. unfold slots_outcome in Hout.
  assert (Hset : forall k', attributes k' = attributes k -> (exists xs', kv_inv k' xs' []) -> same_cconf (coordinator k) (coordinator k') ->
     forall S', tables_hold (coordinator k') S' -> uncached_rep k' S').
  { intros k' E [xs' I'] Hcc S' Ht. unfold attributes in E. injection E as E1 E2 E3 E4 E5 E6.
    destruct (uncached_rep_step k S (coordinator k') xs' S' U (proj1 I') Hcc Ht) as [V1 V2 V3 V4 V5 V6 V7 V8 V9].
    simpl in *. constructor; try done; [by exists xs'|congruence..|by rewrite E5, E6]. }
  assert (Hneed : num_computed_tokens r + n <= slot_need k r a).
  { unfold slot_need. rewrite Enc, Eext, En, Eml. lia. }
  assert (Hcovers : forall c, same_cconf (coordinator k) c -> covers c (request_id r) (slot_need k r a) ->
     others_kept (coordinator k) c (request_id r) -> tables_hold c (<[request_id r := num_computed_tokens r + n]> S)).
  { intros c Hcc Hcov Hoth i m' Hm' id. destruct (Hoth i m' Hm') as (m & Hm & Ho).
    pose proof (conf_block_size _ _ _ _ _ Hcc Hm Hm') as Eb. destruct (Hbs i m Hm) as [Hb _].
    rewrite lookup_insert. case_decide as E.
    - subst id. specialize (Hcov i m' Hm'). rewrite Eb in *.
      assert (cdiv (num_computed_tokens r + n) (block_size m) <= cdiv (slot_need k r a) (block_size m)); [|lia].
      rewrite !cdiv_spec by done. apply Z.div_le_mono; lia.
    - rewrite Ho, Eb by done. apply (ur_tables _ _ U i m Hm id). }
  assert (Hcs : forall new ka, cache_slots use_int sha256 k r a new ka = (Ok (Some (create_kv_cache_blocks k new)), ka)).
  { intros new ka. unfold cache_slots. by rewrite (ur_caching _ _ U). }
  destruct (allocate_slots use_int sha256 r a k) as [[[b|]|e] k'].
  - destruct Hout as (ka & xs' & new & Ika & Hcc & Hcov & Hoth & E). rewrite Hcs in E. injection E as -> ->.
    apply Hset; [done|by exists xs'|done|by apply Hcovers].
  - destruct Hout as [[xs' I'] Htr]. apply Hset; [done|by exists xs'|apply Htr|].
    eapply (tables_hold_other _ _ _ (request_id r)); [apply U|by apply trimmed_others|apply Htr|].
    intros i m m' Hm Hm'. destruct (proj2 Htr i m' Hm') as (m0 & Hm0 & _ & _ & Hl & _). congruence.
  - destruct Hout as (ka & xs' & new & _ & _ & _ & _ & E). by rewrite Hcs in E.
Qed.

(** ** The contract *)

Context (Hla : 0 <= cfg_num_lookahead_tokens cfg).
#[local] Existing Instance kv_slot_manager.
#[local] Instance uncached_contract : @SlotContract cfg KVCacheManager (kv_slot_manager use_int sha256).
Proof using Hla.
  refine {| slots_rep := uncached_rep : KVCacheManager -> gmap string Z -> Prop;
            slots_hit := fun k _ blocks local => blocks = empty_kv_cache_blocks k /\ local = 0 |}.
  - apply new_step_ok.
  - intros k S r. apply free_ok.
  - intros k S id U _. by apply common_ok.
  - apply take_ids_ok.
  - intros k S r n U _ _. apply wp_bind, wp_get. rewrite (ur_caching _ _ U). by apply wp_ret.
  - apply take_events_ok.
  - apply slots_reset_ok.
  - intros k S r n m U Hm Hc Hn Hlen. eapply wp_mono.
    { apply (slots_ok k S r (running_slot_args cfg n) n U); try done; [lia|]. rewrite Hm. simpl. lia. }
    intros [b|] k' H; [|done]. eexists. by split; [|exact H].
  - intros k S r U _ Hn. unfold sm_get_computed_blocks, kv_slot_manager, get_computed_blocks.
    apply wp_bind, wp_get. rewrite (ur_caching _ _ U). apply wp_ret. split; [done|]. split; [simpl; lia|done].
  - intros k S r n blocks local enc running U HS Hc [-> ->] Hn _ Hlen. eapply wp_mono.
    { apply (slots_ok k S r (waiting_slot_args cfg r n 0 (empty_kv_cache_blocks k) enc running) n U);
        try done; [lia|lia|]. rewrite HS. simpl. lia. }
    intros [b|] k' H; [|done]. eexists. split; [|exact H]. lia.
Defined.
End ops.

(** A new manager: nothing is held. *)
Lemma uncached_init config sched hash batch eagle log events dcp pcp wm meta env k :
  kv_manager_init config (max_model_len cfg) sched hash batch false eagle log events dcp pcp wm meta env = Ok k ->
  KVSafety.config_ok config -> 0 < dcp * pcp -> 0 < num_blocks config ->
  c_kind (coordinator k) = NoPrefixCache -> all_attend (coordinator k) -> 0 <= watermark_blocks k ->
  num_kv_cache_groups k = length (single_type_managers (coordinator k)) ->
  (forall m, m ∈ single_type_managers (coordinator k) -> req_to_blocks m = ∅) -> uncached_rep k ∅.
Proof.
  intros E Hc Hcp Hn Hk Ha Hw Hg Ht.
  pose proof (kv_manager_init_inv _ _ _ _ _ _ _ _ _ _ _ _ _ _ _ E Hc Hcp Hn) as [xs I].
  unfold kv_manager_init in E. destruct (get_kv_cache_coordinator _ _ _ _ _ _ _ _ _ _ _) as [c|] eqn:Ec; [|done].
  destruct wm; [|done]. injection E as <-. constructor; try done; [by exists xs| |].
  2: { intros El. simpl in *. rewrite El. eauto. }
  intros i m Hm id. rewrite lookup_empty. unfold table. rewrite (Ht m); [done|]. by eapply list_elem_of_lookup_2.
Qed.
End contract.

(** ** A witness *)

(** Three prompts in the waiting queue, of 10, 6 and 20 tokens, a budget of 16
    tokens for a step. *)
Definition prompt (id : string) (arrival n : Z) : Request :=
  mkRequest id 0 0 arrival None None None false None None false false false 16 None n [] WAITING None []
    (replicate (Z.to_nat n) 7) 0 0 0 [] 0 false 0 0 None [] ∅.
Definition prompts (i : Z) : Request :=
  if i =? 1 then prompt "a" 1 10 else if i =? 2 then prompt "b" 2 6 else prompt "c" 3 20.
Definition queued (k : KVCacheManager) : SchedulerState.Scheduler KVCacheManager EncoderCache.EncoderCacheManager :=
  set_requests (<["a" := 1]> (<["b" := 2]> (<["c" := 3]> ∅)))
    (set_waiting (FCFSRequestQueue [1; 2; 3]) (scheduler_init FCFS prompts false k (EncoderCache.ec_init 8))).
Definition uncached_manager : result KVCacheManager :=
  kv_manager_init hybrid_config 64 4 4 (Some 16) false false false false 1 1 (Some 0) [] None.

Lemma prompts_cases (P : Z -> Prop) : P 1 -> P 2 -> P 3 -> forall r, r ∈ [1; 2; 3] -> P r.
Proof. set_solver. Qed.

Lemma queued_ok k : uncached_rep (sample_config FCFS) k ∅ ->
  @sched_ok _ _ (sample_config FCFS) (uncached_contract (sample_config FCFS) false id (Z.le_refl 0))
    EncoderCache.sample_sizes (queued k) [] [1; 2; 3] [] ∅.
Proof.
  intros U. constructor; try done; simpl; try (by intros ? ?%elem_of_nil).
  - apply (bool_decide_unpack _). vm_compute. done.
  - intros id r. split.
    + rewrite !lookup_insert_Some, lookup_empty. intros [[<- <-]|[_ [[<- <-]|[_ [[<- <-]|[_ [=]]]]]]]; by (split; [set_solver|]).
    + intros [Hr <-]. revert r Hr. by apply prompts_cases.
  - apply prompts_cases; (constructor; [done|done|repeat constructor|]); (constructor; [constructor|]);
      intros i j f g _ Hf; discriminate Hf.
  - apply prompts_cases; (split; [by left|done]).
  - intros id [? E]. by rewrite lookup_empty in E.
  - apply (EncoderCache.reset_ok EncoderCache.sample_sizes EncoderCache.sample_sizes_nonneg (EncoderCache.ec_init 8)).
    vm_compute. discriminate.
  - intros r _ [? E]. unfold prompts in E. repeat case_match; discriminate E.
Qed.

Lemma uncached_manager_ok : exists k, uncached_manager = Ok k /\ uncached_rep (sample_config FCFS) k ∅.
Proof.
  destruct uncached_manager as [k|] eqn:E; [|vm_compute in E; discriminate E]. exists k. split; [reflexivity|].
  eapply uncached_init; [exact E|split; [repeat constructor|vm_compute; reflexivity]|lia|vm_compute; reflexivity|..];
    vm_compute in E; injection E as <-; [reflexivity| |vm_compute; discriminate|reflexivity|].
  - intros [|[|i]] m Hm; [injection Hm as <-; exact Logic.I..|discriminate Hm].
  - intros m Hm. cbn in Hm. set_solver.
Qed.

Lemma schedule_safe_witness : exists k o s' R' W' K' S',
  uncached_manager = Ok k /\
  @schedule _ _ (kv_slot_manager false id) (ec_encoder_manager elements) (sample_config FCFS) (fun _ => true)
    (queued k) = (Ok o, s') /\
  out_num_scheduled_tokens o = [("a", 10); ("b", 6)]%string /\
  @step_done _ _ (sample_config FCFS) (uncached_contract (sample_config FCFS) false id (Z.le_refl 0))
    EncoderCache.sample_sizes (queued k) [] [1; 2; 3] [] o s' R' W' K' S'.
Proof.
  destruct uncached_manager_ok as (k & E & U).
  destruct (schedule_safe (SC := uncached_contract (sample_config FCFS) false id (Z.le_refl 0)) (sample_config FCFS) elements
    EncoderCache.sample_sizes (fun _ => true) (queued k) [] [1; 2; 3] [] ∅) as (o & s' & R' & W' & K' & S' & Hrun & Hd).
  - constructor; [reflexivity|reflexivity|vm_compute; discriminate|vm_compute; discriminate|discriminate].
  - intros s i. apply elem_of_elements.
  - apply EncoderCache.sample_sizes_nonneg.
  - exact (queued_ok k U).
  - intros r Hr. destruct (not_elem_of_nil _ Hr).
  - exists k, o, s', R', W', K', S'. split; [exact E|]. split; [exact Hrun|]. split; [|exact Hd].
    assert (Ht : match (@schedule _ _ (kv_slot_manager false id) (ec_encoder_manager elements) (sample_config FCFS) (fun _ => true) (queued k)).1
      with Ok o => out_num_scheduled_tokens o | Err _ => [] end = [("a", 10); ("b", 6)]%string).
    { vm_compute in E. injection E as <-. vm_compute. reflexivity. }
    unfold ecm in Hrun. rewrite Hrun in Ht. exact Ht.
Defined.
End SlotSafety.
