(* ===== verification/Grammar.v ===== *)
(** * Grammar

    v1/structured_output/backend_types.py and the grammars of the backends: the
    automata that constrain the tokens of a request. The class
    [StructuredOutputGrammar] has the operations of the abstract class;
    [GrammarLaws] says what they promise: the grammar behaves as the list of
    tokens it has consumed, over a language. The matchers of the third-party
    libraries are the classes [GrammarMatcher], [TokenEnforcer] and [Guide], with
    their documented behaviour as laws.

    The grammars of xgrammar and lm-format-enforcer are proved against the laws;
    that of outlines breaks them, as an example shows. *)

From S2P Require Import Prelude.

Module Grammar.
#[local] Open Scope Z_scope.

Inductive StructuredOutputOptions := JSON | JSON_OBJECT | REGEX | GRAMMAR | CHOICE | STRUCTURAL_TAG.
#[export] Instance options_eq_dec : EqDecision StructuredOutputOptions.
Proof. solve_decision. Defined.

(** ** The interface *)

(** [fill_bitmask] returns the contents of the row it writes. *)
Class StructuredOutputGrammar (G Row : Type) := {
  accept_tokens : list Z -> M G bool;
  validate_tokens : list Z -> M G (list Z);
  rollback : Z -> M G unit;
  fill_bitmask : M G Row;
  is_terminated : M G bool;
  reset : M G unit
}.

(** Which token may follow the tokens consumed, whether the output is complete,
    and the mask of what may follow. *)
Record Language (Row : Type) := mkLanguage {
  allowed : list Z -> Z -> bool;
  ended : list Z -> bool;
  mask : list Z -> Row
}.
Arguments mkLanguage {Row}.
Arguments allowed {Row}.
Arguments ended {Row}.
Arguments mask {Row}.

(** The longest prefix that may follow. *)
Fixpoint valid_prefix {Row} (L : Language Row) (hist tokens : list Z) : list Z :=
  match tokens with
  | [] => []
  | t :: tokens' => if allowed L hist t then t :: valid_prefix L (hist ++ [t]) tokens' else []
  end.

(** [consumed hist g]: [g] has consumed the tokens [hist]. Tokens are accepted
    all or not at all, except that a list rejected halfway may leave the grammar
    anywhere: it is then only [usable]. *)
Class GrammarLaws (G Row : Type) `{!StructuredOutputGrammar G Row} (L : Language Row)
    (consumed : list Z -> G -> Prop) (usable : G -> Prop) : Prop := {
  law_usable hist g : consumed hist g -> usable g;
  law_accept hist tokens g : consumed hist g -> ended L hist = false -> valid_prefix L hist tokens = tokens ->
    wp (accept_tokens tokens) (fun b g' => b = true /\ consumed (hist ++ tokens) g') g;
  law_reject hist t g : consumed hist g -> ended L hist = false -> allowed L hist t = false ->
    wp (accept_tokens [t]) (fun b g' => b = false /\ consumed hist g') g;
  law_accept_usable tokens g : usable g -> wp (accept_tokens tokens) (fun _ g' => usable g') g;
  law_validate hist tokens g : consumed hist g ->
    wp (validate_tokens tokens) (fun l g' => l = valid_prefix L hist tokens /\ consumed hist g') g;
  law_validate_usable tokens g : usable g ->
    wp (validate_tokens tokens) (fun l g' => l `prefix_of` tokens /\ usable g') g;
  law_rollback hist tokens g : consumed (hist ++ tokens) g -> tokens <> [] ->
    wp (rollback (zlen tokens)) (fun _ g' => consumed hist g') g;
  law_fill hist g : consumed hist g -> wp fill_bitmask (fun row g' => row = mask L hist /\ consumed hist g') g;
  law_is_terminated hist g : consumed hist g -> wp is_terminated (fun b g' => b = ended L hist /\ consumed hist g') g
}.

Lemma valid_prefix_prefix {Row} (L : Language Row) hist l : valid_prefix L hist l `prefix_of` l.
Proof.
  revert hist. induction l as [|t l IH]; intros hist; simpl; [done|].
  destruct (allowed L hist t); [by apply prefix_cons|apply prefix_nil].
Qed.

(** ** xgrammar *)

(** [xgr.GrammarMatcher], a third-party class. *)
Class GrammarMatcher (X Row : Type) := {
  accept_token : Z -> M X bool;
  matcher_rollback : Z -> M X unit;
  matcher_is_terminated : X -> bool;
  fill_next_token_bitmask : X -> Row;
  matcher_reset : X -> X
}.

(** Its documentation: a rejected token leaves the matcher as it is, a rollback
    takes back the last tokens accepted. *)
Class MatcherLaws (X Row : Type) `{!GrammarMatcher X Row} (L : Language Row) (matched : list Z -> X -> Prop) : Prop := {
  matcher_accept hist t x : matched hist x ->
    wp (accept_token t) (fun b x' => b = allowed L hist t /\ matched (if b then hist ++ [t] else hist) x') x;
  matcher_roll hist tokens x : matched (hist ++ tokens) x ->
    wp (matcher_rollback (zlen tokens)) (fun _ x' => matched hist x') x;
  matcher_terminated hist x : matched hist x -> matcher_is_terminated x = ended L hist;
  matcher_fill hist x : matched hist x -> fill_next_token_bitmask x = mask L hist
}.

Record XgrammarGrammar (X : Type) := mkXgrammar {
  matcher : X;
  num_processed_tokens : Z;
  terminated_flag : bool
}.
Arguments mkXgrammar {X}.
Arguments matcher {X}.
Arguments num_processed_tokens {X}.
Arguments terminated_flag {X}.

Section xgrammar.
Context {X Row : Type} `{!GrammarMatcher X Row}.
#[local] Notation G := (XgrammarGrammar X).

Definition on_matcher {A} (op : M X A) : M G A :=
  zoom matcher (fun x g => mkXgrammar x (num_processed_tokens g) (terminated_flag g)) op.
Definition add_processed (n : Z) (g : G) : G := mkXgrammar (matcher g) (num_processed_tokens g + n) (terminated_flag g).

(** [self._is_terminated = self.matcher.is_terminated()] *)
Definition refresh_terminated (g : G) : G :=
  mkXgrammar (matcher g) (num_processed_tokens g) (matcher_is_terminated (matcher g)).

Fixpoint xgr_accept_loop (tokens : list Z) : M G bool :=
  match tokens with
  | [] => modify refresh_terminated ;; mret true
  | token :: tokens' =>
      ok ← on_matcher (accept_token token);
      if (ok : bool) then modify (add_processed 1) ;; xgr_accept_loop tokens' else mret false
  end.
Definition xgr_accept_tokens (tokens : list Z) : M G bool :=
  g ← get;
  if terminated_flag g then mret false else xgr_accept_loop tokens.

Fixpoint xgr_validate_loop (tokens : list Z) : M G (list Z) :=
  match tokens with
  | [] => mret []
  | token :: tokens' =>
      ok ← on_matcher (accept_token token);
      if (ok : bool) then accepted ← xgr_validate_loop tokens'; mret (token :: accepted) else mret []
  end.
Definition xgr_validate_tokens (tokens : list Z) : M G (list Z) :=
  accepted_tokens ← xgr_validate_loop tokens;
  (if 0 <? zlen accepted_tokens then on_matcher (matcher_rollback (zlen accepted_tokens)) else mret tt) ;;
  mret accepted_tokens.

Definition xgr_rollback (num_tokens : Z) : M G unit :=
  on_matcher (matcher_rollback num_tokens) ;; modify (fun g => refresh_terminated (add_processed (- num_tokens) g)).

#[export] Instance XgrammarGrammar_grammar : StructuredOutputGrammar G Row := {|
  accept_tokens := xgr_accept_tokens;
  validate_tokens := xgr_validate_tokens;
  rollback := xgr_rollback;
  fill_bitmask := gets (fun g => fill_next_token_bitmask (matcher g));
  is_terminated := gets terminated_flag;
  reset := modify (fun g => mkXgrammar (matcher_reset (matcher g)) 0 (terminated_flag g))
|}.

(** *** It follows the laws *)

Context {L : Language Row} {matched : list Z -> X -> Prop} {ML : MatcherLaws X Row L matched}.

Record xgr_consumed (hist : list Z) (g : G) : Prop := {
  xc_matched : matched hist (matcher g);
  xc_terminated : terminated_flag g = ended L hist;
  xc_processed : num_processed_tokens g = zlen hist
}.
Definition xgr_usable (g : G) : Prop := exists hist, matched hist (matcher g).

Lemma xgr_token hist t g Q : matched hist (matcher g) ->
  (forall x, matched (if allowed L hist t then hist ++ [t] else hist) x ->
    Q (allowed L hist t) (mkXgrammar x (num_processed_tokens g) (terminated_flag g))) ->
  wp (on_matcher (accept_token t)) Q g.
Proof. intros Hm HQ. apply wp_zoom. eapply wp_mono; [by apply matcher_accept|]. intros b x [-> Hx]. by apply HQ. Qed.

Lemma xgr_accept_loop_ok hist tokens g : matched hist (matcher g) -> num_processed_tokens g = zlen hist ->
  valid_prefix L hist tokens = tokens ->
  wp (xgr_accept_loop tokens) (fun b g' => b = true /\ xgr_consumed (hist ++ tokens) g') g.
Proof.
  revert hist g. induction tokens as [|t l IH]; intros hist g Hm Hn Hv; cbn [xgr_accept_loop].
  - apply wp_bind, wp_modify, wp_ret. split; [done|]. rewrite app_nil_r. constructor; cbn; [done| |done].
    by apply matcher_terminated.
  - apply wp_bind, (xgr_token hist); [done|]. intros x Hx. simpl in Hv. destruct (allowed L hist t); [|done].
    injection Hv as Hv. apply wp_bind, wp_modify. replace (hist ++ t :: l) with ((hist ++ [t]) ++ l) by (by rewrite <- app_assoc).
    apply IH; [done| |done]. cbn. rewrite Hn, length_app. simpl. lia.
Qed.

Lemma xgr_accept_loop_usable tokens g : xgr_usable g -> wp (xgr_accept_loop tokens) (fun _ g' => xgr_usable g') g.
Proof.
  revert g. induction tokens as [|t l IH]; intros g [hist Hm]; cbn [xgr_accept_loop].
  - apply wp_bind, wp_modify, wp_ret. by exists hist.
  - apply wp_bind, (xgr_token hist); [done|]. intros x Hx. destruct (allowed L hist t); [|by exists hist].
    apply wp_bind, wp_modify, IH. by exists (hist ++ [t]).
Qed.

Lemma xgr_validate_loop_ok hist tokens g : matched hist (matcher g) ->
  wp (xgr_validate_loop tokens) (fun l g' => l = valid_prefix L hist tokens /\ matched (hist ++ l) (matcher g') /\
    num_processed_tokens g' = num_processed_tokens g /\ terminated_flag g' = terminated_flag g) g.
Proof.
  revert hist g. induction tokens as [|t l IH]; intros hist g Hm; cbn [xgr_validate_loop valid_prefix].
  - apply wp_ret. by rewrite app_nil_r.
  - apply wp_bind, (xgr_token hist); [done|]. intros x Hx. destruct (allowed L hist t).
    + apply wp_bind. eapply wp_mono; [by apply (IH (hist ++ [t]))|]. intros l' g' (-> & Hm' & Hn & Ht).
      apply wp_ret. split; [done|]. by rewrite <- app_assoc in Hm'.
    + apply wp_ret. by rewrite app_nil_r.
Qed.

Lemma xgr_validate_ok hist tokens g : matched hist (matcher g) ->
  wp (xgr_validate_tokens tokens) (fun l g' => l = valid_prefix L hist tokens /\ matched hist (matcher g') /\
    num_processed_tokens g' = num_processed_tokens g /\ terminated_flag g' = terminated_flag g) g.
Proof.
  intros Hm. apply wp_bind. eapply wp_mono; [by apply xgr_validate_loop_ok|]. intros l g' (-> & Hm' & Hn & Ht).
  destruct (valid_prefix L hist tokens) as [|t l'] eqn:E.
  - apply wp_bind, wp_ret, wp_ret. by rewrite app_nil_r in Hm'.
  - rewrite (proj2 (Z.ltb_lt 0 (zlen (t :: l')))) by (simpl; lia).
    apply wp_bind, wp_zoom. eapply wp_mono; [by apply matcher_roll|]. intros [] x Hx. by apply wp_ret.
Qed.

Lemma xgrammar_laws : GrammarLaws G Row L xgr_consumed xgr_usable.
Proof.
  constructor.
  - intros hist g [Hm _ _]. by exists hist.
  - intros hist tokens g [Hm Ht Hn] He Hv. apply wp_bind, wp_get. rewrite Ht, He. by apply xgr_accept_loop_ok.
  - intros hist t g [Hm Ht Hn] He Ha. apply wp_bind, wp_get. rewrite Ht, He. apply wp_bind, (xgr_token hist); [done|].
    intros x Hx. rewrite Ha in *. by apply wp_ret.
  - intros tokens g Hu. apply wp_bind, wp_get. destruct (terminated_flag g); [by apply wp_ret|]. by apply xgr_accept_loop_usable.
  - intros hist tokens g [Hm Ht Hn]. eapply wp_mono; [by apply xgr_validate_ok|]. intros l g' (-> & Hm' & En & Et).
    split; [done|]. constructor; congruence.
  - intros tokens g [hist Hm]. eapply wp_mono; [by apply xgr_validate_ok|]. intros l g' (-> & Hm' & _).
    split; [apply valid_prefix_prefix|by exists hist].
  - intros hist tokens g [Hm Ht Hn] _. apply wp_bind, wp_zoom. eapply wp_mono; [by apply matcher_roll|]. intros [] x Hx.
    apply wp_modify. constructor; cbn; [done|by apply matcher_terminated|]. rewrite Hn, length_app. lia.
  - intros hist g Hc. apply wp_gets. split; [by apply matcher_fill, Hc|done].
  - intros hist g Hc. apply wp_gets. split; [apply Hc|done].
Qed.
End xgrammar.
(** ** lm-format-enforcer *)

(** [lmformatenforcer.TokenEnforcer], a third-party class: what may follow a list
    of tokens, as a predicate and as the row of a bitmask. *)
Class TokenEnforcer (Row : Type) := {
  is_token_allowed : list Z -> Z -> bool;
  allowed_tokens : list Z -> Row;
  eos_token_id : Z
}.

Section lm_format_enforcer.
Context {Row : Type} `{!TokenEnforcer Row}.

(** The state is [current_tokens_prefix]. *)
Definition LMFormatEnforcerGrammar : Type := list Z.
#[local] Notation G := LMFormatEnforcerGrammar.

Fixpoint lmfe_accept_loop (original_len : nat) (tokens : list Z) : M G bool :=
  match tokens with
  | [] => mret true
  | token :: tokens' =>
      current_tokens_prefix ← get;
      if negb (is_token_allowed current_tokens_prefix token)
      then modify (take original_len) ;; mret false
      else modify (fun p => p ++ [token]) ;; lmfe_accept_loop original_len tokens'
  end.
Definition lmfe_accept_tokens (tokens : list Z) : M G bool :=
  p ← get; lmfe_accept_loop (length p) tokens.

(** The loop over [prefix_length], with [prefix = tokens[:prefix_length]] and the
    tokens from [next_token] on; without a break it has all tokens. *)
Fixpoint lmfe_validate_loop (p prefix rest : list Z) : list Z :=
  match rest with
  | [] => prefix
  | next_token :: rest' =>
      if negb (is_token_allowed (p ++ prefix) next_token) then prefix
      else lmfe_validate_loop p (prefix ++ [next_token]) rest'
  end.
Definition lmfe_validate_tokens (tokens : list Z) : M G (list Z) :=
  p ← get; mret (lmfe_validate_loop p [] tokens).

(** [self.current_tokens_prefix[:-num_tokens]], which for 0 is empty. *)
Definition lmfe_rollback (num_tokens : Z) : M G unit :=
  modify (fun p => if 0 <? num_tokens then take (length p - Z.to_nat num_tokens) p else take (Z.to_nat (- num_tokens)) p).

Definition lmfe_is_terminated (p : G) : bool := bool_decide (last p = Some eos_token_id).

#[export] Instance LMFormatEnforcerGrammar_grammar : StructuredOutputGrammar G Row := {|
  accept_tokens := lmfe_accept_tokens;
  validate_tokens := lmfe_validate_tokens;
  rollback := lmfe_rollback;
  fill_bitmask := gets allowed_tokens;
  is_terminated := gets lmfe_is_terminated;
  reset := modify (fun _ => [])
|}.

Definition lmfe_language : Language Row := mkLanguage is_token_allowed lmfe_is_terminated allowed_tokens.

Lemma lmfe_accept_loop_ok n tokens (p : G) : (n <= length p)%nat ->
  wp (lmfe_accept_loop n tokens) (fun b p' => b = bool_decide (valid_prefix lmfe_language p tokens = tokens) /\
    p' = if b then p ++ tokens else take n p) p.
Proof.
  revert p. induction tokens as [|t l IH]; intros p Hn; cbn [lmfe_accept_loop valid_prefix].
  - apply wp_ret. by rewrite app_nil_r.
  - apply wp_bind, wp_get. cbn [allowed lmfe_language]. destruct (is_token_allowed p t); cbn [negb].
    + apply wp_bind, wp_modify. eapply wp_mono; [apply IH; rewrite length_app; lia|]. intros b p' [-> ->].
      rewrite <- app_assoc, take_app_le by done. split; [|done].
      apply bool_decide_ext. by split; [intros ->|intros [= ->]].
    + apply wp_bind, wp_modify, wp_ret. done.
Qed.

Lemma lmfe_validate_loop_ok p prefix rest :
  lmfe_validate_loop p prefix rest = prefix ++ valid_prefix lmfe_language (p ++ prefix) rest.
Proof.
  revert prefix. induction rest as [|t l IH]; intros prefix; simpl; [by rewrite app_nil_r|].
  destruct (is_token_allowed (p ++ prefix) t); simpl; [|by rewrite app_nil_r].
  by rewrite IH, <- !app_assoc.
Qed.

Lemma lmfe_validate_ok tokens (p : G) :
  wp (lmfe_validate_tokens tokens) (fun l p' => l = valid_prefix lmfe_language p tokens /\ p' = p) p.
Proof. apply wp_bind, wp_get, wp_ret. by rewrite lmfe_validate_loop_ok, app_nil_r. Qed.

Lemma lmfe_laws : GrammarLaws G Row lmfe_language eq (fun _ => True).
Proof.
  constructor; try done.
  - intros hist tokens g <- _ Hv. apply wp_bind, wp_get. eapply wp_mono; [by apply lmfe_accept_loop_ok|].
    intros b p' [-> ->]. by rewrite bool_decide_true.
  - intros hist t g <- _ Ha. apply wp_bind, wp_get. eapply wp_mono; [by apply lmfe_accept_loop_ok|].
    intros b p' [-> ->]. cbn [valid_prefix]. rewrite Ha. rewrite bool_decide_false by done. by rewrite take_ge.
  - intros tokens g _. apply wp_bind, wp_get. eapply wp_mono; [by apply lmfe_accept_loop_ok|done].
  - intros hist tokens g <-. eapply wp_mono; [by apply lmfe_validate_ok|]. by intros l p' [-> ->].
  - intros tokens g _. eapply wp_mono; [by apply lmfe_validate_ok|]. intros l p' [-> _].
    split; [apply valid_prefix_prefix|done].
  - intros hist tokens g <- Ht. apply wp_modify. destruct tokens as [|t l]; [done|].
    rewrite (proj2 (Z.ltb_lt _ _)) by (simpl; lia). rewrite length_app, Nat2Z.id, Nat.add_sub. by rewrite take_app_length.
  - intros hist g <-. by apply wp_gets.
  - intros hist g <-. by apply wp_gets.
Qed.
End lm_format_enforcer.
(** ** llguidance *)

(** [llguidance.LLMatcher], a third-party class. *)
Class LLMatcher (X Row : Type) := {
  is_stopped : X -> bool;
  consume_tokens : list Z -> M X bool;
  count_valid : list Z -> X -> Z;
  ll_rollback : Z -> M X unit;
  has_error : X -> bool;
  ll_fill_next_token_bitmask : X -> Row;
  ll_reset : X -> X
}.

Record GuidanceGrammar (X : Type) := mkGuidance {
  ll_matcher : X;
  printed_error : bool;
  terminated : bool;
  rollback_lag : Z
}.
Arguments mkGuidance {X}.
Arguments ll_matcher {X}.
Arguments printed_error {X}.
Arguments terminated {X}.
Arguments rollback_lag {X}.

Section guidance.
Context {X Row : Type} `{!LLMatcher X Row} (eos_token : Z).
#[local] Notation G := (GuidanceGrammar X).

Definition on_ll {A} (op : M X A) : M G A :=
  zoom ll_matcher (fun x g => mkGuidance x (printed_error g) (terminated g) (rollback_lag g)) op.
Definition check_error : M G unit :=
  modify (fun g => if negb (printed_error g) && has_error (ll_matcher g)
                   then mkGuidance (ll_matcher g) true (terminated g) (rollback_lag g) else g).

(** An end-of-sequence token for a stopped matcher is not consumed; a rollback
    then lags by one. *)
Definition guidance_accept_tokens (tokens : list Z) : M G bool :=
  (if decide (eos_token ∈ tokens) then
     modify (fun g => mkGuidance (ll_matcher g) (printed_error g) true
       (if is_stopped (ll_matcher g) && negb (terminated g) then 1 else rollback_lag g))
   else mret tt) ;;
  g ← get;
  if is_stopped (ll_matcher g) then mret true
  else r ← on_ll (consume_tokens tokens); check_error ;; mret r.

Definition guidance_validate_tokens (tokens : list Z) : M G (list Z) :=
  match tokens with
  | [] => mret []
  | _ =>
      g ← get;
      if is_stopped (ll_matcher g) then mret []
      else check_error ;; mret (take (Z.to_nat (count_valid tokens (ll_matcher g))) tokens)
  end.

Definition guidance_rollback (num_tokens : Z) : M G unit :=
  if 0 <? num_tokens then
    g ← get;
    on_ll (ll_rollback (num_tokens - rollback_lag g)) ;;
    modify (fun g => mkGuidance (ll_matcher g) (printed_error g) false 0) ;;
    check_error
  else mret tt.

#[export] Instance GuidanceGrammar_grammar : StructuredOutputGrammar G Row := {|
  accept_tokens := guidance_accept_tokens;
  validate_tokens := guidance_validate_tokens;
  rollback := guidance_rollback;
  fill_bitmask := (g ← get; check_error ;; mret (ll_fill_next_token_bitmask (ll_matcher g)));
  is_terminated := gets terminated;
  reset := on_ll (modify ll_reset)
|}.

(** A roll-back takes back the last tokens consumed. *)
Context (consumed_by : list Z -> X -> Prop).
Hypothesis ll_roll : forall hist tokens x, consumed_by (hist ++ tokens) x ->
  wp (ll_rollback (zlen tokens)) (fun _ x' => consumed_by hist x') x.

Lemma check_error_ok Q g : (forall p, Q tt (mkGuidance (ll_matcher g) p (terminated g) (rollback_lag g))) -> wp check_error Q g.
Proof. intros HQ. apply wp_modify. destruct (_ && _); [apply HQ|]. destruct g. apply HQ. Qed.

Lemma guidance_rollback_ok hist tokens (g : G) n : consumed_by (hist ++ tokens) (ll_matcher g) ->
  0 < n -> n - rollback_lag g = zlen tokens ->
  wp (guidance_rollback n) (fun _ g' => consumed_by hist (ll_matcher g') /\ terminated g' = false /\ rollback_lag g' = 0) g.
Proof.
  intros Hc Hn Hl. unfold guidance_rollback. rewrite (proj2 (Z.ltb_lt 0 n) Hn). apply wp_bind, wp_get, wp_bind, wp_zoom.
  rewrite Hl. eapply wp_mono; [by apply ll_roll|]. intros [] x Hx. apply wp_bind, wp_modify. by apply check_error_ok.
Qed.

(** The end of the sequence, on a matcher that has stopped by itself, is taken
    back by the lag. *)
Lemma guidance_eos_rollback hist (g : G) : consumed_by hist (ll_matcher g) -> is_stopped (ll_matcher g) = true ->
  terminated g = false -> rollback_lag g = 0 ->
  wp (guidance_accept_tokens [eos_token] ;; guidance_rollback 1)
    (fun _ g' => consumed_by hist (ll_matcher g') /\ terminated g' = false /\ rollback_lag g' = 0) g.
Proof.
  intros Hc Hs Ht Hl. apply wp_bind. unfold guidance_accept_tokens. rewrite decide_True by set_solver.
  apply wp_bind, wp_modify, wp_bind, wp_get. cbn [ll_matcher]. rewrite Hs, Ht. apply wp_ret.
  apply (guidance_rollback_ok hist []); [by rewrite app_nil_r|lia|done].
Qed.

(** Any other token is accepted by a stopped matcher as well, and not consumed
    either, but then nothing lags: taking it back takes back the token before. *)
Lemma guidance_rolls_back_too_far hist u t (g : G) : consumed_by (hist ++ [u]) (ll_matcher g) ->
  is_stopped (ll_matcher g) = true -> t <> eos_token -> rollback_lag g = 0 ->
  wp (ok ← guidance_accept_tokens [t]; guidance_rollback 1 ;; mret ok)
    (fun ok g' => ok = true /\ consumed_by hist (ll_matcher g')) g.
Proof.
  intros Hc Hs Ht Hl. apply wp_bind. unfold guidance_accept_tokens. rewrite decide_False by set_solver.
  apply wp_bind, wp_ret, wp_bind, wp_get. rewrite Hs. apply wp_ret, wp_bind.
  eapply wp_mono; [apply (guidance_rollback_ok hist [u]); [done|lia|by rewrite Hl]|].
  intros [] g' [Hc' _]. by apply wp_ret.
Qed.
End guidance.

(** ** outlines *)

(** [outlines_core.Guide], a third-party class. *)
Class Guide (X Row : Type) := {
  guide_accepts_tokens : list Z -> X -> bool;
  guide_advance : Z -> M X unit;
  guide_rollback_state : Z -> M X unit;
  guide_is_finished : X -> bool;
  guide_mask : X -> Row;
  guide_reset : X -> X
}.

Record OutlinesGrammar (X : Type) := mkOutlines {
  guide : X;
  ol_num_processed_tokens : Z;
  prev_finished : bool
}.
Arguments mkOutlines {X}.
Arguments guide {X}.
Arguments ol_num_processed_tokens {X}.
Arguments prev_finished {X}.

Section outlines.
Context {X Row : Type} `{!Guide X Row}.
#[local] Notation G := (OutlinesGrammar X).

Definition on_guide {A} (op : M X A) : M G A :=
  zoom guide (fun x g => mkOutlines x (ol_num_processed_tokens g) (prev_finished g)) op.
Definition ol_add_processed (n : Z) (g : G) : G := mkOutlines (guide g) (ol_num_processed_tokens g + n) (prev_finished g).

Definition outlines_accept_tokens (tokens : list Z) : M G bool :=
  g ← get;
  if guide_accepts_tokens tokens (guide g) then
    for_each (fun t => on_guide (guide_advance t) ;; modify (ol_add_processed 1)) tokens ;; mret true
  else mret false.

Definition outlines_rollback (num_tokens : Z) : M G unit :=
  on_guide (guide_rollback_state num_tokens) ;; modify (ol_add_processed (- num_tokens)).

Fixpoint outlines_validate_loop (x : X) (accepted tokens : list Z) : list Z :=
  match tokens with
  | [] => accepted
  | tok :: tokens' =>
      if guide_accepts_tokens (accepted ++ [tok]) x then outlines_validate_loop x (accepted ++ [tok]) tokens' else accepted
  end.
Definition outlines_validate_tokens (tokens : list Z) : M G (list Z) :=
  g ← get; mret (outlines_validate_loop (guide g) [] tokens).

(** Answers with what the previous call saw. *)
Definition outlines_is_terminated : M G bool :=
  g ← get;
  modify (fun g => mkOutlines (guide g) (ol_num_processed_tokens g) (guide_is_finished (guide g))) ;;
  mret (prev_finished g).

#[export] Instance OutlinesGrammar_grammar : StructuredOutputGrammar G Row := {|
  accept_tokens := outlines_accept_tokens;
  validate_tokens := outlines_validate_tokens;
  rollback := outlines_rollback;
  fill_bitmask := gets (fun g => guide_mask (guide g));
  is_terminated := outlines_is_terminated;
  reset := modify (fun g => mkOutlines (guide_reset (guide g)) 0 false)
|}.

Context (guided : list Z -> X -> Prop) (finished : list Z -> bool).
Hypothesis guide_finished : forall hist x, guided hist x -> guide_is_finished x = finished hist.
Hypothesis guide_step : forall hist t x, guided hist x -> guide_accepts_tokens [t] x = true ->
  wp (guide_advance t) (fun _ x' => guided (hist ++ [t]) x') x.
Hypothesis guide_roll : forall hist t x, guided (hist ++ [t]) x ->
  wp (guide_rollback_state 1) (fun _ x' => guided hist x') x.

(** A draft that completes the output is tried and taken back, as it is for every
    row of a bitmask: the grammar then says once that it has terminated, though
    it has not, so the next row is not constrained. *)
Lemma outlines_stale_termination hist t (g : G) : guided hist (guide g) -> finished hist = false ->
  guide_accepts_tokens [t] (guide g) = true -> finished (hist ++ [t]) = true ->
  wp (outlines_accept_tokens [t] ;; outlines_is_terminated ;; outlines_rollback 1 ;; outlines_is_terminated)
    (fun b g' => b = true /\ guided hist (guide g') /\ guide_is_finished (guide g') = false) g.
Proof.
  intros Hg Hf Ha Hf'. apply wp_bind, wp_bind, wp_get. rewrite Ha. apply wp_bind. cbn [for_each].
  apply wp_bind, wp_bind, wp_zoom. eapply wp_mono; [by apply guide_step|]. intros [] x Hx.
  apply wp_modify, wp_ret, wp_ret, wp_bind, wp_bind, wp_get, wp_bind, wp_modify, wp_ret, wp_bind, wp_bind, wp_zoom.
  eapply wp_mono; [by apply (guide_roll hist t)|]. intros [] x' Hx'.
  apply wp_modify, wp_bind, wp_get, wp_bind, wp_modify, wp_ret. cbn.
  split; [by rewrite (guide_finished _ _ Hx)|]. split; [done|]. by rewrite (guide_finished _ _ Hx').
Qed.
End outlines.

(** C29. The grammar of xgrammar does what the scheduler relies on. Over a matcher
    that keeps its documentation, it behaves as the list of tokens it has consumed:
    valid tokens are accepted and remembered, a single invalid one is rejected
    without a trace, [validate_tokens] returns the longest valid prefix and
    [rollback] takes back the last tokens, both leaving the flag for termination and
    the count of tokens right, and no call fails. *)
Theorem xgrammar_follows_language X Row `{!GrammarMatcher X Row} (L : Language Row) (matched : list Z -> X -> Prop) :
  MatcherLaws X Row L matched ->
  GrammarLaws (XgrammarGrammar X) Row L (xgr_consumed (L := L) (matched := matched)) (xgr_usable (matched := matched)).
Proof. intros ML. apply xgrammar_laws. Qed.
End Grammar.
