(* ===== verification/Reasoning.v ===== *)
(** * Reasoning

    vllm/reasoning: the parsers that tell the reasoning of a model from its
    answer, as far as the engine core uses them: on token ids. [ReasoningParser]
    has the three questions of the engine; each parser is translated with its
    [extract_content_ids] and [count_reasoning_tokens] where it defines them. What
    the parsers do on text, for the HTTP frontends, is left out, and so is the
    parser of Step3.5, which changes its state when it is asked. *)

From S2P Require Import Prelude.

Module Reasoning.
#[local] Open Scope Z_scope.

(** Whether reasoning has ended in a list of tokens; whether it ends in a list of
    tokens whose last are [delta_ids], those of the current step; and whether a
    prompt has ended it. *)
Record ReasoningParser := mkParser {
  is_reasoning_end : list Z -> bool;
  is_reasoning_end_streaming : list Z -> list Z -> bool;
  is_reasoning_end_for_prompt : list Z -> bool
}.

Notation mem x l := (bool_decide (x ∈ l)).

(** The methods a subclass inherits from the base class. *)
Definition base_streaming (reasoning_end : list Z -> bool) (input_ids delta_ids : list Z) : bool := reasoning_end input_ids.
Definition base_for_prompt (reasoning_end : list Z -> bool) (input_ids : list Z) : bool := reasoning_end input_ids.

(** [l.index(t)], where [t] occurs, and [len(l) - 1 - l[::-1].index(t)]. *)
Definition index_of (t : Z) (l : list Z) : nat := default 0%nat (fst <$> list_find (fun x => x = t) l).
Definition last_index_of (t : Z) (l : list Z) : nat := (length l - 1 - index_of t (reverse l))%nat.

(** ** Identity: there is no reasoning *)
Definition IdentityReasoningParser : ReasoningParser :=
  mkParser (fun _ => true) (fun _ _ => true) (base_for_prompt (fun _ => true)).

Section thinking.
Context (start_token_id end_token_id : Z).

(** ** BaseThinkingReasoningParser, and its subclasses DeepSeekR1 and MiniMaxM2 *)

(** The loop over [range(len(input_ids) - 1, -1, -1)], on the reversed list. *)
Fixpoint thinking_scan (rev_ids : list Z) : bool :=
  match rev_ids with
  | [] => false
  | t :: l => if t =? start_token_id then false else if t =? end_token_id then true else thinking_scan l
  end.
Definition thinking_end (input_ids : list Z) : bool := thinking_scan (reverse input_ids).
Definition thinking_end_streaming (input_ids delta_ids : list Z) : bool := mem end_token_id delta_ids.

Definition thinking_content_ids (input_ids : list Z) : list Z :=
  if negb (mem end_token_id (take (Z.to_nat (Z.max 0 (zlen input_ids - 1))) input_ids)) then []
  else drop (S (index_of end_token_id input_ids)) input_ids.

(** The loop of [count_reasoning_tokens] with its two counters. *)
Definition count_step (acc : Z * Z) (token_id : Z) : Z * Z :=
  let '(count, depth) := acc in
  if token_id =? start_token_id then (count, depth + 1)
  else if token_id =? end_token_id then (count, if 0 <? depth then depth - 1 else depth)
  else (if 0 <? depth then count + 1 else count, depth).
Definition thinking_count (token_ids : list Z) : Z := (foldl count_step (0, 0) token_ids).1.

Definition BaseThinkingReasoningParser : ReasoningParser :=
  mkParser thinking_end thinking_end_streaming (base_for_prompt thinking_end).

(** ** DeepSeekV3 and HYV3: thinking can be switched off *)
Definition DeepSeekV3ReasoningParser (thinking : bool) : ReasoningParser :=
  if thinking then BaseThinkingReasoningParser else IdentityReasoningParser.
Definition HYV3ReasoningParser (reasoning_effort : string) : ReasoningParser :=
  if decide (reasoning_effort = "no_think"%string) then IdentityReasoningParser else BaseThinkingReasoningParser.

(** ** MiniMaxM2AppendThink *)

(** [input_id in (end_token_id, start_token_id)] *)
Fixpoint minimax_scan (rev_ids : list Z) : bool :=
  match rev_ids with
  | [] => false
  | t :: l => if (t =? end_token_id) || (t =? start_token_id) then t =? end_token_id else minimax_scan l
  end.
Definition minimax_end (input_ids : list Z) : bool := minimax_scan (reverse input_ids).
Definition MiniMaxM2AppendThinkReasoningParser : ReasoningParser :=
  mkParser minimax_end (base_streaming minimax_end) (base_for_prompt minimax_end).

(** ** Step3 *)
Definition step3_end (input_ids : list Z) : bool := mem end_token_id input_ids.
Definition Step3ReasoningParser : ReasoningParser :=
  mkParser step3_end thinking_end_streaming (base_for_prompt step3_end).

(** ** Mistral: reasoning that never starts has ended *)

Fixpoint mistral_scan (rev_ids : list Z) (has_eot_token : bool) : bool :=
  match rev_ids with
  | [] => false
  | t :: l =>
      if t =? start_token_id then has_eot_token
      else if t =? end_token_id then mistral_scan l true else mistral_scan l has_eot_token
  end.
Definition mistral_end (input_ids : list Z) : bool := mistral_scan (reverse input_ids) false.
Definition mistral_end_streaming (input_ids delta_ids : list Z) : bool :=
  if mem end_token_id delta_ids then true else negb (mem start_token_id input_ids).

(** The first start token, and the first end token, with which the loop ends. *)
Fixpoint mistral_markers (i : nat) (ids : list Z) (bot : option nat) : option nat * option nat :=
  match ids with
  | [] => (bot, None)
  | t :: l =>
      if (t =? start_token_id) && negb (is_some bot) then mistral_markers (S i) l (Some i)
      else if t =? end_token_id then (bot, Some i) else mistral_markers (S i) l bot
  end.
Definition mistral_content_ids (input_ids : list Z) : list Z :=
  match mistral_markers 0 input_ids None with
  | (Some bot, None) => take bot input_ids
  | (None, None) => input_ids
  | (Some bot, Some eot) => take bot input_ids ++ drop (S eot) input_ids
  | (None, Some eot) => take eot input_ids ++ drop (S eot) input_ids
  end.
Definition MistralReasoningParser : ReasoningParser :=
  mkParser mistral_end mistral_end_streaming (base_for_prompt mistral_end).

(** ** Qwen3: a tool call ends the reasoning as well, unless it is closed again *)

Section qwen3.
Context (tool_call_token_id tool_call_end_token_id : option Z).

(** [later] holds the tokens after the one looked at. *)
Fixpoint qwen3_scan (rev_ids later : list Z) : bool :=
  match rev_ids with
  | [] => false
  | t :: l =>
      if t =? start_token_id then false else if t =? end_token_id then true
      else if bool_decide (tool_call_token_id = Some t) then
        match tool_call_end_token_id with
        | Some e => if mem e later then qwen3_scan l (t :: later) else true
        | None => true
        end
      else qwen3_scan l (t :: later)
  end.
Definition qwen3_end (input_ids : list Z) : bool := qwen3_scan (reverse input_ids) [].
Definition qwen3_end_streaming (input_ids delta_ids : list Z) : bool :=
  if thinking_end_streaming input_ids delta_ids then true
  else match tool_call_token_id with Some t => mem t delta_ids | None => false end.

Definition qwen3_content_ids (input_ids : list Z) : list Z :=
  match thinking_content_ids input_ids with
  | [] =>
      match tool_call_token_id with
      | Some t => if mem t input_ids then drop (last_index_of t input_ids) input_ids else []
      | None => []
      end
  | result => result
  end.
Definition Qwen3ReasoningParser : ReasoningParser :=
  mkParser qwen3_end qwen3_end_streaming (base_for_prompt qwen3_end).
End qwen3.

(** ** KimiK2: so does a section of tool calls *)

Section kimi.
Context (tool_section_start_token_id : option Z).

Fixpoint kimi_scan (rev_ids : list Z) : bool :=
  match rev_ids with
  | [] => false
  | t :: l =>
      if t =? start_token_id then false else if t =? end_token_id then true
      else if bool_decide (tool_section_start_token_id = Some t) then true else kimi_scan l
  end.
Definition kimi_end (input_ids : list Z) : bool := kimi_scan (reverse input_ids).
Definition kimi_end_streaming (input_ids delta_ids : list Z) : bool :=
  if mem end_token_id delta_ids then true
  else match tool_section_start_token_id with Some t => mem t delta_ids | None => false end.
Definition kimi_content_ids (input_ids : list Z) : list Z :=
  if mem end_token_id input_ids then drop (S (last_index_of end_token_id input_ids)) input_ids
  else match tool_section_start_token_id with
       | Some t => if mem t input_ids then drop (last_index_of t input_ids) input_ids else []
       | None => []
       end.
Definition KimiK2ReasoningParser (thinking : bool) : ReasoningParser :=
  if thinking then mkParser kimi_end kimi_end_streaming (base_for_prompt kimi_end) else IdentityReasoningParser.
End kimi.

(** ** Gemma4: a new turn or a tool response starts reasoning *)

Section gemma4.
Context (new_turn_token_id tool_call_token_id tool_response_token_id : Z).

Fixpoint gemma4_scan (rev_ids : list Z) : bool :=
  match rev_ids with
  | [] => false
  | t :: l =>
      if t =? start_token_id then false
      else if t =? tool_call_token_id then true
      else if (t =? new_turn_token_id) || (t =? tool_response_token_id) then false
      else if t =? end_token_id then true else gemma4_scan l
  end.
Definition gemma4_end (input_ids : list Z) : bool := gemma4_scan (reverse input_ids).
Definition Gemma4ReasoningParser : ReasoningParser :=
  mkParser gemma4_end thinking_end_streaming (base_for_prompt gemma4_end).
End gemma4.
End thinking.

(** ** GptOss: the end is a prefix, a few tokens, and a suffix *)

Section gptoss.
Context (reasoning_end_token_ids_prefix reasoning_end_token_ids_suffix : list Z) (eom_token_id : Z).
Definition reasoning_max_num_between_tokens : nat := 20.
#[local] Notation prefix := reasoning_end_token_ids_prefix.
#[local] Notation suffix := reasoning_end_token_ids_suffix.
#[local] Notation between := reasoning_max_num_between_tokens.

(** [input_ids[i : i + len(pattern)] == pattern] *)
Definition occurs_at (pattern l : list Z) (i : nat) : bool := bool_decide (take (length pattern) (drop i l) = pattern).

(** The inner loop over [range(suffix_start, len(input_ids) - len(suffix) + 1)]. *)
Definition suffix_near (l : list Z) (suffix_start : nat) : bool :=
  existsb (occurs_at suffix l) (seq suffix_start (Nat.min between (S (length l) - length suffix - suffix_start))).

(** The outer loop; [k] positions are left, the next is [k - 1]. *)
Fixpoint gptoss_scan (l : list Z) (k : nat) : bool :=
  match k with
  | O => false
  | S i =>
      if bool_decide (l !! i = Some eom_token_id) then false
      else if occurs_at prefix l i then if suffix_near l (i + length prefix) then true else gptoss_scan l i
      else gptoss_scan l i
  end.
Definition gptoss_end (input_ids : list Z) : bool := gptoss_scan input_ids (S (length input_ids) - length prefix).

(** Only the last tokens are searched, as many as a marker may have and those of
    the current step. *)
Definition gptoss_end_streaming (input_ids delta_ids : list Z) : bool :=
  let window := (length prefix + between + length suffix + length delta_ids)%nat in
  let n := length input_ids in
  if (n <=? window)%nat then gptoss_end input_ids else gptoss_end (drop (n - window) input_ids).

Definition GptOssReasoningParser : ReasoningParser :=
  mkParser gptoss_end gptoss_end_streaming (base_for_prompt gptoss_end).
End gptoss.
(** ** What the questions of a step mean *)

(** A scan from the end that stops at marker tokens: once a list has been asked
    about, what is appended without a start token decides by itself. *)
Lemma thinking_scan_app st en l1 l2 : st ∉ l1 ->
  thinking_scan st en (l1 ++ l2) = mem en l1 || thinking_scan st en l2.
Proof.
  induction l1 as [|t l1 IH]; intros Hs; cbn [thinking_scan app]; [done|]. apply not_elem_of_cons in Hs as [Ht Hs].
  rewrite (proj2 (Z.eqb_neq t st)) by done. destruct (Z.eqb_spec t en) as [->|Hn].
  - by rewrite bool_decide_true by set_solver.
  - rewrite IH by done. f_equal. apply bool_decide_ext. set_solver.
Qed.

Lemma thinking_end_app st en old delta : st ∉ delta ->
  thinking_end st en (old ++ delta) = thinking_end st en old || thinking_end_streaming en (old ++ delta) delta.
Proof.
  intros Hs. unfold thinking_end, thinking_end_streaming. rewrite reverse_app, thinking_scan_app by by rewrite elem_of_reverse.
  rewrite orb_comm. f_equal. apply bool_decide_ext. by rewrite elem_of_reverse.
Qed.

Lemma kimi_scan_app st en tool l1 l2 : st ∉ l1 ->
  kimi_scan st en tool (l1 ++ l2) =
  (mem en l1 || match tool with Some t => mem t l1 | None => false end) || kimi_scan st en tool l2.
Proof.
  induction l1 as [|t l1 IH]; intros Hs; cbn [kimi_scan app]; [by destruct tool|]. apply not_elem_of_cons in Hs as [Ht Hs].
  rewrite (proj2 (Z.eqb_neq t st)) by done. destruct (Z.eqb_spec t en) as [->|Hn].
  - by rewrite (bool_decide_true (en ∈ en :: l1)) by set_solver.
  - rewrite IH by done. rewrite (bool_decide_ext (en ∈ t :: l1) (en ∈ l1)) by set_solver.
    destruct tool as [u|]; [|done]. destruct (decide (u = t)) as [->|Hu].
    + rewrite !(bool_decide_true (t ∈ t :: l1)), bool_decide_true by (set_solver || done). by rewrite orb_true_r.
    + rewrite bool_decide_false by congruence. by rewrite (bool_decide_ext (u ∈ t :: l1) (u ∈ l1)) by set_solver.
Qed.

Section window.
Context (prefix suffix : list Z) (eom : Z) (Hprefix : prefix <> []) (Hsuffix : suffix <> []).
#[local] Notation between := reasoning_max_num_between_tokens.
#[local] Notation scan := (gptoss_scan prefix suffix eom).

(** A prefix at [i] and a suffix at [j] in its range. *)
Definition marker_at (l : list Z) (i j : nat) : Prop :=
  occurs_at prefix l i = true /\ occurs_at suffix l j = true /\
  (i + length prefix <= j < i + length prefix + between)%nat /\ (j + length suffix <= length l)%nat.

Lemma occurs_at_le pattern l i : pattern <> [] -> occurs_at pattern l i = true -> (i + length pattern <= length l)%nat.
Proof.
  intros Hp H. apply bool_decide_eq_true in H. apply (f_equal length) in H. rewrite length_take, length_drop in H.
  assert (length pattern <> 0%nat) by (by intros ?%nil_length_inv). lia.
Qed.

Lemma suffix_near_spec l s : suffix_near suffix l s = true <->
  exists j, (s <= j < s + between)%nat /\ (j + length suffix <= length l)%nat /\ occurs_at suffix l j = true.
Proof.
  unfold suffix_near. rewrite existsb_exists. setoid_rewrite in_seq. split.
  - intros (j & Hj & H). exists j. split; [lia|]. split; [lia|done].
  - intros (j & Hj & Hle & H). exists j. split; [lia|done].
Qed.

(** The scan succeeds if a marker starts after the last end of a message. *)
Lemma gptoss_scan_spec l k : scan l k = true <->
  exists i j, (i < k)%nat /\ marker_at l i j /\ forall i', (i <= i' < k)%nat -> l !! i' <> Some eom.
Proof.
  induction k as [|k IH]; cbn [gptoss_scan]; [split; [done|intros (i & j & ? & _); lia]|].
  destruct (decide (l !! k = Some eom)) as [E|E].
  { rewrite bool_decide_true by done. split; [done|]. intros (i & j & Hi & _ & Hn). destruct (Hn k); [lia|done]. }
  rewrite bool_decide_false by done.
  assert (Hless : scan l k = true <-> exists i j, (i < k)%nat /\ marker_at l i j /\
    forall i', (i <= i' < S k)%nat -> l !! i' <> Some eom).
  { rewrite IH. split; intros (i & j & Hi & Hm & Hn); exists i, j; (split; [done|split; [done|]]); intros i' Hi'.
    - destruct (decide (i' = k)) as [->|]; [done|]. apply Hn. lia.
    - apply Hn. lia. }
  destruct (occurs_at prefix l k && suffix_near suffix l (k + length prefix)) eqn:Hhit.
  - apply andb_true_iff in Hhit as [Hp Hs]. rewrite Hp, Hs. split; [intros _|done].
    apply suffix_near_spec in Hs as (j & Hj & Hle & Hs). exists k, j. split; [lia|]. split; [done|].
    intros i' Hi'. by replace i' with k by lia.
  - transitivity (scan l k = true).
    { destruct (occurs_at prefix l k); [|done]. by destruct (suffix_near _ _ _). }
    rewrite Hless. split; [intros (i & j & Hi & H); exists i, j; split; [lia|done]|].
    intros (i & j & Hi & Hm & Hn). destruct (decide (i = k)) as [->|]; [|exists i, j; split; [lia|done]].
    exfalso. destruct Hm as (Hp & Hs & Hj & Hle). assert (suffix_near suffix l (k + length prefix) = true).
    { apply suffix_near_spec. exists j. done. } by rewrite Hp, H in Hhit.
Qed.

Lemma occurs_at_drop pattern l n i : occurs_at pattern (drop n l) i = occurs_at pattern l (n + i).
Proof. unfold occurs_at. by rewrite drop_drop. Qed.

Lemma occurs_at_app pattern l1 l2 i : (i + length pattern <= length l1)%nat ->
  occurs_at pattern (l1 ++ l2) i = occurs_at pattern l1 i.
Proof.
  intros Hi. unfold occurs_at. apply bool_decide_ext. rewrite drop_app_le by lia. rewrite take_app_le; [done|].
  rewrite length_drop. lia.
Qed.

(** A marker that ends before the tokens of the step was there before. *)
Lemma marker_old old delta i j : marker_at (old ++ delta) i j -> (j + length suffix <= length old)%nat -> marker_at old i j.
Proof.
  intros (Hp & Hs & Hj & _) Hle. unfold marker_at. rewrite occurs_at_app in Hs by lia. rewrite occurs_at_app in Hp by lia. done.
Qed.

Lemma marker_drop l n i j : (n <= i)%nat -> (n <= length l)%nat -> marker_at l i j <-> marker_at (drop n l) (i - n) (j - n).
Proof.
  intros Hi Hn. unfold marker_at. rewrite !occurs_at_drop, length_drop. replace (n + (i - n))%nat with i by lia. split.
  - intros (Hp & Hs & Hj & Hle). replace (n + (j - n))%nat with j by lia. split; [done|]. split; [done|]. lia.
  - assert (length prefix <> 0%nat) by (by intros ?%nil_length_inv).
    intros (Hp & Hs & Hj & Hle). replace (n + (j - n))%nat with j in Hs by lia. split; [done|]. split; [done|]. lia.
Qed.

Lemma gptoss_window old delta : gptoss_end prefix suffix eom old = false ->
  gptoss_end_streaming prefix suffix eom (old ++ delta) delta = gptoss_end prefix suffix eom (old ++ delta).
Proof.
  intros Hold. unfold gptoss_end_streaming. set (l := old ++ delta). set (w := (_ + _)%nat).
  destruct (Nat.leb_spec (length l) w) as [|Hw]; [done|]. apply eq_true_iff_eq. unfold gptoss_end in *.
  set (d := (length l - w)%nat). rewrite !gptoss_scan_spec.
  assert (Hl : length l = (length old + length delta)%nat) by apply length_app.
  assert (Hk : (S (length (drop d l)) - length prefix)%nat = (S (length l) - length prefix - d)%nat) by (rewrite length_drop; lia).
  rewrite Hk. split; intros (i & j & Hi & Hm & Hn).
  - exists (d + i)%nat, (d + j)%nat. split; [lia|]. split.
    + apply (marker_drop l d); [lia..|]. by replace (d + i - d)%nat with i by lia; replace (d + j - d)%nat with j by lia.
    + intros i' Hi'. specialize (Hn (i' - d)%nat ltac:(lia)). rewrite lookup_drop in Hn. by replace (d + (i' - d))%nat with i' in Hn by lia.
  - assert (Hd : (d <= i)%nat).
    { apply Nat.nlt_ge. intros Hlt. assert (He : scan old (S (length old) - length prefix) = true); [|congruence].
      pose proof Hm as (_ & _ & Hj & _). assert (Hjo : (j + length suffix <= length old)%nat) by (unfold d, w in Hlt; lia).
      apply gptoss_scan_spec. exists i, j. split; [lia|]. split; [by eapply marker_old|].
      assert (length prefix <> 0%nat) by (by intros ?%nil_length_inv).
      intros i' Hi'. specialize (Hn i' ltac:(lia)). unfold l in Hn. rewrite lookup_app_l in Hn by lia. done. }
    exists (i - d)%nat, (j - d)%nat. split; [lia|]. split; [by apply marker_drop; [lia..|]|].
    intros i' Hi'. rewrite lookup_drop. apply Hn. lia.
Qed.
End window.
(** What a step may ask instead of scanning all tokens again: if reasoning had not
    ended before the tokens of the step, which satisfy [ok], the question about
    the step has the answer of the full scan. *)
Definition incremental (P : ReasoningParser) (ok : list Z -> Prop) : Prop :=
  forall old delta, ok delta -> is_reasoning_end P old = false ->
  is_reasoning_end_streaming P (old ++ delta) delta = is_reasoning_end P (old ++ delta).

(** C28. Asking about the tokens of a step is as good as scanning everything: for
    the parsers with two markers (DeepSeekR1, DeepSeekV3, HYV3, KimiK2) if the step
    does not start to reason, and for GptOss always, because the window it searches
    holds every marker that the step can complete. *)
Theorem streaming_end_exact st en tool prefix suffix eom thinking effort : prefix <> [] -> suffix <> [] ->
  incremental (BaseThinkingReasoningParser st en) (fun delta => st ∉ delta) /\
  incremental (DeepSeekV3ReasoningParser st en thinking) (fun delta => st ∉ delta) /\
  incremental (HYV3ReasoningParser st en effort) (fun delta => st ∉ delta) /\
  incremental (KimiK2ReasoningParser st en tool thinking) (fun delta => st ∉ delta) /\
  incremental (GptOssReasoningParser prefix suffix eom) (fun _ => True).
Proof.
  intros Hp Hs. assert (Hbase : incremental (BaseThinkingReasoningParser st en) (fun delta => st ∉ delta)).
  { intros old delta Hd Ho. cbn in *. by rewrite thinking_end_app, Ho. }
  assert (Hid : forall ok, incremental IdentityReasoningParser ok) by done. split; [done|]. split; [by destruct thinking|].
  split; [by unfold HYV3ReasoningParser; destruct (decide _)|]. split.
  - destruct thinking; [|done]. intros old delta Hd Ho. cbn in *. unfold kimi_end, kimi_end_streaming in *.
    rewrite reverse_app, kimi_scan_app, Ho, orb_false_r by by rewrite elem_of_reverse.
    rewrite (bool_decide_ext (en ∈ reverse delta) (en ∈ delta)) by apply elem_of_reverse.
    destruct tool as [t|]; [|by destruct (bool_decide _)].
    rewrite (bool_decide_ext (t ∈ reverse delta) (t ∈ delta)) by apply elem_of_reverse. by destruct (bool_decide (en ∈ delta)).
  - intros old delta _ Ho. by apply gptoss_window.
Qed.

(** Tokens 1 and 2 mark reasoning, 7 8 a final message of GptOss. *)
Lemma streaming_end_exact_witness :
  is_reasoning_end_streaming (GptOssReasoningParser [7] [8] 9) ([1; 7; 4] ++ [8; 3]) [8; 3] = true /\
  is_reasoning_end_streaming (GptOssReasoningParser [7] [8] 9) ([1; 7; 4] ++ [8; 3]) [8; 3] =
    is_reasoning_end (GptOssReasoningParser [7] [8] 9) ([1; 7; 4] ++ [8; 3]).
Proof.
  split; [vm_compute; reflexivity|].
  apply (streaming_end_exact 1 2 None [7] [8] 9 true "" ltac:(done) ltac:(done)); [done|vm_compute; reflexivity].
Defined.
End Reasoning.
