(* ===== verification/StructuredOutput.v ===== *)
(** * StructuredOutput

    v1/structured_output/__init__.py and request.py: the manager of requests whose
    output follows a grammar. It prepares the rows of the bitmask for sampling,
    advancing each grammar over the drafts and rolling it back, and decides when a
    model that reasons before it answers starts to be held to its grammar.

    Compiling grammars is left to the backends; [grammar] is [None] until the
    future is done. *)

From S2P Require Import Prelude Request OrderedDict Grammar Reasoning.

Module StructuredOutput.
Import Request OrderedDict Grammar Reasoning.
#[local] Open Scope Z_scope.

(** The key is kept as its first component, the kind of constraint. The parser
    built from the keyword arguments is a function of them, so [reasoner], the
    object cached, is left out. *)
Record StructuredOutputRequest (G : Type) := mkSO {
  structured_output_option : StructuredOutputOptions;
  grammar : option G;
  reasoning_ended : option bool;
  reasoning_end_token_index : option Z;
  reasoning_parser_kwargs : bytes
}.
Arguments mkSO {G}.
Arguments structured_output_option {G}.
Arguments grammar {G}.
Arguments reasoning_ended {G}.
Arguments reasoning_end_token_index {G}.
Arguments reasoning_parser_kwargs {G}.

(** [structured_output_request] of each request, by the id of the request, and the
    rows of the tensor that is used again and again. *)
Record StructuredOutputManager (G Row : Type) := mkManager {
  structured_output_requests : string -> StructuredOutputRequest G;
  bitmask_rows : option (list Row)
}.
Arguments mkManager {G Row}.
Arguments structured_output_requests {G Row}.
Arguments bitmask_rows {G Row}.

(** The configuration. [allocate_token_bitmask] is the backend's, [full_mask] a row
    of ones; [thread_order] says in which order the threads that fill rows come to
    the items of their batches. *)
Record StructuredOutputConfig (Row : Type) := mkSOConfig {
  reasoner_cls : option (bytes -> ReasoningParser);
  enable_in_reasoning : bool;
  speculative : bool;
  num_speculative_tokens : Z;
  so_max_num_seqs : Z;
  is_diffusion : bool;
  allocate_token_bitmask : Z -> list Row;
  full_mask : Row;
  thread_order : list (list (string * Z * bool)) -> list (string * Z * bool)
}.
Arguments mkSOConfig {Row}.
Arguments reasoner_cls {Row}.
Arguments enable_in_reasoning {Row}.
Arguments speculative {Row}.
Arguments num_speculative_tokens {Row}.
Arguments so_max_num_seqs {Row}.
Arguments is_diffusion {Row}.
Arguments allocate_token_bitmask {Row}.
Arguments full_mask {Row}.
Arguments thread_order {Row}.

Section manager.
Context {G Row : Type} `{!StructuredOutputGrammar G Row} (cfg : StructuredOutputConfig Row).
#[local] Notation SOManager := (StructuredOutputManager G Row).
#[local] Notation SORequest := (StructuredOutputRequest G).

Definition update_so (id : string) (f : SORequest -> SORequest) : M SOManager unit :=
  modify (fun m => mkManager
    (fun j => if decide (j = id) then f (structured_output_requests m id) else structured_output_requests m j) (bitmask_rows m)).
Definition set_grammar (g : G) (q : SORequest) : SORequest :=
  mkSO (structured_output_option q) (Some g) (reasoning_ended q) (reasoning_end_token_index q) (reasoning_parser_kwargs q).
Definition set_reasoning_ended (b : bool) (q : SORequest) : SORequest :=
  mkSO (structured_output_option q) (grammar q) (Some b) (reasoning_end_token_index q) (reasoning_parser_kwargs q).
Definition set_reasoning_end_index (i : Z) (q : SORequest) : SORequest :=
  mkSO (structured_output_option q) (grammar q) (reasoning_ended q) (Some i) (reasoning_parser_kwargs q).

(** A call on the grammar of a request. *)
Definition on_grammar {A} (id : string) (op : M G A) : M SOManager A := fun m =>
  match grammar (structured_output_requests m id) with
  | None => (Err AttributeError, m)
  | Some g => let '(r, g') := op g in (r, (update_so id (set_grammar g') m).2)
  end.

Definition get_reasoner (request : Request) (m : SOManager) : option ReasoningParser :=
  if use_structured_output request
  then cls ← reasoner_cls cfg;
       Some (cls (reasoning_parser_kwargs (structured_output_requests m (request_id request))))
  else None.

Definition should_fill_bitmask (request : Request) : M SOManager bool :=
  m ← get;
  match get_reasoner request m with
  | None => mret true
  | Some reasoner =>
      if enable_in_reasoning cfg then mret true
      else match reasoning_ended (structured_output_requests m (request_id request)) with
           | Some b => mret b
           | None =>
               let b := is_reasoning_end_for_prompt reasoner (default [] (prompt_token_ids request)) in
               update_so (request_id request) (set_reasoning_ended b) ;; mret b
           end
  end.

(** The loop over [range(start, len(all_token_ids))]; [prefix] holds the tokens
    before [idx]. *)
Fixpoint find_reasoning_end_loop (reasoner : ReasoningParser) (prefix rest : list Z) : option Z :=
  match rest with
  | [] => None
  | token :: rest' =>
      if is_reasoning_end_streaming reasoner (prefix ++ [token]) [token] then Some (zlen prefix)
      else find_reasoning_end_loop reasoner (prefix ++ [token]) rest'
  end.
Definition find_reasoning_end_index (reasoner : ReasoningParser) (all_token_ids : list Z) (start : Z) : Z :=
  default (zlen all_token_ids - 1)
    (find_reasoning_end_loop reasoner (take (Z.to_nat start) all_token_ids) (drop (Z.to_nat start) all_token_ids)).

(** Where the tokens of this step start. *)
Definition delta_start (request : Request) : Z :=
  let delta_from := num_computed_tokens request - num_output_placeholders request in
  if 0 <=? delta_from then delta_from else Z.max (zlen (all_token_ids request) + delta_from) 0.

Definition should_advance (request : Request) : M SOManager bool :=
  if negb (use_structured_output request) then mret false
  else
    m ← get;
    let structured_req := structured_output_requests m (request_id request) in
    match get_reasoner request m with
    | None => mret true
    | Some reasoner =>
        if enable_in_reasoning cfg then mret true
        else if default false (reasoning_ended structured_req) then mret true
        else
          let start := delta_start request in
          if is_reasoning_end_streaming reasoner (all_token_ids request) (drop (Z.to_nat start) (all_token_ids request)) then
            update_so (request_id request) (set_reasoning_ended true) ;;
            if speculative cfg && bool_decide (structured_output_option structured_req = STRUCTURAL_TAG) then
              update_so (request_id request)
                (set_reasoning_end_index (find_reasoning_end_index reasoner (all_token_ids request) start)) ;;
              mret true
            else mret false
          else mret false
    end.

Definition trim_reasoning_for_advance (request : Request) (new_token_ids : list Z) : M SOManager (list Z) :=
  m ← get;
  mret (if negb (use_structured_output request) then new_token_ids
        else match reasoning_end_token_index (structured_output_requests m (request_id request)) with
             | None => new_token_ids
             | Some end_idx =>
                 let first_idx := zlen (all_token_ids request) - zlen new_token_ids in
                 let num_reasoning := end_idx + 1 - first_idx in
                 if num_reasoning <=? 0 then new_token_ids else drop (Z.to_nat num_reasoning) new_token_ids
             end).

(** ** The bitmask *)

(** [self._grammar_bitmask[index] = row] *)
Definition set_row (index : Z) (row : Row) : M SOManager unit :=
  m ← get;
  rows ← of_option AssertionError (bitmask_rows m);
  if index <? zlen rows
  then modify (fun m => mkManager (structured_output_requests m) (Some (<[Z.to_nat index := row]> rows)))
  else raise IndexError.

Definition fill_item '((id, index, apply_bitmask) : string * Z * bool) : M SOManager unit :=
  fill ← (if (apply_bitmask : bool) then terminated ← on_grammar id is_terminated; mret (negb terminated) else mret false);
  row ← (if (fill : bool) then on_grammar id fill_bitmask else mret (full_mask cfg));
  set_row index row.
Definition fill_bitmasks (batch : list (string * Z * bool)) : M SOManager unit := for_each fill_item batch.

Definition fill_bitmask_parallel_threshold : Z := 128.
Definition fill_bitmask_parallel_batch_size : nat := 16.

(** The batches that are handed to threads: those full, and the one that grows. *)
Definition parallel_item (requests : string -> option Request) (acc : list (list (string * Z * bool)) * list (string * Z * bool) * Z)
    (req_id : string) : M SOManager (list (list (string * Z * bool)) * list (string * Z * bool) * Z) :=
  let '(promises, batch, cumulative_index) := acc in
  request ← of_option KeyError (requests req_id);
  apply_bitmask ← should_fill_bitmask request;
  let batch := batch ++ [(req_id, cumulative_index, apply_bitmask)] in
  mret (if decide (length batch = fill_bitmask_parallel_batch_size)
        then (promises ++ [batch], [], cumulative_index + 1) else (promises, batch, cumulative_index + 1)).

(** What the loop over the drafts of a request carries: [cumulative_index],
    [apply_bitmask], [state_advancements] and [post_reasoning_end_in_window]. *)
Record Window := mkWindow {
  w_index : Z;
  w_apply : bool;
  w_advancements : Z;
  w_post_end : bool
}.

(** What a draft makes of [apply_bitmask] and of [post_reasoning_end_in_window],
    and whether the grammar is to advance over it. [detect] is the parser if the
    end of the reasoning is looked for. *)
Definition draft_decision (detect : option ReasoningParser) (history : list Z) (w : Window) (token : Z) : bool * bool * bool :=
  if token =? -1 then (false, false, w_post_end w)
  else match detect with
       | Some reasoner =>
           if negb (w_apply w) && is_reasoning_end_streaming reasoner (history ++ [token]) [token]
           then (true, false, true) else (w_apply w, w_apply w, w_post_end w)
       | None => (w_apply w, w_apply w, w_post_end w)
       end.

(** [history] holds the tokens of the request and the drafts before [token]. *)
Fixpoint fill_window (req_id : string) (detect : option ReasoningParser) (history rest : list Z) (w : Window) : M SOManager Window :=
  match rest with
  | [] => mret w
  | token :: rest' =>
      fill_bitmasks [(req_id, w_index w, w_apply w)] ;;
      let '(apply_bitmask, advance_grammar, post_end) := draft_decision detect history w token in
      advanced ← (if advance_grammar then
                    terminated ← on_grammar req_id is_terminated;
                    if (terminated : bool) then mret 0
                    else
                      accepted ← on_grammar req_id (accept_tokens [token]);
                      if (accepted : bool) then mret 1
                      else if negb post_end then raise AssertionError else mret 0
                  else mret 0);
      fill_window req_id detect (history ++ [token]) rest' (mkWindow (w_index w + 1) apply_bitmask (w_advancements w + advanced) post_end)
  end.

(** The rows of one request: one for each draft and one for the token after. *)
Definition serial_item (requests : string -> option Request) (scheduled_spec_decode_tokens : list (string * list Z))
    (cumulative_index : Z) (req_id : string) : M SOManager Z :=
  request ← of_option KeyError (requests req_id);
  apply_bitmask ← should_fill_bitmask request;
  m ← get;
  let detect := if negb apply_bitmask && negb (enable_in_reasoning cfg) then get_reasoner request m else None in
  let req_tokens := default [] (od_get req_id scheduled_spec_decode_tokens) in
  w ← fill_window req_id detect (all_token_ids request) req_tokens (mkWindow cumulative_index apply_bitmask 0 false);
  cumulative_index ←
    (if negb (is_diffusion cfg && negb (zlen req_tokens =? 0)) then
       fill ← should_fill_bitmask request;
       fill_bitmasks [(req_id, w_index w, fill || w_apply w)] ;;
       mret (w_index w + 1)
     else mret (w_index w));
  (if 0 <? w_advancements w then on_grammar req_id (rollback (w_advancements w)) else mret tt) ;;
  mret cumulative_index.

Definition grammar_bitmask (requests : string -> option Request) (structured_output_request_ids : list string)
    (scheduled_spec_decode_tokens : list (string * list Z)) : M SOManager (option (list Row)) :=
  match structured_output_request_ids with
  | [] => mret None
  | _ =>
      m ← get;
      (match bitmask_rows m with
       | None => modify (fun m => mkManager (structured_output_requests m)
           (Some (allocate_token_bitmask cfg (so_max_num_seqs cfg * (1 + num_speculative_tokens cfg)))))
       | Some _ => mret tt
       end) ;;
      cumulative_index ←
        (if (fill_bitmask_parallel_threshold <? zlen structured_output_request_ids) && (num_speculative_tokens cfg =? 0) then
           acc ← for_fold (parallel_item requests) structured_output_request_ids ([], [], 0);
           let '(promises, batch, cumulative_index) := acc in
           let promises := if decide (batch = []) then promises else promises ++ [batch] in
           fill_bitmasks (thread_order cfg promises) ;;
           mret cumulative_index
         else for_fold (serial_item requests scheduled_spec_decode_tokens) structured_output_request_ids 0);
      m ← get;
      rows ← of_option AttributeError (bitmask_rows m);
      mret (Some (take (Z.to_nat cumulative_index) rows))
  end.
End manager.
End StructuredOutput.
