(* ===== verification/StructuredSafety.v ===== *)
(** * StructuredSafety

    The rows of the bitmask are those the grammars allow, draft by draft, and the
    grammars are left as they were; reasoning is kept from them. Proved against
    [GrammarLaws], so for every grammar that follows the laws. *)

From S2P Require Import Prelude Request OrderedDict Grammar Reasoning StructuredOutput.

Module StructuredSafety.
Import Request OrderedDict Grammar Reasoning StructuredOutput.
#[local] Open Scope Z_scope.

Section safety.
Context {G Row : Type} `{!StructuredOutputGrammar G Row} (cfg : StructuredOutputConfig Row).
Context {L : Language Row} {consumed : list Z -> G -> Prop} {usable : G -> Prop} {GL : GrammarLaws G Row L consumed usable}.
#[local] Notation SOManager := (StructuredOutputManager G Row).
#[local] Notation so m id := (structured_output_requests m id).

(** The grammar of [id] is compiled and has consumed [hist]. *)
Definition tracks (id : string) (hist : list Z) (m : SOManager) : Prop :=
  exists g, grammar (so m id) = Some g /\ consumed hist g.

(** Only the grammar of [id] differs. *)
Definition erase (q : StructuredOutputRequest G) : StructuredOutputRequest G :=
  mkSO (structured_output_option q) None (reasoning_ended q) (reasoning_end_token_index q) (reasoning_parser_kwargs q).
Definition frame (id : string) (m m' : SOManager) : Prop :=
  (forall j, j <> id -> so m' j = so m j) /\ erase (so m' id) = erase (so m id).

Lemma frame_refl id m : frame id m m.
Proof. done. Qed.
Lemma frame_trans id m1 m2 m3 : frame id m1 m2 -> frame id m2 m3 -> frame id m1 m3.
Proof. intros [H1 E1] [H2 E2]. split; [|congruence]. intros j Hj. by rewrite H2, H1. Qed.

(** The first rows of a bitmask of [n] rows. *)
Definition filled (rows : list Row) (n : Z) (m : SOManager) : Prop :=
  exists rest, bitmask_rows m = Some (rows ++ rest) /\ zlen (rows ++ rest) = n.

(** ** Calls on a grammar *)

Definition kept (id : string) (hist : list Z) (m m' : SOManager) : Prop :=
  tracks id hist m' /\ frame id m m' /\ bitmask_rows m' = bitmask_rows m.

Lemma wp_on_grammar {A} id (op : M G A) hist hist' (P : A -> Prop) (Q : A -> SOManager -> Prop) m : tracks id hist m ->
  (forall g, consumed hist g -> wp op (fun a g' => P a /\ consumed (hist' a) g') g) ->
  (forall a m', P a -> kept id (hist' a) m m' -> Q a m') -> wp (on_grammar id op) Q m.
Proof.
  intros (g & Eg & Hc) Hop HQ. specialize (Hop g Hc). unfold wp, on_grammar in *. rewrite Eg.
  destruct (op g) as [[a|e] g']; [|done]. destruct Hop as [HP Hc']. apply HQ; [done|]. split; [|split; [split|done]].
  - exists g'. split; [|done]. cbn. by rewrite decide_True.
  - intros j Hj. cbn. by rewrite decide_False.
  - cbn. by rewrite decide_True.
Qed.

Lemma on_terminated id hist Q m : tracks id hist m -> (forall m', kept id hist m m' -> Q (ended L hist) m') ->
  wp (on_grammar id is_terminated) Q m.
Proof.
  intros Ht HQ. apply (wp_on_grammar id _ hist (fun _ => hist) (fun b => b = ended L hist)); [done| |by intros b m' ->; apply HQ].
  intros g. apply law_is_terminated.
Qed.

Lemma on_fill id hist Q m : tracks id hist m -> (forall m', kept id hist m m' -> Q (mask L hist) m') ->
  wp (on_grammar id fill_bitmask) Q m.
Proof.
  intros Ht HQ. apply (wp_on_grammar id _ hist (fun _ => hist) (fun r => r = mask L hist)); [done| |by intros b m' ->; apply HQ].
  intros g. apply law_fill.
Qed.

Lemma on_accept id hist t Q m : tracks id hist m -> ended L hist = false ->
  (forall m', kept id (if allowed L hist t then hist ++ [t] else hist) m m' -> Q (allowed L hist t) m') ->
  wp (on_grammar id (accept_tokens [t])) Q m.
Proof.
  intros Ht He HQ. apply (wp_on_grammar id _ hist (fun b : bool => if b then hist ++ [t] else hist) (fun b => b = allowed L hist t));
    [done| |by intros b m' ->; apply HQ].
  intros g Hg. destruct (allowed L hist t) eqn:Ha.
  - eapply wp_mono; [apply (law_accept hist [t] g Hg He); cbn; by rewrite Ha|]. by intros b g' [-> Hg'].
  - eapply wp_mono; [by apply (law_reject hist t g Hg He)|]. by intros b g' [-> Hg'].
Qed.

Lemma on_rollback id hist ts Q m : tracks id (hist ++ ts) m -> ts <> [] -> (forall m', kept id hist m m' -> Q tt m') ->
  wp (on_grammar id (rollback (zlen ts))) Q m.
Proof.
  intros Ht Hts HQ. apply (wp_on_grammar id _ (hist ++ ts) (fun _ => hist) (fun _ => True)); [done| |by intros [] m' _; apply HQ].
  intros g Hg. eapply wp_mono; [by apply law_rollback|done].
Qed.

(** ** One row *)

Definition row_of (hist : list Z) (apply_bitmask : bool) : Row :=
  if apply_bitmask && negb (ended L hist) then mask L hist else full_mask cfg.

Lemma set_row_ok index row (rows : list Row) (m : SOManager) : bitmask_rows m = Some rows -> 0 <= index < zlen rows ->
  wp (set_row index row) (fun _ m' => bitmask_rows m' = Some (<[Z.to_nat index := row]> rows) /\ forall j, so m' j = so m j) m.
Proof.
  intros E Hi. apply wp_bind, wp_get, wp_bind. eapply wp_of_option; [exact E|]. rewrite (proj2 (Z.ltb_lt _ _)) by lia.
  by apply wp_modify.
Qed.

Lemma fill_item_ok id hist apply index (rows : list Row) m : tracks id hist m -> bitmask_rows m = Some rows -> 0 <= index < zlen rows ->
  wp (fill_item cfg (id, index, apply)) (fun _ m' => tracks id hist m' /\ frame id m m' /\
    bitmask_rows m' = Some (<[Z.to_nat index := row_of hist apply]> rows)) m.
Proof.
  intros Ht Hb Hlt.
  assert (Hrow : forall row m1, kept id hist m m1 -> row = row_of hist apply ->
    wp (set_row index row) (fun _ m' => tracks id hist m' /\ frame id m m' /\
      bitmask_rows m' = Some (<[Z.to_nat index := row_of hist apply]> rows)) m1).
  { intros row m1 (Ht1 & Hfr & Eb) ->. eapply wp_mono; [apply (set_row_ok _ _ rows); [congruence|done]|].
    intros [] m2 [Hf2 E2]. destruct Ht1 as (g & Eg & Hg). split; [exists g; by rewrite E2|].
    split; [|done]. eapply frame_trans; [exact Hfr|]. split; [by intros; rewrite E2|by rewrite E2]. }
  unfold row_of in *. apply wp_bind. destruct apply; cbn [andb] in *.
  - apply wp_bind, (on_terminated id hist); [done|]. intros m1 Hk. apply wp_ret, wp_bind.
    destruct (ended L hist) eqn:He; cbn [negb]; [by apply wp_ret, Hrow|].
    apply (on_fill id hist); [apply Hk|]. intros m2 (Ht2 & Hf2 & Eb2). apply Hrow; [|done]. destruct Hk as (_ & Hf1 & Eb1).
    split; [done|]. split; [by eapply frame_trans|congruence].
  - by apply wp_ret, wp_bind, wp_ret, Hrow.
Qed.

Lemma fill_one_ok id hist apply rows n m : tracks id hist m -> filled rows n m -> zlen rows < n ->
  wp (fill_bitmasks cfg [(id, zlen rows, apply)])
    (fun _ m' => tracks id hist m' /\ frame id m m' /\ filled (rows ++ [row_of hist apply]) n m') m.
Proof.
  intros Ht (rest & E & Hn) Hlt. destruct rest as [|r rest]; [rewrite app_nil_r in Hn; lia|].
  apply wp_bind. eapply wp_mono; [by apply (fill_item_ok id hist apply _ _ m Ht E); lia|]. intros [] m' (Ht' & Hfr & Eb).
  apply wp_ret. split; [done|]. split; [done|]. exists rest. rewrite Eb, Nat2Z.id. rewrite <- (Nat.add_0_r (length rows)).
  rewrite insert_app_r. cbn. rewrite <- app_assoc. split; [done|]. rewrite <- Hn, !length_app. simpl. lia.
Qed.

(** ** The rows of a request *)

(** A pure account of the drafts of a request, without positions, calls and
    roll-backs: the rows of the drafts, the drafts the grammar takes, and whether
    the token after them is constrained. [None]: a draft that was to be valid is
    not. *)
Fixpoint window_spec (detect : option ReasoningParser) (history rest : list Z) (apply_bitmask post_end : bool) (hist : list Z)
    : option (list Row * list Z * bool) :=
  match rest with
  | [] => Some ([], [], apply_bitmask)
  | token :: rest' =>
      let '(apply', advance, post') := draft_decision detect history (mkWindow 0 apply_bitmask 0 post_end) token in
      took ← (if advance && negb (ended L hist)
              then if allowed L hist token then Some [token] else if post' then Some [] else None
              else Some []);
      '(rows, ts, final) ← window_spec detect (history ++ [token]) rest' apply' post' (hist ++ took);
      Some (row_of hist apply_bitmask :: rows, took ++ ts, final)
  end.

Lemma window_spec_length detect history rest apply post hist rows ts final :
  window_spec detect history rest apply post hist = Some (rows, ts, final) -> length rows = length rest.
Proof.
  revert history apply post hist rows ts final. induction rest as [|t rest IH]; intros history apply post hist rows ts final; simpl.
  - by intros [= <- _ _].
  - destruct (draft_decision _ _ _ _) as [[a adv] p]. intros (took & _ & H)%bind_Some.
    apply bind_Some in H as ([[rows' ts'] f'] & H & [= <- _ _]). simpl. f_equal. by eapply IH.
Qed.

Lemma filled_more rows n (m m' : SOManager) : filled rows n m -> bitmask_rows m' = bitmask_rows m -> filled rows n m'.
Proof. intros (rest & E & Hn) Eb. exists rest. by rewrite Eb. Qed.

Lemma fill_window_ok id detect history rest w hist rows n rs ts final m :
  window_spec detect history rest (w_apply w) (w_post_end w) hist = Some (rs, ts, final) ->
  tracks id hist m -> filled rows n m -> w_index w = zlen rows -> zlen rows + zlen rest <= n ->
  wp (fill_window cfg id detect history rest w) (fun w' m' => tracks id (hist ++ ts) m' /\ frame id m m' /\
    filled (rows ++ rs) n m' /\ w_index w' = zlen (rows ++ rs) /\ w_apply w' = final /\
    w_advancements w' = w_advancements w + zlen ts) m.
Proof.
  revert history w hist rows rs ts m. induction rest as [|t rest IH]; intros history w hist rows rs ts m Hs Ht Hf Hi Hn.
  { cbn in Hs. injection Hs as <- <- <-. apply wp_ret. rewrite !app_nil_r. split; [done|]. split; [done|]. cbn. by rewrite Z.add_0_r. }
  cbn [fill_window window_spec] in *. rewrite Hi. change (zlen (t :: rest)) with (Z.of_nat (S (length rest))) in Hn.
  apply wp_bind. eapply wp_mono; [by apply (fill_one_ok id hist (w_apply w) rows n); [..|lia]|]. intros [] m1 (Ht1 & Hfr1 & Hf1).
  change (draft_decision detect history w t) with (draft_decision detect history (mkWindow 0 (w_apply w) 0 (w_post_end w)) t).
  destruct (draft_decision _ _ _ _) as [[a adv] p]. apply bind_Some in Hs as (took & Htook & Hs).
  apply bind_Some in Hs as ([[rows' ts'] f'] & Hs & [= <- <- <-]).
  assert (Hgo : forall m2 d, tracks id (hist ++ took) m2 -> frame id m1 m2 -> bitmask_rows m2 = bitmask_rows m1 -> d = zlen took ->
    wp (fill_window cfg id detect (history ++ [t]) rest (mkWindow (zlen rows + 1) a (w_advancements w + d) p))
      (fun w' m' => tracks id (hist ++ took ++ ts') m' /\ frame id m m' /\ filled (rows ++ row_of hist (w_apply w) :: rows') n m' /\
        w_index w' = zlen (rows ++ row_of hist (w_apply w) :: rows') /\ w_apply w' = f' /\
        w_advancements w' = w_advancements w + zlen (took ++ ts')) m2).
  { intros m2 d Ht2 Hfr2 Eb2 ->. eapply wp_mono; [eapply (IH _ _ _ (rows ++ [row_of hist (w_apply w)])); [exact Hs|exact Ht2| | |]|].
    - by eapply filled_more.
    - cbn. rewrite length_app. simpl. lia.
    - rewrite length_app. simpl. lia.
    - rewrite <- !app_assoc. cbn [w_advancements app]. intros w' m' (Ht' & Hfr' & Hf' & Hi' & Ha' & Hd'). split; [done|].
      split; [eapply frame_trans; [exact Hfr1|by eapply frame_trans]|]. split; [done|]. split; [done|]. split; [done|].
      rewrite Hd', length_app. lia. }
  apply wp_bind. destruct adv; cbn [andb] in Htook.
  - apply wp_bind, (on_terminated id hist); [done|]. intros m2 (Ht2 & Hfr2 & Eb2). destruct (ended L hist) eqn:He; cbn [negb] in Htook.
    + injection Htook as <-. apply wp_ret, Hgo; [by rewrite app_nil_r|done..].
    + apply wp_bind, (on_accept id hist); [done..|]. intros m3 (Ht3 & Hfr3 & Eb3). destruct (allowed L hist t).
      * injection Htook as <-. apply wp_ret, Hgo; [done|by eapply frame_trans|congruence|done].
      * destruct p; [|done]. injection Htook as <-. apply wp_ret, Hgo; [by rewrite app_nil_r|by eapply frame_trans|congruence|done].
  - injection Htook as <-. apply wp_ret, Hgo; [by rewrite app_nil_r|done..].
Qed.

(** ** Whether a request is constrained *)

Definition fill_decision (request : Request) (m : SOManager) : bool :=
  match get_reasoner cfg request m with
  | None => true
  | Some reasoner =>
      if enable_in_reasoning cfg then true
      else match reasoning_ended (so m (request_id request)) with
           | Some b => b
           | None => is_reasoning_end_for_prompt reasoner (default [] (prompt_token_ids request))
           end
  end.

Context (requests : string -> option Request) (Hids : forall id q, requests id = Some q -> request_id q = id).

(** What is known of the requests stays, and no grammar but that of [ids] moves. *)
Record steady (m m' : SOManager) : Prop := {
  st_decision id q : requests id = Some q -> fill_decision q m' = fill_decision q m;
  st_reasoner id q : requests id = Some q -> get_reasoner cfg q m' = get_reasoner cfg q m;
  st_index id : reasoning_end_token_index (so m' id) = reasoning_end_token_index (so m id);
  st_kwargs id : reasoning_parser_kwargs (so m' id) = reasoning_parser_kwargs (so m id)
}.

Lemma steady_refl m : steady m m.
Proof. done. Qed.
Lemma steady_trans m1 m2 m3 : steady m1 m2 -> steady m2 m3 -> steady m1 m3.
Proof.
  intros [A1 B1 C1 D1] [A2 B2 C2 D2]. constructor.
  - intros id q H. by rewrite (A2 id), (A1 id).
  - intros id q H. by rewrite (B2 id), (B1 id).
  - intros id. by rewrite C2.
  - intros id. by rewrite D2.
Qed.

Lemma same_settings_steady m m' : (forall j, erase (so m' j) = erase (so m j)) -> steady m m'.
Proof.
  intros H.
  assert (Hk : forall j, reasoning_parser_kwargs (so m' j) = reasoning_parser_kwargs (so m j)) by (intros j; by injection (H j)).
  assert (He : forall j, reasoning_ended (so m' j) = reasoning_ended (so m j)) by (intros j; by injection (H j)).
  assert (Hr : forall q, get_reasoner cfg q m' = get_reasoner cfg q m) by (intros q; unfold get_reasoner; by rewrite Hk).
  constructor; [intros id q _; unfold fill_decision; by rewrite Hr, He|done| |done]. intros id. by injection (H id).
Qed.

Lemma frame_steady id m m' : frame id m m' -> steady m m'.
Proof. intros [Ho He]. apply same_settings_steady. intros j. destruct (decide (j = id)) as [->|Hj]; [done|]. by rewrite Ho. Qed.

(** Asking resolves the question for good, and moves no grammar. *)
Lemma should_fill_ok id q m : requests id = Some q ->
  wp (should_fill_bitmask cfg q) (fun b m' => b = fill_decision q m /\ steady m m' /\
    (forall j, grammar (so m' j) = grammar (so m j)) /\ bitmask_rows m' = bitmask_rows m) m.
Proof.
  intros Hq. unfold fill_decision. apply wp_bind, wp_get. destruct (get_reasoner cfg q m) as [reasoner|] eqn:Er; [|by apply wp_ret].
  destruct (enable_in_reasoning cfg) eqn:Een; [by apply wp_ret|].
  destruct (reasoning_ended (so m (request_id q))) as [b|] eqn:Eb; [by apply wp_ret|].
  apply wp_bind, wp_modify, wp_ret. split; [done|]. set (m' := mkManager _ _).
  assert (Hk : forall j, reasoning_parser_kwargs (so m' j) = reasoning_parser_kwargs (so m j)).
  { intros j. cbn. by destruct (decide (j = request_id q)) as [->|]. }
  assert (Hr : forall q', get_reasoner cfg q' m' = get_reasoner cfg q' m) by (intros q'; unfold get_reasoner; by rewrite Hk).
  split; [|by split; [intros j; cbn; destruct (decide (j = request_id q)) as [->|]|]]. constructor; [|done| |done].
  - intros id' q' Hq'. unfold fill_decision. rewrite Hr. destruct (get_reasoner cfg q' m) as [r'|] eqn:Er'; [|done]. rewrite Een. cbn.
    destruct (decide (request_id q' = request_id q)) as [E|]; [|done]. cbn.
    assert (id' = id) as -> by (rewrite <- (Hids _ _ Hq), <- (Hids _ _ Hq'); done). rewrite Hq in Hq'. injection Hq' as <-.
    rewrite Eb. congruence.
  - intros j. cbn. by destruct (decide (j = request_id q)) as [->|].
Qed.

(** ** One request *)

(** The rows of a request: those of its drafts and that of the token after them. *)
Definition request_rows (request : Request) (m : SOManager) (hist drafts : list Z) : option (list Row) :=
  let constrained := fill_decision request m in
  let detect := if negb constrained && negb (enable_in_reasoning cfg) then get_reasoner cfg request m else None in
  '(rows, ts, final) ← window_spec detect (all_token_ids request) drafts constrained false hist;
  Some (rows ++ if is_diffusion cfg && negb (zlen drafts =? 0) then [] else [row_of (hist ++ ts) (constrained || final)]).

Lemma request_rows_steady id q m m' hist drafts : requests id = Some q -> steady m m' ->
  request_rows q m' hist drafts = request_rows q m hist drafts.
Proof. intros Hq [A B _ _]. unfold request_rows. by rewrite (A id), (B id). Qed.

Lemma request_rows_length q m hist drafts rs : request_rows q m hist drafts = Some rs -> zlen rs <= 1 + zlen drafts.
Proof.
  unfold request_rows. intros ([[rows ts] f] & H & [= <-])%bind_Some. apply window_spec_length in H.
  rewrite length_app, H. destruct (_ && _); simpl; lia.
Qed.

Definition others_kept (id : string) (m m' : SOManager) : Prop := forall j, j <> id -> grammar (so m' j) = grammar (so m j).

Lemma frame_others id m m' : frame id m m' -> others_kept id m m'.
Proof. intros [H _] j Hj. by rewrite H. Qed.

Lemma others_trans id m1 m2 m3 : others_kept id m1 m2 -> others_kept id m2 m3 -> others_kept id m1 m3.
Proof. intros H1 H2 j Hj. by rewrite H2, H1. Qed.

Lemma tracks_grammar id hist m m' : grammar (so m' id) = grammar (so m id) -> tracks id hist m -> tracks id hist m'.
Proof. intros E (g & Eg & Hg). exists g. by rewrite E. Qed.

Lemma serial_item_ok spec id q hist rows n rs m : requests id = Some q -> tracks id hist m -> filled rows n m ->
  request_rows q m hist (default [] (od_get id spec)) = Some rs -> zlen rows + zlen rs <= n ->
  wp (serial_item cfg requests spec (zlen rows) id) (fun i m' => i = zlen (rows ++ rs) /\ tracks id hist m' /\
    filled (rows ++ rs) n m' /\ steady m m' /\ others_kept id m m') m.
Proof.
  intros Hq Ht Hf Hrs Hn. apply wp_bind. eapply wp_of_option; [exact Hq|]. apply wp_bind.
  eapply wp_mono; [by apply (should_fill_ok id)|]. intros b m1 (-> & Hs1 & Hg1 & Eb1). apply wp_bind, wp_get.
  set (drafts := default [] _) in *. unfold request_rows in Hrs.
  rewrite (st_reasoner _ _ Hs1 id q Hq). set (detect := if negb (fill_decision q m) && negb (enable_in_reasoning cfg) then get_reasoner cfg q m else None) in *.
  apply bind_Some in Hrs as ([[rs' ts] final] & Hw & [= <-]).
  assert (Hlen : length rs' = length drafts) by by eapply window_spec_length.
  apply wp_bind. eapply wp_mono; [eapply (fill_window_ok id detect _ drafts _ hist rows n rs' ts final)|].
  { exact Hw. } { apply (tracks_grammar _ _ m); [apply Hg1|done]. } { by eapply filled_more. } { done. } { rewrite length_app in Hn. lia. }
  intros w m2 (Ht2 & Hfr2 & Hf2 & Hi2 & Ha2 & Hd2). cbn in Hd2.
  assert (Hs2 : steady m m2) by (eapply steady_trans; [exact Hs1|by eapply frame_steady]).
  assert (Ho2 : others_kept id m m2) by (eapply others_trans; [by intros j _; apply Hg1|by apply frame_others]).
  assert (Hend : forall m3 i rs3, tracks id (hist ++ ts) m3 -> filled (rows ++ rs3) n m3 -> steady m2 m3 -> others_kept id m2 m3 ->
    i = zlen (rows ++ rs3) ->
    wp ((if 0 <? w_advancements w then on_grammar id (rollback (w_advancements w)) else mret tt) ;; mret i)
      (fun i m' => i = zlen (rows ++ rs3) /\ tracks id hist m' /\ filled (rows ++ rs3) n m' /\ steady m m' /\ others_kept id m m') m3).
  { intros m3 i rs3 Ht3 Hf3 Hs3 Ho3 ->. apply wp_bind. rewrite Hd2. destruct (Z.ltb_spec 0 (0 + zlen ts)) as [Hpos|Hzero].
    - apply (on_rollback id hist ts); [done|by intros ->|]. intros m4 (Ht4 & Hfr4 & Eb4). apply wp_ret. split; [done|].
      split; [done|]. split; [by eapply filled_more|]. split.
      + eapply steady_trans; [exact Hs2|]. eapply steady_trans; [exact Hs3|]. by eapply frame_steady.
      + eapply others_trans; [exact Ho2|]. eapply others_trans; [exact Ho3|]. by apply frame_others.
    - apply wp_ret, wp_ret. destruct ts; [|simpl in *; lia]. rewrite app_nil_r in Ht3. split; [done|]. split; [done|]. split; [done|].
      split; [by eapply steady_trans|by eapply others_trans]. }
  apply wp_bind. destruct (is_diffusion cfg && negb (zlen drafts =? 0)) eqn:Edif; cbn [negb].
  - apply wp_ret. rewrite app_nil_r. by apply Hend.
  - rewrite length_app in Hn. simpl in Hn. apply wp_bind. eapply wp_mono; [by apply (should_fill_ok id q)|].
    intros b m3 (-> & Hs3 & Hg3 & Eb3). rewrite (st_decision _ _ Hs2 id q Hq). apply wp_bind. rewrite Hi2, Ha2.
    eapply wp_mono; [apply (fill_one_ok id (hist ++ ts) _ (rows ++ rs') n)|].
    { apply (tracks_grammar _ _ m2); [apply Hg3|done]. } { by eapply filled_more. } { rewrite length_app. lia. }
    intros [] m4 (Ht4 & Hfr4 & Hf4). apply wp_ret. rewrite <- app_assoc in Hf4. apply Hend; [done|done| | |].
    + eapply steady_trans; [exact Hs3|]. by eapply frame_steady.
    + eapply others_trans; [by intros j _; apply Hg3|]. by apply frame_others.
    + rewrite app_assoc, (length_app (rows ++ rs')). simpl. lia.
Qed.
(** ** All requests, one after the other *)

Context (H : string -> list Z).
Definition tracked (all : list string) (m : SOManager) : Prop := forall id, id ∈ all -> tracks id (H id) m.

(** The rows of every request, in order. *)
Definition expected_rows (spec : list (string * list Z)) (m : SOManager) (ids : list string) : option (list (list Row)) :=
  mapM (fun id => q ← requests id; request_rows q m (H id) (default [] (od_get id spec))) ids.

Lemma expected_steady spec m m' ids : steady m m' -> expected_rows spec m' ids = expected_rows spec m ids.
Proof.
  intros Hs. unfold expected_rows. induction ids as [|id ids IH]; [done|]. cbn. rewrite IH. destruct (requests id) as [q|] eqn:Hq; [|done].
  cbn. by rewrite (request_rows_steady id q m m').
Qed.

Lemma serial_items_ok spec all ids rows n rss m : ids ⊆ all -> tracked all m -> filled rows n m ->
  expected_rows spec m ids = Some rss -> zlen rows + zlen (mjoin rss) <= n ->
  wp (for_fold (serial_item cfg requests spec) ids (zlen rows)) (fun i m' => i = zlen (rows ++ mjoin rss) /\ tracked all m' /\
    filled (rows ++ mjoin rss) n m' /\ steady m m') m.
Proof.
  revert rows rss m. induction ids as [|id ids IH]; intros rows rss m Hall Ht Hf Hrs Hn.
  - injection Hrs as <-. cbn. rewrite app_nil_r. by apply wp_ret.
  - unfold expected_rows in Hrs. cbn in Hrs. apply bind_Some in Hrs as (rs & Hq & Hrs).
    apply bind_Some in Hq as (q & Hq & Hr). apply bind_Some in Hrs as (rss' & Hrs & [= <-]). cbn in Hn |- *. rewrite length_app in Hn.
    apply wp_bind. eapply wp_mono; [apply (serial_item_ok spec id q (H id) rows n rs); [done|apply Ht; set_solver|done|done|lia]|].
    intros i m1 (-> & Ht1 & Hf1 & Hs1 & Ho1).
    eapply wp_mono; [apply (IH (rows ++ rs) rss'); [set_solver| |done| |]|].
    + intros j Hj. destruct (decide (j = id)) as [->|Hne]; [done|]. apply (tracks_grammar _ _ m); [by apply Ho1|by apply Ht].
    + change (expected_rows spec m1 ids = Some rss'). by rewrite (expected_steady spec m m1).
    + rewrite length_app, Nat2Z.inj_add, <- Z.add_assoc. rewrite Nat2Z.inj_add in Hn. exact Hn.
    + rewrite <- app_assoc. intros i m2 (-> & Ht2 & Hf2 & Hs2). split; [done|]. split; [done|]. split; [done|]. by eapply steady_trans.
Qed.

(** ** All requests, in threads *)

Definition decision (m : SOManager) (id : string) : bool :=
  match requests id with Some q => fill_decision q m | None => true end.
Fixpoint items_from (i : Z) (m : SOManager) (ids : list string) : list (string * Z * bool) :=
  match ids with
  | [] => []
  | id :: ids' => (id, i, decision m id) :: items_from (i + 1) m ids'
  end.

Lemma items_from_steady i m m' ids : steady m m' -> items_from i m' ids = items_from i m ids.
Proof.
  intros Hs. revert i. induction ids as [|id ids IH]; intros i; simpl; [done|]. rewrite IH. unfold decision.
  destruct (requests id) as [q|] eqn:Hq; [|done]. by rewrite (st_decision _ _ Hs id q Hq).
Qed.

Lemma items_from_lookup i m ids k id : ids !! k = Some id -> items_from i m ids !! k = Some (id, i + Z.of_nat k, decision m id).
Proof.
  revert i k. induction ids as [|id' ids IH]; intros i [|k] Hk; try done; cbn in *.
  - injection Hk as ->. by rewrite Z.add_0_r.
  - etransitivity; [exact (IH (i + 1) k Hk)|]. by replace (i + 1 + Z.of_nat k) with (i + Z.of_nat (S k)) by lia.
Qed.

Lemma items_from_elem i m ids item : item ∈ items_from i m ids ->
  exists k id, ids !! k = Some id /\ item = (id, i + Z.of_nat k, decision m id).
Proof.
  intros (k & Hk)%list_elem_of_lookup. destruct (ids !! k) as [id|] eqn:E.
  - exists k, id. rewrite (items_from_lookup i m ids k id E) in Hk. by injection Hk.
  - apply lookup_ge_None_1 in E. assert (Hlen : length (items_from i m ids) = length ids).
    { clear. revert i. induction ids as [|id ids IH]; intros i; simpl; [done|]. by rewrite IH. }
    rewrite lookup_ge_None_2 in Hk by lia. done.
Qed.

Lemma items_from_nodup i m ids : NoDup ((fun x => x.1.2) <$> items_from i m ids).
Proof.
  revert i. induction ids as [|id ids IH]; intros i; simpl; constructor; [|apply IH].
  intros (x & Hx & Hin)%list_elem_of_fmap. apply items_from_elem in Hin as (k & id' & _ & ->). cbn in Hx. lia.
Qed.

Lemma parallel_items_ok ids promises batch i m : (forall id, id ∈ ids -> is_Some (requests id)) ->
  wp (for_fold (parallel_item cfg requests) ids (promises, batch, i)) (fun acc m' =>
    mjoin acc.1.1 ++ acc.1.2 = (mjoin promises ++ batch) ++ items_from i m ids /\ acc.2 = i + zlen ids /\
    steady m m' /\ (forall j, grammar (so m' j) = grammar (so m j)) /\ bitmask_rows m' = bitmask_rows m) m.
Proof.
  revert promises batch i m. induction ids as [|id ids IH]; intros promises batch i m Hreq; cbn [for_fold].
  - apply wp_ret. cbn. by rewrite app_nil_r, Z.add_0_r.
  - destruct (Hreq id ltac:(set_solver)) as [q Hq]. apply wp_bind, wp_bind. eapply wp_of_option; [exact Hq|]. apply wp_bind.
    eapply wp_mono; [by apply (should_fill_ok id)|]. intros b m1 (-> & Hs1 & Hg1 & Eb1). apply wp_ret.
    assert (Hstep : forall promises' batch', mjoin promises' ++ batch' = mjoin promises ++ batch ++ [(id, i, fill_decision q m)] ->
      wp (for_fold (parallel_item cfg requests) ids (promises', batch', i + 1)) (fun acc m' =>
        mjoin acc.1.1 ++ acc.1.2 = (mjoin promises ++ batch) ++ items_from i m (id :: ids) /\ acc.2 = i + zlen (id :: ids) /\
        steady m m' /\ (forall j, grammar (so m' j) = grammar (so m j)) /\ bitmask_rows m' = bitmask_rows m) m1).
    { intros promises' batch' E. eapply wp_mono; [apply IH; intros; apply Hreq; set_solver|].
      intros acc m2 (Eitems & Ei & Hs2 & Hg2 & Eb2). rewrite Eitems, E, (items_from_steady _ m m1 ids Hs1).
      split; [cbn; unfold decision; rewrite Hq, <- !app_assoc; done|]. split; [simpl in *; lia|]. split; [by eapply steady_trans|].
      split; [intros j; by rewrite Hg2|congruence]. }
    case_decide; apply Hstep; [|done]. rewrite join_app. cbn. by rewrite !app_nil_r.
Qed.

Definition write_item (rows : list Row) (item : string * Z * bool) : list Row :=
  <[Z.to_nat item.1.2 := row_of (H item.1.1) item.2]> rows.

Lemma write_items_length items rows : length (foldl write_item rows items) = length rows.
Proof. revert rows. induction items as [|x items IH]; intros rows; simpl; [done|]. rewrite IH. apply length_insert. Qed.

Lemma write_items_other items rows k : (forall x, x ∈ items -> Z.to_nat x.1.2 <> k) -> foldl write_item rows items !! k = rows !! k.
Proof.
  revert rows. induction items as [|x items IH]; intros rows Hk; simpl; [done|]. rewrite IH by (intros; apply Hk; set_solver).
  apply list_lookup_insert_ne, Hk. set_solver.
Qed.

Lemma write_items_lookup items rows x : NoDup ((fun x => x.1.2) <$> items) -> (forall y, y ∈ items -> 0 <= y.1.2 < zlen rows) ->
  x ∈ items -> foldl write_item rows items !! Z.to_nat x.1.2 = Some (row_of (H x.1.1) x.2).
Proof.
  revert rows. induction items as [|y items IH]; intros rows Hnd Hle Hx; [by apply elem_of_nil in Hx|].
  cbn in Hnd. apply NoDup_cons in Hnd as [Hy Hnd]. cbn [foldl]. apply elem_of_cons in Hx as [->|Hx].
  - rewrite write_items_other; [apply list_lookup_insert_eq; pose proof (Hle y ltac:(set_solver)); lia|].
    intros z Hz E. apply Hy, list_elem_of_fmap. exists z. split; [|done].
    pose proof (Hle y ltac:(set_solver)). pose proof (Hle z ltac:(set_solver)). lia.
  - apply IH; [done| |done]. intros z Hz. unfold write_item. rewrite length_insert. apply Hle. set_solver.
Qed.

Lemma fill_items_ok all items rows m : (forall x, x ∈ items -> 0 <= x.1.2 < zlen rows /\ x.1.1 ∈ all) -> tracked all m ->
  bitmask_rows m = Some rows ->
  wp (fill_bitmasks cfg items) (fun _ m' => tracked all m' /\ steady m m' /\ bitmask_rows m' = Some (foldl write_item rows items)) m.
Proof.
  revert rows m. induction items as [|[[id i] b] items IH]; intros rows m Hle Ht Eb; [by apply wp_ret|].
  destruct (Hle (id, i, b) ltac:(set_solver)) as [Hi Hid]. cbn in Hi, Hid. apply wp_bind.
  eapply wp_mono; [by apply (fill_item_ok id (H id) b i rows); [apply Ht|..]|]. intros [] m1 (Ht1 & Hfr & Eb1). cbn [foldl].
  eapply wp_mono; [apply (IH (write_item rows (id, i, b)) m1)| ].
  - intros x Hx. unfold write_item. rewrite length_insert. apply Hle. set_solver.
  - intros j Hj. destruct (decide (j = id)) as [->|Hne]; [done|]. apply (tracks_grammar _ _ m); [|by apply Ht].
    by apply (frame_others id).
  - exact Eb1.
  - intros _ m2 (Ht2 & Hs2 & Eb2). split; [done|]. split; [|done]. eapply steady_trans; [by eapply frame_steady|done].
Qed.

(** The threads write every row, in whatever order. *)
Lemma written_rows items m ids rows : items ≡ₚ items_from 0 m ids -> zlen ids <= zlen rows ->
  take (length ids) (foldl write_item rows items) = (fun id => row_of (H id) (decision m id)) <$> ids.
Proof.
  intros Hp Hlen. assert (Hnd : NoDup ((fun x => x.1.2) <$> items)) by (rewrite Hp; apply items_from_nodup).
  assert (Hle : forall y, y ∈ items -> 0 <= y.1.2 < zlen rows).
  { intros y. rewrite Hp. intros (k & id & Hk & ->)%items_from_elem. apply lookup_lt_Some in Hk. cbn. lia. }
  apply list_eq. intros k. rewrite list_lookup_fmap. destruct (ids !! k) as [id|] eqn:Hk; cbn.
  - pose proof (lookup_lt_Some _ _ _ Hk). rewrite lookup_take_lt by done.
    assert (Hin : (id, 0 + Z.of_nat k, decision m id) ∈ items).
    { rewrite Hp. apply list_elem_of_lookup. exists k. by apply items_from_lookup. }
    pose proof (write_items_lookup items rows _ Hnd Hle Hin) as Hw. cbn in Hw. by rewrite Z.add_0_l, Nat2Z.id in Hw.
  - apply lookup_ge_None_1 in Hk. apply lookup_take_ge. done.
Qed.
(** ** The whole bitmask *)

Definition total_rows : Z := so_max_num_seqs cfg * (1 + num_speculative_tokens cfg).

(** No bitmask yet, or one of the size allocated. *)
Definition sized (m : SOManager) : Prop := forall rows, bitmask_rows m = Some rows -> zlen rows = total_rows.

Lemma expected_length spec m ids rss : (forall id, zlen (default [] (od_get id spec)) <= num_speculative_tokens cfg) ->
  expected_rows spec m ids = Some rss -> zlen (mjoin rss) <= zlen ids * (1 + num_speculative_tokens cfg).
Proof.
  intros Hd. revert rss. induction ids as [|id ids IH]; intros rss Hrs; [by injection Hrs as <-|].
  unfold expected_rows in Hrs. cbn in Hrs. apply bind_Some in Hrs as (rs & Hq & Hrs).
  apply bind_Some in Hq as (q & Hq & Hr). apply bind_Some in Hrs as (rss' & Hrs & [= <-]).
  pose proof (request_rows_length _ _ _ _ _ Hr). pose proof (Hd id).
  assert (Hrest : zlen (mjoin rss') <= zlen ids * (1 + num_speculative_tokens cfg)) by (apply IH; exact Hrs).
  cbn [mjoin list_join]. rewrite length_app, Nat2Z.inj_add. cbn [length]. rewrite Nat2Z.inj_succ, Z.mul_succ_l.
  etransitivity; [apply Z.add_le_mono; [|exact Hrest]; transitivity (1 + num_speculative_tokens cfg); [lia|reflexivity]|]. lia.
Qed.

(** Without drafts there is one row per request. *)
Lemma expected_single spec m ids rss : (forall id, default [] (od_get id spec) = []) -> expected_rows spec m ids = Some rss ->
  mjoin rss = (fun id => row_of (H id) (decision m id)) <$> ids /\ forall id, id ∈ ids -> is_Some (requests id).
Proof.
  intros Hd. revert rss. induction ids as [|id ids IH]; intros rss Hrs; [injection Hrs as <-; split; [done|by intros ? ?%elem_of_nil]|].
  unfold expected_rows in Hrs. cbn in Hrs. rewrite Hd in Hrs. apply bind_Some in Hrs as (rs & Hq & Hrs).
  apply bind_Some in Hq as (q & Hq & Hr). apply bind_Some in Hrs as (rss' & Hrs & [= <-]).
  destruct (IH rss') as [E Hall]; [exact Hrs|]. split; [|intros j [->|Hj]%elem_of_cons; [by exists q|by apply Hall]].
  change (rs ++ mjoin rss' = row_of (H id) (decision m id) :: ((fun id => row_of (H id) (decision m id)) <$> ids)).
  rewrite E. unfold request_rows in Hr. cbn in Hr. rewrite andb_false_r in Hr. injection Hr as <-. unfold decision. rewrite Hq.
  by rewrite app_nil_r, orb_diag.
Qed.

Context (Horder : forall ps, thread_order cfg ps ≡ₚ mjoin ps).
Context (Halloc : forall n, 0 <= n -> zlen (allocate_token_bitmask cfg n) = n) (Hspec : 0 <= num_speculative_tokens cfg).

Lemma parallel_bitmask_ok spec ids rss m rows : num_speculative_tokens cfg = 0 -> zlen ids <= so_max_num_seqs cfg ->
  (forall id, zlen (default [] (od_get id spec)) <= num_speculative_tokens cfg) -> tracked ids m ->
  bitmask_rows m = Some rows -> zlen rows = total_rows -> expected_rows spec m ids = Some rss ->
  wp (acc ← for_fold (parallel_item cfg requests) ids ([], [], 0);
      let '(promises, batch, cumulative_index) := acc in
      fill_bitmasks cfg (thread_order cfg (if decide (batch = []) then promises else promises ++ [batch])) ;;
      mret cumulative_index)
    (fun i m' => tracked ids m' /\ steady m m' /\
      exists rows', bitmask_rows m' = Some rows' /\ zlen rows' = total_rows /\ take (Z.to_nat i) rows' = mjoin rss) m.
Proof.
  intros H0 Hids' Hd Ht Eb Hn Hrs.
  assert (Hnil : forall id, default [] (od_get id spec) = []).
  { intros id. apply length_zero_iff_nil. pose proof (Hd id). lia. }
  destruct (expected_single spec m ids rss Hnil Hrs) as [-> Hreq]. apply wp_bind.
  eapply wp_mono; [by apply (parallel_items_ok ids [] [] 0 m)|]. intros [[promises batch] i] m1 (Eitems & Ei & Hs1 & Hg1 & Eb1).
  cbn in Eitems, Ei. subst i. set (ps := if decide (batch = []) then _ else _).
  assert (Hps : mjoin ps = items_from 0 m ids).
  { unfold ps. rewrite <- Eitems. destruct (decide (batch = [])) as [->|_]; [by rewrite app_nil_r|].
    rewrite join_app. cbn. by rewrite app_nil_r. }
  assert (Hp : thread_order cfg ps ≡ₚ items_from 0 m ids) by (by rewrite Horder, Hps).
  assert (Hlen : zlen ids <= zlen rows) by (rewrite Hn; unfold total_rows; rewrite H0; lia).
  apply wp_bind. eapply wp_mono; [apply (fill_items_ok ids _ rows)|].
  - intros x. rewrite Hp. intros (k & id & Hk & ->)%items_from_elem. cbn. split; [|by eapply list_elem_of_lookup_2].
    apply lookup_lt_Some in Hk. lia.
  - intros id Hid. apply (tracks_grammar _ _ m); [by apply Hg1|by apply Ht].
  - congruence.
  - intros [] m2 (Ht2 & Hs2 & Eb2). apply wp_ret. split; [done|]. split; [by eapply steady_trans|]. eexists. split; [exact Eb2|].
    rewrite write_items_length. split; [done|]. rewrite Z.add_0_l, Nat2Z.id. by apply written_rows.
Qed.

Lemma grammar_bitmask_ok spec ids rss m : ids <> [] -> zlen ids <= so_max_num_seqs cfg ->
  (forall id, zlen (default [] (od_get id spec)) <= num_speculative_tokens cfg) -> tracked ids m -> sized m ->
  expected_rows spec m ids = Some rss ->
  wp (grammar_bitmask cfg requests ids spec) (fun res m' => res = Some (mjoin rss) /\ tracked ids m' /\ sized m' /\ steady m m') m.
Proof.
  intros Hne Hlen Hd Ht Hz Hrs. destruct ids as [|id0 ids0]; [done|]. set (ids := id0 :: ids0) in *.
  apply wp_bind, wp_get, wp_bind.
  assert (Hgo : forall rows m1, bitmask_rows m1 = Some rows -> zlen rows = total_rows -> tracked ids m1 -> steady m m1 ->
    wp (cumulative_index ←
        (if (fill_bitmask_parallel_threshold <? zlen ids) && (num_speculative_tokens cfg =? 0) then
           acc ← for_fold (parallel_item cfg requests) ids ([], [], 0);
           let '(promises, batch, cumulative_index) := acc in
           let promises := if decide (batch = []) then promises else promises ++ [batch] in
           fill_bitmasks cfg (thread_order cfg promises) ;;
           mret cumulative_index
         else for_fold (serial_item cfg requests spec) ids 0);
      m ← get;
      rows ← of_option AttributeError (bitmask_rows m);
      mret (Some (take (Z.to_nat cumulative_index) rows)))
      (fun res m' => res = Some (mjoin rss) /\ tracked ids m' /\ sized m' /\ steady m m') m1).
  { intros rows m1 Eb1 Hn1 Ht1 Hs1. rewrite <- (expected_steady spec m m1 ids Hs1) in Hrs.
    assert (Hend : forall i m2 rows2, bitmask_rows m2 = Some rows2 -> zlen rows2 = total_rows -> tracked ids m2 -> steady m1 m2 ->
      take (Z.to_nat i) rows2 = mjoin rss ->
      wp (m ← get; rows ← of_option AttributeError (bitmask_rows m); mret (Some (take (Z.to_nat i) rows)))
        (fun res m' => res = Some (mjoin rss) /\ tracked ids m' /\ sized m' /\ steady m m') m2).
    { intros i m2 rows2 Eb2 Hn2 Ht2 Hs2 Htake. apply wp_bind, wp_get, wp_bind. eapply wp_of_option; [exact Eb2|]. apply wp_ret.
      split; [by rewrite Htake|]. split; [done|]. split; [intros r Er; congruence|by eapply steady_trans]. }
    apply wp_bind. destruct (_ && _) eqn:Epar.
    - apply andb_true_iff in Epar as [_ H0%Z.eqb_eq]. eapply wp_mono; [by apply (parallel_bitmask_ok spec ids rss m1 rows)|].
      intros i m2 (Ht2 & Hs2 & rows2 & Eb2 & Hn2 & Htake). by apply (Hend i m2 rows2).
    - eapply wp_mono; [apply (serial_items_ok spec ids ids [] total_rows rss)|].
      { done. } { done. } { by exists rows. } { done. }
      { cbn. etransitivity; [by apply (expected_length spec m1 ids)|]. unfold total_rows. nia. }
      intros i m2 (-> & Ht2 & (rest & Eb2 & Hn2) & Hs2). apply (Hend _ m2 _ Eb2 Hn2 Ht2 Hs2).
      rewrite Nat2Z.id. by rewrite take_app_length. }
  destruct (bitmask_rows m) as [rows|] eqn:Eb.
  - apply wp_ret, (Hgo rows); [done|by apply Hz|done|done].
  - apply wp_modify, (Hgo (allocate_token_bitmask cfg total_rows)); [done| |done|by apply same_settings_steady].
    apply Halloc. unfold total_rows. simpl in Hlen. nia.
Qed.
(** ** Drafts that were validated *)

Lemma valid_prefix_cons hist t l : valid_prefix L hist (t :: l) = t :: l -> allowed L hist t = true /\ valid_prefix L (hist ++ [t]) l = l.
Proof. simpl. destruct (allowed L hist t); [|done]. by intros [= H']. Qed.

Lemma valid_prefix_idem hist l : valid_prefix L hist (valid_prefix L hist l) = valid_prefix L hist l.
Proof.
  revert hist. induction l as [|t l IH]; intros hist; simpl; [done|]. destruct (allowed L hist t) eqn:E; simpl; [|done].
  by rewrite E, IH.
Qed.

(** After the first padding token nothing is constrained any more. *)
Lemma window_spec_padding history k hist :
  window_spec None history (replicate k (-1)) false false hist = Some (replicate k (full_mask cfg), [], false).
Proof.
  revert history. induction k as [|k IH]; intros history; [done|]. cbn. rewrite app_nil_r, IH. done.
Qed.

Definition rows_along (hist drafts : list Z) : list Row := (fun i => row_of (hist ++ take i drafts) true) <$> seq 0 (length drafts).

Lemma rows_along_cons hist t l : rows_along hist (t :: l) = row_of hist true :: rows_along (hist ++ [t]) l.
Proof.
  unfold rows_along. cbn [length seq fmap list_fmap take]. rewrite app_nil_r. f_equal. rewrite <- fmap_S_seq.
  change (list_fmap nat Row) with (@fmap list list_fmap nat Row). rewrite <- list_fmap_compose. apply list_fmap_ext.
  intros i j _. cbn. by rewrite <- app_assoc.
Qed.

(** [Hneg]: padding is no token; [Hend]: nothing follows a complete output. *)
Lemma window_spec_valid history drafts k hist : (forall h, allowed L h (-1) = false) ->
  (forall h t, ended L h = true -> allowed L h t = false) -> valid_prefix L hist drafts = drafts ->
  window_spec None history (drafts ++ replicate k (-1)) true false hist =
    Some (rows_along hist drafts ++ (match k with O => [] | S k' => row_of (hist ++ drafts) true :: replicate k' (full_mask cfg) end),
          drafts, bool_decide (k = 0%nat)).
Proof.
  intros Hneg Hend. revert history hist. induction drafts as [|t l IH]; intros history hist Hv.
  - rewrite app_nil_l, app_nil_r. destruct k as [|k]; [done|]. cbn. rewrite app_nil_r, window_spec_padding. done.
  - apply valid_prefix_cons in Hv as [Ha Hv]. rewrite rows_along_cons. cbn [app window_spec].
    assert (Ht : t <> -1) by (intros ->; by rewrite Hneg in Ha). unfold draft_decision. rewrite (proj2 (Z.eqb_neq t (-1)) Ht).
    cbn [w_apply w_post_end]. assert (He : ended L hist = false).
    { destruct (ended L hist) eqn:E; [|done]. by rewrite Hend in Ha. }
    rewrite He, Ha. cbn. rewrite IH by done. cbn. by rewrite <- app_assoc.
Qed.

(** The rows for valid drafts and [k] tokens of padding: constrained by the tokens
    before up to the first padding, and again for the token after the drafts. *)
Definition padded_rows (hist drafts : list Z) (k : nat) : list Row :=
  rows_along hist drafts ++
  match k with
  | O => [row_of (hist ++ drafts) true]
  | S k' => row_of (hist ++ drafts) true :: replicate k' (full_mask cfg) ++ [row_of (hist ++ drafts) true]
  end.

Lemma request_rows_padded q m hist drafts k : (forall h, allowed L h (-1) = false) ->
  (forall h t, ended L h = true -> allowed L h t = false) -> valid_prefix L hist drafts = drafts ->
  fill_decision q m = true -> is_diffusion cfg = false ->
  request_rows q m hist (drafts ++ replicate k (-1)) = Some (padded_rows hist drafts k).
Proof.
  intros Hneg Hend Hv Hf Hdif. unfold request_rows. rewrite Hf, Hdif. cbn. rewrite window_spec_valid by done. cbn.
  unfold padded_rows. rewrite <- app_assoc. by destruct k.
Qed.

(** *** The rows, position by position

    [constrained] is whether the request is constrained before its drafts. *)




















(** C7. Drafts that a grammar validated never make the preparation of the bitmask
    fail. If the drafts of every request are what [validate_tokens] let pass, padded
    with -1 to the number scheduled, and no request is reasoning, then
    [grammar_bitmask] returns: no assertion fails, and the rows are those along the
    drafts, with no constraint from the second padding token on and the constraint
    after the last valid draft for the token sampled at the end. *)
Theorem validated_drafts_accepted (drafts : string -> list Z) (padding : string -> nat) spec ids m :
  (forall h, allowed L h (-1) = false) -> (forall h t, ended L h = true -> allowed L h t = false) -> is_diffusion cfg = false ->
  ids <> [] -> zlen ids <= so_max_num_seqs cfg ->
  (forall id, zlen (default [] (od_get id spec)) <= num_speculative_tokens cfg) -> tracked ids m -> sized m ->
  (forall id, id ∈ ids -> exists q, requests id = Some q /\ fill_decision q m = true /\
    default [] (od_get id spec) = valid_prefix L (H id) (drafts id) ++ replicate (padding id) (-1)) ->
  exists m', grammar_bitmask cfg requests ids spec m =
    (Ok (Some (mjoin ((fun id => padded_rows (H id) (valid_prefix L (H id) (drafts id)) (padding id)) <$> ids))), m') /\
    tracked ids m' /\ sized m'.
Proof.
  intros Hneg Hend Hdif Hne Hlen Hd Ht Hz Hv.
  assert (Hrs : expected_rows spec m ids = Some ((fun id => padded_rows (H id) (valid_prefix L (H id) (drafts id)) (padding id)) <$> ids)).
  { clear - Hneg Hend Hdif Hv. induction ids as [|id ids IH]; [done|]. unfold expected_rows. cbn.
    destruct (Hv id ltac:(set_solver)) as (q & Hq & Hf & Hs). rewrite Hq. cbn.
    rewrite Hs, request_rows_padded by (done || apply valid_prefix_idem). cbn.
    change (mapM _ ids) with (expected_rows spec m ids). rewrite IH; [done|]. intros j Hj. apply Hv. set_solver. }
  destruct (wp_returns _ _ _ (grammar_bitmask_ok spec ids _ m Hne Hlen Hd Ht Hz Hrs)) as (res & m' & E & -> & Ht' & Hz' & _).
  by exists m'.
Qed.

(** ** Reasoning kept from the grammar *)

Section reasoning.
Context (q : Request) (m : SOManager) (r : ReasoningParser).
Context (Hr : get_reasoner cfg q m = Some r) (Hoff : enable_in_reasoning cfg = false).
Context (Hnot : reasoning_ended (so m (request_id q)) <> Some true).

Lemma reasoner_structured : use_structured_output q = true.
Proof. unfold get_reasoner in Hr. by destruct (use_structured_output q). Qed.

(** The first token that ends reasoning by itself. *)
Lemma find_end_first en history pre post : (forall h t, is_reasoning_end_streaming r (h ++ [t]) [t] = (t =? en)) -> en ∉ pre ->
  find_reasoning_end_loop r history (pre ++ en :: post) = Some (zlen (history ++ pre)).
Proof.
  intros Hone. revert history. induction pre as [|t pre IH]; intros history Hp; cbn [find_reasoning_end_loop app].
  - by rewrite Hone, Z.eqb_refl, app_nil_r.
  - apply not_elem_of_cons in Hp as [Ht Hp]. rewrite Hone, (proj2 (Z.eqb_neq t en)) by done.
    rewrite IH by done. by rewrite <- app_assoc.
Qed.

Lemma should_advance_ends : is_reasoning_end_streaming r (all_token_ids q) (drop (Z.to_nat (delta_start q)) (all_token_ids q)) = true ->
  wp (should_advance cfg q) (fun b (m' : SOManager) =>
    b = speculative cfg && bool_decide (structured_output_option (so m (request_id q)) = STRUCTURAL_TAG) /\
    reasoning_ended (so m' (request_id q)) = Some true /\
    (b = true -> reasoning_end_token_index (so m' (request_id q)) = Some (find_reasoning_end_index r (all_token_ids q) (delta_start q)))) m.
Proof.
  intros He. unfold should_advance. rewrite reasoner_structured. cbn [negb]. apply wp_bind, wp_get. rewrite Hr, Hoff.
  replace (default false (reasoning_ended (so m (request_id q)))) with false
    by (destruct (reasoning_ended (so m (request_id q))) as [[]|]; done).
  rewrite He. apply wp_bind, wp_modify. destruct (_ && _).
  - apply wp_bind, wp_modify, wp_ret. cbn. rewrite !decide_True by done. done.
  - apply wp_ret. cbn. rewrite !decide_True by done. done.
Qed.

Lemma should_advance_missed old t : all_token_ids q = old ++ [t] -> delta_start q = zlen old ->
  is_reasoning_end_streaming r (old ++ [t]) [t] = false -> should_advance cfg q m = (Ok false, m).
Proof.
  intros Hall Hd Ht. unfold should_advance. rewrite reasoner_structured. cbn [negb].
  unfold mbind, M_bind, get. rewrite Hr, Hoff.
  replace (default false (reasoning_ended (so m (request_id q)))) with false
    by (destruct (reasoning_ended (so m (request_id q))) as [[]|]; done).
  rewrite Hall, Hd, Nat2Z.id, drop_app_length, Ht. done.
Qed.
End reasoning.

(** The step as [should_advance] sees it starts at the tokens computed, so with
    speculative decoding it has the last token only: an end marker among the
    accepted drafts is missed, and the grammar is never enforced. *)
Lemma end_among_drafts_missed q (m : SOManager) st en old t : get_reasoner cfg q m = Some (BaseThinkingReasoningParser st en) ->
  enable_in_reasoning cfg = false -> reasoning_ended (so m (request_id q)) <> Some true -> all_token_ids q = old ++ [t] ->
  num_computed_tokens q - num_output_placeholders q + 1 = zlen (all_token_ids q) -> t <> en ->
  should_advance cfg q m = (Ok false, m).
Proof.
  intros Hr Hoff Hnot Hall Hn Ht. eapply (should_advance_missed q m _ Hr Hoff Hnot old t Hall).
  - rewrite Hall, length_app in Hn. simpl in Hn. unfold delta_start. rewrite (proj2 (Z.leb_le _ _)) by lia. lia.
  - cbn. apply bool_decide_false. set_solver.
Qed.

(** What the model reasons never reaches the grammar. When the tokens of a step,
    [pre], the end marker and [post], all belong to the step as [should_advance]
    sees it, a request with structural tags and speculative decoding advances its
    grammar in the same step, over [post] and nothing else; every other request does
    not advance in this step, and in both cases reasoning has ended for good. *)
Theorem reasoning_end_trimmed q m r en old pre post : get_reasoner cfg q m = Some r -> enable_in_reasoning cfg = false ->
  reasoning_ended (so m (request_id q)) <> Some true -> all_token_ids q = old ++ pre ++ en :: post -> delta_start q = zlen old ->
  en ∉ pre -> (forall h t, is_reasoning_end_streaming r (h ++ [t]) [t] = (t =? en)) ->
  is_reasoning_end_streaming r (all_token_ids q) (pre ++ en :: post) = true ->
  wp (go ← should_advance cfg q; l ← trim_reasoning_for_advance q (pre ++ en :: post); mret (go, l)) (fun res (m' : SOManager) =>
    res.1 = speculative cfg && bool_decide (structured_output_option (so m (request_id q)) = STRUCTURAL_TAG) /\
    (res.1 = true -> res.2 = post) /\ reasoning_ended (so m' (request_id q)) = Some true) m.
Proof.
  intros Hr Hoff Hnot Hall Hd Hpre Hone Hend. apply wp_bind. eapply wp_mono; [apply (should_advance_ends q m r Hr Hoff Hnot)|].
  { by rewrite Hall, Hd, Nat2Z.id, drop_app_length, <- Hall. }
  intros b m1 (Hb & Hen & Hi). apply wp_bind, wp_bind, wp_get, wp_ret, wp_ret. split; [done|]. split; [|done]. cbn. intros ->.
  rewrite (reasoner_structured q m r Hr), (Hi eq_refl). cbn [negb]. unfold find_reasoning_end_index.
  rewrite Hall, Hd, Nat2Z.id, take_app_length, drop_app_length, (find_end_first r en) by done. cbn [default from_option id].
  assert (E : zlen (old ++ pre) + 1 - (zlen (old ++ pre ++ en :: post) - zlen (pre ++ en :: post)) = zlen (pre ++ [en])).
  { rewrite !length_app. simpl. lia. }
  cbn. rewrite E. destruct (Z.leb_spec (zlen (pre ++ [en])) 0) as [H'|_]; [rewrite length_app in H'; simpl in H'; lia|].
  rewrite Nat2Z.id, (cons_middle en pre post), app_assoc. apply drop_app_length.
Qed.
End safety.
End StructuredSafety.
