(* ===== verification/Lifecycle.v ===== *)
(** * Lifecycle

    v1/core/sched/scheduler.py: how requests enter and leave the scheduler.
    Adding and finishing them, sessions that stream their input in chunks,
    requests that stop, pausing, the counts the engine asks for, and the reset of
    the caches. As in [SchedulerState] there is no connector. *)

From S2P Require Import Prelude Request OrderedDict RequestQueue StopCheck KVCacheManager SchedulerState Scheduler.

Module Lifecycle.
Import Request OrderedDict RequestQueue StopCheck KVCacheManager SchedulerState Scheduler.
#[local] Open Scope Z_scope.

Section lifecycle.
Context {KV EC : Type} `{!SlotManager KV} `{!EncoderManager EC} (h : option hasher).
#[local] Notation State := (SchedulerState.Scheduler KV EC).

(** Assignment to the [streaming_queue] of a request. *)
Definition update_streaming_queue (r : Z) (q : option (list (option StreamingUpdate))) : M State unit :=
  modify (fun s => set_streaming_queue (<[r := q]> (streaming_queue s)) s).

Definition count_streaming (d : Z) : M State unit :=
  modify (fun s => set_num_waiting_for_streaming_input (num_waiting_for_streaming_input s + d) s).

(** ** Release *)

Definition free_request_blocks (r : Z) : M State unit :=
  request ← obj r;
  assert_ (is_finished (status request)) ;;
  on_kv (sm_free request) ;;
  s ← get;
  _ ← of_option KeyError (requests s !! request_id request);
  modify (set_requests (delete (request_id request) (requests s))).

(** [finished_req_ids_dict] is a [defaultdict(set)]. *)
Definition record_finished (request : Request) (s : State) : State :=
  set_finished_req_ids_dict
    ((fun d => <[client_index request := {[request_id request]} ∪ default ∅ (d !! client_index request)]> d)
       <$> finished_req_ids_dict s)
    (set_finished_req_ids ({[request_id request]} ∪ finished_req_ids s) s).

Definition free_request (r : Z) (delay_free_blocks : bool) : M State unit :=
  request ← obj r;
  assert_ (is_finished (status request)) ;;
  modify (fun s => set_inflight_prefills (inflight_prefills s ∖ {[r]}) s) ;;
  on_ec (em_free request) ;;
  modify (record_finished request) ;;
  if delay_free_blocks then mret tt else free_request_blocks r.

(** ** Requests that wait *)

Definition enqueue_waiting_request (r : Z) : M State unit :=
  request ← obj r;
  if is_blocked_waiting_status (status request) then on_skipped_waiting (fun o => add_request o r)
  else on_waiting (fun o => add_request o r).

(** The placeholders of a new chunk start behind the tokens of the session. *)
Definition shift_feature (base : Z) (f : MultiModalFeatureSpec) : MultiModalFeatureSpec :=
  mkFeature (identifier f)
    (mkPlaceholder (offset (mm_position f) + base) (length_ (mm_position f)) (embeds_cumsum (mm_position f))).

(** The session takes the next chunk of its input: the computed output tokens
    join the prompt, the last sampled one is discarded. *)
Definition extend_session (update : StreamingUpdate) : M Request unit :=
  session ← get;
  let n := num_computed_tokens session in
  let kept_output_tokens := slice (Z.to_nat (num_prompt_tokens session)) (Z.to_nat n) (all_token_ids session) in
  modify (set_all_token_ids (take (Z.to_nat n) (all_token_ids session))) ;;
  modify (set_output_token_ids []) ;;
  prompt ← of_option AssertionError (prompt_token_ids session);
  let new_ids := default [] (su_prompt_token_ids update) in
  let prompt := prompt ++ kept_output_tokens ++ new_ids in
  modify (fun q => set_mm_features
    (mm_features q ++ (shift_feature (num_tokens q) <$> su_mm_features update)) q) ;;
  modify (fun q => set_all_token_ids (all_token_ids q ++ new_ids) q) ;;
  modify (set_prompt_token_ids (Some prompt)) ;;
  update_block_hashes h ;;
  modify (set_num_prompt_tokens (zlen prompt)) ;;
  modify (set_arrival_time (su_arrival_time update)) ;;
  modify (set_sampling_params (su_sampling_params update)).

Definition update_request_as_session (r : Z) (update : StreamingUpdate) : M State unit :=
  on_obj r (extend_session update) ;;
  session ← obj r;
  (if decide (status session = WAITING_FOR_STREAMING_REQ) then count_streaming (-1) else mret tt) ;;
  update_obj r (set_status WAITING).

(** A request that stopped: false when it is a session that goes on. *)
Definition handle_stopped_request (r : Z) : M State bool :=
  request ← obj r;
  if negb (resumable request) then mret true
  else
    s ← get;
    match streaming_queue s r with
    | Some (None :: rest) => update_streaming_queue r (Some rest) ;; mret true
    | Some (Some update :: rest) =>
        update_streaming_queue r (Some rest) ;;
        update_request_as_session r update ;;
        enqueue_waiting_request r ;;
        mret false
    | _ =>
        update_obj r (set_status WAITING_FOR_STREAMING_REQ) ;;
        count_streaming 1 ;;
        enqueue_waiting_request r ;;
        mret false
    end.

(** ** Finishing requests from outside *)

(** The first pass: valid requests, those running, those waiting. *)
Definition collect_finished (acc : list Z * list Z * list Z) (id : string) : M State (list Z * list Z * list Z) :=
  s ← get;
  match requests s !! id with
  | None => mret acc
  | Some r =>
      request ← obj r;
      if is_finished (status request) then mret acc
      else
        let '(valid, running, waiting) := acc in
        if decide (status request = RUNNING) then mret (valid ++ [r], running ++ [r], waiting)
        else
          (if decide (status request = WAITING_FOR_STREAMING_REQ) then count_streaming (-1) else mret tt) ;;
          mret (valid ++ [r], running, waiting ++ [r])
  end.

(** The second pass. *)
Definition finish_one (finished_status : RequestStatus) (r : Z) : M State unit :=
  request ← obj r;
  s ← get;
  let remote := bool_decide (status request = WAITING_FOR_REMOTE_KVS) in
  let id := request_id request in
  let delay := remote && negb (bool_decide (id ∈ finished_recving_kv_req_ids s)) in
  (if remote then
     modify (fun s => set_failed_recving_kv_req_ids (failed_recving_kv_req_ids s ∖ {[id]})
       (set_finished_recving_kv_req_ids (finished_recving_kv_req_ids s ∖ {[id]}) s))
   else mret tt) ;;
  update_obj r (set_status finished_status) ;;
  free_request r delay.

(** [request_ids] in the order in which the set of ids is iterated. *)
Definition finish_requests (request_ids : list string) (finished_status : RequestStatus)
    : M State (list (string * Z)) :=
  assert_ (is_finished finished_status) ;;
  c ← for_fold collect_finished request_ids ([], [], []);
  let '(valid, running_to_remove, waiting_to_remove) := c in
  (match running_to_remove with
   | [] => mret tt
   | _ => modify (fun s => set_running (remove_all (running s) running_to_remove) s)
   end) ;;
  (match waiting_to_remove with
   | [] => mret tt
   | _ => on_waiting (fun o => remove_requests o waiting_to_remove) ;;
          on_skipped_waiting (fun o => remove_requests o waiting_to_remove)
   end) ;;
  for_each (finish_one finished_status) valid ;;
  s ← get;
  mret ((fun r => (request_id (objs s r), client_index (objs s r))) <$> valid).

(** [request_ids = None]: all of them. *)
Definition finish_all (key_order : gset string -> list string) (finished_status : RequestStatus)
    : M State (list (string * Z)) :=
  s ← get; finish_requests (key_order (dom (requests s))) finished_status.

(** ** Adding a request *)

(** The next chunk of a session, or the sign that it ends. *)
Definition add_to_session (existing : Z) (update : option StreamingUpdate) : M State unit :=
  session ← obj existing;
  s ← get;
  if negb (bool_decide (status session = WAITING_FOR_STREAMING_REQ)) then
    q ← of_option AssertionError (streaming_queue s existing);
    update_streaming_queue existing (Some (q ++ [update]))
  else
    match update with
    | Some update => update_request_as_session existing update
    | None => _ ← finish_requests [request_id session] FINISHED_ABORTED; mret tt
    end.

Definition scheduler_add_request (r : Z) : M State unit :=
  request ← obj r;
  s ← get;
  match requests s !! request_id request with
  | Some existing => add_to_session existing (streaming_update request)
  | None =>
      (if resumable request then update_streaming_queue r (Some []) else mret tt) ;;
      enqueue_waiting_request r ;;
      modify (fun s => set_requests (<[request_id request := r]> (requests s)) s)
  end.

(** ** Pausing, and what the engine asks *)

Definition get_num_unfinished_requests (s : State) : Z :=
  match pause_state s with
  | PAUSED_ALL => 0
  | PAUSED_NEW => zlen (running s)
  | UNPAUSED =>
      let num_waiting := Z.of_nat (len (waiting s)) + Z.of_nat (len (skipped_waiting s))
        - num_waiting_for_streaming_input s in
      num_waiting + zlen (running s)
  end.
Definition has_unfinished_requests (s : State) : bool := 0 <? get_num_unfinished_requests s.
Definition has_finished_requests (s : State) : bool := negb (bool_decide (finished_req_ids s = ∅)).
Definition has_requests (s : State) : bool := has_unfinished_requests s || has_finished_requests s.
Definition get_request_counts (s : State) : Z * Z :=
  (zlen (running s), Z.of_nat (len (waiting s)) + Z.of_nat (len (skipped_waiting s))).

(** ** Resetting the caches *)

(** [while self.running]: preempt from the end. The tokens in flight are
    discarded when they return. *)
Fixpoint preempt_all (fuel : nat) : M State unit :=
  match fuel with
  | O => raise OutOfFuel
  | S fuel =>
      s ← get;
      match last (running s) with
      | None => mret tt
      | Some r =>
          modify (set_running (removelast (running s))) ;;
          preempt_request r ;;
          update_obj r (fun q => set_num_output_placeholders 0
            (set_async_tokens_to_discard (num_output_placeholders q) q)) ;;
          preempt_all fuel
      end
  end.

Definition scheduler_reset_prefix_cache (reset_running_requests : bool) : M State bool :=
  (if reset_running_requests then
     s ← get;
     preempt_all (S (length (running s))) ;;
     modify (set_prev_step_scheduled_req_ids ∅)
   else mret tt) ;;
  reset_successful ← on_kv sm_reset_prefix_cache;
  if reset_running_requests && negb reset_successful then raise RuntimeError else mret reset_successful.

Definition reset_encoder_cache : M State unit := on_ec em_reset.
End lifecycle.
End Lifecycle.
