(* ===== verification/KVLoad.v ===== *)
(** * KVLoad

    v1/core/sched/scheduler.py: requests whose KV cache comes from, or goes to,
    another machine through a KV connector. Blocks that failed to load are computed
    again or fail their requests, requests wait for their blocks to arrive, and
    finished requests keep theirs until they are sent. The connector is the class
    [KVConnector]; what this code needs of the KV cache manager besides
    [SlotManager] is the class [LoadManager].

    Metadata and statistics that the connector passes to the workers and to the
    clients are left out, as is the part of [schedule] that asks the connector for
    cached tokens. *)

From S2P Require Import Prelude Request OrderedDict RequestQueue StopCheck BlockPool KVCacheManager SchedulerState Scheduler Lifecycle.

Module KVLoad.
Import Request OrderedDict RequestQueue StopCheck KVCacheManager SchedulerState Scheduler Lifecycle.
#[local] Open Scope Z_scope.

(** The sets [finished_recving] and [finished_sending] in the order in which they
    are iterated; [None] is the empty set. *)
Record KVConnectorOutput := mkConnectorOutput {
  finished_sending : list string;
  finished_recving : list string;
  invalid_block_ids : gset Z
}.

Class LoadManager (KV : Type) := {
  lm_get_block_ids : string -> KV -> list (list Z);
  lm_evict_blocks : gset Z -> M KV unit;
  lm_remove_skipped_blocks : string -> Z -> M KV unit
}.

(** The manager of the repository; [order] is the order in which a set is iterated. *)
Definition kv_load_manager (use_int : bool) (order : gset Z -> list Z) : LoadManager KVCacheManager := {|
  lm_get_block_ids := k_get_block_ids;
  lm_evict_blocks ids := k_evict_blocks use_int (order ids);
  lm_remove_skipped_blocks := k_remove_skipped_blocks
|}.

(** [kc_request_finished]: whether the blocks are kept until they are sent. *)
Class KVConnector (C : Type) := {
  kc_update_connector_output : KVConnectorOutput -> M C unit;
  kc_supports_hma : C -> bool;
  kc_request_finished : Request -> list Z -> M C bool;
  kc_request_finished_all_groups : Request -> list (list Z) -> M C bool;
  kc_reset_cache : M C (option bool)
}.

Section load.
Context {KV EC : Type} `{!SlotManager KV} `{!LoadManager KV} `{!EncoderManager EC}.
Context (cfg : SchedulerConfig) (block_size : Z) (recompute_kv_load_failures : bool).
#[local] Notation State := (SchedulerState.Scheduler KV EC).

(** ** Blocks that failed to load *)

(** What the scan of the requests collects: the requests affected, the tokens to
    compute again, the blocks to evict, and the blocks that some request is already
    to compute again. *)
Record Scan := mkScan {
  affected_req_ids : gset string;
  total_affected_tokens : Z;
  blocks_to_evict : gset Z;
  marked_invalid_block_ids : gset Z
}.

(** One block of a request; [is_affected] and [marked_invalid_block] are local to
    the request. *)
Definition scan_block (invalid : gset Z) (evict : bool) (r req_num_computed_tokens : Z) (req_block_ids : list Z)
    (acc : Scan * bool * bool) (block : nat * Z) : M State (Scan * bool * bool) :=
  let '(sc, is_affected, marked_invalid_block) := acc in
  let '(idx, block_id) := block in
  if negb (bool_decide (block_id ∈ invalid)) then mret acc
  else if bool_decide (block_id ∈ marked_invalid_block_ids sc) then mret (sc, true, marked_invalid_block)
  else
    let marked := {[block_id]} ∪ marked_invalid_block_ids sc in
    if (marked_invalid_block : bool)
    then mret (mkScan (affected_req_ids sc) (total_affected_tokens sc) (blocks_to_evict sc) marked, true, true)
    else
      update_obj r (set_num_computed_tokens (Z.of_nat idx * block_size)) ;;
      mret (mkScan (affected_req_ids sc)
              (total_affected_tokens sc + (req_num_computed_tokens - Z.of_nat idx * block_size))
              (if evict then list_to_set (drop idx req_block_ids) ∪ blocks_to_evict sc else blocks_to_evict sc) marked,
            true, true).

(** [num_computed_tokens] before this step, and the blocks of these tokens. *)
Definition computed_before (num_scheduled_tokens : list (string * Z)) (request : Request) : Z :=
  num_computed_tokens request - default 0 (od_get (request_id request) num_scheduled_tokens).
Definition num_computed_blocks (computed : Z) : nat := Z.to_nat ((computed + block_size - 1) / block_size).

Definition scan_request (invalid : gset Z) (num_scheduled_tokens : list (string * Z)) (evict : bool) (sc : Scan) (r : Z) : M State Scan :=
  request ← obj r;
  s ← get;
  req_block_ids ← match lm_get_block_ids (request_id request) (kv_cache_manager s) with
                  | [ids] => mret ids
                  | _ => raise ValueError
                  end;
  let req_num_computed_tokens := computed_before num_scheduled_tokens request in
  let blocks := zip (seq 0 (num_computed_blocks req_num_computed_tokens)) req_block_ids in
  acc ← for_fold (scan_block invalid evict r req_num_computed_tokens req_block_ids) blocks (sc, false, false);
  let '(sc, is_affected, marked_invalid_block) := acc in
  if (is_affected : bool) then
    sc ← (if negb marked_invalid_block then
            request ← obj r;
            update_obj r (set_num_computed_tokens req_num_computed_tokens) ;;
            mret (mkScan (affected_req_ids sc)
                    (total_affected_tokens sc + (num_computed_tokens request - req_num_computed_tokens))
                    (blocks_to_evict sc) (marked_invalid_block_ids sc))
          else mret sc);
    request ← obj r;
    mret (mkScan ({[request_id request]} ∪ affected_req_ids sc) (total_affected_tokens sc) (blocks_to_evict sc) (marked_invalid_block_ids sc))
  else mret sc.

Definition update_requests_with_invalid_blocks (rs : list Z) (invalid : gset Z) (num_scheduled_tokens : list (string * Z))
    (evict : bool) : M State (gset string * Z * gset Z) :=
  sc ← for_fold (scan_request invalid num_scheduled_tokens evict) rs (mkScan ∅ 0 ∅ ∅);
  mret (affected_req_ids sc, total_affected_tokens sc, blocks_to_evict sc).

(** The requests that [update_from_output] leaves out. *)
Definition handle_invalid_blocks (invalid : gset Z) (num_scheduled_tokens : list (string * Z)) : M State (gset string) :=
  s ← get;
  skipped ← of_result (iter (objs s) (skipped_waiting s));
  let async_load_reqs := filter (fun r => status (objs s r) = WAITING_FOR_REMOTE_KVS) skipped in
  res ← update_requests_with_invalid_blocks async_load_reqs invalid num_scheduled_tokens false;
  let '(async_failed_req_ids, _, _) := res in
  s ← get;
  res ← update_requests_with_invalid_blocks (running s) invalid num_scheduled_tokens true;
  let '(sync_failed_req_ids, _, sync_blocks_to_evict) := res in
  if Z.of_nat (size async_failed_req_ids) + Z.of_nat (size sync_failed_req_ids) =? 0 then mret ∅
  else
    (if bool_decide (sync_blocks_to_evict <> ∅) && negb recompute_kv_load_failures
     then on_kv (lm_evict_blocks sync_blocks_to_evict) else mret tt) ;;
    if negb recompute_kv_load_failures then mret (async_failed_req_ids ∪ sync_failed_req_ids)
    else
      modify (fun s => set_failed_recving_kv_req_ids (failed_recving_kv_req_ids s ∪ async_failed_req_ids) s) ;;
      mret sync_failed_req_ids.

(** ** Blocks that arrive *)

Definition update_waiting_for_remote_kv (r : Z) : M State unit :=
  request ← obj r;
  s ← get;
  let id := request_id request in
  (if bool_decide (id ∈ failed_recving_kv_req_ids s) then
     (if negb (num_computed_tokens request =? 0)
      then on_kv (sm_cache_blocks request (num_computed_tokens request))
      else on_kv (sm_free request)) ;;
     modify (fun s => set_failed_recving_kv_req_ids (failed_recving_kv_req_ids s ∖ {[id]}) s)
   else
     on_kv (sm_cache_blocks request (num_computed_tokens request)) ;;
     if num_computed_tokens request =? num_tokens request
     then update_obj r (set_num_computed_tokens (num_tokens request - 1)) else mret tt) ;;
  s ← get;
  if bool_decide (id ∈ finished_recving_kv_req_ids s)
  then modify (fun s => set_finished_recving_kv_req_ids (finished_recving_kv_req_ids s ∖ {[id]}) s)
  else raise KeyError.

(** The first case of [_try_promote_blocked_waiting_request], with a connector. *)
Definition promote_remote (r : Z) : M State bool :=
  request ← obj r;
  s ← get;
  if negb (bool_decide (request_id request ∈ finished_recving_kv_req_ids s)) then mret false
  else
    update_waiting_for_remote_kv r ;;
    update_obj r (fun q => set_status (if negb (num_preemptions q =? 0) then PREEMPTED else WAITING) q) ;;
    mret true.

(** ** The connector *)

Context {C : Type} `{!KVConnector C}.
#[local] Notation Linked := (State * option C)%type.
Definition on_state {A} (op : M State A) : M Linked A := zoom fst (fun s p => (s, p.2)) op.

(** A call on the connector; [None]: there is none. *)
Definition on_connector {A} (no_connector : A) (op : M C A) : M Linked A := fun p =>
  match p.2 with
  | None => (Ok no_connector, p)
  | Some c => let '(r, c') := op c in (r, (p.1, Some c'))
  end.

Definition update_from_kv_xfer_finished (out : KVConnectorOutput) : M Linked unit :=
  on_connector tt (kc_update_connector_output out) ;;
  for_each (fun req_id => on_state (
    s ← get;
    r ← of_option AssertionError (requests s !! req_id);
    request ← obj r;
    if decide (status request = WAITING_FOR_REMOTE_KVS)
    then modify (fun s => set_finished_recving_kv_req_ids ({[req_id]} ∪ finished_recving_kv_req_ids s) s)
    else assert_ (is_finished (status request)) ;; free_request_blocks r)) (finished_recving out) ;;
  for_each (fun req_id => on_state (
    s ← get;
    r ← of_option AssertionError (requests s !! req_id);
    free_request_blocks r)) (finished_sending out).

Definition connector_finished (request : Request) : M Linked bool :=
  p ← get;
  match p.2 with
  | None => mret false
  | Some c =>
      on_state (on_kv (lm_remove_skipped_blocks (request_id request) (num_computed_tokens request))) ;;
      p ← get;
      let block_ids := lm_get_block_ids (request_id request) (kv_cache_manager p.1) in
      if negb (kc_supports_hma c) then
        assert_ (num_kv_groups cfg =? 1)%nat ;;
        ids ← of_option IndexError (head block_ids);
        on_connector false (kc_request_finished request ids)
      else on_connector false (kc_request_finished_all_groups request block_ids)
  end.

(** [_free_request] with a connector. *)
Definition free_request_linked (r : Z) (delay_free_blocks : bool) : M Linked unit :=
  request ← on_state (obj r);
  assert_ (is_finished (status request)) ;;
  on_state (modify (fun s => set_inflight_prefills (inflight_prefills s ∖ {[r]}) s)) ;;
  connector_delay_free_blocks ← connector_finished request;
  on_state (on_ec (em_free request)) ;;
  on_state (modify (record_finished request)) ;;
  if delay_free_blocks || connector_delay_free_blocks then mret tt else on_state (free_request_blocks r).

Definition reset_connector_cache : M Linked bool :=
  res ← on_connector (Some true) kc_reset_cache;
  mret (negb (bool_decide (res = Some false))).
End load.
End KVLoad.
