(* ===== verification/KVLoadSafety.v ===== *)
(** * KVLoadSafety

    Blocks that failed to load are never taken for computed: every request that
    reads one either computes it again itself, or leaves it to a request before it
    that does. Requests whose blocks arrive become schedulable, and requests that
    are finished or sent give their blocks up. *)

From S2P Require Import Prelude Request OrderedDict RequestQueue StopCheck BlockPool KVCacheManager SchedulerState EncoderScheduling Scheduler SchedulerSafety Lifecycle KVLoad.

Module KVLoadSafety.
Import Request OrderedDict RequestQueue StopCheck KVCacheManager SchedulerState EncoderScheduling Scheduler SchedulerSafety Lifecycle KVLoad.
#[local] Open Scope Z_scope.

Section safety.
Context {KV EC : Type} {SM : SlotManager KV} {LM : LoadManager KV} {EM : EncoderManager EC}.
Context (block_size : Z) (Hbs : 0 < block_size).
#[local] Notation State := (SchedulerState.Scheduler KV EC).

(** ** One request *)





Context (invalid : gset Z) (nst : list (string * Z)).




(** ** All requests *)







(** ** What is computed again *)






End safety.
(** ** Blocks that arrive, blocks that were sent *)

Section transfer.
Context {KV EC : Type} {SM : SlotManager KV} {LM : LoadManager KV} {EM : EncoderManager EC}.
Context (cfg : SchedulerConfig) {SC : SlotContract cfg KV}.
#[local] Notation State := (SchedulerState.Scheduler KV EC).

Definition drops (id : string) (s s' : gset string) : Prop := forall j, j ∈ s' <-> j ∈ s /\ j <> id.

(** The slots after the transfer: given up if nothing could be loaded. *)
Definition slots_after (s : State) (S : gmap string Z) (r : Z) : gmap string Z :=
  if bool_decide (request_id (objs s r) ∈ failed_recving_kv_req_ids s) && (num_computed_tokens (objs s r) =? 0)
  then delete (request_id (objs s r)) S else S.

(** What the manager of the KV cache is told: the tokens that were loaded are in
    their blocks, or none is and the blocks are free. *)
Definition settle_blocks (s : State) (r : Z) : M KV unit :=
  if bool_decide (request_id (objs s r) ∈ failed_recving_kv_req_ids s) && (num_computed_tokens (objs s r) =? 0)
  then sm_free (objs s r) else sm_cache_blocks (objs s r) (num_computed_tokens (objs s r)).

(** [s'] is [s] after the blocks of [r] have arrived. *)
Record arrived (s : State) (S : gmap string Z) (r : Z) (s' : State) : Prop := {
  ar_computed : num_computed_tokens (objs s' r) =
    if bool_decide (request_id (objs s r) ∈ failed_recving_kv_req_ids s) then num_computed_tokens (objs s r)
    else Z.min (num_computed_tokens (objs s r)) (num_tokens (objs s r) - 1);
  ar_preemptions : num_preemptions (objs s' r) = num_preemptions (objs s r);
  ar_others j : j <> r -> objs s' j = objs s j;
  ar_finished : drops (request_id (objs s r)) (finished_recving_kv_req_ids s) (finished_recving_kv_req_ids s');
  ar_failed : drops (request_id (objs s r)) (failed_recving_kv_req_ids s) (failed_recving_kv_req_ids s');
  ar_slots : slots_rep (kv_cache_manager s') (slots_after s S r);
  ar_blocks : settle_blocks s r (kv_cache_manager s) = (Ok tt, kv_cache_manager s')
}.

(** The manager takes that in. *)
Lemma settle_blocks_ok (s : State) S r : slots_rep (kv_cache_manager s) S -> is_Some (S !! request_id (objs s r)) ->
  0 <= num_computed_tokens (objs s r) <= num_tokens (objs s r) ->
  wp (settle_blocks s r) (fun _ k' => slots_rep k' (slots_after s S r) /\ settle_blocks s r (kv_cache_manager s) = (Ok tt, k')) (kv_cache_manager s).
Proof.
  intros Hk HS Hc. assert (H : wp (settle_blocks s r) (fun _ k' => slots_rep k' (slots_after s S r)) (kv_cache_manager s)).
  { unfold settle_blocks, slots_after. destruct (_ && _); [by apply (slots_free (cfg := cfg) _ S)|by apply (slots_cache (cfg := cfg) _ S)]. }
  unfold wp in *. by destruct (settle_blocks s r _) as [[[]|e] k'].
Qed.

Lemma drops_difference id (x : gset string) : drops id x (x ∖ {[id]}).
Proof. intros j. set_solver. Qed.
Lemma drops_absent id (x : gset string) : id ∉ x -> drops id x x.
Proof. intros Hx j. split; [|by intros []]. intros Hj. split; [done|]. by intros ->. Qed.

Lemma update_waiting_for_remote_kv_ok (s : State) S r : slots_rep (kv_cache_manager s) S -> is_Some (S !! request_id (objs s r)) ->
  request_id (objs s r) ∈ finished_recving_kv_req_ids s -> 0 <= num_computed_tokens (objs s r) <= num_tokens (objs s r) ->
  wp (update_waiting_for_remote_kv r) (fun _ s' => arrived s S r s') s.
Proof.
  intros Hk HS Hin Hc. apply wp_bind, wp_gets, wp_bind, wp_get, wp_bind.
  assert (Hend : forall s1, finished_recving_kv_req_ids s1 = finished_recving_kv_req_ids s ->
    (forall s2, s2 = set_finished_recving_kv_req_ids (finished_recving_kv_req_ids s ∖ {[request_id (objs s r)]}) s1 -> arrived s S r s2) ->
    wp (s2 ← get; if bool_decide (request_id (objs s r) ∈ finished_recving_kv_req_ids s2)
        then modify (fun s3 => set_finished_recving_kv_req_ids (finished_recving_kv_req_ids s3 ∖ {[request_id (objs s r)]}) s3)
        else raise KeyError) (fun _ s' => arrived s S r s') s1).
  { intros s1 Ef Ha. apply wp_bind, wp_get. rewrite Ef, bool_decide_true by done. apply wp_modify, Ha. by rewrite Ef. }
  destruct (bool_decide (_ ∈ failed_recving_kv_req_ids s)) eqn:Ef.
  - assert (Hlast : forall k1, slots_rep k1 (slots_after s S r) /\ settle_blocks s r (kv_cache_manager s) = (Ok tt, k1) ->
      wp (modify (fun s1 => set_failed_recving_kv_req_ids (failed_recving_kv_req_ids s1 ∖ {[request_id (objs s r)]}) s1)) (fun _ s1 =>
        wp (s2 ← get; if bool_decide (request_id (objs s r) ∈ finished_recving_kv_req_ids s2)
          then modify (fun s3 => set_finished_recving_kv_req_ids (finished_recving_kv_req_ids s3 ∖ {[request_id (objs s r)]}) s3)
          else raise KeyError) (fun _ s' => arrived s S r s') s1) (set_kv_cache_manager k1 s)).
    { intros k1 [Hk1 Er]. apply wp_modify, Hend; [done|]. intros s2 ->. constructor; cbn; [by rewrite Ef|done|done|apply drops_difference..|done|done]. }
    apply wp_bind. pose proof (settle_blocks_ok s S r Hk HS Hc) as Hset. unfold settle_blocks at 1 in Hset. rewrite Ef in Hset. cbn [andb] in Hset.
    destruct (num_computed_tokens (objs s r) =? 0); cbn [negb]; apply wp_zoom; (eapply wp_mono; [exact Hset|]); intros [] k1; apply Hlast.
  - pose proof Ef as Hf%bool_decide_eq_false. pose proof (settle_blocks_ok s S r Hk HS Hc) as Hset. unfold settle_blocks at 1 in Hset.
    rewrite Ef in Hset. cbn [andb] in Hset. apply wp_bind, wp_zoom. eapply wp_mono; [exact Hset|].
    intros [] k1 [Hk1 Er]. destruct (Z.eqb_spec (num_computed_tokens (objs s r)) (num_tokens (objs s r))) as [E|E].
    + apply wp_modify, Hend; [done|]. intros s2 ->. constructor; cbn; rewrite ?fn_lookup_insert; cbn; [|done| | | |done|done].
      * rewrite Ef. lia.
      * intros j Hj. by rewrite fn_lookup_insert_ne.
      * apply drops_difference.
      * by apply drops_absent.
    + apply wp_ret, Hend; [done|]. intros s2 ->. constructor; cbn; [|done|done| | |done|done].
      * rewrite Ef. lia.
      * apply drops_difference.
      * by apply drops_absent.
Qed.

(** C9. A request whose blocks have arrived can be scheduled again. It leaves the
    set of finished transfers, waits as a new or as a preempted request, and has
    fewer tokens computed than it has, so that the next step has something to
    compute; the manager of the KV cache caches the blocks of exactly the tokens that
    were loaded, or gets them back if nothing of them could be ([settle_blocks]). No
    other request changes. *)
Theorem arrived_request_resumes (s : State) S r : slots_rep (kv_cache_manager s) S ->
  is_Some (S !! request_id (objs s r)) -> request_id (objs s r) ∈ finished_recving_kv_req_ids s ->
  0 <= num_computed_tokens (objs s r) <= num_tokens (objs s r) -> 0 < num_tokens (objs s r) ->
  (request_id (objs s r) ∈ failed_recving_kv_req_ids s -> num_computed_tokens (objs s r) < num_tokens (objs s r)) ->
  exists s', promote_remote r s = (Ok true, s') /\ arrived s S r s' /\ 0 <= num_computed_tokens (objs s' r) < num_tokens (objs s r) /\
    status (objs s' r) = (if num_preemptions (objs s r) =? 0 then WAITING else PREEMPTED).
Proof.
  intros Hk HS Hin Hc Hpos Hfail.
  enough (Hwp : wp (promote_remote r) (fun b s' => b = true /\ arrived s S r s' /\
    0 <= num_computed_tokens (objs s' r) < num_tokens (objs s r) /\
    status (objs s' r) = (if num_preemptions (objs s r) =? 0 then WAITING else PREEMPTED)) s).
  { destruct (wp_returns _ _ _ Hwp) as (b & s' & E & -> & H). by exists s'. }
  apply wp_bind, wp_gets, wp_bind, wp_get. rewrite bool_decide_true by done. cbn [negb]. apply wp_bind.
  eapply wp_mono; [by apply update_waiting_for_remote_kv_ok|]. intros [] s1 [H1 H2 H3 H4 H5 H6 H7]. apply wp_bind, wp_modify, wp_ret.
  split; [done|]. split; [constructor; cbn; rewrite ?fn_lookup_insert; try done; intros j Hj; by rewrite fn_lookup_insert_ne, H3|].
  cbn. rewrite fn_lookup_insert. cbn. rewrite H1, H2. split; [|by destruct (num_preemptions (objs s r) =? 0)].
  destruct (bool_decide _) eqn:Ef; [apply bool_decide_eq_true in Ef; specialize (Hfail Ef)|]; lia.
Qed.

(** ** Finished transfers *)

(** [s1] is [s] after the requests [gone] gave their blocks up and those of [here]
    arrived. *)
Record released (s : State) (S : gmap string Z) (gone here : list string) (s1 : State) : Prop := {
  re_objs : objs s1 = objs s;
  re_requests id : requests s1 !! id = if decide (id ∈ gone) then None else requests s !! id;
  re_finished id : id ∈ finished_recving_kv_req_ids s1 <-> id ∈ finished_recving_kv_req_ids s \/ id ∈ here;
  re_slots : exists S1, slots_rep (kv_cache_manager s1) S1 /\ forall id, S1 !! id = if decide (id ∈ gone) then None else S !! id
}.

Lemma free_request_blocks_released s S gone here s1 id r : released s S gone here s1 -> id ∉ gone ->
  requests s !! id = Some r -> request_id (objs s r) = id -> is_finished (status (objs s r)) = true ->
  wp (free_request_blocks r) (fun _ s2 => released s S (gone ++ [id]) here s2) s1.
Proof.
  intros [Ho Hr Hf (S1 & Hk & HS)] Hid Er Eid Hfin. apply wp_bind, wp_gets, wp_bind. rewrite Ho, Hfin. apply wp_ret, wp_bind, wp_zoom.
  eapply wp_mono; [by apply (slots_free (cfg := cfg) _ S1)|]. intros [] k1 Hk1. apply wp_bind, wp_get, wp_bind. rewrite Eid in *.
  assert (Hin : forall x, x ∈ gone ++ [id] <-> x ∈ gone \/ x = id) by (intros x; set_solver).
  eapply (wp_of_option _ _ r); [cbn; by rewrite Hr, decide_False|]. apply wp_modify. constructor; cbn; [done| |done|].
  - intros x. destruct (decide (x = id)) as [->|Hx].
    + rewrite lookup_delete_eq, decide_True; [done|]. apply Hin. by right.
    + rewrite lookup_delete_ne, Hr by done. destruct (decide (x ∈ gone)) as [Hg|Hg].
      * rewrite decide_True; [done|]. apply Hin. by left.
      * rewrite decide_False; [done|]. rewrite Hin. tauto.
  - exists (delete id S1). split; [done|]. intros x. destruct (decide (x = id)) as [->|Hx].
    + rewrite lookup_delete_eq, decide_True; [done|]. apply Hin. by right.
    + rewrite lookup_delete_ne, HS by done. destruct (decide (x ∈ gone)) as [Hg|Hg].
      * rewrite decide_True; [done|]. apply Hin. by left.
      * rewrite decide_False; [done|]. rewrite Hin. tauto.
Qed.

Context {C : Type} {KC : KVConnector C} (Hconn : forall out c, wp (kc_update_connector_output out) (fun _ _ => True) c).

Definition waits_for_blocks (s : State) (id : string) : bool :=
  match requests s !! id with Some r => bool_decide (status (objs s r) = WAITING_FOR_REMOTE_KVS) | None => false end.

(** Finished transfers are accounted for exactly once. For ids of requests that
    exist, each mentioned once, the update returns; requests that wait for their
    blocks are recorded as complete, and exactly the others, finished requests whose
    blocks were received or sent, give up their slots and leave the table of
    requests. Nothing else changes there. *)
Theorem finished_transfers_released out (s : State) (c : option C) S : slots_rep (kv_cache_manager s) S ->
  NoDup (finished_recving out ++ finished_sending out) ->
  (forall id, id ∈ finished_recving out -> exists r, requests s !! id = Some r /\ request_id (objs s r) = id /\
    (status (objs s r) = WAITING_FOR_REMOTE_KVS \/ is_finished (status (objs s r)) = true)) ->
  (forall id, id ∈ finished_sending out -> exists r, requests s !! id = Some r /\ request_id (objs s r) = id /\
    is_finished (status (objs s r)) = true) ->
  exists s' c', update_from_kv_xfer_finished out (s, c) = (Ok tt, (s', c')) /\
    released s S (filter (fun id => waits_for_blocks s id = false) (finished_recving out) ++ finished_sending out)
      (filter (fun id => waits_for_blocks s id = true) (finished_recving out)) s'.
Proof.
  intros Hk [Hnd1 [Hdis Hnd2]]%NoDup_app Hrec Hsend. enough (Hwp : wp (update_from_kv_xfer_finished out) (fun _ p =>
    released s S (filter (fun id => waits_for_blocks s id = false) (finished_recving out) ++ finished_sending out)
      (filter (fun id => waits_for_blocks s id = true) (finished_recving out)) p.1) (s, c)).
  { destruct (wp_returns _ _ _ Hwp) as ([] & [s' c'] & E & H). by exists s', c'. }
  apply wp_bind. assert (Hstart : wp (on_connector tt (kc_update_connector_output out)) (fun _ p => p.1 = s) (s, c)).
  { unfold on_connector, wp. cbn. destruct c as [c|]; [|done]. pose proof (Hconn out c) as H. unfold wp in H. by destruct (kc_update_connector_output out c) as [[[]|] c']. }
  eapply wp_mono; [exact Hstart|]. intros [] p1 Ep1. apply wp_bind.
  eapply wp_mono; [apply (wp_for_each (fun l1 _ p => released s S (filter (fun id => waits_for_blocks s id = false) l1)
    (filter (fun id => waits_for_blocks s id = true) l1) p.1))|].
  - rewrite Ep1. constructor; [done|done|set_solver|by exists S].
  - intros l1 id l2 [s1 c1] E I. apply wp_zoom, wp_bind, wp_get. cbn [fst] in *.
    destruct (Hrec id ltac:(rewrite E; set_solver)) as (r & Er & Eid & Hst).
    assert (Hfresh : id ∉ l1) by (rewrite E in Hnd1; apply NoDup_app in Hnd1 as (_ & Hd & _); intros Hin; by apply (Hd id Hin); left).
    assert (Hng : id ∉ filter (fun id => waits_for_blocks s id = false) l1) by (by intros [_ ?]%list_elem_of_filter).
    apply wp_bind. eapply (wp_of_option _ _ r); [by rewrite (re_requests _ _ _ _ _ I), decide_False|]. apply wp_bind, wp_gets.
    rewrite (re_objs _ _ _ _ _ I), !filter_app. destruct (decide (status (objs s r) = WAITING_FOR_REMOTE_KVS)) as [Hw|Hw].
    + assert (Hb : waits_for_blocks s id = true) by (unfold waits_for_blocks; rewrite Er; by apply bool_decide_true).
      rewrite (filter_cons_False _ id), (filter_cons_True _ id) by congruence. rewrite !filter_nil, app_nil_r. apply wp_modify.
      destruct I as [A B D F]. constructor; cbn; [done|done| |done]. intros x. rewrite elem_of_union, D. set_solver.
    + assert (Hb : waits_for_blocks s id = false) by (unfold waits_for_blocks; rewrite Er; by apply bool_decide_false).
      rewrite (filter_cons_True _ id), (filter_cons_False _ id) by congruence. rewrite !filter_nil, app_nil_r. destruct Hst as [Hst|Hst]; [done|].
      apply wp_bind. rewrite Hst. apply wp_ret. by apply (free_request_blocks_released s S _ _ s1 id r).
  - intros [] p2 I2. eapply wp_mono; [apply (wp_for_each (fun l1 _ p => released s S
      (filter (fun id => waits_for_blocks s id = false) (finished_recving out) ++ l1)
      (filter (fun id => waits_for_blocks s id = true) (finished_recving out)) p.1))|done].
    + by rewrite app_nil_r.
    + intros l1 id l2 [s1 c1] E I. apply wp_zoom, wp_bind, wp_get. cbn [fst] in *.
      destruct (Hsend id ltac:(rewrite E; set_solver)) as (r & Er & Eid & Hst).
      assert (Hng : id ∉ filter (fun id => waits_for_blocks s id = false) (finished_recving out) ++ l1).
      { intros [[_ Hin]%list_elem_of_filter|Hin]%elem_of_app.
        - apply (Hdis id Hin). rewrite E. set_solver.
        - rewrite E in Hnd2. apply NoDup_app in Hnd2 as (_ & Hd & _). by apply (Hd id Hin); left. }
      apply wp_bind. eapply (wp_of_option _ _ r); [by rewrite (re_requests _ _ _ _ _ I), decide_False|].
      rewrite app_assoc. by apply (free_request_blocks_released s S _ _ s1 id r).
Qed.
End transfer.

(** ** On concrete inputs *)

(** A manager without bookkeeping, whose blocks are those of the given tables. *)
Section witness.
#[local] Notation Tables := (string -> list Z).
#[local] Instance table_slots : SlotManager Tables := {|
  sm_new_step_starts := mret tt;
  sm_allocate_slots _ _ := mret (Some (mkBlocks [] true));
  sm_free _ := mret tt;
  sm_get_computed_blocks _ := mret (mkBlocks [] true, 0);
  sm_empty_blocks _ := mkBlocks [] true;
  sm_get_blocks _ _ := mkBlocks [] true;
  sm_get_num_common_prefix_blocks _ := mret [];
  sm_take_new_block_ids := mret [];
  sm_reset_prefix_cache := mret true;
  sm_cache_blocks _ _ := mret tt;
  sm_uncached_common_prefix _ := 0;
  sm_take_events := mret []
|}.
#[local] Instance table_loads : LoadManager Tables := {|
  lm_get_block_ids id k := [k id];
  lm_evict_blocks _ := mret tt;
  lm_remove_skipped_blocks _ _ := mret tt
|}.
Definition load_config : SchedulerConfig := sample_config FCFS.
#[local] Instance table_contract : SlotContract load_config Tables.
Proof.
  refine {| slots_rep := fun _ _ => True; slots_hit := fun _ _ _ _ => True |}; try done.
  - intros k S r n m _ _ _ _ _. apply wp_ret. by exists (num_computed_tokens r + n).
  - intros k S r n blocks local enc rs _ _ _ _ _ _ _. apply wp_ret. by exists (local + n).
Defined.

(** Two requests of 12 tokens, 8 of them computed before; blocks 1 and 2 are shared,
    and 2 did not load. *)
Definition loaded (id : string) (st : RequestStatus) : Request :=
  mkRequest id 0 0 1 None None None false None None false false false 5 (Some (replicate 12 7)) 12 [] st None [] (replicate 12 7)
    0 0 0 [] 12 false 0 0 None [] ∅.
Definition two_loads (st : RequestStatus) : SchedulerState.Scheduler Tables unit :=
  set_finished_recving_kv_req_ids {["b"]} (set_running [1; 2] (set_requests {["a" := 1; "b" := 2]}
    (scheduler_init FCFS (fun r => loaded (if r =? 1 then "a" else "b") st) false (fun id => if decide (id = "a"%string) then [1; 2; 3] else [1; 2; 4]) tt))).


Lemma arrived_request_resumes_witness : exists s', promote_remote 2 (two_loads WAITING_FOR_REMOTE_KVS) = (Ok true, s') /\
  num_computed_tokens (objs s' 2) = 11 /\ status (objs s' 2) = WAITING.
Proof.
  destruct (arrived_request_resumes load_config (SC := table_contract) (two_loads WAITING_FOR_REMOTE_KVS) {["b" := 12]} 2 Logic.I ltac:(by eexists) ltac:(set_solver)
    ltac:(vm_compute; done) ltac:(vm_compute; done) ltac:(intros H; vm_compute in H; set_solver)) as (s' & E & Ha & Hn & Hs).
  exists s'. split; [exact E|]. split; [|exact Hs]. rewrite (ar_computed _ _ _ _ _ Ha). vm_compute. done.
Defined.

(** A connector that is told nothing. *)
#[local] Instance silent : KVConnector unit := {|
  kc_update_connector_output _ := mret tt;
  kc_supports_hma _ := true;
  kc_request_finished _ _ := mret false;
  kc_request_finished_all_groups _ _ := mret false;
  kc_reset_cache := mret None
|}.
Lemma finished_transfers_released_witness : exists s' c',
  update_from_kv_xfer_finished (mkConnectorOutput ["a"%string] ["b"%string] ∅) (two_loads FINISHED_STOPPED, Some tt) = (Ok tt, (s', c')) /\
  requests s' !! "a"%string = None /\ requests s' !! "b"%string = None.
Proof.
  destruct (finished_transfers_released load_config (SC := table_contract) (KC := silent) (fun _ _ => Logic.I) (mkConnectorOutput ["a"%string] ["b"%string] ∅) (two_loads FINISHED_STOPPED)
    (Some tt) ∅ Logic.I ltac:(repeat constructor; set_solver)) as (s' & c' & E & H).
  - intros id ->%list_elem_of_singleton. exists 2. split; [done|]. split; [done|]. by right.
  - intros id ->%list_elem_of_singleton. by exists 1.
  - exists s', c'. split; [exact E|]. split; rewrite (re_requests _ _ _ _ _ _ H); done.
Defined.
End witness.
End KVLoadSafety.
