(* ===== verification/LifecycleSafety.v ===== *)
(** * LifecycleSafety

    Requests enter and leave the scheduler between steps: adding, finishing and
    resetting return, and lead from a state between steps to another. *)

From S2P Require Import Prelude Request OrderedDict Heap RequestQueue StopCheck EncoderCache KVCacheManager SchedulerState EncoderScheduling Scheduler SchedulerSafety Lifecycle.

Module LifecycleSafety.
Import EncoderCache Request OrderedDict RequestQueue StopCheck KVCacheManager SchedulerState EncoderScheduling Scheduler SchedulerSafety Lifecycle.
#[local] Open Scope Z_scope.

(** ** Lists without some elements *)

Notation without v l := (filter (fun x : Z => x <> v) (l : list Z)).
Notation without_all rs l := (filter (fun x : Z => x ∉ (rs : list Z)) (l : list Z)).

Lemma remove_all_filter (l rs : list Z) : NoDup l -> remove_all l rs = without_all rs l.
Proof.
  intros Hn. unfold remove_all. destruct rs as [|x [|y rs]].
  - induction l as [|z l IH]; [done|]. apply NoDup_cons in Hn as [_ Hn]. rewrite filter_cons_True by set_solver. by rewrite <- IH.
  - assert (E : without_all [x] l = filter (fun z => z <> x) l).
    { apply list_filter_iff. intros z. rewrite list_elem_of_singleton. done. }
    rewrite E. destruct (list_find _ l) as [[i z]|] eqn:Hf.
    + apply list_find_Some in Hf as (Hi & -> & Hbefore). clear E. revert i Hi Hbefore.
      induction l as [|z l IH]; intros i Hi Hb; [done|]. apply NoDup_cons in Hn as [Hz Hn]. destruct i as [|i]; simpl in Hi.
      * injection Hi as ->. cbn [delete list_delete]. rewrite filter_cons_False by tauto. symmetry. apply filter_all. by intros y Hy ->.
      * assert (z <> x) by (apply (Hb 0%nat z); [done|lia]). rewrite filter_cons_True by done. cbn [delete list_delete]. f_equal.
        apply IH; [done|done|]. intros j y Hj Hlt. apply (Hb (S j) y Hj). lia.
    + apply list_find_None in Hf. symmetry. apply filter_all. intros y Hy. rewrite Forall_forall in Hf. by apply Hf.
  - done.
Qed.

Lemma without_all_perm (rs l : list Z) : NoDup rs -> NoDup l -> (forall r, r ∈ rs -> r ∈ l) -> l ≡ₚ without_all rs l ++ rs.
Proof.
  intros Hr Hl Hin. apply NoDup_Permutation; [done| |].
  - apply list.NoDup_app. split; [by apply NoDup_filter|]. split; [|done]. intros x [Hx _]%list_elem_of_filter. done.
  - intros x. rewrite elem_of_app, list_elem_of_filter. destruct (decide (x ∈ rs)); naive_solver.
Qed.

Lemma without_all_nil (l : list Z) : without_all [] l = l.
Proof. apply filter_all. set_solver. Qed.

Lemma without_all_other (rs ks l : list Z) :
  (forall r, r ∈ l -> r ∈ rs <-> r ∈ ks) -> without_all rs l = without_all ks l.
Proof.
  intros H. induction l as [|x l IH]; [done|]. rewrite !filter_cons, IH by set_solver.
  destruct (decide (x ∉ rs)), (decide (x ∉ ks)); try done; exfalso; specialize (H x ltac:(by left)); tauto.
Qed.

Section held.
Context {KV : Type} {SM : SlotManager KV} (cfg : SchedulerConfig) {SC : SlotContract cfg KV} (sz : string -> Z).
#[local] Notation EC := EncoderCache.EncoderCacheManager.
#[local] Notation State := (SchedulerState.Scheduler KV EC).

(** ** Between steps, with requests about to go *)

(** [H]: requests in no list any more, not released yet. *)
Record held_ok (s : State) (R W K H : list Z) (S : gmap string Z) : Prop := {
  hk_nodup : NoDup (R ++ W ++ K ++ H);
  hk_requests : forall id r, requests s !! id = Some r <-> r ∈ R ++ W ++ K ++ H /\ request_id (objs s r) = id;
  hk_ok : forall r, r ∈ R ++ W ++ K -> request_ok cfg sz (objs s r);
  hk_held : forall r, r ∈ H -> features_ok sz (objs s r);
  hk_waiting : serves (objs s) (policy cfg) (waiting s) W;
  hk_skipped : serves (objs s) (policy cfg) (skipped_waiting s) K;
  hk_run : forall r, r ∈ R -> run_ok cfg (objs s r) (S !! request_id (objs s r));
  hk_wait : forall r, r ∈ W ++ K -> wait_ok cfg (objs s r);
  hk_slots : slots_rep (kv_cache_manager s) S;
  hk_dom : forall id, is_Some (S !! id) -> exists r, r ∈ R ++ H /\ request_id (objs s r) = id;
  hk_enc : ec_inv sz (encoder_cache_manager s);
  hk_inputs : forall id i, i ∈ default ∅ (EncoderCache.request_cached_ids (encoder_cache_manager s) !! id) ->
    exists r, r ∈ R ++ W ++ K ++ H /\ request_id (objs s r) = id /\ valid_input (objs s r) i;
  hk_prefill : forall r, r ∈ R ++ W ++ K -> is_Some (prefill_stats (objs s r)) ->
    num_tokens (objs s r) <= num_prompt_tokens (objs s r);
  hk_prev : forall r, r ∈ W ++ K -> status (objs s r) = PREEMPTED -> request_id (objs s r) ∉ prev_step_scheduled_req_ids s
}.
#[local] Arguments hk_nodup {s R W K H S} _.
#[local] Arguments hk_requests {s R W K H S} _.
#[local] Arguments hk_ok {s R W K H S} _.
#[local] Arguments hk_held {s R W K H S} _.
#[local] Arguments hk_waiting {s R W K H S} _.
#[local] Arguments hk_skipped {s R W K H S} _.
#[local] Arguments hk_run {s R W K H S} _.
#[local] Arguments hk_wait {s R W K H S} _.
#[local] Arguments hk_slots {s R W K H S} _.
#[local] Arguments hk_dom {s R W K H S} _.
#[local] Arguments hk_enc {s R W K H S} _.
#[local] Arguments hk_inputs {s R W K H S} _.
#[local] Arguments hk_prefill {s R W K H S} _.
#[local] Arguments hk_prev {s R W K H S} _.

Lemma sched_held s R W K S : sched_ok cfg sz s R W K S -> held_ok s R W K [] S.
Proof. intros []. constructor; rewrite ?app_nil_r; try done. set_solver. Qed.

Lemma held_sched s R W K S :
  held_ok s R W K [] S -> running s = R -> zlen R <= max_num_running_reqs cfg -> sched_ok cfg sz s R W K S.
Proof.
  intros [H1 H2 H3 H4 H5 H6 H7 H8 H9 H10 H11 H12 H13 H14] ER Hm. rewrite app_nil_r in H1.
  setoid_rewrite app_nil_r in H2. setoid_rewrite app_nil_r in H10. setoid_rewrite app_nil_r in H12. by constructor.
Qed.

Section state.
Context {s : State} {R W K H : list Z} {S : gmap string Z} (I : held_ok s R W K H S).

Lemma held_inj r r' : r ∈ R ++ W ++ K ++ H -> r' ∈ R ++ W ++ K ++ H -> request_id (objs s r) = request_id (objs s r') -> r = r'.
Proof.
  intros H1 H2 E. assert (E1 : requests s !! request_id (objs s r) = Some r) by (by apply (hk_requests I)).
  assert (E2 : requests s !! request_id (objs s r) = Some r') by (by apply (hk_requests I)). congruence.
Qed.

(** States that agree on what matters. *)
Lemma held_same s' :
  objs s' = objs s -> requests s' = requests s -> waiting s' = waiting s -> skipped_waiting s' = skipped_waiting s ->
  kv_cache_manager s' = kv_cache_manager s -> encoder_cache_manager s' = encoder_cache_manager s ->
  prev_step_scheduled_req_ids s' = prev_step_scheduled_req_ids s -> held_ok s' R W K H S.
Proof. intros E1 E2 E3 E4 E5 E6 E7. destruct I. constructor; rewrite ?E1, ?E2, ?E3, ?E4, ?E5, ?E6, ?E7; done. Qed.

(** Requests leave their lists. *)
Lemma held_leave s' R' W' K' V :
  objs s' = objs s -> requests s' = requests s -> kv_cache_manager s' = kv_cache_manager s ->
  encoder_cache_manager s' = encoder_cache_manager s -> prev_step_scheduled_req_ids s' = prev_step_scheduled_req_ids s ->
  R' ⊆ R -> W' ⊆ W -> K' ⊆ K -> R' ++ W' ++ K' ++ V ≡ₚ R ++ W ++ K ++ H -> (forall r, r ∈ R ++ H -> r ∈ R' ++ V) ->
  serves (objs s) (policy cfg) (waiting s') W' -> serves (objs s) (policy cfg) (skipped_waiting s') K' ->
  held_ok s' R' W' K' V S.
Proof.
  intros E1 E2 E3 E4 E5 HR HW HK HP HRV Hw Hk. destruct I as [H1 H2 H3 H4 H5 H6 H7 H8 H9 H10 H11 H12 H13 H14].
  assert (HWK : W' ++ K' ⊆ W ++ K) by set_solver. assert (HRWK : R' ++ W' ++ K' ⊆ R ++ W ++ K) by set_solver.
  constructor; rewrite ?E1, ?E2, ?E3, ?E4, ?E5; try done; try (by intros r Hr; auto).
  - by rewrite HP.
  - intros id r. by rewrite HP.
  - intros r Hr. assert (Ha : r ∈ R ++ W ++ K ++ H) by (rewrite <- HP; set_solver).
    destruct (decide (r ∈ H)) as [|Hn]; [by apply H4|]. apply H3. set_solver.
  - intros id Hid. destruct (H10 id Hid) as (r & Hr & E). exists r. auto.
  - intros id i Hi. destruct (H12 id i Hi) as (r & Hr & E). exists r. rewrite HP. auto.
Qed.
End state.

(** A request about to go may change its state, one in no list may be any. *)
Lemma held_objs s R W K H S o :
  held_ok s R W K H S -> (forall x, x ∈ R ++ W ++ K -> o x = objs s x) ->
  (forall x, x ∈ H -> rank (o x) = rank (objs s x) /\ mm_features (o x) = mm_features (objs s x)) ->
  held_ok (set_objs o s) R W K H S.
Proof.
  intros [H1 H2 H3 H4 H5 H6 H7 H8 H9 H10 H11 H12 H13 H14] Ho Hh.
  assert (Hall : forall x, x ∈ R ++ W ++ K ++ H -> rank (o x) = rank (objs s x) /\ mm_features (o x) = mm_features (objs s x)).
  { intros x. rewrite !app_assoc, elem_of_app, <- app_assoc. intros [Hx|Hx]; [by rewrite Ho|auto]. }
  assert (Hid : forall x, x ∈ R ++ W ++ K ++ H -> request_id (o x) = request_id (objs s x)).
  { intros x Hx. destruct (Hall x Hx) as [E _]. unfold rank in E. congruence. }
  constructor; simpl; try done.
  - intros id x. rewrite H2. split; intros [Hx E]; (split; [done|]); [by rewrite Hid|by rewrite Hid in E].
  - intros x Hx. rewrite Ho by done. auto.
  - intros x Hx. unfold features_ok. rewrite (proj2 (Hh x Hx)). by apply H4.
  - eapply serves_rank; [|exact H5]. intros x Hx. rewrite Ho; [done|set_solver].
  - eapply serves_rank; [|exact H6]. intros x Hx. rewrite Ho; [done|set_solver].
  - intros x Hx. rewrite Ho by set_solver. auto.
  - intros x Hx. rewrite Ho by set_solver. auto.
  - intros id Hs. destruct (H10 id Hs) as (x & Hx & E). exists x. rewrite Hid by set_solver. done.
  - intros id i Hi. destruct (H12 id i Hi) as (x & Hx & E & Hvx). exists x. rewrite Hid by done. split; [done|]. split; [done|].
    unfold valid_input in *. by rewrite (proj2 (Hall x Hx)).
  - intros x Hx. rewrite Ho by done. auto.
  - intros x Hx. rewrite Ho by set_solver. auto.
Qed.

Lemma held_obj s R W K H S r q :
  held_ok s R W K H S -> r ∈ H -> rank q = rank (objs s r) -> mm_features q = mm_features (objs s r) ->
  held_ok (set_objs (<[r := q]> (objs s)) s) R W K H S.
Proof.
  intros I Hr Hrank Hmm. apply held_objs; [done| |].
  - intros x Hx. apply fn_lookup_insert_ne. intros <-. pose proof (hk_nodup I) as Hn. rewrite !app_assoc in Hn.
    apply list.NoDup_app in Hn as (_ & Hd & _). apply (Hd r); [by rewrite <- app_assoc|done].
  - intros x _. destruct (decide (x = r)) as [->|]; [by rewrite fn_lookup_insert|by rewrite fn_lookup_insert_ne].
Qed.

(** A request in a list is not finished, and does not wait for a connector. *)
Lemma listed_status s R W K H S r :
  held_ok s R W K H S -> r ∈ R ++ W ++ K -> is_finished (status (objs s r)) = false /\
    status (objs s r) <> WAITING_FOR_REMOTE_KVS /\ status (objs s r) <> WAITING_FOR_STREAMING_REQ /\
    (status (objs s r) = RUNNING <-> r ∈ R).
Proof.
  intros I Hr. pose proof (hk_nodup I) as Hn. apply list.NoDup_app in Hn as (_ & Hd & _).
  destruct (decide (r ∈ R)) as [HrR|HrR].
  - destruct (hk_run I r HrR) as (-> & _). done.
  - assert (HWK : r ∈ W ++ K) by set_solver. destruct (hk_wait I r HWK) as [[E|[E|E]] _]; rewrite E; done.
Qed.

(** ** One request leaves its list and comes back *)


Lemma held_take s R W K S r :
  held_ok s R W K [] S -> r ∈ R -> held_ok s (without r R) W K [r] S.
Proof.
  intros I Hr. pose proof (hk_nodup I) as Hn. apply list.NoDup_app in Hn as (HnR & _).
  assert (HP : without r R ++ [r] ≡ₚ R).
  { apply NoDup_Permutation; [|done|].
    - apply list.NoDup_app. split; [by apply NoDup_filter|]. split; [|apply NoDup_singleton].
      intros x [? _]%list_elem_of_filter. by intros ->%list_elem_of_singleton.
    - intros x. rewrite elem_of_app, list_elem_of_filter, list_elem_of_singleton. destruct (decide (x = r)); naive_solver. }
  eapply (held_leave I); try done; try apply I.
  - by intros x [_ ?]%list_elem_of_filter.
  - rewrite app_nil_r. rewrite <- HP at 2. solve_Permutation.
  - intros x. rewrite app_nil_r, elem_of_app, list_elem_of_filter, list_elem_of_singleton. destruct (decide (x = r)); tauto.
Qed.

Lemma held_return s R W K S r :
  held_ok s (without r R) W K [r] S -> NoDup R -> r ∈ R -> request_ok cfg sz (objs s r) ->
  run_ok cfg (objs s r) (S !! request_id (objs s r)) ->
  (is_Some (prefill_stats (objs s r)) -> num_tokens (objs s r) <= num_prompt_tokens (objs s r)) ->
  held_ok s R W K [] S.
Proof.
  intros [H1 H2 H3 H4 H5 H6 H7 H8 H9 H10 H11 H12 H13 H14] Hn Hr Hq Hrun Hpf.
  assert (HP : without r R ++ [r] ≡ₚ R).
  { apply NoDup_Permutation; [|done|].
    - apply list.NoDup_app. split; [by apply NoDup_filter|]. split; [|apply NoDup_singleton].
      intros x [? _]%list_elem_of_filter. by intros ->%list_elem_of_singleton.
    - intros x. rewrite elem_of_app, list_elem_of_filter, list_elem_of_singleton. destruct (decide (x = r)); naive_solver. }
  assert (HPA : without r R ++ W ++ K ++ [r] ≡ₚ R ++ W ++ K ++ []).
  { rewrite app_nil_r. rewrite <- HP at 2. solve_Permutation. }
  assert (Hcase : forall x l, x ∈ R ++ l -> x = r \/ x ∈ without r R ++ l).
  { intros x l. rewrite !elem_of_app, list_elem_of_filter. destruct (decide (x = r)); tauto. }
  constructor; try done.
  - by rewrite <- HPA.
  - intros id x. by rewrite <- HPA.
  - intros x [->|Hx]%Hcase; auto.
  - set_solver.
  - intros x Hx. destruct (Hcase x []) as [->|Hx']; [by rewrite app_nil_r|done|]. apply H7. by rewrite app_nil_r in Hx'.
  - intros id Hid. destruct (H10 id Hid) as (x & Hx & E). exists x. split; [|done]. rewrite app_nil_r. by rewrite <- HP.
  - intros id i Hi. destruct (H12 id i Hi) as (x & Hx & E). exists x. by rewrite <- HPA.
  - intros x [->|Hx]%Hcase; auto.
Qed.

Lemma held_enc s R W K H S e' :
  held_ok s R W K H S -> ec_inv sz e' ->
  (forall id i, i ∈ default ∅ (EncoderCache.request_cached_ids e' !! id) ->
    i ∈ default ∅ (EncoderCache.request_cached_ids (encoder_cache_manager s) !! id)) ->
  held_ok (set_encoder_cache_manager e' s) R W K H S.
Proof. intros [] He Hi. constructor; try done. simpl. auto. Qed.

(** A new object does not concern the scheduler. *)
Lemma sched_fresh s R W K S r q :
  sched_ok cfg sz s R W K S -> r ∉ R ++ W ++ K -> sched_ok cfg sz (set_objs (<[r := q]> (objs s)) s) R W K S.
Proof.
  intros [H1 H2 H3 H4 H5 H6 H7 H8 H9 H10 H11 H12 H13 H14 H15] Hr.
  assert (Ho : forall x, x ∈ R ++ W ++ K -> (<[r := q]> (objs s)) x = objs s x).
  { intros x Hx. apply fn_lookup_insert_ne. by intros <-. }
  constructor; simpl; try done.
  - intros id x. rewrite H2. split; intros [Hx E]; (split; [done|]); [by rewrite Ho|by rewrite Ho in E].
  - intros x Hx. rewrite Ho by done. auto.
  - eapply serves_rank; [|exact H6]. intros x Hx. rewrite Ho; [done|set_solver].
  - eapply serves_rank; [|exact H7]. intros x Hx. rewrite Ho; [done|set_solver].
  - intros x Hx. rewrite Ho by set_solver. auto.
  - intros x Hx. rewrite Ho by set_solver. auto.
  - intros id Hid. destruct (H11 id Hid) as (x & Hx & E). exists x. rewrite Ho by set_solver. done.
  - intros id i Hi. destruct (H13 id i Hi) as (x & Hx & E). exists x. by rewrite Ho.
  - intros x Hx. rewrite Ho by done. auto.
  - intros x Hx. rewrite Ho by set_solver. auto.
Qed.

End held.

#[global] Arguments hk_nodup {KV SM cfg SC sz s R W K H S} _.
#[global] Arguments hk_requests {KV SM cfg SC sz s R W K H S} _.
#[global] Arguments hk_ok {KV SM cfg SC sz s R W K H S} _.
#[global] Arguments hk_held {KV SM cfg SC sz s R W K H S} _.
#[global] Arguments hk_waiting {KV SM cfg SC sz s R W K H S} _.
#[global] Arguments hk_skipped {KV SM cfg SC sz s R W K H S} _.
#[global] Arguments hk_run {KV SM cfg SC sz s R W K H S} _.
#[global] Arguments hk_wait {KV SM cfg SC sz s R W K H S} _.
#[global] Arguments hk_slots {KV SM cfg SC sz s R W K H S} _.
#[global] Arguments hk_dom {KV SM cfg SC sz s R W K H S} _.
#[global] Arguments hk_enc {KV SM cfg SC sz s R W K H S} _.
#[global] Arguments hk_inputs {KV SM cfg SC sz s R W K H S} _.
#[global] Arguments hk_prefill {KV SM cfg SC sz s R W K H S} _.
#[global] Arguments hk_prev {KV SM cfg SC sz s R W K H S} _.
#[global] Arguments held_inj {KV SM cfg SC sz s R W K H S} I.
#[global] Arguments held_leave {KV SM cfg SC sz s R W K H S} I.

Section lifecycle.
Context {KV : Type} {SM : SlotManager KV} (cfg : SchedulerConfig) {SC : SlotContract cfg KV} (C : config_ok cfg).
Context (order : gset Z -> list Z) (Horder : forall s i, i ∈ order s <-> i ∈ s).
Context (sz : string -> Z) (Hsz : forall h, 0 <= sz h).
#[local] Notation EC := EncoderCache.EncoderCacheManager.
#[local] Instance ecm' : EncoderManager EC := ecm order.
#[local] Notation State := (SchedulerState.Scheduler KV EC).

#[local] Notation held_ok := (held_ok cfg sz).

(** ** Release *)

Lemma wp_obj' r (Q : Request -> State -> Prop) s : Q (objs s r) s -> wp (obj r) Q s.
Proof. done. Qed.

Lemma free_request_ok s R W K H S r :
  held_ok s R W K (r :: H) S -> is_finished (status (objs s r)) = true ->
  wp (free_request r false) (fun _ s' => held_ok s' R W K H (delete (request_id (objs s r)) S) /\
    objs s' = objs s /\ running s' = running s /\ requests s' = delete (request_id (objs s r)) (requests s)) s.
Proof.
  intros I Hfin. unfold free_request. apply wp_bind, wp_obj', wp_bind, wp_assert; [done|].
  apply wp_bind, wp_modify, wp_bind, wp_zoom. cbn beta. cbn [encoder_cache_manager set_inflight_prefills].
  assert (Hra : r ∈ R ++ W ++ K ++ r :: H) by set_solver.
  eapply wp_mono; [apply (ec_free_clears sz Hsz)|].
  - apply I.
  - apply (hk_held I). by left.
  - intros s0 i. apply Horder.
  - intros i Hi. destruct (hk_inputs I _ _ Hi) as (r' & Hr' & E & Hv). by apply (held_inj I) in E as ->.
  - intros _ e' (I' & _ & _ & _ & _ & Hids). apply wp_bind, wp_modify. cbn beta.
    unfold free_request_blocks. apply wp_bind, wp_obj', wp_bind, wp_assert; [done|].
    apply wp_bind, wp_zoom. eapply wp_mono; [apply (slots_free _ S), I|]. intros [] k' Hk'. cbv beta in Hk' |- *.
    apply wp_bind, wp_get, wp_bind. cbn [requests objs set_kv_cache_manager record_finished set_finished_req_ids_dict
      set_finished_req_ids set_encoder_cache_manager set_inflight_prefills].
    apply (wp_of_option _ _ r); [by apply (hk_requests I)|]. apply wp_modify. split; [|done].
    destruct I as [H1 H2 H3 H4 H5 H6 H7 H8 H9 H10 H11 H12 H13 H14].
    assert (HP : R ++ W ++ K ++ r :: H ≡ₚ r :: R ++ W ++ K ++ H) by solve_Permutation.
    rewrite HP in H1. apply NoDup_cons in H1 as [Hn1 H1].
    assert (Hne : forall x, x ∈ R ++ W ++ K ++ H -> request_id (objs s x) <> request_id (objs s r)).
    { intros x Hx E. assert (E1 : requests s !! request_id (objs s r) = Some x).
      { apply H2. split; [|done]. rewrite HP. by right. }
      assert (E2 : requests s !! request_id (objs s r) = Some r) by (by apply H2). assert (x = r) by congruence. by subst. }
    constructor; simpl; try done.
    + intros id x. rewrite lookup_delete_Some, H2, HP, elem_of_cons. split.
      * intros (Hid & [->|Hx] & E); [by destruct Hid|done].
      * intros [Hx E]. split; [|split; [by right|done]]. intros <-. by apply (Hne x).
    + intros x Hx. apply H4. by right.
    + intros x Hx. rewrite lookup_delete_ne; [by apply H7|]. intros E. apply (Hne x); [set_solver|done].
    + intros id [m Hm]. apply lookup_delete_Some in Hm as [Hid Hm]. destruct (H10 id ltac:(by exists m)) as (x & Hx & E).
      exists x. split; [|done]. assert (x <> r) by (intros ->; by apply Hid). set_solver.
    + intros id i. rewrite Hids. case_decide as Eid.
      * intros [Hi1 Hi2]%elem_of_filter. destruct Hi1. by apply Horder.
      * intros Hi. destruct (H12 id i Hi) as (x & Hx & E & Hv). exists x. split; [|done].
        assert (x <> r) by (by intros ->). rewrite HP in Hx. set_solver.
Qed.

(** ** Finishing requests *)

Lemma finish_one_ok s R W K H S r st :
  held_ok s R W K (r :: H) S -> is_finished st = true -> status (objs s r) <> WAITING_FOR_REMOTE_KVS ->
  wp (finish_one st r) (fun _ s' => held_ok s' R W K H (delete (request_id (objs s r)) S) /\
    running s' = running s /\ objs s' r = set_status st (objs s r) /\ (forall x, x <> r -> objs s' x = objs s x)) s.
Proof.
  intros I Hst Hr. unfold finish_one. apply wp_bind, wp_obj', wp_bind, wp_get. rewrite (bool_decide_eq_false_2 _ Hr).
  cbv zeta. cbn [andb]. apply wp_bind, wp_ret, wp_bind, wp_modify. cbn beta.
  pose proof (held_obj cfg sz s R W K (r :: H) S r (set_status st (objs s r)) I ltac:(by left) eq_refl eq_refl) as I1.
  eapply wp_mono; [apply (free_request_ok _ _ _ _ _ _ _ I1)|].
  - cbn [objs set_objs]. by rewrite fn_lookup_insert.
  - intros _ s' (I2 & Eo & Er & _). cbn [objs set_objs] in *. rewrite fn_lookup_insert in I2. simpl in I2.
    split; [done|]. split; [done|]. rewrite Eo. split; [by rewrite fn_lookup_insert|].
    intros x Hx. by rewrite fn_lookup_insert_ne.
Qed.

Definition collected (s : State) (R W K : list Z) (ids : list string) (c : list Z * list Z * list Z) : Prop :=
  NoDup c.1.1 /\ (forall r, r ∈ c.1.1 <-> r ∈ R ++ W ++ K /\ request_id (objs s r) ∈ ids) /\
  (forall r, r ∈ c.1.2 <-> r ∈ c.1.1 /\ r ∈ R) /\ (forall r, r ∈ c.2 <-> r ∈ c.1.1 /\ r ∈ W ++ K).

Lemma collect_ok s R W K S ids :
  held_ok s R W K [] S -> NoDup ids ->
  wp (for_fold collect_finished ids ([], [], [])) (fun c s' => s' = s /\ collected s R W K ids c) s.
Proof.
  intros I Hids. apply (wp_for_fold (fun l1 _ c s' => s' = s /\ collected s R W K l1 c)).
  { split; [done|]. split; [constructor|]. set_solver. }
  intros l1 id l2 [[v ru] wa] s' E (-> & Hv & Hin & Hru & Hwa). cbn [fst snd] in *.
  assert (Hid : id ∉ l1).
  { rewrite E in Hids. apply list.NoDup_app in Hids as (_ & Hd & _). intros Hx. apply (Hd id Hx). by left. }
  pose proof (hk_requests I) as Hreq. setoid_rewrite app_nil_r in Hreq.
  unfold collect_finished. apply wp_bind, wp_get. destruct (requests s !! id) as [r|] eqn:Er.
  2: { apply wp_ret. split; [done|]. split; [done|]. split; [|done]. intros r. rewrite Hin, (elem_of_app l1), list_elem_of_singleton.
       split; [tauto|]. intros [Hr [?|Ex]]; [done|]. exfalso. subst id. assert (Hs : requests s !! request_id (objs s r) = Some r) by (by apply Hreq).
       congruence. }
  apply Hreq in Er as [Hr Eid]. apply wp_bind, wp_obj'. destruct (listed_status cfg sz s R W K [] S r I Hr) as (-> & _ & Hns & Hrun).
  assert (Hrv : r ∉ v) by (intros Hx%Hin; subst id; naive_solver).
  assert (Hadd : forall ru' wa', (forall x, x ∈ ru' <-> x ∈ v ++ [r] /\ x ∈ R) -> (forall x, x ∈ wa' <-> x ∈ v ++ [r] /\ x ∈ W ++ K) ->
    collected s R W K (l1 ++ [id]) (v ++ [r], ru', wa')).
  { intros ru' wa' H1 H2. split; [|split; [|done]].
    - cbn [fst]. apply list.NoDup_app. split; [done|]. split; [|apply NoDup_singleton]. by intros x Hx ->%list_elem_of_singleton.
    - cbn [fst]. intros x. rewrite (elem_of_app v), (elem_of_app l1), !list_elem_of_singleton, Hin. split.
      + intros [[Hx ?]| ->]; auto.
      + intros [Hx [?|Ex]]; [auto|]. right. apply (held_inj I); [by rewrite app_nil_r..|congruence]. }
  pose proof (hk_nodup I) as Hn. rewrite app_nil_r in Hn. apply list.NoDup_app in Hn as (_ & Hd & _).
  cbv iota. destruct (decide (status (objs s r) = RUNNING)) as [Ers|Ers].
  - assert (HrR : r ∈ R) by (by apply Hrun). apply wp_ret. split; [done|]. apply Hadd.
    + intros x. rewrite !(elem_of_app _ [r]), !list_elem_of_singleton, Hru. naive_solver.
    + intros x. rewrite (elem_of_app v), list_elem_of_singleton, Hwa. split; [naive_solver|].
      intros [[?| ->] Hx]; [done|]. by destruct (Hd r HrR).
  - apply wp_bind. rewrite decide_False by done. apply wp_ret, wp_ret. split; [done|]. 
    assert (HrR : r ∉ R) by (by intros ?%Hrun). apply Hadd.
    + intros x. rewrite (elem_of_app v), list_elem_of_singleton, Hru. naive_solver.
    + intros x. rewrite !(elem_of_app _ [r]), !list_elem_of_singleton, Hwa. assert (r ∈ W ++ K) by set_solver. naive_solver.
Qed.

Lemma drop_running_ok (s : State) R ru :
  running s = R -> NoDup R ->
  wp (match ru with [] => mret tt | _ => modify (fun s => set_running (remove_all (running s) ru) s) end : M State unit)
    (fun _ s' => s' = set_running (without_all ru R) s) s.
Proof.
  intros ER Hn. destruct ru as [|x ru]; [|apply wp_modify; by rewrite ER, remove_all_filter].
  apply wp_ret. rewrite without_all_nil, <- ER. by destruct s.
Qed.

Lemma drop_waiting_ok (s : State) W K wa :
  serves (objs s) (policy cfg) (waiting s) W -> serves (objs s) (policy cfg) (skipped_waiting s) K ->
  wp (match wa with [] => mret tt
      | _ => on_waiting (fun o => remove_requests o wa) ;; on_skipped_waiting (fun o => remove_requests o wa) end)
    (fun _ s' => exists q q', s' = set_skipped_waiting q' (set_waiting q s) /\
      serves (objs s) (policy cfg) q (without_all wa W) /\ serves (objs s) (policy cfg) q' (without_all wa K)) s.
Proof.
  intros Hw Hk. destruct wa as [|x wa].
  { apply wp_ret. exists (waiting s), (skipped_waiting s). rewrite !without_all_nil. split; [by destruct s|done]. }
  destruct (remove_all_serves (objs s) _ _ W (x :: wa) Hw) as (q & Hq & Sq).
  destruct (remove_all_serves (objs s) _ _ K (x :: wa) Hk) as (q' & Hq' & Sq').
  apply wp_bind, wp_bind, wp_get, wp_zoom. unfold wp at 1. rewrite Hq. apply wp_bind, wp_get, wp_zoom. unfold wp.
  cbn [skipped_waiting objs set_waiting]. rewrite Hq'. by exists q, q'.
Qed.

(** Requests that are [gone] have the status; to the ones left finishing does
    nothing. *)
Record left_over (s : State) (R W K : list Z) (gone : Z -> Prop) (st : RequestStatus) (s' : State) (R' W' K' : list Z)
    (S' : gmap string Z) : Prop := {
  lo_ok : sched_ok cfg sz s' R' W' K' S';
  lo_running : forall r, r ∈ R' <-> r ∈ R /\ ~ gone r;
  lo_waiting : forall r, r ∈ W' ++ K' <-> r ∈ W ++ K /\ ~ gone r;
  lo_objs : forall r, r ∈ R' ++ W' ++ K' -> objs s' r = objs s r;
  lo_gone : forall r, r ∈ R ++ W ++ K -> gone r -> objs s' r = set_status st (objs s r)
}.

Lemma finish_requests_ok s R W K S ids st :
  sched_ok cfg sz s R W K S -> NoDup ids -> is_finished st = true ->
  wp (finish_requests ids st) (fun res s' => NoDup res.*1 /\
    (forall id c, (id, c) ∈ res <-> id ∈ ids /\ exists r, requests s !! id = Some r /\ client_index (objs s r) = c) /\
    exists R' W' K' S', left_over s R W K (fun r => request_id (objs s r) ∈ ids) st s' R' W' K' S') s.
Proof.
  intros Iok Hids Hst. pose proof (sched_held cfg sz _ _ _ _ _ Iok) as I. destruct Iok as [_ _ _ ER Hmax _ _ _ _ _ _ _ _ _ _].
  unfold finish_requests. apply wp_bind, wp_assert; [done|]. apply wp_bind. eapply wp_mono; [by eapply collect_ok|].
  intros [[v ru] wa] s1 (-> & Hv & Hin & Hru & Hwa). cbn [fst snd] in *.
  pose proof (hk_nodup I) as Hn. rewrite app_nil_r in Hn.
  pose proof Hn as Hn'. apply list.NoDup_app in Hn' as (HnR & HdR & HnWK).
  apply wp_bind. eapply wp_mono; [by apply drop_running_ok|]. intros _ s1 ->.
  apply wp_bind. eapply wp_mono; [apply (drop_waiting_ok _ W K); apply I|]. intros _ s2 (q & q' & -> & Sq & Sq').
  cbn [objs set_running] in Sq, Sq'.
  assert (E1 : without_all ru R = without_all v R) by (apply without_all_other; naive_solver).
  assert (E2 : without_all wa W = without_all v W) by (apply without_all_other; set_solver).
  assert (E3 : without_all wa K = without_all v K) by (apply without_all_other; set_solver).
  rewrite E1, E2, E3 in *. set (s2 := set_skipped_waiting _ _).
  assert (HP : without_all v R ++ without_all v W ++ without_all v K ++ v ≡ₚ R ++ W ++ K).
  { rewrite (without_all_perm v (R ++ W ++ K)) at 1; [|done|done|by intros r [Hr _]%Hin]. by rewrite !filter_app, <- !app_assoc. }
  assert (I2 : held_ok s2 (without_all v R) (without_all v W) (without_all v K) v S).
  { eapply (held_leave I); try done; try (by intros x [_ ?]%list_elem_of_filter).
    - by rewrite app_nil_r.
    - intros r. rewrite app_nil_r, elem_of_app, list_elem_of_filter. destruct (decide (r ∈ v)); tauto. }
  apply wp_bind. eapply wp_mono.
  { apply (wp_for_each (fun l1 l2 s' => exists S', held_ok s' (without_all v R) (without_all v W) (without_all v K) l2 S' /\
      running s' = without_all v R /\ (forall x, x ∉ l1 -> objs s' x = objs s x) /\
      forall x, x ∈ l1 -> objs s' x = set_status st (objs s x))).
    - exists S. split; [done|]. split; [done|]. by split; [|intros x ?%elem_of_nil].
    - intros l1 r l2 s' E (S' & I' & Er & Eo & Ef). assert (Hr : r ∉ l1).
      { rewrite E in Hv. apply list.NoDup_app in Hv as (_ & Hd & _). intros Hx. apply (Hd r Hx). by left. }
      eapply wp_mono; [apply (finish_one_ok s' _ _ _ l2 S' r st I' Hst)|].
      + rewrite Eo by done. apply (listed_status cfg sz s R W K [] S r I). apply Hin. rewrite E. set_solver.
      + intros _ s3 (I3 & Er3 & Ef3 & Eo3). eexists. split; [exact I3|]. split; [congruence|]. split; intros x Hx.
        * rewrite Eo3 by set_solver. apply Eo. set_solver.
        * apply elem_of_app in Hx as [Hx| ->%list_elem_of_singleton]; [|by rewrite Ef3, Eo].
          rewrite Eo3 by (by intros ->). by apply Ef. }
  intros _ s3 (S' & I3 & Er3 & Eo3 & Ef3). apply wp_bind, wp_get, wp_ret.
  assert (Eid : (fun r => (request_id (objs s3 r), client_index (objs s3 r))) <$> v = (fun r => (request_id (objs s r), client_index (objs s r))) <$> v).
  { apply list_fmap_ext. intros i r Hr%list_elem_of_lookup_2. by rewrite Ef3. }
  rewrite Eid. clear Eid. pose proof (hk_requests I) as Hreq. setoid_rewrite app_nil_r in Hreq. split; [|split].
  { rewrite <- list_fmap_compose. apply NoDup_fmap_2_strong; [|done]. intros x y [Hx _]%Hin [Hy _]%Hin E.
    apply (held_inj I); [by rewrite app_nil_r..|done]. }
  { intros id c. rewrite list_elem_of_fmap. split.
    - intros (r & [= -> ->] & [Hr Hi]%Hin). split; [done|]. exists r. split; [by apply Hreq|done].
    - intros [Hi (r & Hr & <-)]. apply Hreq in Hr as [Hr <-]. exists r. split; [done|]. by apply Hin. }
  exists (without_all v R), (without_all v W), (without_all v K), S'. constructor.
  - apply held_sched; [done|done|]. pose proof (length_filter (fun x => x ∉ v) R). lia.
  - intros r. rewrite list_elem_of_filter, Hin. set_solver.
  - intros r. rewrite !elem_of_app, !list_elem_of_filter, Hin. set_solver.
  - intros r. rewrite <- !filter_app, list_elem_of_filter. intros [Hr _]. by apply Eo3.
  - intros r Hr Hg. by apply Ef3, Hin.
Qed.

(** C4. Finishing requests from outside is exact. From any state between steps,
    [finish_requests] with distinct ids returns the ids and clients of the
    unfinished requests among them, each once; these get the status, leave their
    lists and give up their slots; unknown ids are passed over, the other
    requests keep their place and their data, and the state is again one between
    steps. *)
Theorem finish_requests_exact s R W K S ids st :
  sched_ok cfg sz s R W K S -> NoDup ids -> is_finished st = true ->
  exists res s', finish_requests ids st s = (Ok res, s') /\ NoDup res.*1 /\
    (forall id c, (id, c) ∈ res <-> id ∈ ids /\ exists r, requests s !! id = Some r /\ client_index (objs s r) = c) /\
    exists R' W' K' S', left_over s R W K (fun r => request_id (objs s r) ∈ ids) st s' R' W' K' S'.
Proof.
  intros I Hids Hst. destruct (wp_returns _ _ _ (finish_requests_ok s R W K S ids st I Hids Hst)) as (res & s' & E & H).
  by exists res, s'.
Qed.

(** ** Adding a request *)

(** What a new request satisfies. *)
Record new_ok (q : Request) : Prop := {
  nw_ok : request_ok cfg sz q;
  nw_status : status q = WAITING \/ status q = WAITING_FOR_STRUCTURED_OUTPUT_GRAMMAR;
  nw_computed : num_computed_tokens q = 0;
  nw_placeholders : placeholders_ok cfg q;
  nw_prefill : num_tokens q <= num_prompt_tokens q;
  nw_resumable : resumable q = false
}.

Lemma enqueue_perm o r l : enqueue o (policy cfg) r l ≡ₚ r :: l.
Proof. unfold enqueue. destruct (policy cfg); [solve_Permutation|apply insert_by_perm]. Qed.

(** The queues take the request in. *)
Lemma enqueue_ok (s : State) W K r :
  serves (objs s) (policy cfg) (waiting s) W -> serves (objs s) (policy cfg) (skipped_waiting s) K ->
  wp (enqueue_waiting_request r) (fun _ s' => exists q q' W' K', s' = set_skipped_waiting q' (set_waiting q s) /\
    W' ++ K' ≡ₚ r :: W ++ K /\ serves (objs s) (policy cfg) q W' /\ serves (objs s) (policy cfg) q' K') s.
Proof.
  intros Hw Hk. unfold enqueue_waiting_request. apply wp_bind, wp_obj'. destruct (is_blocked_waiting_status _).
  - destruct (add_serves (objs s) _ _ K r Hk) as (q' & Hq & Sq). apply wp_bind, wp_get, wp_zoom. unfold wp. rewrite Hq.
    exists (waiting s), q', W, (enqueue (objs s) (policy cfg) r K). split; [by destruct s|]. split; [|done].
    rewrite enqueue_perm. solve_Permutation.
  - destruct (add_serves (objs s) _ _ W r Hw) as (q & Hq & Sq). apply wp_bind, wp_get, wp_zoom. unfold wp. rewrite Hq.
    exists q, (skipped_waiting s), (enqueue (objs s) (policy cfg) r W), K. split; [by destruct s|]. split; [|done].
    by rewrite enqueue_perm.
Qed.

Lemma add_request_ok h s R W K S r :
  sched_ok cfg sz s R W K S -> r ∉ R ++ W ++ K -> requests s !! request_id (objs s r) = None -> new_ok (objs s r) ->
  wp (scheduler_add_request h r) (fun _ s' => exists W' K', sched_ok cfg sz s' R W' K' S /\ W' ++ K' ≡ₚ r :: W ++ K /\
    objs s' = objs s) s.
Proof.
  intros [H1 H2 H3 H4 H5 H6 H7 H8 H9 H10 H11 H12 H13 H14 H15] Hr Hid Hq. unfold scheduler_add_request.
  apply wp_bind, wp_obj', wp_bind, wp_get. rewrite Hid, (nw_resumable _ Hq). apply wp_bind, wp_ret, wp_bind.
  eapply wp_mono; [by apply (enqueue_ok s W K)|]. intros _ s1 (q & q' & W' & K' & -> & HP & Sq & Sq').
  apply wp_modify. exists W', K'. split; [|done].
  assert (HPA : R ++ W' ++ K' ≡ₚ r :: R ++ W ++ K) by (rewrite HP; solve_Permutation).
  assert (Hwait : wait_ok cfg (objs s r)).
  { destruct Hq as [_ [E|E] ? ? _ _]; (split; [|done]); auto. }
  constructor; simpl; try done.
  - rewrite HPA. by constructor.
  - intros id x. rewrite lookup_insert_Some, H2, HPA, elem_of_cons. split.
    + intros [[<- ->]|[Hne [Hx E]]]; auto.
    + intros [[->|Hx] E]; [by left|]. right. split; [|done]. intros E'. subst id.
      assert (requests s !! request_id (objs s x) = Some x) by (by apply H2). congruence.
  - intros x. rewrite HPA, elem_of_cons. intros [->|Hx]; [apply Hq|by apply H3].
  - intros x. rewrite HP, elem_of_cons. intros [->|Hx]; [done|by apply H9].
  - intros id i Hi. destruct (H13 id i Hi) as (x & Hx & E). exists x. rewrite HPA. split; [by right|done].
  - intros x. rewrite HPA, elem_of_cons. intros [->|Hx] Hpf; [apply Hq|by apply H14].
  - intros x. rewrite HP, elem_of_cons. intros [->|Hx] Hst; [|by apply H15].
    destruct (nw_status _ Hq) as [E|E]; rewrite E in Hst; done.
Qed.

(** ** Resetting the caches *)

Section reset.
Context (all : list Z) (objs0 : Z -> Request) (rmap : gmap string Z) (prev : gset string).
Context (Hall : NoDup all) (Hmap : forall id r, rmap !! id = Some r <-> r ∈ all /\ request_id (objs0 r) = id).
Context (Hok : forall r, r ∈ all -> request_ok cfg sz (objs0 r)).
#[local] Notation core := (core_at cfg sz all objs0 rmap (prev:=prev)).

Lemma preempt_all_ok fuel : forall s R W K P S,
  core s R W K [] [] R P S -> running s = R -> (length R < fuel)%nat ->
  wp (preempt_all fuel) (fun _ s' => exists W' P' S', core s' [] W' K [] [] [] P' S' /\ W' ≡ₚ R ++ W /\ running s' = []) s.
Proof.
  induction fuel as [|fuel IH]; intros s R W K P S I ER Hf; [lia|]. cbn [preempt_all].
  apply wp_bind, wp_get. rewrite ER. destruct (last R) as [r|] eqn:El.
  2: { apply last_None in El as ->. apply wp_ret. by exists W, P, S. }
  assert (HnR : NoDup R).
  { pose proof (co_perm cfg sz all objs0 rmap s R W K [] [] R P S I) as HP.
    assert (Hn : NoDup (R ++ W ++ K ++ [] ++ [])) by (by rewrite HP). by apply list.NoDup_app in Hn as (? & _). }
  assert (HrR : r ∈ R) by (apply last_Some in El as [k ->]; set_solver).
  assert (Erl : removelast R = filter (fun x => x <> r) R).
  { apply last_Some in El as [k ->]. rewrite removelast_last. apply list.NoDup_app in HnR as (_ & Hd & _).
    rewrite filter_app, (filter_all _ k), filter_cons_False, filter_nil, app_nil_r; [done|tauto|].
    intros x Hx ->. apply (Hd r Hx). by left. }
  assert (HR : R = filter (fun x => x <> r) R ++ [r]).
  { rewrite <- Erl. apply last_Some in El as [k ->]. by rewrite removelast_last. }
  assert (Hord : forall s i, i ∈ order s -> i ∈ s) by (intros ? ? ?; by apply Horder).
  apply wp_bind, wp_modify. cbn beta. rewrite Erl.
  destruct (core_take cfg C order Hord sz Hsz all objs0 rmap Hall Hmap Hok prev s R W K P S r I HrR) as [It Hrun].
  apply wp_bind. eapply wp_mono; [by eapply (preempt_request_ok cfg C order Hord sz Hsz all objs0 rmap Hall Hmap Hok)|].
  cbv beta. intros _ s1 (W1 & HW1 & I1 & ER1 & _ & _). cbn [running set_running] in ER1. apply wp_bind, wp_modify. cbn beta.
  set (f := fun q => set_num_output_placeholders 0 (set_async_tokens_to_discard (num_output_placeholders q) q)).
  assert (I2 : core (set_objs (<[r := f (objs s1 r)]> (objs s1)) s1) (filter (fun x => x <> r) R) W1 K [] []
    (filter (fun x => x <> r) R) (P ++ [r]) (delete (request_id (objs0 r)) S)).
  { apply (core_obj cfg sz all objs0 rmap I1 r f); try done.
    - intros [Hne _]%list_elem_of_filter. done.
    - intros Hr. destruct (co_wait cfg sz all objs0 rmap _ _ _ _ _ _ _ _ _ I1 r Hr) as (? & ? & _). split; [done|]. split; [done|].
      split; [done|]. by intros _. }
  assert (Hlen : R ≡ₚ r :: filter (fun x => x <> r) R) by (rewrite HR at 1; solve_Permutation).
  eapply wp_mono; [apply (IH _ _ _ _ _ _ I2 ER1)|].
  - apply Permutation_length in Hlen. simpl in Hlen. lia.
  - intros _ s2 (W' & P' & S' & I3 & HW' & ER3). exists W', P', S'. split; [done|]. split; [|done].
    rewrite HW', HW1. rewrite Hlen at 2. solve_Permutation.
Qed.
End reset.

(** Resetting preempts the running requests if asked to, and succeeds then. *)
Lemma reset_prefix_cache_ok s R W K S b :
  sched_ok cfg sz s R W K S -> 
  wp (scheduler_reset_prefix_cache b) (fun ok s' => (b = true -> ok = true) /\ exists R' W' S', sched_ok cfg sz s' R' W' K S' /\
    (forall r, static (objs s' r) = static (objs s r)) /\
    (if b then R' = [] /\ W' ≡ₚ R ++ W else R' = R /\ W' = W /\ S' = S /\ objs s' = objs s)) s.
Proof.
  intros I. pose proof (sched_ok_core _ _ _ _ _ _ _ I) as Ic. destruct I as [J1 J2 J3 J4 J5 J6 J7 J8 J9 J10 J11 J12 J13 J14 J15].
  unfold scheduler_reset_prefix_cache. destruct b; cbn [andb].
  - apply wp_bind, wp_bind, wp_get, wp_bind. eapply wp_mono.
    { by eapply (preempt_all_ok (R ++ W ++ K) (objs s) (requests s) _ J1 J2 J3 _ s R W K [] S Ic J4); rewrite J4; lia. }
    intros _ s1 (W' & P' & S' & I1 & HW & ER). apply wp_modify. cbn beta.
    set (s2 := set_prev_step_scheduled_req_ids ∅ s1).
    assert (I2 : core_at cfg sz (R ++ W ++ K) (objs s) (requests s) (prev:=∅) s2 [] W' K [] [] [] P' S').
    { destruct I1. constructor; try done. intros r _ _. right. set_solver. }
    assert (HS : S' = ∅).
    { apply map_empty. intros id. destruct (S' !! id) eqn:E; [|done].
      destruct (co_dom cfg sz _ _ _ _ _ _ _ _ _ _ _ _ I2 id ltac:(rewrite E; eauto)) as (r & Hr%elem_of_nil & _). done. }
    apply wp_bind, wp_zoom. eapply wp_mono; [apply (slots_reset _ S'), I2|]. intros ok k' [Hk Hs]. rewrite (Hs HS). cbn [negb].
    apply wp_ret. split; [done|]. exists [], W', S'. split; [|split; [apply (co_static cfg sz _ _ _ _ _ _ _ _ _ _ _ _ I2)|done]].
    eapply (core_sched_ok cfg sz (objs s) (requests s) (R ++ W ++ K) ∅ _ _ _ _ P'); try done.
    + destruct I2. by constructor.
    + change (0 <= max_num_running_reqs cfg). pose proof J5. lia.
  - apply wp_bind, wp_ret, wp_bind, wp_zoom. eapply wp_mono; [apply (slots_reset _ S), J10|].
    intros ok k' [Hk _]. apply wp_ret. split; [done|]. exists R, W, S. split; [|done]. by constructor.
Qed.
End lifecycle.
End LifecycleSafety.
