(* ===== verification/OutputUpdate.v ===== *)
(** * OutputUpdate

    v1/core/sched/scheduler.py and async_scheduler.py: what the scheduler does
    with the output of the model runner. The sampled tokens are appended to their
    requests, rejected drafts taken back, requests stopped, and the outputs for
    the clients collected; the drafts of the next step are recorded.

    The grammars of structured output are reached through the interface
    [GrammarManager]. Sample logprobs, trace headers, events of requests and
    statistics are passed through to the clients in the source and left out. *)

From S2P Require Import Prelude Request OrderedDict RequestQueue StopCheck BlockPool KVCacheManager SchedulerState Scheduler Lifecycle.

Module OutputUpdate.
Import Request OrderedDict StopCheck SchedulerState Scheduler Lifecycle.
#[local] Open Scope Z_scope.

(** ** The interfaces *)

(** What the scheduler calls of the structured output manager, and of the
    grammar of a request. The bitmask is prepared for requests by id; it has a row
    for every token to sample. *)
Class GrammarManager (GM : Type) := {
  gm_should_advance : Request -> M GM bool;
  gm_trim_reasoning : Request -> list Z -> M GM (list Z);
  gm_has_grammar : Request -> GM -> bool;
  gm_accept_tokens : Request -> list Z -> M GM bool;
  gm_validate_tokens : Request -> list Z -> M GM (list Z);
  gm_grammar_bitmask : (string -> option Request) -> list string -> list (string * list Z) -> M GM (option (list bytes))
}.

(** [ModelRunnerOutput]; tensors are opaque bytes. *)
Record ModelRunnerOutput := mkRunnerOutput {
  req_id_to_index : gmap string Z;
  sampled_token_ids : list (list Z);
  prompt_logprobs_dict : gmap string (option bytes);
  pooler_output : option (list (option bytes));
  mr_num_nans_in_logits : option (gmap string Z);
  draft_token_counts : option (list (string * Z))
}.

Record EngineCoreOutput := mkCoreOutput {
  eo_request_id : string;
  eo_new_token_ids : list Z;
  eo_finish_reason : option FinishReason;
  eo_prompt_logprobs : option bytes;
  eo_pooling_output : option bytes;
  eo_stop_reason : option StopReason;
  eo_prefill_stats : option PrefillStats;
  eo_num_nans_in_logits : Z
}.

Record EngineCoreOutputs := mkCoreOutputs {
  eos_outputs : list EngineCoreOutput;
  finished_requests : option (gset string)
}.

Section update.
Context {KV EC GM : Type} `{!SlotManager KV} `{!EncoderManager EC} `{!GrammarManager GM}.
Context (cfg : SchedulerConfig) (h : option hasher) (use_dspark_confidence_schedule : bool).
#[local] Notation State := (SchedulerState.Scheduler KV EC).
#[local] Notation Engine := (State * GM)%type.

Definition on_scheduler {A} (op : M State A) : M Engine A := zoom fst (fun s p => (s, p.2)) op.
Definition on_grammars {A} (op : M GM A) : M Engine A := zoom snd (fun g p => (p.1, g)) op.

(** [request is None or request.is_finished()]: such requests are left out. *)
Definition live_request (req_id : string) : M State (option Z) :=
  s ← get;
  mret (r ← requests s !! req_id; if is_finished (status (objs s r)) then None else Some r).

(** ** One request *)

(** Rejected drafts were not computed after all. *)
Definition take_back_rejected (r : Z) (generated scheduled_spec : list Z) : M State unit :=
  if negb (zlen scheduled_spec =? 0) &&
     (negb (zlen generated =? 0) || (num_sampled_tokens_per_step cfg =? 0)) then
    let num_accepted := Z.max (zlen generated - num_sampled_tokens_per_step cfg) 0 in
    let num_rejected := zlen scheduled_spec - num_accepted in
    update_obj r (fun q =>
      let q := if 0 <? num_computed_tokens q then set_num_computed_tokens (num_computed_tokens q - num_rejected) q else q in
      if 0 <? num_output_placeholders q
      then set_num_output_placeholders (num_output_placeholders q - num_rejected) q else q)
  else mret tt.

(** Encoder outputs already in the KV cache are released. *)
Definition free_encoder_inputs (r : Z) : M State unit :=
  request ← obj r;
  s ← get;
  for_each (fun input_id =>
    f ← of_option IndexError (py_index (mm_features request) input_id);
    if is_encoder_decoder cfg && (0 <? num_computed_tokens request)
    then on_ec (em_free_encoder_input request input_id)
    else if offset (mm_position f) + length_ (mm_position f) <=? num_computed_tokens request
    then on_ec (em_free_encoder_input request input_id)
    else mret tt) (em_get_cached_input_ids request (encoder_cache_manager s)).

(** [_update_request_with_output] of both schedulers: the tokens kept, and
    whether the request stopped. *)
Definition update_with_output (r : Z) (new_token_ids : list Z) : M State (list Z * bool) :=
  let base := on_obj r (update_request_with_output h (max_model_len cfg) new_token_ids) in
  if async_scheduling cfg then
    request ← obj r;
    if 0 <? async_tokens_to_discard request then
      update_obj r (set_async_tokens_to_discard (async_tokens_to_discard request - 1)) ;;
      mret ([], false)
    else
      res ← base;
      update_obj r (fun q => set_num_output_placeholders (num_output_placeholders q - zlen res.1) q) ;;
      request' ← obj r;
      assert_ (0 <=? num_output_placeholders request') ;;
      (if decide (status request = RUNNING)
       then on_kv (sm_cache_blocks request' (num_computed_tokens request' - num_output_placeholders request'))
       else mret tt) ;;
      mret res
  else base.

(** The grammar of the request takes the new tokens; true when it rejects them
    and the request ends with an error. *)
Definition advance_grammar (r : Z) (new_token_ids : list Z) : M Engine bool :=
  match new_token_ids with
  | [] => mret false
  | _ =>
      request ← on_scheduler (obj r);
      go ← on_grammars (gm_should_advance request);
      if (go : bool) then
        g ← get;
        assert_ (use_structured_output request && gm_has_grammar request g.2) ;;
        advance_token_ids ← on_grammars (gm_trim_reasoning request new_token_ids);
        ok ← (match advance_token_ids with
              | [] => mret true
              | _ => on_grammars (gm_accept_tokens request advance_token_ids)
              end);
        if (ok : bool) then mret false
        else
          on_scheduler (update_obj r (fun q => set_resumable false (set_status FINISHED_ERROR q))) ;;
          mret true
      else mret false
  end.

(** What the loop over the requests collects. *)
Record Updates := mkUpdates {
  up_outputs : gmap Z (list EngineCoreOutput);
  stopped_running_reqs : list Z;
  stopped_preempted_reqs : list Z
}.

(** [set.add] *)
Definition set_add (r : Z) (l : list Z) : list Z := if decide (r ∈ l) then l else l ++ [r].

(** A stopped request is released, or waits for more input; the finish reason
    is read before. *)
Definition stop_request (r : Z) (status_before_stop : RequestStatus) (u : Updates)
    : M State (option FinishReason * Updates) :=
  request ← obj r;
  finished ← handle_stopped_request h r;
  (if (finished : bool) then free_request r false else mret tt) ;;
  mret (get_finished_reason (status request),
        if decide (status_before_stop = RUNNING)
        then mkUpdates (up_outputs u) (set_add r (stopped_running_reqs u)) (stopped_preempted_reqs u)
        else mkUpdates (up_outputs u) (stopped_running_reqs u) (set_add r (stopped_preempted_reqs u))).

(** The output for the client, where there is something to report. *)
Definition report (mo : ModelRunnerOutput) (r : Z) (req_id : string) (new_token_ids : list Z)
    (pooled : option bytes) (stopped : bool) (finish_reason : option FinishReason) (u : Updates) : M State Updates :=
  (match mr_num_nans_in_logits mo with
   | Some m => match m !! req_id with Some n => update_obj r (set_num_nans_in_logits n) | None => mret tt end
   | None => mret tt
   end) ;;
  let prompt_logprobs := mjoin (prompt_logprobs_dict mo !! req_id) in
  if negb (zlen new_token_ids =? 0) || bool_decide (is_Some pooled) || stopped then
    stats ← on_obj r take_prefill_stats;
    request ← obj r;
    let out := mkCoreOutput req_id new_token_ids finish_reason prompt_logprobs pooled (stop_reason request) stats
                 (num_nans_in_logits request) in
    let client := client_index request in
    mret (mkUpdates (<[client := default [] (up_outputs u !! client) ++ [out]]> (up_outputs u))
            (stopped_running_reqs u) (stopped_preempted_reqs u))
  else
    assert_ (bool_decide (prompt_logprobs = None)) ;;
    mret u.

(** What the runner sampled for the request of an index, and what it pooled. *)
Definition sampled_for (mo : ModelRunnerOutput) (req_index : Z) : M State (list Z) :=
  match sampled_token_ids mo with
  | [] => mret []
  | l => of_option IndexError (py_index l req_index)
  end.
Definition pooled_for (mo : ModelRunnerOutput) (req_index : Z) : M State (option bytes) :=
  match pooler_output mo with
  | Some ((_ :: _) as l) => of_option IndexError (py_index l req_index)
  | _ => mret None
  end.

(** Tokens sampled, or a result pooled: the tokens kept, and whether the request
    stops. *)
Definition take_result (r : Z) (generated : list Z) (pooled : option bytes) : M State (list Z * bool) :=
  request ← obj r;
  match generated with
  | _ :: _ => update_with_output r generated
  | [] =>
      if bool_decide (is_Some (pooling_params request)) && bool_decide (is_Some pooled)
      then update_obj r (set_status FINISHED_STOPPED) ;; mret ([], true)
      else mret ([], false)
  end.

(** The body of the loop over the scheduled requests. *)
Definition update_one_output (o : SchedulerOutput) (mo : ModelRunnerOutput) (u : Updates) (e : string * Z)
    : M Engine Updates :=
  let '(req_id, num_tokens_scheduled) := e in
  assert_ (0 <? num_tokens_scheduled) ;;
  live ← on_scheduler (live_request req_id);
  match live with
  | None => mret u
  | Some r =>
      req_index ← of_option KeyError (req_id_to_index mo !! req_id);
      generated ← on_scheduler (sampled_for mo req_index);
      on_scheduler (take_back_rejected r generated (default [] (od_get req_id (out_spec_decode_tokens o)))) ;;
      request ← on_scheduler (obj r);
      (if has_encoder_inputs request then on_scheduler (free_encoder_inputs r) else mret tt) ;;
      pooled ← on_scheduler (pooled_for mo req_index);
      kept ← on_scheduler (take_result r generated pooled);
      rejected ← advance_grammar r kept.1;
      let stopped := kept.2 || rejected in
      f ← (if stopped then on_scheduler (stop_request r (status request) u) else mret (None, u));
      on_scheduler (report mo r req_id kept.1 pooled stopped f.1 f.2)
  end.

(** ** The whole update *)

(** Finished ids for every client, since outputs were last sent. *)
Definition collect_outputs (u : Updates) : M State (gmap Z EngineCoreOutputs) :=
  s ← get;
  let finished := default ∅ (finished_req_ids_dict s) in
  modify (fun s => set_finished_req_ids_dict ((fun _ => ∅) <$> finished_req_ids_dict s) s) ;;
  mret (merge (fun o f => match o, f with
                          | None, None => None
                          | _, _ => Some (mkCoreOutputs (default [] o) f)
                          end) (up_outputs u) finished).

Definition remove_stopped (u : Updates) : M State unit :=
  (match stopped_running_reqs u with
   | [] => mret tt
   | l => modify (fun s => set_running (remove_all (running s) l) s)
   end) ;;
  match stopped_preempted_reqs u with
  | [] => mret tt
  | l => on_waiting (fun o => RequestQueue.remove_requests o l)
  end.

(** [_update_dspark_draft_placeholders] *)
Definition update_dspark_draft_placeholders (counts : option (list (string * Z))) : M State unit :=
  if negb use_dspark_confidence_schedule then mret tt
  else for_each (fun e =>
    live ← live_request e.1;
    match live with
    | None => mret tt
    | Some r =>
        request ← obj r;
        if is_prefill_chunk request then mret tt
        else update_obj r (set_spec_token_ids
               (replicate (Z.to_nat (Z.max 0 (Z.min e.2 (num_spec_tokens cfg)))) (-1)))
    end) (default [] counts).

(** Also returned: the KV cache events that are published. *)
Definition update_from_output (o : SchedulerOutput) (mo : ModelRunnerOutput)
    : M Engine (gmap Z EngineCoreOutputs * list (BlockPool.KVCacheEvent * option (string * option Z))) :=
  u ← for_fold (update_one_output o mo) (out_num_scheduled_tokens o) (mkUpdates ∅ [] []);
  on_scheduler (remove_stopped u) ;;
  events ← on_scheduler (on_kv sm_take_events);
  outputs ← on_scheduler (collect_outputs u);
  (if async_scheduling cfg then on_scheduler (update_dspark_draft_placeholders (draft_token_counts mo)) else mret tt) ;;
  mret (outputs, events).

(** ** Drafts and grammars *)

Definition validate_drafts (no_grammar : exn) (request : Request) (spec_token_ids : list Z) : M Engine (list Z) :=
  go ← on_grammars (gm_should_advance request);
  if (go : bool) then
    g ← get;
    (if gm_has_grammar request g.2 then mret tt else raise no_grammar) ;;
    on_grammars (gm_validate_tokens request spec_token_ids)
  else mret spec_token_ids.

Definition update_draft_token_ids (drafts : list (string * list Z)) : M Engine unit :=
  for_each (fun e =>
    live ← on_scheduler (live_request e.1);
    match live with
    | None => mret tt
    | Some r =>
        request ← on_scheduler (obj r);
        if is_prefill_chunk request then on_scheduler (update_obj r (set_spec_token_ids []))
        else
          ids ← validate_drafts AttributeError request e.2;
          on_scheduler (update_obj r (set_spec_token_ids ids))
    end) drafts.

Definition set_drafts (spec : list (string * list Z)) (invalid : gmap string Z) (o : SchedulerOutput) : SchedulerOutput :=
  mkOutput (scheduled_new_reqs_data o) (scheduled_cached_reqs o) (out_num_scheduled_tokens o)
    (total_num_scheduled_tokens o) spec (out_encoder_inputs o) (num_common_prefix_blocks o)
    (out_finished_req_ids o) (free_encoder_mm_hashes o) (preempted_req_ids o) (has_structured_output_requests o)
    (pending_structured_output_tokens o) (Some invalid) (new_block_ids_to_zero o).

(** The drafts of one request are cut to the scheduled number and filled up with
    -1 behind those the grammar accepts. *)
Definition update_drafts_of (acc : list (string * list Z) * gmap string Z) (e : string * list Z)
    : M Engine (list (string * list Z) * gmap string Z) :=
  let '(spec, invalid) := acc in
  live ← on_scheduler (live_request e.1);
  match live, od_get e.1 spec with
  | Some r, Some ((_ :: _) as placeholders) =>
      request ← on_scheduler (obj r);
      ids ← validate_drafts AssertionError request (take (length placeholders) e.2);
      let num_invalid_tokens := zlen placeholders - zlen ids in
      mret (od_set e.1 (ids ++ replicate (Z.to_nat num_invalid_tokens) (-1)) spec,
            if num_invalid_tokens =? 0 then invalid else <[e.1 := num_invalid_tokens]> invalid)
  | _, _ => mret acc
  end.

Definition update_draft_token_ids_in_output (drafts : list (string * list Z)) (o : SchedulerOutput)
    : M Engine SchedulerOutput :=
  acc ← for_fold update_drafts_of drafts (out_spec_decode_tokens o, ∅);
  mret (set_drafts acc.1 acc.2 o).

(** The rows of the bitmask, and the mask. *)
Definition get_grammar_bitmask (o : SchedulerOutput) : M Engine (option (list string * option (list bytes))) :=
  if negb (has_structured_output_requests o) then mret None
  else
    g ← get;
    let ids := omap (fun e => r ← requests g.1 !! e.1;
      if use_structured_output (objs g.1 r) && negb (is_prefill_chunk (objs g.1 r)) then Some e.1 else None)
      (out_num_scheduled_tokens o) in
    match ids with
    | [] => mret None
    | _ =>
        bitmask ← on_grammars (gm_grammar_bitmask (fun id => objs g.1 <$> requests g.1 !! id) ids (out_spec_decode_tokens o));
        mret (Some (ids, bitmask))
    end.
End update.
End OutputUpdate.
