(* ===== verification/UpdateSafety.v ===== *)
(** * UpdateSafety

    The output of the model runner is taken in safely: for an output that
    answers the step, [update_from_output] returns, and leads back to a state
    between steps. For the synchronous scheduler with one sampled token a step
    and without sessions. *)

From S2P Require Import Prelude Request OrderedDict RequestQueue StopCheck EncoderCache KVCacheManager SchedulerState EncoderScheduling Scheduler SchedulerSafety Lifecycle LifecycleSafety OutputUpdate.

Module UpdateSafety.
Import EncoderCache Request OrderedDict RequestQueue StopCheck KVCacheManager SchedulerState EncoderScheduling Scheduler SchedulerSafety Lifecycle LifecycleSafety OutputUpdate.
#[local] Open Scope Z_scope.

(** ** The interface to the grammars *)

(** Grammars in a state the manager reaches answer, and a request that advances
    has one. *)
Class GrammarContract (GM : Type) `{!GrammarManager GM} := {
  grammars_rep : GM -> Prop;
  grammars_should_advance g q : grammars_rep g -> wp (gm_should_advance q) (fun b g' =>
    grammars_rep g' /\ (b = true -> use_structured_output q && gm_has_grammar q g' = true)) g;
  grammars_trim g q l : grammars_rep g -> wp (gm_trim_reasoning q l) (fun _ g' => grammars_rep g') g;
  grammars_accept g q l : grammars_rep g -> wp (gm_accept_tokens q l) (fun _ g' => grammars_rep g') g;
  grammars_validate g q l : grammars_rep g -> wp (gm_validate_tokens q l) (fun l' g' => l' `prefix_of` l /\ grammars_rep g') g
}.

(** The number of drafts scheduled for a request. *)
Notation drafts_of_output o id := (zlen (default [] (od_get id (out_spec_decode_tokens o)))).

Section update.
Context {KV : Type} {SM : SlotManager KV} (cfg : SchedulerConfig) {SC : SlotContract cfg KV} (C : config_ok cfg).
Context {GM : Type} {GI : GrammarManager GM} {GC : GrammarContract GM}.
Context (order : gset Z -> list Z) (Horder : forall s i, i ∈ order s <-> i ∈ s).
Context (sz : string -> Z) (Hsz : forall h, 0 <= sz h).
Context (h : option hasher) (Hh : hasher_calm h) (dspark : bool).
Context (Hsync : async_scheduling cfg = false) (Hone : num_sampled_tokens_per_step cfg = 1).
#[local] Notation EC := EncoderCache.EncoderCacheManager.
#[local] Instance ecm_update : EncoderManager EC := ecm order.
#[local] Notation State := (SchedulerState.Scheduler KV EC).
#[local] Notation Engine := (State * GM)%type.
#[local] Notation held_ok := (held_ok cfg sz).

(** ** Encoder inputs *)

Lemma free_encoder_inputs_ok s R W K H S r :
  held_ok s R W K H S -> r ∈ H ->
  wp (free_encoder_inputs cfg r) (fun _ s' => exists e', s' = set_encoder_cache_manager e' s /\ held_ok s' R W K H S) s.
Proof.
  intros I Hr. unfold free_encoder_inputs. apply wp_bind, wp_obj', wp_bind, wp_get.
  pose proof (hk_held I r Hr) as Hf. set (q := objs s r) in *.
  assert (Hval : forall i, i ∈ order (get_cached_input_ids q (encoder_cache_manager s)) -> valid_input q i).
  { intros i Hi%Horder. destruct (hk_inputs I _ _ Hi) as (x & Hx & E & Hv).
    assert (x = r) as ->; [|done]. eapply (held_inj I); [done| |done]. set_solver. }
  eapply wp_mono.
  { apply (wp_for_each (fun _ _ s' => exists e', s' = set_encoder_cache_manager e' s /\ held_ok s' R W K H S)).
    - exists (encoder_cache_manager s). assert (E : set_encoder_cache_manager (encoder_cache_manager s) s = s) by (by destruct s).
      by rewrite E.
    - intros l1 i l2 s' E (e1 & -> & I1). assert (Hi : valid_input q i).
      { apply Hval. cbn in E. rewrite E. set_solver. }
      destruct (lookup_lt_is_Some_2 (mm_features q) (Z.to_nat i)) as [f Hfi]; [destruct Hi; lia|].
      apply wp_bind, (wp_of_option _ _ f); [unfold py_index; by rewrite (proj2 (Z.leb_le _ _)) by apply Hi|].
      assert (Hfree : wp (on_ec (em_free_encoder_input q i)) (fun _ s' => exists e', s' = set_encoder_cache_manager e' s /\
        held_ok s' R W K H S) (set_encoder_cache_manager e1 s)).
      { apply wp_zoom. eapply wp_mono; [apply (free_input_ok sz Hsz e1 q i (hk_enc I1) Hi Hf)|].
        intros _ e2 (Ie & _ & _ & _ & Hd & _). exists e2. split; [done|].
        apply (held_enc cfg sz _ _ _ _ _ _ e2 I1 Ie). intros id j. simpl. rewrite Hd, (discard_id_lookup sz) by done.
        case_decide as Eid; [subst; set_solver|done]. }
      destruct (_ && _); [exact Hfree|]. destruct (_ <=? _); [exact Hfree|]. apply wp_ret. by exists e1. }
  done.
Qed.

(** ** Requests whose tokens are counted *)

(** Bookkeeping and limits of a request that generates or pools. *)
Record sampling_ok (q : Request) : Prop := {
  sa_tokens : num_tokens q = num_prompt_tokens q + num_output_tokens q;
  sa_params : match pooling_params q, sampling_params q with
    | Some _, _ => True
    | None, Some sp => num_prompt_tokens q + min_tokens sp <= max_model_len cfg
    | None, None => False
    end;
  sa_resumable : resumable q = false
}.

(** Between steps nothing is computed beyond the tokens. *)
Definition settled (q : Request) : Prop := num_computed_tokens q <= num_tokens q /\ sampling_ok q.

(** The runner answers a request with [d] drafts: no token for a part of a
    prompt, one more than the drafts it accepts otherwise. *)
Record answers (q : Request) (d : Z) (toks : list Z) : Prop := {
  an_partial : num_computed_tokens q < num_tokens q -> toks = [];
  an_drafts : 0 < d -> toks <> [];
  an_many : zlen toks <= d + 1;
  an_pooling : is_Some (pooling_params q) -> toks = []
}.

(** The tokens [kept] of [toks] end at the first after which the request has to
    stop; one that goes on does not have to. *)
Definition kept_to_stop (q : Request) (toks kept : list Z) (stopped : bool) : Prop :=
  forall sp, sampling_params q = Some sp -> toks <> [] ->
    (forall k st reason, k <> [] -> k `prefix_of` kept -> k <> kept -> ~ stops_after sp (max_model_len cfg) q k st reason) /\
    (stopped = false -> forall st reason, ~ stops_after sp (max_model_len cfg) q kept st reason) /\
    (kept <> toks -> exists st reason, stops_after sp (max_model_len cfg) q kept st reason).

(** The request after the tokens [kept] were appended and the rejected drafts
    taken back. *)
Record grown (q q' : Request) (d : Z) (toks kept : list Z) (stopped : bool) : Prop := {
  gr_all : all_token_ids q' = all_token_ids q ++ kept;
  gr_output : output_token_ids q' = output_token_ids q ++ kept;
  gr_params : (sampling_params q', pooling_params q', max_tokens q') = (sampling_params q, pooling_params q, max_tokens q);
  gr_rank : rank q' = rank q;
  gr_features : mm_features q' = mm_features q;
  gr_client : client_index q' = client_index q;
  gr_prompt : num_prompt_tokens q' = num_prompt_tokens q;
  gr_resumable : resumable q' = false;
  gr_computed : num_computed_tokens q' = (if decide (0 < d) then num_computed_tokens q - (d - (zlen toks - 1)) else num_computed_tokens q);
  gr_placeholders : num_output_placeholders q' = num_output_placeholders q;
  gr_status : is_finished (status q') = stopped /\ (stopped = false -> status q' = status q);
  gr_kept : kept `prefix_of` toks /\ (stopped = false -> kept = toks);
  gr_stop : kept_to_stop q toks kept stopped
}.

(** Unless it stopped, a request that answers its drafts goes on within the
    limits. *)
Lemma grown_settled q q' d toks kept S :
  request_ok cfg sz q -> run_ok cfg q S -> sampling_ok q -> draft_ok q 0 d -> 0 <= d -> answers q d toks -> grown q q' d toks kept false ->
  (toks <> [] -> num_tokens q' < max_model_len cfg) ->
  settled q' /\ request_ok cfg sz q' /\ run_ok cfg q' S.
Proof.
  intros [Q1 Q2 Q3 Q4] (Hst & [Hp0 Hps] & Hc & m & -> & Hm) [A1 A2 A3] [D1 D2] Hd [N1 N2 N3 N4]
    [G1 G2 G3 G4 G5 _ E2 G6 G7 G8 [G9 G9'] [_ G10] _] Hlen.
  specialize (G10 eq_refl) as ->. specialize (G9' eq_refl). specialize (Hps Hsync). injection G3 as F1 F2 F3.
  assert (Et : num_tokens q' = num_tokens q + zlen toks) by (unfold num_tokens; rewrite G1, length_app; lia).
  assert (Eo : num_output_tokens q' = num_output_tokens q + zlen toks) by (unfold num_output_tokens; rewrite G2, length_app; lia).
  assert (Hc' : 0 <= num_computed_tokens q' <= num_computed_tokens q /\ num_computed_tokens q' <= num_tokens q').
  { rewrite G7, Et. destruct (decide (0 < d)) as [Hd'|Hd'].
    - specialize (D2 Hd'). specialize (N2 Hd'). assert (0 < zlen toks) by (destruct toks; [done|simpl; lia]). lia.
    - lia. }
  split; [|split].
  - split; [lia|]. constructor; [lia| |done]. by rewrite F2, F1, E2.
  - constructor.
    + lia.
    + rewrite Hone in *. destruct toks as [|t toks]; [rewrite Et; simpl; lia|]. specialize (Hlen ltac:(done)). lia.
    + unfold features_ok. by rewrite G5.
    + by rewrite G5.
  - split; [by rewrite G9'|]. split; [unfold placeholders_ok; by rewrite G8|]. split; [lia|]. exists m. split; [done|lia].
Qed.

(** ** One request *)

(** Only request [r] has changed, and it is in no list. *)
Record working (s : State) (R W K : list Z) (S : gmap string Z) (r : Z) (q : Request) (s' : State) : Prop := {
  wk_held : held_ok s' (without r R) W K [r] S;
  wk_running : running s' = running s;
  wk_others : forall x, x <> r -> objs s' x = objs s x;
  wk_obj : objs s' r = q
}.

Lemma working_set s R W K S r q s' q' :
  working s R W K S r q s' -> rank q' = rank q -> mm_features q' = mm_features q ->
  working s R W K S r q' (set_objs (<[r := q']> (objs s')) s').
Proof.
  intros [H1 H2 H3 H4] Hr Hm. constructor; try done.
  - apply held_obj; [done|by left|by rewrite H4|by rewrite H4].
  - intros x Hx. cbn [objs set_objs]. rewrite fn_lookup_insert_ne by done. auto.
  - cbn [objs set_objs]. by rewrite fn_lookup_insert.
Qed.

Lemma wp_update_obj r f (Q : unit -> State -> Prop) s R W K S q s' :
  working s R W K S r q s' -> rank (f q) = rank q -> mm_features (f q) = mm_features q ->
  (forall s'', working s R W K S r (f q) s'' -> Q tt s'') -> wp (update_obj r f) Q s'.
Proof.
  intros Hw Hr Hm HQ. apply wp_modify. cbn beta. rewrite (wk_obj _ _ _ _ _ _ _ _ Hw). apply HQ. by apply (working_set _ _ _ _ _ _ q).
Qed.

(** What is left of the computed tokens when [n] tokens answer [d] drafts. *)
Definition taken_back (q : Request) (d n : Z) : Request :=
  if decide (0 < d) then set_num_computed_tokens (num_computed_tokens q - (d - (n - 1))) q else q.

Lemma take_back_ok s R W K S r q s' toks spec :
  working s R W K S r q s' -> 0 < num_tokens q -> num_output_placeholders q = 0 -> draft_ok q 0 (zlen spec) ->
  answers q (zlen spec) toks ->
  wp (take_back_rejected cfg r toks spec) (fun _ s'' => working s R W K S r (taken_back q (zlen spec) (zlen toks)) s'') s'.
Proof.
  intros Hw Ht Hp [_ Hd] [_ Ha _ _]. unfold take_back_rejected, taken_back. rewrite Hone.
  destruct (Z.eqb_spec (zlen spec) 0) as [Es|Es]; cbn [negb andb].
  - apply wp_ret. rewrite decide_False by lia. done.
  - assert (H0 : 0 < zlen spec) by lia. specialize (Ha H0). specialize (Hd H0).
    rewrite decide_True by done. destruct (Z.eqb_spec (zlen toks) 0) as [E|E]; [by destruct toks|]. cbn [negb orb]. cbv zeta.
    assert (Em : Z.max (zlen toks - 1) 0 = zlen toks - 1) by lia. rewrite Em.
    eapply wp_update_obj; [exact Hw| | |].
    1,2: rewrite (proj2 (Z.ltb_lt 0 (num_computed_tokens q))) by lia; cbn [num_output_placeholders set_num_computed_tokens]; by rewrite Hp.
    intros s''. rewrite (proj2 (Z.ltb_lt 0 (num_computed_tokens q))) by lia.
    cbn [num_output_placeholders set_num_computed_tokens]. by rewrite Hp.
Qed.

(** The tokens are appended until one stops the request; a pooled result ends it. *)
Record taken (q q' : Request) (toks kept : list Z) (stopped : bool) : Prop := {
  tk_appended : appended kept q q';
  tk_kept : kept `prefix_of` toks /\ (stopped = false -> kept = toks);
  tk_status : is_finished (status q') = stopped /\ (stopped = false -> status q' = status q);
  tk_length : stopped = false -> toks <> [] -> num_tokens q' < max_model_len cfg;
  tk_stop : kept_to_stop q toks kept stopped
}.

Lemma appended_rank toks q q' : appended toks q q' -> rank q' = rank q /\ mm_features q' = mm_features q.
Proof. intros [_ _ _ E]. unfold unsampled in E. unfold rank. split; congruence. Qed.

Lemma kept_at_stop q sp toks kept stopped q' : sampling_params q = Some sp -> pooling_params q = None ->
  update_request_with_output h (max_model_len cfg) toks q = (Ok (kept, stopped), q') -> (stopped = false -> kept = toks) ->
  kept_to_stop q toks kept stopped.
Proof.
  intros Esp Epp E Hk sp' Esp' Hne0. assert (sp' = sp) as -> by congruence.
  destruct (stops_at_first h (max_model_len cfg) sp toks q Hh Esp Epp) as (k2 & b2 & q2 & E2 & Hf & He). rewrite E in E2. injection E2 as <- <- <-.
  split; [intros k st reason Hne Hpre Hd; by apply Hf|]. destruct stopped.
  - split; [done|]. intros _. destruct He as (reason & H & _). by exists (status q'), reason.
  - split; [|intros Hne; by destruct (Hne (Hk eq_refl))]. intros _. destruct kept as [|x kept]; [|intros st reason; by apply (Hf (x :: kept) st reason)].
    intros st reason. by specialize (Hk eq_refl).
Qed.

Lemma take_result_ok s R W K S r q s' toks pooled :
  working s R W K S r q s' -> sampling_ok q -> is_finished (status q) = false ->
  (is_Some (pooling_params q) -> toks = []) ->
  wp (take_result cfg h r toks pooled) (fun kept s'' => exists q', working s R W K S r q' s'' /\ taken q q' toks kept.1 kept.2) s'.
Proof.
  intros Hw [Ht Hp Hr] Hf Hpool. unfold take_result. apply wp_bind, wp_obj'. rewrite (wk_obj _ _ _ _ _ _ _ _ Hw).
  destruct toks as [|t toks].
  - destruct (_ && _).
    + apply wp_bind. eapply wp_update_obj; [exact Hw|done|done|]. intros s'' Hw'. apply wp_ret. eexists. split; [exact Hw'|].
      constructor; try done. constructor; rewrite ?app_nil_r; done.
    + apply wp_ret. exists q. split; [done|]. constructor; try done. constructor; rewrite ?app_nil_r; done.
  - destruct (pooling_params q) as [|] eqn:Epp; [by discriminate (Hpool ltac:(done))|].
    destruct (sampling_params q) as [sp|] eqn:Esp; [|done]. unfold update_with_output. rewrite Hsync.
    apply wp_zoom. rewrite (wk_obj _ _ _ _ _ _ _ _ Hw).
    destruct (appends_until_stop h (max_model_len cfg) sp (t :: toks) q Hh Esp Epp Hf)
      as (kept & stopped & q' & E & Hk1 & Hk2 & Ha & Hs1 & Hs2 & Hl & _).
    unfold wp. rewrite E. pose proof (kept_at_stop q sp (t :: toks) kept stopped q' Esp Epp E) as Hks.
    destruct (appended_rank _ _ _ Ha) as [Hra Hma]. exists q'. split; [by eapply working_set|].
    constructor; cbn [fst snd]; try done; [|by apply Hks]. intros Hst _. specialize (Hl Hst ltac:(done)). unfold output_limit in Hl.
    assert (num_tokens q' = num_tokens q + zlen kept) by (unfold num_tokens; rewrite (ap_all _ _ _ Ha), length_app; lia).
    assert (num_output_tokens q' = num_output_tokens q + zlen kept)
      by (unfold num_output_tokens; rewrite (ap_output _ _ _ Ha), length_app; lia).
    lia.
Qed.

(** A request whose grammar rejects its tokens ends with an error. *)
Definition rejected (q : Request) : Request := set_resumable false (set_status FINISHED_ERROR q).

Lemma advance_grammar_ok s R W K S r q (p : Engine) toks :
  working s R W K S r q p.1 -> grammars_rep p.2 ->
  wp (advance_grammar r toks) (fun b p' => working s R W K S r (if b then rejected q else q) p'.1 /\ grammars_rep p'.2) p.
Proof.
  intros Hw Hg. unfold advance_grammar. destruct toks as [|t toks]; [by apply wp_ret|].
  apply wp_bind, wp_zoom, wp_obj'. destruct p as [s1 g1]. cbn [fst snd] in *. rewrite (wk_obj _ _ _ _ _ _ _ _ Hw).
  apply wp_bind, wp_zoom. eapply wp_mono; [by apply grammars_should_advance|]. intros b g2 [Hg2 Hb].
  destruct b; [|by apply wp_ret]. apply wp_bind, wp_get, wp_bind, wp_assert; [by apply Hb|].
  apply wp_bind, wp_zoom. eapply wp_mono; [by apply grammars_trim|]. intros l g3 Hg3. apply wp_bind. cbn [fst snd].
  assert (Hend : forall ok g4, grammars_rep g4 -> wp (if ok : bool then mret false else
      on_scheduler (update_obj r (fun q => set_resumable false (set_status FINISHED_ERROR q))) ;; mret true)
    (fun b p' => working s R W K S r (if b then rejected q else q) p'.1 /\ grammars_rep p'.2) (s1, g4)).
  { intros ok g4 Hg4. destruct ok; [by apply wp_ret|]. apply wp_bind, wp_zoom. eapply wp_update_obj; [exact Hw|done|done|].
    intros s'' Hw'. apply wp_ret. done. }
  destruct l as [|x l]; [apply wp_ret; by apply (Hend true)|]. apply wp_zoom. eapply wp_mono; [by apply grammars_accept|].
  intros ok g4 Hg4. by apply Hend.
Qed.

(** Taking back, appending and the grammar together. *)
Lemma taken_grown q q' d toks kept stopped rej :
  sampling_ok q -> taken (taken_back q d (zlen toks)) q' toks kept stopped ->
  let q' := if rej : bool then rejected q' else q' in
  grown q q' d toks kept (stopped || rej) /\ prefill_stats q' = prefill_stats q.
Proof.
  intros Hs [[A1 A2 A3 A4] [B1 B2] [C1 C2] _ Hstop]. pose proof (sa_resumable _ Hs) as Hr.
  assert (E : forall A (f : Request -> A), (forall n, f (set_num_computed_tokens n q) = f q) -> f (taken_back q d (zlen toks)) = f q).
  { intros A f Hf. unfold taken_back. by case_decide. }
  assert (Ec : num_computed_tokens (taken_back q d (zlen toks)) =
    if decide (0 < d) then num_computed_tokens q - (d - (zlen toks - 1)) else num_computed_tokens q)
    by (unfold taken_back; by case_decide).
  unfold unsampled in A4. injection A4 as D1 D2 D3 D4 D5 D6 D7 D8 D9 D10 D11 D12 D13. injection A3 as F1 F2 F3.
  assert (G : grown q q' d toks kept stopped).
  { constructor; try done.
    - rewrite A1. f_equal. by apply E.
    - rewrite A2. f_equal. by apply E.
    - rewrite F1, F2, F3. by rewrite !E.
    - unfold rank. rewrite D1, D3, D4. by rewrite !E.
    - rewrite D5. by apply E.
    - rewrite D2. by apply E.
    - rewrite D7. by apply E.
    - rewrite D6. by rewrite E.
    - by rewrite D8.
    - rewrite D9. by apply E.
    - split; [done|]. intros Hst. rewrite C2 by done. by apply E.
    - unfold kept_to_stop, taken_back in *. by case_decide. }
  assert (Hp : prefill_stats q' = prefill_stats q) by (rewrite D12; by apply E).
  cbv zeta. destruct rej; [|by rewrite orb_false_r]. split; [|done].
  destruct G as [G1 G2 G3 G4 G5 G6 G7 G8 G9 G10 [G11 _] [G12 _] G13]. constructor; try done.
  - split; [by destruct stopped|]. by destruct stopped.
  - split; [done|]. by destruct stopped.
  - intros sp Hsp Hne. destruct (G13 sp Hsp Hne) as (K1 & _ & K3). split; [done|]. split; [|done]. by destruct stopped.
Qed.

Lemma finished_reason st : is_finished st = true -> is_Some (get_finished_reason st).
Proof. destruct st; try done; intros _; eexists; done. Qed.

Lemma stop_request_ok s R W K S r u :
  held_ok s R W K [r] S -> is_finished (status (objs s r)) = true -> resumable (objs s r) = false ->
  wp (stop_request h r RUNNING u) (fun f s' => held_ok s' R W K [] (delete (request_id (objs s r)) S) /\ objs s' = objs s /\
    running s' = running s /\ is_Some f.1 /\
    f.2 = mkUpdates (up_outputs u) (set_add r (stopped_running_reqs u)) (stopped_preempted_reqs u)) s.
Proof.
  intros I Hf Hr. unfold stop_request, handle_stopped_request. apply wp_bind, wp_obj', wp_bind, wp_bind, wp_obj'.
  rewrite Hr. apply wp_ret, wp_bind. cbv iota.
  eapply wp_mono; [by apply (free_request_ok cfg C order Horder sz Hsz s R W K [] S r)|]. intros _ s' (I' & Eo & Er & _). apply wp_ret.
  split; [done|]. split; [done|]. split; [done|]. split; [by apply finished_reason|]. by rewrite decide_True.
Qed.

(** What reporting changes: statistics of the prefill are sent only once. *)
Definition reported (q : Request) (sent : bool) (q' : Request) : Prop :=
  exists n p, q' = set_prefill_stats p (set_num_nans_in_logits n q) /\ (is_Some p -> p = prefill_stats q /\ sent = false).

(** The outputs of a client, with one more. *)
Definition add_output (c : Z) (o : EngineCoreOutput) (m : gmap Z (list EngineCoreOutput)) : gmap Z (list EngineCoreOutput) :=
  <[c := default [] (m !! c) ++ [o]]> m.

(** The output of a request: its id, its new tokens, and whether it ends. *)
Definition output_for (id : string) (kept : list Z) (stopped : bool) (o : EngineCoreOutput) : Prop :=
  eo_request_id o = id /\ eo_new_token_ids o = kept /\ (is_Some (eo_finish_reason o) <-> stopped = true) /\
  (kept <> [] \/ is_Some (eo_pooling_output o) \/ stopped = true).

Definition sends (kept : list Z) (pooled : option bytes) (stopped : bool) : bool :=
  negb (zlen kept =? 0) || bool_decide (is_Some pooled) || stopped.

Lemma sends_true kept pooled stopped : sends kept pooled stopped = true -> kept <> [] \/ is_Some pooled \/ stopped = true.
Proof.
  unfold sends. intros [[H|H%bool_decide_eq_true]%orb_true_iff|H]%orb_true_iff; [left|by right; left|by right; right].
  by destruct kept.
Qed.

(** Only the object [r] has changed. *)
Definition only_obj (r : Z) (s s' : State) : Prop :=
  s' = set_objs (objs s') s /\ forall x, x <> r -> objs s' x = objs s x.

Lemma only_insert r q (s : State) : only_obj r s (set_objs (<[r := q]> (objs s)) s).
Proof. split; [done|]. intros x Hx. by apply fn_lookup_insert_ne. Qed.

Lemma only_trans r (s1 s2 s3 : State) : only_obj r s1 s2 -> only_obj r s2 s3 -> only_obj r s1 s3.
Proof.
  intros [E1 H1] [E2 H2]. split; [|intros x Hx; rewrite H2 by done; auto]. rewrite E2. cbn [objs set_objs].
  by rewrite E1.
Qed.

Lemma set_nans_ok (nans : option (gmap string Z)) r id (s : State) :
  wp (match nans with
      | Some m => match m !! id with Some n => update_obj r (set_num_nans_in_logits n) | None => mret tt end
      | None => mret tt
      end) (fun _ s' => only_obj r s s' /\ exists n, objs s' r = set_num_nans_in_logits n (objs s r)) s.
Proof.
  assert (Hid : only_obj r s s /\ exists n, objs s r = set_num_nans_in_logits n (objs s r)).
  { split; [by split; [destruct s|]|]. exists (num_nans_in_logits (objs s r)). by destruct (objs s r). }
  destruct nans as [m|]; [|by apply wp_ret]. destruct (m !! id) as [n|]; [|by apply wp_ret].
  apply wp_modify. split; [apply only_insert|]. exists n. cbn [objs set_objs]. by rewrite fn_lookup_insert.
Qed.

Lemma take_stats_ok r (s : State) :
  wp (on_obj r take_prefill_stats) (fun _ s' => only_obj r s s' /\ objs s' r = set_prefill_stats None (objs s r)) s.
Proof.
  apply wp_zoom. unfold take_prefill_stats. apply wp_bind, wp_get. destruct (prefill_stats (objs s r)) as [st|] eqn:E.
  - apply wp_bind, wp_modify, wp_ret. split; [apply only_insert|]. cbn [objs set_objs]. by rewrite fn_lookup_insert.
  - apply wp_ret. split; [apply only_insert|]. cbn [objs set_objs]. rewrite fn_lookup_insert.
    destruct (objs s r). simpl in E. by subst.
Qed.

Lemma report_ok mo r id kept pooled stopped reason u (s : State) :
  (is_Some reason <-> stopped = true) ->
  (sends kept pooled stopped = false -> mjoin (prompt_logprobs_dict mo !! id) = None) ->
  wp (report mo r id kept pooled stopped reason u) (fun u' s' => only_obj r s s' /\
    reported (objs s r) (sends kept pooled stopped) (objs s' r) /\
    stopped_running_reqs u' = stopped_running_reqs u /\ stopped_preempted_reqs u' = stopped_preempted_reqs u /\
    if sends kept pooled stopped then exists o, output_for id kept stopped o /\ up_outputs u' = add_output (client_index (objs s r)) o (up_outputs u)
    else up_outputs u' = up_outputs u) s.
Proof.
  intros Hreason Hlp. unfold report. apply wp_bind. eapply wp_mono; [apply set_nans_ok|].
  intros _ s1 [H1 [n E1]]. cbv zeta. fold (sends kept pooled stopped). destruct (sends kept pooled stopped) eqn:Es.
  - apply wp_bind. eapply wp_mono; [apply take_stats_ok|]. intros stats s2 [H2 E2]. apply wp_bind, wp_obj', wp_ret.
    rewrite E1 in E2. rewrite E2. split; [by eapply only_trans|]. split; [exists n, None; split; [done|by intros [? ?]]|].
    split; [done|]. split; [done|]. eexists. split; [|done]. split; [done|]. split; [done|]. split; [done|]. by apply sends_true.
  - apply wp_bind, wp_assert; [by apply bool_decide_eq_true_2, Hlp|]. apply wp_ret. split; [done|]. split; [|done].
    exists n, (prefill_stats (objs s r)). split; [rewrite E1; by destruct (objs s r)|done].
Qed.

(** What the runner returned for the request of an id. *)
Record answered (mo : ModelRunnerOutput) (id : string) (q : Request) (d : Z) (toks : list Z) (pooled : option bytes) : Prop := {
  aw_index : exists i, req_id_to_index mo !! id = Some i /\
    (match sampled_token_ids mo with [] => toks = [] | l => py_index l i = Some toks end) /\
    (match pooler_output mo with Some ((_ :: _) as l) => py_index l i = Some pooled | _ => pooled = None end);
  aw_tokens : answers q d toks;
  aw_silent : toks = [] -> pooled = None -> mjoin (prompt_logprobs_dict mo !! id) = None
}.

(** What taking in the output of one request does. *)
Record one_done (s : State) (R W K : list Z) (S : gmap string Z) (r d : Z) (toks : list Z) (pooled : option bytes)
    (u : Updates) (kept : list Z) (stopped : bool) (u' : Updates) (s' : State) : Prop := {
  od_held : if stopped then held_ok s' (without r R) W K [] (delete (request_id (objs s r)) S) else held_ok s' R W K [] S;
  od_settled : stopped = false -> settled (objs s' r);
  od_grown : grown (objs s r) (objs s' r) d toks kept stopped;
  od_others : forall x, x <> r -> objs s' x = objs s x;
  od_running : running s' = running s;
  od_stopped : stopped_running_reqs u' = if stopped then set_add r (stopped_running_reqs u) else stopped_running_reqs u;
  od_preempted : stopped_preempted_reqs u' = stopped_preempted_reqs u;
  od_outputs : if sends kept pooled stopped
    then exists o, output_for (request_id (objs s r)) kept stopped o /\
      up_outputs u' = add_output (client_index (objs s r)) o (up_outputs u)
    else up_outputs u' = up_outputs u
}.

Lemma grown_reported q q1 q2 d toks kept stopped sent :
  grown q q1 d toks kept stopped -> reported q1 sent q2 -> grown q q2 d toks kept stopped.
Proof. intros [] (n & p & -> & _). by constructor. Qed.

Lemma sampled_ok mo i toks (s : State) Q :
  (match sampled_token_ids mo with [] => toks = [] | l => py_index l i = Some toks end) ->
  Q toks s -> wp (sampled_for mo i) Q s.
Proof.
  unfold sampled_for. destruct (sampled_token_ids mo) as [|x l]; [by intros -> HQ; apply wp_ret|].
  intros E HQ. by apply (wp_of_option _ _ toks).
Qed.

Lemma pooled_ok mo i pooled (s : State) Q :
  (match pooler_output mo with Some ((_ :: _) as l) => py_index l i = Some pooled | _ => pooled = None end) ->
  Q pooled s -> wp (pooled_for mo i) Q s.
Proof.
  unfold pooled_for. destruct (pooler_output mo) as [[|x l]|]; [by intros -> HQ; apply wp_ret| |by intros -> HQ; apply wp_ret].
  intros E HQ. by apply (wp_of_option _ _ pooled).
Qed.

(** Encoder inputs are freed under a request that is worked on. *)
Lemma working_enc s R W K S r q s' :
  working s R W K S r q s' ->
  wp (if has_encoder_inputs q then free_encoder_inputs cfg r else mret tt) (fun _ s'' => working s R W K S r q s'') s'.
Proof.
  intros Hw. destruct (has_encoder_inputs q); [|by apply wp_ret]. destruct Hw as [H1 H2 H3 H4].
  eapply wp_mono; [apply (free_encoder_inputs_ok _ _ _ _ _ _ r H1); by left|].
  intros _ s'' (e' & -> & H'). by constructor.
Qed.

(** Stopped requests are released, the others stay. *)
Lemma conclude_ok s R W K S r q s' u (stopped : bool) d toks kept :
  working s R W K S r q s' -> held_ok s R W K [] S -> grown (objs s r) q d toks kept stopped ->
  wp (if stopped then stop_request h r RUNNING u else mret (None, u)) (fun f s'' =>
    (if stopped then held_ok s'' (without r R) W K [] (delete (request_id (objs s r)) S) else held_ok s'' (without r R) W K [r] S) /\
    objs s'' = objs s' /\ running s'' = running s /\ (is_Some f.1 <-> stopped = true) /\
    f.2 = mkUpdates (up_outputs u) (if stopped then set_add r (stopped_running_reqs u) else stopped_running_reqs u)
      (stopped_preempted_reqs u)) s'.
Proof.
  intros [H1 H2 H3 H4] I Hg. destruct stopped.
  - eapply wp_mono; [apply (stop_request_ok s' (without r R) W K S r u H1)|].
    + rewrite H4. apply (gr_status _ _ _ _ _ _ Hg).
    + rewrite H4. by apply (gr_resumable _ _ _ _ _ _ Hg).
    + intros f s'' (I' & Eo & Er & Hf & Eu). rewrite H4 in I'. pose proof (gr_rank _ _ _ _ _ _ Hg) as E. unfold rank in E.
      injection E as E _ _. rewrite E in I'. split; [done|]. split; [done|]. split; [congruence|]. split; [by split|done].
  - apply wp_ret. split; [done|]. split; [done|]. split; [done|]. split; [by split; [intros [? ?]|]|]. by destruct u.
Qed.

Lemma reported_rank q sent q' : reported q sent q' -> rank q' = rank q /\ mm_features q' = mm_features q.
Proof. by intros (n & p & -> & _). Qed.

(** The lists after the report: the request is gone, or back among the running
    ones and within the limits. *)
Lemma finish_update s R W K S r d toks kept (stopped sent : bool) s1 s2 q :
  held_ok s R W K [] S -> r ∈ R -> sampling_ok (objs s r) -> draft_ok (objs s r) 0 d -> 0 <= d -> answers (objs s r) d toks ->
  (if stopped then held_ok s1 (without r R) W K [] (delete (request_id (objs s r)) S) else held_ok s1 (without r R) W K [r] S) ->
  objs s1 r = q -> only_obj r s1 s2 -> reported q sent (objs s2 r) -> grown (objs s r) q d toks kept stopped ->
  (stopped = false -> toks <> [] -> num_tokens q < max_model_len cfg) ->
  prefill_stats q = prefill_stats (objs s r) -> (stopped = false -> sent = false -> toks = []) ->
  (if stopped then held_ok s2 (without r R) W K [] (delete (request_id (objs s r)) S) else held_ok s2 R W K [] S) /\
  (stopped = false -> settled (objs s2 r)).
Proof.
  intros I Hr Hs Hd H0 Ha H1 E1 [E2 Ho] Hrep Hg Hlen Hpf Hsent.
  pose proof (hk_nodup I) as Hn. rewrite app_nil_r in Hn. apply list.NoDup_app in Hn as (HnR & Hdis & _).
  pose proof (grown_reported _ _ _ _ _ _ _ _ Hg Hrep) as Hg'.
  destruct stopped.
  - split; [|done]. rewrite E2. apply held_objs; [done| |set_solver]. intros x Hx. apply Ho. intros ->.
    rewrite elem_of_app, list_elem_of_filter in Hx. destruct Hx as [[? _]|Hx]; [done|]. by apply (Hdis r).
  - assert (Hsame : num_tokens (objs s2 r) = num_tokens q) by (destruct Hrep as (n & p & -> & _); done).
    destruct (grown_settled (objs s r) (objs s2 r) d toks kept (S !! request_id (objs s r))) as (Hset & Hok & Hrun); try done.
    { apply (hk_ok I). set_solver. }
    { by apply (hk_run I). }
    { intros Hne. rewrite Hsame. by apply Hlen. }
    split; [|done]. assert (Hid : request_id (objs s2 r) = request_id (objs s r)).
    { pose proof (gr_rank _ _ _ _ _ _ Hg') as E. unfold rank in E. congruence. }
    apply (held_return cfg sz s2 R W K S r); try done.
    + rewrite E2. apply held_objs; [done| |].
      * intros x Hx. apply Ho. intros ->. rewrite elem_of_app, list_elem_of_filter in Hx. destruct Hx as [[? _]|Hx]; [done|].
        by apply (Hdis r).
      * intros x ->%list_elem_of_singleton. rewrite E1. by apply (reported_rank _ sent).
    + by rewrite Hid.
    + destruct Hrep as (n & p & E & Hp). rewrite E. cbn [prefill_stats set_prefill_stats]. intros Hsome.
      destruct (Hp Hsome) as [-> Hns]. specialize (Hsent eq_refl Hns). subst toks.
      pose proof (hk_prefill I r ltac:(set_solver)) as Hpre. rewrite <- Hpf in Hpre. specialize (Hpre Hsome).
      destruct Hg as [G1 _ _ _ _ _ G6 _ _ _ _ [G11 _] _]. apply prefix_nil_inv in G11 as ->.
      change (num_tokens q <= num_prompt_tokens q). rewrite G6. unfold num_tokens in *. rewrite G1, app_nil_r. done.
Qed.

Lemma take_one_ok o mo s R W K S u id n r toks pooled g :
  held_ok s R W K [] S -> r ∈ R -> request_id (objs s r) = id -> 0 < n -> sampling_ok (objs s r) ->
  draft_ok (objs s r) 0 (zlen (default [] (od_get id (out_spec_decode_tokens o)))) ->
  answered mo id (objs s r) (zlen (default [] (od_get id (out_spec_decode_tokens o)))) toks pooled -> grammars_rep g ->
  wp (update_one_output cfg h o mo u (id, n)) (fun u' p' => (exists kept stopped,
    one_done s R W K S r (zlen (default [] (od_get id (out_spec_decode_tokens o)))) toks pooled u kept stopped u' p'.1) /\
    grammars_rep p'.2) (s, g).
Proof.
  intros I Hr Hid Hn Hs Hd [(i & Hi & Htoks & Hpool) Ha Hsil] Hg. set (spec := default [] _) in *.
  destruct (hk_run I r Hr) as (Hst & [_ Hph] & _). specialize (Hph Hsync). set (q := objs s r) in *.
  assert (Hq : request_ok cfg sz q) by (apply (hk_ok I); set_solver).
  unfold update_one_output. apply wp_bind, wp_assert; [by apply Z.ltb_lt|].
  apply wp_bind, wp_zoom. unfold live_request. apply wp_bind, wp_get, wp_ret. cbn [fst].
  assert (E : requests s !! id = Some r) by (apply (hk_requests I); split; [set_solver|done]). rewrite E. cbn [option_bind mbind].
  fold q. rewrite Hst. cbv iota. apply wp_bind. apply (wp_of_option _ _ i); [done|].
  apply wp_bind, wp_zoom. apply (sampled_ok mo i toks); [done|]. apply wp_bind, wp_zoom. cbn [fst snd]. fold spec.
  assert (Hw : working s R W K S r q s).
  { constructor; try done. by apply held_take. }
  eapply wp_mono; [apply (take_back_ok _ _ _ _ _ _ _ _ toks spec Hw (rq_tokens _ _ _ Hq) Hph Hd Ha)|].
  intros [] s1 Hw1. cbv beta in Hw1 |- *. set (q1 := taken_back q (zlen spec) (zlen toks)) in *.
  assert (E1 : forall A (f : Request -> A), (forall n, f (set_num_computed_tokens n q) = f q) -> f q1 = f q).
  { intros A f Hf. unfold q1, taken_back. by case_decide. }
  apply wp_bind, wp_zoom, wp_obj'. cbn [fst snd]. rewrite (wk_obj _ _ _ _ _ _ _ _ Hw1).
  assert (Henc : wp (if has_encoder_inputs q1 then on_scheduler (free_encoder_inputs cfg r) else mret tt)
    (fun _ p => working s R W K S r q1 p.1 /\ p.2 = g) (s1, g)).
  { pose proof (working_enc _ _ _ _ _ _ _ _ Hw1) as He. destruct (has_encoder_inputs q1); [|by apply wp_ret].
    apply wp_zoom. eapply wp_mono; [exact He|]. done. }
  apply wp_bind. eapply wp_mono; [exact Henc|]. intros _ [s2 g2] [Hw2 E2]. cbn [fst snd] in Hw2, E2. subst g2.
  apply wp_bind, wp_zoom. apply (pooled_ok mo i pooled); [done|]. cbn [fst snd].
  apply wp_bind, wp_zoom. eapply wp_mono; [apply (take_result_ok _ _ _ _ _ _ _ _ toks pooled Hw2)|].
  { destruct Hs as [S1 S2 S3]. constructor.
    - unfold num_tokens, num_output_tokens. by rewrite !E1.
    - by rewrite !E1.
    - by rewrite E1. }
  { rewrite E1 by done. by rewrite Hst. }
  { rewrite E1 by done. apply Ha. }
  intros [kept stopped] s3 (q3 & Hw3 & Ht). cbn [fst snd] in *.
  apply wp_bind. eapply wp_mono; [by apply (advance_grammar_ok s R W K S r q3 (s3, g) kept Hw3 Hg)|]. intros rej [s4 g4] [Hw4 Hg4]. cbn [fst snd] in *.
  destruct (taken_grown _ _ _ _ _ _ rej Hs Ht) as [Hgr Hpf]. set (q4 := if rej then rejected q3 else q3) in *.
  assert (Est : status q1 = RUNNING) by (by rewrite E1). rewrite Est.
  assert (Hcon : wp (if stopped || rej then on_scheduler (stop_request h r RUNNING u) else mret (None, u))
    (fun f p => (if stopped || rej then held_ok p.1 (without r R) W K [] (delete (request_id (objs s r)) S)
        else held_ok p.1 (without r R) W K [r] S) /\ objs p.1 = objs s4 /\ running p.1 = running s /\
      (is_Some f.1 <-> stopped || rej = true) /\
      f.2 = mkUpdates (up_outputs u) (if stopped || rej then set_add r (stopped_running_reqs u) else stopped_running_reqs u)
        (stopped_preempted_reqs u) /\ p.2 = g4) (s4, g4)).
  { pose proof (conclude_ok _ _ _ _ _ _ _ _ u _ _ _ _ Hw4 I Hgr) as Hc. destruct (stopped || rej).
    - apply wp_zoom. eapply wp_mono; [exact Hc|]. intros f s' (? & ? & ? & ? & ?). done.
    - apply wp_ret. unfold wp in Hc. simpl in Hc. destruct Hc as (? & ? & ? & ? & ?). done. }
  apply wp_bind. eapply wp_mono; [exact Hcon|]. intros [fr u1] [s5 g5] (H5 & Eo5 & Er5 & Hfr & Eu1 & Eg). cbn [fst snd] in *. subst g5 u1.
  assert (Hkept : stopped || rej = false -> kept = toks) by (intros Hf; apply (gr_kept _ _ _ _ _ _ Hgr); done).
  assert (Hquiet : sends kept pooled (stopped || rej) = false -> stopped || rej = false /\ kept = [] /\ pooled = None).
  { unfold sends. intros [[Hz Hp]%orb_false_iff Hsr]%orb_false_iff. split; [done|]. split.
    - apply negb_false_iff, Z.eqb_eq in Hz. destruct kept; [done|simpl in Hz; lia].
    - apply bool_decide_eq_false in Hp. destruct pooled; [|done]. by destruct Hp. }
  apply wp_zoom. eapply wp_mono.
  { apply (report_ok mo r id kept pooled (stopped || rej) fr _ s5 Hfr). intros (Hf & -> & ->)%Hquiet. apply Hsil; [|done].
    symmetry. by apply Hkept. }
  intros u' s6 (Honly & Hrep & Es6 & Ep6 & Hout). cbn [fst snd]. split; [|done]. exists kept, (stopped || rej).
  assert (E5 : objs s5 r = q4) by (by rewrite Eo5, (wk_obj _ _ _ _ _ _ _ _ Hw4)). rewrite E5 in *.
  destruct (finish_update s R W K S r (zlen spec) toks kept (stopped || rej) (sends kept pooled (stopped || rej)) s5 s6 q4)
    as [Hheld Hset]; try done; [lia| | |].
  { intros [-> ->]%orb_false_iff Hne. by apply (tk_length _ _ _ _ _ Ht). }
  { intros Hf (_ & <- & _)%Hquiet. symmetry. by apply Hkept. }
  constructor; try done.
  - by eapply grown_reported.
  - intros x Hx. rewrite (proj2 Honly) by done. rewrite Eo5. by apply (wk_others _ _ _ _ _ _ _ _ Hw4).
  - rewrite (proj1 Honly). done.
  - destruct (sends kept pooled (stopped || rej)); [|done]. destruct Hout as (oo & Ho & Eo). exists oo. fold q. rewrite Hid.
    split; [done|]. rewrite Eo. by rewrite (gr_client _ _ _ _ _ _ Hgr).
Qed.

(** ** The loop over the requests *)

(** The output for a request: the tokens appended to it, and whether it ends. *)
Record delivers (q q' : Request) (gone : Prop) (x : EngineCoreOutput) : Prop := {
  dl_id : eo_request_id x = request_id q;
  dl_tokens : all_token_ids q' = all_token_ids q ++ eo_new_token_ids x;
  dl_reason : is_Some (eo_finish_reason x) <-> gone;
  dl_news : eo_new_token_ids x <> [] \/ is_Some (eo_pooling_output x) \/ gone
}.

Section loop.
Context (s : State) (R W K : list Z) (S : gmap string Z) (o : SchedulerOutput) (mo : ModelRunnerOutput).
Context (toks : string -> list Z) (pooled : string -> option bytes).
Notation sched := (out_num_scheduled_tokens o).
Notation idof r := (request_id (objs s r)).

(** The output answers the step: the scheduled requests that still exist run,
    and the runner has a result for each. *)
Definition answers_step : Prop :=
  NoDup sched.*1 /\ forall id n, (id, n) ∈ sched -> 0 < n /\ forall r, requests s !! id = Some r ->
    r ∈ R /\ sampling_ok (objs s r) /\ draft_ok (objs s r) 0 (drafts_of_output o id) /\
    answered mo id (objs s r) (drafts_of_output o id) (toks id) (pooled id).

(** The requests of [l] have been taken in. *)
Record updating (l : list (string * Z)) (u : Updates) (p : Engine) : Prop := {
  ug_held : exists S', held_ok p.1 (without_all (stopped_running_reqs u) R) W K [] S';
  ug_running : running p.1 = R;
  ug_preempted : stopped_preempted_reqs u = [];
  ug_others : forall r, r ∉ R \/ idof r ∉ l.*1 -> objs p.1 r = objs s r /\ r ∉ stopped_running_reqs u;
  ug_done : forall r, r ∈ R -> idof r ∈ l.*1 -> exists kept stopped,
    grown (objs s r) (objs p.1 r) (drafts_of_output o (idof r)) (toks (idof r)) kept stopped /\
    (stopped = true <-> r ∈ stopped_running_reqs u) /\ (stopped = false -> settled (objs p.1 r));
  ug_outputs : forall c x, x ∈ default [] (up_outputs u !! c) -> exists r, r ∈ R /\ idof r ∈ l.*1 /\
    client_index (objs s r) = c /\ delivers (objs s r) (objs p.1 r) (r ∈ stopped_running_reqs u) x;
  ug_sent : forall r, r ∈ R -> idof r ∈ l.*1 -> all_token_ids (objs p.1 r) <> all_token_ids (objs s r) \/ r ∈ stopped_running_reqs u \/ is_Some (pooled (idof r)) ->
    exists x, x ∈ default [] (up_outputs u !! client_index (objs s r)) /\ eo_request_id x = idof r;
  ug_grammars : grammars_rep p.2;
  ug_once : forall c, eo_request_id <$> default [] (up_outputs u !! c) `sublist_of` l.*1
}.

Lemma updating_start g : held_ok s R W K [] S -> running s = R -> grammars_rep g -> updating [] (mkUpdates ∅ [] []) (s, g).
Proof.
  intros I Er Hg. constructor; try done.
  - exists S. cbn [stopped_running_reqs fst]. by rewrite without_all_nil.
  - intros r _. split; [done|]. apply not_elem_of_nil.
  - set_solver.
  - intros c x. cbn [up_outputs]. rewrite lookup_empty. set_solver.
  - set_solver.
Qed.

Lemma in_add_output c x c' x' m :
  x ∈ default [] (add_output c' x' m !! c) <-> x ∈ default [] (m !! c) \/ (c = c' /\ x = x').
Proof.
  unfold add_output. destruct (decide (c = c')) as [->|Hc].
  - rewrite lookup_insert_eq. cbn [default from_option id]. rewrite elem_of_app, list_elem_of_singleton. tauto.
  - rewrite lookup_insert_ne by done. tauto.
Qed.

(** The next request is gone. *)
Lemma updating_skip l u p id n :
  held_ok s R W K [] S -> updating l u p -> requests s !! id = None -> requests p.1 !! id = None /\ updating (l ++ [(id, n)]) u p.
Proof.
  intros I U Hid. assert (Hne : forall r, r ∈ R ++ W ++ K -> idof r <> id).
  { intros r Hr E. assert (requests s !! id = Some r); [|congruence]. apply (hk_requests I). rewrite app_nil_r. done. }
  assert (Hkeys : forall r, r ∈ R -> idof r ∈ (l ++ [(id, n)]).*1 <-> idof r ∈ l.*1).
  { intros r Hr. rewrite fmap_app, elem_of_app. simpl. rewrite list_elem_of_singleton. specialize (Hne r ltac:(set_solver)). tauto. }
  destruct U as [[S' H1] H2 H3 H4 H5 H6 H7 H8 H9]. split.
  - destruct (requests p.1 !! id) as [r|] eqn:E; [|done]. apply (hk_requests H1) in E as [Hr E].
    rewrite app_nil_r, elem_of_app, list_elem_of_filter in Hr. exfalso.
    assert (Hall : r ∈ R ++ W ++ K) by (rewrite elem_of_app; tauto). apply (Hne r Hall). rewrite <- E.
    destruct (decide (r ∈ R)) as [HrR|HrR]; [|by rewrite (proj1 (H4 r (or_introl HrR)))].
    destruct (decide (idof r ∈ l.*1)) as [Hl|Hl]; [|by rewrite (proj1 (H4 r (or_intror Hl)))].
    destruct (H5 r HrR Hl) as (kept & st & Hg & _). pose proof (gr_rank _ _ _ _ _ _ Hg) as Erk. unfold rank in Erk. congruence.
  - constructor; try done.
    + by exists S'.
    + intros r [Hr|Hr]; apply H4; [by left|]. right. intros Hl. apply Hr. rewrite fmap_app. set_solver.
    + intros r Hr. rewrite Hkeys by done. by apply H5.
    + intros c x Hx. destruct (H6 c x Hx) as (r & Hr & Hl & Hc). exists r. split; [done|]. by rewrite Hkeys.
    + intros r Hr. rewrite Hkeys by done. by apply H7.
    + intros c. rewrite fmap_app. by apply sublist_inserts_r.
Qed.

Lemma set_add_new r l : r ∉ l -> set_add r l = l ++ [r].
Proof. intros Hr. unfold set_add. by rewrite decide_False. Qed.

Lemma without_all_snoc r X (l : list Z) : without r (without_all X l) = without_all (X ++ [r]) l.
Proof.
  rewrite list_filter_filter. apply list_filter_iff. intros x. rewrite elem_of_app, list_elem_of_singleton. tauto.
Qed.

(** The next request is there, and is taken in. *)
Lemma updating_next l u g u' s1 p' id n r kept stopped S1 :
  held_ok s R W K [] S -> updating l u (s1, g) -> id ∉ l.*1 -> r ∈ R -> idof r = id ->
  held_ok s1 (without_all (stopped_running_reqs u) R) W K [] S1 ->
  one_done s1 (without_all (stopped_running_reqs u) R) W K S1 r (drafts_of_output o id) (toks id) (pooled id) u kept stopped u' p'.1 ->
  grammars_rep p'.2 -> updating (l ++ [(id, n)]) u' p'.
Proof.
  intros I [_ H2 H3 H4 H5 H6 H7 _ H9] Hl Hr Hid I1 [D1 D2 D3 D4 D5 D6 D7 D8] Hg. cbn [fst snd] in *.
  assert (Hnl : idof r ∉ l.*1) by (by rewrite Hid). destruct (H4 r (or_intror Hnl)) as [Er HrX]. rewrite Er in D1, D3, D8. rewrite Hid in D1, D8.
  set (X := stopped_running_reqs u) in *. rewrite (set_add_new r X HrX) in D6.
  assert (Hkeys : forall x, x ∈ R -> idof x ∈ (l ++ [(id, n)]).*1 <-> idof x ∈ l.*1 \/ x = r).
  { intros x Hx. rewrite fmap_app, elem_of_app. simpl. rewrite list_elem_of_singleton. split; [|intros [?| ->]; auto].
    intros [?|E]; [by left|]. right. apply (held_inj I); [set_solver..|congruence]. }
  assert (HX : forall x, x ∈ stopped_running_reqs u' <-> x ∈ X \/ (x = r /\ stopped = true)).
  { intros x. rewrite D6. destruct stopped; [rewrite elem_of_app, list_elem_of_singleton; tauto|]. naive_solver. }
  assert (Hne : forall x, idof x ∈ l.*1 -> x <> r) by (intros x Hx ->; by rewrite Hid in Hx).
  assert (Hdl : forall x y, x <> r -> delivers (objs s x) (objs s1 x) (x ∈ X) y ->
    delivers (objs s x) (objs p'.1 x) (x ∈ stopped_running_reqs u') y).
  { intros x y Hx [A1 A2 A3 A4]. constructor; [done|by rewrite D4| |]; [rewrite A3, HX; naive_solver|]. rewrite HX. tauto. }
  assert (Hnew : forall y, output_for id kept stopped y -> delivers (objs s r) (objs p'.1 r) (r ∈ stopped_running_reqs u') y).
  { intros y (A1 & A2 & A3 & A4). constructor; [by rewrite Hid|by rewrite (gr_all _ _ _ _ _ _ D3), A2| |]; [rewrite A3, HX; naive_solver|]. rewrite A2, HX. tauto. }
  constructor; try done.
  - rewrite D6. destruct stopped; [|by eexists]. rewrite without_all_snoc in D1. by eexists.
  - by rewrite D5.
  - by rewrite D7.
  - intros x Hx. assert (Hxr : x <> r).
    { intros ->. destruct Hx as [?|Hx]; [done|]. rewrite Hkeys in Hx by done. tauto. }
    rewrite D4, HX by done. destruct (H4 x) as [? ?]; [|naive_solver].
    destruct Hx as [?|Hx]; [by left|]. right. intros Hin. apply Hx. rewrite fmap_app. set_solver.
  - intros x Hx [Hin| ->]%Hkeys; [| |done].
    + destruct (H5 x Hx Hin) as (k & b & A1 & A2 & A3). exists k, b. specialize (Hne x Hin). rewrite D4, HX by done. naive_solver.
    + exists kept, stopped. rewrite Hid. split; [done|]. rewrite HX. naive_solver.
  - intros c y Hy. assert (Hcase : y ∈ default [] (up_outputs u !! c) \/ (c = client_index (objs s r) /\ output_for id kept stopped y)).
    { destruct (sends _ _ _); [|rewrite D8 in Hy; by left]. destruct D8 as (z & Hz & Eu). rewrite Eu in Hy.
      apply in_add_output in Hy as [?|[-> ->]]; auto. }
    destruct Hcase as [Hy'|[-> Hf]].
    + destruct (H6 c y Hy') as (x & Hx & Hin & Hc & Hd). exists x. rewrite Hkeys by done.
      split; [done|]. split; [by left|]. split; [done|]. apply Hdl; [by apply Hne|done].
    + exists r. rewrite Hkeys by done. split; [done|]. split; [by right|]. split; [done|by apply Hnew].
  - intros x Hx [Hin| ->]%Hkeys Hch; [| |done].
    + rewrite D4, HX in Hch by auto. destruct (H7 x Hx Hin) as (y & Hy & Ey); [naive_solver|]. exists y. split; [|done].
      destruct (sends _ _ _); [|by rewrite D8]. destruct D8 as (z & Hz & Eu). rewrite Eu. apply in_add_output. by left.
    + destruct (sends kept (pooled id) stopped) eqn:Es.
      * destruct D8 as (z & Hz & Eu). exists z. rewrite Eu, in_add_output, Hid. split; [by right|apply Hz].
      * exfalso. unfold sends in Es. apply orb_false_iff in Es as [[Ez Epo]%orb_false_iff ->]. apply bool_decide_eq_false in Epo. rewrite Hid in Hch.
        apply negb_false_iff, Z.eqb_eq in Ez. destruct kept; [|simpl in Ez; lia].
        rewrite HX, (gr_all _ _ _ _ _ _ D3), app_nil_r in Hch. naive_solver.
  - intros c. rewrite fmap_app. destruct (sends _ _ _); [|rewrite D8; by apply sublist_inserts_r]. destruct D8 as (z & (Hz & _) & Eu). rewrite Eu. unfold add_output.
    destruct (decide (c = client_index (objs s r))) as [->|Hc]; [|rewrite lookup_insert_ne by done; by apply sublist_inserts_r].
    rewrite lookup_insert_eq. unfold default; cbn [from_option]; unfold Datatypes.id. rewrite fmap_app. apply sublist_app; [apply H9|]. cbn. by rewrite Hz.
Qed.

Lemma update_loop_ok g :
  held_ok s R W K [] S -> running s = R -> grammars_rep g -> answers_step ->
  wp (for_fold (update_one_output cfg h o mo) sched (mkUpdates ∅ [] [])) (fun u p => updating sched u p) (s, g).
Proof.
  intros I Er Hg [Hnd Ha]. apply (wp_for_fold (fun l _ u p => updating l u p)); [by apply updating_start|].
  intros l1 [id n] l2 u [s1 g1] El U. destruct (Ha id n) as [Hn Hr]; [rewrite El; set_solver|].
  assert (Hl : id ∉ l1.*1).
  { rewrite El, fmap_app in Hnd. apply list.NoDup_app in Hnd as (_ & Hd & _). intros Hx. apply (Hd id Hx). by left. }
  destruct (requests s !! id) as [r|] eqn:Eid.
  - destruct (Hr r eq_refl) as (HrR & Hs & Hd & Hans). apply (hk_requests I) in Eid as [_ Eid].
    assert (Hnl : idof r ∉ l1.*1) by (by rewrite Eid).
    destruct (ug_held _ _ _ U) as [S1 I1]. destruct (ug_others _ _ _ U r (or_intror Hnl)) as [Er1 HrX]. cbn [fst] in *.
    eapply wp_mono; [apply (take_one_ok o mo s1 _ W K S1 u id n r (toks id) (pooled id) g1 I1)|].
    + by apply list_elem_of_filter.
    + by rewrite Er1.
    + done.
    + by rewrite Er1.
    + by rewrite Er1.
    + by rewrite Er1.
    + apply U.
    + intros u' p' [(kept & stopped & Hone') Hg']. by eapply updating_next.
  - destruct (updating_skip _ _ _ id n I U Eid) as [En U']. unfold update_one_output.
    apply wp_bind, wp_assert; [by apply Z.ltb_lt|]. apply wp_bind, wp_zoom. unfold live_request.
    apply wp_bind, wp_get, wp_ret. cbn [fst]. cbn [fst] in En. rewrite En. by apply wp_ret.
Qed.

(** What a client gets. *)
Definition outputs_of (outs : gmap Z EngineCoreOutputs) (c : Z) : list EngineCoreOutput :=
  from_option eos_outputs [] (outs !! c).

(** What the update does: [R'] is left of the running requests. *)
Record update_done (outs : gmap Z EngineCoreOutputs) (s' : State) (R' : list Z) (S' : gmap string Z) : Prop := {
  ud_ok : sched_ok cfg sz s' R' W K S';
  ud_left : forall r, r ∈ R' -> r ∈ R;
  ud_others : forall r, r ∉ R \/ idof r ∉ sched.*1 -> objs s' r = objs s r /\ (r ∈ R -> r ∈ R');
  ud_done : forall r, r ∈ R -> idof r ∈ sched.*1 -> exists kept stopped,
    grown (objs s r) (objs s' r) (drafts_of_output o (idof r)) (toks (idof r)) kept stopped /\
    (stopped = true <-> r ∉ R') /\ (stopped = false -> settled (objs s' r));
  ud_outputs : forall c x, x ∈ outputs_of outs c -> exists r, r ∈ R /\ idof r ∈ sched.*1 /\
    client_index (objs s r) = c /\ delivers (objs s r) (objs s' r) (r ∉ R') x;
  ud_sent : forall r, r ∈ R -> idof r ∈ sched.*1 -> all_token_ids (objs s' r) <> all_token_ids (objs s r) \/ r ∉ R' \/ is_Some (pooled (idof r)) ->
    exists x, x ∈ outputs_of outs (client_index (objs s r)) /\ eo_request_id x = idof r;
  ud_once : forall c, eo_request_id <$> outputs_of outs c `sublist_of` sched.*1
}.

Lemma remove_stopped_ok u (s1 : State) :
  stopped_preempted_reqs u = [] -> NoDup (running s1) ->
  wp (remove_stopped u) (fun _ s2 => s2 = set_running (without_all (stopped_running_reqs u) (running s1)) s1) s1.
Proof.
  intros E Hn. unfold remove_stopped. rewrite E. destruct (stopped_running_reqs u) as [|x X].
  - apply wp_bind, wp_ret, wp_ret. rewrite without_all_nil. by destruct s1.
  - apply wp_bind, wp_modify, wp_ret. by rewrite remove_all_filter.
Qed.

Lemma collect_outputs_ok u (s1 : State) :
  wp (collect_outputs u) (fun outs s2 => (exists d, s2 = set_finished_req_ids_dict d s1) /\
    forall c, outputs_of outs c = default [] (up_outputs u !! c)) s1.
Proof.
  unfold collect_outputs. apply wp_bind, wp_get. cbv zeta. apply wp_bind, wp_modify, wp_ret. split; [by eexists|].
  intros c. unfold outputs_of. rewrite lookup_merge. unfold diag_None.
  by destruct (up_outputs u !! c), (default ∅ (finished_req_ids_dict s1) !! c).
Qed.

Lemma update_step g :
  sched_ok cfg sz s R W K S -> grammars_rep g -> answers_step ->
  wp (update_from_output cfg h dspark o mo) (fun res p => grammars_rep p.2 /\ exists R' S', update_done res.1 p.1 R' S') (s, g).
Proof.
  intros Iok Hg Ha. pose proof (sched_held cfg sz _ _ _ _ _ Iok) as I.
  destruct Iok as [Hnd _ _ Er Hmax _ _ _ _ _ _ _ _ _ _]. apply list.NoDup_app in Hnd as (HnR & _).
  unfold update_from_output. apply wp_bind. eapply wp_mono; [by apply update_loop_ok|].
  intros u [s1 g1] [[S' H1] H2 H3 H4 H5 H6 H7 H8 H9]. cbn [fst snd] in *. set (X := stopped_running_reqs u) in *.
  apply wp_bind, wp_zoom. cbn [fst snd]. eapply wp_mono; [apply remove_stopped_ok; [done|by rewrite H2]|]. intros _ s2 ->.
  apply wp_bind, wp_zoom, wp_zoom. cbn [fst snd]. eapply wp_mono; [apply (slots_take_events _ S'), H1|]. intros events k' Hk.
  apply wp_bind, wp_zoom. cbn [fst snd]. eapply wp_mono; [apply collect_outputs_ok|]. intros outs s3 [[d ->] Houts].
  rewrite Hsync. apply wp_bind, wp_ret, wp_ret. cbn [fst snd]. split; [done|]. fold X. rewrite H2.
  assert (HX : forall r, r ∈ R -> r ∉ without_all X R <-> r ∈ X).
  { intros r Hr. rewrite list_elem_of_filter. destruct (decide (r ∈ X)); tauto. }
  exists (without_all X R), S'. constructor.
  - apply held_sched.
    + destruct H1. by constructor.
    + done.
    + pose proof (length_filter (fun x => x ∉ X) R). lia.
  - intros r [_ ?]%list_elem_of_filter. done.
  - intros r Hr. destruct (H4 r Hr) as [E Hn]. split; [done|]. intros HrR. by apply list_elem_of_filter.
  - intros r Hr Hl. destruct (H5 r Hr Hl) as (kept & stopped & A1 & A2 & A3). exists kept, stopped. by rewrite HX.
  - intros c x Hx. rewrite Houts in Hx. destruct (H6 c x Hx) as (r & Hr & Hl & Hc & [D1 D2 D3 D4]). exists r.
    split; [done|]. split; [done|]. split; [done|]. constructor; [done|done|by rewrite HX|by rewrite HX].
  - intros r Hr Hl Hch. rewrite Houts. apply (H7 r Hr Hl). by rewrite HX in Hch.
  - intros c. rewrite Houts. apply H9.
Qed.

(** C2. The output of the runner is taken in completely. For the synchronous
    scheduler with one sampled token a step, from any state between steps and for
    any output that answers the step (no token for an unfinished prompt, at most
    one token more than the drafts scheduled), [update_from_output] returns.
    Every scheduled request that still exists has the tokens sampled for it
    appended, up to the first after which it has to stop ([kept_to_stop]), and the
    rejected drafts taken back; it
    is released exactly if it stopped, and otherwise computed at most up to its
    last token and within the limits. Every client is sent exactly one output, in the
    order of the step, for each of its requests that got tokens, a pooled result or
    an end, with exactly the tokens appended to it, and a finish reason exactly if it
    stopped. Other requests are not touched, and the state is again one between steps. *)
Theorem update_from_output_safe g :
  sched_ok cfg sz s R W K S -> grammars_rep g -> answers_step ->
  exists outs events p', update_from_output cfg h dspark o mo (s, g) = (Ok (outs, events), p') /\
    grammars_rep p'.2 /\ exists R' S', update_done outs p'.1 R' S'.
Proof.
  intros I Hg Ha. destruct (wp_returns _ _ _ (update_step g I Hg Ha)) as ([outs events] & p' & E & H).
  by exists outs, events, p'.
Qed.
End loop.
End update.
End UpdateSafety.
