(* ===== verification/StructuredWitness.v ===== *)
(** * StructuredWitness

    The structured output manager as the grammar manager of the scheduler, and its
    theorems on a concrete input: an xgrammar grammar over a matcher for a single
    word. *)

From S2P Require Import Prelude Request OrderedDict Grammar Reasoning StructuredOutput StructuredSafety RequestQueue StopCheck KVCacheManager SchedulerState Scheduler Lifecycle OutputUpdate UpdateSafety.

Module StructuredWitness.
Import Request Grammar Reasoning StructuredOutput StructuredSafety OutputUpdate UpdateSafety.
#[local] Open Scope Z_scope.

(** ** What the scheduler calls *)

Section scheduler.
Context {G : Type} `{!StructuredOutputGrammar G bytes} (cfg : StructuredOutputConfig bytes).
#[local] Notation SOManager := (StructuredOutputManager G bytes).

Definition so_grammar_manager : GrammarManager SOManager := {|
  gm_should_advance q := should_advance cfg q;
  gm_trim_reasoning q l := trim_reasoning_for_advance q l;
  gm_has_grammar q m := is_some (grammar (structured_output_requests m (request_id q)));
  gm_accept_tokens q l := on_grammar (request_id q) (accept_tokens l);
  gm_validate_tokens q l := on_grammar (request_id q) (validate_tokens l);
  gm_grammar_bitmask requests ids spec := grammar_bitmask cfg requests ids spec
|}.

Context {L : Language bytes} {consumed : list Z -> G -> Prop} {usable : G -> Prop} {GL : GrammarLaws G bytes L consumed usable}.

(** All grammars are compiled and work. *)
Definition grammars_usable (m : SOManager) : Prop :=
  forall id, exists g, grammar (structured_output_requests m id) = Some g /\ usable g.

Lemma usable_update id f m : grammars_usable m ->
  (forall q g, grammar q = Some g -> usable g -> exists g', grammar (f q) = Some g' /\ usable g') ->
  wp (update_so id f) (fun _ m' => grammars_usable m') m.
Proof.
  intros I Hf. apply wp_modify. intros j. cbn. destruct (decide (j = id)) as [->|]; [|apply I].
  destruct (I id) as (g & Eg & Hg). by apply (Hf _ g).
Qed.

Lemma usable_call {A} id (op : M G A) (P : A -> Prop) m : grammars_usable m ->
  (forall g, usable g -> wp op (fun a g' => P a /\ usable g') g) -> wp (on_grammar id op) (fun a m' => P a /\ grammars_usable m') m.
Proof.
  intros I Hop. destruct (I id) as (g & Eg & Hg). specialize (Hop g Hg). unfold wp, on_grammar in *. rewrite Eg.
  destruct (op g) as [[a|e] g']; [|done]. destruct Hop as [HP Hg']. split; [done|]. intros j. cbn.
  destruct (decide (j = id)) as [->|]; [by exists g'|apply I].
Qed.

Lemma so_contract : @GrammarContract SOManager so_grammar_manager.
Proof.
  refine {| grammars_rep := grammars_usable : SOManager -> Prop |}.
  - intros m q I. cbn.
    assert (Hg : forall m' : SOManager, grammars_usable m' -> is_some (grammar (structured_output_requests m' (request_id q))) = true).
    { intros m' I'. by destruct (I' (request_id q)) as (g & -> & _). }
    unfold should_advance. destruct (use_structured_output q); [|by apply wp_ret]. cbn [negb andb]. apply wp_bind, wp_get.
    assert (Hstop : forall b, wp (mret b) (fun b (m' : SOManager) => grammars_usable m' /\
      (b = true -> is_some (grammar (structured_output_requests m' (request_id q))) = true)) m) by (intros b; apply wp_ret; auto).
    destruct (get_reasoner cfg q m) as [r|]; [|apply Hstop]. destruct (enable_in_reasoning cfg); [apply Hstop|].
    destruct (default false _); [apply Hstop|]. destruct (is_reasoning_end_streaming _ _ _); [|apply Hstop].
    apply wp_bind. eapply wp_mono; [apply usable_update; [done|]; intros q' g E Hu; by exists g|]. intros [] m1 I1.
    destruct (_ && _); [|by apply wp_ret]. apply wp_bind.
    eapply wp_mono; [apply usable_update; [done|]; intros q' g E Hu; by exists g|]. intros [] m2 I2. apply wp_ret. auto.
  - intros m q l I. apply wp_bind, wp_get, wp_ret. done.
  - intros m q l I. eapply wp_mono; [apply (usable_call _ _ (fun _ => True)); [done|]|by intros b m' [_ I']].
    intros g Hg. eapply wp_mono; [by apply law_accept_usable|done].
  - intros m q l I. apply (usable_call _ _ (fun l' => l' `prefix_of` l)); [done|]. intros g Hg. by apply law_validate_usable.
Defined.
End scheduler.

(** ** A matcher for the word 5 6 7 *)

Definition word : list Z := [5; 6; 7].
Definition word_language : Language (list Z) :=
  mkLanguage (fun h t => bool_decide (h ++ [t] `prefix_of` word)) (fun h => bool_decide (h = word)) (fun h => take 1 (drop (length h) word)).
#[local] Instance word_matcher : GrammarMatcher (list Z) (list Z) := {|
  accept_token t := (h ← get; if allowed word_language h t then modify (fun h => h ++ [t]) ;; mret true else mret false);
  matcher_rollback n := modify (fun h => take (length h - Z.to_nat n) h);
  matcher_is_terminated h := ended word_language h;
  fill_next_token_bitmask h := mask word_language h;
  matcher_reset _ := []
|}.
#[local] Instance word_matcher_laws : MatcherLaws (list Z) (list Z) word_language eq.
Proof.
  constructor; [|  |by intros hist x ->|by intros hist x ->].
  - intros hist t x <-. apply wp_bind, wp_get. destruct (allowed word_language hist t); [|by apply wp_ret].
    by apply wp_bind, wp_modify, wp_ret.
  - intros hist tokens x <-. apply wp_modify. by rewrite length_app, Nat2Z.id, Nat.add_sub, take_app_length.
Qed.
#[local] Notation G := (XgrammarGrammar (list Z)).
#[local] Existing Instance xgrammar_laws.

Lemma xgrammar_follows_language_witness :
  GrammarLaws G (list Z) word_language (xgr_consumed (L := word_language) (matched := eq)) (xgr_usable (matched := eq)) /\
  xgr_validate_tokens [5; 9; 7] (mkXgrammar [] 0 false) = (Ok [5], mkXgrammar [] 0 false).
Proof. split; [exact (xgrammar_follows_language (list Z) (list Z) word_language eq word_matcher_laws)|vm_compute; reflexivity]. Defined.

(** Two spare rows hold stale data; token 2 ends reasoning. *)
Definition word_config (reason : bool) : StructuredOutputConfig (list Z) :=
  mkSOConfig (if reason then Some (fun _ => BaseThinkingReasoningParser 1 2) else None) false true 4 4 false
    (fun n => replicate (Z.to_nat n) [0]) [-1] mjoin.
Definition fresh : StructuredOutputManager G (list Z) :=
  mkManager (fun _ => mkSO STRUCTURAL_TAG (Some (mkXgrammar [] 0 false)) None None []) None.
Definition request : Request :=
  mkRequest "a" 0 0 1 None None None true None None false false false 5 (Some [3]) 1 [] RUNNING None [] [3] 0 0 0 [] 1 false 0 0 None [] ∅.
Definition one_request (id : string) : option Request := if decide (id = "a"%string) then Some request else None.

Lemma one_request_id id q : one_request id = Some q -> request_id q = id.
Proof. unfold one_request. destruct (decide _) as [->|]; [by intros [= <-]|done]. Qed.
Lemma fresh_tracked ids : @tracked G (list Z) (xgr_consumed (L := word_language) (matched := eq)) (fun _ => []) ids fresh.
Proof. intros id _. exists (mkXgrammar [] 0 false). by repeat split. Qed.
Lemma word_rows n : 0 <= n -> zlen (replicate (Z.to_nat n) ([0] : list Z)) = n.
Proof. intros Hn. rewrite length_replicate. lia. Qed.
Lemma spec_short (drafts : list Z) id : (length drafts <= 4)%nat ->
  zlen (default ([] : list Z) (OrderedDict.OrderedDict.od_get id [("a"%string, drafts)])) <= 4.
Proof. intros H. cbn. destruct (decide _); cbn; lia. Qed.


(** Of the drafts 5 9 the grammar validates the first. *)
Lemma validated_drafts_accepted_witness : exists m',
  grammar_bitmask (word_config false) one_request ["a"%string] [("a"%string, [5; -1])] fresh = (Ok (Some [[5]; [6]; [6]]), m') /\
  @tracked G (list Z) (xgr_consumed (L := word_language) (matched := eq)) (fun _ => []) ["a"%string] m'.
Proof.
  destruct (validated_drafts_accepted (word_config false) (GL := xgrammar_laws) one_request one_request_id (fun _ => []) (fun _ => reflexivity _) word_rows
    ltac:(done) (fun _ => [5; 9]) (fun _ => 1%nat) [("a"%string, [5; -1])] ["a"%string] fresh) as (m' & E & Ht & _).
  - intros h. apply bool_decide_false. intros [l E]. rewrite <- app_assoc in E.
    assert (Hin : -1 ∈ word) by (rewrite E; set_solver). vm_compute in Hin. set_solver.
  - intros h t E%bool_decide_eq_true. apply bool_decide_false. intros [l El]. subst h. apply (f_equal length) in El.
    rewrite !length_app in El. simpl in El. lia.
  - done.
  - done.
  - done.
  - intros id. apply spec_short. simpl. lia.
  - apply fresh_tracked.
  - done.
  - intros id ->%list_elem_of_singleton. exists request. split; [done|]. split; [done|]. vm_compute. reflexivity.
  - by exists m'.
Defined.

(** One token of the step is reasoning, the second ends it, the third is answer. *)
Definition reasoned : Request :=
  mkRequest "a" 0 0 1 None None None true None None false false false 5 (Some [3]) 1 [] RUNNING None [4; 2; 5] [3; 4; 2; 5] 0 0 0 [] 1 false 0 0 None [] ∅.
Lemma reasoning_end_trimmed_witness : exists res m',
  (go ← should_advance (word_config true) reasoned; l ← trim_reasoning_for_advance reasoned [4; 2; 5]; mret (go, l)) fresh = (Ok res, m') /\
  res = (true, [5]) /\ reasoning_ended (structured_output_requests m' "a") = Some true.
Proof.
  assert (Hwp := reasoning_end_trimmed (word_config true) reasoned fresh (BaseThinkingReasoningParser 1 2) 2 [3] [4] [5] eq_refl eq_refl
    ltac:(done) eq_refl eq_refl ltac:(set_solver) ltac:(intros h t; cbn; unfold thinking_end_streaming; destruct (Z.eqb_spec t 2) as [->|];
      [apply bool_decide_true; set_solver|apply bool_decide_false; set_solver]) eq_refl).
  apply wp_returns in Hwp as ([go l] & m' & E & Hgo & Hl & Hen). cbn in Hgo, Hl. subst go. rewrite (Hl eq_refl) in E.
  exists (true, [5]), m'. split; [exact E|]. by split.
Defined.
End StructuredWitness.
