(* ===== verification/DraftSafety.v ===== *)
(** * DraftSafety

    The drafts of a step that is under way are replaced by those the runner
    proposed in the meantime: [update_draft_token_ids_in_output] keeps the shape
    the runner was told, and marks what the grammars reject. *)

From S2P Require Import Prelude Request OrderedDict KVCacheManager EncoderCache SchedulerState Scheduler Lifecycle OutputUpdate UpdateSafety.

Module DraftSafety.
Import Request OrderedDict SchedulerState Scheduler Lifecycle OutputUpdate UpdateSafety.
#[local] Open Scope Z_scope.

Section drafts.
Context {KV EC : Type} {GM : Type} {GI : GrammarManager GM} {GC : GrammarContract GM}.
#[local] Notation State := (SchedulerState.Scheduler KV EC).
#[local] Notation Engine := (State * GM)%type.

(** Drafts are validated where the grammar of the request advances. *)
Lemma validate_drafts_ok e q drafts (p : Engine) : grammars_rep p.2 ->
  wp (validate_drafts e q drafts) (fun ids p' => ids `prefix_of` drafts /\ p'.1 = p.1 /\ grammars_rep p'.2) p.
Proof.
  intros Hg. unfold validate_drafts. apply wp_bind, wp_zoom. eapply wp_mono; [by apply grammars_should_advance|].
  intros b g1 [Hg1 Hb]. destruct b; [|by apply wp_ret].
  specialize (Hb eq_refl). apply andb_true_iff in Hb as [_ Hb]. apply wp_bind, wp_get, wp_bind. cbn [snd]. rewrite Hb. apply wp_ret.
  apply wp_zoom. eapply wp_mono; [by apply grammars_validate|]. by intros l g2 [Hl Hg2].
Qed.

(** [new] and the count [inv] of rejected drafts, for the scheduled placeholders
    [old] and the drafts [given]: an accepted prefix, filled up with -1. *)
Definition padded (old given new : list Z) (inv : option Z) : Prop :=
  exists ids, ids `prefix_of` take (length old) given /\ new = ids ++ replicate (length old - length ids) (-1) /\
    inv = if decide (length ids = length old) then None else Some (zlen old - zlen ids).

(** The unfinished request of an id. *)
Definition live (s : State) (id : string) : option Z :=
  r ← requests s !! id; if is_finished (status (objs s r)) then None else Some r.

(** What becomes of the placeholders of a request when the drafts [l] came in. *)
Definition replaced (s : State) (l : list (string * list Z)) (id : string) (old new : list Z) (inv : option Z) : Prop :=
  match live s id, od_get id l, old with
  | Some _, Some given, _ :: _ => padded old given new inv
  | _, _, _ => new = old /\ inv = None
  end.

Lemma padded_length old given new inv : padded old given new inv -> length new = length old.
Proof.
  intros (ids & Hp & -> & _). apply prefix_length in Hp. rewrite length_take in Hp. rewrite length_app, length_replicate. lia.
Qed.

Lemma live_request_ok id (s : State) Q : Q (live s id) s -> wp (live_request id) Q s.
Proof. done. Qed.

(** The lists so far: [spec] the drafts, [inv] the rejected ones. *)
Record replacing (s : State) (spec : list (string * list Z)) (l : list (string * list Z))
    (acc : list (string * list Z) * gmap string Z) (p : Engine) : Prop := {
  rp_state : p.1 = s;
  rp_keys : acc.1.*1 = spec.*1;
  rp_lists : forall id old, od_get id spec = Some old -> exists new, od_get id acc.1 = Some new /\
    replaced s l id old new (acc.2 !! id);
  rp_inv : forall id, od_get id spec = None -> acc.2 !! id = None;
  rp_grammars : grammars_rep p.2
}.

(** Drafts for other requests make no difference. *)
Lemma replaced_other s l e id old new inv :
  id <> e.1 \/ live s id = None \/ old = [] -> replaced s l id old new inv -> replaced s (l ++ [e]) id old new inv.
Proof.
  destruct e as [k given]. unfold replaced. rewrite od_get_snoc. cbn [fst].
  destruct (live s id), (od_get id l), old; try done; try (by intros _ H); case_decide; try (by intros _ H); by intros [?|[?|?]].
Qed.

Lemma replace_one s spec l e acc p : e.1 ∉ l.*1 -> replacing s spec l acc p ->
  wp (update_drafts_of acc e) (fun acc' p' => replacing s spec (l ++ [e]) acc' p') p.
Proof.
  intros He [R1 R2 R3 R4 R5]. destruct acc as [cur inv], e as [id given], p as [s' g]. cbn [fst snd] in *. subst s'.
  unfold update_drafts_of. apply wp_bind, wp_zoom, live_request_ok. cbn [fst snd].
  assert (Hsame : live s id = None \/ default [] (od_get id cur) = [] -> replacing s spec (l ++ [(id, given)]) (cur, inv) (s, g)).
  { intros Hor. constructor; try done. cbn [fst snd]. intros id' old Hold. destruct (R3 id' old Hold) as (new & Hnew & Hr).
    exists new. split; [done|]. apply replaced_other; [|done]. destruct (decide (id' = id)) as [->|]; [|by left]. right.
    destruct Hor as [?|Hor]; [by left|right]. rewrite Hnew in Hor. simpl in Hor. subst new. unfold replaced in Hr.
    rewrite (proj2 (od_get_none _ _) He) in Hr. destruct (live s id), old; naive_solver. }
  destruct (live s id) as [r|] eqn:El; [|apply wp_ret, Hsame; by left].
  destruct (od_get id cur) as [[|x cs]|] eqn:Ecur; [apply wp_ret, Hsame; by right| |apply wp_ret, Hsame; by right].
  set (old := x :: cs) in *. clear Hsame. apply wp_bind, wp_zoom, wp_gets. cbn [fst snd].
  apply wp_bind. eapply wp_mono; [by apply validate_drafts_ok|]. intros ids [s' g'] (Hp & Es & Hg'). cbn [fst snd] in *. subst s'.
  assert (Hspec : od_get id spec = Some old).
  { destruct (od_get id spec) as [o|] eqn:E.
    - destruct (R3 id o E) as (new & Hnew & Hr). unfold replaced in Hr. rewrite El, (proj2 (od_get_none _ _) He) in Hr. naive_solver.
    - apply od_get_none in E. rewrite <- R2 in E. apply od_get_in in Ecur. done. }
  pose proof (prefix_length _ _ Hp) as Hlen. rewrite length_take in Hlen.
  assert (Hn : Z.to_nat (zlen old - zlen ids) = (length old - length ids)%nat) by lia.
  apply wp_ret. cbv zeta. rewrite Hn. constructor; cbn [fst snd]; try done.
  - rewrite od_set_keys; [done|]. by eapply od_get_in.
  - intros id' old' Hold. destruct (decide (id' = id)) as [->|Hne].
    + assert (old' = old) as -> by congruence. eexists. split; [apply od_get_set|]. unfold replaced.
      rewrite El, od_get_snoc, (proj2 (od_get_none _ _) He), decide_True by done. exists ids. split; [done|]. split; [done|].
      destruct (R3 id old Hspec) as (new & _ & Hr). unfold replaced in Hr. rewrite El, (proj2 (od_get_none _ _) He) in Hr.
      destruct (Z.eqb_spec (zlen old - zlen ids) 0) as [E0|E0]; case_decide as Ed; try lia; [by destruct Hr|apply lookup_insert_eq].
    + destruct (R3 id' old' Hold) as (new & Hnew & Hr). exists new. rewrite od_get_set_ne by done. split; [done|].
      destruct (_ =? 0); [|rewrite lookup_insert_ne by done]; apply replaced_other; auto.
  - intros id' Hnone. assert (id' <> id) by (by intros ->; rewrite Hspec in Hnone).
    destruct (_ =? 0); [|rewrite lookup_insert_ne by done]; auto.
Qed.

(** The drafts of a step under way keep their shape. For drafts of distinct
    requests, [update_draft_token_ids_in_output] returns without touching the
    scheduler, and changes the output of the step only in its drafts: the same
    requests have drafts, and as many as scheduled. A request that still exists
    and for which drafts came in has a prefix of them, cut to the scheduled
    number, with -1 in place of what its grammar rejects; the number of those is
    recorded if there are any. Every other request keeps its drafts. *)
Theorem drafts_in_output_padded drafts o (s : State) g :
  NoDup drafts.*1 -> grammars_rep g ->
  exists spec inv g', update_draft_token_ids_in_output drafts o (s, g) = (Ok (set_drafts spec inv o), (s, g')) /\ grammars_rep g' /\
    spec.*1 = (out_spec_decode_tokens o).*1 /\
    (forall id, length (default [] (od_get id spec)) = length (default [] (od_get id (out_spec_decode_tokens o)))) /\
    (forall id old, od_get id (out_spec_decode_tokens o) = Some old -> exists new, od_get id spec = Some new /\
      replaced s drafts id old new (inv !! id)) /\
    (forall id, od_get id (out_spec_decode_tokens o) = None -> inv !! id = None).
Proof.
  intros Hnd Hg. set (old := out_spec_decode_tokens o).
  assert (H : wp (for_fold update_drafts_of drafts (old, ∅)) (fun acc p => replacing s old drafts acc p) (s, g)).
  { apply (wp_for_fold (fun l _ acc p => replacing s old l acc p)).
    - constructor; try done; cbn [fst snd]; intros id l Hl. exists l. split; [done|]. unfold replaced.
      simpl. by destruct (live s id).
    - intros l1 e l2 acc p E I. apply replace_one; [|done]. rewrite E, fmap_app in Hnd.
      apply list.NoDup_app in Hnd as (_ & Hd & _). intros He. apply (Hd _ He). by left. }
  destruct (wp_returns _ _ _ H) as ([spec inv] & [s' g'] & Hrun & [R1 R2 R3 R4 R5]). cbn [fst snd] in *. subst s'.
  exists spec, inv, g'. unfold update_draft_token_ids_in_output, mbind, M_bind. fold old. rewrite Hrun. split; [done|].
  split; [done|]. split; [done|]. split; [|done]. intros id. destruct (od_get id old) as [l|] eqn:E.
  - destruct (R3 id l E) as (new & -> & Hr). simpl. unfold replaced in Hr.
    destruct (live s id), (od_get id drafts), l; try (by destruct Hr as [-> _]). by eapply padded_length.
  - apply od_get_none in E. rewrite <- R2 in E. by rewrite (proj2 (od_get_none _ _) E).
Qed.
End drafts.
End DraftSafety.
