(* ===== verification/EngineCore.v ===== *)
(** * EngineCore

    v1/engine/core.py: the loop around the scheduler. [EngineCore] schedules a
    step, has the executor run it, takes the output in, and hands drafts on;
    either one step after the other or with a queue of batches in flight.
    [EngineCoreProc] adds the output queue, pausing and shutdown.

    The executor (v1/executor) is reached through the interface [Executor]; the
    sockets and threads that fill the input queue are left out, their requests
    arrive as calls. *)

From S2P Require Import Prelude Request OrderedDict BlockPool KVCacheManager SchedulerState Scheduler Lifecycle OutputUpdate.

Module EngineCore.
Import Request OrderedDict SchedulerState Scheduler Lifecycle OutputUpdate.
#[local] Open Scope Z_scope.

(** What the engine calls of the executor. [Fut]: futures; [ex_result] waits for
    one. *)
Class Executor (EX Fut : Type) := {
  ex_execute_model : SchedulerOutput -> M EX Fut;
  ex_result : Fut -> M EX (option ModelRunnerOutput);
  ex_sample_tokens : option (list string * option (list bytes)) -> M EX ModelRunnerOutput;
  ex_sample_tokens_non_block : option (list string * option (list bytes)) -> M EX Fut;
  ex_take_draft_token_ids : M EX (option (list (string * list Z)));
  ex_reset_mm_cache : M EX unit;
  ex_reset_encoder_cache : M EX unit
}.

(** [pooling_supported]: the task of the parameters is among those of the model. *)
Record EngineConfig := mkEngineConfig {
  check_for_draft_tokens : bool;
  batch_queue_size : Z;
  is_ec_consumer : bool;
  is_pooling_model : bool;
  use_dspark_confidence_schedule : bool;
  pooling_supported : PoolingParams -> bool
}.

Inductive PauseMode := MODE_ABORT | MODE_WAIT | MODE_KEEP.
Inductive EngineShutdownState := SHUTDOWN_RUNNING | SHUTDOWN_REQUESTED | SHUTTING_DOWN.

Section engine.
Context {KV EC GM EX Fut : Type} `{!SlotManager KV} `{!EncoderManager EC} `{!GrammarManager GM} `{!Executor EX Fut}.
Context (cfg : SchedulerConfig) (ecfg : EngineConfig) (h : option hasher).
(** The order in which a set of ids is iterated. *)
Context (key_order : gset string -> list string).
#[local] Notation State := (SchedulerState.Scheduler KV EC).
#[local] Notation Engine := (State * GM)%type.

(** The engine; the batch queue has the newest batch in front. *)
Record EngineCore := mkEngine {
  engine : Engine;
  model_executor : EX;
  aborts_queue : list (list string);
  batch_queue : list (Fut * SchedulerOutput * Fut)
}.

Definition set_engine (v : Engine) (c : EngineCore) : EngineCore := mkEngine v (model_executor c) (aborts_queue c) (batch_queue c).
Definition set_model_executor (v : EX) (c : EngineCore) : EngineCore := mkEngine (engine c) v (aborts_queue c) (batch_queue c).
Definition set_aborts_queue (v : list (list string)) (c : EngineCore) : EngineCore :=
  mkEngine (engine c) (model_executor c) v (batch_queue c).
Definition set_batch_queue (v : list (Fut * SchedulerOutput * Fut)) (c : EngineCore) : EngineCore :=
  mkEngine (engine c) (model_executor c) (aborts_queue c) v.

Definition on_engine {A} (op : M Engine A) : M EngineCore A := zoom engine set_engine op.
Definition on_sched {A} (op : M State A) : M EngineCore A := on_engine (on_scheduler op).
Definition on_executor {A} (op : M EX A) : M EngineCore A := zoom model_executor set_model_executor op.

(** ** Requests *)

Definition abort_requests (request_ids : list string) : M EngineCore unit :=
  _ ← on_sched (finish_requests (key_order (list_to_set request_ids)) FINISHED_ABORTED); mret tt.

Definition engine_add_request (r : Z) : M EngineCore unit :=
  request ← on_sched (obj r);
  (match pooling_params request with
   | Some pp => if pooling_supported ecfg pp then mret tt else raise ValueError
   | None => mret tt
   end) ;;
  on_sched (scheduler_add_request h r) ;;
  if abort_immediately request then abort_requests [request_id request] else mret tt.

(** Everything in the queue is aborted at once. *)
Definition process_aborts_queue : M EngineCore unit :=
  c ← get;
  match aborts_queue c with
  | [] => mret tt
  | l => modify (set_aborts_queue []) ;; abort_requests (mjoin l)
  end.

(** ** One step after the other *)

(** The model runs while the grammars prepare the masks for sampling. *)
Definition run_model (scheduler_output : SchedulerOutput) : M EngineCore ModelRunnerOutput :=
  future ← on_executor (ex_execute_model scheduler_output);
  grammar_output ← on_engine (get_grammar_bitmask scheduler_output);
  result ← on_executor (ex_result future);
  match result with
  | Some model_output => mret model_output
  | None => on_executor (ex_sample_tokens grammar_output)
  end.

(** [grammar_ready]: whose grammars are compiled by now. *)
Definition step (grammar_ready : Z -> bool) : M EngineCore (gmap Z EngineCoreOutputs * bool) :=
  c ← get;
  if negb (has_requests (engine c).1) then mret (∅, false)
  else
    scheduler_output ← on_sched (schedule cfg grammar_ready);
    model_output ← run_model scheduler_output;
    process_aborts_queue ;;
    outputs ← on_engine (update_from_output cfg h (use_dspark_confidence_schedule ecfg) scheduler_output model_output);
    mret (outputs.1, 0 <? total_num_scheduled_tokens scheduler_output).

Definition post_step (model_executed : bool) : M EngineCore unit :=
  if check_for_draft_tokens ecfg && negb (async_scheduling cfg) && model_executed then
    drafts ← on_executor ex_take_draft_token_ids;
    match drafts with Some drafts => on_engine (update_draft_token_ids drafts) | None => mret tt end
  else mret tt.

(** ** Batches in flight *)

(** [deque(maxlen=...)]: what does not fit falls out at the other end. *)
Definition appendleft (x : Fut * SchedulerOutput * Fut) : M EngineCore unit :=
  modify (fun c => set_batch_queue (take (Z.to_nat (batch_queue_size ecfg)) (x :: batch_queue c)) c).

(** [batch_queue.pop()] *)
Definition pop_batch : M EngineCore (Fut * SchedulerOutput * Fut) :=
  c ← get;
  match last (batch_queue c) with
  | None => raise IndexError
  | Some x => modify (set_batch_queue (removelast (batch_queue c))) ;; mret x
  end.

(** A new batch: [None] to return without output; else whether the model
    executes, and the batch whose sampling waits for the tokens of the one before. *)
Definition schedule_batch (grammar_ready : Z -> bool) : M EngineCore (bool * option (option (SchedulerOutput * Fut))) :=
  c ← get;
  if has_requests (engine c).1 then
    scheduler_output ← on_sched (schedule cfg grammar_ready);
    exec_future ← on_executor (ex_execute_model scheduler_output);
    let model_executed := is_ec_consumer ecfg && (0 <? total_num_scheduled_tokens scheduler_output) in
    let queue future :=
      appendleft (future, scheduler_output, exec_future) ;;
      c ← get;
      if (zlen (batch_queue c) <? batch_queue_size ecfg) && (model_executed || has_requests (engine c).1)
      then mret (model_executed, None) else mret (model_executed, Some None) in
    if is_pooling_model ecfg || negb model_executed then queue exec_future
    else if pending_structured_output_tokens scheduler_output then mret (model_executed, Some (Some (scheduler_output, exec_future)))
    else
      grammar_output ← on_engine (get_grammar_bitmask scheduler_output);
      future ← on_executor (ex_sample_tokens_non_block grammar_output);
      queue future
  else match batch_queue c with
       | [] => mret (false, None)
       | _ => mret (false, Some None)
       end.

(** The oldest batch is waited for and its output taken in. *)
Definition finish_batch : M EngineCore (gmap Z EngineCoreOutputs) :=
  batch ← pop_batch;
  let '(future, scheduler_output, exec_model_fut) := batch in
  result ← on_executor (ex_result future);
  model_output ← (match result with
                  | Some model_output => mret model_output
                  | None => _ ← on_executor (ex_result exec_model_fut); raise RuntimeError
                  end);
  process_aborts_queue ;;
  outputs ← on_engine (update_from_output cfg h (use_dspark_confidence_schedule ecfg) scheduler_output model_output);
  mret outputs.1.

(** The deferred batch is sampled, with the drafts its grammar accepts. *)
Definition sample_deferred (scheduler_output : SchedulerOutput) (exec_future : Fut) : M EngineCore unit :=
  scheduler_output ← (if check_for_draft_tokens ecfg then
                        drafts ← on_executor ex_take_draft_token_ids;
                        match drafts with
                        | Some drafts => on_engine (update_draft_token_ids_in_output drafts scheduler_output)
                        | None => mret scheduler_output
                        end
                      else mret scheduler_output);
  grammar_output ← on_engine (get_grammar_bitmask scheduler_output);
  future ← on_executor (ex_sample_tokens_non_block grammar_output);
  appendleft (future, scheduler_output, exec_future).

Definition step_with_batch_queue (grammar_ready : Z -> bool)
    : M EngineCore (option (gmap Z EngineCoreOutputs) * bool) :=
  c ← get;
  assert_ (zlen (batch_queue c) <? batch_queue_size ecfg) ;;
  b ← schedule_batch grammar_ready;
  match b.2 with
  | None => mret (None, b.1)
  | Some deferred =>
      outputs ← finish_batch;
      (match deferred with Some d => sample_deferred d.1 d.2 | None => mret tt end) ;;
      mret (Some outputs, b.1)
  end.

(** ** Caches and pausing *)

Definition engine_reset_prefix_cache (reset_running_requests : bool) : M EngineCore bool :=
  on_sched (scheduler_reset_prefix_cache reset_running_requests).
Definition engine_reset_encoder_cache : M EngineCore unit :=
  on_sched reset_encoder_cache ;; on_executor ex_reset_encoder_cache.
Definition reset_caches (reset_running_requests : bool) : M EngineCore unit :=
  _ ← engine_reset_prefix_cache reset_running_requests;
  on_executor ex_reset_mm_cache ;;
  engine_reset_encoder_cache.

Definition set_engine_pause_state (v : PauseState) : M EngineCore unit := on_sched (modify (set_pause_state v)).
Definition pause_state_of (mode : PauseMode) : PauseState := match mode with MODE_KEEP => PAUSED_ALL | _ => PAUSED_NEW end.

Definition pause_scheduler (mode : PauseMode) (clear_cache : bool) : M EngineCore unit :=
  (match mode with MODE_WAIT => raise ValueError | _ => mret tt end) ;;
  (match mode with
   | MODE_ABORT => _ ← on_sched (finish_all key_order FINISHED_ABORTED); mret tt
   | _ => mret tt
   end) ;;
  set_engine_pause_state (pause_state_of mode) ;;
  if clear_cache then reset_caches true else mret tt.

Definition resume_scheduler : M EngineCore unit := set_engine_pause_state UNPAUSED.
Definition is_scheduler_paused (c : EngineCore) : bool := negb (bool_decide (pause_state (engine c).1 = UNPAUSED)).
End engine.
End EngineCore.
