(* ===== verification/EngineSafety.v ===== *)
(** * EngineSafety

    The engine never fails: from a state between steps every operation of the
    engine returns, and leads to a state between steps again. For the synchronous
    scheduler with one sampled token a step and without sessions, as in
    [UpdateSafety]. *)

From S2P Require Import Prelude Request OrderedDict RequestQueue StopCheck EncoderCache KVCacheManager SchedulerState EncoderScheduling Scheduler SchedulerSafety Lifecycle LifecycleSafety OutputUpdate UpdateSafety EngineCore.

Module EngineSafety.
Import EncoderCache Request OrderedDict RequestQueue StopCheck KVCacheManager SchedulerState EncoderScheduling Scheduler SchedulerSafety Lifecycle LifecycleSafety OutputUpdate UpdateSafety EngineCore.
#[local] Open Scope Z_scope.

Section engine.
Context {KV : Type} {SM : SlotManager KV} (cfg : SchedulerConfig) {SC : SlotContract cfg KV} (C : config_ok cfg).
Context {GM : Type} {GI : GrammarManager GM} {GC : GrammarContract GM}.
Context (order : gset Z -> list Z) (Horder : forall s i, i ∈ order s <-> i ∈ s).
Context (sz : string -> Z) (Hsz : forall h, 0 <= sz h).
Context (h : option hasher) (Hh : hasher_calm h).
Context (Hsync : async_scheduling cfg = false) (Hone : num_sampled_tokens_per_step cfg = 1).
#[local] Notation EC := EncoderCache.EncoderCacheManager.
#[local] Instance ecm_engine : EncoderManager EC := ecm order.
#[local] Notation State := (SchedulerState.Scheduler KV EC).
#[local] Notation Engine := (State * GM)%type.
#[local] Notation sched_ok := (sched_ok cfg sz).
#[local] Notation sampling_ok := (sampling_ok cfg).

(** ** Between steps, and while a step runs *)

Definition engine_ok (p : Engine) : Prop := exists R W K S,
  sched_ok p.1 R W K S /\ grammars_rep p.2 /\ (forall r, r ∈ R ++ W ++ K -> sampling_ok (objs p.1 r)) /\
  forall r, r ∈ R -> num_computed_tokens (objs p.1 r) <= num_tokens (objs p.1 r).

(** The step [o] is under way: its requests that still exist are running. *)
Definition pending_ok (o : SchedulerOutput) (p : Engine) : Prop := exists R W K S,
  sched_ok p.1 R W K S /\ grammars_rep p.2 /\ (forall r, r ∈ R ++ W ++ K -> sampling_ok (objs p.1 r)) /\
  NoDup (out_num_scheduled_tokens o).*1 /\
  (forall id n, (id, n) ∈ out_num_scheduled_tokens o -> 0 < n /\ forall r, requests p.1 !! id = Some r ->
    r ∈ R /\ draft_ok (objs p.1 r) 0 (drafts_of_output o id)) /\
  (forall r, r ∈ R -> request_id (objs p.1 r) ∉ (out_num_scheduled_tokens o).*1 ->
    num_computed_tokens (objs p.1 r) <= num_tokens (objs p.1 r)).

(** The runner's output answers the step for the requests that still exist. *)
Definition runner_answers (o : SchedulerOutput) (mo : ModelRunnerOutput) (s : State) : Prop :=
  exists toks pooled, forall id n r, (id, n) ∈ out_num_scheduled_tokens o -> requests s !! id = Some r ->
    answered mo id (objs s r) (drafts_of_output o id) (toks id) (pooled id).

Lemma static_sampling q q' : static q' = static q -> sampling_ok q -> sampling_ok q'.
Proof.
  unfold static. intros [= E1 E2 E3 E4 E5 E6 E7 E8 E9 E10 E11] [S1 S2 S3]. constructor; [|by rewrite E10, E9, E6|congruence].
  unfold num_tokens, num_output_tokens in *. congruence.
Qed.

Lemma schedule_pending gr p : engine_ok p ->
  wp (on_scheduler (GM:=GM) (schedule cfg gr)) (fun o p' => pending_ok o p') p.
Proof.
  intros (R & W & K & S & I & Hg & Hs & Hc). assert (Hord : forall s i, i ∈ order s -> i ∈ s) by (intros ? ? ?; by apply Horder).
  destruct (schedule_step cfg order sz gr p.1 R W K S C Hord Hsz I) as (o & s' & R' & W' & K' & S' & Hrun & D).
  { intros r Hr. specialize (Hc r Hr). destruct (sk_run _ _ _ _ _ _ _ I r Hr) as (_ & [Hp _] & _).
    unfold caught, num_tokens_with_spec, num_tokens in *. lia. }
  change (schedule cfg gr p.1 = (Ok o, s')) in Hrun. apply wp_zoom. unfold wp. rewrite Hrun. cbn [fst snd]. destruct D as [D1 D2 D3 D4 D5 _ _ _ D9 D10 D11].
  assert (Hst : forall r, request_id (objs s' r) = request_id (objs p.1 r)) by (intros r; by destruct (static_eq _ _ (D3 r)) as (-> & _)).
  assert (Hn : forall r, num_tokens (objs s' r) = num_tokens (objs p.1 r)).
  { intros r. destruct (static_eq _ _ (D3 r)) as (_ & _ & _ & _ & E & _). unfold num_tokens. by rewrite E. }
  exists R', W', K', S'. cbn [fst snd]. split; [done|]. split; [done|]. split.
  { intros r. rewrite D2. intros Hr. eapply static_sampling; [apply D3|auto]. }
  split; [done|]. split.
  - intros id n Hin. destruct (D5 id n Hin) as (Hn0 & r & Hr & Eid). split; [done|]. intros r' Hr'.
    assert (E : requests s' !! id = Some r).
    { apply (sk_requests _ _ _ _ _ _ _ D1). split; [set_solver|]. by rewrite Hst. }
    assert (r' = r) as -> by congruence. split; [done|]. specialize (D11 Hsync r Hr). rewrite Eid in D11. apply D11.
    apply list_elem_of_fmap. by exists (id, n).
  - intros r Hr Hid. rewrite Hst in Hid. assert (HrR : r ∈ R).
    { destruct (decide (r ∈ R)); [done|]. by destruct Hid; apply D10. }
    rewrite D9, Hn, (proj2 (od_get_none _ _) Hid) by done. simpl. specialize (Hc r HrR). lia.
Qed.

(** Finishing requests, also during a step. *)
Lemma finish_pending o ids st p : pending_ok o p -> NoDup ids -> is_finished st = true ->
  wp (on_scheduler (GM:=GM) (finish_requests ids st)) (fun _ p' => pending_ok o p' /\
    forall mo, runner_answers o mo p.1 -> runner_answers o mo p'.1) p.
Proof.
  intros (R & W & K & S & I & Hg & Hs & Hnd & Hin & Hc) Hids Hst. apply wp_zoom.
  eapply wp_mono; [by apply (finish_requests_ok cfg C order Horder sz Hsz p.1 R W K S ids st I)|].
  intros _ s' (_ & _ & R' & W' & K' & S' & [L1 L2 L3 L4 _]). cbn [fst snd].
  assert (Hsub : forall r, r ∈ R' ++ W' ++ K' -> r ∈ R ++ W ++ K).
  { intros r. rewrite !(elem_of_app R'), !(elem_of_app R), L2, L3. tauto. }
  assert (Hreq : forall id r, requests s' !! id = Some r -> r ∈ R' ++ W' ++ K' /\ requests p.1 !! id = Some r).
  { intros id r [Hr E]%(sk_requests _ _ _ _ _ _ _ L1). split; [done|]. apply (sk_requests _ _ _ _ _ _ _ I).
    rewrite L4 in E by done. split; [by apply Hsub|done]. }
  split.
  - exists R', W', K', S'. cbn [fst snd]. split; [done|]. split; [done|]. split; [|split; [done|split]].
    + intros r Hr. rewrite L4 by done. apply Hs. by apply Hsub.
    + intros id n H. destruct (Hin id n H) as [Hn Hall]. split; [done|]. intros r [Hr E]%Hreq. rewrite L4 by done.
      destruct (Hall r E) as [HrR Hd]. split; [|done]. apply elem_of_app in Hr as [?|Hr]; [done|].
      apply L3 in Hr as [Hr _]. pose proof (sk_nodup _ _ _ _ _ _ _ I) as Hnd'. apply list.NoDup_app in Hnd' as (_ & Hd' & _).
      by destruct (Hd' r HrR).
    + intros r Hr. rewrite L4 by set_solver. apply Hc. by apply L2.
  - intros mo (toks & pooled & Ha). exists toks, pooled. intros id n r Hn [Hr E]%Hreq. rewrite L4 by done. by eapply Ha.
Qed.

Lemma update_engine dspark o mo p : pending_ok o p -> runner_answers o mo p.1 ->
  wp (update_from_output cfg h dspark o mo) (fun _ p' => engine_ok p') p.
Proof.
  intros (R & W & K & S & I & Hg & Hs & Hnd & Hin & Hc) (toks & pooled & Ha). destruct p as [s g]. cbn [fst snd] in *.
  assert (Hans : answers_step cfg s R o mo toks pooled).
  { split; [done|]. intros id n H. destruct (Hin id n H) as [Hn Hall]. split; [done|]. intros r E. destruct (Hall r E) as [Hr Hd].
    split; [done|]. split; [apply Hs; set_solver|]. split; [done|]. by eapply Ha. }
  eapply wp_mono; [apply (update_step cfg C order Horder sz Hsz h Hh dspark Hsync Hone s R W K S o mo toks pooled g I Hg Hans)|].
  intros res p' (Hg' & R' & S' & [U1 U2 U3 U4 _ _]). exists R', W, K, S'. split; [done|]. split; [done|].
  assert (Hdone : forall r, r ∈ R' -> settled cfg (objs p'.1 r)).
  { intros r Hr. specialize (U2 r Hr). destruct (decide (request_id (objs s r) ∈ (out_num_scheduled_tokens o).*1)) as [Hk|Hk].
    - destruct (U4 r U2 Hk) as (kept & stopped & _ & Hst & Hset). apply Hset. destruct stopped; [|done]. by apply Hst in Hr.
    - rewrite (proj1 (U3 r (or_intror Hk))). split; [by apply Hc|]. apply Hs. set_solver. }
  split.
  - intros r Hr. apply elem_of_app in Hr as [Hr|Hr]; [by apply Hdone|]. assert (HrR : r ∉ R).
    { intros HrR. pose proof (sk_nodup _ _ _ _ _ _ _ I) as Hn. apply list.NoDup_app in Hn as (_ & Hd & _). by apply (Hd r). }
    rewrite (proj1 (U3 r (or_introl HrR))). apply Hs. set_solver.
  - intros r Hr. by apply Hdone.
Qed.

(** Between steps is as during a step that schedules nothing. *)
Definition idle_step : SchedulerOutput := mkOutput [] empty_cached_data [] 0 [] [] [] ∅ [] ∅ false false None None.

Lemma engine_idle p : engine_ok p <-> pending_ok idle_step p.
Proof.
  split.
  - intros (R & W & K & S & I & Hg & Hs & Hc). exists R, W, K, S. do 3 (split; [done|]). split; [constructor|].
    split; [by intros id n ?%elem_of_nil|]. intros r Hr _. by apply Hc.
  - intros (R & W & K & S & I & Hg & Hs & _ & _ & Hc). exists R, W, K, S. do 3 (split; [done|]).
    intros r Hr. apply Hc; [done|]. apply not_elem_of_nil.
Qed.

Lemma finish_engine ids st p : engine_ok p -> NoDup ids -> is_finished st = true ->
  wp (on_scheduler (GM:=GM) (finish_requests ids st)) (fun _ p' => engine_ok p') p.
Proof.
  intros I%engine_idle Hids Hst. eapply wp_mono; [by apply (finish_pending idle_step)|]. intros _ p' [I' _]. by apply engine_idle.
Qed.

(** ** Drafts *)

Lemma sched_spec s R W K S r ids :
  sched_ok s R W K S -> sched_ok (set_objs (<[r := set_spec_token_ids ids (objs s r)]> (objs s)) s) R W K S.
Proof.
  intros [H1 H2 H3 H4 H5 H6 H7 H8 H9 H10 H11 H12 H13 H14 H15].
  assert (Hx : forall x, exists l, (<[r := set_spec_token_ids ids (objs s r)]> (objs s)) x = set_spec_token_ids l (objs s x)).
  { intros x. destruct (decide (x = r)) as [->|]; [rewrite fn_lookup_insert; by eexists|].
    rewrite fn_lookup_insert_ne by done. exists (spec_token_ids (objs s x)). by destruct (objs s x). }
  constructor; try done; cbn [objs set_objs].
  - intros id x. destruct (Hx x) as [l ->]. apply H2.
  - intros x Hr. destruct (Hx x) as [l ->]. by destruct (H3 x Hr); constructor.
  - eapply serves_rank; [|exact H6]. intros x _. by destruct (Hx x) as [l ->].
  - eapply serves_rank; [|exact H7]. intros x _. by destruct (Hx x) as [l ->].
  - intros x Hr. destruct (Hx x) as [l ->]. by apply H8.
  - intros x Hr. destruct (Hx x) as [l ->]. by apply H9.
  - intros id Hid. destruct (H11 id Hid) as (x & Hr & E). exists x. by destruct (Hx x) as [l ->].
  - intros id i Hi. destruct (H13 id i Hi) as (x & Hr & E). exists x. by destruct (Hx x) as [l ->].
  - intros x Hr. destruct (Hx x) as [l ->]. by apply H14.
  - intros x Hr. destruct (Hx x) as [l ->]. by apply H15.
Qed.

Lemma spec_engine r ids p : engine_ok p ->
  wp (on_scheduler (GM:=GM) (update_obj r (set_spec_token_ids ids))) (fun _ p' => engine_ok p') p.
Proof.
  intros (R & W & K & S & I & Hg & Hs & Hc). apply wp_zoom, wp_modify. exists R, W, K, S. cbn [fst snd objs set_objs].
  split; [by apply sched_spec|]. split; [done|].
  assert (Hx : forall x, exists l, (<[r := set_spec_token_ids ids (objs p.1 r)]> (objs p.1)) x = set_spec_token_ids l (objs p.1 x)).
  { intros x. destruct (decide (x = r)) as [->|]; [rewrite fn_lookup_insert; by eexists|].
    rewrite fn_lookup_insert_ne by done. exists (spec_token_ids (objs p.1 x)). by destruct (objs p.1 x). }
  split; intros x Hr; destruct (Hx x) as [l ->]; [by destruct (Hs x Hr); constructor|by apply Hc].
Qed.

Lemma engine_grammar p g : engine_ok p -> grammars_rep g -> engine_ok (p.1, g).
Proof. intros (R & W & K & S & I & Hg & Hs & Hc) Hg'. by exists R, W, K, S. Qed.

(** Drafts are validated where the grammar of the request advances. *)
Lemma validate_ok e q drafts p : engine_ok p ->
  wp (validate_drafts e q drafts) (fun ids p' => ids `prefix_of` drafts /\ p'.1 = p.1 /\ engine_ok p') p.
Proof.
  intros I. assert (Hg : grammars_rep p.2) by (by destruct I as (R & W & K & S & _ & Hg & _)).
  unfold validate_drafts. apply wp_bind, wp_zoom. eapply wp_mono; [by apply grammars_should_advance|].
  intros b g1 [Hg1 Hb]. destruct b; [|apply wp_ret; split; [done|]; split; [done|by apply engine_grammar]].
  specialize (Hb eq_refl). apply andb_true_iff in Hb as [_ Hb]. apply wp_bind, wp_get, wp_bind. cbn [snd]. rewrite Hb. apply wp_ret.
  apply wp_zoom. eapply wp_mono; [by apply grammars_validate|]. intros l g2 [Hl Hg2]. cbn [fst snd].
  split; [done|]. split; [done|by apply engine_grammar].
Qed.

Lemma update_drafts_engine drafts p : engine_ok p ->
  wp (update_draft_token_ids drafts) (fun _ p' => engine_ok p') p.
Proof.
  intros I. unfold update_draft_token_ids. apply (wp_for_each (fun _ _ p' => engine_ok p')); [done|].
  intros l1 [id ids] l2 p1 _ I1. apply wp_bind, wp_zoom. unfold live_request. apply wp_bind, wp_get, wp_ret. cbn [fst snd].
  replace (p1.1, p1.2) with p1 by (by destruct p1).
  destruct (requests p1.1 !! id ≫= _) as [r|]; [|by apply wp_ret].
  apply wp_bind, wp_zoom, wp_obj'. replace (p1.1, p1.2) with p1 by (by destruct p1).
  destruct (is_prefill_chunk _); [by apply spec_engine|]. apply wp_bind. eapply wp_mono; [by apply validate_ok|].
  intros l p2 (_ & _ & I2). by apply spec_engine.
Qed.

(** ** Adding, pausing and resetting *)

(** A request the engine takes: its reference and its id are new. *)
Record takes (p : Engine) (r : Z) (q : Request) : Prop := {
  ta_fresh : forall id, requests p.1 !! id <> Some r;
  ta_id : requests p.1 !! request_id q = None;
  ta_new : new_ok cfg sz q;
  ta_sampling : sampling_ok q
}.

Lemma add_engine p r q : engine_ok p -> takes p r q ->
  wp (on_scheduler (GM:=GM) (scheduler_add_request h r)) (fun _ p' => engine_ok p' /\ objs p'.1 r = q)
    (set_objs (<[r := q]> (objs p.1)) p.1, p.2).
Proof.
  intros (R & W & K & S & I & Hg & Hs & Hc) [T1 T2 T3 T4]. apply wp_zoom. cbn [fst snd].
  assert (Hr : r ∉ R ++ W ++ K).
  { intros Hr. apply (T1 (request_id (objs p.1 r))). by apply (sk_requests _ _ _ _ _ _ _ I). }
  assert (E : <[r := q]> (objs p.1) r = q) by apply fn_lookup_insert.
  eapply wp_mono; [apply (add_request_ok cfg order sz h _ R W K S r (sched_fresh cfg sz _ R W K S r q I Hr) Hr)|].
  - cbn [objs requests set_objs]. by rewrite E.
  - cbn [objs set_objs]. by rewrite E.
  - intros _ s' (W' & K' & I' & HP & Eo). cbn [fst snd]. rewrite Eo. cbn [objs set_objs]. split; [|done].
    assert (Ho : forall x, x ∈ R ++ W ++ K -> (<[r := q]> (objs p.1)) x = objs p.1 x).
    { intros x Hx. apply fn_lookup_insert_ne. by intros ->. }
    exists R, W', K', S. cbn [fst snd]. rewrite Eo. cbn [objs set_objs]. split; [done|]. split; [done|]. split.
    + intros x. rewrite elem_of_app, HP, elem_of_cons. intros [Hx|[->|Hx]]; [rewrite Ho by set_solver; apply Hs; set_solver|by rewrite E|].
      rewrite Ho by set_solver. apply Hs. set_solver.
    + intros x Hx. rewrite Ho by set_solver. by apply Hc.
Qed.

Lemma pause_engine v p : engine_ok p -> engine_ok (set_pause_state v p.1, p.2).
Proof. intros (R & W & K & S & I & Hg & Hs & Hc). exists R, W, K, S. split; [by destruct I; constructor|done]. Qed.

Lemma reset_prefix_engine b p : engine_ok p ->
  wp (on_scheduler (GM:=GM) (scheduler_reset_prefix_cache b)) (fun ok p' => engine_ok p' /\ (b = true -> ok = true)) p.
Proof.
  intros (R & W & K & S & I & Hg & Hs & Hc). apply wp_zoom.
  eapply wp_mono; [by apply (reset_prefix_cache_ok cfg C order Horder sz Hsz p.1 R W K S b I)|].
  intros ok s' (Hok & R' & W' & S' & I' & Hst & Hcase). split; [|done]. exists R', W', K, S'. cbn [fst snd].
  split; [done|]. split; [done|]. split.
  - intros r Hr. eapply static_sampling; [apply Hst|]. apply Hs. destruct b.
    + destruct Hcase as [-> HP]. rewrite elem_of_app, elem_of_app, HP in Hr. set_solver.
    + by destruct Hcase as (-> & -> & _).
  - destruct b; [destruct Hcase as [-> _]; set_solver|]. destruct Hcase as (-> & _ & _ & ->). done.
Qed.

Lemma reset_encoder_engine p : engine_ok p ->
  wp (on_scheduler (GM:=GM) reset_encoder_cache) (fun _ p' => engine_ok p') p.
Proof.
  intros (R & W & K & S & I & Hg & Hs & Hc). apply wp_zoom, wp_zoom, wp_modify. exists R, W, K, S. cbn [fst snd].
  split; [|done]. destruct I as [H1 H2 H3 H4 H5 H6 H7 H8 H9 H10 H11 H12 H13 H14 H15]. constructor; try done.
  - cbn [encoder_cache_manager set_encoder_cache_manager]. apply (reset_ok sz Hsz).
    pose proof (total_mono sz Hsz ∅ (cached (encoder_cache_manager p.1)) (map_empty_subseteq _)) as Ht.
    unfold total at 1 in Ht. rewrite map_to_list_empty in Ht. change (zsum _) with 0 in Ht at 1. destruct H12. lia.
Qed.

(** ** The operations of the engine *)

Section core.
Context {EX Fut : Type} {XI : Executor EX Fut} (ecfg : EngineConfig).
Context (key_order : gset string -> list string) (Hkeys : forall s, NoDup (key_order s)).
Context (Hreset : forall e, wp ex_reset_mm_cache (fun _ _ => True) e /\ wp ex_reset_encoder_cache (fun _ _ => True) e).
#[local] Notation Core := (@EngineCore KV EC GM EX Fut).

Lemma abort_pending o ids (c : Core) : pending_ok o (engine c) ->
  wp (abort_requests key_order ids) (fun _ c' => pending_ok o (engine c') /\
    forall mo, runner_answers o mo (engine c).1 -> runner_answers o mo (engine c').1) c.
Proof. intros I. apply wp_bind, wp_zoom. eapply wp_mono; [by apply (finish_pending o)|]. intros l p' H. by apply wp_ret. Qed.

Lemma process_aborts_ok o (c : Core) : pending_ok o (engine c) ->
  wp (process_aborts_queue key_order) (fun _ c' => pending_ok o (engine c') /\
    forall mo, runner_answers o mo (engine c).1 -> runner_answers o mo (engine c').1) c.
Proof.
  intros I. apply wp_bind, wp_get. destruct (aborts_queue c); [by apply wp_ret|]. apply wp_bind, wp_modify.
  by eapply wp_mono; [apply (abort_pending o)|].
Qed.

(** The runner's answer to the step [o]: it is there when the model has run, or it is
    there once the tokens are sampled, under whatever masks. *)
Definition executor_answers (o : SchedulerOutput) (s : State) (e : EX) : Prop :=
  wp (ex_execute_model o) (fun future e1 => wp (ex_result future) (fun result e2 =>
    match result with
    | Some mo => runner_answers o mo s
    | None => forall masks, wp (ex_sample_tokens masks) (fun mo _ => runner_answers o mo s) e2
    end) e1) e.

(** The grammars have masks for the structured requests of the step. *)
Definition grammars_answer (o : SchedulerOutput) (p : Engine) : Prop := forall ids,
  (forall id, id ∈ ids -> id ∈ (out_num_scheduled_tokens o).*1 /\ exists r, requests p.1 !! id = Some r /\ use_structured_output (objs p.1 r) = true) ->
  wp (gm_grammar_bitmask (fun id => objs p.1 <$> requests p.1 !! id) ids (out_spec_decode_tokens o)) (fun _ g' => grammars_rep g') p.2.

Lemma bitmask_ok o p : grammars_rep p.2 -> grammars_answer o p ->
  wp (get_grammar_bitmask o) (fun _ p' => p'.1 = p.1 /\ grammars_rep p'.2) p.
Proof.
  intros Hg Ha. unfold get_grammar_bitmask. destruct (negb _); [by apply wp_ret|]. apply wp_bind, wp_get.
  match goal with |- context [omap ?f ?l] => set (ids := omap f l) end.
  assert (Hids : forall id, id ∈ ids -> id ∈ (out_num_scheduled_tokens o).*1 /\ exists r, requests p.1 !! id = Some r /\ use_structured_output (objs p.1 r) = true).
  { intros id ([id' n] & Hin & E)%list_elem_of_omap. cbn in E. destruct (requests p.1 !! id') as [r|] eqn:Er; [|done]. cbn in E.
    destruct (use_structured_output _ && _) eqn:Eu; [|done]. injection E as <-. apply andb_true_iff in Eu as [Eu _].
    split; [by apply (list_elem_of_fmap_2 fst _ (id', n))|by exists r]. }
  destruct ids as [|id ids']; [by apply wp_ret|]. apply wp_bind, wp_zoom. eapply wp_mono; [by apply Ha|]. intros b g' Hg'. by apply wp_ret.
Qed.

(** The runner and the grammars answer the step. *)
Definition step_answered (o : SchedulerOutput) (c : Core) : Prop :=
  executor_answers o (engine c).1 (model_executor c) /\ grammars_answer o (engine c).

(** The model runs, the masks are prepared, and the output answers the step. *)
Lemma run_model_ok o (c : Core) : grammars_rep (engine c).2 -> step_answered o c ->
  wp (run_model o) (fun mo c' => (engine c').1 = (engine c).1 /\ grammars_rep (engine c').2 /\ runner_answers o mo (engine c).1) c.
Proof.
  intros Hg [He Hb]. unfold run_model. apply wp_bind, wp_zoom. eapply wp_mono; [exact He|]. intros future e1 H1. cbn beta in H1.
  apply wp_bind, wp_zoom. eapply wp_mono; [by apply bitmask_ok|]. intros masks p' [Ep Hg']. apply wp_bind, wp_zoom.
  eapply wp_mono; [exact H1|]. intros [mo|] e2 H2; [by apply wp_ret|]. apply wp_zoom. eapply wp_mono; [by apply H2|]. by intros mo e3 H3.
Qed.

Lemma step_ok gr (c : Core) : engine_ok (engine c) ->
  (forall o c', on_sched (schedule cfg gr) c = (Ok o, c') -> step_answered o c') ->
  wp (step cfg ecfg h key_order gr) (fun _ c' => engine_ok (engine c')) c.
Proof.
  intros I Ha. apply wp_bind, wp_get. destruct (has_requests _); [|by apply wp_ret]. cbn [negb].
  assert (Hs : wp (on_sched (schedule cfg gr)) (fun o c' => pending_ok o (engine c') /\ step_answered o c') c).
  { destruct (wp_returns (on_sched (schedule cfg gr)) (fun o c' => pending_ok o (engine c')) c) as (o & c' & E & Hp).
    - apply wp_zoom. eapply wp_mono; [by apply schedule_pending|]. done.
    - unfold wp. rewrite E. split; [done|]. by apply Ha. }
  apply wp_bind. eapply wp_mono; [exact Hs|]. intros o c1 [Hp Hm]. apply wp_bind.
  eapply wp_mono; [apply run_model_ok; [by destruct Hp as (? & ? & ? & ? & _ & Hg & _)|exact Hm]|].
  intros mo c2 (E & Hg & Hans). rewrite <- E in Hans. assert (Hp2 : pending_ok o (engine c2)).
  { destruct Hp as (R & W & K & S & J & _ & Hrest). exists R, W, K, S. by rewrite E. }
  apply wp_bind. eapply wp_mono; [by apply (process_aborts_ok o)|]. intros _ c3 [Hp3 Hans3].
  apply wp_bind, wp_zoom. eapply wp_mono; [apply update_engine; [exact Hp3|by apply Hans3]|]. intros res p' I'. by apply wp_ret.
Qed.

Lemma post_step_ok b (c : Core) : engine_ok (engine c) ->
  wp ex_take_draft_token_ids (fun _ _ => True) (model_executor c) ->
  wp (post_step cfg ecfg b) (fun _ c' => engine_ok (engine c')) c.
Proof.
  intros I He. unfold post_step. destruct (_ && _); [|by apply wp_ret]. apply wp_bind, wp_zoom.
  eapply wp_mono; [exact He|]. intros [drafts|] e _; [|by apply wp_ret]. apply wp_zoom.
  eapply wp_mono; [by apply update_drafts_engine|]. done.
Qed.

Lemma abort_ok ids (c : Core) : engine_ok (engine c) -> wp (abort_requests key_order ids) (fun _ c' => engine_ok (engine c')) c.
Proof.
  intros I%engine_idle. eapply wp_mono; [by apply (abort_pending idle_step)|]. intros _ c' [I' _]. by apply engine_idle.
Qed.

Lemma finish_all_engine st p : engine_ok p -> is_finished st = true ->
  wp (on_scheduler (GM:=GM) (finish_all key_order st)) (fun _ p' => engine_ok p') p.
Proof.
  intros I Hst. pose proof (finish_engine _ st p I (Hkeys (dom (requests p.1))) Hst) as Hf.
  apply wp_zoom, wp_bind, wp_get. unfold wp, on_scheduler, zoom in Hf |- *.
  by destruct (finish_requests (key_order (dom (requests p.1))) st p.1) as [[a|e] s1].
Qed.

Lemma reset_caches_ok (c : Core) : engine_ok (engine c) -> wp (reset_caches true) (fun _ c' => engine_ok (engine c')) c.
Proof.
  intros I. apply wp_bind, wp_zoom. eapply wp_mono; [by apply reset_prefix_engine|]. intros ok p' [I' _].
  apply wp_bind, wp_zoom. eapply wp_mono; [apply Hreset|]. intros _ e _. apply wp_bind, wp_zoom.
  eapply wp_mono; [by apply reset_encoder_engine|]. intros [] p2 I2. apply wp_zoom. eapply wp_mono; [apply Hreset|]. done.
Qed.

(** What is asked of the engine. *)
Inductive EngineOp :=
| AddRequest (r : Z) (q : Request)
| AbortRequests (ids : list string)
| QueueAborts (ids : list string)
| ResetPrefixCache (reset_running_requests : bool)
| ResetEncoderCache
| PauseScheduler (mode : PauseMode) (clear_cache : bool)
| ResumeScheduler
| Step (grammar_ready : Z -> bool)
| PostStep (model_executed : bool).

Definition run_op (op : EngineOp) : M Core unit :=
  match op with
  | AddRequest r q => on_sched (modify (fun s => set_objs (<[r := q]> (objs s)) s)) ;; engine_add_request ecfg h key_order r
  | AbortRequests ids => abort_requests key_order ids
  | QueueAborts ids => modify (fun c => set_aborts_queue (aborts_queue c ++ [ids]) c)
  | ResetPrefixCache b => _ ← engine_reset_prefix_cache b; mret tt
  | ResetEncoderCache => engine_reset_encoder_cache
  | PauseScheduler mode clear_cache => pause_scheduler key_order mode clear_cache
  | ResumeScheduler => resume_scheduler
  | Step gr => _ ← step cfg ecfg h key_order gr; mret tt
  | PostStep b => post_step cfg ecfg b
  end.

(** What the callers and the executor keep to. *)
Definition op_allowed (c : Core) (op : EngineOp) : Prop :=
  match op with
  | AddRequest r q => takes (engine c) r q /\ forall pp, pooling_params q = Some pp -> pooling_supported ecfg pp = true
  | PauseScheduler mode _ => mode <> MODE_WAIT
  | Step gr => forall o c', on_sched (schedule cfg gr) c = (Ok o, c') -> step_answered o c'
  | PostStep _ => wp ex_take_draft_token_ids (fun _ _ => True) (model_executor c)
  | _ => True
  end.

Lemma run_op_ok op (c : Core) : engine_ok (engine c) -> op_allowed c op -> wp (run_op op) (fun _ c' => engine_ok (engine c')) c.
Proof.
  intros I Ha. destruct op as [r q|ids|ids|b| |mode clear| |gr|b]; cbn [run_op op_allowed] in *.
  - destruct Ha as [Ht Hpp]. apply wp_bind, wp_zoom, wp_zoom, wp_modify. cbn [fst snd].
    apply wp_bind, wp_zoom, wp_zoom, wp_obj'. cbn [objs set_objs engine set_engine fst snd]. rewrite fn_lookup_insert.
    apply wp_bind. assert (Hadd : wp (on_sched (scheduler_add_request h r) ;; (if abort_immediately q then abort_requests key_order [request_id q] else mret tt))
      (fun _ c' => engine_ok (engine c')) (set_engine (set_objs (<[r := q]> (objs (engine c).1)) (engine c).1, (engine c).2) c)).
    { apply wp_bind, wp_zoom. eapply wp_mono; [by apply add_engine|]. intros _ p' [I' _].
      destruct (abort_immediately q); [by apply abort_ok|by apply wp_ret]. }
    destruct (pooling_params q) as [pp|]; [rewrite (Hpp pp eq_refl)|]; by apply wp_ret.
  - by apply abort_ok.
  - by apply wp_modify.
  - apply wp_bind, wp_zoom. eapply wp_mono; [by apply reset_prefix_engine|]. intros ok p' [I' _]. by apply wp_ret.
  - apply wp_bind, wp_zoom. eapply wp_mono; [by apply reset_encoder_engine|]. intros [] p' I'. apply wp_zoom.
    eapply wp_mono; [apply Hreset|]. done.
  - assert (Hend : forall c' : Core, engine_ok (engine c') ->
      wp (set_engine_pause_state (pause_state_of mode) ;; if clear then reset_caches true else mret tt) (fun _ c' => engine_ok (engine c')) c').
    { intros c' I'. apply wp_bind, wp_zoom, wp_zoom, wp_modify. destruct clear; [apply reset_caches_ok|apply wp_ret]; by apply pause_engine. }
    unfold pause_scheduler. destruct mode; [|done|]; apply wp_bind, wp_ret, wp_bind; [|by apply wp_ret, Hend].
    apply wp_bind, wp_zoom. eapply wp_mono; [by apply finish_all_engine|]. intros l p' I'. by apply wp_ret, Hend.
  - apply wp_zoom, wp_zoom, wp_modify. by apply pause_engine.
  - apply wp_bind. eapply wp_mono; [by apply step_ok|]. intros res c' I'. by apply wp_ret.
  - by apply post_step_ok.
Qed.

Inductive engine_reachable (c0 : Core) : Core -> Prop :=
| EngineStarts : engine_reachable c0 c0
| EngineRuns c op c' : engine_reachable c0 c -> op_allowed c op -> run_op op c = (Ok tt, c') -> engine_reachable c0 c'.

Lemma engine_reachable_ok c0 c : engine_ok (engine c0) -> engine_reachable c0 c -> engine_ok (engine c).
Proof. intros I0. induction 1 as [|c op c' _ IH Ha Hr]; [done|]. exact (wp_run _ (fun _ c' => engine_ok (engine c')) _ _ _ Hr (run_op_ok op c IH Ha)). Qed.

(** A new engine. *)
Lemma engine_init k g n objs0 fin :
  slots_rep k ∅ -> grammars_rep g -> 0 <= n -> 0 <= max_num_running_reqs cfg ->
  engine_ok (scheduler_init (policy cfg) objs0 fin k (ec_init n), g).
Proof.
  intros Hk Hg Hn Hmax. exists [], [], [], ∅. cbn [fst snd]. split; [|split; [done|split; by intros ? ?%elem_of_nil]].
  assert (Hq : serves objs0 (policy cfg) (create_request_queue (policy cfg)) []).
  { destruct (policy cfg); simpl; [done|]. split; [|split; [done|constructor]]. intros j x y _ _ Hx. by rewrite lookup_nil in Hx. }
  constructor; try done; simpl; try (by intros ? ?%elem_of_nil).
  - constructor.
  - intros id r. rewrite lookup_empty. by split; [|intros [?%elem_of_nil _]].
  - intros id [? E]. by rewrite lookup_empty in E.
  - by apply (reset_ok sz Hsz (ec_init n)).
Qed.

(** C1. The engine never fails. For the synchronous scheduler with one sampled token
    a step and without streaming sessions, over any KV cache manager and any grammars
    that keep their contracts: from a new engine, after
    any sequence of requests added and aborted, caches reset, scheduling paused
    and resumed, and steps run with aborts arriving while the model runs, every
    further operation returns without an exception, as long as added requests are
    new and fit the model, the executor returns when it is called, with an output
    that answers the step (from the model, or from sampling under whatever masks),
    and the grammars have masks for the structured requests of the step. The engine is
    then again between steps: every unfinished request is in exactly one of the
    running list and the two queues, running requests alone hold slots, for all
    tokens computed, and none has computed more tokens than it has. *)
Theorem engine_never_fails k g n objs0 fin e c op :
  slots_rep k ∅ -> grammars_rep g -> 0 <= n -> 0 <= max_num_running_reqs cfg ->
  engine_reachable (mkEngine (scheduler_init (policy cfg) objs0 fin k (ec_init n), g) e [] []) c -> op_allowed c op ->
  exists c', run_op op c = (Ok tt, c') /\ engine_ok (engine c').
Proof.
  intros Hk Hg Hn Hmax Hc Ha. assert (I : engine_ok (engine c)).
  { eapply engine_reachable_ok; [|exact Hc]. by apply engine_init. }
  destruct (wp_returns (run_op op) (fun _ c' => engine_ok (engine c')) c (run_op_ok op c I Ha)) as ([] & c' & E & I'). by exists c'.
Qed.
End core.
End engine.
End EngineSafety.
