(* ===== verification/BatchSafety.v ===== *)
(** * BatchSafety

    The queue of batches in flight: [step_with_batch_queue] keeps it within its
    size, loses no batch, and finishes them in the order in which they were
    scheduled. *)

From S2P Require Import Prelude Request SchedulerState Scheduler Lifecycle OutputUpdate EngineCore.

Module BatchSafety.
Import Request SchedulerState Scheduler Lifecycle OutputUpdate EngineCore.
#[local] Open Scope Z_scope.

Section batches.
Context {KV EC GM EX Fut : Type} `{!SlotManager KV} `{!EncoderManager EC} `{!GrammarManager GM} `{!Executor EX Fut}.
Context (cfg : SchedulerConfig) (ecfg : EngineConfig) (h : option hasher) (key_order : gset string -> list string).
#[local] Notation Core := (@EngineCore KV EC GM EX Fut).
#[local] Notation State := (SchedulerState.Scheduler KV EC).
#[local] Notation Engine := (State * GM)%type.
Implicit Types (c : Core).

(** Everything but the queue of batches. *)
Definition keeps_batches {A} (op : M Core A) : Prop :=
  forall c, wlp op (fun _ c' => batch_queue c' = batch_queue c) c.

Lemma keeps_use {A} (op : M Core A) (Q : A -> Core -> Prop) c :
  keeps_batches op -> (forall a c', op c = (Ok a, c') -> batch_queue c' = batch_queue c -> Q a c') -> wlp op Q c.
Proof.
  intros Hk HQ. specialize (Hk c). unfold wpx in *. destruct (op c) as [[a|e] c'] eqn:E; [|done]. by apply HQ.
Qed.

Lemma keeps_engine {A} (op : M Engine A) : keeps_batches (on_engine op).
Proof. intros c. unfold wpx, on_engine, zoom. by destruct (op (engine c)) as [[a|e] p]. Qed.
Lemma keeps_executor {A} (op : M EX A) : keeps_batches (on_executor op).
Proof. intros c. unfold wpx, on_executor, zoom. by destruct (op (model_executor c)) as [[a|e] p]. Qed.
Lemma engine_run {A} (op : M Engine A) a c c' : on_engine op c = (Ok a, c') -> exists p p', op p = (Ok a, p').
Proof. unfold on_engine, zoom. destruct (op (engine c)) as [[x|e] p] eqn:E; [|done]. intros [= <- _]. eauto. Qed.
Lemma executor_run {A} (op : M EX A) a c c' : on_executor op c = (Ok a, c') -> exists e e', op e = (Ok a, e').
Proof. unfold on_executor, zoom. destruct (op (model_executor c)) as [[x|e] p] eqn:E; [|done]. intros [= <- _]. eauto. Qed.
Lemma keeps_ret {A} (a : A) : keeps_batches (mret a).
Proof. done. Qed.
Lemma keeps_raise {A} e : keeps_batches (raise e : M Core A).
Proof. done. Qed.
Lemma batches_bind {A B} (op : M Core A) (k : A -> M Core B) :
  keeps_batches op -> (forall a, keeps_batches (k a)) -> keeps_batches (op ≫= k).
Proof.
  intros H1 H2 c. apply wpx_bind. eapply wpx_mono; [apply H1| |done]. intros a c' E. rewrite <- E. apply H2.
Qed.
Lemma keeps_aborts : keeps_batches (process_aborts_queue key_order).
Proof.
  intros c. apply wpx_bind, wpx_get. destruct (aborts_queue c) as [|ids l]; [done|]. apply wpx_bind, wpx_modify.
  apply (batches_bind _ _ (keeps_engine _) (fun _ => keeps_ret tt) (set_aborts_queue [] c)).
Qed.
#[local] Hint Resolve keeps_engine keeps_executor keeps_ret keeps_raise keeps_aborts : keeps.

(** The batch goes in at the front; there is room. *)
Lemma appendleft_ok x c (Q : unit -> Core -> Prop) :
  zlen (batch_queue c) < batch_queue_size ecfg ->
  (forall c', batch_queue c' = x :: batch_queue c -> Q tt c') -> wlp (appendleft ecfg x) Q c.
Proof.
  intros Hlen HQ. apply wpx_modify, HQ. cbn [batch_queue set_batch_queue]. rewrite firstn_all2; [done|]. simpl. lia.
Qed.

(** The future that the queue waits for: the model's own, or that of sampling. *)
Definition future_of (o : SchedulerOutput) (f future : Fut) : Prop :=
  if is_pooling_model ecfg || negb (is_ec_consumer ecfg && (0 <? total_num_scheduled_tokens o)) then future = f
  else exists masks e e', ex_sample_tokens_non_block masks e = (Ok future, e').

(** The step scheduled in [c], with its drafts once those are known. *)
Definition batch_of gr c (x : Fut * SchedulerOutput * Fut) : Prop :=
  exists o c1 c2, on_sched (schedule cfg gr) c = (Ok o, c1) /\ on_executor (ex_execute_model o) c1 = (Ok x.2, c2) /\
    future_of o x.2 x.1.1 /\
    (x.1.2 = o \/ pending_structured_output_tokens o = true /\ exists spec inv, x.1.2 = set_drafts spec inv o).

(** The deferred one of these. *)
Definition deferred_of gr c (x : SchedulerOutput * Fut) : Prop := pending_structured_output_tokens x.1 = true /\
  (is_pooling_model ecfg || negb (is_ec_consumer ecfg && (0 <? total_num_scheduled_tokens x.1))) = false /\
  exists c1 c2, on_sched (schedule cfg gr) c = (Ok x.1, c1) /\ on_executor (ex_execute_model x.1) c1 = (Ok x.2, c2).

(** Exactly what was scheduled is added to the queue. *)
Definition adds gr c (added : list (Fut * SchedulerOutput * Fut)) : Prop :=
  if has_requests (engine c).1 then exists x, added = [x] /\ batch_of gr c x else added = [].

(** A new batch is in the queue, or waits for its sampling, or there is none. *)
Definition batch_scheduled gr c (b : option (option (SchedulerOutput * Fut))) c' : Prop :=
  match b with
  | None => exists added, batch_queue c' = added ++ batch_queue c /\ adds gr c added /\ zlen (batch_queue c') < batch_queue_size ecfg
  | Some None => exists added, batch_queue c' = added ++ batch_queue c /\ adds gr c added
  | Some (Some x) => batch_queue c' = batch_queue c /\ has_requests (engine c).1 = true /\ deferred_of gr c x
  end.

Lemma schedule_batch_ok gr c :
  zlen (batch_queue c) < batch_queue_size ecfg ->
  wlp (schedule_batch cfg ecfg gr) (fun b c' => batch_scheduled gr c b.2 c') c.
Proof.
  intros Hlen. unfold schedule_batch, batch_scheduled, adds. apply wpx_bind, wpx_get. destruct (has_requests _) eqn:Er.
  2: { destruct (batch_queue c) as [|x q] eqn:E; apply wpx_ret; exists []; rewrite E; (split; [done|]); [|done]. by split. }
  apply wpx_bind, keeps_use; [apply keeps_engine|]. intros o c1 R1 E1. apply wpx_bind, keeps_use; [apply keeps_executor|]. intros f c2 R2 E2.
  cbv zeta. rewrite <- E1, <- E2 in *. destruct (_ || negb _) eqn:Ep.
  - apply wpx_bind, appendleft_ok; [done|]. intros c3 E3. assert (Hb : batch_of gr c (f, o, f)).
    { exists o, c1, c2. unfold future_of. rewrite Ep. auto. }
    apply wpx_bind, wpx_get. destruct (Z.ltb_spec (zlen (batch_queue c3)) (batch_queue_size ecfg)); cbn [andb].
    + destruct (_ || has_requests (engine c3).1); apply wpx_ret; cbn [snd]; exists [(f, o, f)]; eauto.
    + apply wpx_ret. cbn [snd]. exists [(f, o, f)]. eauto.
  - destruct (pending_structured_output_tokens o) eqn:Epend.
    { apply wpx_ret. split; [done|]. split; [done|]. split; [done|]. split; [done|]. by exists c1, c2. }
    apply wpx_bind, keeps_use; [apply keeps_engine|]. intros m c3 _ E3. apply wpx_bind, keeps_use; [apply keeps_executor|]. intros f' c4 R4 E4.
    assert (Hb : batch_of gr c (f', o, f)).
    { exists o, c1, c2. unfold future_of. rewrite Ep. split; [done|]. split; [done|]. split; [|by left]. exists m. by eapply executor_run. }
    rewrite <- E3, <- E4 in *. apply wpx_bind, appendleft_ok; [done|]. intros c5 E5.
    apply wpx_bind, wpx_get. destruct (Z.ltb_spec (zlen (batch_queue c5)) (batch_queue_size ecfg)); cbn [andb].
    + destruct (_ || has_requests (engine c5).1); apply wpx_ret; cbn [snd]; exists [(f', o, f)]; eauto.
    + apply wpx_ret. cbn [snd]. exists [(f', o, f)]. eauto.
Qed.

(** The outputs are those of the batch [b]: the runner's answer to it, taken in. *)
Definition outputs_of_batch (b : Fut * SchedulerOutput * Fut) (outs : gmap Z EngineCoreOutputs) : Prop :=
  exists mo e e' p p' ev, ex_result b.1.1 e = (Ok (Some mo), e') /\
    update_from_output cfg h (use_dspark_confidence_schedule ecfg) b.1.2 mo p = (Ok (outs, ev), p').

Lemma finish_batch_ok c :
  wlp (finish_batch cfg ecfg h key_order) (fun outs c' => exists b, batch_queue c' ++ [b] = batch_queue c /\ outputs_of_batch b outs) c.
Proof.
  unfold finish_batch, pop_batch. apply wpx_bind, wpx_bind, wpx_get.
  destruct (last (batch_queue c)) as [[[f o] ef]|] eqn:E; [|by apply wpx_raise]. apply wpx_bind, wpx_modify, wpx_ret.
  apply last_Some in E as [q Eq]. rewrite Eq, removelast_last.
  apply wpx_bind, keeps_use; [auto with keeps|]. intros res c1 R1 E1. destruct res as [mo|].
  2: { apply wpx_bind, wpx_bind, keeps_use; [auto with keeps|]. intros r c2 _ _. by apply wpx_raise. }
  apply wpx_bind, wpx_ret, wpx_bind, keeps_use; [auto with keeps|]. intros _ c2 _ E2.
  apply wpx_bind, keeps_use; [auto with keeps|]. intros [outs ev] c3 R3 E3. apply wpx_ret.
  exists (f, o, ef). rewrite E3, E2, E1. split; [done|].
  apply executor_run in R1 as (e & e' & R1). apply engine_run in R3 as (p & p' & R3). by exists mo, e, e', p, p', ev.
Qed.

Lemma drafts_in_output_set drafts o (p : Engine) :
  wlp (update_draft_token_ids_in_output drafts o) (fun o' _ => exists spec inv, o' = set_drafts spec inv o) p.
Proof.
  unfold update_draft_token_ids_in_output, wpx, mbind, M_bind. destruct (for_fold _ _ _ p) as [[acc|e] p']; [|done]. cbn. eauto.
Qed.

Lemma sample_deferred_ok gr c0 o f c :
  zlen (batch_queue c) < batch_queue_size ecfg -> deferred_of gr c0 (o, f) ->
  wlp (sample_deferred ecfg o f) (fun _ c' => exists x, batch_queue c' = x :: batch_queue c /\ batch_of gr c0 x) c.
Proof.
  intros Hlen (Hp & Hex & c1 & c2 & R1 & R2). unfold sample_deferred. apply wpx_bind.
  assert (Hd : wlp (if check_for_draft_tokens ecfg
      then drafts ← on_executor ex_take_draft_token_ids;
           match drafts with Some drafts => on_engine (update_draft_token_ids_in_output drafts o) | None => mret o end
      else mret o) (fun o' c' => batch_queue c' = batch_queue c /\ (o' = o \/ exists spec inv, o' = set_drafts spec inv o)) c).
  { destruct (check_for_draft_tokens ecfg); [|apply wpx_ret; auto]. apply wpx_bind, keeps_use; [auto with keeps|].
    intros [d|] c3 _ E3; [|apply wpx_ret; auto]. apply keeps_use; [auto with keeps|]. intros o' c4 R4 E4. split; [congruence|].
    apply engine_run in R4 as (p & p' & R4). right. exact (wpx_run _ _ _ _ _ _ R4 (drafts_in_output_set d o p)). }
  eapply wlp_mono; [exact Hd|]. intros o' c3 [E3 Ho].
  apply wpx_bind, keeps_use; [auto with keeps|]. intros m c4 _ E4.
  apply wpx_bind, keeps_use; [auto with keeps|]. intros f' c5 R5 E5.
  assert (E : batch_queue c5 = batch_queue c) by congruence. apply appendleft_ok; [by rewrite E|]. intros c6 E6. rewrite E in E6.
  exists (f', o', f). split; [done|]. exists o, c1, c2. split; [done|]. split; [done|]. split.
  - unfold future_of. cbn [fst snd] in *. rewrite Hex. exists m. by eapply executor_run.
  - destruct Ho as [->|Ho]; [by left|by right].
Qed.

(** A step of the queue: the batch that is scheduled goes in at the front, and the
    one that is finished is the last. *)
Record queue_step gr c (res : option (gmap Z EngineCoreOutputs)) (q' : list (Fut * SchedulerOutput * Fut)) : Prop := {
  qs_fifo : exists added popped, q' ++ popped = added ++ batch_queue c /\ adds gr c added /\
    match res with
    | Some outs => exists b, popped = [b] /\ outputs_of_batch b outs
    | None => popped = []
    end;
  qs_room : zlen q' < batch_queue_size ecfg
}.

Lemma adds_length gr c added : adds gr c added -> (length added <= 1)%nat.
Proof. unfold adds. destruct (has_requests _); [by intros (x & -> & _)|]. intros ->. simpl. lia. Qed.

Lemma batch_step_ok gr c : zlen (batch_queue c) < batch_queue_size ecfg ->
  wlp (step_with_batch_queue cfg ecfg h key_order gr) (fun res c' => queue_step gr c res.1 (batch_queue c')) c.
Proof.
  intros Hlen. unfold step_with_batch_queue. apply wpx_bind, wpx_get, wpx_bind, wlp_assert.
  intros _. apply wpx_bind. eapply wlp_mono; [by apply schedule_batch_ok|]. intros [ex [deferred|]] c1; cbn [fst snd].
  2: { intros (added & E & Ha & Hr). apply wpx_ret. constructor; [|done]. exists added, []. rewrite app_nil_r. done. }
  intros H1. apply wpx_bind. eapply wlp_mono; [apply finish_batch_ok|]. intros outs c2 (b & Eb & Hb).
  destruct deferred as [[o f]|].
  - destruct H1 as (E1 & Hreq & Hdef). rewrite E1 in Eb. assert (Hc2 : zlen (batch_queue c2) + 1 < batch_queue_size ecfg).
    { rewrite <- Eb, length_app in Hlen. simpl in Hlen. lia. }
    apply wpx_bind. eapply wlp_mono; [apply (sample_deferred_ok gr c); [lia|done]|]. intros _ c3 (x & E3 & Hx). apply wpx_ret.
    constructor; cbn [fst]; rewrite E3; [|simpl; lia].
    exists [x], [b]. rewrite <- Eb. split; [done|]. split; [unfold adds; rewrite Hreq; eauto|eauto].
  - destruct H1 as (added & E & Ha). apply wpx_bind, wpx_ret, wpx_ret. constructor; cbn [fst].
    + exists added, [b]. split; [congruence|]. eauto.
    + apply adds_length in Ha. rewrite E in Eb. apply (f_equal length) in Eb. rewrite !length_app in Eb. simpl in Eb. lia.
Qed.

(** C5. Batches in flight form a queue. When there is room in the queue, a step
    with the batch queue that returns leaves room again, so that its assertion
    never fails. If the engine has requests, the step that it schedules goes to the
    executor and in at the front of the queue, with the futures of its run and of its
    sampling, also when its sampling has to wait for the tokens of the batch before
    (then with the drafts found by then); otherwise nothing goes in. If the step
    returns outputs, they are those of the oldest batch, which alone is taken out;
    otherwise none is. So no batch is lost, and batches finish in the order in which
    they were scheduled. *)
Theorem batch_queue_fifo gr c res c' :
  zlen (batch_queue c) < batch_queue_size ecfg ->
  step_with_batch_queue cfg ecfg h key_order gr c = (Ok res, c') ->
  queue_step gr c res.1 (batch_queue c').
Proof. intros Hlen E. exact (wpx_run _ _ _ _ _ _ E (batch_step_ok gr c Hlen)). Qed.
End batches.
End BatchSafety.
