(* ===== verification/EngineWitness.v ===== *)
(** * EngineWitness

    The engine on a concrete input: a real KV cache manager, no grammars, and a
    runner that samples one token. *)

From S2P Require Import Prelude Request OrderedDict RequestQueue StopCheck BlockHash EncoderCache KVCacheManager SchedulerState EncoderScheduling Scheduler SchedulerSafety SlotSafety Lifecycle LifecycleSafety OutputUpdate UpdateSafety EngineCore EngineSafety BatchSafety DraftSafety.

Module EngineWitness.
Import EncoderCache Request OrderedDict RequestQueue StopCheck KVCacheManager SchedulerState EncoderScheduling Scheduler SchedulerSafety SlotSafety Lifecycle LifecycleSafety OutputUpdate UpdateSafety EngineCore EngineSafety BatchSafety DraftSafety.
#[local] Open Scope Z_scope.

(** No request has a grammar. *)
#[local] Instance no_grammars : GrammarManager unit := {|
  gm_should_advance _ := mret false;
  gm_trim_reasoning _ l := mret l;
  gm_has_grammar _ _ := false;
  gm_accept_tokens _ _ := mret true;
  gm_validate_tokens _ l := mret l;
  gm_grammar_bitmask _ _ _ := mret None
|}.
#[local] Instance no_grammars_contract : GrammarContract unit.
Proof. by refine {| grammars_rep := fun _ : unit => True |}. Defined.

(** An executor whose runner returns the given output. *)
#[local] Instance scripted : Executor ModelRunnerOutput unit := {|
  ex_execute_model _ := mret tt;
  ex_result _ := gets Some;
  ex_sample_tokens _ := get;
  ex_sample_tokens_non_block _ := mret tt;
  ex_take_draft_token_ids := mret None;
  ex_reset_mm_cache := mret tt;
  ex_reset_encoder_cache := mret tt
|}.

(** A prompt of 10 tokens that asks for 5 more, and the answer to its first step. *)
Definition generation : Request :=
  mkRequest "a" 0 0 1 (Some (mkSampling (Some 5) 0 None [] None None false)) None None false None None false false false 5 None 10 []
    WAITING None [] (replicate 10 7) 0 0 0 [] 0 false 0 0 None [] ∅.
Definition one_token : ModelRunnerOutput := mkRunnerOutput {["a" := 0]} [[5]] ∅ None None None.

Definition engine_config : EngineConfig := mkEngineConfig false 1 true false false (fun _ => true).
Definition witness_cfg : SchedulerConfig := sample_config FCFS.
#[local] Existing Instance kv_slot_manager.
#[local] Instance wit_slots : SlotManager KVCacheManager := kv_slot_manager false id.
#[local] Instance wit_encoder : EncoderManager EncoderCache.EncoderCacheManager := ec_encoder_manager elements.
#[local] Notation Core := (@EngineCore KVCacheManager EncoderCache.EncoderCacheManager unit ModelRunnerOutput unit).

Definition new_engine (k : KVCacheManager) : Core :=
  mkEngine (scheduler_init FCFS (fun _ => generation) false k (EncoderCache.ec_init 8), tt) one_token [] [].
Definition wit_op (op : EngineOp) : M Core unit :=
  run_op witness_cfg elements None engine_config elements op.
Definition with_request (k : KVCacheManager) : Core := (wit_op (AddRequest 1 generation) (new_engine k)).2.

(** What the first step schedules. *)
Definition first_step (c : Core) :=
  match on_sched (schedule witness_cfg (fun _ => true)) c with
  | (Ok o, c') => Some (out_num_scheduled_tokens o, out_spec_decode_tokens o, has_structured_output_requests o,
      model_executor c', map_to_list (requests (engine c').1),
      let q := objs (engine c').1 1 in (num_computed_tokens q, num_tokens q, pooling_params q))
  | _ => None
  end.

Lemma first_step_ok k : uncached_manager = Ok k ->
  first_step (with_request k) = Some ([("a", 10)], [], false, one_token, [("a", 1)], (10, 10, None)).
Proof. intros E. vm_compute in E. injection E as <-. vm_compute. reflexivity. Qed.

Lemma first_step_answers k o c' : uncached_manager = Ok k ->
  on_sched (schedule witness_cfg (fun _ => true)) (with_request k) = (Ok o, c') ->
  forall id n r, (id, n) ∈ out_num_scheduled_tokens o -> requests (engine c').1 !! id = Some r ->
    answered one_token id (objs (engine c').1 r) (drafts_of_output o id) [5] None.
Proof.
  intros Ek E id n r Hin Hr. pose proof (first_step_ok k Ek) as F. unfold first_step in F. rewrite E in F.
  injection F as F1 F2 F3 F4 F5 F6 F7 F8. rewrite F1 in Hin. apply list_elem_of_singleton in Hin as [= -> ->].
  assert (r = 1) as ->.
  { apply elem_of_map_to_list in Hr. rewrite F5 in Hr. by apply list_elem_of_singleton in Hr as [= ->]. }
  rewrite F2. constructor; [by exists 0| |done]. constructor; [lia|done|simpl; lia|]. rewrite F8. by intros [? ?].
Qed.

Lemma first_step_answered k o c' : uncached_manager = Ok k ->
  on_sched (schedule witness_cfg (fun _ => true)) (with_request k) = (Ok o, c') -> step_answered o c'.
Proof.
  intros Ek E. pose proof (first_step_answers k o c' Ek E) as Ha. pose proof (first_step_ok k Ek) as F. unfold first_step in F. rewrite E in F.
  injection F as F1 F2 F3 F4 F5 F6 F7 F8. split; [|by intros ids _].
  apply wp_ret, wp_gets. rewrite F4. exists (fun _ => [5]), (fun _ => None). exact Ha.
Qed.

Lemma generation_allowed k : op_allowed witness_cfg elements EncoderCache.sample_sizes engine_config (new_engine k) (AddRequest 1 generation).
Proof.
  split; [|discriminate]. constructor; [intros id; cbn; by rewrite lookup_empty|reflexivity| |].
  - constructor; [|by left|reflexivity|split; [vm_compute; discriminate|reflexivity]|vm_compute; discriminate|reflexivity].
    constructor; [reflexivity|vm_compute; discriminate|repeat constructor|].
    constructor; [constructor|]. intros i j f g _ Hf. discriminate Hf.
  - constructor; [reflexivity|vm_compute; discriminate|reflexivity].
Qed.

Lemma engine_never_fails_witness : exists k c', uncached_manager = Ok k /\
  wit_op (Step (fun _ => true)) (with_request k) = (Ok tt, c') /\
  engine_ok witness_cfg (SC := uncached_contract witness_cfg false id (Z.le_refl 0)) EncoderCache.sample_sizes (engine c').
Proof.
  destruct uncached_manager_ok as (k & E & U).
  destruct (engine_never_fails (SC := uncached_contract witness_cfg false id (Z.le_refl 0)) witness_cfg
    ltac:(constructor; [reflexivity|reflexivity|vm_compute; discriminate|vm_compute; discriminate|discriminate])
    elements ltac:(intros s i; apply elem_of_elements) EncoderCache.sample_sizes EncoderCache.sample_sizes_nonneg
    None ltac:(intros hf [=]) eq_refl eq_refl engine_config elements ltac:(intros s; apply NoDup_elements)
    ltac:(intros e; split; done) k tt 8 (fun _ => generation) false one_token (with_request k) (Step (fun _ => true)))
    as (c' & Hrun & I).
  - exact U.
  - exact Logic.I.
  - lia.
  - vm_compute. discriminate.
  - eapply (EngineRuns _ _ _ _ _ _ _ (new_engine k) (AddRequest 1 generation)); [constructor|apply generation_allowed|reflexivity].
  - intros o c1 H. by apply (first_step_answered k).
  - exists k, c'. split; [exact E|]. split; [exact Hrun|exact I].
Defined.

#[local] Instance wit_contract : SlotContract witness_cfg KVCacheManager := uncached_contract witness_cfg false id (Z.le_refl 0).

Lemma witness_cfg_ok : config_ok witness_cfg.
Proof. constructor; [reflexivity|reflexivity|vm_compute; discriminate|vm_compute; discriminate|discriminate]. Qed.

Lemma finish_requests_exact_witness : exists k s' R' W' K' S', uncached_manager = Ok k /\
  finish_requests ["b"; "z"]%string FINISHED_ABORTED (queued k) = (Ok [("b"%string, 0)], s') /\
  left_over witness_cfg EncoderCache.sample_sizes (queued k) [] [1; 2; 3] []
    (fun r => request_id (objs (queued k) r) ∈ ["b"; "z"]%string) FINISHED_ABORTED s' R' W' K' S'.
Proof.
  destruct uncached_manager_ok as (k & E & U).
  destruct (finish_requests_exact witness_cfg witness_cfg_ok elements ltac:(intros s i; apply elem_of_elements)
    EncoderCache.sample_sizes EncoderCache.sample_sizes_nonneg (queued k) [] [1; 2; 3] [] ∅ ["b"; "z"]%string FINISHED_ABORTED
    (queued_ok k U) ltac:(apply (bool_decide_unpack _); vm_compute; done) eq_refl)
    as (res & s' & Hrun & _ & _ & R' & W' & K' & S' & L).
  exists k, s', R', W', K', S'. split; [exact E|]. split; [|exact L].
  assert (Ht : (finish_requests ["b"; "z"]%string FINISHED_ABORTED (queued k)).1 = Ok [("b"%string, 0)]).
  { vm_compute in E. injection E as <-. vm_compute. reflexivity. }
  unfold LifecycleSafety.ecm', ecm in Hrun. unfold wit_encoder in Ht |- *. rewrite Hrun in Ht |- *. simpl in Ht. congruence.
Defined.

(** The engine with the request, between steps, and its first step under way. *)
Lemma first_step_pending k : uncached_rep witness_cfg k ∅ ->
  exists o p, on_scheduler (schedule witness_cfg (fun _ => true)) (engine (with_request k)) = (Ok o, p) /\
    pending_ok witness_cfg EncoderCache.sample_sizes o p.
Proof.
  intros U. assert (I0 : engine_ok witness_cfg EncoderCache.sample_sizes (engine (new_engine k))).
  { apply (engine_init witness_cfg EncoderCache.sample_sizes EncoderCache.sample_sizes_nonneg);
      [exact U|exact Logic.I|lia|vm_compute; discriminate]. }
  assert (I1 : engine_ok witness_cfg EncoderCache.sample_sizes (engine (with_request k))).
  { apply (wp_run (wit_op (AddRequest 1 generation)) (fun _ c' => engine_ok witness_cfg EncoderCache.sample_sizes (engine c'))
      (new_engine k) tt); [reflexivity|]. eapply run_op_ok; try apply witness_cfg_ok; try apply EncoderCache.sample_sizes_nonneg; try done.
    - intros s i. apply elem_of_elements.
    - intros s. apply NoDup_elements.
    - apply generation_allowed. }
  apply (wp_returns _ (fun o p => pending_ok witness_cfg EncoderCache.sample_sizes o p)).
  apply (schedule_pending witness_cfg witness_cfg_ok elements ltac:(intros s i; apply elem_of_elements)
    EncoderCache.sample_sizes EncoderCache.sample_sizes_nonneg None ltac:(intros hf [=]) eq_refl eq_refl (fun _ => true) _ I1).
Qed.

Lemma update_from_output_safe_witness : exists k o p R W K S outs events p' R' S', uncached_manager = Ok k /\
  on_scheduler (schedule witness_cfg (fun _ => true)) (engine (with_request k)) = (Ok o, p) /\
  update_from_output witness_cfg None false o one_token p = (Ok (outs, events), p') /\
  update_done witness_cfg EncoderCache.sample_sizes p.1 R W K o (fun _ => [5]) (fun _ => None) outs p'.1 R' S' /\
  sched_ok witness_cfg EncoderCache.sample_sizes p.1 R W K S.
Proof.
  destruct uncached_manager_ok as (k & E & U). destruct (first_step_pending k U) as (o & p & Hrun & R & W & K & S & I & Hg & Hs & Hnd & Hin & Hc).
  assert (Ha : answers_step witness_cfg p.1 R o one_token (fun _ => [5]) (fun _ => None)).
  { split; [exact Hnd|]. intros id n H. destruct (Hin id n H) as [Hn Hall]. split; [exact Hn|]. intros r Hr.
    destruct (Hall r Hr) as [HrR Hd]. split; [exact HrR|]. split; [apply Hs; set_solver|]. split; [exact Hd|].
    apply (first_step_answers k o (set_engine p (with_request k)) E) with (n := n); [|exact H|exact Hr].
    unfold on_sched, on_engine, zoom at 1. by rewrite Hrun. }
  destruct p as [s g]. destruct (update_from_output_safe witness_cfg witness_cfg_ok elements ltac:(intros ? ?; apply elem_of_elements)
    EncoderCache.sample_sizes EncoderCache.sample_sizes_nonneg None ltac:(intros hf [=]) false eq_refl eq_refl s R W K S o one_token
    (fun _ => [5]) (fun _ => None) g I Hg Ha) as (outs & events & p' & Hup & _ & R' & S' & Hd).
  exists k, o, (s, g), R, W, K, S, outs, events, p', R', S'. split; [exact E|]. split; [exact Hrun|]. split; [exact Hup|]. split; [exact Hd|exact I].
Defined.

(** With two batches in flight the first step returns without output, and the second
    takes the first batch out. *)
Definition two_batches : EngineConfig := mkEngineConfig false 2 true false false (fun _ => true).
Definition batch_step : M Core (option (gmap Z EngineCoreOutputs) * bool) :=
  step_with_batch_queue witness_cfg two_batches None elements (fun _ => true).
Definition in_flight (k : KVCacheManager) : Core := (batch_step (with_request k)).2.

Lemma batch_queue_fifo_witness : exists k outs b c', uncached_manager = Ok k /\
  batch_step (in_flight k) = (Ok (Some outs, b), c') /\ length (batch_queue (in_flight k)) = 1%nat /\
  queue_step witness_cfg two_batches None (fun _ => true) (in_flight k) (Some outs) (batch_queue c').
Proof.
  destruct uncached_manager_ok as (k & E & _).
  destruct (batch_step (in_flight k)) as [res c'] eqn:Hs.
  assert (Ht : (if res is Ok (Some _, _) then true else false) = true /\ length (batch_queue (in_flight k)) = 1%nat).
  { replace res with (batch_step (in_flight k)).1 by (by rewrite Hs). clear Hs. vm_compute in E. injection E as <-. by vm_compute. }
  destruct Ht as [Ht Hl]. destruct res as [[[outs|] b]|]; try discriminate Ht. exists k, outs, b, c'.
  split; [exact E|]. split; [exact Hs|]. split; [exact Hl|].
  exact (batch_queue_fifo witness_cfg two_batches None elements (fun _ => true) (in_flight k) (Some outs, b) c'
    ltac:(rewrite Hl; vm_compute; reflexivity) Hs).
Defined.

(** Grammars that accept a single draft. *)
Definition picky_grammars : GrammarManager unit := {|
  gm_should_advance q := mret (use_structured_output q);
  gm_trim_reasoning _ l := mret l;
  gm_has_grammar q _ := use_structured_output q;
  gm_accept_tokens _ _ := mret true;
  gm_validate_tokens _ l := mret (take 1 l);
  gm_grammar_bitmask _ _ _ := mret None
|}.
Definition picky_contract : @GrammarContract unit picky_grammars.
Proof.
  refine {| grammars_rep := fun _ : unit => True |}; try done.
  - intros g q _. apply wp_ret. split; [done|]. cbn. by intros ->.
  - intros g q l _. apply wp_ret. split; [|done]. by apply prefix_take.
Defined.

(** Two drafts were scheduled, three come in, and the grammar rejects the second. *)
Definition structured : Request :=
  mkRequest "a" 0 0 1 None None None true None None false false false 5 None 10 [] RUNNING None [] (replicate 10 7) 0 0 0 [] 10 false 0 0 None [] ∅.
Definition with_structured (k : KVCacheManager) : SchedulerState.Scheduler KVCacheManager EncoderCache.EncoderCacheManager :=
  set_requests {["a" := 1]} (scheduler_init FCFS (fun _ => structured) false k (EncoderCache.ec_init 8)).
Definition drafted : SchedulerOutput := mkOutput [] empty_cached_data [("a", 3)] 3 [("a", [-1; -1])] [] [] ∅ [] ∅ false false None None.

Lemma drafts_in_output_padded_witness : exists k spec inv g', uncached_manager = Ok k /\
  @update_draft_token_ids_in_output KVCacheManager EncoderCache.EncoderCacheManager unit picky_grammars [("a", [8; 9; 6])] drafted (with_structured k, tt) =
    (Ok (set_drafts spec inv drafted), (with_structured k, g')) /\
  spec = [("a", [8; -1])] /\ inv = {["a" := 1]} /\
  replaced (with_structured k) [("a", [8; 9; 6])] "a" [-1; -1] [8; -1] (inv !! "a").
Proof.
  destruct uncached_manager_ok as (k & E & _).
  destruct (@drafts_in_output_padded KVCacheManager EncoderCache.EncoderCacheManager unit picky_grammars picky_contract
    [("a", [8; 9; 6])] drafted (with_structured k) tt ltac:(repeat constructor; set_solver) Logic.I)
    as (spec & inv & g' & Hrun & _ & _ & _ & Hspec & _).
  assert (Ht : set_drafts spec inv drafted = set_drafts [("a", [8; -1])] {["a" := 1]} drafted).
  { enough (H : @Ok SchedulerOutput (set_drafts spec inv drafted) = Ok (set_drafts [("a", [8; -1])] {["a" := 1]} drafted)) by congruence.
    etransitivity; [symmetry; exact (f_equal fst Hrun)|]. vm_compute. reflexivity. }
  injection Ht as -> ->. exists k, [("a", [8; -1])], {["a" := 1]}, g'. split; [exact E|]. split; [exact Hrun|]. split; [reflexivity|]. split; [reflexivity|].
  destruct (Hspec "a"%string [-1; -1] eq_refl) as (new & Hnew & Hr). injection Hnew as <-. exact Hr.
Defined.
End EngineWitness.
