(* ===== verification/KVSpec.v ===== *)
(** * KVSpec

    v1/kv_cache_interface.py and v1/kv_cache_spec_registry.py: what the KV cache of
    a layer looks like, how many bytes a block of it takes, how much memory one
    request of the maximum length needs, which layers can share a block table, and
    the registry of these kinds of layers. The element types of torch are the class
    [TorchDtype]. A spec is a value: every layer is taken to have its own. *)

From S2P Require Import Prelude SingleType OrderedDict.

(** Pure code that can raise. *)
#[export] Instance result_ret : MRet result := fun A a => Ok a.
#[export] Instance result_bind : MBind result := fun A B k m =>
  match m with Ok a => k a | Err e => Err e end.

Module KVSpec.
Import OrderedDict.
#[local] Open Scope Z_scope.

Definition assert_r (b : bool) : result unit := if b then Ok tt else Err AssertionError.
Definition or_raise {A} (e : exn) (o : option A) : result A := match o with Some a => Ok a | None => Err e end.
Definition floordiv_r (a b : Z) : result Z := if b =? 0 then Err ZeroDivisionError else Ok (a / b).
Definition cdiv_r (a b : Z) : result Z := if b =? 0 then Err ZeroDivisionError else Ok (cdiv a b).

(** [[f x for x in l]] *)
Fixpoint map_r {A B} (f : A -> result B) (l : list A) : result (list B) :=
  match l with
  | [] => Ok []
  | x :: l => y ← f x; ys ← map_r f l; Ok (y :: ys)
  end.

(** [all(f x for x in l)], which stops at the first that fails. *)
Fixpoint all_r {A} (f : A -> result bool) (l : list A) : result bool :=
  match l with
  | [] => Ok true
  | x :: l => b ← f x; if (b : bool) then all_r f l else Ok false
  end.

(** [max(l)] *)
Definition max_of (l : list Z) : result Z :=
  match l with [] => Err ValueError | x :: l => Ok (foldl Z.max x l) end.
Definition min_of (l : list Z) : result Z :=
  match l with [] => Err ValueError | x :: l => Ok (foldl Z.min x l) end.

(** ** Data *)

Class TorchDtype := {
  torch_dtype : Type;
  torch_dtype_eq :: EqDecision torch_dtype;
  element_size : torch_dtype -> Z;
  element_size_pos d : 0 < element_size d;
  torch_float32 : torch_dtype
}.

Inductive KVQuantMode := NONE | FP8_PER_TENSOR | INT8_PER_TOKEN_HEAD | FP8_PER_TOKEN_HEAD | NVFP4.
#[export] Instance quant_mode_eq : EqDecision KVQuantMode.
Proof. solve_decision. Defined.

Definition is_per_token_head (m : KVQuantMode) : bool :=
  match m with INT8_PER_TOKEN_HEAD | FP8_PER_TOKEN_HEAD => true | _ => false end.
Definition is_nvfp4 (m : KVQuantMode) : bool := bool_decide (m = NVFP4).

Definition get_kv_quant_mode (kv_cache_dtype : string) : KVQuantMode :=
  if bool_decide (kv_cache_dtype = "int8_per_token_head"%string) then INT8_PER_TOKEN_HEAD
  else if bool_decide (kv_cache_dtype = "fp8_per_token_head"%string) then FP8_PER_TOKEN_HEAD
  else if bool_decide (kv_cache_dtype = "nvfp4"%string) then NVFP4
  else if String.prefix "fp8" kv_cache_dtype then FP8_PER_TENSOR
  else NONE.
Definition is_quantized_kv_cache (kv_cache_dtype : string) : bool := negb (bool_decide (get_kv_quant_mode kv_cache_dtype = NONE)).
Definition kv_cache_uses_per_token_head_scales (kv_cache_dtype : string) : bool := is_per_token_head (get_kv_quant_mode kv_cache_dtype).

(** What the specs read of the configuration of the engine. *)
Record VllmConfig := mkVllmConfig {
  max_model_len : Z;
  original_max_model_len : Z;
  max_num_batched_tokens : Z;
  max_num_encoder_input_tokens : Z;
  decode_context_parallel_size : Z;
  prefill_context_parallel_size : Z;
  model_type : option string;
  cache_mamba_mode : string;
  num_gpu_blocks_override : option Z;
  disable_hybrid_kv_cache_manager : bool;
  use_eagle : bool
}.
Definition set_max_model_len (n : Z) (c : VllmConfig) : VllmConfig :=
  mkVllmConfig n (original_max_model_len c) (max_num_batched_tokens c) (max_num_encoder_input_tokens c)
    (decode_context_parallel_size c) (prefill_context_parallel_size c) (model_type c) (cache_mamba_mode c)
    (num_gpu_blocks_override c) (disable_hybrid_kv_cache_manager c) (use_eagle c).

Definition nvfp4_kv_cache_full_dim (head_size : Z) : Z := head_size / 2 + head_size / 16.
Definition round_up (x y : Z) : result Z := q ← floordiv_r (x + y - 1) y; Ok (q * y).

Section spec.
Context `{TD : TorchDtype}.
Definition get_dtype_size (d : torch_dtype) : Z := element_size d.

(** The fields of [AttentionSpec]; [FullFields] are those [FullAttentionSpec] adds,
    after its [__post_init__]; [MLAFields] are common to the two MLA classes. *)
Record AttentionSpec := mkAttention {
  att_block_size : Z;
  num_kv_heads : Z;
  head_size : Z;
  dtype : torch_dtype;
  kv_quant_mode : KVQuantMode;
  page_size_padded : option Z
}.
Record FullFields := mkFull {
  head_size_v : Z;
  full_sliding_window : option Z;
  full_attention_chunk_size : option Z;
  full_dcp_replicated : bool
}.
Record MLAFields := mkMLA {
  cache_dtype_str : option string;
  alignment : option Z;
  compress_ratio : Z;
  model_version : option string
}.
Record MambaSpec_ := mkMamba {
  mamba_block_size : Z;
  shapes : list (list Z);
  dtypes : list torch_dtype;
  mamba_page_size_padded : option Z;
  mamba_type : string;
  mamba_cache_mode : string;
  num_speculative_blocks : Z
}.

(** One constructor for each class of specs. *)
Inductive KVCacheSpec :=
| FullAttentionSpec (a : AttentionSpec) (f : FullFields)
| TQFullAttentionSpec (a : AttentionSpec) (f : FullFields) (tq_slot_size : Z)
| MLAAttentionSpec (a : AttentionSpec) (f : FullFields) (m : MLAFields)
| HiddenStateCacheSpec (a : AttentionSpec) (f : FullFields) (m : MLAFields)
| SinkFullAttentionSpec (a : AttentionSpec) (f : FullFields) (sink_len : option Z)
| ChunkedLocalAttentionSpec (a : AttentionSpec) (attention_chunk_size : Z)
| SlidingWindowSpec (a : AttentionSpec) (window : Z) (hv : Z)
| SlidingWindowMLASpec (a : AttentionSpec) (window : Z) (hv : option Z) (m : MLAFields) (dcp_sharded : bool)
| MambaSpec (m : MambaSpec_)
| EncoderOnlyAttentionSpec (a : AttentionSpec)
| CrossAttentionSpec (a : AttentionSpec).

#[global] Instance attention_eq : EqDecision AttentionSpec.
Proof. solve_decision. Defined.
#[global] Instance full_eq : EqDecision FullFields.
Proof. solve_decision. Defined.
#[global] Instance mla_eq : EqDecision MLAFields.
Proof. solve_decision. Defined.
#[global] Instance mamba_eq : EqDecision MambaSpec_.
Proof. solve_decision. Defined.
#[global] Instance spec_eq : EqDecision KVCacheSpec.
Proof. solve_decision. Defined.

(** ** Classes *)

Inductive SpecClass :=
| CKVCacheSpec | CAttentionSpec | CFullAttentionSpec | CTQFullAttentionSpec | CMLAAttentionSpec | CHiddenStateCacheSpec
| CSinkFullAttentionSpec | CChunkedLocalAttentionSpec | CSlidingWindowSpec | CSlidingWindowMLASpec | CMambaSpec
| CEncoderOnlyAttentionSpec | CCrossAttentionSpec.
#[global] Instance spec_class_eq : EqDecision SpecClass.
Proof. solve_decision. Defined.

Definition type_of (s : KVCacheSpec) : SpecClass :=
  match s with
  | FullAttentionSpec _ _ => CFullAttentionSpec
  | TQFullAttentionSpec _ _ _ => CTQFullAttentionSpec
  | MLAAttentionSpec _ _ _ => CMLAAttentionSpec
  | HiddenStateCacheSpec _ _ _ => CHiddenStateCacheSpec
  | SinkFullAttentionSpec _ _ _ => CSinkFullAttentionSpec
  | ChunkedLocalAttentionSpec _ _ => CChunkedLocalAttentionSpec
  | SlidingWindowSpec _ _ _ => CSlidingWindowSpec
  | SlidingWindowMLASpec _ _ _ _ _ => CSlidingWindowMLASpec
  | MambaSpec _ => CMambaSpec
  | EncoderOnlyAttentionSpec _ => CEncoderOnlyAttentionSpec
  | CrossAttentionSpec _ => CCrossAttentionSpec
  end.

(** [__mro__] without [object]. *)
Definition mro (c : SpecClass) : list SpecClass :=
  match c with
  | CKVCacheSpec => [CKVCacheSpec]
  | CAttentionSpec => [CAttentionSpec; CKVCacheSpec]
  | CFullAttentionSpec => [CFullAttentionSpec; CAttentionSpec; CKVCacheSpec]
  | CTQFullAttentionSpec => [CTQFullAttentionSpec; CFullAttentionSpec; CAttentionSpec; CKVCacheSpec]
  | CMLAAttentionSpec => [CMLAAttentionSpec; CFullAttentionSpec; CAttentionSpec; CKVCacheSpec]
  | CHiddenStateCacheSpec => [CHiddenStateCacheSpec; CMLAAttentionSpec; CFullAttentionSpec; CAttentionSpec; CKVCacheSpec]
  | CSinkFullAttentionSpec => [CSinkFullAttentionSpec; CFullAttentionSpec; CAttentionSpec; CKVCacheSpec]
  | CChunkedLocalAttentionSpec => [CChunkedLocalAttentionSpec; CAttentionSpec; CKVCacheSpec]
  | CSlidingWindowSpec => [CSlidingWindowSpec; CAttentionSpec; CKVCacheSpec]
  | CSlidingWindowMLASpec => [CSlidingWindowMLASpec; CSlidingWindowSpec; CAttentionSpec; CKVCacheSpec]
  | CMambaSpec => [CMambaSpec; CKVCacheSpec]
  | CEncoderOnlyAttentionSpec => [CEncoderOnlyAttentionSpec; CAttentionSpec; CKVCacheSpec]
  | CCrossAttentionSpec => [CCrossAttentionSpec; CAttentionSpec; CKVCacheSpec]
  end.
Definition issubclass (c d : SpecClass) : bool := bool_decide (d ∈ mro c).
Definition isinstance (s : KVCacheSpec) (c : SpecClass) : bool := issubclass (type_of s) c.

(** ** Fields *)

Definition attention_of (s : KVCacheSpec) : option AttentionSpec :=
  match s with
  | FullAttentionSpec a _ | TQFullAttentionSpec a _ _ | MLAAttentionSpec a _ _ | HiddenStateCacheSpec a _ _
  | SinkFullAttentionSpec a _ _ | ChunkedLocalAttentionSpec a _ | SlidingWindowSpec a _ _ | SlidingWindowMLASpec a _ _ _ _
  | EncoderOnlyAttentionSpec a | CrossAttentionSpec a => Some a
  | MambaSpec _ => None
  end.
Definition full_of (s : KVCacheSpec) : option FullFields :=
  match s with
  | FullAttentionSpec _ f | TQFullAttentionSpec _ f _ | MLAAttentionSpec _ f _ | HiddenStateCacheSpec _ f _ | SinkFullAttentionSpec _ f _ => Some f
  | _ => None
  end.
Definition mla_of (s : KVCacheSpec) : option MLAFields :=
  match s with MLAAttentionSpec _ _ m | HiddenStateCacheSpec _ _ m | SlidingWindowMLASpec _ _ _ m _ => Some m | _ => None end.
Definition block_size (s : KVCacheSpec) : Z :=
  match s with
  | MambaSpec m => mamba_block_size m
  | FullAttentionSpec a _ | TQFullAttentionSpec a _ _ | MLAAttentionSpec a _ _ | HiddenStateCacheSpec a _ _
  | SinkFullAttentionSpec a _ _ | ChunkedLocalAttentionSpec a _ | SlidingWindowSpec a _ _ | SlidingWindowMLASpec a _ _ _ _
  | EncoderOnlyAttentionSpec a | CrossAttentionSpec a => att_block_size a
  end.
(** [getattr(spec, "dcp_replicated", False)] *)
Definition dcp_replicated (s : KVCacheSpec) : bool := match full_of s with Some f => full_dcp_replicated f | None => false end.

Definition map_attention (g : AttentionSpec -> AttentionSpec) (s : KVCacheSpec) : KVCacheSpec :=
  match s with
  | FullAttentionSpec a f => FullAttentionSpec (g a) f
  | TQFullAttentionSpec a f n => TQFullAttentionSpec (g a) f n
  | MLAAttentionSpec a f m => MLAAttentionSpec (g a) f m
  | HiddenStateCacheSpec a f m => HiddenStateCacheSpec (g a) f m
  | SinkFullAttentionSpec a f n => SinkFullAttentionSpec (g a) f n
  | ChunkedLocalAttentionSpec a c => ChunkedLocalAttentionSpec (g a) c
  | SlidingWindowSpec a w h => SlidingWindowSpec (g a) w h
  | SlidingWindowMLASpec a w h m d => SlidingWindowMLASpec (g a) w h m d
  | MambaSpec m => MambaSpec m
  | EncoderOnlyAttentionSpec a => EncoderOnlyAttentionSpec (g a)
  | CrossAttentionSpec a => CrossAttentionSpec (g a)
  end.
Definition set_att_block_size (n : Z) (a : AttentionSpec) : AttentionSpec :=
  mkAttention n (num_kv_heads a) (head_size a) (dtype a) (kv_quant_mode a) (page_size_padded a).
Definition set_padded (n : Z) (a : AttentionSpec) : AttentionSpec :=
  mkAttention (att_block_size a) (num_kv_heads a) (head_size a) (dtype a) (kv_quant_mode a) (Some n).
(** [object.__setattr__(spec, "page_size_padded", n)] of an attention layer. *)
Definition set_page_size_padded (n : Z) : KVCacheSpec -> KVCacheSpec := map_attention (set_padded n).

(** ** Bytes *)

Definition head_bytes (a : AttentionSpec) (dims : Z) : Z := att_block_size a * num_kv_heads a * dims * get_dtype_size (dtype a).

(** [AttentionSpec.real_page_size_bytes] *)
Definition base_page_size_bytes (a : AttentionSpec) : Z :=
  let dim := if is_nvfp4 (kv_quant_mode a) then nvfp4_kv_cache_full_dim (head_size a) else head_size a in
  2 * att_block_size a * num_kv_heads a * dim * get_dtype_size (dtype a).

(** That of [FullAttentionSpec] and [SlidingWindowSpec]. *)
Definition full_page_size_bytes (a : AttentionSpec) (hv : Z) : Z :=
  head_bytes a (if is_nvfp4 (kv_quant_mode a) then nvfp4_kv_cache_full_dim (head_size a) + nvfp4_kv_cache_full_dim hv
                else head_size a + hv).

Definition mla_storage_block_size (a : AttentionSpec) (m : MLAFields) : result Z := floordiv_r (att_block_size a) (compress_ratio m).
Definition storage_block_size (s : KVCacheSpec) : result Z :=
  match attention_of s, mla_of s with
  | Some a, Some m => mla_storage_block_size a m
  | _, _ => Ok (block_size s)
  end.

Definition mla_head_bytes (a : AttentionSpec) (m : MLAFields) : result Z :=
  storage ← mla_storage_block_size a m;
  Ok (storage * num_kv_heads a * head_size a * get_dtype_size (dtype a)).

Definition mla_page_size_bytes (a : AttentionSpec) (m : MLAFields) : result Z :=
  if bool_decide (cache_dtype_str m = Some "fp8_ds_mla"%string) then
    if bool_decide (model_version m = Some "deepseek_v4"%string) then storage ← mla_storage_block_size a m; Ok (storage * 584)
    else Ok (att_block_size a * 656)
  else mla_head_bytes a m.

Definition window_mla_page_size_bytes (a : AttentionSpec) (m : MLAFields) : result Z :=
  if bool_decide (model_version m = Some "deepseek_v4"%string) && bool_decide (cache_dtype_str m = Some "fp8_ds_mla"%string)
  then storage ← mla_storage_block_size a m; Ok (storage * 584)
  else
    assert_r (bool_decide (model_version m = None) || bool_decide (model_version m = Some "deepseek_v4"%string)) ;;
    mla_head_bytes a m.

(** [real_page_size_bytes]; a Mamba layer has the sum over its states. *)
Definition real_page_size_bytes (s : KVCacheSpec) : result Z :=
  match s with
  | FullAttentionSpec a f | SinkFullAttentionSpec a f _ => Ok (full_page_size_bytes a (head_size_v f))
  | TQFullAttentionSpec a f tq_slot_size =>
      Ok (if 0 <? tq_slot_size then att_block_size a * num_kv_heads a * tq_slot_size else full_page_size_bytes a (head_size_v f))
  | MLAAttentionSpec a _ m | HiddenStateCacheSpec a _ m => mla_page_size_bytes a m
  | SlidingWindowSpec a _ hv => Ok (full_page_size_bytes a hv)
  | SlidingWindowMLASpec a _ _ m _ => window_mla_page_size_bytes a m
  | ChunkedLocalAttentionSpec a _ | EncoderOnlyAttentionSpec a | CrossAttentionSpec a => Ok (base_page_size_bytes a)
  | MambaSpec m => Ok (zsum (zip_with (fun shape d => foldr Z.mul 1 shape * get_dtype_size d) (shapes m) (dtypes m)))
  end.

Definition padded_page (real : Z) (padded : option Z) : result Z :=
  match padded with
  | Some p => assert_r (real <=? p) ;; Ok p
  | None => Ok real
  end.

Definition page_size_bytes (s : KVCacheSpec) : result Z :=
  real ← real_page_size_bytes s;
  match s, attention_of s with
  | MambaSpec m, _ => padded_page real (mamba_page_size_padded m)
  | _, Some a =>
      padded_page (if is_per_token_head (kv_quant_mode a)
                   then real + 2 * att_block_size a * num_kv_heads a * get_dtype_size torch_float32 else real) (page_size_padded a)
  | _, None => Ok real
  end.

(** [__post_init__] of the classes with an alignment. *)
Definition apply_alignment_padding (s : KVCacheSpec) : result KVCacheSpec :=
  match mla_of s with
  | Some m =>
      match alignment m with
      | None => Ok s
      | Some al =>
          actual ← real_page_size_bytes s;
          padded ← round_up actual al;
          Ok (if negb (padded =? actual) then set_page_size_padded padded s else s)
      end
  | None => Ok s
  end.

Definition with_block_size (n : Z) (s : KVCacheSpec) : KVCacheSpec :=
  match s with
  | MambaSpec m => MambaSpec (mkMamba n (shapes m) (dtypes m) (mamba_page_size_padded m) (mamba_type m) (mamba_cache_mode m) (num_speculative_blocks m))
  | _ => map_attention (set_att_block_size n) s
  end.
(** [replace(spec, block_size=n)], which constructs a new spec. *)
Definition copy_with_new_block_size (n : Z) (s : KVCacheSpec) : result KVCacheSpec := apply_alignment_padding (with_block_size n s).

(** ** The memory of one request *)

Definition dcp_pcp (c : VllmConfig) : Z := decode_context_parallel_size c * prefill_context_parallel_size c.

Definition full_max_memory (c : VllmConfig) (s : KVCacheSpec) : result Z :=
  let len := if (1 <? dcp_pcp c) && negb (dcp_replicated s) then cdiv (max_model_len c) (dcp_pcp c) else max_model_len c in
  n ← cdiv_r len (block_size s); p ← page_size_bytes s; Ok (n * p).

Definition window_max_memory (c : VllmConfig) (s : KVCacheSpec) (window : Z) : result Z :=
  assert_r (decode_context_parallel_size c =? 1) ;;
  if block_size s =? 0 then Err ZeroDivisionError
  else p ← page_size_bytes s; Ok (SingleType.window_admission_blocks window (block_size s) (max_num_batched_tokens c) (max_model_len c) * p).

Definition window_mla_max_memory (c : VllmConfig) (s : KVCacheSpec) (window : Z) (m : MLAFields) (dcp_sharded : bool) : result Z :=
  if (1 <? decode_context_parallel_size c) && (prefill_context_parallel_size c =? 1) &&
     (bool_decide (model_version m = Some "deepseek_v4"%string) || bool_decide (model_type c = Some "deepseek_v4"%string))
  then
    let bs := if dcp_sharded then block_size s * decode_context_parallel_size c else block_size s in
    if bs =? 0 then Err ZeroDivisionError
    else p ← page_size_bytes s; Ok (SingleType.window_admission_blocks window bs (max_num_batched_tokens c) (max_model_len c) * p)
  else window_max_memory c s window.

Definition mamba_max_memory (c : VllmConfig) (s : KVCacheSpec) (m : MambaSpec_) : result Z :=
  if bool_decide (cache_mamba_mode c = "all"%string) then
    n ← cdiv_r (max_model_len c) (mamba_block_size m); p ← page_size_bytes s; Ok ((n + num_speculative_blocks m) * p)
  else if bool_decide (cache_mamba_mode c = "align"%string) then p ← page_size_bytes s; Ok (p * (2 + num_speculative_blocks m))
  else p ← page_size_bytes s; Ok (p * (1 + num_speculative_blocks m)).

Definition max_memory_usage_bytes (c : VllmConfig) (s : KVCacheSpec) : result Z :=
  match s with
  | FullAttentionSpec _ _ | TQFullAttentionSpec _ _ _ | MLAAttentionSpec _ _ _ | HiddenStateCacheSpec _ _ _ | SinkFullAttentionSpec _ _ _ =>
      full_max_memory c s
  | ChunkedLocalAttentionSpec _ chunk =>
      if block_size s =? 0 then Err ZeroDivisionError
      else p ← page_size_bytes s; Ok (SingleType.chunk_admission_blocks chunk (block_size s) (max_num_batched_tokens c) (max_model_len c) * p)
  | SlidingWindowSpec _ window _ => window_max_memory c s window
  | SlidingWindowMLASpec _ window _ m dcp_sharded => window_mla_max_memory c s window m dcp_sharded
  | MambaSpec m => mamba_max_memory c s m
  | EncoderOnlyAttentionSpec _ => Ok 0
  | CrossAttentionSpec _ => n ← cdiv_r (max_num_encoder_input_tokens c) (block_size s); p ← page_size_bytes s; Ok (n * p)
  end.
(** ** Merging *)

(** The only element of the set of these values. *)
Definition one_value {A} `{EqDecision A} (l : list A) : result A :=
  match remove_dups l with [x] => Ok x | _ => Err AssertionError end.

Definition merge_window_sizes (window_sizes : list Z) : result (option Z) :=
  match remove_dups window_sizes with
  | [] => Ok None
  | [x] => Ok (Some x)
  | _ => Err ValueError
  end.

(** [KVCacheSpec.merge] *)
Definition base_merge (specs : list KVCacheSpec) : result KVCacheSpec :=
  match specs with
  | [] => Err IndexError
  | s :: l => assert_r (forallb (fun t => bool_decide (t = s)) l) ;; Ok s
  end.

(** The fields [FullAttentionSpec.merge] passes to the class; the class may drop
    [dcp_replicated]. *)
Definition full_merge (specs : list KVCacheSpec) : result (AttentionSpec * FullFields) :=
  assert_r (forallb (fun s => isinstance s CFullAttentionSpec) specs) ;;
  let sliding_window := omap (fun s => f ← full_of s; full_sliding_window f) specs in
  let attention_chunk_size := omap (fun s => f ← full_of s; full_attention_chunk_size f) specs in
  assert_r (negb (existsb (fun s => isinstance s CMLAAttentionSpec) specs)) ;;
  first ← or_raise IndexError (head specs);
  a ← or_raise AttributeError (attention_of first);
  f ← or_raise AttributeError (full_of first);
  window ← merge_window_sizes sliding_window;
  chunk ← merge_window_sizes attention_chunk_size;
  assert_r (forallb (fun s => bool_decide (attention_of s = Some a)) specs) ;;
  assert_r (negb (is_some window && is_some chunk)) ;;
  Ok (a, mkFull (head_size_v f) window chunk (full_dcp_replicated f)).

Definition tq_slot (s : KVCacheSpec) : result Z :=
  match s with TQFullAttentionSpec _ _ n => Ok n | _ => Err AttributeError end.
Definition tq_merge (specs : list KVCacheSpec) : result KVCacheSpec :=
  af ← full_merge specs;
  slot ← (first ← or_raise IndexError (head specs); tq_slot first);
  same ← all_r (fun s => n ← tq_slot s; Ok (n =? slot)) specs;
  assert_r same ;;
  Ok (TQFullAttentionSpec af.1 af.2 slot).

Definition sink_merge (specs : list KVCacheSpec) (sink_len : option Z) : result KVCacheSpec :=
  af ← full_merge specs;
  Ok (SinkFullAttentionSpec af.1 (mkFull (head_size_v af.2) (full_sliding_window af.2) (full_attention_chunk_size af.2) false) sink_len).

(** The attention fields that both MLA classes merge; the alignment is dropped, the
    padding is that of the first layer. *)
Definition mla_merge_fields (specs : list KVCacheSpec) : result (AttentionSpec * MLAFields) :=
  let atts := omap attention_of specs in
  let mlas := omap mla_of specs in
  cds ← one_value (cache_dtype_str <$> mlas);
  dt ← one_value (dtype <$> atts);
  quant ← one_value (kv_quant_mode <$> atts);
  ratio ← one_value (compress_ratio <$> mlas);
  version ← one_value (model_version <$> mlas);
  a ← or_raise IndexError (head atts);
  Ok (mkAttention (att_block_size a) (num_kv_heads a) (head_size a) dt quant (page_size_padded a), mkMLA cds None ratio version).

Definition mla_merge (new : AttentionSpec -> FullFields -> MLAFields -> KVCacheSpec) (specs : list KVCacheSpec) : result KVCacheSpec :=
  assert_r (forallb (fun s => isinstance s CMLAAttentionSpec) specs) ;;
  am ← mla_merge_fields specs;
  Ok (new am.1 (mkFull (head_size am.1) None None false) am.2).

Definition window_mla_merge (specs : list KVCacheSpec) : result KVCacheSpec :=
  assert_r (forallb (fun s => isinstance s CSlidingWindowMLASpec) specs) ;;
  am ← mla_merge_fields specs;
  window ← one_value (omap (fun s => match s with SlidingWindowMLASpec _ w _ _ _ => Some w | _ => None end) specs);
  sharded ← one_value (omap (fun s => match s with SlidingWindowMLASpec _ _ _ _ d => Some d | _ => None end) specs);
  Ok (SlidingWindowMLASpec am.1 window None am.2 sharded).

(** [specs[0].merge(specs)] *)
Definition merge (specs : list KVCacheSpec) : result KVCacheSpec :=
  first ← or_raise IndexError (head specs);
  match first with
  | FullAttentionSpec _ _ => af ← full_merge specs; Ok (FullAttentionSpec af.1 af.2)
  | TQFullAttentionSpec _ _ _ => tq_merge specs
  | SinkFullAttentionSpec _ _ sink_len => sink_merge specs sink_len
  | MLAAttentionSpec _ _ _ => mla_merge MLAAttentionSpec specs
  | HiddenStateCacheSpec _ _ _ => mla_merge HiddenStateCacheSpec specs
  | SlidingWindowMLASpec _ _ _ _ _ => window_mla_merge specs
  | _ => base_merge specs
  end.

(** ** The registry *)

Inductive ManagerClass :=
| FullAttentionManager | SlidingWindowManager | MambaManager | ChunkedLocalAttentionManager | CrossAttentionManager | SinkFullAttentionManager.
#[global] Instance manager_class_eq : EqDecision ManagerClass.
Proof. solve_decision. Defined.

Record KVCacheSpecMetadata := mkMetadata {
  manager_class : ManagerClass;
  uniform_type_base_spec : SpecClass
}.
#[global] Instance metadata_eq : EqDecision KVCacheSpecMetadata.
Proof. solve_decision. Defined.
#[local] Notation Registry := (list (SpecClass * KVCacheSpecMetadata)).

Definition register (cls : SpecClass) (manager : ManagerClass) (base : option SpecClass) : M Registry unit :=
  let base := default cls base in
  assert_ (issubclass cls base) ;;
  reg ← get;
  (match od_get cls reg with
   | Some md => assert_ (bool_decide (md = mkMetadata manager base))
   | None => mret tt
   end) ;;
  modify (od_set cls (mkMetadata manager base)).

(** The kinds of layers the repository registers; a platform can register more. *)
Definition register_all_kvcache_specs : M Registry unit :=
  register CFullAttentionSpec FullAttentionManager (Some CFullAttentionSpec) ;;
  register CSlidingWindowSpec SlidingWindowManager (Some CSlidingWindowSpec) ;;
  register CSlidingWindowMLASpec SlidingWindowManager (Some CSlidingWindowMLASpec) ;;
  register CMambaSpec MambaManager (Some CMambaSpec) ;;
  register CChunkedLocalAttentionSpec ChunkedLocalAttentionManager (Some CChunkedLocalAttentionSpec) ;;
  register CCrossAttentionSpec CrossAttentionManager (Some CCrossAttentionSpec) ;;
  register CTQFullAttentionSpec FullAttentionManager (Some CFullAttentionSpec) ;;
  register CMLAAttentionSpec FullAttentionManager (Some CFullAttentionSpec) ;;
  register CHiddenStateCacheSpec FullAttentionManager (Some CFullAttentionSpec) ;;
  register CSinkFullAttentionSpec SinkFullAttentionManager (Some CFullAttentionSpec).

(** The first registered class in the order of method resolution. *)
Fixpoint first_registered (reg : Registry) (classes : list SpecClass) : option KVCacheSpecMetadata :=
  match classes with
  | [] => None
  | c :: classes => match od_get c reg with Some md => Some md | None => first_registered reg classes end
  end.
Definition get_manager_class (reg : Registry) (s : KVCacheSpec) : option ManagerClass := manager_class <$> first_registered reg (mro (type_of s)).
Definition get_uniform_type_base_spec (reg : Registry) (s : KVCacheSpec) : option SpecClass :=
  uniform_type_base_spec <$> first_registered reg (mro (type_of s)).

Fixpoint check_kv_cache_spec_registry (reg : Registry) (specs : list (string * KVCacheSpec)) : result unit :=
  match specs with
  | [] => Ok tt
  | (_, s) :: specs =>
      if is_some (get_uniform_type_base_spec reg s) && is_some (get_manager_class reg s)
      then check_kv_cache_spec_registry reg specs else Err ValueError
  end.

(** The registry after the start of the engine. *)
Definition builtin_registry : Registry := (register_all_kvcache_specs []).2.

(** ** Layers of one type *)

(** [specs[0].is_uniform_with_collection(specs)] *)
Definition is_uniform_with_collection (reg : Registry) (self : KVCacheSpec) (specs : list (string * KVCacheSpec)) : result bool :=
  match self with
  | ChunkedLocalAttentionSpec _ chunk =>
      Ok (forallb (fun ns => match ns.2 with ChunkedLocalAttentionSpec _ c => c =? chunk | _ => false end) specs)
  | SlidingWindowSpec _ window _ =>
      Ok (forallb (fun ns => match ns.2 with SlidingWindowSpec _ w _ | SlidingWindowMLASpec _ w _ _ _ => w =? window | _ => false end) specs)
  | SlidingWindowMLASpec _ window _ _ sharded =>
      Ok (forallb (fun ns => match ns.2 with SlidingWindowMLASpec _ w _ _ d => (w =? window) && Bool.eqb d sharded | _ => false end) specs)
  | MambaSpec m =>
      Ok (forallb (fun ns => match ns.2 with MambaSpec n => num_speculative_blocks n =? num_speculative_blocks m | _ => false end) specs)
  | _ =>
      base ← or_raise AssertionError (get_uniform_type_base_spec reg self);
      Ok (forallb (fun ns => isinstance ns.2 base && Bool.eqb (dcp_replicated ns.2) (dcp_replicated self)) specs)
  end.

Record UniformTypeKVCacheSpecs := mkUniform {
  u_block_size : Z;
  kv_cache_specs : list (string * KVCacheSpec)
}.

Definition is_uniform_type (reg : Registry) (specs : list (string * KVCacheSpec)) : result bool :=
  if (1 <? length (remove_dups ((fun ns => block_size ns.2) <$> specs)))%nat then Ok false
  else
    first ← or_raise StopIteration (head specs);
    is_uniform_with_collection reg first.2 specs.

Definition from_specs (reg : Registry) (specs : list (string * KVCacheSpec)) : result (option UniformTypeKVCacheSpecs) :=
  uniform ← is_uniform_type reg specs;
  if (uniform : bool) then
    first ← or_raise StopIteration (head specs);
    Ok (Some (mkUniform (block_size first.2) specs))
  else Ok None.

Definition u_page_size_bytes (u : UniformTypeKVCacheSpecs) : result Z :=
  pages ← map_r (fun ns => page_size_bytes ns.2) (kv_cache_specs u); Ok (zsum pages).

Definition pages_of (c : VllmConfig) (s : KVCacheSpec) : result Z :=
  n ← max_memory_usage_bytes c s; p ← page_size_bytes s; cdiv_r n p.

Definition u_max_memory_usage_pages (c : VllmConfig) (u : UniformTypeKVCacheSpecs) : result Z :=
  pages ← map_r (fun ns => pages_of c ns.2) (kv_cache_specs u); max_of pages.

Definition u_max_memory_usage_bytes (c : VllmConfig) (u : UniformTypeKVCacheSpecs) : result Z :=
  n ← u_max_memory_usage_pages c u; p ← u_page_size_bytes u; Ok (n * p).

Definition u_dcp_replicated (u : UniformTypeKVCacheSpecs) : bool := forallb (fun ns => dcp_replicated ns.2) (kv_cache_specs u).

(** [list(set(...))]: in some order, without repetition. *)
Definition get_page_sizes (u : UniformTypeKVCacheSpecs) : result (list Z) :=
  pages ← map_r (fun ns => page_size_bytes ns.2) (kv_cache_specs u); Ok (remove_dups pages).

(** The most common page size occurs this often. *)
Definition get_num_layer_tuples (u : UniformTypeKVCacheSpecs) : result Z :=
  pages ← map_r (fun ns => page_size_bytes ns.2) (kv_cache_specs u);
  match pages with
  | [] => Err IndexError
  | _ => max_of ((fun p => zlen (filter (fun q => q = p) pages)) <$> pages)
  end.

(** ** Kinds *)

Inductive KVCacheSpecKind :=
| FULL_ATTENTION | MLA_ATTENTION | SLIDING_WINDOW | SLIDING_WINDOW_MLA | MAMBA | CHUNKED_LOCAL_ATTENTION
| SINK_FULL_ATTENTION | ENCODER_ONLY_ATTENTION | CROSS_ATTENTION | UNKNOWN.
#[global] Instance kind_eq : EqDecision KVCacheSpecKind.
Proof. solve_decision. Defined.

Definition get_kv_cache_spec_kind (s : KVCacheSpec) : KVCacheSpecKind :=
  if isinstance s CSlidingWindowMLASpec then SLIDING_WINDOW_MLA
  else if isinstance s CMLAAttentionSpec then MLA_ATTENTION
  else if isinstance s CSinkFullAttentionSpec then SINK_FULL_ATTENTION
  else if isinstance s CFullAttentionSpec then FULL_ATTENTION
  else if isinstance s CChunkedLocalAttentionSpec then CHUNKED_LOCAL_ATTENTION
  else if isinstance s CSlidingWindowSpec then SLIDING_WINDOW
  else if isinstance s CMambaSpec then MAMBA
  else if isinstance s CEncoderOnlyAttentionSpec then ENCODER_ONLY_ATTENTION
  else if isinstance s CCrossAttentionSpec then CROSS_ATTENTION
  else UNKNOWN.
Definition u_spec_kind (u : UniformTypeKVCacheSpecs) : KVCacheSpecKind :=
  match remove_dups ((fun ns => get_kv_cache_spec_kind ns.2) <$> kv_cache_specs u) with [k] => k | _ => UNKNOWN end.

Definition get_kv_cache_spec_sliding_window (s : KVCacheSpec) : option Z :=
  match s with SlidingWindowSpec _ w _ | SlidingWindowMLASpec _ w _ _ _ => Some w | _ => None end.
Definition u_sliding_window (u : UniformTypeKVCacheSpecs) : option Z :=
  match remove_dups ((fun ns => get_kv_cache_spec_sliding_window ns.2) <$> kv_cache_specs u) with [w] => w | _ => None end.
End spec.
End KVSpec.
