(* ===== verification/KVConfig.v ===== *)
(** * KVConfig

    v1/core/kv_cache_utils.py, the part that plans the KV cache at start-up: layers
    are put into groups that share a block table, the memory of every worker is cut
    into tensors shared by layers of different groups, and all workers agree on the
    number of blocks. The configuration of the engine is the state, since the search
    for the longest possible request length sets and restores it.

    Log messages are left out. [reg] is the registry of kinds of layers. *)

From S2P Require Import Prelude OrderedDict PyNum RequestQueue KVSpec.
From Stdlib Require Import Floats.SpecFloat.

Module KVConfig.
Import OrderedDict PyNum RequestQueue KVSpec.
#[local] Open Scope Z_scope.

(** ** Data *)

Section config.
Context `{TD : TorchDtype}.

(** The spec of a group: that of one layer, which all its layers share, or one for
    each layer. *)
Inductive GroupSpec :=
| OneSpec (s : KVCacheSpec)
| UniformSpecs (u : UniformTypeKVCacheSpecs).

Record KVCacheGroupSpec := mkGroupSpec {
  layer_names : list string;
  kv_cache_spec : GroupSpec;
  is_eagle_group : bool
}.
Definition new_group (names : list string) (s : GroupSpec) : KVCacheGroupSpec := mkGroupSpec names s false.

Record KVCacheTensor := mkTensor {
  size : Z;
  shared_by : list string
}.
Record KVCacheConfig := mkKVConfig {
  num_blocks : Z;
  kv_cache_tensors : list KVCacheTensor;
  kv_cache_groups : list KVCacheGroupSpec
}.

#[local] Notation Specs := (list (string * KVCacheSpec)).

Definition uniform_of (s : GroupSpec) : option UniformTypeKVCacheSpecs :=
  match s with UniformSpecs u => Some u | OneSpec _ => None end.
Definition group_page_size_bytes (s : GroupSpec) : result Z :=
  match s with OneSpec s => page_size_bytes s | UniformSpecs u => u_page_size_bytes u end.
Definition group_max_memory (c : VllmConfig) (s : GroupSpec) : result Z :=
  match s with OneSpec s => max_memory_usage_bytes c s | UniformSpecs u => u_max_memory_usage_bytes c u end.

(** ** Sizes *)

Definition may_override_num_blocks (c : VllmConfig) (n : Z) : Z := default n (num_gpu_blocks_override c).

Definition get_num_blocks (c : VllmConfig) (num_layers available_memory page_size : Z) : result Z :=
  q ← floordiv_r available_memory page_size;
  n ← floordiv_r q num_layers;
  Ok (may_override_num_blocks c (Z.max n 0)).

Definition get_uniform_page_size (specs : list GroupSpec) : result Z :=
  pages ← map_r group_page_size_bytes specs;
  one_value pages.

(** [max(len(group.layer_names) for group in groups)] *)
Definition largest_group (groups : list KVCacheGroupSpec) : result Z := max_of ((fun g => zlen (layer_names g)) <$> groups).

(** The page size of a layer in its group. *)
Definition layer_page_size (g : KVCacheGroupSpec) (name : string) : result Z :=
  match kv_cache_spec g with
  | UniformSpecs u => s ← or_raise KeyError (od_get name (kv_cache_specs u)); page_size_bytes s
  | OneSpec s => page_size_bytes s
  end.

#[local] Notation Buckets := (list (Z * list (list string))).

(** One layer; [slot_count] is local to its group. *)
Definition bucket_layer (g : KVCacheGroupSpec) (acc : Buckets * list (Z * Z)) (name : string) : result (Buckets * list (Z * Z)) :=
  let '(buckets, slot_count) := acc in
  ps ← layer_page_size g name;
  let slot_idx := default 0 (od_get ps slot_count) in
  let slots := default [] (od_get ps buckets) in
  let slots := if slot_idx =? zlen slots then slots ++ [[]] else slots in
  slot ← or_raise IndexError (slots !! Z.to_nat slot_idx);
  Ok (od_set ps (<[Z.to_nat slot_idx := slot ++ [name]]> slots) buckets, od_set ps (slot_idx + 1) slot_count).

Fixpoint bucket_group (g : KVCacheGroupSpec) (names : list string) (acc : Buckets * list (Z * Z)) : result Buckets :=
  match names with
  | [] => Ok acc.1
  | name :: names => acc ← bucket_layer g acc name; bucket_group g names acc
  end.

Fixpoint bucket_groups (groups : list KVCacheGroupSpec) (buckets : Buckets) : result Buckets :=
  match groups with
  | [] => Ok buckets
  | g :: groups => buckets ← bucket_group g (layer_names g) (buckets, []); bucket_groups groups buckets
  end.
Definition bucket_layers_by_page_size (groups : list KVCacheGroupSpec) : result Buckets := bucket_groups groups [].

Definition bytes_per_block (buckets : Buckets) : Z := zsum ((fun b => b.1 * zlen b.2) <$> buckets).

Definition is_uniform_spec (g : KVCacheGroupSpec) : bool := is_some (uniform_of (kv_cache_spec g)).

(** [len(groups) == 1 and isinstance(groups[0].kv_cache_spec, UniformTypeKVCacheSpecs)] *)
Definition single_uniform (groups : list KVCacheGroupSpec) : option UniformTypeKVCacheSpecs :=
  match groups with [g] => uniform_of (kv_cache_spec g) | _ => None end.

Definition pool_bytes_per_block (groups : list KVCacheGroupSpec) : result Z :=
  match single_uniform groups with
  | Some u => u_page_size_bytes u
  | None =>
      if forallb is_uniform_spec groups then buckets ← bucket_layers_by_page_size groups; Ok (bytes_per_block buckets)
      else
        group_size ← largest_group groups;
        page_size ← get_uniform_page_size (kv_cache_spec <$> groups);
        Ok (page_size * group_size)
  end.

(** ** Tensors *)

Definition kv_cache_config_deepseek_v4 (c : VllmConfig) (groups : list KVCacheGroupSpec) (available_memory : Z) : result (Z * list KVCacheTensor) :=
  buckets ← bucket_layers_by_page_size groups;
  n ← floordiv_r available_memory (bytes_per_block buckets);
  let n := may_override_num_blocks c n in
  Ok (n, b ← buckets; (fun slot => mkTensor (b.1 * n) slot) <$> b.2).

(** The layers at position [i] of the groups. *)
Definition shared_at (groups : list KVCacheGroupSpec) (i : nat) : list string := omap (fun g => layer_names g !! i) groups.

Definition get_kv_cache_config_from_groups (c : VllmConfig) (groups : list KVCacheGroupSpec) (available_memory : Z) : result KVCacheConfig :=
  match groups with
  | [] => Ok (mkKVConfig 1 [] groups)
  | g :: _ =>
      match single_uniform groups with
      | Some u =>
          p ← u_page_size_bytes u;
          n ← floordiv_r available_memory p;
          let n := may_override_num_blocks c n in
          tensors ← map_r (fun name => p ← layer_page_size g name; Ok (mkTensor (p * n) [name])) (layer_names g);
          Ok (mkKVConfig n tensors groups)
      | None =>
          if forallb is_uniform_spec groups then
            nt ← kv_cache_config_deepseek_v4 c groups available_memory;
            Ok (mkKVConfig nt.1 nt.2 groups)
          else
            group_size ← largest_group groups;
            page_size ← get_uniform_page_size (kv_cache_spec <$> groups);
            assert_r (0 <? group_size) ;;
            n ← get_num_blocks c group_size available_memory page_size;
            Ok (mkKVConfig n ((fun i => mkTensor (page_size * n) (shared_at groups i)) <$> seq 0 (Z.to_nat group_size)) groups)
      end
  end.

(** ** The memory of one request of the maximum length *)

Definition deepseek_v4_max_memory (c : VllmConfig) (groups : list KVCacheGroupSpec) : result Z :=
  us ← map_r (fun g => or_raise AttributeError (uniform_of (kv_cache_spec g))) groups;
  full_mla_spec ← or_raise IndexError (head us);
  sizes ← get_page_sizes full_mla_spec;
  tuples ← map_r get_num_layer_tuples us;
  num_layer_tuples ← max_of tuples;
  pages ← map_r (u_max_memory_usage_pages c) us;
  Ok (zsum ((fun n => num_layer_tuples * n * zsum sizes) <$> pages)).

Definition max_memory_usage_bytes_from_groups (c : VllmConfig) (groups : list KVCacheGroupSpec) : result Z :=
  match groups with
  | [] => Ok 0
  | _ =>
      match single_uniform groups with
      | Some u => ns ← map_r (fun ns => max_memory_usage_bytes c ns.2) (kv_cache_specs u); Ok (zsum ns)
      | None =>
          if forallb is_uniform_spec groups then deepseek_v4_max_memory c groups
          else
            group_size ← largest_group groups;
            page_size ← get_uniform_page_size (kv_cache_spec <$> groups);
            blocks ← map_r (fun g => n ← group_max_memory c (kv_cache_spec g); cdiv_r n page_size) groups;
            Ok (group_size * page_size * zsum blocks)
      end
  end.

Definition max_memory_usage_bytes_of (c : VllmConfig) (specs : list KVCacheSpec) : result Z :=
  ns ← map_r (max_memory_usage_bytes c) specs; Ok (zsum ns).

(** ** The longest request *)

(** [usage] is the memory of a request of the maximum length. *)
Definition fits_in_memory (usage : VllmConfig -> result Z) (available_memory model_len : Z) : M VllmConfig bool :=
  modify (set_max_model_len model_len) ;;
  c ← get;
  memory_needed ← of_result (usage c);
  mret (memory_needed <=? available_memory).

(** One round of the search for each unit of fuel. *)
Fixpoint search_loop (usage : VllmConfig -> result Z) (available_memory : Z) (fuel : nat) (left right result : Z) : M VllmConfig Z :=
  if left <=? right then
    match fuel with
    | O => raise OutOfFuel
    | S fuel =>
        let mid := (left + right) / 2 in
        fits ← fits_in_memory usage available_memory mid;
        if (fits : bool) then search_loop usage available_memory fuel (mid + 1) right mid
        else search_loop usage available_memory fuel left (mid - 1) result
    end
  else mret result.

(** [try: m finally: f] *)
Definition finally {S A} (m : M S A) (f : S -> S) : M S A := fun s => let '(r, s') := m s in (r, f s').

Definition search_max_model_len (usage : VllmConfig -> result Z) (available_memory : Z) : M VllmConfig Z :=
  c ← get;
  let original := max_model_len c in
  finally (fits ← fits_in_memory usage available_memory 1;
           if negb fits then mret 0
           else search_loop usage available_memory (Z.to_nat original) 1 original 1)
          (set_max_model_len original).

Definition estimate_max_model_len (specs : Specs) (available_memory : Z) : M VllmConfig Z :=
  search_max_model_len (fun c => max_memory_usage_bytes_of c specs.*2) available_memory.
Definition estimate_max_model_len_from_groups (groups : list KVCacheGroupSpec) (available_memory : Z) : M VllmConfig Z :=
  search_max_model_len (fun c => max_memory_usage_bytes_from_groups c groups) available_memory.

(** The estimate is only for the message. *)
Definition check_enough_memory (usage : VllmConfig -> result Z) (available_memory : Z) : M VllmConfig unit :=
  if available_memory <=? 0 then raise ValueError
  else
    c ← get;
    needed_memory ← of_result (usage c);
    if available_memory <? needed_memory then search_max_model_len usage available_memory ;; raise ValueError
    else mret tt.

Definition check_enough_kv_cache_memory (specs : Specs) (available_memory : Z) : M VllmConfig unit :=
  match specs with
  | [] => mret tt
  | _ => check_enough_memory (fun c => max_memory_usage_bytes_of c specs.*2) available_memory
  end.

Definition auto_fit_max_model_len (projected : list (list KVCacheGroupSpec)) (available_memory : list Z) : M VllmConfig unit :=
  c ← get;
  let original_max := max_model_len c in
  if forallb (fun groups => match groups with [] => true | _ => false end) projected then mret tt
  else
    (match available_memory with [] => raise IndexError | _ => mret tt end) ;;
    auto_fit_max ← for_fold (fun best wm =>
        match wm.1 with
        | [] => mret best
        | _ => worker_max ← estimate_max_model_len_from_groups wm.1 wm.2; mret (if worker_max <? best then worker_max else best)
        end) (zip projected available_memory) original_max;
    if auto_fit_max <=? 0 then raise ValueError
    else if original_max <=? auto_fit_max then mret tt
    else modify (set_max_model_len auto_fit_max).

(** ** Grouping *)

Definition lookup_spec (specs : Specs) (name : string) : result KVCacheSpec := or_raise KeyError (od_get name specs).

Definition create_kv_cache_group_specs (specs : Specs) (grouped_layer_names : list (list string)) : result (list KVCacheGroupSpec) :=
  map_r (fun names => layer_specs ← map_r (lookup_spec specs) names; merged ← merge layer_specs; Ok (new_group names (OneSpec merged)))
    grouped_layer_names.

(** Only an AssertionError is caught. *)
Definition is_kv_cache_spec_uniform (specs : Specs) : result bool :=
  match specs with
  | [] => Ok true
  | _ => match merge specs.*2 with Ok _ => Ok true | Err AssertionError => Ok false | Err e => Err e end
  end.

Definition get_kv_cache_groups_uniform_spec (specs : Specs) : result (list KVCacheGroupSpec) := create_kv_cache_group_specs specs [specs.*1].
Definition get_kv_cache_groups_uniform_type (u : UniformTypeKVCacheSpecs) : list KVCacheGroupSpec :=
  [new_group (kv_cache_specs u).*1 (UniformSpecs u)].

Definition page_sizes_of (specs : Specs) : result (list Z) := pages ← map_r (fun ns => page_size_bytes ns.2) specs; Ok (remove_dups pages).
Definition is_kv_cache_page_size_uniform (specs : Specs) : result bool := pages ← page_sizes_of specs; Ok (length pages =? 1)%nat.

Definition unify_layer (target_page_size : Z) (s : KVCacheSpec) : result KVCacheSpec :=
  layer_page_size ← page_size_bytes s;
  if layer_page_size =? target_page_size then Ok s
  else if layer_page_size =? 0 then Err ZeroDivisionError
  else if negb (target_page_size mod layer_page_size =? 0) then Err NotImplementedError
  else
    let ratio := target_page_size / layer_page_size in
    new_spec ← copy_with_new_block_size (block_size s * ratio) s;
    p ← page_size_bytes new_spec;
    assert_r (p =? target_page_size) ;;
    Ok new_spec.

Definition unify_kv_cache_spec_page_size (specs : Specs) : result Specs :=
  page_sizes ← page_sizes_of specs;
  if (length page_sizes <=? 1)%nat then Ok specs
  else
    let target_page_size := foldr Z.lcm 1 page_sizes in
    map_r (fun ns => s ← unify_layer target_page_size ns.2; Ok (ns.1, s)) specs.

(** [d[k].append(x)] of a [defaultdict(list)]. *)
Fixpoint append_to {K A} `{EqDecision K} (k : K) (x : A) (d : list (K * list A)) : list (K * list A) :=
  match d with
  | [] => [(k, [x])]
  | (k', l) :: d => if decide (k = k') then (k', l ++ [x]) :: d else (k', l) :: append_to k x d
  end.

(** [l[i::n]] *)
Definition slice_from {A} (i n : nat) (l : list A) : list A :=
  snd <$> filter (fun jx => (i <= jx.1)%nat /\ ((jx.1 - i) mod n = 0)%nat) (zip (seq 0 (length l)) l).

Definition same_type_layers (specs : Specs) : list (KVCacheSpec * list string) :=
  foldl (fun d ns => append_to ns.2 ns.1 d) [] specs.

(** [max_num_layers < min_num_layers * 1.5], with a float on the right. *)
Definition num_mul (x y : num) : num :=
  match x, y with PInt a, PInt b => PInt (a * b) | _, _ => PFloat (SFmul 53 1024 (to_float x) (to_float y)) end.
Definition one_and_a_half : num := PFloat (binary_normalize 53 1024 3 (-1) false).
Definition choose_group_size (min_num_layers max_num_layers : Z) : Z :=
  if num_ltb (PInt max_num_layers) (num_mul (PInt min_num_layers) one_and_a_half) then max_num_layers else min_num_layers.

(** The layers of one type, cut into groups. *)
Definition split_layers {A} (group_size : Z) (layers : list A) : result (list (list A)) :=
  num_groups ← cdiv_r (zlen layers) group_size;
  Ok ((fun i => slice_from i (Z.to_nat num_groups) layers) <$> seq 0 (Z.to_nat num_groups)).

Definition get_kv_cache_groups_uniform_page_size (specs : Specs) : result (list KVCacheGroupSpec) :=
  let same := same_type_layers specs in
  min_num_layers ← min_of ((fun kl => zlen kl.2) <$> same);
  max_num_layers ← max_of ((fun kl => zlen kl.2) <$> same);
  let group_size := choose_group_size min_num_layers max_num_layers in
  grouped_layers ← map_r (fun kl => split_layers group_size kl.2) same;
  create_kv_cache_group_specs specs (concat grouped_layers).

(** ** Without the hybrid manager *)

Definition is_class (c : SpecClass) (ns : string * KVCacheSpec) : bool := isinstance ns.2 c.

(** [FullAttentionSpec] in place of a windowed or chunked layer. *)
Definition as_full (uniform_block_size : option Z) (s : KVCacheSpec) : result KVCacheSpec :=
  match s with
  | SlidingWindowMLASpec a _ _ m _ =>
      let a := mkAttention (default (att_block_size a) uniform_block_size) (num_kv_heads a) (head_size a) (dtype a) NONE (page_size_padded a) in
      apply_alignment_padding (MLAAttentionSpec a (mkFull (head_size a) None None false) m)
  | SlidingWindowSpec a w hv => Ok (FullAttentionSpec a (mkFull hv (Some w) None false))
  | ChunkedLocalAttentionSpec a chunk =>
      Ok (FullAttentionSpec (mkAttention (att_block_size a) (num_kv_heads a) (head_size a) (dtype a) NONE (page_size_padded a))
            (mkFull (head_size a) None (Some chunk) false))
  | _ => Ok s
  end.

Definition uniform_or_one_type (reg : list (SpecClass * KVCacheSpecMetadata)) (specs : Specs) : result bool :=
  b ← is_kv_cache_spec_uniform specs;
  if (b : bool) then Ok true else is_uniform_type reg specs.

Definition unify_hybrid_kv_cache_specs (reg : list (SpecClass * KVCacheSpecMetadata)) (specs : Specs) : result Specs :=
  done ← uniform_or_one_type reg specs;
  if (done : bool) then Ok specs
  else
    let has_full_attention := existsb (is_class CFullAttentionSpec) specs in
    let has_sliding_window := existsb (is_class CSlidingWindowSpec) specs in
    let has_chunked_local_attention := existsb (is_class CChunkedLocalAttentionSpec) specs in
    let has_swa_mla := existsb (is_class CSlidingWindowMLASpec) specs in
    uniform_block_size ← (if has_swa_mla then
                            assert_r has_full_attention ;;
                            any_full_spec ← or_raise StopIteration (head (filter (fun ns => is_class CFullAttentionSpec ns = true) specs));
                            Ok (Some (block_size any_full_spec.2))
                          else Ok None);
    specs ← (if has_full_attention && (has_sliding_window || has_chunked_local_attention)
             then map_r (fun ns => s ← as_full uniform_block_size ns.2; Ok (ns.1, s)) specs else Ok specs);
    done ← uniform_or_one_type reg specs;
    if (done : bool) then Ok specs else Err ValueError.

(** ** Groups of groups *)

(** The layers of one kind of group: the key, and the layers with it. *)
Definition swa_key (s : KVCacheSpec) : option (Z * Z * bool) :=
  match s with SlidingWindowMLASpec a w _ _ d => Some (att_block_size a, w, d) | _ => None end.
Definition repl_key (s : KVCacheSpec) : option Z :=
  if isinstance s CSlidingWindowMLASpec || isinstance s CMLAAttentionSpec then None
  else if dcp_replicated s then Some (block_size s) else None.
Definition group_by {K} `{EqDecision K} (key : KVCacheSpec -> option K) (specs : Specs) : list (K * Specs) :=
  foldl (fun d ns => match key ns.2 with Some k => append_to k ns d | None => d end) [] specs.

Definition uniform_specs (reg : list (SpecClass * KVCacheSpecMetadata)) (specs : Specs) : result UniformTypeKVCacheSpecs :=
  u ← from_specs reg specs; or_raise AssertionError u.

Definition group_and_unify_kv_cache_specs (reg : list (SpecClass * KVCacheSpecMetadata)) (specs : Specs) : result (option (list UniformTypeKVCacheSpecs)) :=
  let has_swa := existsb (is_class CSlidingWindowMLASpec) specs in
  let has_repl := existsb (fun ns => dcp_replicated ns.2 && negb (isinstance ns.2 CMLAAttentionSpec)) specs in
  if negb (has_swa || has_repl) then Ok None
  else
    let mla_specs := filter (fun ns => isinstance ns.2 CMLAAttentionSpec = true) specs in
    match mla_specs with
    | [] => Ok None
    | _ =>
        mla_uniform_spec ← uniform_specs reg mla_specs;
        other_uniform_specs ← map_r (uniform_specs reg) ((group_by swa_key specs).*2 ++ (group_by repl_key specs).*2);
        Ok (Some (mla_uniform_spec :: other_uniform_specs))
    end.

(** The padding of the values to multiples of [d]. *)
Definition padding (values : list Z) (d : Z) : Z := zsum ((fun x => (d - x mod d) mod d) <$> values).

Definition better (values : list Z) (best : Z * option Z) (d : Z) : Z * option Z :=
  let pad := padding values d in
  match best.2 with
  | None => (d, Some pad)
  | Some best_pad => if (pad <? best_pad) || ((pad =? best_pad) && (best.1 <? d)) then (d, Some pad) else best
  end.

Definition approximate_gcd (values : list Z) (lower_bound : option Z) : result Z :=
  match values with
  | [] => Err ValueError
  | _ =>
      if existsb (fun x => x <=? 0) values then Err ValueError
      else
        let min_d := Z.max 1 (default 1 lower_bound) in
        max_d ← max_of values;
        if max_d <? min_d then Ok min_d
        else Ok (foldl (better values) (min_d, None) ((fun i => min_d + i) <$> zrange (max_d + 1 - min_d))).1
  end.

(** [zip] of [ls], lists of at least [n] elements. *)
Fixpoint zip_all {A} (n : nat) (ls : list (list A)) : list (list A) :=
  match n with
  | O => []
  | S n => omap head ls :: zip_all n (tail <$> ls)
  end.

(** A layer with its page padded to that of [candidate]. *)
Definition pad_layer (candidate : Z) (s : KVCacheSpec) : result KVCacheSpec :=
  current_size ← page_size_bytes s;
  Ok (if current_size <? candidate then set_page_size_padded candidate s else s).

Definition candidate_for (all_page_sizes : list Z) (ps : Z) : result Z := min_of (filter (fun x => ps <= x) all_page_sizes).

(** The groups of one [UniformTypeKVCacheSpecs] other than the first. *)
Definition split_uniform_group (reg : list (SpecClass * KVCacheSpecMetadata)) (all_page_sizes : list Z) (num_layer_tuples : Z)
    (sm_spec : UniformTypeKVCacheSpecs) : result (list KVCacheGroupSpec) :=
  sm_page_sizes ← get_page_sizes sm_spec;
  m1 ← max_of sm_page_sizes;
  m2 ← max_of all_page_sizes;
  assert_r (m1 <=? m2) ;;
  padded ← map_r (fun ns =>
      current_size ← page_size_bytes ns.2;
      candidate ← candidate_for all_page_sizes current_size;
      s ← pad_layer candidate ns.2;
      Ok (candidate, (ns.1, s))) (kv_cache_specs sm_spec);
  let layers_per_size := foldl (fun d cl => append_to cl.1 cl.2.1 d) [] padded in
  num_layers_per_size ← one_value ((fun kl => zlen kl.2) <$> layers_per_size);
  let specs : Specs := padded.*2 in
  tuple_groups ← split_layers num_layer_tuples (zip_all (Z.to_nat num_layers_per_size) layers_per_size.*2);
  map_r (fun tuples =>
      let names := concat tuples in
      group_specs ← map_r (fun name => s ← lookup_spec specs name; Ok (name, s)) names;
      sub_sm_spec ← uniform_specs reg group_specs;
      Ok (new_group names (UniformSpecs sub_sm_spec))) tuple_groups.

Definition get_kv_cache_groups_uniform_groups (reg : list (SpecClass * KVCacheSpecMetadata)) (grouped_specs : list UniformTypeKVCacheSpecs) :
    result (list KVCacheGroupSpec) :=
  match grouped_specs with
  | [] => Err AssertionError
  | full_mla_spec :: swa_mla_specs =>
      assert_r (forallb (is_class CMLAAttentionSpec) (kv_cache_specs full_mla_spec)) ;;
      let full_mla_group := new_group (kv_cache_specs full_mla_spec).*1 (UniformSpecs full_mla_spec) in
      num_layer_tuples_per_group ← map_r get_num_layer_tuples grouped_specs;
      num_layer_tuples ← approximate_gcd num_layer_tuples_per_group (head num_layer_tuples_per_group);
      map_r (fun x => round_up x num_layer_tuples) num_layer_tuples_per_group ;;
      assert_r (forallb (fun u => forallb (fun ns => is_class CSlidingWindowMLASpec ns || is_class CFullAttentionSpec ns) (kv_cache_specs u)) swa_mla_specs) ;;
      all_page_sizes ← get_page_sizes full_mla_spec;
      swa_mla_groups ← map_r (split_uniform_group reg all_page_sizes num_layer_tuples) swa_mla_specs;
      Ok (full_mla_group :: concat swa_mla_groups)
  end.

Fixpoint mark_eagle (last_layer : string) (groups : list KVCacheGroupSpec) : list KVCacheGroupSpec :=
  match groups with
  | [] => []
  | g :: groups =>
      if bool_decide (last_layer ∈ layer_names g) then mkGroupSpec (layer_names g) (kv_cache_spec g) true :: groups
      else g :: mark_eagle last_layer groups
  end.
Definition annotate_eagle_groups_deepseek_v4 (c : VllmConfig) (specs : Specs) (groups : list KVCacheGroupSpec) : result (list KVCacheGroupSpec) :=
  if negb (use_eagle c) then Ok groups
  else if negb (existsb (fun ns => bool_decide ((m ← mla_of ns.2; model_version m) = Some "deepseek_v4"%string)) specs) then Ok groups
  else last_layer ← or_raise StopIteration (last specs); Ok (mark_eagle last_layer.1 groups).

Definition is_hidden (ns : string * KVCacheSpec) : bool := isinstance ns.2 CHiddenStateCacheSpec.

(** The layer with blocks that fill the common page. *)
Definition hidden_group (common_page : Z) (ns : string * KVCacheSpec) : result KVCacheGroupSpec :=
  a ← or_raise AttributeError (attention_of ns.2);
  let per_token := num_kv_heads a * head_size a * get_dtype_size (dtype a) in
  q ← floordiv_r common_page per_token;
  aligned ← apply_alignment_padding (set_page_size_padded common_page (with_block_size (Z.max q 1) ns.2));
  Ok (new_group [ns.1] (OneSpec aligned)).

Definition general_groups (specs : Specs) : result (list KVCacheGroupSpec) :=
  let hidden_specs := filter (fun ns => is_hidden ns = true) specs in
  let filtered_spec := filter (fun ns => is_hidden ns = false) specs in
  filtered_spec ← unify_kv_cache_spec_page_size filtered_spec;
  groups ← get_kv_cache_groups_uniform_page_size filtered_spec;
  match hidden_specs with
  | [] => Ok groups
  | _ =>
      common_page ← get_uniform_page_size (kv_cache_spec <$> groups);
      hidden ← map_r (hidden_group common_page) hidden_specs;
      Ok (groups ++ hidden)
  end.

Definition get_kv_cache_groups (reg : list (SpecClass * KVCacheSpecMetadata)) (c : VllmConfig) (specs : Specs) : result (list KVCacheGroupSpec) :=
  specs ← (if disable_hybrid_kv_cache_manager c then unify_hybrid_kv_cache_specs reg specs else Ok specs);
  match specs with
  | [] => Ok []
  | _ =>
      uniform ← is_kv_cache_spec_uniform specs;
      if (uniform : bool) then get_kv_cache_groups_uniform_spec specs
      else
        uniform_spec ← from_specs reg specs;
        match uniform_spec with
        | Some u => Ok (get_kv_cache_groups_uniform_type u)
        | None =>
            grouped_specs ← group_and_unify_kv_cache_specs reg specs;
            match grouped_specs with
            | Some grouped_specs => groups ← get_kv_cache_groups_uniform_groups reg grouped_specs; annotate_eagle_groups_deepseek_v4 c specs groups
            | None => general_groups specs
            end
        end
  end.

(** ** All workers *)

Definition project_group (worker_spec : Specs) (g : KVCacheGroupSpec) : result KVCacheGroupSpec :=
  let worker_layer_names := filter (fun name => name ∈ worker_spec.*1) (layer_names g) in
  spec ← (match worker_layer_names, kv_cache_spec g with
          | _ :: _, UniformSpecs u =>
              specs ← map_r (fun name => s ← lookup_spec (kv_cache_specs u) name; Ok (name, s)) worker_layer_names;
              Ok (UniformSpecs (mkUniform (u_block_size u) specs))
          | _, s => Ok s
          end);
  Ok (mkGroupSpec worker_layer_names spec (is_eagle_group g && negb (bool_decide (worker_layer_names = [])))).

Definition project_kv_cache_groups_to_worker (groups : list KVCacheGroupSpec) (worker_spec : Specs) : result (list KVCacheGroupSpec) :=
  map_r (project_group worker_spec) groups.

Definition merge_layer (merged : Specs) (ns : string * KVCacheSpec) : result Specs :=
  match od_get ns.1 merged with
  | None => Ok (od_set ns.1 ns.2 merged)
  | Some s => assert_r (bool_decide (s = ns.2)) ;; Ok merged
  end.
Fixpoint merge_layers (merged specs : Specs) : result Specs :=
  match specs with
  | [] => Ok merged
  | ns :: specs => merged ← merge_layer merged ns; merge_layers merged specs
  end.

(** The memory the override makes of that of one worker. *)
Definition adjusted_memory (override : Z) (groups : list KVCacheGroupSpec) (avail_mem : Z) : result Z :=
  match groups with
  | [] => Ok avail_mem
  | _ => b ← pool_bytes_per_block groups; floordiv_r avail_mem b ;; Ok (override * b)
  end.

Definition get_max_concurrency_for_kv_cache_config (c : VllmConfig) (cfg : KVCacheConfig) : result num :=
  usage ← max_memory_usage_bytes_from_groups c (kv_cache_groups cfg);
  memory_per_block ← pool_bytes_per_block (kv_cache_groups cfg);
  num_block_per_request ← cdiv_r usage memory_per_block;
  (true_div (num_blocks cfg) num_block_per_request tt).1.

Definition get_kv_cache_capacity (c : VllmConfig) (cfg : KVCacheConfig) : result (Z * num) :=
  max_concurrency ← get_max_concurrency_for_kv_cache_config c cfg;
  n ← (num_int (num_mul max_concurrency (PInt (max_model_len c))) tt).1;
  Ok (n, max_concurrency).

Definition shrink_tensor (num_blocks_old n : Z) (t : KVCacheTensor) : result KVCacheTensor :=
  if num_blocks_old =? 0 then Err ZeroDivisionError
  else assert_r (size t mod num_blocks_old =? 0) ;; Ok (mkTensor (size t / num_blocks_old * n) (shared_by t)).

Definition shrink_config (c : VllmConfig) (n : Z) (cfg : KVCacheConfig) : result KVCacheConfig :=
  tensors ← map_r (shrink_tensor (num_blocks cfg) n) (kv_cache_tensors cfg);
  let cfg := mkKVConfig n tensors (kv_cache_groups cfg) in
  match kv_cache_groups cfg with
  | [] => Ok cfg
  | _ => get_kv_cache_capacity c cfg ;; Ok cfg
  end.

Definition worker_config (c : VllmConfig) (pw : list KVCacheGroupSpec * Specs * Z) : result KVCacheConfig :=
  let '(projected_groups, worker_spec, available_memory) := pw in
  assert_r (zsum ((fun g => zlen (layer_names g)) <$> projected_groups) =? zlen worker_spec) ;;
  get_kv_cache_config_from_groups c projected_groups available_memory.

Definition check_worker (wm : list KVCacheGroupSpec * Z) : M VllmConfig unit :=
  match wm.1 with
  | [] => mret tt
  | _ => check_enough_memory (fun c => max_memory_usage_bytes_from_groups c wm.1) wm.2
  end.

Definition get_kv_cache_configs (reg : list (SpecClass * KVCacheSpecMetadata)) (specs : list Specs) (available_memory : list Z) :
    M VllmConfig (list KVCacheConfig) :=
  merged ← of_result (merge_layers [] (concat specs));
  of_result (check_kv_cache_spec_registry reg merged) ;;
  c ← get;
  global_groups ← of_result (get_kv_cache_groups reg c merged);
  projected ← of_result (map_r (project_kv_cache_groups_to_worker global_groups) specs);
  available_memory ← (match num_gpu_blocks_override c with
                      | Some override => of_result (map_r (fun wm => adjusted_memory override wm.1 wm.2) (zip projected available_memory))
                      | None => mret available_memory
                      end);
  (if original_max_model_len c =? -1 then auto_fit_max_model_len projected available_memory else mret tt) ;;
  for_each check_worker (zip projected available_memory) ;;
  c ← get;
  configs ← of_result (map_r (worker_config c) (zip (zip projected specs) available_memory));
  min_num_blocks ← of_result (min_of (num_blocks <$> configs));
  of_result (map_r (shrink_config c min_num_blocks) configs).

(** The groups as the scheduler sees them: one spec for all layers of a group. *)
Definition scheduler_group (g : KVCacheGroupSpec) : result KVCacheGroupSpec :=
  match kv_cache_spec g with
  | UniformSpecs u => first ← or_raise StopIteration (head (kv_cache_specs u)); Ok (mkGroupSpec (layer_names g) (OneSpec first.2) (is_eagle_group g))
  | OneSpec _ => Ok g
  end.
Definition generate_scheduler_kv_cache_config (configs : list KVCacheConfig) : result KVCacheConfig :=
  match configs with
  | [] => Err IndexError
  | cfg :: _ =>
      assert_r (forallb (fun c => num_blocks c =? num_blocks cfg) configs) ;;
      groups ← map_r scheduler_group (kv_cache_groups cfg);
      Ok (mkKVConfig (num_blocks cfg) (kv_cache_tensors cfg) groups)
  end.
End config.
End KVConfig.
