(* ===== verification/KVConfigSafety.v ===== *)
(** * KVConfigSafety

    The plan of the KV cache is consistent: the search finds the longest request
    that fits, the groups cut up the layers of the model, the tensors of a worker
    hold each of its layers once and fit its memory, and all workers agree on the
    number of blocks, enough for one request of the maximum length. *)

From S2P Require Import Prelude OrderedDict RequestQueue KVSpec KVSpecSafety KVConfig.

Module KVConfigSafety.
Import OrderedDict RequestQueue KVSpec KVSpecSafety KVConfig.
#[local] Open Scope Z_scope.

Section config.
Context `{TD : TorchDtype}.

#[local] Arguments set_max_model_len n c : simpl never.

(** ** The search *)

Section search.
Context (usage : VllmConfig -> result Z) (mem : Z) (c : VllmConfig) (N : Z).

Definition fits (n : Z) : Prop := exists v, usage (set_max_model_len n c) = Ok v /\ v <= mem.

(** The usage is defined up to [N] and grows with the length. *)
Definition usage_grows : Prop := forall n m, 1 <= n <= m -> m <= N ->
  exists v w, usage (set_max_model_len n c) = Ok v /\ usage (set_max_model_len m c) = Ok w /\ v <= w.

Context (Hgrows : usage_grows).

Lemma fits_smaller n m : 1 <= n <= m -> m <= N -> fits m -> fits n.
Proof.
  intros Hn Hm (w & Hw & Hle). destruct (Hgrows n m Hn Hm) as (v & w' & Hv & Hw' & Hvw). exists v. split; [done|].
  rewrite Hw in Hw'. injection Hw' as <-. lia.
Qed.

Lemma fits_in_memory_run n k : 1 <= n <= N -> exists b,
  fits_in_memory usage mem n (set_max_model_len k c) = (Ok b, set_max_model_len n c) /\ (b = true <-> fits n).
Proof.
  intros Hn. destruct (Hgrows n n ltac:(lia) ltac:(lia)) as (v & _ & Hv & _). exists (v <=? mem). split.
  - unfold fits_in_memory, mbind, M_bind, modify, get, of_result. cbv beta iota.
    change (set_max_model_len n (set_max_model_len k c)) with (set_max_model_len n c). by rewrite Hv.
  - unfold fits. rewrite Z.leb_le. split; [intros H; by exists v|intros (w & Hw & Hle)]. congruence.
Qed.

(** What the search still has to look at lies between [left] and [right]. *)
Record searching (left right found : Z) : Prop := {
  se_found : fits found;
  se_range : 1 <= found <= N;
  se_left : 1 <= left;
  se_last : found = left - 1 \/ (left = 1 /\ found = 1);
  se_right : right <= N;
  se_above n : right < n <= N -> ~ fits n
}.

Lemma search_loop_ok fuel left right found k : 1 <= N -> searching left right found -> right - left + 1 <= Z.of_nat fuel ->
  exists L k', search_loop usage mem fuel left right found (set_max_model_len k c) = (Ok L, set_max_model_len k' c) /\
    1 <= L <= N /\ fits L /\ forall n, L < n <= N -> ~ fits n.
Proof.
  intros HN. revert left right found k. induction fuel as [|fuel IH]; intros left right found k [Hf Hrange Hl Hlast Hr Hab] Hfuel; cbn [search_loop].
  - destruct (Z.leb_spec left right); [lia|]. exists found, k. split; [done|]. split; [lia|]. split; [done|].
    intros n Hn. apply Hab. destruct Hlast as [->|[-> ->]]; [lia|]. destruct (decide (right = 0)) as [->|]; [|lia]. by destruct (Hab 1).
  - destruct (Z.leb_spec left right).
    + set (mid := (left + right) / 2). assert (Hmid : left <= mid <= right) by (unfold mid; split; [apply Z.div_le_lower_bound|apply Z.div_le_upper_bound]; lia).
      destruct (fits_in_memory_run mid k ltac:(lia)) as (b & E & Hb). unfold mbind, M_bind. rewrite E. destruct b.
      * apply IH; [|lia]. constructor; [by apply Hb|lia|lia|left; lia|done|done].
      * apply IH; [|lia]. constructor; [done|done|done|done|lia|]. intros n Hn Hfit. assert (Hno : ~ fits mid) by (intros H'; by apply Hb in H').
        apply Hno. apply (fits_smaller mid n); [lia|lia|done].
    + exists found, k. split; [done|]. split; [lia|]. split; [done|].
      intros n Hn. apply Hab. destruct Hlast as [->|[-> ->]]; [lia|]. destruct (decide (right = 0)) as [->|]; [|lia]. by destruct (Hab 1).
Qed.
End search.

Lemma set_own_max_model_len c : set_max_model_len (max_model_len c) c = c.
Proof. by destruct c. Qed.

Lemma search_ok usage mem c : 1 <= max_model_len c -> usage_grows usage c (max_model_len c) ->
  exists L, search_max_model_len usage mem c = (Ok L, c) /\ 0 <= L <= max_model_len c /\
    forall n, 1 <= n <= max_model_len c -> (n <= L <-> fits usage mem c n).
Proof.
  intros HN Hg. unfold search_max_model_len, finally, mbind, M_bind, get. cbv beta iota.
  destruct (fits_in_memory_run usage mem c _ Hg 1 (max_model_len c) ltac:(lia)) as (b & E & Hb).
  rewrite set_own_max_model_len in E. rewrite E. destruct b; cbn [negb].
  - destruct (search_loop_ok usage mem c _ Hg (Z.to_nat (max_model_len c)) 1 (max_model_len c) 1 1 HN) as (L & k & EL & HL & Hfit & Hab).
    { constructor; [by apply Hb|lia|lia|by right|done|lia]. } { lia. }
    rewrite EL. exists L. split; [cbn; by destruct c|]. split; [lia|]. intros n Hn. split.
    + intros Hle. apply (fits_smaller usage mem c _ Hg n L); [lia|lia|done].
    + intros Hf. destruct (decide (n <= L)); [done|]. exfalso. apply (Hab n); [lia|done].
  - exists 0. split; [cbn; by destruct c|]. split; [lia|]. intros n Hn. split; [lia|]. intros Hf. exfalso.
    assert (Hno : ~ fits usage mem c 1) by (intros H'; by apply Hb in H'). apply Hno. apply (fits_smaller usage mem c _ Hg 1 n); [lia|lia|done].
Qed.

(** The configuration is restored whatever happens. *)
Lemma search_loop_frame usage mem fuel : forall left right found s, exists k, (search_loop usage mem fuel left right found s).2 = set_max_model_len k s.
Proof.
  induction fuel as [|fuel IH]; intros left right found s; cbn [search_loop]; destruct (left <=? right);
    try by (exists (max_model_len s); by rewrite set_own_max_model_len).
  unfold fits_in_memory, mbind, M_bind, modify, get, of_result. cbn. destruct (usage _) as [v|e]; cbn; [|by eexists].
  destruct (v <=? mem); match goal with |- context [search_loop _ _ _ ?l ?r ?f ?s'] => destruct (IH l r f s') as [k ->] end; by exists k.
Qed.
Lemma search_restores usage mem s : (search_max_model_len usage mem s).2 = s.
Proof.
  unfold search_max_model_len, finally, fits_in_memory, mbind, M_bind, modify, get, of_result. cbn.
  destruct (usage _) as [v|e]; cbn; [|by destruct s]. destruct (v <=? mem); cbn; [|by destruct s].
  match goal with |- context [search_loop ?u ?m ?f ?l ?r ?x ?s'] => destruct (search_loop_frame u m f l r x s') as [k E]; destruct (search_loop u m f l r x s') as [? ?] end.
  cbn in *. subst. by destruct s.
Qed.

(** ** The memory of a request in all groups *)

Definition group_ok (c : VllmConfig) (g : KVCacheGroupSpec) : Prop :=
  match kv_cache_spec g with OneSpec s => spec_ok c s | UniformSpecs u => uniform_ok c u end.
Definition group_page (g : KVCacheGroupSpec) : Z :=
  match kv_cache_spec g with OneSpec s => page_of s | UniformSpecs u => u_page u end.
Definition group_blocks (c : VllmConfig) (g : KVCacheGroupSpec) : Z :=
  match kv_cache_spec g with OneSpec s => blocks_needed c s | UniformSpecs u => u_blocks c u end.

(** Groups whose layers are not all listed one by one share one page size. *)
Record groups_ok (c : VllmConfig) (groups : list KVCacheGroupSpec) : Prop := {
  go_each g : g ∈ groups -> group_ok c g;
  go_page : forallb is_uniform_spec groups = false -> exists p, forall g, g ∈ groups -> group_page g = p
}.

Lemma group_page_exact c g : group_ok c g -> group_page_size_bytes (kv_cache_spec g) = Ok (group_page g).
Proof. unfold group_ok, group_page, group_page_size_bytes. destruct (kv_cache_spec g); [apply ok_page|apply u_page_exact]. Qed.
Lemma group_page_pos c g : group_ok c g -> 0 < group_page g.
Proof. unfold group_ok, group_page. destruct (kv_cache_spec g); [apply ok_page_pos|apply u_page_pos]. Qed.
Lemma group_memory_exact c g : config_ok c -> group_ok c g -> group_max_memory c (kv_cache_spec g) = Ok (group_blocks c g * group_page g).
Proof.
  unfold group_ok, group_page, group_max_memory, group_blocks. destruct (kv_cache_spec g); [apply max_memory_exact|apply u_memory_exact].
Qed.
Lemma group_blocks_mono c g n m : config_ok c -> group_ok c g -> n <= m ->
  group_blocks (set_max_model_len n c) g <= group_blocks (set_max_model_len m c) g.
Proof. unfold group_ok, group_blocks. destruct (kv_cache_spec g); [apply blocks_needed_mono|apply u_blocks_mono]. Qed.
Lemma group_ok_set c n g : group_ok c g -> group_ok (set_max_model_len n c) g.
Proof. unfold group_ok. destruct (kv_cache_spec g); [apply spec_ok_set|apply uniform_ok_set]. Qed.
Lemma groups_ok_set c n groups : groups_ok c groups -> groups_ok (set_max_model_len n c) groups.
Proof. intros [H1 H2]. split; [|done]. intros g Hg. by apply group_ok_set, H1. Qed.

Lemma uniform_page_exact c groups p : groups <> [] -> (forall g, g ∈ groups -> group_ok c g) -> (forall g, g ∈ groups -> group_page g = p) ->
  get_uniform_page_size (kv_cache_spec <$> groups) = Ok p.
Proof.
  intros Hne Hok Hp. unfold get_uniform_page_size. apply bind_ok. exists (group_page <$> groups). split.
  - apply map_r_ok, Forall2_fmap_2, Forall_Forall2_diag, Forall_forall. intros g Hg. by apply (group_page_exact c), Hok.
  - apply one_value_ok. split; [by intros ?%fmap_nil_inv|]. intros y (g & -> & Hg)%list_elem_of_fmap. by apply Hp.
Qed.

Lemma zsum_le {A} (f g : A -> Z) l : (forall x, x ∈ l -> f x <= g x) -> zsum (f <$> l) <= zsum (g <$> l).
Proof.
  induction l as [|x l IH]; intros H; [done|]. rewrite !fmap_cons, !zsum_cons.
  pose proof (H x ltac:(by left)). specialize (IH ltac:(intros y Hy; apply H; by right)). lia.
Qed.
Lemma zsum_nonneg {A} (f : A -> Z) l : (forall x, x ∈ l -> 0 <= f x) -> 0 <= zsum (f <$> l).
Proof. intros H. pose proof (zsum_le (fun _ => 0) f l H) as Hle. rewrite <- Hle. clear. induction l; [done|]. rewrite fmap_cons, zsum_cons. lia. Qed.
Lemma zsum_scale {A} (f : A -> Z) k l : zsum ((fun x => k * f x) <$> l) = k * zsum (f <$> l).
Proof. induction l as [|x l IH]; [cbn; lia|]. rewrite !fmap_cons, !zsum_cons, IH. lia. Qed.

(** The layers of the largest group. *)
Definition widest (groups : list KVCacheGroupSpec) : Z := match largest_group groups with Ok n => n | Err _ => 0 end.
Lemma widest_spec groups : groups <> [] -> largest_group groups = Ok (widest groups) /\
  (forall g, g ∈ groups -> zlen (layer_names g) <= widest groups) /\ exists g, g ∈ groups /\ widest groups = zlen (layer_names g).
Proof.
  intros Hne. unfold widest, largest_group. destruct (max_of_total ((fun g => zlen (layer_names g)) <$> groups)) as [m E]; [by intros ?%fmap_nil_inv|].
  rewrite E. apply max_of_ok in E as [Hin Hle]. split; [done|]. split.
  - intros g Hg. apply Hle, list_elem_of_fmap. by exists g.
  - apply list_elem_of_fmap in Hin as (g & -> & Hg). by exists g.
Qed.

Lemma memory_one_page c groups p : config_ok c -> groups_ok c groups -> forallb is_uniform_spec groups = false ->
  (forall g, g ∈ groups -> group_page g = p) ->
  max_memory_usage_bytes_from_groups c groups = Ok (widest groups * p * zsum (group_blocks c <$> groups)).
Proof.
  intros Hc [Hok _] Hu Hp. assert (Hne : groups <> []) by by intros ->.
  assert (Hs : single_uniform groups = None).
  { destruct groups as [|g [|]]; [done| |done]. cbn in *. unfold is_uniform_spec in Hu. by destruct (uniform_of (kv_cache_spec g)). }
  unfold max_memory_usage_bytes_from_groups. destruct groups as [|g0 l] eqn:E; [done|]. rewrite <- E in *. rewrite Hs, Hu.
  destruct (widest_spec groups Hne) as (-> & _). cbn. rewrite (uniform_page_exact c groups p Hne Hok Hp). cbn.
  rewrite (map_r_fmap _ (group_blocks c)); [done|]. intros g Hg. rewrite (group_memory_exact c g Hc (Hok g Hg)). cbn.
  rewrite (Hp g Hg). pose proof (group_page_pos c g (Hok g Hg)) as Hpos. rewrite (Hp g Hg) in Hpos. unfold cdiv_r.
  destruct (Z.eqb_spec p 0); [lia|]. by rewrite cdiv_mul.
Qed.

Lemma memory_single c groups u : config_ok c -> groups_ok c groups -> single_uniform groups = Some u ->
  max_memory_usage_bytes_from_groups c groups = Ok (zsum ((fun ns => blocks_needed c ns.2 * page_of ns.2) <$> kv_cache_specs u)) /\ uniform_ok c u.
Proof.
  intros Hc [Hok _] Hs. unfold max_memory_usage_bytes_from_groups. destruct groups as [|g [|]]; [done| |done]. rewrite Hs.
  assert (Hu : uniform_ok c u). { specialize (Hok g ltac:(by left)). unfold group_ok in Hok. cbn in Hs. by destruct (kv_cache_spec g); [|injection Hs as ->]. }
  split; [|done]. cbn. rewrite (map_r_fmap _ (fun ns => blocks_needed c ns.2 * page_of ns.2)); [done|]. intros ns Hns. by apply max_memory_exact, Hu.
Qed.

Definition tuple_count (u : UniformTypeKVCacheSpecs) : Z := match get_num_layer_tuples u with Ok n => n | Err _ => 0 end.
Definition pages_list (u : UniformTypeKVCacheSpecs) : list Z := (fun ns => page_of ns.2) <$> kv_cache_specs u.

Lemma pages_list_exact c u : uniform_ok c u -> map_r (fun ns => page_size_bytes ns.2) (kv_cache_specs u) = Ok (pages_list u).
Proof. intros [_ H]. apply map_r_fmap. intros ns Hns. by apply (ok_page c), H. Qed.
Lemma tuple_count_exact c u : uniform_ok c u -> get_num_layer_tuples u = Ok (tuple_count u) /\
  (forall p, p ∈ pages_list u -> zlen (filter (fun q => q = p) (pages_list u)) <= tuple_count u).
Proof.
  intros Hu. unfold tuple_count, get_num_layer_tuples. rewrite (pages_list_exact c u Hu). cbn.
  assert (Hne : pages_list u <> []) by (destruct Hu as [Hne _]; by intros ?%fmap_nil_inv).
  destruct (pages_list u) as [|p l] eqn:E; [done|]. rewrite <- E in *.
  destruct (max_of_total ((fun p => zlen (filter (fun q => q = p) (pages_list u))) <$> pages_list u)) as [m Em]; [by intros ?%fmap_nil_inv|].
  rewrite Em. split; [done|]. apply max_of_ok in Em as [_ Hle]. intros q Hq. apply Hle, list_elem_of_fmap. by exists q.
Qed.

Definition tuples_of (us : list UniformTypeKVCacheSpecs) : Z := match max_of (tuple_count <$> us) with Ok n => n | Err _ => 0 end.

Lemma memory_tuples c groups us u : config_ok c -> groups_ok c groups -> single_uniform groups = None ->
  kv_cache_spec <$> groups = UniformSpecs <$> us -> head us = Some u ->
  max_memory_usage_bytes_from_groups c groups =
    Ok (zsum ((fun u' => tuples_of us * u_blocks c u' * zsum (remove_dups (pages_list u))) <$> us)) /\
  (forall u', u' ∈ us -> uniform_ok c u').
Proof.
  intros Hc [Hok _] Hs Eus Hu.
  assert (Hforall : Forall2 (fun g u => kv_cache_spec g = UniformSpecs u) groups us).
  { apply Forall2_fmap. rewrite Eus. apply Forall_Forall2_diag, Forall_forall. done. }
  assert (Hall : forall u', u' ∈ us -> uniform_ok c u').
  { intros u' (i & Hi)%list_elem_of_lookup. destruct (Forall2_lookup_r _ _ _ _ _ Hforall Hi) as (g & Hg & Eg).
    specialize (Hok g ltac:(by eapply list_elem_of_lookup_2)). unfold group_ok in Hok. by rewrite Eg in Hok. }
  split; [|done]. assert (Hb : forallb is_uniform_spec groups = true).
  { apply forallb_forall. intros g Hg%list_elem_of_In. apply list_elem_of_lookup in Hg as (i & Hi).
    destruct (Forall2_lookup_l _ _ _ _ _ Hforall Hi) as (u' & _ & Eg). unfold is_uniform_spec. by rewrite Eg. }
  unfold max_memory_usage_bytes_from_groups. destruct groups as [|g l]; [by apply Forall2_nil_inv_l in Hforall as ->|]. rewrite Hs, Hb.
  unfold deepseek_v4_max_memory. assert (E1 : map_r (fun g => or_raise AttributeError (uniform_of (kv_cache_spec g))) (g :: l) = Ok us).
  { apply map_r_ok. eapply Forall2_impl; [exact Hforall|]. intros ? ? E. cbn beta in *. by rewrite E. }
  assert (Hin : u ∈ us) by (destruct us; [done|injection Hu as ->; by left]).
  rewrite E1. cbn. rewrite Hu. cbn. unfold get_page_sizes at 1. rewrite (pages_list_exact c u (Hall u Hin)). cbn.
  rewrite (map_r_fmap get_num_layer_tuples tuple_count) by (intros u' Hu'; by apply (tuple_count_exact c), Hall). cbn. unfold tuples_of.
  destruct (max_of_total (tuple_count <$> us)) as [m ->]; [by intros ->%fmap_nil_inv|]. cbn.
  rewrite (map_r_fmap (u_max_memory_usage_pages c) (u_blocks c)) by (intros u' Hu'; by apply u_pages_exact, Hall). cbn. by rewrite <- list_fmap_compose.
Qed.

Lemma uniform_groups groups : forallb is_uniform_spec groups = true -> exists us, kv_cache_spec <$> groups = UniformSpecs <$> us.
Proof.
  induction groups as [|g groups IH]; [by exists []|]. cbn. intros [Hg H]%andb_true_iff. destruct (IH H) as [us E].
  unfold is_uniform_spec in Hg. destruct (kv_cache_spec g) as [|u]; [done|]. exists (u :: us). cbn. by rewrite E.
Qed.

Lemma tuple_count_nonneg c u : uniform_ok c u -> 0 <= tuple_count u.
Proof.
  intros Hu. destruct (tuple_count_exact c u Hu) as [_ H]. destruct Hu as [Hne _]. destruct (kv_cache_specs u) as [|ns l] eqn:E; [done|].
  pose proof (H (page_of ns.2)) as Hle. unfold pages_list in Hle. rewrite E in Hle. specialize (Hle ltac:(by left)). lia.
Qed.

Lemma tuples_of_le us u : u ∈ us -> tuple_count u <= tuples_of us.
Proof.
  intros Hu. unfold tuples_of. destruct (max_of_total (tuple_count <$> us)) as [m E]; [intros ->%fmap_nil_inv; by apply elem_of_nil in Hu|].
  rewrite E. apply max_of_ok in E as [_ Hle]. apply Hle, list_elem_of_fmap. by exists u.
Qed.

Lemma memory_grows c groups N : config_ok c -> groups_ok c groups -> groups <> [] ->
  usage_grows (fun c => max_memory_usage_bytes_from_groups c groups) c N.
Proof.
  intros Hc Hg Hne n m Hnm _. pose proof (config_ok_set c n Hc) as Hcn. pose proof (config_ok_set c m Hc) as Hcm.
  pose proof (groups_ok_set c n groups Hg) as Hgn. pose proof (groups_ok_set c m groups Hg) as Hgm. cbn beta.
  destruct (single_uniform groups) as [u|] eqn:Hs.
  - destruct (memory_single _ groups u Hcn Hgn Hs) as [-> _]. destruct (memory_single _ groups u Hcm Hgm Hs) as [-> _].
    destruct (memory_single c groups u Hc Hg Hs) as [_ [_ Hu]].
    do 2 eexists. split; [done|]. split; [done|]. apply zsum_le. intros ns Hns. pose proof (ok_page_pos c ns.2 (Hu ns Hns)).
    pose proof (blocks_needed_mono c ns.2 n m Hc (Hu ns Hns) ltac:(lia)). nia.
  - destruct (forallb is_uniform_spec groups) eqn:Hb.
    + destruct (uniform_groups groups Hb) as [us Eus]. destruct us as [|u us']; [by apply fmap_nil_inv in Eus|]. set (us := u :: us') in *.
      destruct (memory_tuples _ groups us u Hcn Hgn Hs Eus eq_refl) as [-> _]. destruct (memory_tuples _ groups us u Hcm Hgm Hs Eus eq_refl) as [-> _].
      destruct (memory_tuples c groups us u Hc Hg Hs Eus eq_refl) as [_ Hu].
      do 2 eexists. split; [done|]. split; [done|]. apply zsum_le. intros u' Hu'.
      pose proof (u_blocks_mono c u' n m Hc (Hu u' Hu') ltac:(lia)). pose proof (tuples_of_le us u' Hu'). pose proof (tuple_count_nonneg c u' (Hu u' Hu')).
      assert (0 <= zsum (remove_dups (pages_list u))); [|apply Z.mul_le_mono_nonneg_r; [done|apply Z.mul_le_mono_nonneg_l; lia]].
      rewrite <- (list_fmap_id (remove_dups _)). apply zsum_nonneg. intros p Hp. apply (proj1 (elem_of_remove_dups _ _)) in Hp. unfold pages_list in Hp.
      apply list_elem_of_fmap in Hp as (ns & -> & Hns). pose proof (ok_page_pos c ns.2 (proj2 (Hu u ltac:(by left)) ns Hns)). cbn. lia.
    + destruct (go_page c groups Hg Hb) as [p Hp].
      rewrite (memory_one_page _ groups p Hcn Hgn Hb Hp), (memory_one_page _ groups p Hcm Hgm Hb Hp).
      do 2 eexists. split; [done|]. split; [done|]. destruct (widest_spec groups Hne) as (_ & _ & g & Hin & Ew).
      assert (0 < p) by (rewrite <- (Hp g Hin); by apply (group_page_pos c), Hg).
      pose proof (zsum_le (group_blocks (set_max_model_len n c)) (group_blocks (set_max_model_len m c)) groups) as Hle.
      specialize (Hle ltac:(intros g' Hg'; apply group_blocks_mono; [done|by apply Hg|lia])). apply Z.mul_le_mono_nonneg_l; lia.
Qed.

(** C12. The estimate of the maximum model length is exact. For the groups of any
    model with layers of positive sizes the binary search terminates without an
    exception and leaves the configuration as it was, and a length up to the
    configured one fits the memory if and only if it is at most the estimate. *)
Theorem estimate_is_longest c groups mem : config_ok c -> groups_ok c groups -> groups <> [] -> 1 <= max_model_len c ->
  exists L, estimate_max_model_len_from_groups groups mem c = (Ok L, c) /\ 0 <= L <= max_model_len c /\
    forall n, 1 <= n <= max_model_len c ->
      (n <= L <-> exists v, max_memory_usage_bytes_from_groups (set_max_model_len n c) groups = Ok v /\ v <= mem).
Proof.
  intros Hc Hg Hne HN.
  exact (search_ok (fun c => max_memory_usage_bytes_from_groups c groups) mem c HN (memory_grows c groups (max_model_len c) Hc Hg Hne)).
Qed.
End config.
End KVConfigSafety.
