(* ===== verification/KVGroupSafety.v ===== *)
(** * KVGroupSafety

    The groups of layers cut up the model: every layer is in one group, once. In a
    model with several kinds of layers a group has layers of one kind only, as many
    as the chosen size at most. *)

From S2P Require Import Prelude OrderedDict PyNum RequestQueue KVSpec KVSpecSafety KVConfig KVConfigSafety.

Module KVGroupSafety.
Import OrderedDict PyNum RequestQueue KVSpec KVSpecSafety KVConfig KVConfigSafety.
#[local] Open Scope Z_scope.

(** ** Lists *)

Section lists.
Context {A : Type}.

Lemma concat_perm (l l' : list (list A)) : l ≡ₚ l' -> concat l ≡ₚ concat l'.
Proof. intros H. induction H as [|x l l' _ IH|x y l|l l' l'' _ IH1 _ IH2]; cbn; [done|by rewrite IH|by rewrite !app_assoc, (Permutation_app_comm y x)|by rewrite IH1]. Qed.

Lemma concat_app_each {B} (f g : B -> list A) l : concat ((fun i => f i ++ g i) <$> l) ≡ₚ concat (f <$> l) ++ concat (g <$> l).
Proof.
  induction l as [|x l IH]; [done|]. rewrite !fmap_cons. cbn. rewrite IH. rewrite <- !app_assoc. f_equiv.
  rewrite !app_assoc. f_equiv. apply Permutation_app_comm.
Qed.

(** One of the lists has one element. *)
Lemma concat_only {B} `{EqDecision B} (i : B) (a : A) l : NoDup l -> i ∈ l -> concat ((fun j => if decide (j = i) then [a] else []) <$> l) = [a].
Proof.
  induction l as [|x l IH]; [by intros _ ?%elem_of_nil|]. intros [Hx Hn]%NoDup_cons. rewrite fmap_cons. cbn.
  destruct (decide (x = i)) as [->|Hxi]; intros Hi.
  - cbn. f_equal. clear -Hx. induction l as [|y l IH]; [done|]. rewrite fmap_cons. cbn. rewrite decide_False by set_solver. apply IH. set_solver.
  - apply elem_of_cons in Hi as [->|Hi]; [done|]. by apply IH.
Qed.

Lemma slice_index i j n : (i < n)%nat -> (i <= j /\ (j - i) mod n = 0)%nat <-> i = (j mod n)%nat.
Proof.
  intros Hi. split.
  - intros [Hle Hm]. apply Nat.Div0.mod_divides in Hm as [k Hk]. apply Nat.mod_unique with k; lia.
  - intros ->. pose proof (Nat.div_mod_eq j n). split; [apply Nat.Div0.mod_le|].
    apply Nat.Div0.mod_divides. exists (j / n)%nat. lia.
Qed.

(** The slices with all offsets are the whole list. *)
Lemma slices_perm n (l : list A) : (0 < n)%nat -> concat ((fun i => slice_from i n l) <$> seq 0 n) ≡ₚ l.
Proof.
  intros Hn. assert (Hgen : forall z : list (nat * A),
    concat ((fun i => snd <$> filter (fun jx => (i <= jx.1)%nat /\ ((jx.1 - i) mod n = 0)%nat) z) <$> seq 0 n) ≡ₚ z.*2).
  { induction z as [|[j x] z IH].
    - assert (E : forall k, concat ((fun _ : nat => @nil A) <$> k) = []) by (induction k; done). by rewrite E.
    - cbn [fmap list_fmap snd]. rewrite <- IH. transitivity (concat ((fun i => (if decide (i = (j mod n)%nat) then [x] else [])
        ++ (snd <$> filter (fun jx => (i <= jx.1)%nat /\ ((jx.1 - i) mod n = 0)%nat) z)) <$> seq 0 n)).
      + apply reflexive_eq. f_equal. apply list_fmap_ext. intros k i Hk. apply lookup_seq in Hk as [-> Hk]. rewrite Nat.add_0_l in *.
        rewrite filter_cons. cbn [fst]. pose proof (slice_index k j n Hk) as Hiff.
        destruct (decide (k = (j mod n)%nat)) as [E|E]; [rewrite decide_True by (by apply Hiff)|rewrite decide_False by (by intros ?%Hiff)]; reflexivity.
      + rewrite concat_app_each. rewrite concat_only; [done|apply NoDup_seq|]. apply elem_of_seq. pose proof (Nat.mod_upper_bound j n). lia. }
  unfold slice_from. rewrite Hgen, snd_zip; [done|]. by rewrite length_seq.
Qed.

Lemma div_next i k n : (i < n)%nat ->
  ((k + 1 + n - 1 - i) / n = (k + n - 1 - i) / n + (if decide (i = (k mod n)%nat) then 1 else 0))%nat.
Proof.
  intros Hi. pose proof (Nat.div_mod_eq k n) as Hk. pose proof (Nat.mod_upper_bound k n ltac:(clear -Hi; lia)) as Hr.
  set (q := (k / n)%nat) in *. set (r := (k mod n)%nat) in *. clearbody q r. subst k.
  assert (Hq : forall x p, (x < n -> (n * p + x) / n = p)%nat) by (intros x p Hx; symmetry; by apply Nat.div_unique with x).
  destruct (decide (i = r)) as [->|Hne].
  - replace (n * q + r + 1 + n - 1 - r)%nat with (n * (q + 1) + 0)%nat by nia. replace (n * q + r + n - 1 - r)%nat with (n * q + (n - 1))%nat by lia.
    rewrite !Hq by lia. lia.
  - destruct (decide (r < i)%nat).
    + replace (n * q + r + 1 + n - 1 - i)%nat with (n * q + (r + n - i))%nat by lia. replace (n * q + r + n - 1 - i)%nat with (n * q + (r + n - 1 - i))%nat by lia.
      rewrite !Hq by lia. lia.
    + replace (n * q + r + 1 + n - 1 - i)%nat with (n * (q + 1) + (r - i))%nat by nia. replace (n * q + r + n - 1 - i)%nat with (n * (q + 1) + (r - i - 1))%nat by nia.
      rewrite !Hq by lia. lia.
Qed.

Lemma slice_length i n (l : list A) : (i < n)%nat -> length (slice_from i n l) = ((length l + n - 1 - i) / n)%nat.
Proof.
  intros Hi. unfold slice_from. rewrite length_fmap. induction l as [|x l IH] using rev_ind.
  - cbn. symmetry. apply Nat.div_small. lia.
  - rewrite length_app, seq_app, zip_with_app by (by rewrite length_seq). rewrite filter_app, length_app, IH. cbn [seq zip_with length Nat.add].
    rewrite div_next by done. f_equal. rewrite filter_cons, filter_nil. cbn [fst]. pose proof (slice_index i (length l) n Hi) as Hiff.
    destruct (decide (i = (length l mod n)%nat)); [rewrite decide_True by (by apply Hiff)|rewrite decide_False by (by intros ?%Hiff)]; reflexivity.
Qed.

Lemma slice_elem i n (l : list A) x : x ∈ slice_from i n l -> x ∈ l.
Proof.
  unfold slice_from. intros ([j y] & -> & [_ Hin]%list_elem_of_filter)%list_elem_of_fmap. cbn. by apply elem_of_zip_r in Hin.
Qed.

Lemma split_layers_ok group_size (l : list A) : 1 <= group_size -> l <> [] -> exists gs, split_layers group_size l = Ok gs /\
  concat gs ≡ₚ l /\ (forall g, g ∈ gs -> 1 <= zlen g <= group_size /\ forall x, x ∈ g -> x ∈ l).
Proof.
  intros Hg Hl. unfold split_layers, cdiv_r. destruct (Z.eqb_spec group_size 0); [lia|]. cbn. eexists; split; [reflexivity|].
  set (k := Z.to_nat (cdiv (zlen l) group_size)). assert (Hlen : (0 < length l)%nat) by (destruct l; [done|cbn; lia]).
  assert (Hc : 1 <= cdiv (zlen l) group_size /\ zlen l <= cdiv (zlen l) group_size * group_size).
  { pose proof (proj1 (cdiv_le_iff (zlen l) group_size _ ltac:(lia)) (Z.le_refl _)). split; [|done].
    destruct (decide (cdiv (zlen l) group_size <= 0)) as [Hle|]; [|lia]. apply cdiv_le_iff in Hle; lia. }
  assert (Hle : (k <= length l)%nat).
  { assert (cdiv (zlen l) group_size <= zlen l) by (apply cdiv_le_iff; nia). unfold k. lia. }
  split; [apply slices_perm; lia|].
  intros g (i & -> & Hi)%list_elem_of_fmap. apply elem_of_seq in Hi. split; [|by intros x; apply slice_elem].
  rewrite slice_length by lia. split.
  - assert (1 <= (length l + k - 1 - i) / k)%nat; [|lia]. apply Nat.div_le_lower_bound; lia.
  - assert ((length l + k - 1 - i) / k <= Z.to_nat group_size)%nat; [|lia]. apply Nat.lt_succ_r, Nat.Div0.div_lt_upper_bound. nia.
Qed.

(** *** Dictionaries of lists *)

Context {K : Type} `{EqDecision K}.

Lemma append_to_perm (k : K) (x : A) d : concat (append_to k x d).*2 ≡ₚ concat d.*2 ++ [x].
Proof.
  induction d as [|[k' l] d IH]; [done|]. cbn. destruct (decide (k = k')) as [->|]; cbn.
  - rewrite <- !app_assoc. f_equiv. apply Permutation_app_comm.
  - rewrite IH. by rewrite app_assoc.
Qed.
Lemma append_to_elem (k : K) (x : A) d k' l' : (k', l') ∈ append_to k x d ->
  (k', l') ∈ d \/ (k' = k /\ exists l, l' = l ++ [x] /\ (l = [] \/ (k, l) ∈ d)).
Proof.
  induction d as [|[k0 l0] d IH]; cbn.
  - intros [= -> ->]%list_elem_of_singleton. right. split; [done|]. exists []. by split; [|left].
  - destruct (decide (k = k0)) as [->|Hk]; intros [[= -> ->]|Hin]%elem_of_cons.
    + right. split; [done|]. exists l0. split; [done|]. right. by left.
    + left. by right.
    + left. by left.
    + destruct (IH Hin) as [?|(-> & l & -> & Hl)]; [left; by right|]. right. split; [done|]. exists l. split; [done|]. destruct Hl; [by left|right; by right].
Qed.
End lists.


Section groups.
Context `{TD : TorchDtype}.
#[local] Notation Specs := (list (string * KVCacheSpec)).
#[local] Notation names_of groups := (concat (layer_names <$> groups)).

(** ** Layers of the same kind *)

Lemma foldl_append_to {K} `{EqDecision K} {B A} (key : B -> K) (val : B -> A) (l : list B) :
  let d := foldl (fun d x => append_to (key x) (val x) d) [] l in
  concat d.*2 ≡ₚ val <$> l /\ forall k vs, (k, vs) ∈ d -> vs <> [] /\ forall v, v ∈ vs -> exists x, x ∈ l /\ key x = k /\ val x = v.
Proof.
  induction l as [|x l IH] using rev_ind; cbn zeta in *; [split; [done|by intros ? ? ?%elem_of_nil]|].
  rewrite foldl_app, fmap_app. cbn [foldl fmap list_fmap]. destruct IH as [IH1 IH2]. split.
  - rewrite append_to_perm. by rewrite IH1.
  - intros k vs [Hin|(-> & l0 & -> & Hl0)]%append_to_elem.
    + destruct (IH2 k vs Hin) as [Hne H]. split; [done|]. intros v Hv. destruct (H v Hv) as (y & Hy & ? & ?). exists y.
      split; [apply elem_of_app; by left|done].
    + split; [by destruct l0|]. intros v [Hv| ->%list_elem_of_singleton]%elem_of_app.
      * destruct Hl0 as [->|Hl0]; [by apply elem_of_nil in Hv|]. destruct (IH2 _ _ Hl0) as [_ H]. destruct (H v Hv) as (y & Hy & ? & ?).
        exists y. split; [apply elem_of_app; by left|done].
      * exists x. split; [apply elem_of_app; right; by apply list_elem_of_singleton|done].
Qed.

Lemma same_type_spec (specs : Specs) : concat (same_type_layers specs).*2 ≡ₚ specs.*1 /\
  forall s l, (s, l) ∈ same_type_layers specs -> l <> [] /\ forall n, n ∈ l -> (n, s) ∈ specs.
Proof.
  destruct (foldl_append_to (fun ns : string * KVCacheSpec => ns.2) (fun ns : string * KVCacheSpec => ns.1) specs) as [H1 H2]. split; [exact H1|].
  intros s l Hin. destruct (H2 s l Hin) as [Hne H]. split; [done|]. intros n Hn. by destruct (H n Hn) as ([? ?] & ? & <- & <-).
Qed.

Lemma choose_group_size_cases a b : choose_group_size a b = a \/ choose_group_size a b = b.
Proof. unfold choose_group_size. destruct (num_ltb _ _); auto. Qed.

(** ** Merging equal specs *)

Definition mergeable (s : KVCacheSpec) : bool :=
  match full_of s with Some f => negb (is_some (full_sliding_window f) && is_some (full_attention_chunk_size f)) | None => true end.

Lemma one_value_same {A} `{EqDecision A} (x : A) l : l <> [] -> (forall y, y ∈ l -> y = x) -> one_value l = Ok x.
Proof. intros. by apply one_value_ok. Qed.

Lemma omap_same {A B} (f : A -> option B) x y l : f x = Some y -> (forall z, z ∈ l -> z = x) -> omap f l = replicate (length l) y.
Proof.
  intros Hf. induction l as [|z l IH]; intros H; [done|]. cbn. rewrite (H z) by (by left). rewrite Hf. f_equal. apply IH. intros; apply H; by right.
Qed.
Lemma omap_none {A B} (f : A -> option B) x l : f x = None -> (forall z, z ∈ l -> z = x) -> omap f l = [].
Proof.
  intros Hf. induction l as [|z l IH]; intros H; [done|]. cbn. rewrite (H z) by (by left). rewrite Hf. apply IH. intros; apply H; by right.
Qed.

Section same.
Context (s : KVCacheSpec) (l : list KVCacheSpec) (Hl : l <> []) (Hs : forall t, t ∈ l -> t = s).

Lemma head_same : head l = Some s.
Proof. destruct l as [|t k]; [done|]. cbn. f_equal. apply Hs. by left. Qed.
Lemma forallb_same (P : KVCacheSpec -> bool) : P s = true -> forallb P l = true.
Proof. intros H. apply forallb_forall. intros t Ht%list_elem_of_In. by rewrite (Hs t Ht). Qed.
Lemma existsb_same (P : KVCacheSpec -> bool) : P s = false -> existsb P l = false.
Proof. intros H. apply not_true_is_false. intros (t & Ht%list_elem_of_In & HP)%existsb_exists. rewrite (Hs t Ht) in HP. congruence. Qed.
Lemma all_r_same (P : KVCacheSpec -> result bool) : P s = Ok true -> all_r P l = Ok true.
Proof. intros H. clear Hl. induction l as [|t k IH]; [done|]. cbn. rewrite (Hs t) by (by left). rewrite H. apply IH. intros; apply Hs; by right. Qed.
Lemma replicate_values {A} (y z : A) : z ∈ replicate (length l) y -> z = y.
Proof. by intros [? _]%elem_of_replicate. Qed.

Lemma merge_window_same (f : KVCacheSpec -> option Z) : merge_window_sizes (omap f l) = Ok (f s).
Proof.
  unfold merge_window_sizes. destruct (f s) as [w|] eqn:E.
  - rewrite (omap_same f s w l E Hs). destruct l as [|t k]; [done|]. assert (H : remove_dups (replicate (length (t :: k)) w) = [w]); [|by rewrite H].
    pose proof (proj2 (one_value_ok (replicate (length (t :: k)) w) w) ltac:(split; [done|intros z; apply (elem_of_replicate (length (t :: k)) w z)])) as Ho.
    unfold one_value in Ho. destruct (remove_dups _) as [|? [|]]; congruence.
  - by rewrite (omap_none f s l E Hs).
Qed.

Lemma full_merge_same a f : attention_of s = Some a -> full_of s = Some f -> isinstance s CFullAttentionSpec = true ->
  isinstance s CMLAAttentionSpec = false -> mergeable s = true -> full_merge l = Ok (a, f).
Proof.
  intros Ha Hf Hfull Hmla Hm. unfold full_merge. rewrite (forallb_same _ Hfull). cbn. rewrite (existsb_same _ Hmla). cbn.
  rewrite head_same. cbn. rewrite Ha, Hf. cbn. rewrite !merge_window_same, Hf. cbn.
  rewrite (forallb_same (fun t => bool_decide (attention_of t = Some a))) by by apply bool_decide_true.
  cbn. unfold mergeable in Hm. rewrite Hf in Hm. rewrite Hm. cbn. by destruct f.
Qed.

Lemma mla_merge_same a m : attention_of s = Some a -> mla_of s = Some m ->
  mla_merge_fields l = Ok (a, mkMLA (cache_dtype_str m) None (compress_ratio m) (model_version m)).
Proof.
  intros Ha Hm. unfold mla_merge_fields. rewrite (omap_same _ s a l Ha Hs), (omap_same _ s m l Hm Hs), !fmap_replicate.
  assert (Hone : forall A (E : EqDecision A) (x : A), one_value (replicate (length l) x) = Ok x).
  { intros A E x. apply one_value_same; [by destruct l|]. intros y. apply replicate_values. }
  rewrite !Hone. cbn. destruct l as [|t k]; [done|]. cbn. by destruct a.
Qed.
End same.

(** The merged spec has blocks and pages of the same size. *)
Lemma merge_same s l : l <> [] -> (forall t, t ∈ l -> t = s) -> mergeable s = true -> exists s', merge l = Ok s' /\
  block_size s' = block_size s /\ page_size_bytes s' = page_size_bytes s /\ type_of s' = type_of s /\
  (forall c, spec_ok c s -> spec_ok c s' /\ (dcp_replicated s = false -> blocks_needed c s' = blocks_needed c s)).
Proof.
  intros Hl Hs Hm. unfold merge. rewrite (head_same s l Hl Hs). cbn.
  assert (Hbase : (forall c, spec_ok c s -> spec_ok c s /\ (dcp_replicated s = false -> blocks_needed c s = blocks_needed c s))) by done.
  assert (Hb : exists s', base_merge l = Ok s' /\ block_size s' = block_size s /\ page_size_bytes s' = page_size_bytes s /\ type_of s' = type_of s /\
    (forall c, spec_ok c s -> spec_ok c s' /\ (dcp_replicated s = false -> blocks_needed c s' = blocks_needed c s))).
  { exists s. unfold base_merge. destruct l as [|t k]; [done|]. rewrite (Hs t) by (by left).
    rewrite (proj2 (forallb_forall _ _)); [done|]. intros u Hu%list_elem_of_In. apply bool_decide_true, Hs. by right. }
  assert (Hspec : forall c s', block_size s' = block_size s -> page_size_bytes s' = page_size_bytes s -> kind_ok c s' -> spec_ok c s -> spec_ok c s').
  { intros c s' E1 E2 Hk [H1 H2 H3 _]. constructor; [by rewrite E1| | |done]; unfold page_of in *; by rewrite E2. }
  destruct s as [a f|a f n|a f m|a f m|a f n|a n|a w hv|a w hv m d|m|a|a]; try exact Hb.
  - rewrite (full_merge_same _ l Hl Hs a f) by done. cbn. eexists. split; [done|]. exact (conj eq_refl (conj eq_refl (conj eq_refl Hbase))).
  - unfold tq_merge. rewrite (full_merge_same _ l Hl Hs a f) by done. cbn. rewrite (head_same _ l Hl Hs). cbn.
    rewrite (all_r_same _ l Hs) by (cbn; by rewrite Z.eqb_refl). cbn. eexists. split; [done|]. exact (conj eq_refl (conj eq_refl (conj eq_refl Hbase))).
  - unfold mla_merge. rewrite (forallb_same _ l Hs) by done. cbn. rewrite (mla_merge_same _ l Hl Hs a m) by done. cbn.
    eexists. split; [done|]. split; [done|]. split; [done|]. split; [done|]. intros c Hok. split; [by apply Hspec|].
    intros Hd. unfold blocks_needed, full_blocks. cbn in *. by rewrite Hd.
  - unfold mla_merge. rewrite (forallb_same _ l Hs) by done. cbn. rewrite (mla_merge_same _ l Hl Hs a m) by done. cbn.
    eexists. split; [done|]. split; [done|]. split; [done|]. split; [done|]. intros c Hok. split; [by apply Hspec|].
    intros Hd. unfold blocks_needed, full_blocks. cbn in *. by rewrite Hd.
  - unfold sink_merge. rewrite (full_merge_same _ l Hl Hs a f) by done. cbn.
    eexists. split; [done|]. split; [done|]. split; [done|]. split; [done|]. intros c Hok. split; [by apply Hspec|].
    intros Hd. unfold blocks_needed, full_blocks. cbn in *. by rewrite Hd.
  - unfold window_mla_merge. rewrite (forallb_same _ l Hs) by done. cbn. rewrite (mla_merge_same _ l Hl Hs a m) by done. cbn.
    rewrite (omap_same _ _ w l eq_refl Hs), (omap_same _ _ d l eq_refl Hs).
    rewrite (one_value_same w); [|by destruct l|intros ?; apply replicate_values]. cbn.
    rewrite (one_value_same d); [|by destruct l|intros ?; apply replicate_values]. cbn.
    eexists. split; [done|]. split; [done|]. split; [done|]. split; [done|]. intros c Hok. split; [|done].
    apply Hspec; [done|done| |done]. exact (ok_kind c _ Hok).
Qed.
End groups.
(** ** Models with several kinds of layers *)

Section hybrid.
Context `{TD : TorchDtype}.
#[local] Notation Specs := (list (string * KVCacheSpec)).
#[local] Notation names_of groups := (concat (layer_names <$> groups)).

Lemma lookup_spec_in (specs : Specs) n s : NoDup specs.*1 -> (n, s) ∈ specs -> lookup_spec specs n = Ok s.
Proof. intros Hn Hin. unfold lookup_spec. apply or_raise_ok. by apply od_get_elem. Qed.
Lemma lookup_spec_ok (specs : Specs) n s : lookup_spec specs n = Ok s -> (n, s) ∈ specs.
Proof.
  unfold lookup_spec. intros H%or_raise_ok. induction specs as [|[n' s'] specs IH]; [done|]. cbn in H.
  destruct (decide (n = n')) as [->|]; [injection H as ->; by left|right; by apply IH].
Qed.

(** The layers of [g] have one spec, and so has the group, up to what a merged spec
    forgets. *)
Definition one_kind (specs : Specs) (g : KVCacheGroupSpec) : Prop := exists s s', kv_cache_spec g = OneSpec s' /\
  (forall n, n ∈ layer_names g -> (n, s) ∈ specs) /\ merge (replicate (length (layer_names g)) s) = Ok s' /\
  block_size s' = block_size s /\ page_size_bytes s' = page_size_bytes s /\ type_of s' = type_of s.

Lemma create_groups_ok (specs : Specs) grouped : NoDup specs.*1 ->
  (forall names, names ∈ grouped -> names <> [] /\ exists s, mergeable s = true /\ forall n, n ∈ names -> (n, s) ∈ specs) ->
  exists groups, create_kv_cache_group_specs specs grouped = Ok groups /\ layer_names <$> groups = grouped /\
    forall g, g ∈ groups -> one_kind specs g.
Proof.
  intros Hn H. unfold create_kv_cache_group_specs.
  assert (Hone : forall names, names ∈ grouped -> exists g,
    (layer_specs ← map_r (lookup_spec specs) names; merged ← merge layer_specs; Ok (new_group names (OneSpec merged))) = Ok g /\
    layer_names g = names /\ one_kind specs g).
  { intros names Hin. destruct (H names Hin) as (Hne & s & Hm & Hs).
    rewrite (map_r_fmap _ (fun _ => s)) by (intros n Hn'; by apply lookup_spec_in, Hs). cbn.
    destruct (merge_same s ((fun _ => s) <$> names)) as (s' & E & Hb & Hp & Ht & _); [by intros ?%fmap_nil_inv|by intros t (? & -> & _)%list_elem_of_fmap|done|].
    rewrite E. cbn. eexists. split; [done|]. split; [done|]. exists s, s'. split; [done|]. split; [done|]. split; [|done].
    cbn. rewrite <- E. f_equal. symmetry. clear. induction names as [|n names IH]; [done|]. cbn. by rewrite IH. }
  clear H. induction grouped as [|names grouped IH]; [exists []; split; [done|split; [done|by intros g ?%elem_of_nil]]|].
  destruct (Hone names ltac:(by left)) as (g & Eg & Hg & Hk). destruct IH as (groups & E & Hl & Hks); [intros; apply Hone; by right|].
  exists (g :: groups). cbn [map_r]. rewrite Eg. cbn. rewrite E. cbn. split; [done|]. split; [by rewrite Hg, Hl|].
  intros g' [->|Hg']%elem_of_cons; [done|by apply Hks].
Qed.

(** The names that are cut up, with the size of the groups. *)
Lemma uniform_page_size_cut (specs : Specs) : specs <> [] -> exists grouped size,
  get_kv_cache_groups_uniform_page_size specs = create_kv_cache_group_specs specs grouped /\
  concat grouped ≡ₚ specs.*1 /\
  forall names, names ∈ grouped -> 1 <= zlen names <= size /\ exists s, forall n, n ∈ names -> (n, s) ∈ specs.
Proof.
  intros Hne. destruct (same_type_spec specs) as [Hperm Hsame]. unfold get_kv_cache_groups_uniform_page_size. cbn zeta.
  set (same := same_type_layers specs) in *. assert (Hsne : same <> []).
  { intros E. rewrite E in Hperm. cbn in Hperm. apply Permutation_nil_l in Hperm. symmetry in Hperm. by apply fmap_nil_inv in Hperm. }
  set (lens := (fun kl : KVCacheSpec * list string => zlen kl.2) <$> same). assert (Hlne : lens <> []) by by intros ?%fmap_nil_inv.
  destruct (min_of_total lens Hlne) as [a Ha]. destruct (max_of_total lens Hlne) as [b Hb]. rewrite Ha. cbn. rewrite Hb. cbn.
  set (size := choose_group_size a b). assert (Hsize : 1 <= size).
  { assert (Hin : forall x, x ∈ lens -> 1 <= x).
    { intros x ([s l] & -> & Hin)%list_elem_of_fmap. destruct (Hsame s l Hin) as [Hl _]. cbn. destruct l; [done|cbn; lia]. }
    unfold size. destruct (choose_group_size_cases a b) as [-> | ->]; apply Hin; [apply (min_of_ok _ _ Ha)|apply (max_of_ok _ _ Hb)]. }
  assert (Hsplit : exists grouped, map_r (fun kl => split_layers size kl.2) same = Ok grouped /\ concat (concat grouped) ≡ₚ concat same.*2 /\
    forall names, names ∈ concat grouped -> 1 <= zlen names <= size /\ exists s, forall n, n ∈ names -> (n, s) ∈ specs).
  { clear -Hsame Hsize. induction same as [|[s l] same IH]; [exists []; split; [done|split; [done|by intros ? ?%elem_of_nil]]|].
    destruct IH as (grouped & E & Hp & Hg); [intros s' l' Hin; apply Hsame; by right|]. destruct (Hsame s l ltac:(by left)) as [Hl Hs].
    destruct (split_layers_ok size l Hsize Hl) as (gs & Egs & Hpgs & Hgs). exists (gs :: grouped). cbn [map_r snd]. rewrite Egs. cbn. rewrite E. cbn.
    split; [done|]. split; [by rewrite concat_app, Hpgs, Hp|]. intros names [Hin|Hin]%elem_of_app; [|by apply Hg].
    destruct (Hgs names Hin) as [? Hsub]. split; [done|]. exists s. intros n Hn'. by apply Hs, Hsub. }
  destruct Hsplit as (grouped & Egr & Hpgr & Hgr). rewrite Egr. cbn. exists (concat grouped), size. split; [done|]. split; [by rewrite Hpgr|done].
Qed.

Lemma hybrid_groups_ok (specs : Specs) : NoDup specs.*1 -> specs <> [] -> (forall ns, ns ∈ specs -> mergeable ns.2 = true) ->
  exists groups size, get_kv_cache_groups_uniform_page_size specs = Ok groups /\ names_of groups ≡ₚ specs.*1 /\ groups <> [] /\
    forall g, g ∈ groups -> 1 <= zlen (layer_names g) <= size /\ one_kind specs g.
Proof.
  intros Hn Hne Hm. destruct (uniform_page_size_cut specs Hne) as (grouped & size & -> & Hpgr & Hgr).
  destruct (create_groups_ok specs grouped Hn) as (groups & E & Hl & Hk).
  { intros names Hin. destruct (Hgr names Hin) as [Hlen (s & Hs)]. assert (Hnn : names <> []) by (intros ->; cbn in Hlen; lia). split; [done|].
    exists s. split; [|done]. destruct names as [|n names]; [done|]. apply (Hm (n, s)), Hs. by left. }
  exists groups, size. split; [done|]. split; [by rewrite Hl|]. split.
  - intros ->. cbn in Hl. rewrite <- Hl in Hpgr. cbn in Hpgr. apply Permutation_nil_l in Hpgr. symmetry in Hpgr. by apply fmap_nil_inv in Hpgr.
  - intros g Hg. split; [|by apply Hk]. apply Hgr. rewrite <- Hl. apply list_elem_of_fmap. by exists g.
Qed.

(** ** All models *)

Lemma map_values_keys (f : KVCacheSpec -> result KVCacheSpec) (specs specs' : Specs) :
  map_r (fun ns => s ← f ns.2; Ok (ns.1, s)) specs = Ok specs' -> Forall2 (fun ns ns' => ns'.1 = ns.1 /\ f ns.2 = Ok ns'.2) specs specs'.
Proof.
  intros H%map_r_ok. eapply Forall2_impl; [exact H|]. cbn. intros ns ns' (s & Hs & [= <-])%bind_ok. done.
Qed.
Lemma keys_preserved (f : KVCacheSpec -> result KVCacheSpec) (specs specs' : Specs) :
  map_r (fun ns => s ← f ns.2; Ok (ns.1, s)) specs = Ok specs' -> specs'.*1 = specs.*1.
Proof. intros H%map_values_keys. induction H as [|ns ns' l l' [E _] _ IH]; [done|]. cbn. by rewrite E, IH. Qed.

Lemma create_groups_names (specs : Specs) grouped groups : create_kv_cache_group_specs specs grouped = Ok groups -> layer_names <$> groups = grouped.
Proof.
  intros H%map_r_ok. induction H as [|names g l l' Hg _ IH]; [done|]. cbn. rewrite IH. f_equal.
  apply bind_ok in Hg as (? & _ & (? & _ & [= <-])%bind_ok). done.
Qed.

Lemma uniform_page_size_names (specs : Specs) groups : get_kv_cache_groups_uniform_page_size specs = Ok groups -> names_of groups ≡ₚ specs.*1.
Proof.
  intros H. destruct (decide (specs = [])) as [->|Hne]; [done|]. destruct (uniform_page_size_cut specs Hne) as (grouped & size & E & Hp & _).
  rewrite E in H. apply create_groups_names in H. by rewrite H.
Qed.

Lemma unify_page_size_keys (specs specs' : Specs) : unify_kv_cache_spec_page_size specs = Ok specs' -> specs'.*1 = specs.*1.
Proof.
  unfold unify_kv_cache_spec_page_size. intros (pages & _ & H)%bind_ok. destruct (_ <=? _)%nat; [by injection H as ->|]. by eapply keys_preserved.
Qed.

Lemma general_groups_names (specs : Specs) groups : general_groups specs = Ok groups -> names_of groups ≡ₚ specs.*1.
Proof.
  unfold general_groups. intros (specs' & Hu & (groups' & Hg & H)%bind_ok)%bind_ok. apply unify_page_size_keys in Hu. apply uniform_page_size_names in Hg.
  assert (Hsplit : (filter (fun ns => is_hidden ns = false) specs).*1 ++ (filter (fun ns => is_hidden ns = true) specs).*1 ≡ₚ specs.*1).
  { clear. rewrite <- fmap_app. apply fmap_Permutation. induction specs as [|ns specs IH]; [done|]. rewrite !filter_cons.
    destruct (is_hidden ns); [rewrite decide_False by done; rewrite decide_True by done|rewrite decide_True by done; rewrite decide_False by done].
    - rewrite <- Permutation_middle. by rewrite IH.
    - cbn. by rewrite IH. }
  destruct (filter (fun ns => is_hidden ns = true) specs) as [|h hs] eqn:Eh.
  - injection H as <-. rewrite Hg, Hu. cbn in Hsplit. by rewrite app_nil_r in Hsplit.
  - apply bind_ok in H as (p & _ & (hidden & Hh%map_r_ok & [= <-])%bind_ok). rewrite fmap_app, concat_app, Hg, Hu, <- Hsplit. f_equiv.
    clear -Hh. induction Hh as [|ns g l l' Hg _ IH]; [done|]. rewrite !fmap_cons. cbn. rewrite IH. unfold hidden_group in Hg.
    apply bind_ok in Hg as (? & _ & (? & _ & (? & _ & [= <-])%bind_ok)%bind_ok). done.
Qed.

Lemma zip_all_perm {A} n (ls : list (list A)) : (forall l, l ∈ ls -> length l = n) -> concat (zip_all n ls) ≡ₚ concat ls /\ length (zip_all n ls) = n.
Proof.
  revert ls. induction n as [|n IH]; intros ls H; cbn.
  - split; [|done]. assert (E : concat ls = []); [|by rewrite E]. induction ls as [|l ls IH]; [done|]. cbn.
    rewrite (nil_length_inv l) by (apply H; by left). apply IH. intros; apply H; by right.
  - destruct (IH (tail <$> ls)) as [IHp IHl].
    { intros l (l' & -> & Hl)%list_elem_of_fmap. specialize (H l' Hl). destruct l'; [done|]. cbn in *. lia. }
    split; [|by rewrite IHl]. rewrite IHp. clear -H. induction ls as [|l ls IH]; [done|]. destruct l as [|x l]; [by specialize (H [] ltac:(by left))|].
    rewrite fmap_cons. cbn. f_equiv. rewrite <- IH by (intros; apply H; by right). rewrite !app_assoc. f_equiv. apply Permutation_app_comm.
Qed.

Lemma uniform_specs_ok reg (specs : Specs) u : uniform_specs reg specs = Ok u -> kv_cache_specs u = specs /\ is_uniform_type reg specs = Ok true.
Proof.
  unfold uniform_specs, from_specs. intros (o & (b & Hb & Ho)%bind_ok & ->%or_raise_ok)%bind_ok. destruct b; [|done].
  apply bind_ok in Ho as (? & _ & [= <-]). done.
Qed.

(** The groups that one kind of layers is split into. *)
Lemma split_uniform_names reg sizes k (u : UniformTypeKVCacheSpecs) groups : 1 <= k -> split_uniform_group reg sizes k u = Ok groups ->
  names_of groups ≡ₚ (kv_cache_specs u).*1.
Proof.
  unfold split_uniform_group. intros Hk (ps & _ & (m1 & _ & (m2 & _ & [_ H]%assert_ok)%bind_ok)%bind_ok)%bind_ok.
  apply bind_ok in H as (padded & Hpad & H). cbn zeta in H.
  set (d := foldl (fun d cl => append_to cl.1 cl.2.1 d) [] padded) in *.
  destruct (foldl_append_to (fun cl : Z * (string * KVCacheSpec) => cl.1) (fun cl : Z * (string * KVCacheSpec) => cl.2.1) padded) as [Hd1 _]. fold d in Hd1.
  apply bind_ok in H as (n & [Hne Hn]%one_value_ok & H). apply bind_ok in H as (tgs & Ht & H).
  assert (Hlen : forall l, l ∈ d.*2 -> length l = Z.to_nat n).
  { intros l (kl & -> & Hkl)%list_elem_of_fmap. rewrite <- (Hn (zlen kl.2)); [lia|]. apply list_elem_of_fmap. by exists kl. }
  destruct (zip_all_perm (Z.to_nat n) d.*2 Hlen) as [Hzp Hzl].
  assert (Hnames : padded.*2.*1 = (kv_cache_specs u).*1).
  { apply map_r_ok in Hpad. clear -Hpad. induction Hpad as [|ns p l l' Hp _ IH]; [done|]. rewrite !fmap_cons. f_equal; [|done].
    apply bind_ok in Hp as (? & _ & (? & _ & (? & _ & [= <-])%bind_ok)%bind_ok). done. }
  assert (Ht' : concat tgs ≡ₚ zip_all (Z.to_nat n) d.*2).
  { destruct (zip_all (Z.to_nat n) d.*2) as [|t z] eqn:Ez.
    - unfold split_layers, cdiv_r in Ht. destruct (Z.eqb_spec k 0); [lia|].
      assert (E0 : cdiv (zlen (@nil (list string))) k = 0) by (unfold cdiv; cbn; by destruct k). rewrite E0 in Ht. cbn in Ht. by injection Ht as <-.
    - destruct (split_layers_ok k (t :: z) Hk ltac:(done)) as (gs & E & Hp & _). rewrite E in Ht. by injection Ht as <-. }
  assert (Hg : layer_names <$> groups = @concat string <$> tgs).
  { apply map_r_ok in H. clear -H. induction H as [|ts g l l' Hg _ IH]; [done|]. rewrite !fmap_cons. f_equal; [|done].
    apply bind_ok in Hg as (? & _ & (? & _ & [= <-])%bind_ok). done. }
  rewrite Hg. assert (Ec : concat (@concat string <$> tgs) = concat (concat tgs)).
  { clear. induction tgs as [|t tgs IH]; [done|]. rewrite fmap_cons. cbn. by rewrite concat_app, IH. }
  rewrite Ec, (concat_perm _ _ Ht'), Hzp, Hd1, <- Hnames. by rewrite <- list_fmap_compose.
Qed.

Lemma group_by_spec {K} `{EqDecision K} (key : KVCacheSpec -> option K) (specs : Specs) :
  concat (group_by key specs).*2 ≡ₚ filter (fun ns => is_some (key ns.2) = true) specs.
Proof.
  induction specs as [|ns specs IH] using rev_ind; [done|]. unfold group_by in *. rewrite foldl_app, filter_app, filter_cons, filter_nil. cbn [foldl].
  destruct (key ns.2) as [k|]; cbn [is_some].
  - rewrite append_to_perm, IH. by rewrite decide_True.
  - rewrite IH. rewrite decide_False by done. by rewrite app_nil_r.
Qed.

Lemma uniform_specs_concat reg (ds : list Specs) us : map_r (uniform_specs reg) ds = Ok us -> kv_cache_specs <$> us = ds.
Proof. intros H%map_r_ok. induction H as [|specs u l l' Hu _ IH]; [done|]. apply uniform_specs_ok in Hu as [Hu _]. rewrite fmap_cons. by rewrite Hu, IH. Qed.

(** The layers of the three kinds that are grouped together. *)
Definition is_mla (ns : string * KVCacheSpec) : bool := isinstance ns.2 CMLAAttentionSpec.
Definition groupable (s : KVCacheSpec) : bool := isinstance s CMLAAttentionSpec || is_some (swa_key s) || is_some (repl_key s).

Lemma three_kinds (specs : Specs) :
  filter (fun ns => isinstance ns.2 CMLAAttentionSpec = true) specs ++ (filter (fun ns => is_some (swa_key ns.2) = true) specs ++
    filter (fun ns => is_some (repl_key ns.2) = true) specs) ≡ₚ filter (fun ns => groupable ns.2 = true) specs.
Proof.
  induction specs as [|ns specs IH]; [done|]. rewrite !filter_cons.
  assert (Hcases : (isinstance ns.2 CMLAAttentionSpec = true /\ is_some (swa_key ns.2) = false /\ is_some (repl_key ns.2) = false) \/
    (isinstance ns.2 CMLAAttentionSpec = false /\ is_some (swa_key ns.2) = true /\ is_some (repl_key ns.2) = false) \/
    (isinstance ns.2 CMLAAttentionSpec = false /\ is_some (swa_key ns.2) = false)).
  { unfold repl_key. destruct ns.2; cbn; auto. }
  unfold groupable. destruct Hcases as [(-> & -> & ->)|[(-> & -> & ->)|(-> & ->)]]; cbn [orb].
  - rewrite !(decide_True (P := true = true)) by done. rewrite !(decide_False (P := false = true)) by done. apply perm_skip; exact IH.
  - rewrite !(decide_True (P := true = true)) by done. rewrite !(decide_False (P := false = true)) by done.
    rewrite <- app_comm_cons, <- Permutation_middle. apply perm_skip; exact IH.
  - rewrite !(decide_False (P := false = true)) by done. destruct (is_some (repl_key ns.2)).
    + rewrite !(decide_True (P := true = true)) by done. rewrite <- !Permutation_middle. apply perm_skip; exact IH.
    + rewrite !(decide_False (P := false = true)) by done. exact IH.
Qed.

Lemma mark_eagle_names n groups : layer_names <$> mark_eagle n groups = layer_names <$> groups.
Proof. induction groups as [|g groups IH]; [done|]. cbn. destruct (bool_decide _); [done|]. rewrite !fmap_cons. by rewrite IH. Qed.

Lemma approximate_gcd_pos l b k : approximate_gcd l b = Ok k -> 1 <= k.
Proof.
  unfold approximate_gcd. destruct l as [|x l]; [done|]. destruct (existsb _ _); [done|]. intros (m & _ & H)%bind_ok.
  set (d0 := Z.max 1 (default 1 b)) in *. assert (Hd : 1 <= d0) by lia. destruct (m <? d0); [by injection H as <-|]. injection H as <-.
  assert (Hall : forall ds best, 1 <= best.1 -> (forall d, d ∈ ds -> 1 <= d) -> 1 <= (foldl (better (x :: l)) best ds).1).
  { induction ds as [|d ds IH]; intros best Hb Hds; [done|]. cbn. apply IH; [|intros; apply Hds; by right]. specialize (Hds d ltac:(by left)).
    unfold better. destruct best.2; [|done]. by destruct (_ || _). }
  apply Hall; [done|]. intros d (i & -> & Hi)%list_elem_of_fmap. unfold zrange in Hi. apply list_elem_of_fmap in Hi as (j & -> & _). lia.
Qed.

Lemma uniform_groups_names reg c (specs : Specs) us groups groups' : group_and_unify_kv_cache_specs reg specs = Ok (Some us) ->
  get_kv_cache_groups_uniform_groups reg us = Ok groups' -> annotate_eagle_groups_deepseek_v4 c specs groups' = Ok groups ->
  names_of groups ≡ₚ (filter (fun ns => groupable ns.2 = true) specs).*1.
Proof.
  intros Hus Hg Ha. assert (E : layer_names <$> groups = layer_names <$> groups').
  { unfold annotate_eagle_groups_deepseek_v4 in Ha. destruct (negb (use_eagle c)); [by injection Ha as ->|]. destruct (negb _); [by injection Ha as ->|].
    apply bind_ok in Ha as (n & _ & [= <-]). apply mark_eagle_names. }
  rewrite E. clear Ha E. unfold group_and_unify_kv_cache_specs in Hus. destruct (negb _); [done|].
  rewrite <- three_kinds, !fmap_app. destruct (filter (fun ns => isinstance ns.2 CMLAAttentionSpec = true) specs) as [|m ms]; [done|].
  apply bind_ok in Hus as (mla & Hm & (others & Ho & [= <-])%bind_ok). apply uniform_specs_ok in Hm as [Hm _]. apply uniform_specs_concat in Ho.
  cbn [get_kv_cache_groups_uniform_groups] in Hg. apply assert_ok in Hg as [_ Hg]. apply bind_ok in Hg as (tuples & _ & Hg).
  apply bind_ok in Hg as (k & Hk & Hg). apply bind_ok in Hg as (_ & _ & Hg). apply assert_ok in Hg as [_ Hg].
  apply bind_ok in Hg as (sizes & _ & (swa & Hswa & [= <-])%bind_ok). apply approximate_gcd_pos in Hk.
  rewrite fmap_cons. cbn [new_group layer_names concat]. rewrite Hm. f_equiv.
  assert (Hnames : names_of (concat swa) ≡ₚ concat ((fun l : Specs => l.*1) <$> (kv_cache_specs <$> others))).
  { apply map_r_ok in Hswa. clear -Hswa Hk. induction Hswa as [|u gs l l' Hu _ IH]; [done|]. rewrite !fmap_cons. cbn [concat].
    rewrite fmap_app, concat_app, IH. f_equiv. by apply split_uniform_names in Hu. }
  rewrite Hnames, Ho, fmap_app, concat_app.
  assert (Hc : forall ls : list Specs, concat ((fun l : Specs => l.*1) <$> ls) = (concat ls).*1).
  { induction ls as [|x ls IH]; [done|]. rewrite fmap_cons. cbn. by rewrite IH, fmap_app. }
  rewrite !Hc. f_equiv; apply fmap_Permutation, group_by_spec.
Qed.

(** ** The groups of any model *)

Definition apart (s : KVCacheSpec) : bool := negb (isinstance s CSlidingWindowMLASpec) && negb (dcp_replicated s).

Lemma padding_keeps s s' : apply_alignment_padding s = Ok s' -> type_of s' = type_of s /\ full_of s' = full_of s /\ swa_key s' = swa_key s.
Proof.
  unfold apply_alignment_padding. destruct (mla_of s) as [m|]; [|by intros [= ->]]. destruct (alignment m) as [al|]; [|by intros [= ->]].
  intros (p & _ & (q & _ & [= <-])%bind_ok)%bind_ok. destruct (negb _); [|done]. by destruct s.
Qed.

Lemma as_full_kinds n s s' : as_full n s = Ok s' -> (groupable s = true -> groupable s' = true) /\ (apart s = true -> apart s' = true).
Proof.
  destruct s; cbn [as_full]; try by intros [= <-]. intros (Ht & Hf & _)%padding_keeps. split; [|done].
  intros _. unfold groupable, isinstance. by rewrite Ht.
Qed.

Lemma unify_hybrid_kinds reg (specs specs' : Specs) : unify_hybrid_kv_cache_specs reg specs = Ok specs' -> specs'.*1 = specs.*1 /\
  ((forall ns, ns ∈ specs -> groupable ns.2 = true) -> forall ns, ns ∈ specs' -> groupable ns.2 = true) /\
  ((forall ns, ns ∈ specs -> apart ns.2 = true) -> forall ns, ns ∈ specs' -> apart ns.2 = true).
Proof.
  unfold unify_hybrid_kv_cache_specs. intros (b & _ & H)%bind_ok. destruct b; [by injection H as <-|]. cbn zeta in H.
  apply bind_ok in H as (u & _ & (specs1 & Hs & (b & _ & H)%bind_ok)%bind_ok). destruct b; [|done]. injection H as <-.
  destruct (_ && _); [|by injection Hs as <-]. pose proof (keys_preserved _ _ _ Hs) as Hk. apply map_values_keys in Hs. split; [done|].
  split; intros H ns' (i & Hi)%list_elem_of_lookup; destruct (Forall2_lookup_r _ _ _ _ _ Hs Hi) as (ns & Hns & _ & Hf);
    apply as_full_kinds in Hf as [H1 H2]; [apply H1|apply H2]; apply H; by eapply list_elem_of_lookup_2.
Qed.

Lemma group_and_unify_none reg (specs : Specs) : (forall ns, ns ∈ specs -> apart ns.2 = true) -> group_and_unify_kv_cache_specs reg specs = Ok None.
Proof.
  intros H. unfold group_and_unify_kv_cache_specs. assert (E : forall P, (forall ns, ns ∈ specs -> P ns = false) -> existsb P specs = false).
  { intros P HP. apply not_true_is_false. intros (ns & Hns%list_elem_of_In & Hp)%existsb_exists. rewrite HP in Hp; done. }
  rewrite !E; [done| |]; intros ns Hns; specialize (H ns Hns); unfold apart in H; apply andb_true_iff in H as [H1%negb_true_iff H2%negb_true_iff].
  - by rewrite H2.
  - exact H1.
Qed.

(** Names of the groups on every path. *)
Lemma groups_names_ok reg c (specs : Specs) groups : NoDup specs.*1 -> get_kv_cache_groups reg c specs = Ok groups ->
  NoDup (names_of groups) /\ (forall n, n ∈ names_of groups -> n ∈ specs.*1) /\
  ((forall ns, ns ∈ specs -> groupable ns.2 = true) \/ (forall ns, ns ∈ specs -> apart ns.2 = true) -> names_of groups ≡ₚ specs.*1).
Proof.
  intros Hnd H. apply bind_ok in H as (specs' & Hs & H).
  assert (Hkinds : specs'.*1 = specs.*1 /\ ((forall ns, ns ∈ specs -> groupable ns.2 = true) -> forall ns, ns ∈ specs' -> groupable ns.2 = true) /\
    ((forall ns, ns ∈ specs -> apart ns.2 = true) -> forall ns, ns ∈ specs' -> apart ns.2 = true)).
  { destruct (disable_hybrid_kv_cache_manager c); [by eapply unify_hybrid_kinds|]. by injection Hs as <-. }
  clear Hs. destruct Hkinds as (Hk & Hgr & Hap). rewrite <- Hk in *. clear Hk.
  enough (Hp : names_of groups ≡ₚ specs'.*1 \/ (names_of groups ≡ₚ (filter (fun ns => groupable ns.2 = true) specs').*1 /\
    ~ (forall ns, ns ∈ specs' -> apart ns.2 = true))).
  { destruct Hp as [Hp|[Hp Hno]].
    - split; [by rewrite Hp|]. split; [by intros n; rewrite Hp|done].
    - split.
      + rewrite Hp. eapply sublist_NoDup; [exact Hnd|]. apply fmap_sublist, sublist_filter.
      + split; [intros n; rewrite Hp; intros (x & -> & [_ Hx]%list_elem_of_filter)%list_elem_of_fmap; apply list_elem_of_fmap; by exists x|].
        intros [Hall|Hall]; [|by destruct Hno; apply Hap]. rewrite Hp, filter_all; [done|]. by apply Hgr. }
  destruct specs' as [|ns0 rest] eqn:Es; [injection H as <-; by left|]. rewrite <- Es in *. clear Es.
  apply bind_ok in H as (b & _ & H). destruct b.
  - left. apply create_groups_names in H. rewrite H. cbn. by rewrite app_nil_r.
  - apply bind_ok in H as (o & Ho & H). destruct o as [u|].
    + left. injection H as <-. cbn. rewrite app_nil_r. unfold from_specs in Ho. apply bind_ok in Ho as (b & _ & Ho). destruct b; [|done].
      apply bind_ok in Ho as (? & _ & [= <-]). done.
    + apply bind_ok in H as (o & Hg & H). destruct o as [us|].
      * right. apply bind_ok in H as (groups' & Hg' & Ha). split; [by eapply uniform_groups_names|]. intros Hno. by rewrite group_and_unify_none in Hg.
      * left. by apply general_groups_names.
Qed.

(** C14. The groups cut up the model. Whenever [get_kv_cache_groups] returns, on
    whichever of its paths, no layer is in two groups or twice in one and every
    layer of a group is a layer of the model; and every layer of the model is in a
    group, if all its layers are of the three kinds that are grouped together, or
    if it has none that need to be (no MLA layer with a sliding window, no
    replicated one). *)
Theorem groups_cut_up_model reg c (specs : Specs) groups : NoDup specs.*1 -> get_kv_cache_groups reg c specs = Ok groups ->
  NoDup (names_of groups) /\ (forall n, n ∈ names_of groups -> n ∈ specs.*1) /\
  ((forall ns, ns ∈ specs -> groupable ns.2 = true) \/ (forall ns, ns ∈ specs -> apart ns.2 = true) -> names_of groups ≡ₚ specs.*1).
Proof. apply groups_names_ok. Qed.
End hybrid.
End KVGroupSafety.
