(* ===== verification/KVPlanSafety.v ===== *)
(** * KVPlanSafety

    The tensors of a worker hold each of its layers once, of the right size, and
    layers that share a tensor belong to different groups; together they fit the
    memory, and all workers agree on the number of blocks. *)

From S2P Require Import Prelude OrderedDict RequestQueue KVSpec KVSpecSafety KVConfig KVConfigSafety KVGroupSafety.

Module KVPlanSafety.
Import OrderedDict RequestQueue KVSpec KVSpecSafety KVConfig KVConfigSafety KVGroupSafety.
#[local] Open Scope Z_scope.

Section plan.
Context `{TD : TorchDtype}.
#[local] Notation Specs := (list (string * KVCacheSpec)).
#[local] Notation Buckets := (list (Z * list (list string))).
#[local] Notation names_of groups := (concat (layer_names <$> groups)).

(** [b]: the bytes of one block over all tensors. *)
Record tensors_ok (groups : list KVCacheGroupSpec) (n b : Z) (ts : list KVCacheTensor) : Prop := {
  to_names : concat (shared_by <$> ts) ≡ₚ names_of groups;
  to_size t name : t ∈ ts -> name ∈ shared_by t -> exists g p, g ∈ groups /\ name ∈ layer_names g /\
    layer_page_size g name = Ok p /\ size t = p * n;
  to_apart t g x y : t ∈ ts -> g ∈ groups -> x ∈ shared_by t -> y ∈ shared_by t -> x ∈ layer_names g -> y ∈ layer_names g -> x = y;
  to_bytes : zsum (size <$> ts) = b * n
}.

(** ** Layers at the same position *)

Lemma shared_at_perm groups : forall k, (forall g, g ∈ groups -> (length (layer_names g) <= k)%nat) ->
  concat (shared_at groups <$> seq 0 k) ≡ₚ names_of groups.
Proof.
  induction groups as [|g groups IH]; intros k Hk.
  - cbn. assert (E : forall l : list nat, concat (shared_at [] <$> l) = []) by (induction l; done). by rewrite E.
  - rewrite fmap_cons. cbn [concat]. rewrite <- (IH k) by (intros; apply Hk; by right).
    transitivity (concat ((fun i => option_list (layer_names g !! i) ++ shared_at groups i) <$> seq 0 k)).
    + apply reflexive_eq. f_equal. apply list_fmap_ext. intros ? i _. unfold shared_at. cbn. by destruct (layer_names g !! i).
    + rewrite concat_app_each. f_equiv. apply reflexive_eq.
      specialize (Hk g ltac:(by left)). generalize (layer_names g) Hk. clear. intros l. revert k. induction l as [|x l IH]; intros k Hk.
      * assert (E : forall s : list nat, concat ((fun i => option_list (@nil string !! i)) <$> s) = []); [|apply E].
        induction s as [|i s IH]; [done|]. rewrite fmap_cons. cbn. exact IH.
      * destruct k as [|k]; [cbn in Hk; lia|]. rewrite <- cons_seq, <- fmap_S_seq, fmap_cons, <- list_fmap_compose. cbn. f_equal.
        apply IH. cbn in Hk. lia.
Qed.

Lemma shared_at_elem groups i x : x ∈ shared_at groups i <-> exists g, g ∈ groups /\ layer_names g !! i = Some x.
Proof. unfold shared_at. rewrite list_elem_of_omap. split; intros (g & ? & ?); by exists g. Qed.

(** A layer is in one group, at one position. *)
Lemma names_apart groups g g' i x : NoDup (names_of groups) -> g ∈ groups -> g' ∈ groups -> layer_names g !! i = Some x -> x ∈ layer_names g' ->
  layer_names g' !! i = Some x.
Proof.
  induction groups as [|h groups IH]; [by intros _ ?%elem_of_nil|]. rewrite fmap_cons. cbn [concat].
  intros (Hh & Hd & Hn)%NoDup_app Hg Hg' Hi Hx.
  assert (Hin : forall k, k ∈ groups -> x ∈ layer_names k -> x ∈ names_of groups).
  { intros k Hk Hxk. apply list_elem_of_In, in_concat. exists (layer_names k). split; [|by apply list_elem_of_In].
    apply list_elem_of_In, list_elem_of_fmap. by exists k. }
  assert (Hxg : x ∈ layer_names g) by by eapply list_elem_of_lookup_2.
  apply elem_of_cons in Hg as [->|Hg]; apply elem_of_cons in Hg' as [->|Hg']; [done| | |by apply IH].
  - exfalso. apply (Hd x Hxg). by apply (Hin g').
  - exfalso. apply (Hd x Hx). by apply (Hin g).
Qed.

Lemma zsum_const {A} (f : A -> Z) k l : (forall x, x ∈ l -> f x = k) -> zsum (f <$> l) = k * zlen l.
Proof.
  induction l as [|x l IH]; intros H; [cbn; lia|]. rewrite fmap_cons, zsum_cons, IH by (intros; apply H; by right).
  rewrite (H x) by (by left). cbn [length]. lia.
Qed.

(** Groups with one spec each, or one spec for each of their layers. *)
Definition plain (groups : list KVCacheGroupSpec) : Prop := forall g, g ∈ groups -> is_uniform_spec g = false.

Lemma plain_page g name : is_uniform_spec g = false -> layer_page_size g name = group_page_size_bytes (kv_cache_spec g).
Proof. unfold is_uniform_spec, layer_page_size. by destruct (kv_cache_spec g). Qed.

Lemma tensors_at_ok groups p k n : NoDup (names_of groups) -> plain groups -> largest_group groups = Ok k ->
  get_uniform_page_size (kv_cache_spec <$> groups) = Ok p ->
  tensors_ok groups n (p * k) ((fun i => mkTensor (p * n) (shared_at groups i)) <$> seq 0 (Z.to_nat k)).
Proof.
  intros Hnd Hpl Hk Hp. apply max_of_ok in Hk as [_ Hk].
  assert (Hlen : forall g, g ∈ groups -> zlen (layer_names g) <= k) by (intros g Hg; apply Hk, list_elem_of_fmap; by exists g).
  assert (Hk0 : 0 <= k).
  { unfold get_uniform_page_size in Hp. destruct groups as [|g groups]; [done|]. specialize (Hlen g ltac:(by left)). lia. }
  assert (Hpage : forall g, g ∈ groups -> group_page_size_bytes (kv_cache_spec g) = Ok p).
  { unfold get_uniform_page_size in Hp. apply bind_ok in Hp as (pages & Hm%map_r_ok & [_ Hone]%one_value_ok). intros g Hg.
    apply Forall2_fmap_l in Hm. apply list_elem_of_lookup in Hg as (i & Hi). destruct (Forall2_lookup_l _ _ _ _ _ Hm Hi) as (q & Hq & E).
    rewrite E. f_equal. apply Hone. by eapply list_elem_of_lookup_2. }
  constructor.
  - rewrite <- list_fmap_compose. cbn. apply shared_at_perm. intros g Hg. specialize (Hlen g Hg). lia.
  - intros t name (i & -> & _)%list_elem_of_fmap. cbn. intros (g & Hg & Hi)%shared_at_elem. exists g, p.
    split; [done|]. split; [by eapply list_elem_of_lookup_2|]. split; [|done]. rewrite plain_page by by apply Hpl. by apply Hpage.
  - intros t g x y (i & -> & _)%list_elem_of_fmap Hg. cbn. intros (g1 & Hg1 & H1)%shared_at_elem (g2 & Hg2 & H2)%shared_at_elem Hx Hy.
    pose proof (names_apart groups g1 g i x Hnd Hg1 Hg H1 Hx) as E1. pose proof (names_apart groups g2 g i y Hnd Hg2 Hg H2 Hy) as E2. congruence.
  - rewrite <- list_fmap_compose. rewrite (zsum_const _ (p * n)) by done. rewrite length_seq, Z2Nat.id by done. lia.
Qed.

(** One tensor for each layer of a single group. *)
Lemma tensors_single_ok g u n ts : NoDup (layer_names g) -> kv_cache_spec g = UniformSpecs u -> (kv_cache_specs u).*1 = layer_names g ->
  map_r (fun name => p ← layer_page_size g name; Ok (mkTensor (p * n) [name])) (layer_names g) = Ok ts ->
  forall b, u_page_size_bytes u = Ok b -> tensors_ok [g] n b ts.
Proof.
  intros Hnd Hu Hkeys Hts b Hb. apply map_r_ok in Hts.
  assert (Ht : Forall2 (fun name t => exists p, layer_page_size g name = Ok p /\ t = mkTensor (p * n) [name]) (layer_names g) ts).
  { eapply Forall2_impl; [exact Hts|]. cbn. intros name t (p & Hp & [= <-])%bind_ok. by exists p. }
  assert (Hone : forall t, t ∈ ts -> exists name p, name ∈ layer_names g /\ layer_page_size g name = Ok p /\ t = mkTensor (p * n) [name]).
  { intros t (i & Hi)%list_elem_of_lookup. destruct (Forall2_lookup_r _ _ _ _ _ Ht Hi) as (name & Hname & p & Hp & ->).
    exists name, p. split; [by eapply list_elem_of_lookup_2|done]. }
  constructor.
  - cbn. rewrite app_nil_r. apply reflexive_eq. clear -Ht. induction Ht as [|name t l ts (p & _ & ->) _ IH]; [done|]. rewrite fmap_cons. cbn. by f_equal.
  - intros t name Hin. destruct (Hone t Hin) as (name' & p & Hn & Hp & ->). cbn. intros ->%list_elem_of_singleton. exists g, p.
    split; [by left|done].
  - intros t g' x y Hin _. destruct (Hone t Hin) as (name' & p & Hn & Hp & ->). cbn. by intros ->%list_elem_of_singleton ->%list_elem_of_singleton.
  - unfold u_page_size_bytes in Hb. apply bind_ok in Hb as (pages & Hpages & [= <-]). apply map_r_ok in Hpages.
    assert (H2 : Forall2 (fun t p => size t = p * n) ts pages).
    { apply Forall2_same_length_lookup_2.
      - rewrite <- (Forall2_length _ _ _ Ht), <- Hkeys, length_fmap. by eapply Forall2_length.
      - intros i t p Hi Hpi. destruct (Forall2_lookup_r _ _ _ _ _ Ht Hi) as (name & Hname & q & Hq & ->). cbn.
        destruct (Forall2_lookup_r _ _ _ _ _ Hpages Hpi) as ([name' s] & Hs & Hps). cbn in Hps. rewrite <- Hkeys in Hname, Hnd.
        rewrite list_lookup_fmap, Hs in Hname. cbn in Hname. injection Hname as <-. unfold layer_page_size in Hq. rewrite Hu in Hq.
        rewrite (proj1 (od_get_elem name' s (kv_cache_specs u) Hnd)) in Hq by by eapply list_elem_of_lookup_2. cbn in Hq. congruence. }
    clear -H2. induction H2 as [|t p ts pages E _ IH]; [cbn; lia|]. rewrite fmap_cons, !zsum_cons, IH, E. lia.
Qed.

(** ** Buckets *)

Definition flat (B : Buckets) : list string := concat ((fun b => concat b.2) <$> B).
Definition in_slot (B : Buckets) (ps : Z) (j : nat) (slot : list string) : Prop := exists slots, (ps, slots) ∈ B /\ slots !! j = Some slot.

(** [gs]: the groups whose layers are in the buckets. *)
Record bucketed (gs : list KVCacheGroupSpec) (B : Buckets) : Prop := {
  bu_keys : NoDup B.*1;
  bu_names : flat B ≡ₚ names_of gs;
  bu_page ps j slot x : in_slot B ps j slot -> x ∈ slot -> exists g, g ∈ gs /\ x ∈ layer_names g /\ layer_page_size g x = Ok ps;
  bu_apart ps j slot g x y : in_slot B ps j slot -> g ∈ gs -> x ∈ slot -> y ∈ slot -> x ∈ layer_names g -> y ∈ layer_names g -> x = y
}.

(** The part of a group that is in the buckets. *)
Definition part (g : KVCacheGroupSpec) (done : list string) : KVCacheGroupSpec := mkGroupSpec done (kv_cache_spec g) (is_eagle_group g).

(** Slots from the count on hold nothing of the group yet. *)
Record counted (B : Buckets) (slot_count : list (Z * Z)) (done : list string) : Prop := {
  cn_nonneg ps : 0 <= default 0 (od_get ps slot_count);
  cn_free ps j slot x : in_slot B ps j slot -> default 0 (od_get ps slot_count) <= Z.of_nat j -> x ∈ slot -> x ∉ done
}.

Lemma od_set_in {K V} `{Countable K} (k k' : K) (v v' : V) d : NoDup d.*1 -> (k', v') ∈ od_set k v d -> (k' = k /\ v' = v) \/ (k' <> k /\ (k', v') ∈ d).
Proof.
  intros Hn Hin. pose proof (od_set_nodup k v d Hn) as Hn'. apply (od_get_elem _ _ _ Hn') in Hin. destruct (decide (k' = k)) as [->|Hk].
  - left. rewrite od_get_set in Hin. by injection Hin as ->.
  - right. split; [done|]. rewrite od_get_set_ne in Hin by done. by apply od_get_elem.
Qed.

Lemma flat_set ps slots' x B : concat slots' ≡ₚ x :: concat (default [] (od_get ps B)) -> flat (od_set ps slots' B) ≡ₚ x :: flat B.
Proof.
  unfold flat. induction B as [|[ps' slots] B IH]; cbn [od_get od_set]; intros H.
  - cbn in *. by rewrite !app_nil_r.
  - destruct (decide (ps = ps')) as [->|Hne]; rewrite !fmap_cons; cbn [concat snd].
    + cbn in H. by rewrite H.
    + rewrite (IH H). by rewrite Permutation_middle.
Qed.

Lemma concat_insert (slots : list (list string)) i slot x : slots !! i = Some slot -> concat (<[i := slot ++ [x]]> slots) ≡ₚ x :: concat slots.
Proof.
  intros Hi. rewrite <- (take_drop_middle slots i slot Hi) at 2. rewrite insert_take_drop by by apply lookup_lt_Some in Hi.
  rewrite !concat_app. cbn. rewrite <- !app_assoc. cbn. by rewrite !Permutation_middle, Permutation_app_comm, <- Permutation_middle.
Qed.

Section step.
Context (gs : list KVCacheGroupSpec) (g : KVCacheGroupSpec) (done : list string) (B : Buckets) (sc : list (Z * Z)) (x : string).
Context (Hb : bucketed (gs ++ [part g done]) B) (Hc : counted B sc done) (Hx : x ∉ names_of gs /\ x ∉ done).

Lemma old_layer h y : h ∈ gs ++ [part g done] -> y ∈ layer_names h -> y <> x.
Proof using Hx.
  intros [Hh| ->%list_elem_of_singleton]%elem_of_app Hy ->; [|by destruct Hx].
  destruct Hx as [Hn _]. apply Hn, list_elem_of_In, in_concat. exists (layer_names h). split; [|by apply list_elem_of_In].
  apply list_elem_of_In, list_elem_of_fmap. by exists h.
Qed.

(** [B'] is [B] with the layer [x] in slot [i] of its page size. *)
Record added (ps i : Z) (B' : Buckets) : Prop := {
  ad_keys : NoDup B'.*1;
  ad_flat : flat B' ≡ₚ x :: flat B;
  ad_old ps' j sl y : in_slot B' ps' j sl -> y ∈ sl -> y <> x -> exists sl0, in_slot B ps' j sl0 /\ y ∈ sl0 /\ (forall z, z ∈ sl -> z ∈ sl0 \/ z = x);
  ad_new ps' j sl z : in_slot B' ps' j sl -> x ∈ sl -> z ∈ sl -> ps' = ps /\ j = Z.to_nat i /\ (z = x \/ z ∉ done)
}.

Lemma not_there ps' j sl : in_slot B ps' j sl -> x ∉ sl.
Proof using Hb Hx. intros Hin Hxs. destruct (bu_page _ _ Hb ps' j sl x Hin Hxs) as (h & Hh & Hxh & _). by apply (old_layer h x). Qed.

Lemma bucket_layer_added B' sc' : bucket_layer g (B, sc) x = Ok (B', sc') -> exists ps i, layer_page_size g x = Ok ps /\
  i = default 0 (od_get ps sc) /\ sc' = od_set ps (i + 1) sc /\ added ps i B'.
Proof using All.
  unfold bucket_layer. intros (ps & Hps & (slot & Hslot%or_raise_ok & [= <- <-])%bind_ok)%bind_ok.
  set (i := default 0 (od_get ps sc)) in *. set (old := default [] (od_get ps B)) in *. exists ps, i. split; [done|]. split; [done|]. split; [done|].
  set (slots := if i =? zlen old then old ++ [[]] else old) in *. pose proof (cn_nonneg B sc done Hc ps) as Hi0. fold i in Hi0.
  assert (Hold : (ps, old) ∈ B \/ old = []).
  { unfold old. destruct (od_get ps B) as [l|] eqn:E; [left; cbn; apply od_get_elem; [apply (bu_keys _ _ Hb)|done]|by right]. }
  assert (Hslots : forall j sl y, slots !! j = Some sl -> y ∈ sl -> in_slot B ps j sl).
  { intros j sl y Hj Hy. assert (Ho : old !! j = Some sl).
    { unfold slots in Hj. destruct (i =? zlen old); [|done]. apply lookup_app_Some in Hj as [?|[_ Hj]]; [done|].
      destruct (j - length old)%nat; [|done]. injection Hj as <-. by apply elem_of_nil in Hy. }
    exists old. split; [|done]. destruct Hold as [?|E]; [done|]. by rewrite E in Ho. }
  set (new := <[Z.to_nat i := slot ++ [x]]> slots).
  assert (Hwhere : forall ps' j sl, in_slot (od_set ps new B) ps' j sl -> in_slot B ps' j sl \/
    (ps' = ps /\ slots !! j = Some sl) \/ (ps' = ps /\ j = Z.to_nat i /\ sl = slot ++ [x])).
  { intros ps' j sl (slots' & Hin & Hj). apply od_set_in in Hin as [[-> ->]|[Hne Hin]]; [|left; by exists slots'|apply (bu_keys _ _ Hb)].
    right. unfold new in Hj. destruct (decide (j = Z.to_nat i)) as [->|Hj'].
    - right. split; [done|]. split; [done|]. rewrite list_lookup_insert_eq in Hj by by apply lookup_lt_Some in Hslot. by injection Hj as <-.
    - left. split; [done|]. by rewrite list_lookup_insert_ne in Hj by done. }
  constructor.
  - apply od_set_nodup, (bu_keys _ _ Hb).
  - apply flat_set. fold old. assert (Hconcat : concat slots = concat old).
    { unfold slots. destruct (i =? zlen old); [|done]. by rewrite concat_app; cbn; rewrite app_nil_r. }
    rewrite <- Hconcat. by apply concat_insert.
  - intros ps' j sl y Hin Hy Hyx. apply Hwhere in Hin as [Hin|[(-> & Hj)|(-> & -> & ->)]].
    + exists sl. split; [done|]. split; [done|]. by left.
    + exists sl. split; [by apply (Hslots j sl y)|]. split; [done|]. by left.
    + apply elem_of_app in Hy as [Hy|Hy%list_elem_of_singleton]; [|done]. exists slot. split; [by apply (Hslots _ slot y)|]. split; [done|].
      intros z [Hz| ->%list_elem_of_singleton]%elem_of_app; [by left|by right].
  - intros ps' j sl z Hin Hxs Hz. apply Hwhere in Hin as [Hin|[(-> & Hj)|(-> & -> & ->)]].
    + by destruct (not_there ps' j sl Hin).
    + by destruct (not_there ps j sl (Hslots j sl x Hj Hxs)).
    + split; [done|]. split; [done|]. apply elem_of_app in Hz as [Hz|Hz%list_elem_of_singleton]; [right|by left].
      apply (cn_free B sc done Hc ps (Z.to_nat i) slot z); [by apply (Hslots _ slot z)| |done]. fold i. lia.
Qed.

(** A layer of the groups, after the addition. *)
Lemma grown_group h y : h ∈ gs ++ [part g (done ++ [x])] -> y ∈ layer_names h -> y = x \/ exists h', h' ∈ gs ++ [part g done] /\ y ∈ layer_names h' /\
  (forall z, z ∈ layer_names h -> z = x \/ z ∈ layer_names h').
Proof.
  intros [Hh| ->%list_elem_of_singleton]%elem_of_app Hy.
  - right. exists h. split; [apply elem_of_app; by left|]. split; [done|by right].
  - cbn in Hy. apply elem_of_app in Hy as [Hy|Hy%list_elem_of_singleton]; [right|by left]. exists (part g done).
    split; [apply elem_of_app; right; by apply list_elem_of_singleton|]. split; [done|]. cbn. intros z [?| ->%list_elem_of_singleton]%elem_of_app; [by right|by left].
Qed.

(** No other layer of a group is in the slot of the new one. *)
Lemma new_alone ps i B' ps' j sl h z : added ps i B' -> in_slot B' ps' j sl -> h ∈ gs ++ [part g (done ++ [x])] -> x ∈ sl -> z ∈ sl ->
  x ∈ layer_names h -> z ∈ layer_names h -> z = x.
Proof using Hx.
  intros Ha Hin Hh Hxs Hz Hxh Hzh. apply elem_of_app in Hh as [Hh| ->%list_elem_of_singleton].
  - exfalso. by apply (old_layer h x); [apply elem_of_app; left|..].
  - cbn in Hzh. apply elem_of_app in Hzh as [Hzh|Hzh%list_elem_of_singleton]; [|done]. by destruct (ad_new _ _ _ Ha ps' j sl z Hin Hxs Hz) as (_ & _ & [?|?]).
Qed.

Lemma bucket_layer_ok B' sc' : bucket_layer g (B, sc) x = Ok (B', sc') -> bucketed (gs ++ [part g (done ++ [x])]) B' /\ counted B' sc' (done ++ [x]).
Proof using All.
  intros (ps & i & Hps & Ei & -> & Ha)%bucket_layer_added.
  assert (Hlast : part g (done ++ [x]) ∈ gs ++ [part g (done ++ [x])]) by (apply elem_of_app; right; by apply list_elem_of_singleton).
  split; constructor.
  - apply (ad_keys _ _ _ Ha).
  - rewrite (ad_flat _ _ _ Ha), (bu_names _ _ Hb), !fmap_app, !concat_app. cbn. rewrite !app_nil_r, app_assoc. apply Permutation_cons_append.
  - intros ps' j sl y Hin Hy. destruct (decide (y = x)) as [->|Hyx].
    + destruct (ad_new _ _ _ Ha ps' j sl x Hin Hy Hy) as [-> _]. exists (part g (done ++ [x])). split; [done|].
      split; [cbn; apply elem_of_app; right; by apply list_elem_of_singleton|done].
    + destruct (ad_old _ _ _ Ha ps' j sl y Hin Hy Hyx) as (sl0 & Hin0 & Hy0 & _). destruct (bu_page _ _ Hb ps' j sl0 y Hin0 Hy0) as (h & Hh & Hyh & Hp).
      apply elem_of_app in Hh as [Hh| ->%list_elem_of_singleton]; [exists h; split; [apply elem_of_app; by left|done]|].
      exists (part g (done ++ [x])). split; [done|]. split; [cbn in *; apply elem_of_app; by left|exact Hp].
  - intros ps' j sl h y z Hin Hh Hy Hz Hyh Hzh. destruct (decide (y = x)) as [->|Hyx]; [symmetry; by eapply new_alone|].
    destruct (decide (z = x)) as [->|Hzx]; [by eapply new_alone|].
    destruct (ad_old _ _ _ Ha ps' j sl y Hin Hy Hyx) as (sl0 & Hin0 & Hy0 & Hall). destruct (Hall z Hz) as [Hz0|]; [|done].
    destruct (grown_group h y Hh Hyh) as [|(h' & Hh' & Hyh' & Hsub)]; [done|]. destruct (Hsub z Hzh) as [|Hzh']; [done|].
    by apply (bu_apart _ _ Hb ps' j sl0 h' y z).
  - intros ps'. pose proof (cn_nonneg _ _ _ Hc ps). destruct (decide (ps' = ps)) as [->|]; [rewrite od_get_set; cbn; lia|rewrite od_get_set_ne by done; apply (cn_nonneg _ _ _ Hc)].
  - intros ps' j sl y Hin Hle Hy. pose proof (cn_nonneg _ _ _ Hc ps) as H0. rewrite <- Ei in H0. destruct (decide (y = x)) as [->|Hyx].
    + exfalso. destruct (ad_new _ _ _ Ha ps' j sl x Hin Hy Hy) as (-> & -> & _). rewrite od_get_set in Hle. cbn in Hle. lia.
    + destruct (ad_old _ _ _ Ha ps' j sl y Hin Hy Hyx) as (sl0 & Hin0 & Hy0 & _). intros [Hd|Hd%list_elem_of_singleton]%elem_of_app; [|done].
      revert Hd. apply (cn_free _ _ _ Hc ps' j sl0 y Hin0); [|done].
      destruct (decide (ps' = ps)) as [->|]; [rewrite od_get_set in Hle; cbn in Hle; lia|by rewrite od_get_set_ne in Hle by done].
Qed.
End step.

Lemma bucket_group_ok gs g names : forall done B sc B', bucketed (gs ++ [part g done]) B -> counted B sc done ->
  NoDup (names_of gs ++ done ++ names) -> bucket_group g names (B, sc) = Ok B' -> bucketed (gs ++ [part g (done ++ names)]) B'.
Proof.
  induction names as [|x names IH]; intros done B sc B' Hb Hc Hnd; cbn [bucket_group].
  - intros [= <-]. by rewrite app_nil_r.
  - intros ([B1 sc1] & H1 & H)%bind_ok. assert (Hx : x ∉ names_of gs /\ x ∉ done).
    { apply NoDup_app in Hnd as (_ & Hd1 & Hnd). apply NoDup_app in Hnd as (_ & Hd2 & _). split; intros Hx.
      - apply (Hd1 x Hx), elem_of_app. right. by left.
      - apply (Hd2 x Hx). by left. }
    destruct (bucket_layer_ok gs g done B sc x Hb Hc Hx B1 sc1 H1) as [Hb1 Hc1].
    change (done ++ x :: names) with (done ++ [x] ++ names) in *. rewrite (app_assoc done) in *. by apply (IH (done ++ [x]) B1 sc1).
Qed.

Lemma bucketed_empty gs g B : bucketed gs B -> bucketed (gs ++ [part g []]) B.
Proof.
  intros [H1 H2 H3 H4]. constructor; [done| | |].
  - by rewrite H2, fmap_app, concat_app, app_nil_r.
  - intros ps j slot x Hs Hx. destruct (H3 ps j slot x Hs Hx) as (h & Hh & ?). exists h. split; [apply elem_of_app; by left|done].
  - intros ps j slot h x y Hs [Hh| ->%list_elem_of_singleton]%elem_of_app Hx Hy; [by apply (H4 ps j slot h)|by intros ?%elem_of_nil].
Qed.

Lemma bucket_groups_ok groups : forall gs B B', bucketed gs B -> NoDup (names_of (gs ++ groups)) -> bucket_groups groups B = Ok B' ->
  bucketed (gs ++ groups) B'.
Proof.
  induction groups as [|g groups IH]; intros gs B B' Hb Hnd; cbn [bucket_groups]; [intros [= <-]; by rewrite app_nil_r|].
  intros (B1 & H1 & H)%bind_ok. change (gs ++ g :: groups) with (gs ++ [g] ++ groups) in *. rewrite app_assoc in *. apply (IH (gs ++ [g]) B1); [|done|done].
  replace g with (part g (layer_names g)) at 1 by by destruct g. apply (bucket_group_ok gs g (layer_names g) [] B []); [by apply bucketed_empty| | |done].
  - constructor; [done|]. intros ps j slot x _ _ _. apply not_elem_of_nil.
  - rewrite fmap_app, concat_app in Hnd. apply NoDup_app in Hnd as (Hnd & _). rewrite fmap_app, concat_app in Hnd. cbn in *. by rewrite app_nil_r in Hnd.
Qed.

Lemma bucket_layers_ok groups B : NoDup (names_of groups) -> bucket_layers_by_page_size groups = Ok B -> bucketed groups B.
Proof.
  intros Hnd H. apply (bucket_groups_ok groups [] [] B); [|done|done]. constructor; [by apply NoDup_nil|done| |].
  - intros ps j slot x (slots & Hin & _). by apply elem_of_nil in Hin.
  - intros ps j slot g x y _ Hg. by apply elem_of_nil in Hg.
Qed.

(** One tensor for each slot. *)
Lemma tensors_buckets_ok groups B n : NoDup (names_of groups) -> bucket_layers_by_page_size groups = Ok B ->
  tensors_ok groups n (bytes_per_block B) (b ← B; (fun slot => mkTensor (b.1 * n) slot) <$> b.2).
Proof.
  intros Hnd H. apply bucket_layers_ok in H; [|done]. set (ts := b ← B; (fun slot => mkTensor (b.1 * n) slot) <$> b.2).
  assert (Hin : forall t, t ∈ ts -> exists ps j, in_slot B ps j (shared_by t) /\ size t = ps * n).
  { intros t Ht. unfold ts in Ht. apply list_elem_of_bind in Ht as ([ps slots] & Ht & HB). cbn in Ht.
    apply list_elem_of_fmap in Ht as (slot & -> & Hslot). apply list_elem_of_lookup in Hslot as (j & Hj). exists ps, j. cbn. split; [|done]. by exists slots. }
  assert (Hnames : forall B' : Buckets, concat (shared_by <$> (b ← B'; (fun slot => mkTensor (b.1 * n) slot) <$> b.2)) = flat B').
  { intros B'. unfold flat. induction B' as [|[ps slots] B' IH]; [done|]. cbn [mbind list_bind fst snd]. rewrite fmap_app, concat_app, fmap_cons. cbn [concat snd].
    f_equal; [|exact IH]. rewrite <- list_fmap_compose. cbn. f_equal. apply list_fmap_id. }
  constructor.
  - unfold ts. rewrite Hnames. apply (bu_names _ _ H).
  - intros t x Ht Hx. destruct (Hin t Ht) as (ps & j & Hs & E). destruct (bu_page _ _ H ps j _ x Hs Hx) as (g & ? & ? & ?). by exists g, ps.
  - intros t g x y Ht Hg Hx Hy. destruct (Hin t Ht) as (ps & j & Hs & E). by apply (bu_apart _ _ H ps j (shared_by t) g).
  - unfold ts, bytes_per_block. clear. induction B as [|[ps slots] B IH]; [done|]. cbn [mbind list_bind fst snd]. rewrite fmap_app, zsum_app, fmap_cons, zsum_cons. cbn [fst snd].
    rewrite <- list_fmap_compose. cbn [compose]. rewrite (zsum_const _ (ps * n)) by done.
    etrans; [apply (f_equal (Z.add _)); exact IH|lia].
Qed.

(** ** The plan of one worker *)

(** What the groups of a worker look like: one spec each, or one for each layer. *)
Definition listed (g : KVCacheGroupSpec) : Prop := forall u, kv_cache_spec g = UniformSpecs u -> layer_names g = [] \/ (kv_cache_specs u).*1 = layer_names g.
Definition homogeneous (groups : list KVCacheGroupSpec) : Prop := plain groups \/ forallb is_uniform_spec groups = true.

Lemma config_from_groups_ok c groups mem cfg : NoDup (names_of groups) -> homogeneous groups -> (forall g, g ∈ groups -> listed g) -> groups <> [] ->
  get_kv_cache_config_from_groups c groups mem = Ok cfg ->
  kv_cache_groups cfg = groups /\ exists b, pool_bytes_per_block groups = Ok b /\
    (tensors_ok groups (num_blocks cfg) b (kv_cache_tensors cfg) \/ (kv_cache_tensors cfg = [] /\ names_of groups = [])) /\
    num_blocks cfg = may_override_num_blocks c (if forallb is_uniform_spec groups then mem / b else Z.max (mem / b) 0).
Proof.
  intros Hnd Hhom Hlist Hne H. unfold get_kv_cache_config_from_groups in H. destruct groups as [|g0 rest] eqn:Eg; [done|]. rewrite <- Eg in *.
  unfold pool_bytes_per_block. destruct (single_uniform groups) as [u|] eqn:Hs.
  - rewrite Eg in Hs. destruct rest; [|done]. cbn in Hs. destruct (kv_cache_spec g0) as [|u'] eqn:Hu; [done|]. injection Hs as ->.
    apply bind_ok in H as (b & Hb & (q & [_ ->]%floordiv_r_ok & (ts & Hts & [= <-])%bind_ok)%bind_ok). split; [done|]. exists b. split; [done|]. cbn.
    rewrite Eg. cbn. unfold is_uniform_spec. rewrite Hu. cbn. split; [|done].
    destruct (Hlist g0 ltac:(rewrite Eg; by left) u Hu) as [Hl|Hl].
    + right. split; [|by rewrite Hl]. rewrite Hl in Hts. by injection Hts as <-.
    + left. eapply tensors_single_ok; [|done|done|exact Hts|exact Hb]. rewrite Eg in Hnd. cbn in Hnd. by rewrite app_nil_r in Hnd.
  - destruct (forallb is_uniform_spec groups) eqn:Hb.
    + apply bind_ok in H as ([n ts] & Hd & [= <-]). unfold kv_cache_config_deepseek_v4 in Hd. apply bind_ok in Hd as (B & HB & (q & [_ ->]%floordiv_r_ok & [= <- <-])%bind_ok).
      split; [done|]. rewrite HB. cbn. eexists. split; [done|]. split; [|done]. left. by apply tensors_buckets_ok.
    + apply bind_ok in H as (k & Hk & (p & Hp & [Hk0 (n & Hn & [= <-])%bind_ok]%assert_ok)%bind_ok). split; [done|]. rewrite Hk, Hp. cbn. eexists. split; [done|].
      destruct Hhom as [Hpl|]; [|congruence]. split.
      * left. by apply tensors_at_ok.
      * unfold get_num_blocks in Hn. apply bind_ok in Hn as (q & [Hp0 ->]%floordiv_r_ok & (q' & [_ ->]%floordiv_r_ok & [= <-])%bind_ok). apply Z.ltb_lt in Hk0.
        rewrite Z.div_div by lia. done.
Qed.

(** ** The groups of one worker *)

(** A group with one spec for each layer lists its layers. *)
Definition listed_all (g : KVCacheGroupSpec) : Prop := forall u, kv_cache_spec g = UniformSpecs u -> (kv_cache_specs u).*1 = layer_names g.

Definition all_uniform (groups : list KVCacheGroupSpec) : Prop := forall g, g ∈ groups -> is_uniform_spec g = true.
Lemma all_uniform_forallb groups : all_uniform groups -> forallb is_uniform_spec groups = true.
Proof. intros H. apply forallb_forall. intros g Hg%list_elem_of_In. by apply H. Qed.

(** The shape of a plan. *)
Definition shaped (groups : list KVCacheGroupSpec) : Prop := (plain groups \/ all_uniform groups) /\ forall g, g ∈ groups -> listed_all g.

Lemma create_groups_plain (specs : Specs) grouped groups : create_kv_cache_group_specs specs grouped = Ok groups -> plain groups.
Proof.
  intros H%map_r_ok g (i & Hi)%list_elem_of_lookup. destruct (Forall2_lookup_r _ _ _ _ _ H Hi) as (names & _ & E).
  by apply bind_ok in E as (? & _ & (? & _ & [= <-])%bind_ok).
Qed.
Lemma plain_shaped groups : plain groups -> shaped groups.
Proof.
  intros H. split; [by left|]. intros g Hg u Hu. specialize (H g Hg). unfold is_uniform_spec in H. by rewrite Hu in H.
Qed.

Lemma split_uniform_shaped reg sizes k u groups g : split_uniform_group reg sizes k u = Ok groups -> g ∈ groups -> is_uniform_spec g = true /\ listed_all g.
Proof.
  unfold split_uniform_group. intros (ps & _ & (m1 & _ & (m2 & _ & [_ H]%assert_ok)%bind_ok)%bind_ok)%bind_ok (i & Hi)%list_elem_of_lookup.
  apply bind_ok in H as (padded & _ & (n & _ & (tgs & _ & H%map_r_ok)%bind_ok)%bind_ok). destruct (Forall2_lookup_r _ _ _ _ _ H Hi) as (tuples & _ & E). cbn zeta in E.
  apply bind_ok in E as (specs & Hs & (u' & [Hu' _]%uniform_specs_ok & [= <-])%bind_ok). split; [done|]. intros u0 [= <-]. rewrite Hu'. clear -Hs.
  apply map_r_ok in Hs. cbn. induction Hs as [|n ns l l' Hn _ IH]; [done|]. apply bind_ok in Hn as (? & _ & [= <-]). cbn. by rewrite IH.
Qed.

Lemma mark_eagle_shaped n groups : (forall g, g ∈ groups -> is_uniform_spec g = true /\ listed_all g) ->
  forall g, g ∈ mark_eagle n groups -> is_uniform_spec g = true /\ listed_all g.
Proof.
  induction groups as [|h groups IH]; [done|]. intros H g. cbn. destruct (bool_decide _); intros [->|Hg]%elem_of_cons.
  - exact (H h ltac:(by left)).
  - apply H. by right.
  - apply H. by left.
  - apply IH; [|done]. intros g' Hg'. apply H. by right.
Qed.

Lemma groups_shaped reg c (specs : Specs) groups : get_kv_cache_groups reg c specs = Ok groups -> shaped groups.
Proof.
  intros H. apply bind_ok in H as (specs' & _ & H). destruct specs' as [|ns0 rest] eqn:Es.
  { injection H as <-. apply plain_shaped. by intros g ?%elem_of_nil. } rewrite <- Es in *. clear Es.
  apply bind_ok in H as (b & _ & H). destruct b; [by eapply plain_shaped, create_groups_plain|].
  apply bind_ok in H as (o & Ho & H). destruct o as [u|].
  { injection H as <-. split; [right; by intros g ->%list_elem_of_singleton|]. by intros g ->%list_elem_of_singleton u' [= <-]. }
  apply bind_ok in H as (o & _ & H). destruct o as [us|].
  - apply bind_ok in H as (groups' & Hg & Ha). enough (Hall : forall g, g ∈ groups -> is_uniform_spec g = true /\ listed_all g) by (split; [right; intros g Hg'|intros g Hg']; by apply Hall).
    assert (Hall : forall g, g ∈ groups' -> is_uniform_spec g = true /\ listed_all g).
    { destruct us as [|u us]; [done|]. apply assert_ok in Hg as [_ (? & _ & (k & _ & (? & _ & [_ (sizes & _ & (swa & Hswa & [= <-])%bind_ok)%bind_ok]%assert_ok)%bind_ok)%bind_ok)%bind_ok].
      intros g [->|(gs & Hgs%list_elem_of_In & Hin%list_elem_of_In)%list_elem_of_In%in_concat]%elem_of_cons; [split; [done|by intros u' [= <-]]|].
      apply map_r_ok in Hswa. apply list_elem_of_lookup in Hgs as (i & Hi). destruct (Forall2_lookup_r _ _ _ _ _ Hswa Hi) as (u' & _ & E). by eapply split_uniform_shaped. }
    unfold annotate_eagle_groups_deepseek_v4 in Ha. destruct (negb (use_eagle c)); [by injection Ha as <-|]. destruct (negb _); [by injection Ha as <-|].
    apply bind_ok in Ha as (n & _ & [= <-]). by apply mark_eagle_shaped.
  - apply plain_shaped. unfold general_groups in H. apply bind_ok in H as (fs & _ & (gs & Hgs & H)%bind_ok).
    assert (Hp : plain gs).
    { unfold get_kv_cache_groups_uniform_page_size in Hgs. apply bind_ok in Hgs as (? & _ & (? & _ & (? & _ & Hc)%bind_ok)%bind_ok). by eapply create_groups_plain. }
    destruct (filter (fun ns => is_hidden ns = true) specs'); [by injection H as <-|]. apply bind_ok in H as (pg & _ & (hs & Hh%map_r_ok & [= <-])%bind_ok).
    intros g [Hg|(i & Hi)%list_elem_of_lookup]%elem_of_app; [by apply Hp|]. destruct (Forall2_lookup_r _ _ _ _ _ Hh Hi) as (ns & _ & E).
    by apply bind_ok in E as (? & _ & (? & _ & (? & _ & [= <-])%bind_ok)%bind_ok).
Qed.

Lemma project_ok (w : Specs) groups groups' : project_kv_cache_groups_to_worker groups w = Ok groups' -> shaped groups ->
  names_of groups' = filter (fun n => n ∈ w.*1) (names_of groups) /\ homogeneous groups' /\ (forall g, g ∈ groups' -> listed g) /\
  length groups' = length groups.
Proof.
  intros H%map_r_ok [Hshape Hlist].
  assert (Hone : Forall2 (fun g g' => layer_names g' = filter (fun n => n ∈ w.*1) (layer_names g) /\ is_uniform_spec g' = is_uniform_spec g /\ (listed_all g -> listed g')) groups groups').
  { eapply Forall2_impl; [exact H|]. cbn. intros g g' (spec & Hs & [= <-])%bind_ok. cbn. split; [done|]. unfold is_uniform_spec, listed. cbn.
    destruct (filter _ (layer_names g)) as [|n names] eqn:En.
    - injection Hs as <-. split; [done|]. by left.
    - destruct (kv_cache_spec g) as [s|u] eqn:Eg.
      + injection Hs as <-. by split; [|intros _ u].
      + apply bind_ok in Hs as (specs & Hsp & [= <-]). split; [done|]. intros _ u' [= <-]. right. cbn. clear -Hsp. apply map_r_ok in Hsp.
        induction Hsp as [|x ns l l' Hx _ IH]; [done|]. apply bind_ok in Hx as (? & _ & [= <-]). cbn. by rewrite IH. }
  clear H. split; [|split; [|split]].
  - clear -Hone. induction Hone as [|g g' l l' (E & _) _ IH]; [done|]. rewrite !fmap_cons. cbn. by rewrite filter_app, E, IH.
  - destruct Hshape as [Hp|Hu].
    + left. intros g' (i & Hi)%list_elem_of_lookup. destruct (Forall2_lookup_r _ _ _ _ _ Hone Hi) as (g & Hg & _ & -> & _). apply Hp. by eapply list_elem_of_lookup_2.
    + right. apply all_uniform_forallb. intros g' (i & Hi)%list_elem_of_lookup. destruct (Forall2_lookup_r _ _ _ _ _ Hone Hi) as (g & Hg & _ & -> & _).
      apply Hu. by eapply list_elem_of_lookup_2.
  - intros g' (i & Hi)%list_elem_of_lookup. destruct (Forall2_lookup_r _ _ _ _ _ Hone Hi) as (g & Hg & _ & _ & Hl). apply Hl, Hlist. by eapply list_elem_of_lookup_2.
  - symmetry. by eapply Forall2_length.
Qed.

Lemma merge_layers_nodup (specs merged m : Specs) : NoDup merged.*1 -> merge_layers merged specs = Ok m -> NoDup m.*1.
Proof.
  revert merged. induction specs as [|ns specs IH]; intros merged Hn; cbn [merge_layers]; [by intros [= <-]|].
  intros (merged' & Hm & H)%bind_ok. apply (IH merged'); [|done]. unfold merge_layer in Hm. destruct (od_get ns.1 merged).
  - apply assert_ok in Hm as [_ [= <-]]. done.
  - injection Hm as <-. by apply od_set_nodup.
Qed.

(** ** All workers *)

Lemma run_bind {S A B} (m : M S A) (k : A -> M S B) s y s' : (m ≫= k) s = (Ok y, s') -> exists x s1, m s = (Ok x, s1) /\ k x s1 = (Ok y, s').
Proof. unfold mbind, M_bind. destruct (m s) as [[x|] s1]; [|done]. intros H. by exists x, s1. Qed.
Lemma run_result {S A} (r : result A) (s : S) y s' : of_result r s = (Ok y, s') -> r = Ok y /\ s' = s.
Proof. unfold of_result. by intros [= -> ->]. Qed.

Lemma check_workers_frame l s s' : for_each check_worker l s = (Ok tt, s') -> s' = s.
Proof.
  revert s. induction l as [|[groups m] l IH]; intros s; cbn [for_each]; [by intros [= ->]|].
  intros ([] & s1 & H & Hl)%run_bind. rewrite (IH s1 Hl). unfold check_worker in H. cbn [fst snd] in H. destruct groups as [|g gs]; [by injection H as ->|].
  unfold check_enough_memory in H. destruct (m <=? 0); [done|]. apply run_bind in H as (c & s2 & [= <- <-] & H).
  apply run_bind in H as (v & s3 & [_ ->]%run_result & H). destruct (m <? v); [|by injection H as ->].
  by apply run_bind in H as (? & ? & _ & ?).
Qed.

Lemma auto_fit_frame projected mem s s' : auto_fit_max_model_len projected mem s = (Ok tt, s') -> exists k, s' = set_max_model_len k s.
Proof.
  unfold auto_fit_max_model_len. intros (c & s1 & [= <- <-] & H)%run_bind. destruct (forallb _ projected).
  { injection H as <-. exists (max_model_len s). by rewrite set_own_max_model_len. }
  apply run_bind in H as ([] & s1 & H1 & H). assert (s1 = s) as -> by (by destruct mem; [|injection H1 as ->]). apply run_bind in H as (best & s2 & Hf & H).
  assert (s2 = s) as ->.
  { revert Hf. generalize (max_model_len s). clear. generalize (zip projected mem). induction l as [|[groups m] l IH]; intros b; cbn [for_fold]; [by intros [= _ ->]|].
    intros (b' & s3 & H & Hl)%run_bind. assert (s3 = s) as ->; [|by eapply IH]. cbn [fst snd] in H. destruct groups as [|g gs]; [by injection H as _ ->|].
    apply run_bind in H as (w & s4 & Hw & [= _ <-]). pose proof (search_restores (fun c => max_memory_usage_bytes_from_groups c (g :: gs)) m s) as Hr.
    unfold estimate_max_model_len_from_groups in Hw. by rewrite Hw in Hr. }
  destruct (best <=? 0); [done|]. destruct (_ <=? best); injection H as <-; [|by eexists]. exists (max_model_len s). by rewrite set_own_max_model_len.
Qed.

(** What is planned for the worker with the layers [w] and the memory [m]. *)
Record worker_plan (c : VllmConfig) (w : Specs) (m n : Z) (cfg : KVCacheConfig) : Prop := {
  pl_blocks : num_blocks cfg = n;
  pl_names : concat (shared_by <$> kv_cache_tensors cfg) ≡ₚ w.*1;
  pl_size t name : t ∈ kv_cache_tensors cfg -> name ∈ shared_by t ->
    exists g p, g ∈ kv_cache_groups cfg /\ name ∈ layer_names g /\ layer_page_size g name = Ok p /\ size t = p * n;
  pl_apart t g x y : t ∈ kv_cache_tensors cfg -> g ∈ kv_cache_groups cfg -> x ∈ shared_by t -> y ∈ shared_by t ->
    x ∈ layer_names g -> y ∈ layer_names g -> x = y;
  pl_fits b : num_gpu_blocks_override c = None -> 0 <= m -> pool_bytes_per_block (kv_cache_groups cfg) = Ok b -> 0 < b ->
    zsum (size <$> kv_cache_tensors cfg) <= m
}.

Lemma shrink_tensors_ok old n ts ts' : map_r (shrink_tensor old n) ts = Ok ts' ->
  Forall2 (fun t t' => shared_by t' = shared_by t /\ old <> 0 /\ size t = old * (size t / old) /\ size t' = size t / old * n) ts ts'.
Proof.
  intros H%map_r_ok. eapply Forall2_impl; [exact H|]. cbn. intros t t'. unfold shrink_tensor. destruct (Z.eqb_spec old 0) as [|Ho]; [done|].
  intros [Hm%Z.eqb_eq [= <-]]%assert_ok. cbn. split; [done|]. split; [done|]. split; [|done]. by apply Z_div_exact_full_2.
Qed.

Lemma shrink_plan c w m n cfg cfg' : worker_plan c w m (num_blocks cfg) cfg -> n <= num_blocks cfg ->
  (forall b, num_gpu_blocks_override c = None -> 0 <= m -> pool_bytes_per_block (kv_cache_groups cfg) = Ok b -> 0 < b ->
     (kv_cache_tensors cfg <> [] -> zsum (size <$> kv_cache_tensors cfg) = b * num_blocks cfg)) ->
  shrink_config c n cfg = Ok cfg' -> worker_plan c w m n cfg'.
Proof.
  intros Hp Hn Hsum H. unfold shrink_config in H. apply bind_ok in H as (ts & Hts & H). assert (E : cfg' = mkKVConfig n ts (kv_cache_groups cfg)).
  { cbn in H. destruct (kv_cache_groups cfg); [by injection H as <-|]. by apply bind_ok in H as (? & _ & [= <-]). }
  clear H. subst cfg'. apply shrink_tensors_ok in Hts.
  assert (Hold : forall t', t' ∈ ts -> exists t, t ∈ kv_cache_tensors cfg /\ shared_by t' = shared_by t /\ num_blocks cfg <> 0 /\ size t = num_blocks cfg * (size t / num_blocks cfg) /\ size t' = size t / num_blocks cfg * n).
  { intros t' (i & Hi)%list_elem_of_lookup. destruct (Forall2_lookup_r _ _ _ _ _ Hts Hi) as (t & Ht & ?). exists t. split; [by eapply list_elem_of_lookup_2|done]. }
  constructor; cbn.
  - done.
  - rewrite <- (pl_names _ _ _ _ _ Hp). apply reflexive_eq. f_equal. clear -Hts. induction Hts as [|t t' l l' (E & _) _ IH]; [done|]. rewrite !fmap_cons. by f_equal.
  - intros t' name Ht' Hname. destruct (Hold t' Ht') as (t & Ht & Es & Hne & _ & Ez). rewrite Es in Hname.
    destruct (pl_size _ _ _ _ _ Hp t name Ht Hname) as (g & p & ? & ? & ? & E). exists g, p. split; [done|]. split; [done|]. split; [done|].
    rewrite Ez, E. by rewrite Z.div_mul.
  - intros t' g x y Ht' Hg. destruct (Hold t' Ht') as (t & Ht & -> & _). by apply (pl_apart _ _ _ _ _ Hp t g x y Ht Hg).
  - intros b Ho Hm Hb Hb0. destruct (decide (kv_cache_tensors cfg = [])) as [Enil|Hne].
    { rewrite Enil in Hts. apply Forall2_nil_inv_l in Hts as ->. done. }
    pose proof (Hsum b Ho Hm Hb Hb0 Hne) as Hz. pose proof (pl_fits _ _ _ _ _ Hp b Ho Hm Hb Hb0) as Hf. rewrite Hz in Hf.
    assert (H0 : num_blocks cfg <> 0).
    { destruct (kv_cache_tensors cfg) as [|t0 l0]; [done|]. destruct ts as [|t' ts']; [by apply Forall2_nil_inv_r in Hts|].
      destruct (Hold t' ltac:(by left)) as (_ & _ & _ & ? & _). done. }
    assert (Hscale : zsum (size <$> ts) * num_blocks cfg = zsum (size <$> kv_cache_tensors cfg) * n).
    { clear -Hts. induction Hts as [|t t' l l' (_ & _ & E1 & E2) _ IH]; [done|]. rewrite !fmap_cons, !zsum_cons, !Z.mul_add_distr_r, IH, E2. f_equal.
      rewrite E1 at 2. lia. }
    rewrite Hz in Hscale. assert (E : zsum (size <$> ts) = b * n) by (apply (Z.mul_reg_r _ _ (num_blocks cfg)); lia).
    change (zsum (size <$> ts) <= m). rewrite E. transitivity (b * num_blocks cfg); [apply Z.mul_le_mono_nonneg_l; lia|done].
Qed.

Lemma worker_config_plan c w m groups cfg : NoDup w.*1 -> NoDup (names_of groups) -> (forall n, n ∈ names_of groups -> n ∈ w.*1) ->
  homogeneous groups -> (forall g, g ∈ groups -> listed g) -> worker_config c (groups, w, m) = Ok cfg ->
  worker_plan c w m (num_blocks cfg) cfg /\ kv_cache_groups cfg = groups /\
  (forall b, num_gpu_blocks_override c = None -> 0 <= m -> pool_bytes_per_block (kv_cache_groups cfg) = Ok b -> 0 < b ->
     kv_cache_tensors cfg <> [] -> zsum (size <$> kv_cache_tensors cfg) = b * num_blocks cfg).
Proof.
  intros Hw Hnd Hsub Hhom Hl H. unfold worker_config in H. apply assert_ok in H as [Hlen%Z.eqb_eq H].
  assert (Hperm : names_of groups ≡ₚ w.*1).
  { apply submseteq_length_Permutation; [by apply NoDup_submseteq|]. rewrite length_fmap.
    assert (E : zsum ((fun g => zlen (layer_names g)) <$> groups) = zlen (names_of groups)).
    { clear. induction groups as [|g groups IH]; [done|]. rewrite !fmap_cons, zsum_cons, IH. cbn. rewrite length_app. lia. } lia. }
  destruct (decide (groups = [])) as [->|Hne].
  { injection H as <-. split; [|by split]. cbn in *. constructor; cbn; [done|done|by intros ? ? ?%elem_of_nil|by intros ? ? ? ? ?%elem_of_nil|done]. }
  destruct (config_from_groups_ok c groups m cfg Hnd Hhom Hl Hne H) as (Eg & b & Hb & Hts & Hn).
  assert (Hbound : num_gpu_blocks_override c = None -> 0 <= m -> 0 < b -> b * num_blocks cfg <= m).
  { intros Ho Hm Hb0. rewrite Hn. unfold may_override_num_blocks. rewrite Ho. cbn. pose proof (Z.mul_div_le m b Hb0). pose proof (Z.div_pos m b Hm Hb0).
    destruct (forallb _ _); [done|]. rewrite Z.max_l; done. }
  split; [|split; [done|]].
  - destruct Hts as [[H1 H2 H3 H4]|[E1 E2]].
    + constructor; rewrite ?Eg; [done|by rewrite H1|done|done|]. intros b' Ho Hm Hb' Hb0. rewrite Hb in Hb'. injection Hb' as <-. rewrite H4. by apply Hbound.
    + constructor; rewrite ?E1; [done|by rewrite <- Hperm, E2|by intros ? ? ?%elem_of_nil|by intros ? ? ? ? ?%elem_of_nil|done].
  - intros b' Ho Hm Hb' Hb0 Hnn. rewrite Eg, Hb in Hb'. injection Hb' as <-. destruct Hts as [[_ _ _ H4]|[E1 _]]; [done|by rewrite E1 in Hnn].
Qed.

(** The plans of the workers, by the steps of the code. *)
Lemma kv_cache_configs_plans reg c (specs : list Specs) mem configs c' : (forall w, w ∈ specs -> NoDup w.*1) -> length mem = length specs ->
  get_kv_cache_configs reg specs mem c = (Ok configs, c') ->
  length configs = length specs /\ (exists k, c' = set_max_model_len k c) /\
  exists n ngroups, forall i w m cfg, specs !! i = Some w -> mem !! i = Some m -> configs !! i = Some cfg ->
    worker_plan c w m n cfg /\ length (kv_cache_groups cfg) = ngroups.
Proof.
  intros Hnd Hlen H. unfold get_kv_cache_configs in H. apply run_bind in H as (merged & s0 & [Hmerged ->]%run_result & H).
  apply run_bind in H as ([] & s0 & [_ ->]%run_result & H). apply run_bind in H as (c0 & s0 & [= <- <-] & H).
  apply run_bind in H as (groups & s0 & [Hg ->]%run_result & H). apply run_bind in H as (projected & s0 & [Hp%map_r_ok ->]%run_result & H).
  apply run_bind in H as (mem' & s0 & Hmem & H).
  assert (Hadj : s0 = c /\ length mem' = length specs /\ (num_gpu_blocks_override c = None -> mem' = mem)).
  { pose proof (Forall2_length _ _ _ Hp) as Hl. destruct (num_gpu_blocks_override c).
    - apply run_result in Hmem as [Hm ->]. split; [done|]. split; [|done]. apply map_r_ok, Forall2_length in Hm. rewrite <- Hm, length_zip. lia.
    - injection Hmem as -> ->. done. }
  destruct Hadj as (-> & Hlen' & Hmem'). apply run_bind in H as ([] & s1 & Hfit & H).
  assert (Hs1 : exists k, s1 = set_max_model_len k c).
  { destruct (original_max_model_len c =? -1); [by eapply auto_fit_frame|]. injection Hfit as <-. exists (max_model_len c). by rewrite set_own_max_model_len. }
  apply run_bind in H as ([] & s2 & ->%check_workers_frame & H). apply run_bind in H as (c1 & s3 & [= <- <-] & H).
  apply run_bind in H as (cfgs & s3 & [Hcfgs%map_r_ok ->]%run_result & H). apply run_bind in H as (n & s3 & [Hmin%min_of_ok ->]%run_result & H).
  apply run_result in H as [Hsh%map_r_ok ->].
  assert (Hln : length configs = length specs).
  { rewrite <- (Forall2_length _ _ _ Hsh), <- (Forall2_length _ _ _ Hcfgs), !length_zip, <- (Forall2_length _ _ _ Hp). lia. }
  split; [done|]. split; [done|]. exists n, (length groups). intros i w m cfg Hw Hm Hcfg.
  destruct (Forall2_lookup_r _ _ _ _ _ Hsh Hcfg) as (cfg0 & Hcfg0 & Hshrink). destruct (Forall2_lookup_r _ _ _ _ _ Hcfgs Hcfg0) as ([[pg w'] m'] & Hz & Hwc).
  apply lookup_zip_Some in Hz as [Hz Hm']. apply lookup_zip_Some in Hz as [Hpg Hw']. rewrite Hw in Hw'. injection Hw' as <-.
  destruct (Forall2_lookup_r _ _ _ _ _ Hp Hpg) as (w' & Hw' & Hproj). rewrite Hw in Hw'. injection Hw' as <-.
  assert (Hmn : NoDup merged.*1) by (by eapply (merge_layers_nodup (concat specs) []); [apply NoDup_nil|]).
  pose proof (groups_shaped _ _ _ _ Hg) as Hshape. destruct (groups_names_ok reg c merged groups Hmn Hg) as (Hgn & _ & _).
  destruct (project_ok w groups pg Hproj Hshape) as (Enames & Hhom & Hl & Hlg).
  assert (Hwn : NoDup w.*1) by (apply Hnd; by eapply list_elem_of_lookup_2).
  destruct (worker_config_plan s1 w m' pg cfg0 Hwn) as (Hplan & Eg & Hsum); [by rewrite Enames; apply NoDup_filter|by rewrite Enames; intros x [? _]%list_elem_of_filter|done|done|done|].
  assert (Hsame : num_gpu_blocks_override s1 = num_gpu_blocks_override c) by (by destruct Hs1 as [k ->]).
  assert (Hplan' : worker_plan s1 w m' n cfg).
  { apply (shrink_plan s1 w m' n cfg0 cfg Hplan); [|done|done]. apply (proj2 Hmin), list_elem_of_fmap. exists cfg0. split; [done|by eapply list_elem_of_lookup_2]. }
  split.
  - destruct Hplan' as [P1 P2 P3 P4 P5]. constructor; [done..|]. intros b Ho Hm0 Hb Hb0. specialize (Hmem' Ho). subst mem'. rewrite Hm in Hm'. injection Hm' as <-.
    apply (P5 b); by rewrite ?Hsame.
  - unfold shrink_config in Hshrink. apply bind_ok in Hshrink as (ts & _ & Hshrink). cbn in Hshrink. rewrite Eg in Hshrink.
    destruct pg; [by injection Hshrink as <-|]. by apply bind_ok in Hshrink as (? & _ & [= <-]).
Qed.

(** C11. The workers get consistent plans. Whenever [get_kv_cache_configs] returns,
    for workers with any layers and memory and on whichever path the groups were
    made, it has a configuration for every worker, all with the same number of
    blocks. The tensors of a worker hold each of its layers once; each has the size
    of that many pages of every layer in it; layers that share a tensor are of
    different groups, whose block tables differ; and without an override of the
    number of blocks they fit the memory of the worker together. *)
Theorem kv_cache_configs_consistent reg c (specs : list Specs) mem configs c' : (forall w, w ∈ specs -> NoDup w.*1) -> length mem = length specs ->
  get_kv_cache_configs reg specs mem c = (Ok configs, c') ->
  length configs = length specs /\ (exists k, c' = set_max_model_len k c) /\
  exists n ngroups, forall i w m cfg, specs !! i = Some w -> mem !! i = Some m -> configs !! i = Some cfg ->
    worker_plan c w m n cfg /\ length (kv_cache_groups cfg) = ngroups.
Proof. apply kv_cache_configs_plans. Qed.

(** ** Room for one request *)

Lemma check_enough_ok (usage : VllmConfig -> result Z) c mem v : 1 <= max_model_len c -> usage_grows usage c (max_model_len c) -> usage c = Ok v ->
  check_enough_memory usage mem c = (if (0 <? mem) && (v <=? mem) then Ok tt else Err ValueError, c).
Proof.
  intros HN Hg Hv. unfold check_enough_memory. destruct (Z.leb_spec mem 0); destruct (Z.ltb_spec 0 mem); try lia; [done|].
  unfold mbind, M_bind, get, of_result. cbv beta iota. rewrite Hv. destruct (Z.ltb_spec mem v); destruct (Z.leb_spec v mem); try lia; [|done].
  destruct (search_ok usage mem c HN Hg) as (L & -> & _). done.
Qed.

(** C13. The start-up check admits exactly what the plan can hold. For groups with
    one spec each and pages of one size, and without an override of the number of
    blocks, [check_enough_memory] raises ValueError unless the memory is positive and holds the blocks of one request of the maximum
    length in every group; if it does, planning succeeds, and the number of blocks
    is at least what the groups need together for that request. *)
Theorem admitted_request_fits c groups mem : config_ok c -> groups_ok c groups -> plain groups -> groups <> [] -> NoDup (names_of groups) ->
  names_of groups <> [] -> 1 <= max_model_len c -> num_gpu_blocks_override c = None ->
  exists v, max_memory_usage_bytes_from_groups c groups = Ok v /\
    check_enough_memory (fun c => max_memory_usage_bytes_from_groups c groups) mem c = (if (0 <? mem) && (v <=? mem) then Ok tt else Err ValueError, c) /\
    (0 < mem -> v <= mem -> exists cfg, get_kv_cache_config_from_groups c groups mem = Ok cfg /\
      zsum (group_blocks c <$> groups) <= num_blocks cfg /\ zsum (size <$> kv_cache_tensors cfg) <= mem).
Proof.
  intros Hc Hg Hpl Hne Hnd Hnames HN Ho.
  assert (Hb : forallb is_uniform_spec groups = false).
  { destruct groups as [|g l]; [done|]. cbn. by rewrite (Hpl g ltac:(by left)). }
  destruct (go_page c groups Hg Hb) as [p Hp]. pose proof (memory_one_page c groups p Hc Hg Hb Hp) as Ev.
  destruct (widest_spec groups Hne) as (Hw & Hle & g & Hgin & Ew).
  assert (Hp0 : 0 < p) by (rewrite <- (Hp g Hgin); by apply (group_page_pos c), Hg).
  assert (Hw0 : 0 < widest groups).
  { destruct (decide (widest groups <= 0)) as [Hz|]; [|lia]. destruct Hnames. apply nil_length_inv.
    assert (Hall : forall h, h ∈ groups -> layer_names h = []) by (intros h Hh; specialize (Hle h Hh); apply nil_length_inv; lia).
    clear -Hall. induction groups as [|h l IH]; [done|]. rewrite fmap_cons. cbn. rewrite (Hall h) by (by left). apply IH. intros; apply Hall; by right. }
  eexists. split; [exact Ev|]. split.
  - apply check_enough_ok; [done|by apply memory_grows|exact Ev].
  - intros Hm Hv. assert (Hs : single_uniform groups = None).
    { destruct groups as [|h [|]]; [done| |done]. cbn. specialize (Hpl h ltac:(by left)). unfold is_uniform_spec in Hpl. by destruct (uniform_of _). }
    assert (Hcfg : exists cfg, get_kv_cache_config_from_groups c groups mem = Ok cfg /\ num_blocks cfg = Z.max (mem / p / widest groups) 0).
    { unfold get_kv_cache_config_from_groups. destruct groups as [|h l] eqn:E; [done|]. rewrite <- E in *. rewrite Hs, Hb, Hw. cbn.
      rewrite (uniform_page_exact c groups p Hne (go_each c groups Hg) Hp). cbn. rewrite (proj2 (Z.ltb_lt _ _) Hw0). cbn.
      unfold get_num_blocks, floordiv_r. rewrite (proj2 (Z.eqb_neq p 0)) by lia. cbn. rewrite (proj2 (Z.eqb_neq (widest groups) 0)) by lia. cbn.
      eexists. split; [done|]. cbn. unfold may_override_num_blocks. by rewrite Ho. }
    destruct Hcfg as (cfg & E & En). exists cfg. split; [done|]. split.
    + rewrite En, Z.div_div by lia. transitivity (mem / (p * widest groups)); [|lia]. apply Z.div_le_lower_bound; [lia|]. nia.
    + destruct (config_from_groups_ok c groups mem cfg Hnd (or_introl Hpl)) as (Eg & b & Hbb & Hts & _); [|done|done|].
      { intros h Hh u Hu. specialize (Hpl h Hh). unfold is_uniform_spec in Hpl. by rewrite Hu in Hpl. }
      unfold pool_bytes_per_block in Hbb. rewrite Hs, Hb, Hw in Hbb. cbn in Hbb. rewrite (uniform_page_exact c groups p Hne (go_each c groups Hg) Hp) in Hbb.
      injection Hbb as <-. destruct Hts as [Hts|[-> _]]; [|cbn; lia]. rewrite (to_bytes _ _ _ _ Hts), En, Z.div_div by lia.
      pose proof (Z.mul_div_le mem (p * widest groups) ltac:(nia)). pose proof (Z.div_pos mem (p * widest groups) ltac:(lia) ltac:(nia)). rewrite Z.max_l; lia.
Qed.
End plan.
End KVPlanSafety.
