(* ===== verification/KVPageSafety.v ===== *)
(** * KVPageSafety

    Layers with pages of different sizes get pages of one size by larger blocks, and
    the size of the chunks that groups are padded to wastes least. Then models on
    which the code does not do what it promises, and the theorems about planning on
    concrete models. *)

From S2P Require Import Prelude OrderedDict RequestQueue FreeQueue BlockPool KVSpec KVSpecSafety KVConfig KVConfigSafety KVGroupSafety KVPlanSafety.

Module KVPageSafety.
Import OrderedDict RequestQueue KVSpec KVSpecSafety KVConfig KVConfigSafety KVGroupSafety KVPlanSafety.
#[local] Open Scope Z_scope.

(** ** The least padding *)

(** [best] is the best of the candidates [ds]. *)
Definition best_of (values ds : list Z) (best : Z * option Z) : Prop :=
  best.2 = Some (padding values best.1) /\ best.1 ∈ ds /\
  forall d, d ∈ ds -> padding values best.1 <= padding values d /\ (padding values d = padding values best.1 -> d <= best.1).

Lemma better_best values ds best d : best_of values ds best -> (forall d', d' ∈ ds -> d' < d) -> best_of values (ds ++ [d]) (better values best d).
Proof.
  intros (H2 & Hin & Hbest) Hd. unfold better. rewrite H2. specialize (Hd best.1 Hin) as Hlt.
  destruct (Z.ltb_spec (padding values d) (padding values best.1)); cbn [orb].
  - split; [done|]. split; [apply elem_of_app; right; by apply list_elem_of_singleton|]. cbn. intros d' [Hd'| ->%list_elem_of_singleton]%elem_of_app; [|lia].
    destruct (Hbest d' Hd'). lia.
  - destruct (Z.eqb_spec (padding values d) (padding values best.1)) as [E|E]; cbn [andb].
    + rewrite (proj2 (Z.ltb_lt _ _) Hlt). split; [done|]. split; [apply elem_of_app; right; by apply list_elem_of_singleton|]. cbn.
      intros d' [Hd'| ->%list_elem_of_singleton]%elem_of_app; [|lia]. destruct (Hbest d' Hd'). specialize (Hd d' Hd'). lia.
    + split; [done|]. split; [apply elem_of_app; by left|]. intros d' [Hd'| ->%list_elem_of_singleton]%elem_of_app; [by apply Hbest|lia].
Qed.

Lemma candidates_snoc a n : (fun i => a + i) <$> zrange (Z.of_nat (S n)) = ((fun i => a + i) <$> zrange (Z.of_nat n)) ++ [a + Z.of_nat n].
Proof. unfold zrange. rewrite !Nat2Z.id, seq_S, !fmap_app. done. Qed.
Lemma candidates_elem a n d : d ∈ (fun i => a + i) <$> zrange (Z.of_nat n) <-> a <= d < a + Z.of_nat n.
Proof.
  unfold zrange. rewrite Nat2Z.id. rewrite list_elem_of_fmap. split.
  - intros (i & -> & (j & -> & Hj%elem_of_seq)%list_elem_of_fmap). lia.
  - intros Hd. exists (d - a). split; [lia|]. apply list_elem_of_fmap. exists (Z.to_nat (d - a)). split; [lia|]. apply elem_of_seq. lia.
Qed.

Lemma search_padding values a n : best_of values ((fun i => a + i) <$> zrange (Z.of_nat (S n)))
  (foldl (better values) (a, None) ((fun i => a + i) <$> zrange (Z.of_nat (S n)))).
Proof.
  induction n as [|n IH].
  - change (zrange (Z.of_nat 1)) with [0]. cbn. rewrite Z.add_0_r. split; [done|]. split; [by left|]. intros d ->%list_elem_of_singleton. cbn. lia.
  - rewrite candidates_snoc, foldl_app. cbn [foldl]. apply better_best; [exact IH|]. intros d Hd%candidates_elem. lia.
Qed.

(** [_approximate_gcd] pads least. For positive values it returns a chunk size
    that is at least the lower bound and, among those up to the largest value, needs
    the least padding, the largest of equally good ones; other values are refused. *)
Lemma approximate_gcd_best values lower : let lo := Z.max 1 (default 1 lower) in
  if bool_decide (values = []) || existsb (fun x => x <=? 0) values then approximate_gcd values lower = Err ValueError
  else exists d m, approximate_gcd values lower = Ok d /\ lo <= d /\ max_of values = Ok m /\
    (m < lo -> d = lo) /\ forall d', lo <= d' <= m -> padding values d <= padding values d' /\ (padding values d' = padding values d -> d' <= d).
Proof.
  cbn zeta. unfold approximate_gcd. destruct values as [|x l]; [done|]. rewrite bool_decide_false by done. cbn [orb]. set (values := x :: l).
  destruct (existsb _ values); [done|]. destruct (max_of_total values) as [m Em]; [done|]. rewrite Em. cbn [mbind result_bind]. set (lo := Z.max 1 (default 1 lower)).
  destruct (Z.ltb_spec m lo).
  - exists lo, m. split; [done|]. split; [lia|]. split; [done|]. split; [done|]. intros d' Hd'. lia.
  - replace (m + 1 - lo) with (Z.of_nat (S (Z.to_nat (m - lo)))) by lia. destruct (search_padding values lo (Z.to_nat (m - lo))) as (_ & Hin & Hbest).
    set (best := foldl _ _ _) in *. exists best.1, m. split; [done|]. apply candidates_elem in Hin. split; [lia|]. split; [done|]. split; [lia|].
    intros d' Hd'. apply Hbest, candidates_elem. lia.
Qed.

(** ** Pages of one size *)

Section pages.
Context `{TD : TorchDtype}.
#[local] Notation Specs := (list (string * KVCacheSpec)).

(** Layers whose page grows with their blocks: without padding, and, if compressed,
    with blocks of whole compressed tokens. *)
Definition scalable (s : KVCacheSpec) : bool :=
  match attention_of s with
  | None => false
  | Some a =>
      bool_decide (page_size_padded a = None) &&
      match mla_of s with Some m => bool_decide (alignment m = None) && (att_block_size a mod compress_ratio m =? 0) | None => true end
  end.

Lemma floordiv_scale a k r q : floordiv_r a r = Ok q -> a mod r = 0 -> floordiv_r (a * k) r = Ok (q * k).
Proof.
  intros [Hr ->]%floordiv_r_ok Hm. apply floordiv_r_ok. split; [done|]. apply Z.div_unique_exact; [done|].
  by rewrite Z.mul_assoc, <- (Z_div_exact_full_2 a r Hr Hm).
Qed.

Lemma real_page_scales s k p : scalable s = true -> real_page_size_bytes s = Ok p ->
  real_page_size_bytes (map_attention (set_att_block_size (block_size s * k)) s) = Ok (p * k).
Proof.
  unfold scalable. intros Hs. assert (Hmla : forall a m q, att_block_size a mod compress_ratio m = 0 -> mla_storage_block_size a m = Ok q ->
    mla_storage_block_size (set_att_block_size (att_block_size a * k) a) m = Ok (q * k)) by (intros a m q Hm Hq; by apply floordiv_scale).
  assert (Hhead : forall a m q, att_block_size a mod compress_ratio m = 0 -> mla_head_bytes a m = Ok q ->
    mla_head_bytes (set_att_block_size (att_block_size a * k) a) m = Ok (q * k)).
  { intros a m q Hm (st & Hst & [= <-])%bind_ok. unfold mla_head_bytes. rewrite (Hmla a m st Hm Hst). cbn. f_equal. lia. }
  destruct s; cbn [attention_of mla_of] in Hs; try done; cbn [real_page_size_bytes map_attention block_size];
    try (intros [= <-]; f_equal; unfold full_page_size_bytes, base_page_size_bytes, head_bytes; cbn; repeat case_match; lia).
  all: apply andb_true_iff in Hs as [_ [_ Hs%Z.eqb_eq]%andb_true_iff].
  1,2: unfold mla_page_size_bytes; destruct (bool_decide _); [|by apply Hhead]; destruct (bool_decide _);
    [intros (st & Hst & [= <-])%bind_ok; rewrite (Hmla a m st Hs Hst); cbn; f_equal; lia|intros [= <-]; cbn; f_equal; lia].
  unfold window_mla_page_size_bytes. destruct (_ && _).
  - intros (st & Hst & [= <-])%bind_ok. rewrite (Hmla a m st Hs Hst). cbn. f_equal. lia.
  - destruct (assert_r _) as [[]|]; [|done]. by apply Hhead.
Qed.

Lemma page_scales s k p : scalable s = true -> page_size_bytes s = Ok p -> exists s', copy_with_new_block_size (block_size s * k) s = Ok s' /\
  block_size s' = block_size s * k /\ page_size_bytes s' = Ok (p * k).
Proof.
  intros Hs Hp. assert (Ha : exists a, attention_of s = Some a) by (unfold scalable in Hs; destruct (attention_of s) as [a|]; [by exists a|done]).
  destruct Ha as [a Ha]. unfold page_size_bytes in Hp. apply bind_ok in Hp as (real & Hreal & Hp).
  pose proof (real_page_scales s k real Hs Hreal) as Hr. exists (map_attention (set_att_block_size (block_size s * k)) s).
  assert (Hpad : page_size_padded a = None /\ (forall m, mla_of s = Some m -> alignment m = None)).
  { unfold scalable in Hs. rewrite Ha in Hs. apply andb_true_iff in Hs as [H1%bool_decide_eq_true H2]. split; [done|]. intros m Hm. rewrite Hm in H2.
    by apply andb_true_iff in H2 as [H2%bool_decide_eq_true _]. }
  destruct Hpad as [Hpad Hal]. split; [|split].
  - unfold copy_with_new_block_size, apply_alignment_padding. assert (E : with_block_size (block_size s * k) s = map_attention (set_att_block_size (block_size s * k)) s) by by destruct s.
    rewrite E. assert (Em : mla_of (map_attention (set_att_block_size (block_size s * k)) s) = mla_of s) by by destruct s. rewrite Em.
    destruct (mla_of s) as [m|]; [|done]. by rewrite (Hal m eq_refl).
  - by destruct s.
  - unfold page_size_bytes. rewrite Hr. cbn [mbind result_bind].
    destruct s; cbn in Ha; try done; injection Ha as ->; cbn in Hp |- *; rewrite Hpad in Hp; rewrite Hpad; cbn in Hp |- *; injection Hp as <-; f_equal; destruct (is_per_token_head _); lia.
Qed.

Lemma lcm_divides l p : p ∈ l -> (p | foldr Z.lcm 1 l).
Proof.
  induction l as [|q l IH]; [by intros ?%elem_of_nil|]. cbn. intros [->|Hp]%elem_of_cons; [apply Z.divide_lcm_l|].
  transitivity (foldr Z.lcm 1 l); [by apply IH|apply Z.divide_lcm_r].
Qed.

(** C15. Pages are unified without changing what a token takes. For layers of
    positive page sizes that are scalable, or already have the common size,
    [unify_kv_cache_spec_page_size] returns; every layer keeps its name and has a
    page of the same size, the least common multiple, and its blocks grow in
    proportion. *)
Theorem unified_page_sizes (specs : Specs) (page : KVCacheSpec -> Z) :
  (forall ns, ns ∈ specs -> page_size_bytes ns.2 = Ok (page ns.2) /\ 0 < page ns.2) ->
  let target := foldr Z.lcm 1 (remove_dups ((fun ns => page ns.2) <$> specs)) in
  (forall ns, ns ∈ specs -> scalable ns.2 = true \/ page ns.2 = target) ->
  exists specs', unify_kv_cache_spec_page_size specs = Ok specs' /\
    Forall2 (fun ns ns' => ns'.1 = ns.1 /\ block_size ns'.2 * page ns.2 = block_size ns.2 * target /\ page_size_bytes ns'.2 = Ok target) specs specs'.
Proof.
  intros Hpage target Hscale. unfold unify_kv_cache_spec_page_size, page_sizes_of. rewrite (map_r_fmap _ (fun ns => page ns.2)) by (intros ns Hns; by apply Hpage).
  cbn [mbind result_bind]. set (sizes := remove_dups ((fun ns => page ns.2) <$> specs)) in *.
  assert (Hin : forall ns, ns ∈ specs -> page ns.2 ∈ sizes) by (intros ns Hns; unfold sizes; apply elem_of_remove_dups, list_elem_of_fmap; by exists ns).
  destruct (Nat.leb_spec (length sizes) 1) as [Hone|_].
  - exists specs. split; [done|]. apply Forall_Forall2_diag, Forall_forall. intros ns Hns. destruct (Hpage ns Hns) as [Hp Hp0].
    assert (E : target = page ns.2).
    { specialize (Hin ns Hns). unfold target. destruct sizes as [|q [|]]; [by apply elem_of_nil in Hin| |cbn in Hone; lia]. apply list_elem_of_singleton in Hin.
      cbn. rewrite Z.lcm_1_r_nonneg; lia. }
    rewrite E. done.
  - assert (Hone : forall ns, ns ∈ specs -> exists ns', (s ← unify_layer target ns.2; Ok (ns.1, s)) = Ok ns' /\
      ns'.1 = ns.1 /\ block_size ns'.2 * page ns.2 = block_size ns.2 * target /\ page_size_bytes ns'.2 = Ok target).
    { intros ns Hns. destruct (Hpage ns Hns) as [Hp Hp0]. unfold unify_layer. rewrite Hp. cbn [mbind result_bind].
      destruct (Z.eqb_spec (page ns.2) target) as [E|E].
      - exists ns. split; [by destruct ns|]. rewrite <- E. by split.
      - rewrite (proj2 (Z.eqb_neq _ _)) by lia. destruct (Hscale ns Hns) as [Hs|]; [|done]. apply Hin, lcm_divides in Hns as [k Hk]. fold target in Hk.
        rewrite Hk, Z.mod_mul by lia. cbn [negb Z.eqb]. rewrite Z.div_mul by lia. destruct (page_scales ns.2 k _ Hs Hp) as (s' & -> & Hb & Hp').
        cbn [mbind result_bind]. rewrite Hp'. cbn [mbind result_bind]. rewrite (proj2 (Z.eqb_eq _ _)) by lia. cbn. eexists. split; [done|]. cbn.
        split; [done|]. rewrite Hb, Hp'. split; [lia|]. f_equal. lia. }
    by apply map_r_Forall2.
Qed.
End pages.
End KVPageSafety.
