(* ===== verification/KVPlanWitness.v ===== *)
(** * KVPlanWitness

    The theorems about planning the KV cache on concrete models, and models on which
    the code does not do what it promises. *)

From S2P Require Import Prelude OrderedDict RequestQueue Request BlockPool SingleType Coordinator KVCacheManager KVSafety AdmissionSafety KVSpec KVSpecSafety KVConfig KVConfigSafety KVGroupSafety KVPlanSafety KVPageSafety.

Module KVPlanWitness.
Import KVSpec KVSpecSafety KVConfig KVConfigSafety KVGroupSafety KVPlanSafety KVPageSafety.
#[local] Open Scope Z_scope.

Inductive sample_dtype := bfloat16 | uint8 | float32.
#[local] Instance sample_dtype_eq : EqDecision sample_dtype.
Proof. solve_decision. Defined.
#[local] Instance sample_torch : TorchDtype.
Proof.
  refine {| torch_dtype := sample_dtype; element_size d := match d with bfloat16 => 2 | uint8 => 1 | float32 => 4 end; torch_float32 := float32 |}.
  by intros [].
Defined.

Definition att (bs heads : Z) : AttentionSpec := mkAttention bs heads 64 bfloat16 NONE None.
Definition full (bs heads : Z) : KVCacheSpec := FullAttentionSpec (att bs heads) (mkFull 64 None None false).
Definition window (bs heads w : Z) : KVCacheSpec := SlidingWindowSpec (att bs heads) w 64.

Definition engine (max_len : Z) : VllmConfig := mkVllmConfig max_len max_len 64 0 1 1 None "none"%string None false false.

Lemma engine_ok n : config_ok (engine n).
Proof. by constructor. Qed.
Lemma spec_ok_by c s : (0 <? block_size s) && (0 <? page_of s) && match page_size_bytes s with Ok _ => true | Err _ => false end = true -> kind_ok c s -> spec_ok c s.
Proof.
  intros [[H1%Z.ltb_lt H2%Z.ltb_lt]%andb_true_iff H3]%andb_true_iff Hk. constructor; [done| |done|done]. unfold page_of. by destruct (page_size_bytes s).
Qed.

(** Two full and three sliding-window layers; a page takes 4096 bytes. *)
Definition hybrid_layers : list (string * KVCacheSpec) :=
  [("f0"%string, full 16 1); ("s0"%string, window 16 1 32); ("s1"%string, window 16 1 32); ("f1"%string, full 16 1); ("s2"%string, window 16 1 32)].
Definition hybrid_plan : list KVCacheGroupSpec :=
  [new_group ["f0"%string; "f1"%string] (OneSpec (full 16 1)); new_group ["s0"%string; "s2"%string] (OneSpec (window 16 1 32)); new_group ["s1"%string] (OneSpec (window 16 1 32))].

Lemma hybrid_plan_ok n : groups_ok (engine n) hybrid_plan.
Proof.
  constructor.
  - intros g Hg. unfold hybrid_plan in Hg. rewrite !elem_of_cons, elem_of_nil in Hg. destruct Hg as [->|[->|[->|[]]]]; apply spec_ok_by; by vm_compute.
  - intros _. exists 4096. intros g Hg. unfold hybrid_plan in Hg. rewrite !elem_of_cons, elem_of_nil in Hg. by destruct Hg as [->|[->|[->|[]]]].
Qed.

(** 131072 bytes hold 16 blocks for both layers at each position; a request of 64
    tokens fits, one of 256 does not. *)
Lemma estimate_is_longest_witness : exists L, estimate_max_model_len_from_groups hybrid_plan 131072 (engine 1000) = (Ok L, engine 1000) /\ 64 <= L < 256.
Proof.
  destruct (estimate_is_longest (engine 1000) hybrid_plan 131072 (engine_ok 1000) (hybrid_plan_ok 1000) ltac:(done) ltac:(vm_compute; done)) as (L & E & _ & HL).
  exists L. split; [exact E|]. split.
  - apply (HL 64 ltac:(vm_compute; done)). eexists. split; [vm_compute; reflexivity|]. by vm_compute.
  - destruct (Z.le_gt_cases 256 L) as [Hle|]; [|done]. apply (HL 256 ltac:(vm_compute; done)) in Hle as (v & Hv & Hle). vm_compute in Hv. injection Hv as <-. by destruct Hle.
Defined.

Lemma groups_cut_up_model_witness : get_kv_cache_groups builtin_registry (engine 1000) hybrid_layers = Ok hybrid_plan /\
  concat (layer_names <$> hybrid_plan) ≡ₚ hybrid_layers.*1.
Proof.
  assert (E : get_kv_cache_groups builtin_registry (engine 1000) hybrid_layers = Ok hybrid_plan) by (vm_compute; reflexivity).
  split; [exact E|]. apply (groups_cut_up_model builtin_registry (engine 1000) hybrid_layers hybrid_plan); [|exact E|].
  - apply (bool_decide_unpack _). by vm_compute.
  - right. intros ns Hns. unfold hybrid_layers in Hns. rewrite !elem_of_cons, elem_of_nil in Hns. by destruct Hns as [->|[->|[->|[->|[->|[]]]]]].
Defined.

(** Two workers, the first with three of the layers, and memory for 20 and 15 blocks. *)
Definition stages : list (list (string * KVCacheSpec)) := [take 3 hybrid_layers; drop 3 hybrid_layers].
Definition stage_memory : list Z := [163840; 61440].
Definition stage_plans : list KVCacheConfig :=
  match (get_kv_cache_configs builtin_registry stages stage_memory (engine 64)).1 with Ok l => l | Err _ => [] end.

Lemma kv_cache_configs_consistent_witness : get_kv_cache_configs builtin_registry stages stage_memory (engine 64) = (Ok stage_plans, engine 64) /\
  (num_blocks <$> stage_plans) = [15; 15] /\
  exists cfg, stage_plans !! 1%nat = Some cfg /\ concat (shared_by <$> kv_cache_tensors cfg) ≡ₚ ["f1"%string; "s2"%string] /\ zsum (size <$> kv_cache_tensors cfg) <= 61440.
Proof.
  assert (E : get_kv_cache_configs builtin_registry stages stage_memory (engine 64) = (Ok stage_plans, engine 64)) by (vm_compute; reflexivity).
  split; [exact E|]. split; [vm_compute; reflexivity|].
  destruct (kv_cache_configs_consistent builtin_registry (engine 64) stages stage_memory stage_plans (engine 64)) as (Hlen & _ & n & ngroups & H).
  - intros w Hw. apply (bool_decide_unpack _). unfold stages in Hw. rewrite !elem_of_cons, elem_of_nil in Hw. by destruct Hw as [->|[->|[]]]; vm_compute.
  - reflexivity.
  - exact E.
  - destruct (stage_plans !! 1%nat) as [cfg|] eqn:Ecfg; [|by apply lookup_ge_None in Ecfg; rewrite Hlen in Ecfg; cbn in Ecfg; lia].
    exists cfg. split; [done|]. destruct (H 1%nat (drop 3 hybrid_layers) 61440 cfg eq_refl eq_refl Ecfg) as [[_ Hn _ _ Hf] _]. split; [exact Hn|].
    vm_compute in Ecfg. injection Ecfg as Ecfg. apply (Hf 4096); [done|done| |done]. rewrite <- Ecfg. by vm_compute.
Defined.

(** A request of 64 tokens takes 14 of the 16 blocks. *)
Lemma admitted_request_fits_witness : exists cfg, get_kv_cache_config_from_groups (engine 64) hybrid_plan 131072 = Ok cfg /\
  zsum (group_blocks (engine 64) <$> hybrid_plan) <= num_blocks cfg /\
  check_enough_memory (fun c => max_memory_usage_bytes_from_groups c hybrid_plan) 131072 (engine 64) = (Ok tt, engine 64).
Proof.
  destruct (admitted_request_fits (engine 64) hybrid_plan 131072 (engine_ok 64) (hybrid_plan_ok 64)) as (v & Hv & Hcheck & Hfit).
  - intros g Hg. unfold hybrid_plan in Hg. rewrite !elem_of_cons, elem_of_nil in Hg. by destruct Hg as [->|[->|[->|[]]]].
  - done.
  - apply (bool_decide_unpack _). by vm_compute.
  - done.
  - by vm_compute.
  - done.
  - vm_compute in Hv. injection Hv as <-. destruct Hfit as (cfg & E & Hb & _); [done|by vm_compute|]. exists cfg. split; [exact E|]. split; [exact Hb|].
    exact Hcheck.
Defined.

(** One layer has twice the heads of the other. *)
Definition uneven_layers : list (string * KVCacheSpec) := [("a"%string, full 16 2); ("b"%string, window 16 1 32)].
Lemma unified_page_sizes_witness : exists specs, unify_kv_cache_spec_page_size uneven_layers = Ok specs /\
  (block_size <$> specs.*2) = [16; 32] /\ Forall (fun ns => page_size_bytes ns.2 = Ok 8192) specs.
Proof.
  destruct (unified_page_sizes uneven_layers page_of) as (specs & E & H).
  - intros ns Hns. unfold uneven_layers in Hns. rewrite !elem_of_cons, elem_of_nil in Hns. by destruct Hns as [->|[->|[]]]; split; vm_compute.
  - intros ns Hns. left. unfold uneven_layers in Hns. rewrite !elem_of_cons, elem_of_nil in Hns. by destruct Hns as [->|[->|[]]].
  - exists specs. split; [exact E|]. split; [vm_compute in E; injection E as <-; reflexivity|].
    eapply Forall2_Forall_r; [exact H|]. apply Forall_true. intros x y (_ & _ & Hp). exact Hp.
Defined.

(** ** Where the plan breaks its promises *)

(** The check promises room for one request of the maximum length, but the pool keeps
    one of the planned blocks as its null block. With two blocks planned for
    requests of 32 tokens, a prompt of 31 tokens is refused by the empty cache. *)
Definition one_layer : list (string * KVCacheSpec) := [("f0"%string, full 16 1)].
Definition two_blocks : Coordinator.ManagedKVConfig :=
  Coordinator.mkConfig 2 [Coordinator.mkGroup (SingleType.mkSpec 16 false (SingleType.FullAttention true)) [] false false] false.
Definition two_block_manager : result KVCacheManager.KVCacheManager :=
  KVCacheManager.kv_manager_init two_blocks 32 16 16 (Some 64) false false false false 1 1 (Some 0) [("full"%string, None)] None.
Definition prompt_of_31 : Request.Request :=
  Request.mkRequest "r" 0 0 1 None None None false None None false false false 5 (Some (replicate 31 7)) 31 [] Request.WAITING None [] (replicate 31 7)
    0 0 0 [] 31 false 0 0 None [] ∅.

Lemma admitted_request_refused : exists cfg k k',
  get_kv_cache_configs builtin_registry [one_layer] [8192] (engine 32) = (Ok [cfg], engine 32) /\ num_blocks cfg = 2 /\
  two_block_manager = Ok k /\ KVCacheManager.allocate_slots false id prompt_of_31 (KVSafety.slots 31) k = (Ok None, k').
Proof. do 3 eexists. split; [vm_compute; reflexivity|]. split; [reflexivity|]. split; [vm_compute; reflexivity|]. vm_compute. reflexivity. Qed.

(** A pipeline stage without attention layers makes planning fail: its groups are
    without layers, but not missing, which is what the code looks for. *)
Lemma stage_without_layers : (get_kv_cache_configs builtin_registry [one_layer; []] [8192; 8192] (engine 16)).1 = Err AssertionError.
Proof. vm_compute. reflexivity. Qed.

(** [MLAAttentionSpec.merge] compares neither block sizes nor head sizes, so that two
    layers with different pages become one group with the page of the first. *)
Definition mla (heads : Z) : KVCacheSpec := MLAAttentionSpec (att 16 heads) (mkFull 64 None None false) (mkMLA None None 1 None).
Lemma merged_pages_differ : exists g, get_kv_cache_groups builtin_registry (engine 16) [("a"%string, mla 1); ("b"%string, mla 4)] = Ok [g] /\
  layer_page_size g "b" = Ok 2048 /\ page_size_bytes (mla 4) = Ok 8192.
Proof. eexists. split; [vm_compute; reflexivity|]. split; vm_compute; reflexivity. Qed.

(** Of padded layers pages cannot be unified, and what is raised is not the
    NotImplementedError that is documented. *)
Definition padded (bs heads p : Z) : KVCacheSpec := FullAttentionSpec (mkAttention bs heads 64 bfloat16 NONE (Some p)) (mkFull 64 None None false).
Lemma padded_pages_not_unified : unify_kv_cache_spec_page_size [("a"%string, full 16 3); ("b"%string, padded 16 1 6000)] = Err AssertionError.
Proof. vm_compute. reflexivity. Qed.

(** The check multiplies with the pages of the first group on the stage. On a stage
    where these are small and those of another group large it admits requests of 64
    tokens, which take 9 blocks, with 2 blocks planned. *)
Definition swa (heads : Z) : KVCacheSpec :=
  SlidingWindowMLASpec (att 16 heads) 32 None (mkMLA None None 1 (Some "deepseek_v4"%string)) false.
Definition uneven_stages : list (list (string * KVCacheSpec)) := [[("a"%string, mla 4)]; [("b"%string, mla 1); ("c"%string, swa 3)]].
Lemma small_pages_counted : exists groups configs,
  get_kv_cache_groups builtin_registry (engine 64) (concat uneven_stages) = Ok groups /\
  get_kv_cache_configs builtin_registry uneven_stages [100000; 20480] (engine 64) = (Ok configs, engine 64) /\
  (num_blocks <$> configs) = [2; 2] /\ zsum (group_blocks (engine 64) <$> groups) = 9.
Proof. do 2 eexists. split; [vm_compute; reflexivity|]. split; [vm_compute; reflexivity|]. split; vm_compute; reflexivity. Qed.
End KVPlanWitness.
