(* ===== verification/KVStartup.v ===== *)
(** * KVStartup

    Start-up of the KV cache: [EngineCore._initialize_kv_caches] of v1/engine/core.py
    asks the workers for their layers and their memory, has the KV cache planned,
    records the plan in the configuration and hands it to the workers;
    v1/core/kv_cache_utils.py resolves the block sizes of the scheduler; and
    v1/core/sched/scheduler.py builds the KV cache manager from both. The executor
    with the workers is the class [StartExecutor]; measuring time is left out. *)

From S2P Require Import Prelude PyNum RequestQueue SingleType Coordinator KVCacheManager KVSpec KVConfig.

Module KVStartup.
Import PyNum RequestQueue KVSpec KVConfig.
#[local] Open Scope Z_scope.

#[local] Notation Registry := (list (SpecClass * KVCacheSpecMetadata)).

(** ** Data *)

(** What the workers do at start-up; [determine_available_memory] profiles them. *)
Class StartExecutor `{TD : TorchDtype} (EX : Type) := {
  get_kv_cache_specs : M EX (list (list (string * KVCacheSpec)));
  determine_available_memory : M EX (list Z);
  update_max_model_len : Z -> M EX unit;
  initialize_from_config : list KVCacheConfig -> M EX unit
}.

(** The part of the configuration of the cache that start-up reads and writes. *)
Record CacheConfig := mkCacheConfig {
  cache_block_size : Z;
  cache_hash_block_size : option Z;
  enable_prefix_caching : bool;
  num_gpu_blocks : option Z;
  kv_cache_size_tokens : option Z;
  kv_cache_max_concurrency : option num
}.
Definition set_num_gpu_blocks (n : Z) (c : CacheConfig) : CacheConfig :=
  mkCacheConfig (cache_block_size c) (cache_hash_block_size c) (enable_prefix_caching c) (Some n) (kv_cache_size_tokens c) (kv_cache_max_concurrency c).
Definition set_cache_block_size (n : Z) (c : CacheConfig) : CacheConfig :=
  mkCacheConfig n (cache_hash_block_size c) (enable_prefix_caching c) (num_gpu_blocks c) (kv_cache_size_tokens c) (kv_cache_max_concurrency c).
Definition set_capacity (cap : Z * num) (c : CacheConfig) : CacheConfig :=
  mkCacheConfig (cache_block_size c) (cache_hash_block_size c) (enable_prefix_caching c) (num_gpu_blocks c) (Some cap.1) (Some cap.2).

(** Settings that start-up only reads; [elastic_ep_scale_up] is
    [VLLM_ELASTIC_EP_SCALE_UP_LAUNCH], [use_v2_model_runner] is
    [VLLM_USE_V2_MODEL_RUNNER], [connector_enabled] says that there is a
    [kv_transfer_config]. *)
Record StartConfig := mkStartConfig {
  elastic_ep_scale_up : bool;
  dcp_kv_cache_interleave_size : Z;
  long_prefill_token_threshold : Z;
  disable_chunked_mm_input : bool;
  connector_enabled : bool;
  use_v2_model_runner : bool
}.

Section start.
Context `{TD : TorchDtype} {EX : Type} `{!StartExecutor EX} (scfg : StartConfig).

Record Start := mkStart {
  st_config : VllmConfig;
  st_cache : CacheConfig;
  cp_kv_cache_interleave_size : Z;
  st_registry : Registry;
  available_gpu_memory_for_kv_cache : Z;
  st_executor : EX
}.
Definition set_st_config (v : VllmConfig) (s : Start) : Start :=
  mkStart v (st_cache s) (cp_kv_cache_interleave_size s) (st_registry s) (available_gpu_memory_for_kv_cache s) (st_executor s).
Definition set_st_cache (v : CacheConfig) (s : Start) : Start :=
  mkStart (st_config s) v (cp_kv_cache_interleave_size s) (st_registry s) (available_gpu_memory_for_kv_cache s) (st_executor s).
Definition set_interleave (v : Z) (s : Start) : Start :=
  mkStart (st_config s) (st_cache s) v (st_registry s) (available_gpu_memory_for_kv_cache s) (st_executor s).
Definition set_st_registry (v : Registry) (s : Start) : Start :=
  mkStart (st_config s) (st_cache s) (cp_kv_cache_interleave_size s) v (available_gpu_memory_for_kv_cache s) (st_executor s).
Definition set_available (v : Z) (s : Start) : Start :=
  mkStart (st_config s) (st_cache s) (cp_kv_cache_interleave_size s) (st_registry s) v (st_executor s).
Definition set_st_executor (v : EX) (s : Start) : Start :=
  mkStart (st_config s) (st_cache s) (cp_kv_cache_interleave_size s) (st_registry s) (available_gpu_memory_for_kv_cache s) v.

Definition on_config {A} (op : M VllmConfig A) : M Start A := zoom st_config set_st_config op.
Definition on_registry {A} (op : M Registry A) : M Start A := zoom st_registry set_st_registry op.
Definition on_executor {A} (op : M EX A) : M Start A := zoom st_executor set_st_executor op.
Definition on_cache (f : CacheConfig -> CacheConfig) : M Start unit := modify (fun s => set_st_cache (f (st_cache s)) s).

(** [spec.block_size] and [getattr(spec, "dcp_replicated", False)] of a group. *)
Definition group_block_size (g : KVCacheGroupSpec) : Z :=
  match kv_cache_spec g with OneSpec s => block_size s | UniformSpecs u => u_block_size u end.
Definition group_dcp_replicated (g : KVCacheGroupSpec) : bool :=
  match kv_cache_spec g with OneSpec s => dcp_replicated s | UniformSpecs u => u_dcp_replicated u end.

(** ** The plan *)

(** [VllmConfig.validate_block_size] *)
Definition validate_block_size : M Start unit :=
  s ← get;
  (if 1 <? decode_context_parallel_size (st_config s) then
     (if (1 <? dcp_kv_cache_interleave_size scfg) && negb (cp_kv_cache_interleave_size s =? dcp_kv_cache_interleave_size scfg)
      then modify (set_interleave (dcp_kv_cache_interleave_size scfg)) else mret tt) ;;
     s ← get;
     assert_ (cp_kv_cache_interleave_size s <=? cache_block_size (st_cache s)) ;;
     (if cp_kv_cache_interleave_size s =? 0 then raise ZeroDivisionError else mret tt) ;;
     assert_ (cache_block_size (st_cache s) mod cp_kv_cache_interleave_size s =? 0)
   else mret tt) ;;
  if bool_decide (cache_mamba_mode (st_config s) = "align"%string) then
    assert_ (cache_block_size (st_cache s) <=? max_num_batched_tokens (st_config s)) ;;
    assert_ (negb (0 <? long_prefill_token_threshold scfg) || (cache_block_size (st_cache s) <=? long_prefill_token_threshold scfg)) ;;
    assert_ (negb (disable_chunked_mm_input scfg)) ;;
    assert_ (negb (use_v2_model_runner scfg))
  else mret tt.

(** The memory of every worker. *)
Definition available_memory (specs : list (list (string * KVCacheSpec))) : M Start (list Z) :=
  if existsb (fun w => match w with [] => false | _ => true end) specs then
    if elastic_ep_scale_up scfg then
      s ← get;
      assert_ (0 <? available_gpu_memory_for_kv_cache s) ;;
      mret (replicate (length specs) (available_gpu_memory_for_kv_cache s))
    else
      mem ← on_executor determine_available_memory;
      first ← of_option IndexError (head mem);
      modify (set_available first) ;;
      mret mem
  else mret (replicate (length specs) 0).

(** The block size and the capacity of the plan of the first worker. *)
Definition record_plan (configs : list KVCacheConfig) (cfg : KVCacheConfig) : M Start unit :=
  on_cache (set_num_gpu_blocks (num_blocks cfg)) ;;
  match kv_cache_groups cfg with
  | [] => mret tt
  | groups =>
      bs ← of_result (min_of (group_block_size <$> groups));
      on_cache (set_cache_block_size bs) ;;
      first ← of_option IndexError (head configs);
      s ← get;
      cap ← of_result (get_kv_cache_capacity (st_config s) first);
      on_cache (set_capacity cap)
  end.

(** [EngineCore._initialize_kv_caches] *)
Definition initialize_kv_caches : M Start KVCacheConfig :=
  on_registry register_all_kvcache_specs ;;
  specs ← on_executor get_kv_cache_specs;
  memory ← available_memory specs;
  assert_ (length specs =? length memory)%nat ;;
  before ← get;
  configs ← on_config (get_kv_cache_configs (st_registry before) specs memory);
  after ← get;
  (if negb (max_model_len (st_config after) =? max_model_len (st_config before))
   then on_executor (update_max_model_len (max_model_len (st_config after))) else mret tt) ;;
  cfg ← of_result (generate_scheduler_kv_cache_config configs);
  record_plan configs cfg ;;
  validate_block_size ;;
  on_executor (initialize_from_config configs) ;;
  mret cfg.

(** ** Block sizes of the scheduler *)

(** The specs of all layers. *)
Definition flattened_specs (groups : list KVCacheGroupSpec) : list KVCacheSpec :=
  g ← groups; match kv_cache_spec g with OneSpec s => [s] | UniformSpecs u => (kv_cache_specs u).*2 end.

Definition is_deepseek_v4_hybrid_kv_cache_config (cfg : KVCacheConfig) : bool :=
  if (length (kv_cache_groups cfg) <=? 1)%nat then false
  else
    let specs := flattened_specs (kv_cache_groups cfg) in
    let has_deepseek_v4_swa := existsb (fun s => isinstance s CSlidingWindowMLASpec &&
      bool_decide ((m ← mla_of s; model_version m) = Some "deepseek_v4"%string)) specs in
    has_deepseek_v4_swa && forallb (fun s => isinstance s CMLAAttentionSpec || isinstance s CSlidingWindowMLASpec) specs.

Definition lcm_of (l : list Z) : Z := foldr Z.lcm 1 l.
Definition gcd_of (l : list Z) : Z := foldr Z.gcd 0 l.

(** A Mamba group whose blocks are not those of the cache. *)
Definition mamba_diverges (c : CacheConfig) (g : KVCacheGroupSpec) : bool :=
  match kv_cache_spec g with OneSpec (MambaSpec m) => negb (mamba_block_size m =? cache_block_size c) | _ => false end.

(** The block sizes of the scheduler and of the hashes. *)
Definition resolve_kv_cache_block_sizes (cfg : KVCacheConfig) (c : VllmConfig) (cc : CacheConfig) : result (Z * Z) :=
  let dcp := decode_context_parallel_size c in
  let pcp := prefill_context_parallel_size c in
  let groups := kv_cache_groups cfg in
  let group_block_sizes := group_block_size <$> groups in
  if (length groups <=? 1)%nat then let bs := cache_block_size cc * dcp * pcp in Ok (bs, bs)
  else if negb (dcp =? 1) || negb (pcp =? 1) then
    if is_deepseek_v4_hybrid_kv_cache_config cfg && (1 <? dcp) && (pcp =? 1) then
      let scheduler_block_size := lcm_of group_block_sizes * dcp in Ok (scheduler_block_size, scheduler_block_size)
    else if (1 <? dcp) && (pcp =? 1) then
      let scheduler_block_size :=
        lcm_of ((fun g => if group_dcp_replicated g then group_block_size g else group_block_size g * dcp) <$> groups) in
      Ok (scheduler_block_size, scheduler_block_size)
    else Err ValueError
  else
    let scheduler_block_size := lcm_of group_block_sizes in
    if negb (enable_prefix_caching cc || connector_enabled scfg) then Ok (scheduler_block_size, scheduler_block_size)
    else if existsb (mamba_diverges cc) groups then Ok (scheduler_block_size, scheduler_block_size)
    else
      let hash_block_size := default (gcd_of group_block_sizes) (cache_hash_block_size cc) in
      if hash_block_size =? 0 then Err ZeroDivisionError
      else if existsb (fun bs => negb (bs mod hash_block_size =? 0)) group_block_sizes then Err ValueError
      else Ok (scheduler_block_size, hash_block_size).

(** ** The KV cache manager *)

(** [KVCacheSpecKind.value] *)
Definition kind_value (k : KVCacheSpecKind) : string :=
  match k with
  | FULL_ATTENTION => "full_attention" | MLA_ATTENTION => "mla_attention" | SLIDING_WINDOW => "sliding_window"
  | SLIDING_WINDOW_MLA => "sliding_window_mla" | MAMBA => "mamba" | CHUNKED_LOCAL_ATTENTION => "chunked_local_attention"
  | SINK_FULL_ATTENTION => "sink_full_attention" | ENCODER_ONLY_ATTENTION => "encoder_only_attention"
  | CROSS_ATTENTION => "cross_attention" | UNKNOWN => "unknown"
  end.
Definition group_kind (g : KVCacheGroupSpec) : KVCacheSpecKind :=
  match kv_cache_spec g with OneSpec s => get_kv_cache_spec_kind s | UniformSpecs u => u_spec_kind u end.
Definition group_sliding_window (g : KVCacheGroupSpec) : option Z :=
  match kv_cache_spec g with OneSpec s => get_kv_cache_spec_sliding_window s | UniformSpecs u => u_sliding_window u end.
(** The metadata of the groups for events. *)
Definition event_metadata (cfg : KVCacheConfig) : list (string * option Z) :=
  (fun g => (kind_value (group_kind g), group_sliding_window g)) <$> kv_cache_groups cfg.

(** [getattr(spec, "sliding_window", None)] *)
Definition sliding_window_attribute (g : KVCacheGroupSpec) : option Z :=
  match kv_cache_spec g with
  | OneSpec s => match full_of s with Some f => full_sliding_window f | None => get_kv_cache_spec_sliding_window s end
  | UniformSpecs _ => None
  end.
Definition get_kv_cache_group_metadata (cfg : option KVCacheConfig) : list (nat * string * Z * option Z) :=
  match cfg with
  | None => []
  | Some cfg => imap (fun i g => (i, kind_value (group_kind g), group_block_size g, sliding_window_attribute g)) (kv_cache_groups cfg)
  end.

(** What the managers read of a spec. Layers without cache and attention sinks have
    no manager. *)
Definition manager_attn (s : KVCacheSpec) : option SingleType.AttnSpec :=
  match s with
  | FullAttentionSpec _ _ | TQFullAttentionSpec _ _ _ | MLAAttentionSpec _ _ _ => Some (SingleType.FullAttention true)
  | HiddenStateCacheSpec _ _ _ => Some (SingleType.FullAttention false)
  | ChunkedLocalAttentionSpec _ chunk => Some (SingleType.ChunkedLocalAttention chunk)
  | SlidingWindowSpec _ w _ | SlidingWindowMLASpec _ w _ _ _ => Some (SingleType.SlidingWindow w)
  | MambaSpec m => Some (SingleType.Mamba (bool_decide (mamba_cache_mode m = "align"%string)) (num_speculative_blocks m))
  | CrossAttentionSpec _ => Some SingleType.CrossAttention
  | SinkFullAttentionSpec _ _ _ | EncoderOnlyAttentionSpec _ => None
  end.
Definition manager_spec (s : KVCacheSpec) : option SingleType.KVCacheSpec :=
  a ← manager_attn s; Some (SingleType.mkSpec (block_size s) (dcp_replicated s) a).
Definition mla_sharded (s : KVCacheSpec) : bool := match s with SlidingWindowMLASpec _ _ _ _ sharded => sharded | _ => false end.

(** The plan as the coordinator reads it; [other] tells specs apart that differ in
    fields only their comparison looks at. *)
Context (other : KVCacheSpec -> bytes).
Definition coordinator_group (g : KVCacheGroupSpec) : option Coordinator.ManagedGroupSpec :=
  match kv_cache_spec g with
  | OneSpec s => ms ← manager_spec s; Some (Coordinator.mkGroup ms (other s) (mla_sharded s) (is_eagle_group g))
  | UniformSpecs _ => None
  end.
Definition coordinator_config (cfg : KVCacheConfig) : option Coordinator.ManagedKVConfig :=
  groups ← mapM coordinator_group (kv_cache_groups cfg);
  Some (Coordinator.mkConfig (num_blocks cfg) groups (is_deepseek_v4_hybrid_kv_cache_config cfg)).

(** The manager the scheduler builds, with the block sizes the engine resolves. *)
Definition start_kv_cache_manager (use_eagle log events : bool) (watermark env_retention_interval : option Z) (cfg : KVCacheConfig) (s : Start) :
    result KVCacheManager.KVCacheManager :=
  sizes ← resolve_kv_cache_block_sizes cfg (st_config s) (st_cache s);
  config ← or_raise TypeError (coordinator_config cfg);
  KVCacheManager.kv_manager_init config (max_model_len (st_config s)) sizes.1 sizes.2 (Some (max_num_batched_tokens (st_config s)))
    (enable_prefix_caching (st_cache s)) use_eagle log events (decode_context_parallel_size (st_config s))
    (prefill_context_parallel_size (st_config s)) watermark (event_metadata cfg) env_retention_interval.
End start.
End KVStartup.
