(* ===== verification/KVStartupSafety.v ===== *)
(** * KVStartupSafety

    What start-up leaves behind: the workers get plans that agree and fit their
    memory, the configuration records them, and the scheduler can build its KV
    cache manager from the plan with the block sizes that are resolved. *)

From S2P Require Import Prelude BlockPool RequestQueue SingleType Coordinator CoordinatorHit KVCacheManager KVSpec KVSpecSafety KVConfig KVConfigSafety KVGroupSafety KVPlanSafety KVStartup.

Module KVStartupSafety.
Import RequestQueue KVSpec KVSpecSafety KVConfig KVConfigSafety KVGroupSafety KVPlanSafety KVStartup.
#[local] Open Scope Z_scope.

(** ** The block sizes *)

Lemma lcm_multiple l x : x ∈ l -> (x | lcm_of l).
Proof.
  unfold lcm_of. induction l as [|y l IH]; [by intros ?%elem_of_nil|]. cbn. intros [->|Hx]%elem_of_cons; [apply Z.divide_lcm_l|].
  etransitivity; [by apply IH|apply Z.divide_lcm_r].
Qed.
Lemma lcm_positive l : (forall x, x ∈ l -> 0 < x) -> 0 < lcm_of l.
Proof.
  intros H. assert (lcm_of l <> 0); [|pose proof (Z.lcm_nonneg (hd 0 l) (lcm_of (tl l))); destruct l; cbn in *; lia].
  unfold lcm_of. induction l as [|y l IH]; [done|]. cbn. intros Hz%Z.lcm_eq_0. destruct Hz as [->|Hz].
  - by specialize (H 0 ltac:(by left)).
  - apply IH in Hz; [done|]. intros x Hx. apply H. by right.
Qed.
Lemma gcd_divides l x : x ∈ l -> (gcd_of l | x).
Proof.
  unfold gcd_of. induction l as [|y l IH]; [by intros ?%elem_of_nil|]. cbn. intros [->|Hx]%elem_of_cons; [apply Z.gcd_divide_l|].
  etransitivity; [apply Z.gcd_divide_r|by apply IH].
Qed.
Lemma gcd_positive l x : x ∈ l -> 0 < x -> 0 < gcd_of l.
Proof.
  intros Hx Hp. pose proof (gcd_divides l x Hx) as [k Hk].
  assert (0 <= gcd_of l) by (destruct l; [done|apply Z.gcd_nonneg]). destruct (decide (gcd_of l = 0)) as [E|]; [|lia]. rewrite E in Hk. lia.
Qed.

Lemma existsb_none {A} (f : A -> bool) l : (forall x, x ∈ l -> f x = false) -> existsb f l = false.
Proof. intros H. apply not_true_is_false. intros (x & Hx%list_elem_of_In & Hf)%existsb_exists. by rewrite (H x Hx) in Hf. Qed.

(** ** The coordinator is built *)

Section coordinator.
Import SingleType Coordinator CoordinatorHit.

Lemma all_divide_total n groups : (forall g, g ∈ groups -> 0 < spec_block_size (g_spec g) /\ (spec_block_size (g_spec g) | n)) ->
  all_divide n groups = Ok true.
Proof.
  induction groups as [|g gs IH]; intros H; [done|]. cbn. destruct (H g ltac:(by left)) as [Hp Hd].
  rewrite (proj2 (Z.eqb_neq _ 0)) by lia. rewrite (proj2 (Z.eqb_eq _ 0)) by (apply Z.mod_divide; [lia|done]).
  apply IH. intros g' Hg. apply H. by right.
Qed.

Lemma make_managers_total groups batch mml pool caching dcp pcp sched i : 0 < dcp -> 0 < pcp ->
  (forall g, g ∈ groups -> 0 < spec_block_size (g_spec g)) ->
  exists ms, make_managers i groups batch mml pool caching dcp pcp sched = Ok ms.
Proof.
  intros Hd Hp. revert i. induction groups as [|g gs IH]; intros i H; [by eexists|]. cbn [make_managers]. pose proof (H g ltac:(by left)) as Hg.
  destruct (IH (S i) ltac:(intros g' Hg'; apply H; by right)) as [ms Hms].
  assert (Hm : exists m, get_manager_for_kv_cache_spec (g_spec g) (g_mla_sharded g) batch mml pool caching (Z.of_nat i) sched dcp pcp = Ok m).
  { unfold get_manager_for_kv_cache_spec. cbv zeta. destruct (attn (g_spec g)); try by eexists.
    - rewrite (proj2 (Z.eqb_neq _ 0)) by (pose proof (Z.mul_pos_pos _ _ (Z.mul_pos_pos _ _ Hg Hd) Hp); destruct (g_mla_sharded g); lia). by eexists.
    - rewrite (proj2 (Z.eqb_neq _ 0)) by lia. by eexists. }
  destruct Hm as [m ->]. rewrite Hms. by eexists.
Qed.

(** Two groups with different specs are not put together. *)
Lemma split_several groups eagle g1 g2 : g1 ∈ groups -> g2 ∈ groups -> spec_key g1 <> spec_key g2 ->
  (1 < length (split_groups 0 groups eagle []))%nat.
Proof.
  intros (i1 & H1)%list_elem_of_lookup (i2 & H2)%list_elem_of_lookup Hne. destruct (all_groups_split groups eagle) as [Hp _ Hs _ _].
  assert (Hin : forall i g, groups !! i = Some g -> exists sg, sg ∈ split_groups 0 groups eagle [] /\ spec_key (sg_group sg) = spec_key g).
  { intros i g Hi. assert (Hc : i ∈ concat (group_ids <$> split_groups 0 groups eagle [])).
    { rewrite Hp. apply elem_of_seq. apply lookup_lt_Some in Hi. lia. }
    apply list_elem_of_In, in_concat in Hc as (ids & Hids%list_elem_of_In & Hi'%list_elem_of_In). apply list_elem_of_fmap in Hids as (sg & -> & Hsg).
    destruct (Hs sg i Hsg Hi') as (g' & Hg' & Hk). rewrite Hi in Hg'. injection Hg' as <-. by exists sg. }
  destruct (Hin i1 g1 H1) as (s1 & Hs1 & K1). destruct (Hin i2 g2 H2) as (s2 & Hs2 & K2).
  destruct (split_groups 0 groups eagle []) as [|sg [|]]; [by apply elem_of_nil in Hs1| |cbn; lia].
  apply list_elem_of_singleton in Hs1 as ->. apply list_elem_of_singleton in Hs2 as ->. congruence.
Qed.

(** Enough for the constructor of a coordinator, whichever of the three it is. *)
Lemma coordinator_built config mml batch eagle caching events dcp pcp sched hash : 0 < num_blocks config -> 0 < dcp -> 0 < pcp ->
  0 < hash -> (hash | sched) ->
  (forall g, g ∈ kv_cache_groups config -> 0 < spec_block_size (g_spec g) /\ (spec_block_size (g_spec g) | sched)) ->
  (caching = true ->
    (exists g, kv_cache_groups config = [g] /\ hash = spec_block_size (g_spec g) * dcp * pcp) \/
    (dcp = 1 /\ pcp = 1 /\ (forall g, g ∈ kv_cache_groups config -> (hash | spec_block_size (g_spec g))) /\
     exists g1 g2, g1 ∈ kv_cache_groups config /\ g2 ∈ kv_cache_groups config /\ spec_key g1 <> spec_key g2)) ->
  exists c, get_kv_cache_coordinator config mml batch eagle caching events dcp pcp sched hash None = Ok c.
Proof.
  intros Hn Hd Hp Hh Hhs Hg Hc. unfold get_kv_cache_coordinator, base_init.
  rewrite (proj2 (Z.eqb_neq hash 0)) by lia. rewrite (proj2 (Z.eqb_eq (sched mod hash) 0)) by (apply Z.mod_divide; [lia|done]).
  rewrite (all_divide_total _ _ Hg). destruct (BlockPool.pool_init_spec (num_blocks config) caching hash events Hn) as (p & -> & _).
  destruct (make_managers_total (kv_cache_groups config) batch mml p caching dcp pcp sched 0 Hd Hp ltac:(intros g ?; by apply Hg)) as [ms ->].
  cbn [validate_prefix_cache_retention_interval]. destruct caching; [|by eexists]. cbn [negb]. destruct (Hc eq_refl) as [(g & Eg & Eh)|(-> & -> & Hm & g1 & g2 & H1 & H2 & Hne)].
  - rewrite Eg. cbn [length Nat.eqb]. unfold unitary_init. cbn [c_groups c_dcp c_pcp c_hash_block_size negb orb].
    assert (Hw : forall b k, 0 < k -> (if 1 <? k then b * k else b) = b * k) by (intros b k ?; destruct (Z.ltb_spec 1 k); [done|assert (k = 1) as -> by lia; lia]).
    rewrite !Hw by done. rewrite <- Eh, Z.eqb_refl. by eexists.
  - assert (Hl : (1 < length (kv_cache_groups config))%nat).
    { destruct (kv_cache_groups config) as [|a [|]]; [by apply elem_of_nil in H1| |cbn; lia].
      apply list_elem_of_singleton in H1 as ->. apply list_elem_of_singleton in H2 as ->. done. }
    rewrite (proj2 (Nat.eqb_neq _ 1)) by lia. unfold hybrid_init, verify_and_split_kv_cache_groups. cbn [c_groups c_dcp c_pcp c_hash_block_size eagle_group_ids].
    cbn [Z.ltb Z.compare Pos.compare Pos.compare_cont andb negb].
    assert (Hall : all_multiples hash (kv_cache_groups config) = true).
    { unfold all_multiples. apply forallb_forall. intros g Hin%list_elem_of_In. apply Z.eqb_eq, Z.mod_divide; [lia|by apply Hm]. }
    rewrite Hall. cbn [negb Z.eqb Pos.eqb orb].
    match goal with |- context [(?n <=? 1)%nat] => destruct (Nat.leb_spec n 1) as [Hle|_] end; [|by eexists].
    apply Nat.le_ngt in Hle. destruct Hle. refine (split_several (kv_cache_groups config) _ g1 g2 H1 H2 Hne).
Qed.
End coordinator.

Section start.
Context `{TD : TorchDtype} {EX : Type} `{!StartExecutor EX} (scfg : StartConfig).

(** The block sizes of the groups divide that of the scheduler; that of the hashes
    divides both, when there are several groups and prefixes are cached. *)
Lemma resolve_several cfg c cc : decode_context_parallel_size c = 1 -> prefill_context_parallel_size c = 1 ->
  (1 < length (kv_cache_groups cfg))%nat ->
  (forall g, g ∈ kv_cache_groups cfg -> 0 < group_block_size g) ->
  match cache_hash_block_size cc with Some h => 0 < h /\ forall g, g ∈ kv_cache_groups cfg -> (h | group_block_size g) | None => True end ->
  exists sched hash, resolve_kv_cache_block_sizes scfg cfg c cc = Ok (sched, hash) /\ 0 < sched /\ 0 < hash /\ (hash | sched) /\
    (forall g, g ∈ kv_cache_groups cfg -> (group_block_size g | sched)) /\
    (enable_prefix_caching cc = true -> existsb (mamba_diverges cc) (kv_cache_groups cfg) = false ->
     forall g, g ∈ kv_cache_groups cfg -> (hash | group_block_size g)).
Proof.
  intros Hd Hp Hl Hpos Hh. unfold resolve_kv_cache_block_sizes. rewrite (proj2 (Nat.leb_gt _ _)) by done. rewrite Hd, Hp. cbn [Z.eqb negb orb Pos.eqb].
  set (sizes := group_block_size <$> kv_cache_groups cfg).
  assert (Hin : forall g, g ∈ kv_cache_groups cfg -> group_block_size g ∈ sizes) by (intros g Hg; apply list_elem_of_fmap; by exists g).
  assert (Hsz : forall x, x ∈ sizes -> 0 < x) by (intros x (g & -> & Hg)%list_elem_of_fmap; by apply Hpos).
  pose proof (lcm_positive sizes Hsz) as Hs.
  assert (Hdiv : forall g, g ∈ kv_cache_groups cfg -> (group_block_size g | lcm_of sizes)) by (intros g Hg; by apply lcm_multiple, Hin).
  destruct (negb (enable_prefix_caching cc || connector_enabled scfg)) eqn:E1.
  { exists (lcm_of sizes), (lcm_of sizes). repeat split; try done. intros E. rewrite E in E1. done. }
  destruct (existsb (mamba_diverges cc) (kv_cache_groups cfg)) eqn:E2; [exists (lcm_of sizes), (lcm_of sizes); by repeat split|].
  set (hash := default (gcd_of sizes) (cache_hash_block_size cc)).
  assert (exists g0, g0 ∈ kv_cache_groups cfg) as [g0 Hg0] by (destruct (kv_cache_groups cfg) as [|g0 rest]; [cbn in Hl; lia|exists g0; by left]).
  assert (Hhash : 0 < hash /\ forall g, g ∈ kv_cache_groups cfg -> (hash | group_block_size g)).
  { unfold hash. destruct (cache_hash_block_size cc) as [h|]; [exact Hh|]. cbn. split; [by apply (gcd_positive sizes _ (Hin g0 Hg0)), Hpos|].
    intros g Hg. by apply gcd_divides, Hin. }
  destruct Hhash as [Hh0 Hhd]. rewrite (proj2 (Z.eqb_neq hash 0)) by lia.
  rewrite existsb_none.
  - exists (lcm_of sizes), hash. split; [done|]. split; [done|]. split; [done|]. split; [|by split]. etransitivity; [by apply (Hhd g0)|by apply Hdiv].
  - intros x (g & -> & Hg)%list_elem_of_fmap. apply negb_false_iff, Z.eqb_eq. apply Z.mod_divide; [lia|by apply Hhd].
Qed.

(** ** What start-up leaves behind *)

Context (other : KVCacheSpec -> bytes).

Lemma run_zoom {S1 S2 A} (g : S2 -> S1) (f : S1 -> S2 -> S2) (m : M S1 A) s y s' : zoom g f m s = (Ok y, s') ->
  exists t, m (g s) = (Ok y, t) /\ s' = f t s.
Proof. unfold zoom. destruct (m (g s)) as [[x|] t]; [|done]. intros [= <- <-]. by exists t. Qed.
Lemma run_assert {S} b (s s' : S) : assert_ b s = (Ok tt, s') -> b = true /\ s' = s.
Proof. destruct b; [|done]. by intros [= <-]. Qed.

(** [_validate_block_size] changes the interleaving only. *)
Lemma validate_frame (s s' : Start (EX := EX)) : validate_block_size scfg s = (Ok tt, s') -> exists v, s' = set_interleave v s.
Proof.
  unfold validate_block_size. intros (c & s1 & [= <- <-] & H)%run_bind. apply run_bind in H as ([] & s1 & H1 & H).
  assert (Hs1 : exists v, s1 = set_interleave v s).
  { assert (Hid : exists v, s = set_interleave v s) by (exists (cp_kv_cache_interleave_size s); by destruct s).
    destruct (1 <? _); [|by injection H1 as <-]. apply run_bind in H1 as ([] & s2 & H2 & H1).
    assert (Hs2 : exists v, s2 = set_interleave v s) by (destruct (_ && _); injection H2 as <-; [by eexists|done]).
    apply run_bind in H1 as (c & s3 & [= <- <-] & H1). apply run_bind in H1 as ([] & s3 & [_ ->]%run_assert & H1).
    apply run_bind in H1 as ([] & s4 & H3 & [_ ->]%run_assert). destruct (_ =? 0); [done|]. by injection H3 as <-. }
  destruct (bool_decide _); [|by injection H as <-]. apply run_bind in H as ([] & s2 & [_ ->]%run_assert & H).
  apply run_bind in H as ([] & s2 & [_ ->]%run_assert & H).
  apply run_bind in H as ([] & s2 & [_ ->]%run_assert & [_ ->]%run_assert). done.
Qed.

Lemma record_plan_frame configs cfg (s s' : Start (EX := EX)) : record_plan configs cfg s = (Ok tt, s') ->
  st_config s' = st_config s /\ st_executor s' = st_executor s /\ num_gpu_blocks (st_cache s') = Some (num_blocks cfg) /\
  enable_prefix_caching (st_cache s') = enable_prefix_caching (st_cache s) /\ cache_hash_block_size (st_cache s') = cache_hash_block_size (st_cache s) /\
  (kv_cache_groups cfg <> [] -> min_of (group_block_size <$> kv_cache_groups cfg) = Ok (cache_block_size (st_cache s'))).
Proof.
  unfold record_plan. intros ([] & s1 & [= <-] & H)%run_bind. destruct (kv_cache_groups cfg) as [|g gs] eqn:Eg; [by injection H as <-|]. rewrite <- Eg in *.
  apply run_bind in H as (bs & s1 & [Hbs ->]%run_result & H). apply run_bind in H as ([] & s1 & [= <-] & H).
  apply run_bind in H as (first & s1 & H1 & H). assert (s1 = set_st_cache (set_cache_block_size bs (set_num_gpu_blocks (num_blocks cfg) (st_cache s)))
    (set_st_cache (set_num_gpu_blocks (num_blocks cfg) (st_cache s)) s)) as -> by (destruct (head configs); by injection H1).
  apply run_bind in H as (c & s1 & [= <- <-] & H). apply run_bind in H as (cap & s1 & [_ ->]%run_result & [= <-]). by repeat split.
Qed.

Lemma scheduler_plan configs cfg : generate_scheduler_kv_cache_config configs = Ok cfg ->
  (forall c, c ∈ configs -> num_blocks c = num_blocks cfg) /\ (forall g, g ∈ kv_cache_groups cfg -> exists s, kv_cache_spec g = OneSpec s) /\
  exists first, head configs = Some first /\ length (kv_cache_groups cfg) = length (kv_cache_groups first).
Proof.
  destruct configs as [|c0 cs]; [done|]. cbn [generate_scheduler_kv_cache_config]. intros [Hall H]%assert_ok.
  apply bind_ok in H as (groups & Hg%map_r_ok & [= <-]). cbn. split; [|split].
  - intros c Hc. change (forallb (fun c => num_blocks c =? num_blocks c0) (c0 :: cs) = true) in Hall. rewrite forallb_forall in Hall.
    by apply Z.eqb_eq, Hall, list_elem_of_In.
  - intros g (i & Hi)%list_elem_of_lookup. destruct (Forall2_lookup_r _ _ _ _ _ Hg Hi) as (g' & _ & H). unfold scheduler_group in H.
    destruct (kv_cache_spec g') eqn:E; [injection H as <-; by eexists|]. apply bind_ok in H as (first & _ & [= <-]). by eexists.
  - exists c0. split; [done|]. symmetry. by apply Forall2_length in Hg.
Qed.

Lemma available_memory_run specs (s : Start (EX := EX)) mem s' : available_memory scfg specs s = (Ok mem, s') ->
  st_config s' = st_config s /\ st_cache s' = st_cache s /\ st_registry s' = st_registry s /\
  (elastic_ep_scale_up scfg = false -> existsb (fun w => match w with [] => false | _ => true end) specs = true ->
   determine_available_memory (st_executor s) = (Ok mem, st_executor s')).
Proof.
  unfold available_memory. destruct (existsb _ specs); [|intros [= _ <-]; by repeat split]. destruct (elastic_ep_scale_up scfg).
  - intros (c & s1 & [= <- <-] & H)%run_bind. apply run_bind in H as ([] & s1 & [_ ->]%run_assert & [= _ <-]). by repeat split.
  - intros (m & s1 & (ex & Hex & ->)%run_zoom & H)%run_bind. apply run_bind in H as (first & s2 & H1 & H).
    assert (s2 = set_st_executor ex s) as -> by (destruct (head m); by injection H1). apply run_bind in H as ([] & s2 & [= <-] & [= <- <-]).
    by repeat split.
Qed.

(** The steps of start-up. *)
Lemma initialize_run (s s' : Start (EX := EX)) cfg : initialize_kv_caches scfg s = (Ok cfg, s') ->
  exists specs memory configs reg ex1 ex2,
    get_kv_cache_specs (st_executor s) = (Ok specs, ex1) /\
    (elastic_ep_scale_up scfg = false -> existsb (fun w => match w with [] => false | _ => true end) specs = true ->
     exists ex, determine_available_memory ex1 = (Ok memory, ex)) /\
    length specs = length memory /\ get_kv_cache_configs reg specs memory (st_config s) = (Ok configs, st_config s') /\
    generate_scheduler_kv_cache_config configs = Ok cfg /\
    (max_model_len (st_config s') <> max_model_len (st_config s) -> exists ex, update_max_model_len (max_model_len (st_config s')) ex = (Ok tt, ex2)) /\
    initialize_from_config configs ex2 = (Ok tt, st_executor s') /\
    num_gpu_blocks (st_cache s') = Some (num_blocks cfg) /\
    enable_prefix_caching (st_cache s') = enable_prefix_caching (st_cache s) /\ cache_hash_block_size (st_cache s') = cache_hash_block_size (st_cache s) /\
    (kv_cache_groups cfg <> [] -> min_of (group_block_size <$> kv_cache_groups cfg) = Ok (cache_block_size (st_cache s'))).
Proof.
  unfold initialize_kv_caches. intros ([] & s1 & (reg & _ & ->)%run_zoom & H)%run_bind.
  apply run_bind in H as (specs & s1 & (ex1 & Hspecs & ->)%run_zoom & H). apply run_bind in H as (memory & s2 & Hmem & H).
  destruct (available_memory_run _ _ _ _ Hmem) as (M1 & M2 & M3 & M4). cbn in M1, M2, M3, M4, Hspecs.
  apply run_bind in H as ([] & s3 & [Hlen%Nat.eqb_eq ->]%run_assert & H). apply run_bind in H as (before & s3 & [= <- <-] & H).
  apply run_bind in H as (configs & s3 & (c & Hconfigs & ->)%run_zoom & H). apply run_bind in H as (after & s3 & [= <- <-] & H).
  cbn [st_config set_st_config] in H. apply run_bind in H as ([] & s3 & Hupd & H). apply run_bind in H as (cfg' & s4 & [Hcfg ->]%run_result & H).
  apply run_bind in H as ([] & s4 & Hrec & H). apply run_bind in H as ([] & s5 & [v ->]%validate_frame & H).
  apply run_bind in H as ([] & s5 & (ex3 & Hinit & ->)%run_zoom & [= <- <-]). cbn in Hinit.
  destruct (record_plan_frame _ _ _ _ Hrec) as (R1 & R2 & R3 & R4 & R5 & R6).
  assert (Hs3 : st_config s3 = c /\ st_cache s3 = st_cache s2 /\ (max_model_len c <> max_model_len (st_config s2) ->
    exists ex, update_max_model_len (max_model_len c) ex = (Ok tt, st_executor s3))).
  { destruct (Z.eqb_spec (max_model_len c) (max_model_len (st_config s2))) as [E|E]; cbn [negb] in Hupd.
    - injection Hupd as <-. by repeat split.
    - apply run_zoom in Hupd as (ex & Hex & ->). split; [done|]. split; [done|]. intros _. by eexists. }
  destruct Hs3 as (S1 & S2 & S3). exists specs, memory, configs, (st_registry s2), ex1, (st_executor s4). cbn. rewrite R1, S1, R2, R4, R5, S2, M2.
  rewrite M1 in *. split; [done|]. split; [intros E1 E2; exists (st_executor s2); exact (M4 E1 E2)|]. rewrite R2 in Hinit. by repeat split.
Qed.

(** Start-up gives the workers plans that agree. If [_initialize_kv_caches]
    returns, for workers whose layers have distinct names, then every worker was
    handed a configuration for the layers it reported, in the memory it was
    profiled to have; all have the number of blocks that the engine records, and
    as many groups as the scheduler's; the block size recorded is the smallest of
    the groups; and the workers were told the maximum length if it changed. *)
Theorem startup_plans_workers (s s' : Start (EX := EX)) cfg : initialize_kv_caches scfg s = (Ok cfg, s') ->
  (forall ex specs ex', get_kv_cache_specs ex = (Ok specs, ex') -> forall w, w ∈ specs -> NoDup w.*1) ->
  exists specs memory configs ex1 ex2,
    get_kv_cache_specs (st_executor s) = (Ok specs, ex1) /\
    (elastic_ep_scale_up scfg = false -> existsb (fun w => match w with [] => false | _ => true end) specs = true ->
     exists ex, determine_available_memory ex1 = (Ok memory, ex)) /\
    (max_model_len (st_config s') <> max_model_len (st_config s) -> exists ex, update_max_model_len (max_model_len (st_config s')) ex = (Ok tt, ex2)) /\
    initialize_from_config configs ex2 = (Ok tt, st_executor s') /\ length configs = length specs /\
    num_gpu_blocks (st_cache s') = Some (num_blocks cfg) /\
    (kv_cache_groups cfg <> [] -> min_of (group_block_size <$> kv_cache_groups cfg) = Ok (cache_block_size (st_cache s'))) /\
    forall i w m c, specs !! i = Some w -> memory !! i = Some m -> configs !! i = Some c ->
      worker_plan (st_config s) w m (num_blocks cfg) c /\ length (kv_cache_groups c) = length (kv_cache_groups cfg).
Proof.
  intros H Hnd. destruct (initialize_run s s' cfg H) as (specs & memory & configs & reg & ex1 & ex2 & H1 & H2 & H3 & H4 & H5 & H6 & H7 & H8 & _ & _ & H9).
  destruct (kv_cache_configs_plans reg (st_config s) specs memory configs (st_config s')) as (Hlen & _ & n & k & Hp); [by eapply Hnd|done|done|].
  destruct (scheduler_plan _ _ H5) as (Hn & _ & first & Hfirst & Hk).
  assert (Hall : forall i w m c, specs !! i = Some w -> memory !! i = Some m -> configs !! i = Some c ->
    worker_plan (st_config s) w m (num_blocks cfg) c /\ length (kv_cache_groups c) = k).
  { intros i w m c Hw Hm Hc. destruct (Hp i w m c Hw Hm Hc) as [P Q]. split; [|done]. by rewrite <- (Hn c) by (by eapply list_elem_of_lookup_2); rewrite (pl_blocks _ _ _ _ _ P). }
  assert (k = length (kv_cache_groups cfg)) as ->.
  { destruct configs as [|c0 cs]; [done|]. injection Hfirst as ->. destruct specs as [|w ws]; [done|]. destruct memory as [|m ms]; [done|].
    rewrite Hk. symmetry. by apply (Hall 0%nat w m). }
  exists specs, memory, configs, ex1, ex2. by repeat split; try eapply Hall.
Qed.

(** The groups as the coordinator sees them. *)
Definition seen_as (g : KVCacheGroupSpec) (cg : Coordinator.ManagedGroupSpec) : Prop :=
  SingleType.spec_block_size (Coordinator.g_spec cg) = group_block_size g /\
  exists sp, kv_cache_spec g = OneSpec sp /\ manager_spec sp = Some (Coordinator.g_spec cg).

Lemma coordinator_config_ok cfg : (forall g, g ∈ kv_cache_groups cfg -> exists sp, kv_cache_spec g = OneSpec sp /\ is_Some (manager_attn sp)) ->
  exists config, coordinator_config other cfg = Some config /\ Coordinator.num_blocks config = num_blocks cfg /\
    Forall2 seen_as (kv_cache_groups cfg) (Coordinator.kv_cache_groups config).
Proof.
  intros H. unfold coordinator_config. destruct (mapM (coordinator_group other) (kv_cache_groups cfg)) as [cgs|] eqn:E.
  - cbn. eexists. split; [done|]. split; [done|]. cbn. eapply Forall2_impl; [by apply mapM_Some_1|]. cbn. intros g cg Hg.
    unfold coordinator_group in Hg. unfold seen_as, group_block_size. destruct (kv_cache_spec g) as [sp|]; [|done].
    destruct (manager_spec sp) as [ms|] eqn:Em; [|done]. injection Hg as <-. cbn. split; [|by exists sp]. unfold manager_spec in Em.
    destruct (manager_attn sp); [|done]. by injection Em as <-.
  - apply mapM_None_1, Exists_exists in E as (g & Hg & E). destruct (H g Hg) as (sp & Es & [a Ha]). unfold coordinator_group, manager_spec in E.
    by rewrite Es, Ha in E.
Qed.

(** The block sizes for one group, or without context parallelism. *)
Lemma resolve_ok cfg c cc : 0 < decode_context_parallel_size c -> 0 < prefill_context_parallel_size c ->
  length (kv_cache_groups cfg) = 1%nat \/ decode_context_parallel_size c = 1 /\ prefill_context_parallel_size c = 1 ->
  (forall g, g ∈ kv_cache_groups cfg -> 0 < group_block_size g) -> min_of (group_block_size <$> kv_cache_groups cfg) = Ok (cache_block_size cc) ->
  match cache_hash_block_size cc with Some h => 0 < h /\ forall g, g ∈ kv_cache_groups cfg -> (h | group_block_size g) | None => True end ->
  exists sched hash, resolve_kv_cache_block_sizes scfg cfg c cc = Ok (sched, hash) /\ 0 < hash /\ (hash | sched) /\
    (forall g, g ∈ kv_cache_groups cfg -> (group_block_size g | sched)) /\
    (forall g, kv_cache_groups cfg = [g] -> hash = group_block_size g * decode_context_parallel_size c * prefill_context_parallel_size c) /\
    (length (kv_cache_groups cfg) <> 1%nat -> enable_prefix_caching cc = true -> existsb (mamba_diverges cc) (kv_cache_groups cfg) = false ->
      forall g, g ∈ kv_cache_groups cfg -> (hash | group_block_size g)).
Proof.
  intros Hd Hp Hcp Hpos [Hin _]%min_of_ok Hh. apply list_elem_of_fmap in Hin as (g0 & Eg0 & Hg0). pose proof (Hpos g0 Hg0) as Hp0. rewrite <- Eg0 in Hp0.
  destruct (decide (length (kv_cache_groups cfg) = 1%nat)) as [El|El].
  - unfold resolve_kv_cache_block_sizes. rewrite El. cbn [Nat.leb]. set (bs := cache_block_size cc * _ * _).
    assert (Hone : forall g, g ∈ kv_cache_groups cfg -> g = g0).
    { intros g Hg. destruct (kv_cache_groups cfg) as [|a [|]]; [done| |done]. apply list_elem_of_singleton in Hg as ->. by apply list_elem_of_singleton in Hg0 as ->. }
    exists bs, bs. split; [done|]. split; [unfold bs; apply Z.mul_pos_pos; [by apply Z.mul_pos_pos|done]|]. split; [done|]. split; [|split; [|done]].
    + intros g ->%Hone. rewrite <- Eg0. unfold bs. rewrite <- Z.mul_assoc. apply Z.divide_factor_l.
    + intros g E. rewrite (Hone g), <- Eg0 by (rewrite E; by left). done.
  - destruct Hcp as [|[Ed Ep]]; [done|].
    destruct (resolve_several cfg c cc Ed Ep) as (sched & hash & R1 & _ & R3 & R4 & R5 & R6); [|done|done|].
    + destruct (kv_cache_groups cfg) as [|a [|]]; [by apply elem_of_nil in Hg0|done|cbn; lia].
    + exists sched, hash. split; [done|]. split; [done|]. split; [done|]. split; [done|]. split; [|done]. intros g E. by rewrite E in El.
Qed.

(** C10. The scheduler can build its KV cache manager from the plan. If start-up
    returned a plan with at least one block and one group, every group of which has
    blocks of positive size and a manager, without context parallelism unless there
    is one group only, with a hash block size (if one is set) that divides the
    groups' blocks, and, if prefixes are cached for several groups, with groups of
    two kinds and Mamba blocks as the cache has them, then the block sizes are
    resolved and no assertion about them in the coordinators fails. *)
Theorem startup_builds_manager (s s' : Start (EX := EX)) cfg use_eagle log events wm :
  initialize_kv_caches scfg s = (Ok cfg, s') -> 0 < num_blocks cfg -> kv_cache_groups cfg <> [] ->
  (forall g sp, g ∈ kv_cache_groups cfg -> kv_cache_spec g = OneSpec sp -> 0 < block_size sp /\ is_Some (manager_attn sp)) ->
  0 < decode_context_parallel_size (st_config s') -> 0 < prefill_context_parallel_size (st_config s') ->
  length (kv_cache_groups cfg) = 1%nat \/ decode_context_parallel_size (st_config s') = 1 /\ prefill_context_parallel_size (st_config s') = 1 ->
  match cache_hash_block_size (st_cache s) with Some h => 0 < h /\ forall g, g ∈ kv_cache_groups cfg -> (h | group_block_size g) | None => True end ->
  (enable_prefix_caching (st_cache s) = true -> length (kv_cache_groups cfg) <> 1%nat ->
    existsb (mamba_diverges (st_cache s')) (kv_cache_groups cfg) = false /\
    exists g1 g2 s1 s2, g1 ∈ kv_cache_groups cfg /\ g2 ∈ kv_cache_groups cfg /\ kv_cache_spec g1 = OneSpec s1 /\ kv_cache_spec g2 = OneSpec s2 /\
      manager_spec s1 <> manager_spec s2) ->
  exists k, start_kv_cache_manager scfg other use_eagle log events (Some wm) None cfg s' = Ok k /\
    KVCacheManager.k_max_model_len k = max_model_len (st_config s') /\ KVCacheManager.k_enable_caching k = enable_prefix_caching (st_cache s).
Proof.
  intros H Hn Hne Hok Hd Hp Hcp Hh Hcache. destruct (initialize_run s s' cfg H) as (_ & _ & configs & _ & _ & _ & _ & _ & _ & _ & H5 & _ & _ & _ & Hpc & Hhb & Hbs).
  destruct (scheduler_plan _ _ H5) as (_ & Hone & _). specialize (Hbs Hne). clear H H5. rewrite <- Hpc in *. rewrite <- Hhb in Hh.
  assert (Hpos : forall g, g ∈ kv_cache_groups cfg -> 0 < group_block_size g).
  { intros g Hg. destruct (Hone g Hg) as [sp E]. unfold group_block_size. rewrite E. by apply (Hok g sp). }
  destruct (coordinator_config_ok cfg) as (config & Ec & En & HF).
  { intros g Hg. destruct (Hone g Hg) as [sp E]. exists sp. split; [done|]. by apply (Hok g sp). }
  assert (Hback : forall cg, cg ∈ Coordinator.kv_cache_groups config -> exists g, g ∈ kv_cache_groups cfg /\ seen_as g cg).
  { intros cg (i & Hi)%list_elem_of_lookup. destruct (Forall2_lookup_r _ _ _ _ _ HF Hi) as (g & Hg & Eg). exists g. split; [by eapply list_elem_of_lookup_2|done]. }
  assert (Hforth : forall g sp, g ∈ kv_cache_groups cfg -> kv_cache_spec g = OneSpec sp ->
    exists cg, cg ∈ Coordinator.kv_cache_groups config /\ manager_spec sp = Some (Coordinator.g_spec cg)).
  { intros g sp (i & Hi)%list_elem_of_lookup E. destruct (Forall2_lookup_l _ _ _ _ _ HF Hi) as (cg & Hc & _ & sp' & E' & Hm).
    rewrite E in E'. injection E' as <-. exists cg. split; [by eapply list_elem_of_lookup_2|done]. }
  destruct (resolve_ok cfg (st_config s') (st_cache s') Hd Hp Hcp Hpos Hbs Hh) as (sched & hash & Hres & Hh0 & Hhs & Hgs & Hsingle & Hseveral).
  unfold start_kv_cache_manager. rewrite Hres, Ec. cbn [mbind result_bind or_raise fst snd]. unfold KVCacheManager.kv_manager_init.
  destruct (coordinator_built config (max_model_len (st_config s')) (default (max_model_len (st_config s')) (Some (max_num_batched_tokens (st_config s'))))
    use_eagle (enable_prefix_caching (st_cache s')) events (decode_context_parallel_size (st_config s')) (prefill_context_parallel_size (st_config s')) sched hash) as [c ->];
    [by rewrite En|done|done|done|done| | |by eexists].
  - intros cg Hc. destruct (Hback cg Hc) as (g & Hg & -> & _). split; [by apply Hpos|by apply Hgs].
  - intros Hon. pose proof (Forall2_length _ _ _ HF) as HL. destruct (kv_cache_groups cfg) as [|g [|g' gs]] eqn:Eg; [done| |].
    + left. destruct (Coordinator.kv_cache_groups config) as [|cg [|]] eqn:Ecg; [done| |done]. exists cg. split; [done|].
      apply Forall2_cons in HF as [[Hsz _] _]. rewrite Hsz. by apply Hsingle.
    + right. destruct Hcp as [|[Ed Ep]]; [done|]. split; [done|]. split; [done|]. destruct (Hcache Hon ltac:(done)) as (Hmd & g1 & g2 & s1 & s2 & G1 & G2 & E1 & E2 & Hdiff). split.
      * intros cg Hc. destruct (Hback cg Hc) as (x & Hx & -> & _). by apply Hseveral.
      * destruct (Hforth g1 s1 G1 E1) as (c1 & C1 & M1). destruct (Hforth g2 s2 G2 E2) as (c2 & C2 & M2). exists c1, c2. split; [done|]. split; [done|].
        intros [= Hk _ _]. apply Hdiff. by rewrite M1, M2, Hk.
Qed.
End start.
End KVStartupSafety.
