(* ===== verification/KVStartupWitness.v ===== *)
(** * KVStartupWitness

    Start-up of an engine with two pipeline stages: the longest request is found,
    the workers get their plans, and the KV cache manager is built. *)

From S2P Require Import Prelude PyNum RequestQueue BlockPool SingleType Coordinator KVCacheManager KVSpec KVConfig KVPlanSafety KVPlanWitness KVStartup KVStartupSafety.

Module KVStartupWitness.
Import RequestQueue KVSpec KVConfig KVPlanSafety KVPlanWitness KVStartup KVStartupSafety.
#[local] Open Scope Z_scope.
#[local] Existing Instance sample_torch.

(** Workers that report these layers and this memory, and keep what they are told. *)
Record Workers := mkWorkers {
  told_max_model_len : option Z;
  told_configs : option (list KVCacheConfig)
}.
#[local] Instance sample_executor : StartExecutor Workers := {|
  get_kv_cache_specs := mret stages;
  determine_available_memory := mret stage_memory;
  update_max_model_len n := modify (fun w => mkWorkers (Some n) (told_configs w));
  initialize_from_config l := modify (fun w => mkWorkers (told_max_model_len w) (Some l))
|}.

Definition settings : StartConfig := mkStartConfig false 1 0 false false false.
(** The maximum length is to be found, at most 1000. *)
Definition before_start : Start :=
  mkStart (mkVllmConfig 1000 (-1) 64 0 1 1 None "none"%string None false false) (mkCacheConfig 32 None true None None None) 1 [] (-1)
    (mkWorkers None None).
Definition startup : result KVCacheConfig * Start := initialize_kv_caches settings before_start.
Definition plan : KVCacheConfig := match startup.1 with Ok cfg => cfg | Err _ => mkKVConfig 0 [] [] end.
Definition after_start : Start := startup.2.

Lemma startup_runs : initialize_kv_caches settings before_start = (Ok plan, after_start).
Proof. vm_compute. reflexivity. Qed.

#[local] Opaque startup.

Lemma stages_distinct w : w ∈ stages -> NoDup w.*1.
Proof. intros Hw. apply (bool_decide_unpack _). unfold stages in Hw. rewrite !elem_of_cons, elem_of_nil in Hw. by destruct Hw as [->|[->|[]]]; vm_compute. Qed.

(** The second worker has room for 15 blocks; requests may have 64 tokens. *)
Lemma startup_plans_workers_witness : initialize_kv_caches settings before_start = (Ok plan, after_start) /\
  num_blocks plan = 15 /\ max_model_len (st_config after_start) = 64 /\
  exists configs c, told_configs (st_executor after_start) = Some configs /\ configs !! 1%nat = Some c /\
    worker_plan (st_config before_start) (drop 3 hybrid_layers) 61440 15 c.
Proof.
  split; [exact startup_runs|]. split; [vm_compute; reflexivity|]. split; [vm_compute; reflexivity|].
  destruct (startup_plans_workers settings before_start after_start plan startup_runs) as (specs & memory & configs & ex1 & ex2 & H1 & H2 & _ & H4 & H5 & _ & _ & H).
  - intros ex specs ex' [= <- _] w Hw. by apply stages_distinct.
  - injection H1 as <- <-. destruct (H2 eq_refl eq_refl) as (ex & [= <- <-]). apply (f_equal snd) in H4; cbn [snd] in H4.
    destruct (configs !! 1%nat) as [c|] eqn:Ec; [|by apply lookup_ge_None in Ec; rewrite H5 in Ec; cbn in Ec; lia].
    exists configs, c. split; [rewrite <- H4; reflexivity|]. split; [done|]. exact (proj1 (H 1%nat (drop 3 hybrid_layers) 61440 c eq_refl eq_refl Ec)).
Defined.

Lemma plan_groups_managed g sp : g ∈ kv_cache_groups plan -> kv_cache_spec g = OneSpec sp -> 0 < block_size sp /\ is_Some (manager_attn sp).
Proof.
  assert (H : forallb (fun g => match kv_cache_spec g with
      OneSpec sp => (0 <? block_size sp) && is_some (manager_attn sp) | UniformSpecs _ => false end) (kv_cache_groups plan) = true) by (vm_compute; reflexivity).
  rewrite forallb_forall in H. intros Hg%list_elem_of_In%H E. rewrite E in Hg. apply andb_true_iff in Hg as [Hb%Z.ltb_lt Hm]. split; [done|].
  destruct (manager_attn sp); [by eexists|done].
Qed.

Lemma startup_builds_manager_witness : exists k,
  start_kv_cache_manager settings (fun _ => []) false false false (Some 0) None plan after_start = Ok k /\ KVCacheManager.k_max_model_len k = 64.
Proof.
  destruct (startup_builds_manager settings (fun _ => []) before_start after_start plan false false false 0 startup_runs) as (k & E & Hk & _).
  - by vm_compute.
  - by vm_compute.
  - exact plan_groups_managed.
  - by vm_compute.
  - by vm_compute.
  - by right.
  - done.
  - intros _ _. split; [vm_compute; reflexivity|]. do 4 eexists.
    split; [vm_compute; left|]. split; [vm_compute; right; left|]. split; [reflexivity|]. split; [reflexivity|]. by vm_compute.
  - exists k. split; [exact E|]. rewrite Hk. vm_compute. reflexivity.
Defined.

(** A Mamba group whose blocks are not those of the cache: the block size of the
    hashes falls back to that of the scheduler, which the coordinator refuses when
    prefixes are cached. *)
Definition mamba_group : KVCacheGroupSpec :=
  new_group ["m"%string] (OneSpec (MambaSpec (mkMamba 64 [[8]] [bfloat16] None "mamba2"%string "all"%string 0))).
Definition mixed_plan : KVCacheConfig := mkKVConfig 20 [] [new_group ["f"%string] (OneSpec (full 16 1)); mamba_group].
Definition mixed_start : Start := mkStart (engine 64) (mkCacheConfig 16 None true (Some 20) None None) 1 [] 0 (mkWorkers None None).
Lemma diverging_mamba_refused : resolve_kv_cache_block_sizes settings mixed_plan (st_config mixed_start) (st_cache mixed_start) = Ok (64, 64) /\
  start_kv_cache_manager settings (fun _ => []) false false false (Some 0) None mixed_plan mixed_start = Err AssertionError.
Proof. split; vm_compute; reflexivity. Qed.
End KVStartupWitness.
