(* ===== verification/Detokenizer.v ===== *)
(** * Detokenizer

    v1/engine/detokenizer.py and tokenizers/detokenizer_utils.py: the text of a
    request, token by token, the search for its stop strings, and what of the text
    may be streamed already. A Python string is the list of its code points.

    The tokenizers are third-party code behind the classes [DecodeStream] (of the
    tokenizers library) and [TokenizerLike]; log messages are left out. *)

From S2P Require Import Prelude Request.

Module Detokenizer.
#[local] Open Scope Z_scope.

Notation text := (list Z).

(** ** Strings *)

Definition starts_with (sub l : text) : bool := bool_decide (take (length sub) l = sub).

(** The first position of [sub] in [l], counted from [i]; -1 if there is none. *)
Fixpoint find_from (sub l : text) (i : Z) : Z :=
  if starts_with sub l then i else match l with [] => -1 | _ :: l => find_from sub l (i + 1) end.

(** [l.find(sub, start)] *)
Definition str_find (l sub : text) (start : Z) : Z :=
  let start := if start <? 0 then Z.max 0 (start + zlen l) else start in
  if zlen l <? start then -1 else find_from sub (drop (Z.to_nat start) l) start.

(** [l[a:b]] for [0 <= a]; [l[:-n]] for [n <> 0], and all of [l] for 0. *)
Definition slice {A} (a b : Z) (l : list A) : list A := take (Z.to_nat (b - a)) (drop (Z.to_nat a) l).
Definition drop_last {A} (n : Z) (l : list A) : list A := take (Z.to_nat (if n <? 0 then - n else zlen l - n)) l.

(** [sep.join(l)] *)
Fixpoint join (sep : text) (l : list text) : text :=
  match l with
  | [] => []
  | [t] => t
  | t :: l => t ++ sep ++ join sep l
  end.

(** ** Stop strings *)

Fixpoint first_stop (output_text : text) (new_char_count : Z) (stop : list text) (include_in_output : bool) : option (text * Z) :=
  match stop with
  | [] => None
  | stop_str :: stop =>
      let stop_string_len := zlen stop_str in
      let stop_index := str_find output_text stop_str (1 - new_char_count - stop_string_len) in
      if stop_index =? -1 then first_stop output_text new_char_count stop include_in_output
      else if include_in_output then
        let stop_index := stop_index + stop_string_len in
        if zlen output_text <=? stop_index then Some (stop_str, -1) else Some (stop_str, stop_index)
      else Some (stop_str, stop_index)
  end.
Definition check_stop_strings (output_text : text) (new_char_count : Z) (stop : list text) (include_in_output : bool) : option (text * Z) :=
  if new_char_count =? 0 then None else first_stop output_text new_char_count stop include_in_output.

(** ** Decoders *)

(** [decode_next] of the subclasses; [token_ids] are all tokens up to and with the
    new one. *)
Class TokenDecoder (DT : Type) := decode_next : forall (token_ids : list Z) (next_token_id : Z), M DT text.

(** A [DecodeStream]; its errors are the exceptions the code tells apart. *)
Inductive StepResult := StepText (t : option text) | StepOverflowError | StepTypeError | StepInvalidPrefix | StepRaises (e : exn).
Class DecodeStream (ST : Type) := {
  new_stream : option (list Z) -> bool -> ST;
  stream_step : Z -> ST -> StepResult * ST
}.

Record FastDecoder (ST : Type) := mkFast {
  stream : ST;
  last_special : bool
}.
Arguments mkFast {ST}.
Arguments stream {ST}.
Arguments last_special {ST}.

(** The tokens between which no spaces are put, by the settings of a request. *)
Definition tight_tokens (skip_special_tokens spaces_between_special_tokens : bool) (added : list (Z * text)) : option (list (Z * text)) :=
  if skip_special_tokens || spaces_between_special_tokens then None else match added with [] => None | _ => Some added end.

Section fast.
Context {ST : Type} `{!DecodeStream ST}.
(** Settings of one request; [added_token_ids] are its [tight_tokens]. *)
Context (skip_special_tokens : bool) (added_token_ids : option (list (Z * text))).

Definition new_fast (prompt_token_ids : option (list Z)) : FastDecoder ST := mkFast (new_stream prompt_token_ids skip_special_tokens) false.

Definition step_stream (next_token_id : Z) : M (FastDecoder ST) StepResult := fun s =>
  let '(r, st) := stream_step next_token_id (stream s) in (Ok r, mkFast st (last_special s)).

Definition protected_step (next_token_id : Z) : M (FastDecoder ST) (option text) :=
  r ← step_stream next_token_id;
  match r with
  | StepText t => mret t
  | StepOverflowError | StepTypeError => mret None
  | StepRaises e => raise e
  | StepInvalidPrefix =>
      modify (fun s => mkFast (new_stream None skip_special_tokens) (last_special s)) ;;
      r ← step_stream next_token_id;
      match r with
      | StepText t => mret t
      | StepOverflowError => raise OverflowError
      | StepTypeError => raise TypeError
      | StepInvalidPrefix => raise RuntimeError
      | StepRaises e => raise e
      end
  end.

Definition added_token (next_token_id : Z) (added : list (Z * text)) : option text :=
  snd <$> find (fun e => e.1 =? next_token_id) added.

Definition fast_decode_next (next_token_id : Z) : M (FastDecoder ST) text :=
  token ← protected_step next_token_id;
  match added_token_ids with
  | None => mret (default [] token)
  | Some added =>
      s ← get;
      let special_token := added_token next_token_id added in
      let token := if is_some special_token && last_special s then special_token else token in
      modify (fun s => mkFast (stream s) (is_some special_token)) ;;
      mret (default [] token)
  end.
#[local] Instance FastIncrementalDetokenizer : TokenDecoder (FastDecoder ST) := fun _ next_token_id => fast_decode_next next_token_id.
End fast.

(** What the slow detokenizer calls of a tokenizer; a single text comes back for a
    single token only. *)
Inductive Tokens := OneToken (t : text) | TokenList (l : list (option text)).
Class TokenizerLike := {
  vocabulary_size : Z;
  is_fast : bool;
  added_vocab : list text;
  all_special_tokens : list text;
  convert_ids_to_tokens : list Z -> bool -> Tokens;
  convert_tokens_to_string : list text -> text
}.

Section slow.
Context `{!TokenizerLike}.
Context (skip_special_tokens spaces_between_special_tokens : bool).

Definition token_texts (t : Tokens) : list text :=
  match t with OneToken t => [t] | TokenList l => default [] <$> l end.

(** The loop over the tokens, with [sub_texts] and [current_sub_text]. *)
Fixpoint sub_texts_loop (output_tokens : list text) (sub_texts current_sub_text : list text) : list text :=
  match output_tokens with
  | [] => match current_sub_text with [] => sub_texts | _ => sub_texts ++ [convert_tokens_to_string current_sub_text] end
  | token :: output_tokens =>
      if skip_special_tokens && bool_decide (token ∈ all_special_tokens) then sub_texts_loop output_tokens sub_texts current_sub_text
      else if bool_decide (token ∈ added_vocab) then
        match current_sub_text with
        | [] => sub_texts_loop output_tokens (sub_texts ++ [token]) []
        | _ => sub_texts_loop output_tokens (sub_texts ++ [convert_tokens_to_string current_sub_text; token]) []
        end
      else sub_texts_loop output_tokens sub_texts (current_sub_text ++ [token])
  end.
Definition convert_tokens_to_string_with_added_encoders (output_tokens : list text) : text :=
  join (if spaces_between_special_tokens then [32] else []) (sub_texts_loop output_tokens [] []).

Definition INITIAL_INCREMENTAL_DETOKENIZATION_OFFSET : Z := 5.

Definition convert_prompt_ids_to_tokens (prompt_ids : list Z) : list text * Z * Z :=
  let last_ids := drop (Z.to_nat (zlen prompt_ids - (INITIAL_INCREMENTAL_DETOKENIZATION_OFFSET + 2))) prompt_ids in
  let new_tokens := token_texts (convert_ids_to_tokens last_ids skip_special_tokens) in
  let read_offset := zlen new_tokens in
  (new_tokens, Z.max (read_offset - INITIAL_INCREMENTAL_DETOKENIZATION_OFFSET) 0, read_offset).

Record SlowDecoder := mkSlow {
  tokens : list text;
  prefix_offset : Z;
  read_offset : Z
}.

(** Without token ids the prompt is embeddings, which have no text. *)
Definition new_slow (prompt_token_ids : option (list Z)) (prompt_len : Z) : SlowDecoder :=
  match prompt_token_ids with
  | Some ids => let '(tokens, p, r) := convert_prompt_ids_to_tokens ids in mkSlow tokens p r
  | None => mkSlow (replicate (Z.to_nat prompt_len) []) 0 0
  end.
Definition slow_prompt (prompt_token_ids : option (list Z)) (prompt_len : Z) : list Z :=
  match prompt_token_ids with Some (t :: ids) => t :: ids | _ => replicate (Z.to_nat prompt_len) 0 end.

(** What is new of [output_tokens]: a text that ends in a replacement character may
    be part of one. *)
Definition new_part (output_tokens : list text) (prefix_offset read_offset : Z) : text * Z * Z :=
  let to_string := if is_fast || match added_vocab with [] => true | _ => false end then convert_tokens_to_string
                   else convert_tokens_to_string_with_added_encoders in
  let prefix_text := to_string (slice prefix_offset read_offset output_tokens) in
  let new_text := to_string (drop (Z.to_nat prefix_offset) output_tokens) in
  if (zlen new_text <=? zlen prefix_text) || bool_decide (last new_text = Some 65533) then ([], prefix_offset, read_offset)
  else (drop (length prefix_text) new_text, read_offset, zlen output_tokens).

(** [detokenize_incrementally] with [prev_tokens] given. *)
Definition detokenize_incrementally (new_token_id : Z) (prev_tokens : list text) (prefix_offset read_offset : Z) : list text * text * Z * Z :=
  let new_tokens :=
    if (0 <=? new_token_id) && (new_token_id <? vocabulary_size)
    then token_texts (convert_ids_to_tokens [new_token_id] skip_special_tokens) else [[]] in
  let '(new_text, prefix_offset, read_offset) := new_part (prev_tokens ++ new_tokens) prefix_offset read_offset in
  (new_tokens, new_text, prefix_offset, read_offset).

Definition slow_decode_next (token_ids : list Z) : M SlowDecoder text :=
  new_token_id ← of_option IndexError (last token_ids);
  s ← get;
  let '(new_tokens, decoded_text, p, r) := detokenize_incrementally new_token_id (tokens s) (prefix_offset s) (read_offset s) in
  modify (fun s => mkSlow (tokens s ++ new_tokens) p r) ;;
  mret decoded_text.
#[local] Instance SlowIncrementalDetokenizer : TokenDecoder SlowDecoder := fun token_ids _ => slow_decode_next token_ids.
End slow.

(** ** The detokenizer of a request *)

(** What it reads of the sampling parameters. *)
Record StopParams := mkStop {
  stop : list text;
  min_tokens : Z;
  include_stop_str_in_output : bool
}.
Definition stop_buffer (p : StopParams) : Z :=
  match stop p with
  | [] => 0
  | s :: l => if include_stop_str_in_output p then 0 else foldl Z.max (zlen s) ((fun s => zlen s) <$> l) - 1
  end.

Section detokenizer.
Context {DT : Type} `{!TokenDecoder DT}.

(** Without a decoder it is the base class, which leaves the text empty. The slow
    detokenizer has the prompt in front of [token_ids]; [prompt_len] is 0 for the
    others. *)
Record Detokenizer := mkDetokenizer {
  decoder : option DT;
  stop_params : StopParams;
  prompt_len : Z;
  token_ids : list Z;
  last_output_text_offset : Z;
  output_text : text
}.
Definition set_decoder (v : option DT) (d : Detokenizer) : Detokenizer :=
  mkDetokenizer v (stop_params d) (prompt_len d) (token_ids d) (last_output_text_offset d) (output_text d).
Definition set_token_ids (v : list Z) (d : Detokenizer) : Detokenizer :=
  mkDetokenizer (decoder d) (stop_params d) (prompt_len d) v (last_output_text_offset d) (output_text d).
Definition set_last_offset (v : Z) (d : Detokenizer) : Detokenizer :=
  mkDetokenizer (decoder d) (stop_params d) (prompt_len d) (token_ids d) v (output_text d).
Definition set_output_text (v : text) (d : Detokenizer) : Detokenizer :=
  mkDetokenizer (decoder d) (stop_params d) (prompt_len d) (token_ids d) (last_output_text_offset d) v.

(** [prompt]: the tokens the slow detokenizer keeps in front. *)
Definition new_detokenizer (dec : option DT) (p : StopParams) (prompt : list Z) : Detokenizer :=
  mkDetokenizer dec p (zlen prompt) prompt 0 [].

Definition stop_buffer_length (d : Detokenizer) : Z := stop_buffer (stop_params d).
Definition dt_num_output_tokens (d : Detokenizer) : Z := zlen (token_ids d) - prompt_len d.
Definition output_token_ids (d : Detokenizer) : list Z := drop (Z.to_nat (prompt_len d)) (token_ids d).

Definition on_decoder {A} (op : M DT A) : M Detokenizer A := fun d =>
  match decoder d with
  | Some dt => let '(r, dt) := op dt in (r, set_decoder (Some dt) d)
  | None => (Err NotImplementedError, d)
  end.

(** One token; [stop_check_offset] is where the search for stop strings begins. *)
Definition decode_token (stop_check_offset : Z) (new_token_id : Z) : M Detokenizer Z :=
  modify (fun d => set_token_ids (token_ids d ++ [new_token_id]) d) ;;
  d ← get;
  t ← on_decoder (decode_next (token_ids d) new_token_id);
  modify (fun d => set_output_text (output_text d ++ t) d) ;;
  d ← get;
  mret (if negb (min_tokens (stop_params d) =? 0) && (dt_num_output_tokens d <=? min_tokens (stop_params d))
        then zlen (output_text d) else stop_check_offset).

(** Stop strings in the text after [stop_check_offset]; the text is cut. *)
Definition evaluate_stop (stop_check_offset : Z) : M Detokenizer (option text) :=
  d ← get;
  let p := stop_params d in
  match stop p with
  | [] => mret None
  | _ =>
      if min_tokens p <? dt_num_output_tokens d then
        match check_stop_strings (output_text d) (zlen (output_text d) - stop_check_offset) (stop p) (include_stop_str_in_output p) with
        | None => mret None
        | Some (stop_string, truncate_to) =>
            (if truncate_to =? -1 then mret tt
             else modify (fun d => set_output_text (take (Z.to_nat truncate_to) (output_text d)) d)) ;;
            mret (Some stop_string)
        end
      else mret None
  end.

(** The token that terminated the request, if it is not to be decoded. *)
Definition skipped_stop_token (p : StopParams) (new_token_ids : list Z) (stop_terminated : bool) : option Z :=
  if stop_terminated && negb (include_stop_str_in_output p) then last new_token_ids else None.

(** [BaseIncrementalDetokenizer.update], or that of the base class. *)
Definition update (new_token_ids : list Z) (stop_terminated : bool) : M Detokenizer (option text) :=
  d ← get;
  match decoder d, new_token_ids with
  | None, _ => modify (fun d => set_token_ids (token_ids d ++ new_token_ids) d) ;; mret None
  | Some _, [] => mret None
  | Some _, _ =>
      let skipped := skipped_stop_token (stop_params d) new_token_ids stop_terminated in
      let decoded := if is_some skipped then drop_last 1 new_token_ids else new_token_ids in
      stop_check_offset ← for_fold decode_token decoded (zlen (output_text d));
      (match skipped with
       | Some t => modify (fun d => set_token_ids (token_ids d ++ [t]) d)
       | None => mret tt
       end) ;;
      evaluate_stop stop_check_offset
  end.

Definition get_next_output_text (finished delta : bool) : M Detokenizer text :=
  d ← get;
  match decoder d with
  | None => mret []
  | Some _ =>
      let buffer_length := if finished then 0 else stop_buffer_length d in
      if negb delta then mret (if buffer_length =? 0 then output_text d else drop_last buffer_length (output_text d))
      else
        let len := zlen (output_text d) - buffer_length in
        let last_offset := last_output_text_offset d in
        if last_offset <? len then modify (set_last_offset len) ;; mret (slice last_offset len (output_text d))
        else mret []
  end.

(** What the output processor does with one output of the engine core: whether the
    request ends here, and the text for the client. An empty stop string would not
    count. *)
Definition process_output (new_token_ids : list Z) (finish_reason : option Request.FinishReason) (delta : bool) : M Detokenizer (text * bool) :=
  stop_string ← update new_token_ids (match finish_reason with Some Request.STOP => true | _ => false end);
  let finished := is_some finish_reason || match stop_string with Some (_ :: _) => true | _ => false end in
  text ← get_next_output_text finished delta;
  mret (text, finished).

(** The outputs of a request until it ends; later ones are ignored. *)
Fixpoint process_request (delta : bool) (outs : list (list Z * option Request.FinishReason)) : M Detokenizer (list text * bool) :=
  match outs with
  | [] => mret ([], false)
  | (new_token_ids, finish_reason) :: outs =>
      '((t, finished) : text * bool) ← process_output new_token_ids finish_reason delta;
      if finished then mret ([t], true)
      else '((ts, finished) : list text * bool) ← process_request delta outs; mret (t :: ts, finished)
  end.
End detokenizer.
Arguments Detokenizer DT : clear implicits.
End Detokenizer.
