(* ===== verification/DetokenizerSafety.v ===== *)
(** * DetokenizerSafety

    Stop strings are found where they end in new text, and what is streamed of a
    text is that text: nothing is sent twice, nothing of an excluded stop string is
    sent, and nothing is held back at the end. *)

From S2P Require Import Prelude Request Detokenizer.

Module DetokenizerSafety.
Import Detokenizer.
#[local] Open Scope Z_scope.

(** ** Searching *)

(** [sub] is at position [i] of [l]. *)
Definition at_position (sub l : text) (i : Z) : Prop := 0 <= i /\ take (length sub) (drop (Z.to_nat i) l) = sub.

Lemma at_position_bound sub l i : at_position sub l i -> i + zlen sub <= zlen l \/ sub = [].
Proof.
  intros [Hi H]. destruct sub as [|c sub]; [by right|left]. apply (f_equal length) in H. rewrite length_take, length_drop in H. cbn [length] in *. lia.
Qed.

Lemma find_from_spec sub l i : 0 <= i ->
  (find_from sub l i = -1 /\ forall k, ~ at_position sub l k) \/
  (exists k, find_from sub l i = i + k /\ at_position sub l k /\ forall j, at_position sub l j -> k <= j).
Proof.
  revert i. induction l as [|x l IH]; intros i Hi; cbn [find_from]; unfold starts_with; case_bool_decide as E.
  - right. exists 0. split; [lia|]. split; [by split|]. by intros j [? _].
  - left. split; [done|]. intros k [Hk H]. rewrite drop_nil, take_nil in H. by rewrite take_nil in E.
  - right. exists 0. split; [lia|]. split; [by split|]. by intros j [? _].
  - assert (Hs : forall k, at_position sub (x :: l) k -> 0 < k /\ at_position sub l (k - 1)).
    { intros k [Hk H]. destruct (decide (k = 0)) as [->|]; [done|]. split; [lia|]. split; [lia|]. replace (Z.to_nat k) with (S (Z.to_nat (k - 1))) in H by lia. done. }
    destruct (IH (i + 1) ltac:(lia)) as [[H1 H2]|(k & H1 & [Hk H2] & H3)].
    + left. split; [done|]. intros k [_ Hk]%Hs. by eapply H2.
    + right. exists (k + 1). split; [lia|]. split.
      * split; [lia|]. by replace (Z.to_nat (k + 1)) with (S (Z.to_nat k)) by lia.
      * intros j [_ Hj%H3]%Hs. lia.
Qed.

Lemma at_position_drop sub l s i : 0 <= s -> 0 <= i -> at_position sub (drop (Z.to_nat s) l) i <-> at_position sub l (s + i).
Proof. intros Hs Hi. unfold at_position. rewrite drop_drop. replace (Z.to_nat s + Z.to_nat i)%nat with (Z.to_nat (s + i)) by lia. split; intros [_ H]; (split; [lia|done]). Qed.

(** [find] with a start within the text. *)
Lemma str_find_spec l sub a : 0 <= a <= zlen l ->
  (find_from sub (drop (Z.to_nat a) l) a = -1 /\ forall k, a <= k -> ~ at_position sub l k) \/
  (exists k, find_from sub (drop (Z.to_nat a) l) a = k /\ a <= k /\ at_position sub l k /\ forall j, a <= j -> at_position sub l j -> k <= j).
Proof.
  intros Ha. destruct (find_from_spec sub (drop (Z.to_nat a) l) a ltac:(lia)) as [[H1 H2]|(k & H1 & H2 & H3)].
  - left. split; [done|]. intros k Hk H. apply (H2 (k - a)). apply at_position_drop; [lia|lia|]. by replace (a + (k - a)) with k by lia.
  - right. exists (a + k). split; [done|]. assert (0 <= k) by (by destruct H2). split; [lia|]. split; [by apply at_position_drop; [lia..|]|].
    intros j Hj Hat. assert (k <= j - a); [|lia]. apply H3, at_position_drop; [lia|lia|]. by replace (a + (j - a)) with j by lia.
Qed.

(** [s] is in the text at [i] and ends in its last [new] characters. *)
Definition ends_in_new (l s : text) (new i : Z) : Prop := at_position s l i /\ zlen l - new < i + zlen s.

Lemma stop_index_spec l s new : 0 < new <= zlen l -> s <> [] ->
  let i := str_find l s (1 - new - zlen s) in
  (i = -1 /\ forall k, ~ ends_in_new l s new k) \/ (0 <= i /\ ends_in_new l s new i /\ forall k, ends_in_new l s new k -> i <= k).
Proof.
  intros Hn Hs. assert (Hlen : 0 < zlen s) by (destruct s; [done|cbn [length]; lia]). cbv zeta. unfold str_find.
  rewrite (proj2 (Z.ltb_lt (1 - new - zlen s) 0)) by lia. set (a := Z.max 0 (1 - new - zlen s + zlen l)).
  rewrite (proj2 (Z.ltb_ge (zlen l) a)) by lia.
  assert (Hi : forall k, ends_in_new l s new k <-> a <= k /\ at_position s l k).
  { intros k. unfold ends_in_new. split; [intros [H1 H2]; pose proof (proj1 H1); split; [lia|done]|intros [H1 H2]; split; [done|lia]]. }
  destruct (str_find_spec l s a ltac:(lia)) as [[-> H]|(k & -> & Hk & H1 & H2)].
  - left. split; [done|]. intros k [Hk Hp]%Hi. by eapply H.
  - right. split; [lia|]. split; [by apply Hi|]. intros j [Hj Hp]%Hi. by apply H2.
Qed.

(** Where the text is cut: at the stop string, or behind it. *)
Definition cut_at (l s : text) (include : bool) (i : Z) : Z :=
  if include then if zlen l <=? i + zlen s then -1 else i + zlen s else i.

(** What [check_stop_strings] finds. *)
Definition found_exactly (l : text) (new : Z) (stop : list text) (include : bool) (r : option (text * Z)) : Prop :=
  match r with
  | None => forall s i, s ∈ stop -> 0 < new -> ~ ends_in_new l s new i
  | Some (s, k) => exists before after i, stop = before ++ s :: after /\ (forall s' j, s' ∈ before -> ~ ends_in_new l s' new j) /\
      ends_in_new l s new i /\ (forall j, ends_in_new l s new j -> i <= j) /\ k = cut_at l s include i
  end.

Lemma stop_search_found (l : text) new (stop : list text) include : 0 <= new <= zlen l -> (forall s, s ∈ stop -> s <> []) ->
  found_exactly l new stop include (check_stop_strings l new stop include).
Proof.
  intros Hn Hs. unfold found_exactly, check_stop_strings. destruct (Z.eqb_spec new 0) as [->|Hne]; [intros; lia|].
  induction stop as [|s stop IH]; [by intros ? ? ?%elem_of_nil|]. cbn [first_stop].
  specialize (IH ltac:(intros s' ?; apply Hs; by right)).
  destruct (stop_index_spec l s new ltac:(lia) ltac:(apply Hs; by left)) as [[E H]|(H0 & H1 & H2)].
  - rewrite E. cbn [Z.eqb]. destruct (first_stop l new stop include) as [[s' k]|].
    + destruct IH as (before & after & i & -> & Hb & Hi). exists (s :: before), after, i. split; [done|]. split; [|done].
      intros s'' j [->|Hin]%elem_of_cons; [apply H|by apply Hb].
    + intros s' i [->|Hin]%elem_of_cons Hp; [apply H|by apply IH].
  - rewrite (proj2 (Z.eqb_neq _ (-1))) by lia. set (i := str_find l s _) in *.
    assert (Hb : forall s' j, s' ∈ ([] : list text) -> ~ ends_in_new l s' new j) by (by intros s' j ?%elem_of_nil).
    unfold cut_at. destruct include; [destruct (zlen l <=? i + zlen s) eqn:E|]; exists [], stop, i; rewrite ?E; by split_and!.
Qed.

(** No stop string is in the text. *)
Definition free_of (stop : list text) (l : text) : Prop := forall s i, s ∈ stop -> ~ at_position s l i.

Lemma at_position_app s (l r : text) i : at_position s (l ++ r) i -> i + zlen s <= zlen l -> at_position s l i.
Proof.
  intros [Hi H] Hle. split; [done|]. rewrite drop_app_le, take_app_le in H; [done|rewrite length_drop; lia|lia].
Qed.

(** What is new in a text after one without stop strings ends in the new characters. *)
Lemma free_extend stop (old added : text) s i : free_of stop old -> (forall s, s ∈ stop -> s <> []) -> s ∈ stop ->
  at_position s (old ++ added) i -> ends_in_new (old ++ added) s (zlen added) i /\ 0 < zlen added.
Proof.
  intros Hf Hne Hs Hi. assert (Hold : zlen old < i + zlen s).
  { apply Z.nle_gt. intros Hle. by apply (Hf s i Hs), (at_position_app _ _ added). }
  destruct (at_position_bound _ _ _ Hi) as [Hb| ->]; [|by destruct (Hne [] Hs)].
  rewrite length_app in Hb. split; [split; [done|]|]; rewrite ?length_app; lia.
Qed.

Lemma at_position_take s (l : text) (n : nat) i : s <> [] -> at_position s (take n l) i -> at_position s l i /\ i + zlen s <= Z.of_nat n.
Proof.
  intros Hs H. assert (Hb := at_position_bound _ _ _ H). destruct Hb as [Hb|?]; [|done]. destruct H as [Hi H]. rewrite length_take in Hb.
  split; [split; [done|]|lia]. rewrite skipn_firstn_comm, take_take in H. rewrite Nat.min_l in H by lia. done.
Qed.

(** The text after the search. *)
Definition remaining (l : text) (k : Z) : text := if k =? -1 then l else take (Z.to_nat k) l.

(** C38. The text that is left has no stop string in it, as documented. Take a text
    without (nonempty) stop strings that has grown, by at most one character or with
    a single stop string to look for. If [check_stop_strings] finds nothing, the text
    is still without; otherwise it returns the first stop string of the list that is
    in the text, cuts the text before it or behind it, in the new characters, and
    what is left is without stop strings, or ends in the only ones it has if they are
    to be included. *)
Theorem stop_strings_left_out (old added : text) (stop : list text) include :
  (forall s, s ∈ stop -> s <> []) -> free_of stop old -> zlen added <= 1 \/ length stop = 1%nat ->
  match check_stop_strings (old ++ added) (zlen added) stop include with
  | None => free_of stop (old ++ added)
  | Some (s, k) =>
      (exists before after, stop = before ++ s :: after /\ free_of before (old ++ added)) /\
      (exists i, at_position s (old ++ added) i /\ zlen old < i + zlen s /\
        remaining (old ++ added) k = take (Z.to_nat (if include then i + zlen s else i)) (old ++ added)) /\
      if include then forall s' j, s' ∈ stop -> at_position s' (remaining (old ++ added) k) j -> j + zlen s' = zlen (remaining (old ++ added) k)
      else free_of stop (remaining (old ++ added) k)
  end.
Proof.
  intros Hne Hf Hcase. set (l := old ++ added).
  pose proof (stop_search_found l (zlen added) stop include ltac:(unfold l; rewrite length_app; lia) Hne) as Hs.
  assert (Hnew : forall s i, s ∈ stop -> at_position s l i -> ends_in_new l s (zlen added) i /\ 0 < zlen added) by (intros; by apply (free_extend stop)).
  assert (Hll : zlen l = zlen old + zlen added) by (unfold l; rewrite length_app; lia).
  destruct (check_stop_strings l (zlen added) stop include) as [[s k]|].
  2: { intros s i Hin Hi. destruct (Hnew s i Hin Hi) as [He Hp]. by apply (Hs s i Hin Hp). }
  destruct Hs as (before & after & i & Est & Hbefore & [Hi Hend] & Hmin & ->).
  assert (Hin : s ∈ stop) by (rewrite Est; apply elem_of_app; right; left).
  destruct (at_position_bound _ _ _ Hi) as [Hb|E]; [|by destruct (Hne s Hin)]. pose proof (proj1 Hi) as Hi0.
  assert (Hrem : remaining l (cut_at l s include i) = take (Z.to_nat (if include then i + zlen s else i)) l).
  { unfold remaining, cut_at. destruct include; [|by rewrite (proj2 (Z.eqb_neq _ _)) by lia].
    destruct (Z.leb_spec (zlen l) (i + zlen s)); [cbn; rewrite take_ge by lia; done|by rewrite (proj2 (Z.eqb_neq _ _)) by lia]. }
  assert (Hleft : forall s' j, s' ∈ stop -> at_position s' l j -> i + zlen s <= j + zlen s').
  { intros s' j Hs' Hj. destruct (Hnew s' j Hs' Hj) as [[_ He] _]. destruct Hcase as [Hone|Hone]; [lia|].
    assert (s' = s) as ->. { rewrite Est in Hone, Hs'. rewrite length_app in Hone. cbn in Hone. destruct before; [|cbn in Hone; lia]. destruct after; [|cbn in Hone; lia].
      by apply list_elem_of_singleton in Hs'. }
    enough (i <= j) by lia. apply Hmin. by apply Hnew. }
  split; [|split].
  - exists before, after. split; [done|]. intros s' j Hs' Hj. apply (Hbefore s' j Hs'), Hnew; [|done]. rewrite Est. apply elem_of_app. by left.
  - exists i. rewrite Hrem. split; [done|]. split; [lia|done].
  - rewrite Hrem. destruct include.
    + intros s' j Hs' [Hj Hle]%at_position_take; [|by apply Hne]. pose proof (Hleft s' j Hs' Hj). rewrite length_take. lia.
    + intros s' j Hs' [Hj Hle]%at_position_take; [|by apply Hne]. pose proof (Hleft s' j Hs' Hj). assert (0 < zlen s); [|lia].
      specialize (Hne s Hin). destruct s; [done|cbn [length]; lia].
Qed.

(** ** Streaming *)

(** A decoder that has a text for every token. *)
Class TotalDecoder DT `{!TokenDecoder DT} := decoder_total : forall token_ids t (s : DT), last token_ids = Some t ->
  exists x s', decode_next token_ids t s = (Ok x, s').

(** The slow decoder never fails, whatever the tokenizer. *)
#[export] Instance slow_total `{!TokenizerLike} skip spaces : @TotalDecoder SlowDecoder (SlowIncrementalDetokenizer skip spaces).
Proof.
  intros ids t s Hl. unfold decode_next, SlowIncrementalDetokenizer, slow_decode_next, mbind, M_bind. rewrite Hl. cbn.
  match goal with |- context [detokenize_incrementally ?a ?b ?c ?d ?e ?f] => destruct (detokenize_incrementally a b c d e f) as [[[n x] p] r] end.
  by eexists _, _.
Qed.

Section streaming.
Context {DT : Type} `{!TokenDecoder DT}.

(** The text of tokens [new] that come after [ids], all decoded in a row. *)
Definition decode1 (ids : list Z) (t : Z) (s : DT) : text * DT :=
  match decode_next ids t s with (Ok x, s) => (x, s) | (Err _, s) => ([], s) end.
Fixpoint decode_from (ids new : list Z) (s : DT) : text * DT :=
  match new with
  | [] => ([], s)
  | t :: new => let r := decode1 (ids ++ [t]) t s in let q := decode_from (ids ++ [t]) new r.2 in (r.1 ++ q.1, q.2)
  end.

Lemma decode_from_app ids new1 new2 s :
  decode_from ids (new1 ++ new2) s =
    let r := decode_from ids new1 s in let q := decode_from (ids ++ new1) new2 r.2 in (r.1 ++ q.1, q.2).
Proof.
  revert ids s. induction new1 as [|t new1 IH]; intros ids s; cbn -[decode1]; [rewrite app_nil_r; by destruct (decode_from ids new2 s)|].
  rewrite IH, <- app_assoc. cbn -[decode1]. by rewrite <- app_assoc.
Qed.

Context `{!TotalDecoder DT}.

Lemma decode_token_run off t d s : decoder d = Some s -> 0 <= off <= zlen (output_text d) ->
  let r := decode1 (token_ids d ++ [t]) t s in
  exists off', decode_token off t d = (Ok off', set_output_text (output_text d ++ r.1) (set_decoder (Some r.2) (set_token_ids (token_ids d ++ [t]) d))) /\
    off <= off' <= zlen (output_text d ++ r.1) /\ (min_tokens (stop_params d) = 0 -> off' = off).
Proof.
  intros Hd Hoff. cbv zeta. unfold decode_token, decode1. cbn. unfold mbind, M_bind, on_decoder. cbn. rewrite Hd.
  destruct (decoder_total (token_ids d ++ [t]) t s) as (x & s' & ->); [apply last_snoc|]. cbn.
  eexists; split; [done|]. split; [|by intros ->]. rewrite length_app. destruct (_ && _); rewrite ?length_app; lia.
Qed.

Lemma decode_tokens_run new off d s : decoder d = Some s -> 0 <= off <= zlen (output_text d) ->
  let r := decode_from (token_ids d) new s in
  exists off', for_fold decode_token new off d =
    (Ok off', set_output_text (output_text d ++ r.1) (set_decoder (Some r.2) (set_token_ids (token_ids d ++ new) d))) /\
    off <= off' <= zlen (output_text d ++ r.1) /\ (min_tokens (stop_params d) = 0 -> off' = off).
Proof.
  revert off d s. induction new as [|t new IH]; intros off d s Hd Hoff; cbn -[decode1 decode_token].
  - exists off. rewrite !app_nil_r. split; [|by split; [lia|]]. by destruct d; cbn in *; subst.
  - destruct (decode_token_run off t d s Hd Hoff) as (off1 & E & Ho & Hz). unfold mbind, M_bind. rewrite E.
    destruct (IH off1 (set_output_text (output_text d ++ (decode1 (token_ids d ++ [t]) t s).1)
      (set_decoder (Some (decode1 (token_ids d ++ [t]) t s).2) (set_token_ids (token_ids d ++ [t]) d))) _ eq_refl ltac:(cbn; lia)) as (off2 & E2 & Ho2 & Hz2).
    rewrite E2. exists off2. cbn -[decode1] in *. rewrite <- !app_assoc in *. split; [done|]. split; [lia|]. intros Hm. by rewrite Hz2, Hz.
Qed.
End streaming.

(** ** A request from its first output to its last *)

(** [full] was cut at stop string [st], which ends behind its first [old] characters. *)
Definition cut_text (include : bool) (full st : text) (old : Z) (t : text) : Prop :=
  exists i, at_position st full i /\ old < i + zlen st /\ t = take (Z.to_nat (if include then i + zlen st else i)) full.

Section request.
Context {DT : Type} `{!TokenDecoder DT} `{!TotalDecoder DT}.
(** The decoder and the tokens in front at the beginning, and the parameters. *)
Context (dt0 : DT) (prompt : list Z) (p : StopParams).
Context (stop_nonempty : forall s, s ∈ stop p -> s <> []).

(** All of [visible] is decoded into the text. *)
Record decoding (visible : list Z) (d : Detokenizer DT) : Prop := {
  dec_params : stop_params d = p;
  dec_prompt : prompt_len d = zlen prompt;
  dec_ids : token_ids d = prompt ++ visible;
  dec_text : exists s, decoder d = Some s /\ decode_from prompt visible dt0 = (output_text d, s);
  dec_free : min_tokens p = 0 -> free_of (stop p) (output_text d)
}.

Lemma evaluate_stop_run off (d : Detokenizer DT) : stop_params d = p -> 0 <= off <= zlen (output_text d) ->
  exists r t, evaluate_stop off d = (Ok r, set_output_text t d) /\
    match r with
    | None => t = output_text d /\ (min_tokens p < dt_num_output_tokens d ->
        forall s i, s ∈ stop p -> off < zlen (output_text d) -> ~ ends_in_new (output_text d) s (zlen (output_text d) - off) i)
    | Some st => st ∈ stop p /\ cut_text (include_stop_str_in_output p) (output_text d) st off t
    end.
Proof.
  intros Hp Hoff. assert (Hsame : d = set_output_text (output_text d) d) by by destruct d.
  unfold evaluate_stop, mbind, M_bind. cbn. rewrite Hp. cbn.
  destruct (stop p) as [|s0 l0] eqn:Es; [exists None, (output_text d); rewrite <- Hsame; split_and!; [done|done|by intros _ s i ?%elem_of_nil]|]. rewrite <- Es in *.
  destruct (Z.ltb_spec (min_tokens p) (dt_num_output_tokens d)); [|exists None, (output_text d); rewrite <- Hsame; split_and!; [done|done|lia]].
  pose proof (stop_search_found (output_text d) (zlen (output_text d) - off) (stop p) (include_stop_str_in_output p) ltac:(lia) stop_nonempty) as Hf.
  destruct (check_stop_strings _ _ _ _) as [[s k]|].
  2: { exists None, (output_text d). rewrite <- Hsame. split_and!; [done|done|]. intros _ s i Hin Hlt. apply Hf; [done|lia]. }
  destruct Hf as (before & after & i & Hst & _ & [Hi Hnew] & _ & ->). exists (Some s). pose proof (proj1 Hi).
  assert (Hin : s ∈ stop p) by (rewrite Hst; apply elem_of_app; right; left).
  unfold cut_at. destruct (include_stop_str_in_output p) eqn:Ei.
  - destruct (Z.leb_spec (zlen (output_text d)) (i + zlen s)).
    + exists (output_text d). cbn. rewrite <- Hsame. split; [done|]. split; [done|]. exists i. split; [done|]. split; [lia|].
      rewrite take_ge; [done|lia].
    + rewrite (proj2 (Z.eqb_neq _ (-1))) by lia. eexists. split; [done|]. split; [done|]. exists i. split; [done|]. split; [lia|done].
  - rewrite (proj2 (Z.eqb_neq _ (-1))) by lia. eexists. split; [done|]. split; [done|]. exists i. split; [done|]. split; [lia|done].
Qed.

(** The tokens of an output that are decoded. *)
Definition decoded_ids (new_token_ids : list Z) (stop_terminated : bool) : list Z :=
  if is_some (skipped_stop_token p new_token_ids stop_terminated) then drop_last 1 new_token_ids else new_token_ids.

Lemma skipped_tail ids term :
  decoded_ids ids term ++ match skipped_stop_token p ids term with Some t => [t] | None => [] end = ids.
Proof.
  unfold decoded_ids, skipped_stop_token. destruct (_ && _); cbn; [|apply app_nil_r].
  destruct (last ids) as [t|] eqn:E; cbn; [|apply app_nil_r].
  apply last_Some in E as [l ->]. unfold drop_last. rewrite length_app. cbn [length Z.ltb Z.compare].
  replace (Z.to_nat _) with (length l) by lia. by rewrite take_app_length.
Qed.

(** After an update: the text is all that is decoded, or cut at a stop string. *)
Record updated (visible ids : list Z) (term : bool) (d : Detokenizer DT) (r : option text) (d' : Detokenizer DT) : Prop := {
  upd_params : stop_params d' = p;
  upd_prompt : prompt_len d' = zlen prompt;
  upd_offset : last_output_text_offset d' = last_output_text_offset d;
  upd_ids : token_ids d' = prompt ++ visible ++ ids;
  upd_text : exists s full, decoder d' = Some s /\ decode_from prompt (visible ++ decoded_ids ids term) dt0 = (full, s) /\
    match r with
    | None => output_text d' = full
    | Some st => st ∈ stop p /\ cut_text (include_stop_str_in_output p) full st (zlen (output_text d)) (output_text d')
    end;
  upd_prefix : output_text d `prefix_of` (decode_from prompt (visible ++ decoded_ids ids term) dt0).1;
  upd_free : r = None -> min_tokens p = 0 -> free_of (stop p) (output_text d')
}.

Lemma update_run visible ids term d : decoding visible d ->
  exists r d', update ids term d = (Ok r, d') /\ updated visible ids term d r d'.
Proof.
  intros [Hp Hl Hi (s & Hs & Ht) Hfree]. unfold update, mbind, M_bind. cbn. rewrite Hs.
  destruct ids as [|i0 ids0] eqn:Eids.
  { exists None, d. split; [done|]. assert (E : visible ++ decoded_ids [] term = visible) by (unfold decoded_ids, skipped_stop_token; destruct (_ && _); apply app_nil_r).
    split; rewrite ?E, ?app_nil_r; [done..| |by rewrite Ht|done]. by exists s, (output_text d). }
  rewrite <- Eids in *. rewrite Hp. fold (decoded_ids ids term).
  destruct (decode_tokens_run (decoded_ids ids term) (zlen (output_text d)) d s Hs ltac:(lia)) as (off & E & Hoff & Hoff0). rewrite E. clear E.
  pose proof (decode_from_app prompt visible (decoded_ids ids term) dt0) as Eapp. rewrite Ht in Eapp. cbn [fst snd] in Eapp. rewrite <- Hi in Eapp.
  set (q := decode_from (token_ids d) (decoded_ids ids term) s) in *.
  set (d1 := set_output_text _ _).
  set (tl := match skipped_stop_token p ids term with Some t => [t] | None => [] end).
  set (d2 := set_token_ids (token_ids d1 ++ tl) d1).
  assert (E1 : (match skipped_stop_token p ids term with Some t => modify (fun d => set_token_ids (token_ids d ++ [t]) d) | None => mret tt end : M (Detokenizer DT) unit) d1 = (Ok tt, d2)).
  { unfold d2, tl. destruct (skipped_stop_token p ids term); [done|]. rewrite app_nil_r. by unfold d1; destruct d. }
  rewrite E1. destruct (evaluate_stop_run off d2 Hp) as (r & t & E2 & Hr); [cbn; lia|].
  exists r, (set_output_text t d2). split; [done|]. cbn in Hr. split.
  1-3: done.
  - cbn. rewrite Hi, <- !app_assoc. do 2 f_equal. apply skipped_tail.
  - exists q.2, (output_text d ++ q.1). split; [done|]. split; [done|]. destruct r as [st|]; [|apply Hr].
    destruct Hr as [Hin (i & H1 & H2 & H3)]. split; [done|]. exists i. split; [done|]. split; [lia|done].
  - rewrite Eapp. by apply prefix_app_r.
  - intros -> Hm. destruct Hr as [-> Hr]. cbn. rewrite Hp in Hoff0. rewrite Hoff0 in Hr by done. intros s' i Hs' Hi'.
    destruct (free_extend (stop p) (output_text d) q.1 s' i (Hfree Hm) stop_nonempty Hs' Hi') as [He Hpos].
    assert (Hlen : zlen (output_text d ++ q.1) = zlen (output_text d) + zlen q.1) by (rewrite length_app; lia).
    apply (Hr ltac:(rewrite Hm; unfold dt_num_output_tokens; cbn; rewrite Hl, Hi, <- !app_assoc, skipped_tail, !length_app, Eids; cbn; lia) s' i Hs'); [lia|].
    by replace (zlen (output_text d ++ q.1) - zlen (output_text d)) with (zlen q.1) by lia.
Qed.

Lemma stop_buffer_bound : 0 <= stop_buffer p /\ (include_stop_str_in_output p = false -> forall s, s ∈ stop p -> zlen s - 1 <= stop_buffer p).
Proof.
  assert (Hmax : forall l m, m <= foldl Z.max m l /\ forall x, x ∈ l -> x <= foldl Z.max m l).
  { induction l as [|y l IH]; intros m; cbn; [split; [lia|by intros x ?%elem_of_nil]|].
    destruct (IH (Z.max m y)) as [H1 H2]. split; [lia|]. intros x [->|Hx]%elem_of_cons; [lia|by apply H2]. }
  unfold stop_buffer. destruct (stop p) as [|s l] eqn:E; [split; [lia|by intros _ s ?%elem_of_nil]|].
  destruct (include_stop_str_in_output p); [by split; [lia|]|].
  destruct (Hmax ((fun s => zlen s) <$> l) (zlen s)) as [H1 H2]. split.
  - assert (s <> []) by (apply stop_nonempty; left). destruct s; [done|]. cbn [length] in *. lia.
  - intros _ s' [->|Hin]%elem_of_cons; [lia|]. enough (zlen s' <= foldl Z.max (zlen s) ((fun s => zlen s) <$> l)) by lia.
    apply H2, list_elem_of_fmap. by exists s'.
Qed.

(** What of the text was sent before the next output. *)
Definition sent (d : Detokenizer DT) : text := take (Z.to_nat (last_output_text_offset d)) (output_text d).
Definition held_back (d : Detokenizer DT) : Prop := last_output_text_offset d = Z.max 0 (zlen (output_text d) - stop_buffer p).

Lemma next_text_run (finished : bool) (d : Detokenizer DT) s : decoder d = Some s -> stop_params d = p -> 0 <= last_output_text_offset d ->
  let n := Z.max (last_output_text_offset d) (zlen (output_text d) - if finished then 0 else stop_buffer p) in
  get_next_output_text finished true d = (Ok (slice (last_output_text_offset d) n (output_text d)), set_last_offset n d).
Proof.
  intros Hs Hp H0. cbv zeta. unfold get_next_output_text, stop_buffer_length, mbind, M_bind. cbn. rewrite Hs, Hp. cbn.
  set (len := zlen (output_text d) - _). destruct (Z.ltb_spec (last_output_text_offset d) len).
  - by rewrite Z.max_r by lia.
  - rewrite Z.max_l by lia. unfold slice. rewrite Z.sub_diag. by destruct d.
Qed.

Lemma sent_next (a n : Z) (old new : text) : 0 <= a <= n -> take (Z.to_nat a) old = take (Z.to_nat a) new ->
  take (Z.to_nat a) old ++ slice a n new = take (Z.to_nat n) new.
Proof.
  intros Ha ->. unfold slice. rewrite take_take_drop. by replace (Z.to_nat a + Z.to_nat (n - a))%nat with (Z.to_nat n) by lia.
Qed.

(** A cut leaves what was sent. *)
Lemma cut_keeps (d : Detokenizer DT) full st t : held_back d -> output_text d `prefix_of` full -> st ∈ stop p ->
  cut_text (include_stop_str_in_output p) full st (zlen (output_text d)) t ->
  take (Z.to_nat (last_output_text_offset d)) (output_text d) = take (Z.to_nat (last_output_text_offset d)) t /\ last_output_text_offset d <= zlen t.
Proof.
  unfold held_back. intros Hh [k ->] Hin (i & Hi & Hnew & ->). pose proof (proj1 Hi) as Hi0. destruct stop_buffer_bound as [Hb0 Hb].
  set (a := last_output_text_offset d) in *. set (c := if include_stop_str_in_output p then i + zlen st else i).
  assert (Hc : a <= c).
  { unfold c. destruct (include_stop_str_in_output p); [lia|]. specialize (Hb eq_refl st Hin). lia. }
  assert (Ha : (Z.to_nat a <= length (output_text d))%nat) by lia. split.
  - rewrite take_take, Nat.min_l by lia. by rewrite take_app_le by lia.
  - rewrite length_take, length_app. lia.
Qed.

(** After the outputs [outs]: the text is all that is decoded, without stop strings,
    and the request has ended if and only if the last output says so; or it has ended
    at a stop string, which cuts the text. *)
Definition text_left (visible : list Z) (outs : list (list Z * option Request.FinishReason)) (finished : bool) (d : Detokenizer DT) : Prop :=
  let full := (decode_from prompt visible dt0).1 in
  (output_text d = full /\ (min_tokens p = 0 -> free_of (stop p) full) /\ finished = existsb (fun o => is_some o.2) outs) \/
  (finished = true /\ exists st i, st ∈ stop p /\ at_position st full i /\
    output_text d = take (Z.to_nat (if include_stop_str_in_output p then i + zlen st else i)) full).

(** The token that is not decoded: the one that ended the request, unless stops are
    to be included. *)
Definition left_out (outs : list (list Z * option Request.FinishReason)) : list Z :=
  match last outs with
  | Some (ids, Some Request.STOP) =>
      if include_stop_str_in_output p then [] else match last ids with Some t => [t] | None => [] end
  | _ => []
  end.

Lemma left_out_next ids outs : left_out ((ids, None) :: outs) = left_out outs.
Proof. unfold left_out. destruct outs; [done|]. by rewrite last_cons_cons. Qed.

Lemma updated_sent visible ids term d r d' : held_back d -> updated visible ids term d r d' ->
  take (Z.to_nat (last_output_text_offset d)) (output_text d) = take (Z.to_nat (last_output_text_offset d)) (output_text d') /\
  last_output_text_offset d <= zlen (output_text d').
Proof.
  intros Hh [_ _ _ _ (s & full & _ & E & H) Hp _]. rewrite E in Hp. cbn [fst] in Hp. destruct r as [st|].
  - destruct H as [Hin Hc]. by apply (cut_keeps d full st).
  - rewrite H. destruct Hp as [k ->]. unfold held_back in Hh. pose proof stop_buffer_bound as [Hb _]. rewrite length_app. split; [|lia].
    symmetry. apply take_app_le. lia.
Qed.

Definition terminated (finish_reason : option Request.FinishReason) : bool := match finish_reason with Some Request.STOP => true | _ => false end.

Lemma left_out_single ids fr : decoded_ids ids (terminated fr) ++ left_out [(ids, fr)] = ids.
Proof.
  rewrite <- (skipped_tail ids (terminated fr)) at 3. f_equal. unfold left_out, skipped_stop_token, terminated. cbn.
  destruct fr as [[]|]; cbn; [|done..]. by destruct (include_stop_str_in_output p).
Qed.

(** One output: the texts sent so far are the text, or all but what is held back. *)
Lemma process_output_run visible ids fr d : decoding visible d -> held_back d ->
  let dec := decoded_ids ids (terminated fr) in
  exists t finished d', process_output ids fr true d = (Ok (t, finished), d') /\ token_ids d' = prompt ++ visible ++ ids /\ prompt_len d' = zlen prompt /\
    text_left (visible ++ dec) [(ids, fr)] finished d' /\
    sent d ++ t = (if finished then output_text d' else sent d') /\ (finished = false -> fr = None /\ decoding (visible ++ ids) d' /\ held_back d').
Proof.
  intros Hd Hh. destruct (update_run visible ids (terminated fr) d Hd) as (r & d1 & E & U).
  unfold process_output, mbind, M_bind. fold (terminated fr). rewrite E.
  destruct (updated_sent _ _ _ _ _ _ Hh U) as [Hsent Hlen].
  destruct U as [U1 U2 U3 U4 (s & full & U5 & U6 & U7) U8 U9]. destruct stop_buffer_bound as [Hb0 _].
  set (finished := is_some fr || _). assert (H0 : 0 <= last_output_text_offset d) by (unfold held_back in Hh; lia).
  rewrite (next_text_run finished d1 s U5 U1) by lia. rewrite U3. set (n := Z.max _ _).
  eexists _, finished, (set_last_offset n d1). do 3 (split; [done|]). split; [|split].
  - unfold text_left. rewrite U6. cbn [fst existsb snd]. destruct r as [st|].
    + right. destruct U7 as [Hin (i & Hi & _ & Ht)]. split; [|by exists st, i].
      unfold finished. apply stop_nonempty in Hin. destruct st; [done|]. by rewrite orb_true_r.
    + left. split; [done|]. split; [intros Hm; rewrite <- U7; by apply U9|]. unfold finished. done.
  - unfold sent. rewrite (sent_next (last_output_text_offset d) n _ (output_text d1)) by (done || lia).
    destruct finished; [|done]. cbn. rewrite take_ge; [done|lia].
  - intros Hf. assert (fr = None) as ->. { unfold finished in Hf. by destruct fr. }
    change (decoded_ids ids (terminated None)) with ids in *. destruct r as [st|].
    { destruct U7 as [Hin _]. apply stop_nonempty in Hin. unfold finished in Hf. by destruct st. }
    split; [done|]. split.
    + split; [done|done|done| |by apply U9]. exists s. split; [done|]. cbn. by rewrite U7.
    + unfold held_back in *. cbn. unfold n. rewrite Hf, U7. destruct U8 as [k Hk]. rewrite U6 in Hk. cbn [fst] in Hk. rewrite Hk, length_app. lia.
Qed.

Lemma process_request_run outs : forall visible d, decoding visible d -> held_back d ->
  exists ts finished d' dec, process_request true outs d = (Ok (ts, finished), d') /\
    (finished = false -> length ts = length outs) /\ (length ts <= length outs)%nat /\
    token_ids d' = prompt ++ visible ++ concat (take (length ts) outs).*1 /\ prompt_len d' = zlen prompt /\
    dec ++ left_out (take (length ts) outs) = concat (take (length ts) outs).*1 /\
    (forall o, o ∈ removelast (take (length ts) outs) -> o.2 = None) /\
    text_left (visible ++ dec) (take (length ts) outs) finished d' /\
    sent d ++ concat ts = (if finished then output_text d' else sent d') /\
    (finished = false -> decoding (visible ++ dec) d' /\ held_back d').
Proof.
  induction outs as [|[ids fr] outs IH]; intros visible d Hd Hh; cbn -[process_output left_out removelast].
  { exists [], false, d, []. cbn. rewrite !app_nil_r. do 2 (split; [done|]). split; [lia|]. do 2 (split; [apply Hd|]). split; [done|].
    split; [by intros o ?%elem_of_nil|]. split; [|done]. left. destruct Hd as [_ _ _ (s & _ & ->) Hf]. done. }
  destruct (process_output_run visible ids fr d Hd Hh) as (t & f1 & d1 & E & Hi & Hpl & Htext & Hsent & Hgo).
  unfold mbind, M_bind. rewrite E. destruct f1.
  - exists [t], true, d1, (decoded_ids ids (terminated fr)). cbn -[left_out]. rewrite !app_nil_r.
    pose proof (left_out_single ids fr) as Hl. split_and!; try done; [lia|]. by intros o ?%elem_of_nil.
  - destruct (Hgo eq_refl) as (-> & Hd1 & Hh1).
    destruct (IH _ d1 Hd1 Hh1) as (ts & f2 & d2 & dec2 & E2 & Hl1 & Hl2 & Hi2 & Hpl2 & Hdec2 & Hnone & Htext2 & Hsent2 & Hgo2). rewrite E2.
    exists (t :: ts), f2, d2, (ids ++ dec2). cbn -[left_out removelast]. rewrite left_out_next. rewrite <- !app_assoc in *.
    split_and!; try done; [by intros; rewrite Hl1|lia|by rewrite Hdec2| |by rewrite app_assoc, Hsent].
    intros o Ho. destruct (take (length ts) outs) as [|x l]; [by apply elem_of_nil in Ho|].
    change (o ∈ (ids, None) :: removelast (x :: l)) in Ho. apply elem_of_cons in Ho as [->|Ho]; [done|by apply Hnone].
Qed.
End request.

(** C37. What is streamed of a request is its text. With a decoder that has a text
    for every token ([TotalDecoder]) and nonempty stop strings, every sequence of
    outputs of the engine core is processed without an exception, up to the first that
    ends the request: one with a finish reason, or one in whose text a stop string is
    found. The tokens kept are those of the outputs. All of them are decoded, but the
    stop token if that ended the request and is to be left out. Either the text is all
    that is decoded, no stop string is in it (if [min_tokens] is 0), and the request
    has ended if and only if the last output taken has a finish reason; or the request
    has ended and the text is cut at a stop string, before it or behind it as the
    parameters say. The texts sent one after the other are exactly that text once the
    request has ended, and before that all of it but the last characters, as many as a
    stop string that is to be left out could still need. *)
Theorem streamed_text_complete {DT : Type} `{!TokenDecoder DT} `{!TotalDecoder DT} (dt0 : DT) (prompt : list Z) (p : StopParams)
    (outs : list (list Z * option Request.FinishReason)) : (forall s, s ∈ stop p -> s <> []) ->
  exists ts finished d dec, process_request true outs (new_detokenizer (Some dt0) p prompt) = (Ok (ts, finished), d) /\
    (length ts <= length outs)%nat /\ (finished = false -> length ts = length outs) /\
    (forall o, o ∈ removelast (take (length ts) outs) -> o.2 = None) /\
    output_token_ids d = concat (take (length ts) outs).*1 /\
    output_token_ids d = dec ++ left_out p (take (length ts) outs) /\
    text_left dt0 prompt p dec (take (length ts) outs) finished d /\
    concat ts = drop_last (if finished then 0 else stop_buffer p) (output_text d).
Proof.
  intros Hne. set (d0 := new_detokenizer (Some dt0) p prompt). destruct (stop_buffer_bound p Hne) as [Hb _].
  assert (Hd : decoding dt0 prompt p [] d0).
  { split; [done|done|by rewrite app_nil_r|by exists dt0|]. intros _ s i Hs Hi. destruct (at_position_bound _ _ _ Hi) as [Hle| ->]; [|by destruct (Hne [])].
    specialize (Hne s Hs). destruct Hi as [Hi _]. destruct s; [done|]. cbn in Hle. lia. }
  assert (Hh : held_back p d0) by (unfold held_back; cbn; lia).
  destruct (process_request_run dt0 prompt p Hne outs [] d0 Hd Hh) as (ts & f & d & dec & E & Hl1 & Hl2 & Hi & Hp & Hdec & Hn & Ht & Hs & Hgo).
  assert (Hout : output_token_ids d = concat (take (length ts) outs).*1).
  { unfold output_token_ids. rewrite Hp, Hi, Nat2Z.id. by rewrite drop_app_length. }
  exists ts, f, d, dec. rewrite Hout. do 7 (split; [done|]).
  change (sent d0) with ([] : text) in Hs. cbn [app] in Hs. rewrite Hs.
  unfold drop_last. destruct f; [cbn; rewrite take_ge; [done|lia]|]. rewrite (proj2 (Z.ltb_ge _ 0)) by lia.
  destruct (Hgo eq_refl) as [_ Hh']. unfold sent. rewrite Hh'. f_equal. lia.
Qed.
End DetokenizerSafety.
