(* ===== verification/Outputs.v ===== *)
(** * Outputs

    What a client gets of a request: completions and their merging (outputs.py,
    [RequestOutputCollector] of v1/engine/output_processor.py), and the completions
    of a request with several of them (v1/engine/parallel_sampling.py).

    Log probabilities, routed experts, metrics and transfer parameters are left
    out; so are the [asyncio] event and the input task of a collector. A list of
    token ids has the elements it has when the output is made. *)

From stdpp Require Import pretty.
From S2P Require Import Prelude Request Detokenizer.

Module Outputs.
Import Detokenizer.
#[local] Open Scope Z_scope.

(** ** Completions *)

Inductive RequestOutputKind := CUMULATIVE | DELTA | FINAL_ONLY.
#[export] Instance RequestOutputKind_eq_dec : EqDecision RequestOutputKind.
Proof. solve_decision. Defined.

(** A stop reason of the engine core, or the stop string that was found. *)
Inductive Reason := CoreReason (r : Request.StopReason) | MatchedStop (t : text).

Record CompletionOutput := mkCompletion {
  index : Z;
  co_text : text;
  co_token_ids : list Z;
  co_finish_reason : option Request.FinishReason;
  co_stop_reason : option Reason
}.
Definition completion_finished (c : CompletionOutput) : bool := is_some (co_finish_reason c).

(** A place of [outputs] is [None] until a completion is put there. *)
Record RequestOutput := mkOutput {
  ro_request_id : string;
  ro_prompt : option text;
  ro_prompt_token_ids : option (list Z);
  outputs : list (option CompletionOutput);
  ro_finished : bool;
  ro_num_cached_tokens : option Z
}.
Definition set_outputs (v : list (option CompletionOutput)) (o : RequestOutput) : RequestOutput :=
  mkOutput (ro_request_id o) (ro_prompt o) (ro_prompt_token_ids o) v (ro_finished o) (ro_num_cached_tokens o).
Definition set_ro_finished (v : bool) (o : RequestOutput) : RequestOutput :=
  mkOutput (ro_request_id o) (ro_prompt o) (ro_prompt_token_ids o) (outputs o) v (ro_num_cached_tokens o).

Record PoolingRequestOutput := mkPoolingOutput {
  po_request_id : string;
  po_data : bytes;
  po_num_cached_tokens : Z;
  po_prompt_token_ids : list Z;
  po_finished : bool
}.

Definition merge_completion (c next : CompletionOutput) : CompletionOutput :=
  mkCompletion (index c) (co_text c ++ co_text next) (co_token_ids c ++ co_token_ids next) (co_finish_reason next) (co_stop_reason next).

(** The inner loop of [add], with its [else]. *)
Fixpoint place_completion (aggregate : bool) (next : option CompletionOutput) (outputs : list (option CompletionOutput)) : result (list (option CompletionOutput)) :=
  match outputs with
  | [] => Ok [next]
  | completion :: outputs =>
      match completion, next with
      | Some c, Some n =>
          if index c =? index n then Ok (Some (if aggregate then merge_completion c n else n) :: outputs)
          else match place_completion aggregate next outputs with Ok l => Ok (completion :: l) | Err e => Err e end
      | _, _ => Err AttributeError
      end
  end.
Definition add_completion (aggregate : bool) (next : option CompletionOutput) : M RequestOutput unit := fun o =>
  match place_completion aggregate next (outputs o) with
  | Ok l => (Ok tt, set_outputs l o)
  | Err e => (Err e, o)
  end.

(** [RequestOutput.add] *)
Definition add (next_output : RequestOutput) (aggregate : bool) : M RequestOutput unit :=
  modify (fun o => set_ro_finished (ro_finished o || ro_finished next_output) o) ;;
  for_each (add_completion aggregate) (outputs next_output).

(** [STREAM_FINISHED] *)
Definition STREAM_FINISHED : RequestOutput := mkOutput EmptyString None None [] true None.

(** ** Hand-off to the task of the client *)

Inductive Item := Output (o : RequestOutput) | Pooling (o : PoolingRequestOutput) | Exception (e : exn).

Record RequestOutputCollector := mkCollector {
  aggregate : bool;
  q_request_id : string;
  output : option Item
}.
Definition set_output (v : option Item) (q : RequestOutputCollector) : RequestOutputCollector := mkCollector (aggregate q) (q_request_id q) v.
Definition new_collector (output_kind : RequestOutputKind) (request_id : string) : RequestOutputCollector :=
  mkCollector (bool_decide (output_kind = DELTA)) request_id None.

Definition collector_put (item : Item) : M RequestOutputCollector unit := fun q =>
  match output q, item with
  | None, _ | _, Exception _ => (Ok tt, set_output (Some item) q)
  | Some (Output o), Output next => let '(r, o) := add next (aggregate q) o in (r, set_output (Some (Output o)) q)
  | Some (Pooling _), Pooling _ => (Ok tt, set_output (Some item) q)
  | _, _ => (Ok tt, q)
  end.

(** [get_nowait]; [get] is the same once there is an output, for which it waits. *)
Definition get_nowait : M RequestOutputCollector (option Item) :=
  output ← gets output;
  (match output with Some _ => modify (set_output None) | None => mret tt end) ;;
  match output with
  | Some (Exception e) => raise e
  | _ => mret output
  end.

(** ** Several completions of one prompt *)

(** The sampling parameters the front end reads. *)
Record FrontSampling := mkFrontSampling {
  sp_n : Z;
  sp_seed : option Z;
  sp_stop : StopParams;
  sp_detokenize : bool;
  sp_skip_special_tokens : bool;
  sp_output_kind : RequestOutputKind
}.
Definition child_sampling (seed : option Z) (p : FrontSampling) : FrontSampling :=
  mkFrontSampling 1 seed (sp_stop p) (sp_detokenize p) (sp_skip_special_tokens p) (sp_output_kind p).

Record ParentRequest := mkParent {
  p_request_id : string;
  p_external_req_id : string;
  p_sampling_params : FrontSampling;
  child_requests : gset string;
  output_aggregator : list (option CompletionOutput);
  max_num_generation_tokens : Z;
  cached_child_sampling_params : option FrontSampling
}.
Definition set_child_requests (v : gset string) (p : ParentRequest) : ParentRequest :=
  mkParent (p_request_id p) (p_external_req_id p) (p_sampling_params p) v (output_aggregator p) (max_num_generation_tokens p) (cached_child_sampling_params p).
Definition set_aggregator (v : list (option CompletionOutput)) (p : ParentRequest) : ParentRequest :=
  mkParent (p_request_id p) (p_external_req_id p) (p_sampling_params p) (child_requests p) v (max_num_generation_tokens p) (cached_child_sampling_params p).
Definition set_max_generation (v : Z) (p : ParentRequest) : ParentRequest :=
  mkParent (p_request_id p) (p_external_req_id p) (p_sampling_params p) (child_requests p) (output_aggregator p) v (cached_child_sampling_params p).
Definition set_cached_child (v : option FrontSampling) (p : ParentRequest) : ParentRequest :=
  mkParent (p_request_id p) (p_external_req_id p) (p_sampling_params p) (child_requests p) (output_aggregator p) (max_num_generation_tokens p) v.

Definition final_only (p : ParentRequest) : bool := bool_decide (sp_output_kind (p_sampling_params p) = FINAL_ONLY).

Definition new_parent (request_id external_req_id : string) (params : FrontSampling) : ParentRequest :=
  mkParent request_id external_req_id params ∅
    (if bool_decide (sp_output_kind params = FINAL_ONLY) then replicate (Z.to_nat (sp_n params)) None else []) 0 None.

Definition get_child_sampling_params (index : Z) : M ParentRequest FrontSampling :=
  p ← get;
  match cached_child_sampling_params p with
  | Some c => mret c
  | None =>
      match sp_seed (p_sampling_params p) with
      | None => let c := child_sampling None (p_sampling_params p) in modify (set_cached_child (Some c)) ;; mret c
      | Some seed => mret (child_sampling (Some (seed + index)) (p_sampling_params p))
      end
  end.

(** [f"{index}_{self.request_id}"] *)
Definition child_id (index : Z) (request_id : string) : string := String.append (pretty index) (String.append "_" request_id).

Definition get_child_info (index : Z) : M ParentRequest (string * FrontSampling) :=
  p ← get;
  let child_req_id := child_id index (p_request_id p) in
  modify (fun p => set_child_requests ({[child_req_id]} ∪ child_requests p) p) ;;
  c ← get_child_sampling_params index;
  mret (child_req_id, c).

(** A completion of a finished child is taken off [child_requests]; says whether it
    was not there any more. *)
Definition take_child (child_request_id : string) (completion_output : CompletionOutput) : M ParentRequest bool :=
  p ← get;
  if negb (completion_finished completion_output) then mret false
  else if bool_decide (child_request_id ∈ child_requests p) then
    modify (fun p => set_child_requests (child_requests p ∖ {[child_request_id]}) p) ;; mret false
  else mret true.

Definition get_outputs (child_request_id : string) (completion_output : CompletionOutput) : M ParentRequest (list (option CompletionOutput) * bool) :=
  already_finished_and_returned ← take_child child_request_id completion_output;
  p ← get;
  let finished := bool_decide (child_requests p = ∅) in
  if negb (final_only p) then mret (if already_finished_and_returned : bool then [] else [Some completion_output], finished)
  else
    let i := if index completion_output <? 0 then index completion_output + zlen (output_aggregator p) else index completion_output in
    if (0 <=? i) && (i <? zlen (output_aggregator p)) then
      modify (fun p => set_aggregator (<[Z.to_nat i := Some completion_output]> (output_aggregator p)) p) ;;
      p ← get;
      mret (if finished then output_aggregator p else [], finished)
    else raise IndexError.

(** The children [LLMEngine.add_request] makes of a request. *)
Definition fan_out (request_id external_req_id : string) (params : FrontSampling) : result (list (string * FrontSampling)) * ParentRequest :=
  map_m get_child_info (zrange (sp_n params)) (new_parent request_id external_req_id params).

Definition observe_num_generation_tokens (num_generation_tokens : Z) : M ParentRequest Z :=
  modify (fun p => set_max_generation (Z.max num_generation_tokens (max_num_generation_tokens p)) p) ;;
  gets max_num_generation_tokens.
End Outputs.
