(* ===== verification/OutputsSafety.v ===== *)
(** * OutputsSafety

    Merging the deltas of a client that is slow loses nothing, and a request with
    several completions that does not stream is answered once, with all of them. *)

From stdpp Require Import pretty.
From S2P Require Import Prelude Request Detokenizer Outputs.

Module OutputsSafety.
Import Detokenizer Outputs.
#[local] Open Scope Z_scope.

(** ** The collector *)

(** All places are filled, by completions of different indices. *)
Definition indices (l : list (option CompletionOutput)) : list Z := omap (fmap index) l.
Record regular (o : RequestOutput) : Prop := {
  reg_filled : None ∉ outputs o;
  reg_indices : NoDup (indices (outputs o))
}.

(** What completion [k] gets by some outputs. *)
Definition piece {A} (f : CompletionOutput -> list A) (k : Z) (c : option CompletionOutput) : list A :=
  match c with Some c => if index c =? k then f c else [] | None => [] end.
Definition pieces {A} (f : CompletionOutput -> list A) (k : Z) (os : list RequestOutput) : list A :=
  concat (piece f k <$> concat (outputs <$> os)).

Lemma pieces_app {A} (f : CompletionOutput -> list A) k os1 os2 : pieces f k (os1 ++ os2) = pieces f k os1 ++ pieces f k os2.
Proof. unfold pieces. by rewrite fmap_app, concat_app, fmap_app, concat_app. Qed.

(** What is merged: texts and token ids are put one behind the other. *)
Definition additive {A} (f : CompletionOutput -> list A) : Prop := forall c n, f (merge_completion c n) = f c ++ f n.
Lemma additive_text : additive co_text.
Proof. done. Qed.
Lemma additive_tokens : additive co_token_ids.
Proof. done. Qed.

(** What of completion [k] is replaced by what comes later. *)
Definition latest {A} (f : CompletionOutput -> A) (k : Z) (os : list RequestOutput) : option A := last (pieces (fun c => [f c]) k os).
Definition overriding {A} (f : CompletionOutput -> A) : Prop := forall c n, f (merge_completion c n) = f n.

Lemma last_app_eq {A} (x y1 y2 : list A) : last y1 = last y2 -> last (x ++ y1) = last (x ++ y2).
Proof. intros E. by rewrite !last_app, E. Qed.
Lemma last_app_eq_l {A} (x1 x2 y : list A) : last x1 = last x2 -> last (x1 ++ y) = last (x2 ++ y).
Proof. intros E. by rewrite !last_app, E. Qed.

Lemma pieces_absent {A} (f : CompletionOutput -> list A) k l : k ∉ indices l -> concat (piece f k <$> l) = [].
Proof.
  induction l as [|[c|] l IH]; [done| |done]. cbn. intros [Hk Hin]%not_elem_of_cons.
  by rewrite (proj2 (Z.eqb_neq _ _)) by done; apply IH.
Qed.

Lemma place_spec n l : None ∉ l -> NoDup (indices l) ->
  exists l', place_completion true (Some n) l = Ok l' /\ None ∉ l' /\ NoDup (indices l') /\
    (forall k, k ∈ indices l' <-> k = index n \/ k ∈ indices l) /\
    (forall A (f : CompletionOutput -> list A) k, additive f -> concat (piece f k <$> l') = concat (piece f k <$> l) ++ piece f k (Some n)) /\
    forall A (f : CompletionOutput -> A) k, overriding f ->
      last (concat (piece (fun c => [f c]) k <$> l')) = last (concat (piece (fun c => [f c]) k <$> l) ++ piece (fun c => [f c]) k (Some n)).
Proof.
  induction l as [|[c|] l IH]; intros Hn Hd; cbn [place_completion].
  - exists [Some n]. split; [done|]. split; [by intros ?%list_elem_of_singleton|]. split; [apply NoDup_singleton|]. split; [|by split; intros; cbn; rewrite app_nil_r].
    intros k. cbn. by rewrite elem_of_cons.
  - apply not_elem_of_cons in Hn as [_ Hn]. apply NoDup_cons in Hd as [Hc Hd]. destruct (Z.eqb_spec (index c) (index n)) as [E|E].
    + eexists. split; [done|]. split; [by apply not_elem_of_cons|]. split; [by apply NoDup_cons|]. split.
      * intros k. cbn. rewrite !elem_of_cons. rewrite <- E. tauto.
      * split; intros A f k Hf; cbn; rewrite <- E; (destruct (Z.eqb_spec (index c) k) as [<-|]; [|by rewrite app_nil_r]).
        -- by rewrite (pieces_absent f _ l Hc), Hf, !app_nil_r.
        -- by rewrite (pieces_absent _ _ l Hc), Hf, !app_nil_r, last_app.
    + destruct (IH Hn Hd) as (l' & -> & H1 & H2 & H3 & H4 & H5). eexists. split; [done|]. split; [by apply not_elem_of_cons|]. split.
      * apply NoDup_cons. split; [|done]. intros [?|?]%H3; [by apply E|done].
      * split; [intros k; cbn; rewrite !elem_of_cons, H3; tauto|]. split; intros A f k Hf; cbn; [by rewrite (H4 A f k Hf), app_assoc|].
        rewrite <- app_assoc. by apply last_app_eq, H5.
  - exfalso. apply Hn. left.
Qed.

Lemma add_spec o next : regular o -> regular next ->
  exists o', add next true o = (Ok tt, o') /\ regular o' /\ ro_finished o' = ro_finished o || ro_finished next /\
    (forall A (f : CompletionOutput -> list A) k, additive f -> pieces f k [o'] = pieces f k [o; next]) /\
    forall A (f : CompletionOutput -> A) k, overriding f -> latest f k [o'] = latest f k [o; next].
Proof.
  intros Ho [Hn _]. unfold add, mbind, M_bind. cbn [modify].
  assert (Hgen : forall l o1, None ∉ l -> regular o1 -> exists o', for_each (add_completion true) l o1 = (Ok tt, o') /\ regular o' /\
    ro_finished o' = ro_finished o1 /\ (forall A (f : CompletionOutput -> list A) k, additive f -> pieces f k [o'] = pieces f k [o1] ++ concat (piece f k <$> l)) /\
    forall A (f : CompletionOutput -> A) k, overriding f -> latest f k [o'] = last (pieces (fun c => [f c]) k [o1] ++ concat (piece (fun c => [f c]) k <$> l))).
  { induction l as [|[n|] l IH]; intros o1 Hl Ho1.
    - exists o1. split; [done|]. split; [done|]. split; [done|]. split; intros; [cbn; by rewrite !app_nil_r|]. change (concat _) with ([] : list A). by rewrite app_nil_r.
    - apply not_elem_of_cons in Hl as [_ Hl]. destruct Ho1 as [H1 H2]. destruct (place_spec n _ H1 H2) as (l' & E & H3 & H4 & _ & H5 & H6).
      destruct (IH (set_outputs l' o1) Hl) as (o' & E' & Hr & Hf & Hp & Hq); [by split|]. exists o'. split.
      { cbn. unfold mbind, M_bind, add_completion at 1. by rewrite E. }
      split; [done|]. split; [done|]. split; intros A f k Hadd.
      + rewrite (Hp A f k Hadd). unfold pieces. cbn. rewrite !app_nil_r, (H5 A f k Hadd). by rewrite app_assoc.
      + rewrite (Hq A f k Hadd). unfold pieces. cbn. rewrite !app_nil_r. rewrite app_assoc. by apply last_app_eq_l, H6.
    - exfalso. apply Hl. left. }
  destruct (Hgen (outputs next) (set_ro_finished (ro_finished o || ro_finished next) o) Hn) as (o' & E & Hr & Hf & Hp & Hq); [by destruct Ho|].
  exists o'. split; [done|]. split; [done|]. split; [done|]. split; intros A f k Hadd.
  - rewrite (Hp A f k Hadd). unfold pieces. cbn. by rewrite !app_nil_r, fmap_app, concat_app.
  - rewrite (Hq A f k Hadd). unfold latest, pieces. cbn. by rewrite !app_nil_r, fmap_app, concat_app.
Qed.

(** The output processor puts outputs while the client takes them. *)
Inductive Action := Put (o : RequestOutput) | Get.
Fixpoint session (l : list Action) : M RequestOutputCollector (list RequestOutput) :=
  match l with
  | [] => mret []
  | Put o :: l => collector_put (Output o) ;; session l
  | Get :: l => r ← get_nowait; os ← session l; mret (match r with Some (Output o) => o :: os | _ => os end)
  end.
Definition puts (l : list Action) : list RequestOutput := omap (fun a => match a with Put o => Some o | Get => None end) l.
(** What waits for the client. *)
Definition waiting (q : RequestOutputCollector) : list RequestOutput := match output q with Some (Output o) => [o] | _ => [] end.
Definition any_finished (os : list RequestOutput) : bool := existsb ro_finished os.

Lemma get_nowait_run q : (forall i, output q = Some i -> exists o, i = Output o /\ regular o) ->
  get_nowait q = (Ok (output q), match output q with Some _ => set_output None q | None => q end).
Proof.
  intros Hw. unfold get_nowait, gets, modify, mbind, M_bind. destruct (output q) as [i|] eqn:E; [|done].
  by destruct (Hw i eq_refl) as (o & -> & _).
Qed.

(** What the client gets is what is put. *)
Record conveys (got put : list RequestOutput) : Prop := {
  cv_pieces : forall A (f : CompletionOutput -> list A) k, additive f -> pieces f k got = pieces f k put;
  cv_latest : forall A (f : CompletionOutput -> A) k, overriding f -> latest f k got = latest f k put;
  cv_finished : any_finished got = any_finished put
}.

Lemma conveys_refl os : conveys os os.
Proof. done. Qed.
Lemma conveys_trans os1 os2 os3 : conveys os1 os2 -> conveys os2 os3 -> conveys os1 os3.
Proof. intros [A1 B1 C1] [A2 B2 C2]. split; intros; [by rewrite A1, A2|by rewrite B1, B2|by rewrite C1]. Qed.
Lemma conveys_app l1 l2 r1 r2 : conveys l1 l2 -> conveys r1 r2 -> conveys (l1 ++ r1) (l2 ++ r2).
Proof.
  intros [A1 B1 C1] [A2 B2 C2]. split; intros.
  - by rewrite !pieces_app, A1, A2.
  - unfold latest in *. rewrite !pieces_app. etransitivity; [apply last_app_eq; by apply B2|apply last_app_eq_l; by apply B1].
  - unfold any_finished in *. by rewrite !existsb_app, C1, C2.
Qed.

Lemma add_conveys o next : regular o -> regular next -> exists o', add next true o = (Ok tt, o') /\ regular o' /\ conveys [o'] [o; next].
Proof.
  intros Ho Hn. destruct (add_spec o next Ho Hn) as (o' & E & Hr & Hf & Hp & Hq). exists o'. split; [done|]. split; [done|].
  split; [done|done|]. cbn. by rewrite Hf, !orb_false_r.
Qed.

Lemma session_run l : forall q, aggregate q = true -> (forall i, output q = Some i -> exists o, i = Output o /\ regular o) ->
  (forall o, o ∈ puts l -> regular o) ->
  exists got q', session l q = (Ok got, q') /\ conveys (got ++ waiting q') (waiting q ++ puts l).
Proof.
  induction l as [|[o|] l IH]; intros q Hq Hw Hl; cbn -[collector_put get_nowait puts].
  - exists [], q. cbn [puts omap]. by rewrite !app_nil_r.
  - change (puts (Put o :: l)) with (o :: puts l) in *. assert (Ho : regular o) by (apply Hl; left).
    unfold mbind, M_bind, collector_put. destruct (output q) as [i|] eqn:Eq.
    + destruct (Hw i eq_refl) as (o0 & -> & Ho0). destruct (add_conveys o0 o Ho0 Ho) as (o1 & E & Ho1 & Hc). rewrite Hq, E.
      destruct (IH (set_output (Some (Output o1)) q)) as (got & q' & E' & H); [done|intros i [= <-]; by exists o1|intros; apply Hl; by right|].
      exists got, q'. split; [done|]. eapply conveys_trans; [exact H|]. unfold waiting. rewrite Eq.
      exact (conveys_app [o1] [o0; o] (puts l) (puts l) Hc (conveys_refl _)).
    + destruct (IH (set_output (Some (Output o)) q)) as (got & q' & E' & H); [done|intros i [= <-]; by exists o|intros; apply Hl; by right|].
      exists got, q'. split; [done|]. unfold waiting at 2. by rewrite Eq.
  - change (puts (Get :: l)) with (puts l) in *. unfold mbind, M_bind. rewrite (get_nowait_run q Hw). destruct (output q) as [i|] eqn:Eq.
    + destruct (Hw i eq_refl) as (o0 & -> & Ho0).
      destruct (IH (set_output None q)) as (got & q' & -> & H); [done..|]. exists (o0 :: got), q'. split; [done|]. unfold waiting at 2. rewrite Eq.
      exact (conveys_app [o0] [o0] (got ++ waiting q') (puts l) (conveys_refl _) H).
    + destruct (IH q) as (got & q' & -> & H); [done|by rewrite Eq|done|]. by exists got, q'.
Qed.

(** The reasons for which a completion ended, if it has. *)
Definition reasons (c : CompletionOutput) := (co_finish_reason c, co_stop_reason c).
Lemma overriding_reasons : overriding reasons.
Proof. done. Qed.

(** C39. A client that streams loses nothing, however slow it is. Whatever the order
    in which the output processor puts deltas and the client takes what there is,
    no call raises; for every completion, the texts the client took and what waits for
    it are, one behind the other, the texts that were put; so are the token ids; the
    finish and stop reasons that it learns last are those put last for the completion;
    and it learns of the end of the request if and only if it was told. Each output
    put has its completions filled in, with different indices. *)
Theorem collector_merges_losslessly request_id (l : list Action) : (forall o, o ∈ puts l -> regular o) ->
  exists got q, session l (new_collector DELTA request_id) = (Ok got, q) /\
    (forall k, pieces co_text k (got ++ waiting q) = pieces co_text k (puts l)) /\
    (forall k, pieces co_token_ids k (got ++ waiting q) = pieces co_token_ids k (puts l)) /\
    (forall k, latest reasons k (got ++ waiting q) = latest reasons k (puts l)) /\
    any_finished (got ++ waiting q) = any_finished (puts l).
Proof.
  intros Hl. destruct (session_run l (new_collector DELTA request_id)) as (got & q & E & [H1 H2 H3]); [by vm_compute|done|done|].
  exists got, q. split; [done|]. split; [|split; [|split; [|done]]]; intros k; [by apply H1..|by apply H2].
Qed.

(** ** Several completions *)

Lemma append_inj_l a b s : String.append a s = String.append b s -> a = b.
Proof.
  intros E. assert (Hlen : forall x, String.length (String.append x s) = (String.length x + String.length s)%nat).
  { induction x as [|c x IH]; [done|]. exact (f_equal S IH). }
  assert (Hl : String.length a = String.length b) by (pose proof (f_equal String.length E) as H; rewrite !Hlen in H; lia).
  clear Hlen. revert b E Hl. induction a as [|c a IH]; intros [|c' b] E Hl; [done..|]. cbn in E. injection E as -> E.
  f_equal. apply IH; [done|]. cbn in Hl. lia.
Qed.

Lemma child_id_inj i j r : child_id i r = child_id j r -> i = j.
Proof. intros E. apply append_inj_l in E. by apply (inj pretty) in E. Qed.

(** Every child is answered for in turn. *)
Definition answer_all (request_id : string) (l : list CompletionOutput) : M ParentRequest (list (list (option CompletionOutput) * bool)) :=
  map_m (fun c => get_outputs (child_id (index c) request_id) c) l.

Section parent.
Context (params : FrontSampling) (request_id external_req_id : string).

(** The parameters of a child. *)
Definition child_params (i : Z) : FrontSampling := child_sampling ((fun s => s + i) <$> sp_seed params) params.

(** The parent while its children are made. *)
Record parent_of (ids : gset string) (p : ParentRequest) : Prop := {
  par_id : p_request_id p = request_id;
  par_params : p_sampling_params p = params;
  par_children : child_requests p = ids;
  par_cached : forall c, cached_child_sampling_params p = Some c -> sp_seed params = None /\ c = child_sampling None params;
  par_aggregator : output_aggregator p = output_aggregator (new_parent request_id external_req_id params)
}.

Lemma spawn_run l : forall ids p, parent_of ids p ->
  exists p', map_m get_child_info l p = (Ok ((fun i => (child_id i request_id, child_params i)) <$> l), p') /\
    parent_of (list_to_set ((fun i => child_id i request_id) <$> l) ∪ ids) p'.
Proof.
  induction l as [|i l IH]; intros ids p Hp; cbn [map_m]; [exists p; split; [done|]; by rewrite fmap_nil, list_to_set_nil, union_empty_l_L|].
  assert (exists p1, get_child_info i p = (Ok (child_id i request_id, child_params i), p1) /\ parent_of ({[child_id i request_id]} ∪ ids) p1) as (p1 & E1 & Hp1).
  { destruct Hp as [H1 H2 H3 H4 H5]. unfold get_child_info, get_child_sampling_params, get, modify, mbind, M_bind, child_params. cbn. rewrite H1, H2.
    destruct (cached_child_sampling_params p) as [c|] eqn:Ec.
    - destruct (H4 c eq_refl) as [Hs ->]. rewrite Hs. eexists. split; [done|]. split; cbn; [done|done|by rewrite H3| |done]. intros c. rewrite Ec. by intros [= <-].
    - destruct (sp_seed params) eqn:Es; cbn; eexists; (split; [done|]); (split; cbn; [done|done|by rewrite H3| |done]); intros c; [by rewrite Ec|by intros [= <-]]. }
  unfold mbind, M_bind. rewrite E1. destruct (IH _ p1 Hp1) as (p2 & E2 & Hp2). rewrite E2. exists p2. split; [done|].
  rewrite fmap_cons, list_to_set_cons. by rewrite (union_comm_L {[_]}), <- union_assoc_L.
Qed.

(** The children that are answered for, [over], and those that are not, [rest]. *)
Record answered (n : Z) (over rest : list CompletionOutput) (p : ParentRequest) : Prop := {
  ans_final : final_only p = true;
  ans_children : forall s, s ∈ child_requests p <-> exists c, c ∈ rest /\ s = child_id (index c) request_id;
  ans_length : zlen (output_aggregator p) = n;
  ans_filled : forall c, c ∈ over -> output_aggregator p !! Z.to_nat (index c) = Some (Some c)
}.

Definition in_range (n : Z) (l : list CompletionOutput) : Prop :=
  NoDup (index <$> l) /\ forall c, c ∈ l -> completion_finished c = true /\ 0 <= index c < n.

Lemma get_outputs_run n over c rest p : in_range n (over ++ c :: rest) -> answered n over (c :: rest) p ->
  exists p', get_outputs (child_id (index c) request_id) c p = (Ok (match rest with [] => output_aggregator p' | _ => [] end, match rest with [] => true | _ => false end), p') /\
    answered n (over ++ [c]) rest p'.
Proof.
  intros [Hd Hr] [H1 H2 H3 H4]. destruct (Hr c) as [Hf Hi]; [by apply elem_of_app; right; left|].
  assert (Hin : child_id (index c) request_id ∈ child_requests p) by (apply H2; exists c; split; [left|done]).
  set (ids := child_requests p ∖ {[child_id (index c) request_id]}).
  assert (Hne : forall c', c' ∈ over \/ c' ∈ rest -> index c' <> index c).
  { rewrite fmap_app, fmap_cons in Hd. apply NoDup_app in Hd as (_ & Hdis & Hd). apply NoDup_cons in Hd as [Hc _].
    intros c' [Hc'|Hc'] E.
    - apply (Hdis (index c)); [rewrite <- E; by apply list_elem_of_fmap_2|left].
    - apply Hc. rewrite <- E. by apply list_elem_of_fmap_2. }
  assert (Hids : forall s, s ∈ ids <-> exists c', c' ∈ rest /\ s = child_id (index c') request_id).
  { intros s. unfold ids. rewrite elem_of_difference, elem_of_singleton, H2. split.
    - intros [(c' & [->|Hc']%elem_of_cons & ->) Hs]; [done|by exists c'].
    - intros (c' & Hc' & ->). split; [exists c'; split; [by right|done]|]. intros E%child_id_inj. by apply (Hne c'); [right|]. }
  assert (Hfin : bool_decide (ids = ∅) = match rest with [] => true | _ => false end).
  { case_bool_decide as E; destruct rest as [|c' rest']; [done| |exfalso; apply E; apply elem_of_equiv_empty_L; by intros s (c' & ?%elem_of_nil & _)%Hids|done].
    exfalso. assert (child_id (index c') request_id ∈ ids) by (apply Hids; exists c'; split; [left|done]). rewrite E in *. by apply not_elem_of_empty in H. }
  set (p1 := set_child_requests ids p).
  exists (set_aggregator (<[Z.to_nat (index c) := Some c]> (output_aggregator p)) p1). split.
  - unfold get_outputs, take_child, get, modify, mbind, M_bind. cbn. rewrite Hf. cbn. rewrite bool_decide_true by done. cbn.
    change (final_only (set_child_requests _ p)) with (final_only p). rewrite H1. cbn.
    rewrite (proj2 (Z.ltb_ge (index c) 0)) by lia. rewrite (proj2 (Z.leb_le _ _)), (proj2 (Z.ltb_lt _ _)) by lia. cbn. fold ids. rewrite Hfin. by destruct rest.
  - split; cbn; [done|exact Hids|by rewrite length_insert|]. intros c' [Hc'| ->%list_elem_of_singleton]%elem_of_app.
    + rewrite list_lookup_insert_ne; [by apply H4|]. destruct (Hr c') as [_ ?]; [by apply elem_of_app; left|]. specialize (Hne c' (or_introl Hc')). lia.
    + apply list_lookup_insert_eq. lia.
Qed.

Lemma answer_all_run n l : forall over p, l <> [] -> in_range n (over ++ l) -> answered n over l p ->
  exists p', answer_all request_id l p = (Ok (replicate (length l - 1) ([], false) ++ [(output_aggregator p', true)]), p') /\ answered n (over ++ l) [] p'.
Proof.
  unfold answer_all. induction l as [|c l IH]; intros over p Hne Hr Hp; [done|]. destruct (get_outputs_run n over c l p Hr Hp) as (p1 & E1 & H1).
  cbn [map_m]. unfold mbind, M_bind. rewrite E1. destruct l as [|c' l']; [by exists p1|].
  destruct (IH (over ++ [c]) p1) as (p2 & E2 & H2); [done|by rewrite <- app_assoc|done|]. rewrite E2. exists p2. rewrite <- app_assoc in H2.
  cbn [length]. by rewrite !Nat.sub_succ, !Nat.sub_0_r.
Qed.
End parent.

Lemma zrange_elem n i : i ∈ zrange n <-> 0 <= i < n.
Proof.
  unfold zrange. rewrite list_elem_of_fmap. split; [intros (k & -> & Hk%elem_of_seq); lia|]. intros Hi. exists (Z.to_nat i). rewrite elem_of_seq. lia.
Qed.
Lemma zrange_distinct n : NoDup (zrange n).
Proof. unfold zrange. apply NoDup_fmap_2; [intros ? ?; lia|apply NoDup_seq]. Qed.

(** The completions of a request with [n] of them, by index. *)
Definition completions_of (n : Z) (cs : list CompletionOutput) : Prop :=
  zlen cs = n /\ forall i c, cs !! i = Some c -> index c = Z.of_nat i /\ completion_finished c = true.

Lemma completions_range n cs l : completions_of n cs -> l ≡ₚ cs -> in_range n l.
Proof.
  intros [Hn Hc] Hl. split.
  - rewrite Hl. apply NoDup_alt. intros i j x Hi Hj. apply list_lookup_fmap_Some in Hi as (c1 & -> & H1). apply list_lookup_fmap_Some in Hj as (c2 & E & H2).
    apply Hc in H1 as [H1 _]. apply Hc in H2 as [H2 _]. lia.
  - intros c H. rewrite Hl in H. apply list_elem_of_lookup in H as [i Hi]. pose proof (lookup_lt_Some _ _ _ Hi). apply Hc in Hi as [-> ?]. split; [done|lia].
Qed.

(** C40. A request for several completions that does not stream is answered once. Its
    children have different ids, ask for one completion each, and have seeds of their
    own if there is a seed. Whatever the order in which they finish, every child
    but the last is answered with nothing, and the last with the completions of all
    of them in the order of their indices. *)
Theorem parallel_answered_once (params : FrontSampling) request_id external_req_id (cs l : list CompletionOutput) :
  sp_output_kind params = FINAL_ONLY -> 0 < sp_n params -> completions_of (sp_n params) cs -> l ≡ₚ cs ->
  exists children p p', fan_out request_id external_req_id params = (Ok children, p) /\
    children = (fun i => (child_id i request_id, child_sampling ((fun s => s + i) <$> sp_seed params) params)) <$> zrange (sp_n params) /\
    NoDup children.*1 /\
    answer_all request_id l p = (Ok (replicate (Z.to_nat (sp_n params) - 1) ([], false) ++ [(Some <$> cs, true)]), p').
Proof.
  intros Hk Hn Hcs Hl. pose proof (completions_range _ _ _ Hcs Hl) as Hr. destruct Hcs as [Hlen Hcs].
  destruct (spawn_run params request_id external_req_id (zrange (sp_n params)) ∅ (new_parent request_id external_req_id params)) as (p & E & Hp); [by split|].
  destruct (answer_all_run request_id (sp_n params) l [] p) as (p' & E' & Ha).
  - intros ->. apply Permutation_nil_l in Hl as <-. cbn in Hlen. lia.
  - done.
  - destruct Hp as [H1 H2 H3 H4 H5]. unfold new_parent in H5. rewrite bool_decide_true in H5 by done. cbn in H5. split; [unfold final_only; rewrite H2; by apply bool_decide_true| | |by intros c ?%elem_of_nil].
    + intros s. rewrite H3, union_empty_r_L, elem_of_list_to_set, list_elem_of_fmap. split.
      * intros (i & -> & Hi). apply zrange_elem in Hi. destruct (lookup_lt_is_Some_2 cs (Z.to_nat i)) as [c Hc]; [lia|].
        exists c. split; [rewrite Hl; by eapply list_elem_of_lookup_2|]. apply Hcs in Hc as [-> _]. by rewrite Z2Nat.id by lia.
      * intros (c & Hc & ->). exists (index c). split; [done|]. apply zrange_elem. by apply Hr.
    + rewrite H5, length_replicate. lia.
  - exists ((fun i => (child_id i request_id, child_params params i)) <$> zrange (sp_n params)), p, p'. split; [done|]. split; [done|]. split.
    + rewrite <- list_fmap_compose. apply NoDup_fmap_2_strong; [by intros i j _ _ H%child_id_inj|apply zrange_distinct].
    + assert (El : length l = Z.to_nat (sp_n params)) by (rewrite Hl; lia). destruct Ha as [_ _ H3 H4].
      assert (Eo : output_aggregator p' = Some <$> cs); [|by rewrite E', El, Eo].
      apply list_eq_same_length with (n := length cs); [by rewrite length_fmap|lia|]. intros i x y _ Hx Hy.
      apply list_lookup_fmap_Some in Hy as (c & -> & Hc). pose proof (Hcs i c Hc) as [Hci _].
      specialize (H4 c). rewrite Hci, Nat2Z.id in H4. rewrite H4 in Hx; [by injection Hx as <-|]. cbn. rewrite Hl. by eapply list_elem_of_lookup_2.
Qed.
End OutputsSafety.
