(* ===== verification/FrontendWitness.v ===== *)
(** * FrontendWitness

    The theorems on texts and outputs at concrete requests: a slow decoder over a
    tokenizer with one token per character, a slow client, three completions. *)

From S2P Require Import Prelude Request Detokenizer DetokenizerSafety Outputs OutputsSafety.

Module FrontendWitness.
Import Detokenizer DetokenizerSafety Outputs OutputsSafety.
#[local] Open Scope Z_scope.

(** ** Texts *)

(** A token is a code point. *)
#[local] Instance char_tokenizer : TokenizerLike := {|
  vocabulary_size := 1000; is_fast := true; added_vocab := []; all_special_tokens := [];
  convert_ids_to_tokens := fun l _ => TokenList ((fun t => Some [t]) <$> l);
  convert_tokens_to_string := fun l => concat l
|}.
#[local] Instance char_decoder : TokenDecoder SlowDecoder := SlowIncrementalDetokenizer false false.
#[local] Instance char_decoder_total : TotalDecoder SlowDecoder := slow_total false false.

(** The prompt Hi; the stop string !? is to be left out. *)
Definition hi : list Z := [72; 105].
Definition start : SlowDecoder := new_slow false (Some hi) 2.
Definition stop_at : StopParams := mkStop [[33; 63]] 0 false.
(** a, then b!, then ?c; the last output comes too late. *)
Definition outs : list (list Z * option Request.FinishReason) := [([97], None); ([98; 33], None); ([63; 99], None); ([100], None)].

(** "x" grows by "AyA" with the stop string A; and "xa" by "b" with two, of which the
    first is not there. *)
Lemma stop_strings_left_out_witness :
  check_stop_strings [120; 65; 121; 65] 3 [[65]] false = Some ([65], 1) /\ free_of [[65]] (remaining [120; 65; 121; 65] 1) /\
  check_stop_strings [120; 97; 98] 1 [[99]; [97; 98]] true = Some ([97; 98], -1).
Proof.
  pose proof (stop_strings_left_out [120] [65; 121; 65] [[65]] false) as H1.
  pose proof (stop_strings_left_out [120; 97] [98] [[99]; [97; 98]] true) as H2.
  change (check_stop_strings _ _ _ _) with (Some ([65], 1)) in H1. change (check_stop_strings _ _ _ _) with (Some ([97; 98], -1)) in H2.
  split; [vm_compute; reflexivity|]. split; [|vm_compute; reflexivity]. destruct H1 as (_ & _ & H1); [| |by right|exact H1].
  - by intros s ->%list_elem_of_singleton.
  - intros s i ->%list_elem_of_singleton Hi. destruct (at_position_bound _ _ _ Hi) as [Hle|?]; [|done]. destruct Hi as [Hi E]. cbn in Hle.
    assert (i = 0) as -> by lia. vm_compute in E. discriminate E.
Defined.

(** Several new characters and two stop strings: the text that is left has the other
    stop string in it. *)
Example stop_string_remains :
  check_stop_strings [120; 65; 121; 66] 4 [[66]; [65]] false = Some ([66], 3) /\ at_position [65] (remaining [120; 65; 121; 66] 3) 1.
Proof. by split. Qed.

Lemma streamed_text_complete_witness :
  (process_request true outs (new_detokenizer (Some start) stop_at hi)).1 = Ok ([[]; [97; 98]; []], true) /\
  exists ts finished d dec, process_request true outs (new_detokenizer (Some start) stop_at hi) = (Ok (ts, finished), d) /\
    (length ts <= length outs)%nat /\ (finished = false -> length ts = length outs) /\
    (forall o, o ∈ removelast (take (length ts) outs) -> o.2 = None) /\
    output_token_ids d = concat (take (length ts) outs).*1 /\
    output_token_ids d = dec ++ left_out stop_at (take (length ts) outs) /\
    text_left start hi stop_at dec (take (length ts) outs) finished d /\
    concat ts = drop_last (if finished then 0 else stop_buffer stop_at) (output_text d).
Proof.
  split; [vm_compute; reflexivity|]. apply (streamed_text_complete start hi stop_at outs).
  intros s Hs. cbn in Hs. rewrite elem_of_cons in Hs. destruct Hs as [->|Hs]; [done|by apply elem_of_nil in Hs].
Defined.

(** ** Outputs *)

Definition delta (i : Z) (t : text) (f : option Request.FinishReason) : RequestOutput :=
  mkOutput "r"%string None None [Some (mkCompletion i t t f None)] (is_some f) None.
(** The client takes one output of four. *)
Definition slow_client : list Action :=
  [Get; Put (delta 0 [97] None); Get; Put (delta 0 [98] None); Put (delta 1 [120] None); Put (delta 0 [99] (Some Request.LENGTH))].

Lemma delta_regular i t f : regular (delta i t f).
Proof. split; cbn; [by intros ?%list_elem_of_singleton|apply NoDup_singleton]. Qed.

Lemma collector_merges_losslessly_witness :
  (session slow_client (new_collector DELTA "r")).1 = Ok [delta 0 [97] None] /\
  exists got q, session slow_client (new_collector DELTA "r") = (Ok got, q) /\
    (forall k, pieces co_text k (got ++ waiting q) = pieces co_text k (puts slow_client)) /\
    (forall k, pieces co_token_ids k (got ++ waiting q) = pieces co_token_ids k (puts slow_client)) /\
    (forall k, latest reasons k (got ++ waiting q) = latest reasons k (puts slow_client)) /\
    any_finished (got ++ waiting q) = any_finished (puts slow_client).
Proof.
  split; [vm_compute; reflexivity|]. apply (collector_merges_losslessly "r" slow_client).
  intros o Ho. cbn in Ho. rewrite !elem_of_cons in Ho. destruct Ho as [->|[->|[->|[->|Ho]]]]; [apply delta_regular..|by apply elem_of_nil in Ho].
Defined.

Definition three : FrontSampling := mkFrontSampling 3 (Some 7) stop_at true false FINAL_ONLY.
Definition completion (i : Z) : CompletionOutput := mkCompletion i [97 + i] [97 + i] (Some Request.STOP) None.

Lemma parallel_answered_once_witness :
  completions_of 3 [completion 0; completion 1; completion 2] /\
  exists children p p', fan_out "r" "x" three = (Ok children, p) /\
    children = (fun i => (child_id i "r", child_sampling ((fun s => s + i) <$> sp_seed three) three)) <$> zrange 3 /\
    NoDup children.*1 /\
    answer_all "r" [completion 2; completion 0; completion 1] p =
      (Ok (replicate 2 ([], false) ++ [(Some <$> [completion 0; completion 1; completion 2], true)]), p').
Proof.
  assert (H : completions_of 3 [completion 0; completion 1; completion 2]).
  { split; [done|]. by intros [|[|[|]]] c [= <-]. }
  split; [exact H|]. apply (parallel_answered_once three "r" "x" [completion 0; completion 1; completion 2] [completion 2; completion 0; completion 1]).
  - reflexivity.
  - reflexivity.
  - exact H.
  - apply (Permutation_app_comm [completion 2] [completion 0; completion 1]).
Defined.
End FrontendWitness.
